(* ===== verification/_CoqProject ===== *)
-Q . S2P
Prelude.v
MachineInts.v
Text.v
Oid.v
Value.v
Pdu.v
Cells.v
Handler.v
Snapshots.v
Scalar.v
Config.v
ConfigFiles.v
Ber.v
Wire.v
Usm.v
V3.v
Reference.v
Smux.v
SmuxServer.v
Persist.v
DefaultStore.v
Notify.v
Smi.v
SmiDefs.v
Mib.v
Vacm.v
Registry.v
Serving.v
Agent.v
Exchange.v
Row.v
Helpers.v
TableDataSet.v
Alarm.v
Schedule.v
Expr.v
DismanEvent.v
AgentxTypes.v
AgentxCodec.v
AgentxRoundtrip.v
AgentxMaster.v
Session.v
Manager.v
Transports.v
Notiflog.v
TrapReceiver.v
Proxy.v
MibTables.v
Pass.v
ProcNet.v
Host.v
Ucd.v
AgentMib.v
Settings.v
SnmpConf.v
Remote.v
Walk.v
Mgmt.v
TranslateFmt.v
Tools.v
TableTools.v
AdminTools.v
Codegen.v
Dialogue.v
