(* ===== verification/Prelude.v ===== *)
(** * Verification library of net-snmp-rs

    A model of net-snmp-rs, an SNMP agent, library and tool set in Rust, and
    the theorems that make it correct. The model is a shallow embedding:
    Rust's pure functions are functions of the same name, methods that change
    [&mut self] or what a lock protects pass their state explicitly, [Result]
    is [result], and a loop that is not structural runs on fuel, with [None]
    for fuel that ran out. A panic of the code is [None] under the [let!]
    notation of this file.

    ** The program and the files that model it

    A manager's session turns a request into a message and sends it over a
    transport. The agent reads the datagram, checks its community or its user,
    engine and time window, and hands the PDU to the registry. The registry
    finds the handlers whose root covers each OID, checks the caller's view and
    calls the handlers; the handlers answer from scalars, tables and caches,
    which collectors fill from the operating system. Sub-agents attach to the
    agent by the AgentX or the older SMUX protocol, over which the agent
    forwards requests; a subtree may also be served by a script or by another
    agent. The DISMAN engines run on alarms, read the agent through a handler of
    their own and send notifications, which go to the targets of the
    configuration; the trap receiver takes notifications in and logs them.
    Scalars and the boot counter survive restarts in files. MIB modules give
    objects their names, types and constraints. The tools read their settings,
    walk agents and print what they get.

    Foundations:
    - [Prelude]: results, panics, [Vec] and iterator idioms ([max_by], [min_by],
      [retain], stable sorting), automation.
    - [MachineInts]: the ranges of [uN] and [iN], [as] casts, byte orders.
    - [Text]: strings as lists of Unicode scalar values, UTF-8, decimal numbers,
      and the [owner NUL name] keys of the DISMAN maps.
    - [Cells]: ordered cells and the standard library's binary searches, which
      are proved to find the binding of an OID and its successor.

    The library ([crates/netsnmp/src]):
    - [Oid], [Value], [Pdu]: [oid.rs], [value.rs], [pdu.rs].
    - [Config], [ConfigFiles]: [config/word.rs] and the in-memory parser of
      [config/parse.rs]; reading files, include directives and the search path.
    - [DefaultStore]: [default_store.rs].
    - [Wire]: [convert.rs], [message.rs], [error.rs] and the conversions of
      [value.rs] and [pdu.rs]: domain types to the types of the BER library and
      back, and the community message.
    - [Usm], [V3]: [usm/] and [v3/], keys, MACs, privacy and user records;
      SNMPv3 messages built and read.
    - [Session]: [session/], both client sessions over the class [Transport].
    - [Transports]: [transport.rs], [unix_transport.rs], [callback_transport.rs]
      and [udp_shared.rs].
    - [Smi], [SmiDefs]: [smi/], the two readings of MIB modules. [Smi] has the
      tokenizer, the scan for labelled definitions and the fixed-point
      resolution; [SmiDefs] the structured reading of OBJECT-TYPE clauses,
      constraints and conventions. Both run on the loop combinators [Smi.run]
      and [SmiDefs.walk].
    - [Mib]: [mib.rs], the registry of names, OIDs and definitions.
    - [Alarm]: [alarm.rs]. The sleeps of worker tasks that end are the steps of
      the environment.

    The agent ([crates/netsnmp-agent/src]):
    - [Handler]: [handler.rs]. A [dyn MibHandler] is a record of operations over
      a world. The classes [ReadableHandler] and [ReservingHandler] say what the
      registry may rely on; the registry's theorems are proved against them and
      each handler's file provides the instances. [place] puts a handler with a
      state of its own into a larger world through a lens.
    - [Snapshots], [Scalar], [Helpers]: [scalar.rs] and [helpers/]. The snapshot
      cache that [FnHandler], [CacheHandler] and [TableHandler] share is
      [Snapshots.Snapshot]; the clock belongs to the state.
    - [Row], [TableDataSet]: [row.rs] and [helpers/table_dataset.rs], the
      RowStatus machine and the writable table driven by it.
    - [Vacm]: [vacm/mod.rs], the four tables, the access decision and the
      directives of [snmpd.conf].
    - [Registry], [Serving]: [registry.rs]. [Registry] holds the code's loops
      and the lemmas that relate them to the ordered union of the handlers'
      cells; [Serving] states the guarantees and has a registry of two handlers
      on which they are evaluated.
    - [Agent]: [agent.rs], from a datagram to its answer.
    - [Schedule], [Expr], [DismanEvent], [Remote]: [disman/], scheduled actions,
      expressions, triggers, and the ping, traceroute and lookup engines.
    - [AgentxTypes], [AgentxCodec], [AgentxRoundtrip]: [agentx/protocol.rs], its
      data, its encoder and decoder, and what is proved of them.
    - [AgentxMaster]: the tables of [agentx/master.rs] as a step function over
      the interleaved events of its connection tasks, forwarding through the
      codec, and the request loop of [agentx/subagent.rs].
    - [Ber], [Smux], [SmuxServer]: [smux.rs], its BER primitives, its PDUs, and
      the server with its connections as a step function over events.
    - [Persist]: [persist.rs] over a file system that is a map from names to
      bytes.
    - [Notify]: [notify/mod.rs] with [crates/netsnmp/src/trap.rs]: the tables, the
      directives that fill them and what leaves for each target.
    - [TrapReceiver], [Notiflog]: [trap/], the receiver of notifications, its
      formats and its log.
    - [Proxy]: [proxy.rs], the handler that asks another agent through a session.
    - [Pass]: [mibgroup/pass.rs], subtrees served by a script.
    - [MibTables], [ProcNet], [Host], [Ucd], [AgentMib]: the groups of [mibgroup/]
      and the collectors behind them: the configuration as tables, the network
      groups of [/proc/net], the host, the UCD groups, and the agent itself with
      the sensors of [hardware/].

    The tools ([crates/netsnmp-apps/src]):
    - [Settings]: [addr.rs], [value.rs], [usm.rs], [cli.rs], [settings.rs].
    - [Walk]: [client.rs] and [table.rs], the client over both kinds of session,
      its walks and the tables put together from them.
    - [Mgmt]: [mgmt.rs]. [TranslateFmt]: [translate_fmt.rs].
    - [SnmpConf]: [bin/snmpconf.rs], the configuration generator: its menus as a
      function of the answers given, and the text it writes.
    - [Tools]: the request tools ([snmpwalk], [snmpbulkwalk], [snmpdelta],
      [snmpstatus] and the like), from what a client brings to the lines printed.
    - [TableTools]: [snmptable], [snmpdf], [snmpps], [snmpnetstat].
    - [AdminTools]: [snmpusm], [snmpvacm], [encode_keychange], [agentxtrap] and
      the offline translators.
    - [Codegen]: [codegen.rs] and [bin/mib2c.rs], code from MIB modules.

    Compositions:
    - [Reference]: concrete codecs and cryptography that obey the laws assumed of
      third-party code.
    - [Exchange]: a concrete agent, to which the theorems on messages and on the
      agent are applied. [Manager]: client sessions linked to the agent of
      [Agent]. [Dialogue]: the agent of [Exchange] behind such a link, to which
      the theorems on sessions, walks and transports are applied.

    The model of an operation keeps its name. State that the code keeps behind
    [Arc<Mutex<_>>] is a record with a field for each of the code's; [W] is the
    world that handlers, transports or processes share.

    ** What the theorems show

    Serving requests. Over handlers that keep the contract [RegistryOk], which
    asks that no root lies in another's subtree, GET, GETNEXT and GETBULK under
    access control are refined by a specification over one sorted list of
    readable cells ([Serving.process_serves], [Serving.getnext_least],
    [Serving.bulk_shape]) and disclose nothing outside the view
    ([Serving.reads_never_leak]). The theorems on the agent, on sessions and on
    walks rest on the same contract. Whatever the handlers do, what the view
    denies is refused ([Serving.denied_requests]). A SET over handlers that
    commit what they reserve is atomic, and a refusal names the first binding
    refused ([Serving.set_all_or_nothing]); for handlers that do not,
    [Registry.set_commit_phase] says what is undone and what is reported.
    [Registry.handler_for_longest] and [Serving.nested_roots_skip] describe
    dispatch, the second where it departs from the order of the cells because
    roots are nested, as the shipped [ip] group and [ipRouteTable] are.

    Messages and security. A message read back is the one written, for
    communities ([Wire.message_roundtrip]) and for users
    ([V3.user_message_roundtrip]); what is accepted as authentic carries the MAC
    of its own bytes under the user's key ([V3.parse_authentic]).

    The agent. A read is answered as the registry answers it, for a community
    ([Agent.community_read]) and for a user inside the time window
    ([Agent.v3_read]); the loop goes on after any datagram
    ([Agent.serve_on_goes_on]).

    Sessions. A request is retransmitted as often as it says and not more
    ([Session.request_retransmits]); a v3 session discovers the engine and walks
    the agent ([Manager.v3_open_and_walk]); one whose clock has gone stale
    recovers ([Manager.stale_session_recovers]). Walks and table fetches of the
    tools bring every readable cell once ([Walk.community_client_walks],
    [Walk.secure_client_fetches]).

    Transports. What is framed on a stream is what is read back
    ([Transports.Framed.messages_read_back]), in-process pairs deliver in order
    ([Transports.Callback.pair_delivers_in_order]), and a session over a handle of
    the shared socket gets the first datagram that carries its request's id, from
    whatever address and whatever the other handles do
    ([Transports.UdpShared.session_on_shared_socket]).

    Access control. The decision is that of the four stages the module documents
    ([Vacm.is_view_accessible_iff]), in the last of which it departs from RFC
    3415 ([Vacm.exclusion_beats_specific]); the row test is characterised and
    compared with the RFC's ([Vacm.matches_required], [Vacm.matches_rfc],
    [Vacm.short_mask_widens]), the tables keep one row per key
    ([Vacm.reachable_ok]), and the MIB tables show exactly them, as of a moment
    less than 900 milliseconds ago ([MibTables.vacm_tables_serve]).

    Handlers. Caches answer from what the provider returned less than their time
    to live ago ([Helpers.cached_reads_bounded]). The writable table changes
    exactly what a SET names and never has an active row without its required
    columns, unless the application writes the status itself
    ([TableDataSet.TableDataSet.set_effect], [active_rows_complete]);
    [create_and_go_iff], [duplicate_create_not_atomic] and
    [Row.transition_rfc_table] state where its RowStatus differs from what the
    comments or the RFC describe. The groups' cells are sorted, lie under their
    roots and are what was collected; the instances of [ReadableHandler] for the
    handlers that hold them carry the registry's theorems over.

    AgentX. PDUs survive a round trip, but for GetNext and registered ranges
    ([AgentxRoundtrip.pdu_roundtrip], [pdu_changed]), any bytes are decoded to a
    PDU with fields in range or an error ([decode_total], [decode_pdu_wf]),
    encoding panics for one OID only ([encode_panics_iff]).
    The master's tables follow its tasks in every interleaving
    ([AgentxMaster.tables_follow_tasks]) unless a write fails
    ([failed_write_leaks]); forwarded requests are followed through the codec
    to the sub-agent and back.

    SMUX. The decoder answers on any bytes ([Smux.decode_smux_pdu_total]), the
    framing gives back the PDUs written ([SmuxServer.stream_roundtrip]), the
    tables follow the connections ([smux_tables_follow_connections],
    [subtrees_are_authorised], [closed_connection_is_reclaimed]) unless the
    answer to a registration cannot be written ([lost_answer_is_never_cleared]),
    and a forwarded GET returns what the peer answers
    ([smux_get_end_to_end]), whatever request it was for
    ([any_response_answers]).

    Other agents and scripts. The proxy handler answers what the remote agent
    answers below the proxied root ([Proxy.v3_proxy_mirrors]), and past its end
    what lies beyond ([Proxy.successor_leaves_the_root]); a script that keeps to the protocol serves
    the objects it holds ([Pass.script_serves]).

    Persistence and notifications. Saved scalars come back as they were, unless
    Opaque ([Persist.scalars_survive_restart], [other_scalars_change]), an interrupted save leaves the old file
    or the new ([interrupted_save]), boots increase ([boots_increase]). One
    notification leaves for each target, and what a receiver reads in it is
    stated per version ([Notify.every_sink_is_notified]). A notification built for a
    user the receiver knows is surfaced with what was sent
    ([TrapReceiver.v3_notification_received]), and so is one built without that
    user's keys ([TrapReceiver.keyless_notification_is_surfaced]); the log holds the newest ones
    ([TrapReceiver.log_holds_the_newest]).

    Configuration and tools. Includes are bounded whatever the files say, and a
    file without includes reads as its text ([ConfigFiles.plain_file],
    [ConfigFiles.self_include_copies]); the settings of a tool are those of its
    options, then of its files ([Settings.settings_read]).
    The generator of configurations writes what the tools read back, for answers
    its quoting covers ([SnmpConf.interactive_config_reads],
    [SnmpConf.written_word_read_iff]). The walking tools print each readable cell
    once, in order ([Tools.walking_tools_print]); differences of counters are
    the true growth, across wraps at 32 bits ([Tools.deltas_are_exact]); table
    tools show whole tables ([TableTools.snmptable_shows], [snmpdf_shows]); a
    printed key change is the one the agent inverts
    ([AdminTools.printed_key_change]); the code generated for a table does not
    close its parentheses ([Codegen.generated_parentheses]).

    MIB modules. The text of a module compiles to the resolution of its
    definitions ([Smi.compile_shown]), resolution is their least meaning in any
    order ([Smi.resolve_denotes], [resolve_order]) as long as named numbers head
    values only where their names are settled
    ([Smi.named_head_depends_on_order]), a printed OBJECT-TYPE is read back
    ([SmiDefs.object_def_roundtrip]), the two readings agree on OIDs
    ([inline_agrees]) where the recursive one returns
    ([circular_module_diverges]). Names translate to OIDs and back in every
    loaded registry ([Mib.loaded_names_translate]); validation accepts the union
    of the constraints met ([validate_value_iff]).

    DISMAN. The expression evaluator implements the grammar of its parser, which
    is the documented one with plus signs that count for nothing
    ([Expr.evaluate_expression_grammar], [plus_signs_are_idle]); triggers fire at the crossings of
    their thresholds ([DismanEvent.DismanEvent.threshold_trace]); a poll is the
    parallel evaluation of all triggers, whatever the order of the map
    ([poll_once_parallel]); alarms follow schedule entries
    ([Schedule.Schedule.wakes_follow_entries]); a finished alarm stays silent
    ([Alarm.Alarm.silent_for_ever]). The tables of pings, traceroutes and lookups
    serve the results of the last run ([Remote.ping_is_served]).

    ** Fuel

    The access-checked GETNEXT skips denied instances in a loop; the registry's
    theorems need one more unit than there are cells, and then have an answer.
    The list loops of the AgentX decoder take the length of the input, since
    every item consumes at least four bytes ([decode_total] has no premise).
    The word splitter and the expression lexer take the length of the text, and
    the expression parser [4 * n + 3] for [n] tokens; these are enough on every
    input ([Config.parse_words_fuel_enough], [Expr.lex_loop_total],
    [Expr.evaluate_tokens_total]). The loops of the MIB compiler take the length
    of what is left ([Smi.turns_total], [SmiDefs.walk_fuel]) and resolution one
    pass more than there are definitions ([Smi.resolve_loop_ends]).
    [SmiDefs.resolve_inline] and [Mib.effective_syntax] are recursions that need
    not return: their fuel is an argument of everything that calls them. The
    depth of included files is the code's own limit, by structural recursion. A
    walk need not end against an arbitrary peer; its fuel is an argument, and the
    theorems on walks give the fuel that is enough against an agent.

    ** Assumptions on the environment

    Integer arithmetic is that of a release build, which wraps where a debug
    build panics. Closures and other handlers are arguments. Where a theorem needs a promise
    of theirs it is a class or a named hypothesis, and the witness after the
    theorem instantiates it. Locks are not modelled: an operation that takes
    a lock for its whole effect is one step. Engines with several tasks
    (AgentX, SMUX, alarms, schedules, the shared socket) are step functions or
    relations over their events. The order in which a [HashMap] is iterated is a
    parameter where the result depends on it.

    Third-party code is the operations of a class, with what the source relies
    on as a second class of laws: [Rasn] and [RasnV3], the BER codec of the
    message types; [Crypto], hash functions, HMAC and the block cipher.
    [Reference] has instances of all of them. The operating system is reached
    through classes and parameters too: [Transport], what sending and receiving
    do; [Processes], [Commands] and [Resolver], what scripts, commands and the
    resolver do; file contents, directory listings, environment variables, what
    the [sysinfo] crate reports and the calendar of [chrono] are functions or
    records.

    ** Not modelled

    Binding, connecting and closing sockets; TLS and DTLS; the code that
    constructs groups and engines and calls [Registry::register] for each; the
    accessors of [hardware/] that copy fields of a snapshot modelled in [Host];
    the main functions of the daemons [snmpd] and [snmptrapd] and the parsing of
    command lines; logging; test harnesses. These are calls of the operating
    system and of other libraries around the parts above. Locks and tasks are modelled as far as their steps
    interleave; preemption inside an operation is not. *)

From Stdlib Require Import ZArith Lia.
From stdpp Require Export base option list sorting strings gmap.

#[export] Set Default Proof Using "Type".

Declare Scope snmp_scope.
Delimit Scope snmp_scope with snmp.
Global Open Scope Z_scope.
Open Scope snmp_scope.

(** ** [Result<T, E>] and its [?] operator *)

Inductive result (T E : Type) : Type :=
| Ok (v : T)
| Err (e : E).
Arguments Ok {T E} v.
Arguments Err {T E} e.

Definition rbind {T U E} (f : T → result U E) (r : result T E) : result U E :=
  match r with Ok v => f v | Err e => Err e end.

Notation "'let?' x ':=' r 'in' k" := (rbind (fun x => k) r)
  (at level 10, x pattern, r at level 100, k at level 200)
  : snmp_scope.

Definition is_ok {T E} (r : result T E) : bool :=
  match r with Ok _ => true | Err _ => false end.

#[export] Instance result_eq_dec {T E} `{EqDecision T, EqDecision E} :
  EqDecision (result T E).
Proof. solve_decision. Defined.

(** [Option::ok_or]. *)
Definition ok_or {T E} (e : E) (o : option T) : result T E :=
  match o with Some v => Ok v | None => Err e end.

(** ** Panicking code: [None] is the panic *)

Notation "'let!' x ':=' o 'in' k" := (mbind (M:=option) (fun x => k) o)
  (at level 10, x pattern, o at level 100, k at level 200)
  : snmp_scope.

(** ** Rust's iterator selections *)

(** [Iterator::max_by] keeps the LAST of the maximal elements, [min_by] the
    FIRST of the minimal ones; [gt x y] says that the earlier [x] is strictly
    greater than the later [y] (strictly smaller for [min_by]). *)
Section Selection.
Context {A : Type}.

Fixpoint max_by_from (gt : A → A → bool) (best : A) (l : list A) : A :=
  match l with
  | [] => best
  | x :: l' => max_by_from gt (if gt best x then best else x) l'
  end.

Definition max_by (gt : A → A → bool) (l : list A) : option A :=
  match l with [] => None | x :: l' => Some (max_by_from gt x l') end.

Fixpoint min_by_from (gt : A → A → bool) (best : A) (l : list A) : A :=
  match l with
  | [] => best
  | x :: l' => min_by_from gt (if gt best x then x else best) l'
  end.

Definition min_by (gt : A → A → bool) (l : list A) : option A :=
  match l with [] => None | x :: l' => Some (min_by_from gt x l') end.

Lemma max_by_from_in gt (b : A) l :
  max_by_from gt b l = b ∨ max_by_from gt b l ∈ l.
Proof.
  revert b. induction l as [|x l IH]; intros b; simpl; [by left|].
  destruct (IH (if gt b x then b else x)) as [E|E].
  - rewrite E. destruct (gt b x); [by left|right; left].
  - right. by right.
Qed.

Lemma max_by_elem gt (l : list A) x : max_by gt l = Some x → x ∈ l.
Proof.
  destruct l as [|y l]; simpl; [done|]. intros [= <-].
  destruct (max_by_from_in gt y l) as [->|?]; [left|by right].
Qed.

Lemma max_by_None gt (l : list A) : max_by gt l = None ↔ l = [].
Proof. by destruct l. Qed.

Lemma min_by_from_in gt (b : A) l :
  min_by_from gt b l = b ∨ min_by_from gt b l ∈ l.
Proof.
  revert b. induction l as [|x l IH]; intros b; simpl; [by left|].
  destruct (IH (if gt b x then x else b)) as [E|E].
  - rewrite E. destruct (gt b x); [right; left|by left].
  - right. by right.
Qed.

Lemma min_by_elem gt (l : list A) x : min_by gt l = Some x → x ∈ l.
Proof.
  destruct l as [|y l]; simpl; [done|]. intros [= <-].
  destruct (min_by_from_in gt y l) as [->|?]; [left|by right].
Qed.

Lemma min_by_None gt (l : list A) : min_by gt l = None ↔ l = [].
Proof. by destruct l. Qed.

(** When [gt] is the strict part of a total preorder given by a measure, the
    selected element is extremal. *)
Section Extremal.
Context (gt : A → A → bool) (le : A → A → Prop).
Context `{!Transitive le, !Reflexive le}.
Context (gt_true : ∀ x y, gt x y = true → le y x).
Context (gt_false : ∀ x y, gt x y = false → le x y).

Lemma max_by_from_ub b l :
  le b (max_by_from gt b l) ∧ ∀ y, y ∈ l → le y (max_by_from gt b l).
Proof using All.
  revert b. induction l as [|x l IH]; intros b; simpl.
  { split; [reflexivity|]. intros y Hy. by apply elem_of_nil in Hy. }
  destruct (gt b x) eqn:G; [destruct (IH b) as [H1 H2]|destruct (IH x) as [H1 H2]];
    (split; [|intros y [->|Hy]%elem_of_cons; [|by apply H2]]); try done.
  - transitivity b; eauto.
  - transitivity x; eauto.
Qed.

Lemma max_by_ub l x : max_by gt l = Some x → ∀ y, y ∈ l → le y x.
Proof using All.
  destruct l as [|b l]; simpl; [done|]. intros [= <-] y.
  destruct (max_by_from_ub b l) as [H1 H2].
  intros [->|Hy]%elem_of_cons; [done|by apply H2].
Qed.

Lemma min_by_from_lb b l :
  le (min_by_from gt b l) b ∧ ∀ y, y ∈ l → le (min_by_from gt b l) y.
Proof using All.
  revert b. induction l as [|x l IH]; intros b; simpl.
  { split; [reflexivity|]. intros y Hy. by apply elem_of_nil in Hy. }
  destruct (gt b x) eqn:G; [destruct (IH x) as [H1 H2]|destruct (IH b) as [H1 H2]];
    (split; [|intros y [->|Hy]%elem_of_cons; [|by apply H2]]); try done.
  - transitivity x; eauto.
  - transitivity b; eauto.
Qed.

Lemma min_by_lb l x : min_by gt l = Some x → ∀ y, y ∈ l → le x y.
Proof using All.
  destruct l as [|b l]; simpl; [done|]. intros [= <-] y.
  destruct (min_by_from_lb b l) as [H1 H2].
  intros [->|Hy]%elem_of_cons; [done|by apply H2].
Qed.
End Extremal.
End Selection.

(** With a measure the two selections are determined: [max_by] is the last
    maximal element, [min_by] the first minimal one. *)
Definition last_max {A} (m : A → Z) (l : list A) (x : A) : Prop :=
  ∃ l1 l2, l = l1 ++ x :: l2 ∧ (∀ y, y ∈ l1 → m y <= m x) ∧ (∀ y, y ∈ l2 → m y < m x).

Definition first_min {A} (m : A → Z) (l : list A) (x : A) : Prop :=
  ∃ l1 l2, l = l1 ++ x :: l2 ∧ (∀ y, y ∈ l1 → m x < m y) ∧ (∀ y, y ∈ l2 → m x <= m y).

Section Measured.
Context {A : Type} (m : A → Z).

Lemma max_by_from_last gt b l :
  (∀ x y, gt x y = (m y <? m x)) → last_max m (b :: l) (max_by_from gt b l).
Proof.
  intros Hg. revert b. induction l as [|x l IH]; intros b; cbn [max_by_from].
  { exists [], []. split_and!; [done|intros y Hy; by apply elem_of_nil in Hy..]. }
  rewrite Hg. destruct (Z.ltb_spec (m x) (m b)) as [H|H].
  - destruct (IH b) as ([|c l1] & l2 & E & H1 & H2); injection E as E1 E2.
    + exists [], (x :: l). split_and!; [by rewrite <- E1|by intros y ?%elem_of_nil|].
      intros y [->|Hy]%elem_of_cons; [by rewrite <- E1|apply H2; by rewrite <- E2].
    + exists (b :: x :: l1), l2. subst c. split_and!; [cbn; congruence| |done].
      intros y [->|[->|Hy]%elem_of_cons]%elem_of_cons; [apply H1; left| |apply H1; by right].
      specialize (H1 b). etransitivity; [|apply H1; left]. lia.
  - destruct (IH x) as ([|c l1] & l2 & E & H1 & H2); injection E as E1 E2.
    + exists [b], l2. split_and!; [cbn; congruence| |done].
      intros y ->%list_elem_of_singleton. by rewrite <- E1.
    + exists (b :: x :: l1), l2. subst c. split_and!; [cbn; congruence| |done].
      intros y [->|Hy]%elem_of_cons; [|by apply H1].
      etransitivity; [|apply H1; left]. lia.
Qed.

Lemma min_by_from_first gt b l :
  (∀ x y, gt x y = (m y <? m x)) → first_min m (b :: l) (min_by_from gt b l).
Proof.
  intros Hg. revert b. induction l as [|x l IH]; intros b; cbn [min_by_from].
  { exists [], []. split_and!; [done|intros y Hy; by apply elem_of_nil in Hy..]. }
  rewrite Hg. destruct (Z.ltb_spec (m x) (m b)) as [H|H].
  - destruct (IH x) as ([|c l1] & l2 & E & H1 & H2); injection E as E1 E2.
    + exists [b], l2. split_and!; [cbn; congruence| |done].
      intros y ->%list_elem_of_singleton. by rewrite <- E1.
    + exists (b :: x :: l1), l2. subst c. split_and!; [cbn; congruence| |done].
      intros y [->|Hy]%elem_of_cons; [|by apply H1].
      specialize (H1 x). eapply Z.lt_trans; [apply H1; left|done].
  - destruct (IH b) as ([|c l1] & l2 & E & H1 & H2); injection E as E1 E2.
    + exists [], (x :: l). split_and!; [by rewrite <- E1|by intros y ?%elem_of_nil|].
      intros y [->|Hy]%elem_of_cons; [by rewrite <- E1|apply H2; by rewrite <- E2].
    + exists (b :: x :: l1), l2. subst c. split_and!; [cbn; congruence| |done].
      intros y [->|[->|Hy]%elem_of_cons]%elem_of_cons; [apply H1; left| |apply H1; by right].
      specialize (H1 b). eapply Z.lt_le_trans; [apply H1; left|done].
Qed.

Lemma last_max_unique l x y : last_max m l x → last_max m l y → x = y.
Proof.
  intros (l1 & l2 & E & H1 & H2) (k1 & k2 & E' & K1 & K2). rewrite E in E'.
  destruct (app_eq_inv _ _ _ _ E') as [[[|z w] [F G]]|[[|z w] [F G]]];
    rewrite ?app_nil_r in *; injection G as Ez Ew; try done; exfalso.
  - subst z l1. specialize (H1 y). specialize (K2 x).
    assert (m y <= m x) by (apply H1; rewrite elem_of_app; right; left).
    assert (m x < m y) by (apply K2; rewrite Ew, elem_of_app; right; left). lia.
  - subst z k1. specialize (K1 x). specialize (H2 y).
    assert (m x <= m y) by (apply K1; rewrite elem_of_app; right; left).
    assert (m y < m x) by (apply H2; rewrite Ew, elem_of_app; right; left). lia.
Qed.

Lemma max_by_last gt l x :
  (∀ x y, gt x y = (m y <? m x)) → max_by gt l = Some x ↔ last_max m l x.
Proof.
  intros Hg. destruct l as [|b l]; cbn [max_by].
  { split; [done|]. by intros ([] & l2 & E & _). }
  pose proof (max_by_from_last gt b l Hg) as L. split; [by intros [= <-]|].
  intros H. f_equal. by eapply last_max_unique.
Qed.

Lemma min_by_first gt l x :
  (∀ x y, gt x y = (m y <? m x)) → min_by gt l = Some x → first_min m l x.
Proof.
  intros Hg. destruct l as [|b l]; cbn [min_by]; [done|]. intros [= <-].
  by apply min_by_from_first.
Qed.
End Measured.

(** ** Rust's [sort_by]: a stable sort *)

Section Sort.
Context {A : Type}.

(** [leb x y] is [cmp x y ≠ Greater]. *)
Fixpoint insert_by (leb : A → A → bool) (x : A) (l : list A) : list A :=
  match l with
  | [] => [x]
  | y :: l' => if leb x y then x :: y :: l' else y :: insert_by leb x l'
  end.

Definition sort_by (leb : A → A → bool) (l : list A) : list A :=
  foldr (insert_by leb) [] l.

Lemma insert_by_perm leb (x : A) l : insert_by leb x l ≡ₚ x :: l.
Proof.
  induction l as [|y l IH]; simpl; [done|].
  destruct (leb x y); [done|]. rewrite IH. constructor.
Qed.

Lemma sort_by_perm leb (l : list A) : sort_by leb l ≡ₚ l.
Proof.
  induction l as [|x l IH]; simpl; [done|].
  by rewrite insert_by_perm, IH.
Qed.

Section Sorted.
Context (leb : A → A → bool) (R : relation A).
Context (leb_true : ∀ x y, leb x y = true → R x y).
Context (leb_false : ∀ x y, leb x y = false → R y x).
Context `{!Transitive R}.

Lemma insert_by_sorted x l :
  StronglySorted R l → StronglySorted R (insert_by leb x l).
Proof using All.
  induction 1 as [|y l HS IH HF]; simpl; [repeat constructor|].
  destruct (leb x y) eqn:E.
  - constructor; [by constructor|].
    constructor; [by apply leb_true|].
    eapply Forall_impl; [exact HF|]. intros z Hz.
    transitivity y; [by apply leb_true|done].
  - constructor; [done|].
    rewrite insert_by_perm. constructor; [by apply leb_false|done].
Qed.

Lemma sort_by_sorted l : StronglySorted R (sort_by leb l).
Proof using All.
  induction l as [|x l IH]; simpl; [constructor|by apply insert_by_sorted].
Qed.
End Sorted.
End Sort.

(** Sorting by a key that tells the elements apart forgets their order. *)
Lemma sort_by_key {A K} (leb : K → K → bool) (key : A → K) l m :
  (∀ a b, leb a b = false → leb b a = true) → (∀ a b c, leb a b = true → leb b c = true → leb a c = true) →
  (∀ x y, x ∈ l → y ∈ l → leb (key x) (key y) = true → leb (key y) (key x) = true → x = y) →
  l ≡ₚ m → sort_by (λ a b, leb (key a) (key b)) l = sort_by (λ a b, leb (key a) (key b)) m.
Proof.
  intros Htot Htr Has P. set (R := λ x y, leb (key x) (key y) = true).
  assert (Transitive R) by (intros x y z; apply Htr).
  apply (StronglySorted_unique_strong R).
  - intros x y. rewrite !sort_by_perm, <- P. apply Has.
  - apply sort_by_sorted; [done|intros x y; apply Htot|done].
  - apply sort_by_sorted; [done|intros x y; apply Htot|done].
  - by rewrite !sort_by_perm.
Qed.

(** ** [Vec] idioms of the code *)

(** [if let Some(slot) = v.iter_mut().find(p) { *slot = x } else { v.push(x) }] *)
Fixpoint replace_or_push {A} (p : A → bool) (x : A) (l : list A) : list A :=
  match l with
  | [] => [x]
  | y :: l' => if p y then x :: l' else y :: replace_or_push p x l'
  end.

(** [v.retain(p)]. *)
Definition retain {A} (p : A → bool) (l : list A) : list A := List.filter p l.

(** [v.iter().find(p)]. *)
Definition find {A} (p : A → bool) (l : list A) : option A := List.find p l.

Lemma find_ext {A} (p q : A → bool) l : (∀ x, p x = q x) → find p l = find q l.
Proof.
  intros H. unfold find. induction l as [|x l IH]; simpl; [done|]. by rewrite H, IH.
Qed.

Lemma find_app_false {A} (p : A → bool) l1 l2 :
  (∀ x, x ∈ l1 → p x = false) → find p (l1 ++ l2) = find p l2.
Proof.
  induction l1 as [|x l1 IH]; simpl; [done|]. intros H.
  rewrite (H x) by left. apply IH. intros y Hy. apply H. by right.
Qed.

Lemma elem_of_retain {A} (p : A → bool) x l :
  x ∈ retain p l ↔ x ∈ l ∧ p x = true.
Proof. unfold retain. by rewrite !list_elem_of_In, List.filter_In. Qed.

Lemma length_retain {A} (p : A → bool) l : (length (retain p l) <= length l)%nat.
Proof. induction l as [|x l IH]; simpl; [done|]. destruct (p x); simpl; lia. Qed.

Lemma retain_length_eq {A} (p : A → bool) l :
  length (retain p l) = length l → retain p l = l.
Proof.
  induction l as [|x l IH]; simpl; [done|].
  destruct (p x); simpl; intros H.
  - f_equal. apply IH. lia.
  - pose proof (length_retain p l). lia.
Qed.

Lemma elem_of_replace_or_push {A} (p : A → bool) x y l :
  y ∈ replace_or_push p x l → y = x ∨ y ∈ l.
Proof.
  induction l as [|z l IH]; simpl.
  - intros ->%list_elem_of_singleton. by left.
  - destruct (p z); intros [->|H]%elem_of_cons.
    + by left.
    + right. by right.
    + right. left.
    + destruct (IH H); [by left|right; by right].
Qed.

Lemma replace_or_push_elem {A} (p : A → bool) x l : x ∈ replace_or_push p x l.
Proof.
  induction l as [|z l IH]; simpl; [by left|].
  destruct (p z); [left|by right].
Qed.

Lemma replace_or_push_ne_nil {A} (p : A → bool) x l : replace_or_push p x l ≠ [].
Proof. destruct l as [|y l]; simpl; [done|]. by destruct (p y). Qed.

(** A [find] on another key is not disturbed, and on the same key it sees the
    new element. *)
Lemma find_replace_or_push {A} (p q : A → bool) x l :
  (∀ y, q y = true → p y = false) → q x = false →
  find q (replace_or_push p x l) = find q l.
Proof.
  intros Hd Hx. induction l as [|y l IH]; simpl.
  - by rewrite Hx.
  - destruct (p y) eqn:P; simpl.
    + rewrite Hx. destruct (q y) eqn:Q; [|done]. apply Hd in Q. congruence.
    + destruct (q y); [done|]. exact IH.
Qed.

Lemma find_replace_or_push_same {A} (p : A → bool) x l :
  p x = true → find p (replace_or_push p x l) = Some x.
Proof.
  intros Hx. induction l as [|y l IH]; simpl.
  - by rewrite Hx.
  - destruct (p y) eqn:P; simpl; [by rewrite Hx|]. by rewrite P.
Qed.

(** [l.iter().find_map(f)]. *)
Fixpoint list_find_map {A B} (f : A → option B) (l : list A) : option B :=
  match l with
  | [] => None
  | x :: l' => match f x with Some b => Some b | None => list_find_map f l' end
  end.

(** Searching lists one after the other is searching their concatenation. *)
Lemma find_concat {A B} (p : B → bool) (f : A → list B) l :
  find p (concat (f <$> l)) = list_find_map (λ x, find p (f x)) l.
Proof.
  induction l as [|x l IH]; [done|]. cbn. rewrite <- IH. unfold find.
  induction (f x) as [|y r IHr]; [done|]. cbn. by destruct (p y).
Qed.

(** Tables keyed by a projection: the two idioms keep the keys distinct. *)
Lemma replace_or_push_nodup {A K} (key : A → K) (p : A → bool) x l :
  (∀ y, p y = true ↔ key y = key x) →
  NoDup (key <$> l) → NoDup (key <$> replace_or_push p x l).
Proof.
  intros Hp. induction l as [|y l IH]; cbn; [intros _; apply NoDup_singleton|].
  intros [Hn Hd]%NoDup_cons. destruct (p y) eqn:P; cbn; apply NoDup_cons.
  - split; [|done]. by rewrite <- (proj1 (Hp y) P).
  - split; [|by apply IH]. intros (z & E & Hz)%list_elem_of_fmap.
    apply elem_of_replace_or_push in Hz as [->|Hz].
    + apply Hp in E. congruence.
    + apply Hn. rewrite E. by apply list_elem_of_fmap_2.
Qed.

Lemma retain_nodup {A K} (key : A → K) (p : A → bool) l :
  NoDup (key <$> l) → NoDup (key <$> retain p l).
Proof.
  induction l as [|y l IH]; cbn; [done|]. intros [Hn Hd]%NoDup_cons.
  destruct (p y); cbn; [|by apply IH]. apply NoDup_cons. split; [|by apply IH].
  intros (z & E & [Hz _]%elem_of_retain)%list_elem_of_fmap.
  apply Hn. rewrite E. by apply list_elem_of_fmap_2.
Qed.

Lemma nodup_fmap_inj {A K} (key : A → K) l x y :
  NoDup (key <$> l) → x ∈ l → y ∈ l → key x = key y → x = y.
Proof.
  induction l as [|z l IH]; cbn; [by intros _ ?%elem_of_nil|].
  intros [Hn Hd]%NoDup_cons [->|Hx]%elem_of_cons [->|Hy]%elem_of_cons E; [done| | |by apply IH].
  - destruct Hn. rewrite E. by apply list_elem_of_fmap_2.
  - destruct Hn. rewrite <- E. by apply list_elem_of_fmap_2.
Qed.

(** Removal reports whether something was removed. *)
Lemma retain_length_neq {A} (p : A → bool) l :
  negb (length (retain p l) =? length l)%nat = true ↔ ∃ x, x ∈ l ∧ p x = false.
Proof.
  rewrite negb_true_iff, Nat.eqb_neq. split.
  - unfold retain. induction l as [|y l IH]; cbn; [done|].
    destruct (p y) eqn:P; cbn; intros H.
    + destruct IH as (x & ? & ?); [lia|]. exists x. split; [by right|done].
    + exists y. split; [left|done].
  - intros (x & Hx & Px) E. apply retain_length_eq in E. rewrite <- E in Hx.
    apply elem_of_retain in Hx as [_ ?]. congruence.
Qed.

(** ** Automation *)

Create HintDb snmp discriminated.
Create Rewrite HintDb snmp.

(** Case analysis on the innermost scrutinee of a [match] or [if] in the goal
    or a hypothesis, keeping the equation. *)
Ltac case_inner t :=
  lazymatch t with
  | context [match ?x with _ => _ end] => case_inner x
  | _ => destruct t eqn:?
  end.

Ltac split_match :=
  match goal with
  | |- context [match ?x with _ => _ end] => case_inner x
  end.

Ltac split_match_in H :=
  match type of H with
  | context [match ?x with _ => _ end] => case_inner x
  end.

(** Reflect the boolean tests of the code. *)
Ltac reflect_bools :=
  repeat match goal with
  | H : _ && _ = true |- _ => apply andb_true_iff in H as [? ?]
  | H : _ || _ = false |- _ => apply orb_false_iff in H as [? ?]
  | H : negb _ = true |- _ => apply negb_true_iff in H
  | H : negb _ = false |- _ => apply negb_false_iff in H
  | H : (_ =? _) = true |- _ => apply Z.eqb_eq in H
  | H : (_ =? _) = false |- _ => apply Z.eqb_neq in H
  | H : (_ <? _) = true |- _ => apply Z.ltb_lt in H
  | H : (_ <? _) = false |- _ => apply Z.ltb_ge in H
  | H : (_ <=? _) = true |- _ => apply Z.leb_le in H
  | H : (_ <=? _) = false |- _ => apply Z.leb_gt in H
  | H : bool_decide _ = true |- _ => apply bool_decide_eq_true in H
  | H : bool_decide _ = false |- _ => apply bool_decide_eq_false in H
  end.
