(* ===== verification/MachineInts.v ===== *)
(** * Machine integers and their byte encodings

    A Rust [uN]/[iN] is a [Z] in the range below; [as uN] is the wrap-around;
    [to_le_bytes]/[to_be_bytes] and [from_le_bytes]/[from_be_bytes] are the
    standard library's fixed-size conversions. *)

From Stdlib Require Import ZArith Lia.
From S2P Require Import Prelude.

(** ** Ranges *)

Definition is_u8 (n : Z) : Prop := 0 <= n < 2 ^ 8.
Definition is_u16 (n : Z) : Prop := 0 <= n < 2 ^ 16.
Definition is_u32 (n : Z) : Prop := 0 <= n < 2 ^ 32.
Definition is_u64 (n : Z) : Prop := 0 <= n < 2 ^ 64.
Definition is_i32 (n : Z) : Prop := - 2 ^ 31 <= n < 2 ^ 31.
Definition is_i64 (n : Z) : Prop := - 2 ^ 63 <= n < 2 ^ 63.

Definition u8_max : Z := 255.
Definition u32_max : Z := 4294967295.
Definition u64_max : Z := 18446744073709551615.
Definition i32_min : Z := -2147483648.
Definition i32_max : Z := 2147483647.
Definition i64_min : Z := -9223372036854775808.
Definition i64_max : Z := 9223372036854775807.

(** [as uN] and [as iN]. *)
Definition wrap_u (bits n : Z) : Z := n mod 2 ^ bits.
Definition wrap_i (bits n : Z) : Z := (n + 2 ^ (bits - 1)) mod 2 ^ bits - 2 ^ (bits - 1).

Abbreviation as_u8 := (wrap_u 8).
Abbreviation as_u16 := (wrap_u 16).
Abbreviation as_u32 := (wrap_u 32).
Abbreviation as_u64 := (wrap_u 64).
Abbreviation as_i32 := (wrap_i 32).
Abbreviation as_i64 := (wrap_i 64).

(** [saturating_add] on [uN] and [checked_add]. *)
Definition saturating_add_u (max a b : Z) : Z := Z.min max (a + b).
Definition saturating_sub_u (a b : Z) : Z := Z.max 0 (a - b).
Definition checked_add_u (max a b : Z) : option Z :=
  if a + b <=? max then Some (a + b) else None.

Lemma wrap_u_id bits n : 0 <= n < 2 ^ bits → wrap_u bits n = n.
Proof. intros H. apply Z.mod_small. exact H. Qed.

Lemma wrap_u_range bits n : 0 <= bits → 0 <= wrap_u bits n < 2 ^ bits.
Proof. intros H. apply Z.mod_pos_bound. by apply Z.pow_pos_nonneg. Qed.

Lemma wrap_i_id bits n :
  0 < bits → - 2 ^ (bits - 1) <= n < 2 ^ (bits - 1) → wrap_i bits n = n.
Proof.
  intros Hb H. unfold wrap_i.
  assert (2 ^ bits = 2 * 2 ^ (bits - 1)).
  { rewrite <- Z.pow_succ_r by lia. f_equal. lia. }
  rewrite Z.mod_small; lia.
Qed.

Lemma as_i32_range n : is_i32 (as_i32 n).
Proof. unfold is_i32, wrap_i. pose proof (Z.mod_pos_bound (n + 2 ^ (32 - 1)) (2 ^ 32)). lia. Qed.

Lemma wrap_i_wrap_u_32 n : is_i32 n → wrap_i 32 (wrap_u 32 n) = n.
Proof.
  unfold is_i32. intros H. unfold wrap_i, wrap_u.
  rewrite Zplus_mod_idemp_l.
  change (2 ^ (32 - 1)) with (2 ^ 31).
  rewrite Z.mod_small; lia.
Qed.

(** ** Bytes *)

(** A byte string. *)
Abbreviation bytes := (list Z) (only parsing).

Definition is_bytes (bs : bytes) : Prop := Forall is_u8 bs.

(** [to_le_bytes] of an [n]-byte integer. *)
Fixpoint to_le_bytes (n : nat) (v : Z) : bytes :=
  match n with
  | O => []
  | S n' => (v mod 256) :: to_le_bytes n' (v / 256)
  end.

Definition to_be_bytes (n : nat) (v : Z) : bytes := rev (to_le_bytes n v).

Fixpoint from_le_bytes (bs : bytes) : Z :=
  match bs with
  | [] => 0
  | b :: bs' => b + 256 * from_le_bytes bs'
  end.

Definition from_be_bytes (bs : bytes) : Z := from_le_bytes (rev bs).

(** The byte order selected by the [big] flag of the packet. *)
Definition to_bytes (big : bool) (n : nat) (v : Z) : bytes :=
  if big then to_be_bytes n v else to_le_bytes n v.

Definition from_bytes (big : bool) (bs : bytes) : Z :=
  if big then from_be_bytes bs else from_le_bytes bs.

Lemma length_to_le_bytes n v : length (to_le_bytes n v) = n.
Proof. revert v. induction n as [|n IH]; intros v; simpl; [done|]. by rewrite IH. Qed.

Lemma length_to_bytes big n v : length (to_bytes big n v) = n.
Proof.
  unfold to_bytes, to_be_bytes. destruct big; rewrite ?length_rev; apply length_to_le_bytes.
Qed.

Lemma from_to_le_bytes n v : from_le_bytes (to_le_bytes n v) = v mod 2 ^ (8 * Z.of_nat n).
Proof.
  revert v. induction n as [|n IH]; intros v.
  - change (8 * Z.of_nat 0) with 0. by rewrite Z.pow_0_r, Z.mod_1_r.
  - cbn [to_le_bytes from_le_bytes]. rewrite IH.
    replace (8 * Z.of_nat (S n)) with (8 + 8 * Z.of_nat n) by lia.
    rewrite Z.pow_add_r by lia. change (2 ^ 8) with 256.
    rewrite Z.rem_mul_r by (try apply Z.pow_nonzero; lia). lia.
Qed.

Lemma from_to_bytes big n v :
  from_bytes big (to_bytes big n v) = v mod 2 ^ (8 * Z.of_nat n).
Proof.
  unfold from_bytes, to_bytes, from_be_bytes, to_be_bytes.
  destruct big; rewrite ?rev_involutive; apply from_to_le_bytes.
Qed.

Lemma from_to_bytes_id big n v :
  0 <= v < 2 ^ (8 * Z.of_nat n) → from_bytes big (to_bytes big n v) = v.
Proof. intros H. rewrite from_to_bytes. by apply Z.mod_small. Qed.

Lemma to_from_le_bytes bs : is_bytes bs → to_le_bytes (length bs) (from_le_bytes bs) = bs.
Proof.
  induction 1 as [|b bs Hb _ IH]; cbn [length to_le_bytes from_le_bytes]; [done|]. unfold is_u8 in Hb.
  replace ((b + 256 * from_le_bytes bs) / 256) with (from_le_bytes bs) by (Z.div_mod_to_equations; lia).
  rewrite IH. f_equal. Z.div_mod_to_equations; lia.
Qed.

Lemma is_bytes_to_le n v : is_bytes (to_le_bytes n v).
Proof.
  revert v. induction n as [|n IH]; intros v; simpl; constructor; [|apply IH].
  apply (Z.mod_pos_bound v 256). lia.
Qed.

Lemma is_bytes_to_bytes big n v : is_bytes (to_bytes big n v).
Proof.
  unfold to_bytes, to_be_bytes, is_bytes.
  destruct big; [apply Forall_rev|]; apply is_bytes_to_le.
Qed.

Lemma from_le_bytes_range bs :
  is_bytes bs → 0 <= from_le_bytes bs < 2 ^ (8 * Z.of_nat (length bs)).
Proof.
  induction 1 as [|b bs Hb HF IH]; cbn [from_le_bytes length]; [simpl; lia|].
  replace (8 * Z.of_nat (S (length bs))) with (8 + 8 * Z.of_nat (length bs)) by lia.
  rewrite Z.pow_add_r by lia. change (2 ^ 8) with 256.
  unfold is_u8 in Hb. change (2 ^ 8) with 256 in Hb. lia.
Qed.

Lemma from_bytes_range big bs :
  is_bytes bs → 0 <= from_bytes big bs < 2 ^ (8 * Z.of_nat (length bs)).
Proof.
  intros H. unfold from_bytes, from_be_bytes. destruct big.
  - rewrite <- (length_rev bs). apply from_le_bytes_range. by apply Forall_rev.
  - by apply from_le_bytes_range.
Qed.

Lemma is_bytes_app bs cs : is_bytes (bs ++ cs) ↔ is_bytes bs ∧ is_bytes cs.
Proof. apply Forall_app. Qed.

#[export] Hint Resolve is_bytes_to_bytes : snmp.
#[export] Hint Rewrite length_to_bytes : snmp.

(** A boolean fact of all bytes, checked on each. *)
Lemma byte_check (p : Z → bool) : forallb p (seqZ 0 256) = true → ∀ b, 0 <= b < 256 → p b = true.
Proof.
  intros H b Hb. rewrite forallb_forall in H. apply H, list_elem_of_In, elem_of_seqZ. lia.
Qed.
