(* ===== verification/Text.v ===== *)
(** * Text: [char], [str] and decimal numbers

    A [String] or [&str] is the list of its Unicode scalar values;
    [as_bytes] is its UTF-8 encoding and [String::from_utf8_lossy] the decoder
    that replaces each maximal invalid prefix by U+FFFD. The integer parsers
    are [str::parse] of the standard library, the printers [Display]. *)

From Stdlib Require Import ZArith Lia Ascii.
From S2P Require Import Prelude MachineInts.

Local Open Scope list_scope.

(** ** Characters *)

Abbreviation text := (list Z) (only parsing).

Definition is_char (c : Z) : Prop :=
  0 <= c < 55296 ∨ 57343 < c < 1114112.

Definition is_text (s : text) : Prop := Forall is_char s.

(** An ASCII literal of the source. *)
Fixpoint str (s : string) : text :=
  match s with
  | EmptyString => []
  | String a s' => Z.of_N (N_of_ascii a) :: str s'
  end.

Definition replacement_char : Z := 65533.

(** [char::is_whitespace] (the White_Space property). *)
Definition is_whitespace (c : Z) : bool :=
  ((9 <=? c) && (c <=? 13)) || (c =? 32) || (c =? 133) || (c =? 160) ||
  (c =? 5760) || ((8192 <=? c) && (c <=? 8202)) || (c =? 8232) || (c =? 8233) ||
  (c =? 8239) || (c =? 8287) || (c =? 12288).

Definition is_ascii_digit (c : Z) : bool := (48 <=? c) && (c <=? 57).

Definition is_ascii_hexdigit (c : Z) : bool :=
  is_ascii_digit c || ((65 <=? c) && (c <=? 70)) || ((97 <=? c) && (c <=? 102)).

Definition to_ascii_lowercase (s : text) : text :=
  map (fun c => if (65 <=? c) && (c <=? 90) then c + 32 else c) s.

(** ** [trim] and [split] *)

Fixpoint trim_start_matches (p : Z → bool) (s : text) : text :=
  match s with
  | c :: s' => if p c then trim_start_matches p s' else s
  | [] => []
  end.

Definition trim_start (s : text) : text := trim_start_matches is_whitespace s.
Definition trim_end (s : text) : text := rev (trim_start (rev s)).
Definition trim (s : text) : text := trim_end (trim_start s).

(** [split_whitespace]: the non-empty words between blanks. *)
Fixpoint split_whitespace_from (word s : text) : list text :=
  match s with
  | [] => match word with [] => [] | _ => [word] end
  | c :: s' =>
      if is_whitespace c then match word with [] => split_whitespace_from [] s' | _ => word :: split_whitespace_from [] s' end
      else split_whitespace_from (word ++ [c]) s'
  end.
Definition split_whitespace (s : text) : list text := split_whitespace_from [] s.

(** [split_once]: the text before and after the first separator. *)
Fixpoint split_once (sep : Z) (s : text) : option (text * text) :=
  match s with
  | [] => None
  | c :: s' =>
      if c =? sep then Some ([], s')
      else match split_once sep s' with Some (a, b) => Some (c :: a, b) | None => None end
  end.

Lemma split_once_app sep a b : Forall (λ c, c ≠ sep) a → split_once sep (a ++ sep :: b) = Some (a, b).
Proof.
  induction 1 as [|c a Hc _ IH]; cbn; [by rewrite Z.eqb_refl|]. by rewrite (proj2 (Z.eqb_neq _ _) Hc), IH.
Qed.

Lemma split_whitespace_word w s word : Forall (λ c, is_whitespace c = false) w →
  split_whitespace_from word (w ++ s) = split_whitespace_from (word ++ w) s.
Proof.
  revert word. induction w as [|c w IH]; intros word H; cbn; [by rewrite app_nil_r|].
  inversion_clear H as [|? ? Hc Hw]. by rewrite Hc, IH, <- app_assoc.
Qed.

(** A word, blanks, and what follows. *)
Lemma split_whitespace_cons w s : w ≠ [] → Forall (λ c, is_whitespace c = false) w →
  split_whitespace (w ++ 32 :: s) = w :: split_whitespace s.
Proof.
  intros Hne Hw. unfold split_whitespace. rewrite split_whitespace_word by done. cbn. by destruct w.
Qed.

(** [s.split(sep)]: never empty; the pieces around every separator. *)
Fixpoint split (sep : Z) (s : text) : list text :=
  match s with
  | [] => [[]]
  | c :: s' =>
      match split sep s' with
      | [] => [[c]]
      | p :: ps => if c =? sep then [] :: p :: ps else (c :: p) :: ps
      end
  end.

Lemma split_nonempty sep s : split sep s ≠ [].
Proof.
  induction s as [|c s IH]; simpl; [done|].
  destruct (split sep s); [done|]. by destruct (c =? sep).
Qed.

Lemma split_no_sep sep s : Forall (λ c, c ≠ sep) s → split sep s = [s].
Proof.
  induction 1 as [|c s Hc HF IH]; simpl; [done|].
  rewrite IH. by destruct (Z.eqb_spec c sep).
Qed.

Lemma split_app sep s t :
  Forall (λ c, c ≠ sep) s → split sep (s ++ sep :: t) = s :: split sep t.
Proof.
  induction 1 as [|c s Hc HF IH]; simpl.
  - rewrite Z.eqb_refl. pose proof (split_nonempty sep t). by destruct (split sep t).
  - rewrite IH. by destruct (Z.eqb_spec c sep).
Qed.

Lemma trim_start_matches_head p c s :
  p c = false → trim_start_matches p (c :: s) = c :: s.
Proof. intros H. simpl. by rewrite H. Qed.

Lemma trim_start_matches_id p s :
  Forall (λ c, p c = false) s → trim_start_matches p s = s.
Proof. destruct 1 as [|c s Hc]; [done|]. by apply trim_start_matches_head. Qed.

Lemma trim_id s : Forall (λ c, is_whitespace c = false) s → trim s = s.
Proof.
  intros H. unfold trim, trim_end, trim_start.
  rewrite (trim_start_matches_id _ s H).
  rewrite trim_start_matches_id by (by apply Forall_rev).
  apply rev_involutive.
Qed.

(** ** Decimal numbers *)

Fixpoint dec_digits (fuel : nat) (n : Z) (acc : text) : text :=
  match fuel with
  | O => acc
  | S f =>
      let acc' := (48 + n mod 10) :: acc in
      if n <? 10 then acc' else dec_digits f (n / 10) acc'
  end.

(** [Display] of an unsigned integer: one digit more than [log2 n] is enough. *)
Definition show_u (n : Z) : text := dec_digits (S (Z.to_nat (Z.log2 n))) n [].

(** [Display] of a signed integer. *)
Definition show_i (n : Z) : text := if n <? 0 then 45 :: show_u (- n) else show_u n.

Definition dec_value (s : text) : Z := fold_left (fun a c => a * 10 + (c - 48)) s 0.

(** The digits of [from_str_radix(_, 10)]: at least one, nothing else. *)
Definition parse_digits (s : text) : option Z :=
  match s with
  | [] => None
  | _ => if forallb is_ascii_digit s then Some (dec_value s) else None
  end.

(** [uN::from_str]: an optional [+], digits, no overflow. *)
Definition parse_unsigned (max : Z) (s : text) : option Z :=
  let digits := match s with c :: s' => if c =? 43 then s' else s | [] => s end in
  let! n := parse_digits digits in
  if n <=? max then Some n else None.

(** [iN::from_str]: an optional sign. *)
Definition parse_signed (min max : Z) (s : text) : option Z :=
  let '(neg, digits) :=
    match s with
    | c :: s' => if c =? 43 then (false, s') else if c =? 45 then (true, s') else (false, s)
    | [] => (false, s)
    end in
  let! n := parse_digits digits in
  let v := if neg : bool then - n else n in
  if (min <=? v) && (v <=? max) then Some v else None.

Lemma dec_digits_acc f n acc : dec_digits f n acc = dec_digits f n [] ++ acc.
Proof.
  revert n acc. induction f as [|f IH]; intros n acc; simpl; [done|].
  destruct (n <? 10); [done|].
  rewrite (IH (n / 10) (_ :: acc)), (IH (n / 10) [_]). by rewrite <- app_assoc.
Qed.

Lemma dec_value_snoc s c : dec_value (s ++ [c]) = dec_value s * 10 + (c - 48).
Proof. unfold dec_value. by rewrite fold_left_app. Qed.

Lemma log2_div10 n : 10 <= n → (Z.to_nat (Z.log2 (n / 10)) < Z.to_nat (Z.log2 n))%nat.
Proof.
  intros H.
  assert (0 < n / 10) by (apply Z.div_str_pos; lia).
  assert (Z.log2 (n / 10) < Z.log2 n); [|pose proof (Z.log2_nonneg (n / 10)); lia].
  assert (n / 10 <= n / 2) by (apply Z.div_le_compat_l; lia).
  apply Z.le_lt_trans with (Z.log2 (n / 2)); [by apply Z.log2_le_mono|].
  replace (Z.log2 (n / 2)) with (Z.log2 n - 1).
  - lia.
  - assert (n / 2 = Z.shiftr n 1) as -> by (by rewrite Z.shiftr_div_pow2 by lia).
    rewrite Z.log2_shiftr by lia. pose proof (Z.log2_le_mono 2 n). simpl in *. lia.
Qed.

Lemma dec_digits_correct f n :
  0 <= n → (Z.to_nat (Z.log2 n) < f)%nat →
  dec_value (dec_digits f n []) = n ∧
  Forall (λ c, is_ascii_digit c = true) (dec_digits f n []) ∧
  dec_digits f n [] ≠ [].
Proof.
  revert n. induction f as [|f IH]; intros n Hn Hf; [lia|].
  cbn [dec_digits].
  assert (Hd : is_ascii_digit (48 + n mod 10) = true).
  { unfold is_ascii_digit. pose proof (Z.mod_pos_bound n 10).
    apply andb_true_iff. rewrite !Z.leb_le. lia. }
  destruct (n <? 10) eqn:E.
  - apply Z.ltb_lt in E. split; [|split; [by repeat constructor|done]].
    unfold dec_value. cbn [fold_left]. rewrite Z.mod_small by lia. lia.
  - apply Z.ltb_ge in E. rewrite dec_digits_acc.
    destruct (IH (n / 10)) as (H1 & H2 & H3).
    { apply Z.div_pos; lia. }
    { pose proof (log2_div10 n). lia. }
    split; [|split].
    + rewrite dec_value_snoc, H1. pose proof (Z.div_mod n 10). lia.
    + apply Forall_app. split; [done|by repeat constructor].
    + by destruct (dec_digits f (n / 10) []).
Qed.

Lemma show_u_correct n :
  0 <= n →
  dec_value (show_u n) = n ∧ Forall (λ c, is_ascii_digit c = true) (show_u n) ∧
  show_u n ≠ [].
Proof. intros H. apply dec_digits_correct; [done|]. unfold show_u. lia. Qed.

Lemma parse_digits_show n : 0 <= n → parse_digits (show_u n) = Some n.
Proof.
  intros H. destruct (show_u_correct n H) as (H1 & H2 & H3).
  unfold parse_digits. destruct (show_u n) as [|c s]; [done|].
  replace (forallb is_ascii_digit (c :: s)) with true; [by rewrite H1|].
  symmetry. apply forallb_forall. by apply List.Forall_forall.
Qed.

Lemma digit_not c d : is_ascii_digit c = true → is_ascii_digit d = false → c ≠ d.
Proof. congruence. Qed.

(** Printing then parsing an unsigned integer is the identity. *)
Lemma parse_unsigned_show max n :
  0 <= n <= max → parse_unsigned max (show_u n) = Some n.
Proof.
  intros [H0 H1]. unfold parse_unsigned.
  destruct (show_u_correct n H0) as (_ & H2 & H3).
  pose proof (parse_digits_show n H0) as HP.
  destruct (show_u n) as [|c s]; [done|].
  inversion H2 as [|? ? Hc ?]; subst.
  destruct (Z.eqb_spec c 43) as [->|_]; [done|].
  rewrite HP. simpl. by rewrite (proj2 (Z.leb_le _ _) H1).
Qed.

Lemma parse_signed_show min max n :
  min <= n <= max → parse_signed min max (show_i n) = Some n.
Proof.
  intros Hr. unfold parse_signed, show_i.
  destruct (n <? 0) eqn:E.
  - apply Z.ltb_lt in E. cbn [Z.eqb Pos.eqb].
    rewrite parse_digits_show by lia. simpl.
    rewrite (Z.opp_involutive n).
    replace ((min <=? n) && (n <=? max)) with true; [done|].
    symmetry. apply andb_true_iff. rewrite !Z.leb_le. lia.
  - apply Z.ltb_ge in E.
    destruct (show_u_correct n E) as (_ & H2 & H3).
    pose proof (parse_digits_show n E) as HP.
    destruct (show_u n) as [|c s]; [done|].
    inversion H2 as [|? ? Hc ?]; subst.
    destruct (Z.eqb_spec c 43) as [->|_]; [done|].
    destruct (Z.eqb_spec c 45) as [->|_]; [done|].
    rewrite HP. simpl.
    replace ((min <=? n) && (n <=? max)) with true; [done|].
    symmetry. apply andb_true_iff. rewrite !Z.leb_le. lia.
Qed.

Lemma parse_unsigned_range max s n : parse_unsigned max s = Some n → n <= max.
Proof.
  unfold parse_unsigned. destruct (parse_digits _) as [m|]; simpl; [|done].
  destruct (m <=? max) eqn:E; [|done]. intros [= <-]. by apply Z.leb_le.
Qed.

Lemma dec_value_from_nonneg s a :
  Forall (λ c, is_ascii_digit c = true) s → 0 <= a →
  0 <= fold_left (fun a c => a * 10 + (c - 48)) s a.
Proof.
  intros H. revert a. induction H as [|c s Hc HF IH]; intros a Ha; simpl; [done|].
  apply IH. unfold is_ascii_digit in Hc. reflect_bools. lia.
Qed.

Lemma parse_digits_nonneg s n : parse_digits s = Some n → 0 <= n.
Proof.
  unfold parse_digits. destruct s as [|c s]; [done|].
  destruct (forallb is_ascii_digit (c :: s)) eqn:E; [|done]. intros [= <-].
  apply dec_value_from_nonneg; [|lia].
  apply List.Forall_forall. by apply forallb_forall.
Qed.

Lemma parse_unsigned_nonneg max s n : parse_unsigned max s = Some n → 0 <= n.
Proof.
  unfold parse_unsigned. intros H.
  destruct (parse_digits _) as [m|] eqn:E; simpl in H; [|done].
  destruct (m <=? max); [|done]. injection H as <-. by eapply parse_digits_nonneg.
Qed.

(** ** UTF-8 *)

Definition encode_char (c : Z) : bytes :=
  if c <? 128 then [c]
  else if c <? 2048 then [192 + c / 64; 128 + c mod 64]
  else if c <? 65536 then
    [224 + c / 4096; 128 + (c / 64) mod 64; 128 + c mod 64]
  else
    [240 + c / 262144; 128 + (c / 4096) mod 64; 128 + (c / 64) mod 64; 128 + c mod 64].

(** [str::as_bytes]. *)
Definition as_bytes (s : text) : bytes := flat_map encode_char s.

Definition is_cont (b : Z) : bool := (128 <=? b) && (b <=? 191).

(** Which second bytes continue a three- or four-byte sequence. *)
Definition second_ok_3 (b0 b1 : Z) : bool :=
  if b0 =? 224 then (160 <=? b1) && (b1 <=? 191)
  else if b0 =? 237 then (128 <=? b1) && (b1 <=? 159)
  else is_cont b1.

Definition second_ok_4 (b0 b1 : Z) : bool :=
  if b0 =? 240 then (144 <=? b1) && (b1 <=? 191)
  else if b0 =? 244 then (128 <=? b1) && (b1 <=? 143)
  else is_cont b1.

(** [String::from_utf8_lossy]. *)
Fixpoint from_utf8_lossy (bs : bytes) : text :=
  match bs with
  | [] => []
  | b0 :: r0 =>
      if b0 <? 128 then b0 :: from_utf8_lossy r0
      else if (194 <=? b0) && (b0 <=? 223) then
        match r0 with
        | [] => [replacement_char]
        | b1 :: r1 =>
            if is_cont b1 then (b0 - 192) * 64 + (b1 - 128) :: from_utf8_lossy r1
            else replacement_char :: from_utf8_lossy r0
        end
      else if (224 <=? b0) && (b0 <=? 239) then
        match r0 with
        | [] => [replacement_char]
        | b1 :: r1 =>
            if second_ok_3 b0 b1 then
              match r1 with
              | [] => [replacement_char]
              | b2 :: r2 =>
                  if is_cont b2 then
                    (b0 - 224) * 4096 + (b1 - 128) * 64 + (b2 - 128) :: from_utf8_lossy r2
                  else replacement_char :: from_utf8_lossy r1
              end
            else replacement_char :: from_utf8_lossy r0
        end
      else if (240 <=? b0) && (b0 <=? 244) then
        match r0 with
        | [] => [replacement_char]
        | b1 :: r1 =>
            if second_ok_4 b0 b1 then
              match r1 with
              | [] => [replacement_char]
              | b2 :: r2 =>
                  if is_cont b2 then
                    match r2 with
                    | [] => [replacement_char]
                    | b3 :: r3 =>
                        if is_cont b3 then
                          (b0 - 240) * 262144 + (b1 - 128) * 4096
                          + (b2 - 128) * 64 + (b3 - 128) :: from_utf8_lossy r3
                        else replacement_char :: from_utf8_lossy r2
                    end
                  else replacement_char :: from_utf8_lossy r1
              end
            else replacement_char :: from_utf8_lossy r0
        end
      else replacement_char :: from_utf8_lossy r0
  end.

Ltac Zbool :=
  repeat match goal with
  | |- context [?a <? ?b] =>
      first [ rewrite (proj2 (Z.ltb_lt a b)) by lia
            | rewrite (proj2 (Z.ltb_ge a b)) by lia ]
  | |- context [?a <=? ?b] =>
      first [ rewrite (proj2 (Z.leb_le a b)) by lia
            | rewrite (proj2 (Z.leb_gt a b)) by lia ]
  end; cbn [andb orb].

Lemma cont_byte x : is_cont (128 + x mod 64) = true.
Proof. unfold is_cont. pose proof (Z.mod_pos_bound x 64). by Zbool. Qed.

Lemma second_ok_3_encode c :
  2048 <= c < 65536 → (c < 55296 ∨ 57343 < c) →
  second_ok_3 (224 + c / 4096) (128 + (c / 64) mod 64) = true.
Proof.
  intros Hc Hs. unfold second_ok_3.
  pose proof (Z.mod_pos_bound (c / 64) 64).
  pose proof (Z.div_mod (c / 64) 64). rewrite Z.div_div in * by lia.
  change (64 * 64) with 4096 in *.
  pose proof (Z.div_mod c 64). pose proof (Z.mod_pos_bound c 64).
  destruct (Z.eqb_spec (224 + c / 4096) 224); [by Zbool|].
  destruct (Z.eqb_spec (224 + c / 4096) 237); [by Zbool|].
  apply cont_byte.
Qed.

Lemma second_ok_4_encode c :
  65536 <= c < 1114112 →
  second_ok_4 (240 + c / 262144) (128 + (c / 4096) mod 64) = true.
Proof.
  intros Hc. unfold second_ok_4.
  pose proof (Z.mod_pos_bound (c / 4096) 64).
  pose proof (Z.div_mod (c / 4096) 64). rewrite Z.div_div in * by lia.
  change (4096 * 64) with 262144 in *.
  pose proof (Z.div_mod c 4096). pose proof (Z.mod_pos_bound c 4096).
  destruct (Z.eqb_spec (240 + c / 262144) 240); [by Zbool|].
  destruct (Z.eqb_spec (240 + c / 262144) 244); [by Zbool|].
  apply cont_byte.
Qed.

(** Decoding an encoded character gives it back, whatever follows. *)
Lemma from_utf8_lossy_encode_char c rest :
  is_char c → from_utf8_lossy (encode_char c ++ rest) = c :: from_utf8_lossy rest.
Proof.
  intros Hc. unfold encode_char. unfold is_char in Hc.
  destruct (c <? 128) eqn:E1; [|destruct (c <? 2048) eqn:E2; [|destruct (c <? 65536) eqn:E3]];
    reflect_bools; cbn [app from_utf8_lossy].
  - by Zbool.
  - pose proof (Z.div_mod c 64). pose proof (Z.mod_pos_bound c 64).
    Zbool. rewrite cont_byte. f_equal. lia.
  - pose proof (Z.div_mod c 64). pose proof (Z.mod_pos_bound c 64).
    pose proof (Z.div_mod (c / 64) 64). rewrite Z.div_div in * by lia.
    change (64 * 64) with 4096 in *. pose proof (Z.mod_pos_bound (c / 64) 64).
    Zbool. rewrite second_ok_3_encode by lia. rewrite cont_byte. f_equal. lia.
  - pose proof (Z.div_mod c 64). pose proof (Z.mod_pos_bound c 64).
    pose proof (Z.div_mod (c / 64) 64). pose proof (Z.mod_pos_bound (c / 64) 64).
    pose proof (Z.div_mod (c / 4096) 64). pose proof (Z.mod_pos_bound (c / 4096) 64).
    rewrite !Z.div_div in * by lia.
    change (64 * 64) with 4096 in *. change (4096 * 64) with 262144 in *.
    Zbool. rewrite second_ok_4_encode by lia. rewrite !cont_byte. f_equal. lia.
Qed.

Lemma from_utf8_lossy_as_bytes s : is_text s → from_utf8_lossy (as_bytes s) = s.
Proof.
  induction 1 as [|c s Hc HF IH]; [done|].
  change (as_bytes (c :: s)) with (encode_char c ++ as_bytes s).
  by rewrite from_utf8_lossy_encode_char, IH.
Qed.

(** ASCII text is its own encoding. *)
Lemma as_bytes_ascii s : Forall (λ c, 0 <= c < 128) s → as_bytes s = s.
Proof.
  induction 1 as [|c s Hc HF IH]; [done|].
  change (as_bytes (c :: s)) with (encode_char c ++ as_bytes s).
  rewrite IH. unfold encode_char. by Zbool.
Qed.

Lemma is_bytes_encode_char c : is_char c → is_bytes (encode_char c).
Proof.
  unfold is_char, encode_char, is_bytes, is_u8. intros Hc.
  destruct (c <? 128) eqn:E1; [|destruct (c <? 2048) eqn:E2; [|destruct (c <? 65536) eqn:E3]];
    reflect_bools; repeat constructor; try (apply Z.mod_pos_bound; lia);
    repeat match goal with
    | |- context [?a mod 64] => pose proof (Z.mod_pos_bound a 64); generalize dependent (a mod 64)
    end; intros; try lia.
  all: try (assert (0 <= c / 64) by (apply Z.div_pos; lia)).
  all: try (assert (c / 64 < 32) by (apply Z.div_lt_upper_bound; lia)).
  all: try (assert (0 <= c / 4096) by (apply Z.div_pos; lia)).
  all: try (assert (c / 4096 < 16) by (apply Z.div_lt_upper_bound; lia)).
  all: try (assert (0 <= c / 262144) by (apply Z.div_pos; lia)).
  all: try (assert (c / 262144 < 5) by (apply Z.div_lt_upper_bound; lia)).
  all: lia.
Qed.

Lemma is_bytes_as_bytes s : is_text s → is_bytes (as_bytes s).
Proof.
  induction 1 as [|c s Hc HF IH]; [constructor|].
  apply is_bytes_app. split; [by apply is_bytes_encode_char|exact IH].
Qed.

Lemma is_text_from_utf8_lossy bs : is_bytes bs → is_text (from_utf8_lossy bs).
Proof.
  remember (length bs) as n eqn:En. assert (Hn : (length bs <= n)%nat) by lia. clear En.
  revert bs Hn. induction n as [|n IH]; intros [|b0 r0] Hn Hb; cbn in Hn; try lia; [constructor..|].
  assert (R : is_char replacement_char) by (unfold is_char, replacement_char; lia).
  assert (K : ∀ r, (length r <= n)%nat → is_bytes r → is_text (from_utf8_lossy r)) by auto.
  assert (C : ∀ c r, is_char c → (length r <= n)%nat → is_bytes r →
    is_text (c :: from_utf8_lossy r)) by (intros c r Hc Hl Hr; constructor; [done|by apply IH]).
  assert (S1 : is_text [replacement_char]) by (repeat constructor; exact R).
  inversion Hb as [|? ? H0 Hb0]; subst. cbn [from_utf8_lossy].
  destruct (b0 <? 128) eqn:E0.
  { apply C; [|lia|done]. unfold is_char, is_u8 in *. lia. }
  destruct ((194 <=? b0) && (b0 <=? 223)) eqn:E1.
  { destruct r0 as [|b1 r1]; [done|]. inversion Hb0 as [|? ? H1 Hb1]; subst. cbn in Hn.
    destruct (is_cont b1) eqn:F1; [|apply C; [done|cbn; lia|done]]. apply C; [|lia|done].
    unfold is_cont in F1. reflect_bools. unfold is_char. lia. }
  destruct ((224 <=? b0) && (b0 <=? 239)) eqn:E2.
  { destruct r0 as [|b1 r1]; [done|]. inversion Hb0 as [|? ? H1 Hb1]; subst. cbn in Hn.
    destruct (second_ok_3 b0 b1) eqn:F1; [|apply C; [done|cbn; lia|done]].
    destruct r1 as [|b2 r2]; [done|]. inversion Hb1 as [|? ? H2 Hb2]; subst. cbn in Hn.
    destruct (is_cont b2) eqn:F2; [|apply C; [done|cbn; lia|done]]. apply C; [|lia|done].
    unfold second_ok_3, is_cont in *. unfold is_char.
    destruct (Z.eqb_spec b0 224); [|destruct (Z.eqb_spec b0 237)]; reflect_bools; lia. }
  destruct ((240 <=? b0) && (b0 <=? 244)) eqn:E3; [|apply C; [done|lia|done]].
  destruct r0 as [|b1 r1]; [done|]. inversion Hb0 as [|? ? H1 Hb1]; subst. cbn in Hn.
  destruct (second_ok_4 b0 b1) eqn:F1; [|apply C; [done|cbn; lia|done]].
  destruct r1 as [|b2 r2]; [done|]. inversion Hb1 as [|? ? H2 Hb2]; subst. cbn in Hn.
  destruct (is_cont b2) eqn:F2; [|apply C; [done|cbn; lia|done]].
  destruct r2 as [|b3 r3]; [done|]. inversion Hb2 as [|? ? H3 Hb3]; subst. cbn in Hn.
  destruct (is_cont b3) eqn:F3; [|apply C; [done|cbn; lia|done]]. apply C; [|lia|done].
  unfold second_ok_4, is_cont in *. unfold is_char.
  destruct (Z.eqb_spec b0 240); [|destruct (Z.eqb_spec b0 244)]; reflect_bools; lia.
Qed.

Lemma as_bytes_inj s s' : is_text s → is_text s' → as_bytes s = as_bytes s' → s = s'.
Proof.
  intros H H' E. rewrite <- (from_utf8_lossy_as_bytes s H), <- (from_utf8_lossy_as_bytes s' H').
  by rewrite E.
Qed.

(** ** Rows named by an owner and a name *)

(** [format!("{owner}\u{0}{name}")], the key of such a row in its table. *)
Definition name_key (o n : text) : text := o ++ 0 :: n.

(** Its index on the wire: both byte strings around a zero. *)
Definition name_index (o n : text) : list Z := as_bytes o ++ 0 :: as_bytes n.

Lemma name_index_key o n : name_index o n = as_bytes (name_key o n).
Proof. unfold name_index, name_key, as_bytes. by rewrite flat_map_app. Qed.

Lemma is_text_name_key o n : is_text o → is_text n → is_text (name_key o n).
Proof.
  intros Ho Hn. apply Forall_app. split; [done|]. apply Forall_cons. split; [by left|done].
Qed.

(** A table of rows filed under their own names has distinct indexes. *)
Section NamedRows.
Context {R : Type} (row_owner row_name : R → text).

Definition filed (m : gmap text R) : Prop :=
  ∀ k r, m !! k = Some r →
    k = name_key (row_owner r) (row_name r) ∧ is_text (row_owner r) ∧ is_text (row_name r).

Definition row_index (r : R) : list Z := name_index (row_owner r) (row_name r).

Lemma filed_insert m r :
  filed m → is_text (row_owner r) → is_text (row_name r) →
  filed (<[name_key (row_owner r) (row_name r) := r]> m).
Proof. intros Hf Ho Hn k r' [[<- <-]|[_ H]]%lookup_insert_Some; [done|by apply Hf]. Qed.

Lemma filed_delete m k : filed m → filed (delete k m).
Proof. intros Hf k' r [_ H]%lookup_delete_Some. by apply Hf. Qed.

Lemma filed_index_inj m k k' r r' :
  filed m → m !! k = Some r → m !! k' = Some r' → row_index r = row_index r' → k = k'.
Proof.
  intros Hf Hr Hr'. unfold row_index. rewrite !name_index_key.
  destruct (Hf _ _ Hr) as (-> & ? & ?), (Hf _ _ Hr') as (-> & ? & ?).
  apply as_bytes_inj; by apply is_text_name_key.
Qed.

Lemma filed_indexes_nodup m : filed m → NoDup (row_index <$> (map_to_list m).*2).
Proof.
  intros Hf.
  assert (H : ∀ l : list (text * R), NoDup (l.*1) → (∀ k r, (k, r) ∈ l → m !! k = Some r) →
    NoDup (row_index <$> l.*2)).
  { intros l. induction l as [|[k r] l IH]; intros Hd Hl; [constructor|].
    apply NoDup_cons in Hd as [Hn Hd]. cbn. apply NoDup_cons. split.
    - intros (r' & E & ([k' r''] & -> & Hk')%list_elem_of_fmap)%list_elem_of_fmap. apply Hn.
      apply list_elem_of_fmap. exists (k', r''). split; [|done].
      eapply (filed_index_inj m); [done|apply Hl; by left|apply Hl; right; exact Hk'|exact E].
    - apply IH; [done|]. intros; apply Hl; by right. }
  apply H; [apply NoDup_fst_map_to_list|]. intros k r. apply elem_of_map_to_list.
Qed.
End NamedRows.
