(* ===== verification/Oid.v ===== *)
(** * Object identifiers ([crates/netsnmp/src/oid.rs])

    [struct Oid(Vec<u32>)] is the list of its sub-identifiers; a well-formed
    one has every sub-identifier in the [u32] range. The derived [Ord] is the
    lexicographic order that GETNEXT walks. The same order on [Vec<u8>] is the
    order of names and contexts elsewhere in the agent. *)

From Stdlib Require Import ZArith Lia.
From S2P Require Import Prelude MachineInts Text.

Abbreviation Oid := (list Z) (only parsing).

Definition MAX_OID_LEN : nat := 128.

Inductive Error :=
| InvalidOid.

(** The type invariant of [Vec<u32>]. *)
Definition wf (o : Oid) : Prop := Forall is_u32 o.

Definition null : Oid := [].
Definition is_empty (o : Oid) : bool := match o with [] => true | _ => false end.
Definition child (o : Oid) (c : Z) : Oid := o ++ [c].

(** [#[derive(PartialOrd, Ord)]] on a [Vec]. *)
Fixpoint cmp (a b : Oid) : comparison :=
  match a, b with
  | [], [] => Eq
  | [], _ :: _ => Lt
  | _ :: _, [] => Gt
  | x :: a', y :: b' =>
      match x ?= y with Eq => cmp a' b' | c => c end
  end.

Definition ltb (a b : Oid) : bool := match cmp a b with Lt => true | _ => false end.
Definition leb (a b : Oid) : bool := match cmp a b with Gt => false | _ => true end.
Definition lt (a b : Oid) : Prop := cmp a b = Lt.
Definition le (a b : Oid) : Prop := cmp a b ≠ Gt.

Fixpoint eqb (a b : Oid) : bool :=
  match a, b with
  | [], [] => true
  | x :: a', y :: b' => (x =? y) && eqb a' b'
  | _, _ => false
  end.

(** [other.0.len() >= self.0.len() && other.0[..self.0.len()] == self.0[..]] *)
Definition is_prefix_of (self other : Oid) : bool :=
  bool_decide (length self <= length other)%nat &&
  eqb (take (length self) other) self.

Definition validate (o : Oid) : result unit Error :=
  if bool_decide (MAX_OID_LEN < length o)%nat then Err InvalidOid else Ok tt.

(** A closed OID is checked by evaluation. *)
Lemma wf_check o : forallb (fun a => (0 <=? a) && (a <=? u32_max)) o = true → wf o.
Proof.
  intros H. apply List.Forall_forall. intros a Ha. rewrite forallb_forall in H. specialize (H a Ha).
  unfold is_u32, u32_max in *. lia.
Qed.

(** [Display]: [.] for the empty OID, otherwise [.n] for every arc. *)
Definition display (o : Oid) : text :=
  match o with
  | [] => str "."
  | _ => flat_map (fun part => 46 :: show_u part) o
  end.

(** The token loop of [from_str]. *)
Fixpoint parse_tokens (tokens : list text) : result Oid Error :=
  match tokens with
  | [] => Ok []
  | t :: ts =>
      let? n := ok_or InvalidOid (parse_unsigned u32_max t) in
      let? ps := parse_tokens ts in
      Ok (n :: ps)
  end.

Definition from_str (s : text) : result Oid Error :=
  let trimmed := trim_start_matches (fun c => c =? 46) (trim s) in
  match trimmed with
  | [] => Ok null
  | _ => parse_tokens (split 46 trimmed)
  end.

(** ** The order *)

Lemma cmp_refl a : cmp a a = Eq.
Proof. induction a as [|x a IH]; simpl; [done|]. by rewrite Z.compare_refl. Qed.

Lemma cmp_eq a b : cmp a b = Eq ↔ a = b.
Proof.
  split; [|intros ->; apply cmp_refl].
  revert b. induction a as [|x a IH]; intros [|y b]; simpl; try done.
  destruct (Z.compare_spec x y) as [->| |]; try done. intros H. f_equal. by apply IH.
Qed.

Lemma cmp_antisym a b : cmp b a = CompOpp (cmp a b).
Proof.
  revert b. induction a as [|x a IH]; intros [|y b]; simpl; try done.
  rewrite (Z.compare_antisym x y). destruct (x ?= y); simpl; [apply IH|done|done].
Qed.

Lemma lt_irrefl a : ¬ lt a a.
Proof. unfold lt. by rewrite cmp_refl. Qed.

#[export] Instance lt_trans : Transitive lt.
Proof.
  unfold lt. intros a. induction a as [|x a IH]; intros [|y b] [|z c]; simpl; try done.
  destruct (Z.compare_spec x y) as [->|Hxy|]; try done;
    destruct (Z.compare_spec y z) as [->|Hyz|]; try done; intros H1 H2.
  - by eapply IH.
  - by rewrite (proj2 (Z.compare_lt_iff x z)).
  - by rewrite (proj2 (Z.compare_lt_iff x z)) by lia.
Qed.

#[export] Instance lt_strict : StrictOrder lt.
Proof. split; [intros a; apply lt_irrefl|apply _]. Qed.

Lemma le_lt_or_eq a b : le a b ↔ lt a b ∨ a = b.
Proof.
  unfold le, lt. destruct (cmp a b) eqn:E.
  - apply cmp_eq in E. subst. naive_solver.
  - naive_solver.
  - split; [done|]. intros [?| ->]; [done|]. by rewrite cmp_refl in E.
Qed.

Lemma lt_le a b : lt a b → le a b.
Proof. rewrite le_lt_or_eq. auto. Qed.

#[export] Instance le_preorder : PreOrder le.
Proof.
  split.
  - intros a. apply le_lt_or_eq. by right.
  - intros a b c. rewrite !le_lt_or_eq. intros [H1| ->] [H2| ->]; auto.
    left. by transitivity b.
Qed.

#[export] Instance le_antisymm : AntiSymm (=) le.
Proof.
  intros a b. rewrite !le_lt_or_eq. intros [H1|?] [H2|?]; auto.
  by destruct (lt_irrefl a); transitivity b.
Qed.

Lemma not_lt a b : ¬ lt a b ↔ le b a.
Proof.
  unfold lt, le. rewrite (cmp_antisym a b). by destruct (cmp a b).
Qed.

Lemma not_le a b : ¬ le a b ↔ lt b a.
Proof.
  unfold lt, le. rewrite (cmp_antisym a b). destruct (cmp a b); simpl; naive_solver.
Qed.

Lemma le_total a b : le a b ∨ le b a.
Proof. unfold le. rewrite (cmp_antisym a b). destruct (cmp a b); simpl; auto. Qed.

Lemma lt_le_trans a b c : lt a b → le b c → lt a c.
Proof. rewrite le_lt_or_eq. intros H [H'| <-]; [by transitivity b|done]. Qed.

Lemma le_lt_trans a b c : le a b → lt b c → lt a c.
Proof. rewrite le_lt_or_eq. intros [H| ->] H'; [by transitivity b|done]. Qed.

Lemma ltb_lt a b : ltb a b = true ↔ lt a b.
Proof. unfold ltb, lt. by destruct (cmp a b). Qed.

Lemma leb_le a b : leb a b = true ↔ le a b.
Proof. unfold leb, le. by destruct (cmp a b). Qed.

Lemma ltb_ge a b : ltb a b = false ↔ le b a.
Proof. rewrite <- not_true_iff_false, ltb_lt. apply not_lt. Qed.

Lemma leb_gt a b : leb a b = false ↔ lt b a.
Proof. rewrite <- not_true_iff_false, leb_le. apply not_le. Qed.

Lemma eqb_eq a b : eqb a b = true ↔ a = b.
Proof.
  revert b. induction a as [|x a IH]; intros [|y b]; simpl; try done.
  rewrite andb_true_iff, Z.eqb_eq, IH. split; [by intros [-> ->]|by intros [= -> ->]].
Qed.

Lemma eqb_refl a : eqb a a = true.
Proof. by apply eqb_eq. Qed.

Lemma eqb_neq a b : eqb a b = false ↔ a ≠ b.
Proof. rewrite <- not_true_iff_false, eqb_eq. done. Qed.

#[export] Instance lt_dec : RelDecision lt.
Proof. intros a b. destruct (ltb a b) eqn:E; [left|right]; rewrite <- ltb_lt; congruence. Defined.

#[export] Instance le_dec : RelDecision le.
Proof. intros a b. destruct (leb a b) eqn:E; [left|right]; rewrite <- leb_le; congruence. Defined.

(** ** Prefixes and subtrees *)

Lemma is_prefix_of_spec a b : is_prefix_of a b = true ↔ ∃ s, b = a ++ s.
Proof.
  unfold is_prefix_of. rewrite andb_true_iff, bool_decide_eq_true, eqb_eq. split.
  - intros [_ H]. exists (drop (length a) b). rewrite <- H at 1. by rewrite take_drop.
  - intros [s ->]. rewrite length_app, take_app_length. split; [lia|done].
Qed.

Lemma is_prefix_of_refl a : is_prefix_of a a = true.
Proof. apply is_prefix_of_spec. exists []. by rewrite app_nil_r. Qed.

Lemma is_prefix_of_trans a b c :
  is_prefix_of a b = true → is_prefix_of b c = true → is_prefix_of a c = true.
Proof.
  rewrite !is_prefix_of_spec. intros [s ->] [t ->]. exists (s ++ t). by rewrite app_assoc.
Qed.

Lemma is_prefix_of_child a c : is_prefix_of a (child a c) = true.
Proof. apply is_prefix_of_spec. by exists [c]. Qed.

(** A subtree's root precedes its members. *)
Lemma prefix_le a b : is_prefix_of a b = true → le a b.
Proof.
  rewrite is_prefix_of_spec. intros [s ->]. unfold le.
  induction a as [|x a IH]; simpl; [by destruct s|]. by rewrite Z.compare_refl.
Qed.

(** Subtrees are intervals of the order. *)
Lemma prefix_convex r a b c :
  is_prefix_of r a = true → is_prefix_of r c = true → le a b → le b c →
  is_prefix_of r b = true.
Proof.
  rewrite !is_prefix_of_spec. intros [s ->] [t ->]. unfold le.
  revert b. induction r as [|x r IH]; intros b; simpl; [eauto|].
  destruct b as [|y b]; [done|]. simpl.
  destruct (Z.compare_spec x y) as [->|Hxy|Hxy]; try done.
  - rewrite Z.compare_refl. intros H1 H2.
    destruct (IH b H1 H2) as [u ->]. by exists u.
  - rewrite (proj2 (Z.compare_gt_iff y x)) by lia. done.
Qed.

(** Two prefixes of one OID are comparable. *)
Lemma prefixes_comparable a b o :
  is_prefix_of a o = true → is_prefix_of b o = true →
  is_prefix_of a b = true ∨ is_prefix_of b a = true.
Proof.
  rewrite !is_prefix_of_spec. intros [s ->] [t E]. revert b t E.
  induction a as [|x a IH]; intros b t E; [left; by exists b|].
  destruct b as [|y b]; [right; by exists (x :: a)|].
  injection E as <- E. destruct (IH _ _ E) as [[u ->]|[u ->]].
  - left. by exists u.
  - right. by exists u.
Qed.

(** A subtree that starts later, and is not inside the earlier one, lies
    entirely after it. *)
Lemma subtree_before r1 r2 a b :
  lt r1 r2 → is_prefix_of r1 r2 = false →
  is_prefix_of r1 a = true → is_prefix_of r2 b = true → lt a b.
Proof.
  intros Hlt Hn Ha Hb. destruct (decide (lt a b)) as [|Hge]; [done|].
  exfalso. apply not_lt in Hge. rewrite <- not_true_iff_false in Hn. apply Hn.
  apply (prefix_convex r1 r1 r2 a).
  - apply is_prefix_of_refl.
  - done.
  - by apply lt_le.
  - etrans; [|exact Hge]. by apply prefix_le.
Qed.

Lemma lt_child a c : lt a (child a c).
Proof.
  unfold lt, child. induction a as [|x a IH]; simpl; [done|]. by rewrite Z.compare_refl.
Qed.

Lemma wf_child o c : wf o → is_u32 c → wf (child o c).
Proof. intros Ho Hc. apply Forall_app. split; [done|]. constructor; [done|constructor]. Qed.

(** ** Text form *)

Lemma show_not_dot n : 0 <= n → Forall (λ c, c ≠ 46) (show_u n).
Proof.
  intros H. destruct (show_u_correct n H) as (_ & H2 & _).
  eapply Forall_impl; [exact H2|]. intros c Hc ->. done.
Qed.

Lemma digit_not_whitespace c : is_ascii_digit c = true → is_whitespace c = false.
Proof.
  unfold is_ascii_digit. intros H. reflect_bools. unfold is_whitespace.
  repeat match goal with
  | |- context [?a =? ?b] => rewrite (proj2 (Z.eqb_neq a b)) by lia
  end. by Zbool.
Qed.

Lemma display_no_whitespace o : wf o → Forall (λ c, is_whitespace c = false) (display o).
Proof.
  intros Ho. assert (H : Forall (λ c, is_whitespace c = false)
    (flat_map (fun part => 46 :: show_u part) o)).
  { induction Ho as [|x o Hx HF IH]; simpl; [constructor|].
    constructor; [done|]. apply Forall_app. split; [|done].
    destruct Hx as [Hx _]. destruct (show_u_correct x Hx) as (_ & H2 & _).
    eapply Forall_impl; [exact H2|]. apply digit_not_whitespace. }
  destruct o; [|done]. by repeat constructor.
Qed.

Lemma split_display x o :
  wf (x :: o) →
  split 46 (show_u x ++ flat_map (fun part => 46 :: show_u part) o) =
  show_u x :: map show_u o.
Proof.
  revert x. induction o as [|y o IH]; intros x Hw; inversion Hw as [|? ? [Hx _] Hw']; subst; simpl.
  - rewrite app_nil_r. apply split_no_sep. by apply show_not_dot.
  - rewrite split_app by (by apply show_not_dot). by rewrite IH.
Qed.

Lemma parse_tokens_show o : wf o → parse_tokens (map show_u o) = Ok o.
Proof.
  induction 1 as [|x o Hx HF IH]; simpl; [done|].
  rewrite parse_unsigned_show by (unfold is_u32, u32_max in *; lia). simpl. by rewrite IH.
Qed.

Lemma from_str_display_ok o : wf o → from_str (display o) = Ok o.
Proof.
  intros Hw. unfold from_str. rewrite trim_id by (by apply display_no_whitespace).
  destruct o as [|x o]; [done|].
  inversion Hw as [|? ? [Hx _] Hw']; subst.
  cbn [display flat_map app trim_start_matches Z.eqb Pos.eqb].
  destruct (show_u_correct x Hx) as (_ & H2 & H3).
  assert (E : trim_start_matches (λ c, c =? 46)
    (show_u x ++ flat_map (fun part => 46 :: show_u part) o) =
    show_u x ++ flat_map (fun part => 46 :: show_u part) o).
  { pose proof (show_not_dot x Hx) as Hd. destruct (show_u x) as [|c s]; [done|].
    inversion Hd; subst. simpl. by rewrite (proj2 (Z.eqb_neq c 46)). }
  rewrite E. destruct (show_u x ++ _) as [|c s] eqn:Es.
  { by apply app_eq_nil in Es as [? _]. }
  rewrite <- Es, split_display by done. by apply (parse_tokens_show (x :: o)).
Qed.

Lemma parse_tokens_wf ts o : parse_tokens ts = Ok o → wf o.
Proof.
  revert o. induction ts as [|t ts IH]; intros o; simpl; [intros [= <-]; constructor|].
  destruct (parse_unsigned u32_max t) as [n|] eqn:E; simpl; [|done].
  destruct (parse_tokens ts) as [ps|]; simpl; [|done].
  intros [= <-]. constructor; [|by apply IH].
  pose proof (parse_unsigned_range _ _ _ E). pose proof (parse_unsigned_nonneg _ _ _ E).
  unfold is_u32, u32_max in *. lia.
Qed.

Lemma from_str_wf s o : from_str s = Ok o → wf o.
Proof.
  unfold from_str. destruct (trim_start_matches _ _).
  - intros [= <-]. constructor.
  - apply parse_tokens_wf.
Qed.

#[export] Hint Resolve is_prefix_of_refl is_prefix_of_child lt_child : snmp.
#[export] Hint Rewrite cmp_refl eqb_refl : snmp.

(** The text form of an OID is faithful: every accepted text denotes an OID
    whose arcs are [u32]s, [Display] then [FromStr] gives that OID back, and so
    two well-formed OIDs with the same text are equal. *)
Theorem from_str_display_roundtrip :
  (∀ s o, from_str s = Ok o → wf o ∧ from_str (display o) = Ok o) ∧
  (∀ o, wf o → from_str (display o) = Ok o) ∧
  (∀ o1 o2, wf o1 → wf o2 → display o1 = display o2 → o1 = o2).
Proof.
  split; [|split].
  - intros s o H. pose proof (from_str_wf s o H). split; [done|by apply from_str_display_ok].
  - apply from_str_display_ok.
  - intros o1 o2 H1 H2 E. pose proof (from_str_display_ok o1 H1) as E1.
    rewrite E, (from_str_display_ok o2 H2) in E1. by injection E1.
Qed.

Example from_str_ex : from_str (str ".1.3.6.1.4294967295") = Ok [1; 3; 6; 1; 4294967295].
Proof. reflexivity. Qed.
Example from_str_overflow : from_str (str "1.3.4294967296") = Err InvalidOid.
Proof. reflexivity. Qed.
Example from_str_trailing_dot : from_str (str "1.3.") = Err InvalidOid.
Proof. reflexivity. Qed.
