(* ===== verification/Value.v ===== *)
(** * SNMP values ([crates/netsnmp/src/value.rs]) *)

From Stdlib Require Import ZArith Lia.
From S2P Require Import Prelude MachineInts Text Oid.

(** [std::net::Ipv4Addr]: its four octets. *)
Record Ipv4Addr := mkIpv4 { octet1 : Z; octet2 : Z; octet3 : Z; octet4 : Z }.

Definition octets (ip : Ipv4Addr) : bytes :=
  [octet1 ip; octet2 ip; octet3 ip; octet4 ip].

#[export] Instance ipv4_eq_dec : EqDecision Ipv4Addr.
Proof. solve_decision. Defined.

Inductive Value :=
| VInteger (v : Z)
| VOctetString (b : bytes)
| VOid (o : Oid)
| VIpAddress (ip : Ipv4Addr)
| VCounter32 (v : Z)
| VGauge32 (v : Z)
| VTimeTicks (v : Z)
| VOpaque (b : bytes)
| VCounter64 (v : Z)
| VNull
| VNoSuchObject
| VNoSuchInstance
| VEndOfMibView.

(** [#[derive(PartialEq)]]. *)
#[export] Instance value_eq_dec : EqDecision Value.
Proof. solve_decision. Defined.

Definition is_ipv4 (ip : Ipv4Addr) : Prop := is_bytes (octets ip).

(** The ranges of the payload types. *)
Definition wf_value (v : Value) : Prop :=
  match v with
  | VInteger n => is_i64 n
  | VOctetString b | VOpaque b => is_bytes b
  | VOid o => Oid.wf o
  | VIpAddress ip => is_ipv4 ip
  | VCounter32 n | VGauge32 n | VTimeTicks n => is_u32 n
  | VCounter64 n => is_u64 n
  | VNull | VNoSuchObject | VNoSuchInstance | VEndOfMibView => True
  end.

(** [Value::type_name]. *)
Definition type_name (v : Value) : text :=
  match v with
  | VInteger _ => str "INTEGER"
  | VOctetString _ => str "STRING"
  | VOid _ => str "OID"
  | VIpAddress _ => str "IpAddress"
  | VCounter32 _ => str "Counter32"
  | VGauge32 _ => str "Gauge32"
  | VTimeTicks _ => str "Timeticks"
  | VOpaque _ => str "Opaque"
  | VCounter64 _ => str "Counter64"
  | VNull => str "Null"
  | VNoSuchObject => str "noSuchObject"
  | VNoSuchInstance => str "noSuchInstance"
  | VEndOfMibView => str "endOfMibView"
  end.

(** [str::from_utf8]: the bytes are the encoding of some text. *)
Definition from_utf8 (b : bytes) : option text :=
  let s := from_utf8_lossy b in
  if bool_decide (as_bytes s = b) then Some s else None.

(** [Display] of an IPv4 address. *)
Definition show_ipv4 (ip : Ipv4Addr) : text :=
  show_u (octet1 ip) ++ 46 :: show_u (octet2 ip) ++ 46 :: show_u (octet3 ip) ++ 46 :: show_u (octet4 ip).

Definition hex_upper (d : Z) : Z := if d <? 10 then 48 + d else 55 + d.
Definition show_02X (b : Z) : text := [hex_upper (b / 16); hex_upper (b mod 16)].
Definition is_ascii_control (b : Z) : bool := (b <? 32) || (b =? 127).
Definition show_02 (n : Z) : text := (if n <? 10 then [48] else []) ++ show_u n.

Fixpoint space_separated (ws : list text) : text :=
  match ws with
  | [] => []
  | [w] => w
  | w :: ws' => w ++ 32 :: space_separated ws'
  end.

(** [Display for Value]. *)
Definition value_display (v : Value) : text :=
  match v with
  | VInteger n => str "INTEGER: " ++ show_i n
  | VOctetString b =>
      let hex := str "Hex-STRING: " ++ space_separated (show_02X <$> b) in
      match from_utf8 b with
      | Some s =>
          if forallb (fun c => negb (is_ascii_control c) || (c =? 10) || (c =? 9)) b
          then str "STRING: " ++ s else hex
      | None => hex
      end
  | VOid o => str "OID: " ++ Oid.display o
  | VIpAddress ip =>
      str "IpAddress: " ++ show_ipv4 ip
  | VCounter32 n => str "Counter32: " ++ show_u n
  | VGauge32 n => str "Gauge32: " ++ show_u n
  | VTimeTicks n =>
      let secs := n / 100 in
      str "Timeticks: (" ++ show_u n ++ str ") " ++ show_u (secs / 86400) ++ str "d "
      ++ show_u (secs mod 86400 / 3600) ++ str "h " ++ show_u (secs mod 3600 / 60) ++ str "m "
      ++ show_u (secs mod 60) ++ 46 :: show_02 (n mod 100) ++ str "s"
  | VOpaque b => str "Opaque: " ++ show_u (Z.of_nat (length b)) ++ str " bytes"
  | VCounter64 n => str "Counter64: " ++ show_u n
  | VNull => str "NULL"
  | VNoSuchObject => str "No Such Object available on this agent at this OID"
  | VNoSuchInstance => str "No Such Instance currently exists at this OID"
  | VEndOfMibView => str "No more variables left in this MIB View"
  end.

Example timeticks_display :
  value_display (VTimeTicks 9000105) = str "Timeticks: (9000105) 1d 1h 0m 1.05s".
Proof. vm_compute. reflexivity. Qed.

(** The test [value == Value::EndOfMibView] of the walks. *)
Definition is_end (v : Value) : bool := bool_decide (v = VEndOfMibView).

Lemma is_end_true v : is_end v = true ↔ v = VEndOfMibView.
Proof. apply bool_decide_eq_true. Qed.

Lemma is_end_false v : is_end v = false ↔ v ≠ VEndOfMibView.
Proof. apply bool_decide_eq_false. Qed.
