(* ===== verification/Pdu.v ===== *)
(** * PDUs and variable bindings ([crates/netsnmp/src/pdu.rs])

    The domain types and their codes. The conversions to and from the
    [rasn-snmp] types ([to_rasn], [from_rasn]) are in [Wire]. *)

From Stdlib Require Import ZArith Lia.
From S2P Require Import Prelude MachineInts Text Oid Value.

Inductive PduType :=
| Get | GetNext | Response | Set_ | TrapV1 | GetBulk | Inform | TrapV2 | Report.

#[export] Instance pdu_type_eq_dec : EqDecision PduType.
Proof. solve_decision. Defined.

Definition pdu_type_code (t : PduType) : Z :=
  match t with
  | Get => 0 | GetNext => 1 | Response => 2 | Set_ => 3 | TrapV1 => 4
  | GetBulk => 5 | Inform => 6 | TrapV2 => 7 | Report => 8
  end.

(** [0xA0 | self as u8] *)
Definition tag (t : PduType) : Z := Z.lor 160 (pdu_type_code t).

Inductive Error := Protocol.

Definition from_tag (t : Z) : result PduType Error :=
  let kind := Z.land t 31 in
  if kind =? 0 then Ok Get
  else if kind =? 1 then Ok GetNext
  else if kind =? 2 then Ok Response
  else if kind =? 3 then Ok Set_
  else if kind =? 4 then Ok TrapV1
  else if kind =? 5 then Ok GetBulk
  else if kind =? 6 then Ok Inform
  else if kind =? 7 then Ok TrapV2
  else if kind =? 8 then Ok Report
  else Err Protocol.

Inductive ErrorStatus :=
| NoError | TooBig | NoSuchName | BadValue | ReadOnly | GenErr | NoAccess
| WrongType | WrongLength | WrongEncoding | WrongValue | NoCreation
| InconsistentValue | ResourceUnavailable | CommitFailed | UndoFailed
| AuthorizationError | NotWritable | InconsistentName
| Other (v : Z).

#[export] Instance error_status_eq_dec : EqDecision ErrorStatus.
Proof. solve_decision. Defined.

Definition code (e : ErrorStatus) : Z :=
  match e with
  | NoError => 0 | TooBig => 1 | NoSuchName => 2 | BadValue => 3 | ReadOnly => 4
  | GenErr => 5 | NoAccess => 6 | WrongType => 7 | WrongLength => 8
  | WrongEncoding => 9 | WrongValue => 10 | NoCreation => 11
  | InconsistentValue => 12 | ResourceUnavailable => 13 | CommitFailed => 14
  | UndoFailed => 15 | AuthorizationError => 16 | NotWritable => 17
  | InconsistentName => 18
  | Other v => v
  end.

Definition from_code (c : Z) : ErrorStatus :=
  match c with
  | 0 => NoError | 1 => TooBig | 2 => NoSuchName | 3 => BadValue | 4 => ReadOnly
  | 5 => GenErr | 6 => NoAccess | 7 => WrongType | 8 => WrongLength
  | 9 => WrongEncoding | 10 => WrongValue | 11 => NoCreation
  | 12 => InconsistentValue | 13 => ResourceUnavailable | 14 => CommitFailed
  | 15 => UndoFailed | 16 => AuthorizationError | 17 => NotWritable
  | 18 => InconsistentName
  | other => Other other
  end.

(** [ErrorStatus::is_ok]. *)
Definition is_ok_status (e : ErrorStatus) : bool :=
  match e with NoError => true | _ => false end.

Record VarBind := mkVarBind { vb_oid : Oid; vb_value : Value }.

#[export] Instance varbind_eq_dec : EqDecision VarBind.
Proof. solve_decision. Defined.

(** [VarBind::null]. *)
Definition null_var (o : Oid) : VarBind := mkVarBind o VNull.

Record V1Trap := mkV1Trap {
  enterprise : Oid;
  agent_addr : Ipv4Addr;
  generic_trap : Z;
  specific_trap : Z;
  time_stamp : Z
}.

Record Pdu := mkPdu {
  pdu_type : PduType;
  request_id : Z;
  error_status : Z;
  error_index : Z;
  variables : list VarBind;
  v1_trap : option V1Trap
}.

(** [Pdu::new]. *)
Definition new_pdu (t : PduType) (id : Z) : Pdu := mkPdu t id 0 0 [] None.

(** [Pdu::new_v1_trap]. *)
Definition new_v1_trap (t : V1Trap) (vbs : list VarBind) : Pdu :=
  mkPdu TrapV1 0 0 0 vbs (Some t).

Definition with_var (p : Pdu) (o : Oid) (v : Value) : Pdu :=
  mkPdu (pdu_type p) (request_id p) (error_status p) (error_index p)
    (variables p ++ [mkVarBind o v]) (v1_trap p).

Definition with_null_var (p : Pdu) (o : Oid) : Pdu := with_var p o VNull.

(** The GETBULK fields alias the error fields. *)
Definition non_repeaters (p : Pdu) : Z := error_status p.
Definition max_repetitions (p : Pdu) : Z := error_index p.
Definition status (p : Pdu) : ErrorStatus := from_code (error_status p).

(** Field updates of a response under construction. *)
Definition set_variables (vs : list VarBind) (p : Pdu) : Pdu :=
  mkPdu (pdu_type p) (request_id p) (error_status p) (error_index p) vs (v1_trap p).

Definition push_variable (vb : VarBind) (p : Pdu) : Pdu :=
  set_variables (variables p ++ [vb]) p.

(** [response.error_status = ...; response.error_index = ...;
     response.variables = request.variables.clone()] *)
Definition set_error (e : ErrorStatus) (index : Z) (vs : list VarBind) (p : Pdu) : Pdu :=
  mkPdu (pdu_type p) (request_id p) (code e) index vs (v1_trap p).

(** ** Codes *)

Lemma from_tag_tag t : from_tag (tag t) = Ok t.
Proof. by destruct t. Qed.

Lemma from_code_code e :
  (∀ v, e = Other v → ¬ 0 <= v <= 18) → from_code (code e) = e.
Proof.
  destruct e as [| | | | | | | | | | | | | | | | | | |v]; try done. intros H.
  specialize (H v eq_refl). simpl.
  destruct v as [|p|p]; [lia| |done].
  do 5 (destruct p as [p|p|]; try done; try lia).
Qed.

Lemma code_from_code c : code (from_code c) = c.
Proof.
  destruct c as [|p|p]; [done| |done].
  do 5 (destruct p as [p|p|]; try done).
Qed.

(** The wire codes are faithful: a PDU type survives its tag, every integer
    survives [ErrorStatus], every error status with a standard name or a
    non-standard code survives its code, and success is exactly code 0. *)
Theorem codes_roundtrip :
  (∀ t, from_tag (tag t) = Ok t) ∧
  (∀ t1 t2, tag t1 = tag t2 → t1 = t2) ∧
  (∀ c, code (from_code c) = c) ∧
  (∀ e, (∀ v, e = Other v → ¬ 0 <= v <= 18) → from_code (code e) = e) ∧
  (∀ c, is_ok_status (from_code c) = true ↔ c = 0).
Proof.
  split; [apply from_tag_tag|]. split.
  { intros t1 t2 E. pose proof (from_tag_tag t1) as H. rewrite E, from_tag_tag in H.
    by injection H. }
  split; [apply code_from_code|]. split; [apply from_code_code|].
  intros c. split; [|by intros ->].
  destruct (from_code c) eqn:E; try done. intros _.
  by rewrite <- (code_from_code c), E.
Qed.
