(* ===== verification/Cells.v ===== *)
(** * Ordered instance cells and the standard library's binary search

    Every table handler of the agent answers from a list of [(Oid, Value)]
    cells sorted by OID, through [slice::binary_search_by] and
    [slice::partition_point]; [BTreeMap] range queries have the same meaning.
    This file models the two searches as the standard library implements them
    and relates them to the reference queries [lookup] and [successor]. *)

From Stdlib Require Import ZArith Lia.
From S2P Require Import Prelude MachineInts Oid Value.

(** ** [slice::binary_search_by] *)

Section BinarySearch.
Context {A : Type} (f : A → comparison).

Definition not_greater (x : A) : bool :=
  match f x with Gt => false | _ => true end.

(** [while size > 1 { half = size / 2; mid = base + half;
     base = if f(mid) == Greater { base } else { mid }; size -= half }] *)
Fixpoint search_loop (fuel : nat) (l : list A) (base size : nat) : nat :=
  match fuel with
  | O => base
  | S fuel' =>
      if (size <=? 1)%nat then base
      else
        let half := (size / 2)%nat in
        let mid := (base + half)%nat in
        let base' :=
          match l !! mid with
          | Some x => if not_greater x then mid else base
          | None => base
          end in
        search_loop fuel' l base' (size - half)%nat
  end.

Definition binary_search_by (l : list A) : result nat nat :=
  match l with
  | [] => Err 0%nat
  | _ =>
      let base := search_loop (length l) l 0 (length l) in
      match l !! base with
      | None => Err 0%nat
      | Some x =>
          match f x with
          | Eq => Ok base
          | Lt => Err (S base)
          | Gt => Err base
          end
      end
  end.

(** [f] is partitioned: the elements that are not greater come first. *)
Definition cut_at (l : list A) (k : nat) : Prop :=
  (k <= length l)%nat ∧
  ∀ i x, l !! i = Some x → not_greater x = bool_decide (i < k)%nat.

Lemma search_loop_spec l k fuel base size :
  cut_at l k → (size <= fuel)%nat → (0 < size)%nat →
  (base <= pred k)%nat → (k <= base + size)%nat → (base + size <= length l)%nat →
  search_loop fuel l base size = pred k.
Proof.
  intros [Hk Hc]. revert base size.
  induction fuel as [|fuel IH]; intros base size Hf Hs Hb Hu Hl; [lia|].
  cbn [search_loop]. destruct (Nat.leb_spec size 1) as [H1|H1].
  { lia. }
  assert (Hh : (0 < size / 2 < size)%nat).
  { split; [apply Nat.div_str_pos; lia|apply Nat.div_lt; lia]. }
  assert (2 * (size / 2) <= size)%nat by apply Nat.Div0.mul_div_le.
  destruct (lookup_lt_is_Some_2 l (base + size / 2)) as [x Hx]; [lia|].
  rewrite Hx, (Hc _ _ Hx).
  case_bool_decide as Hd; apply IH; lia.
Qed.

Lemma binary_search_by_spec l k :
  cut_at l k →
  binary_search_by l =
    match l !! pred k with
    | Some x =>
        match f x with
        | Eq => Ok (pred k) | Lt => Err k | Gt => Err 0%nat
        end
    | None => Err 0%nat
    end.
Proof.
  intros Hcut. destruct l as [|y l].
  { destruct Hcut as [Hk _]. simpl in Hk. by replace k with O by lia. }
  unfold binary_search_by.
  rewrite (search_loop_spec (y :: l) k) by (try done; try (simpl; lia); apply Hcut).
  destruct ((y :: l) !! pred k) as [x|] eqn:Hx; [|done].
  destruct (f x) eqn:Hfx; [done| |].
  - f_equal. destruct k as [|k]; [|done].
    destruct Hcut as [_ Hc]. specialize (Hc _ _ Hx). unfold not_greater in Hc.
    by rewrite Hfx in Hc.
  - destruct k as [|k]; [done|].
    destruct Hcut as [_ Hc]. specialize (Hc _ _ Hx). unfold not_greater in Hc.
    rewrite Hfx, bool_decide_true in Hc; [done|lia].
Qed.
End BinarySearch.

(** [slice::partition_point(pred)]:
    [self.binary_search_by(|x| if pred(x) { Less } else { Greater })
       .unwrap_or_else(|i| i)] *)
Definition partition_point {A} (p : A → bool) (l : list A) : nat :=
  match binary_search_by (fun x => if p x then Lt else Gt) l with
  | Ok i => i
  | Err i => i
  end.

Lemma partition_point_spec {A} (p : A → bool) l k :
  (k <= length l)%nat →
  (∀ i x, l !! i = Some x → p x = bool_decide (i < k)%nat) →
  partition_point p l = k.
Proof.
  intros Hk Hp. unfold partition_point.
  rewrite (binary_search_by_spec _ l k).
  - destruct (l !! pred k) as [x|] eqn:Hx.
    + pose proof (Hp _ _ Hx) as E. destruct (p x) eqn:Px.
      * done.
      * symmetry in E. apply bool_decide_eq_false in E. lia.
    + apply lookup_ge_None in Hx. lia.
  - split; [done|]. intros i x Hx. unfold not_greater. rewrite <- (Hp _ _ Hx).
    by destruct (p x).
Qed.

(** ** Cells *)

Abbreviation cells := (list (Oid * Value)) (only parsing).

(** [cells.sort_by(|a, b| a.0.cmp(&b.0))] *)
Definition sort_cells (l : cells) : cells :=
  sort_by (fun a b => Oid.leb a.1 b.1) l.

Definition cells_le (a b : Oid * Value) : Prop := Oid.le a.1 b.1.
Definition cells_lt (a b : Oid * Value) : Prop := Oid.lt a.1 b.1.

(** Sorted, possibly with repeated OIDs; and strictly sorted. *)
Abbreviation sorted := (StronglySorted cells_le).
Abbreviation strictly_sorted := (StronglySorted cells_lt).

(** The reference queries. *)
Definition lookup_cell (o : Oid) (l : cells) : option Value :=
  snd <$> find (fun c => Oid.eqb c.1 o) l.

Definition successor (o : Oid) (l : cells) : option (Oid * Value) :=
  find (fun c => Oid.ltb o c.1) l.

(** The queries as [FnHandler], [TableHandler] and [TableDataSet] make them. *)
Definition search_get (o : Oid) (l : cells) : option Value :=
  match binary_search_by (fun c => Oid.cmp c.1 o) l with
  | Ok i => snd <$> l !! i
  | Err _ => None
  end.

Definition search_next (o : Oid) (l : cells) : option (Oid * Value) :=
  l !! partition_point (fun c => Oid.leb c.1 o) l.

#[export] Instance cells_le_trans : Transitive cells_le.
Proof. intros a b c. unfold cells_le. apply PreOrder_Transitive. Qed.

#[export] Instance cells_lt_trans : Transitive cells_lt.
Proof. intros a b c. unfold cells_lt. apply Oid.lt_trans. Qed.

Lemma sort_cells_sorted l : sorted (sort_cells l).
Proof.
  apply sort_by_sorted; [| |apply _].
  - intros a b. apply Oid.leb_le.
  - intros a b H. apply Oid.lt_le. by apply Oid.leb_gt.
Qed.

Lemma sort_cells_perm l : sort_cells l ≡ₚ l.
Proof. apply sort_by_perm. Qed.

Lemma strictly_sorted_sorted l : strictly_sorted l → sorted l.
Proof.
  induction 1 as [|a l HS IH HF]; constructor; [done|].
  eapply Forall_impl; [exact HF|]. intros b. apply Oid.lt_le.
Qed.

(** Sorting cells with distinct OIDs gives a strict order. *)
Lemma sorted_nodup_strict l : sorted l → NoDup (l.*1) → strictly_sorted l.
Proof.
  induction 1 as [|a l HS IH HF]; cbn; [constructor|].
  intros [Hn Hd]%NoDup_cons. constructor; [by apply IH|].
  apply Forall_forall. intros b Hb. rewrite Forall_forall in HF.
  destruct (proj1 (Oid.le_lt_or_eq _ _) (HF b Hb)) as [?|E]; [done|].
  destruct Hn. rewrite E. apply list_elem_of_fmap. eauto.
Qed.

Lemma sort_cells_strict l : NoDup (l.*1) → strictly_sorted (sort_cells l).
Proof.
  intros Hd. apply sorted_nodup_strict; [apply sort_cells_sorted|].
  by rewrite (sort_cells_perm l).
Qed.

(** In a sorted list a downward closed test is a cut. *)
Lemma sorted_cut (p : Oid → bool) l :
  sorted l → (∀ a b, Oid.le a b → p b = true → p a = true) →
  ∃ k, (k <= length l)%nat ∧
       (∀ i c, l !! i = Some c → p c.1 = bool_decide (i < k)%nat) ∧
       find (fun c => negb (p c.1)) l = l !! k.
Proof.
  intros HS Hp. induction HS as [|a l HS IH HF].
  { exists O. split; [done|]. split; [done|done]. }
  destruct (p a.1) eqn:Pa.
  - destruct IH as (k & Hk & Hc & Hf). exists (S k). split; [simpl; lia|]. split.
    + intros [|i] c; simpl; [by intros [= <-]; rewrite Pa|].
      intros H. rewrite (Hc _ _ H). apply bool_decide_ext. lia.
    + simpl. by rewrite Pa.
  - exists O. split; [lia|]. split.
    + intros i c H. rewrite bool_decide_false by lia.
      destruct i as [|i]; simpl in H; [by injection H as <-|].
      destruct (p c.1) eqn:Pc; [|done]. rewrite Forall_forall in HF.
      rewrite (Hp a.1 c.1) in Pa; [done| |done].
      apply HF. by eapply list_elem_of_lookup_2.
    + simpl. by rewrite Pa.
Qed.

Lemma ltb_negb_leb o c : Oid.ltb o c = negb (Oid.leb c o).
Proof.
  unfold Oid.ltb, Oid.leb. rewrite (Oid.cmp_antisym o c). by destruct (Oid.cmp o c).
Qed.

(** The binary search for the successor is the reference successor. *)
Lemma search_next_successor o l : sorted l → search_next o l = successor o l.
Proof.
  intros HS.
  destruct (sorted_cut (fun x => Oid.leb x o) l HS) as (k & Hk & Hc & Hf).
  { intros a b Hab. rewrite !Oid.leb_le. intros Hb. by etrans. }
  unfold search_next. rewrite (partition_point_spec _ l k) by done.
  rewrite <- Hf. apply find_ext. intros c. by rewrite ltb_negb_leb.
Qed.

Lemma lookup_cell_Some o v l :
  strictly_sorted l → lookup_cell o l = Some v ↔ (o, v) ∈ l.
Proof.
  unfold lookup_cell. induction 1 as [|[x w] l HS IH HF]; simpl.
  { split; [done|]. intros H. by apply elem_of_nil in H. }
  destruct (Oid.eqb x o) eqn:E; simpl.
  - apply Oid.eqb_eq in E as ->. rewrite elem_of_cons. split; [intros [= <-]; by left|].
    intros [H|H]; [by injection H as <-|]. rewrite Forall_forall in HF.
    destruct (Oid.lt_irrefl o). exact (HF _ H).
  - rewrite IH, elem_of_cons. split; [by right|].
    intros [H|H]; [|done]. injection H as -> _. by rewrite Oid.eqb_refl in E.
Qed.

(** The binary search for a cell is the reference lookup. *)
Lemma search_get_lookup o l : strictly_sorted l → search_get o l = lookup_cell o l.
Proof.
  intros HS.
  destruct (sorted_cut (fun x => Oid.leb x o) l) as (k & Hk & Hc & Hf).
  { by apply strictly_sorted_sorted. }
  { intros a b Hab. rewrite !Oid.leb_le. intros Hb. by etrans. }
  unfold search_get. rewrite (binary_search_by_spec _ l k).
  2: { split; [done|]. intros i c H. unfold not_greater. rewrite <- (Hc _ _ H).
       unfold Oid.leb. by destruct (Oid.cmp c.1 o). }
  destruct (lookup_cell o l) as [v|] eqn:EL.
  - apply lookup_cell_Some in EL; [|done].
    apply list_elem_of_lookup in EL as [i Hi].
    assert (i < k)%nat as Hik.
    { specialize (Hc _ _ Hi). simpl in Hc. rewrite (proj2 (Oid.leb_le o o)) in Hc by reflexivity.
      symmetry in Hc. by apply bool_decide_eq_true in Hc. }
    destruct (lookup_lt_is_Some_2 l (pred k)) as [c Hcx]; [lia|].
    rewrite Hcx. pose proof (Hc _ _ Hcx) as Hle.
    rewrite bool_decide_true in Hle by lia. apply Oid.leb_le in Hle.
    assert (Oid.le o c.1) as Hge.
    { destruct (decide (i = pred k)) as [->|Hne].
      - rewrite Hi in Hcx. injection Hcx as <-. reflexivity.
      - apply Oid.lt_le. change o with (o, v).1.
        eapply (StronglySorted_app_1_elem_of cells_lt (take (pred k) l) (drop (pred k) l)).
        + by rewrite take_drop.
        + apply list_elem_of_lookup. exists i. rewrite lookup_take_lt by lia. done.
        + apply list_elem_of_lookup. exists O. rewrite lookup_drop, Nat.add_0_r. done. }
    assert (c.1 = o) as Ec by (by apply (anti_symm Oid.le)).
    rewrite Ec, Oid.cmp_refl, Hcx. simpl. f_equal.
    destruct c as [co cv]. simpl in *. subst co.
    apply list_elem_of_lookup_2 in Hi, Hcx.
    apply (lookup_cell_Some o) in Hi; [|done]. apply (lookup_cell_Some o) in Hcx; [|done].
    congruence.
  - destruct (l !! pred k) as [c|] eqn:Hcx; [|done].
    destruct (Oid.cmp c.1 o) eqn:Ec; [|done|done].
    apply Oid.cmp_eq in Ec. apply list_elem_of_lookup_2 in Hcx.
    destruct c as [co cv]. simpl in Ec. subst co.
    apply (lookup_cell_Some o) in Hcx; [|done]. congruence.
Qed.

(** The successor is the least cell above the argument. *)
Lemma successor_spec o l c :
  sorted l → successor o l = Some c →
  c ∈ l ∧ Oid.lt o c.1 ∧ ∀ d, d ∈ l → Oid.lt o d.1 → Oid.le c.1 d.1.
Proof.
  intros HS. unfold successor, find. induction HS as [|a l HS IH HF]; simpl; [done|].
  destruct (Oid.ltb o a.1) eqn:E.
  - intros [= <-]. split; [left|]. split; [by apply Oid.ltb_lt|].
    intros d [->|Hd]%elem_of_cons _; [reflexivity|].
    rewrite Forall_forall in HF. by apply HF.
  - intros H. destruct (IH H) as (H1 & H2 & H3). split; [by right|]. split; [done|].
    intros d [->|Hd]%elem_of_cons Hlt; [|by apply H3].
    apply Oid.ltb_ge in E. destruct (Oid.lt_irrefl o). by eapply Oid.lt_le_trans.
Qed.

Lemma successor_None o l :
  successor o l = None ↔ ∀ d, d ∈ l → ¬ Oid.lt o d.1.
Proof.
  unfold successor, find.
  induction l as [|a l IH]; simpl.
  - split; [|done]. intros _ d H. by apply elem_of_nil in H.
  - destruct (Oid.ltb o a.1) eqn:E.
    + split; [done|]. intros H. destruct (H a); [left|by apply Oid.ltb_lt].
    + rewrite IH. split.
      * intros H d [->|Hd]%elem_of_cons; [|by apply H].
        rewrite <- Oid.ltb_lt. congruence.
      * intros H d Hd. apply H. by right.
Qed.

Lemma successor_elem o l c : successor o l = Some c → c ∈ l ∧ Oid.lt o c.1.
Proof.
  unfold successor, find. intros H. apply List.find_some in H as [H1 H2].
  split; [by apply list_elem_of_In|by apply Oid.ltb_lt].
Qed.

(** ** [BTreeMap] operations on the ordered cells *)

(** [BTreeMap::insert] on the representation by a strictly sorted list. *)
Fixpoint btree_insert (o : Oid) (v : Value) (l : cells) : cells :=
  match l with
  | [] => [(o, v)]
  | (x, w) :: l' =>
      match Oid.cmp o x with
      | Lt => (o, v) :: (x, w) :: l'
      | Eq => (x, v) :: l'
      | Gt => (x, w) :: btree_insert o v l'
      end
  end.

Lemma btree_insert_keys o v l c :
  c ∈ btree_insert o v l → c.1 = o ∨ c ∈ l.
Proof.
  induction l as [|[x w] l IH]; simpl.
  - intros ->%list_elem_of_singleton. by left.
  - destruct (Oid.cmp o x) eqn:E.
    + apply Oid.cmp_eq in E. subst x. intros [->|H]%elem_of_cons; [by left|right; by right].
    + intros [->|H]%elem_of_cons; [by left|by right].
    + intros [->|H]%elem_of_cons; [right; left|].
      destruct (IH H); [by left|right; by right].
Qed.

Lemma btree_insert_sorted o v l :
  strictly_sorted l → strictly_sorted (btree_insert o v l).
Proof.
  induction 1 as [|[x w] l HS IH HF]; simpl; [repeat constructor|].
  destruct (Oid.cmp o x) eqn:E.
  - by constructor.
  - constructor; [by constructor|]. constructor; [exact E|].
    eapply Forall_impl; [exact HF|]. intros d Hd. by transitivity (x, w).
  - constructor; [done|]. apply Forall_forall. intros c Hc.
    destruct (btree_insert_keys o v l c Hc) as [Hk|Hk].
    + unfold cells_lt. rewrite Hk. simpl.
      unfold Oid.lt. rewrite (Oid.cmp_antisym o x), E. done.
    + rewrite Forall_forall in HF. by apply HF.
Qed.

Lemma lookup_btree_insert o v l o' :
  strictly_sorted l →
  lookup_cell o' (btree_insert o v l) =
    if Oid.eqb o o' then Some v else lookup_cell o' l.
Proof.
  unfold lookup_cell. induction 1 as [|[x w] l HS IH HF]; simpl.
  { by destruct (Oid.eqb o o'). }
  destruct (Oid.cmp o x) eqn:E; simpl.
  - apply Oid.cmp_eq in E. subst x. by destruct (Oid.eqb o o').
  - by destruct (Oid.eqb o o').
  - destruct (Oid.eqb x o') eqn:E2; simpl; [|exact IH].
    destruct (Oid.eqb o o') eqn:E3; [|done].
    apply Oid.eqb_eq in E2, E3. subst. by rewrite Oid.cmp_refl in E.
Qed.

(** A map filled by a sequence of insertions, as the list [into_iter] gives:
    the last binding of an OID counts. *)
Definition btree_of (l : cells) : cells := foldl (fun m c => btree_insert c.1 c.2 m) [] l.

Lemma btree_of_sorted l : strictly_sorted (btree_of l).
Proof.
  unfold btree_of. assert (H : strictly_sorted []) by constructor. revert H. generalize ([] : cells).
  induction l as [|c l IH]; intros m H; [done|]. by apply IH, btree_insert_sorted.
Qed.

Lemma lookup_btree_of o l : lookup_cell o (btree_of l) = lookup_cell o (rev l).
Proof.
  unfold btree_of. induction l as [|c l IH] using rev_ind; [done|].
  rewrite foldl_app, rev_app_distr. cbn [foldl]. rewrite lookup_btree_insert by apply btree_of_sorted.
  rewrite IH. unfold lookup_cell. cbn. by destruct (Oid.eqb c.1 o).
Qed.

Lemma btree_of_elem l c : c ∈ btree_of l ↔ lookup_cell c.1 (rev l) = Some c.2.
Proof. rewrite <- lookup_btree_of, lookup_cell_Some by apply btree_of_sorted. by destruct c. Qed.

Lemma lookup_cell_elem o v l : lookup_cell o l = Some v → (o, v) ∈ l.
Proof.
  unfold lookup_cell. intros ([x w] & [H%list_elem_of_In E]%find_some & ->)%fmap_Some.
  apply Oid.eqb_eq in E. cbn in E. by subst x.
Qed.

Lemma btree_of_incl l c : c ∈ btree_of l → c ∈ l.
Proof.
  intros H%btree_of_elem%lookup_cell_elem. destruct c. by rewrite list_elem_of_In, <- in_rev, <- list_elem_of_In in H.
Qed.

Lemma lookup_cell_nodup o v l : NoDup l.*1 → (o, v) ∈ l → lookup_cell o l = Some v.
Proof.
  unfold lookup_cell. induction l as [|[x w] l IH]; cbn; intros Hn Hin; [by apply not_elem_of_nil in Hin|].
  apply NoDup_cons in Hn as [Hx Hn]. destruct (Oid.eqb x o) eqn:E.
  - apply Oid.eqb_eq in E as ->. apply elem_of_cons in Hin as [[= ->]|Hin]; [done|].
    destruct Hx. by apply (list_elem_of_fmap_2 fst) in Hin.
  - apply elem_of_cons in Hin as [[= -> ->]|Hin]; [by rewrite Oid.eqb_refl in E|]. by apply IH.
Qed.

(** Insertions under distinct OIDs keep every cell. *)
Lemma btree_of_nodup l c : NoDup l.*1 → c ∈ btree_of l ↔ c ∈ l.
Proof.
  intros Hn. split; [apply btree_of_incl|]. intros Hc. apply btree_of_elem. apply lookup_cell_nodup.
  - by rewrite <- (Permutation_rev l).
  - destruct c. by rewrite list_elem_of_In, <- in_rev, <- list_elem_of_In.
Qed.

Lemma btree_of_key l c : c ∈ l → ∃ v, (c.1, v) ∈ btree_of l.
Proof.
  intros Hc. destruct (lookup_cell c.1 (rev l)) as [v|] eqn:E.
  { exists v. by apply btree_of_elem. }
  exfalso. revert E. unfold lookup_cell. rewrite fmap_None. intros E.
  rewrite list_elem_of_In, in_rev in Hc. pose proof (find_none _ _ E c Hc) as H. cbn in H. by rewrite Oid.eqb_refl in H.
Qed.
