(* ===== verification/Handler.v ===== *)
(** * The handler interface ([crates/netsnmp-agent/src/handler.rs])

    [Arc<dyn MibHandler>] is a record of operations over a world [W]: the
    interior state of every handler (locks, caches, shared tables) lives in
    [W], so that two handlers may share state and every call is an explicit
    state transformer. The classes below are what the registry relies on. *)

From Stdlib Require Import ZArith Lia.
From S2P Require Import Prelude MachineInts Oid Value Pdu Cells.

(** ** State-passing calls *)

Definition St (W A : Type) : Type := W → A * W.

Definition sret {W A} (a : A) : St W A := fun w => (a, w).
Definition sbind {W A B} (m : St W A) (f : A → St W B) : St W B :=
  fun w => let '(a, w') := m w in f a w'.

Notation "'let*' x ':=' m 'in' k" := (sbind m (fun x => k))
  (at level 10, x pattern, m at level 100, k at level 200) : snmp_scope.

Inductive Mode := ModeGet | ModeGetNext | ModeSet.

Inductive SetPhase := Reserve1 | Reserve2 | Commit | Undo | Cleanup.

Record Reading := mkReading { reading_oid : Oid; reading_value : Value }.

Abbreviation status_result := (result unit ErrorStatus).

(** [trait MibHandler]. *)
Record MibHandler (W : Type) := mkHandler {
  root : Oid;
  get : Oid → St W (option Value);
  get_next : Oid → St W (option Reading);
  prepare_set : Oid → Value → St W status_result;
  commit_set : Oid → Value → St W status_result;
  undo_set : Oid → Value → St W status_result
}.
Arguments root {W} _.
Arguments get {W} _ _ _.
Arguments get_next {W} _ _ _.
Arguments prepare_set {W} _ _ _ _.
Arguments commit_set {W} _ _ _ _.
Arguments undo_set {W} _ _ _ _.
Arguments mkHandler {W} _ _ _ _ _ _.

(** The default methods of the trait; [commit_set] defaults to [set]. *)
Definition default_set {W} (_ : Oid) (_ : Value) : St W status_result :=
  sret (Err NotWritable).
Definition default_prepare_set {W} (_ : Oid) (_ : Value) : St W status_result :=
  sret (Ok tt).
Definition default_commit_set {W} (set : Oid → Value → St W status_result)
  (o : Oid) (v : Value) : St W status_result := set o v.
Definition default_undo_set {W} (_ : Oid) (_ : Value) : St W status_result :=
  sret (Ok tt).

(** A handler that overrides only the reads. *)
Definition read_only_handler {W} (r : Oid) (g : Oid → St W (option Value))
  (gn : Oid → St W (option Reading)) : MibHandler W :=
  mkHandler r g gn default_prepare_set (default_commit_set default_set) default_undo_set.

(** ** What a handler promises the registry *)

Definition to_reading (c : Oid * Value) : Reading := mkReading c.1 c.2.

(** Reads of [h] answer from the ordered cells [view w] under [h]'s root, and
    change the world only up to [eqv] (a cache may be filled). *)
Class ReadableHandler {W} (inv : W → Prop) (eqv : relation W)
    (h : MibHandler W) (view : W → cells) : Prop := {
  view_sorted w : inv w → strictly_sorted (view w);
  view_under_root w c : inv w → c ∈ view w → Oid.is_prefix_of (root h) c.1 = true;
  view_proper w w' : eqv w w' → view w = view w';
  get_view o w : inv w → (get h o w).1 = lookup_cell o (view w);
  get_frame o w : inv w → eqv (get h o w).2 w;
  get_next_view o w : inv w → (get_next h o w).1 = to_reading <$> successor o (view w);
  get_next_frame o w : inv w → eqv (get_next h o w).2 w
}.

(** The reserve phase has no lasting effect. *)
Class ReservingHandler {W} (inv : W → Prop) (eqv : relation W) (h : MibHandler W) : Prop := {
  prepare_frame o v w : inv w → eqv (prepare_set h o v w).2 w
}.

(** ** Objects: a handler over its own state, placed in a larger world *)

Record Lens (W S : Type) := mkLens {
  proj : W → S;
  upd : S → W → W
}.
Arguments proj {W S} _ _.
Arguments upd {W S} _ _ _.
Arguments mkLens {W S} _ _.

Class LensLaws {W S} (l : Lens W S) : Prop := {
  proj_upd s w : proj l (upd l s w) = s;
  upd_proj w : upd l (proj l w) w = w;
  upd_upd s s' w : upd l s (upd l s' w) = upd l s w
}.

Definition zoom {W S A} (l : Lens W S) (m : St S A) : St W A :=
  fun w => let '(a, s) := m (proj l w) in (a, upd l s w).

Definition place {W S} (l : Lens W S) (h : MibHandler S) : MibHandler W :=
  mkHandler (root h)
    (fun o => zoom l (get h o))
    (fun o => zoom l (get_next h o))
    (fun o v => zoom l (prepare_set h o v))
    (fun o v => zoom l (commit_set h o v))
    (fun o v => zoom l (undo_set h o v)).

(** Placing a handler keeps its promises, for every equivalence that lets the
    placed component vary up to the handler's own equivalence. *)
Lemma place_readable {W S} (l : Lens W S) (inv : S → Prop) (eqv : relation S)
    (INV : W → Prop) (EQV : relation W) (h : MibHandler S) (view : S → cells) :
  ReadableHandler inv eqv h view →
  (∀ w, INV w → inv (proj l w)) →
  (∀ w w', EQV w w' → eqv (proj l w) (proj l w')) →
  (∀ s w, INV w → eqv s (proj l w) → EQV (upd l s w) w) →
  ReadableHandler INV EQV (place l h) (fun w => view (proj l w)).
Proof.
  intros H Hi He Hu. split.
  - intros w Hw. apply (view_sorted (h:=h)); auto.
  - intros w c Hw. apply (view_under_root (h:=h) (proj l w)); auto.
  - intros w w' E. apply (view_proper (h:=h)). by apply He.
  - intros o w Hw. cbn. unfold zoom.
    rewrite <- (get_view (h:=h)) by auto. by destruct (get h o (proj l w)).
  - intros o w Hw. cbn. unfold zoom. pose proof (get_frame (h:=h) o (proj l w)) as F.
    destruct (get h o (proj l w)) as [a s]. simpl in *. apply Hu; auto.
  - intros o w Hw. cbn. unfold zoom.
    rewrite <- (get_next_view (h:=h)) by auto. by destruct (get_next h o (proj l w)).
  - intros o w Hw. cbn. unfold zoom. pose proof (get_next_frame (h:=h) o (proj l w)) as F.
    destruct (get_next h o (proj l w)) as [a s]. simpl in *. apply Hu; auto.
Qed.
