(* ===== verification/Snapshots.v ===== *)
(** * Cached snapshots of a provider closure

    [FnHandler], [CacheHandler] and [TableHandler] keep the sorted cells a
    closure returned and serve them for a while. This file models the part
    they share, for a provider of any type [A], the cells [build] makes of what
    it returns and a time to live [ttl] in milliseconds; each handler
    instantiates it. *)

From Stdlib Require Import ZArith Lia.
From S2P Require Import Prelude MachineInts Oid Value Pdu Cells Handler.

Module Snapshot.

(** [now] is the clock and [provided] what the closure would return now: both
    belong to the environment. [cache] is the handler's own. *)
Record state (A : Type) := mkState {
  now : Z;
  provided : A;
  cache : option (Z * cells)
}.
Arguments mkState {A} _ _ _.
Arguments now {A} _.
Arguments provided {A} _.
Arguments cache {A} _.

Section Cached.
Context {A : Type} (build : A → cells) (ttl : Z).

(** [built.elapsed() < ttl]; [elapsed] saturates at zero. *)
Definition is_fresh (t built : Z) : bool := Z.max 0 (t - built) <? ttl.

Definition snapshot : St (state A) cells := fun s =>
  match cache s with
  | Some (built, cs) =>
      if is_fresh (now s) built then (cs, s)
      else
        let cs' := sort_cells (build (provided s)) in
        (cs', mkState (now s) (provided s) (Some (now s, cs')))
  | None =>
      let cs' := sort_cells (build (provided s)) in
      (cs', mkState (now s) (provided s) (Some (now s, cs')))
  end.

Definition get (o : Oid) : St (state A) (option Value) :=
  let* cs := snapshot in sret (search_get o cs).

Definition get_next (o : Oid) : St (state A) (option Reading) :=
  let* cs := snapshot in sret (to_reading <$> search_next o cs).

Definition handler (r : Oid) : MibHandler (state A) := read_only_handler r get get_next.

(** What a read sees. *)
Definition view (s : state A) : cells := (snapshot s).1.

(** The provider's contract (distinct instances, all under the root), and the
    cache holds only what the provider once returned. *)
Definition provides (r : Oid) (cs : cells) : Prop :=
  NoDup (cs.*1) ∧ ∀ x, x ∈ cs → Oid.is_prefix_of r x.1 = true.

Definition inv (r : Oid) (s : state A) : Prop :=
  provides r (build (provided s)) ∧
  match cache s with
  | Some (_, cs) => strictly_sorted cs ∧ ∀ x, x ∈ cs → Oid.is_prefix_of r x.1 = true
  | None => True
  end.

(** Two states that no read can tell apart. *)
Definition same (s s' : state A) : Prop :=
  now s = now s' ∧ provided s = provided s' ∧ view s = view s'.

#[export] Instance same_equiv : Equivalence same.
Proof.
  split.
  - done.
  - intros s s' (?&?&?). by repeat split.
  - intros s1 s2 s3 (?&?&?) (?&?&?). repeat split; congruence.
Qed.

Lemma snapshot_same s : same (snapshot s).2 s.
Proof.
  unfold same, view, snapshot.
  destruct (cache s) as [[b cs]|] eqn:C; [destruct (is_fresh (now s) b) eqn:E|]; cbn;
    rewrite ?C, ?E; try done; by destruct (is_fresh (now s) (now s)).
Qed.

Lemma view_inv r s :
  inv r s → strictly_sorted (view s) ∧ ∀ x, x ∈ view s → Oid.is_prefix_of r x.1 = true.
Proof.
  intros [[Hd Hu] Hc]. unfold view, snapshot.
  assert (Hs : strictly_sorted (sort_cells (build (provided s))) ∧
    ∀ x, x ∈ sort_cells (build (provided s)) → Oid.is_prefix_of r x.1 = true).
  { split; [by apply sort_cells_strict|]. intros x. rewrite sort_cells_perm. apply Hu. }
  destruct (cache s) as [[b cs]|]; [destruct (is_fresh (now s) b)|]; done.
Qed.

#[export] Instance readable r : ReadableHandler (inv r) same (handler r) view.
Proof.
  split.
  - intros w Hw. apply (view_inv r w Hw).
  - intros w c Hw Hc. by apply (view_inv r w Hw).
  - by intros w w' (_&_&?).
  - intros o w Hw. cbn. unfold get, sbind, sret.
    destruct (view_inv r w Hw) as [HS _]. unfold view in *.
    destruct (snapshot w) as [cs s']. by apply search_get_lookup.
  - intros o w Hw. cbn. unfold get, sbind, sret.
    pose proof (snapshot_same w). by destruct (snapshot w).
  - intros o w Hw. cbn. unfold get_next, sbind, sret.
    destruct (view_inv r w Hw) as [HS _]. unfold view in *.
    destruct (snapshot w) as [cs s']. cbn. f_equal.
    apply search_next_successor. by apply strictly_sorted_sorted.
  - intros o w Hw. cbn. unfold get_next, sbind, sret.
    pose proof (snapshot_same w). by destruct (snapshot w).
Qed.

(** ** How stale a snapshot can be *)

(** A run: reads of the handler, and steps of the environment that advance the
    clock and change what the provider would return. The first index lists
    every environment the handler has been in, the latest first. *)
Inductive run (a0 : A) (t0 : Z) : list (Z * A) → state A → Prop :=
| run_start : run a0 t0 [(t0, a0)] (mkState t0 a0 None)
| run_env h s t a :
    run a0 t0 h s → now s <= t → run a0 t0 ((t, a) :: h) (mkState t a (cache s))
| run_get h s o : run a0 t0 h s → run a0 t0 h (get o s).2
| run_get_next h s o : run a0 t0 h s → run a0 t0 h (get_next o s).2.

(** The cells come from an environment of the run at most [ttl] ago. *)
Definition served_from (h : list (Z * A)) (t : Z) (cs : cells) : Prop :=
  ∃ b a, (b, a) ∈ h ∧ b <= t ∧ (t - b < ttl ∨ b = t) ∧ cs = sort_cells (build a).

Definition traced (h : list (Z * A)) (s : state A) : Prop :=
  (now s, provided s) ∈ h ∧
  match cache s with
  | Some (b, cs) => b <= now s ∧ ∃ a, (b, a) ∈ h ∧ cs = sort_cells (build a)
  | None => True
  end.

Lemma snapshot_traced h s :
  traced h s → traced h (snapshot s).2 ∧ served_from h (now s) (view s).
Proof.
  intros [H1 H2]. unfold view, snapshot, traced in *.
  assert (Hn : served_from h (now s) (sort_cells (build (provided s)))).
  { exists (now s), (provided s). split_and!; [done|lia|by right|done]. }
  destruct (cache s) as [[b cs]|] eqn:C; [destruct (is_fresh (now s) b) eqn:F|]; cbn.
  - rewrite C. split; [done|]. destruct H2 as (Hb & a & Ha & ->).
    exists b, a. split_and!; try done. left. unfold is_fresh in F. apply Z.ltb_lt in F. lia.
  - split; [|done]. split; [done|]. split; [lia|]. by exists (provided s).
  - split; [|done]. split; [done|]. split; [lia|]. by exists (provided s).
Qed.

Lemma get_state o s : (get o s).2 = (snapshot s).2.
Proof. unfold get, sbind, sret. by destruct (snapshot s). Qed.

Lemma get_next_state o s : (get_next o s).2 = (snapshot s).2.
Proof. unfold get_next, sbind, sret. by destruct (snapshot s). Qed.

Lemma run_traced a0 t0 h s : run a0 t0 h s → traced h s.
Proof.
  induction 1 as [|h s t a R [I1 I2] Ht|h s o R I|h s o R I].
  - split; [by apply list_elem_of_singleton|done].
  - split; [by left|]. cbn. destruct (cache s) as [[b cs]|]; [|done].
    destruct I2 as (Hb & a' & Ha & ->). split; [lia|]. exists a'. split; [by right|done].
  - rewrite get_state. by apply snapshot_traced.
  - rewrite get_next_state. by apply snapshot_traced.
Qed.

End Cached.

End Snapshot.
