(* ===== verification/Scalar.v ===== *)
(** * Scalar and in-memory handlers ([crates/netsnmp-agent/src/scalar.rs]) *)

From Stdlib Require Import ZArith Lia.
From S2P Require Import Prelude MachineInts Oid Value Pdu Cells Handler Snapshots.

Definition types_compatible (current new : Value) : bool :=
  match current, new with
  | _, VNull | _, VNoSuchObject | _, VNoSuchInstance | _, VEndOfMibView
  | VNull, _ | VNoSuchObject, _ | VNoSuchInstance, _ | VEndOfMibView, _ => false
  | VInteger _, VInteger _ => true
  | VCounter32 _, VCounter32 _ => true
  | VGauge32 _, VGauge32 _ => true
  | VTimeTicks _, VTimeTicks _ => true
  | VCounter64 _, VCounter64 _ => true
  | VOctetString _, VOctetString _ => true
  | VOid _, VOid _ => true
  | VIpAddress _, VIpAddress _ => true
  | VOpaque _, VOpaque _ => true
  | _, _ => false
  end.

(** ** [ScalarHandler]: one value at [root.0] *)

Module ScalarHandler.

(** The state is the value behind the lock; root, instance and the writable
    flag never change after construction. *)
Record config := mkConfig { croot : Oid; instance : Oid; is_writable : bool }.

Definition new (r : Oid) : config := mkConfig r (Oid.child r 0) false.
Definition writable (c : config) : config := mkConfig (croot c) (instance c) true.

Definition get_value : St Value Value := fun v => (v, v).
Definition set_value (v : Value) : St Value unit := fun _ => (tt, v).

Definition get (c : config) (o : Oid) : St Value (option Value) := fun v =>
  (if Oid.eqb o (instance c) then Some v else None, v).

Definition get_next (c : config) (o : Oid) : St Value (option Reading) := fun v =>
  (if Oid.ltb o (instance c) then Some (mkReading (instance c) v) else None, v).

Definition set (c : config) (o : Oid) (value : Value) : St Value status_result := fun v =>
  if negb (is_writable c) then (Err NotWritable, v)
  else if negb (Oid.eqb o (instance c)) then (Err NoCreation, v)
  else (Ok tt, value).

Definition prepare_set (c : config) (o : Oid) (value : Value) : St Value status_result :=
  fun v =>
  if negb (is_writable c) then (Err NotWritable, v)
  else if negb (Oid.eqb o (instance c)) then (Err NoCreation, v)
  else if negb (types_compatible v value) then (Err WrongType, v)
  else (Ok tt, v).

Definition commit_set (c : config) (o : Oid) (value : Value) : St Value status_result :=
  set c o value.

Definition handler (c : config) : MibHandler Value :=
  mkHandler (croot c) (get c) (get_next c) (prepare_set c) (commit_set c) default_undo_set.

(** The configurations [new] and [writable] build. *)
Definition wf (c : config) : Prop := instance c = Oid.child (croot c) 0.

Definition view (c : config) (v : Value) : cells := [(instance c, v)].

#[export] Instance readable c :
  wf c → ReadableHandler (λ _, True) eq (handler c) (view c).
Proof.
  intros Hc. split; try done.
  - intros w _. repeat constructor.
  - intros w x _ ->%list_elem_of_singleton. cbn. rewrite Hc. apply Oid.is_prefix_of_child.
  - by intros w w' ->.
  - intros o w _. cbn. unfold lookup_cell, find. cbn.
    destruct (Oid.eqb o (instance c)) eqn:E.
    + apply Oid.eqb_eq in E as ->. by rewrite Oid.eqb_refl.
    + destruct (Oid.eqb (instance c) o) eqn:E2; [|done].
      apply Oid.eqb_eq in E2 as <-. by rewrite Oid.eqb_refl in E.
  - intros o w _. cbn. unfold successor, find. cbn. by destruct (Oid.ltb o (instance c)).
Qed.

#[export] Instance reserving c : ReservingHandler (λ _, True) eq (handler c).
Proof.
  split. intros o v w _. cbn. unfold prepare_set.
  by repeat (destruct (negb _); [done|]).
Qed.

End ScalarHandler.

(** ** [MapHandler]: instances in a [BTreeMap] *)

Module MapHandler.

(** The state is the map behind the lock, as its entries in key order. *)
Record config := mkConfig { croot : Oid; is_writable : bool }.

Definition new (r : Oid) : config := mkConfig r false.
Definition writable (c : config) : config := mkConfig (croot c) true.

Definition insert (o : Oid) (v : Value) : St cells unit := fun m =>
  (tt, btree_insert o v m).

Definition get (c : config) (o : Oid) : St cells (option Value) := fun m =>
  (lookup_cell o m, m).

Definition get_next (c : config) (o : Oid) : St cells (option Reading) := fun m =>
  (to_reading <$> successor o m, m).

Definition set (c : config) (o : Oid) (value : Value) : St cells status_result := fun m =>
  if negb (is_writable c) then (Err NotWritable, m)
  else match lookup_cell o m with
       | Some _ => (Ok tt, btree_insert o value m)
       | None => (Err NoCreation, m)
       end.

Definition prepare_set (c : config) (o : Oid) (value : Value) : St cells status_result :=
  fun m =>
  if negb (is_writable c) then (Err NotWritable, m)
  else match lookup_cell o m with
       | Some current =>
           if types_compatible current value then (Ok tt, m) else (Err WrongType, m)
       | None => (Err NoCreation, m)
       end.

Definition handler (c : config) : MibHandler cells :=
  mkHandler (croot c) (get c) (get_next c) (prepare_set c)
    (default_commit_set (set c)) default_undo_set.

(** The keys are in order and under the root (the callers' discipline: the
    type does not enforce the second part). *)
Definition inv (c : config) (m : cells) : Prop :=
  strictly_sorted m ∧ ∀ x, x ∈ m → Oid.is_prefix_of (croot c) x.1 = true.

#[export] Instance readable c : ReadableHandler (inv c) eq (handler c) id.
Proof.
  split; try done.
  - by intros w [? _].
  - intros w x [_ H]. apply H.
Qed.

#[export] Instance reserving c : ReservingHandler (inv c) eq (handler c).
Proof.
  split. intros o v w _. cbn. unfold prepare_set.
  destruct (negb _); [done|]. destruct (lookup_cell o w); [|done].
  by destruct (types_compatible _ _).
Qed.

Lemma insert_inv c o v m :
  inv c m → Oid.is_prefix_of (croot c) o = true → inv c (insert o v m).2.
Proof.
  intros [HS HU] Ho. split; [by apply btree_insert_sorted|].
  intros x Hx. destruct (btree_insert_keys o v m x Hx) as [->|?]; [done|by apply HU].
Qed.

Lemma commit_inv c o v m : inv c m → inv c (commit_set (handler c) o v m).2.
Proof.
  intros Hi. cbn. unfold default_commit_set, set.
  destruct (negb _); [done|]. destruct (lookup_cell o m) as [w|] eqn:E; [|done].
  apply (insert_inv c o v m Hi). destruct Hi as [HS HU].
  apply (lookup_cell_Some o) in E; [|done]. apply (HU _ E).
Qed.

End MapHandler.

(** ** [FnHandler]: cells produced by a closure, cached for a short time *)

Module FnHandler.

(** [Duration::from_millis(900)]. *)
Definition SNAPSHOT_TTL : Z := 900.

Definition state : Type := Snapshot.state cells.

(** The provider returns the cells themselves. *)
Definition snapshot : St state cells := Snapshot.snapshot id SNAPSHOT_TTL.

Definition get (o : Oid) : St state (option Value) :=
  let* cs := snapshot in sret (search_get o cs).

Definition get_next (o : Oid) : St state (option Reading) :=
  let* cs := snapshot in sret (to_reading <$> search_next o cs).

Definition handler (r : Oid) : MibHandler state := read_only_handler r get get_next.

(** [FnHandler::scalar]: the provider of a live scalar. *)
Definition scalar_cells (r : Oid) (v : Value) : cells := [(Oid.child r 0, v)].

#[export] Instance readable r :
  ReadableHandler (Snapshot.inv id r) (Snapshot.same id SNAPSHOT_TTL) (handler r)
    (Snapshot.view id SNAPSHOT_TTL) := Snapshot.readable id SNAPSHOT_TTL r.

End FnHandler.
