(* ===== verification/Config.v ===== *)
(** * Configuration files ([crates/netsnmp/src/config/])

    [word.rs] (tokenizer) and the in-memory parser of [parse.rs], where
    [include*] lines are classified and then ignored. [ConfigFiles] reads the
    files and resolves them. *)

From Stdlib Require Import ZArith Lia.
From S2P Require Import Prelude MachineInts Text.

(** ** Words *)

Definition QUOTE : Z := 34.
Definition APOS : Z := 39.
Definition BACKSLASH : Z := 92.

(** The quoted scan: the word, and what follows the closing quote. *)
Fixpoint scan_quoted (q : Z) (escaped : bool) (s : text) (word : text) : text * text :=
  match s with
  | [] => (word, [])
  | c :: s' =>
      if escaped then scan_quoted q false s' (word ++ [c])
      else if c =? BACKSLASH then scan_quoted q true s' word
      else if c =? q then (word, s')
      else scan_quoted q false s' (word ++ [c])
  end.

(** The unquoted scan: up to the next whitespace, which is left in place. *)
Fixpoint scan_bare (escaped : bool) (s : text) (word : text) : text * text :=
  match s with
  | [] => (word, [])
  | c :: s' =>
      if escaped then scan_bare false s' (word ++ [c])
      else if c =? BACKSLASH then scan_bare true s' word
      else if is_whitespace c then (word, s)
      else scan_bare false s' (word ++ [c])
  end.

Definition read_word (input : text) : option (text * text) :=
  let s := trim_start input in
  match s with
  | [] => None
  | first :: tl =>
      let '(word, rest) :=
        if (first =? QUOTE) || (first =? APOS)
        then scan_quoted first false tl []
        else scan_bare false s [] in
      Some (word, trim_start rest)
  end.

(** [while let Some((word, next)) = read_word(rest)]. *)
Fixpoint parse_words_fuel (fuel : nat) (rest : text) : option (list text) :=
  match fuel with
  | O => None
  | S f =>
      match read_word rest with
      | None => Some []
      | Some (word, next) => cons word <$> parse_words_fuel f next
      end
  end.

(** Every word consumes a character, so this fuel is never exhausted
    ([parse_words_total]). *)
Definition parse_words (input : text) : list text :=
  default [] (parse_words_fuel (S (length input)) input).

(** ** Lines *)

Record Directive := mkDirective {
  token : text;
  args : list text;
  rest : text;
  section : option text;
  line_no : nat
}.

(** [eq_ignore_ascii_case]. *)
Definition eq_ignore_case (a b : text) : bool :=
  bool_decide (to_ascii_lowercase a = to_ascii_lowercase b).

(** [Directive::is] and [Directive::arg]. *)
Definition is_token (d : Directive) (name : text) : bool := eq_ignore_case (token d) name.
Definition arg (d : Directive) (i : nat) : option text := args d !! i.

Inductive IncludeKind := IncFile | IncDir | IncSearch.

Inductive Classified :=
| CSection (name : text)
| CInclude (kind : IncludeKind) (arg : text)
| CEntry (section : option text) (token : text) (args : list text) (rest : text).

Definition starts_with (c : Z) (s : text) : bool :=
  match s with x :: _ => x =? c | [] => false end.

Definition ends_with (c : Z) (s : text) : bool :=
  match last s with Some x => x =? c | None => false end.

(** The text inside the brackets of [[name]]. *)
Definition strip_brackets (s : text) : text := removelast (tail s).

(** After the optional section prefix: include directives, then entries. *)
Definition classify_directive (override : option text) (token rest : text) : option Classified :=
  let lower := to_ascii_lowercase token in
  let first_word := match read_word rest with Some (w, _) => w | None => [] end in
  if bool_decide (lower = str "includefile") then Some (CInclude IncFile first_word)
  else if bool_decide (lower = str "includedir") then Some (CInclude IncDir first_word)
  else if bool_decide (lower = str "includesearch") then Some (CInclude IncSearch first_word)
  else if bool_decide (lower = str "include") then None
  else Some (CEntry override token (parse_words rest) rest).

Definition classify_line (raw : text) : option Classified :=
  let trimmed := trim_start raw in
  match trimmed with
  | [] => None
  | c :: _ =>
      if c =? 35 then None
      else
        let! (tok, rst) := read_word raw in
        if starts_with 91 tok then
          if negb (ends_with 93 tok) || bool_decide (length tok < 2)%nat then None
          else
            let name := strip_brackets tok in
            match rst with
            | [] => Some (CSection name)
            | _ =>
                let! (t2, r2) := read_word rst in
                classify_directive (Some name) t2 r2
            end
        else classify_directive None tok rst
  end.

(** [str::lines]: pieces between newlines, a final empty piece dropped, a
    trailing carriage return stripped. *)
Definition strip_cr (s : text) : text :=
  if ends_with 13 s then removelast s else s.

Definition lines (content : text) : list text :=
  let pieces := split 10 content in
  let pieces :=
    match last pieces with Some [] => removelast pieces | _ => pieces end in
  map strip_cr pieces.

(** One iteration of [parse_str]: the active section and the directives. *)
Definition parse_line (idx : nat) (raw : text) (st : option text * list Directive)
    : option text * list Directive :=
  let '(sec, out) := st in
  match classify_line raw with
  | None => (sec, out)
  | Some (CSection name) => (Some name, out)
  | Some (CInclude _ _) => (sec, out)
  | Some (CEntry ov tok ars rst) =>
      let s := match ov with Some x => Some x | None => sec end in
      (sec, out ++ [mkDirective tok ars rst s (S idx)])
  end.

Fixpoint parse_lines (idx : nat) (ls : list text) (st : option text * list Directive)
    : option text * list Directive :=
  match ls with
  | [] => st
  | raw :: ls' => parse_lines (S idx) ls' (parse_line idx raw st)
  end.

Definition parse_str (content : text) : list Directive :=
  (parse_lines 0 (lines content) (None, [])).2.

(** ** Progress and termination of the tokenizer *)

Lemma trim_start_length s : (length (trim_start s) <= length s)%nat.
Proof.
  unfold trim_start. induction s as [|c s IH]; simpl; [done|].
  destruct (is_whitespace c); simpl; lia.
Qed.

Lemma scan_quoted_length q e s w : (length (scan_quoted q e s w).2 <= length s)%nat.
Proof.
  revert e w. induction s as [|c s IH]; intros e w; simpl; [done|].
  destruct e; [|destruct (c =? BACKSLASH); [|destruct (c =? q); [simpl; lia|]]];
    (etrans; [apply IH|lia]).
Qed.

Lemma scan_bare_length e s w : (length (scan_bare e s w).2 <= length s)%nat.
Proof.
  revert e w. induction s as [|c s IH]; intros e w; simpl; [done|].
  destruct e; [|destruct (c =? BACKSLASH); [|destruct (is_whitespace c); [simpl; lia|]]];
    (etrans; [apply IH|lia]).
Qed.

Lemma trim_start_head s c tl : trim_start s = c :: tl → is_whitespace c = false.
Proof.
  unfold trim_start. induction s as [|x s IH]; simpl; [done|].
  destruct (is_whitespace x) eqn:E; [done|]. by intros [= <- _].
Qed.

Lemma read_word_progress s w next :
  read_word s = Some (w, next) → (length next < length s)%nat.
Proof.
  unfold read_word. pose proof (trim_start_length s) as Hl.
  destruct (trim_start s) as [|c tl] eqn:E; [done|].
  destruct ((c =? QUOTE) || (c =? APOS)).
  - pose proof (scan_quoted_length c false tl []) as Hq.
    destruct (scan_quoted c false tl []) as [w' r]. intros [= _ <-].
    pose proof (trim_start_length r). simpl in *. lia.
  - assert (Hq : (length (scan_bare false (c :: tl) []).2 <= length tl)%nat).
    { cbn [scan_bare]. rewrite (trim_start_head _ _ _ E).
      destruct (c =? BACKSLASH); apply scan_bare_length. }
    destruct (scan_bare false (c :: tl) []) as [w' r]. intros [= _ <-].
    pose proof (trim_start_length r). simpl in *. lia.
Qed.

Lemma parse_words_fuel_enough f s :
  (length s < f)%nat → ∃ ws, parse_words_fuel f s = Some ws.
Proof.
  revert s. induction f as [|f IH]; intros s Hf; [lia|]. simpl.
  destruct (read_word s) as [[w next]|] eqn:E; [|by eexists].
  apply read_word_progress in E. destruct (IH next) as [ws ->]; [lia|]. by eexists.
Qed.

Lemma parse_words_fuel_mono f s ws :
  parse_words_fuel f s = Some ws → ∀ g, (f <= g)%nat → parse_words_fuel g s = Some ws.
Proof.
  revert s ws. induction f as [|f IH]; intros s ws; [done|]. simpl.
  intros H [|g] Hg; [lia|]. simpl.
  destruct (read_word s) as [[w next]|]; [|done].
  destruct (parse_words_fuel f next) as [ws'|] eqn:E; [|done].
  rewrite (IH _ _ E) by lia. exact H.
Qed.

(** The loop equation of [parse_words], without fuel. *)
Lemma parse_words_unfold s :
  parse_words s =
    match read_word s with
    | None => []
    | Some (w, next) => w :: parse_words next
    end.
Proof.
  unfold parse_words at 1. cbn [parse_words_fuel].
  destruct (read_word s) as [[w next]|] eqn:E; [|done].
  apply read_word_progress in E.
  destruct (parse_words_fuel_enough (S (length next)) next) as [ws Hws]; [lia|].
  rewrite (parse_words_fuel_mono _ _ _ Hws) by lia.
  unfold parse_words. by rewrite Hws.
Qed.

(** ** Quoting round trip *)

(** A word between double quotes, with quotes and backslashes escaped. *)
Definition quote_word (w : text) : text :=
  QUOTE :: flat_map (fun c => if (c =? QUOTE) || (c =? BACKSLASH) then [BACKSLASH; c] else [c]) w
  ++ [QUOTE].

Lemma scan_quoted_body w tl acc :
  scan_quoted QUOTE false
    (flat_map (fun c => if (c =? QUOTE) || (c =? BACKSLASH) then [BACKSLASH; c] else [c]) w
     ++ QUOTE :: tl) acc = (acc ++ w, tl).
Proof.
  revert acc. induction w as [|c w IH]; intros acc; simpl.
  - by rewrite app_nil_r.
  - destruct (c =? QUOTE) eqn:E1; [|destruct (c =? BACKSLASH) eqn:E2]; simpl.
    + rewrite IH. by rewrite <- app_assoc.
    + rewrite IH. by rewrite <- app_assoc.
    + rewrite E2, E1, IH. by rewrite <- app_assoc.
Qed.

Lemma read_word_quoted w tl :
  read_word (quote_word w ++ tl) = Some (w, trim_start tl).
Proof.
  unfold read_word, quote_word. cbn [app trim_start trim_start_matches].
  change (is_whitespace QUOTE) with false. cbn [orb].
  rewrite <- app_assoc. cbn [app]. simpl. by rewrite scan_quoted_body.
Qed.

Fixpoint join_quoted (ws : list text) : text :=
  match ws with
  | [] => []
  | w :: ws' => quote_word w ++ 32 :: join_quoted ws'
  end.

Lemma trim_start_idem s : trim_start (trim_start s) = trim_start s.
Proof.
  destruct (trim_start s) as [|c tl] eqn:E; [done|].
  apply trim_start_head in E. by apply trim_start_matches_head.
Qed.

Lemma parse_words_trim s : parse_words (trim_start s) = parse_words s.
Proof.
  rewrite (parse_words_unfold (trim_start s)), (parse_words_unfold s).
  unfold read_word. by rewrite trim_start_idem.
Qed.

Lemma parse_words_space s : parse_words (32 :: s) = parse_words s.
Proof.
  rewrite <- (parse_words_trim (32 :: s)).
  change (trim_start (32 :: s)) with (trim_start s). apply parse_words_trim.
Qed.

(** Tokenizing is total and loses nothing: any list of words (empty ones,
    embedded quotes, backslashes and spaces included), quoted and joined by
    spaces, is read back exactly; and the loop of [parse_words] always ends
    because every word read leaves a strictly shorter rest. *)
Theorem parse_words_quoted_roundtrip :
  (∀ ws, parse_words (join_quoted ws) = ws) ∧
  (∀ s, ∃ ws, parse_words_fuel (S (length s)) s = Some ws) ∧
  (∀ s w next, read_word s = Some (w, next) → (length next < length s)%nat).
Proof.
  split; [|split].
  - induction ws as [|w ws IH]; [done|]. cbn [join_quoted].
    by rewrite parse_words_unfold, read_word_quoted, parse_words_trim, parse_words_space, IH.
  - intros s. apply parse_words_fuel_enough. lia.
  - apply read_word_progress.
Qed.
