(* ===== verification/ConfigFiles.v ===== *)
(** * Reading configuration files ([config/parse.rs] and [config/search.rs] of
    [crates/netsnmp/src/])

    A file's directives with those of the files it includes, the directories
    that are searched and the files of an application. The environment
    variables and the file system, which does not change meanwhile, are
    parameters. *)

From Stdlib Require Import ZArith Lia.
From S2P Require Import Prelude MachineInts Text Oid Config.

Local Open Scope list_scope.

(** ** Paths

    A [Path] compares by its components, so it is their list. A [.] is one only
    at the front of a relative path. *)

Record Path := mkPath { absolute : bool; components : list text }.

#[export] Instance path_eq_dec : EqDecision Path.
Proof. solve_decision. Defined.

Definition DOT : text := [46].

Definition is_name (n : text) : bool := negb (bool_decide (n = [])) && negb (bool_decide (n = DOT)).

Definition path_of (s : text) : Path :=
  match s with
  | 47 :: _ => mkPath true (List.filter is_name (split 47 s))
  | _ =>
      match split 47 s with
      | first :: rest =>
          mkPath false ((if bool_decide (first = DOT) then [DOT] else List.filter is_name [first]) ++ List.filter is_name rest)
      | [] => mkPath false []
      end
  end.

(** [Path::join] and [Path::parent]. *)
Definition join (p : Path) (arg : text) : Path :=
  let q := path_of arg in
  if absolute q then q
  else if negb (absolute p) && bool_decide (components p = []) then q
  else mkPath (absolute p) (components p ++ List.filter is_name (components q)).

Definition parent (p : Path) : option Path :=
  match components p with
  | [] => None
  | cs => Some (mkPath (absolute p) (removelast cs))
  end.

(** ** Include directives *)

Definition MAX_INCLUDE_DEPTH : nat := 32.

Definition resolve_relative (base : Path) (arg : text) : Path :=
  let p := path_of arg in
  if absolute p then p
  else match parent base with Some dir => join dir arg | None => p end.

(** [str::ends_with] and [str::strip_suffix]. *)
Definition strip_suffix (suf s : text) : option text :=
  let n := (length s - length suf)%nat in
  if bool_decide (drop n s = suf) && (length suf <=? length s)%nat then Some (take n s) else None.

Definition DOT_CONF : text := str ".conf".

(** The names [includeDir] takes. *)
Definition included_name (n : text) : bool :=
  negb (starts_with 46 n) && bool_decide (is_Some (strip_suffix DOT_CONF n)).

(** A directive and the file it came from. *)
Abbreviation Sourced := (Path * Directive)%type (only parsing).

Section Files.
(** An entry of a directory whose name cannot be read, or is no UTF-8, is [None]. *)
Context (read_to_string : Path → option text) (read_dir : Path → option (list (option text))).
Context (is_file : Path → bool) (env : text → option text).

(** *** The search path ([search.rs]) *)

Definition DEFAULT_CONF_DIRS : list text := [str "/etc/snmp"; str "/usr/share/snmp"; str "/usr/lib/snmp"].
Definition DEFAULT_PERSISTENT_DIR : text := str "/var/lib/snmp".

Definition is_nonempty (s : text) : bool := negb (bool_decide (s = [])).

Definition config_directories : list Path :=
  let dirs :=
    match env (str "SNMPCONFPATH") with
    | Some path => path_of <$> List.filter is_nonempty (split 58 path)
    | None =>
        (path_of <$> DEFAULT_CONF_DIRS) ++
        match env (str "HOME") with
        | Some home => if is_nonempty home then [join (path_of home) (str ".snmp")] else []
        | None => []
        end
    end in
  let persistent := path_of (default DEFAULT_PERSISTENT_DIR (env (str "SNMP_PERSISTENT_DIR"))) in
  if bool_decide (persistent ∈ dirs) then dirs else dirs ++ [persistent].

Definition config_files_in (dirs : list Path) (app_type : text) : list Path :=
  flat_map (fun dir => [join dir (app_type ++ DOT_CONF); join dir (app_type ++ str ".local.conf")]) dirs.

Definition config_files (app_type : text) : list Path := config_files_in config_directories app_type.

(** *** [parse_file] *)

(** [inner] parses an included file. *)
Section Include.
Context (inner : Path → option (list Sourced)).

(** A file that cannot be read adds nothing. *)
Definition included (p : Path) : list Sourced := default [] (inner p).

Definition resolve_include (base : Path) (kind : IncludeKind) (arg : text) : list Sourced :=
  match kind with
  | IncFile => included (resolve_relative base arg)
  | IncDir =>
      match read_dir (path_of arg) with
      | Some entries =>
          let files := List.filter included_name (omap id entries) in
    (* the paths of one directory are ordered by their names *)
          flat_map (fun n => included (join (path_of arg) n)) (sort_by Oid.leb files)
      | None => []
      end
  | IncSearch =>
      let header := default arg (strip_suffix DOT_CONF arg) in
      flat_map (fun dir =>
        let candidate := join dir (header ++ DOT_CONF) in
        if is_file candidate then included candidate else []) config_directories
  end.

Definition file_line (path : Path) (idx : nat) (raw : text) (st : option text * list Sourced)
    : option text * list Sourced :=
  let '(sec, out) := st in
  match classify_line raw with
  | None => (sec, out)
  | Some (CSection name) => (Some name, out)
  | Some (CInclude kind arg) => (sec, out ++ resolve_include path kind arg)
  | Some (CEntry ov tok ars rst) =>
      let s := match ov with Some x => Some x | None => sec end in
      (sec, out ++ [(path, mkDirective tok ars rst s (S idx))])
  end.

Fixpoint file_lines (path : Path) (idx : nat) (ls : list text) (st : option text * list Sourced)
    : option text * list Sourced :=
  match ls with
  | [] => st
  | raw :: ls' => file_lines path (S idx) ls' (file_line path idx raw st)
  end.
End Include.

(** [left] files may still be nested in each other: [depth] is [MAX_INCLUDE_DEPTH]
    and one less [left]. *)
Fixpoint parse_file_inner (left : nat) (path : Path) : option (list Sourced) :=
  match left with
  | O => Some []
  | S left' =>
      let! content := read_to_string path in
      Some (file_lines (parse_file_inner left') path 0 (lines content) (None, [])).2
  end.

Definition parse_file : Path → option (list Sourced) := parse_file_inner (S MAX_INCLUDE_DEPTH).

Definition read_app_config_in (dirs : list Path) (app_type : text) : list Sourced :=
  flat_map (fun file => if is_file file then default [] (parse_file file) else []) (config_files_in dirs app_type).

Definition read_app_config (app_type : text) : list Sourced := read_app_config_in config_directories app_type.

(** ** What a file is read as *)

(** The includes of a text, in order. *)
Definition includes (ls : list text) : list (IncludeKind * text) :=
  omap (fun raw => match classify_line raw with Some (CInclude k a) => Some (k, a) | _ => None end) ls.

Lemma file_lines_plain inner path : ∀ ls idx sec out out', includes ls = [] → out = pair path <$> out' →
  (file_lines inner path idx ls (sec, out)).2 = pair path <$> (parse_lines idx ls (sec, out')).2.
Proof.
  induction ls as [|raw ls IH]; intros idx sec out out' Hi ->; [done|].
  cbn [file_lines parse_lines]. unfold includes in Hi. cbn in Hi. unfold file_line, parse_line.
  destruct (classify_line raw) as [[name|k a|ov tok ars rst]|]; [by apply IH|done| |by apply IH].
  apply IH; [done|]. by rewrite fmap_app.
Qed.

(** A file without includes is read as its text is by [parse_str]. *)
Theorem plain_file path content : read_to_string path = Some content → includes (lines content) = [] →
  parse_file path = Some (pair path <$> parse_str content).
Proof.
  intros Hr Hi. unfold parse_file, parse_str. cbn [parse_file_inner]. rewrite Hr. cbn [mbind option_bind].
  f_equal. by apply file_lines_plain.
Qed.

(** The files an include reads. *)
Definition targets (base : Path) (k : IncludeKind) (arg : text) : list Path :=
  match k with
  | IncFile => [resolve_relative base arg]
  | IncDir =>
      match read_dir (path_of arg) with
      | Some entries => join (path_of arg) <$> sort_by Oid.leb (List.filter included_name (omap id entries))
      | None => []
      end
  | IncSearch =>
      let header := default arg (strip_suffix DOT_CONF arg) in
      List.filter is_file ((fun dir => join dir (header ++ DOT_CONF)) <$> config_directories)
  end.

Lemma flat_map_fmap {A B C} (f : A → B) (g : B → list C) l : flat_map g (f <$> l) = flat_map (λ x, g (f x)) l.
Proof. induction l as [|x l IH]; [done|]. cbn. by rewrite <- IH. Qed.

Lemma flat_map_filter {A B} (P : A → bool) (g : A → list B) l :
  flat_map g (List.filter P l) = flat_map (λ x, if P x then g x else []) l.
Proof. induction l as [|x l IH]; [done|]. cbn. destruct (P x); cbn; by rewrite IH. Qed.

Lemma resolve_include_targets inner base k arg :
  resolve_include inner base k arg = flat_map (included inner) (targets base k arg).
Proof.
  destruct k; cbn.
  - by rewrite app_nil_r.
  - destruct (read_dir (path_of arg)); [|done]. by rewrite flat_map_fmap.
  - by rewrite flat_map_filter, flat_map_fmap.
Qed.

Lemma flat_map_same {A B} (f g : A → list B) l : (∀ x, x ∈ l → f x = g x) → flat_map f l = flat_map g l.
Proof.
  induction l as [|x l IH]; intros H; [done|]. cbn. rewrite (H x) by left. f_equal. apply IH. intros. apply H. by right.
Qed.

(** Only what is read of the included files matters. *)
Lemma file_lines_same f g path ls : ∀ idx st,
  (∀ k a p, (k, a) ∈ includes ls → p ∈ targets path k a → f p = g p) →
  file_lines f path idx ls st = file_lines g path idx ls st.
Proof.
  induction ls as [|raw ls IH]; intros idx [sec out] H; [done|]. cbn [file_lines].
  assert (E : file_line f path idx raw (sec, out) = file_line g path idx raw (sec, out)).
  { unfold file_line. destruct (classify_line raw) as [[name|k a|ov tok ars rst]|] eqn:Ec; try done.
    do 2 f_equal. rewrite !resolve_include_targets. apply flat_map_same. intros p Hp. unfold included.
    rewrite (H k a p); [done| |done]. unfold includes. cbn. rewrite Ec. left. }
  rewrite E. apply IH. intros k a p Hk. apply H. unfold includes in *. cbn.
  destruct (classify_line raw) as [[]|]; try done. by right.
Qed.

(** Nesting goes down: [rank] decreases from a file to those it includes. *)
Definition nests (rank : Path → nat) : Prop :=
  ∀ path content k a p, read_to_string path = Some content → (k, a) ∈ includes (lines content) →
    p ∈ targets path k a → (rank p < rank path)%nat.

Lemma limit_exceeds rank : nests rank → ∀ n m path, (rank path < n)%nat → (rank path < m)%nat →
  parse_file_inner n path = parse_file_inner m path.
Proof.
  intros N. induction n as [|n IH]; intros m path Hn Hm; [lia|]. destruct m as [|m]; [lia|].
  cbn [parse_file_inner]. destruct (read_to_string path) as [content|] eqn:Er; [|done]. cbn. do 2 f_equal.
  apply file_lines_same. intros k a p Hk Hp. pose proof (N path content k a p Er Hk Hp). apply IH; lia.
Qed.

(** Files nested at most as deep as the limit are read as without a limit: what
    [parse_file] answers is the content with every include replaced by what its
    files are read as by themselves. *)
Theorem limit_is_invisible rank path content : nests rank → (rank path <= MAX_INCLUDE_DEPTH)%nat →
  read_to_string path = Some content →
  parse_file path = Some (file_lines parse_file path 0 (lines content) (None, [])).2.
Proof.
  intros N Hr Er. unfold parse_file. generalize dependent MAX_INCLUDE_DEPTH. intros n Hr.
  rewrite (file_lines_same (parse_file_inner (S n)) (parse_file_inner n)).
  { cbn [parse_file_inner]. by rewrite Er. }
  intros k a p Hk Hp. pose proof (N path content k a p Er Hk Hp). apply (limit_exceeds rank); [done|lia|lia].
Qed.

(** ** Cycles *)

(** [1 + k + ... + k ^ (n - 1)]. *)
Fixpoint copies (k : Z) (n : nat) : Z := match n with O => 0 | S n' => 1 + k * copies k n' end.

Lemma file_lines_self inner path inc arg k : classify_line inc = Some (CInclude IncFile arg) →
  resolve_relative path arg = path → ∀ idx sec out,
  (file_lines inner path idx (replicate k inc) (sec, out)).2 = out ++ concat (replicate k (included inner path)).
Proof.
  intros Hc Hp. induction k as [|k IH]; intros idx sec out; cbn [replicate file_lines]; [by rewrite app_nil_r|].
  unfold file_line. rewrite Hc. cbn [resolve_include]. rewrite Hp, IH. cbn. by rewrite <- app_assoc.
Qed.

Lemma length_concat_replicate {A} k (l : list A) : Z.of_nat (length (concat (replicate k l))) = Z.of_nat k * Z.of_nat (length l).
Proof. induction k as [|k IH]; [done|]. cbn [replicate concat]. rewrite length_app. lia. Qed.

(** The limit ends a cycle, but not before it was followed along every path: a
    file with one directive that includes itself [k] times is read
    [1 + k + ... + k ^ 32] times. *)
Theorem self_include_copies path content entry inc arg ov tok ars rst k :
  read_to_string path = Some content → lines content = entry :: replicate k inc →
  classify_line entry = Some (CEntry ov tok ars rst) → classify_line inc = Some (CInclude IncFile arg) →
  resolve_relative path arg = path →
  ∃ ds, parse_file path = Some ds ∧ Z.of_nat (length ds) = copies (Z.of_nat k) (S MAX_INCLUDE_DEPTH).
Proof.
  intros Hr Hl He Hi Hp. unfold parse_file. generalize (S MAX_INCLUDE_DEPTH). intros n.
  induction n as [|n (ds & IH & Hn)]; [by exists []|]. cbn [parse_file_inner copies]. rewrite Hr. cbn [mbind option_bind].
  rewrite Hl. cbn [file_lines]. unfold file_line. rewrite He. rewrite (file_lines_self _ _ _ arg) by done.
  eexists. split; [done|]. rewrite length_app, Nat2Z.inj_add, length_concat_replicate. unfold included. rewrite IH.
  change (default [] (Some ds)) with ds. rewrite Hn. cbn [app length]. lia.
Qed.

(** ** The search path *)

Lemma persistent_searched :
  path_of (default DEFAULT_PERSISTENT_DIR (env (str "SNMP_PERSISTENT_DIR"))) ∈ config_directories.
Proof.
  unfold config_directories. case_bool_decide as E; [done|]. apply elem_of_app. right. by left.
Qed.

(** Every file of the application that can be read adds its directives, in the
    order of the directories and with the local file second. *)
Theorem app_config_order dirs dirs' application :
  read_app_config_in (dirs ++ dirs') application = read_app_config_in dirs application ++ read_app_config_in dirs' application ∧
  ∀ dir, read_app_config_in [dir] application =
    (if is_file (join dir (application ++ DOT_CONF)) then default [] (parse_file (join dir (application ++ DOT_CONF))) else []) ++
    (if is_file (join dir (application ++ str ".local.conf")) then default [] (parse_file (join dir (application ++ str ".local.conf"))) else []).
Proof.
  unfold read_app_config_in, config_files_in. split; [by rewrite !flat_map_app|].
  intros dir. cbn [flat_map app]. by rewrite app_nil_r.
Qed.
End Files.

(** ** Examples *)

(** The layout of the tests: [main.conf] includes [extra.conf] of its directory. *)
Definition etc : text → Path := join (path_of (str "/etc/snmp")).

Definition NL : text := [10].

Definition sample_files (p : Path) : option text :=
  if bool_decide (p = etc (str "main.conf")) then Some (str "rocommunity public" ++ NL ++ str "includeFile extra.conf" ++ NL)
  else if bool_decide (p = etc (str "extra.conf")) then Some (str "rwcommunity private" ++ NL)
  else if bool_decide (p = etc (str "loop.conf"))
  then Some (str "rocommunity public" ++ NL ++ str "includeFile loop.conf" ++ NL ++ str "includeFile loop.conf" ++ NL)
  else None.

Definition no_dir (_ : Path) : option (list (option text)) := None.
Definition no_file (_ : Path) : bool := false.
Definition no_env (_ : text) : option text := None.

Example included_in_place :
  option_map (map (λ d : Path * Directive, (d.1, token d.2))) (parse_file sample_files no_dir no_file no_env (etc (str "main.conf"))) =
  Some [(etc (str "main.conf"), str "rocommunity"); (etc (str "extra.conf"), str "rwcommunity")].
Proof. by vm_compute. Qed.

(** Two lines of a file that includes itself stand for 8589934591 directives. *)
Lemma self_include_copies_witness :
  ∃ ds, parse_file sample_files no_dir no_file no_env (etc (str "loop.conf")) = Some ds ∧ Z.of_nat (length ds) = 2 ^ 33 - 1.
Proof.
  destruct (self_include_copies sample_files no_dir no_file no_env (etc (str "loop.conf"))
    (str "rocommunity public" ++ NL ++ str "includeFile loop.conf" ++ NL ++ str "includeFile loop.conf" ++ NL)
    (str "rocommunity public") (str "includeFile loop.conf") (str "loop.conf") None (str "rocommunity") [str "public"] (str "public") 2)
    as (ds & E & H); [by vm_compute..|].
  exists ds. split; [exact E|]. rewrite H. reflexivity.
Defined.

Example default_directories :
  config_directories no_env = path_of <$> [str "/etc/snmp"; str "/usr/share/snmp"; str "/usr/lib/snmp"; str "/var/lib/snmp"] ∧
  config_directories (λ n, if bool_decide (n = str "SNMPCONFPATH") then Some (str "/var/lib//snmp/::/opt/snmp") else None) =
    path_of <$> [str "/var/lib/snmp"; str "/opt/snmp"].
Proof. by vm_compute. Qed.
