(* ===== verification/Ber.v ===== *)
(** * The BER primitives of SMUX ([crates/netsnmp-agent/src/smux.rs])

    Lengths, tag-length-value triples, integers, object identifiers and the
    unsigned application types, as the file writes them by hand. A parser
    answers in [outcome]: [None] is a panic (a slice out of range), [Some] the
    code's [Result]. *)

From Stdlib Require Import ZArith Lia.
From S2P Require Import Prelude MachineInts Text Oid.

Create HintDb total.

Inductive SmuxError := Truncated | DecodeError | IoError.

Abbreviation outcome T := (option (result T SmuxError)).

(** [?] in a function that may panic. *)
Definition obind {T U} (f : T → outcome U) (o : outcome T) : outcome U :=
  match o with
  | Some (Ok v) => f v
  | Some (Err e) => Some (Err e)
  | None => None
  end.

Notation "'let@' x ':=' o 'in' k" := (obind (fun x => k) o)
  (at level 10, x pattern, o at level 100, k at level 200) : snmp_scope.

Definition okay {T} (v : T) : outcome T := Some (Ok v).
Definition error {T} (e : SmuxError) : outcome T := Some (Err e).

(** [&buf[i..]] and [&buf[i..j]]. *)
Definition slice_from (buf : bytes) (i : nat) : option bytes :=
  if (i <=? length buf)%nat then Some (drop i buf) else None.
Definition slice_range (buf : bytes) (i j : nat) : option bytes :=
  if (i <=? j)%nat && (j <=? length buf)%nat then Some (take (j - i) (drop i buf)) else None.

(** A slice that panics out of range, in an [outcome]. *)
Definition sliced {T} (s : option bytes) (f : bytes → outcome T) : outcome T :=
  match s with Some bs => f bs | None => None end.

(** ** Encoding *)

(** [while v > 0 { bytes.push((v & 0xff) as u8); v >>= 8; }] on a [usize]. *)
Fixpoint length_bytes (fuel : nat) (v : Z) : bytes :=
  match fuel with
  | O => []
  | S fuel' => if 0 <? v then Z.land v 255 :: length_bytes fuel' (Z.shiftr v 8) else []
  end.

Definition ber_len (n : Z) : bytes :=
  if n <? 128 then [n]
  else
    let bs := rev (length_bytes 8 n) in
    Z.lor 128 (as_u8 (Z.of_nat (length bs))) :: bs.

Definition ber_tlv (tag : Z) (content : bytes) : bytes :=
  tag :: ber_len (Z.of_nat (length content)) ++ content.

(** The loops that drop the redundant leading bytes of a big-endian integer. *)
Fixpoint strip_zeros (b : bytes) : bytes :=
  match b with
  | b0 :: ((b1 :: _) as t) => if (b0 =? 0) && (Z.land b1 128 =? 0) then strip_zeros t else b
  | _ => b
  end.

Fixpoint strip_ones (b : bytes) : bytes :=
  match b with
  | b0 :: ((b1 :: _) as t) =>
      if (b0 =? 255) && negb (Z.land b1 128 =? 0) then strip_ones t else b
  | _ => b
  end.

Definition integer_content (v : Z) : bytes :=
  if 0 <=? v then
    let b := strip_zeros (to_bytes true 8 v) in
    match b with
    | b0 :: _ => if negb (Z.land b0 128 =? 0) then 0 :: b else b
    | [] => b
    end
  else strip_ones (to_bytes true 8 (as_u64 v)).

Definition ber_integer (v : Z) : bytes := ber_tlv 2 (integer_content v).

(** [while value > 0 { tmp[n] = value & 0x7f; value >>= 7; n += 1 }] on a
    [u32]: at most the five entries of [tmp]. *)
Fixpoint base128_digits (fuel : nat) (v : Z) : list Z :=
  match fuel with
  | O => []
  | S fuel' => if 0 <? v then Z.land v 127 :: base128_digits fuel' (Z.shiftr v 7) else []
  end.

Definition encode_base128 (v : Z) : bytes :=
  if v =? 0 then [0]
  else
    match base128_digits 5 v with
    | [] => []
    | d :: ds => (Z.lor 128 <$> rev ds) ++ [d]
    end.

Definition oid_content (arcs : Oid) : bytes :=
  match arcs with
  | [] => [0]
  | [a] => encode_base128 (as_u32 (40 * a))
  | a :: b :: rest => encode_base128 (as_u32 (as_u32 (40 * a) + b)) ++ flat_map encode_base128 rest
  end.

Definition ber_oid (o : Oid) : bytes := ber_tlv 6 (oid_content o).
Definition ber_octet_string (b : bytes) : bytes := ber_tlv 4 b.

(** [while b.len() > min_bytes && b[0] == 0 { b.remove(0); }] *)
Fixpoint strip_to (min : nat) (b : bytes) : bytes :=
  match b with
  | b0 :: t => if (min <? length b)%nat && (b0 =? 0) then strip_to min t else b
  | [] => b
  end.

Definition ber_unsigned_content (v : Z) (min : nat) : bytes :=
  match strip_to min (to_bytes true 8 v) with [] => [0] | b => b end.

(** ** Decoding *)

Definition parse_len (buf : bytes) : outcome (Z * nat) :=
  match buf with
  | [] => error Truncated
  | first :: rest =>
      if Z.land first 128 =? 0 then okay (first, 1%nat)
      else
        let nbytes := Z.to_nat (Z.land first 127) in
        if (nbytes =? 0)%nat || (4 <? nbytes)%nat || (length buf <? 1 + nbytes)%nat then error Truncated
        else
          sliced (slice_range buf 1 (1 + nbytes)) (fun bs =>
            okay (fold_left (fun len b => Z.lor (as_u64 (Z.shiftl len 8)) b) bs 0, (1 + nbytes)%nat))
  end.

(** The tag, the content and the bytes consumed. *)
Definition parse_tlv (buf : bytes) : outcome (Z * bytes * nat) :=
  match buf with
  | tag :: _ :: _ =>
      sliced (slice_from buf 1) (fun rest =>
        let@ (len, len_bytes) := parse_len rest in
        let start := (1 + len_bytes)%nat in
        let stop := (start + Z.to_nat len)%nat in
        if (length buf <? stop)%nat then error Truncated
        else sliced (slice_range buf start stop) (fun content => okay (tag, content, stop)))
  | _ => error Truncated
  end.

(** [(buf[0] as i8) as i64], then [v = (v << 8) | b]. *)
Definition parse_integer (buf : bytes) : result Z SmuxError :=
  match buf with
  | [] => Err Truncated
  | b0 :: rest =>
      Ok (fold_left (fun v b => Z.lor (as_i64 (Z.shiftl v 8)) b) rest (wrap_i 8 b0))
  end.

(** The two nested loops of [parse_oid]; [started] says that the arc being read
    has had a byte. *)
Fixpoint parse_arcs (buf : bytes) (value : Z) (started : bool) : result Oid SmuxError :=
  match buf with
  | [] => if started then Err Truncated else Ok []
  | b :: rest =>
      let value := Z.lor (as_u32 (Z.shiftl value 7)) (Z.land b 127) in
      if Z.land b 128 =? 0
      then let? arcs := parse_arcs rest 0 false in Ok (value :: arcs)
      else parse_arcs rest value true
  end.

Definition parse_oid (buf : bytes) : result Oid SmuxError :=
  match buf with
  | [] => Err Truncated
  | first :: rest =>
      let? arcs := parse_arcs rest 0 false in
      Ok (first / 40 :: first mod 40 :: arcs)
  end.

Definition parse_unsigned (bits : Z) (content : bytes) : Z :=
  fold_left (fun v b => Z.lor (wrap_u bits (Z.shiftl v 8)) b) content 0.

(** ** Shift-and-or accumulators

    All the decoders read a number by [v = (v << k) | b] on a machine integer;
    [w] is the wrap-around of its type. *)

Definition digits_value (k : Z) (l : list Z) (a : Z) : Z := fold_left (fun v b => v * 2 ^ k + b) l a.

Class ShiftOr (k : Z) (w : Z → Z) : Prop := {
  shift_or a b : 0 <= b < 2 ^ k → Z.lor (w (Z.shiftl a k)) b = w (a * 2 ^ k + b);
  shift_wrap a b : w (w a * 2 ^ k + b) = w (a * 2 ^ k + b)
}.

Lemma lor_low k a b : 0 <= k → 0 <= b < 2 ^ k → Z.lor (a * 2 ^ k) b = a * 2 ^ k + b.
Proof.
  intros Hk Hb. rewrite <- Z.shiftl_mul_pow2 by lia. rewrite <- Z.add_lor_land.
  enough (Z.land (Z.shiftl a k) b = 0) as ->; [lia|].
  apply Z.bits_inj'. intros i Hi. rewrite Z.land_spec, Z.bits_0.
  destruct (Z.lt_ge_cases i k) as [Hl|Hg].
  - by rewrite Z.shiftl_spec_low.
  - rewrite <- (Z.mod_small b (2 ^ k)) by lia. rewrite Z.mod_pow2_bits_high by lia. apply andb_false_r.
Qed.

Lemma wrap_u_multiple k bits a b :
  0 <= k <= bits → 0 <= b < 2 ^ k → wrap_u bits (a * 2 ^ k) + b = wrap_u bits (a * 2 ^ k + b).
Proof.
  intros Hk Hb. unfold wrap_u. replace bits with (bits - k + k) by lia.
  rewrite Z.pow_add_r by lia. set (B := 2 ^ k) in *. set (N := 2 ^ (bits - k)).
  assert (0 < N) by (apply Z.pow_pos_nonneg; lia).
  assert (0 < B) by (apply Z.pow_pos_nonneg; lia).
  rewrite Z.mul_mod_distr_r by lia. pose proof (Z.mod_pos_bound a N).
  apply (Z.mod_unique_pos _ _ (a / N)); [nia|]. pose proof (Z.div_mod a N). nia.
Qed.

Lemma wrap_u_add bits a b : wrap_u bits (wrap_u bits a + b) = wrap_u bits (a + b).
Proof. apply Zplus_mod_idemp_l. Qed.

Lemma wrap_u_scale bits m a b : wrap_u bits (wrap_u bits a * m + b) = wrap_u bits (a * m + b).
Proof.
  unfold wrap_u. rewrite <- Zplus_mod_idemp_l, Zmult_mod_idemp_l. apply Zplus_mod_idemp_l.
Qed.

Lemma wrap_i_of_u bits n : 0 < bits → wrap_i bits n = wrap_u bits (n + 2 ^ (bits - 1)) - 2 ^ (bits - 1).
Proof. done. Qed.

Lemma wrap_i_cong bits a b : wrap_u bits a = wrap_u bits b → wrap_i bits a = wrap_i bits b.
Proof.
  intros E. unfold wrap_i. f_equal. rewrite <- (Zplus_mod_idemp_l a), <- (Zplus_mod_idemp_l b).
  unfold wrap_u in E. by rewrite E.
Qed.

Lemma wrap_u_of_i bits a : 0 <= bits → wrap_u bits (wrap_i bits a) = wrap_u bits a.
Proof.
  intros Hb. unfold wrap_u, wrap_i. rewrite Zminus_mod_idemp_l. f_equal. lia.
Qed.

Lemma shift_or_unsigned k bits : 0 <= k <= bits → ShiftOr k (wrap_u bits).
Proof.
  intros Hk. split; intros a b.
  - intros Hb. rewrite Z.shiftl_mul_pow2 by lia. rewrite <- wrap_u_multiple by done.
    assert (E : wrap_u bits (a * 2 ^ k) = (a mod 2 ^ (bits - k)) * 2 ^ k).
    { unfold wrap_u. replace bits with (bits - k + k) at 1 by lia. rewrite Z.pow_add_r by lia.
      by rewrite Z.mul_mod_distr_r by (apply Z.pow_nonzero; lia). }
    rewrite E. apply lor_low; lia.
  - apply wrap_u_scale.
Qed.

Lemma shift_or_signed k bits : 0 <= k < bits → ShiftOr k (wrap_i bits).
Proof.
  intros Hk. split; intros a b.
  - intros Hb. rewrite Z.shiftl_mul_pow2 by lia.
    assert (E : 2 ^ (bits - 1) = 2 ^ (bits - 1 - k) * 2 ^ k).
    { rewrite <- Z.pow_add_r by lia. f_equal. lia. }
    assert (F : ∀ c, 0 <= c < 2 ^ k → wrap_i bits (a * 2 ^ k + c) =
       wrap_u bits ((a + 2 ^ (bits - 1 - k)) * 2 ^ k) - 2 ^ (bits - 1) + c).
    { intros c Hc. unfold wrap_i. fold (wrap_u bits (a * 2 ^ k + c + 2 ^ (bits - 1))).
      replace (a * 2 ^ k + c + 2 ^ (bits - 1)) with ((a + 2 ^ (bits - 1 - k)) * 2 ^ k + c)
        by (rewrite E; lia).
      rewrite <- wrap_u_multiple by lia. lia. }
    rewrite <- (Z.add_0_r (a * 2 ^ k)) at 1. rewrite !F by lia. rewrite Z.add_0_r.
    assert (G : wrap_u bits ((a + 2 ^ (bits - 1 - k)) * 2 ^ k) - 2 ^ (bits - 1) =
      ((a + 2 ^ (bits - 1 - k)) mod 2 ^ (bits - k) - 2 ^ (bits - 1 - k)) * 2 ^ k).
    { unfold wrap_u. replace bits with (bits - k + k) at 2 by lia. rewrite Z.pow_add_r by lia.
      rewrite Z.mul_mod_distr_r by (apply Z.pow_nonzero; lia). rewrite E. lia. }
    rewrite G. apply lor_low; lia.
  - apply wrap_i_cong. rewrite <- wrap_u_scale, wrap_u_of_i by lia. apply wrap_u_scale.
Qed.

#[export] Instance shift_or_u64 : ShiftOr 8 (wrap_u 64) := shift_or_unsigned 8 64 ltac:(lia).
#[export] Instance shift_or_u32 : ShiftOr 8 (wrap_u 32) := shift_or_unsigned 8 32 ltac:(lia).
#[export] Instance shift_or_arc : ShiftOr 7 (wrap_u 32) := shift_or_unsigned 7 32 ltac:(lia).
#[export] Instance shift_or_i64 : ShiftOr 8 (wrap_i 64) := shift_or_signed 8 64 ltac:(lia).

Lemma fold_shift_or k w `{!ShiftOr k w} l a :
  Forall (λ b, 0 <= b < 2 ^ k) l →
  fold_left (λ v b, Z.lor (w (Z.shiftl v k)) b) l (w a) = w (digits_value k l a).
Proof.
  intros HF. revert a. induction HF as [|b l Hb HF IH]; intros a; [done|].
  cbn [fold_left]. rewrite shift_or, shift_wrap by done. rewrite IH. done.
Qed.

Lemma digits_value_app k l1 l2 a :
  digits_value k (l1 ++ l2) a = digits_value k l2 (digits_value k l1 a).
Proof. apply fold_left_app. Qed.

Lemma digits_value_snoc k l x a : digits_value k (l ++ [x]) a = digits_value k l a * 2 ^ k + x.
Proof. by rewrite digits_value_app. Qed.

(** Bytes from the most significant on are [from_be_bytes]. *)
Lemma digits_value_be bs a :
  digits_value 8 bs a = a * 2 ^ (8 * Z.of_nat (length bs)) + from_bytes true bs.
Proof.
  unfold from_bytes, from_be_bytes. induction bs as [|b bs IH] using rev_ind.
  - change (8 * Z.of_nat (length (@nil Z))) with 0. cbn. lia.
  - rewrite digits_value_app, IH. cbn [digits_value fold_left]. rewrite rev_unit, length_app. cbn [length from_le_bytes].
    replace (8 * Z.of_nat (length bs + 1)) with (8 * Z.of_nat (length bs) + 8) by lia.
    rewrite Z.pow_add_r by lia. change (2 ^ 8) with 256. lia.
Qed.

Lemma from_be_cons b0 rest :
  from_bytes true (b0 :: rest) =
    b0 * 2 ^ (8 * Z.of_nat (length rest)) + from_bytes true rest.
Proof.
  pose proof (digits_value_be (b0 :: rest) 0) as D.
  change (digits_value 8 (b0 :: rest) 0) with (digits_value 8 rest b0) in D.
  rewrite digits_value_be in D. lia.
Qed.

(** ** Lengths and TLVs *)

Lemma land_128 b : 0 <= b < 256 → (Z.land b 128 =? 0) = (b <? 128).
Proof.
  intros Hb. apply Bool.eqb_prop.
  exact (byte_check (λ b, Bool.eqb (Z.land b 128 =? 0) (b <? 128)) eq_refl b Hb).
Qed.

Lemma land_255 n : Z.land n 255 = n mod 256.
Proof. exact (Z.land_ones n 8 ltac:(lia)). Qed.

Lemma shiftr_8 n : Z.shiftr n 8 = n / 256.
Proof. exact (Z.shiftr_div_pow2 n 8 ltac:(lia)). Qed.

Lemma length_bytes_value f n :
  0 <= n < 2 ^ (8 * Z.of_nat f) → from_le_bytes (length_bytes f n) = n.
Proof.
  revert n. induction f as [|f IH]; intros n Hn; cbn [length_bytes from_le_bytes].
  { change (2 ^ (8 * Z.of_nat 0)) with 1 in Hn. lia. }
  destruct (Z.ltb_spec 0 n); cbn [from_le_bytes]; [|lia].
  rewrite land_255, shiftr_8, IH; [Z.div_mod_to_equations; lia|].
  replace (8 * Z.of_nat (S f)) with (8 + 8 * Z.of_nat f) in Hn by lia.
  rewrite Z.pow_add_r in Hn by lia. change (2 ^ 8) with 256 in Hn. Z.div_mod_to_equations. lia.
Qed.

Lemma length_bytes_length f n k :
  n < 2 ^ (8 * Z.of_nat k) → (length (length_bytes f n) <= k)%nat.
Proof.
  revert n k. induction f as [|f IH]; intros n k Hn; cbn [length_bytes length]; [lia|].
  destruct (Z.ltb_spec 0 n); cbn [length]; [|lia]. destruct k as [|k].
  { change (2 ^ (8 * Z.of_nat 0)) with 1 in Hn. lia. }
  specialize (IH (Z.shiftr n 8) k). rewrite shiftr_8 in *. apply le_n_S, IH.
  replace (8 * Z.of_nat (S k)) with (8 + 8 * Z.of_nat k) in Hn by lia.
  rewrite Z.pow_add_r in Hn by lia. change (2 ^ 8) with 256 in Hn. Z.div_mod_to_equations. lia.
Qed.

Lemma is_bytes_length_bytes f n : is_bytes (length_bytes f n).
Proof.
  revert n. induction f as [|f IH]; intros n; cbn [length_bytes]; [constructor|].
  case_match; constructor; [|apply IH]. rewrite land_255.
  apply (Z.mod_pos_bound n 256). lia.
Qed.

Lemma parse_ber_len n rest :
  0 <= n < 2 ^ 32 → parse_len (ber_len n ++ rest) = okay (n, length (ber_len n)).
Proof.
  intros Hn. unfold ber_len. destruct (Z.ltb_spec n 128) as [Hs|Hs]; cbn [app length].
  { unfold parse_len. rewrite land_128 by lia. by destruct (Z.ltb_spec n 128); [|lia]. }
  assert (Hl : (length (length_bytes 8 n) <= 4)%nat).
  { apply length_bytes_length. change (8 * Z.of_nat 4) with 32. lia. }
  assert (Hv : from_le_bytes (length_bytes 8 n) = n).
  { apply length_bytes_value. change (8 * Z.of_nat 8) with 64. lia. }
  pose proof (is_bytes_length_bytes 8 n) as Hb.
  set (bs := rev (length_bytes 8 n)).
  assert (Lb : (1 <= length bs <= 4)%nat).
  { unfold bs. rewrite length_rev. split; [|done]. cbn [length_bytes].
    destruct (Z.ltb_spec 0 n); cbn [length]; lia. }
  assert (Ef : (Z.land (Z.lor 128 (as_u8 (Z.of_nat (length bs)))) 128 =? 0) = false ∧
    Z.to_nat (Z.land (Z.lor 128 (as_u8 (Z.of_nat (length bs)))) 127) = length bs).
  { destruct Lb. destruct (length bs) as [|[|[|[|[|k]]]]]; [lia|done|done|done|done|lia]. }
  destruct Ef as [E1 E2]. unfold parse_len. rewrite E1, E2.
  destruct (Nat.eqb_spec (length bs) 0); [lia|]. destruct (Nat.ltb_spec 4 (length bs)); [lia|].
  cbn [orb]. cbn [length]. rewrite length_app.
  destruct (Nat.ltb_spec (S (length bs + length rest)) (1 + length bs)); [lia|].
  unfold slice_range. cbn [length]. rewrite length_app.
  destruct (Nat.leb_spec 1 (1 + length bs)); [|lia].
  destruct (Nat.leb_spec (1 + length bs) (S (length bs + length rest))); [|lia].
  cbn [andb sliced drop]. replace (1 + length bs - 1)%nat with (length bs) by lia.
  rewrite drop_0, take_app_length. f_equal. f_equal. f_equal.
  pose proof (fold_shift_or 8 (wrap_u 64) bs 0) as F. change (wrap_u 64 0) with 0 in F.
  rewrite F by (apply Forall_rev; exact Hb). rewrite digits_value_be.
  unfold from_bytes, from_be_bytes, bs. rewrite rev_involutive, Hv. apply wrap_u_id. lia.
Qed.

Lemma ber_len_nonempty n : (1 <= length (ber_len n))%nat.
Proof. unfold ber_len. case_match; cbn; lia. Qed.

Lemma parse_tlv_app tag content rest :
  Z.of_nat (length content) < 2 ^ 32 →
  parse_tlv (ber_tlv tag content ++ rest) = okay (tag, content, length (ber_tlv tag content)).
Proof.
  intros Hc. unfold ber_tlv. set (l := ber_len (Z.of_nat (length content))).
  pose proof (ber_len_nonempty (Z.of_nat (length content))) as Hl. fold l in Hl.
  unfold parse_tlv. cbn [app]. destruct ((l ++ content) ++ rest) as [|x xs] eqn:E.
  { apply (f_equal length) in E. rewrite !length_app in E. cbn in E. lia. }
  rewrite <- E. clear E x xs. unfold slice_from, slice_range. cbn [length drop Nat.leb].
  rewrite drop_0, <- app_assoc. cbn [sliced].
  pose proof (parse_ber_len (Z.of_nat (length content)) (content ++ rest) ltac:(lia)) as P.
  fold l in P. rewrite P. cbn [obind okay]. rewrite !length_app, Nat2Z.id. cbn [Nat.add].
  destruct (Nat.ltb_spec (S (length l + (length content + length rest))) (S (length l + length content))); [lia|].
  destruct (Nat.leb_spec (S (length l)) (S (length l + length content))); [|lia].
  destruct (Nat.leb_spec (S (length l + length content)) (S (length l + (length content + length rest)))); [|lia].
  cbn [andb drop sliced]. rewrite drop_app_length.
  replace (S (length l + length content) - S (length l))%nat with (length content) by lia.
  by rewrite take_app_length.
Qed.

(** ** Integers *)

Lemma parse_integer_value b0 rest :
  is_bytes (b0 :: rest) →
  parse_integer (b0 :: rest) =
    Ok (wrap_i 64 (wrap_i 8 b0 * 2 ^ (8 * Z.of_nat (length rest)) + from_bytes true rest)).
Proof.
  intros [Hb Hr]%Forall_cons. unfold parse_integer. f_equal.
  assert (E : wrap_i 64 (wrap_i 8 b0) = wrap_i 8 b0).
  { apply wrap_i_id; [lia|]. unfold wrap_i. pose proof (Z.mod_pos_bound (b0 + 2 ^ (8 - 1)) (2 ^ 8)). lia. }
  pose proof (fold_shift_or 8 (wrap_i 64) rest (wrap_i 8 b0) Hr) as F. rewrite E in F.
  by rewrite F, digits_value_be.
Qed.

(** A sign byte before a byte of the same sign is redundant. *)
Lemma parse_integer_zero b1 t :
  0 <= b1 < 128 → parse_integer (0 :: b1 :: t) = parse_integer (b1 :: t).
Proof.
  intros Hb. unfold parse_integer. cbn [fold_left]. do 2 f_equal.
  rewrite (wrap_i_id 8 0), (wrap_i_id 8 b1) by lia.
  rewrite (shift_or (k:=8) (w:=wrap_i 64)) by lia. apply wrap_i_id; lia.
Qed.

Lemma parse_integer_ones b1 t :
  128 <= b1 < 256 → parse_integer (255 :: b1 :: t) = parse_integer (b1 :: t).
Proof.
  intros Hb. unfold parse_integer. cbn [fold_left]. do 2 f_equal.
  change (wrap_i 8 255) with (-1). rewrite (shift_or (k:=8) (w:=wrap_i 64)) by lia.
  unfold wrap_i at 2. rewrite (wrap_i_id 64) by lia. change (2 ^ (8 - 1)) with 128. change (2 ^ 8) with 256.
  rewrite <- (Z.mod_unique_pos (b1 + 128) 256 1 (b1 - 128)); lia.
Qed.

Lemma strip_zeros_cons b0 b1 t :
  strip_zeros (b0 :: b1 :: t) =
    if (b0 =? 0) && (Z.land b1 128 =? 0) then strip_zeros (b1 :: t) else b0 :: b1 :: t.
Proof. done. Qed.

Lemma strip_ones_cons b0 b1 t :
  strip_ones (b0 :: b1 :: t) =
    if (b0 =? 255) && negb (Z.land b1 128 =? 0) then strip_ones (b1 :: t) else b0 :: b1 :: t.
Proof. done. Qed.

Lemma strip_zeros_integer b : is_bytes b → parse_integer (strip_zeros b) = parse_integer b.
Proof.
  induction b as [|b0 t IH]; intros Hb; [done|]. destruct t as [|b1 t]; [done|].
  rewrite strip_zeros_cons. destruct (_ && _) eqn:E; [|done]. apply andb_true_iff in E as [->%Z.eqb_eq E].
  apply Forall_cons in Hb as [_ Hb]. pose proof Hb as [H1 _]%Forall_cons.
  change (2 ^ 8) with 256 in H1. unfold is_u8 in H1. rewrite land_128 in E by lia. apply Z.ltb_lt in E.
  rewrite IH by done. symmetry. apply parse_integer_zero. lia.
Qed.

Lemma strip_ones_integer b : is_bytes b → parse_integer (strip_ones b) = parse_integer b.
Proof.
  induction b as [|b0 t IH]; intros Hb; [done|]. destruct t as [|b1 t]; [done|].
  rewrite strip_ones_cons. destruct (_ && _) eqn:E; [|done]. apply andb_true_iff in E as [->%Z.eqb_eq E].
  apply Forall_cons in Hb as [_ Hb]. pose proof Hb as [H1 _]%Forall_cons. unfold is_u8 in H1.
  rewrite land_128 in E by lia. apply negb_true_iff, Z.ltb_ge in E.
  rewrite IH by done. symmetry. apply parse_integer_ones. lia.
Qed.

(** A non-negative integer keeps a clear sign bit. *)
Lemma strip_zeros_head b b0 t :
  is_bytes b → (∀ c s, b = c :: s → c < 128) → strip_zeros b = b0 :: t → b0 < 128.
Proof.
  induction b as [|c s IH]; intros Hb Hh; [done|].
  destruct s as [|d s]; [intros [= <- <-]; by eapply Hh|]. rewrite strip_zeros_cons.
  destruct (_ && _) eqn:E; [|intros [= <- <-]; by eapply Hh].
  apply andb_true_iff in E as [_ E]. apply Forall_cons in Hb as [_ Hb].
  pose proof Hb as [H1 _]%Forall_cons. unfold is_u8 in H1. rewrite land_128 in E by lia.
  apply IH; [done|]. intros ? ? [= <- <-]. by apply Z.ltb_lt.
Qed.

Lemma integer_be_bytes v : is_i64 v → parse_integer (to_bytes true 8 (as_u64 v)) = Ok v.
Proof.
  intros Hv. pose proof (is_bytes_to_bytes true 8 (as_u64 v)) as Hb.
  pose proof (length_to_bytes true 8 (as_u64 v)) as Hl.
  pose proof (from_to_bytes_id true 8 (as_u64 v) (wrap_u_range 64 v ltac:(lia))) as Hf.
  destruct (to_bytes true 8 (as_u64 v)) as [|b0 rest]; [done|]. rewrite parse_integer_value by done.
  injection Hl as Hl. rewrite Hl. f_equal. change (8 * Z.of_nat 7) with 56.
  rewrite from_be_cons, Hl in Hf. change (8 * Z.of_nat 7) with 56 in Hf.
  transitivity (wrap_i 64 v); [|apply wrap_i_id; unfold is_i64 in Hv; lia].
  pose proof (wrap_u_of_i 8 b0 ltac:(lia)) as W8. apply Forall_cons in Hb as [H0 _]. unfold is_u8 in H0.
  rewrite (wrap_u_id 8 b0) in W8 by lia.
  assert (∃ q, wrap_i 8 b0 = b0 + q * 256) as [q ->].
  { exists (wrap_i 8 b0 / 256). unfold wrap_u in W8. change (2 ^ 8) with 256 in W8.
    pose proof (Z.div_mod (wrap_i 8 b0) 256 ltac:(lia)). lia. }
  apply wrap_i_cong.
  assert (U : from_bytes true rest = as_u64 v - b0 * 2 ^ 56) by lia.
  rewrite U. unfold wrap_u.
  replace ((b0 + q * 256) * 2 ^ 56 + (v mod 2 ^ 64 - b0 * 2 ^ 56)) with (v mod 2 ^ 64 + q * 2 ^ 64) by lia.
  rewrite Z_mod_plus_full. apply Zmod_mod.
Qed.

Lemma parse_integer_content v : is_i64 v → parse_integer (integer_content v) = Ok v.
Proof.
  intros Hv. unfold integer_content. unfold is_i64 in Hv. destruct (Z.leb_spec 0 v) as [Hp|Hn].
  - pose proof (integer_be_bytes v Hv) as I. rewrite (wrap_u_id 64 v) in I by lia.
    pose proof (is_bytes_to_bytes true 8 v) as Hb.
    rewrite <- strip_zeros_integer in I by done.
    destruct (strip_zeros (to_bytes true 8 v)) as [|b0 t] eqn:E; [done|].
    assert (b0 < 128) as Hl.
    { apply (strip_zeros_head (to_bytes true 8 v) b0 t); [done| |done]. intros c s Es.
      pose proof (from_to_bytes_id true 8 v ltac:(change (8 * Z.of_nat 8) with 64; lia)) as F.
      pose proof (length_to_bytes true 8 v) as L. rewrite Es in F, L. injection L as L.
      rewrite from_be_cons, L in F. change (8 * Z.of_nat 7) with 56 in F.
      assert (is_bytes s) as Hs by (rewrite Es in Hb; by apply Forall_cons in Hb as [_ ?]).
      pose proof (from_bytes_range true s Hs). lia. }
    assert (0 <= b0) as H0.
    { assert (is_bytes (strip_zeros (to_bytes true 8 v))) as Hs.
      { clear -Hb. induction (to_bytes true 8 v) as [|x [|y t] IH]; [done|done|].
        rewrite strip_zeros_cons. case_match; [|done]. apply IH. by apply Forall_cons in Hb as [_ ?]. }
      rewrite E in Hs. by apply Forall_cons in Hs as [[? _] _]. }
    rewrite land_128 by lia. by destruct (Z.ltb_spec b0 128); [|lia].
  - rewrite strip_ones_integer by apply is_bytes_to_bytes. by apply integer_be_bytes.
Qed.

(** ** Object identifiers *)

Lemma base128_value f n :
  0 <= n < 2 ^ (7 * Z.of_nat f) → digits_value 7 (rev (base128_digits f n)) 0 = n.
Proof.
  revert n. induction f as [|f IH]; intros n Hn; cbn [base128_digits].
  { change (2 ^ (7 * Z.of_nat 0)) with 1 in Hn. cbn. lia. }
  destruct (Z.ltb_spec 0 n); cbn [rev]; [|cbn; lia].
  rewrite digits_value_snoc.
  replace (7 * Z.of_nat (S f)) with (7 + 7 * Z.of_nat f) in Hn by lia.
  rewrite Z.pow_add_r in Hn by lia. change (2 ^ 7) with 128 in Hn |- *.
  rewrite (Z.land_ones n 7 ltac:(lia) : Z.land n 127 = n mod 128).
  rewrite (Z.shiftr_div_pow2 n 7 ltac:(lia) : Z.shiftr n 7 = n / 128).
  rewrite IH; Z.div_mod_to_equations; lia.
Qed.

Definition is_septets (l : list Z) : Prop := Forall (λ b, 0 <= b < 2 ^ 7) l.

Lemma base128_septets f n : is_septets (base128_digits f n).
Proof.
  revert n. induction f as [|f IH]; intros n; cbn [base128_digits]; [constructor|].
  case_match; constructor; [|apply IH].
  rewrite (Z.land_ones n 7 ltac:(lia) : Z.land n 127 = n mod 128).
  apply (Z.mod_pos_bound n 128). lia.
Qed.

Lemma septet_more d : 0 <= d < 2 ^ 7 → (Z.land (Z.lor 128 d) 128 =? 0) = false ∧ Z.land (Z.lor 128 d) 127 = d.
Proof.
  change (2 ^ 7) with 128. intros Hd.
  pose proof (byte_check (λ d, (128 <=? d) || negb (Z.land (Z.lor 128 d) 128 =? 0) && (Z.land (Z.lor 128 d) 127 =? d))
    eq_refl d ltac:(lia)) as H.
  cbv beta in H. destruct (Z.leb_spec 128 d); [lia|]. cbn [orb] in H.
  apply andb_true_iff in H as [H1%negb_true_iff H2%Z.eqb_eq]. done.
Qed.

Lemma septet_last d : 0 <= d < 2 ^ 7 → (Z.land d 128 =? 0) = true ∧ Z.land d 127 = d.
Proof.
  change (2 ^ 7) with 128. intros Hd.
  pose proof (byte_check (λ d, (128 <=? d) || (Z.land d 128 =? 0) && (Z.land d 127 =? d))
    eq_refl d ltac:(lia)) as H.
  cbv beta in H. destruct (Z.leb_spec 128 d); [lia|]. cbn [orb] in H.
  apply andb_true_iff in H as [H1 H2%Z.eqb_eq]. done.
Qed.

Lemma parse_arcs_more l d rest v s :
  is_septets l → 0 <= d < 2 ^ 7 →
  parse_arcs ((Z.lor 128 <$> l) ++ d :: rest) v s =
    (let? arcs := parse_arcs rest 0 false in
     Ok (fold_left (fun v b => Z.lor (as_u32 (Z.shiftl v 7)) b) (l ++ [d]) v :: arcs)).
Proof.
  intros Hl Hd. revert v s. induction Hl as [|b l Hb Hl IH]; intros v s.
  - cbn [fmap list_fmap app fold_left parse_arcs]. destruct (septet_last d Hd) as [-> ->]. done.
  - cbn [fmap list_fmap app fold_left parse_arcs]. destruct (septet_more b Hb) as [-> ->]. apply IH.
Qed.

Lemma parse_arc n rest :
  is_u32 n → parse_arcs (encode_base128 n ++ rest) 0 false =
    (let? arcs := parse_arcs rest 0 false in Ok (n :: arcs)).
Proof.
  intros Hn. unfold encode_base128. destruct (Z.eqb_spec n 0) as [->|Hz]; [done|].
  pose proof (base128_value 5 n ltac:(change (7 * Z.of_nat 5) with 35; unfold is_u32 in Hn; lia)) as V.
  pose proof (base128_septets 5 n) as S. destruct (base128_digits 5 n) as [|d ds]; [by cbn in V|].
  apply Forall_cons in S as [Hd Hds]. rewrite <- app_assoc. cbn [app rev] in *.
  rewrite parse_arcs_more; [|by apply Forall_rev|done].
  pose proof (fold_shift_or 7 (wrap_u 32) (rev ds ++ [d]) 0) as F. change (wrap_u 32 0) with 0 in F.
  assert (Hs : is_septets (rev ds ++ [d])).
  { apply Forall_app. split; [by apply Forall_rev|by constructor]. }
  rewrite (F Hs), V, wrap_u_id; done.
Qed.

Lemma parse_arcs_encoded arcs : Oid.wf arcs → parse_arcs (flat_map encode_base128 arcs) 0 false = Ok arcs.
Proof.
  induction 1 as [|n arcs Hn HF IH]; [done|]. cbn [flat_map]. rewrite parse_arc by done. by rewrite IH.
Qed.

(** An OID that the first byte of the content can carry. *)
Definition packed_oid (o : Oid) : Prop :=
  match o with a :: b :: _ => b < 40 ∧ 40 * a + b < 128 | _ => False end.

Lemma parse_oid_content o : Oid.wf o → packed_oid o → parse_oid (oid_content o) = Ok o.
Proof.
  destruct o as [|a [|b rest]]; try done. intros Hw [Hb Hab].
  apply Forall_cons in Hw as [Ha [Hb' Hr]%Forall_cons]. unfold is_u32 in *. cbn [oid_content].
  rewrite (wrap_u_id 32 (40 * a)), wrap_u_id by lia.
  assert (E : encode_base128 (40 * a + b) = [40 * a + b]).
  { assert (H : 0 <= 40 * a + b < 128) by lia. revert H. generalize (40 * a + b). intros n Hn.
    pose proof (byte_check (λ n, (128 <=? n) || bool_decide (encode_base128 n = [n])) eq_refl n ltac:(lia)) as B.
    cbv beta in B. destruct (Z.leb_spec 128 n); [lia|]. by apply bool_decide_eq_true in B. }
  rewrite E. cbn [app parse_oid]. rewrite parse_arcs_encoded by done. cbn. do 2 f_equal.
  - symmetry. apply (Z.div_unique_pos _ 40 a b); lia.
  - f_equal. symmetry. apply (Z.mod_unique_pos _ 40 a b); lia.
Qed.

Lemma encode_base128_short n : 0 <= n < 128 → encode_base128 n = [n].
Proof.
  intros Hn.
  pose proof (byte_check (λ n, (128 <=? n) || bool_decide (encode_base128 n = [n])) eq_refl n ltac:(lia)) as B.
  cbv beta in B. destruct (Z.leb_spec 128 n); [lia|]. by apply bool_decide_eq_true in B.
Qed.

(** From 128 on, the first byte read is only the head of the first arc. *)
Lemma encode_base128_long n :
  128 <= n → is_u32 n → ∃ c l d, encode_base128 n = c :: (Z.lor 128 <$> l) ++ [d] ∧
    is_septets l ∧ 0 <= d < 2 ^ 7.
Proof.
  intros H128 Hn. unfold encode_base128. destruct (Z.eqb_spec n 0); [lia|].
  pose proof (base128_value 5 n ltac:(change (7 * Z.of_nat 5) with 35; unfold is_u32 in Hn; lia)) as V.
  pose proof (base128_septets 5 n) as S. destruct (base128_digits 5 n) as [|d ds]; [cbn in V; lia|].
  apply Forall_cons in S as [Hd Hds]. destruct (rev ds) as [|x l] eqn:E.
  { assert (ds = []) as -> by (by apply (f_equal (@rev Z)) in E; rewrite rev_involutive in E).
    cbn in V. change (2 ^ 7) with 128 in Hd. lia. }
  apply Forall_rev in Hds. rewrite E in Hds. apply Forall_cons in Hds as [_ Hl].
  by exists (Z.lor 128 x), l, d.
Qed.

(** The packed OIDs are exactly those that survive. *)
Lemma parse_oid_content_iff o : Oid.wf o → parse_oid (oid_content o) = Ok o ↔ packed_oid o.
Proof.
  intros Hw. split; [|by apply parse_oid_content]. intros E.
  destruct o as [|a [|b rest]]; [done| |].
  { unfold parse_oid in E. destruct (oid_content [a]); [done|].
    destruct (parse_arcs _ _ _); done. }
  apply Forall_cons in Hw as [Ha [Hb Hr]%Forall_cons]. cbn [oid_content] in E.
  set (s := as_u32 (as_u32 (40 * a) + b)) in E.
  assert (Hs : 0 <= s < 2 ^ 32) by (apply wrap_u_range; lia).
  destruct (Z.lt_ge_cases s 128) as [Hlt|Hge].
  - rewrite encode_base128_short in E by lia. cbn [app parse_oid] in E.
    rewrite parse_arcs_encoded in E by done. injection E as E1 E2. cbn.
    pose proof (Z.div_mod s 40 ltac:(lia)). pose proof (Z.mod_pos_bound s 40). lia.
  - destruct (encode_base128_long s Hge Hs) as (c & l & d & F & Hl & Hd). rewrite F in E.
    cbn [app parse_oid] in E. rewrite <- app_assoc in E. cbn [app] in E.
    rewrite parse_arcs_more, parse_arcs_encoded in E by done. cbn in E. injection E as _ _ E.
    apply (f_equal length) in E. cbn in E. lia.
Qed.

(** ** Unsigned values *)

Lemma parse_unsigned_strip bits m b : parse_unsigned bits (strip_to m b) = parse_unsigned bits b.
Proof.
  induction b as [|b0 t IH]; [done|]. cbn [strip_to].
  destruct (_ && _) eqn:E; [|done]. apply andb_true_iff in E as [_ ->%Z.eqb_eq].
  rewrite IH. unfold parse_unsigned. cbn [fold_left]. by rewrite Z.shiftl_0_l.
Qed.

Lemma parse_unsigned_content bits m v :
  8 <= bits <= 64 → 0 <= v < 2 ^ bits → parse_unsigned bits (ber_unsigned_content v m) = v.
Proof.
  intros Hb Hv. assert (Hv' : 0 <= v < 2 ^ 64).
  { split; [lia|]. eapply Z.lt_le_trans; [apply Hv|]. apply Z.pow_le_mono_r; lia. }
  transitivity (parse_unsigned bits (to_bytes true 8 v)).
  { rewrite <- (parse_unsigned_strip bits m (to_bytes true 8 v)). unfold ber_unsigned_content.
    destruct (strip_to m (to_bytes true 8 v)); [|done]. unfold parse_unsigned. cbn. by rewrite Z.shiftl_0_l. }
  unfold parse_unsigned. pose proof (shift_or_unsigned 8 bits ltac:(lia)) as SO.
  pose proof (fold_shift_or 8 (wrap_u bits) (to_bytes true 8 v) 0 (is_bytes_to_bytes true 8 v)) as F.
  rewrite (wrap_u_id bits 0) in F by lia. rewrite F, digits_value_be.
  rewrite from_to_bytes_id by (change (8 * Z.of_nat 8) with 64; lia). by apply wrap_u_id.
Qed.

(** ** Parsers neither panic nor leave their ranges *)

Lemma parse_len_safe buf :
  match parse_len buf with
  | None => False
  | Some (Ok (len, n)) => (1 <= n <= length buf)%nat
  | Some (Err _) => True
  end.
Proof.
  unfold parse_len. destruct buf as [|first rest]; [done|].
  destruct (Z.land first 128 =? 0); [cbn; lia|]. set (nb := Z.to_nat (Z.land first 127)).
  destruct ((nb =? 0)%nat || (4 <? nb)%nat || (length (first :: rest) <? 1 + nb)%nat) eqn:E; [done|].
  apply orb_false_iff in E as [_ E%Nat.ltb_ge]. unfold slice_range.
  destruct (Nat.leb_spec 1 (1 + nb)); [|lia]. destruct (Nat.leb_spec (1 + nb) (length (first :: rest))); [|lia].
  cbn [andb sliced okay]. lia.
Qed.

Lemma parse_tlv_safe buf :
  match parse_tlv buf with
  | None => False
  | Some (Ok (tag, content, n)) =>
      (2 <= n <= length buf)%nat ∧ head buf = Some tag ∧ (is_bytes buf → is_bytes content)
  | Some (Err _) => True
  end.
Proof.
  unfold parse_tlv. destruct buf as [|t [|x xs]]; [done|done|]. unfold slice_from.
  destruct (Nat.leb_spec 1 (length (t :: x :: xs))) as [H|H]; [|cbn in H; lia]. cbn [sliced drop].
  pose proof (parse_len_safe (x :: xs)) as L. destruct (parse_len (x :: xs)) as [[[len n]|]|]; [|done|done].
  cbn [obind]. set (stop := (1 + n + Z.to_nat len)%nat).
  destruct (Nat.ltb_spec (length (t :: x :: xs)) stop); [done|]. unfold slice_range.
  destruct (Nat.leb_spec (1 + n) stop) as [H1|H1]; [|unfold stop in H1; lia].
  destruct (Nat.leb_spec stop (length (t :: x :: xs))); [|lia]. cbn [andb sliced okay].
  split_and!; [unfold stop; lia|lia|done|]. intros Hb. by apply Forall_take, Forall_drop.
Qed.

Lemma wrap_i64_range v : is_i64 (wrap_i 64 v).
Proof. unfold is_i64, wrap_i. pose proof (Z.mod_pos_bound (v + 2 ^ (64 - 1)) (2 ^ 64)). lia. Qed.

Lemma parse_integer_range buf v : is_bytes buf → parse_integer buf = Ok v → is_i64 v.
Proof.
  intros Hb. destruct buf as [|b0 rest]; [done|]. rewrite parse_integer_value by done.
  intros [= <-]. apply wrap_i64_range.
Qed.

Lemma parse_arcs_wf buf : ∀ v s arcs, is_bytes buf → parse_arcs buf v s = Ok arcs → Oid.wf arcs.
Proof.
  induction buf as [|b rest IH]; intros v s arcs Hb; cbn [parse_arcs].
  { destruct s; [done|]. intros [= <-]. constructor. }
  apply Forall_cons in Hb as [Hb Hr]. set (v' := Z.lor _ _).
  assert (Hv : is_u32 v').
  { unfold v'. rewrite (shift_or (k:=7) (w:=wrap_u 32)); [apply wrap_u_range; lia|].
    rewrite (Z.land_ones b 7 ltac:(lia) : Z.land b 127 = b mod 2 ^ 7). apply Z.mod_pos_bound. lia. }
  destruct (_ =? 0); [|by apply IH]. destruct (parse_arcs rest 0 false) as [as'|] eqn:E; [|done].
  cbn. intros [= <-]. constructor; [done|]. by eapply IH.
Qed.

Lemma parse_oid_wf buf o : is_bytes buf → parse_oid buf = Ok o → Oid.wf o.
Proof.
  destruct buf as [|first rest]; [done|]. intros [Hf Hr]%Forall_cons. unfold parse_oid.
  destruct (parse_arcs rest 0 false) as [arcs|] eqn:E; [|done]. cbn. intros [= <-].
  unfold is_u8 in Hf. repeat constructor.
  - unfold is_u32. Z.div_mod_to_equations. lia.
  - unfold is_u32. Z.div_mod_to_equations. lia.
  - unfold is_u32. pose proof (Z.mod_pos_bound first 40). lia.
  - unfold is_u32. pose proof (Z.mod_pos_bound first 40). lia.
  - by eapply parse_arcs_wf.
Qed.

(** ** Total computations

    [total P o]: [o] neither panics nor runs out of fuel, and a value it
    answers satisfies [P]. *)

Definition total {T} (P : T → Prop) (o : outcome T) : Prop :=
  match o with None => False | Some (Ok v) => P v | Some (Err _) => True end.

Lemma total_okay {T} (P : T → Prop) v : P v → total P (okay v).
Proof. done. Qed.

Lemma total_error {T} (P : T → Prop) e : total P (error e).
Proof. done. Qed.

Lemma total_bind {T U} (P : T → Prop) (Q : U → Prop) (f : T → outcome U) o :
  total P o → (∀ v, P v → total Q (f v)) → total Q (obind f o).
Proof. destruct o as [[v|e]|]; cbn; [|done..]. intros Hv Hf. by apply Hf. Qed.

Lemma total_weaken {T} (P Q : T → Prop) o : total P o → (∀ v, P v → Q v) → total Q o.
Proof. destruct o as [[v|e]|]; cbn; auto. Qed.

Lemma total_some {T} (P : T → Prop) o : total P o → ∃ r, o = Some r.
Proof. destruct o as [r|]; [by exists r|done]. Qed.

Lemma total_slice_from {T} (Q : T → Prop) buf i (f : bytes → outcome T) :
  (i <= length buf)%nat → total Q (f (drop i buf)) → total Q (sliced (slice_from buf i) f).
Proof. intros Hi Hf. unfold slice_from. by destruct (Nat.leb_spec i (length buf)); [|lia]. Qed.

(** A TLV read from a buffer: its tag is the first byte, its content and what
    follows are bytes of the buffer. *)
Definition tlv_of (buf : bytes) (r : Z * bytes * nat) : Prop :=
  let '(t, content, n) := r in
  (2 <= n <= length buf)%nat ∧ head buf = Some t ∧
  (is_bytes buf → is_bytes content ∧ is_bytes (drop n buf)).

Lemma parse_tlv_total buf : total (tlv_of buf) (parse_tlv buf).
Proof.
  pose proof (parse_tlv_safe buf) as S. unfold total. destruct (parse_tlv buf) as [[[[t c] n]|e]|]; try done.
  destruct S as (? & ? & Hb). split_and!; [lia|lia|done|]. intros Hbs. split; [by apply Hb|by apply Forall_drop].
Qed.

Lemma parse_integer_total buf : total (λ v, is_bytes buf → is_i64 v) (Some (parse_integer buf)).
Proof. cbn. destruct (parse_integer buf) eqn:E; [|done]. intros Hb. by eapply parse_integer_range. Qed.

Lemma parse_oid_total buf : total (λ o, is_bytes buf → Oid.wf o) (Some (parse_oid buf)).
Proof. cbn. destruct (parse_oid buf) eqn:E; [|done]. intros Hb. by eapply parse_oid_wf. Qed.

Lemma ber_unsigned_range bits content :
  8 <= bits → is_bytes content → 0 <= parse_unsigned bits content < 2 ^ bits.
Proof.
  intros Hbits Hb. unfold parse_unsigned. pose proof (shift_or_unsigned 8 bits ltac:(lia)) as SO.
  pose proof (fold_shift_or 8 (wrap_u bits) content 0 Hb) as F.
  rewrite (wrap_u_id bits 0) in F by (split; [lia|apply Z.pow_pos_nonneg; lia]).
  rewrite F. apply wrap_u_range. lia.
Qed.

#[export] Hint Resolve parse_tlv_total parse_integer_total parse_oid_total : total.
#[export] Hint Resolve total_okay total_error : total.
