(* ===== verification/Wire.v ===== *)
(** * Domain types and wire types ([convert.rs], [value.rs], [pdu.rs], [message.rs], [error.rs])

    The conversions between the crate's own values, PDUs and community messages
    and the structures of the [rasn] crates, and the framing of a community
    message. Those crates are third-party code: their data types are the
    records and sums that the source builds and matches exhaustively, their
    BER encoder and decoder are the operations of the class [Rasn], and what
    the source relies on is the class [RasnLaws]: a decoder reads back what the
    encoder of the same type wrote. *)

From Stdlib Require Import ZArith Lia.
From S2P Require Import Prelude MachineInts Text Oid Value Pdu.

(** ** Errors *)

(** [enum Error], without its messages. *)
Inductive Error :=
| EUnexpectedEof
| EUnexpectedTag (expected found : Z)
| EInvalidLength
| EInvalidOid
| EIntegerOverflow
| EUnsupportedVersion (v : Z)
| EInvalidValue
| ESnmpError (status : ErrorStatus) (index : Z)
| ETimeout
| ERequestIdMismatch (sent received : Z)
| EAuthFailure
| EPrivFailure
| ESecurity
| EReport (what : text)
| EIo
| EProtocol.

#[export] Instance error_eq_dec : EqDecision Error.
Proof. solve_decision. Defined.

(** ** The wire types *)

(** [rasn_smi::v2] and [rasn_snmp::v2]. *)
Inductive SimpleSyntax :=
| SInteger (i : Z)
| SString (s : bytes)
| SObjectId (o : Oid).

Inductive ApplicationSyntax :=
| AAddress (ip : Ipv4Addr)
| ACounter (v : Z)
| AUnsigned (v : Z)
| ATicks (v : Z)
| AArbitrary (opaque : bytes)
| ABigCounter (v : Z).

Inductive ObjectSyntax :=
| Simple (s : SimpleSyntax)
| ApplicationWide (a : ApplicationSyntax).

Inductive VarBindValue :=
| RValue (o : ObjectSyntax)
| RUnspecified
| RNoSuchObject
| RNoSuchInstance
| REndOfMibView.

Record RasnVarBind := mkRVarBind { r_name : Oid; r_value : VarBindValue }.

Record RasnPdu := mkRPdu {
  r_request_id : Z;
  r_error_status : Z;
  r_error_index : Z;
  r_variable_bindings : list RasnVarBind
}.

Record BulkPdu := mkBulk {
  b_request_id : Z;
  b_non_repeaters : Z;
  b_max_repetitions : Z;
  b_variable_bindings : list RasnVarBind
}.

Inductive Pdus :=
| RGetRequest (p : RasnPdu)
| RGetNextRequest (p : RasnPdu)
| RResponse (p : RasnPdu)
| RSetRequest (p : RasnPdu)
| RInformRequest (p : RasnPdu)
| RTrap (p : RasnPdu)
| RReport (p : RasnPdu)
| RGetBulkRequest (p : BulkPdu).

(** [rasn_smi::v1] and [rasn_snmp::v1]. *)
Inductive SimpleSyntax1 :=
| S1Number (i : Z)
| S1String (s : bytes)
| S1Object (o : Oid)
| S1Empty.

Inductive ApplicationSyntax1 :=
| A1Address (ip : Ipv4Addr)
| A1Counter (v : Z)
| A1Gauge (v : Z)
| A1Ticks (v : Z)
| A1Arbitrary (opaque : bytes).

Inductive ObjectSyntax1 :=
| Simple1 (s : SimpleSyntax1)
| ApplicationWide1 (a : ApplicationSyntax1).

Record VarBind1 := mkVarBind1 { name1 : Oid; value1 : ObjectSyntax1 }.

Record Trap1 := mkTrap1 {
  t1_enterprise : Oid;
  t1_agent_addr : Ipv4Addr;
  t1_generic_trap : Z;
  t1_specific_trap : Z;
  t1_time_stamp : Z;
  t1_variable_bindings : list VarBind1
}.

(** [v2c::Message<Pdus>] and [v1::Message<Trap>] share their envelope. *)
Record Envelope (D : Type) := mkEnvelope { e_version : Z; e_community : bytes; e_data : D }.
Arguments mkEnvelope {D}.
Arguments e_version {D}.
Arguments e_community {D}.
Arguments e_data {D}.

(** ** The BER codec of the [rasn] crate *)

Record Codec (A : Type) := mkCodec { encode : A → option bytes; decode : bytes → option A }.
Arguments mkCodec {A}.
Arguments encode {A}.
Arguments decode {A}.

(** [ObjectIdentifier::new] answers [None] on arcs that form no OID. An encoded
    OCTET STRING is its identifier octet and what follows. *)
Class Rasn := {
  oid_encodable : Oid → bool;
  encode_octets : bytes → option (Z * bytes);
  decode_octets : bytes → option bytes;
  decode_opaque : bytes → option bytes;
  ber_community : Codec (Envelope Pdus);
  ber_v1 : Codec (Envelope Trap1);
}.

(** [?] on a [rasn] error. *)
Definition ber {A} (o : option A) : result A Error := ok_or EProtocol o.

Section Conversions.
Context {R : Rasn}.

(** ** [convert.rs] *)

(** [arcs.resize(2, 0)] on a short OID. *)
Definition pad_oid (o : Oid) : Oid :=
  if (length o <? 2)%nat then o ++ replicate (2 - length o) 0 else o.

Definition oid_to_rasn (o : Oid) : result Oid Error :=
  let arcs := pad_oid o in
  if oid_encodable arcs then Ok arcs else Err EInvalidOid.

Definition oid_from_rasn (o : Oid) : Oid := o.

(** An [Integer] is unbounded. *)
Definition int_to_i64 (i : Z) : result Z Error :=
  if (i64_min <=? i) && (i <=? i64_max) then Ok i else Err EIntegerOverflow.

Definition int_to_u32 (i : Z) : result Z Error :=
  if (0 <=? i) && (i <=? u32_max) then Ok i else Err EIntegerOverflow.

(** The OCTET STRING is retagged as [APPLICATION 4]. *)
Definition opaque_from_bytes (b : bytes) : result bytes Error :=
  let? (_, rest) := ber (encode_octets b) in
  ber (decode_opaque (68 :: rest)).

(** ** [value.rs] *)

Definition to_var_bind_value (v : Value) : result VarBindValue Error :=
  let simple s := RValue (Simple s) in
  let app a := RValue (ApplicationWide a) in
  match v with
  | VInteger v => Ok (simple (SInteger v))
  | VOctetString b => Ok (simple (SString b))
  | VOid o => let? o := oid_to_rasn o in Ok (simple (SObjectId o))
  | VIpAddress ip => Ok (app (AAddress ip))
  | VCounter32 v => Ok (app (ACounter v))
  | VGauge32 v => Ok (app (AUnsigned v))
  | VTimeTicks v => Ok (app (ATicks v))
  | VOpaque b => let? o := opaque_from_bytes b in Ok (app (AArbitrary o))
  | VCounter64 v => Ok (app (ABigCounter v))
  | VNull => Ok RUnspecified
  | VNoSuchObject => Ok RNoSuchObject
  | VNoSuchInstance => Ok RNoSuchInstance
  | VEndOfMibView => Ok REndOfMibView
  end.

Definition from_object_syntax (o : ObjectSyntax) : result Value Error :=
  match o with
  | Simple (SInteger i) => let? v := int_to_i64 i in Ok (VInteger v)
  | Simple (SString s) => Ok (VOctetString s)
  | Simple (SObjectId o) => Ok (VOid (oid_from_rasn o))
  | ApplicationWide (AAddress ip) => Ok (VIpAddress ip)
  | ApplicationWide (ACounter v) => Ok (VCounter32 v)
  | ApplicationWide (AUnsigned v) => Ok (VGauge32 v)
  | ApplicationWide (ATicks v) => Ok (VTimeTicks v)
  | ApplicationWide (AArbitrary op) => Ok (VOpaque op)
  | ApplicationWide (ABigCounter v) => Ok (VCounter64 v)
  end.

Definition from_var_bind_value (v : VarBindValue) : result Value Error :=
  match v with
  | RUnspecified => Ok VNull
  | RNoSuchObject => Ok VNoSuchObject
  | RNoSuchInstance => Ok VNoSuchInstance
  | REndOfMibView => Ok VEndOfMibView
  | RValue o => from_object_syntax o
  end.

(** ** [pdu.rs] *)

(** [iter().map(f).collect::<Result<Vec<_>>>()]. *)
Fixpoint collect {A B E} (f : A → result B E) (l : list A) : result (list B) E :=
  match l with
  | [] => Ok []
  | x :: l' => let? y := f x in let? ys := collect f l' in Ok (y :: ys)
  end.

Definition vb_to_rasn (vb : VarBind) : result RasnVarBind Error :=
  let? n := oid_to_rasn (vb_oid vb) in
  let? v := to_var_bind_value (vb_value vb) in
  Ok (mkRVarBind n v).

Definition vb_from_rasn (vb : RasnVarBind) : result VarBind Error :=
  let? v := from_var_bind_value (r_value vb) in
  Ok (mkVarBind (oid_from_rasn (r_name vb)) v).

(** [u32::try_from] on an [i64]. *)
Definition u32_of (n : Z) : result Z Error :=
  if (0 <=? n) && (n <=? u32_max) then Ok n else Err EIntegerOverflow.

Definition to_rasn (p : Pdu) : result Pdus Error :=
  let? bindings := collect vb_to_rasn (variables p) in
  let? status := u32_of (error_status p) in
  let? index := u32_of (error_index p) in
  let std := mkRPdu (request_id p) status index bindings in
  match pdu_type p with
  | Get => Ok (RGetRequest std)
  | GetNext => Ok (RGetNextRequest std)
  | Response => Ok (RResponse std)
  | Set_ => Ok (RSetRequest std)
  | Inform => Ok (RInformRequest std)
  | TrapV2 => Ok (RTrap std)
  | Report => Ok (RReport std)
  | GetBulk => Ok (RGetBulkRequest (mkBulk (request_id p) status index bindings))
  | TrapV1 => Err EProtocol
  end.

Definition from_std (t : PduType) (p : RasnPdu) : PduType * Z * Z * Z * list RasnVarBind :=
  (t, r_request_id p, r_error_status p, r_error_index p, r_variable_bindings p).

Definition from_rasn (ps : Pdus) : result Pdu Error :=
  let '(t, id, status, index, bindings) :=
    match ps with
    | RGetRequest p => from_std Get p
    | RGetNextRequest p => from_std GetNext p
    | RResponse p => from_std Response p
    | RSetRequest p => from_std Set_ p
    | RInformRequest p => from_std Inform p
    | RTrap p => from_std TrapV2 p
    | RReport p => from_std Report p
    | RGetBulkRequest b =>
        (GetBulk, b_request_id b, b_non_repeaters b, b_max_repetitions b, b_variable_bindings b)
    end in
  let? vs := collect vb_from_rasn bindings in
  Ok (mkPdu t id status index vs None).

(** ** SNMPv1 traps *)

Definition value_to_v1_object_syntax (v : Value) : result ObjectSyntax1 Error :=
  match v with
  | VInteger v => Ok (Simple1 (S1Number v))
  | VOctetString b => Ok (Simple1 (S1String b))
  | VOid o => let? o := oid_to_rasn o in Ok (Simple1 (S1Object o))
  | VNull | VNoSuchObject | VNoSuchInstance | VEndOfMibView => Ok (Simple1 S1Empty)
  | VIpAddress ip => Ok (ApplicationWide1 (A1Address ip))
  | VCounter32 v => Ok (ApplicationWide1 (A1Counter v))
  | VGauge32 v => Ok (ApplicationWide1 (A1Gauge v))
  | VTimeTicks v => Ok (ApplicationWide1 (A1Ticks v))
  | VOpaque b => let? o := opaque_from_bytes b in Ok (ApplicationWide1 (A1Arbitrary o))
  | VCounter64 v => Ok (ApplicationWide1 (A1Gauge (if v <=? u32_max then v else u32_max)))
  end.

Definition value_from_v1_object_syntax (o : ObjectSyntax1) : Value :=
  match o with
  | Simple1 (S1Number i) => VInteger (match int_to_i64 i with Ok v => v | Err _ => 0 end)
  | Simple1 (S1String s) => VOctetString s
  | Simple1 (S1Object o) => VOid (oid_from_rasn o)
  | Simple1 S1Empty => VNull
  | ApplicationWide1 (A1Address ip) => VIpAddress ip
  | ApplicationWide1 (A1Counter v) => VCounter32 v
  | ApplicationWide1 (A1Gauge v) => VGauge32 v
  | ApplicationWide1 (A1Ticks v) => VTimeTicks v
  | ApplicationWide1 (A1Arbitrary op) => VOpaque op
  end.

Definition vb_to_v1 (vb : VarBind) : result VarBind1 Error :=
  let? n := oid_to_rasn (vb_oid vb) in
  let? v := value_to_v1_object_syntax (vb_value vb) in
  Ok (mkVarBind1 n v).

Definition varbinds_to_v1 (vbs : list VarBind) : result (list VarBind1) Error := collect vb_to_v1 vbs.

Definition varbinds_from_v1 (vbs : list VarBind1) : list VarBind :=
  map (fun vb => mkVarBind (oid_from_rasn (name1 vb)) (value_from_v1_object_syntax (value1 vb))) vbs.

(** [V1Trap::to_rasn] and [V1Trap::from_rasn]. *)
Definition trap_to_rasn (t : V1Trap) (vbs : list VarBind1) : result Trap1 Error :=
  let? e := oid_to_rasn (enterprise t) in
  Ok (mkTrap1 e (agent_addr t) (generic_trap t) (specific_trap t) (time_stamp t) vbs).

Definition trap_from_rasn (t : Trap1) : result (V1Trap * list VarBind1) Error :=
  let? generic := int_to_i64 (t1_generic_trap t) in
  let? specific := int_to_i64 (t1_specific_trap t) in
  if negb ((0 <=? generic) && (generic <=? u8_max)) then Err EProtocol
  else if negb ((0 <=? specific) && (specific <=? u32_max)) then Err EProtocol
  else
    Ok (mkV1Trap (oid_from_rasn (t1_enterprise t)) (t1_agent_addr t) generic specific
          (t1_time_stamp t), t1_variable_bindings t).

Definition to_v1_rasn (p : Pdu) : result Trap1 Error :=
  let? t := ok_or EProtocol (v1_trap p) in
  let? vbs := varbinds_to_v1 (variables p) in
  trap_to_rasn t vbs.

Definition from_v1_rasn (t : Trap1) : result Pdu Error :=
  let? (v1, vbs) := trap_from_rasn t in
  Ok (mkPdu TrapV1 0 0 0 (varbinds_from_v1 vbs) (Some v1)).
End Conversions.

(** ** [message.rs] *)

Inductive Version := V1 | V2c.

#[export] Instance version_eq_dec : EqDecision Version.
Proof. solve_decision. Defined.

Definition version_code (v : Version) : Z := match v with V1 => 0 | V2c => 1 end.

Definition version_from_code (c : Z) : result Version Error :=
  if c =? 0 then Ok V1 else if c =? 1 then Ok V2c else Err (EUnsupportedVersion c).

Record Message := mkMessage { msg_version : Version; community : bytes; msg_pdu : Pdu }.

Section Framing.
Context {R : Rasn}.

(** [Message::encode]. *)
Definition message_encode (m : Message) : result bytes Error :=
  if bool_decide (msg_version m = V1) && bool_decide (pdu_type (msg_pdu m) = TrapV1) then
    let? data := to_v1_rasn (msg_pdu m) in
    ber (encode ber_v1 (mkEnvelope (version_code (msg_version m)) (community m) data))
  else
    let? data := to_rasn (msg_pdu m) in
    ber (encode ber_community (mkEnvelope (version_code (msg_version m)) (community m) data)).

(** The envelope of either codec. *)
Definition open_envelope {D} (from : D → result Pdu Error) (e : Envelope D) : result Message Error :=
  let? code := int_to_i64 (e_version e) in
  let? v := version_from_code code in
  let? p := from (e_data e) in
  Ok (mkMessage v (e_community e) p).

(** [Message::decode]. *)
Definition message_decode (bs : bytes) : result Message Error :=
  match decode ber_community bs with
  | Some m => open_envelope from_rasn m
  | None =>
      let? m := ber (decode ber_v1 bs) in
      open_envelope from_v1_rasn m
  end.
End Framing.

(** ** Well-formed wire values *)

Section WellFormed.
Context {R : Rasn}.

Definition wire_oid (o : Oid) : Prop := Oid.wf o ∧ oid_encodable o = true.

Definition wire_value (v : VarBindValue) : Prop :=
  match v with
  | RValue (Simple (SInteger i)) => is_i64 i
  | RValue (Simple (SString s)) => is_bytes s
  | RValue (Simple (SObjectId o)) => wire_oid o
  | RValue (ApplicationWide (AAddress ip)) => is_ipv4 ip
  | RValue (ApplicationWide (ACounter v | AUnsigned v | ATicks v)) => is_u32 v
  | RValue (ApplicationWide (AArbitrary op)) => is_bytes op
  | RValue (ApplicationWide (ABigCounter v)) => is_u64 v
  | _ => True
  end.

Definition wire_vb (vb : RasnVarBind) : Prop := wire_oid (r_name vb) ∧ wire_value (r_value vb).

Definition wire_rpdu (p : RasnPdu) : Prop :=
  is_i32 (r_request_id p) ∧ is_u32 (r_error_status p) ∧ is_u32 (r_error_index p) ∧
  Forall wire_vb (r_variable_bindings p).

Definition wire_pdus (ps : Pdus) : Prop :=
  match ps with
  | RGetRequest p | RGetNextRequest p | RResponse p | RSetRequest p
  | RInformRequest p | RTrap p | RReport p => wire_rpdu p
  | RGetBulkRequest b =>
      is_i32 (b_request_id b) ∧ is_u32 (b_non_repeaters b) ∧ is_u32 (b_max_repetitions b) ∧
      Forall wire_vb (b_variable_bindings b)
  end.

Definition wire_value1 (v : ObjectSyntax1) : Prop :=
  match v with
  | Simple1 (S1Number i) => is_i64 i
  | Simple1 (S1String s) => is_bytes s
  | Simple1 (S1Object o) => wire_oid o
  | Simple1 S1Empty => True
  | ApplicationWide1 (A1Address ip) => is_ipv4 ip
  | ApplicationWide1 (A1Counter v | A1Gauge v | A1Ticks v) => is_u32 v
  | ApplicationWide1 (A1Arbitrary op) => is_bytes op
  end.

Definition wire_trap1 (t : Trap1) : Prop :=
  wire_oid (t1_enterprise t) ∧ is_ipv4 (t1_agent_addr t) ∧ is_u8 (t1_generic_trap t) ∧
  is_u32 (t1_specific_trap t) ∧ is_u32 (t1_time_stamp t) ∧
  Forall (λ vb, wire_oid (name1 vb) ∧ wire_value1 (value1 vb)) (t1_variable_bindings t).

(** [encode] succeeds and [decode] reads the value back. *)
Definition reads_back {A} (c : Codec A) (x : A) : Prop :=
  ∃ bs, encode c x = Some bs ∧ is_bytes bs ∧ decode c bs = Some x.
End WellFormed.

Definition bindings_of (ps : Pdus) : list RasnVarBind :=
  match ps with
  | RGetRequest p | RGetNextRequest p | RResponse p | RSetRequest p
  | RInformRequest p | RTrap p | RReport p => r_variable_bindings p
  | RGetBulkRequest b => b_variable_bindings b
  end.

(** What the source relies on. *)
Class RasnLaws (R : Rasn) : Prop := {
  (** X.690 8.19: two arcs at least, the first of them 0, 1 or 2. *)
  oid_encodable_small : ∀ a b o, Oid.wf (a :: b :: o) → a <= 2 → b < 40 →
    oid_encodable (a :: b :: o) = true;
  oid_encodable_long : ∀ o, oid_encodable o = true → (2 <= length o)%nat;
  oid_encodable_first : ∀ a b o, oid_encodable (a :: b :: o) = true → a <= 2;
  (** An octet string reads back, and so do its contents under another
      identifier octet. *)
  octets_back : ∀ b, is_bytes b → ∃ t rest,
    encode_octets b = Some (t, rest) ∧ is_bytes (t :: rest) ∧
    decode_octets (t :: rest) = Some b ∧ decode_opaque (68 :: rest) = Some b;
  community_back : ∀ v c p, is_i64 v → is_bytes c → wire_pdus p →
    reads_back ber_community (mkEnvelope v c p);
  (** The tag of a v1 trap is none of the alternatives of [Pdus]. *)
  v1_back : ∀ v c t, is_i64 v → is_bytes c → wire_trap1 t →
    ∃ bs, encode ber_v1 (mkEnvelope v c t) = Some bs ∧ is_bytes bs ∧
      decode ber_v1 bs = Some (mkEnvelope v c t) ∧ decode ber_community bs = None;
}.

(** ** What survives the wire *)

Definition pad_value (v : Value) : Value := match v with VOid o => VOid (pad_oid o) | _ => v end.
Definition pad_vb (vb : VarBind) : VarBind := mkVarBind (pad_oid (vb_oid vb)) (pad_value (vb_value vb)).

(** SMIv1 has no exceptions and no 64-bit counter. *)
Definition v1_value (v : Value) : Value :=
  match v with
  | VNoSuchObject | VNoSuchInstance | VEndOfMibView => VNull
  | VCounter64 n => VGauge32 (Z.min n u32_max)
  | _ => pad_value v
  end.

Definition v1_vb (vb : VarBind) : VarBind := mkVarBind (pad_oid (vb_oid vb)) (v1_value (vb_value vb)).

Definition pad_pdu (p : Pdu) : Pdu :=
  mkPdu (pdu_type p) (request_id p) (error_status p) (error_index p) (map pad_vb (variables p)) None.

Definition pad_trap (t : V1Trap) : V1Trap :=
  mkV1Trap (pad_oid (enterprise t)) (agent_addr t) (generic_trap t) (specific_trap t) (time_stamp t).

Definition on_the_wire (m : Message) : Message :=
  match msg_version m, pdu_type (msg_pdu m), v1_trap (msg_pdu m) with
  | V1, TrapV1, Some t =>
      mkMessage V1 (community m) (mkPdu TrapV1 0 0 0 (map v1_vb (variables (msg_pdu m))) (Some (pad_trap t)))
  | v, _, _ => mkMessage v (community m) (pad_pdu (msg_pdu m))
  end.

(** The ranges of the Rust types. *)
Definition wf_vb (vb : VarBind) : Prop := Oid.wf (vb_oid vb) ∧ wf_value (vb_value vb).

Definition wf_trap (t : V1Trap) : Prop :=
  Oid.wf (enterprise t) ∧ is_ipv4 (agent_addr t) ∧ is_u8 (generic_trap t) ∧
  is_u32 (specific_trap t) ∧ is_u32 (time_stamp t).

Record wf_pdu (p : Pdu) : Prop := {
  wf_id : is_i32 (request_id p);
  wf_status : is_i64 (error_status p);
  wf_index : is_i64 (error_index p);
  wf_vars : Forall wf_vb (variables p);
  wf_v1 : ∀ t, v1_trap p = Some t → wf_trap t;
}.

Definition wf_message (m : Message) : Prop := is_bytes (community m) ∧ wf_pdu (msg_pdu m).

(** What the encoder accepts. *)
Section Sendable.
Context {R : Rasn}.

Definition sendable_oid (o : Oid) : bool := oid_encodable (pad_oid o).
Definition sendable_value (v : Value) : bool := match v with VOid o => sendable_oid o | _ => true end.
Definition sendable_vb (vb : VarBind) : bool := sendable_oid (vb_oid vb) && sendable_value (vb_value vb).
Definition in_u32 (n : Z) : bool := (0 <=? n) && (n <=? u32_max).

Definition sendable_pdu (p : Pdu) : bool :=
  forallb sendable_vb (variables p) && in_u32 (error_status p) && in_u32 (error_index p) &&
  negb (bool_decide (pdu_type p = TrapV1)).

Definition sendable_trap (p : Pdu) : bool :=
  forallb sendable_vb (variables p) && match v1_trap p with Some t => sendable_oid (enterprise t) | None => false end.

Definition sendable (m : Message) : bool :=
  if bool_decide (msg_version m = V1) && bool_decide (pdu_type (msg_pdu m) = TrapV1)
  then sendable_trap (msg_pdu m) else sendable_pdu (msg_pdu m).
End Sendable.

(** ** Conversions read back *)

Lemma pad_oid_wf o : Oid.wf o → Oid.wf (pad_oid o).
Proof.
  intros H. unfold pad_oid. destruct (_ <? _)%nat; [|done].
  apply Forall_app. split; [done|]. apply Forall_replicate. unfold is_u32. lia.
Qed.

Lemma pad_oid_shape o : ∃ a b r, pad_oid o = a :: b :: r.
Proof. destruct o as [|a [|b o]]; cbn; eauto. Qed.

Lemma pad_oid_id a b o : pad_oid (a :: b :: o) = a :: b :: o.
Proof. done. Qed.

Lemma pad_oid_idem o : pad_oid (pad_oid o) = pad_oid o.
Proof. destruct (pad_oid_shape o) as (a & b & r & ->). done. Qed.

Lemma int_to_i64_ok i : is_i64 i → int_to_i64 i = Ok i.
Proof.
  unfold is_i64, int_to_i64, i64_min, i64_max. intros H.
  rewrite (proj2 (Z.leb_le _ _)), (proj2 (Z.leb_le _ _)) by lia. done.
Qed.

Lemma int_to_u32_ok i : is_u32 i → int_to_u32 i = Ok i.
Proof.
  unfold is_u32, int_to_u32, u32_max. intros H.
  rewrite (proj2 (Z.leb_le _ _)), (proj2 (Z.leb_le _ _)) by lia. done.
Qed.

Lemma in_u32_iff n : in_u32 n = true ↔ is_u32 n.
Proof. unfold in_u32, is_u32, u32_max. rewrite andb_true_iff, !Z.leb_le. lia. Qed.

Lemma rbind_Ok {A B E} (f : A → result B E) r y :
  rbind f r = Ok y ↔ ∃ x, r = Ok x ∧ f x = Ok y.
Proof.
  destruct r as [v|e]; cbn.
  - split; [by eauto|by intros (x & [= <-] & H)].
  - split; [done|by intros (x & ? & _)].
Qed.

Lemma collect_Forall2 {A B E} (f : A → result B E) l ys :
  collect f l = Ok ys ↔ Forall2 (λ x y, f x = Ok y) l ys.
Proof.
  revert ys. induction l as [|x l IH]; intros ys; cbn.
  - split; [by intros [= <-]|by inversion 1].
  - split.
    + intros (y & Hy & (ys' & Hys & [= <-])%rbind_Ok)%rbind_Ok. constructor; [done|by apply IH].
    + inversion 1 as [|? y ? ys' Hy F]; subst. rewrite Hy. cbn.
      by rewrite (proj2 (IH _) F).
Qed.

(** A list converted there and back is mapped. *)
Lemma collect_back {A B C E} (f : A → result B E) (g : B → result C E) h (P : A → Prop) l ys :
  (∀ x y, P x → f x = Ok y → g y = Ok (h x)) → Forall P l →
  collect f l = Ok ys → collect g ys = Ok (map h l).
Proof.
  intros Hb HP H%collect_Forall2. apply collect_Forall2.
  induction H as [|x y l ys Hy F IH]; cbn; [constructor|].
  apply Forall_cons in HP as [Hx HP]. constructor; [by eapply Hb|by apply IH].
Qed.

Lemma collect_Forall {A B E} (f : A → result B E) (P : A → Prop) (Q : B → Prop) l ys :
  (∀ x y, P x → f x = Ok y → Q y) → Forall P l → collect f l = Ok ys → Forall Q ys.
Proof.
  intros Hf HP H%collect_Forall2.
  induction H as [|x y l ys Hy F IH]; [constructor|].
  apply Forall_cons in HP as [Hx HP]. constructor; [by eapply Hf|by apply IH].
Qed.

Lemma collect_is_ok {A B E} (f : A → result B E) l : is_ok (collect f l) = forallb (is_ok ∘ f) l.
Proof.
  induction l as [|x l IH]; cbn; [done|].
  destruct (f x); cbn; [|done]. rewrite <- IH. by destruct (collect f l).
Qed.

Section Back.
Context {R : Rasn} {L : RasnLaws R}.

Lemma oid_to_rasn_Ok o r : oid_to_rasn o = Ok r ↔ r = pad_oid o ∧ sendable_oid o = true.
Proof.
  unfold oid_to_rasn, sendable_oid. destruct (oid_encodable (pad_oid o)).
  - split; [by intros [= <-]|by intros [-> _]].
  - by split; [|intros [_ ?]].
Qed.

Lemma oid_to_rasn_wire o r : Oid.wf o → oid_to_rasn o = Ok r → wire_oid r.
Proof. intros H [-> E]%oid_to_rasn_Ok. split; [by apply pad_oid_wf|done]. Qed.

(** The first arc decides, and the second where it is 40 or more. *)
Lemma sendable_oid_small o : Oid.wf o →
  match o with [] => True | [a] => a <= 2 | a :: b :: _ => a <= 2 ∧ b < 40 end →
  sendable_oid o = true.
Proof using L.
  intros H%pad_oid_wf. unfold sendable_oid. destruct o as [|a [|b o]]; intros Hs.
  - by apply oid_encodable_small.
  - by apply oid_encodable_small; [|done|].
  - by apply oid_encodable_small; [|apply Hs..].
Qed.

Lemma sendable_oid_first a o : sendable_oid (a :: o) = true → a <= 2.
Proof using L.
  unfold sendable_oid. destruct o as [|b o]; apply oid_encodable_first.
Qed.

Lemma opaque_back b : is_bytes b → opaque_from_bytes b = Ok b.
Proof using L.
  intros H. destruct (octets_back b H) as (t & r & E & _ & _ & D).
  unfold opaque_from_bytes. by rewrite E; cbn; rewrite D.
Qed.

Lemma value_is_ok v : wf_value v → is_ok (to_var_bind_value v) = sendable_value v.
Proof using L.
  destruct v; cbn [to_var_bind_value sendable_value wf_value]; try done.
  - intros _. unfold oid_to_rasn, sendable_oid. by destruct (oid_encodable _).
  - intros H. by rewrite opaque_back.
Qed.

Lemma value_back v r : wf_value v → to_var_bind_value v = Ok r →
  from_var_bind_value r = Ok (pad_value v) ∧ wire_value r.
Proof using L.
  destruct v; cbn [to_var_bind_value wf_value]; intros H E; try (by injection E as <-);
    try (injection E as <-; cbn [from_var_bind_value from_object_syntax]; rewrite int_to_i64_ok by done; done).
  - apply rbind_Ok in E as (o' & [-> S]%oid_to_rasn_Ok & [= <-]).
    split; [done|]. split; [by apply pad_oid_wf|done].
  - rewrite opaque_back in E by done. by injection E as <-.
Qed.

Lemma vb_is_ok vb : wf_vb vb → is_ok (vb_to_rasn vb) = sendable_vb vb.
Proof using L.
  intros [Ho Hv]. unfold vb_to_rasn, sendable_vb. rewrite <- value_is_ok by done.
  unfold oid_to_rasn, sendable_oid. destruct (oid_encodable _); cbn; [|done].
  by destruct (to_var_bind_value _).
Qed.

Lemma vb_back vb r : wf_vb vb → vb_to_rasn vb = Ok r → vb_from_rasn r = Ok (pad_vb vb) ∧ wire_vb r.
Proof using L.
  intros [Ho Hv] (n & En & (v & Ev & [= <-])%rbind_Ok)%rbind_Ok.
  destruct (value_back _ _ Hv Ev) as [B W]. unfold vb_from_rasn. cbn [r_value r_name].
  rewrite B. cbn. apply oid_to_rasn_Ok in En as E. destruct E as [-> S].
  split; [done|]. split; [split; [by apply pad_oid_wf|done]|done].
Qed.

Lemma value1_back v r : wf_value v → value_to_v1_object_syntax v = Ok r →
  value_from_v1_object_syntax r = v1_value v ∧ wire_value1 r.
Proof using L.
  destruct v; cbn [value_to_v1_object_syntax wf_value]; intros H E; try (by injection E as <-).
  - injection E as <-. cbn. by rewrite int_to_i64_ok.
  - apply rbind_Ok in E as (o' & [-> S]%oid_to_rasn_Ok & [= <-]).
    split; [done|]. split; [by apply pad_oid_wf|done].
  - rewrite opaque_back in E by done. by injection E as <-.
  - injection E as <-. cbn. unfold is_u32, is_u64, u32_max in *.
    destruct (Z.leb_spec v 4294967295); (split; [do 2 f_equal; lia|lia]).
Qed.

Lemma value1_is_ok v : wf_value v → is_ok (value_to_v1_object_syntax v) = sendable_value v.
Proof using L.
  destruct v; cbn [value_to_v1_object_syntax sendable_value wf_value]; try done.
  - intros _. unfold oid_to_rasn, sendable_oid. by destruct (oid_encodable _).
  - intros H. by rewrite opaque_back.
Qed.

Lemma vb1_is_ok vb : wf_vb vb → is_ok (vb_to_v1 vb) = sendable_vb vb.
Proof using L.
  intros [Ho Hv]. unfold vb_to_v1, sendable_vb. rewrite <- value1_is_ok by done.
  unfold oid_to_rasn, sendable_oid. destruct (oid_encodable _); cbn; [|done].
  by destruct (value_to_v1_object_syntax _).
Qed.

Lemma vb1_back vb r : wf_vb vb → vb_to_v1 vb = Ok r →
  mkVarBind (oid_from_rasn (name1 r)) (value_from_v1_object_syntax (value1 r)) = v1_vb vb ∧
  wire_oid (name1 r) ∧ wire_value1 (value1 r).
Proof using L.
  intros [Ho Hv] (n & En & (v & Ev & [= <-])%rbind_Ok)%rbind_Ok.
  destruct (value1_back _ _ Hv Ev) as [B W]. cbn [name1 value1].
  apply oid_to_rasn_Ok in En as E. destruct E as [-> S].
  split; [by rewrite B|]. split; [split; [by apply pad_oid_wf|done]|done].
Qed.

Lemma collect_vb_is_ok vbs : Forall wf_vb vbs → is_ok (collect vb_to_rasn vbs) = forallb sendable_vb vbs.
Proof using L.
  intros H. rewrite collect_is_ok. induction H as [|vb vbs Hv _ IH]; cbn; [done|].
  by rewrite vb_is_ok, IH.
Qed.

Lemma collect_vb1_is_ok vbs : Forall wf_vb vbs → is_ok (varbinds_to_v1 vbs) = forallb sendable_vb vbs.
Proof using L.
  intros H. unfold varbinds_to_v1. rewrite collect_is_ok. induction H as [|vb vbs Hv _ IH]; cbn; [done|].
  by rewrite vb1_is_ok, IH.
Qed.

Lemma u32_of_in n : u32_of n = if in_u32 n then Ok n else Err EIntegerOverflow.
Proof. done. Qed.

Lemma to_rasn_is_ok p : wf_pdu p → is_ok (to_rasn p) = sendable_pdu p.
Proof using L.
  intros W. unfold to_rasn, sendable_pdu. rewrite <- collect_vb_is_ok by apply W. rewrite !u32_of_in.
  destruct (collect vb_to_rasn (variables p)); cbn; [|done].
  destruct (in_u32 (error_status p)); cbn; [|done].
  destruct (in_u32 (error_index p)); cbn; [|done].
  by destruct (pdu_type p).
Qed.

Lemma to_rasn_back p r : wf_pdu p → to_rasn p = Ok r →
  from_rasn r = Ok (pad_pdu p) ∧ wire_pdus r.
Proof using L.
  intros W (bs & Hb & (st & Hs & (ix & Hi & E)%rbind_Ok)%rbind_Ok)%rbind_Ok.
  pose proof (collect_back _ _ _ _ _ _ (λ x y Hx Hy, proj1 (vb_back x y Hx Hy)) (wf_vars p W) Hb) as B.
  pose proof (collect_Forall _ _ _ _ _ (λ x y Hx Hy, proj2 (vb_back x y Hx Hy)) (wf_vars p W) Hb) as V.
  rewrite u32_of_in in Hs, Hi.
  destruct (in_u32 (error_status p)) eqn:Es; [|done]. destruct (in_u32 (error_index p)) eqn:Ei; [|done].
  injection Hs as <-. injection Hi as <-. rewrite in_u32_iff in Es, Ei.
  pose proof (wf_id p W). destruct p as [t id s i vs v1]; cbn in *.
  destruct t; try done; injection E as <-; unfold from_rasn, from_std; cbn; rewrite B; done.
Qed.

Lemma to_v1_is_ok p : wf_pdu p → is_ok (to_v1_rasn p) = sendable_trap p.
Proof using L.
  intros W. unfold to_v1_rasn, sendable_trap. rewrite <- collect_vb1_is_ok by apply W.
  destruct (v1_trap p) as [t|]; cbn; [|by rewrite andb_false_r].
  destruct (varbinds_to_v1 (variables p)); cbn; [|done].
  unfold trap_to_rasn, oid_to_rasn, sendable_oid. by destruct (oid_encodable _).
Qed.

Lemma to_v1_back p r : wf_pdu p → to_v1_rasn p = Ok r →
  (∃ t, v1_trap p = Some t ∧
    from_v1_rasn r = Ok (mkPdu TrapV1 0 0 0 (map v1_vb (variables p)) (Some (pad_trap t)))) ∧
  wire_trap1 r.
Proof using L.
  intros W (t & Ht & (bs & Hb & (e & He & [= <-])%rbind_Ok)%rbind_Ok)%rbind_Ok.
  destruct (v1_trap p) as [t'|] eqn:Et; [|done]. injection Ht as ->.
  destruct (wf_v1 p W t Et) as (We & Wa & Wg & Ws & Wt).
  pose proof (wf_vars p W) as Wv. apply collect_Forall2 in Hb.
  assert (varbinds_from_v1 bs = map v1_vb (variables p) ∧
    Forall (λ vb, wire_oid (name1 vb) ∧ wire_value1 (value1 vb)) bs) as [HB HW].
  { revert Wv. clear - Hb L. induction Hb as [|x y l ys Hy F IH]; [done|].
    intros [Hx HP]%Forall_cons. destruct (vb1_back x y Hx Hy) as [B V]. destruct (IH HP) as [IB IV].
    split; [cbn; by rewrite B, <- IB|by constructor]. }
  pose proof (oid_to_rasn_wire _ _ We He). apply oid_to_rasn_Ok in He as [-> Hs].
  split; [|by split_and!].
  exists t. split; [done|]. unfold from_v1_rasn, trap_from_rasn. cbn.
  unfold is_u8, is_u32, is_i64 in *. rewrite !int_to_i64_ok by (unfold is_i64; lia). cbn.
  unfold u8_max, u32_max. Zbool. cbn. by rewrite HB.
Qed.
End Back.

Lemma version_code_back v : version_from_code (version_code v) = Ok v ∧ is_i64 (version_code v).
Proof. destruct v; done. Qed.

Section Messages.
Context {R : Rasn} {L : RasnLaws R}.

Lemma open_envelope_ok {D} (from : D → result Pdu Error) v c d p :
  from d = Ok p → open_envelope from (mkEnvelope (version_code v) c d) = Ok (mkMessage v c p).
Proof.
  intros E. unfold open_envelope. destruct (version_code_back v) as [B W]. cbn.
  rewrite int_to_i64_ok by done. cbn. rewrite B. cbn. by rewrite E.
Qed.

(** ** Messages read back *)

Lemma message_encode_back m : wf_message m → sendable m = true →
  ∃ bs, message_encode m = Ok bs ∧ is_bytes bs ∧ message_decode bs = Ok (on_the_wire m).
Proof using L.
  destruct m as [v c p]. intros [Wc Wp]. unfold sendable, message_encode, message_decode, on_the_wire. cbn in *.
  destruct (version_code_back v) as [_ Wv].
  destruct (bool_decide (v = V1) && bool_decide (pdu_type p = TrapV1)) eqn:E.
  - rewrite <- to_v1_is_ok by done. destruct (to_v1_rasn p) as [r|] eqn:Er; [|done]. intros _. cbn.
    destruct (to_v1_back p r Wp Er) as [(t & Et & B) Wr].
    destruct (v1_back _ c _ Wv Wc Wr) as (bs & -> & Hb & D1 & D2). exists bs. split_and!; [done..|].
    rewrite D2, D1. cbn. apply andb_true_iff in E as [->%bool_decide_eq_true_1 Ht%bool_decide_eq_true_1].
    rewrite Ht, Et. by apply open_envelope_ok.
  - rewrite <- to_rasn_is_ok by done. destruct (to_rasn p) as [r|] eqn:Er; [|done]. intros _. cbn.
    destruct (to_rasn_back p r Wp Er) as [B Wr].
    destruct (community_back _ c _ Wv Wc Wr) as (bs & -> & Hb & D). exists bs. split_and!; [done..|].
    rewrite D. erewrite open_envelope_ok by done. f_equal.
    destruct v; [|by destruct (pdu_type p)]. by destruct (pdu_type p).
Qed.

(** What is refused is refused by the conversions. *)
Lemma message_encode_refuses m : wf_message m → sendable m = false → is_ok (message_encode m) = false.
Proof using L.
  destruct m as [v c p]. intros [Wc Wp]. unfold sendable, message_encode. cbn in *.
  destruct (_ && _).
  - rewrite <- to_v1_is_ok by done. by destruct (to_v1_rasn p).
  - rewrite <- to_rasn_is_ok by done. by destruct (to_rasn p).
Qed.
End Messages.

(** Nothing is changed on the wire when no OID is short and, in a v1 trap, no
    value is foreign to SMIv1. *)
Definition long_oid (o : Oid) : Prop := (2 <= length o)%nat.
Definition long_vb (vb : VarBind) : Prop :=
  long_oid (vb_oid vb) ∧ match vb_value vb with VOid o => long_oid o | _ => True end.

Definition faithful (m : Message) : Prop :=
  Forall long_vb (variables (msg_pdu m)) ∧ v1_trap (msg_pdu m) = None.

Lemma pad_oid_long o : long_oid o → pad_oid o = o.
Proof. unfold long_oid, pad_oid. intros H. by destruct (Nat.ltb_spec (length o) 2); [lia|]. Qed.

Lemma pad_vb_long vb : long_vb vb → pad_vb vb = vb.
Proof.
  destruct vb as [o v]. intros [Ho Hv]. unfold pad_vb. cbn in *. rewrite pad_oid_long by done.
  destruct v; cbn; [done..| |done|done|done|done|done|done|done|done|done|done]. by rewrite pad_oid_long.
Qed.

Lemma map_id_Forall {A} (f : A → A) (P : A → Prop) l :
  (∀ x, P x → f x = x) → Forall P l → map f l = l.
Proof. intros Hf. induction 1 as [|x l Hx _ IH]; cbn; [done|]. by rewrite Hf, IH. Qed.

Lemma faithful_unchanged m : faithful m → on_the_wire m = m.
Proof.
  destruct m as [v c [t id s i vs v1]]. intros [H E]. unfold on_the_wire, pad_pdu. cbn in *. rewrite E.
  rewrite (map_id_Forall pad_vb long_vb) by (done || apply pad_vb_long). by destruct v, t.
Qed.

Lemma message_cases `{R : Rasn} `{!RasnLaws R} m : wf_message m →
  match message_encode m with
  | Ok bs => sendable m = true ∧ message_decode bs = Ok (on_the_wire m)
  | Err _ => sendable m = false
  end.
Proof.
  intros Wm. destruct (sendable m) eqn:Sm.
  - by destruct (message_encode_back m Wm Sm) as (bs & -> & _ & D).
  - pose proof (message_encode_refuses m Wm Sm) as E. by destruct (message_encode m).
Qed.

(** C13. A community message is encoded exactly when its OIDs form ASN.1 OIDs, its
    error fields fit, and a v1 trap travels in a v1 message; it is then read
    back, with OIDs of fewer than two arcs padded and, in a v1 trap, the values
    foreign to SMIv1 replaced, and otherwise unchanged. *)
Theorem message_roundtrip `{R : Rasn} `{!RasnLaws R} m : wf_message m →
  match message_encode m with
  | Ok bs => sendable m = true ∧ message_decode bs = Ok (on_the_wire m) ∧ (faithful m → on_the_wire m = m)
  | Err _ => sendable m = false
  end.
Proof.
  intros Wm. pose proof (message_cases m Wm) as H. destruct (message_encode m); [|done].
  destruct H. split_and!; [done..|apply faithful_unchanged].
Qed.
