(* ===== verification/Usm.v ===== *)
(** * The user-based security model's cryptography ([crates/netsnmp/src/usm/])

    Key derivation, the keyed MAC, key changes, AES privacy and the user
    record. The hash functions, HMAC and the block cipher are those of the
    RustCrypto crates: the operations of the class [Crypto], whose documented
    output lengths, and that decryption undoes encryption, are [CryptoLaws].
    Hashing in pieces is hashing the concatenation of the pieces. *)

From Stdlib Require Import ZArith Lia.
From S2P Require Import Prelude MachineInts Text Wire.

(** ** Protocols and levels *)

Inductive AuthProtocol := HmacMd5 | HmacSha1 | HmacSha256.
Inductive PrivProtocol := AesCfb128.
Inductive SecurityLevel := NoAuthNoPriv | AuthNoPriv | AuthPriv.

#[export] Instance auth_protocol_eq_dec : EqDecision AuthProtocol.
Proof. solve_decision. Defined.
#[export] Instance security_level_eq_dec : EqDecision SecurityLevel.
Proof. solve_decision. Defined.

(** The [msgFlags] bits. *)
Definition flag_bits (l : SecurityLevel) : Z :=
  match l with NoAuthNoPriv => 0 | AuthNoPriv => 1 | AuthPriv => 3 end.

Definition has_auth (l : SecurityLevel) : bool :=
  match l with AuthNoPriv | AuthPriv => true | NoAuthNoPriv => false end.

Definition has_priv (l : SecurityLevel) : bool :=
  match l with AuthPriv => true | _ => false end.

(** ** Third-party cryptography *)

Class Crypto := {
  digest : AuthProtocol → bytes → bytes;
  hmac : AuthProtocol → bytes → bytes → bytes;
  (** AES-128 in CFB mode under a key and an initialisation vector; [None] on
      a key or vector of another length. *)
  cfb_encrypt : bytes → bytes → bytes → option bytes;
  cfb_decrypt : bytes → bytes → bytes → option bytes;
}.

(** The output length of each hash function. *)
Definition hash_len (p : AuthProtocol) : nat :=
  match p with HmacMd5 => 16 | HmacSha1 => 20 | HmacSha256 => 32 end.

Class CryptoLaws (C : Crypto) : Prop := {
  digest_len : ∀ p data, length (digest p data) = hash_len p;
  digest_bytes : ∀ p data, is_bytes (digest p data);
  hmac_len : ∀ p key data, length (hmac p key data) = hash_len p;
  hmac_bytes : ∀ p key data, is_bytes (hmac p key data);
  cfb_inverse : ∀ key iv data, length key = 16%nat → length iv = 16%nat → is_bytes data →
    ∃ ct, cfb_encrypt key iv data = Some ct ∧ is_bytes ct ∧ length ct = length data ∧
      cfb_decrypt key iv ct = Some data;
}.

(** ** Keys from passwords *)

Definition KU_EXPANSION_BYTES : Z := 1048576.

(** [for b in buf.iter_mut()]: the next [n] octets of the repeated password,
    which is not empty. *)
Fixpoint fill_buf (n : nat) (password : bytes) (idx : Z) : bytes * Z :=
  match n with
  | O => ([], idx)
  | S n' =>
      let b := nth (Z.to_nat (idx mod Z.of_nat (length password))) password 0 in
      let '(rest, idx') := fill_buf n' password (idx + 1) in
      (b :: rest, idx')
  end.

(** [while count < KU_EXPANSION_BYTES]: what the hasher is fed. *)
Fixpoint ku_loop (fuel : nat) (password : bytes) (idx count : Z) : bytes :=
  match fuel with
  | O => []
  | S f =>
      if count <? KU_EXPANSION_BYTES then
        let '(buf, idx') := fill_buf 64 password idx in
        buf ++ ku_loop f password idx' (count + 64)
      else []
  end.

(** 16384 rounds of 64 octets, and the one that ends the loop. *)
Definition ku_fuel : nat := Z.to_nat 16385.

Definition ku_input (password : bytes) : bytes :=
  match password with [] => [] | _ => ku_loop ku_fuel password 0 0 end.

(** The wire length of a MAC. *)
Definition mac_len (p : AuthProtocol) : nat :=
  match p with HmacMd5 | HmacSha1 => 12 | HmacSha256 => 24 end.

(** [delta.iter_mut().zip(digest.iter())]. *)
Fixpoint xor_into (delta digest : bytes) : bytes :=
  match delta, digest with
  | d :: delta', h :: digest' => Z.lxor d h :: xor_into delta' digest'
  | _, _ => delta
  end.

(** ** Users *)

Record UsmUser := mkUser {
  user_name : text;
  user_auth : option (AuthProtocol * text);
  user_priv : option (PrivProtocol * text)
}.

Definition noauth_user (n : text) : UsmUser := mkUser n None None.
Definition auth_user (n : text) (p : AuthProtocol) (pw : text) : UsmUser := mkUser n (Some (p, pw)) None.
Definition auth_priv_user (n : text) (p : AuthProtocol) (pw : text) (q : PrivProtocol) (qw : text) : UsmUser :=
  mkUser n (Some (p, pw)) (Some (q, qw)).

(** [UsmUser::security_level]. *)
Definition security_level_of (u : UsmUser) : SecurityLevel :=
  match user_auth u, user_priv u with
  | Some _, Some _ => AuthPriv
  | Some _, None => AuthNoPriv
  | None, _ => NoAuthNoPriv
  end.

Section Keys.
Context {C : Crypto}.

Definition generate_ku (p : AuthProtocol) (password : bytes) : bytes := digest p (ku_input password).

(** [Kul = H(Ku || engineID || Ku)]. *)
Definition localize (p : AuthProtocol) (ku engine_id : bytes) : bytes := digest p (ku ++ engine_id ++ ku).

Definition localized_key (p : AuthProtocol) (password engine_id : bytes) : bytes :=
  localize p (generate_ku p password) engine_id.

(** [full[..self.mac_len()]]: a hash is never shorter ([mac_len_ok]). *)
Definition mac (p : AuthProtocol) (key message : bytes) : bytes := take (mac_len p) (hmac p key message).

Definition verify (p : AuthProtocol) (key message tag : bytes) : bool :=
  bool_decide (mac p key message = tag).

(** [None] is the failed assertion. *)
Definition key_change (p : AuthProtocol) (old_password new_password engine_id random : bytes) : option bytes :=
  let old_key := localized_key p old_password engine_id in
  let new_key := localized_key p new_password engine_id in
  let key_len := length old_key in
  if (length random <? key_len)%nat then None
  else
    let rnd := take key_len random in
    Some (rnd ++ xor_into new_key (digest p (old_key ++ rnd))).

(** ** Privacy *)

Definition key_len (p : PrivProtocol) : nat := match p with AesCfb128 => 16 end.

(** The vector: boots, time and up to eight octets of salt, the rest zero. *)
Definition aes_iv (boots time : Z) (salt : bytes) : bytes :=
  to_be_bytes 4 boots ++ to_be_bytes 4 time ++ take 8 salt ++ replicate (8 - length salt) 0.

Definition encrypt (p : PrivProtocol) (key : bytes) (boots time : Z) (salt plaintext : bytes) : result bytes Error :=
  if (length key <? key_len p)%nat then Err EPrivFailure
  else ok_or EPrivFailure (cfb_encrypt (take 16 key) (aes_iv boots time salt) plaintext).

Definition decrypt (p : PrivProtocol) (key : bytes) (boots time : Z) (salt ciphertext : bytes) : result bytes Error :=
  if (length key <? key_len p)%nat then Err EPrivFailure
  else if negb (length salt =? 8)%nat then Err EPrivFailure
  else ok_or EPrivFailure (cfb_decrypt (take 16 key) (aes_iv boots time salt) ciphertext).

(** ** A user's keys *)

Definition auth_key (u : UsmUser) (engine_id : bytes) : option bytes :=
  (fun '(p, pw) => localized_key p (as_bytes pw) engine_id) <$> user_auth u.

(** Derived with the hash of the authentication protocol, and truncated. *)
Definition priv_key (u : UsmUser) (engine_id : bytes) : option bytes :=
  let! (p, _) := user_auth u in
  let! (q, pw) := user_priv u in
  let key := localized_key p (as_bytes pw) engine_id in
  if (length key <? key_len q)%nat then None else Some (take (key_len q) key).
End Keys.

(** ** Password expansion *)

(** RFC 3414 A.2: octet [i] of the password repeated without end. *)
Definition repeated (password : bytes) (i : Z) : Z :=
  nth (Z.to_nat (i mod Z.of_nat (length password))) password 0.

Lemma fill_buf_spec n pw idx :
  fill_buf n pw idx = (map (repeated pw) (seqZ idx (Z.of_nat n)), idx + Z.of_nat n).
Proof.
  revert idx. induction n as [|n IH]; intros idx; cbn [fill_buf].
  { f_equal. lia. }
  rewrite IH, Nat2Z.inj_succ, (seqZ_cons idx (Z.succ (Z.of_nat n))) by lia. cbn [map].
  replace (Z.pred (Z.succ (Z.of_nat n))) with (Z.of_nat n) by lia.
  replace (Z.succ idx) with (idx + 1) by lia. f_equal. lia.
Qed.

Lemma ku_loop_spec f pw idx rounds :
  0 <= rounds < Z.of_nat f → idx + 64 * rounds = KU_EXPANSION_BYTES →
  ku_loop f pw idx idx = map (repeated pw) (seqZ idx (64 * rounds)).
Proof.
  revert idx rounds. induction f as [|f IH]; intros idx rounds Hr E; [lia|].
  cbn [ku_loop]. destruct (Z.ltb_spec idx KU_EXPANSION_BYTES) as [H|H].
  - rewrite fill_buf_spec. change (Z.of_nat 64) with 64. rewrite (IH (idx + 64) (rounds - 1)) by lia.
    rewrite <- map_app. f_equal.
    replace (64 * rounds) with (64 + 64 * (rounds - 1)) by lia.
    rewrite (seqZ_app idx 64 (64 * (rounds - 1))) by lia. done.
  - replace rounds with 0 by lia. done.
Qed.

Lemma ku_input_spec pw : pw ≠ [] → ku_input pw = map (repeated pw) (seqZ 0 KU_EXPANSION_BYTES).
Proof.
  intros H. unfold ku_input. destruct pw as [|b pw]; [done|].
  apply (ku_loop_spec _ _ _ 16384); [unfold ku_fuel; rewrite Z2Nat.id; lia|done].
Qed.

(** ** Keys *)

Lemma xor_into_length d h : length (xor_into d h) = length d.
Proof. revert h. induction d as [|x d IH]; intros [|y h]; cbn; auto. Qed.

Lemma xor_into_twice d h : xor_into (xor_into d h) h = d.
Proof.
  revert h. induction d as [|x d IH]; intros [|y h]; cbn; try done.
  rewrite IH, Z.lxor_assoc, Z.lxor_nilpotent, Z.lxor_0_r. done.
Qed.

Section KeyFacts.
Context {C : Crypto} {CL : CryptoLaws C}.

Lemma localized_key_len p pw e : length (localized_key p pw e) = hash_len p.
Proof using CL. apply digest_len. Qed.

Lemma mac_len_ok p key m : length (mac p key m) = mac_len p.
Proof using CL. unfold mac. rewrite length_take, hmac_len. by destruct p. Qed.

Lemma mac_bytes p key m : is_bytes (mac p key m).
Proof using CL. apply Forall_take, hmac_bytes. Qed.

Lemma verify_mac p key m : verify p key m (mac p key m) = true.
Proof. unfold verify. by apply bool_decide_eq_true_2. Qed.

Lemma priv_key_ok u e p pw q qw :
  user_auth u = Some (p, pw) → user_priv u = Some (q, qw) →
  ∃ k, priv_key u e = Some k ∧ length k = 16%nat.
Proof using CL.
  intros Ha Hp. unfold priv_key. rewrite Ha, Hp. cbn.
  rewrite localized_key_len. destruct p, q; cbn;
    (eexists; split; [done|rewrite length_take, localized_key_len; done]).
Qed.

Lemma aes_iv_len boots time salt : length (aes_iv boots time salt) = 16%nat.
Proof. unfold aes_iv, to_be_bytes.
  rewrite !length_app, length_take, length_replicate, !length_rev, !length_to_le_bytes. lia. Qed.

Lemma decrypt_encrypt q key boots time salt data :
  (16 <= length key)%nat → length salt = 8%nat → is_bytes data →
  ∃ ct, encrypt q key boots time salt data = Ok ct ∧ is_bytes ct ∧
    length ct = length data ∧ decrypt q key boots time salt ct = Ok data.
Proof using CL.
  intros Hk Hs Hd. unfold encrypt, decrypt. destruct q; cbn [key_len].
  destruct (Nat.ltb_spec (length key) 16) as [H|H]; [lia|].
  destruct (cfb_inverse (take 16 key) (aes_iv boots time salt) data) as (ct & E & Hb & Hl & D);
    [rewrite length_take; lia|apply aes_iv_len|done|].
  rewrite E. exists ct. split_and!; [done..|]. rewrite (proj2 (Nat.eqb_eq _ _) Hs). cbn [negb]. by rewrite D.
Qed.
End KeyFacts.

(** ** What a manager and an agent rely on *)

Section Properties.
Context {C : Crypto} {CL : CryptoLaws C}.

(** A key is the hash of the password repeated to 2^20 octets, localized to the
    engine; a key change carries random octets and the new key masked by the
    hash of the old key and those octets, so that the holder of the old key
    recovers exactly the new one, and too few random octets are refused. *)
Theorem key_change_recovers p old new engine random :
  new ≠ [] →
  let K pw := digest p (map (repeated pw) (seqZ 0 KU_EXPANSION_BYTES)) in
  localized_key p new engine = digest p (K new ++ engine ++ K new) ∧
  match key_change p old new engine random with
  | None => (length random < hash_len p)%nat
  | Some out =>
      length out = (2 * hash_len p)%nat ∧
      let r := take (hash_len p) out in
      r = take (hash_len p) random ∧
      xor_into (drop (hash_len p) out) (digest p (localized_key p old engine ++ r)) =
        localized_key p new engine
  end.
Proof using CL.
  intros Hn K. split.
  { unfold localized_key, localize, generate_ku, K. by rewrite ku_input_spec. }
  unfold key_change. rewrite localized_key_len.
  destruct (Nat.ltb_spec (length random) (hash_len p)) as [H|H]; [done|].
  assert (Hr : length (take (hash_len p) random) = hash_len p) by (rewrite length_take; lia).
  split; [rewrite length_app, xor_into_length, localized_key_len; lia|].
  rewrite take_app_le, drop_app_length' by lia. rewrite take_take, Nat.min_id.
  split; [done|]. apply xor_into_twice.
Qed.
End Properties.
