(* ===== verification/V3.v ===== *)
(** * SNMPv3 messages ([crates/netsnmp/src/v3/])

    The message's header, security parameters and scoped PDU; assembling a
    request, response, report or discovery message, with the scoped PDU
    encrypted and the MAC spliced in; reading one back, verified and decrypted;
    and the messages of the transport security model. The BER codec of the
    envelopes is the class [RasnV3]. The salt that the code draws at random is
    an argument. *)

From Stdlib Require Import ZArith Lia.
From S2P Require Import Prelude MachineInts Text Oid Value Config Pdu Wire Usm.

(** ** Types ([types.rs]) *)

Definition VERSION_V3 : Z := 3.
Definition SECURITY_MODEL_USM : Z := 3.
Definition DEFAULT_MAX_SIZE : Z := 65507.
Definition FLAG_AUTH : Z := 1.
Definition FLAG_PRIV : Z := 2.
Definition FLAG_REPORTABLE : Z := 4.

Record HeaderData := mkHeader {
  msg_id : Z;
  max_size : Z;
  flags : Z;
  security_model : Z
}.

Record UsmSecurityParameters := mkUsm {
  u_engine_id : bytes;
  u_engine_boots : Z;
  u_engine_time : Z;
  u_user_name : bytes;
  auth_params : bytes;
  priv_params : bytes
}.

Record ScopedPdu := mkScoped {
  context_engine_id : bytes;
  context_name : bytes;
  scoped_pdu : Pdu
}.

Record EngineParams := mkEngine { engine_id : bytes; engine_boots : Z; engine_time : Z }.

Record V3Message := mkV3Message {
  header : HeaderData;
  usm : UsmSecurityParameters;
  scoped : ScopedPdu
}.

(** [flags & bit != 0]. *)
Definition has_flag (f bit : Z) : bool := negb (Z.land f bit =? 0).

Definition reportable (m : V3Message) : bool := has_flag (flags (header m)) FLAG_REPORTABLE.

(** ** Wire types ([rasn_snmp::v3] and [wire.rs]) *)

Record RHeaderData := mkRHeader {
  rh_message_id : Z;
  rh_max_size : Z;
  rh_flags : bytes;
  rh_security_model : Z
}.

Record RUsmParameters := mkRUsm {
  ru_engine_id : bytes;
  ru_engine_boots : Z;
  ru_engine_time : Z;
  ru_user_name : bytes;
  ru_authentication_parameters : bytes;
  ru_privacy_parameters : bytes
}.

Record RScopedPdu := mkRScoped { rs_engine_id : bytes; rs_name : bytes; rs_data : Pdus }.

(** [scoped_data] is the TLV of the payload, kept as it came. *)
Record RawV3Message := mkRaw {
  raw_version : Z;
  global_data : RHeaderData;
  security_parameters : bytes;
  scoped_data : bytes
}.

(** [decode::<Vec<Any>>] splits a SEQUENCE into its elements. *)
Class RasnV3 := {
  rasn_base :: Rasn;
  decode_elements : bytes → option (list bytes);
  decode_integer : bytes → option Z;
  ber_usm : Codec RUsmParameters;
  ber_scoped : Codec RScopedPdu;
  ber_raw : Codec RawV3Message;
}.

(** ** Conversions *)

Section Types.
Context {R : RasnV3}.

Definition header_to_rasn (h : HeaderData) : RHeaderData :=
  mkRHeader (msg_id h) (max_size h) [flags h] (security_model h).

Definition header_from_rasn (h : RHeaderData) : result HeaderData Error :=
  let? id := int_to_i64 (rh_message_id h) in
  let? size := int_to_i64 (rh_max_size h) in
  let? model := int_to_i64 (rh_security_model h) in
  Ok (mkHeader (as_i32 id) (as_i32 size) (default 0 (head (rh_flags h))) (as_i32 model)).

Definition usm_to_rasn (u : UsmSecurityParameters) : RUsmParameters :=
  mkRUsm (u_engine_id u) (u_engine_boots u) (u_engine_time u) (u_user_name u) (auth_params u) (priv_params u).

Definition usm_from_rasn (p : RUsmParameters) : result UsmSecurityParameters Error :=
  let? boots := int_to_u32 (ru_engine_boots p) in
  let? time := int_to_u32 (ru_engine_time p) in
  Ok (mkUsm (ru_engine_id p) boots time (ru_user_name p) (ru_authentication_parameters p)
        (ru_privacy_parameters p)).

Definition usm_to_ber (u : UsmSecurityParameters) : result bytes Error := ber (encode ber_usm (usm_to_rasn u)).

Definition usm_decode_ber (bs : bytes) : result UsmSecurityParameters Error :=
  let? p := ber (decode ber_usm bs) in usm_from_rasn p.

Definition scoped_to_rasn (s : ScopedPdu) : result RScopedPdu Error :=
  let? data := to_rasn (scoped_pdu s) in
  Ok (mkRScoped (context_engine_id s) (context_name s) data).

Definition scoped_from_rasn (s : RScopedPdu) : result ScopedPdu Error :=
  let? p := from_rasn (rs_data s) in
  Ok (mkScoped (rs_engine_id s) (rs_name s) p).

Definition scoped_to_ber (s : ScopedPdu) : result bytes Error :=
  let? r := scoped_to_rasn s in ber (encode ber_scoped r).

Definition scoped_decode_ber (bs : bytes) : result ScopedPdu Error :=
  let? r := ber (decode ber_scoped bs) in scoped_from_rasn r.
End Types.

(** ** Building ([build.rs]) *)

Definition USM_STATS_PREFIX : Oid := [1; 3; 6; 1; 6; 3; 15; 1; 1].

Inductive UsmStat :=
| UnsupportedSecLevels | NotInTimeWindows | UnknownUserNames
| UnknownEngineIDs | WrongDigests | DecryptionErrors.

Definition subid (s : UsmStat) : Z :=
  match s with
  | UnsupportedSecLevels => 1 | NotInTimeWindows => 2 | UnknownUserNames => 3
  | UnknownEngineIDs => 4 | WrongDigests => 5 | DecryptionErrors => 6
  end.

Definition stat_oid (s : UsmStat) : Oid := USM_STATS_PREFIX ++ [subid s; 0].

Section Build.
Context {R : RasnV3} {C : Crypto}.

Definition raw_message (h : HeaderData) (security payload : bytes) : RawV3Message :=
  mkRaw VERSION_V3 (header_to_rasn h) security payload.

(** The closure [encode_with]. *)
Definition encode_with (h : HeaderData) (payload : bytes) (u : UsmSecurityParameters) : result bytes Error :=
  let? security := usm_to_ber u in
  ber (encode ber_raw (raw_message h security payload)).

Definition with_auth_params (a : bytes) (u : UsmSecurityParameters) : UsmSecurityParameters :=
  mkUsm (u_engine_id u) (u_engine_boots u) (u_engine_time u) (u_user_name u) a (priv_params u).

Definition assemble (h : HeaderData) (u : UsmSecurityParameters) (payload : bytes)
    (auth : option (AuthProtocol * bytes)) : result bytes Error :=
  match auth with
  | None => encode_with h payload u
  | Some (proto, key) =>
      let? zeroed := encode_with h payload u in
      let tag := mac proto key zeroed in
      encode_with h payload (with_auth_params (take (mac_len proto) tag) u)
  end.

Definition usm_header (id fl : Z) : HeaderData := mkHeader id DEFAULT_MAX_SIZE fl SECURITY_MODEL_USM.

Definition build_discovery (id request_id : Z) : result bytes Error :=
  let? payload := scoped_to_ber (mkScoped [] [] (new_pdu Get request_id)) in
  assemble (usm_header id FLAG_REPORTABLE) (mkUsm [] 0 0 [] [] []) payload None.

Definition context_engine (e : EngineParams) (context : bytes) : bytes :=
  match context with [] => engine_id e | _ => context end.

Definition message_flags (rep : bool) (level : SecurityLevel) : Z :=
  let f := if rep then FLAG_REPORTABLE else 0 in
  let f := if has_auth level then Z.lor f FLAG_AUTH else f in
  if has_priv level then Z.lor f FLAG_PRIV else f.

(** The payload and the privacy parameters. *)
Definition protect (level : SecurityLevel) (salt : bytes) (e : EngineParams)
    (priv : option (PrivProtocol * bytes)) (scoped_bytes : bytes) : result (bytes * bytes) Error :=
  if has_priv level then
    let? (proto, key) := ok_or EPrivFailure priv in
    let? ct := encrypt proto key (engine_boots e) (engine_time e) salt scoped_bytes in
    let? (t, rest) := ber (encode_octets ct) in
    Ok (t :: rest, salt)
  else Ok (scoped_bytes, []).

Definition auth_placeholder (level : SecurityLevel) (auth : option (AuthProtocol * bytes)) : result bytes Error :=
  if has_auth level then
    let? (proto, _) := ok_or EAuthFailure auth in
    Ok (replicate (mac_len proto) 0)
  else Ok [].

Definition build_message (id : Z) (rep : bool) (level : SecurityLevel) (name salt : bytes)
    (e : EngineParams) (context : bytes) (auth : option (AuthProtocol * bytes))
    (priv : option (PrivProtocol * bytes)) (p : Pdu) : result bytes Error :=
  let? scoped_bytes := scoped_to_ber (mkScoped (context_engine e context) [] p) in
  let? (payload, privp) := protect level salt e priv scoped_bytes in
  let? placeholder := auth_placeholder level auth in
  assemble (usm_header id (message_flags rep level))
    (mkUsm (engine_id e) (engine_boots e) (engine_time e) name placeholder privp) payload auth.

(** The keys that the user's level asks for. *)
Definition auth_of (level : SecurityLevel) (u : UsmUser) (e : EngineParams)
    : result (option (AuthProtocol * bytes)) Error :=
  if has_auth level then
    let? (proto, _) := ok_or EAuthFailure (user_auth u) in
    let? key := ok_or EAuthFailure (auth_key u (engine_id e)) in
    Ok (Some (proto, key))
  else Ok None.

Definition priv_of (level : SecurityLevel) (u : UsmUser) (e : EngineParams)
    : result (option (PrivProtocol * bytes)) Error :=
  if has_priv level then
    let? (proto, _) := ok_or EPrivFailure (user_priv u) in
    let? key := ok_or EPrivFailure (priv_key u (engine_id e)) in
    Ok (Some (proto, key))
  else Ok None.

Definition build_user_message (id : Z) (rep : bool) (u : UsmUser) (salt : bytes) (e : EngineParams)
    (context : bytes) (p : Pdu) : result bytes Error :=
  let level := security_level_of u in
  let? auth := auth_of level u e in
  let? priv := priv_of level u e in
  build_message id rep level (as_bytes (user_name u)) salt e context auth priv p.

Definition build_request (id : Z) (u : UsmUser) (salt : bytes) (e : EngineParams) (context : bytes) (p : Pdu) :=
  build_user_message id true u salt e context p.

Definition build_response (id : Z) (u : UsmUser) (salt : bytes) (e : EngineParams) (context : bytes) (p : Pdu) :=
  build_user_message id false u salt e context p.

(** No report is encrypted, so no salt is drawn. *)
Definition build_report (id : Z) (user : option UsmUser) (e : EngineParams) (stat : UsmStat)
    (count request_id : Z) : result bytes Error :=
  let p := with_var (new_pdu Report request_id) (stat_oid stat) (VCounter32 count) in
  match user with
  | Some u =>
      match has_auth (security_level_of u), user_auth u with
      | true, Some (proto, _) =>
          let? key := ok_or EAuthFailure (auth_key u (engine_id e)) in
          build_message id false AuthNoPriv (as_bytes (user_name u)) [] e (engine_id e) (Some (proto, key)) None p
      | _, _ => build_message id false NoAuthNoPriv [] [] e (engine_id e) None None p
      end
  | None => build_message id false NoAuthNoPriv [] [] e (engine_id e) None None p
  end.
End Build.

(** ** Parsing ([parse.rs]) *)

Section Parse.
Context {R : RasnV3} {C : Crypto}.

Definition message_version (bs : bytes) : result Z Error :=
  let? elements := ber (decode_elements bs) in
  let? first := ok_or EProtocol (head elements) in
  let? v := ber (decode_integer first) in
  int_to_i64 v.

Definition peek_security (bs : bytes) : result (HeaderData * UsmSecurityParameters) Error :=
  let? v := message_version bs in
  if negb (v =? VERSION_V3) then Err (EUnsupportedVersion v)
  else
    let? raw := ber (decode ber_raw bs) in
    let? h := header_from_rasn (global_data raw) in
    let? u := usm_decode_ber (security_parameters raw) in
    Ok (h, u).

(** Verification over the message with its MAC zeroed. *)
Definition check_auth (raw : RawV3Message) (u : UsmSecurityParameters) (user : option UsmUser) : result unit Error :=
  let? user := ok_or EAuthFailure user in
  let? (proto, _) := ok_or EAuthFailure (user_auth user) in
  let? key := ok_or EAuthFailure (auth_key user (u_engine_id u)) in
  let n := mac_len proto in
  if negb (length (auth_params u) =? n)%nat then Err EAuthFailure
  else
    let? security := usm_to_ber (with_auth_params (replicate n 0) u) in
    let? to_hash := ber (encode ber_raw (mkRaw (raw_version raw) (global_data raw) security (scoped_data raw))) in
    if verify proto key to_hash (auth_params u) then Ok tt else Err EAuthFailure.

Definition open_scoped (raw : RawV3Message) (fl : Z) (u : UsmSecurityParameters) (user : option UsmUser)
    : result ScopedPdu Error :=
  if has_flag fl FLAG_PRIV then
    let? ct := ber (decode_octets (scoped_data raw)) in
    let? user := ok_or EPrivFailure user in
    let? (proto, _) := ok_or EPrivFailure (user_priv user) in
    let? key := ok_or EPrivFailure (priv_key user (u_engine_id u)) in
    let? plaintext := decrypt proto key (u_engine_boots u) (u_engine_time u) (priv_params u) ct in
    scoped_decode_ber plaintext
  else scoped_decode_ber (scoped_data raw).

Definition parse (bs : bytes) (user : option UsmUser) : result V3Message Error :=
  let? raw := ber (decode ber_raw bs) in
  let? v := int_to_i64 (raw_version raw) in
  if negb (v =? VERSION_V3) then Err (EUnsupportedVersion v)
  else
    let? h := header_from_rasn (global_data raw) in
    let? u := usm_decode_ber (security_parameters raw) in
    let? _ := (if has_flag (flags h) FLAG_AUTH then check_auth raw u user else Ok tt) in
    let? s := open_scoped raw (flags h) u user in
    Ok (mkV3Message h u s).
End Parse.

(** ** The transport security model ([tsm.rs]) *)

Definition SECURITY_MODEL_TSM : Z := 4.

Section Tsm.
Context {R : RasnV3}.

Definition build_tsm_request (id : Z) (e : EngineParams) (context : bytes) (p : Pdu) : result bytes Error :=
  let? payload := scoped_to_ber (mkScoped (context_engine e context) [] p) in
  ber (encode ber_raw (raw_message (mkHeader id DEFAULT_MAX_SIZE FLAG_REPORTABLE SECURITY_MODEL_TSM) [] payload)).

Definition parse_tsm (bs : bytes) : result (HeaderData * ScopedPdu) Error :=
  let? raw := ber (decode ber_raw bs) in
  let? v := int_to_i64 (raw_version raw) in
  if negb (v =? VERSION_V3) then Err (EUnsupportedVersion v)
  else
    let? h := header_from_rasn (global_data raw) in
    if negb (security_model h =? SECURITY_MODEL_TSM) then Err EProtocol
    else
      let? s := scoped_decode_ber (scoped_data raw) in
      Ok (h, s).
End Tsm.

Inductive CertMapType := SnmpTlsIdentity | DnsName | CertIpAddress | Subject | SubjectAltName.

Record CertToTsnEntry := mkCert {
  fingerprint : text;
  map_type : CertMapType;
  cert_data : text;
  security_name : text
}.

(** [TsmCertMap::add]: the first row with the fingerprint is replaced. *)
Fixpoint cert_add (entry : CertToTsnEntry) (es : list CertToTsnEntry) : list CertToTsnEntry :=
  match es with
  | [] => [entry]
  | e :: es' =>
      if eq_ignore_case (fingerprint e) (fingerprint entry) then entry :: es' else e :: cert_add entry es'
  end.

Definition cert_map (es : list CertToTsnEntry) (f : text) : option text :=
  security_name <$> find (fun e => eq_ignore_case (fingerprint e) f) es.

Fixpoint text_strip_prefix (p s : text) : option text :=
  match p, s with
  | [], _ => Some s
  | a :: p', b :: s' => if a =? b then text_strip_prefix p' s' else None
  | _ :: _, [] => None
  end.

(** The value of the first [CN] component. *)
Fixpoint first_cn (rdns : list text) : option text :=
  match rdns with
  | [] => None
  | rdn :: rdns' =>
      let rdn := trim rdn in
      match text_strip_prefix (str "CN=") rdn with
      | Some rest => Some (trim rest)
      | None =>
          match text_strip_prefix (str "cn=") rdn with
          | Some rest => Some (trim rest)
          | None => first_cn rdns'
          end
      end
  end.

Definition extract_security_name (subject : text) : bytes :=
  as_bytes (default subject (first_cn (split 44 subject))).

(** ** What the source relies on *)

Section Wire.
Context {R : RasnV3}.

Definition wire_usm (p : RUsmParameters) : Prop :=
  is_bytes (ru_engine_id p) ∧ is_u32 (ru_engine_boots p) ∧ is_u32 (ru_engine_time p) ∧
  is_bytes (ru_user_name p) ∧ is_bytes (ru_authentication_parameters p) ∧ is_bytes (ru_privacy_parameters p).

Definition wire_scoped (s : RScopedPdu) : Prop :=
  is_bytes (rs_engine_id s) ∧ is_bytes (rs_name s) ∧ wire_pdus (rs_data s).

Definition wire_header (h : RHeaderData) : Prop :=
  is_i32 (rh_message_id h) ∧ is_i32 (rh_max_size h) ∧ is_bytes (rh_flags h) ∧ is_i32 (rh_security_model h).

(** A payload is a TLV: an encoded OCTET STRING or ScopedPDU. *)
Definition is_payload (bs : bytes) : Prop :=
  is_bytes bs ∧
  ((∃ b t rest, encode_octets b = Some (t, rest) ∧ bs = t :: rest) ∨
   (∃ s, encode ber_scoped s = Some bs)).

Definition wire_raw (m : RawV3Message) : Prop :=
  is_i64 (raw_version m) ∧ wire_header (global_data m) ∧ is_bytes (security_parameters m) ∧
  is_payload (scoped_data m).

(** The first element of the message is its version. *)
Definition leads_with (bs : bytes) (v : Z) : Prop :=
  ∃ first rest, decode_elements bs = Some (first :: rest) ∧ decode_integer first = Some v.
End Wire.

Class RasnV3Laws (R : RasnV3) : Prop := {
  v3_base :: RasnLaws rasn_base;
  usm_back : ∀ p, wire_usm p → reads_back ber_usm p;
  scoped_back : ∀ s, wire_scoped s → reads_back ber_scoped s;
  raw_back : ∀ m, wire_raw m → reads_back ber_raw m;
  raw_leads : ∀ m bs, encode ber_raw m = Some bs → leads_with bs (raw_version m);
  community_leads : ∀ m bs, encode ber_community m = Some bs → leads_with bs (e_version m);
  (** Nothing is no SEQUENCE. *)
  usm_nothing : decode ber_usm [] = None;
  v1_leads : ∀ m bs, encode ber_v1 m = Some bs → leads_with bs (e_version m);
}.

Record wf_usm (u : UsmSecurityParameters) : Prop := {
  wfu_engine : is_bytes (u_engine_id u);
  wfu_boots : is_u32 (u_engine_boots u);
  wfu_time : is_u32 (u_engine_time u);
  wfu_name : is_bytes (u_user_name u);
  wfu_auth : is_bytes (auth_params u);
  wfu_priv : is_bytes (priv_params u);
}.

Record wf_header (h : HeaderData) : Prop := {
  wfh_id : is_i32 (msg_id h);
  wfh_size : is_i32 (max_size h);
  wfh_flags : is_u8 (flags h);
  wfh_model : is_i32 (security_model h);
}.

Record wf_engine (e : EngineParams) : Prop := {
  wfe_id : is_bytes (engine_id e);
  wfe_boots : is_u32 (engine_boots e);
  wfe_time : is_u32 (engine_time e);
}.

(** ** The envelopes read back *)

Section Facts.
Context {R : RasnV3} {L : RasnV3Laws R}.

Lemma header_back h : wf_header h →
  header_from_rasn (header_to_rasn h) = Ok h ∧ wire_header (header_to_rasn h).
Proof.
  destruct h as [id size f model]. intros [Hi Hs Hf Hm]. cbn in *. unfold is_i32, is_u8 in *.
  unfold header_from_rasn, header_to_rasn. cbn.
  rewrite !int_to_i64_ok by (unfold is_i64; lia). cbn.
  rewrite !wrap_i_id by lia. split; [done|].
  unfold wire_header, is_bytes, is_u8, is_i32. cbn. rewrite Forall_singleton. lia.
Qed.

Lemma usm_ber_back u : wf_usm u →
  ∃ bs, usm_to_ber u = Ok bs ∧ is_bytes bs ∧ usm_decode_ber bs = Ok u.
Proof using L.
  intros [He Hb Ht Hn Ha Hp]. unfold usm_to_ber, usm_decode_ber.
  destruct (usm_back (usm_to_rasn u)) as (bs & -> & Hbs & D); [by split_and!|].
  exists bs. split_and!; [done..|]. rewrite D. cbn. unfold usm_from_rasn, usm_to_rasn. cbn.
  rewrite !int_to_u32_ok by done. cbn. by destruct u.
Qed.

Lemma scoped_ber_back s : is_bytes (context_engine_id s) → is_bytes (context_name s) →
  wf_pdu (scoped_pdu s) → sendable_pdu (scoped_pdu s) = true →
  ∃ bs, scoped_to_ber s = Ok bs ∧ is_payload bs ∧
    scoped_decode_ber bs = Ok (mkScoped (context_engine_id s) (context_name s) (pad_pdu (scoped_pdu s))).
Proof using L.
  intros He Hn Hp Hs. unfold scoped_to_ber, scoped_to_rasn, scoped_decode_ber.
  rewrite <- to_rasn_is_ok in Hs by done. destruct (to_rasn (scoped_pdu s)) as [r|] eqn:Er; [|done]. cbn.
  destruct (to_rasn_back _ _ Hp Er) as [B W].
  destruct (scoped_back (mkRScoped (context_engine_id s) (context_name s) r)) as (bs & E & Hb & D); [by split_and!|].
  rewrite E. exists bs. split_and!; [done| |].
  - split; [done|]. right. by eexists.
  - rewrite D. cbn. unfold scoped_from_rasn. cbn. by rewrite B.
Qed.

Lemma encode_with_back h payload u : wf_header h → wf_usm u → is_payload payload →
  ∃ bs sec, encode_with h payload u = Ok bs ∧ is_bytes bs ∧ leads_with bs VERSION_V3 ∧
    usm_to_ber u = Ok sec ∧ usm_decode_ber sec = Ok u ∧
    decode ber_raw bs = Some (raw_message h sec payload).
Proof using L.
  intros Wh Wu Wp. destruct (usm_ber_back u Wu) as (sec & E & Hb & D). unfold encode_with. rewrite E. cbn.
  destruct (header_back h Wh) as [_ Wr].
  destruct (raw_back (raw_message h sec payload)) as (bs & Eb & Hbs & Db); [by split_and!|].
  exists bs, sec. rewrite Eb. split_and!; try done. by eapply (raw_leads _ _ Eb).
Qed.

Lemma message_version_leads bs v : leads_with bs v → is_i64 v → message_version bs = Ok v.
Proof.
  intros (f & r & E & D) H. unfold message_version. rewrite E. cbn. rewrite D. cbn. by apply int_to_i64_ok.
Qed.

(** The envelope is what both readers start with. *)
Lemma peek_back bs h sec payload u : wf_header h → leads_with bs VERSION_V3 →
  decode ber_raw bs = Some (raw_message h sec payload) → usm_decode_ber sec = Ok u →
  peek_security bs = Ok (h, u).
Proof.
  intros Wh Hl Hd Hu. unfold peek_security. rewrite (message_version_leads _ _ Hl) by done. cbn.
  rewrite Hd. cbn. rewrite (proj1 (header_back h Wh)). cbn. by rewrite Hu.
Qed.

Lemma parse_raw `{!Crypto} bs h sec payload u user : wf_header h →
  decode ber_raw bs = Some (raw_message h sec payload) → usm_decode_ber sec = Ok u →
  parse bs user =
    (let? _ := (if has_flag (flags h) FLAG_AUTH then check_auth (raw_message h sec payload) u user else Ok tt) in
     let? s := open_scoped (raw_message h sec payload) (flags h) u user in
     Ok (mkV3Message h u s)).
Proof.
  intros Wh Hd Hu. unfold parse. rewrite Hd. cbn. rewrite (proj1 (header_back h Wh)). cbn. by rewrite Hu.
Qed.
End Facts.

Section Protected.
Context {R : RasnV3} {L : RasnV3Laws R} {C : Crypto} {CL : CryptoLaws C}.

Lemma with_auth_params_wf a u : wf_usm u → is_bytes a → wf_usm (with_auth_params a u).
Proof. intros [] ?. by split. Qed.

Lemma zeros_bytes n : is_bytes (replicate n 0).
Proof. apply Forall_replicate. unfold is_u8. lia. Qed.

(** The MAC that [assemble] splices in is the one that [check_auth] computes. *)
Lemma assemble_auth h u payload proto key pw user : wf_header h → wf_usm u → is_payload payload →
  auth_params u = replicate (mac_len proto) 0 →
  user_auth user = Some (proto, pw) → auth_key user (u_engine_id u) = Some key →
  ∃ bs sec tag, assemble h u payload (Some (proto, key)) = Ok bs ∧ is_bytes bs ∧
    leads_with bs VERSION_V3 ∧ length tag = mac_len proto ∧ is_bytes tag ∧
    decode ber_raw bs = Some (raw_message h sec payload) ∧
    usm_decode_ber sec = Ok (with_auth_params tag u) ∧
    check_auth (raw_message h sec payload) (with_auth_params tag u) (Some user) = Ok tt.
Proof using L CL.
  intros Wh Wu Wp Ha Hu Hk.
  destruct (encode_with_back h payload u Wh Wu Wp) as (zeroed & sz & Ez & _ & _ & Esz & _ & Dz).
  set (tag := mac proto key zeroed).
  assert (Wt : wf_usm (with_auth_params tag u)) by (apply with_auth_params_wf; [done|apply mac_bytes]).
  destruct (encode_with_back h payload _ Wh Wt Wp) as (bs & sec & Eb & Hb & Hl & _ & Ds & Db).
  assert (Ht : length tag = mac_len proto) by apply mac_len_ok.
  exists bs, sec, tag. unfold assemble. rewrite Ez. cbn. fold tag.
  rewrite (take_ge tag) by lia. split_and!; try done; [apply mac_bytes|].
  unfold check_auth. cbn [ok_or rbind]. rewrite Hu. cbn [ok_or rbind].
  replace (u_engine_id (with_auth_params tag u)) with (u_engine_id u) by done.
  rewrite Hk. cbn [ok_or rbind]. replace (auth_params (with_auth_params tag u)) with tag by done.
  rewrite Ht, Nat.eqb_refl. cbn [negb].
  replace (with_auth_params (replicate (mac_len proto) 0) (with_auth_params tag u)) with u
    by (rewrite <- Ha; by destruct u).
  rewrite Esz. cbn [rbind]. unfold encode_with in Ez. rewrite Esz in Ez. cbn [rbind] in Ez.
  unfold raw_message in Ez. cbn [raw_version global_data scoped_data raw_message]. rewrite Ez. cbn [rbind].
  unfold tag. by rewrite verify_mac.
Qed.

Lemma flag_auth rep level : has_flag (message_flags rep level) FLAG_AUTH = has_auth level.
Proof. by destruct rep, level. Qed.

Lemma flag_priv rep level : has_flag (message_flags rep level) FLAG_PRIV = has_priv level.
Proof. by destruct rep, level. Qed.

Lemma flags_u8 rep level : is_u8 (message_flags rep level).
Proof. destruct rep, level; vm_compute; (split; congruence). Qed.

(** The keys handed to the builder are the user's, where the level needs them. *)
Definition auth_ok (level : SecurityLevel) (u : UsmUser) (eid : bytes) (auth : option (AuthProtocol * bytes)) : Prop :=
  if has_auth level
  then ∃ proto pw key, user_auth u = Some (proto, pw) ∧ auth_key u eid = Some key ∧ auth = Some (proto, key)
  else auth = None.

Definition priv_ok (level : SecurityLevel) (u : UsmUser) (eid : bytes) (priv : option (PrivProtocol * bytes)) : Prop :=
  has_priv level = true → ∃ proto pw key, user_priv u = Some (proto, pw) ∧ priv_key u eid = Some key ∧
    length key = 16%nat ∧ priv = Some (proto, key).

Lemma protect_back level salt e u priv sb : wf_engine e → length salt = 8%nat → is_bytes salt →
  priv_ok level u (engine_id e) priv → is_payload sb →
  ∃ payload privp, protect level salt e priv sb = Ok (payload, privp) ∧ is_payload payload ∧ is_bytes privp ∧
    ∀ raw fl up user, scoped_data raw = payload → u_engine_id up = engine_id e →
      u_engine_boots up = engine_boots e → u_engine_time up = engine_time e → priv_params up = privp →
      has_flag fl FLAG_PRIV = has_priv level → (has_priv level = true → user = Some u) →
      open_scoped raw fl up user = scoped_decode_ber sb.
Proof using L CL.
  intros We Hl Hs Hp Hb. unfold protect, open_scoped, priv_ok in *. destruct (has_priv level).
  - destruct (Hp eq_refl) as (proto & pw & key & Hu & Hk & Hlen & ->). cbn [ok_or rbind].
    destruct (decrypt_encrypt proto key (engine_boots e) (engine_time e) salt sb) as (ct & E & Hct & _ & D);
      [lia|done|apply Hb|]. rewrite E. cbn [rbind].
    destruct (octets_back ct Hct) as (t & r & Eo & Ho & Do & _). rewrite Eo. cbn [ber ok_or rbind].
    exists (t :: r), salt. split_and!; [done|split; [done|left; eauto]|done|].
    intros raw fl up user -> He1 He2 He3 -> -> ->; [|done]. rewrite Do. cbn [ber ok_or rbind].
    rewrite Hu. cbn [ok_or rbind]. rewrite He1, Hk. cbn [ok_or rbind]. by rewrite He2, He3, D.
  - exists sb, []. split_and!; [done|done|by constructor|]. intros raw fl up user -> _ _ _ _ -> _. done.
Qed.

Lemma parse_tsm_usm bs h sec payload : wf_header h → security_model h = SECURITY_MODEL_USM →
  decode ber_raw bs = Some (raw_message h sec payload) → parse_tsm bs = Err EProtocol.
Proof.
  intros Wh Hm D. unfold parse_tsm. rewrite D. cbn -[header_from_rasn].
  rewrite (proj1 (header_back h Wh)). cbn -[Z.eqb]. by rewrite Hm.
Qed.

(** Whatever is built reads back for the user whose keys were used. *)
Lemma build_message_back id rep level name salt e ctx auth priv p u :
  is_i32 id → is_bytes name → length salt = 8%nat → is_bytes salt → wf_engine e → is_bytes ctx →
  wf_pdu p → sendable_pdu p = true →
  auth_ok level u (engine_id e) auth → priv_ok level u (engine_id e) priv →
  ∃ bs tag privp,
    let h := usm_header id (message_flags rep level) in
    let up := mkUsm (engine_id e) (engine_boots e) (engine_time e) name tag privp in
    let m := mkV3Message h up (mkScoped (context_engine e ctx) [] (pad_pdu p)) in
    build_message id rep level name salt e ctx auth priv p = Ok bs ∧ is_bytes bs ∧
    peek_security bs = Ok (h, up) ∧ parse bs (Some u) = Ok m ∧
    (level = NoAuthNoPriv → ∀ user, parse bs user = Ok m) ∧ parse_tsm bs = Err EProtocol.
Proof using L CL.
  intros Hi Hn Hl Hs We Hc Wp Sp Ha Hp. unfold build_message.
  assert (Hctx : is_bytes (context_engine e ctx)) by (destruct ctx; [apply We|done]).
  destruct (scoped_ber_back (mkScoped (context_engine e ctx) [] p)) as (sb & Esb & Hsb & Dsb);
    [done|by constructor|done|done|]. rewrite Esb. cbn [rbind context_engine_id context_name scoped_pdu] in *.
  destruct (protect_back level salt e u priv sb We Hl Hs Hp Hsb) as (payload & privp & Epr & Hpl & Hpp & Hopen).
  rewrite Epr. cbn [rbind].
  assert (Wh : wf_header (usm_header id (message_flags rep level))).
  { split; cbn; [done|unfold is_i32, DEFAULT_MAX_SIZE; lia|apply flags_u8|unfold is_i32, SECURITY_MODEL_USM; lia]. }
  unfold auth_placeholder. unfold auth_ok in Ha. destruct (has_auth level) eqn:Ea.
  - destruct Ha as (proto & pw & key & Hu & Hk & ->). cbn [ok_or rbind].
    destruct (assemble_auth (usm_header id (message_flags rep level))
      (mkUsm (engine_id e) (engine_boots e) (engine_time e) name (replicate (mac_len proto) 0) privp)
      payload proto key pw u Wh) as (bs & sec & tag & Eb & Hb & Hld & Ht & Htb & Db & Ds & Hck); try done;
      [split; cbn; try apply We; [done|apply zeros_bytes|done]|].
    rewrite Eb. exists bs, tag, privp. cbn zeta.
    assert (P : parse bs (Some u) = Ok (mkV3Message (usm_header id (message_flags rep level))
      (mkUsm (engine_id e) (engine_boots e) (engine_time e) name tag privp)
      (mkScoped (context_engine e ctx) [] (pad_pdu p)))).
    { rewrite (parse_raw _ _ _ _ _ (Some u) Wh Db Ds). cbn [flags usm_header]. rewrite flag_auth, Ea.
      unfold with_auth_params in *. cbn in Hck |- *. rewrite Hck. cbn [rbind].
      rewrite (Hopen (raw_message _ sec payload)) by (done || apply flag_priv). by rewrite Dsb. }
    split_and!; [done..| |done|by intros ->|by eapply parse_tsm_usm]. by eapply peek_back.
  - subst auth. cbn [assemble rbind].
    destruct (encode_with_back (usm_header id (message_flags rep level)) payload
      (mkUsm (engine_id e) (engine_boots e) (engine_time e) name [] privp) Wh) as (bs & sec & Eb & Hb & Hld & _ & Ds & Db).
    { split; cbn; try apply We; [done|by constructor|done]. }
    { done. }
    rewrite Eb. exists bs, [], privp. cbn zeta.
    assert (P : ∀ user, (has_priv level = true → user = Some u) →
      parse bs user = Ok (mkV3Message (usm_header id (message_flags rep level))
        (mkUsm (engine_id e) (engine_boots e) (engine_time e) name [] privp)
        (mkScoped (context_engine e ctx) [] (pad_pdu p)))).
    { intros user Hus. rewrite (parse_raw _ _ _ _ _ user Wh Db Ds). cbn [flags usm_header]. rewrite flag_auth, Ea. cbn [rbind].
      rewrite (Hopen (raw_message _ sec payload)) by (done || apply flag_priv). by rewrite Dsb. }
    split_and!; [done..| |by apply P|intros ->; intros user; by apply P|by eapply parse_tsm_usm].
    by eapply peek_back.
Qed.

(** ** Users, reports and discovery *)

Lemma auth_of_ok u e : ∃ auth, auth_of (security_level_of u) u e = Ok auth ∧
  auth_ok (security_level_of u) u (engine_id e) auth.
Proof using CL.
  unfold auth_of, auth_ok, auth_key, security_level_of.
  destruct (user_auth u) as [[proto pw]|], (user_priv u) as [[q qw]|]; cbn; eauto 10.
Qed.

Lemma priv_of_ok u e : ∃ priv, priv_of (security_level_of u) u e = Ok priv ∧
  priv_ok (security_level_of u) u (engine_id e) priv.
Proof using CL.
  unfold priv_of, priv_ok, security_level_of.
  destruct (user_auth u) as [[proto pw]|] eqn:Ha, (user_priv u) as [[q qw]|] eqn:Hp; cbn;
    [|by eexists..].
  destruct (priv_key_ok u (engine_id e) proto pw q qw Ha Hp) as (k & Ek & Hk).
  rewrite Ek. cbn. eauto 10.
Qed.

(** A message of a user. *)
Definition user_message (id : Z) (rep : bool) (u : UsmUser) (e : EngineParams) (ctx : bytes) (p : Pdu)
    (tag privp : bytes) : V3Message :=
  mkV3Message (usm_header id (message_flags rep (security_level_of u)))
    (mkUsm (engine_id e) (engine_boots e) (engine_time e) (as_bytes (user_name u)) tag privp)
    (mkScoped (context_engine e ctx) [] (pad_pdu p)).

Lemma user_message_back id rep u salt e ctx p :
  is_i32 id → is_text (user_name u) → length salt = 8%nat → is_bytes salt → wf_engine e → is_bytes ctx →
  wf_pdu p → sendable_pdu p = true →
  ∃ bs tag privp, build_user_message id rep u salt e ctx p = Ok bs ∧ is_bytes bs ∧
    let m := user_message id rep u e ctx p tag privp in
    peek_security bs = Ok (header m, usm m) ∧ parse bs (Some u) = Ok m ∧ parse_tsm bs = Err EProtocol.
Proof using L CL.
  intros Hi Hn Hl Hs We Hc Wp Sp. unfold build_user_message.
  destruct (auth_of_ok u e) as (auth & -> & Ha). destruct (priv_of_ok u e) as (priv & -> & Hp). cbn [rbind].
  destruct (build_message_back id rep (security_level_of u) (as_bytes (user_name u)) salt e ctx auth priv p u)
    as (bs & tag & privp & Eb & Hb & Hk & Hm & _ & Ht); [done|by apply is_bytes_as_bytes|done..|].
  by exists bs, tag, privp.
Qed.

Lemma user_message_refused id rep u salt e ctx p : wf_pdu p → sendable_pdu p = false →
  is_ok (build_user_message id rep u salt e ctx p) = false.
Proof using L CL.
  intros Wp Sp. unfold build_user_message.
  destruct (auth_of_ok u e) as (auth & -> & _). destruct (priv_of_ok u e) as (priv & -> & _). cbn [rbind].
  unfold build_message, scoped_to_ber, scoped_to_rasn. cbn [scoped_pdu].
  rewrite <- to_rasn_is_ok in Sp by done. by destruct (to_rasn p).
Qed.

Definition report_pdu (request_id : Z) (stat : UsmStat) (count : Z) : Pdu :=
  with_var (new_pdu Report request_id) (stat_oid stat) (VCounter32 count).

Lemma report_pdu_ok request_id stat count : is_i32 request_id → is_u32 count →
  wf_pdu (report_pdu request_id stat count) ∧ sendable_pdu (report_pdu request_id stat count) = true ∧
  pad_pdu (report_pdu request_id stat count) = report_pdu request_id stat count.
Proof using L.
  intros Hi Hc.
  assert (W : Oid.wf (stat_oid stat)) .
  { unfold Oid.wf, stat_oid, USM_STATS_PREFIX, is_u32. cbn [app]. rewrite !Forall_cons.
    destruct stat; cbn [subid]; split_and!; (lia || constructor). }
  split_and!.
  - split; cbn; try done; try (unfold is_i64; lia). by apply Forall_singleton.
  - unfold sendable_pdu, report_pdu. cbn. unfold sendable_vb. cbn [vb_oid vb_value sendable_value].
    rewrite sendable_oid_small by (done || (cbn; lia)). done.
  - done.
Qed.

(** Reports are authenticated for a user with a key, and never encrypted. *)
Lemma report_back id user e stat count request_id :
  is_i32 id → wf_engine e → is_i32 request_id → is_u32 count →
  (∀ u, user = Some u → is_text (user_name u)) →
  let auth := match user with Some u => has_auth (security_level_of u) | None => false end in
  ∃ bs m, build_report id user e stat count request_id = Ok bs ∧ is_bytes bs ∧
    header m = usm_header id (message_flags false (if auth then AuthNoPriv else NoAuthNoPriv)) ∧
    u_engine_id (usm m) = engine_id e ∧ u_engine_boots (usm m) = engine_boots e ∧
    u_engine_time (usm m) = engine_time e ∧
    scoped_pdu (scoped m) = report_pdu request_id stat count ∧
    parse bs user = Ok m ∧ (auth = false → ∀ user', parse bs user' = Ok m).
Proof using L CL.
  intros Hi We Hr Hc Hu auth.
  destruct (report_pdu_ok request_id stat count Hr Hc) as (Wp & Sp & Ep).
  unfold build_report. fold (report_pdu request_id stat count).
  assert (Plain : ∃ bs m, build_message id false NoAuthNoPriv [] [] e (engine_id e) None None
      (report_pdu request_id stat count) = Ok bs ∧ is_bytes bs ∧
      header m = usm_header id (message_flags false NoAuthNoPriv) ∧
      u_engine_id (usm m) = engine_id e ∧ u_engine_boots (usm m) = engine_boots e ∧
      u_engine_time (usm m) = engine_time e ∧ scoped_pdu (scoped m) = report_pdu request_id stat count ∧
      ∀ user', parse bs user' = Ok m).
  { destruct (build_message_back id false NoAuthNoPriv [] (replicate 8 0) e (engine_id e) None None
      (report_pdu request_id stat count) (noauth_user [])) as (bs & tag & privp & Eb & Hb & _ & _ & Hp & _);
      [done|by constructor|done|apply zeros_bytes|done|apply We|done|done|done|done|].
    rewrite <- Ep. eexists bs, _. split; [done|]. rewrite Ep. split_and!; [done| | | | | |by apply Hp]; done. }
  destruct user as [u|]; subst auth; cbn [negb].
  2:{ destruct Plain as (bs & m & ? & ? & ? & ? & ? & ? & ? & Hp). by exists bs, m. }
  destruct (has_auth (security_level_of u)) eqn:Ea.
  2:{ destruct Plain as (bs & m & ? & ? & ? & ? & ? & ? & ? & Hp). exists bs, m. by destruct (user_auth u). }
  destruct (user_auth u) as [[proto pw]|] eqn:Eu; [|by unfold security_level_of in Ea; rewrite Eu in Ea].
  unfold auth_key at 1. rewrite Eu. cbn [fmap option_fmap option_map ok_or rbind].
  destruct (build_message_back id false AuthNoPriv (as_bytes (user_name u)) (replicate 8 0) e (engine_id e)
    (Some (proto, localized_key proto (as_bytes pw) (engine_id e))) None (report_pdu request_id stat count) u)
    as (bs & tag & privp & Eb & Hb & _ & Hp & _);
    [done|by apply is_bytes_as_bytes, Hu|done|apply zeros_bytes|done|apply We|done|done| |done|].
  { exists proto, pw, (localized_key proto (as_bytes pw) (engine_id e)). unfold auth_key. by rewrite Eu. }
  eexists bs, _. split; [done|]. split_and!; [done| | | | | |by apply Hp|done]; done.
Qed.

(** ** What the message format promises *)

(** C12. A message built for a user reads back for that user: the security
    parameters can be read without a key, and the scoped PDU is the one that
    was sent, under the flags of the user's level. A PDU that the wire cannot
    carry is refused before anything is sent. *)
Theorem user_message_roundtrip id rep u salt e ctx p :
  is_i32 id → is_text (user_name u) → length salt = 8%nat → is_bytes salt → wf_engine e → is_bytes ctx →
  wf_pdu p →
  if sendable_pdu p then
    ∃ bs m, build_user_message id rep u salt e ctx p = Ok bs ∧
      peek_security bs = Ok (header m, usm m) ∧ parse bs (Some u) = Ok m ∧
      scoped m = mkScoped (context_engine e ctx) [] (pad_pdu p) ∧
      msg_id (header m) = id ∧ reportable m = rep ∧
      has_flag (flags (header m)) FLAG_AUTH = has_auth (security_level_of u) ∧
      has_flag (flags (header m)) FLAG_PRIV = has_priv (security_level_of u) ∧
      u_user_name (usm m) = as_bytes (user_name u) ∧ u_engine_id (usm m) = engine_id e ∧
      u_engine_boots (usm m) = engine_boots e ∧ u_engine_time (usm m) = engine_time e
  else is_ok (build_user_message id rep u salt e ctx p) = false.
Proof using L CL.
  intros Hi Hn Hl Hs We Hc Wp. destruct (sendable_pdu p) eqn:Sp; [|by apply user_message_refused].
  destruct (user_message_back id rep u salt e ctx p Hi Hn Hl Hs We Hc Wp Sp) as (bs & tag & privp & Eb & _ & Hk & Hm & _).
  exists bs, (user_message id rep u e ctx p tag privp). split_and!; try done; cbn.
  - unfold reportable. cbn. by destruct rep, (security_level_of u).
  - apply flag_auth.
  - apply flag_priv.
Qed.

(** C11. The MAC of an accepted message covers the whole message with the MAC's own
    octets zeroed. A message that claims neither authentication nor privacy is
    read the same whoever it names. *)
Theorem parse_authentic bs u m : parse bs (Some u) = Ok m →
  (has_flag (flags (header m)) FLAG_AUTH = true →
    ∃ raw proto pw key security covered,
      decode ber_raw bs = Some raw ∧ user_auth u = Some (proto, pw) ∧
      key = localized_key proto (as_bytes pw) (u_engine_id (usm m)) ∧
      usm_to_ber (with_auth_params (replicate (mac_len proto) 0) (usm m)) = Ok security ∧
      encode ber_raw (mkRaw (raw_version raw) (global_data raw) security (scoped_data raw)) = Some covered ∧
      auth_params (usm m) = mac proto key covered) ∧
  (has_flag (flags (header m)) FLAG_AUTH = false → has_flag (flags (header m)) FLAG_PRIV = false →
    ∀ user, parse bs user = Ok m).
Proof.
  unfold parse. intros (raw & Hraw & H)%rbind_Ok. rewrite Hraw. cbn [rbind].
  apply rbind_Ok in H as (v & Hv & H). rewrite Hv. cbn [rbind].
  destruct (negb (v =? VERSION_V3)); [done|].
  apply rbind_Ok in H as (h & Hh & H). rewrite Hh. cbn [rbind].
  apply rbind_Ok in H as (up & Hu & H). rewrite Hu. cbn [rbind].
  apply rbind_Ok in H as (t & Hc & (s & Hs & [= <-])%rbind_Ok). cbn [header usm scoped].
  split.
  - intros Hf. rewrite Hf in Hc. unfold check_auth in Hc. cbn [ok_or rbind] in Hc.
    apply rbind_Ok in Hc as ([proto pw] & Ha & Hc).
    destruct (user_auth u) as [[proto' pw']|] eqn:Eu; [|done]. injection Ha as -> ->.
    unfold auth_key in Hc. rewrite Eu in Hc. cbn [fmap option_fmap option_map ok_or rbind] in Hc.
    destruct (negb _); [done|].
    apply rbind_Ok in Hc as (sec & Hsec & (cov & Hcov & Hver)%rbind_Ok).
    destruct (verify _ _ _ _) eqn:Ev; [|done]. apply bool_decide_eq_true_1 in Ev.
    destruct (decode ber_raw bs) as [raw'|] eqn:Er; [|done]. injection Hraw as ->.
    destruct (encode ber_raw _) as [c'|] eqn:Ec; [|done]. injection Hcov as ->.
    by exists raw, proto, pw, (localized_key proto (as_bytes pw) (u_engine_id up)), sec, cov.
  - intros Hfa Hfp user. unfold open_scoped in *. rewrite Hfa. rewrite Hfp in *. cbn [rbind]. by rewrite Hs.
Qed.

(** ** The two security models *)

(** A transport-model request reads back as one, the USM reader refuses it,
    and the transport-model reader refuses every USM message. *)
Theorem security_models_apart id e ctx p u salt rep :
  is_i32 id → wf_engine e → is_bytes ctx → wf_pdu p → sendable_pdu p = true →
  is_text (user_name u) → length salt = 8%nat → is_bytes salt →
  (∃ bs h, build_tsm_request id e ctx p = Ok bs ∧ msg_id h = id ∧
    has_flag (flags h) FLAG_AUTH = false ∧ has_flag (flags h) FLAG_PRIV = false ∧
    parse_tsm bs = Ok (h, mkScoped (context_engine e ctx) [] (pad_pdu p)) ∧
    ∀ user, is_ok (parse bs user) = false) ∧
  (∀ bs, build_user_message id rep u salt e ctx p = Ok bs → parse_tsm bs = Err EProtocol).
Proof using L CL.
  intros Hi We Hc Wp Sp Hn Hl Hs. split.
  - unfold build_tsm_request.
    assert (Hctx : is_bytes (context_engine e ctx)) by (destruct ctx; [apply We|done]).
    destruct (scoped_ber_back (mkScoped (context_engine e ctx) [] p)) as (sb & -> & Hsb & Dsb);
      [done|by constructor|done|done|]. cbn [rbind].
    set (h := mkHeader id DEFAULT_MAX_SIZE FLAG_REPORTABLE SECURITY_MODEL_TSM).
    assert (Wh : wf_header h) by (split; [done|vm_compute; split; congruence..]).
    destruct (header_back h Wh) as [Bh Wr].
    destruct (raw_back (raw_message h [] sb)) as (bs & -> & Hb & D); [split_and!; [done|done|by constructor|done]|].
    exists bs, h. split_and!; [done..| |].
    + unfold parse_tsm. rewrite D. cbn -[h]. rewrite Bh. cbn -[h]. by rewrite Dsb.
    + intros user. unfold parse. rewrite D. cbn -[h]. rewrite Bh. cbn -[h].
      unfold usm_decode_ber. by rewrite usm_nothing.
  - intros bs Eb.
    destruct (user_message_back id rep u salt e ctx p Hi Hn Hl Hs We Hc Wp Sp)
      as (bs' & tag & privp & Eb' & _ & _ & _ & Ht).
    rewrite Eb in Eb'. by injection Eb' as <-.
Qed.
End Protected.

(** ** Certificates *)

Lemma cert_map_add e es f :
  cert_map (cert_add e es) f =
    if eq_ignore_case (fingerprint e) f then Some (security_name e) else cert_map es f.
Proof.
  assert (Sym : ∀ a b, eq_ignore_case a b = true → ∀ g, eq_ignore_case a g = eq_ignore_case b g).
  { unfold eq_ignore_case. intros a b ->%bool_decide_eq_true_1 g. done. }
  assert (FC : ∀ (g : CertToTsnEntry → bool) a l, find g (a :: l) = if g a then Some a else find g l) by done.
  unfold cert_map. induction es as [|x es IH]; cbn [cert_add].
  { rewrite FC. by destruct (eq_ignore_case _ f). }
  destruct (eq_ignore_case (fingerprint x) (fingerprint e)) eqn:E; rewrite !FC.
  - rewrite (Sym _ _ E). by destruct (eq_ignore_case _ f).
  - destruct (eq_ignore_case (fingerprint x) f) eqn:Ef; [|exact IH].
    destruct (eq_ignore_case (fingerprint e) f) eqn:Ee; [|done].
    unfold eq_ignore_case in *. apply bool_decide_eq_true_1 in Ef, Ee. apply bool_decide_eq_false_1 in E. congruence.
Qed.
