(* ===== verification/Reference.v ===== *)
(** * Codecs and cryptography that obey the laws

    Concrete instances of the classes that stand for third-party code: a codec
    that writes a well-formed structure as the binary digits of its number,
    after an octet that says which codec wrote it and padding that makes it as
    long as what it carries, and toy hash functions and ciphers of the right
    lengths. The laws are proved for them, so that the theorems that assume
    the laws can be applied. *)

From Stdlib Require Import ZArith Lia.
From S2P Require Import Prelude MachineInts Text Oid Value Config Pdu Wire Usm V3.

(** ** Binary digits *)

Fixpoint bits (p : positive) : bytes :=
  match p with xH => [] | xO p => 0 :: bits p | xI p => 1 :: bits p end.

(** A two is padding. *)
Fixpoint number (bs : bytes) : positive :=
  match bs with
  | [] => xH
  | b :: bs => if b =? 2 then number bs else if b =? 0 then xO (number bs) else xI (number bs)
  end.

Lemma number_bits p : number (bits p) = p.
Proof. induction p as [p IH|p IH|]; cbn; by rewrite ?IH. Qed.

Lemma number_padded n bs : number (replicate n 2 ++ bs) = number bs.
Proof. induction n; cbn; done. Qed.

Lemma bits_bytes p : is_bytes (bits p).
Proof. induction p; cbn; constructor; (done || unfold is_u8; lia). Qed.

Section Tagged.
Context {A : Type} `{Countable A} (ok : A → Prop) `{∀ x, Decision (ok x)} (size : A → nat).

Definition tagged (t : Z) : Codec A :=
  mkCodec (fun x => if decide (ok x) then Some (t :: replicate (size x) 2 ++ bits (countable.encode x)) else None)
    (fun bs => match bs with
               | b :: bs' =>
                   if b =? t then
                     match countable.decode (number bs') with
                     | Some x => if decide (ok x ∧ (size x <= length bs)%nat) then Some x else None
                     | None => None
                     end
                   else None
               | [] => None
               end).

Lemma tagged_back t x : is_u8 t → ok x → reads_back (tagged t) x.
Proof.
  intros Ht Hx. unfold reads_back. cbn. rewrite decide_True by done.
  eexists. split; [reflexivity|]. split.
  { constructor; [done|]. apply Forall_app. split; [|apply bits_bytes].
    apply Forall_replicate. unfold is_u8. lia. }
  rewrite Z.eqb_refl, number_padded, number_bits, countable.decode_encode.
  rewrite decide_True; [done|]. split; [done|]. cbn. rewrite length_app, length_replicate. lia.
Qed.

Lemma tagged_ok t x bs : encode (tagged t) x = Some bs → ok x.
Proof. cbn. by destruct (decide (ok x)). Qed.

Lemma tagged_typed t x bs : decode (tagged t) bs = Some x → ok x ∧ (size x <= length bs)%nat.
Proof.
  cbn. destruct bs as [|b bs]; [done|]. destruct (b =? t); [|done].
  destruct (countable.decode (number bs)) as [y|]; [|done].
  destruct (decide _) as [Hy|]; [|done]. by intros [= <-].
Qed.

Lemma tagged_first t x bs : encode (tagged t) x = Some bs → ∃ bs', bs = t :: bs'.
Proof. cbn. destruct (decide (ok x)); [|done]. intros [= <-]. eauto. Qed.

Lemma tagged_other t t' bs : t' ≠ t → decode (tagged t) (t' :: bs) = None.
Proof. intros Hn. cbn. by destruct (Z.eqb_spec t' t). Qed.
End Tagged.

(** ** Counting the wire types *)

#[local] Ltac count f g := refine (inj_countable' f g _); by intros [].

#[export] Instance ipv4_countable : Countable Ipv4Addr.
Proof. count (λ i, (octet1 i, octet2 i, octet3 i, octet4 i)) (λ '(a, b, c, d), mkIpv4 a b c d). Defined.

#[export] Instance simple_syntax_eq_dec : EqDecision SimpleSyntax.
Proof. solve_decision. Defined.
#[export] Instance simple_syntax_countable : Countable SimpleSyntax.
Proof.
  count (λ s, match s with SInteger i => inl i | SString b => inr (inl b) | SObjectId o => inr (inr o) end)
    (λ s : Z + (list Z + list Z), match s with inl i => SInteger i | inr (inl b) => SString b | inr (inr o) => SObjectId o end).
Defined.

#[export] Instance application_syntax_eq_dec : EqDecision ApplicationSyntax.
Proof. solve_decision. Defined.
#[export] Instance application_syntax_countable : Countable ApplicationSyntax.
Proof.
  count (λ s, match s with
              | AAddress ip => inl ip | AArbitrary b => inr (inl b) | ACounter v => inr (inr (0, v))
              | AUnsigned v => inr (inr (1, v)) | ATicks v => inr (inr (2, v)) | ABigCounter v => inr (inr (3, v))
              end)
    (λ s : Ipv4Addr + (list Z + Z * Z),
      match s with
      | inl ip => AAddress ip | inr (inl b) => AArbitrary b
      | inr (inr (k, v)) =>
          if k =? 0 then ACounter v else if k =? 1 then AUnsigned v else if k =? 2 then ATicks v else ABigCounter v
      end).
Defined.

#[export] Instance object_syntax_eq_dec : EqDecision ObjectSyntax.
Proof. solve_decision. Defined.
#[export] Instance object_syntax_countable : Countable ObjectSyntax.
Proof.
  count (λ s, match s with Simple s => inl s | ApplicationWide a => inr a end)
    (λ s, match s with inl s => Simple s | inr a => ApplicationWide a end).
Defined.

#[export] Instance var_bind_value_eq_dec : EqDecision VarBindValue.
Proof. solve_decision. Defined.
#[export] Instance var_bind_value_countable : Countable VarBindValue.
Proof.
  count (λ s, match s with
              | RValue o => inl o | RUnspecified => inr 0 | RNoSuchObject => inr 1
              | RNoSuchInstance => inr 2 | REndOfMibView => inr 3
              end)
    (λ s, match s with
          | inl o => RValue o
          | inr k => if k =? 0 then RUnspecified else if k =? 1 then RNoSuchObject
                     else if k =? 2 then RNoSuchInstance else REndOfMibView
          end).
Defined.

#[export] Instance rasn_var_bind_eq_dec : EqDecision RasnVarBind.
Proof. solve_decision. Defined.
#[export] Instance rasn_var_bind_countable : Countable RasnVarBind.
Proof. count (λ v, (r_name v, r_value v)) (λ '(n, v), mkRVarBind n v). Defined.

#[export] Instance rasn_pdu_eq_dec : EqDecision RasnPdu.
Proof. solve_decision. Defined.
#[export] Instance rasn_pdu_countable : Countable RasnPdu.
Proof.
  count (λ p, (r_request_id p, r_error_status p, r_error_index p, r_variable_bindings p))
    (λ '(i, s, x, v), mkRPdu i s x v).
Defined.

#[export] Instance bulk_pdu_eq_dec : EqDecision BulkPdu.
Proof. solve_decision. Defined.
#[export] Instance bulk_pdu_countable : Countable BulkPdu.
Proof.
  count (λ p, (b_request_id p, b_non_repeaters p, b_max_repetitions p, b_variable_bindings p))
    (λ '(i, s, x, v), mkBulk i s x v).
Defined.

#[export] Instance pdus_eq_dec : EqDecision Pdus.
Proof. solve_decision. Defined.
#[export] Instance pdus_countable : Countable Pdus.
Proof.
  count (λ p, match p with
              | RGetRequest p => inl (0, p) | RGetNextRequest p => inl (1, p) | RResponse p => inl (2, p)
              | RSetRequest p => inl (3, p) | RInformRequest p => inl (4, p) | RTrap p => inl (5, p)
              | RReport p => inl (6, p) | RGetBulkRequest b => inr b
              end)
    (λ s : Z * RasnPdu + BulkPdu,
      match s with
      | inl (k, p) =>
          if k =? 0 then RGetRequest p else if k =? 1 then RGetNextRequest p else if k =? 2 then RResponse p
          else if k =? 3 then RSetRequest p else if k =? 4 then RInformRequest p else if k =? 5 then RTrap p
          else RReport p
      | inr b => RGetBulkRequest b
      end).
Defined.

#[export] Instance simple_syntax1_eq_dec : EqDecision SimpleSyntax1.
Proof. solve_decision. Defined.
#[export] Instance simple_syntax1_countable : Countable SimpleSyntax1.
Proof.
  count (λ s, match s with S1Number i => inl i | S1String b => inr (inl b) | S1Object o => inr (inr (Some o)) | S1Empty => inr (inr None) end)
    (λ s : Z + (list Z + option (list Z)),
      match s with inl i => S1Number i | inr (inl b) => S1String b | inr (inr (Some o)) => S1Object o | inr (inr None) => S1Empty end).
Defined.

#[export] Instance application_syntax1_eq_dec : EqDecision ApplicationSyntax1.
Proof. solve_decision. Defined.
#[export] Instance application_syntax1_countable : Countable ApplicationSyntax1.
Proof.
  count (λ s, match s with
              | A1Address ip => inl ip | A1Arbitrary b => inr (inl b) | A1Counter v => inr (inr (0, v))
              | A1Gauge v => inr (inr (1, v)) | A1Ticks v => inr (inr (2, v))
              end)
    (λ s : Ipv4Addr + (list Z + Z * Z),
      match s with
      | inl ip => A1Address ip | inr (inl b) => A1Arbitrary b
      | inr (inr (k, v)) => if k =? 0 then A1Counter v else if k =? 1 then A1Gauge v else A1Ticks v
      end).
Defined.

#[export] Instance object_syntax1_eq_dec : EqDecision ObjectSyntax1.
Proof. solve_decision. Defined.
#[export] Instance object_syntax1_countable : Countable ObjectSyntax1.
Proof.
  count (λ s, match s with Simple1 s => inl s | ApplicationWide1 a => inr a end)
    (λ s, match s with inl s => Simple1 s | inr a => ApplicationWide1 a end).
Defined.

#[export] Instance var_bind1_eq_dec : EqDecision VarBind1.
Proof. solve_decision. Defined.
#[export] Instance var_bind1_countable : Countable VarBind1.
Proof. count (λ v, (name1 v, value1 v)) (λ '(n, v), mkVarBind1 n v). Defined.

#[export] Instance trap1_eq_dec : EqDecision Trap1.
Proof. solve_decision. Defined.
#[export] Instance trap1_countable : Countable Trap1.
Proof.
  count (λ t, (t1_enterprise t, t1_agent_addr t, t1_generic_trap t, t1_specific_trap t, t1_time_stamp t,
               t1_variable_bindings t))
    (λ '(e, a, g, s, ts, v), mkTrap1 e a g s ts v).
Defined.

#[export] Instance envelope_eq_dec `{EqDecision D} : EqDecision (Envelope D).
Proof. solve_decision. Defined.
#[export] Instance envelope_countable `{Countable D} : Countable (Envelope D).
Proof.
  count (λ e : Envelope D, (e_version e, e_community e, e_data e))
    (λ x : Z * list Z * D, let '(v, c, d) := x in mkEnvelope v c d).
Defined.

#[export] Instance rheader_eq_dec : EqDecision RHeaderData.
Proof. solve_decision. Defined.
#[export] Instance rheader_countable : Countable RHeaderData.
Proof.
  count (λ h, (rh_message_id h, rh_max_size h, rh_flags h, rh_security_model h)) (λ '(i, s, f, m), mkRHeader i s f m).
Defined.

#[export] Instance rusm_eq_dec : EqDecision RUsmParameters.
Proof. solve_decision. Defined.
#[export] Instance rusm_countable : Countable RUsmParameters.
Proof.
  count (λ p, (ru_engine_id p, ru_engine_boots p, ru_engine_time p, ru_user_name p,
               ru_authentication_parameters p, ru_privacy_parameters p))
    (λ '(e, b, t, n, a, p), mkRUsm e b t n a p).
Defined.

#[export] Instance rscoped_eq_dec : EqDecision RScopedPdu.
Proof. solve_decision. Defined.
#[export] Instance rscoped_countable : Countable RScopedPdu.
Proof. count (λ s, (rs_engine_id s, rs_name s, rs_data s)) (λ '(e, n, d), mkRScoped e n d). Defined.

#[export] Instance raw_eq_dec : EqDecision RawV3Message.
Proof. solve_decision. Defined.
#[export] Instance raw_countable : Countable RawV3Message.
Proof.
  count (λ m, (raw_version m, global_data m, security_parameters m, scoped_data m)) (λ '(v, g, s, d), mkRaw v g s d).
Defined.

(** ** Deciding what is well-formed *)

#[export] Instance is_bytes_dec bs : Decision (is_bytes bs).
Proof. unfold is_bytes, is_u8. apply _. Defined.

#[export] Instance wf_oid_dec o : Decision (Oid.wf o).
Proof. unfold Oid.wf, is_u32. apply _. Defined.

Definition encodable (o : Oid) : bool := match o with a :: _ :: _ => a <=? 2 | _ => false end.

(** [oid_encodable] and the octet strings; an octet string is its own contents
    behind a tag. *)
#[local] Instance reference_oids : Rasn := {
  oid_encodable := encodable;
  encode_octets b := Some (4, b);
  decode_octets bs := match bs with t :: b => if t =? 4 then Some b else None | [] => None end;
  decode_opaque bs := match bs with t :: b => if t =? 68 then Some b else None | [] => None end;
  ber_community := mkCodec (fun _ => None) (fun _ => None);
  ber_v1 := mkCodec (fun _ => None) (fun _ => None);
}.

#[export] Instance wire_oid_dec o : Decision (wire_oid o).
Proof. unfold wire_oid. apply _. Defined.

#[export] Instance wire_value_dec v : Decision (wire_value v).
Proof.
  destruct v as [[[i|s|o]|[ip|c|u|t|op|bc]]| | | |]; cbn;
    unfold is_i64, is_ipv4, is_u32, is_u64; apply _.
Defined.

#[export] Instance wire_vb_dec vb : Decision (wire_vb vb).
Proof. unfold wire_vb. apply _. Defined.

#[export] Instance wire_pdus_dec ps : Decision (wire_pdus ps).
Proof. destruct ps; cbn; unfold wire_rpdu, is_i32, is_u32; apply _. Defined.

#[export] Instance wire_value1_dec v : Decision (wire_value1 v).
Proof.
  destruct v as [[i|s|o|]|[ip|c|g|t|op]]; cbn; unfold is_i64, is_ipv4, is_u32; apply _.
Defined.

#[export] Instance wire_trap1_dec t : Decision (wire_trap1 t).
Proof. unfold wire_trap1, is_ipv4, is_u8, is_u32. apply _. Defined.

Definition community_ok (e : Envelope Pdus) : Prop := is_bytes (e_community e) ∧ wire_pdus (e_data e).
Definition v1_ok (e : Envelope Trap1) : Prop := is_bytes (e_community e) ∧ wire_trap1 (e_data e).
Definition raw_ok (m : RawV3Message) : Prop := is_bytes (scoped_data m).
Definition scoped_ok (s : RScopedPdu) : Prop := wire_pdus (rs_data s).

#[export] Instance community_ok_dec e : Decision (community_ok e).
Proof. unfold community_ok. apply _. Defined.
#[export] Instance v1_ok_dec e : Decision (v1_ok e).
Proof. unfold v1_ok. apply _. Defined.
#[export] Instance raw_ok_dec m : Decision (raw_ok m).
Proof. unfold raw_ok. apply _. Defined.
#[export] Instance scoped_ok_dec s : Decision (scoped_ok s).
Proof. unfold scoped_ok. apply _. Defined.

(** ** The codec *)

Definition community_codec : Codec (Envelope Pdus) := tagged community_ok (λ e, length (bindings_of (e_data e))) 0.
Definition v1_codec : Codec (Envelope Trap1) := tagged v1_ok (λ e, length (t1_variable_bindings (e_data e))) 1.
Definition raw_codec : Codec RawV3Message := tagged raw_ok (λ m, length (scoped_data m)) 2.
Definition usm_codec : Codec RUsmParameters := tagged (λ _, True) (λ _, O) 3.
Definition scoped_codec : Codec RScopedPdu := tagged scoped_ok (λ s, length (bindings_of (rs_data s))) 5.

Definition reference_rasn : Rasn := {|
  oid_encodable := encodable;
  encode_octets b := Some (4, b);
  decode_octets := @decode_octets reference_oids;
  decode_opaque := @decode_opaque reference_oids;
  ber_community := community_codec;
  ber_v1 := v1_codec;
|}.

(** The version is the only element that anyone asks for. *)
Definition reference_elements (bs : bytes) : option (list bytes) :=
  let version v := [2 :: bits (countable.encode v)] in
  match decode community_codec bs with
  | Some m => Some (version (e_version m))
  | None =>
      match decode v1_codec bs with
      | Some m => Some (version (e_version m))
      | None => (λ m, version (raw_version m)) <$> decode raw_codec bs
      end
  end.

Definition reference_v3 : RasnV3 := {|
  rasn_base := reference_rasn;
  decode_elements := reference_elements;
  decode_integer bs := match bs with t :: b => countable.decode (number b) | [] => None end;
  ber_usm := usm_codec;
  ber_scoped := scoped_codec;
  ber_raw := raw_codec;
|}.

Lemma octet t : 0 <= t < 256 → is_u8 t.
Proof. done. Qed.

Lemma reference_rasn_laws : RasnLaws reference_rasn.
Proof.
  split.
  - intros a b o _ Ha _. cbn. by apply Z.leb_le.
  - intros [|a [|b o]]; cbn; try done; lia.
  - intros a b o Ha. cbn in Ha. by apply Z.leb_le.
  - intros b Hb. exists 4, b. split_and!; [done|constructor; [by apply octet|done]|done|done].
  - intros v c p _ Hc Hp. apply tagged_back; [by apply octet|done].
  - intros v c t _ Hc Ht.
    destruct (tagged_back v1_ok (λ e, length (t1_variable_bindings (e_data e))) 1 (mkEnvelope v c t))
      as (bs & E & Hb & D); [by apply octet|done|].
    exists bs. split_and!; [done..|]. apply tagged_first in E as [bs' ->]. by apply tagged_other.
Qed.

Lemma reference_leads bs v :
  reference_elements bs = Some [2 :: bits (countable.encode v)] → @leads_with reference_v3 bs v.
Proof.
  intros E. exists (2 :: bits (countable.encode v)), []. split; [done|]. cbn.
  by rewrite number_bits, countable.decode_encode.
Qed.

(** What a codec wrote it reads. *)
Lemma tagged_reads {A} `{Countable A} (ok : A → Prop) `{∀ x, Decision (ok x)} size t x bs : is_u8 t →
  encode (tagged ok size t) x = Some bs → decode (tagged ok size t) bs = Some x ∧ ∃ bs', bs = t :: bs'.
Proof.
  intros Ht E. pose proof (tagged_first _ _ _ _ _ E) as F. apply tagged_ok in E as Hx.
  destruct (tagged_back ok size t x Ht Hx) as (bs' & E' & _ & D). rewrite E in E'. by injection E' as <-.
Qed.

Lemma reference_v3_laws : RasnV3Laws reference_v3.
Proof.
  split.
  - exact reference_rasn_laws.
  - intros p _. by apply tagged_back; [apply octet|].
  - intros s (_ & _ & Hs). by apply tagged_back; [apply octet|].
  - intros m (_ & _ & _ & [Hm _]). by apply tagged_back; [apply octet|].
  - intros m bs E. apply reference_leads. unfold reference_elements.
    apply tagged_reads in E as [D [bs' ->]]; [|by apply octet].
    unfold community_codec, v1_codec. rewrite !tagged_other by done. unfold raw_codec. by rewrite D.
  - intros m bs E. apply reference_leads. unfold reference_elements.
    apply tagged_reads in E as [D _]; [|by apply octet]. unfold community_codec. by rewrite D.
  - done.
  - intros m bs E. apply reference_leads. unfold reference_elements.
    apply tagged_reads in E as [D [bs' ->]]; [|by apply octet].
    unfold community_codec. rewrite tagged_other by done. unfold v1_codec. by rewrite D.
Qed.

(** ** Cryptography *)

Definition checksum (data : bytes) : Z := foldr (fun b a => (b + 31 * a) mod 256) 7 data.

Definition reference_crypto : Crypto := {|
  digest p data := replicate (hash_len p) (checksum data);
  hmac p key data := replicate (hash_len p) (checksum (key ++ data));
  cfb_encrypt key iv data := if (length key =? 16)%nat && (length iv =? 16)%nat then Some (rev data) else None;
  cfb_decrypt key iv data := if (length key =? 16)%nat && (length iv =? 16)%nat then Some (rev data) else None;
|}.

Lemma checksum_u8 data : is_u8 (checksum data).
Proof.
  destruct data as [|b data]; cbn; [unfold is_u8; lia|]. apply Z.mod_pos_bound. lia.
Qed.

Lemma reference_crypto_laws : CryptoLaws reference_crypto.
Proof.
  split.
  - intros p data. apply length_replicate.
  - intros p data. apply Forall_replicate, checksum_u8.
  - intros p key data. apply length_replicate.
  - intros p key data. apply Forall_replicate, checksum_u8.
  - intros key iv data Hk Hi Hd. cbn. rewrite Hk, Hi. exists (rev data).
    split_and!; [done|by apply Forall_rev|apply length_rev|by rewrite rev_involutive].
Qed.
