(* ===== verification/Smux.v ===== *)
(** * SMUX PDUs ([crates/netsnmp-agent/src/smux.rs])

    The PDUs a peer and the agent exchange, their encoders, and the decoder
    that tells a registration from an open by the shape of its body. The loop
    over the bindings of a bare SNMP PDU takes its fuel from the length of the
    buffer; running out would answer [None], as a panic does, and
    [decode_smux_pdu_total] says that neither happens. *)

From Stdlib Require Import ZArith Lia.
From S2P Require Import Prelude MachineInts Text Oid Value Wire Pdu Ber.

(** ** Data *)

Definition SMUX_OPEN : Z := 160.
Definition SMUX_RRSP : Z := 161.
Definition SMUX_CLOSE : Z := 164.
Definition SMUX_SOUT : Z := 165.

Inductive RRspCode := Reject | RReadOnly | ReadWrite.

Definition rrsp_code (c : RRspCode) : Z :=
  match c with Reject => -1 | RReadOnly => 0 | ReadWrite => 1 end.

Record SmuxOpen := mkSmuxOpen {
  version : Z;
  identity : Oid;
  description : text;
  password : text
}.

Record SmuxClose := mkSmuxClose { close_code : Z }.
Record SmuxRRsp := mkSmuxRRsp { rsp_code : Z }.
Record SmuxSout := mkSmuxSout { sout_arg : Z }.

Inductive SmuxPdu :=
| Open (o : SmuxOpen)
| Close (c : SmuxClose)
| RRsp (r : SmuxRRsp)
| Sout (s : SmuxSout)
| Snmp (m : Message)
| Register (subtree : Oid) (priority operation : Z).

(** ** Encoders *)

Definition encode_open (o : SmuxOpen) : bytes :=
  ber_tlv SMUX_OPEN
    (ber_integer (version o) ++ ber_oid (identity o) ++
     ber_octet_string (as_bytes (description o)) ++ ber_octet_string (as_bytes (password o))).

Definition encode_close (c : SmuxClose) : bytes := ber_tlv SMUX_CLOSE (ber_integer (close_code c)).
Definition encode_rrsp (r : SmuxRRsp) : bytes := ber_tlv SMUX_RRSP (ber_integer (rsp_code r)).
Definition encode_sout (s : SmuxSout) : bytes := ber_tlv SMUX_SOUT (ber_integer (sout_arg s)).

(** The content of an encoded integer: its own TLV, parsed again. *)
Definition ber_integer_content (v : Z) : bytes :=
  let encoded := ber_integer v in
  if (length encoded <? 2)%nat then []
  else match parse_tlv encoded with Some (Ok (_, content, _)) => content | _ => [] end.

Definition encode_value (v : Value) : bytes :=
  match v with
  | VInteger v => ber_tlv 2 (ber_integer_content v)
  | VOctetString b => ber_octet_string b
  | VOid o => ber_oid o
  | VNull => ber_tlv 5 []
  | VCounter32 v => ber_tlv 65 (ber_unsigned_content v 4)
  | VGauge32 v => ber_tlv 66 (ber_unsigned_content v 4)
  | VTimeTicks v => ber_tlv 67 (ber_unsigned_content v 4)
  | VIpAddress ip => ber_tlv 64 (octets ip)
  | VOpaque b => ber_tlv 68 b
  | VCounter64 v => ber_tlv 70 (ber_unsigned_content v 8)
  | VNoSuchObject => ber_tlv 128 []
  | VNoSuchInstance => ber_tlv 129 []
  | VEndOfMibView => ber_tlv 130 []
  end.

Definition encode_register (subtree : Oid) (priority operation : Z) : bytes :=
  let name := subtree ++ [as_u32 priority; as_u32 operation] in
  let vb := ber_oid name ++ ber_tlv 5 [] in
  ber_tlv (tag Get)
    (ber_integer 0 ++ ber_integer 0 ++ ber_integer 0 ++ ber_tlv 48 (ber_tlv 48 vb)).

Definition encode_varbind (vb : VarBind) : bytes :=
  ber_tlv 48 (ber_oid (vb_oid vb) ++ encode_value (vb_value vb)).

Definition encode_snmp_response (p : Pdu) : bytes :=
  ber_tlv (tag Response)
    (ber_integer (request_id p) ++ ber_integer (error_status p) ++ ber_integer (error_index p) ++
     ber_tlv 48 (flat_map encode_varbind (variables p))).

Definition encode_snmp_request (t : PduType) (id : Z) (oid : Oid) : bytes :=
  let vb := ber_oid oid ++ ber_tlv 5 [] in
  ber_tlv (tag t)
    (ber_integer id ++ ber_integer 0 ++ ber_integer 0 ++ ber_tlv 48 (ber_tlv 48 vb)).

(** ** Decoders *)

(** A [Result] of a function that cannot panic. *)
Definition lift {T} (r : result T SmuxError) : outcome T := Some r.

Definition decode_open_content (content : bytes) : outcome SmuxOpen :=
  let@ (_, v_buf, c1) := parse_tlv content in
  let@ version := lift (parse_integer v_buf) in
  sliced (slice_from content c1) (fun rest =>
  let@ (_, id_buf, c2) := parse_tlv rest in
  let@ identity := lift (parse_oid id_buf) in
  sliced (slice_from rest c2) (fun rest =>
  let@ (_, d_buf, c3) := parse_tlv rest in
  sliced (slice_from rest c3) (fun rest =>
  let@ (_, p_buf, _) := parse_tlv rest in
  okay (mkSmuxOpen version identity (from_utf8_lossy d_buf) (from_utf8_lossy p_buf))))).

(** The one integer in the body of a Close, an RRsp or a Sout. *)
Definition decode_integer_body (content : bytes) : outcome Z :=
  let@ (_, b, _) := parse_tlv content in lift (parse_integer b).

Definition decode_close_content (content : bytes) : outcome SmuxClose :=
  let@ c := decode_integer_body content in okay (mkSmuxClose c).
Definition decode_rrsp_content (content : bytes) : outcome SmuxRRsp :=
  let@ c := decode_integer_body content in okay (mkSmuxRRsp c).

Definition decode_value_by_tag (t : Z) (content : bytes) : Value :=
  if t =? 2 then VInteger (match parse_integer content with Ok v => v | Err _ => 0 end)
  else if t =? 4 then VOctetString content
  else if t =? 6 then VOid (match parse_oid content with Ok o => o | Err _ => Oid.null end)
  else if t =? 5 then VNull
  else if t =? 65 then VCounter32 (parse_unsigned 32 content)
  else if t =? 66 then VGauge32 (parse_unsigned 32 content)
  else if t =? 67 then VTimeTicks (parse_unsigned 32 content)
  else if t =? 64 then
    match content with
    | [a; b; c; d] => VIpAddress (mkIpv4 a b c d)
    | _ => VNull
    end
  else if t =? 68 then VOpaque content
  else if t =? 70 then VCounter64 (parse_unsigned 64 content)
  else if t =? 128 then VNoSuchObject
  else if t =? 129 then VNoSuchInstance
  else if t =? 130 then VEndOfMibView
  else VNull.

Definition decode_snmp_value (full : bytes) : outcome Value :=
  let@ (t, content, _) := parse_tlv full in okay (decode_value_by_tag t content).

(** One turn of the loop over the varbind list, at [&vbs_buf[off..]]. *)
Definition decode_varbind (vb_content : bytes) : outcome VarBind :=
  let@ (_, name_buf, nc) := parse_tlv vb_content in
  let@ oid := lift (parse_oid name_buf) in
  sliced (slice_from vb_content nc) (fun val_buf =>
  let@ value := decode_snmp_value val_buf in
  okay (mkVarBind oid value)).

Fixpoint decode_varbinds (fuel : nat) (buf : bytes) : outcome (list VarBind) :=
  match buf with
  | [] => okay []
  | _ :: _ =>
      match fuel with
      | O => None
      | S fuel' =>
          let@ (_, vb_content, consumed) := parse_tlv buf in
          let@ vb := decode_varbind vb_content in
          let@ vbs := decode_varbinds fuel' (drop consumed buf) in
          okay (vb :: vbs)
      end
  end.

Definition decode_bare_snmp_pdu (t : Z) (content : bytes) : outcome Pdu :=
  match from_tag t with
  | Err _ => error DecodeError
  | Ok pdu_type =>
      let@ (_, id_buf, c1) := parse_tlv content in
      let@ id := lift (parse_integer id_buf) in
      sliced (slice_from content c1) (fun rest =>
      let@ (_, es_buf, c2) := parse_tlv rest in
      let@ es := lift (parse_integer es_buf) in
      sliced (slice_from rest c2) (fun rest =>
      let@ (_, ei_buf, c3) := parse_tlv rest in
      let@ ei := lift (parse_integer ei_buf) in
      sliced (slice_from rest c3) (fun rest =>
      let@ (_, vbs_buf, _) := parse_tlv rest in
      let@ vbs := decode_varbinds (length vbs_buf) vbs_buf in
      okay (mkPdu pdu_type (as_i32 id) es ei vbs None))))
  end.

(** The name [<subtree>.<priority>.<operation>]; [as i64] of a [u32] arc. *)
Definition decode_register_from_varbind (vb : VarBind) : option (Oid * Z * Z) :=
  let parts := vb_oid vb in
  let n := length parts in
  if (n <? 3)%nat then None
  else
    let! priority := parts !! (n - 2)%nat in
    let! operation := parts !! (n - 1)%nat in
    if negb (operation =? 1) && negb (operation =? -1) then None
    else Some (take (n - 2) parts, priority, operation).

Definition register_of_pdu (p : Pdu) : option SmuxPdu :=
  match variables p with
  | [vb] =>
      if bool_decide (pdu_type p = Get) then
        let! (subtree, priority, operation) := decode_register_from_varbind vb in
        Some (Register subtree priority operation)
      else None
  | _ => None
  end.

(** One turn of the loop over the four tags: the tag and what follows. *)
Definition peek_tlv_tag (buf : bytes) : outcome (Z * bytes) :=
  match buf with
  | [] => error Truncated
  | _ :: _ => let@ (t, _, consumed) := parse_tlv buf in okay (t, drop consumed buf)
  end.

Definition peek_four_tlv_tags (content : bytes) : outcome (Z * Z * Z * Z) :=
  let@ (t0, rest) := peek_tlv_tag content in
  let@ (t1, rest) := peek_tlv_tag rest in
  let@ (t2, rest) := peek_tlv_tag rest in
  let@ (t3, _) := peek_tlv_tag rest in
  okay (t0, t1, t2, t3).

Definition try_decode_register (t : Z) (content : bytes) : outcome (option SmuxPdu) :=
  let@ (_, t1, _, t3) := peek_four_tlv_tags content in
  if (t1 =? 6) || negb (t3 =? 48) then okay None
  else let@ pdu := decode_bare_snmp_pdu t content in okay (register_of_pdu pdu).

Definition decode_smux_pdu (buf : bytes) : outcome (SmuxPdu * nat) :=
  let@ (t, content, total) := parse_tlv buf in
  if t =? SMUX_OPEN then
    let@ reg := try_decode_register t content in
    match reg with
    | Some p => okay (p, total)
    | None => let@ o := decode_open_content content in okay (Open o, total)
    end
  else if t =? SMUX_CLOSE then
    let@ c := decode_close_content content in okay (Close c, total)
  else if t =? SMUX_RRSP then
    let@ r := decode_rrsp_content content in okay (RRsp r, total)
  else if t =? SMUX_SOUT then
    let@ a := decode_integer_body content in okay (Sout (mkSmuxSout a), total)
  else
    let@ pdu := decode_bare_snmp_pdu t content in
    match register_of_pdu pdu with
    | Some p => okay (p, total)
    | None => okay (Snmp (mkMessage V1 [] pdu), total)
    end.

(** What a forwarder makes of the bytes a peer wrote back. *)
Definition decode_snmp_response (buf : bytes) : outcome (Pdu * nat) :=
  let@ (t, content, total) := parse_tlv buf in
  match from_tag t with
  | Ok Response => let@ pdu := decode_bare_snmp_pdu t content in okay (pdu, total)
  | _ => error DecodeError
  end.

(** ** Ranges of the decoded data *)

Definition wf_open (o : SmuxOpen) : Prop :=
  is_i64 (version o) ∧ Oid.wf (identity o) ∧ is_text (description o) ∧ is_text (password o).

Definition wf_varbind (vb : VarBind) : Prop := Oid.wf (vb_oid vb) ∧ wf_value (vb_value vb).

Definition wf_pdu (p : Pdu) : Prop :=
  is_i32 (request_id p) ∧ is_i64 (error_status p) ∧ is_i64 (error_index p) ∧
  Forall wf_varbind (variables p).

(** The operation of a decoded registration is always the one that registers. *)
Definition wf_smux_pdu (p : SmuxPdu) : Prop :=
  match p with
  | Open o => wf_open o
  | Close c => is_i64 (close_code c)
  | RRsp r => is_i64 (rsp_code r)
  | Sout s => is_i64 (sout_arg s)
  | Snmp m => wf_pdu (msg_pdu m)
  | Register subtree priority operation =>
      Oid.wf subtree ∧ subtree ≠ [] ∧ is_u32 priority ∧ operation = 1
  end.

(** ** The decoder is total *)

(** Steps through the [let@]s of a decoder over a buffer of bytes. *)
Ltac total_step :=
  match goal with
  | H : is_bytes _ |- total _ (obind _ (parse_tlv ?buf)) =>
      let t := fresh "t" in let c := fresh "content" in let n := fresh "n" in
      let Hn := fresh "Hn" in let Ht := fresh "Ht" in let Hb := fresh "Hb" in
      eapply (total_bind (tlv_of buf)); [apply parse_tlv_total|];
      intros [[t c] n] (Hn & Ht & Hb);
      let Hc := fresh "Hc" in let Hd := fresh "Hd" in
      destruct Hb as [Hc Hd]; [assumption|]
  | |- total _ (obind _ (lift (parse_integer ?buf))) =>
      eapply (total_bind (λ v, is_bytes buf → is_i64 v)); [apply parse_integer_total|];
      let v := fresh "v" in let Hv := fresh "Hv" in intros v Hv; cbv beta in Hv;
      specialize (Hv ltac:(assumption))
  | |- total _ (obind _ (lift (parse_oid ?buf))) =>
      eapply (total_bind (λ v, is_bytes buf → Oid.wf v)); [apply parse_oid_total|];
      let v := fresh "v" in let Hv := fresh "Hv" in intros v Hv; cbv beta in Hv;
      specialize (Hv ltac:(assumption))
  | |- total _ (sliced (slice_from _ _) _) => apply total_slice_from; [lia|]
  end.

Lemma decode_open_total content :
  is_bytes content → total wf_open (decode_open_content content).
Proof.
  intros Hb. unfold decode_open_content. repeat total_step. apply total_okay.
  split_and!; try done; cbn; by apply is_text_from_utf8_lossy.
Qed.

Lemma decode_integer_body_total content :
  is_bytes content → total is_i64 (decode_integer_body content).
Proof.
  intros Hb. unfold decode_integer_body. total_step.
  eapply total_weaken; [apply parse_integer_total|]. auto.
Qed.

Lemma decode_value_wf t content : is_bytes content → wf_value (decode_value_by_tag t content).
Proof.
  intros Hb. unfold decode_value_by_tag.
  destruct (t =? 2).
  { destruct (parse_integer content) eqn:E; [by eapply parse_integer_range|].
    change (is_i64 0). unfold is_i64. lia. }
  destruct (t =? 4); [done|]. destruct (t =? 6).
  { destruct (parse_oid content) eqn:E; [by eapply parse_oid_wf|constructor]. }
  destruct (t =? 5); [done|].
  do 3 (destruct (t =? _); [by apply ber_unsigned_range|]).
  destruct (t =? 64); [by destruct content as [|a [|b [|c [|d [|]]]]]|].
  destruct (t =? 68); [done|]. destruct (t =? 70); [by apply ber_unsigned_range|].
  by do 3 (destruct (t =? _); [done|]).
Qed.

Lemma decode_varbind_total content :
  is_bytes content → total wf_varbind (decode_varbind content).
Proof.
  intros Hb. unfold decode_varbind, decode_snmp_value. repeat total_step.
  match goal with |- total _ (obind _ (obind _ (parse_tlv ?b))) => set (rest := b) in * end.
  apply (total_bind (λ v, wf_value v)).
  - total_step. by apply decode_value_wf.
  - intros value Hval. by split.
Qed.

Lemma decode_varbinds_step fuel b0 buf :
  decode_varbinds (S fuel) (b0 :: buf) =
    (let@ (_, vb_content, consumed) := parse_tlv (b0 :: buf) in
     let@ vb := decode_varbind vb_content in
     let@ vbs := decode_varbinds fuel (drop consumed (b0 :: buf)) in
     okay (vb :: vbs)).
Proof. done. Qed.

Lemma smux_varbinds_total fuel buf :
  is_bytes buf → (length buf <= fuel)%nat → total (Forall wf_varbind) (decode_varbinds fuel buf).
Proof.
  revert buf. induction fuel as [|fuel IH]; intros [|b0 buf] Hb Hf.
  1, 3: exact (Forall_nil_2 _).
  { cbn in Hf. lia. }
  rewrite decode_varbinds_step. total_step.
  eapply total_bind; [by apply decode_varbind_total|]. intros vb Hvb.
  eapply total_bind; [apply IH; [done|]|].
  { rewrite length_drop. lia. }
  intros vbs Hvbs. by constructor.
Qed.

Lemma decode_bare_total t content :
  is_bytes content → total wf_pdu (decode_bare_snmp_pdu t content).
Proof.
  intros Hb. unfold decode_bare_snmp_pdu. destruct (from_tag t) as [ty|]; [|done].
  repeat total_step.
  eapply total_bind; [by apply smux_varbinds_total|]. intros vbs Hvbs. apply total_okay.
  split_and!; try done. apply as_i32_range.
Qed.

Lemma peek_tlv_tag_total buf :
  is_bytes buf → total (λ r, is_bytes r.2) (peek_tlv_tag buf).
Proof. intros Hb. destruct buf as [|b0 buf]; [done|]. cbn [peek_tlv_tag]. by total_step. Qed.

Lemma peek_four_total content : is_bytes content → total (λ _, True) (peek_four_tlv_tags content).
Proof.
  intros Hb. unfold peek_four_tlv_tags.
  do 4 (eapply total_bind; [by apply peek_tlv_tag_total|]; intros [? ?] ?; cbn [snd] in *). done.
Qed.

Lemma register_operation vb sub prio op :
  wf_varbind vb → decode_register_from_varbind vb = Some (sub, prio, op) →
  wf_smux_pdu (Register sub prio op).
Proof.
  intros [Hw _]. unfold decode_register_from_varbind.
  destruct (Nat.ltb_spec (length (vb_oid vb)) 3) as [|Hl]; [done|].
  destruct (vb_oid vb !! (length (vb_oid vb) - 2)%nat) as [p|] eqn:Ep; [|done].
  destruct (vb_oid vb !! (length (vb_oid vb) - 1)%nat) as [o|] eqn:Eo; [|done]. cbn [mbind option_bind].
  pose proof (Forall_lookup_1 _ _ _ _ Hw Ep) as Hp. pose proof (Forall_lookup_1 _ _ _ _ Hw Eo) as Ho.
  cbn. unfold is_u32 in Ho. destruct (Z.eqb_spec o 1) as [->|]; cbn.
  - intros [= <- <- <-]. split_and!; [by apply Forall_take| |done|done].
    intros E. apply (f_equal length) in E. rewrite length_take in E. cbn in E. lia.
  - destruct (Z.eqb_spec o (-1)); [lia|done].
Qed.

Lemma register_of_pdu_wf p r : wf_pdu p → register_of_pdu p = Some r → wf_smux_pdu r.
Proof.
  intros (_ & _ & _ & Hv). unfold register_of_pdu.
  destruct (variables p) as [|vb [|]]; [done| |done]. case_bool_decide; [|done].
  destruct (decode_register_from_varbind vb) as [[[sub prio] op]|] eqn:E; [|done]. intros [= <-].
  apply Forall_cons in Hv as [Hv _]. by eapply register_operation.
Qed.

Lemma try_decode_register_total t content :
  is_bytes content →
  total (λ r, ∀ p, r = Some p → wf_smux_pdu p) (try_decode_register t content).
Proof.
  intros Hb. unfold try_decode_register. eapply total_bind; [by apply peek_four_total|].
  intros [[[? ?] ?] ?] _. case_match; [done|].
  eapply total_bind; [by apply decode_bare_total|]. intros p Hp. apply total_okay.
  intros r E. by eapply register_of_pdu_wf.
Qed.

Lemma decode_smux_total buf :
  is_bytes buf →
  total (λ '(p, n), wf_smux_pdu p ∧ (2 <= n <= length buf)%nat) (decode_smux_pdu buf).
Proof.
  intros Hb. unfold decode_smux_pdu. total_step.
  case_match.
  { eapply total_bind; [by apply try_decode_register_total|]. intros [p|] Hp; [by split; [apply Hp|]|].
    eapply total_bind; [by apply decode_open_total|]. by intros o Ho. }
  unfold decode_close_content, decode_rrsp_content.
  case_match; [eapply (total_bind (λ c, is_i64 (close_code c)))|].
  { eapply total_bind; [by apply decode_integer_body_total|]. by intros v Hv. }
  { by intros c Hc'. }
  case_match; [eapply (total_bind (λ c, is_i64 (rsp_code c)))|].
  { eapply total_bind; [by apply decode_integer_body_total|]. by intros v Hv. }
  { by intros c Hc'. }
  case_match; [eapply total_bind; [by apply decode_integer_body_total|]; by intros v Hv|].
  eapply total_bind; [by apply decode_bare_total|]. intros p Hp.
  destruct (register_of_pdu p) as [r|] eqn:E; split; try done. by eapply register_of_pdu_wf.
Qed.

Lemma decode_snmp_response_total buf :
  is_bytes buf → total (λ '(p, n), wf_pdu p) (decode_snmp_response buf).
Proof.
  intros Hb. unfold decode_snmp_response. total_step. destruct (from_tag t) as [[]|]; try done.
  eapply total_bind; [by apply decode_bare_total|]. by intros p Hp.
Qed.

(** ** Round trips *)

(** The length field written in at most four bytes. *)
Definition fits (b : bytes) : Prop := Z.of_nat (length b) < 2 ^ 32.

Lemma fits_app a b : fits (a ++ b) → fits a ∧ fits b.
Proof. unfold fits. rewrite length_app. lia. Qed.

Lemma fits_tlv t c : fits (ber_tlv t c) → fits c.
Proof. unfold fits, ber_tlv. cbn [length]. rewrite length_app. lia. Qed.

Lemma fits_small b n : (length b <= n)%nat → Z.of_nat n < 2 ^ 32 → fits b.
Proof. unfold fits. lia. Qed.

Lemma take_tlv {T} t c rest (f : Z * bytes * nat → outcome T) :
  fits c → obind f (parse_tlv (ber_tlv t c ++ rest)) = f (t, c, length (ber_tlv t c)).
Proof. intros Hc. by rewrite parse_tlv_app. Qed.

Lemma take_tlv_end {T} t c (f : Z * bytes * nat → outcome T) :
  fits c → obind f (parse_tlv (ber_tlv t c)) = f (t, c, length (ber_tlv t c)).
Proof. rewrite <- (app_nil_r (ber_tlv t c)) at 1. apply take_tlv. Qed.

Lemma skip_tlv {T} a rest (f : bytes → outcome T) :
  sliced (slice_from (a ++ rest) (length a)) f = f rest.
Proof.
  unfold slice_from. rewrite length_app. destruct (Nat.leb_spec (length a) (length a + length rest)); [|lia].
  cbn [sliced]. by rewrite drop_app_length.
Qed.

Lemma strip_zeros_length b : (length (strip_zeros b) <= length b)%nat.
Proof.
  induction b as [|b0 [|b1 t] IH]; [done|done|]. rewrite strip_zeros_cons. case_match; cbn in *; lia.
Qed.

Lemma strip_ones_length b : (length (strip_ones b) <= length b)%nat.
Proof.
  induction b as [|b0 [|b1 t] IH]; [done|done|]. rewrite strip_ones_cons. case_match; cbn in *; lia.
Qed.

Lemma integer_content_length v : (length (integer_content v) <= 9)%nat.
Proof.
  unfold integer_content. pose proof (strip_zeros_length (to_bytes true 8 v)) as Z0.
  pose proof (strip_ones_length (to_bytes true 8 (as_u64 v))) as Z1. rewrite !length_to_bytes in *.
  destruct (0 <=? v); [|lia]. destruct (strip_zeros _); [cbn; lia|]. case_match; cbn in *; lia.
Qed.

Lemma fits_integer v : fits (integer_content v).
Proof. apply (fits_small _ 9); [apply integer_content_length|lia]. Qed.

Lemma ber_integer_content_eq v : ber_integer_content v = integer_content v.
Proof.
  unfold ber_integer_content.
  pose proof (take_tlv_end 2 (integer_content v) (fun r => Some (Ok (E:=SmuxError) r)) (fits_integer v)) as E.
  unfold ber_integer. destruct (Nat.ltb_spec (length (ber_tlv 2 (integer_content v))) 2) as [H|H].
  { unfold ber_tlv in H. cbn [length] in H. rewrite length_app in H.
    pose proof (ber_len_nonempty (Z.of_nat (length (integer_content v)))). lia. }
  destruct (parse_tlv _) as [[[[t c] n]|]|]; [|done..]. cbn [obind] in E. congruence.
Qed.

(** What the hand-written OID codec carries. *)
Definition carried_value (v : Value) : Prop :=
  match v with VOid o => packed_oid o | _ => True end.

Definition carried_varbind (vb : VarBind) : Prop :=
  wf_varbind vb ∧ packed_oid (vb_oid vb) ∧ carried_value (vb_value vb).

Definition carried_pdu (p : Pdu) : Prop :=
  wf_pdu p ∧ Forall carried_varbind (variables p) ∧ v1_trap p = None.

Lemma decode_encoded_oid o :
  Oid.wf o → decode_value_by_tag 6 (oid_content o) = VOid o ↔ packed_oid o.
Proof.
  intros Hw. change (decode_value_by_tag 6 (oid_content o)) with
    (VOid (match parse_oid (oid_content o) with Ok o => o | Err _ => Oid.null end)).
  destruct (parse_oid (oid_content o)) as [o'|e] eqn:E.
  - rewrite <- parse_oid_content_iff, E by done. split; congruence.
  - split; [|intros Hp; rewrite parse_oid_content in E; done].
    intros [= <-]. done.
Qed.

(** A value comes back exactly when its OID, if it is one, is packed. *)
Lemma value_roundtrip v rest :
  wf_value v → fits (encode_value v) →
  decode_snmp_value (encode_value v ++ rest) = okay v ↔ carried_value v.
Proof.
  intros Hw Hf.
  assert (∃ t c, encode_value v = ber_tlv t c ∧ (decode_value_by_tag t c = v ↔ carried_value v))
    as (t & c & E & D).
  { destruct v as [n|b|o|ip|n|n|n|b|n| | | |]; cbn [encode_value carried_value]; eexists _, _;
      (split; [reflexivity|]); try done.
    - rewrite ber_integer_content_eq. change (decode_value_by_tag 2 ?c) with
        (VInteger (match parse_integer c with Ok v => v | Err _ => 0 end)).
      by rewrite parse_integer_content.
    - by apply decode_encoded_oid.
    - by destruct ip.
    - change (decode_value_by_tag 65 ?c) with (VCounter32 (parse_unsigned 32 c)).
      by rewrite parse_unsigned_content.
    - change (decode_value_by_tag 66 ?c) with (VGauge32 (parse_unsigned 32 c)).
      by rewrite parse_unsigned_content.
    - change (decode_value_by_tag 67 ?c) with (VTimeTicks (parse_unsigned 32 c)).
      by rewrite parse_unsigned_content.
    - change (decode_value_by_tag 70 ?c) with (VCounter64 (parse_unsigned 64 c)).
      by rewrite parse_unsigned_content. }
  unfold decode_snmp_value. rewrite E in *. rewrite take_tlv by (by eapply fits_tlv).
  rewrite <- D. split; [by intros [= ->]|by intros ->].
Qed.

(** ** PDU bodies *)

Definition pdu_body (id es ei : Z) (vbs : list VarBind) : bytes :=
  ber_integer id ++ ber_integer es ++ ber_integer ei ++ ber_tlv 48 (flat_map encode_varbind vbs).

Lemma encode_request_body t id oid :
  encode_snmp_request t id oid = ber_tlv (tag t) (pdu_body id 0 0 [null_var oid]).
Proof. unfold encode_snmp_request, pdu_body. cbn [flat_map]. by rewrite app_nil_r. Qed.

(** A registration is the Get of its extended name. *)
Lemma encode_register_request sub prio op :
  encode_register sub prio op = encode_snmp_request Get 0 (sub ++ [as_u32 prio; as_u32 op]).
Proof. done. Qed.

Lemma decode_varbind_encoded vb :
  carried_varbind vb → fits (encode_varbind vb) →
  decode_varbind (ber_oid (vb_oid vb) ++ encode_value (vb_value vb)) = okay vb.
Proof.
  intros ([Hwo Hwv] & Hpo & Hpv) Hf%fits_tlv. apply fits_app in Hf as [Hfo Hfv].
  unfold decode_varbind, ber_oid. rewrite take_tlv by (by eapply fits_tlv).
  rewrite parse_oid_content by done. cbn [lift obind]. rewrite skip_tlv.
  apply (value_roundtrip _ [] Hwv Hfv) in Hpv. rewrite app_nil_r in Hpv. rewrite Hpv. by destruct vb.
Qed.

Lemma encode_varbind_cons vb rest :
  ∃ b bs, encode_varbind vb ++ rest = b :: bs ∧ (length rest < length (b :: bs))%nat.
Proof.
  unfold encode_varbind, ber_tlv. cbn [app]. eexists _, _. split; [reflexivity|]. cbn [length].
  rewrite !length_app. lia.
Qed.

Lemma decode_varbinds_encoded vbs fuel :
  Forall carried_varbind vbs → fits (flat_map encode_varbind vbs) →
  (length (flat_map encode_varbind vbs) <= fuel)%nat →
  decode_varbinds fuel (flat_map encode_varbind vbs) = okay vbs.
Proof.
  intros HF. revert fuel. induction HF as [|vb vbs Hvb HF IH]; intros fuel Hf Hl; [by destruct fuel|].
  cbn [flat_map] in *. apply fits_app in Hf as [Hf1 Hf2].
  destruct (encode_varbind_cons vb (flat_map encode_varbind vbs)) as (b & bs & E & L).
  rewrite E in Hl |- *. destruct fuel as [|fuel]; [cbn in Hl; lia|].
  rewrite decode_varbinds_step, <- E.
  pose proof (decode_varbind_encoded vb Hvb Hf1) as D. revert Hf1 D. unfold encode_varbind.
  set (c := ber_oid (vb_oid vb) ++ encode_value (vb_value vb)). intros Hf1%fits_tlv D.
  rewrite take_tlv, D by done. cbn [obind okay]. rewrite drop_app_length, IH; [done|done|].
  rewrite <- E in L. cbn [length] in Hl. pose proof (f_equal length E) as El. cbn [length] in El. lia.
Qed.

Lemma decode_bare_encoded ty id es ei vbs rest :
  is_i32 id → is_i64 es → is_i64 ei → Forall carried_varbind vbs → fits (pdu_body id es ei vbs) →
  decode_bare_snmp_pdu (tag ty) (pdu_body id es ei vbs ++ rest) = okay (mkPdu ty id es ei vbs None).
Proof.
  intros Hid Hes Hei HF Hf. unfold pdu_body in *.
  apply fits_app in Hf as [_ Hf]. apply fits_app in Hf as [_ Hf]. apply fits_app in Hf as [_ Hf].
  apply fits_tlv in Hf. unfold decode_bare_snmp_pdu. rewrite from_tag_tag. rewrite <- !app_assoc.
  assert (is_i64 id) by (unfold is_i32, is_i64 in *; lia).
  unfold ber_integer.
  rewrite take_tlv, parse_integer_content by (done || apply fits_integer). cbn [lift obind]. rewrite skip_tlv.
  rewrite take_tlv, parse_integer_content by (done || apply fits_integer). cbn [lift obind]. rewrite skip_tlv.
  rewrite take_tlv, parse_integer_content by (done || apply fits_integer). cbn [lift obind]. rewrite skip_tlv.
  rewrite take_tlv by done. rewrite decode_varbinds_encoded by done. cbn [obind okay].
  rewrite wrap_i_id; [done|lia|]. unfold is_i32 in Hid. lia.
Qed.

Lemma peek_tlv t c rest : fits c → peek_tlv_tag (ber_tlv t c ++ rest) = okay (t, rest).
Proof.
  intros Hc. destruct (ber_tlv t c ++ rest) as [|b bs] eqn:E; [done|]. unfold peek_tlv_tag.
  rewrite <- E, take_tlv by done. by rewrite drop_app_length.
Qed.

Lemma peek_four t0 c0 t1 c1 t2 c2 t3 c3 rest :
  fits c0 → fits c1 → fits c2 → fits c3 →
  peek_four_tlv_tags (ber_tlv t0 c0 ++ ber_tlv t1 c1 ++ ber_tlv t2 c2 ++ ber_tlv t3 c3 ++ rest) =
    okay (t0, t1, t2, t3).
Proof.
  intros H0 H1 H2 H3. unfold peek_four_tlv_tags.
  rewrite peek_tlv by done. cbn [obind okay]. rewrite peek_tlv by done. cbn [obind okay].
  rewrite peek_tlv by done. cbn [obind okay]. by rewrite peek_tlv by done.
Qed.

Lemma try_decode_register_encoded ty id es ei vbs :
  is_i32 id → is_i64 es → is_i64 ei → Forall carried_varbind vbs → fits (pdu_body id es ei vbs) →
  try_decode_register (tag ty) (pdu_body id es ei vbs) =
    okay (register_of_pdu (mkPdu ty id es ei vbs None)).
Proof.
  intros Hid Hes Hei HF Hf. unfold try_decode_register.
  assert (P : peek_four_tlv_tags (pdu_body id es ei vbs) = okay (2, 2, 2, 48)).
  { unfold pdu_body, ber_integer. rewrite <- (app_nil_r (ber_tlv 48 _)).
    unfold pdu_body in Hf. do 3 (apply fits_app in Hf as [_ Hf]).
    apply peek_four; [apply fits_integer..|by eapply fits_tlv]. }
  rewrite P. cbn [obind okay Z.eqb orb negb Pos.eqb].
  rewrite <- (app_nil_r (pdu_body id es ei vbs)), decode_bare_encoded by done. done.
Qed.

(** An open whose fields fit decodes to itself. *)
Definition open_content (o : SmuxOpen) : bytes :=
  ber_integer (version o) ++ ber_oid (identity o) ++
  ber_octet_string (as_bytes (description o)) ++ ber_octet_string (as_bytes (password o)).

Lemma decode_open_encoded o :
  wf_open o → packed_oid (identity o) → fits (open_content o) →
  decode_open_content (open_content o) = okay o ∧
  try_decode_register SMUX_OPEN (open_content o) = okay None.
Proof.
  intros (Hv & Hi & Hd & Hp) Hk Hf. unfold open_content in *.
  apply fits_app in Hf as [_ Hf]. apply fits_app in Hf as [H1 Hf]. apply fits_app in Hf as [H2 H3].
  apply fits_tlv in H1, H2, H3. unfold ber_integer, ber_oid, ber_octet_string. split.
  - unfold decode_open_content.
    rewrite take_tlv, parse_integer_content by (done || apply fits_integer). cbn [lift obind]. rewrite skip_tlv.
    rewrite take_tlv, parse_oid_content by done. cbn [lift obind]. rewrite skip_tlv.
    rewrite take_tlv, skip_tlv, take_tlv_end by done.
    rewrite !from_utf8_lossy_as_bytes by done. by destruct o.
  - unfold try_decode_register.
    rewrite <- (app_nil_r (ber_tlv 4 (as_bytes (password o)))), peek_four; try done. apply fits_integer.
Qed.

(** ** The PDUs on the wire

    [wire p bs]: [bs] is what the code's encoders write for [p]. A
    registration is written with operation 1; a PDU other than a response is
    read by its SMUX tag, so only responses travel as [Snmp]. *)

Inductive wire : SmuxPdu → bytes → Prop :=
| wire_open o : wf_open o → packed_oid (identity o) → wire (Open o) (encode_open o)
| wire_close c : is_i64 (close_code c) → wire (Close c) (encode_close c)
| wire_rrsp r : is_i64 (rsp_code r) → wire (RRsp r) (encode_rrsp r)
| wire_sout s : is_i64 (sout_arg s) → wire (Sout s) (encode_sout s)
| wire_response p :
    carried_pdu p → pdu_type p = Response →
    wire (Snmp (mkMessage V1 [] p)) (encode_snmp_response p)
| wire_register sub prio :
    Oid.wf sub → sub ≠ [] → is_u32 prio → packed_oid (sub ++ [prio; 1]) →
    wire (Register sub prio 1) (encode_register sub prio 1).

Lemma decode_integer_body_encoded v :
  is_i64 v → decode_integer_body (ber_integer v) = okay v.
Proof.
  intros Hv. unfold decode_integer_body, ber_integer.
  by rewrite take_tlv_end, parse_integer_content by (done || apply fits_integer).
Qed.

Lemma fits_ber_integer v : fits (ber_integer v).
Proof.
  apply (fits_small _ 20); [|lia]. unfold ber_integer, ber_tlv. cbn [length]. rewrite length_app.
  pose proof (integer_content_length v). unfold ber_len.
  destruct (Z.ltb_spec (Z.of_nat (length (integer_content v))) 128); [cbn; lia|lia].
Qed.

Lemma register_name sub prio op :
  sub ≠ [] → decode_register_from_varbind (null_var (sub ++ [prio; op])) =
    if negb (op =? 1) && negb (op =? -1) then None else Some (sub, prio, op).
Proof.
  intros Hs. unfold decode_register_from_varbind, null_var. cbn [vb_oid].
  rewrite length_app. cbn [length].
  destruct (Nat.ltb_spec (length sub + 2) 3) as [H|H]; [by destruct sub; [|cbn in H; lia]|].
  replace (length sub + 2 - 2)%nat with (length sub) by lia.
  replace (length sub + 2 - 1)%nat with (length sub + 1)%nat by lia.
  rewrite !lookup_app_r by lia. replace (length sub - length sub)%nat with 0%nat by lia.
  replace (length sub + 1 - length sub)%nat with 1%nat by lia.
  cbn [lookup list_lookup mbind option_bind]. by rewrite take_app_length.
Qed.

(** What the agent makes of a Get for [oid] sent by a peer: a registration, or
    an open. *)
Definition get_as_open (id : Z) (oid : Oid) : SmuxOpen :=
  mkSmuxOpen id [0; 0] [0] (from_utf8_lossy (encode_varbind (null_var oid))).

Lemma decode_get id oid rest :
  is_i32 id → Oid.wf oid → packed_oid oid → fits (encode_snmp_request Get id oid) →
  decode_smux_pdu (encode_snmp_request Get id oid ++ rest) =
    okay (match decode_register_from_varbind (null_var oid) with
          | Some (sub, prio, op) => Register sub prio op
          | None => Open (get_as_open id oid)
          end, length (encode_snmp_request Get id oid)).
Proof.
  intros Hid Hw Hp. rewrite encode_request_body. intros Hf%fits_tlv.
  assert (Hc : carried_varbind (null_var oid)) by done.
  assert (Hz : is_i64 0) by (unfold is_i64; lia).
  unfold decode_smux_pdu. rewrite take_tlv by done.
  change (tag Get =? SMUX_OPEN) with true. cbn iota.
  rewrite try_decode_register_encoded by (done || by constructor). cbn [obind okay].
  unfold register_of_pdu. cbn [variables pdu_type]. rewrite bool_decide_eq_true_2 by done.
  destruct (decode_register_from_varbind _) as [[[sub prio] op]|]; cbn [mbind option_bind]; [done|].
  assert (O : decode_open_content (pdu_body id 0 0 [null_var oid]) = okay (get_as_open id oid)); [|by rewrite O].
  unfold pdu_body in *. do 3 (apply fits_app in Hf as [_ Hf]). apply fits_tlv in Hf.
  unfold decode_open_content, ber_integer.
  rewrite take_tlv, parse_integer_content by (apply fits_integer || unfold is_i32, is_i64 in *; lia).
  cbn [lift obind]. rewrite skip_tlv.
  rewrite take_tlv by apply fits_integer. change (parse_oid (integer_content 0)) with (@Ok Oid SmuxError [0; 0]).
  cbn [lift obind]. rewrite skip_tlv. rewrite take_tlv by apply fits_integer. rewrite skip_tlv.
  rewrite take_tlv_end by done. unfold get_as_open. cbn [flat_map]. by rewrite app_nil_r.
Qed.

(** ** The properties of the codec *)

(** Whatever bytes a peer sends, the decoder answers: no slice is out of
    range and the loop over the bindings ends. What it answers is within the
    ranges of its types, consumes between 2 bytes and the whole buffer, and a
    registration it reports has a subtree and operation 1. *)
Theorem decode_smux_pdu_total buf :
  is_bytes buf →
  ∃ r, decode_smux_pdu buf = Some r ∧
    ∀ p n, r = Ok (p, n) → wf_smux_pdu p ∧ (2 <= n <= length buf)%nat.
Proof.
  intros Hb. pose proof (decode_smux_total buf Hb) as T.
  destruct (decode_smux_pdu buf) as [r|]; [|done]. exists r. split; [done|].
  intros p n ->. exact T.
Qed.

(** Every PDU the code encodes decodes to itself, whatever follows it. *)
Theorem smux_pdu_roundtrip p bs rest :
  wire p bs → fits bs → decode_smux_pdu (bs ++ rest) = okay (p, length bs).
Proof.
  intros Hw Hf. destruct Hw as [o Hw Hk|c Hc|r Hr|s Hs|p (Hw & Hv & Ht) Hr|sub prio Hs Hn Hp Hk].
  - unfold encode_open in *. pose proof Hf as Hf'%fits_tlv.
    destruct (decode_open_encoded o Hw Hk Hf') as [D T]. fold (open_content o).
    unfold decode_smux_pdu. rewrite take_tlv by done. cbn [Z.eqb SMUX_OPEN Pos.eqb]. rewrite T. cbn [obind okay].
    by rewrite D.
  - unfold decode_smux_pdu, encode_close, decode_close_content. rewrite take_tlv by apply fits_ber_integer.
    cbn -[decode_integer_body]. rewrite decode_integer_body_encoded by done. by destruct c.
  - unfold decode_smux_pdu, encode_rrsp, decode_rrsp_content. rewrite take_tlv by apply fits_ber_integer.
    cbn -[decode_integer_body]. rewrite decode_integer_body_encoded by done. by destruct r.
  - unfold decode_smux_pdu, encode_sout. rewrite take_tlv by apply fits_ber_integer.
    cbn -[decode_integer_body]. rewrite decode_integer_body_encoded by done. by destruct s.
  - destruct p as [ty id es ei vbs tr]. cbn in Hr, Ht, Hv. subst ty tr. destruct Hw as (Hid & Hes & Hei & _).
    unfold encode_snmp_response in *. cbn [request_id error_status error_index variables] in *.
    fold (pdu_body id es ei vbs) in *. unfold decode_smux_pdu. pose proof Hf as Hf'%fits_tlv.
    rewrite take_tlv by done. cbn -[decode_bare_snmp_pdu tag pdu_body].
    rewrite <- (app_nil_r (pdu_body id es ei vbs)), decode_bare_encoded by done. cbn [obind okay].
    unfold register_of_pdu. cbn [variables pdu_type]. rewrite app_nil_r.
    destruct vbs as [|vb [|]]; try done.
  - rewrite encode_register_request in *. rewrite (wrap_u_id 32 prio), (wrap_u_id 32 1) in * by (done || lia).
    rewrite decode_get; try done; [by rewrite register_name|].
    apply Forall_app. split; [done|]. repeat constructor; unfold is_u32 in *; lia.
Qed.

(** A peer's Get is read as a registration when its name ends in 1 below a
    priority and a subtree, and as an open of identity 0.0 otherwise. *)
Theorem peer_get_decodes id oid rest :
  is_i32 id → Oid.wf oid → packed_oid oid → fits (encode_snmp_request Get id oid) →
  decode_smux_pdu (encode_snmp_request Get id oid ++ rest) =
    okay (match decode_register_from_varbind (null_var oid) with
          | Some (sub, prio, op) => Register sub prio op
          | None => Open (get_as_open id oid)
          end, length (encode_snmp_request Get id oid)).
Proof. apply decode_get. Qed.

(** The request to unregister is one: operation -1 is written as the arc
    4294967295, which the decoder does not take for -1. *)
Theorem unregister_is_an_open sub prio rest :
  Oid.wf sub → sub ≠ [] → is_u32 prio → packed_oid (sub ++ [prio; 4294967295]) →
  fits (encode_register sub prio (-1)) →
  decode_smux_pdu (encode_register sub prio (-1) ++ rest) =
    okay (Open (get_as_open 0 (sub ++ [prio; 4294967295])), length (encode_register sub prio (-1))).
Proof.
  intros Hs Hn Hp Hk. rewrite encode_register_request.
  rewrite (wrap_u_id 32 prio) by done. change (as_u32 (-1)) with 4294967295.
  intros Hf. rewrite decode_get; try done; [by rewrite register_name|].
  apply Forall_app. split; [done|]. repeat constructor; unfold is_u32 in *; lia.
Qed.

(** A response's varbind keeps its value exactly when its OIDs are packed. *)
Theorem response_decodes p rest :
  carried_pdu p → pdu_type p = Response → fits (encode_snmp_response p) →
  decode_snmp_response (encode_snmp_response p ++ rest) = okay (p, length (encode_snmp_response p)).
Proof.
  intros ((Hid & Hes & Hei & _) & Hv & Ht) Hr Hf. destruct p as [ty id es ei vbs tr].
  cbn [pdu_type v1_trap] in Hr, Ht. subst ty tr. cbn [request_id error_status error_index variables] in *.
  unfold encode_snmp_response in *. cbn [request_id error_status error_index variables] in *.
  fold (pdu_body id es ei vbs) in *. pose proof Hf as Hf'%fits_tlv.
  unfold decode_snmp_response. rewrite take_tlv, from_tag_tag by done.
  rewrite <- (app_nil_r (pdu_body id es ei vbs)), decode_bare_encoded by done. done.
Qed.

(** ** Witnesses *)

Lemma decode_smux_pdu_total_witness :
  ∃ r, decode_smux_pdu [160; 3; 2; 1] = Some r ∧
    ∀ p n, r = Ok (p, n) → wf_smux_pdu p ∧ (2 <= n <= 4)%nat.
Proof.
  apply (decode_smux_pdu_total [160; 3; 2; 1]).
  repeat constructor; vm_compute; congruence.
Defined.

Lemma peer_get_decodes_witness :
  decode_smux_pdu (encode_snmp_request Get 7 [1; 3; 6; 2] ++ []) =
    okay (Open (get_as_open 7 [1; 3; 6; 2]), length (encode_snmp_request Get 7 [1; 3; 6; 2])).
Proof.
  apply (peer_get_decodes 7 [1; 3; 6; 2] []).
  - split; vm_compute; congruence.
  - repeat constructor; vm_compute; congruence.
  - split; vm_compute; reflexivity.
  - vm_compute; reflexivity.
Defined.
