(* ===== verification/SmuxServer.v ===== *)
(** * The SMUX server ([crates/netsnmp-agent/src/smux.rs])

    Configuration, framing, the server's tables under the turns of its
    connections' two tasks (the reader, and the loop that serves what the
    reader queues), owner selection and forwarding. The network is the
    environment: an event says what a read returned or whether a write
    succeeded. A connection is an address of the heap of peers, so the [Arc]
    the task holds and the one in the table are the same object even when a
    peer id has been used again. *)

From Stdlib Require Import ZArith Lia.
From S2P Require Import Prelude MachineInts Text Oid Value Wire Pdu Config Handler Ber Smux.

(** ** Configuration *)

Record SmuxPeerEntry := mkEntry { e_password : text; e_subtree : Oid }.
Record SmuxServerConfig := mkSmuxConfig { listen_addr : text; cfg_peers : list SmuxPeerEntry }.

(** [#[derive(Default)]]. *)
Definition default_config : SmuxServerConfig := mkSmuxConfig [] [].

Definition apply_directive (cfg : SmuxServerConfig) (d : Directive) : SmuxServerConfig :=
  if is_token d (str "smuxsocket") then
    match arg d 0 with
    | Some addr => mkSmuxConfig addr (cfg_peers cfg)
    | None => cfg
    end
  else if is_token d (str "smuxpeer") then
    match arg d 0, arg d 1 with
    | Some pw, Some oid =>
        match from_str oid with
        | Ok subtree => mkSmuxConfig (listen_addr cfg) (cfg_peers cfg ++ [mkEntry pw subtree])
        | Err _ => cfg
        end
    | _, _ => cfg
    end
  else cfg.

Definition from_config_directives (ds : list Directive) : SmuxServerConfig :=
  fold_left apply_directive ds (mkSmuxConfig (str "0.0.0.0:199") []).

(** ** Framing

    [read_one_pdu_async] on the bytes a stream still delivers: the bytes of one
    TLV and what is left; the end of the stream is an I/O error. Allocating
    more than [isize::MAX] bytes panics. *)

Definition isize_max : Z := 9223372036854775807.

Definition read_exact (n : nat) (stream : bytes) : outcome (bytes * bytes) :=
  if (length stream <? n)%nat then error IoError else okay (take n stream, drop n stream).

Definition shift_len (len b : Z) : Z := Z.lor (as_u64 (Z.shiftl len 8)) b.

Definition read_one_pdu (stream : bytes) : outcome (bytes * bytes) :=
  let@ (tag_buf, rest) := read_exact 1 stream in
  let@ (first_len, rest) := read_exact 1 rest in
  let first := List.hd 0 first_len in
  let@ (len_bytes, total_len, rest) :=
    (if Z.land first 128 =? 0 then okay (first_len, first, rest)
     else
       let@ (more, rest) := read_exact (Z.to_nat (Z.land first 127)) rest in
       okay (first_len ++ more, fold_left shift_len more 0, rest)) in
  if isize_max <? total_len then None
  else
    let@ (content, rest) := read_exact (Z.to_nat total_len) rest in
    okay (tag_buf ++ len_bytes ++ content, rest).

(** ** State *)

(** A connection: the shared [SmuxPeer], and the state of its two tasks. *)
Record Conn := mkConn {
  peer_identity : Oid;
  peer_description : text;
  peer_subtrees : list Oid;
  pending_response : option bytes;
  peer_id : Z;
  open_password : text;
  inbox : list SmuxPdu;
  reading : bool;       (* the reader task runs *)
  serving : bool        (* the loop of handle_connection runs *)
}.

Definition set_slot (r : option bytes) (c : Conn) : Conn :=
  mkConn (peer_identity c) (peer_description c) (peer_subtrees c) r (peer_id c) (open_password c)
    (inbox c) (reading c) (serving c).
Definition set_inbox (q : list SmuxPdu) (c : Conn) : Conn :=
  mkConn (peer_identity c) (peer_description c) (peer_subtrees c) (pending_response c) (peer_id c)
    (open_password c) q (reading c) (serving c).
Definition push_subtree (o : Oid) (c : Conn) : Conn :=
  mkConn (peer_identity c) (peer_description c) (peer_subtrees c ++ [o]) (pending_response c)
    (peer_id c) (open_password c) (inbox c) (reading c) (serving c).
Definition stop_reading (c : Conn) : Conn :=
  mkConn (peer_identity c) (peer_description c) (peer_subtrees c) (pending_response c) (peer_id c)
    (open_password c) (inbox c) false (serving c).
(** The loop returns: the receiver is dropped with what it held. *)
Definition stop_serving (c : Conn) : Conn :=
  mkConn (peer_identity c) (peer_description c) (peer_subtrees c) (pending_response c) (peer_id c)
    (open_password c) [] (reading c) false.

Record SmuxServer := mkServer {
  peers : gmap Z nat;
  subtrees : list (Oid * Z);
  next_peer_id : Z;
  config : SmuxServerConfig
}.

Definition new_server (cfg : SmuxServerConfig) : SmuxServer := mkServer ∅ [] 1 cfg.

Record System := mkSystem { server : SmuxServer; conns : gmap nat Conn; next_conn : nat }.

Definition initial (cfg : SmuxServerConfig) : System := mkSystem (new_server cfg) ∅ 0.

Definition set_conn (a : nat) (c : Conn) (s : System) : System :=
  mkSystem (server s) (<[a := c]> (conns s)) (next_conn s).
Definition set_server (v : SmuxServer) (s : System) : System := mkSystem v (conns s) (next_conn s).

(** ** Operations *)

Definition authorize (cfg : SmuxServerConfig) (password : text) (subtree : Oid) : bool :=
  match cfg_peers cfg with
  | [] => true
  | ps => existsb (fun p => bool_decide (e_password p = password) && is_prefix_of (e_subtree p) subtree) ps
  end.

Definition insert_peer (id : Z) (a : nat) (v : SmuxServer) : SmuxServer :=
  mkServer (<[id := a]> (peers v)) (subtrees v) (as_u32 (next_peer_id v + 1)) (config v).

Definition add_subtree (o : Oid) (id : Z) (v : SmuxServer) : SmuxServer :=
  mkServer (peers v) (subtrees v ++ [(o, id)]) (next_peer_id v) (config v).

(** The tear-down at the end of [handle_connection]. *)
Definition tear_down (id : Z) (v : SmuxServer) : SmuxServer :=
  mkServer (delete id (peers v)) (retain (fun r => negb (r.2 =? id)) (subtrees v)) (next_peer_id v)
    (config v).

(** [handle_connection] up to its loop: the first PDU must be an open. *)
Definition accept (first : result bytes SmuxError) (s : System) : System :=
  match first with
  | Ok buf =>
      match decode_smux_pdu buf with
      | Some (Ok (Open o, _)) =>
          let a := next_conn s in
          let id := next_peer_id (server s) in
          let c := mkConn (identity o) (description o) [] None id (password o) [] true true in
          mkSystem (insert_peer id a (server s)) (<[a := c]> (conns s)) (S a)
      | _ => s
      end
  | Err _ => s
  end.

Definition is_response (p : SmuxPdu) : bool :=
  match p with Snmp m => bool_decide (pdu_type (msg_pdu m) = Response) | _ => false end.

Definition INBOX : nat := 16.

(** One turn of the reader task. A full channel holds the reader back: the
    turn does not happen. *)
Definition read_turn (a : nat) (r : result bytes SmuxError) (s : System) : System :=
  match conns s !! a with
  | Some c =>
      if reading c then
        match r with
        | Err _ => set_conn a (stop_reading c) s
        | Ok buf =>
            match decode_smux_pdu buf with
            | Some (Ok (p, _)) =>
                if is_response p then set_conn a (set_slot (Some buf) c) s
                else if serving c then
                  if (length (inbox c) <? INBOX)%nat then set_conn a (set_inbox (inbox c ++ [p]) c) s
                  else s
                else set_conn a (stop_reading c) s
            | _ => set_conn a (stop_reading c) s
            end
        end
      else s
  | None => s
  end.

(** What the loop does with a registration: the answer and the state. *)
Definition register (a : nat) (c : Conn) (sub : Oid) (operation : Z) (s : System) : RRspCode * System :=
  let accepted :=
    if operation =? 1 then authorize (config (server s)) (open_password c) sub else false in
  if accepted then
    (RReadOnly, set_conn a (push_subtree sub c) (set_server (add_subtree sub (peer_id c) (server s)) s))
  else (Reject, s).

Definition end_loop (a : nat) (c : Conn) (s : System) : System :=
  set_conn a (stop_serving c) (set_server (tear_down (peer_id c) (server s)) s).

(** The loop returns by [?]: no tear-down. *)
Definition abandon (a : nat) (s : System) : System :=
  match conns s !! a with Some c => set_conn a (stop_serving c) s | None => s end.

(** One turn of the loop: the bytes it writes and the state. *)
Definition serve_turn (a : nat) (write_ok : bool) (s : System) : option bytes * System :=
  match conns s !! a with
  | Some c =>
      if serving c then
        match inbox c with
        | [] => if reading c then (None, s) else (None, end_loop a c s)
        | p :: q =>
            let c := set_inbox q c in
            let s := set_conn a c s in
            match p with
            | Register sub _ operation =>
                let '(code, s) := register a c sub operation s in
                let rsp := encode_rrsp (mkSmuxRRsp (rrsp_code code)) in
                if write_ok then (Some rsp, s) else (None, abandon a s)
            | Close _ => (None, end_loop a c s)
            | RRsp _ | Sout _ | Open _ | Snmp _ => (None, s)
            end
        end
      else (None, s)
  | None => (None, s)
  end.

Inductive Event :=
| Accepted (first : result bytes SmuxError)
| Read (a : nat) (r : result bytes SmuxError)
| Serve (a : nat) (write_ok : bool)
| SetSlot (a : nat) (r : option bytes).   (* a forwarder clears or takes the slot *)

Definition step (s : System) (e : Event) : System :=
  match e with
  | Accepted first => accept first s
  | Read a r => read_turn a r s
  | Serve a write_ok => (serve_turn a write_ok s).2
  | SetSlot a r =>
      match conns s !! a with Some c => set_conn a (set_slot r c) s | None => s end
  end.

Definition run (s : System) (es : list Event) : System := fold_left step es s.

(** ** Forwarding *)

(** The loop over the table: a longer subtree replaces the best, an equally
    long one does not. *)
Definition better (best : option (Oid * Z)) (r : Oid * Z) : bool :=
  match best with None => true | Some (b, _) => (length b <? length r.1)%nat end.

Definition owner_loop (oid : Oid) (subs : list (Oid * Z)) : option (Oid * Z) :=
  fold_left (fun best r => if is_prefix_of r.1 oid && better best r then Some r else best) subs None.

Definition owner_of (v : SmuxServer) (oid : Oid) : option nat :=
  let! (_, id) := owner_loop oid (subtrees v) in peers v !! id.

Definition registered_subtrees (v : SmuxServer) : list (Oid * Z) := subtrees v.

(** The agent: the system and the process-wide request counter. *)
Record Agent := mkAgent { smux : System; next_request : Z }.

Definition next_request_id : St Agent Z :=
  fun w => (as_i32 (next_request w), mkAgent (smux w) (as_u32 (next_request w + 1))).

(** What the environment does with a request: whether the write succeeds, and
    the turns of other tasks between two looks at the slot, until the
    deadline. *)
Definition Network := nat → bytes → bool * list (list Event).

Definition slot_of (a : nat) (s : System) : option bytes :=
  let! c := conns s !! a in pending_response c.

Fixpoint poll_slot (a : nat) (rounds : list (list Event)) (s : System) : option bytes * System :=
  match slot_of a s with
  | Some buf => (Some buf, step s (SetSlot a None))
  | None =>
      match rounds with
      | [] => (None, s)
      | es :: rounds' => poll_slot a rounds' (run s es)
      end
  end.

Definition forward_roundtrip (net : Network) (a : nat) (req : bytes) : St System (option bytes) :=
  fun s =>
    let s := step s (SetSlot a None) in
    let '(write_ok, rounds) := net a req in
    if write_ok then poll_slot a rounds s else (None, s).

Definition is_exception (v : Value) : bool :=
  match v with VNoSuchObject | VNoSuchInstance | VEndOfMibView => true | _ => false end.

(** The first binding of a response. *)
Definition first_binding (resp : bytes) : option VarBind :=
  match decode_snmp_response resp with
  | Some (Ok (pdu, _)) =>
      match variables pdu with
      | vb :: _ => if is_exception (vb_value vb) then None else Some vb
      | [] => None
      end
  | _ => None
  end.

Definition forward (net : Network) (t : PduType) (oid : Oid) : St Agent (option VarBind) :=
  fun w =>
    match owner_of (server (smux w)) oid with
    | None => (None, w)
    | Some a =>
        let '(id, w) := next_request_id w in
        let '(resp, s) := forward_roundtrip net a (encode_snmp_request t id oid) (smux w) in
        ((let! bs := resp in first_binding bs), mkAgent s (next_request w))
    end.

Definition forward_get (net : Network) (oid : Oid) : St Agent (option Value) :=
  let* vb := forward net Get oid in sret (vb_value <$> vb).

Definition forward_get_next (net : Network) (oid : Oid) : St Agent (option Reading) :=
  let* vb := forward net GetNext oid in
  sret ((fun vb => mkReading (vb_oid vb) (vb_value vb)) <$> vb).

(** ** The handlers *)

Definition subtree_handler (net : Network) (root : Oid) : MibHandler Agent :=
  read_only_handler root (forward_get net) (forward_get_next net).

Definition smux_handler (net : Network) (v : SmuxServer) : list (MibHandler Agent) :=
  (fun r => subtree_handler net r.1) <$> registered_subtrees v.

(** ** Framing *)

Lemma read_exact_ok {T} n buf (f : bytes * bytes → outcome T) :
  (n <= length buf)%nat → obind f (read_exact n buf) = f (take n buf, drop n buf).
Proof. intros Hn. unfold read_exact. by destruct (Nat.ltb_spec (length buf) n); [lia|]. Qed.

Lemma shift_len_bound bs a k :
  Forall is_u8 bs → 0 <= a < 2 ^ k → 0 <= k → k + 8 * Z.of_nat (length bs) <= 63 →
  0 <= fold_left shift_len bs a < 2 ^ 63.
Proof.
  intros HF. revert a k. induction HF as [|b bs Hb HF IH]; intros a k Ha Hk Hl; cbn [fold_left length] in *.
  { split; [lia|]. eapply Z.lt_le_trans; [apply Ha|]. apply Z.pow_le_mono_r; lia. }
  unfold is_u8 in Hb. assert (shift_len a b = wrap_u 64 (a * 2 ^ 8 + b)) as ->.
  { by apply (shift_or (k:=8) (w:=wrap_u 64)). }
  assert (B : 0 <= a * 2 ^ 8 + b < 2 ^ (k + 8)).
  { rewrite Z.pow_add_r by lia. change (2 ^ 8) with 256 in *. nia. }
  rewrite wrap_u_id.
  - apply (IH _ (k + 8)); lia.
  - split; [lia|]. eapply Z.lt_le_trans; [apply B|]. apply Z.pow_le_mono_r; lia.
Qed.

(** The reader cuts the stream where the decoder's TLV ends. *)
Lemma read_one_pdu_parsed buf t c n :
  is_bytes buf → parse_tlv buf = okay (t, c, n) → read_one_pdu buf = okay (take n buf, drop n buf).
Proof.
  intros Hb. destruct buf as [|tg [|x xs]]; [done|done|]. unfold parse_tlv, slice_from. cbn [length Nat.leb sliced drop].
  rewrite ?drop_0.
  unfold read_one_pdu. rewrite read_exact_ok by (cbn; lia). cbn [take drop].
  rewrite read_exact_ok by (cbn; lia). cbn [take drop List.hd]. rewrite take_0, drop_0. unfold parse_len.
  apply Forall_cons in Hb as [_ [Hx Hb]%Forall_cons]. unfold is_u8 in Hx.
  destruct (Z.land x 128 =? 0) eqn:E.
  - rewrite land_128 in E by lia. apply Z.ltb_lt in E. cbn [obind okay Nat.add].
    destruct (Nat.ltb_spec (S (S (length xs))) (S (S (Z.to_nat x)))) as [|Hl]; [done|].
    unfold slice_range. cbn [length]. destruct (Nat.leb_spec 2 (S (S (Z.to_nat x)))); [|lia].
    destruct (Nat.leb_spec (S (S (Z.to_nat x))) (S (S (length xs)))); [|lia]. cbn [andb sliced].
    intros [= <- <- <-]. destruct (Z.ltb_spec isize_max x) as [Hi|]; [unfold isize_max in Hi; lia|].
    rewrite read_exact_ok by lia. done.
  - set (nb := Z.to_nat (Z.land x 127)). cbn [length].
    destruct (_ || _ || _) eqn:G; [done|]. apply orb_false_iff in G as [[G1 G2]%orb_false_iff G3].
    apply Nat.eqb_neq in G1. apply Nat.ltb_ge in G2, G3. unfold slice_range. cbn [length].
    destruct (Nat.leb_spec 1 (1 + nb)); [|lia]. destruct (Nat.leb_spec (1 + nb) (S (length xs))); [|lia].
    cbn [andb sliced obind okay drop]. replace (1 + nb - 1)%nat with nb by lia. rewrite drop_0.
    fold shift_len. set (len := fold_left _ (take nb xs) 0).
    pose proof (shift_len_bound (take nb xs) 0 0) as B. specialize (B ltac:(by apply Forall_take) ltac:(lia) ltac:(lia)).
    rewrite length_take in B. specialize (B ltac:(lia)). change (fold_left shift_len (take nb xs) 0) with len in B.
    destruct (Nat.ltb_spec (S (S (length xs))) (1 + (1 + nb) + Z.to_nat len)) as [|Hl]; [done|].
    destruct (Nat.leb_spec (1 + (1 + nb)) (1 + (1 + nb) + Z.to_nat len)); [|lia].
    destruct (Nat.leb_spec (1 + (1 + nb) + Z.to_nat len) (S (S (length xs)))); [|lia]. cbn [andb sliced].
    intros [= <- <- <-]. rewrite read_exact_ok by lia. cbn [obind okay].
    change (fold_left shift_len (take nb xs) 0) with len.
    destruct (Z.ltb_spec isize_max len) as [Hi|]; [unfold isize_max in Hi; lia|].
    rewrite read_exact_ok by (rewrite length_drop; lia). unfold okay. do 3 f_equal.
    + cbn [take app]. do 2 f_equal. by rewrite take_take_drop.
    + cbn [drop]. rewrite drop_drop. done.
Qed.

(** The reader's loop on a stream: the PDUs it hands on until a read or a
    decoding fails. *)
Fixpoint reader_loop (fuel : nat) (stream : bytes) : list SmuxPdu :=
  match fuel with
  | O => []
  | S fuel' =>
      match read_one_pdu stream with
      | Some (Ok (buf, rest)) =>
          match decode_smux_pdu buf with
          | Some (Ok (p, _)) => p :: reader_loop fuel' rest
          | _ => []
          end
      | _ => []
      end
  end.

Lemma wire_tlv p bs : wire p bs → ∃ t c, bs = ber_tlv t c.
Proof.
  destruct 1; unfold encode_open, encode_close, encode_rrsp, encode_sout, encode_snmp_response, encode_register;
    by eexists _, _.
Qed.

(** A peer's PDUs, written one after the other, come out of the stream
    one by one as they were. *)
Theorem stream_roundtrip ps bss :
  Forall2 (λ p bs, wire p bs ∧ fits bs) ps bss → is_bytes (concat bss) →
  reader_loop (S (length ps)) (concat bss) = ps.
Proof.
  induction 1 as [|p bs ps bss [Hw Hf] HF IH]; intros Hb; [done|].
  change (S (length (p :: ps))) with (S (S (length ps))). cbn [concat reader_loop].
  destruct (wire_tlv p bs Hw) as (t & c & ->). pose proof Hf as Hf'%fits_tlv.
  cbn [concat] in Hb. pose proof Hb as [_ Hb2]%Forall_app.
  rewrite (read_one_pdu_parsed _ t c _ Hb (parse_tlv_app t c (concat bss) Hf')).
  cbn [okay]. rewrite take_app_length, drop_app_length.
  pose proof (smux_pdu_roundtrip p _ [] Hw Hf) as R. rewrite app_nil_r in R. rewrite R. cbn [okay].
  f_equal. by apply IH.
Qed.

(** ** Owner selection *)

Section Owner.
Context (oid : Oid).

Let covers (r : Oid * Z) : Prop := is_prefix_of r.1 oid = true.

(** A row is the first of the longest that cover the name. *)
Definition longest_owner (subs : list (Oid * Z)) (r : Oid * Z) : Prop :=
  ∃ l1 l2, subs = l1 ++ r :: l2 ∧ covers r ∧
    (∀ r', r' ∈ l1 → covers r' → (length r'.1 < length r.1)%nat) ∧
    (∀ r', r' ∈ l2 → covers r' → (length r'.1 <= length r.1)%nat).

Definition no_owner (subs : list (Oid * Z)) : Prop := ∀ r, r ∈ subs → ¬ covers r.

Lemma owner_loop_snoc subs r :
  owner_loop oid (subs ++ [r]) =
    if is_prefix_of r.1 oid && better (owner_loop oid subs) r then Some r else owner_loop oid subs.
Proof. unfold owner_loop. by rewrite fold_left_app. Qed.

Lemma owner_loop_spec subs :
  match owner_loop oid subs with
  | Some r => longest_owner subs r
  | None => no_owner subs
  end.
Proof.
  induction subs as [|r subs IH] using rev_ind; [by intros ? ?%elem_of_nil|].
  rewrite owner_loop_snoc. unfold better. destruct (is_prefix_of r.1 oid) eqn:C; cbn [andb].
  - destruct (owner_loop oid subs) as [[b id]|] eqn:E.
    + destruct IH as (l1 & l2 & -> & Hc & H1 & H2). destruct (Nat.ltb_spec (length b) (length r.1)) as [Hl|Hl].
      * exists ((l1 ++ (b, id) :: l2)), []. split_and!; [done|done| |by intros ? ?%elem_of_nil].
        intros r' [Hr|[->|Hr]%elem_of_cons]%elem_of_app Hc'; cbn in *; [| lia |].
        -- specialize (H1 _ Hr Hc'). cbn in H1. lia.
        -- specialize (H2 _ Hr Hc'). cbn in H2. lia.
      * exists l1, (l2 ++ [r]). split_and!; [by rewrite <- app_assoc|done|done|].
        intros r' [Hr| ->%list_elem_of_singleton]%elem_of_app Hc'; [by apply H2|done].
    + exists subs, []. split_and!; [done|done| |by intros ? ?%elem_of_nil].
      intros r' Hr Hc'. by destruct (IH r' Hr).
  - destruct (owner_loop oid subs) as [[b id]|] eqn:E.
    + destruct IH as (l1 & l2 & -> & Hc & H1 & H2). exists l1, (l2 ++ [r]).
      split_and!; [by rewrite <- app_assoc|done|done|].
      intros r' [Hr| ->%list_elem_of_singleton]%elem_of_app Hc'; [by apply H2|]. unfold covers in Hc'. congruence.
    + intros r' [Hr| ->%list_elem_of_singleton]%elem_of_app; [by apply IH|]. unfold covers. congruence.
Qed.

Lemma longest_owner_unique subs r r' : longest_owner subs r → longest_owner subs r' → r = r'.
Proof.
  intros (l1 & l2 & E & Hc & H1 & H2) (l1' & l2' & E' & Hc' & H1' & H2').
  rewrite E in E'. apply app_eq_inv in E'.
  destruct E' as [(k & -> & Ek)|(k & -> & Ek)]; destruct k as [|x k]; injection Ek as -> ->; try done.
  - specialize (H1 x). specialize (H2' r). set_unfold. naive_solver lia.
  - specialize (H1' x). specialize (H2 r'). set_unfold. naive_solver lia.
Qed.
End Owner.

(** The connection a name is forwarded to is the one in the table under
    the id of the longest registered subtree covering the name, the first
    registered of equally long ones; there is none exactly when no subtree
    covers it or the id is no longer in the table. *)
Theorem owner_of_iff v oid a :
  owner_of v oid = Some a ↔
    ∃ sub id, longest_owner oid (subtrees v) (sub, id) ∧ peers v !! id = Some a.
Proof.
  unfold owner_of. pose proof (owner_loop_spec oid (subtrees v)) as S. split.
  - destruct (owner_loop oid (subtrees v)) as [[sub id]|]; [|done]. cbn. intros H. by exists sub, id.
  - intros (sub & id & L & P). destruct (owner_loop oid (subtrees v)) as [r|].
    + by rewrite (longest_owner_unique oid _ _ _ S L).
    + destruct L as (l1 & l2 & E & Hc & _). destruct (S (sub, id)); [|done]. rewrite E. set_solver.
Qed.

(** ** The tables follow the connections *)

(** The subtrees the table holds for an id, in order of registration. *)
Definition owned (id : Z) (v : SmuxServer) : list Oid := (List.filter (fun r => r.2 =? id) (subtrees v)).*1.

Definition present (a : nat) (c : Conn) (v : SmuxServer) : Prop :=
  peers v !! peer_id c = Some a ∧ owned (peer_id c) v = peer_subtrees c.

Definition absent (c : Conn) (v : SmuxServer) : Prop :=
  peers v !! peer_id c = None ∧ owned (peer_id c) v = [].

(** With [strict], only the connections being served are in the tables;
    without, one whose answer could not be written may have stayed there. *)
Definition filed_conn (strict : bool) (a : nat) (c : Conn) (v : SmuxServer) : Prop :=
  if serving c then present a c v
  else absent c v ∨ (strict = false ∧ present a c v).

Definition authorised (v : SmuxServer) (c : Conn) : Prop :=
  Forall (λ sub, authorize (config v) (open_password c) sub = true) (peer_subtrees c).

Record tables_ok (strict : bool) (s : System) : Prop := {
  ok_next : next_peer_id (server s) = as_u32 (1 + Z.of_nat (next_conn s));
  ok_conn a c : conns s !! a = Some c →
    (a < next_conn s)%nat ∧ peer_id c = as_u32 (1 + Z.of_nat a) ∧
    authorised (server s) c ∧ filed_conn strict a c (server s);
  ok_id id : peers (server s) !! id ≠ None ∨ owned id (server s) ≠ [] →
    ∃ a c, conns s !! a = Some c ∧ peer_id c = id
}.

Definition few_connections (s : System) : Prop := Z.of_nat (next_conn s) <= 2 ^ 32.

Lemma peer_id_inj i j :
  Z.of_nat i < 2 ^ 32 → Z.of_nat j < 2 ^ 32 →
  as_u32 (1 + Z.of_nat i) = as_u32 (1 + Z.of_nat j) → i = j.
Proof. intros Hi Hj E. unfold wrap_u in E. Z.div_mod_to_equations. lia. Qed.

Lemma conn_id_inj strict s a c a' c' :
  tables_ok strict s → few_connections s →
  conns s !! a = Some c → conns s !! a' = Some c' → peer_id c = peer_id c' → a = a'.
Proof.
  intros T F H H' E. destruct (ok_conn _ _ T _ _ H) as (? & E1 & _), (ok_conn _ _ T _ _ H') as (? & E2 & _).
  unfold few_connections in F. apply peer_id_inj; [lia|lia|congruence].
Qed.

(** A turn of connection [a] that touches the tables only under its id. *)
Lemma tables_ok_turn strict s a c c' v' :
  tables_ok strict s → few_connections s → conns s !! a = Some c →
  peer_id c' = peer_id c → open_password c' = open_password c →
  next_peer_id v' = next_peer_id (server s) → config v' = config (server s) →
  (∀ id, id ≠ peer_id c → peers v' !! id = peers (server s) !! id ∧ owned id v' = owned id (server s)) →
  authorised v' c' → filed_conn strict a c' v' →
  tables_ok strict (set_conn a c' (set_server v' s)).
Proof.
  intros T F Hc Eid Epw En Ecfg Hother Ha Hf.
  pose proof (ok_conn _ _ T _ _ Hc) as (Hlt & Hid & _). split; cbn.
  - rewrite En. by apply (ok_next _ _ T).
  - intros a1 c1. destruct (decide (a1 = a)) as [->|Hne].
    { rewrite lookup_insert_eq. intros [= <-]. split_and!; [done|by rewrite Eid|done|done]. }
    rewrite lookup_insert_ne by done. intros H1. destruct (ok_conn _ _ T _ _ H1) as (L1 & I1 & A1 & F1).
    assert (Hd : peer_id c1 ≠ peer_id c).
    { intros E. apply Hne. by apply (conn_id_inj strict s a1 c1 a c). }
    destruct (Hother _ Hd) as [P O]. split_and!; [done|done|by unfold authorised; rewrite Ecfg|].
    unfold filed_conn, present, absent in *. by rewrite P, O.
  - intros id Hin. destruct (decide (id = peer_id c)) as [->|Hne].
    { exists a, c'. by rewrite lookup_insert_eq. }
    destruct (Hother id Hne) as [P O]. rewrite P, O in Hin.
    destruct (ok_id _ _ T id Hin) as (a1 & c1 & H1 & <-).
    destruct (decide (a1 = a)) as [->|Hna]; [exists a, c'|exists a1, c1].
    + rewrite lookup_insert_eq. split; [done|]. congruence.
    + by rewrite lookup_insert_ne.
Qed.

(** A turn that leaves the tables, the subtrees and the loop alone. *)
Lemma tables_ok_quiet strict s a c c' :
  tables_ok strict s → few_connections s → conns s !! a = Some c →
  peer_id c' = peer_id c → open_password c' = open_password c →
  peer_subtrees c' = peer_subtrees c → serving c' = serving c →
  tables_ok strict (set_conn a c' s).
Proof.
  intros T F Hc E1 E2 E3 E4. pose proof (ok_conn _ _ T _ _ Hc) as (_ & _ & A & Fc).
  replace s with (set_server (server s) s) at 1 by (by destruct s).
  eapply tables_ok_turn; try done.
  - unfold authorised in *. by rewrite E2, E3.
  - unfold filed_conn, present, absent in *. by rewrite E1, E3, E4.
Qed.

Lemma owned_app id l v :
  owned id (mkServer (peers v) (subtrees v ++ l) (next_peer_id v) (config v)) =
    owned id v ++ (List.filter (fun r => r.2 =? id) l).*1.
Proof. unfold owned. cbn. by rewrite List.filter_app, fmap_app. Qed.

Lemma owned_tear_down id id' v :
  owned id' (tear_down id v) = if id' =? id then [] else owned id' v.
Proof.
  unfold owned, tear_down, retain. cbn [subtrees]. induction (subtrees v) as [|[o i] l IH]; cbn.
  { by case_match. }
  destruct (Z.eqb_spec id' id) as [->|Hne].
  - destruct (Z.eqb_spec i id) as [->|Hi]; cbn; [done|].
    by destruct (Z.eqb_spec i id); [congruence|].
  - destruct (Z.eqb_spec i id) as [->|Hi]; cbn [negb].
    + destruct (Z.eqb_spec id id'); [congruence|done].
    + cbn. destruct (i =? id'); cbn; [f_equal|]; done.
Qed.

Lemma set_conn_twice a c c' v s :
  set_conn a c (set_server v (set_conn a c' s)) = set_conn a c (set_server v s).
Proof. unfold set_conn, set_server. cbn. by rewrite insert_insert_eq. Qed.

Lemma set_conn_again a c c' s : set_conn a c (set_conn a c' s) = set_conn a c s.
Proof. unfold set_conn. cbn. by rewrite insert_insert_eq. Qed.

Lemma accept_ok strict first s :
  tables_ok strict s → few_connections (accept first s) → tables_ok strict (accept first s).
Proof.
  intros T. unfold accept. destruct first as [buf|]; [|done].
  destruct (decode_smux_pdu buf) as [[[[o| | | | |] n]|]|]; try done.
  intros F. unfold few_connections in F. cbn [next_conn] in F.
  pose proof (ok_next _ _ T) as En.
  assert (Fresh : ∀ a c, conns s !! a = Some c → peer_id c ≠ next_peer_id (server s)).
  { intros a c H E. destruct (ok_conn _ _ T _ _ H) as (L & I & _). rewrite En, I in E.
    apply peer_id_inj in E; lia. }
  assert (Free : peers (server s) !! next_peer_id (server s) = None ∧ owned (next_peer_id (server s)) (server s) = []).
  { split.
    - destruct (peers (server s) !! _) eqn:E; [|done].
      destruct (ok_id _ _ T (next_peer_id (server s))) as (a & c & H & I); [left; by rewrite E|].
      by destruct (Fresh a c H).
    - destruct (owned _ (server s)) eqn:E; [done|].
      destruct (ok_id _ _ T (next_peer_id (server s))) as (a & c & H & I); [right; by rewrite E|].
      by destruct (Fresh a c H). }
  destruct Free as [Fp Fo]. split; cbn.
  - rewrite En. unfold wrap_u. rewrite Zplus_mod_idemp_l. f_equal. lia.
  - intros a c. destruct (decide (a = next_conn s)) as [->|Hne].
    { rewrite lookup_insert_eq. intros [= <-]. split_and!; [lia|done|by constructor|].
      unfold filed_conn, present. cbn. by rewrite lookup_insert_eq. }
    rewrite lookup_insert_ne by done. intros H. destruct (ok_conn _ _ T _ _ H) as (L & I & A & Fc).
    split_and!; [lia|done|done|]. pose proof (Fresh a c H) as Hd. unfold filed_conn, present, absent in *.
    cbn. by rewrite lookup_insert_ne by done.
  - intros id Hin. destruct (decide (id = next_peer_id (server s))) as [->|Hne].
    + eexists _, _. by rewrite lookup_insert_eq.
    + rewrite lookup_insert_ne in Hin by done. destruct (ok_id _ _ T id Hin) as (a & c & H & I).
      exists a, c. split; [|done]. rewrite lookup_insert_ne; [done|].
      destruct (ok_conn _ _ T _ _ H) as (L & _). lia.
Qed.

Lemma end_loop_ok strict a c s :
  tables_ok strict s → few_connections s → conns s !! a = Some c → tables_ok strict (end_loop a c s).
Proof.
  intros T F Hc. eapply tables_ok_turn; try done.
  - intros id Hne. split; [by apply lookup_delete_ne|]. rewrite owned_tear_down.
    by destruct (Z.eqb_spec id (peer_id c)).
  - by destruct (ok_conn _ _ T _ _ Hc) as (_ & _ & A & _).
  - left. split; [apply lookup_delete_eq|]. rewrite owned_tear_down. by rewrite Z.eqb_refl.
Qed.

Lemma register_ok strict a c sub op s :
  tables_ok strict s → few_connections s → conns s !! a = Some c → serving c = true →
  tables_ok strict (register a c sub op s).2 ∧
  next_conn (register a c sub op s).2 = next_conn s ∧
  ∃ c', conns (register a c sub op s).2 !! a = Some c' ∧ serving c' = true ∧ peer_id c' = peer_id c.
Proof.
  intros T F Hc Hs. unfold register. destruct (op =? 1); cbn; [|by split_and!; [done|done|exists c]].
  destruct (authorize _ _ _) eqn:E; cbn; [|by split_and!; [done|done|exists c]].
  pose proof (ok_conn _ _ T _ _ Hc) as (_ & _ & A & Fc).
  unfold filed_conn in Fc. rewrite Hs in Fc. destruct Fc as [P O].
  split_and!; [|done|by eexists; rewrite lookup_insert_eq].
  eapply tables_ok_turn; try done.
  - intros id Hne. split; [done|]. unfold add_subtree. rewrite owned_app. cbn.
    destruct (Z.eqb_spec (peer_id c) id); [congruence|]. cbn. by rewrite app_nil_r.
  - unfold authorised in *. cbn. apply Forall_app. by repeat constructor.
  - unfold filed_conn. cbn. rewrite Hs. split; [done|]. cbn [peer_id push_subtree].
    unfold add_subtree. rewrite owned_app. cbn. rewrite Z.eqb_refl. cbn. by rewrite O.
Qed.

Lemma stop_serving_present a c s :
  tables_ok false s → few_connections s → conns s !! a = Some c →
  tables_ok false (set_conn a (stop_serving c) s).
Proof.
  intros T F Hc. pose proof (ok_conn _ _ T _ _ Hc) as (_ & _ & A & Fc).
  replace s with (set_server (server s) s) at 1 by (by destruct s).
  eapply tables_ok_turn; try done. unfold filed_conn in *. cbn. destruct (serving c); [right|]; done.
Qed.

(** The events whose writes succeed. *)
Definition write_succeeds (e : Event) : Prop :=
  match e with Serve _ write_ok => write_ok = true | _ => True end.

Lemma serve_turn_ok strict a write_ok s :
  tables_ok strict s → few_connections s → strict = false ∨ write_ok = true →
  tables_ok strict (serve_turn a write_ok s).2.
Proof.
  intros T F W. unfold serve_turn. destruct (conns s !! a) as [c|] eqn:Hc; [|done].
  destruct (serving c) eqn:Hs; [|done]. destruct (inbox c) as [|p q].
  { destruct (reading c); [done|]. by apply end_loop_ok. }
  set (c1 := set_inbox q c). set (s1 := set_conn a c1 s).
  assert (T1 : tables_ok strict s1) by (by apply (tables_ok_quiet strict s a c c1)).
  assert (H1 : conns s1 !! a = Some c1) by (unfold s1; cbn; apply lookup_insert_eq).
  destruct p as [o|cl|r|so|m|sub prio op]; try done.
  - by apply end_loop_ok.
  - destruct (register_ok strict a c1 sub op s1 T1 F H1 Hs) as (T2 & N2 & c2 & H2 & S2 & I2).
    destruct (register a c1 sub op s1) as [code s2]. cbn [snd] in *.
    destruct write_ok; [done|]. destruct W as [->|]; [|done]. cbn [snd].
    unfold abandon. rewrite H2. apply stop_serving_present; [done| |done].
    unfold few_connections. rewrite N2. done.
Qed.

Lemma read_turn_ok strict a r s :
  tables_ok strict s → few_connections s → tables_ok strict (read_turn a r s).
Proof.
  intros T F. unfold read_turn. destruct (conns s !! a) as [c|] eqn:Hc; [|done].
  destruct (reading c); [|done].
  destruct r as [buf|]; [|by apply (tables_ok_quiet strict s a c)].
  destruct (decode_smux_pdu buf) as [[[p n]|]|]; try (by apply (tables_ok_quiet strict s a c)).
  destruct (is_response p); [by apply (tables_ok_quiet strict s a c)|].
  destruct (serving c) eqn:Hs; [|by apply (tables_ok_quiet strict s a c)].
  case_match; [|done]. by apply (tables_ok_quiet strict s a c).
Qed.

Lemma step_next_conn s e : (next_conn s <= next_conn (step s e))%nat.
Proof.
  destruct e as [first|a r|a w|a r]; cbn.
  - unfold accept. destruct first as [buf|]; [|done].
    destruct (decode_smux_pdu buf) as [[[[o| | | | |] n]|]|]; cbn; lia.
  - unfold read_turn. repeat (case_match; try done).
  - unfold serve_turn. destruct (conns s !! a); [|done]. destruct (serving _); [|done].
    destruct (inbox _) as [|[o|cl|r|so|m|sub prio op] q]; try done; [by case_match|].
    unfold register, abandon. repeat (case_match; simplify_eq; try done).
  - by destruct (conns s !! a).
Qed.

Lemma run_next_conn es s : (next_conn s <= next_conn (run s es))%nat.
Proof.
  revert s. induction es as [|e es IH]; intros s; cbn; [done|].
  pose proof (step_next_conn s e). pose proof (IH (step s e)). unfold run in *. lia.
Qed.

Lemma step_ok strict s e :
  tables_ok strict s → few_connections (step s e) → strict = false ∨ write_succeeds e →
  tables_ok strict (step s e).
Proof.
  intros T F W. assert (F0 : few_connections s).
  { unfold few_connections in *. pose proof (step_next_conn s e). lia. }
  destruct e as [first|a r|a w|a r]; cbn.
  - by apply accept_ok.
  - by apply read_turn_ok.
  - by apply serve_turn_ok.
  - destruct (conns s !! a) as [c|] eqn:E; [|done]. by apply (tables_ok_quiet strict s a c).
Qed.

Lemma initial_ok strict cfg : tables_ok strict (initial cfg).
Proof. split; [done|done|]. cbn. by intros id [H|H]. Qed.

Lemma run_ok strict s es :
  tables_ok strict s → few_connections (run s es) → strict = false ∨ Forall write_succeeds es →
  tables_ok strict (run s es).
Proof.
  revert s. induction es as [|e es IH]; intros s T F W; [done|]. cbn. apply IH; [|done|].
  - apply step_ok; [done| |].
    + unfold few_connections in *. pose proof (run_next_conn es (step s e)) as L.
      change (run s (e :: es)) with (run (step s e) es) in F. lia.
    + destruct W as [|W%Forall_cons]; [by left|]. right. by destruct W.
  - destruct W as [|W%Forall_cons]; [by left|]. right. by destruct W.
Qed.

Lemma step_config s e : config (server (step s e)) = config (server s).
Proof.
  destruct e as [first|a r|a w|a r]; cbn.
  - unfold accept. destruct first as [buf|]; [|done].
    by destruct (decode_smux_pdu buf) as [[[[o| | | | |] n]|]|].
  - unfold read_turn. repeat (case_match; try done).
  - unfold serve_turn. destruct (conns s !! a); [|done]. destruct (serving _); [|done].
    destruct (inbox _) as [|[o|cl|r|so|m|sub prio op] q]; try done; [by case_match|].
    unfold register, abandon. repeat (case_match; simplify_eq; try done).
  - by destruct (conns s !! a).
Qed.

Lemma run_config s es : config (server (run s es)) = config (server s).
Proof.
  revert s. induction es as [|e es IH]; intros s; [done|]. cbn.
  transitivity (config (server (step s e))); [apply IH|apply step_config].
Qed.

Lemma elem_of_owned sub id v : (sub, id) ∈ subtrees v ↔ sub ∈ owned id v.
Proof.
  unfold owned. rewrite list_elem_of_fmap. setoid_rewrite list_elem_of_In. setoid_rewrite filter_In. split.
  - intros H. exists (sub, id). cbn. by rewrite Z.eqb_refl.
  - intros ([o i] & -> & H & E). cbn in *. by apply Z.eqb_eq in E as ->.
Qed.

(** C23. While the answers to registrations are written, the table of peers
    holds exactly the connections being served, each under its id, and the
    table of subtrees exactly what those have registered, in order; a
    connection that is no longer served has nothing left in either. *)
Theorem smux_tables_follow_connections cfg es a c :
  Forall write_succeeds es → few_connections (run (initial cfg) es) →
  conns (run (initial cfg) es) !! a = Some c →
  let v := server (run (initial cfg) es) in
  if serving c
  then peers v !! peer_id c = Some a ∧ owned (peer_id c) v = peer_subtrees c
  else peers v !! peer_id c = None ∧ owned (peer_id c) v = [].
Proof.
  intros W F H v. pose proof (run_ok true (initial cfg) es (initial_ok true cfg) F (or_intror W)) as T.
  destruct (ok_conn _ _ T _ _ H) as (_ & _ & _ & Fc). unfold filed_conn in Fc.
  destruct (serving c); [done|]. by destruct Fc as [|[? _]].
Qed.

(** Whatever happens on the network, every subtree in the table was
    registered by a connection whose password authorises it. *)
Theorem subtrees_are_authorised cfg es sub id :
  few_connections (run (initial cfg) es) → (sub, id) ∈ subtrees (server (run (initial cfg) es)) →
  ∃ a c, conns (run (initial cfg) es) !! a = Some c ∧ peer_id c = id ∧ sub ∈ peer_subtrees c ∧
    authorize cfg (open_password c) sub = true.
Proof.
  intros F Hin%elem_of_owned.
  pose proof (run_ok false (initial cfg) es (initial_ok false cfg) F (or_introl eq_refl)) as T.
  destruct (ok_id _ _ T id) as (a & c & H & <-); [right; by intros E; rewrite E in Hin; apply elem_of_nil in Hin|].
  destruct (ok_conn _ _ T _ _ H) as (_ & _ & A & Fc). exists a, c.
  assert (Hs : sub ∈ peer_subtrees c).
  { unfold filed_conn in Fc. destruct (serving c); [by destruct Fc as [_ <-]|].
    destruct Fc as [[_ E]|[_ [_ <-]]]; [|done]. rewrite E in Hin. by apply elem_of_nil in Hin. }
  split_and!; [done|done|done|]. unfold authorised in A. rewrite Forall_forall, run_config in A. by apply A.
Qed.

(** ** Reclaiming a closed connection *)

Definition is_turn (a : nat) (e : Event) : bool :=
  match e with Serve b _ => (b =? a)%nat | _ => false end.

Definition turns (a : nat) (es : list Event) : nat := length (List.filter (is_turn a) es).

(** The turns the loop still has to take once nothing more is queued. *)
Definition backlog (c : Conn) : nat := if serving c then S (length (inbox c)) else 0.


(** What another connection's turn leaves alone. *)
Definition event_conn (e : Event) : option nat :=
  match e with Accepted _ => None | Read a _ | Serve a _ | SetSlot a _ => Some a end.

Lemma register_other a a' c sub op s :
  a' ≠ a → conns (register a c sub op s).2 !! a' = conns s !! a'.
Proof. intros Hne. unfold register. repeat case_match; cbn; try done. by rewrite lookup_insert_ne. Qed.

Lemma step_other s e a c :
  conns s !! a = Some c → (a < next_conn s)%nat → event_conn e ≠ Some a →
  conns (step s e) !! a = Some c.
Proof.
  intros H L N. destruct e as [first|a' r|a' w|a' r]; cbn in N |- *.
  - unfold accept. destruct first as [buf|]; [|done].
    destruct (decode_smux_pdu buf) as [[[[o| | | | |] n]|]|]; try done. cbn.
    rewrite lookup_insert_ne by lia. done.
  - assert (a' ≠ a) by congruence. unfold read_turn.
    repeat (case_match; try done); cbn; by rewrite lookup_insert_ne.
  - assert (a' ≠ a) by congruence. unfold serve_turn.
    destruct (conns s !! a') as [c'|]; [|done]. destruct (serving c'); [|done].
    destruct (inbox c') as [|p q].
    { case_match; cbn; [done|]. by rewrite lookup_insert_ne. }
    destruct p as [o|cl|r|so|m|sub prio op]; cbn; rewrite ?lookup_insert_ne by done; try done.
    pose proof (register_other a' a (set_inbox q c') sub op (set_conn a' (set_inbox q c') s) ltac:(done)) as R.
    destruct (register _ _ _ _ _) as [code s2]. cbn in R. rewrite lookup_insert_ne in R by done.
    destruct w; cbn; [congruence|]. unfold abandon. destruct (conns s2 !! a'); cbn; [|congruence].
    rewrite lookup_insert_ne by done. congruence.
  - assert (a' ≠ a) by congruence. destruct (conns s !! a'); [|done]. cbn. by rewrite lookup_insert_ne.
Qed.

Lemma register_self a c sub op s :
  conns s !! a = Some c →
  ∃ c', conns (register a c sub op s).2 !! a = Some c' ∧ reading c' = reading c ∧
    serving c' = serving c ∧ peer_id c' = peer_id c ∧ inbox c' = inbox c.
Proof.
  intros H. unfold register. repeat case_match; cbn; [|by exists c..].
  eexists. by rewrite lookup_insert_eq.
Qed.

(** A connection whose reader has ended only runs down its queue. *)
Lemma step_closed s e a c :
  conns s !! a = Some c → (a < next_conn s)%nat → reading c = false →
  ∃ c', conns (step s e) !! a = Some c' ∧ reading c' = false ∧ peer_id c' = peer_id c ∧
    (backlog c' <= backlog c - turns a [e])%nat.
Proof.
  intros H L R. destruct (decide (event_conn e = Some a)) as [E|E].
  2:{ exists c. split_and!; [by apply step_other|done|done|].
      unfold turns. destruct e as [first|a' r|a' w|a' r]; cbn in *; try lia.
      destruct (Nat.eqb_spec a' a); [congruence|cbn; lia]. }
  destruct e as [first|a' r|a' w|a' r]; cbn in E; simplify_eq; cbn [step].
  - exists c. unfold read_turn. rewrite H, R. by split_and!; [..|cbn; lia].
  - assert (Ht : turns a [Serve a w] = 1%nat) by (unfold turns; cbn; by rewrite Nat.eqb_refl).
    rewrite Ht. unfold serve_turn. rewrite H. unfold backlog.
    destruct (serving c) eqn:Hs; [|exists c; split_and!; try done; by rewrite Hs].
    destruct (inbox c) as [|p q] eqn:Hq.
    { rewrite R. cbn. eexists. rewrite lookup_insert_eq. split_and!; [done|done|done|cbn; lia]. }
    destruct p as [o|cl|r|so|m|sub prio op].
    1-5: cbn; eexists; rewrite lookup_insert_eq; split_and!; [done|done|done|cbn; rewrite ?Hs; lia].
    set (c1 := set_inbox q c).
    destruct (register_self a c1 sub op (set_conn a c1 s)) as (c2 & H2 & R2 & S2 & I2 & Q2).
    { cbn. apply lookup_insert_eq. }
    destruct (register a c1 sub op (set_conn a c1 s)) as [code s2]. cbn [snd] in *.
    unfold c1 in R2, S2, I2, Q2. cbn in R2, S2, I2, Q2.
    destruct w; cbn [snd].
    + exists c2. split_and!; [done|congruence|congruence|]. rewrite S2, Q2, Hs. cbn. lia.
    + unfold abandon. rewrite H2. eexists. cbn. rewrite lookup_insert_eq. split_and!; [done|cbn; congruence|cbn; congruence|cbn; lia].
  - rewrite H. eexists. cbn. rewrite lookup_insert_eq. unfold backlog, turns.
    split_and!; [done|done|done|cbn; lia].
Qed.

Lemma run_closed es s a c :
  conns s !! a = Some c → (a < next_conn s)%nat → reading c = false →
  ∃ c', conns (run s es) !! a = Some c' ∧ peer_id c' = peer_id c ∧
    (backlog c' <= backlog c - turns a es)%nat.
Proof.
  revert s c. induction es as [|e es IH]; intros s c H L R.
  { exists c. by split_and!; [..|cbn; lia]. }
  destruct (step_closed s e a c H L R) as (c1 & H1 & R1 & I1 & B1).
  pose proof (step_next_conn s e) as N.
  destruct (IH (step s e) c1 H1 ltac:(lia) R1) as (c2 & H2 & I2 & B2).
  exists c2. split_and!; [done|congruence|].
  assert (turns a (e :: es) = (turns a [e] + turns a es)%nat) as ->.
  { unfold turns. cbn. by destruct (is_turn a e). }
  lia.
Qed.

(** A connection whose stream has ended is cleared away: once its loop has
    had one more turn than it had PDUs queued, whatever the other tasks did in
    between, it is no longer served and neither table mentions its id. *)
Theorem closed_connection_is_reclaimed cfg es0 es a c :
  conns (run (initial cfg) es0) !! a = Some c → reading c = false →
  Forall write_succeeds (es0 ++ es) → few_connections (run (initial cfg) (es0 ++ es)) →
  (length (inbox c) < turns a es)%nat →
  let s := run (initial cfg) (es0 ++ es) in
  ∃ c', conns s !! a = Some c' ∧ serving c' = false ∧
    peers (server s) !! peer_id c = None ∧ owned (peer_id c) (server s) = [].
Proof.
  intros H R W F L s. pose proof (run_ok true _ _ (initial_ok true cfg) F (or_intror W)) as T.
  assert (E : s = run (run (initial cfg) es0) es) by (unfold s, run; apply fold_left_app).
  assert (T0 : tables_ok true (run (initial cfg) es0)).
  { apply run_ok; [apply initial_ok| |right; by apply Forall_app in W as [? _]].
    unfold few_connections in *. fold s in F. rewrite E in F.
    pose proof (run_next_conn es (run (initial cfg) es0)). lia. }
  destruct (ok_conn _ _ T0 _ _ H) as (La & _).
  destruct (run_closed es _ a c H La R) as (c' & H' & I' & B').
  fold s in T. rewrite <- E in H'. exists c'. split; [done|].
  assert (S' : serving c' = false).
  { unfold backlog in B'. destruct (serving c'); [|done]. destruct (serving c); lia. }
  split; [done|]. destruct (ok_conn _ _ T _ _ H') as (_ & _ & _ & Fc). unfold filed_conn in Fc.
  rewrite S' in Fc. destruct Fc as [[P O]|[? _]]; [|done]. by rewrite <- I'.
Qed.

(** ** A lost answer leaves its connection in the tables *)

Definition rows (id : Z) (v : SmuxServer) : option nat * list Oid := (peers v !! id, owned id v).

(** The tables change under the ids of the connection served, or of the one
    accepted. *)
Lemma step_rows s e id :
  (∀ a c, event_conn e = Some a → conns s !! a = Some c → serving c = true → peer_id c ≠ id) →
  (next_conn (step s e) ≠ next_conn s → next_peer_id (server s) ≠ id) →
  rows id (server (step s e)) = rows id (server s).
Proof.
  intros Hc Hn. destruct e as [first|a r|a w|a r]; cbn [step] in *.
  - unfold accept in *. destruct first as [buf|]; [|done].
    destruct (decode_smux_pdu buf) as [[[[o| | | | |] n]|]|]; try done. cbn in Hn.
    unfold rows. cbn. rewrite lookup_insert_ne; [done|]. apply Hn. lia.
  - unfold read_turn. repeat (case_match; try done).
  - unfold serve_turn. destruct (conns s !! a) as [c|] eqn:E; [|done].
    destruct (serving c) eqn:Hs; [|done]. specialize (Hc a c eq_refl E Hs).
    assert (Hend : rows id (tear_down (peer_id c) (server s)) = rows id (server s)).
    { unfold rows. rewrite owned_tear_down. destruct (Z.eqb_spec id (peer_id c)); [congruence|].
      f_equal. by apply lookup_delete_ne. }
    destruct (inbox c) as [|p q]; [by case_match|].
    destruct p as [o|cl|r|so|m|sub prio op]; try done.
    assert (Hadd : rows id (add_subtree sub (peer_id c) (server s)) = rows id (server s)).
    { unfold rows, add_subtree. rewrite owned_app. cbn. destruct (Z.eqb_spec (peer_id c) id); [congruence|].
      cbn. by rewrite app_nil_r. }
    unfold register, abandon. cbn.
    destruct (op =? 1); [destruct (authorize (config (server s)) (open_password c) sub)|]; cbn;
      destruct w; cbn; rewrite ?lookup_insert_eq; done.
  - by destruct (conns s !! a).
Qed.

(** A connection that is not served stays so, with its subtrees. *)
Lemma step_unserved s e a c :
  conns s !! a = Some c → (a < next_conn s)%nat → serving c = false →
  ∃ c', conns (step s e) !! a = Some c' ∧ serving c' = false ∧ peer_id c' = peer_id c ∧
    peer_subtrees c' = peer_subtrees c.
Proof.
  intros H L Hs. destruct (decide (event_conn e = Some a)) as [E|E].
  2:{ exists c. split_and!; [by apply step_other|done..]. }
  destruct e as [first|a' r|a' w|a' r]; cbn in E; simplify_eq; cbn [step].
  - unfold read_turn. rewrite H. repeat case_match; cbn;
      first [by exists c|eexists; rewrite lookup_insert_eq; by split_and!].
  - unfold serve_turn. rewrite H, Hs. by exists c.
  - rewrite H. cbn. eexists. by rewrite lookup_insert_eq.
Qed.


Lemma run_unserved es s a c :
  tables_ok false s → few_connections (run s es) →
  conns s !! a = Some c → serving c = false →
  rows (peer_id c) (server (run s es)) = rows (peer_id c) (server s).
Proof.
  revert s c. induction es as [|e es IH]; intros s c T F H Hs; [done|].
  change (run s (e :: es)) with (run (step s e) es) in *.
  pose proof (run_next_conn es (step s e)) as N1. pose proof (step_next_conn s e) as N0.
  destruct (ok_conn _ _ T _ _ H) as (L & I & _).
  destruct (step_unserved s e a c H L Hs) as (c1 & H1 & S1 & I1 & _).
  assert (F1 : few_connections (step s e)) by (unfold few_connections in *; lia).
  rewrite <- I1. rewrite (IH (step s e) c1); [|apply step_ok; auto|done..].
  rewrite I1. apply step_rows.
  - intros a' c' _ H' S' E'. assert (a' = a) as ->; [|congruence].
    eapply (conn_id_inj false s); [done| |done..]. unfold few_connections in *; lia.
  - intros Hn. rewrite (ok_next _ _ T), I. unfold few_connections in *. intros E'.
    apply peer_id_inj in E'; lia.
Qed.

(** When the answer to a registration cannot be written, the task returns
    before the tear-down: its id and all its subtrees stay in the tables,
    whatever happens later. *)
Theorem lost_answer_is_never_cleared cfg es0 es a c sub prio op q :
  let s := run (initial cfg) es0 in
  conns s !! a = Some c → serving c = true → inbox c = Register sub prio op :: q →
  few_connections (run (step s (Serve a false)) es) →
  let v := server (run (step s (Serve a false)) es) in
  peers v !! peer_id c = Some a ∧ ∃ subs, owned (peer_id c) v = peer_subtrees c ++ subs.
Proof.
  intros s H Hs Hq F v.
  pose proof (run_next_conn es (step s (Serve a false))) as N1. pose proof (step_next_conn s (Serve a false)) as N0.
  assert (T : tables_ok false s).
  { apply run_ok; [apply initial_ok| |by left]. fold s. unfold few_connections in *. lia. }
  destruct (ok_conn _ _ T _ _ H) as (L & _ & _ & Fc). unfold filed_conn in Fc. rewrite Hs in Fc. destruct Fc as [P O].
  set (c1 := set_inbox q c).
  assert (E : ∃ c2, conns (step s (Serve a false)) !! a = Some c2 ∧ serving c2 = false ∧ peer_id c2 = peer_id c ∧
    peers (server (step s (Serve a false))) !! peer_id c = Some a ∧
    ∃ subs, owned (peer_id c) (server (step s (Serve a false))) = peer_subtrees c ++ subs).
  { cbn [step]. unfold serve_turn. rewrite H, Hs, Hq. unfold register.
    destruct (if op =? 1 then _ else false) eqn:A; cbn [fst snd]; unfold abandon, set_conn, set_server; cbn;
      rewrite ?lookup_insert_eq; cbn; eexists; rewrite ?lookup_insert_eq; split_and!; try done.
    - exists [sub]. etransitivity; [apply (owned_app (peer_id c) [(sub, peer_id c)] (server s))|].
      rewrite O. cbn. by rewrite Z.eqb_refl.
    - exists []. by rewrite app_nil_r. }
  destruct E as (c2 & H2 & S2 & I2 & P2 & subs & O2).
  pose proof (run_unserved es (step s (Serve a false)) a c2) as R. rewrite I2 in R. unfold rows in R.
  assert (F1 : few_connections (step s (Serve a false))) by (unfold few_connections in *; lia).
  specialize (R (step_ok false s _ T F1 (or_introl eq_refl)) F H2 S2).
  pose proof (f_equal fst R) as R1. pose proof (f_equal snd R) as R2. cbn [fst snd] in R1, R2.
  unfold v. rewrite R1, R2, O2. split; [done|by exists subs].
Qed.

(** ** Forwarding *)

Lemma slot_set a r c s : conns s !! a = Some c → slot_of a (set_conn a (set_slot r c) s) = r.
Proof. intros H. unfold slot_of, set_conn. cbn. by rewrite lookup_insert_eq. Qed.

Lemma poll_idle a n rounds s :
  slot_of a s = None → poll_slot a (replicate n [] ++ rounds) s = poll_slot a rounds s.
Proof. intros H. induction n as [|n IH]; [done|]. cbn. by rewrite H. Qed.

Lemma decode_response_is_response p :
  carried_pdu p → pdu_type p = Response → fits (encode_snmp_response p) →
  ∃ n, decode_smux_pdu (encode_snmp_response p) = okay (Snmp (mkMessage V1 [] p), n).
Proof.
  intros Hp Ht Hf. eexists. rewrite <- (app_nil_r (encode_snmp_response p)) at 1.
  by apply smux_pdu_roundtrip; [apply wire_response|].
Qed.

Lemma poll_response a c p n rounds s :
  conns s !! a = Some c → reading c = true → pending_response c = None →
  carried_pdu p → pdu_type p = Response → fits (encode_snmp_response p) →
  (poll_slot a (replicate n [] ++ [Read a (Ok (encode_snmp_response p))] :: rounds) s).1 =
    Some (encode_snmp_response p).
Proof.
  intros H R N Hp Ht Hf. assert (S0 : slot_of a s = None) by (unfold slot_of; by rewrite H).
  rewrite poll_idle by done. cbn [poll_slot]. rewrite S0. cbn [run fold_left step].
  unfold run. cbn [fold_left step]. unfold read_turn. rewrite H, R.
  destruct (decode_response_is_response p Hp Ht Hf) as [m ->]. cbn [okay is_response msg_pdu].
  rewrite bool_decide_eq_true_2 by done.
  assert (S1 := slot_set a (Some (encode_snmp_response p)) c s H).
  destruct rounds; cbn [poll_slot]; by rewrite S1.
Qed.

(** The forwarder's answer is the first binding of the first response its
    connection delivers, whatever request id and error status it carries. *)
Lemma forward_relays net t oid w a c p n rounds vb vbs :
  owner_of (server (smux w)) oid = Some a → conns (smux w) !! a = Some c → reading c = true →
  net a (encode_snmp_request t (as_i32 (next_request w)) oid) =
    (true, replicate n [] ++ [Read a (Ok (encode_snmp_response p))] :: rounds) →
  carried_pdu p → pdu_type p = Response → fits (encode_snmp_response p) → variables p = vb :: vbs →
  (forward net t oid w).1 = if is_exception (vb_value vb) then None else Some vb.
Proof.
  intros Ho Hc Hr Hn Hp Ht Hf Hv. unfold forward. rewrite Ho. cbn [next_request_id smux].
  unfold forward_roundtrip. rewrite Hn. cbn [step]. rewrite Hc.
  pose proof (poll_response a (set_slot None c) p n rounds (set_conn a (set_slot None c) (smux w))) as P.
  cbn [set_conn conns] in P. rewrite lookup_insert_eq in P. specialize (P eq_refl Hr eq_refl Hp Ht Hf).
  unfold set_conn in *. destruct (poll_slot _ _ _) as [resp s']. cbn [fst] in P. subst resp. cbn [fst mbind option_bind].
  unfold first_binding. pose proof (response_decodes p [] Hp Ht Hf) as D. rewrite app_nil_r in D.
  rewrite D. cbn [okay]. by rewrite Hv.
Qed.

(** A forwarded GET or GETNEXT gives the manager the first binding of the
    first response that arrives on the connection before the deadline — of any
    response: neither its request id, which may be that of an earlier request
    that timed out, nor its error status is looked at. *)
Theorem any_response_answers net t oid w a c p n rounds vb vbs :
  owner_of (server (smux w)) oid = Some a → conns (smux w) !! a = Some c → reading c = true →
  net a (encode_snmp_request t (as_i32 (next_request w)) oid) =
    (true, replicate n [] ++ [Read a (Ok (encode_snmp_response p))] :: rounds) →
  carried_pdu p → pdu_type p = Response → fits (encode_snmp_response p) → variables p = vb :: vbs →
  (forward net t oid w).1 = if is_exception (vb_value vb) then None else Some vb.
Proof. apply forward_relays. Qed.

(** A peer that answers each request with one binding, and the network that
    carries the request to it and its response back. *)
Section Peer.
Context (answer : PduType → Oid → VarBind).

Definition peer_answer (p : Pdu) : Pdu :=
  mkPdu Response (request_id p) 0 0 ((fun vb => answer (pdu_type p) (vb_oid vb)) <$> variables p) None.

Definition peer_network (a : nat) (req : bytes) : bool * list (list Event) :=
  match parse_tlv req with
  | Some (Ok (t, content, _)) =>
      match decode_bare_snmp_pdu t content with
      | Some (Ok p) => (true, [[Read a (Ok (encode_snmp_response (peer_answer p)))]])
      | _ => (true, [])
      end
  | _ => (true, [])
  end.

Lemma peer_reads_request a t id oid :
  is_i32 id → Oid.wf oid → packed_oid oid → fits (encode_snmp_request t id oid) →
  peer_network a (encode_snmp_request t id oid) =
    (true, [[Read a (Ok (encode_snmp_response (mkPdu Response id 0 0 [answer t oid] None)))]]).
Proof.
  intros Hid Hw Hp. rewrite encode_request_body. intros Hf%fits_tlv. unfold peer_network.
  pose proof (parse_tlv_app (tag t) (pdu_body id 0 0 [null_var oid]) [] Hf) as E. rewrite app_nil_r in E.
  rewrite E. cbn [okay]. rewrite <- (app_nil_r (pdu_body id 0 0 [null_var oid])).
  assert (is_i64 0) by (unfold is_i64; lia).
  rewrite decode_bare_encoded by (done || by repeat constructor). done.
Qed.

(** End to end: a GET of a name in a connected peer's subtree returns what
    the peer answers for that name, and nothing for an exception. *)
Theorem smux_get_end_to_end oid w a c :
  owner_of (server (smux w)) oid = Some a → conns (smux w) !! a = Some c → reading c = true →
  Oid.wf oid → packed_oid oid → carried_varbind (answer Get oid) →
  let id := as_i32 (next_request w) in
  fits (encode_snmp_request Get id oid) →
  fits (encode_snmp_response (mkPdu Response id 0 0 [answer Get oid] None)) →
  (forward_get peer_network oid w).1 =
    if is_exception (vb_value (answer Get oid)) then None else Some (vb_value (answer Get oid)).
Proof.
  intros Ho Hc Hr Hw Hp Ha id Hf1 Hf2. unfold forward_get, sbind, sret.
  assert (is_i64 0) by (unfold is_i64; lia).
  pose proof (forward_relays peer_network Get oid w a c (mkPdu Response id 0 0 [answer Get oid] None) 0 []
    (answer Get oid) [] Ho Hc Hr) as R. cbn [replicate app] in R.
  rewrite peer_reads_request in R by (done || apply as_i32_range).
  assert (Hcp : carried_pdu (mkPdu Response id 0 0 [answer Get oid] None)).
  { pose proof Ha as [Ha' _]. split_and!; [split_and!|..]; try done; [apply as_i32_range|..];
      by apply Forall_singleton. }
  specialize (R eq_refl Hcp eq_refl Hf2 eq_refl).
  destruct (forward peer_network Get oid w) as [r w']. cbn [fst] in *. rewrite R. by destruct (is_exception _).
Qed.
End Peer.

(** ** A peer can end the reader by a length alone *)

Lemma shift_len_value bs :
  is_bytes bs → fold_left shift_len bs 0 = as_u64 (from_bytes true bs).
Proof.
  intros Hb. pose proof (fold_shift_or 8 (wrap_u 64) bs 0 Hb) as F. rewrite digits_value_be in F.
  exact F.
Qed.

(** A length of [2^63] bytes or more makes the reader panic before it
    reads any of the content. *)
Theorem huge_length_panics tag len rest :
  length len = 8%nat → is_bytes len → 2 ^ 63 <= from_bytes true len →
  read_one_pdu (tag :: 136 :: len ++ rest) = None.
Proof.
  intros Hl Hb Hv. unfold read_one_pdu. rewrite read_exact_ok by (cbn; lia). cbn [take drop].
  rewrite read_exact_ok by (cbn; lia). cbn [take drop List.hd].
  change (Z.land 136 128 =? 0) with false. change (Z.to_nat (Z.land 136 127)) with 8%nat. cbn iota.
  rewrite take_0, drop_0, <- Hl, read_exact_ok by (rewrite length_app; lia). cbn [obind okay].
  rewrite take_app_length, shift_len_value by done.
  pose proof (from_bytes_range true len Hb) as R. rewrite Hl in R. change (8 * Z.of_nat 8) with 64 in R.
  rewrite wrap_u_id by done. by destruct (Z.ltb_spec isize_max (from_bytes true len)) as [|H]; [|unfold isize_max in H; lia].
Qed.

(** ** Witnesses *)

Definition demo_open : SmuxOpen := mkSmuxOpen 0 [1; 3; 6; 1; 4; 1; 9] [] (str "secret").
Definition demo_config : SmuxServerConfig := mkSmuxConfig [] [mkEntry (str "secret") [1; 3; 6]].
Definition demo_register : bytes := encode_register [1; 3; 6; 1; 4] 5 1.

(** A connection opens, registers a subtree and is answered. *)
Definition demo_events : list Event :=
  [Accepted (Ok (encode_open demo_open)); Read 0 (Ok demo_register); Serve 0 true].
Definition demo_conn : Conn :=
  mkConn [1; 3; 6; 1; 4; 1; 9] [] [[1; 3; 6; 1; 4]] None 1 (str "secret") [] true true.
Definition demo_system : System := run (initial demo_config) demo_events.
Definition demo_closed : list Event := demo_events ++ [Read 0 (Err IoError)].

Lemma demo_writes : Forall write_succeeds demo_events.
Proof. repeat constructor. Qed.

Lemma demo_open_wire : wire (Open demo_open) (encode_open demo_open) ∧ fits (encode_open demo_open).
Proof.
  split; [|vm_compute; reflexivity]. apply wire_open; [split_and!|split; vm_compute; reflexivity].
  - split; vm_compute; congruence.
  - repeat (apply Forall_cons; split; [split; vm_compute; congruence|]). apply Forall_nil_2.
  - apply Forall_nil_2.
  - repeat (apply Forall_cons; split; [left; split; vm_compute; congruence|]). apply Forall_nil_2.
Qed.

Lemma demo_register_wire : wire (Register [1; 3; 6; 1; 4] 5 1) demo_register ∧ fits demo_register.
Proof.
  split; [|vm_compute; reflexivity]. apply wire_register; [|done| |split; vm_compute; reflexivity].
  - repeat (apply Forall_cons; split; [split; vm_compute; congruence|]). apply Forall_nil_2.
  - split; vm_compute; congruence.
Qed.

Lemma stream_roundtrip_witness :
  reader_loop 3 (concat [encode_open demo_open; demo_register]) =
    [Open demo_open; Register [1; 3; 6; 1; 4] 5 1].
Proof.
  apply (stream_roundtrip [Open demo_open; Register [1; 3; 6; 1; 4] 5 1] [encode_open demo_open; demo_register]).
  - constructor; [apply demo_open_wire|constructor; [apply demo_register_wire|constructor]].
  - apply (bool_decide_eq_true_1 (Forall (λ b, 0 <= b < 256) _)). vm_compute. reflexivity.
Defined.

Lemma owner_of_iff_witness : owner_of (server demo_system) [1; 3; 6; 1; 4; 7] = Some 0%nat.
Proof.
  apply (proj2 (owner_of_iff (server demo_system) [1; 3; 6; 1; 4; 7] 0)).
  exists [1; 3; 6; 1; 4], 1. split; [|reflexivity]. exists [], [].
  split; [reflexivity|]. split; [reflexivity|]. split; intros r Hr; by apply elem_of_nil in Hr.
Defined.

Lemma smux_tables_follow_connections_witness :
  peers (server demo_system) !! 1 = Some 0%nat ∧ owned 1 (server demo_system) = [[1; 3; 6; 1; 4]].
Proof.
  apply (smux_tables_follow_connections demo_config demo_events 0 demo_conn demo_writes);
    [vm_compute; congruence|reflexivity].
Defined.

Lemma subtrees_are_authorised_witness :
  ∃ a c, conns demo_system !! a = Some c ∧ peer_id c = 1 ∧ [1; 3; 6; 1; 4] ∈ peer_subtrees c ∧
    authorize demo_config (open_password c) [1; 3; 6; 1; 4] = true.
Proof.
  apply (subtrees_are_authorised demo_config demo_events [1; 3; 6; 1; 4] 1); [vm_compute; congruence|].
  assert (E : subtrees (server (run (initial demo_config) demo_events)) = [([1; 3; 6; 1; 4], 1)])
    by (vm_compute; reflexivity).
  rewrite E. by apply list_elem_of_singleton.
Defined.

Lemma closed_connection_is_reclaimed_witness :
  let s := run (initial demo_config) (demo_closed ++ [Serve 0 true]) in
  ∃ c', conns s !! 0%nat = Some c' ∧ serving c' = false ∧
    peers (server s) !! 1 = None ∧ owned 1 (server s) = [].
Proof.
  apply (closed_connection_is_reclaimed demo_config demo_closed [Serve 0 true] 0 (stop_reading demo_conn));
    [reflexivity|reflexivity|repeat constructor|vm_compute; congruence|vm_compute; lia].
Defined.

Lemma lost_answer_is_never_cleared_witness :
  let s := run (initial demo_config) (take 2 demo_events) in
  let v := server (run (step s (Serve 0 false)) [Read 0 (Err IoError); Serve 0 true]) in
  peers v !! 1 = Some 0%nat ∧ ∃ subs, owned 1 v = [] ++ subs.
Proof.
  apply (lost_answer_is_never_cleared demo_config (take 2 demo_events)
    [Read 0 (Err IoError); Serve 0 true] 0
    (mkConn [1; 3; 6; 1; 4; 1; 9] [] [] None 1 (str "secret") [Register [1; 3; 6; 1; 4] 5 1] true true)
    [1; 3; 6; 1; 4] 5 1 []); [reflexivity..|vm_compute; congruence].
Defined.

Definition demo_agent : Agent := mkAgent demo_system 3.
Definition demo_oid : Oid := [1; 3; 6; 1; 4; 7].

(** A late answer to request 2 taken for the answer to request 3. *)
Lemma any_response_answers_witness :
  let late := mkPdu Response 2 0 0 [mkVarBind [1; 3; 6; 1; 4; 2] (VInteger 42)] None in
  (forward (λ _ _, (true, [[Read 0 (Ok (encode_snmp_response late))]])) Get demo_oid demo_agent).1 =
    Some (mkVarBind [1; 3; 6; 1; 4; 2] (VInteger 42)).
Proof.
  apply (any_response_answers (λ _ _, (true,
    [[Read 0 (Ok (encode_snmp_response (mkPdu Response 2 0 0 [mkVarBind [1; 3; 6; 1; 4; 2] (VInteger 42)] None)))]]))
    Get demo_oid demo_agent 0 demo_conn
    (mkPdu Response 2 0 0 [mkVarBind [1; 3; 6; 1; 4; 2] (VInteger 42)] None) 0 []
    (mkVarBind [1; 3; 6; 1; 4; 2] (VInteger 42)) []); try reflexivity.
  split_and!; [split_and!| |reflexivity]; repeat constructor; vm_compute; congruence.
Defined.

Lemma smux_get_end_to_end_witness :
  (forward_get (peer_network (λ _ o, mkVarBind o (VInteger 42))) demo_oid demo_agent).1 = Some (VInteger 42).
Proof.
  apply (smux_get_end_to_end (λ _ o, mkVarBind o (VInteger 42)) demo_oid demo_agent 0 demo_conn);
    try reflexivity; repeat constructor; vm_compute; congruence.
Defined.

Lemma huge_length_panics_witness :
  read_one_pdu [160; 136; 128; 0; 0; 0; 0; 0; 0; 0] = None.
Proof.
  apply (huge_length_panics 160 [128; 0; 0; 0; 0; 0; 0; 0] []);
    [reflexivity|repeat constructor; vm_compute; congruence|vm_compute; congruence].
Defined.
