(* ===== verification/Persist.v ===== *)
(** * Persistence ([crates/netsnmp-agent/src/persist.rs])

    The registry of persistable items, the text it saves and loads, the
    encoding of scalar values, and the engine-boots counter. The file system
    is the content of the files the code names; a save is the sequence of its
    file operations, so that a crash between two of them can be stated. *)

From Stdlib Require Import ZArith Lia.
From S2P Require Import Prelude MachineInts Text Oid Value Config Handler.

(** ** Serialization of directives *)

Definition NEWLINE : Z := 10.

Definition needs_quote (s : text) : bool :=
  bool_decide (s = []) ||
  existsb (fun c => is_whitespace c || (c =? QUOTE) || (c =? APOS) || (c =? BACKSLASH)) s.

Definition escape_char (c : Z) : text :=
  if (c =? QUOTE) || (c =? BACKSLASH) || (c =? NEWLINE) then [BACKSLASH; c] else [c].

Definition quote_word (s : text) : text :=
  if needs_quote s then QUOTE :: flat_map escape_char s ++ [QUOTE] else s.

Definition serialize_directive (d : Directive) : text :=
  token d ++ flat_map (fun a => 32 :: quote_word a) (args d).

(** ** Scalar values *)

Definition hex_digit (n : Z) : Z := if n <? 10 then 48 + n else 87 + n.

(** [format!("{b:02x}")]. *)
Definition hex2 (b : Z) : text := [hex_digit (b / 16); hex_digit (b mod 16)].

Definition hex_encode (bs : bytes) : text := flat_map hex2 bs.

(** [char::is_control]. *)
Definition is_control (c : Z) : bool := (c <? 32) || ((127 <=? c) && (c <? 160)).

Definition encode_value (v : Value) : text * text :=
  match v with
  | VOctetString b =>
      match from_utf8 b with
      | Some s => if forallb (fun c => negb (is_control c)) s then (str "s", s) else (str "x", hex_encode b)
      | None => (str "x", hex_encode b)
      end
  | VInteger n => (str "i", show_i n)
  | VCounter32 n => (str "c", show_u n)
  | VGauge32 n => (str "u", show_u n)
  | VTimeTicks n => (str "t", show_u n)
  | VCounter64 n => (str "6", show_u n)
  | VOid o => (str "o", display o)
  | VIpAddress ip => (str "a", show_ipv4 ip)
  | VOpaque b => (str "x", hex_encode b)
  | VNull | VNoSuchObject | VNoSuchInstance | VEndOfMibView => (str "n", [])
  end.

(** [char::to_digit(16)] of an ASCII byte. *)
Definition hex_value (c : Z) : option Z :=
  if (48 <=? c) && (c <=? 57) then Some (c - 48)
  else if (97 <=? c) && (c <=? 102) then Some (c - 87)
  else if (65 <=? c) && (c <=? 70) then Some (c - 55)
  else None.

(** [u8::from_str_radix(_, 16)] of two bytes: a leading [+] is skipped. *)
Definition from_hex2 (a b : Z) : option Z :=
  let! lo := hex_value b in
  if a =? 43 then Some lo
  else let! hi := hex_value a in Some (16 * hi + lo).

(** The loop over [&hex[i..i + 2]]: the outer [None] is the panic of a slice
    that ends inside a character, the inner one a bad digit, at which the
    loop stops. *)
Fixpoint hex_pairs (bs : bytes) : option (option bytes) :=
  match bs with
  | a :: b :: rest =>
      if match rest with c :: _ => is_cont c | [] => false end then None
      else
        match from_hex2 a b with
        | None => Some None
        | Some v =>
            match hex_pairs rest with
            | None => None
            | Some r => Some (let! vs := r in Some (v :: vs))
            end
        end
  | _ => Some (Some [])
  end.

(** [Ipv4Addr::from_str]: four decimal parts up to 255, of at most three
    digits and without a leading zero. *)
Definition parse_octet (s : text) : option Z :=
  if (3 <? length s)%nat || (bool_decide (head s = Some 48) && (1 <? length s)%nat) then None
  else let! n := parse_digits s in if n <=? 255 then Some n else None.

Definition parse_ipv4 (s : text) : option Ipv4Addr :=
  match split 46 s with
  | [a; b; c; d] =>
      let! a := parse_octet a in
      let! b := parse_octet b in
      let! c := parse_octet c in
      let! d := parse_octet d in
      Some (mkIpv4 a b c d)
  | _ => None
  end.

(** [None] is a panic. *)
Definition decode_value (tag payload : text) : option (option Value) :=
  if bool_decide (tag = str "s") then Some (Some (VOctetString (as_bytes payload)))
  else if bool_decide (tag = str "x") then
    let hex := as_bytes (List.filter (fun c => negb (c =? 32)) payload) in
    if negb (Nat.even (length hex)) then Some None
    else match hex_pairs hex with None => None | Some r => Some (VOctetString <$> r) end
  else if bool_decide (tag = str "i") then Some (VInteger <$> parse_signed i64_min i64_max payload)
  else if bool_decide (tag = str "c") then Some (VCounter32 <$> parse_unsigned u32_max payload)
  else if bool_decide (tag = str "u") then Some (VGauge32 <$> parse_unsigned u32_max payload)
  else if bool_decide (tag = str "t") then Some (VTimeTicks <$> parse_unsigned u32_max payload)
  else if bool_decide (tag = str "6") then Some (VCounter64 <$> parse_unsigned u64_max payload)
  else if bool_decide (tag = str "o") then
    Some (match from_str payload with Ok o => Some (VOid o) | Err _ => None end)
  else if bool_decide (tag = str "a") then Some (VIpAddress <$> parse_ipv4 payload)
  else if bool_decide (tag = str "n") then Some (Some VNull)
  else Some None.

(** ** The registry *)

(** [trait Persistable] over the world [W] its handlers live in; a [restore]
    that answers [None] panics. *)
Record Persistable (W : Type) := mkPersistable {
  key : text;
  snapshot : W → list Directive;
  restore : list Directive → W → option W
}.
Arguments key {W} _.
Arguments snapshot {W} _ _.
Arguments restore {W} _ _ _.
Arguments mkPersistable {W} _ _ _.

Section Registry.
Context {W : Type}.

(** [Persistence::items], in order. *)
Definition Persistence := list (Persistable W).

Definition register (item : Persistable W) (items : Persistence) : Persistence :=
  replace_or_push (fun i => bool_decide (key i = key item)) item items.

(** The text [save] writes. *)
Definition save_text (items : Persistence) (w : W) : text :=
  flat_map (fun item => flat_map (fun d => serialize_directive d ++ [NEWLINE]) (snapshot item w)) items.

(** [load] of a file's content; [None] is a panic of an item. *)
Definition load_item (ds : list Directive) (w : option W) (item : Persistable W) : option W :=
  let owned := List.filter (fun d => bool_decide (token d = key item)) ds in
  match owned with
  | [] => w
  | _ => let! w := w in restore item owned w
  end.

Definition load_text (items : Persistence) (content : text) (w : W) : option W :=
  fold_left (load_item (parse_str content)) items (Some w).

(** The file operations of [save], in order. *)
Inductive FsOp := CreateTmp | WriteTmp (content : bytes) | SyncTmp | RenameTmp.

Record Files := mkFiles { target : option bytes; tmp : option bytes }.

Definition fs_step (f : Files) (op : FsOp) : Files :=
  match op with
  | CreateTmp => mkFiles (target f) (Some [])
  | WriteTmp b => mkFiles (target f) (let! c := tmp f in Some (c ++ b))
  | SyncTmp => f
  | RenameTmp => match tmp f with Some b => mkFiles (Some b) None | None => f end
  end.

Definition save_ops (items : Persistence) (w : W) : list FsOp :=
  [CreateTmp; WriteTmp (as_bytes (save_text items w)); SyncTmp; RenameTmp].

Definition fs_run (ops : list FsOp) (f : Files) : Files := fold_left fs_step ops f.

(** [load]: a missing file, or one that is not UTF-8, restores nothing. *)
Definition load (items : Persistence) (f : Files) (w : W) : option W :=
  match target f with
  | None => Some w
  | Some b => match from_utf8 b with None => Some w | Some content => load_text items content w end
  end.

End Registry.
Arguments Persistence : clear implicits.

(** ** Scalars *)

Definition plain_directive (k : text) (ars : list text) (rst : text) : Directive :=
  mkDirective k ars rst None 0.

(** [ScalarPersistable], its handler's value at [l]. *)
Definition scalar_snapshot (k : text) (v : Value) : list Directive :=
  let '(t, e) := encode_value v in [plain_directive k [t; e] (t ++ 32 :: e)].

Fixpoint scalar_restore (ds : list Directive) (v : Value) : option Value :=
  match ds with
  | [] => Some v
  | d :: ds' =>
      match args d with
      | [] => scalar_restore ds' v
      | a :: rest =>
          let '(t, e) := match rest with [] => (str "s", a) | e :: _ => (a, e) end in
          match decode_value t e with
          | None => None
          | Some None => scalar_restore ds' v
          | Some (Some v') => scalar_restore ds' v'
          end
      end
  end.

Definition scalar_persistable {W} (k : text) (l : Lens W Value) : Persistable W :=
  mkPersistable k (fun w => scalar_snapshot k (proj l w))
    (fun ds w => let! v := scalar_restore ds (proj l w) in Some (upd l v w)).

(** ** Engine boots *)

Definition boots_snapshot (boots : Z) : list Directive :=
  [plain_directive (str "engineBoots") [show_u boots] (show_u boots)].

Fixpoint boots_restore (ds : list Directive) (boots : Z) : Z :=
  match ds with
  | [] => boots
  | d :: ds' =>
      boots_restore ds' (match (let! a := arg d 0 in parse_unsigned u32_max a) with Some b => b | None => boots end)
  end.

Definition boots_persistable {W} (l : Lens W Z) : Persistable W :=
  mkPersistable (str "engineBoots") (fun w => boots_snapshot (proj l w))
    (fun ds w => Some (upd l (boots_restore ds (proj l w)) w)).

(** The name of the counter's file, and the directory as its files' contents. *)
Definition engine_boots_file (engine_id : bytes) : text := hex_encode engine_id ++ str ".boots".

Abbreviation Directory := (gmap (list Z) (list Z)).

Definition load_engine_boots (dir : Directory) (engine_id : bytes) : option Z :=
  let! content := dir !! engine_boots_file engine_id in
  parse_unsigned u32_max (trim content).

Definition save_engine_boots (engine_id : bytes) (boots : Z) (dir : Directory) : Directory :=
  <[engine_boots_file engine_id := show_u boots ++ [NEWLINE]]> dir.

Definition load_and_bump (dir : Directory) (engine_id : bytes) (fallback : Z) : Z :=
  saturating_add_u u32_max (default fallback (load_engine_boots dir engine_id)) 1.

(** ** Words *)

(** Text that stays on its line. *)
Definition one_line (s : text) : Prop := Forall (λ c, c ≠ NEWLINE) s.

(** What can follow a word: the end, or a space. *)
Definition word_end (tl : text) : Prop := tl = [] ∨ ∃ tl', tl = 32 :: tl'.

Lemma scan_quoted_escaped w tl acc :
  scan_quoted QUOTE false (flat_map escape_char w ++ QUOTE :: tl) acc = (acc ++ w, tl).
Proof.
  revert acc. induction w as [|c w IH]; intros acc; cbn [flat_map app scan_quoted].
  - change (QUOTE =? BACKSLASH) with false. rewrite Z.eqb_refl. by rewrite app_nil_r.
  - unfold escape_char. destruct (c =? QUOTE) eqn:E1; [|destruct (c =? BACKSLASH) eqn:E2;
      [|destruct (c =? NEWLINE) eqn:E3]]; cbn [orb app scan_quoted].
    1-3: change (BACKSLASH =? BACKSLASH) with true; cbn iota; rewrite IH; by rewrite <- app_assoc.
    rewrite E2, E1, IH. by rewrite <- app_assoc.
Qed.

Lemma scan_bare_plain w tl acc :
  existsb (fun c => is_whitespace c || (c =? QUOTE) || (c =? APOS) || (c =? BACKSLASH)) w = false →
  word_end tl → scan_bare false (w ++ tl) acc = (acc ++ w, tl).
Proof.
  revert acc. induction w as [|c w IH]; intros acc.
  - intros _ [->|[tl' ->]]; cbn; by rewrite app_nil_r.
  - cbn [existsb app scan_bare]. intros [H1 H2]%orb_false_iff Ht.
    apply orb_false_iff in H1 as [[[Hw _]%orb_false_iff _]%orb_false_iff Hb].
    rewrite Hb, Hw, IH by done. by rewrite <- app_assoc.
Qed.

Lemma read_word_word w tl :
  word_end tl → read_word (quote_word w ++ tl) = Some (w, trim_start tl).
Proof.
  intros Ht. unfold quote_word. destruct (needs_quote w) eqn:N.
  - unfold read_word. cbn [app trim_start trim_start_matches]. change (is_whitespace QUOTE) with false.
    cbn iota. cbn [Z.eqb]. change ((QUOTE =? QUOTE) || (QUOTE =? APOS)) with true. cbn iota.
    rewrite <- app_assoc. cbn [app]. by rewrite scan_quoted_escaped.
  - unfold needs_quote in N. apply orb_false_iff in N as [N1%bool_decide_eq_false N2].
    destruct w as [|c w]; [done|]. unfold read_word. pose proof N2 as N3. cbn [existsb] in N3.
    apply orb_false_iff in N3 as [[[[Hw Hq]%orb_false_iff Ha]%orb_false_iff Hb]%orb_false_iff _].
    assert (T : trim_start ((c :: w) ++ tl) = (c :: w) ++ tl) by (by apply trim_start_matches_head).
    rewrite T. cbn [app]. rewrite Hq, Ha. cbn [orb].
    change (c :: w ++ tl) with ((c :: w) ++ tl). by rewrite scan_bare_plain.
Qed.

Lemma word_end_args ars : word_end (flat_map (fun a => 32 :: quote_word a) ars).
Proof. destruct ars as [|a ars]; [by left|right]. cbn. by eexists. Qed.

Lemma parse_args ars : parse_words (flat_map (fun a => 32 :: quote_word a) ars) = ars.
Proof.
  induction ars as [|a ars IH]; [done|]. cbn [flat_map app]. rewrite parse_words_space.
  rewrite parse_words_unfold, read_word_word by apply word_end_args. by rewrite parse_words_trim, IH.
Qed.

(** ** Lines *)

(** The tokens that open a directive: plain words that are neither comments,
    sections nor includes. *)
Definition plain_key (k : text) : Prop :=
  needs_quote k = false ∧ head k ≠ Some 35 ∧ head k ≠ Some 91 ∧
  to_ascii_lowercase k ∉ [str "includefile"; str "includedir"; str "includesearch"; str "include"].

Definition plain_args (ars : list text) : Prop := Forall one_line ars.

Lemma classify_serialized d :
  plain_key (token d) →
  classify_line (serialize_directive d) =
    Some (CEntry None (token d) (args d) (trim_start (flat_map (fun a => 32 :: quote_word a) (args d)))).
Proof.
  intros (Hn & Hc & Hs & Hi). unfold serialize_directive. set (tl := flat_map _ (args d)).
  pose proof (read_word_word (token d) tl (word_end_args (args d))) as R. unfold quote_word in R.
  rewrite Hn in R. unfold classify_line.
  assert (E : ∃ c s, trim_start (token d ++ tl) = c :: s ∧ (c =? 35) = false).
  { unfold needs_quote in Hn. apply orb_false_iff in Hn as [N1%bool_decide_eq_false N2].
    destruct (token d) as [|c w]; [done|]. cbn [existsb] in N2.
    apply orb_false_iff in N2 as [[[[Hw _]%orb_false_iff _]%orb_false_iff _]%orb_false_iff _].
    exists c, (w ++ tl). split; [by apply trim_start_matches_head|].
    apply Z.eqb_neq. intros ->. by apply Hc. }
  destruct E as (c & s & -> & ->). rewrite R. cbn [mbind option_bind].
  assert (starts_with 91 (token d) = false) as ->.
  { destruct (token d) as [|x w]; [done|]. cbn. apply Z.eqb_neq. intros ->. by apply Hs. }
  unfold classify_directive. repeat (rewrite bool_decide_eq_false_2 by set_solver).
  rewrite parse_words_trim. unfold tl. by rewrite parse_args.
Qed.

Lemma split_lines (ls : list text) :
  Forall one_line ls → split NEWLINE (flat_map (fun l => l ++ [NEWLINE]) ls) = ls ++ [[]].
Proof.
  induction 1 as [|l ls Hl HF IH]; [done|]. cbn [flat_map app]. rewrite <- app_assoc. cbn [app].
  rewrite split_app by done. by rewrite IH.
Qed.

(** A line that does not end in a carriage return. *)
Definition no_cr (l : text) : Prop := last l ≠ Some 13.

Lemma lines_of (ls : list text) :
  Forall one_line ls → Forall no_cr ls → lines (flat_map (fun l => l ++ [NEWLINE]) ls) = ls.
Proof.
  intros H1 H2. unfold lines. change 10 with NEWLINE. rewrite split_lines by done.
  rewrite last_snoc, removelast_last. rewrite <- (map_id ls) at 2. apply map_ext_in.
  intros l Hl%list_elem_of_In. rewrite Forall_forall in H2. specialize (H2 l Hl).
  unfold strip_cr, ends_with. destruct (last l) as [x|] eqn:E; [|done].
  destruct (Z.eqb_spec x 13) as [->|]; [done|]. done.
Qed.

(** What a restore looks at. *)
Definition content_of (d : Directive) : text * list text := (token d, args d).

Lemma parse_lines_entries (ls : list text) (ds : list Directive) idx sec out :
  Forall2 (λ l d, ∃ r, classify_line l = Some (CEntry None (token d) (args d) r)) ls ds →
  content_of <$> (parse_lines idx ls (sec, out)).2 = (content_of <$> out) ++ (content_of <$> ds).
Proof.
  intros HF. revert idx out. induction HF as [|l d ls ds [r E] HF IH]; intros idx out; cbn [parse_lines fmap list_fmap].
  { by rewrite app_nil_r. }
  unfold parse_line. rewrite E. rewrite IH. rewrite fmap_app, <- app_assoc. done.
Qed.

Lemma one_line_word w : one_line w → one_line (quote_word w).
Proof.
  intros H. unfold quote_word. destruct (needs_quote w); [|done].
  apply Forall_cons. split; [done|]. apply Forall_app. split; [|by apply Forall_singleton].
  induction H as [|c w Hc H IH]; [constructor|]. cbn [flat_map]. apply Forall_app. split; [|done].
  unfold escape_char. case_match; repeat (apply Forall_cons; split; try done); apply Forall_nil_2.
Qed.

Lemma last_word w : last (quote_word w) ≠ Some 13 ∧ quote_word w ≠ [].
Proof.
  unfold quote_word. destruct (needs_quote w) eqn:N.
  { rewrite app_comm_cons, last_snoc. split; [done|]. by destruct (flat_map _ w). }
  unfold needs_quote in N. apply orb_false_iff in N as [N1%bool_decide_eq_false N2]. split; [|done].
  intros E. apply last_Some in E as [w' ->]. rewrite existsb_app in N2.
  apply orb_false_iff in N2 as [_ N2]. done.
Qed.

Lemma last_app_ne {A} (l k : list A) : k ≠ [] → last (l ++ k) = last k.
Proof.
  intros Hk. destruct (exists_last Hk) as (k' & x & ->). by rewrite app_assoc, !last_snoc.
Qed.

Lemma serialized_line d :
  plain_key (token d) → plain_args (args d) →
  one_line (serialize_directive d) ∧ no_cr (serialize_directive d).
Proof.
  intros (Hn & _) Ha. unfold serialize_directive.
  pose proof (last_word (token d)) as [Hk1 Hk2]. unfold quote_word in Hk1, Hk2. rewrite Hn in Hk1, Hk2.
  split.
  - apply Forall_app. split.
    + unfold needs_quote in Hn. apply orb_false_iff in Hn as [_ N2]. apply Forall_forall. intros c Hc ->.
      assert (existsb (fun c => is_whitespace c || (c =? QUOTE) || (c =? APOS) || (c =? BACKSLASH)) (token d) = true); [|congruence].
      apply existsb_exists. exists NEWLINE. split; [by apply list_elem_of_In|done].
    + induction Ha as [|a ars Ha HF IH]; [constructor|]. cbn [flat_map]. apply Forall_cons. split; [done|].
      apply Forall_app. split; [by apply one_line_word|done].
  - unfold no_cr. induction (args d) as [|a ars IH] using rev_ind; [by rewrite app_nil_r|].
    rewrite flat_map_app, app_assoc. cbn [flat_map]. rewrite app_nil_r.
    pose proof (last_word a) as [L1 L2]. rewrite last_app_ne by done.
    destruct (quote_word a) as [|x w]; [done|]. exact L1.
Qed.

(** ** Values *)

(** What a saved value comes back as: an Opaque as an OCTET STRING, an
    exception as Null. *)
Definition persisted (v : Value) : Value :=
  match v with
  | VOpaque b => VOctetString b
  | VNoSuchObject | VNoSuchInstance | VEndOfMibView => VNull
  | _ => v
  end.

(** Values that are data and not Opaque. *)
Definition plain_value (v : Value) : bool :=
  match v with VOpaque _ | VNoSuchObject | VNoSuchInstance | VEndOfMibView => false | _ => true end.

Lemma persisted_plain v : plain_value v = true → persisted v = v.
Proof. by destruct v. Qed.

Lemma from_utf8_some b s : from_utf8 b = Some s → as_bytes s = b ∧ (is_bytes b → is_text s).
Proof.
  unfold from_utf8. case_bool_decide as E; [|done]. intros [= <-]. split; [done|].
  apply is_text_from_utf8_lossy.
Qed.

Lemma from_utf8_text s : is_text s → from_utf8 (as_bytes s) = Some s.
Proof.
  intros Hs. unfold from_utf8. rewrite from_utf8_lossy_as_bytes by done. by rewrite bool_decide_eq_true_2.
Qed.

Definition ascii_visible (s : text) : Prop := Forall (λ c, 32 < c < 127) s.

Lemma hex2_facts b : is_u8 b →
  ascii_visible (hex2 b) ∧ from_hex2 (hex_digit (b / 16)) (hex_digit (b mod 16)) = Some b.
Proof.
  intros Hb.
  pose proof (byte_check (λ b, forallb (fun c => (32 <? c) && (c <? 127)) (hex2 b) &&
    bool_decide (from_hex2 (hex_digit (b / 16)) (hex_digit (b mod 16)) = Some b))) as H.
  specialize (H ltac:(vm_compute; reflexivity) b Hb). cbv beta in H.
  apply andb_true_iff in H as [H1 H2%bool_decide_eq_true]. split; [|done].
  rewrite forallb_forall in H1. apply Forall_forall. intros c Hc%list_elem_of_In.
  apply H1, andb_true_iff in Hc as [?%Z.ltb_lt ?%Z.ltb_lt]. done.
Qed.

Lemma hex_encode_visible bs : is_bytes bs → ascii_visible (hex_encode bs).
Proof.
  induction 1 as [|b bs Hb HF IH]; [constructor|]. cbn [hex_encode flat_map].
  apply Forall_app. split; [by apply hex2_facts|done].
Qed.

Lemma visible_ascii s : ascii_visible s → as_bytes s = s.
Proof. intros H. apply as_bytes_ascii. eapply Forall_impl; [exact H|]. cbn. lia. Qed.

Lemma visible_one_line s : ascii_visible s → one_line s.
Proof. intros H. eapply Forall_impl; [exact H|]. unfold NEWLINE. cbn. lia. Qed.

Lemma visible_text s : ascii_visible s → is_text s.
Proof. intros H. eapply Forall_impl; [exact H|]. unfold is_char. cbn. lia. Qed.

Lemma hex_encode_head bs c s : is_bytes bs → hex_encode bs = c :: s → is_cont c = false.
Proof.
  intros Hb E. apply hex_encode_visible in Hb. rewrite E in Hb. apply Forall_cons in Hb as [Hc _].
  unfold is_cont. destruct (Z.leb_spec 128 c); [lia|done].
Qed.

Lemma hex_pairs_encode bs : is_bytes bs → hex_pairs (hex_encode bs) = Some (Some bs).
Proof.
  induction 1 as [|b bs Hb HF IH]; [done|]. cbn [hex_encode flat_map app hex2 hex_pairs].
  fold (hex_encode bs). assert (match hex_encode bs with c :: _ => is_cont c | [] => false end = false) as ->.
  { destruct (hex_encode bs) as [|c s] eqn:E; [done|]. by eapply hex_encode_head. }
  destruct (hex2_facts b Hb) as [_ ->]. by rewrite IH.
Qed.

Lemma hex_encode_length bs : length (hex_encode bs) = (2 * length bs)%nat.
Proof. induction bs as [|b bs IH]; [done|]. cbn. unfold hex_encode in IH. lia. Qed.

Lemma decode_hex bs :
  is_bytes bs → decode_value (str "x") (hex_encode bs) = Some (Some (VOctetString bs)).
Proof.
  intros Hb. unfold decode_value. rewrite bool_decide_eq_false_2, bool_decide_eq_true_2 by done.
  pose proof (hex_encode_visible bs Hb) as V.
  assert (E : List.filter (fun c => negb (c =? 32)) (hex_encode bs) = hex_encode bs).
  { clear Hb. induction V as [|c s Hc V IH]; [done|]. cbn. destruct (Z.eqb_spec c 32); [lia|]. cbn. by rewrite IH. }
  rewrite E, visible_ascii by done. rewrite hex_encode_length.
  rewrite Nat.even_mul. cbn [Nat.even orb negb]. by rewrite hex_pairs_encode.
Qed.

Lemma hex_encode_inj bs bs' : is_bytes bs → is_bytes bs' → hex_encode bs = hex_encode bs' → bs = bs'.
Proof.
  intros H H' E. apply hex_pairs_encode in H, H'. rewrite E in H. congruence.
Qed.

(** ** Decimal text *)

Lemma show_u_visible n : 0 <= n → ascii_visible (show_u n).
Proof.
  intros Hn. destruct (show_u_correct n Hn) as (_ & H & _). eapply Forall_impl; [exact H|].
  intros c Hc. unfold is_ascii_digit in Hc. cbn. lia.
Qed.

Lemma show_i_visible n : ascii_visible (show_i n).
Proof.
  unfold show_i. destruct (Z.ltb_spec n 0); [|apply show_u_visible; lia].
  apply Forall_cons. split; [lia|apply show_u_visible; lia].
Qed.

Lemma display_visible o : Oid.wf o → ascii_visible (display o).
Proof.
  intros Ho. assert (H : ascii_visible (flat_map (fun part => 46 :: show_u part) o)).
  { induction Ho as [|x o Hx HF IH]; cbn [flat_map]; [constructor|].
    apply Forall_cons. split; [lia|]. apply Forall_app. split; [|done].
    apply show_u_visible. apply Hx. }
  destruct o; [|done]. apply Forall_singleton. cbn. lia.
Qed.

Lemma show_ipv4_visible ip : is_ipv4 ip → ascii_visible (show_ipv4 ip).
Proof.
  intros H. unfold is_ipv4, octets, is_bytes in H. apply Forall_cons in H as [[Ha _] H].
  apply Forall_cons in H as [[Hb _] H]. apply Forall_cons in H as [[Hc _] H]. apply Forall_cons in H as [[Hd _] _].
  unfold show_ipv4.
  repeat first [apply Forall_app; split; [by apply show_u_visible|] | apply Forall_cons; split; [lia|]].
  by apply show_u_visible.
Qed.

(** An octet's text is at most three digits without a leading zero. *)
Lemma parse_octet_show n : is_u8 n → parse_octet (show_u n) = Some n.
Proof.
  intros Hn. pose proof (byte_check (λ n, bool_decide (parse_octet (show_u n) = Some n))) as H.
  specialize (H ltac:(vm_compute; reflexivity) n Hn). by apply bool_decide_eq_true in H.
Qed.

Lemma octet_no_dot n : is_u8 n → Forall (λ c, c ≠ 46) (show_u n).
Proof.
  intros [Hn _]. destruct (show_u_correct n Hn) as (_ & H & _). eapply Forall_impl; [exact H|].
  intros c Hc ->. done.
Qed.

Lemma parse_show_ipv4 ip : is_ipv4 ip → parse_ipv4 (show_ipv4 ip) = Some ip.
Proof.
  destruct ip as [a b c d]. intros H. unfold is_ipv4, octets, is_bytes in H. cbn in H.
  apply Forall_cons in H as [Ha H]. apply Forall_cons in H as [Hb H]. apply Forall_cons in H as [Hc H].
  apply Forall_cons in H as [Hd _]. unfold parse_ipv4, show_ipv4. cbn [octet1 octet2 octet3 octet4].
  do 3 rewrite split_app by (by apply octet_no_dot). rewrite split_no_sep by (by apply octet_no_dot).
  by rewrite !parse_octet_show.
Qed.

(** ** The value codec *)

Lemma decode_encode v : wf_value v →
  let '(t, e) := encode_value v in decode_value t e = Some (Some (persisted v)).
Proof.
  intros Hw. destruct v as [n|b|o|ip|n|n|n|b|n| | | |]; cbn [encode_value persisted wf_value] in *.
  - unfold decode_value. do 2 (rewrite bool_decide_eq_false_2 by done). rewrite bool_decide_eq_true_2 by done.
    rewrite parse_signed_show; [done|]. unfold is_i64, i64_min, i64_max in *. lia.
  - destruct (from_utf8 b) as [s|] eqn:E; [|by apply decode_hex].
    destruct (forallb _ s); [|by apply decode_hex].
    apply from_utf8_some in E as [<- _]. done.
  - unfold decode_value. do 7 (rewrite bool_decide_eq_false_2 by done). rewrite bool_decide_eq_true_2 by done.
    by rewrite from_str_display_ok.
  - unfold decode_value. do 8 (rewrite bool_decide_eq_false_2 by done). rewrite bool_decide_eq_true_2 by done.
    by rewrite parse_show_ipv4.
  - unfold decode_value. do 3 (rewrite bool_decide_eq_false_2 by done). rewrite bool_decide_eq_true_2 by done.
    rewrite parse_unsigned_show; [done|]. unfold is_u32, u32_max in *. lia.
  - unfold decode_value. do 4 (rewrite bool_decide_eq_false_2 by done). rewrite bool_decide_eq_true_2 by done.
    rewrite parse_unsigned_show; [done|]. unfold is_u32, u32_max in *. lia.
  - unfold decode_value. do 5 (rewrite bool_decide_eq_false_2 by done). rewrite bool_decide_eq_true_2 by done.
    rewrite parse_unsigned_show; [done|]. unfold is_u32, u32_max in *. lia.
  - by apply decode_hex.
  - unfold decode_value. do 6 (rewrite bool_decide_eq_false_2 by done). rewrite bool_decide_eq_true_2 by done.
    rewrite parse_unsigned_show; [done|]. unfold is_u64, u64_max in *. lia.
  - done.
  - done.
  - done.
  - done.
Qed.

Lemma encoded_text v : wf_value v →
  let '(t, e) := encode_value v in one_line t ∧ is_text t ∧ one_line e ∧ is_text e.
Proof.
  intros Hw.
  assert (K : ∀ s, ascii_visible s → one_line s ∧ is_text s).
  { intros s Hs. split; [by apply visible_one_line|by apply visible_text]. }
  assert (T : ∀ c, ascii_visible (str (String c EmptyString)) → one_line (str (String c EmptyString)) ∧ is_text (str (String c EmptyString))).
  { intros c. apply K. }
  destruct v as [n|b|o|ip|n|n|n|b|n| | | |]; cbn [encode_value wf_value] in *.
  2: destruct (from_utf8 b) as [s|] eqn:E; [destruct (forallb _ s) eqn:F|].
  2:{ assert (one_line (str "s") ∧ is_text (str "s")) as [? ?] by (apply K; apply Forall_singleton; cbn; lia).
      apply from_utf8_some in E as [_ Ht]. split_and!; [done|done| |by apply Ht].
      rewrite forallb_forall in F. apply Forall_forall. intros c Hc%list_elem_of_In ->.
      apply F in Hc. done. }
  all: match goal with |- one_line ?t ∧ is_text ?t ∧ one_line ?e ∧ is_text ?e =>
    enough (ascii_visible t ∧ ascii_visible e) as [[? ?]%K [? ?]%K] by done end.
  all: split; [apply Forall_singleton; cbn; lia|].
  all: first [by apply hex_encode_visible | by apply show_ipv4_visible | by apply display_visible
    | by apply show_i_visible | by apply Forall_nil_2 | apply show_u_visible; apply Hw].
Qed.

(** ** Saving and loading a registry *)

(** What the registry relies on: an item writes directives under its own key
    that stay on their lines, and reads back no more than their arguments. *)
Class LawfulPersistable {W} (good : W → Prop) (item : Persistable W) : Prop := {
  lawful_key : plain_key (key item) ∧ is_text (key item);
  lawful_snapshot w : good w →
    Forall (λ d, token d = key item ∧ Forall (λ a, one_line a ∧ is_text a) (args d)) (snapshot item w);
  lawful_restore ds ds' w :
    content_of <$> ds = content_of <$> ds' → restore item ds w = restore item ds' w
}.

(** A file of serialised directives is read back token by token. *)
Lemma parse_serialized ds :
  Forall (λ d, plain_key (token d) ∧ plain_args (args d)) ds →
  content_of <$> parse_str (flat_map (fun l => l ++ [NEWLINE]) (serialize_directive <$> ds)) = content_of <$> ds.
Proof.
  intros H. unfold parse_str.
  assert (P : Forall (λ l, one_line l ∧ no_cr l) (serialize_directive <$> ds)).
  { apply Forall_fmap. eapply Forall_impl; [exact H|]. intros d [K A]. by apply serialized_line. }
  rewrite lines_of; [|eapply Forall_impl; [exact P|]; by intros ? [? ?]..].
  apply (parse_lines_entries (serialize_directive <$> ds) ds).
  apply Forall2_fmap_l, Forall_Forall2_diag. eapply Forall_impl; [exact H|].
  intros d [K _]. eexists. by apply classify_serialized.
Qed.

Section Saved.
Context {W : Type} (good : W → Prop) (items : Persistence W).
Context (lawful : Forall (LawfulPersistable good) items) (nodup : NoDup (key <$> items)).

Definition saved_directives (w : W) : list Directive := flat_map (fun item => snapshot item w) items.

Lemma save_text_lines w :
  save_text items w = flat_map (fun l => l ++ [NEWLINE]) (serialize_directive <$> saved_directives w).
Proof.
  unfold save_text, saved_directives. clear lawful nodup. induction items as [|i its IH]; [done|]. cbn [flat_map].
  rewrite fmap_app, flat_map_app, IH. f_equal.
  induction (snapshot i w) as [|d ds IHd]; [done|]. cbn. by rewrite IHd.
Qed.

Lemma saved_directive w d :
  good w → d ∈ saved_directives w →
  plain_key (token d) ∧ is_text (token d) ∧ Forall (λ a, one_line a ∧ is_text a) (args d).
Proof using lawful.
  intros Hw Hd. unfold saved_directives in Hd. apply list_elem_of_In, in_flat_map in Hd as (i & Hi & Hd).
  apply list_elem_of_In in Hi, Hd. rewrite Forall_forall in lawful. pose proof (lawful i Hi) as L.
  destruct (lawful_key (item := i)) as [K T]. pose proof (lawful_snapshot w Hw) as S.
  rewrite Forall_forall in S. destruct (S d Hd) as [-> A]. by split_and!.
Qed.

Lemma parse_saved w : good w →
  content_of <$> parse_str (save_text items w) = content_of <$> saved_directives w.
Proof using lawful.
  intros Hw. rewrite save_text_lines. apply parse_serialized, Forall_forall. intros d Hd.
  destruct (saved_directive w d Hw Hd) as (K & _ & A). split; [done|].
  eapply Forall_impl; [exact A|]. by intros a [? _].
Qed.

Lemma content_filter k ds :
  content_of <$> List.filter (fun d => bool_decide (token d = k)) ds =
    List.filter (fun c => bool_decide (c.1 = k)) (content_of <$> ds).
Proof. induction ds as [|d ds IH]; [done|]. cbn. destruct (bool_decide (token d = k)); cbn; by rewrite IH. Qed.

(** Each item owns exactly the directives of its own snapshot. *)
Lemma saved_owned w item : good w → item ∈ items →
  content_of <$> List.filter (fun d => bool_decide (token d = key item)) (parse_str (save_text items w)) =
    content_of <$> snapshot item w.
Proof using lawful nodup.
  intros Hw Hin. rewrite content_filter, parse_saved, <- content_filter by done. f_equal.
  unfold saved_directives. revert lawful nodup Hin.
  induction items as [|i its IH]; intros L N Hin; [by apply elem_of_nil in Hin|].
  apply Forall_cons in L as [Li L]. apply NoDup_cons in N as [Ni N]. cbn [flat_map]. rewrite List.filter_app.
  assert (own : ∀ j k, LawfulPersistable good j →
    List.filter (fun d => bool_decide (token d = k)) (snapshot j w) = if bool_decide (key j = k) then snapshot j w else []).
  { intros j k Lj. pose proof (lawful_snapshot w Hw) as S. case_bool_decide as E.
    - induction S as [|d ds [Hd _] S IHd]; [done|]. cbn. rewrite bool_decide_eq_true_2 by congruence. by rewrite IHd.
    - induction S as [|d ds [Hd _] S IHd]; [done|]. cbn. rewrite bool_decide_eq_false_2 by congruence. done. }
  apply elem_of_cons in Hin as [->|Hin].
  - rewrite own, bool_decide_eq_true_2 by done.
    enough (List.filter (fun d => bool_decide (token d = key i)) (flat_map (fun item => snapshot item w) its) = []) as ->
      by apply app_nil_r.
    clear IH N. induction L as [|j js Lj L IHj]; [done|]. cbn [flat_map]. rewrite List.filter_app, own by done.
    rewrite bool_decide_eq_false_2; [|intros E; apply Ni; rewrite <- E; by left].
    apply IHj. intros Hk. apply Ni. by right.
  - rewrite own by done. rewrite bool_decide_eq_false_2; [by apply IH|].
    intros E. apply Ni. rewrite E. by apply list_elem_of_fmap_2.
Qed.

(** Loading what was saved restores every item, in order, from its own
    snapshot. *)
Lemma load_saved w0 w : good w0 →
  load_text items (save_text items w0) w =
    fold_left (fun w item => match snapshot item w0 with [] => w | ds => let! w := w in restore item ds w end)
      items (Some w).
Proof using lawful nodup.
  intros Hw. unfold load_text.
  assert (H : ∀ item w, item ∈ items → load_item (parse_str (save_text items w0)) w item =
    match snapshot item w0 with [] => w | ds => let! w := w in restore item ds w end).
  { intros item ow Hin. unfold load_item. pose proof (saved_owned w0 item Hw Hin) as O.
    rewrite Forall_forall in lawful. pose proof (lawful item Hin) as L. revert O.
    generalize (List.filter (fun d => bool_decide (token d = key item)) (parse_str (save_text items w0))). intros ds O.
    destruct ds as [|d ds], (snapshot item w0) as [|d' ds'] eqn:S; [done|done|done|].
    destruct ow as [w1|]; [|done]. cbn [mbind option_bind]. by apply lawful_restore. }
  revert H. generalize (parse_str (save_text items w0)). intros ds H. generalize (Some w).
  clear lawful nodup Hw. revert H. induction items as [|i its IH]; intros H ow; [done|]. cbn [fold_left].
  rewrite H by by left. apply IH. intros item w1 Hin. apply H. by right.
Qed.

Lemma is_text_app a b : is_text (a ++ b) ↔ is_text a ∧ is_text b.
Proof. apply Forall_app. Qed.

Lemma is_text_word s : is_text s → is_text (quote_word s).
Proof.
  intros H. unfold quote_word. destruct (needs_quote s); [|done].
  apply Forall_cons. split; [left; unfold QUOTE; lia|]. apply Forall_app. split.
  - induction H as [|c s Hc H IH]; [constructor|]. cbn [flat_map]. apply Forall_app. split; [|done].
    unfold escape_char. case_match; repeat (apply Forall_cons; split; try done); try apply Forall_nil_2.
    left. unfold BACKSLASH. lia.
  - apply Forall_singleton. left. unfold QUOTE. lia.
Qed.

Lemma is_text_saved w : good w → is_text (save_text items w).
Proof using lawful.
  intros Hw. rewrite save_text_lines. apply Forall_flat_map, Forall_fmap, Forall_forall. intros d Hd.
  destruct (saved_directive w d Hw Hd) as (_ & T & A). cbn. unfold serialize_directive.
  apply Forall_app. split; [apply Forall_app; split; [done|]|apply Forall_singleton; left; unfold NEWLINE; lia].
  apply Forall_flat_map. eapply Forall_impl; [exact A|]. intros a [_ Ha].
  apply Forall_cons. split; [left; lia|by apply is_text_word].
Qed.

Lemma load_after_save w0 w f : good w0 →
  load items (fs_run (save_ops items w0) f) w = load_text items (save_text items w0) w.
Proof using lawful.
  intros Hw. unfold load, fs_run, save_ops. cbn. rewrite from_utf8_text by by apply is_text_saved. done.
Qed.
End Saved.

(** ** Scalars through the file *)

Lemma restore_content ds ds' v :
  content_of <$> ds = content_of <$> ds' → scalar_restore ds v = scalar_restore ds' v.
Proof.
  revert ds' v. induction ds as [|d ds IH]; intros [|d' ds'] v; try done. cbn [fmap list_fmap].
  intros [= _ E H]. cbn [scalar_restore]. rewrite E. destruct (args d') as [|a [|e r]]; [by apply IH|..].
  - destruct (decode_value (str "s") a) as [[v'|]|]; [by apply IH..|done].
  - destruct (decode_value a e) as [[v'|]|]; [by apply IH..|done].
Qed.

Lemma restore_snapshot k v v' : wf_value v → scalar_restore (scalar_snapshot k v) v' = Some (persisted v).
Proof.
  intros Hw. unfold scalar_snapshot. pose proof (decode_encode v Hw) as D.
  destruct (encode_value v) as [t e]. cbn. by rewrite D.
Qed.

(** An item for the scalar at [l], as long as its value is well-formed. *)
Lemma scalar_item_lawful {W} (good : W → Prop) k (l : Lens W Value) :
  plain_key k → is_text k → (∀ w, good w → wf_value (proj l w)) → LawfulPersistable good (scalar_persistable k l).
Proof.
  intros Hk Ht Hg. split; [done| |].
  - intros w Hw. cbn. unfold scalar_snapshot. pose proof (encoded_text _ (Hg w Hw)) as E.
    destruct (encode_value _) as [t e]. destruct E as (? & ? & ? & ?). by repeat constructor.
  - intros ds ds' w E. cbn. by rewrite (restore_content ds ds').
Qed.

(** Each key's handler value has a place of its own in the world. *)
Class LensFamily {W} (l : text → Lens W Value) : Prop := {
  family_get k v w : proj (l k) (upd (l k) v w) = v;
  family_other k k' v w : k ≠ k' → proj (l k) (upd (l k') v w) = proj (l k) w
}.

Section Scalars.
Context {W : Type} (l : text → Lens W Value) `{!LensFamily l}.

Definition good_scalars (w : W) : Prop := ∀ k, wf_value (proj (l k) w).

(** [snmpd] registers one item for each name. *)
Definition register_scalars (keys : list text) : Persistence W :=
  fold_left (fun its k => register (scalar_persistable k (l k)) its) keys [].

Lemma scalar_lawful k :
  plain_key k → is_text k → LawfulPersistable good_scalars (scalar_persistable k (l k)).
Proof using. intros Hk Ht. by apply scalar_item_lawful. Qed.

Lemma register_known k keys :
  k ∈ keys → register (scalar_persistable k (l k)) ((λ k, scalar_persistable k (l k)) <$> keys) =
    (λ k, scalar_persistable k (l k)) <$> keys.
Proof using.
  unfold register. induction keys as [|k' keys IH]; [by intros ?%elem_of_nil|]. intros Hin. cbn.
  case_bool_decide as E; [by rewrite E|]. f_equal. apply IH. by apply elem_of_cons in Hin as [|].
Qed.

Lemma register_new k keys :
  k ∉ keys → register (scalar_persistable k (l k)) ((λ k, scalar_persistable k (l k)) <$> keys) =
    (λ k, scalar_persistable k (l k)) <$> (keys ++ [k]).
Proof using.
  unfold register. induction keys as [|k' keys IH]; [done|]. intros [Hne Hin]%not_elem_of_cons. cbn.
  rewrite bool_decide_eq_false_2 by done. f_equal. by apply IH.
Qed.

(** A registry has one item for each key, however often it is registered. *)
Lemma registered keys :
  ∃ ks, NoDup ks ∧ (∀ k, k ∈ ks ↔ k ∈ keys) ∧
    register_scalars keys = (λ k, scalar_persistable k (l k)) <$> ks.
Proof using.
  unfold register_scalars. induction keys as [|k keys IH] using rev_ind; [by exists []; repeat constructor|].
  destruct IH as (ks & N & M & E). rewrite fold_left_app. cbn [fold_left]. rewrite E.
  destruct (decide (k ∈ ks)) as [Hin|Hin].
  - exists ks. rewrite register_known by done. split_and!; [done| |done].
    intros j. rewrite elem_of_app, <- M, list_elem_of_singleton.
    split; [by left|]. by intros [H| ->].
  - exists (ks ++ [k]). rewrite register_new by done. split_and!; [|by intros j; rewrite !elem_of_app, M|done].
    apply NoDup_app. split_and!; [done| |apply NoDup_singleton]. by intros x Hx ->%list_elem_of_singleton.
Qed.

Lemma restore_all ks w0 w :
  good_scalars w0 → NoDup ks →
  ∃ w', fold_left (fun w item => match snapshot item w0 with [] => w | ds => let! w := w in restore item ds w end)
      ((λ k, scalar_persistable k (l k)) <$> ks) (Some w) = Some w' ∧
    ∀ k, proj (l k) w' = if bool_decide (k ∈ ks) then persisted (proj (l k) w0) else proj (l k) w.
Proof using LensFamily0.
  intros Hw. revert w. induction ks as [|k ks IH]; intros w N.
  { exists w. split; [done|]. intros k. by rewrite bool_decide_eq_false_2 by apply not_elem_of_nil. }
  apply NoDup_cons in N as [Nk N]. cbn [fmap list_fmap fold_left].
  pose proof (restore_snapshot k _ (proj (l k) w) (Hw k)) as R.
  assert (E : (match snapshot (scalar_persistable k (l k)) w0 with [] => Some w
    | ds => let! w := Some w in restore (scalar_persistable k (l k)) ds w end) =
    Some (upd (l k) (persisted (proj (l k) w0)) w)).
  { cbn [snapshot scalar_persistable]. destruct (scalar_snapshot k (proj (l k) w0)) eqn:S.
    { unfold scalar_snapshot in S. by destruct (encode_value _). }
    cbn -[scalar_restore]. by rewrite R. }
  rewrite E. destruct (IH (upd (l k) (persisted (proj (l k) w0)) w) N) as (w' & F & P).
  exists w'. split; [done|]. intros j. rewrite P. destruct (decide (j = k)) as [->|Hne].
  - rewrite bool_decide_eq_false_2 by done. rewrite bool_decide_eq_true_2 by by left. apply family_get.
  - rewrite (family_other j k) by done. erewrite (bool_decide_ext (j ∈ k :: ks)); [done|].
    rewrite elem_of_cons. split; [by intros [?|?]|by right].
Qed.

(** What a saved registry of scalars comes back as, whatever its values. *)
Lemma scalars_restored keys w0 w f :
  Forall (λ k, plain_key k ∧ is_text k) keys → good_scalars w0 →
  ∃ w', load (register_scalars keys) (fs_run (save_ops (register_scalars keys) w0) f) w = Some w' ∧
    ∀ k, proj (l k) w' = if bool_decide (k ∈ keys) then persisted (proj (l k) w0) else proj (l k) w.
Proof using LensFamily0.
  intros HK Hw. destruct (registered keys) as (ks & N & M & E). rewrite E.
  assert (L : Forall (LawfulPersistable good_scalars) ((λ k, scalar_persistable k (l k)) <$> ks)).
  { apply Forall_fmap, Forall_forall. intros k Hk%M. rewrite Forall_forall in HK.
    destruct (HK k Hk). by apply scalar_lawful. }
  rewrite (load_after_save good_scalars _ L w0 w f Hw).
  rewrite (load_saved good_scalars _ L); [|by rewrite <- list_fmap_compose; cbn; rewrite list_fmap_id|done].
  destruct (restore_all ks w0 w Hw N) as (w' & R & P). exists w'. split; [done|]. intros k. rewrite P.
  erewrite (bool_decide_ext (k ∈ ks)); [done|]. apply M.
Qed.

(** C26. A saved registry of scalars comes back from its file, under keys that are
    plain words: every registered scalar has exactly the value it had when it
    was saved, whatever it was before the load, and nothing else changes. The
    saved values are data of any type but Opaque; [other_scalars_change] says
    what becomes of the others. *)
Theorem scalars_survive_restart keys w0 w f :
  Forall (λ k, plain_key k ∧ is_text k) keys → good_scalars w0 →
  (∀ k, k ∈ keys → plain_value (proj (l k) w0) = true) →
  ∃ w', load (register_scalars keys) (fs_run (save_ops (register_scalars keys) w0) f) w = Some w' ∧
    ∀ k, proj (l k) w' = proj (l k) (if bool_decide (k ∈ keys) then w0 else w).
Proof using LensFamily0.
  intros HK Hw Hv. destruct (scalars_restored keys w0 w f HK Hw) as (w' & E & H). exists w'. split; [exact E|].
  intros k. rewrite H. case_bool_decide as Hk; [|done]. by apply persisted_plain, Hv.
Qed.

(** An Opaque comes back as the OCTET STRING of its octets, and an exception,
    which cannot be saved, as Null. *)
Theorem other_scalars_change keys w0 w f k :
  Forall (λ k, plain_key k ∧ is_text k) keys → good_scalars w0 → k ∈ keys →
  ∃ w', load (register_scalars keys) (fs_run (save_ops (register_scalars keys) w0) f) w = Some w' ∧
    (∀ b, proj (l k) w0 = VOpaque b → proj (l k) w' = VOctetString b) ∧
    (proj (l k) w0 ∈ [VNoSuchObject; VNoSuchInstance; VEndOfMibView] → proj (l k) w' = VNull).
Proof using LensFamily0.
  intros HK Hw Hk. destruct (scalars_restored keys w0 w f HK Hw) as (w' & E & H). exists w'. split; [exact E|].
  rewrite H, bool_decide_eq_true_2 by exact Hk. split; [by intros b ->|].
  rewrite !elem_of_cons, elem_of_nil. by intros [->|[->|[->|[]]]].
Qed.
End Scalars.

(** A save that is interrupted between two of its file operations, or
    after writing a part of the text, leaves the file that [load] reads either
    as it was or complete. *)
Theorem interrupted_save {W} (items : Persistence W) w f n m :
  let ops := [CreateTmp; WriteTmp (take m (as_bytes (save_text items w))); SyncTmp] in
  target (fs_run (take n ops) f) = target f ∧
  target (fs_run (save_ops items w) f) = Some (as_bytes (save_text items w)).
Proof. split; [|done]. by destruct n as [|[|[|[|n]]]]. Qed.

(** ** Engine boots *)

Lemma load_saved_boots e e' boots dir :
  is_u32 boots → is_bytes e → is_bytes e' →
  load_engine_boots (save_engine_boots e boots dir) e' =
    if bool_decide (e = e') then Some boots else load_engine_boots dir e'.
Proof.
  intros Hb He He'. unfold load_engine_boots, save_engine_boots. case_bool_decide as E.
  - subst. rewrite lookup_insert_eq. cbn [mbind option_bind].
    destruct (show_u_correct boots ltac:(apply Hb)) as (_ & D & N).
    assert (T : trim (show_u boots ++ [NEWLINE]) = show_u boots).
    { unfold trim, trim_end, trim_start.
      assert (Hd : Forall (λ c, is_whitespace c = false) (show_u boots)).
      { eapply Forall_impl; [exact D|]. apply digit_not_whitespace. }
      destruct (show_u boots) as [|c s] eqn:Es; [done|]. apply Forall_cons in Hd as [Hc Hs].
      cbn [app]. rewrite trim_start_matches_head by done. rewrite app_comm_cons, rev_unit.
      change (trim_start_matches is_whitespace (NEWLINE :: rev (c :: s))) with (trim_start_matches is_whitespace (rev (c :: s))).
      rewrite trim_start_matches_id by (by apply Forall_rev, Forall_cons). apply rev_involutive. }
    rewrite T. apply parse_unsigned_show. unfold is_u32, u32_max in *. lia.
  - rewrite lookup_insert_ne; [done|]. unfold engine_boots_file. intros H%app_inv_tail.
    by apply hex_encode_inj in H.
Qed.

(** One life of an engine: it loads and bumps its counter and saves it. *)
Definition restart (fallback : Z) (s : Directory * list Z) (e : bytes) : Directory * list Z :=
  let boots := load_and_bump s.1 e fallback in (save_engine_boots e boots s.1, s.2 ++ [boots]).

Lemma bump_range dir e fallback : 0 <= fallback → is_u32 (load_and_bump dir e fallback).
Proof.
  intros Hf. unfold load_and_bump, saturating_add_u, is_u32, u32_max.
  destruct (load_engine_boots dir e) as [b|] eqn:E; cbn; [|lia].
  unfold load_engine_boots in E. destruct (dir !! _); [|done]. cbn in E.
  pose proof (parse_unsigned_nonneg _ _ _ E). lia.
Qed.

(** An engine's boot counter grows by one from each restart to the next,
    whatever other engines share the directory, until it stays at the largest
    u32. *)
Theorem boots_increase dir e others fallback :
  0 <= fallback → is_bytes e → Forall is_bytes others → e ∉ others →
  let b := load_and_bump dir e fallback in
  let dir' := (fold_left (restart fallback) others (save_engine_boots e b dir, [])).1 in
  load_and_bump dir' e fallback = Z.min u32_max (b + 1).
Proof.
  intros Hf He Ho Hn b dir'.
  assert (K : ∀ os s, Forall is_bytes os → e ∉ os → load_engine_boots s.1 e = Some b →
    load_engine_boots (fold_left (restart fallback) os s).1 e = Some b).
  { induction os as [|o os IH]; intros s Hos Hin Hs; [done|]. apply Forall_cons in Hos as [Ho1 Hos].
    apply not_elem_of_cons in Hin as [Hne Hin]. cbn [fold_left]. apply IH; [done|done|]. cbn.
    rewrite load_saved_boots by (done || by apply bump_range). by rewrite bool_decide_eq_false_2. }
  unfold load_and_bump at 1. unfold dir'. rewrite K; [done|done|done|]. cbn.
  rewrite load_saved_boots by (done || by apply bump_range). by rewrite bool_decide_eq_true_2.
Qed.

(** A first start bumps the fallback too. *)
Lemma first_boot e fallback : load_and_bump ∅ e fallback = Z.min u32_max (fallback + 1).
Proof. done. Qed.

(** A hand-edited hexadecimal value can panic. *)
Example hex_panics : decode_value (str "x") ([97; 233; 98]) = None.
Proof. vm_compute. reflexivity. Qed.

(** ** Witnesses *)

Definition demo_lens (k : text) : Lens (text → Value) Value :=
  mkLens (fun w => w k) (fun v w k' => if bool_decide (k' = k) then v else w k').

#[export] Instance demo_family : LensFamily demo_lens.
Proof.
  split; cbn; [intros; by rewrite bool_decide_eq_true_2|intros; by rewrite bool_decide_eq_false_2].
Qed.

Definition demo_world : text → Value :=
  fun k => if bool_decide (k = str "sysContact") then VOctetString (str "ops <ops@example.org>") else VInteger 5.

Lemma demo_good : good_scalars demo_lens demo_world.
Proof.
  intros k. cbn. unfold demo_world. case_bool_decide; [|split; vm_compute; congruence].
  apply (bool_decide_eq_true_1 (Forall (λ b, 0 <= b < 256) _)). vm_compute. reflexivity.
Qed.

Lemma demo_keys : Forall (λ k, plain_key k ∧ is_text k) [str "sysContact"; str "sysName"].
Proof.
  assert (H : ∀ k, bool_decide ((needs_quote k = false ∧ head k ≠ Some 35 ∧ head k ≠ Some 91) ∧
    (to_ascii_lowercase k ∉ [str "includefile"; str "includedir"; str "includesearch"; str "include"] ∧
     Forall (λ c, 32 < c < 127) k)) = true → plain_key k ∧ is_text k).
  { intros k E. apply bool_decide_eq_true in E as ((H1 & H2 & H3) & H4 & H5). split; [by split_and!|by apply visible_text]. }
  apply Forall_cons. split; [apply H; vm_compute; reflexivity|].
  apply Forall_singleton. apply H. vm_compute. reflexivity.
Qed.

Lemma scalars_survive_restart_witness :
  ∃ w', load (register_scalars demo_lens [str "sysContact"; str "sysName"])
      (fs_run (save_ops (register_scalars demo_lens [str "sysContact"; str "sysName"]) demo_world) (mkFiles None None))
      (λ _, VNull) = Some w' ∧
    ∀ k, w' k = (if bool_decide (k ∈ [str "sysContact"; str "sysName"]) then demo_world else λ _, VNull) k.
Proof.
  apply (scalars_survive_restart demo_lens [str "sysContact"; str "sysName"] demo_world (λ _, VNull) (mkFiles None None)
    demo_keys demo_good).
  intros k _. cbn. unfold demo_world. by case_bool_decide.
Defined.

Lemma boots_increase_witness :
  let b := load_and_bump ∅ [128; 1] 1 in
  let dir' := (fold_left (restart 1) [[128; 2]; [128; 3]] (save_engine_boots [128; 1] b ∅, [])).1 in
  load_and_bump dir' [128; 1] 1 = Z.min u32_max (b + 1).
Proof.
  apply (boots_increase ∅ [128; 1] [[128; 2]; [128; 3]] 1);
    [lia|repeat constructor; vm_compute; congruence| |].
  - repeat (apply Forall_cons; split; [repeat constructor; vm_compute; congruence|]). apply Forall_nil_2.
  - apply (bool_decide_eq_true_1 ([128; 1] ∉ [[128; 2]; [128; 3]])). vm_compute. reflexivity.
Defined.
