(* ===== verification/DefaultStore.v ===== *)
(** * The default store ([crates/netsnmp/src/default_store.rs])

    The typed switches of the process, the names by which configuration files
    call them, and the [override] directive that sets them. The store is a map
    from slots to values; [self.inner] is locked around each access, so the
    accesses are functions of the map. *)

From Stdlib Require Import ZArith Lia.
From S2P Require Import Prelude MachineInts Text Config Persist.

Local Open Scope list_scope.

Inductive DsCategory := Library | Application | AgentCategory | Mib | OtherCategory.

#[export] Instance category_eq_dec : EqDecision DsCategory.
Proof. solve_decision. Defined.

#[export] Instance category_countable : Countable DsCategory.
Proof.
  refine (inj_countable'
    (fun c => match c with Library => 0%nat | Application => 1%nat | AgentCategory => 2%nat | Mib => 3%nat
                         | OtherCategory => 4%nat end)
    (fun n => match n with 0%nat => Library | 1%nat => Application | 2%nat => AgentCategory | 3%nat => Mib
                         | _ => OtherCategory end) _).
  by intros [].
Defined.

Inductive DsValue :=
| DsBool (b : bool)
| DsInt (n : Z)
| DsString (s : text).

Abbreviation slot := (DsCategory * Z)%type.
Abbreviation DefaultStore := (gmap slot DsValue).

(** ** Access *)

Definition new : DefaultStore := ∅.

Definition set_bool (cat : DsCategory) (id : Z) (v : bool) (s : DefaultStore) : DefaultStore :=
  <[(cat, id) := DsBool v]> s.

Definition get_bool (cat : DsCategory) (id : Z) (s : DefaultStore) : bool :=
  match s !! (cat, id) with
  | Some (DsBool b) => b
  | Some (DsInt n) => negb (n =? 0)
  | Some (DsString _) => false
  | None => false
  end.

(** The read and the write take the lock one after the other. *)
Definition toggle_bool (cat : DsCategory) (id : Z) (s : DefaultStore) : bool * DefaultStore :=
  let v := negb (get_bool cat id s) in
  (v, set_bool cat id v s).

Definition set_int (cat : DsCategory) (id v : Z) (s : DefaultStore) : DefaultStore :=
  <[(cat, id) := DsInt v]> s.

Definition get_int (cat : DsCategory) (id : Z) (s : DefaultStore) : Z :=
  match s !! (cat, id) with
  | Some (DsInt n) => n
  | Some (DsBool b) => Z.b2z b
  | Some (DsString _) => 0
  | None => 0
  end.

Definition set_string (cat : DsCategory) (id : Z) (v : text) (s : DefaultStore) : DefaultStore :=
  <[(cat, id) := DsString v]> s.

Definition get_string_opt (cat : DsCategory) (id : Z) (s : DefaultStore) : option text :=
  match s !! (cat, id) with Some (DsString t) => Some t | _ => None end.

Definition get_string (cat : DsCategory) (id : Z) (s : DefaultStore) : text :=
  match s !! (cat, id) with Some (DsString t) => t | _ => [] end.

Definition remove (cat : DsCategory) (id : Z) (s : DefaultStore) : bool * DefaultStore :=
  (bool_decide (is_Some (s !! (cat, id))), delete (cat, id) s).

Definition clear (_ : DefaultStore) : DefaultStore := ∅.

Definition len (s : DefaultStore) : nat := size s.
Definition is_empty (s : DefaultStore) : bool := (len s =? 0)%nat.

(** ** The slots of [mod ids] *)

Definition LIB_PRINT_NUMERIC_OIDS : Z := 0.
Definition LIB_QUICK_PRINT : Z := 1.
Definition LIB_DONT_PRINT_UNITS : Z := 2.
Definition LIB_PRINT_BARE_VALUE : Z := 3.
Definition LIB_PRINT_FULL_OID : Z := 4.
Definition LIB_NO_ZERO_INDEX : Z := 5.
Definition LIB_OID_OUTPUT_FORMAT : Z := 6.
Definition LIB_SAVE_PLAINTEXT : Z := 7.
Definition LIB_DISABLE_PARSING_MIBS : Z := 8.
Definition LIB_MIB_WARNINGS : Z := 9.
Definition LIB_PRINT_SUFFIX_ONLY : Z := 10.
Definition LIB_PRINT_UCD_STYLE_OID : Z := 11.
Definition LIB_DONT_CHECK_RANGE : Z := 12.
Definition LIB_NO_DISPLAY_HINT : Z := 13.
Definition LIB_EXTENDED_INDEX : Z := 14.
Definition LIB_PRINT_HEX_TEXT : Z := 15.
Definition LIB_PRINT_NUMERIC_ENUM : Z := 16.
Definition LIB_PRINT_REVERSE_NUMERIC : Z := 17.
Definition APP_NUMERIC_OIDS : Z := 0.
Definition APP_DONT_PRINT_SUFFIX_ONLY : Z := 1.
Definition APP_PRINT_FULL_OID : Z := 2.
Definition APP_NO_TOKEN : Z := 3.
Definition APP_SPLIT_QUOTED_STRINGS : Z := 4.
Definition APP_LITERAL_TIME : Z := 5.
Definition APP_DONT_PRINT_UNITS : Z := 6.
Definition AGENT_NO_ROOT_ACCESS : Z := 0.
Definition AGENT_AGENTX_MASTER : Z := 1.
Definition AGENT_ROLE : Z := 2.
Definition AGENT_TIMEOUT : Z := 3.
Definition AGENT_PERSIST_DIR : Z := 4.
Definition AGENT_FLAGS : Z := 5.
Definition AGENT_DONT_PERSIST_STATE : Z := 6.
Definition AGENT_SAVE_STATE_ON_SHUTDOWN : Z := 7.
Definition AGENT_NO_CONNECTION_HOOKS : Z := 8.
Definition AGENT_LEAVE_PIDFILE : Z := 9.
Definition AGENT_X_SOCK_PERM : Z := 10.
Definition AGENT_X_DIR_PERM : Z := 11.
Definition AGENT_X_SOCK_USER : Z := 12.
Definition AGENT_X_SOCK_GROUP : Z := 13.
Definition MIB_PARSE_LABELS : Z := 0.
Definition MIB_SAVE_DESCR : Z := 1.
Definition MIB_REPLACEMIB_ERRORS : Z := 2.
Definition MIB_ALLOW_UNDERSCORES : Z := 3.
Definition MIB_FORWARD_REF : Z := 4.
Definition MIB_PARSE_COMMENT : Z := 5.
Definition MIB_CHECK_NUMERS : Z := 6.

Definition WELL_KNOWN : list (text * DsCategory * Z) := [
  (str "printnumericoids", Library, LIB_PRINT_NUMERIC_OIDS);
  (str "quickprint", Library, LIB_QUICK_PRINT);
  (str "dontprintunits", Library, LIB_DONT_PRINT_UNITS);
  (str "printbarevalue", Library, LIB_PRINT_BARE_VALUE);
  (str "printfulloid", Library, LIB_PRINT_FULL_OID);
  (str "nozeroindex", Library, LIB_NO_ZERO_INDEX);
  (str "oidoutputformat", Library, LIB_OID_OUTPUT_FORMAT);
  (str "saveplaintext", Library, LIB_SAVE_PLAINTEXT);
  (str "disableparsingmibs", Library, LIB_DISABLE_PARSING_MIBS);
  (str "mibwarnings", Library, LIB_MIB_WARNINGS);
  (str "numericoids", Application, APP_NUMERIC_OIDS);
  (str "norootaccess", AgentCategory, AGENT_NO_ROOT_ACCESS);
  (str "agentxmaster", AgentCategory, AGENT_AGENTX_MASTER);
  (str "agentrole", AgentCategory, AGENT_ROLE);
  (str "agenttimeout", AgentCategory, AGENT_TIMEOUT);
  (str "persistdir", AgentCategory, AGENT_PERSIST_DIR);
  (str "agentpersistdir", AgentCategory, AGENT_PERSIST_DIR);
  (str "parselabels", Mib, MIB_PARSE_LABELS);
  (str "mibparselabels", Mib, MIB_PARSE_LABELS)
].

(** ** Names *)

Section Names.
(** [char::to_lowercase]. *)
Context (to_lowercase : Z → text).

Definition UNDERSCORE : Z := 95.

Definition normalize (name : text) : text :=
  flat_map (fun ch => if ch =? UNDERSCORE then [] else to_lowercase ch) name.

(** [try_match]. *)
Definition try_match (s : text) : option slot :=
  match find (fun row => bool_decide (row.1.1 = s)) WELL_KNOWN with
  | Some (_, cat, id) => Some (cat, id)
  | None => None
  end.

Definition PREFIXES : list text := [str "ds"; str "lib"; str "agent"; str "mib"; str "app"].

(** [&s[p.len()..]] when [s] starts with [p]. *)
Fixpoint peel (p s : text) : option text :=
  match p, s with
  | [], _ => Some s
  | a :: p', b :: s' => if a =? b then peel p' s' else None
  | _ :: _, [] => None
  end.

(** One turn of the loops over the prefixes: something must be left. *)
Definition try_peeled (s p : text) : option slot :=
  match peel p s with
  | Some (c :: rest) => try_match (c :: rest)
  | _ => None
  end.

(** The first hit of a loop that returns on a hit. *)
Fixpoint first_hit {A} (f : A → option slot) (l : list A) : option slot :=
  match l with
  | [] => None
  | x :: l' => match f x with Some hit => Some hit | None => first_hit f l' end
  end.

Definition resolve_normalized (s : text) : option slot :=
  match try_match s with
  | Some hit => Some hit
  | None =>
      match first_hit (try_peeled s) PREFIXES with
      | Some hit => Some hit
      | None =>
          first_hit (fun p1 => match peel p1 s with
                               | None => None
                               | Some rest1 => first_hit (try_peeled rest1) PREFIXES
                               end) PREFIXES
      end
  end.

Definition resolve_ds_name (name : text) : option slot := resolve_normalized (normalize name).

(** ** [override] *)

Definition bool_of (s : text) : option bool :=
  let reads t := bool_decide (to_ascii_lowercase s = str t) in
  if reads "1" || reads "true" || reads "yes" || reads "on" then Some true
  else if reads "0" || reads "false" || reads "no" || reads "off" then Some false
  else None.

(** [args[value_idx..].join(" ")]. *)
Fixpoint join_words (ws : list text) : text :=
  match ws with
  | [] => []
  | [w] => w
  | w :: ws' => w ++ 32 :: join_words ws'
  end.

(** What one directive sets, if anything. *)
Definition assignment (d : Directive) : option (slot * DsValue) :=
  if negb (is_token d (str "override")) then None
  else
    match args d with
    | ty :: name :: a2 :: more =>
        let '(value_str, value_text) :=
          match more with
          | a3 :: _ =>
              if eq_ignore_case a2 (str "with")
              then (a3, match more with _ :: _ :: _ => join_words more | _ => a3 end)
              else (a2, a2)
          | [] => (a2, a2)
          end in
        match resolve_ds_name name with
        | None => None
        | Some sl =>
            let kind t := bool_decide (to_ascii_lowercase ty = str t) in
            if kind "bool" || kind "boolean" then
              match bool_of value_str with Some b => Some (sl, DsBool b) | None => None end
            else if kind "integer" || kind "int" then
              match parse_signed i64_min i64_max value_str with Some n => Some (sl, DsInt n) | None => None end
            else if kind "string" || kind "str" then Some (sl, DsString value_text)
            else None
        end
    | _ => None
    end.

Definition apply_override_directive (s : DefaultStore) (d : Directive) : DefaultStore :=
  match assignment d with
  | Some (sl, v) => <[sl := v]> s
  | None => s
  end.

Definition apply_override_directives_to (s : DefaultStore) (ds : list Directive) : DefaultStore :=
  fold_left apply_override_directive ds s.
End Names.

(** * Names resolve as documented *)

(** The ways to write at most two of the prefixes in front of a name. *)
Definition leaders : list text :=
  [] :: PREFIXES ++ flat_map (fun p => (fun q => p ++ q) <$> PREFIXES) PREFIXES.

Lemma peel_Some p s r : peel p s = Some r ↔ s = p ++ r.
Proof.
  revert s. induction p as [|a p IH]; intros s; cbn; [split; congruence|].
  destruct s as [|b s]; [split; discriminate|]. destruct (Z.eqb_spec a b) as [->|Hne].
  - rewrite IH. split; [by intros ->|by intros [= ->]].
  - split; [discriminate|]. intros [= -> _]. done.
Qed.

Lemma try_match_Some s cat id : try_match s = Some (cat, id) → (s, cat, id) ∈ WELL_KNOWN.
Proof.
  unfold try_match. destruct (find _ _) as [[[c k] i]|] eqn:E; [|done]. intros [= -> ->].
  apply find_some in E as [Hin E]. apply bool_decide_eq_true in E. cbn in E. subst. by apply list_elem_of_In.
Qed.

Lemma first_hit_Some {A} (f : A → option slot) l hit : first_hit f l = Some hit → ∃ x, x ∈ l ∧ f x = Some hit.
Proof.
  induction l as [|x l IH]; cbn; [done|]. destruct (f x) eqn:E.
  - intros [= ->]. exists x. split; [by left|done].
  - intros (y & Hy & Ey)%IH. exists y. split; [by right|done].
Qed.

Lemma try_peeled_Some s p cat id : try_peeled s p = Some (cat, id) →
  ∃ c, s = p ++ c ∧ (c, cat, id) ∈ WELL_KNOWN.
Proof.
  unfold try_peeled. destruct (peel p s) as [[|c r]|] eqn:E; try done. intros H%try_match_Some.
  exists (c :: r). split; [by apply peel_Some|done].
Qed.

(** Every well-known name behind every leader, tried out. *)
Definition leaders_ok : bool :=
  forallb (fun l => forallb (fun row => bool_decide (resolve_normalized (l ++ row.1.1) = Some (row.1.2, row.2))) WELL_KNOWN)
    leaders.

Lemma leaders_checked : leaders_ok = true.
Proof. vm_compute. reflexivity. Qed.

(** A normalised name resolves to a slot exactly when it is a well-known name of
    that slot behind at most two of the prefixes. *)
Theorem resolve_ds_name_iff lower name cat id :
  resolve_ds_name lower name = Some (cat, id) ↔
  ∃ l c, l ∈ leaders ∧ (c, cat, id) ∈ WELL_KNOWN ∧ normalize lower name = l ++ c.
Proof.
  unfold resolve_ds_name. generalize (normalize lower name) as s. intros s. split.
  - unfold resolve_normalized. destruct (try_match s) as [hit|] eqn:E0.
    { intros [= ->]. apply try_match_Some in E0. exists [], s. split_and!; [by left|done|done]. }
    destruct (first_hit (try_peeled s) PREFIXES) as [hit|] eqn:E1.
    { intros [= ->]. apply first_hit_Some in E1 as (p & Hp & (c & -> & Hc)%try_peeled_Some).
      exists p, c. split_and!; [|done|done]. unfold leaders. right. apply elem_of_app. by left. }
    intros (p1 & Hp1 & E2)%first_hit_Some. destruct (peel p1 s) as [r|] eqn:Ep; [|done].
    apply peel_Some in Ep as ->. apply first_hit_Some in E2 as (p2 & Hp2 & (c & -> & Hc)%try_peeled_Some).
    exists (p1 ++ p2), c. rewrite <- app_assoc. split_and!; [|done|done].
    unfold leaders. right. apply elem_of_app. right. apply list_elem_of_In, in_flat_map.
    exists p1. split; [by apply list_elem_of_In|]. apply list_elem_of_In. by apply (list_elem_of_fmap_2 (λ q, p1 ++ q)).
  - intros (l & c & Hl & Hc & ->). pose proof leaders_checked as H. unfold leaders_ok in H.
    rewrite forallb_forall in H. specialize (H l (proj1 (list_elem_of_In _ _) Hl)).
    rewrite forallb_forall in H. specialize (H _ (proj1 (list_elem_of_In _ _) Hc)). by apply bool_decide_eq_true in H.
Qed.

(** The category in a name is peeled off unread: an application's switch and the
    library's are one. *)
Example category_is_not_read :
  resolve_normalized (str "dsappprintnumericoids") = Some (Library, LIB_PRINT_NUMERIC_OIDS) ∧
  resolve_normalized (str "dsappprintfulloid") = Some (Library, LIB_PRINT_FULL_OID).
Proof. by vm_compute. Qed.

(** Of the slots of [mod ids], those that no configuration file can name. *)
Theorem nameless_slots lower name cat id : resolve_ds_name lower name = Some (cat, id) →
  match cat with
  | Library => id < LIB_PRINT_SUFFIX_ONLY
  | Application => id = APP_NUMERIC_OIDS
  | AgentCategory => id <= AGENT_PERSIST_DIR
  | Mib => id = MIB_PARSE_LABELS
  | OtherCategory => False
  end.
Proof.
  intros (l & c & _ & Hc & _)%resolve_ds_name_iff. unfold WELL_KNOWN in Hc.
  repeat (apply elem_of_cons in Hc as [[= _ -> ->]|Hc]; [done|]). by apply elem_of_nil in Hc.
Qed.

(** * Settings *)

Section Settings.
Context (lower : Z → text) (lower_ascii : ∀ c, 0 <= c < 128 → lower c = to_ascii_lowercase [c]).

(** A setting: the canonical name of its slot and the value. *)
Definition setting : Type := (text * DsCategory * Z) * DsValue.

Definition kind_of (v : DsValue) : text :=
  match v with DsBool _ => str "bool" | DsInt _ => str "integer" | DsString _ => str "string" end.

Definition shown (v : DsValue) : text :=
  match v with
  | DsBool b => if b then str "true" else str "false"
  | DsInt n => show_i n
  | DsString s => s
  end.

Definition override_directive (x : setting) : Directive :=
  mkDirective (str "override") [kind_of x.2; x.1.1.1; shown x.2] [] None 0.

(** The configuration file that holds the settings, and the store they mean. *)
Definition settings_text (xs : list setting) : text :=
  flat_map (fun l => l ++ [NEWLINE]) (serialize_directive <$> (override_directive <$> xs)).

Definition settle (s : DefaultStore) (xs : list setting) : DefaultStore :=
  fold_left (fun s x => <[(x.1.1.2, x.1.2) := x.2]> s) xs s.

Definition wf_setting (x : setting) : Prop :=
  x.1 ∈ WELL_KNOWN ∧ match x.2 with DsInt n => is_i64 n | DsString t => one_line t | DsBool _ => True end.

Lemma well_known_plain row : row ∈ WELL_KNOWN →
  normalize lower row.1.1 = row.1.1 ∧ one_line row.1.1.
Proof using lower_ascii.
  assert (H : Forall (λ row : text * DsCategory * Z, Forall (λ c, 97 <= c <= 122) row.1.1) WELL_KNOWN).
  { unfold WELL_KNOWN. repeat (apply Forall_cons; split; [cbn; repeat (apply Forall_cons; split; [lia|]); apply Forall_nil_2|]).
    apply Forall_nil_2. }
  rewrite Forall_forall in H. intros Hin. specialize (H row Hin). split.
  - induction H as [|c s Hc _ IH]; [done|]. unfold normalize in *. cbn [flat_map]. rewrite IH.
    unfold UNDERSCORE. destruct (Z.eqb_spec c 95); [lia|]. rewrite lower_ascii by lia. cbn.
    destruct (_ && _) eqn:E; [|done]. apply andb_true_iff in E as [?%Z.leb_le ?%Z.leb_le]. lia.
  - eapply Forall_impl; [exact H|]. unfold NEWLINE. cbn. lia.
Qed.

Lemma canonical_resolves row : row ∈ WELL_KNOWN →
  resolve_ds_name lower row.1.1 = Some (row.1.2, row.2).
Proof using lower_ascii.
  intros Hin. apply resolve_ds_name_iff. exists [], row.1.1. split_and!; [by left|by destruct row as [[]]|].
  by apply well_known_plain.
Qed.

Lemma assignment_content d d' : content_of d = content_of d' → assignment lower d = assignment lower d'.
Proof. intros [= Et Ea]. unfold assignment, is_token. by rewrite Et, Ea. Qed.

Lemma setting_assigned x : wf_setting x → assignment lower (override_directive x) = Some ((x.1.1.2, x.1.2), x.2).
Proof using lower_ascii.
  destruct x as [row v]. intros [Hin Hv]. unfold assignment. cbn -[resolve_ds_name].
  rewrite canonical_resolves by done. destruct v as [[]|n|t]; cbn -[parse_signed show_i]; [done|done| |done].
  cbn in Hv. rewrite parse_signed_show; [done|]. unfold is_i64, i64_min, i64_max in *. lia.
Qed.

Lemma setting_serialises x : wf_setting x →
  plain_key (token (override_directive x)) ∧ plain_args (args (override_directive x)).
Proof using lower_ascii.
  intros [Hin Hv]. split; [split_and!; [done|done|done|by apply (bool_decide_unpack _)]|].
  apply Forall_cons. split; [destruct x as [? []]; cbn; repeat constructor; done|].
  apply Forall_cons. split; [by apply well_known_plain|]. apply Forall_singleton.
  destruct x as [? [[]|n|t]]; cbn in *; [repeat constructor; done..| |done].
  apply visible_one_line, show_i_visible.
Qed.

Lemma apply_content ds ds' s : content_of <$> ds = content_of <$> ds' →
  apply_override_directives_to lower s ds = apply_override_directives_to lower s ds'.
Proof.
  unfold apply_override_directives_to. revert ds' s. induction ds as [|d ds IH]; intros [|d' ds'] s; try done.
  cbn [fmap list_fmap fold_left]. intros E. injection E as Et Ea E.
  unfold apply_override_directive at 2 4. rewrite (assignment_content d d') by (unfold content_of; congruence).
  by apply IH.
Qed.

Lemma settle_lookup xs s sl :
  settle s xs !! sl =
    match last (List.filter (fun x => bool_decide ((x.1.1.2, x.1.2) = sl)) xs) with
    | Some x => Some x.2
    | None => s !! sl
    end.
Proof.
  unfold settle. revert s. induction xs as [|x xs IH] using rev_ind; intros s; [done|].
  rewrite fold_left_app, List.filter_app. cbn. case_bool_decide as E.
  - rewrite last_snoc, E. by rewrite lookup_insert_eq.
  - rewrite app_nil_r, lookup_insert_ne by done. apply IH.
Qed.

(** A file of overrides, serialised, read by the configuration parser and
    applied: every slot it names holds the last value it was given, whatever the
    kind and the spelling of the value, and every other slot is as it was. *)
Theorem overrides_take_effect xs s sl : Forall wf_setting xs →
  apply_override_directives_to lower s (parse_str (settings_text xs)) !! sl =
    match last (List.filter (fun x => bool_decide ((x.1.1.2, x.1.2) = sl)) xs) with
    | Some x => Some x.2
    | None => s !! sl
    end.
Proof using lower_ascii.
  intros H. rewrite <- settle_lookup. f_equal.
  rewrite (apply_content _ (override_directive <$> xs)).
  - clear sl. unfold apply_override_directives_to, settle. revert s. induction H as [|x xs Hx _ IH]; intros s; [done|].
    cbn [fmap list_fmap fold_left]. unfold apply_override_directive at 2. by rewrite setting_assigned.
  - apply parse_serialized, Forall_fmap. eapply Forall_impl; [exact H|]. intros x. apply setting_serialises.
Qed.
End Settings.

(** Three settings, the first overridden by the third. *)
Definition some_settings : list setting :=
  [((str "quickprint", Library, LIB_QUICK_PRINT), DsBool true);
   ((str "agenttimeout", AgentCategory, AGENT_TIMEOUT), DsInt (-5));
   ((str "quickprint", Library, LIB_QUICK_PRINT), DsString (str "a b"))].

Lemma overrides_take_effect_witness :
  apply_override_directives_to (λ c, to_ascii_lowercase [c]) new (parse_str (settings_text some_settings))
    !! (Library, LIB_QUICK_PRINT) = Some (DsString (str "a b")).
Proof.
  refine (eq_trans (overrides_take_effect (λ c, to_ascii_lowercase [c]) (λ _ _, eq_refl) some_settings new
    (Library, LIB_QUICK_PRINT) _) _); [|reflexivity].
  repeat (apply Forall_cons; split); [| | |apply Forall_nil_2]; split;
    try (apply list_elem_of_In; vm_compute; tauto); cbn; try done.
  repeat constructor; done.
Defined.

(** Without [with], only the first word of a string is kept. *)
Example string_without_with_is_cut :
  apply_override_directives_to (λ c, to_ascii_lowercase [c]) new (parse_str (str "override string persistdir my dir"))
    !! (AgentCategory, AGENT_PERSIST_DIR) = Some (DsString (str "my")) ∧
  apply_override_directives_to (λ c, to_ascii_lowercase [c]) new (parse_str (str "override string persistdir with my dir"))
    !! (AgentCategory, AGENT_PERSIST_DIR) = Some (DsString (str "my dir")).
Proof. by vm_compute. Qed.

(** A toggle undoes a toggle, and reads as the kind that was written. *)
Lemma toggle_twice cat id s :
  let '(v, s1) := toggle_bool cat id s in
  let '(v', s2) := toggle_bool cat id s1 in
  v = negb (get_bool cat id s) ∧ v' = get_bool cat id s ∧ get_bool cat id s2 = get_bool cat id s.
Proof.
  unfold toggle_bool, set_bool, get_bool. cbn. rewrite !lookup_insert_eq, negb_involutive. done.
Qed.
