(* ===== verification/Notify.v ===== *)
(** * Notifications ([crates/netsnmp/src/trap.rs], [crates/netsnmp-agent/src/notify/mod.rs])

    Building and parsing trap PDUs, the target, parameters and notify tables
    as the configuration directives fill them, and the fan-out of one
    notification to every target. What leaves for the network is a value; the
    environment says whether each send fails. *)

From Stdlib Require Import ZArith Lia.
From S2P Require Import Prelude MachineInts Text Oid Value Wire Usm V3 Pdu Config.

Local Open Scope list_scope.

(** ** Trap PDUs *)

Definition SYSUPTIME_OID : Oid := [1; 3; 6; 1; 2; 1; 1; 3; 0].
Definition SNMP_TRAP_OID : Oid := [1; 3; 6; 1; 6; 3; 1; 1; 4; 1; 0].
Definition SNMP_TRAPS_OID : Oid := [1; 3; 6; 1; 6; 3; 1; 1; 5].

(** coldStart(0) to egpNeighborLoss(5); enterpriseSpecific(6) has none. *)
Definition v1_generic_trap_to_oid (generic : Z) : option Oid :=
  if (0 <=? generic) && (generic <=? 5) then Some (SNMP_TRAPS_OID ++ [generic]) else None.

Definition build_notification (t : PduType) (id uptime : Z) (trap_oid : Oid) (vbs : list VarBind)
    : result Pdu Error :=
  match t with
  | TrapV2 | Inform =>
      let p := push_variable (mkVarBind SYSUPTIME_OID (VTimeTicks uptime)) (new_pdu t id) in
      let p := push_variable (mkVarBind SNMP_TRAP_OID (VOid trap_oid)) p in
      Ok (set_variables (variables p ++ vbs) p)
  | _ => Err Protocol
  end.

Record Notification := mkNotification { sys_uptime : Z; trap_oid : Oid; note_varbinds : list VarBind }.

Definition parse_notification (p : Pdu) : result Notification Error :=
  match variables p with
  | vb0 :: vb1 :: rest =>
      match vb_value vb0 with
      | VTimeTicks t =>
          match vb_value vb1 with
          | VOid o => Ok (mkNotification t o rest)
          | _ => Err Protocol
          end
      | _ => Err Protocol
      end
  | _ => Err Protocol
  end.

Record V1Notification := mkV1Notification {
  v1_enterprise : Oid;
  v1_agent_addr : Ipv4Addr;
  v1_generic : Z;
  v1_specific : Z;
  v1_uptime : Z;
  v1_varbinds : list VarBind
}.

Definition build_v1_trap (enterprise : Oid) (addr : Ipv4Addr) (generic specific uptime : Z)
    (vbs : list VarBind) : Pdu :=
  new_v1_trap (mkV1Trap enterprise addr generic specific uptime) vbs.

Definition parse_v1_trap (p : Pdu) : result V1Notification Error :=
  match v1_trap p with
  | Some t =>
      Ok (mkV1Notification (enterprise t) (agent_addr t) (generic_trap t) (specific_trap t)
            (time_stamp t) (variables p))
  | None => Err Protocol
  end.

(** ** Tables *)

Inductive NotifyType := Trap | InformType.

Definition notify_type_int (t : NotifyType) : Z := match t with Trap => 1 | InformType => 2 end.

(** [timeout] in seconds. *)
Record TargetAddr := mkTarget {
  target_name : text;
  transport : text;
  address : text;
  timeout : Z;
  retries : Z;
  target_params : text
}.

Record TargetParams := mkParams {
  params_name : text;
  mp_model : Z;
  security_model : Z;
  security_name : bytes;
  security_level : Z;
  usm_user : option UsmUser
}.

Record NotifyEntry := mkNotify {
  notify_name : text;
  notify_tag : text;
  notify_typ : NotifyType;
  notify_params : text
}.

Record NotifyConfig := mkNotifyConfig {
  targets : list TargetAddr;
  params : list TargetParams;
  notifies : list NotifyEntry
}.

Definition new_config : NotifyConfig := mkNotifyConfig [] [] [].

Definition add_target (t : TargetAddr) (c : NotifyConfig) : NotifyConfig :=
  mkNotifyConfig (targets c ++ [t]) (params c) (notifies c).
Definition add_params (p : TargetParams) (c : NotifyConfig) : NotifyConfig :=
  mkNotifyConfig (targets c) (params c ++ [p]) (notifies c).
Definition add_notify (n : NotifyEntry) (c : NotifyConfig) : NotifyConfig :=
  mkNotifyConfig (targets c) (params c) (notifies c ++ [n]).

Definition has_targets (c : NotifyConfig) : bool := match targets c with [] => false | _ => true end.

(** ** Directives *)

Fixpoint strip_prefix (p s : text) : option text :=
  match p, s with
  | [], _ => Some s
  | c :: p', d :: s' => if c =? d then strip_prefix p' s' else None
  | _ :: _, [] => None
  end.

Definition normalize_host_port (host : text) (port : option text) : text :=
  let host :=
    match strip_prefix (str "udp:") host with
    | Some h => h
    | None => match strip_prefix (str "UDP:") host with Some h => h | None => host end
    end in
  if existsb (fun c => c =? 58) host then host
  else match port with
       | Some p => host ++ 58 :: p
       | None => host ++ 58 :: show_u 162
       end.

(** The three rows a directive adds under one name: params, target, notify. *)
Definition add_rows (name : text) (mp sec : Z) (sname : bytes) (level : Z) (user : option UsmUser)
    (addr : text) (typ : NotifyType) (c : NotifyConfig) : NotifyConfig :=
  let c := add_params (mkParams name mp sec sname level user) c in
  let c := add_target (mkTarget name (str "udp") addr 5 2 name) c in
  add_notify (mkNotify name name typ name) c.

Definition row_name (prefix : text) (c : NotifyConfig) : text :=
  prefix ++ show_u (Z.of_nat (length (targets c)) + 1).

Definition apply_community_sink (d : Directive) (v : Version) (typ : NotifyType) (c : NotifyConfig) : NotifyConfig :=
  match args d with
  | [] => c
  | host :: rest =>
      let community := match rest with comm :: _ => as_bytes comm | [] => str "public" end in
      let port := match rest with _ :: port :: _ => Some port | _ => None end in
      let address := normalize_host_port host port in
      let name := row_name (str "sink") c in
      let '(mp, sec) := match v with V1 => (0, 1) | V2c => (1, 2) end in
      add_rows name mp sec community 0 None address typ c
  end.

Definition to_ascii_uppercase (s : text) : text :=
  map (fun c => if (97 <=? c) && (c <=? 122) then c - 32 else c) s.

Definition is_one_of (s : text) (l : list text) : bool := existsb (fun t => bool_decide (s = t)) l.

Definition parse_auth_proto (s : text) : option AuthProtocol :=
  let u := to_ascii_uppercase s in
  if is_one_of u [str "MD5"] then Some HmacMd5
  else if is_one_of u [str "SHA"; str "SHA1"] then Some HmacSha1
  else if is_one_of u [str "SHA-256"; str "SHA256"] then Some HmacSha256
  else None.

Definition parse_priv_proto (s : text) : option PrivProtocol :=
  if is_one_of (to_ascii_uppercase s) [str "AES"; str "AES-128"; str "AES128"] then Some AesCfb128 else None.

(** The flags [parse_trapsess] collects. *)
Record Flags := mkFlags {
  f_user : option text;
  f_auth_proto : option AuthProtocol;
  f_auth_pass : option text;
  f_priv_proto : option PrivProtocol;
  f_priv_pass : option text;
  f_level : option text;
  f_positional : list text
}.

Definition no_flags : Flags := mkFlags None None None None None None [].

(** [while let Some(arg) = iter.next()]: a flag takes the next word, if any. *)
Fixpoint scan_flags (ars : list text) (f : Flags) : Flags :=
  match ars with
  | [] => f
  | a :: rest =>
      let '(mkFlags u ap aw pp pw lv pos) := f in
      let value := head rest in
      if is_one_of a [str "-u"; str "--user"] then
        scan_flags' rest (mkFlags value ap aw pp pw lv pos)
      else if is_one_of a [str "-a"; str "--auth-protocol"] then
        scan_flags' rest (mkFlags u (match value with Some v => parse_auth_proto v | None => ap end) aw pp pw lv pos)
      else if is_one_of a [str "-A"; str "--auth-passphrase"] then
        scan_flags' rest (mkFlags u ap value pp pw lv pos)
      else if is_one_of a [str "-x"; str "--priv-protocol"] then
        scan_flags' rest (mkFlags u ap aw (match value with Some v => parse_priv_proto v | None => pp end) pw lv pos)
      else if is_one_of a [str "-X"; str "--priv-passphrase"] then
        scan_flags' rest (mkFlags u ap aw pp value lv pos)
      else if is_one_of a [str "-l"; str "--security-level"; str "-L"] then
        scan_flags' rest (mkFlags u ap aw pp pw value pos)
      else if is_one_of a [str "-v"; str "--version"; str "-c"; str "--community"] then
        scan_flags' rest f
      else if starts_with 45 a then scan_flags rest f
      else scan_flags rest (mkFlags u ap aw pp pw lv (pos ++ [a]))
  end
(** After a flag: its value is consumed. *)
with scan_flags' (ars : list text) (f : Flags) : Flags :=
  match ars with [] => f | _ :: rest => scan_flags rest f end.

Record V3Args := mkV3Args {
  a_user : text;
  a_auth_proto : option AuthProtocol;
  a_auth_pass : option text;
  a_priv_proto : option PrivProtocol;
  a_priv_pass : option text;
  a_level : SecurityLevel;
  a_host : text;
  a_port : option text
}.

Definition non_empty (o : option text) : option text :=
  match o with Some [] => None | _ => o end.

Definition level_keyword (s : text) : option SecurityLevel :=
  let l := to_ascii_lowercase s in
  if is_one_of l [str "noauth"; str "noauthnopriv"; str "noauthnoprivacy"] then Some NoAuthNoPriv
  else if is_one_of l [str "auth"; str "authnopriv"; str "authnoprivacy"] then Some AuthNoPriv
  else if is_one_of l [str "priv"; str "authpriv"; str "authprivacy"] then Some AuthPriv
  else None.

Definition parse_trapsess (ars : list text) : option V3Args :=
  let f := scan_flags ars no_flags in
  let! host := head (f_positional f) in
  let port := f_positional f !! 1%nat in
  let! user := f_user f in
  let auth_pass := non_empty (f_auth_pass f) in
  let priv_pass := non_empty (f_priv_pass f) in
  let inferred :=
    match priv_pass, auth_pass with
    | Some _, _ => AuthPriv
    | None, Some _ => AuthNoPriv
    | None, None => NoAuthNoPriv
    end in
  let level := default inferred (let! l := f_level f in level_keyword l) in
  Some (mkV3Args user (f_auth_proto f) auth_pass (f_priv_proto f) priv_pass level host port).

(** The position of the first word equal to [a], as [position] finds it. *)
Definition position (a : text) (ars : list text) : option nat :=
  fst <$> list_find (fun x => x = a) ars.

Definition is_v3 (ars : list text) : bool :=
  existsb (fun a =>
    is_one_of a [str "-v"; str "--version"] &&
    match (let! i := position a ars in ars !! S i) with
    | Some v => bool_decide (v = str "3")
    | None => false
    end) ars.

Definition user_of (p : V3Args) : UsmUser :=
  let auth := default HmacSha1 (a_auth_proto p) in
  let pass := default [] (a_auth_pass p) in
  match a_level p with
  | NoAuthNoPriv => noauth_user (a_user p)
  | AuthNoPriv => auth_user (a_user p) auth pass
  | AuthPriv => auth_priv_user (a_user p) auth pass (default AesCfb128 (a_priv_proto p)) (default [] (a_priv_pass p))
  end.

Definition level_code (l : SecurityLevel) : Z :=
  match l with NoAuthNoPriv => 0 | AuthNoPriv => 1 | AuthPriv => 3 end.

(** The v2c form: the community and the positional words. *)
Fixpoint scan_community (ars : list text) (comm : bytes) (pos : list text) : bytes * list text :=
  match ars with
  | [] => (comm, pos)
  | a :: rest =>
      if is_one_of a [str "-c"; str "--community"] then
        match rest with
        | c :: rest' => scan_community rest' (as_bytes c) pos
        | [] => (comm, pos)
        end
      else if is_one_of a [str "-v"; str "--version"] then
        match rest with
        | _ :: rest' => scan_community rest' comm pos
        | [] => (comm, pos)
        end
      else if starts_with 45 a then scan_community rest comm pos
      else scan_community rest comm (pos ++ [a])
  end.

Definition apply_trapsess (d : Directive) (c : NotifyConfig) : NotifyConfig :=
  let name := row_name (str "sess") c in
  if is_v3 (args d) then
    match parse_trapsess (args d) with
    | None => c
    | Some p =>
        add_rows name 3 3 (as_bytes (a_user p)) (level_code (a_level p)) (Some (user_of p))
          (normalize_host_port (a_host p) (a_port p)) Trap c
    end
  else
    let '(community, pos) := scan_community (args d) (str "public") [] in
    match pos with
    | [] => c
    | host :: rest =>
        add_rows name 1 2 community 0 None (normalize_host_port host (head rest)) Trap c
    end.

Definition apply_directive (c : NotifyConfig) (d : Directive) : NotifyConfig :=
  if is_token d (str "trapsink") then apply_community_sink d V1 Trap c
  else if is_token d (str "trap2sink") then apply_community_sink d V2c Trap c
  else if is_token d (str "informsink") then apply_community_sink d V2c InformType c
  else if is_token d (str "trapsess") then apply_trapsess d c
  else c.

Definition from_config_directives (ds : list Directive) : NotifyConfig :=
  fold_left apply_directive ds new_config.

(** ** Sending *)

(** The agent's engine, or the stable default. *)
Definition notifier_engine (agent : option EngineParams) : EngineParams :=
  match agent with
  | Some e => e
  | None => mkEngine ([128; 0; 31; 136; 4] ++ str "rsnt") 1 0
  end.

(** What a session puts on the wire: a community message, or a v3 message of a
    user under an engine. *)
Inductive Outgoing :=
| OutCommunity (m : Message)
| OutV3 (user : UsmUser) (engine : EngineParams) (p : Pdu).

Record Originator := mkOriginator { config : NotifyConfig; engine : EngineParams }.

Section Send.

(** [next_request_id], drawn by an unconfirmed v2c or v3 trap or by the request
    of an inform. *)
Context (id : Z).

(** Seconds between the opening of the v3 session and its message. *)
Context (waited : Z).

(** [Session::send_trap] and [send_trap_v1]; [send_inform] hands the PDU to
    [request], which stamps the id. *)
Definition session_send_trap (v : Version) (comm : bytes) (uptime : Z) (oid : Oid) (vbs : list VarBind)
    : result Outgoing Error :=
  match v with
  | V1 => Err Protocol
  | V2c =>
      let? p := build_notification TrapV2 id uptime oid vbs in
      Ok (OutCommunity (mkMessage V2c comm p))
  end.

Definition session_send_trap_v1 (v : Version) (comm : bytes) (ent : Oid) (addr : Ipv4Addr)
    (generic specific uptime : Z) (vbs : list VarBind) : result Outgoing Error :=
  match v with
  | V2c => Err Protocol
  | V1 => Ok (OutCommunity (mkMessage V1 comm (build_v1_trap ent addr generic specific uptime vbs)))
  end.

Definition stamp (p : Pdu) : Pdu :=
  mkPdu (pdu_type p) id (error_status p) (error_index p) (variables p) (v1_trap p).

Definition session_send_inform (v : Version) (comm : bytes) (uptime : Z) (oid : Oid) (vbs : list VarBind)
    : result Outgoing Error :=
  let? p := build_notification Inform 0 uptime oid vbs in
  Ok (OutCommunity (mkMessage v comm (stamp p))).

(** [current_engine_time] is stamped into the message. *)
Definition aged (e : EngineParams) : EngineParams :=
  mkEngine (engine_id e) (engine_boots e) (as_u32 (engine_time e + as_u32 waited)).

(** [V3Session::send_trap] and [send_inform]. *)
Definition v3_send (t : PduType) (user : UsmUser) (e : EngineParams) (uptime : Z) (oid : Oid)
    (vbs : list VarBind) : result Outgoing Error :=
  let? p := build_notification t (match t with Inform => 0 | _ => id end) uptime oid vbs in
  Ok (OutV3 user (aged e) (stamp p)).

(** The TimeTicks of the first binding. *)
Definition first_uptime (vbs : list VarBind) : Z :=
  match vbs with
  | vb :: _ => match vb_value vb with VTimeTicks t => t | _ => 0 end
  | [] => 0
  end.

(** [send_to_target] up to the transport: the message it sends. *)
Definition send_to_target (o : Originator) (p : TargetParams) (typ : NotifyType) (oid : Oid)
    (vbs : list VarBind) : result Outgoing Error :=
  if mp_model p =? 3 then
    match usm_user p with
    | None => Err Protocol
    | Some user =>
        let e := notifier_engine (Some (engine o)) in
        match typ with
        | Trap => v3_send TrapV2 user e 0 oid vbs
        | InformType => v3_send Inform user e 0 oid vbs
        end
    end
  else
    let v := if mp_model p =? 0 then V1 else V2c in
    let uptime := first_uptime vbs in
    let extra := drop 2 vbs in
    match typ, v with
    | Trap, V1 =>
        session_send_trap_v1 v (security_name p) SNMP_TRAPS_OID (mkIpv4 127 0 0 1) 6
          (default 0 (last oid)) uptime extra
    | Trap, _ => session_send_trap v (security_name p) uptime oid extra
    | InformType, _ => session_send_inform v (security_name p) uptime oid extra
    end.

(** The bindings of the notification, after [elapsed] milliseconds. *)
Definition full_varbinds (elapsed : Z) (oid : Oid) (vbs : list VarBind) : list VarBind :=
  [mkVarBind SYSUPTIME_OID (VTimeTicks (as_u32 (elapsed / 10))); mkVarBind SNMP_TRAP_OID (VOid oid)] ++ vbs.

(** One entry of the loop of [send]: the target and what is sent to it, unless
    a row is missing. *)
Definition send_entry (o : Originator) (elapsed : Z) (oid : Oid) (vbs : list VarBind) (n : NotifyEntry)
    : option (TargetAddr * result Outgoing Error) :=
  let! t := find (fun t => bool_decide (target_name t = notify_tag n)) (targets (config o)) in
  let! p := find (fun p => bool_decide (params_name p = notify_params n)) (params (config o)) in
  Some (t, send_to_target o p (notify_typ n) oid (full_varbinds elapsed oid vbs)).

End Send.

(** [send]: a failed entry is logged, and the loop goes on; [ids i] is the
    request id drawn for the entry at position [i] and [waits i] the seconds
    its v3 session waits before the message. *)
Definition send (o : Originator) (ids waits : nat → Z) (elapsed : Z) (oid : Oid) (vbs : list VarBind)
    : list (TargetAddr * result Outgoing Error) :=
  if has_targets (config o)
  then omap Datatypes.id (imap (fun i n => send_entry (ids i) (waits i) o elapsed oid vbs n) (notifies (config o)))
  else [].

Definition COLD_START_OID : Oid := SNMP_TRAPS_OID ++ [1].
Definition WARM_START_OID : Oid := SNMP_TRAPS_OID ++ [2].

Definition send_cold_start (o : Originator) (ids waits : nat → Z) (elapsed : Z) :=
  send o ids waits elapsed COLD_START_OID [].
Definition send_warm_start (o : Originator) (ids waits : nat → Z) (elapsed : Z) :=
  send o ids waits elapsed WARM_START_OID [].

(** ** One name for each accepted directive *)

(** The rows of one name. *)
Record Sink := mkSink {
  s_name : text;
  s_params : TargetParams;
  s_addr : text;
  s_typ : NotifyType
}.

Definition sink_target (s : Sink) : TargetAddr := mkTarget (s_name s) (str "udp") (s_addr s) 5 2 (s_name s).
Definition sink_notify (s : Sink) : NotifyEntry := mkNotify (s_name s) (s_name s) (s_typ s) (s_name s).

Definition config_of (ss : list Sink) : NotifyConfig :=
  mkNotifyConfig (sink_target <$> ss) (s_params <$> ss) (sink_notify <$> ss).

(** The [n]th sink is named after its number, under one of two prefixes. *)
Definition numbered (n : nat) (s : Sink) : Prop :=
  (∃ prefix, prefix ∈ [str "sink"; str "sess"] ∧ s_name s = prefix ++ show_u (Z.of_nat n + 1)) ∧
  params_name (s_params s) = s_name s.

(** A v1 trap, a v2c trap or inform, or a v3 trap of a user. *)
Definition sendable (mp : Z) (user : option UsmUser) (typ : NotifyType) : Prop :=
  (mp = 0 ∧ typ = Trap) ∨ mp = 1 ∨ (mp = 3 ∧ user ≠ None ∧ typ = Trap).

Definition well_numbered (ss : list Sink) : Prop := ∀ n s, ss !! n = Some s →
  numbered n s ∧ sendable (mp_model (s_params s)) (usm_user (s_params s)) (s_typ s).

(** Whether a directive adds a target at all. *)
Definition accepts (d : Directive) : bool := has_targets (apply_directive new_config d).

Lemma add_rows_sink prefix mp sec sname level user addr typ ss :
  prefix ∈ [str "sink"; str "sess"] → sendable mp user typ → well_numbered ss →
  ∃ s, add_rows (row_name prefix (config_of ss)) mp sec sname level user addr typ (config_of ss) =
    config_of (ss ++ [s]) ∧ well_numbered (ss ++ [s]).
Proof.
  intros Hp Hs Hw. set (name := row_name prefix (config_of ss)).
  exists (mkSink name (mkParams name mp sec sname level user) addr typ). split.
  { unfold add_rows, config_of, add_notify, add_target, add_params. by rewrite !fmap_app. }
  intros n s. rewrite lookup_snoc_Some. intros [[_ H]|[-> <-]]; [by apply Hw|].
  split; [split; [|done]|done]. exists prefix. split; [done|]. cbn. unfold name, row_name. cbn. by rewrite length_fmap.
Qed.

Lemma add_rows_accepts name mp sec sname level user addr typ c :
  has_targets (add_rows name mp sec sname level user addr typ c) = true.
Proof. unfold has_targets, add_rows. cbn. by destruct (targets c). Qed.

(** The shape of every directive's effect: nothing, or one more sink. *)
Lemma apply_directive_cases d :
  (∀ c, apply_directive c d = c) ∨
  ∃ prefix mp sec sname level user addr typ, prefix ∈ [str "sink"; str "sess"] ∧ sendable mp user typ ∧
    ∀ c, apply_directive c d = add_rows (row_name prefix c) mp sec sname level user addr typ c.
Proof.
  assert (S : ∀ v t, v = V2c ∨ t = Trap → (∀ c, apply_community_sink d v t c = c) ∨
    ∃ prefix mp sec sname level user addr typ, prefix ∈ [str "sink"; str "sess"] ∧ sendable mp user typ ∧
      ∀ c, apply_community_sink d v t c = add_rows (row_name prefix c) mp sec sname level user addr typ c).
  { intros v t Hvt. unfold apply_community_sink. destruct (args d) as [|host rest]; [by left|right].
    destruct v; eexists (str "sink"), _, _, _, _, _, _, _; (split; [by left|]); (split; [|reflexivity]).
    - left. split; [done|]. by destruct Hvt.
    - by right; left. }
  unfold apply_directive. destruct (is_token d _); [by apply S; right|]. destruct (is_token d _); [by apply S; left|].
  destruct (is_token d _); [by apply S; left|]. destruct (is_token d _); [|by left].
  unfold apply_trapsess. destruct (is_v3 (args d)).
  - destruct (parse_trapsess (args d)); [right|by left].
    eexists (str "sess"), _, _, _, _, _, _, _. split; [by right; left|].
    split; [|reflexivity]. right; right. by split_and!.
  - destruct (scan_community _ _ _) as [comm [|host rest]]; [by left|right].
    eexists (str "sess"), _, _, _, _, _, _, _. split; [by right; left|].
    split; [|reflexivity]. by right; left.
Qed.

Lemma apply_directive_sink ss d :
  well_numbered ss →
  ∃ ss', apply_directive (config_of ss) d = config_of ss' ∧ well_numbered ss' ∧
    length ss' = (length ss + if accepts d then 1 else 0)%nat.
Proof.
  intros Hw. unfold accepts. destruct (apply_directive_cases d) as [E|(p & mp & sec & sn & lv & u & a & t & Hp & Hs & E)].
  - exists ss. rewrite !E. split_and!; [done|done|cbn; lia].
  - rewrite !E, add_rows_accepts. destruct (add_rows_sink p mp sec sn lv u a t ss Hp Hs Hw) as (s & Es & Ws).
    exists (ss ++ [s]). rewrite length_app. split_and!; [done|done|cbn; lia].
Qed.

Lemma from_directives_sinks ds :
  ∃ ss, from_config_directives ds = config_of ss ∧ well_numbered ss ∧
    length ss = length (List.filter accepts ds).
Proof.
  unfold from_config_directives. change new_config with (config_of []).
  assert (G : ∀ ss, well_numbered ss → ∃ ss', fold_left apply_directive ds (config_of ss) = config_of ss' ∧
    well_numbered ss' ∧ length ss' = (length ss + length (List.filter accepts ds))%nat).
  { induction ds as [|d ds IH]; intros ss Hw; [exists ss; split_and!; [done|done|cbn; lia]|].
    cbn [fold_left List.filter]. destruct (apply_directive_sink ss d Hw) as (s1 & -> & W1 & L1).
    destruct (IH s1 W1) as (s2 & -> & W2 & L2). exists s2. split_and!; [done|done|].
    rewrite L2, L1. destruct (accepts d); cbn; lia. }
  apply (G []). by intros n s H.
Qed.

Lemma numbered_name_inj n m s t : numbered n s → numbered m t → s_name s = s_name t → n = m.
Proof.
  intros [(p & Hp & E) _] [(q & Hq & F) _] H. rewrite E, F in H.
  assert (Lp : length p = 4%nat) by (set_unfold; by destruct Hp as [->|[->|[]]]).
  assert (Lq : length q = 4%nat) by (set_unfold; by destruct Hq as [->|[->|[]]]).
  apply app_inj_1 in H as [_ H]; [|congruence].
  pose proof (parse_digits_show (Z.of_nat n + 1) ltac:(lia)) as A.
  pose proof (parse_digits_show (Z.of_nat m + 1) ltac:(lia)) as B. rewrite H in A. rewrite A in B.
  injection B as B. lia.
Qed.

Lemma find_numbered {A} (f : Sink → A) (key : A → text) ss n s :
  (∀ n s, ss !! n = Some s → key (f s) = s_name s) → well_numbered ss → ss !! n = Some s →
  find (fun x => bool_decide (key x = s_name s)) (f <$> ss) = Some (f s).
Proof.
  intros Hk Hw Hn. assert (U : ∀ m t, ss !! m = Some t → s_name t = s_name s → t = s).
  { intros m t Ht E. pose proof (numbered_name_inj m n t s (proj1 (Hw _ _ Ht)) (proj1 (Hw _ _ Hn)) E) as ->. congruence. }
  clear Hw. revert n Hk Hn U. induction ss as [|x ss IH]; intros n Hk Hn U; [done|].
  cbn [fmap list_fmap find List.find]. rewrite (Hk 0%nat x eq_refl).
  destruct (decide (s_name x = s_name s)) as [E|E].
  - rewrite bool_decide_eq_true_2 by done. f_equal. f_equal. exact (U 0%nat x eq_refl E).
  - rewrite bool_decide_eq_false_2 by done. destruct n as [|n]; [cbn in Hn; congruence|].
    apply (IH n); [intros m t Ht; exact (Hk (S m) t Ht)|done|intros m t Ht; exact (U (S m) t Ht)].
Qed.

Lemma omap_id_imap_some {A B} (f : nat → A → option B) (g : nat → A → B) l :
  (∀ i x, l !! i = Some x → f i x = Some (g i x)) → omap Datatypes.id (imap f l) = imap g l.
Proof.
  revert f g. induction l as [|x l IH]; intros f g H; [done|]. cbn [imap].
  cbn [omap list_omap]. unfold Datatypes.id at 1. rewrite (H 0%nat x eq_refl). f_equal.
  apply IH. intros i y Hy. exact (H (S i) y Hy).
Qed.

(** What [send] does with the tables of a configuration file. *)
Lemma send_sinks ds e ids waits elapsed oid vbs :
  ∃ ss, from_config_directives ds = config_of ss ∧ well_numbered ss ∧ length ss = length (List.filter accepts ds) ∧
    send (mkOriginator (from_config_directives ds) e) ids waits elapsed oid vbs =
      imap (fun i s => (sink_target s,
        send_to_target (ids i) (waits i) (mkOriginator (from_config_directives ds) e) (s_params s) (s_typ s) oid
          (full_varbinds elapsed oid vbs))) ss.
Proof.
  destruct (from_directives_sinks ds) as (ss & E & W & L). exists ss. split_and!; [done|done|done|].
  rewrite E. unfold send. cbn [config].
  assert (has_targets (config_of ss) = true ∨ ss = []) as [->| ->] by (destruct ss; auto); [|done].
  cbn [notifies config_of].
  rewrite imap_fmap. apply omap_id_imap_some. intros i s Hs. unfold compose, send_entry. cbn [notify_tag notify_params sink_notify].
  cbn [config targets params config_of].
  rewrite (find_numbered sink_target target_name ss i s) by done. cbn [mbind option_bind].
  rewrite (find_numbered s_params params_name ss i s); [done| |done|done].
  intros m t Ht. by destruct (W m t Ht) as [[_ ?] _].
Qed.

(** ** What the targets receive *)

(** A notification as the receivers of each version read it. *)
Definition delivered (p : TargetParams) (typ : NotifyType) (e : EngineParams) (elapsed : Z) (oid : Oid)
    (vbs : list VarBind) (out : Outgoing) : Prop :=
  let uptime := as_u32 (elapsed / 10) in
  match out with
  | OutCommunity (mkMessage V2c comm pdu) =>
      comm = security_name p ∧ pdu_type pdu = match typ with Trap => TrapV2 | InformType => Inform end ∧
      parse_notification pdu = Ok (mkNotification uptime oid vbs)
  | OutCommunity (mkMessage V1 comm pdu) =>
      comm = security_name p ∧
      parse_v1_trap pdu =
        Ok (mkV1Notification SNMP_TRAPS_OID (mkIpv4 127 0 0 1) 6 (default 0 (last oid)) uptime vbs)
  | OutV3 user engine pdu =>
      usm_user p = Some user ∧ engine = e ∧ pdu_type pdu = TrapV2 ∧
      parse_notification pdu =
        Ok (mkNotification 0 oid (mkVarBind SYSUPTIME_OID (VTimeTicks uptime) ::
                                  mkVarBind SNMP_TRAP_OID (VOid oid) :: vbs))
  end.

Lemma send_to_target_delivers id waited o p typ elapsed oid vbs :
  sendable (mp_model p) (usm_user p) typ →
  ∃ out, send_to_target id waited o p typ oid (full_varbinds elapsed oid vbs) = Ok out ∧
    delivered p typ (aged waited (engine o)) elapsed oid vbs out.
Proof.
  intros [[Hm ->]|[Hm|(Hm & Hu & ->)]]; unfold send_to_target; rewrite Hm; cbn.
  - eexists. by split.
  - destruct typ; eexists; by split.
  - destruct (usm_user p) as [u|] eqn:E; [|done]. eexists. split; [done|]. by split_and!.
Qed.

(** C27. With the tables of a configuration file, one notification leaves for
    every target, in the order of the directives and one for each directive
    that names a host, whatever happens to the others: a v2c receiver parses
    back exactly the identity and bindings that were sent; a v1 receiver sees
    enterprise snmpTraps with the last arc as its specific code; and in the
    bindings of a v3 trap, under the agent's engine with its time as of the
    sending, the two mandatory ones come a second time, behind an uptime of
    zero. *)
Theorem every_sink_is_notified ds e ids waits elapsed oid vbs :
  let c := from_config_directives ds in
  let out := send (mkOriginator c e) ids waits elapsed oid vbs in
  out.*1 = targets c ∧ length out = length (List.filter accepts ds) ∧
  ∀ i t r, out !! i = Some (t, r) →
    ∃ p n m, params c !! i = Some p ∧ notifies c !! i = Some n ∧ r = Ok m ∧
      delivered p (notify_typ n) (aged (waits i) e) elapsed oid vbs m.
Proof.
  intros c out. destruct (send_sinks ds e ids waits elapsed oid vbs) as (ss & E & W & L & O).
  unfold out, c. rewrite O, E. split_and!.
  - cbn. rewrite fmap_imap. apply list_eq. intros i. rewrite list_lookup_imap, list_lookup_fmap. done.
  - by rewrite length_imap.
  - intros i t r. rewrite list_lookup_imap. destruct (ss !! i) as [s|] eqn:Hs; [|done]. intros [= <- <-].
    destruct (W i s Hs) as [_ Hd].
    destruct (send_to_target_delivers (ids i) (waits i) (mkOriginator (config_of ss) e) _ _ elapsed oid vbs Hd) as (m & -> & D).
    exists (s_params s), (sink_notify s), m. cbn. rewrite !list_lookup_fmap, Hs. by split_and!.
Qed.

(** A v1 receiver cannot tell apart two notifications whose identities end
    in the same arc. *)
Theorem v1_identity_is_the_last_arc id waited o p elapsed oid oid' vbs :
  mp_model p = 0 → last oid = last oid' →
  send_to_target id waited o p Trap oid (full_varbinds elapsed oid vbs) =
  send_to_target id waited o p Trap oid' (full_varbinds elapsed oid' vbs).
Proof. intros Hm Hl. unfold send_to_target. rewrite Hm. cbn. by rewrite Hl. Qed.

(** ** Round trips of trap PDUs *)

(** A notification PDU parses back to what it was built from. *)
Theorem notification_roundtrip t id uptime oid vbs p :
  build_notification t id uptime oid vbs = Ok p →
  parse_notification p = Ok (mkNotification uptime oid vbs) ∧ pdu_type p = t ∧ request_id p = id.
Proof. destruct t; cbn; try done; intros [= <-]; by split_and!. Qed.

Theorem v1_trap_roundtrip ent addr g s u vbs :
  parse_v1_trap (build_v1_trap ent addr g s u vbs) = Ok (mkV1Notification ent addr g s u vbs).
Proof. done. Qed.

(** An unknown flag's value is taken for the host. *)
Example flag_value_is_host :
  (address <$> targets (from_config_directives
     [mkDirective (str "trapsess") [str "-v"; str "2c"; str "-r"; str "3"; str "10.0.0.9"] [] None 1])) =
  [str "3:10.0.0.9"].
Proof. vm_compute. reflexivity. Qed.

(** ** Witnesses *)

Lemma v1_identity_is_the_last_arc_witness :
  let p := mkParams (str "sink1") 0 1 (str "public") 0 None in
  let o := mkOriginator new_config (mkEngine [] 1 0) in
  send_to_target 7 0 o p Trap [1; 3; 6; 1; 4; 1; 9; 0; 1] (full_varbinds 50 [1; 3; 6; 1; 4; 1; 9; 0; 1] []) =
  send_to_target 7 0 o p Trap [1; 3; 6; 1; 6; 3; 1; 1; 5; 1] (full_varbinds 50 [1; 3; 6; 1; 6; 3; 1; 1; 5; 1] []).
Proof.
  apply (v1_identity_is_the_last_arc 7 0 (mkOriginator new_config (mkEngine [] 1 0))
    (mkParams (str "sink1") 0 1 (str "public") 0 None) 50); reflexivity.
Defined.
