(* ===== verification/Smi.v ===== *)
(** * The MIB compiler ([crates/netsnmp/src/smi/])

    The tokenizer, the scan for labelled definitions and the resolution of
    symbolic OID values. The code scans the bytes of a [&str] and the tokens
    of a slice by index; here both are the suffix still to be read. Every byte
    the tokenizer compares is ASCII, so the scan over the characters is the
    same. Loops take their fuel from the length of the input; [lex_advances],
    [scan_advances] and [resolve_loop_ends] say that it never runs out. *)

From Stdlib Require Import ZArith Lia.
From S2P Require Import Prelude MachineInts Text Oid.

Local Open Scope list_scope.

(** ** The loops over a suffix

    [while i < n { one turn }]: a turn looks at the head and the rest, changes
    the loop's variables, perhaps pushes a result, and says where to go on. *)

Section Turns.
Context {A St B : Type} (step : St → A → list A → option B * St * list A).

Fixpoint turns (fuel : nat) (st : St) (l : list A) : option (list B) :=
  match l with
  | [] => Some []
  | a :: r =>
      match fuel with
      | O => None
      | S f =>
          let '(b, st', r') := step st a r in
          let! bs := turns f st' r' in Some (option_list b ++ bs)
      end
  end.

Definition run (st : St) (l : list A) : list B := default [] (turns (length l) st l).

Definition advancing : Prop := ∀ st a r, (length (step st a r).2 <= length r)%nat.

Lemma turns_total f st l : advancing → (length l <= f)%nat → turns f st l = Some (run st l).
Proof using Type.
  intros Ha. unfold run. cut (∀ f g l st, (length l <= f)%nat → (length l <= g)%nat →
    ∃ bs, turns f st l = Some bs ∧ turns g st l = Some bs).
  { intros H Hf. destruct (H f (length l) l st Hf ltac:(lia)) as (bs & E1 & E2).
    rewrite E1, E2. reflexivity. }
  clear -Ha. intros f. induction f as [|f IH]; intros g [|a r] st Hf Hg; cbn in *; try lia;
    [exists []; split; [reflexivity|]; destruct g; reflexivity .. |].
  destruct g as [|g]; [lia|]. cbn.
  pose proof (Ha st a r) as Hr. destruct (step st a r) as [[b st'] r'] eqn:E. cbn in Hr |- *.
  destruct (IH g r' st' ltac:(lia) ltac:(lia)) as (bs & E1 & E2). rewrite E1, E2. cbn. eauto.
Qed.

Lemma run_cons st a r b st' r' :
  advancing → step st a r = (b, st', r') → run st (a :: r) = option_list b ++ run st' r'.
Proof using Type.
  intros Ha E. unfold run at 1. cbn [length turns]. rewrite E. pose proof (Ha st a r) as Hr.
  rewrite E in Hr. cbn in Hr. rewrite turns_total by (try assumption; lia). reflexivity.
Qed.

(** What every turn keeps, and says of its result, holds of all results. *)
Lemma run_Forall (I : St → list A → Prop) (Q : B → Prop) :
  advancing →
  (∀ st a r b st' r', I st (a :: r) → step st a r = (b, st', r') → (∀ x, b = Some x → Q x) ∧ I st' r') →
  ∀ l st, I st l → Forall Q (run st l).
Proof using Type.
  intros Ha Hs l. induction l as [l IH] using (induction_ltof1 _ (@length A)). unfold ltof in IH.
  intros st Hi. destruct l as [|a r]; [constructor|].
  destruct (step st a r) as [[b st'] r'] eqn:E. rewrite (run_cons _ _ _ _ _ _ Ha E).
  pose proof (Ha st a r) as Hl. rewrite E in Hl. cbn in Hl. destruct (Hs _ _ _ _ _ _ Hi E) as [Hb Hi'].
  apply Forall_app. split; [|apply IH; [cbn; lia|exact Hi']].
  destruct b as [x|]; constructor; [by apply Hb|constructor].
Qed.

Lemma run_nil st : run st [] = [].
Proof using Type. reflexivity. Qed.
End Turns.

(** ** Tokens ([lex.rs]) *)

Inductive Tok :=
| TIdent (s : text)
| TNum (n : Z)
| TStr (s : text)
| TLBrace | TRBrace | TLParen | TRParen | TComma | TSemi | TPipe | TAssign | TDotDot.

#[export] Instance tok_eq_dec : EqDecision Tok.
Proof. solve_decision. Defined.

Definition is_ascii_alphabetic (c : Z) : bool :=
  ((65 <=? c) && (c <=? 90)) || ((97 <=? c) && (c <=? 122)).
Definition is_ident_start (c : Z) : bool := is_ascii_alphabetic c || (c =? 95).
Definition is_ident_part (c : Z) : bool := is_ascii_alphabetic c || is_ascii_digit c || (c =? 95).

(** After [--]: up to the next [--], which is consumed, or a newline, which is
    not. *)
Fixpoint skip_comment (s : text) : text :=
  match s with
  | [] => []
  | c :: s' =>
      if c =? 10 then s
      else match s' with
           | d :: s'' => if (c =? 45) && (d =? 45) then s'' else skip_comment s'
           | [] => []
           end
  end.

(** After the opening quote: the contents with doubled quotes decoded, and what
    follows the closing quote. *)
Fixpoint scan_string (s : text) : text * text :=
  match s with
  | [] => ([], [])
  | c :: s' =>
      if c =? 34 then
        match s' with
        | d :: s'' =>
            if d =? 34 then let '(w, r) := scan_string s'' in (34 :: w, r) else ([], s')
        | [] => ([], [])
        end
      else let '(w, r) := scan_string s' in (c :: w, r)
  end.

(** After an opening apostrophe: past the closing one and its H or B. *)
Fixpoint skip_bits (s : text) : text :=
  match s with
  | [] => []
  | c :: s' =>
      if c =? 39 then
        match s' with
        | d :: s'' => if (d =? 72) || (d =? 104) || (d =? 66) || (d =? 98) then s'' else s'
        | [] => []
        end
      else skip_bits s'
  end.

Fixpoint scan_digits (s : text) : text * text :=
  match s with
  | c :: s' => if is_ascii_digit c then let '(w, r) := scan_digits s' in (c :: w, r) else ([], s)
  | [] => ([], [])
  end.

(** Letters, digits, [_] and single hyphens between them. *)
Fixpoint scan_ident (s : text) : text * text :=
  match s with
  | c :: s' =>
      if is_ident_part c then let '(w, r) := scan_ident s' in (c :: w, r)
      else match s' with
           | d :: s'' =>
               if (c =? 45) && is_ident_part d
               then let '(w, r) := scan_ident s'' in (c :: d :: w, r)
               else ([], s)
           | [] => ([], s)
           end
  | [] => ([], [])
  end.

(** [s.parse::<i64>().unwrap_or(0)]. *)
Definition number (s : text) : Z := default 0 (parse_signed i64_min i64_max s).

Definition punctuation (c : Z) : option Tok :=
  if c =? 123 then Some TLBrace
  else if c =? 125 then Some TRBrace
  else if c =? 40 then Some TLParen
  else if c =? 41 then Some TRParen
  else if c =? 44 then Some TComma
  else if c =? 59 then Some TSemi
  else if c =? 124 then Some TPipe
  else None.

Definition is_blank (c : Z) : bool := (c =? 32) || (c =? 9) || (c =? 13) || (c =? 10).

Definition starts (p s : text) : bool := bool_decide (take (length p) s = p).

(** One turn of the loop at a non-empty suffix: the token, if any, and the
    next suffix. *)
Definition lex_step (c : Z) (s' : text) : option Tok * text :=
  if is_blank c then (None, s')
  else if (c =? 45) && starts [45] s' then (None, skip_comment (drop 1 s'))
  else if c =? 34 then let '(w, r) := scan_string s' in (Some (TStr w), r)
  else if c =? 39 then (None, skip_bits s')
  else if (c =? 58) && starts [58; 61] s' then (Some TAssign, drop 2 s')
  else if (c =? 46) && starts [46] s' then (Some TDotDot, drop 1 s')
  else if c =? 46 then (None, s')
  else match punctuation c with
       | Some t => (Some t, s')
       | None =>
           if is_ascii_digit c then
             let '(w, r) := scan_digits s' in (Some (TNum (number (c :: w))), r)
           else if is_ident_start c then
             let '(w, r) := scan_ident s' in (Some (TIdent (c :: w)), r)
           else (None, s')
       end.

Definition lex_turn (_ : unit) (c : Z) (s' : text) : option Tok * unit * text :=
  let '(t, r) := lex_step c s' in (t, tt, r).

Definition lex (s : text) : list Tok := run lex_turn tt s.

(** ** Definitions ([parse.rs]) *)

Inductive Comp :=
| CNumber (n : Z)
| CName (s : text)
| CNamed (s : text) (n : Z).

Record RawDef := mkRawDef { def_name : text; spec : list Comp; def_enums : option (list (Z * text)) }.

#[export] Instance comp_eq_dec : EqDecision Comp.
Proof. solve_decision. Defined.
#[export] Instance raw_def_eq_dec : EqDecision RawDef.
Proof. solve_decision. Defined.

Definition MACRO_KEYWORDS : list text :=
  [str "OBJECT-TYPE"; str "MODULE-IDENTITY"; str "OBJECT-IDENTITY"; str "NOTIFICATION-TYPE";
   str "OBJECT-GROUP"; str "NOTIFICATION-GROUP"; str "MODULE-COMPLIANCE"; str "AGENT-CAPABILITIES"].

(** [v.max(0) as u32]. *)
Definition arc_of (v : Z) : Z := as_u32 (Z.max v 0).

(** After [{]: the components and what follows the closing brace. *)
Fixpoint parse_oid_body (ts : list Tok) : option (list Comp * list Tok) :=
  match ts with
  | TRBrace :: r => Some ([], r)
  | TNum v :: r => let! (cs, r') := parse_oid_body r in Some (CNumber (arc_of v) :: cs, r')
  | TIdent n :: ((TLParen :: TNum v :: TRParen :: r) as alt) =>
      let! (cs, r') := parse_oid_body r in Some (CNamed n (arc_of v) :: cs, r')
  | TIdent n :: r => let! (cs, r') := parse_oid_body r in Some (CName n :: cs, r')
  | _ => None
  end.

Fixpoint parse_enum_body (ts : list Tok) : option (list (Z * text) * list Tok) :=
  match ts with
  | TIdent n :: TLParen :: TNum v :: TRParen :: r =>
      match r with
      | TComma :: r' => let! (ps, r'') := parse_enum_body r' in Some ((v, n) :: ps, r'')
      | TRBrace :: r' => Some ([(v, n)], r')
      | _ => None
      end
  | _ => None
  end.

(** Past the END of a macro definition. *)
Fixpoint skip_macro (ts : list Tok) : list Tok :=
  match ts with
  | [] => []
  | t :: r => if bool_decide (t = TIdent (str "END")) then r else skip_macro r
  end.

Definition is_macro_keyword (k : text) : bool := existsb (fun m => bool_decide (k = m)) MACRO_KEYWORDS.

(** The label and enumeration of the definition being read. *)
Record Scan := mkScan { label : option text; enum : option (list (Z * text)) }.
Definition idle : Scan := mkScan None None.

(** [<name> OBJECT IDENTIFIER ::= { ... }] *)
Definition oid_assignment (ts : list Tok) : option (RawDef * list Tok) :=
  match ts with
  | TIdent n :: TIdent k :: TIdent k' :: TAssign :: TLBrace :: r =>
      if bool_decide (k = str "OBJECT") && bool_decide (k' = str "IDENTIFIER") then
        let! (sp, r') := parse_oid_body r in Some (mkRawDef n sp None, r')
      else None
  | _ => None
  end.

(** One turn of the loop at a non-empty suffix. *)
Definition scan_step (st : Scan) (t : Tok) (r : list Tok) : option RawDef * Scan * list Tok :=
  let macro :=
    match t, r with
    | TIdent n, TIdent k :: r' =>
        if bool_decide (k = str "MACRO") then Some (idle, skip_macro r')
        else if is_macro_keyword k then Some (mkScan (Some n) None, r')
        else None
    | _, _ => None
    end in
  match macro with
  | Some (st', r') => (None, st', r')
  | None =>
      match oid_assignment (t :: r) with
      | Some (d, r') => (Some d, idle, r')
      | None =>
          let captured :=
            match t, label st, enum st with
            | TLBrace, Some _, None => parse_enum_body r
            | _, _, _ => None
            end in
          match captured with
          | Some (ps, r') => (None, mkScan (label st) (Some ps), r')
          | None =>
              match t, r with
              | TAssign, TLBrace :: r' =>
                  match (let! l := label st in let! b := parse_oid_body r' in Some (l, b)) with
                  | Some (l, (sp, r'')) => (Some (mkRawDef l sp (enum st)), idle, r'')
                  | None => (None, idle, r)
                  end
              | _, _ => (None, st, r)
              end
          end
      end
  end.

Definition parse_module (ts : list Tok) : list RawDef := run scan_step idle ts.

(** ** Resolution ([resolve.rs]) *)

Record MibObject := mkMibObject { obj_name : text; obj_oid : Oid; obj_enums : option (list (Z * text)) }.

#[export] Instance mib_object_eq_dec : EqDecision MibObject.
Proof. solve_decision. Defined.

Abbreviation names_map := (gmap (list Z) (list Z)).

Definition seed_roots : names_map :=
  <[str "joint-iso-itu-t" := [2]]> (<[str "joint-iso-ccitt" := [2]]> (<[str "itu-t" := [0]]>
  (<[str "itu" := [0]]> (<[str "ccitt" := [0]]> (<[str "iso" := [1]]> ∅))))).

(** The components after the first: a bare name there is not resolvable. *)
Fixpoint tail_arcs (cs : list Comp) : option Oid :=
  match cs with
  | [] => Some []
  | CNumber v :: cs' | CNamed _ v :: cs' => let! l := tail_arcs cs' in Some (v :: l)
  | CName _ :: _ => None
  end.

Definition resolve_one (sp : list Comp) (resolved : names_map) : option Oid :=
  match sp with
  | [] => None
  | c :: cs =>
      let! head :=
        match c with
        | CNumber v => Some [v]
        | CNamed n v => Some (default [v] (resolved !! n))
        | CName n => resolved !! n
        end in
      let! tl := tail_arcs cs in
      match head ++ tl with [] => None | o => Some o end
  end.

(** [entry(name).or_insert(oid)]. *)
Definition or_insert (n : text) (o : Oid) (m : names_map) : names_map :=
  match m !! n with Some _ => m | None => <[n := o]> m end.

(** One pass: the resolved names, the objects, and what is still pending. *)
Fixpoint resolve_pass (pending : list RawDef) (m : names_map) : names_map * list MibObject * list RawDef :=
  match pending with
  | [] => (m, [], [])
  | d :: ds =>
      match resolve_one (spec d) m with
      | Some o =>
          let '(m', objs, rest) := resolve_pass ds (or_insert (def_name d) o m) in
          (m', mkMibObject (def_name d) o (def_enums d) :: objs, rest)
      | None =>
          let '(m', objs, rest) := resolve_pass ds m in (m', objs, d :: rest)
      end
  end.

Fixpoint resolve_loop (fuel : nat) (pending : list RawDef) (m : names_map) : option (list MibObject) :=
  match fuel with
  | O => None
  | S f =>
      let '(m', objs, rest) := resolve_pass pending m in
      match objs, rest with
      | [], _ | _, [] => Some objs
      | _, _ => let! more := resolve_loop f rest m' in Some (objs ++ more)
      end
  end.

(** The roots win over the seeds. *)
Definition resolve_with_seeds (defs : list RawDef) (seeds : names_map) : list MibObject :=
  default [] (resolve_loop (S (length defs)) defs (seed_roots ∪ seeds)).

Definition resolve (defs : list RawDef) : list MibObject := resolve_with_seeds defs ∅.

Definition parse_text (input : text) : list MibObject := resolve (parse_module (lex input)).
Definition parse_text_with_seeds (input : text) (seeds : names_map) : list MibObject :=
  resolve_with_seeds (parse_module (lex input)) seeds.


(** ** The loops end *)

Lemma skip_comment_length s : (length (skip_comment s) <= length s)%nat.
Proof.
  induction s as [|c s IH]; [cbn; lia|]. cbn [skip_comment length].
  destruct (c =? 10); [cbn; lia|]. destruct s as [|d s']; [cbn; lia|].
  destruct ((c =? 45) && (d =? 45)); cbn [length] in *; lia.
Qed.

Lemma skip_bits_length s : (length (skip_bits s) <= length s)%nat.
Proof.
  induction s as [|c s IH]; [cbn; lia|]. cbn [skip_bits length].
  destruct (c =? 39); [|lia]. destruct s as [|d s']; [cbn; lia|].
  destruct (_ || _); cbn; lia.
Qed.

Lemma scan_string_length s : (length (scan_string s).2 <= length s)%nat.
Proof.
  induction s as [s IH] using (induction_ltof1 _ (@length Z)). unfold ltof in IH.
  destruct s as [|c s]; cbn; [lia|]. destruct (c =? 34).
  - destruct s as [|d s']; cbn; [lia|]. destruct (d =? 34); cbn; [|lia].
    specialize (IH s' ltac:(cbn; lia)). destruct (scan_string s'). cbn in *. lia.
  - specialize (IH s ltac:(cbn; lia)). destruct (scan_string s). cbn in *. lia.
Qed.

Lemma scan_digits_length s : (length (scan_digits s).2 <= length s)%nat.
Proof.
  induction s as [|c s IH]; cbn; [lia|]. destruct (is_ascii_digit c); cbn; [|lia].
  destruct (scan_digits s). cbn in *. lia.
Qed.

Lemma scan_ident_length s : (length (scan_ident s).2 <= length s)%nat.
Proof.
  induction s as [s IH] using (induction_ltof1 _ (@length Z)). unfold ltof in IH.
  destruct s as [|c s]; cbn; [lia|]. destruct (is_ident_part c).
  - specialize (IH s ltac:(cbn; lia)). destruct (scan_ident s). cbn in *. lia.
  - destruct s as [|d s']; cbn; [lia|]. destruct (_ && _); cbn; [|lia].
    specialize (IH s' ltac:(cbn; lia)). destruct (scan_ident s'). cbn in *. lia.
Qed.

Lemma lex_advances : advancing lex_turn.
Proof.
  intros [] c s'. unfold lex_turn, lex_step.
  pose proof (skip_comment_length (drop 1 s')). pose proof (skip_bits_length s').
  pose proof (scan_string_length s'). pose proof (scan_digits_length s').
  pose proof (scan_ident_length s'). rewrite length_drop in *.
  repeat case_match; simplify_eq; cbn in *; rewrite ?length_drop; lia.
Qed.

Lemma parse_oid_body_length ts cs r :
  parse_oid_body ts = Some (cs, r) → (length r < length ts)%nat.
Proof.
  revert cs r. induction ts as [ts IH] using (induction_ltof1 _ (@length Tok)). unfold ltof in IH.
  intros cs r E. destruct ts as [|t ts]; [discriminate|].
  destruct t; cbn in E; try discriminate.
  - assert (Hsub : ∀ x cs' r', (length x < S (length ts))%nat →
      parse_oid_body x = Some (cs', r') → (length r' < length x)%nat) by (intros; eapply IH; eauto).
    repeat case_match; simplify_eq;
      (match goal with
       | E : mbind _ (parse_oid_body ?x) = Some _ |- _ =>
           destruct (parse_oid_body x) as [[cs' r']|] eqn:E'; cbn in E; [|discriminate];
           simplify_eq; apply Hsub in E'; cbn in *; lia
       end).
  - destruct (parse_oid_body ts) as [[cs' r']|] eqn:E'; cbn in E; [|discriminate]. simplify_eq.
    specialize (IH ts ltac:(cbn; lia) _ _ E'). cbn. lia.
  - simplify_eq. cbn. lia.
Qed.

Lemma parse_enum_body_length ts ps r :
  parse_enum_body ts = Some (ps, r) → (length r < length ts)%nat.
Proof.
  revert ps r. induction ts as [ts IH] using (induction_ltof1 _ (@length Tok)). unfold ltof in IH.
  intros ps r E.
  assert (Hsub : ∀ x ps' r', (length x < length ts)%nat →
    parse_enum_body x = Some (ps', r') → (length r' < length x)%nat) by (intros; eapply IH; eauto).
  destruct ts as [|t ts]; [discriminate|]. cbn in E. repeat case_match; simplify_eq; [cbn; lia|].
  match goal with
  | E : mbind _ (parse_enum_body ?x) = Some _ |- _ =>
      destruct (parse_enum_body x) as [[ps' r']|] eqn:E'; cbn in E; [|discriminate];
      simplify_eq; apply Hsub in E'; cbn in *; lia
  end.
Qed.

Lemma skip_macro_length ts : (length (skip_macro ts) <= length ts)%nat.
Proof. induction ts as [|t ts IH]; cbn; [lia|]. case_bool_decide; cbn; lia. Qed.

Lemma oid_assignment_length ts d r :
  oid_assignment ts = Some (d, r) → (length r < length ts)%nat.
Proof.
  unfold oid_assignment. intros E. repeat case_match; try discriminate.
  destruct (parse_oid_body _) as [[sp r']|] eqn:E'; cbn in E; [|discriminate]. simplify_eq.
  apply parse_oid_body_length in E'. cbn. lia.
Qed.

Lemma scan_advances : advancing scan_step.
Proof.
  intros st t r. unfold scan_step.
  destruct (match t with TIdent n => _ | _ => None end) as [[st' r']|] eqn:Em.
  { destruct t as [n| | | | | | | | | | |]; [|discriminate Em ..].
    destruct r as [|[k| | | | | | | | | | |] r]; [discriminate Em| |discriminate Em ..].
    pose proof (skip_macro_length r).
    destruct (bool_decide (k = str "MACRO")); [|destruct (is_macro_keyword k); [|discriminate Em]];
      injection Em as <- <-; cbn [length snd]; lia. }
  destruct (oid_assignment (t :: r)) as [[d r']|] eqn:Ea.
  { apply oid_assignment_length in Ea. cbn in *. lia. }
  destruct (match t with TLBrace => _ | _ => None end) as [[ps r']|] eqn:Ec.
  { repeat case_match; simplify_eq. apply parse_enum_body_length in Ec. cbn. lia. }
  destruct t; try (cbn; lia). destruct r as [|[] r]; try (cbn; lia).
  destruct (label st); cbn; [|lia].
  destruct (parse_oid_body r) as [[sp r']|] eqn:E'; cbn; [|lia].
  apply parse_oid_body_length in E'. lia.
Qed.

(** ** Printing modules *)

Definition sp : Z := 32.

Definition show_tok (t : Tok) : text :=
  match t with
  | TIdent s => s
  | TNum n => show_u n
  | TStr s => 34 :: flat_map (fun c => if c =? 34 then [34; 34] else [c]) s ++ [34]
  | TLBrace => [123] | TRBrace => [125] | TLParen => [40] | TRParen => [41]
  | TComma => [44] | TSemi => [59] | TPipe => [124]
  | TAssign => [58; 58; 61] | TDotDot => [46; 46]
  end.

Definition show_toks (ts : list Tok) : text := flat_map (fun t => show_tok t ++ [sp]) ts.

(** Identifiers of the language: a letter or [_], then letters, digits, [_] and
    single hyphens between them. *)
Fixpoint ident_rest (s : text) : bool :=
  match s with
  | [] => true
  | c :: s' =>
      if is_ident_part c then ident_rest s'
      else match s' with d :: s'' => (c =? 45) && is_ident_part d && ident_rest s'' | [] => false end
  end.
Definition is_ident (s : text) : bool :=
  match s with c :: s' => is_ident_start c && ident_rest s' | [] => false end.

Definition tok_ok (t : Tok) : bool :=
  match t with
  | TIdent s => is_ident s
  | TNum n => (0 <=? n) && (n <=? i64_max)
  | _ => true
  end.

Lemma scan_ident_show s rest :
  ident_rest s = true → scan_ident (s ++ sp :: rest) = (s, sp :: rest).
Proof.
  induction s as [s IH] using (induction_ltof1 _ (@length Z)). unfold ltof in IH. intros H.
  destruct s as [|c s].
  { cbn. destruct rest; reflexivity. }
  cbn in H |- *. destruct (is_ident_part c) eqn:E.
  - rewrite IH by (first [assumption | cbn; lia]). reflexivity.
  - destruct s as [|d s]; [discriminate|]. cbn.
    apply andb_true_iff in H as [Hh H]. rewrite Hh. rewrite IH by (first [assumption | cbn; lia]). reflexivity.
Qed.

Lemma scan_digits_show s rest :
  Forall (λ c, is_ascii_digit c = true) s → scan_digits (s ++ sp :: rest) = (s, sp :: rest).
Proof. induction 1 as [|c s Hc _ IH]; [reflexivity|]. cbn. rewrite Hc, IH. reflexivity. Qed.

Lemma scan_string_show s rest :
  scan_string (flat_map (fun c => if c =? 34 then [34; 34] else [c]) s ++ [34] ++ sp :: rest)
  = (s, sp :: rest).
Proof.
  induction s as [|c s IH]; [reflexivity|]. cbn [flat_map]. destruct (c =? 34) eqn:E; cbn.
  - apply Z.eqb_eq in E as ->. cbn in IH. rewrite IH. reflexivity.
  - rewrite E. cbn in IH. rewrite IH. reflexivity.
Qed.

(** Every character test of [lex_step] on a [c] whose range the context bounds. *)
Ltac eval_char_tests c :=
  repeat match goal with
    | |- context [c =? ?k] => replace (c =? k) with false by (symmetry; apply Z.eqb_neq; lia)
    end; cbn [andb orb].

Lemma lex_step_ident c s :
  is_ident_start c = true →
  lex_step c s = let '(w, r) := scan_ident s in (Some (TIdent (c :: w)), r).
Proof.
  intros H. unfold lex_step, is_blank, punctuation. rewrite H.
  unfold is_ident_start, is_ascii_alphabetic in H. unfold is_ascii_digit.
  replace ((48 <=? c) && (c <=? 57)) with false by lia. eval_char_tests c. reflexivity.
Qed.

Lemma lex_step_digit c s :
  is_ascii_digit c = true →
  lex_step c s = let '(w, r) := scan_digits s in (Some (TNum (number (c :: w))), r).
Proof.
  intros H. unfold lex_step, is_blank, punctuation. rewrite H. unfold is_ascii_digit in H.
  eval_char_tests c. reflexivity.
Qed.

Lemma number_show n : 0 <= n <= i64_max → number (show_u n) = n.
Proof.
  intros H. unfold number. pose proof (parse_signed_show i64_min i64_max n) as P.
  unfold show_i in P. replace (n <? 0) with false in P by lia.
  rewrite P by (unfold i64_min in *; lia). reflexivity.
Qed.

Lemma lex_blank rest : run lex_turn tt (sp :: rest) = run lex_turn tt rest.
Proof. rewrite (run_cons lex_turn tt _ _ None tt rest lex_advances); reflexivity. Qed.

Lemma lex_show_tok t rest :
  tok_ok t = true → run lex_turn tt (show_tok t ++ sp :: rest) = t :: run lex_turn tt rest.
Proof.
  intros Hok. rewrite <- (lex_blank rest).
  assert (Hturn : ∀ c s, lex_step c s = (Some t, sp :: rest) →
    run lex_turn tt (c :: s) = t :: run lex_turn tt (sp :: rest)).
  { intros c s E. rewrite (run_cons lex_turn tt c s (Some t) tt (sp :: rest) lex_advances); [reflexivity|].
    unfold lex_turn. rewrite E. reflexivity. }
  destruct t; cbn [show_tok app tok_ok] in *; try (apply Hturn; reflexivity).
  - destruct s as [|c s]; [discriminate|]. cbn in Hok. apply andb_true_iff in Hok as [Hc Hs].
    apply Hturn. rewrite lex_step_ident, scan_ident_show by assumption. reflexivity.
  - destruct (show_u_correct n ltac:(lia)) as (_ & Hd & Hne).
    destruct (show_u n) as [|c s] eqn:E; [done|]. apply Forall_cons in Hd as [Hc Hd].
    apply Hturn. rewrite lex_step_digit, scan_digits_show by assumption.
    rewrite <- E, number_show by lia. reflexivity.
  - rewrite <- app_assoc. apply Hturn. unfold lex_step. cbn [is_blank Z.eqb Pos.eqb orb andb].
    rewrite scan_string_show. reflexivity.
Qed.

(** The tokenizer undoes the printer: printing tokens with a blank after
    each and reading the text back gives the tokens, strings with quotes in
    them included. *)
Theorem lex_show ts : forallb tok_ok ts = true → lex (show_toks ts) = ts.
Proof.
  unfold lex. induction ts as [|t ts IH]; [reflexivity|]. cbn [forallb show_toks flat_map].
  intros [Ht Hts]%andb_true_iff. rewrite <- app_assoc. cbn [app].
  fold (show_toks ts). rewrite lex_show_tok, IH by assumption. reflexivity.
Qed.

(** ** Scanning a printed module

    A module is a list of definitions, each after text that is not one, and
    some text at the end. *)

Definition show_comp (c : Comp) : list Tok :=
  match c with
  | CNumber n => [TNum n]
  | CName s => [TIdent s]
  | CNamed s n => [TIdent s; TLParen; TNum n; TRParen]
  end.
Definition show_spec (l : list Comp) : list Tok := TLBrace :: flat_map show_comp l ++ [TRBrace].

Definition show_enum (p : Z * text) : list Tok := [TIdent p.2; TLParen; TNum p.1; TRParen].
Definition show_enums (ps : list (Z * text)) : list Tok :=
  TLBrace ::
  match ps with
  | [] => []
  | p :: ps' => show_enum p ++ flat_map (fun q => TComma :: show_enum q) ps'
  end ++ [TRBrace].

Definition comp_ok (c : Comp) : bool :=
  match c with CNumber n | CNamed _ n => (0 <=? n) && (n <=? u32_max) | CName _ => true end.

Lemma arc_of_u32 n : 0 <= n <= u32_max → arc_of n = n.
Proof. intros H. unfold arc_of, u32_max in *. rewrite Z.max_l by lia. apply wrap_u_id. lia. Qed.

Lemma parse_oid_body_show l rest :
  forallb comp_ok l = true →
  parse_oid_body (flat_map show_comp l ++ TRBrace :: rest) = Some (l, rest).
Proof.
  induction l as [|c l IH]; [reflexivity|]. cbn [forallb flat_map].
  intros [Hc Hl]%andb_true_iff. specialize (IH Hl). rewrite <- app_assoc.
  destruct c as [n|s|s n]; cbn in Hc.
  - cbn. rewrite IH. cbn. rewrite arc_of_u32 by lia. reflexivity.
  - assert (Hp : match flat_map show_comp l ++ TRBrace :: rest with TLParen :: _ => False | _ => True end)
      by (destruct l as [|[] ?]; exact I).
    cbn [show_comp app parse_oid_body]. destruct (flat_map show_comp l ++ TRBrace :: rest) as [|[] r];
      try contradiction; rewrite IH; reflexivity.
  - cbn. rewrite IH. cbn. rewrite arc_of_u32 by lia. reflexivity.
Qed.

Lemma parse_enum_body_show p ps rest :
  parse_enum_body (show_enum p ++ flat_map (fun p => TComma :: show_enum p) ps ++ TRBrace :: rest)
  = Some (p :: ps, rest).
Proof.
  revert p. induction ps as [|q ps IH]; intros [v n]; [reflexivity|]. specialize (IH q).
  cbn in IH |- *. rewrite IH. reflexivity.
Qed.

Lemma parse_enum_body_app ts ps r rest :
  parse_enum_body ts = Some (ps, r) → parse_enum_body (ts ++ rest) = Some (ps, r ++ rest).
Proof.
  revert ps r. induction ts as [ts IH] using (induction_ltof1 _ (@length Tok)). unfold ltof in IH.
  intros ps r E. destruct ts as [|t ts]; [discriminate|].
  cbn in E. repeat case_match; simplify_eq; [reflexivity|].
  match goal with
  | E : mbind _ (parse_enum_body ?x) = Some _ |- _ =>
      destruct (parse_enum_body x) as [[ps' r']|] eqn:E'; cbn in E; [|discriminate];
      simplify_eq; apply IH in E'; [cbn in *; rewrite E'; reflexivity | cbn; lia]
  end.
Qed.

(** Text between definitions: no [MACRO], a [::=] is followed by a word, and a
    brace opens a whole enumeration or something that is not one. *)
Definition quiet_at (t : Tok) (r : list Tok) : bool :=
  match t, r with
  | TIdent _, TIdent k :: _ => bool_decide (k ≠ str "MACRO")
  | TAssign, TIdent _ :: _ => true
  | TAssign, _ => false
  | TLBrace, _ =>
      bool_decide (is_Some (parse_enum_body r)) ||
      match r with TIdent _ :: x :: _ => bool_decide (x ≠ TLParen) | _ => false end
  | _, _ => true
  end.

Fixpoint quiet (ts : list Tok) : bool :=
  match ts with [] => true | t :: r => quiet_at t r && quiet r end.

(** Clauses of a labelled definition, other than an enumeration. *)
Definition calm_at (t : Tok) (r : list Tok) : bool :=
  match t, r with
  | TIdent _, TIdent k :: _ => negb (is_macro_keyword k)
  | TAssign, _ => false
  | TLBrace, TIdent _ :: x :: _ => bool_decide (x ≠ TLParen)
  | TLBrace, _ => false
  | _, _ => true
  end.

Fixpoint calm (ts : list Tok) : bool :=
  match ts with [] => true | t :: r => quiet_at t r && calm_at t r && calm r end.

Definition plain_word (k : text) : bool := bool_decide (k ≠ str "MACRO") && negb (is_macro_keyword k).

(** What may follow such text. *)
Definition boundary (rest : list Tok) : bool :=
  match rest with
  | [] | TStr _ :: _ => true
  | TIdent a :: TIdent b :: _ => plain_word a && bool_decide (b ≠ str "IDENTIFIER")
  | _ => false
  end.

Lemma oid_assignment_quiet t r rest :
  quiet (t :: r) = true → boundary rest = true → oid_assignment (t :: r ++ rest) = None.
Proof.
  intros Hq Hb. destruct (oid_assignment (t :: r ++ rest)) as [[d x]|] eqn:E; [exfalso|reflexivity].
  unfold oid_assignment in E. destruct t as [n| | | | | | | | | | |]; try discriminate E.
  assert (Hshape : ∃ r4, r ++ rest = TIdent (str "OBJECT") :: TIdent (str "IDENTIFIER") :: TAssign :: TLBrace :: r4).
  { repeat case_match; try discriminate E.
    match goal with H : _ && _ = true |- _ => apply andb_true_iff in H as [->%bool_decide_eq_true ->%bool_decide_eq_true] end.
    eauto. }
  clear E. destruct Hshape as [r4 Hr].
  destruct r as [|t1 [|t2 [|t3 [|t4 r]]]]; cbn [app] in Hr.
  - subst rest. cbn in Hb. case_bool_decide; [contradiction|]. rewrite andb_false_r in Hb. discriminate.
  - injection Hr as -> ->. discriminate Hb.
  - injection Hr as -> -> ->. discriminate Hb.
  - injection Hr as -> -> -> ->. cbn in Hq. rewrite !andb_false_r in Hq. discriminate.
  - injection Hr as -> -> -> -> _. cbn in Hq. rewrite !andb_false_r in Hq. discriminate.
Qed.

Lemma not_macro_head t r rest (st : Scan) :
  quiet (t :: r) = true → calm (t :: r) = true → boundary rest = true →
  scan_step st t (r ++ rest) = (None, st, r ++ rest).
Proof.
  intros Hq Hc Hb. pose proof (oid_assignment_quiet t r rest Hq Hb) as Ha.
  cbn [quiet calm] in Hq, Hc. apply andb_true_iff in Hq as [Hq _].
  apply andb_true_iff in Hc as [[_ Hc]%andb_true_iff _].
  unfold scan_step. rewrite Ha. destruct t as [n| | | | | | | | | | |]; try reflexivity.
  - assert (Hk : ∀ k, head (r ++ rest) = Some (TIdent k) → plain_word k = true).
    { intros k. destruct r as [|t r]; cbn.
      - destruct rest as [|[] [|[] ?]]; cbn in Hb; try discriminate. intros [= <-].
        apply andb_true_iff in Hb as [Hb _]. exact Hb.
      - intros [= ->]. unfold plain_word. apply andb_true_iff. split; assumption. }
    destruct (r ++ rest) as [|[k| | | | | | | | | | |] x]; try reflexivity.
    specialize (Hk k eq_refl). unfold plain_word in Hk. apply andb_true_iff in Hk as [H1 H2].
    apply bool_decide_eq_true in H1. apply negb_true_iff in H2. rewrite H2.
    rewrite bool_decide_eq_false_2 by assumption. reflexivity.
  - assert (Hn : parse_enum_body (r ++ rest) = None).
    { cbn in Hc. destruct r as [|[] [|x r]]; try discriminate. apply bool_decide_eq_true in Hc.
      cbn. destruct x; try reflexivity. contradiction. }
    rewrite Hn. destruct (label st), (enum st); reflexivity.
  - discriminate Hc.
Qed.

Lemma calm_quiet ts : calm ts = true → quiet ts = true.
Proof.
  induction ts as [|t ts IH]; [reflexivity|]. cbn. intros [[H1 _]%andb_true_iff H2]%andb_true_iff.
  rewrite H1. exact (IH H2).
Qed.

Lemma scan_calm st ts rest :
  calm ts = true → boundary rest = true → run scan_step st (ts ++ rest) = run scan_step st rest.
Proof.
  intros Hc Hb. induction ts as [|t ts IH]; [reflexivity|].
  rewrite <- app_comm_cons.
  rewrite (run_cons scan_step st t (ts ++ rest) None st (ts ++ rest) scan_advances).
  - cbn in Hc. apply andb_true_iff in Hc as [_ Hc]. exact (IH Hc).
  - apply not_macro_head; [apply calm_quiet| |]; assumption.
Qed.

Lemma quiet_suffix a b : quiet (a ++ b) = true → quiet b = true.
Proof. induction a as [|t a IH]; [done|]. cbn. intros [_ H]%andb_true_iff. exact (IH H). Qed.

Lemma parse_enum_body_suffix ts ps r : parse_enum_body ts = Some (ps, r) → ∃ a, ts = a ++ r.
Proof.
  revert ps r. induction ts as [ts IH] using (induction_ltof1 _ (@length Tok)). unfold ltof in IH.
  intros ps r E. destruct ts as [|t ts]; [discriminate|].
  cbn in E. repeat case_match; simplify_eq;
    [match goal with |- ∃ a, ?p :: ?q :: ?u :: ?v :: ?w :: ?x = _ => exists [p; q; u; v; w]; reflexivity end|].
  match goal with
  | E : mbind _ (parse_enum_body ?x) = Some _ |- ∃ a, ?p :: ?q :: ?u :: ?v :: ?w :: ?x = _ =>
      destruct (parse_enum_body x) as [[ps' r']|] eqn:E'; cbn in E; [|discriminate];
      simplify_eq; apply IH in E'; [destruct E' as [a ->]; exists (p :: q :: u :: v :: w :: a); reflexivity | cbn; lia]
  end.
Qed.

(** A turn of the scan inside such text yields no definition and stays inside it. *)
Lemma quiet_step st t r rest :
  quiet (t :: r) = true → boundary rest = true →
  ∃ st' a r', r = a ++ r' ∧ scan_step st t (r ++ rest) = (None, st', r' ++ rest).
Proof.
  intros Hq Hb. pose proof (oid_assignment_quiet t r rest Hq Hb) as Ha.
  cbn [quiet] in Hq. apply andb_true_iff in Hq as [Hq _].
  unfold scan_step. rewrite Ha. destruct t as [n| | | | | | | | | | |]; try (exists st, [], r; split; reflexivity).
  - destruct r as [|t r].
    + cbn [app]. exists st, [], []. split; [reflexivity|].
      destruct rest as [|[a| | | | | | | | | | |] [|[b| | | | | | | | | | |] ?]]; try reflexivity; try discriminate Hb.
      cbn in Hb. apply andb_true_iff in Hb as [[H1 H2]%andb_true_iff _].
      apply bool_decide_eq_true in H1. apply negb_true_iff in H2. rewrite H2.
      rewrite bool_decide_eq_false_2 by assumption. reflexivity.
    + destruct t as [k| | | | | | | | | | |]; try (exists st, []; eexists; split; reflexivity).
      cbn [quiet_at] in Hq. apply bool_decide_eq_true in Hq. cbn [app].
      rewrite bool_decide_eq_false_2 by assumption.
      destruct (is_macro_keyword k); [exists (mkScan (Some n) None), [TIdent k], r | exists st, [], (TIdent k :: r)];
        split; reflexivity.
  - destruct (label st) as [l|]; [|exists st, [], r; split; reflexivity].
    destruct (enum st) as [e|]; [exists st, [], r; split; reflexivity|].
    destruct (parse_enum_body r) as [[ps r']|] eqn:E.
    + destruct (parse_enum_body_suffix _ _ _ E) as [a Hr].
      rewrite (parse_enum_body_app _ _ _ rest E). exists (mkScan (Some l) (Some ps)), a, r'.
      split; [exact Hr|reflexivity].
    + cbn [quiet_at] in Hq. rewrite E in Hq. rewrite bool_decide_eq_false_2 in Hq by (intros [? ?]; discriminate).
      cbn [orb] in Hq. destruct r as [|[] [|x r]]; try discriminate. apply bool_decide_eq_true in Hq.
      exists st, []. eexists. split; [reflexivity|]. cbn. destruct x; try reflexivity. contradiction.
  - destruct r as [|[] r]; try discriminate Hq. exists st, []. eexists. split; reflexivity.
Qed.

Lemma scan_quiet st ts rest :
  quiet ts = true → boundary rest = true → ∃ st', run scan_step st (ts ++ rest) = run scan_step st' rest.
Proof.
  revert st. induction ts as [ts IH] using (induction_ltof1 _ (@length Tok)). unfold ltof in IH.
  intros st Hq Hb. destruct ts as [|t ts]; [exists st; reflexivity|].
  destruct (quiet_step st t ts rest Hq Hb) as (st' & a & r' & -> & E).
  rewrite <- app_comm_cons, (run_cons _ _ _ _ _ _ _ scan_advances E).
  apply IH; [cbn; rewrite length_app; lia| |exact Hb].
  exact (quiet_suffix (t :: a) r' Hq).
Qed.

Inductive Item :=
| Assigned (name : text) (value : list Comp)
| Labelled (name kw : text) (syntax : option (list Tok * list (Z * text))) (clauses : list Tok)
    (description : text) (value : list Comp).

Definition show_syntax (sy : option (list Tok * list (Z * text))) : list Tok :=
  match sy with
  | None => []
  | Some (pre, ps) => pre ++ TIdent (str "SYNTAX") :: TIdent (str "INTEGER") :: show_enums ps
  end.

Definition show_item (it : Item) : list Tok :=
  match it with
  | Assigned n v =>
      TIdent n :: TIdent (str "OBJECT") :: TIdent (str "IDENTIFIER") :: TAssign :: show_spec v
  | Labelled n k sy cl d v =>
      TIdent n :: TIdent k :: show_syntax sy ++ cl ++ TStr d :: TAssign :: show_spec v
  end.

Definition item_def (it : Item) : RawDef :=
  match it with
  | Assigned n v => mkRawDef n v None
  | Labelled n _ sy _ _ v => mkRawDef n v (snd <$> sy)
  end.

Definition item_ok (it : Item) : bool :=
  match it with
  | Assigned n v => plain_word n && forallb comp_ok v
  | Labelled n k sy cl _ v =>
      plain_word n && is_macro_keyword k && forallb comp_ok v && calm cl &&
      match sy with None => true | Some (pre, ps) => calm pre && bool_decide (ps ≠ []) end
  end.

Definition show_module (es : list (list Tok * Item)) (after : list Tok) : list Tok :=
  flat_map (fun e => e.1 ++ show_item e.2) es ++ after.

Lemma scan_enum n k ps rest :
  ps ≠ [] →
  run scan_step (mkScan (Some n) None) (TIdent k :: show_enums ps ++ rest) =
  run scan_step (mkScan (Some n) (Some ps)) rest.
Proof.
  intros Hne. destruct ps as [|p ps]; [contradiction|]. unfold show_enums. cbn [app].
  assert (E : parse_enum_body (((show_enum p ++ flat_map (fun q => TComma :: show_enum q) ps) ++ [TRBrace]) ++ rest)
              = Some (p :: ps, rest)).
  { rewrite <- !app_assoc. apply parse_enum_body_show. }
  set (body := ((show_enum p ++ _) ++ [TRBrace]) ++ rest) in *.
  rewrite (run_cons scan_step _ (TIdent k) (TLBrace :: body) None (mkScan (Some n) None) (TLBrace :: body) scan_advances)
    by reflexivity.
  cbn [option_list app].
  rewrite (run_cons scan_step _ TLBrace body None (mkScan (Some n) (Some (p :: ps))) rest scan_advances); [reflexivity|].
  unfold scan_step. cbn [label enum]. rewrite E. reflexivity.
Qed.

Lemma scan_syntax n sy rest :
  match sy with None => true | Some (pre, ps) => calm pre && bool_decide (ps ≠ []) end = true →
  run scan_step (mkScan (Some n) None) (show_syntax sy ++ rest) =
  run scan_step (mkScan (Some n) (snd <$> sy)) rest.
Proof.
  destruct sy as [[pre ps]|]; [|reflexivity]. intros [Hpre Hne%bool_decide_eq_true]%andb_true_iff.
  cbn [show_syntax fmap option_fmap option_map snd]. rewrite <- app_assoc. cbn [app].
  rewrite scan_calm by (assumption || reflexivity). rewrite <- scan_enum with (k := str "INTEGER") by assumption.
  rewrite (run_cons scan_step _ (TIdent (str "SYNTAX")) _ None (mkScan (Some n) None) _ scan_advances) by reflexivity.
  reflexivity.
Qed.

Lemma macro_keyword_word k :
  is_macro_keyword k = true → k ≠ str "MACRO" ∧ k ≠ str "IDENTIFIER".
Proof. intros H. split; intros ->; vm_compute in H; discriminate. Qed.

Lemma boundary_item it rest : item_ok it = true → boundary (show_item it ++ rest) = true.
Proof.
  destruct it as [n v|n k sy cl d v]; cbn [item_ok show_item app boundary]; intros H.
  - apply andb_true_iff in H as [-> _]. reflexivity.
  - apply andb_true_iff in H as [[[[-> Hk]%andb_true_iff _]%andb_true_iff _]%andb_true_iff _].
    apply macro_keyword_word in Hk as [_ Hk]. rewrite bool_decide_eq_true_2 by assumption. reflexivity.
Qed.

Lemma scan_assign n e v rest :
  forallb comp_ok v = true →
  run scan_step (mkScan (Some n) e) (TAssign :: show_spec v ++ rest) =
  mkRawDef n v e :: run scan_step idle rest.
Proof.
  intros Hv. unfold show_spec. cbn [app].
  rewrite (run_cons scan_step _ TAssign _ (Some (mkRawDef n v e)) idle rest scan_advances); [reflexivity|].
  unfold scan_step. cbn [label enum mbind option_bind]. rewrite <- app_assoc. cbn [app].
  assert (E : oid_assignment (TAssign :: TLBrace :: flat_map show_comp v ++ TRBrace :: rest) = None) by reflexivity.
  rewrite E, parse_oid_body_show by assumption. reflexivity.
Qed.

Lemma scan_item st it rest :
  item_ok it = true →
  run scan_step st (show_item it ++ rest) = item_def it :: run scan_step idle rest.
Proof.
  destruct it as [n v|n k sy cl d v]; cbn [item_ok show_item item_def].
  - intros [Hn Hv]%andb_true_iff. rewrite <- !app_comm_cons. unfold show_spec. cbn [app].
    rewrite (run_cons scan_step st (TIdent n) _ (Some (mkRawDef n v None)) idle rest scan_advances); [reflexivity|].
    assert (E : oid_assignment (TIdent n :: TIdent (str "OBJECT") :: TIdent (str "IDENTIFIER") :: TAssign ::
                  TLBrace :: (flat_map show_comp v ++ [TRBrace]) ++ rest) = Some (mkRawDef n v None, rest)).
    { cbn [oid_assignment]. rewrite !bool_decide_eq_true_2 by reflexivity. cbn [andb].
      rewrite <- app_assoc. cbn [app]. rewrite parse_oid_body_show by assumption. reflexivity. }
    unfold scan_step. rewrite E. reflexivity.
  - intros [[[[Hn Hk]%andb_true_iff Hv]%andb_true_iff Hcl]%andb_true_iff Hsy]%andb_true_iff.
    rewrite <- !app_comm_cons, <- !app_assoc. cbn [app].
    rewrite (run_cons scan_step st (TIdent n) _ None (mkScan (Some n) None)
               (show_syntax sy ++ cl ++ TStr d :: TAssign :: show_spec v ++ rest) scan_advances).
    2:{ pose proof (macro_keyword_word k Hk) as [H1 _]. unfold scan_step. rewrite Hk.
        rewrite bool_decide_eq_false_2 by assumption. reflexivity. }
    cbn [option_list app]. rewrite scan_syntax by assumption. rewrite scan_calm by (assumption || reflexivity).
    rewrite (run_cons scan_step _ (TStr d) _ None (mkScan (Some n) (snd <$> sy)) _ scan_advances) by reflexivity.
    cbn [option_list app]. apply scan_assign. exact Hv.
Qed.

(** The scan finds exactly the definitions a module is made of. *)
Lemma parse_module_shown es after :
  Forall (λ e, quiet e.1 = true ∧ item_ok e.2 = true) es → quiet after = true →
  parse_module (show_module es after) = (λ e, item_def e.2) <$> es.
Proof.
  intros Hes Ha. unfold parse_module, show_module. generalize idle as st.
  induction Hes as [|[q it] es [Hq Hi] _ IH]; intros st; cbn [flat_map fst snd fmap list_fmap] in *.
  - cbn [app]. rewrite <- (app_nil_r after). destruct (scan_quiet st after [] Ha eq_refl) as [st' ->]. reflexivity.
  - rewrite <- !app_assoc.
    destruct (scan_quiet st q (show_item it ++ flat_map (fun e => e.1 ++ show_item e.2) es ++ after) Hq
                (boundary_item it _ Hi)) as [st' ->].
    rewrite scan_item by assumption. f_equal. apply IH.
Qed.

(** C24. The front end reads back what a module says: the text of a module made
    of OBJECT IDENTIFIER assignments and labelled macros (with or without an
    enumerated SYNTAX), with tokens in between that begin no definition
    ([quiet]: IMPORTS, type definitions) and, inside a macro, clauses without
    an assignment, a nested macro or an enumeration of their own ([calm]),
    compiles to the resolution of exactly those definitions, in order. *)
Theorem compile_shown es after seeds :
  Forall (λ e, quiet e.1 = true ∧ item_ok e.2 = true) es → quiet after = true →
  forallb tok_ok (show_module es after) = true →
  parse_text_with_seeds (show_toks (show_module es after)) seeds
  = resolve_with_seeds ((λ e, item_def e.2) <$> es) seeds.
Proof.
  intros Hes Ha Ht. unfold parse_text_with_seeds. rewrite lex_show by assumption.
  rewrite parse_module_shown by assumption. reflexivity.
Qed.

Definition demo_module : list (list Tok * Item) :=
  [([TIdent (str "T"); TIdent (str "DEFINITIONS"); TAssign; TIdent (str "BEGIN")],
    Assigned (str "org") [CName (str "iso"); CNumber 3]);
   ([TIdent (str "E"); TAssign; TIdent (str "SEQUENCE"); TLBrace; TIdent (str "i"); TIdent (str "INTEGER"); TRBrace],
    Labelled (str "mib-2") (str "OBJECT-TYPE") (Some ([], [(1, str "up"); (2, str "down")]))
      [TIdent (str "MAX-ACCESS"); TIdent (str "read-only")] (str "a status") [CName (str "org"); CNamed (str "a") 1])].

Lemma compile_shown_witness :
  parse_text_with_seeds (show_toks (show_module demo_module [TIdent (str "END")])) ∅
  = resolve_with_seeds ((λ e, item_def e.2) <$> demo_module) ∅.
Proof.
  apply compile_shown.
  - repeat (apply Forall_cons; split; [split; vm_compute; reflexivity|]). apply Forall_nil_2.
  - vm_compute; reflexivity.
  - vm_compute; reflexivity.
Defined.

Example demo_resolved :
  (λ o, (obj_oid o, obj_enums o)) <$> resolve ((λ e, item_def e.2) <$> demo_module)
  = [([1; 3], None); ([1; 3; 1], Some [(1, str "up"); (2, str "down")])].
Proof. vm_compute. reflexivity. Qed.

(** ** Resolution *)

Lemma resolve_pass_length ds m m' objs rest :
  resolve_pass ds m = (m', objs, rest) → (length objs + length rest = length ds)%nat.
Proof.
  revert m m' objs rest. induction ds as [|d ds IH]; intros m m' objs rest; cbn.
  - intros [= <- <- <-]. reflexivity.
  - destruct (resolve_one (spec d) m).
    + destruct (resolve_pass ds _) as [[m1 o1] r1] eqn:E. intros [= <- <- <-]. apply IH in E. cbn. lia.
    + destruct (resolve_pass ds m) as [[m1 o1] r1] eqn:E. intros [= <- <- <-]. apply IH in E. cbn. lia.
Qed.

Lemma resolve_loop_total f ds m :
  (length ds < f)%nat → is_Some (resolve_loop f ds m).
Proof.
  revert ds m. induction f as [|f IH]; intros ds m H; [lia|]. cbn.
  destruct (resolve_pass ds m) as [[m' objs] rest] eqn:E. apply resolve_pass_length in E.
  destruct objs as [|o objs]; [eauto|]. destruct rest as [|d rest]; [eauto|].
  destruct (IH (d :: rest) m' ltac:(cbn in *; lia)) as [more Hm]. rewrite Hm. cbn. eauto.
Qed.

(** The fixed-point loop reaches its end, in at most one pass per definition
    and one to notice. *)
Lemma resolve_loop_ends ds seeds :
  resolve_loop (S (length ds)) ds (seed_roots ∪ seeds) = Some (resolve_with_seeds ds seeds).
Proof.
  unfold resolve_with_seeds.
  destruct (resolve_loop_total (S (length ds)) ds (seed_roots ∪ seeds) ltac:(lia)) as [o ->]. reflexivity.
Qed.

(** What a value denotes: a number starts an OID, a known name stands for its
    OID, another name for what its definition denotes. A name with a number
    stands for its OID where it is known and for the number where nothing
    defines it. *)
Inductive denotes (defs : list RawDef) (base : names_map) : list Comp → Oid → Prop :=
| denotes_number v cs tl :
    tail_arcs cs = Some tl → denotes defs base (CNumber v :: cs) (v :: tl)
| denotes_known n o cs tl :
    base !! n = Some o → tail_arcs cs = Some tl → o ++ tl ≠ [] →
    denotes defs base (CName n :: cs) (o ++ tl)
| denotes_defined d o cs tl :
    base !! def_name d = None → d ∈ defs → denotes defs base (spec d) o →
    tail_arcs cs = Some tl → denotes defs base (CName (def_name d) :: cs) (o ++ tl)
| denotes_named_known n v o cs tl :
    base !! n = Some o → tail_arcs cs = Some tl → o ++ tl ≠ [] →
    denotes defs base (CNamed n v :: cs) (o ++ tl)
| denotes_named_new n v cs tl :
    base !! n = None → n ∉ def_name <$> defs → tail_arcs cs = Some tl →
    denotes defs base (CNamed n v :: cs) (v :: tl).

Definition object_of (d : RawDef) (o : Oid) : MibObject := mkMibObject (def_name d) o (def_enums d).

(** A name with a number in front is known from the start, or defined nowhere:
    otherwise what it stands for changes while the definitions are resolved. *)
Definition head_fixed (defs : list RawDef) (base : names_map) (d : RawDef) : Prop :=
  match spec d with CNamed n _ :: _ => is_Some (base !! n) ∨ n ∉ def_name <$> defs | _ => True end.

Section Resolution.
Context (defs : list RawDef) (base : names_map).
Hypothesis unique : NoDup (def_name <$> defs).
Hypothesis plain : Forall (head_fixed defs base) defs.

(** The names known so far are the base's and those of definitions already
    worked out, with the values they denote. *)
Definition known_ok (m : names_map) : Prop :=
  base ⊆ m ∧
  ∀ n o, m !! n = Some o → base !! n = None →
    ∃ d, d ∈ defs ∧ def_name d = n ∧ denotes defs base (spec d) o.

Lemma denotes_nonempty s o : denotes defs base s o → o ≠ [].
Proof using Type. induction 1; try done. destruct o; [contradiction|discriminate]. Qed.

Lemma same_def d d' : d ∈ defs → d' ∈ defs → def_name d = def_name d' → d = d'.
Proof using unique. intros Hd Hd' E. exact (nodup_fmap_inj def_name defs d d' unique Hd Hd' E). Qed.

Lemma denotes_det s o o' : denotes defs base s o → denotes defs base s o' → o = o'.
Proof using unique.
  intros H. revert o'. induction H as [v cs tl Ht|n o cs tl Hn Ht Hne|d o cs tl Hn Hd Ho IH Ht|n v o cs tl|n v cs tl];
    inversion 1; subst; simplify_eq; try reflexivity.
  match goal with
  | Hd' : ?d' ∈ defs, En : def_name ?d' = def_name d, Ho' : denotes _ _ (spec ?d') _ |- _ =>
      pose proof (same_def d' d Hd' Hd En); subst d'; rewrite (IH _ Ho'); reflexivity
  end.
Qed.

(** One value under a correct table: sound, and complete for what is known. *)
Lemma resolve_one_sound m d o :
  known_ok m → d ∈ defs → resolve_one (spec d) m = Some o → denotes defs base (spec d) o.
Proof using plain.
  intros [Hb Hm] Hd E. rewrite Forall_forall in plain. pose proof (plain d Hd) as Hp.
  unfold head_fixed in Hp. destruct (spec d) as [|[v|n|n v] cs]; cbn in E; try discriminate.
  - destruct (tail_arcs cs) as [tl|] eqn:Et; cbn in E; [|discriminate]. simplify_eq. by constructor.
  - destruct (m !! n) as [p|] eqn:En; cbn in E; [|discriminate].
    destruct (tail_arcs cs) as [tl|] eqn:Et; cbn in E; [|discriminate].
    assert (Hne : p ++ tl ≠ [] ∧ o = p ++ tl) by (destruct (p ++ tl); by simplify_eq).
    destruct Hne as [Hne ->]. destruct (base !! n) as [p'|] eqn:Eb.
    + pose proof (lookup_weaken _ _ _ _ Eb Hb). simplify_eq. by constructor.
    + destruct (Hm n p En Eb) as (d' & Hd' & <- & Hden). eapply denotes_defined; eauto.
  - destruct (tail_arcs cs) as [tl|] eqn:Et; [|by destruct (m !! n)].
    destruct (base !! n) as [p|] eqn:Eb.
    + rewrite (lookup_weaken _ _ _ _ Eb Hb) in E. cbn in E.
      assert (Hne : p ++ tl ≠ [] ∧ o = p ++ tl) by (destruct (p ++ tl); by simplify_eq).
      destruct Hne as [Hne ->]. by constructor.
    + destruct Hp as [[? ?]|Hp]; [congruence|]. destruct (m !! n) as [p|] eqn:En.
      { destruct (Hm n p En Eb) as (d' & Hd' & <- & _). destruct Hp. by apply list_elem_of_fmap_2. }
      cbn in E. simplify_eq. by constructor.
Qed.

Lemma known_ok_insert m d o :
  known_ok m → d ∈ defs → denotes defs base (spec d) o → known_ok (or_insert (def_name d) o m).
Proof using Type.
  intros [Hb Hm] Hd Ho. unfold or_insert. destruct (m !! def_name d) eqn:E; [split; assumption|].
  split; [etrans; [exact Hb|by apply insert_subseteq]|]. intros n p. rewrite lookup_insert_Some.
  intros [[<- <-]|[_ H]]; eauto.
Qed.

(** [d] has been worked out: its name is known. *)
Definition settled (m : names_map) (d : RawDef) : Prop :=
  base !! def_name d = None → is_Some (m !! def_name d).

Lemma settled_value m d o :
  known_ok m → d ∈ defs → settled m d → base !! def_name d = None → denotes defs base (spec d) o →
  m !! def_name d = Some o.
Proof using unique.
  intros [_ Hm] Hd Hs Eb Ho. destruct (Hs Eb) as [p Hp].
  destruct (Hm _ _ Hp Eb) as (d' & Hd' & En & Hp'). pose proof (same_def d' d Hd' Hd En). subst d'.
  rewrite Hp. f_equal. eapply denotes_det; eauto.
Qed.

Lemma resolve_pass_spec ds m m' objs rest :
  known_ok m → ds ⊆ defs → resolve_pass ds m = (m', objs, rest) →
  known_ok m' ∧ m ⊆ m' ∧ rest ⊆ ds ∧
  (∀ x, x ∈ objs → ∃ d o, d ∈ ds ∧ x = object_of d o ∧ denotes defs base (spec d) o) ∧
  (∀ d, d ∈ ds → d ∈ rest ∨ settled m' d ∧ ∃ o, object_of d o ∈ objs) ∧
  (objs = [] → m' = m ∧ ∀ d, d ∈ ds → resolve_one (spec d) m = None).
Proof using plain.
  revert m m' objs rest. induction ds as [|d ds IH]; intros m m' objs rest Hk Hsub; cbn.
  - intros [= <- <- <-]. split_and!; try done.
    + intros ? ?%not_elem_of_nil. contradiction.
    + intros ? ?%not_elem_of_nil. contradiction.
    + intros _. split; [reflexivity|]. intros ? ?%not_elem_of_nil. contradiction.
  - assert (Hd : d ∈ defs) by (apply Hsub; left). assert (Hsub' : ds ⊆ defs) by (intros ? ?; apply Hsub; by right).
    destruct (resolve_one (spec d) m) as [o|] eqn:Eo.
    + pose proof (resolve_one_sound m d o Hk Hd Eo) as Ho.
      destruct (resolve_pass ds _) as [[m1 o1] r1] eqn:E. intros [= <- <- <-].
      destruct (IH _ _ _ _ (known_ok_insert m d o Hk Hd Ho) Hsub' E) as (K & M & R & S & C & _).
      assert (Hm : m ⊆ or_insert (def_name d) o m).
      { unfold or_insert. destruct (m !! def_name d) eqn:En; [done|by apply insert_subseteq]. }
      split_and!; [exact K | by etrans | intros y Hy; right; by apply R | | | discriminate].
      * intros x [->|Hx]%elem_of_cons; [exists d, o; split_and!; [left|reflexivity|exact Ho]|].
        destruct (S x Hx) as (d' & o' & ? & ? & ?). exists d', o'. split_and!; [by right|done|done].
      * intros d' [->|Hd']%elem_of_cons.
        -- right. split; [|exists o; left]. intros _. unfold or_insert in M.
           destruct (m !! def_name d) as [p|] eqn:En; [exists p; exact (lookup_weaken _ _ _ _ En M)|].
           exists o. eapply lookup_weaken; [|exact M]. apply lookup_insert_eq.
        -- destruct (C d' Hd') as [?|[? [o' ?]]]; [by left|right; split; [done|exists o'; by right]].
    + destruct (resolve_pass ds m) as [[m1 o1] r1] eqn:E. intros [= <- <- <-].
      destruct (IH _ _ _ _ Hk Hsub' E) as (K & M & R & S & C & N).
      split_and!; [exact K | exact M | intros y [->|Hy]%elem_of_cons; [left|right; by apply R] | | | ].
      * intros x Hx. destruct (S x Hx) as (d' & o' & ? & ? & ?). exists d', o'. split_and!; [by right|done|done].
      * intros d' [->|Hd']%elem_of_cons; [left; left|]. destruct (C d' Hd'); [left; by right|by right].
      * intros Hn. destruct (N Hn) as [-> N']. split; [reflexivity|].
        intros d' [->|Hd']%elem_of_cons; [exact Eo|exact (N' d' Hd')].
Qed.

Definition pending_ok (ds : list RawDef) (m : names_map) : Prop :=
  known_ok m ∧ ds ⊆ defs ∧ ∀ d, d ∈ defs → d ∈ ds ∨ settled m d.

(** When a pass finds nothing, nothing that is left denotes anything. *)
Lemma stuck_denotes ds m s o :
  pending_ok ds m → (∀ d, d ∈ ds → resolve_one (spec d) m = None) →
  denotes defs base s o → resolve_one s m = Some o.
Proof using unique.
  intros ([Hb Hm] & Hsub & Hall) Hstuck.
  induction 1 as [v cs tl Ht|n p cs tl Hn Ht Hne|d p cs tl Hn Hd Ho IH Ht|n v p cs tl Hn Ht Hne|n v cs tl Hn Hnew Ht]; cbn.
  - rewrite Ht. reflexivity.
  - rewrite (lookup_weaken _ _ _ _ Hn Hb). cbn. rewrite Ht. cbn. destruct (p ++ tl); [contradiction|reflexivity].
  - destruct (Hall d Hd) as [Hp|Hs]; [rewrite (Hstuck d Hp) in IH; discriminate|].
    rewrite (settled_value m d p (conj Hb Hm) Hd Hs Hn Ho). cbn. rewrite Ht. cbn.
    pose proof (denotes_nonempty _ _ Ho). destruct p; [contradiction|reflexivity].
  - rewrite (lookup_weaken _ _ _ _ Hn Hb). cbn. rewrite Ht. cbn. destruct (p ++ tl); [contradiction|reflexivity].
  - rewrite Ht. destruct (m !! n) as [p|] eqn:En; [|reflexivity].
    destruct (Hm n p En Hn) as (d' & Hd' & <- & _). destruct Hnew. by apply list_elem_of_fmap_2.
Qed.

Lemma resolve_loop_spec f ds m objs :
  pending_ok ds m → resolve_loop f ds m = Some objs →
  (∀ x, x ∈ objs → ∃ d o, d ∈ ds ∧ x = object_of d o ∧ denotes defs base (spec d) o) ∧
  (∀ d o, d ∈ ds → denotes defs base (spec d) o → object_of d o ∈ objs).
Proof using unique plain.
  revert ds m objs. induction f as [|f IH]; intros ds m objs Hok E; [discriminate|].
  cbn in E. destruct (resolve_pass ds m) as [[m' os] rest] eqn:Ep.
  pose proof Hok as (Hk & Hsub & Hall).
  destruct (resolve_pass_spec ds m m' os rest Hk Hsub Ep) as (K & M & R & S & C & N).
  assert (Hemit : ∀ d o, d ∈ ds → denotes defs base (spec d) o → d ∈ rest ∨ object_of d o ∈ os).
  { intros d o Hd Ho. destruct (C d Hd) as [?|[_ [o' Ho']]]; [by left|]. right.
    destruct (S _ Ho') as (d' & o2 & Hd' & Heq & Hden). unfold object_of in Heq. simplify_eq.
    assert (d' = d) as -> by (apply same_def; auto). by rewrite (denotes_det _ _ _ Ho Hden). }
  destruct os as [|x os].
  { injection E as <-. destruct (N eq_refl) as [_ N']. split; [intros ? ?%not_elem_of_nil; contradiction|].
    intros d o Hd Ho. pose proof (stuck_denotes ds m _ _ Hok N' Ho) as Hr. rewrite (N' d Hd) in Hr. discriminate. }
  destruct rest as [|r rest].
  { injection E as <-. split; [exact S|]. intros d o Hd Ho.
    destruct (Hemit d o Hd Ho) as [H%not_elem_of_nil|]; [contradiction|done]. }
  destruct (resolve_loop f (r :: rest) m') as [more|] eqn:El; cbn in E; [|discriminate]. injection E as <-.
  destruct (IH (r :: rest) m' more) as [S' C']; [|exact El|].
  { split_and!; [exact K | by etrans | ]. intros d Hd. destruct (Hall d Hd) as [Hp|Hs].
    - destruct (C d Hp) as [?|[? _]]; auto.
    - right. intros Eb. destruct (Hs Eb) as [o Ho]. exists o. exact (lookup_weaken _ _ _ _ Ho M). }
  split.
  - intros y. rewrite app_comm_cons. intros [Hy|Hy]%elem_of_app; [exact (S y Hy)|].
    destruct (S' y Hy) as (d & o & ? & ? & ?). exists d, o. split_and!; auto.
  - intros d o Hd Ho. rewrite app_comm_cons. apply elem_of_app.
    destruct (Hemit d o Hd Ho); [right; by apply C'|by left].
Qed.
End Resolution.

Lemma resolve_spec defs seeds x :
  NoDup (def_name <$> defs) → Forall (head_fixed defs (seed_roots ∪ seeds)) defs →
  (x ∈ resolve_with_seeds defs seeds ↔
   ∃ d o, d ∈ defs ∧ x = object_of d o ∧ denotes defs (seed_roots ∪ seeds) (spec d) o).
Proof.
  intros Hu Hp. pose proof (resolve_loop_ends defs seeds) as E.
  assert (Hok : pending_ok defs (seed_roots ∪ seeds) defs (seed_roots ∪ seeds)).
  { split_and!; [split; [done|]; intros n o H1 H2; congruence | done | auto]. }
  destruct (resolve_loop_spec defs _ Hu Hp _ _ _ _ Hok E) as [S C].
  split; [apply S|]. intros (d & o & Hd & -> & Ho). by apply C.
Qed.

(** C25. Resolution computes the least meaning of definitions with distinct names:
    where a value begins with a name and its number, as in [{ iso(1) 3 }], only
    for a name known from the start or defined nowhere, the objects produced
    are exactly the definitions whose value denotes an OID, with that OID. *)
Theorem resolve_denotes defs seeds d o :
  NoDup (def_name <$> defs) → Forall (head_fixed defs (seed_roots ∪ seeds)) defs → d ∈ defs →
  (object_of d o ∈ resolve_with_seeds defs seeds ↔ denotes defs (seed_roots ∪ seeds) (spec d) o).
Proof.
  intros Hu Hp Hd. rewrite resolve_spec by assumption. split; [|by exists d, o].
  intros (d' & o' & Hd' & Heq & Hden). unfold object_of in Heq. simplify_eq.
  assert (d' = d) as -> by (eapply same_def; eauto). exact Hden.
Qed.

Lemma denotes_perm defs defs' base s o : defs ≡ₚ defs' → denotes defs base s o → denotes defs' base s o.
Proof.
  intros Hs. induction 1; try by constructor.
  - eapply denotes_defined; eauto. by rewrite <- Hs.
  - constructor; [done| |done]. by rewrite <- Hs.
Qed.

Lemma Forall_perm {A} (P : A → Prop) l l' : l ≡ₚ l' → Forall P l ↔ Forall P l'.
Proof. intros E. by rewrite E. Qed.

(** Definitions may come in any order, as they do when a directory of
    modules is read: the same objects are resolved. *)
Theorem resolve_order defs defs' seeds x :
  NoDup (def_name <$> defs) → Forall (head_fixed defs (seed_roots ∪ seeds)) defs → defs ≡ₚ defs' →
  (x ∈ resolve_with_seeds defs seeds ↔ x ∈ resolve_with_seeds defs' seeds).
Proof.
  intros Hu Hp Hperm. assert (Hu' : NoDup (def_name <$> defs')) by (by rewrite <- Hperm).
  assert (Hn : def_name <$> defs ≡ₚ def_name <$> defs') by (by rewrite Hperm).
  assert (Hp' : Forall (head_fixed defs' (seed_roots ∪ seeds)) defs').
  { eapply Forall_impl; [exact (proj1 (Forall_perm _ _ _ Hperm) Hp)|].
    intros d Hd. unfold head_fixed in *. destruct (spec d) as [|[| |] ?]; try done. by rewrite <- Hn. }
  rewrite !resolve_spec by assumption.
  assert (H12 : defs ⊆ defs') by (intros y; by rewrite Hperm).
  assert (H21 : defs' ⊆ defs) by (intros y; by rewrite Hperm).
  split; intros (d & o & Hd & -> & Ho); exists d, o;
    (split_and!; [auto | reflexivity | eapply denotes_perm; [|exact Ho]; done]).
Qed.

Definition scattered : list RawDef :=
  [mkRawDef (str "dod") [CName (str "org"); CNumber 6] None;
   mkRawDef (str "lost") [CName (str "nowhere"); CNumber 1] None;
   mkRawDef (str "org") [CNamed (str "iso") 1; CNumber 3] None].

Lemma scattered_hyps : NoDup (def_name <$> scattered) ∧ Forall (head_fixed scattered (seed_roots ∪ ∅)) scattered.
Proof.
  split; [apply (bool_decide_eq_true_1 _); vm_compute; reflexivity|].
  repeat (apply Forall_cons; split; [first [exact I | left; vm_compute; by eexists]|]). apply Forall_nil_2.
Qed.

Lemma resolve_denotes_witness :
  denotes scattered (seed_roots ∪ ∅) [CName (str "org"); CNumber 6] [1; 3; 6].
Proof.
  destruct scattered_hyps as [Hu Hp].
  apply (proj1 (resolve_denotes scattered ∅ (mkRawDef (str "dod") [CName (str "org"); CNumber 6] None) [1; 3; 6]
    Hu Hp ltac:(left))).
  apply (bool_decide_eq_true_1 _). vm_compute. reflexivity.
Defined.

Lemma resolve_order_witness :
  object_of (mkRawDef (str "dod") [CName (str "org"); CNumber 6] None) [1; 3; 6]
  ∈ resolve_with_seeds (reverse scattered) ∅.
Proof.
  destruct scattered_hyps as [Hu Hp].
  apply (proj1 (resolve_order scattered (reverse scattered) ∅ _ Hu Hp ltac:(symmetry; apply reverse_Permutation))).
  apply (bool_decide_eq_true_1 _). vm_compute. reflexivity.
Defined.

(** A value headed by a named number is read before its name is known if it
    comes first: the two orders of the same two definitions give [x] different
    OIDs. *)
Example named_head_depends_on_order :
  let a := mkRawDef (str "a") [CName (str "iso"); CNumber 9] None in
  let x := mkRawDef (str "x") [CNamed (str "a") 5; CNumber 1] None in
  (obj_oid <$> resolve [x; a]) = [[5; 1]; [1; 9]] ∧ (obj_oid <$> resolve [a; x]) = [[1; 9]; [1; 9; 1]].
Proof. split; vm_compute; reflexivity. Qed.

(** ** The names of a module are identifiers *)

Lemma scan_ident_ok s : ident_rest (scan_ident s).1 = true.
Proof.
  induction s as [s IH] using (induction_ltof1 _ (@length Z)). unfold ltof in IH.
  destruct s as [|c s]; [reflexivity|]. cbn [scan_ident]. destruct (is_ident_part c) eqn:E.
  - specialize (IH s ltac:(cbn; lia)). destruct (scan_ident s) as [w r]. cbn in *. rewrite E. exact IH.
  - destruct s as [|d s]; [reflexivity|]. destruct ((c =? 45) && is_ident_part d) eqn:Eh; [|reflexivity].
    specialize (IH s ltac:(cbn; lia)). destruct (scan_ident s) as [w r]. cbn in *. rewrite E, Eh. exact IH.
Qed.

Definition ident_tok (t : Tok) : Prop := match t with TIdent s => is_ident s = true | _ => True end.

Lemma lex_idents input : Forall ident_tok (lex input).
Proof.
  unfold lex. apply (run_Forall lex_turn (λ _ _, True)); [apply lex_advances| |exact I].
  intros st c s b st' r' _ E. split; [|exact I]. intros x ->. unfold lex_turn in E.
  destruct (lex_step c s) as [t r] eqn:El. injection E as -> _ _.
  unfold lex_step, punctuation in El. pose proof (scan_ident_ok s) as Hs.
  repeat case_match; simplify_eq; try exact I. cbn in *.
  match goal with H : is_ident_start c = true |- _ => rewrite H end. exact Hs.
Qed.

Lemma parse_oid_body_idents ts cs r : parse_oid_body ts = Some (cs, r) → Forall ident_tok ts → Forall ident_tok r.
Proof.
  revert cs r. induction ts as [ts IH] using (induction_ltof1 _ (@length Tok)). unfold ltof in IH.
  intros cs r E Hf. destruct ts as [|t ts]; [discriminate|]. apply Forall_cons in Hf as [_ Hf].
  destruct t; cbn in E; try discriminate; [| |simplify_eq; exact Hf].
  - assert (Hsub : ∀ x cs' r', (length x < S (length ts))%nat → parse_oid_body x = Some (cs', r') →
      Forall ident_tok x → Forall ident_tok r') by (intros; eapply IH; eauto).
    repeat case_match; simplify_eq;
      (match goal with
       | E : mbind _ (parse_oid_body ?x) = Some _ |- _ =>
           destruct (parse_oid_body x) as [[cs' r']|] eqn:E'; cbn in E; [|discriminate];
           simplify_eq; apply Hsub in E'; [exact E'|cbn; lia|]
       end);
      repeat first [assumption | match goal with H : Forall _ (_ :: _) |- _ => apply Forall_cons in H as [_ H] end].
  - destruct (parse_oid_body ts) as [[cs' r']|] eqn:E'; cbn in E; [|discriminate]. simplify_eq.
    eapply IH; [|exact E'|exact Hf]. cbn. lia.
Qed.

Lemma skip_macro_idents ts : Forall ident_tok ts → Forall ident_tok (skip_macro ts).
Proof. induction 1 as [|t ts Ht Hf IH]; cbn; [constructor|]. case_bool_decide; assumption. Qed.

Lemma oid_assignment_idents ts d r :
  oid_assignment ts = Some (d, r) → Forall ident_tok ts → is_ident (def_name d) = true ∧ Forall ident_tok r.
Proof.
  unfold oid_assignment. intros E Hf. repeat case_match; try discriminate.
  destruct (parse_oid_body _) as [[sp r']|] eqn:E'; cbn in E; [|discriminate]. simplify_eq.
  apply Forall_cons in Hf as [Hn Hf]. split; [exact Hn|].
  repeat match goal with H : Forall _ (_ :: _) |- _ => apply Forall_cons in H as [_ H] end.
  eapply parse_oid_body_idents; eauto.
Qed.

(** Every definition found in a text has an identifier for its name. *)
Lemma module_names input : Forall (λ d, is_ident (def_name d) = true) (parse_module (lex input)).
Proof.
  apply (run_Forall scan_step (λ st ts, match label st with Some l => is_ident l = true | None => True end ∧
    Forall ident_tok ts)); [apply scan_advances| |split; [exact I|apply lex_idents]].
  intros st t r b st' r' [Hl Hf] E. pose proof Hf as Hf0. apply Forall_cons in Hf as [Ht Hf].
  unfold scan_step in E.
  destruct (match t with TIdent n => _ | _ => None end) as [[st1 r1]|] eqn:Em.
  { injection E as <- <- <-. split; [discriminate|]. destruct t as [n| | | | | | | | | | |]; [|discriminate Em ..].
    destruct r as [|[k| | | | | | | | | | |] r]; [discriminate Em| |discriminate Em ..].
    apply Forall_cons in Hf as [_ Hf].
    destruct (bool_decide (k = str "MACRO")); [|destruct (is_macro_keyword k); [|discriminate Em]];
      injection Em as <- <-; (split; [|auto using skip_macro_idents]); [exact I|exact Ht]. }
  destruct (oid_assignment (t :: r)) as [[d r1]|] eqn:Ea.
  { injection E as <- <- <-. apply oid_assignment_idents in Ea as [Hn Hr]; [|exact Hf0].
    split; [by intros ? [= <-]|]. split; [exact I|exact Hr]. }
  destruct (match t with TLBrace => _ | _ => None end) as [[ps r1]|] eqn:Ec.
  { injection E as <- <- <-. split; [discriminate|]. split; [exact Hl|].
    destruct t; try discriminate. destruct (label st); [|discriminate]. destruct (enum st); [discriminate|].
    apply parse_enum_body_suffix in Ec as [a ->]. by apply Forall_app in Hf as [_ Hf]. }
  destruct t; try (injection E as <- <- <-; split; [discriminate|split; assumption]).
  destruct r as [|[] r]; try (injection E as <- <- <-; split; [discriminate|split; assumption]).
  destruct (label st) as [l|]; cbn [mbind option_bind] in E;
    [|injection E as <- <- <-; split; [discriminate|split; [exact I|exact Hf]]].
  destruct (parse_oid_body r) as [[v r1]|] eqn:Eb; cbn [mbind option_bind] in E; injection E as <- <- <-.
  - split; [by intros ? [= <-]|]. split; [exact I|]. apply Forall_cons in Hf as [_ Hf].
    eapply parse_oid_body_idents; eauto.
  - split; [discriminate|]. split; [exact I|exact Hf].
Qed.

Lemma resolve_pass_names ds m m' objs rest :
  resolve_pass ds m = (m', objs, rest) →
  (∀ x, x ∈ objs → ∃ d, d ∈ ds ∧ obj_name x = def_name d) ∧ rest ⊆ ds.
Proof.
  revert m m' objs rest. induction ds as [|d ds IH]; intros m m' objs rest; cbn.
  - intros [= <- <- <-]. split; [intros ? ?%not_elem_of_nil; contradiction|done].
  - destruct (resolve_one (spec d) m) as [o|].
    + destruct (resolve_pass ds _) as [[m1 o1] r1] eqn:E. intros [= <- <- <-]. apply IH in E as [IHo IHr].
      split; [|intros y Hy; right; by apply IHr].
      intros x [->|Hx]%elem_of_cons; [exists d; split; [left|reflexivity]|].
      destruct (IHo x Hx) as (d' & ? & ?). exists d'. split; [by right|done].
    + destruct (resolve_pass ds m) as [[m1 o1] r1] eqn:E. intros [= <- <- <-]. apply IH in E as [IHo IHr].
      split; [|intros y [->|Hy]%elem_of_cons; [left|right; by apply IHr]].
      intros x Hx. destruct (IHo x Hx) as (d' & ? & ?). exists d'. split; [by right|done].
Qed.

Lemma resolve_loop_names f ds m objs :
  resolve_loop f ds m = Some objs → ∀ x, x ∈ objs → ∃ d, d ∈ ds ∧ obj_name x = def_name d.
Proof.
  revert ds m objs. induction f as [|f IH]; intros ds m objs; [discriminate|]. cbn.
  destruct (resolve_pass ds m) as [[m' os] rest] eqn:E. apply resolve_pass_names in E as [Ho Hr].
  destruct os as [|o os]; [intros [= <-] x ?%not_elem_of_nil; contradiction|].
  destruct rest as [|d rest]; [intros [= <-]; exact Ho|].
  destruct (resolve_loop f (d :: rest) m') as [more|] eqn:El; cbn; [|discriminate]. intros [= <-] x Hx.
  rewrite app_comm_cons in Hx. apply elem_of_app in Hx as [Hx|Hx]; [by apply Ho|].
  destruct (IH _ _ _ El x Hx) as (d' & Hd & ?). exists d'. split; [by apply Hr|done].
Qed.

Lemma object_names input seeds x :
  x ∈ parse_text_with_seeds input seeds → is_ident (obj_name x) = true.
Proof.
  intros Hx. pose proof (resolve_loop_ends (parse_module (lex input)) seeds) as E.
  destruct (resolve_loop_names _ _ _ _ E x Hx) as (d & Hd & ->).
  pose proof (module_names input) as Hm. rewrite Forall_forall in Hm. exact (Hm d Hd).
Qed.
