(* ===== verification/SmiDefs.v ===== *)
(** * Structured MIB definitions ([crates/netsnmp/src/smi/parse.rs])

    The second, richer reading of a module: OBJECT-TYPE clauses, textual
    conventions and SIZE or range constraints. An index into the token slice is
    the suffix there, so a step of [k] tokens is [drop k].

    [resolve_inline] recurses on names without remembering where it has been.
    The model gives it fuel and returns [None] when it runs out: with enough
    fuel that is a recursion that never returns. *)

From Stdlib Require Import ZArith Lia.
From S2P Require Import Prelude MachineInts Text Oid Smi.

Local Open Scope list_scope.

(** ** Data *)

Inductive BaseType :=
| BInteger | BOctetString | BOid | BIpAddress | BCounter32 | BGauge32 | BTimeTicks | BOpaque
| BCounter64 | BNull | BUnsigned32.

Record Constraint := mkConstraint { ranges : list (option Z * option Z); sizes : list (Z * Z) }.
Definition no_constraint : Constraint := mkConstraint [] [].

Inductive Syntax :=
| SBase (b : BaseType) (c : option Constraint)
| STc (name : text) (c : option Constraint)
| SSequence.
Definition default_syntax : Syntax := SBase BInteger None.

Inductive Access := NotAccessible | AccessibleForNotify | ReadOnly | ReadWrite | ReadCreate | WriteOnly.
Inductive Status := Current | Deprecated | Obsolete.
Inductive Index := Implied (s : text) | Plain (l : list text) | Augments (s : text).

#[export] Instance base_type_eq_dec : EqDecision BaseType.
Proof. solve_decision. Defined.
#[export] Instance constraint_eq_dec : EqDecision Constraint.
Proof. solve_decision. Defined.
#[export] Instance syntax_eq_dec : EqDecision Syntax.
Proof. solve_decision. Defined.
#[export] Instance access_eq_dec : EqDecision Access.
Proof. solve_decision. Defined.
#[export] Instance status_eq_dec : EqDecision Status.
Proof. solve_decision. Defined.
#[export] Instance index_eq_dec : EqDecision Index.
Proof. solve_decision. Defined.

(** [Constraint::has_any] *)
Definition has_any (c : Constraint) : bool :=
  negb (bool_decide (ranges c = [])) || negb (bool_decide (sizes c = [])).

Definition in_range (n : Z) (r : option Z * option Z) : bool :=
  match r.1 with Some l => l <=? n | None => true end &&
  match r.2 with Some h => n <=? h | None => true end.

Definition check_int (c : Constraint) (n : Z) : bool :=
  match ranges c with [] => true | rs => existsb (in_range n) rs end.

Definition check_size (c : Constraint) (len : Z) : bool :=
  match sizes c with [] => true | ss => existsb (fun s => (s.1 <=? len) && (len <=? s.2)) ss end.

Record ObjectDef := mkObjectDef {
  od_name : text; od_oid : Oid; od_syntax : Syntax; od_units : option text;
  od_max_access : Access; od_status : Status; od_description : option text;
  od_reference : option text; od_index : option Index; od_defval : option text;
  od_enums : list (Z * text); od_module : option text }.

Record TextualConvention := mkTc {
  tc_name : text; tc_base : Syntax; tc_display_hint : option text; tc_status : Status;
  tc_description : option text; tc_reference : option text }.

(** [eq_ignore_ascii_case] *)
Definition same_word (a b : text) : bool := bool_decide (to_ascii_lowercase a = to_ascii_lowercase b).
Definition is_word (w : string) (t : Tok) : bool :=
  match t with TIdent s => same_word s (str w) | _ => false end.

(** ** Clauses *)

Definition match_base_type (lower : text) : option BaseType :=
  list_find_map (fun p : string * BaseType => if bool_decide (lower = str p.1) then Some p.2 else None)
    [("integer", BInteger); ("integer32", BInteger); ("octet", BOctetString); ("object", BOid);
     ("ipaddress", BIpAddress); ("counter32", BCounter32); ("gauge32", BGauge32); ("gauge", BGauge32);
     ("timeticks", BTimeTicks); ("opaque", BOpaque); ("counter64", BCounter64);
     ("unsigned32", BUnsigned32); ("null", BNull); ("networkaddress", BOid)]%string.

Definition parse_access (s : text) : Access :=
  default NotAccessible
    (list_find_map (fun p : string * Access => if bool_decide (to_ascii_lowercase s = str p.1) then Some p.2 else None)
       [("not-accessible", NotAccessible); ("notaccessible", NotAccessible);
        ("accessible-for-notify", AccessibleForNotify); ("accessiblefornotify", AccessibleForNotify);
        ("read-only", ReadOnly); ("readonly", ReadOnly); ("read-write", ReadWrite); ("readwrite", ReadWrite);
        ("read-create", ReadCreate); ("readcreate", ReadCreate); ("write-only", WriteOnly);
        ("writeonly", WriteOnly)]%string).

Definition parse_status (s : text) : Status :=
  default Current
    (list_find_map (fun p : string * Status => if bool_decide (to_ascii_lowercase s = str p.1) then Some p.2 else None)
       [("current", Current); ("deprecated", Deprecated); ("obsolete", Obsolete)]%string).

(** One subrange and what follows it. *)
Definition parse_range (ts : list Tok) : option (option Z * option Z * list Tok) :=
  let bounded lo (r : list Tok) :=
    match r with
    | TDotDot :: TNum n :: r' => Some (lo, Some n, r')
    | TDotDot :: TIdent s :: r' => if bool_decide (s = str "MAX") then Some (lo, None, r') else None
    | _ => None
    end in
  match ts with
  | TNum n :: ((TDotDot :: _) as r) => bounded (Some n) r
  | TNum n :: r => Some (Some n, Some n, r)
  | TIdent s :: r => if bool_decide (s = str "MIN") then bounded None r else None
  | _ => None
  end.

(** [unwrap_or(0).max(0) as usize], and the upper end never below the lower. *)
Definition size_of (lo hi : option Z) : Z * Z :=
  let l := Z.max (default 0 lo) 0 in (l, Z.max (default 0 hi) l).

Definition push_range (is_size : bool) (lo hi : option Z) (c : Constraint) : Constraint :=
  if is_size then mkConstraint (ranges c) (sizes c ++ [size_of lo hi])
  else mkConstraint (ranges c ++ [(lo, hi)]) (sizes c).

(** The alternatives up to the first closing parenthesis. *)
Fixpoint parse_ranges (fuel : nat) (is_size : bool) (ts : list Tok) (c : Constraint)
  : option (Constraint * list Tok) :=
  match fuel with
  | O => None
  | S f =>
      let! (lo, hi, r) := parse_range ts in
      let c' := push_range is_size lo hi c in
      match r with
      | TPipe :: r' => parse_ranges f is_size r' c'
      | TRParen :: r' => Some (c', r')
      | _ => None
      end
  end.

Definition parse_constraint_tokens (ts : list Tok) : option (Constraint * list Tok) :=
  let! (is_size, r) :=
    match ts with
    | TLParen :: t :: r =>
        if is_word "SIZE" t then match r with TLParen :: r' => Some (true, r') | _ => None end
        else Some (false, t :: r)
    | _ => None
    end in
  let! (c, r') := parse_ranges (S (length r)) is_size r no_constraint in
  if has_any c then Some (c, r') else None.

Fixpoint from_lparen (ts : list Tok) : option (list Tok) :=
  match ts with
  | [] => None
  | TLParen :: _ => Some ts
  | _ :: r => from_lparen r
  end.

Definition parse_constraint (syntax_text : text) : option Constraint :=
  let! ts := from_lparen (lex syntax_text) in
  let! (c, _) := parse_constraint_tokens ts in Some c.

(** After [{]: past the brace that closes it. *)
Fixpoint past_braces (depth : Z) (ts : list Tok) : list Tok :=
  match ts with
  | [] => []
  | t :: r =>
      let d := match t with TLBrace => depth + 1 | TRBrace => depth - 1 | _ => depth end in
      if 0 <? d then past_braces d r else r
  end.

(** The type of a SYNTAX clause, before its braces and parentheses. *)
Definition syntax_head (t : Tok) (r : list Tok) : option ((option Constraint → Syntax) * list Tok) :=
  match t with
  | TIdent name =>
      let second w := match r with t' :: _ => is_word w t' | [] => false end in
      if same_word name (str "OCTET") && second "STRING"%string then Some (SBase BOctetString, drop 1 r)
      else if same_word name (str "OBJECT") && second "IDENTIFIER"%string then Some (SBase BOid, drop 1 r)
      else match match_base_type (to_ascii_lowercase name) with
           | Some bt => Some (SBase bt, r)
           | None => Some (STc name, r)
           end
  | _ => None
  end.

(** The enumeration that may follow it. *)
Definition syntax_enums (ts : list Tok) : list (Z * text) * list Tok :=
  match ts with
  | TLBrace :: r => match parse_enum_body r with Some (ps, r') => (ps, r') | None => ([], ts) end
  | _ => ([], ts)
  end.

Definition parse_syntax (ts : list Tok) : option (Syntax * list (Z * text) * list Tok) :=
  match ts with
  | [] => None
  | t :: r =>
      let sequence := is_word "SEQUENCE" t in
      match sequence, r with
      | true, TLBrace :: r' => Some (SSequence, [], past_braces 1 r')
      | _, _ =>
          if sequence && match r with t' :: _ => is_word "OF" t' | [] => false end
          then Some (SSequence, [], drop 4 ts)
          else
            let! (mk, r1) := syntax_head t r in
            let '(enums, r2) := syntax_enums r1 in
            match parse_constraint_tokens r2 with
            | Some (c, r3) => Some (mk (Some c), enums, r3)
            | None => Some (mk None, enums, r2)
            end
      end
  end.

(** After [INDEX {]. *)
Fixpoint parse_index_body (implied : bool) (idents : list text) (ts : list Tok) : option Index :=
  match ts with
  | TIdent s :: r =>
      if same_word s (str "IMPLIED") && bool_decide (idents = []) && negb implied
      then parse_index_body true idents r
      else parse_index_body implied (idents ++ [s]) r
  | TComma :: r => parse_index_body implied idents r
  | TRBrace :: _ =>
      match implied, last idents with
      | true, Some l => Some (Implied l)
      | _, _ => Some (Plain idents)
      end
  | _ => None
  end.

Definition parse_index (ts : list Tok) : option Index :=
  match ts with TLBrace :: r => parse_index_body false [] r | _ => None end.

Definition parse_augments (ts : list Tok) : option text :=
  match ts with TLBrace :: TIdent s :: TRBrace :: _ => Some s | _ => None end.

Fixpoint join (sep : text) (l : list text) : text :=
  match l with
  | [] => []
  | [x] => x
  | x :: l' => x ++ sep ++ join sep l'
  end.

(** The words up to the closing brace of [DEFVAL {]. *)
Fixpoint defval_parts (depth : Z) (ts : list Tok) : option (list text) :=
  match ts with
  | [] => None
  | t :: r =>
      let d := match t with TLBrace => depth + 1 | TRBrace => depth - 1 | _ => depth end in
      let part :=
        match t with
        | TLBrace => [str "{"]
        | TRBrace => if 0 <? d then [str "}"] else []
        | TStr s => [34 :: s ++ [34]]
        | TNum n => [show_i n]
        | TIdent s => [s]
        | TComma => [str ","]
        | _ => []
        end in
      if 0 <? d then let! ps := defval_parts d r in Some (part ++ ps) else Some part
  end.

Definition parse_defval (ts : list Tok) : option text :=
  match ts with
  | TLBrace :: r => let! ps := defval_parts 1 r in Some (join [sp] ps)
  | _ => None
  end.

(** ** Bodies *)

(** [while i < n { match .. }]: a turn ends the loop ([None]) or goes on. *)
Fixpoint walk {A St} (step : St → A → list A → option (St * list A)) (fuel : nat) (st : St) (l : list A) : St :=
  match fuel, l with
  | S f, a :: r => match step st a r with Some (st', r') => walk step f st' r' | None => st end
  | _, _ => st
  end.

(** The [::= { .. }] outside braces that ends a body: the value and what follows. *)
Fixpoint find_oid_assignment (depth : Z) (ts : list Tok) : option (list Comp * list Tok) :=
  match ts with
  | [] => None
  | TAssign :: r =>
      match (if depth =? 0 then match r with TLBrace :: r' => parse_oid_body r' | _ => None end else None) with
      | Some (sp, next) => Some (sp, next)
      | None => find_oid_assignment depth r
      end
  | TLBrace :: r => find_oid_assignment (depth + 1) r
  | TRBrace :: r => find_oid_assignment (depth - 1) r
  | _ :: r => find_oid_assignment depth r
  end.

Definition set_syntax sy en (d : ObjectDef) : ObjectDef :=
  mkObjectDef (od_name d) (od_oid d) sy (od_units d) (od_max_access d) (od_status d) (od_description d)
    (od_reference d) (od_index d) (od_defval d) (match en with [] => od_enums d | _ => en end) (od_module d).
Definition set_units u (d : ObjectDef) : ObjectDef :=
  mkObjectDef (od_name d) (od_oid d) (od_syntax d) (Some u) (od_max_access d) (od_status d) (od_description d)
    (od_reference d) (od_index d) (od_defval d) (od_enums d) (od_module d).
Definition set_access a (d : ObjectDef) : ObjectDef :=
  mkObjectDef (od_name d) (od_oid d) (od_syntax d) (od_units d) a (od_status d) (od_description d)
    (od_reference d) (od_index d) (od_defval d) (od_enums d) (od_module d).
Definition set_status s (d : ObjectDef) : ObjectDef :=
  mkObjectDef (od_name d) (od_oid d) (od_syntax d) (od_units d) (od_max_access d) s (od_description d)
    (od_reference d) (od_index d) (od_defval d) (od_enums d) (od_module d).
Definition set_description s (d : ObjectDef) : ObjectDef :=
  mkObjectDef (od_name d) (od_oid d) (od_syntax d) (od_units d) (od_max_access d) (od_status d) (Some s)
    (od_reference d) (od_index d) (od_defval d) (od_enums d) (od_module d).
Definition set_reference s (d : ObjectDef) : ObjectDef :=
  mkObjectDef (od_name d) (od_oid d) (od_syntax d) (od_units d) (od_max_access d) (od_status d) (od_description d)
    (Some s) (od_index d) (od_defval d) (od_enums d) (od_module d).
Definition set_index i (d : ObjectDef) : ObjectDef :=
  mkObjectDef (od_name d) (od_oid d) (od_syntax d) (od_units d) (od_max_access d) (od_status d) (od_description d)
    (od_reference d) (Some i) (od_defval d) (od_enums d) (od_module d).
Definition set_defval s (d : ObjectDef) : ObjectDef :=
  mkObjectDef (od_name d) (od_oid d) (od_syntax d) (od_units d) (od_max_access d) (od_status d) (od_description d)
    (od_reference d) (od_index d) (Some s) (od_enums d) (od_module d).

(** The keyword and, where the clause takes one, the following word or string. *)
Definition next_str (r : list Tok) : option (text * list Tok) :=
  match r with TStr s :: r' => Some (s, r') | _ => None end.
Definition next_ident (r : list Tok) : option (text * list Tok) :=
  match r with TIdent s :: r' => Some (s, r') | _ => None end.

(** One turn of the clause loop of an object body. *)
Definition object_clause (d : ObjectDef) (t : Tok) (r : list Tok) : option (ObjectDef * list Tok) :=
  match t with
  | TAssign => None
  | TIdent k =>
      if same_word k (str "SYNTAX") then
        match parse_syntax r with Some (sy, en, r') => Some (set_syntax sy en d, r') | None => Some (d, r) end
      else if same_word k (str "UNITS") then
        match next_str r with Some (s, r') => Some (set_units s d, r') | None => Some (d, r) end
      else if same_word k (str "MAX-ACCESS") || same_word k (str "ACCESS") then
        match next_ident r with Some (a, r') => Some (set_access (parse_access a) d, r') | None => Some (d, r) end
      else if same_word k (str "MIN-ACCESS") then
        if bool_decide (od_max_access d = NotAccessible) then
          match next_ident r with Some (a, r') => Some (set_access (parse_access a) d, r') | None => Some (d, r) end
        else Some (d, r)
      else if same_word k (str "STATUS") then
        match next_ident r with Some (s, r') => Some (set_status (parse_status s) d, r') | None => Some (d, r) end
      else if same_word k (str "DESCRIPTION") then
        match next_str r with Some (s, r') => Some (set_description s d, r') | None => Some (d, r) end
      else if same_word k (str "REFERENCE") then
        match next_str r with Some (s, r') => Some (set_reference s d, r') | None => Some (d, r) end
      else if same_word k (str "INDEX") then
        Some (match parse_index r with Some i => set_index i d | None => d end, r)
      else if same_word k (str "AUGMENTS") then
        Some (match parse_augments r with Some e => set_index (Augments e) d | None => d end, r)
      else if same_word k (str "DEFVAL") then
        Some (match parse_defval r with Some s => set_defval s d | None => d end, r)
      else Some (d, r)
  | _ => Some (d, r)
  end.

(** ** Names *)

(** Past a macro definition, at a labelled macro or at a plain assignment: the
    three tests every scan of the module starts with. *)
Definition name_step (label : option text) (t : Tok) (r : list Tok)
  : option (text * list Comp) * option text * list Tok :=
  let macro :=
    match t, r with
    | TIdent n, TIdent k :: r' =>
        if bool_decide (k = str "MACRO") then Some (None, skip_macro r')
        else if is_macro_keyword k then Some (Some n, r')
        else None
    | _, _ => None
    end in
  match macro with
  | Some (l', r') => (None, l', r')
  | None =>
      match oid_assignment (t :: r) with
      | Some (d, r') => (Some (def_name d, spec d), None, r')
      | None =>
          match t, r with
          | TAssign, TLBrace :: r' =>
              match (let! l := label in let! b := parse_oid_body r' in Some (l, b)) with
              | Some (l, (v, r'')) => (Some (l, v), None, r'')
              | None => (None, None, r)
              end
          | _, _ => (None, label, r)
          end
      end
  end.

Abbreviation specs_map := (gmap (list Z) (list Comp)).

(** [map.entry(name).or_insert(spec)] for each, in order. *)
Definition first_specs (l : list (text * list Comp)) : specs_map :=
  fold_left (fun m p => match m !! p.1 with Some _ => m | None => <[p.1 := p.2]> m end) l ∅.

Definition name_map (ts : list Tok) : specs_map := first_specs (run name_step None ts).

Definition well_known (n : text) : option (list Comp) :=
  if bool_decide (n = str "iso") then Some [CNumber 1]
  else if bool_decide (n = str "ccitt") || bool_decide (n = str "itu") || bool_decide (n = str "itu-t")
  then Some [CNumber 0]
  else if bool_decide (n = str "joint-iso-ccitt") || bool_decide (n = str "joint-iso-itu-t")
  then Some [CNumber 2]
  else None.

(** A name at the head of a value, given the recursive call. The outer option is
    the fuel, the inner one the code's. *)
Definition resolve_head (rec : list Comp → option (option Oid)) (names : specs_map) (seeds : names_map)
  (n : text) : option (option Oid) :=
  let! via := match names !! n with Some s => rec s | None => Some None end in
  match via with
  | Some o => Some (Some o)
  | None =>
      let! root := match well_known n with Some s => rec s | None => Some None end in
      match root with Some o => Some (Some o) | None => Some (seeds !! n) end
  end.

Definition resolve_value (rec : list Comp → option (option Oid)) (names : specs_map) (seeds : names_map)
  (sp : list Comp) : option (option Oid) :=
  match sp with
  | [] => Some None
  | c :: cs =>
      let! head :=
        match c with
        | CNumber v => Some (Some [v])
        | CNamed n v => let! o := resolve_head rec names seeds n in Some (Some (default [v] o))
        | CName n => resolve_head rec names seeds n
        end in
      Some (let! h := head in
            let! tl := tail_arcs cs in
            match h ++ tl with [] => None | o => Some o end)
  end.

Fixpoint resolve_inline (fuel : nat) (names : specs_map) (seeds : names_map) (sp : list Comp)
  : option (option Oid) :=
  match fuel with
  | O => None
  | S f => resolve_value (resolve_inline f names seeds) names seeds sp
  end.

Definition empty_def (name : text) (oid : Oid) : ObjectDef :=
  mkObjectDef name oid default_syntax None NotAccessible Current None None None None [] None.

(** Outer option: fuel of [resolve_inline]. *)
Definition parse_one_object_def (fuel : nat) (body : list Tok) (name : text)
  (names : specs_map) (seeds : names_map) : option (option ObjectDef) :=
  match find_oid_assignment 0 body with
  | None => Some None
  | Some (sp, _) =>
      let! o := resolve_inline fuel names seeds sp in
      Some (Some (walk object_clause (length body) (empty_def name (default [] o)) body))
  end.

Definition is_object_keyword (k : text) : bool :=
  bool_decide (k = str "OBJECT-TYPE") || bool_decide (k = str "OBJECT-IDENTITY")
  || bool_decide (k = str "NOTIFICATION-TYPE").

(** One turn of the scan for object definitions: a definition's body, its name
    and where to go on. *)
Definition object_step (_ : unit) (t : Tok) (r : list Tok) : option (text * list Tok) * unit * list Tok :=
  match t, r with
  | TIdent n, TIdent k :: body =>
      if bool_decide (k = str "MACRO") then (None, tt, skip_macro body)
      else if is_object_keyword k then
        match find_oid_assignment 0 body with
        | Some (_, next) => (Some (n, body), tt, next)
        | None => (Some (n, body), tt, body)
        end
      else (None, tt, r)
  | _, _ => (None, tt, r)
  end.

Fixpoint parse_all (fuel : nat) (names : specs_map) (seeds : names_map) (bodies : list (text * list Tok))
  : option (list ObjectDef) :=
  match bodies with
  | [] => Some []
  | (n, body) :: rest =>
      let! d := parse_one_object_def fuel body n names seeds in
      let! ds := parse_all fuel names seeds rest in
      Some (option_list d ++ ds)
  end.

Definition parse_object_defs_with_seeds (fuel : nat) (input : text) (seeds : names_map)
  : option (list ObjectDef) :=
  let ts := lex input in parse_all fuel (name_map ts) seeds (run object_step tt ts).

Definition parse_object_defs (fuel : nat) (input : text) : option (list ObjectDef) :=
  parse_object_defs_with_seeds fuel input ∅.

(** ** Textual conventions *)

Definition set_tc_base sy (d : TextualConvention) : TextualConvention :=
  mkTc (tc_name d) sy (tc_display_hint d) (tc_status d) (tc_description d) (tc_reference d).
Definition set_tc_hint s (d : TextualConvention) : TextualConvention :=
  mkTc (tc_name d) (tc_base d) (Some s) (tc_status d) (tc_description d) (tc_reference d).
Definition set_tc_status s (d : TextualConvention) : TextualConvention :=
  mkTc (tc_name d) (tc_base d) (tc_display_hint d) s (tc_description d) (tc_reference d).
Definition set_tc_description s (d : TextualConvention) : TextualConvention :=
  mkTc (tc_name d) (tc_base d) (tc_display_hint d) (tc_status d) (Some s) (tc_reference d).
Definition set_tc_reference s (d : TextualConvention) : TextualConvention :=
  mkTc (tc_name d) (tc_base d) (tc_display_hint d) (tc_status d) (tc_description d) (Some s).

(** What a clause of a convention does, when it is one. *)
Definition tc_clause (d : TextualConvention) (t : Tok) (r : list Tok) : option (TextualConvention * bool * list Tok) :=
  match t with
  | TIdent k =>
      if same_word k (str "DISPLAY-HINT") then
        let! (s, r') := next_str r in Some (set_tc_hint s d, false, r')
      else if same_word k (str "STATUS") then
        let! (s, r') := next_ident r in Some (set_tc_status (parse_status s) d, false, r')
      else if same_word k (str "DESCRIPTION") then
        let! (s, r') := next_str r in Some (set_tc_description s d, false, r')
      else if same_word k (str "REFERENCE") then
        let! (s, r') := next_str r in Some (set_tc_reference s d, false, r')
      else if same_word k (str "SYNTAX") then
        let! (sy, _, r') := parse_syntax r in Some (set_tc_base sy d, true, r')
      else None
  | _ => None
  end.

(** One turn: the convention so far and whether its SYNTAX has been read. *)
Definition tc_turn (st : TextualConvention * bool) (t : Tok) (r : list Tok)
  : option (TextualConvention * bool * list Tok) :=
  match tc_clause st.1 t r with
  | Some (d, syntax, r') => Some (d, st.2 || syntax, r')
  | None => if st.2 then None else Some (st, r)
  end.

Definition parse_one_tc (body : list Tok) (name : text) : TextualConvention :=
  (walk tc_turn (length body) (mkTc name default_syntax None Current None None, false) body).1.

Fixpoint skip_to_syntax_end (ts : list Tok) : list Tok :=
  match ts with
  | [] => []
  | t :: r =>
      match (if is_word "SYNTAX" t then parse_syntax r else None) with
      | Some (_, _, next) => next
      | None => match t with TAssign => r | _ => skip_to_syntax_end r end
      end
  end.

(** The body of a TEXTUAL-CONVENTION that starts here. *)
Definition tc_body (r : list Tok) : option (list Tok) :=
  match r with
  | TAssign :: t :: r' => if is_word "TEXTUAL-CONVENTION" t then Some r' else None
  | t :: r' => if is_word "TEXTUAL-CONVENTION" t then Some r' else None
  | [] => None
  end.

Definition tc_step (_ : unit) (t : Tok) (r : list Tok) : option TextualConvention * unit * list Tok :=
  match t, tc_body r with
  | TIdent n, Some body => (Some (parse_one_tc body n), tt, skip_to_syntax_end body)
  | _, _ => (None, tt, r)
  end.

Definition parse_textual_conventions (input : text) : list TextualConvention :=
  run tc_step tt (lex input).

(** ** The loops end *)

Section Walk.
Context {A St : Type} (step : St → A → list A → option (St * list A)).

Definition walk_advancing : Prop :=
  ∀ st a r st' r', step st a r = Some (st', r') → (length r' <= length r)%nat.

Lemma walk_fuel f g st l :
  walk_advancing → (length l <= f)%nat → (length l <= g)%nat → walk step f st l = walk step g st l.
Proof using Type.
  intros Ha. revert g st l. induction f as [|f IH]; intros g st [|a r] Hf Hg; cbn in Hf, Hg; try lia;
    [destruct g; reflexivity .. |].
  destruct g as [|g]; [lia|]. cbn. destruct (step st a r) as [[st' r']|] eqn:E; [|reflexivity].
  apply Ha in E. apply IH; lia.
Qed.

(** A turn that goes on. *)
Lemma walk_turn st a r st' r' :
  walk_advancing → step st a r = Some (st', r') →
  walk step (length (a :: r)) st (a :: r) = walk step (length r') st' r'.
Proof using Type.
  intros Ha E. cbn. rewrite E. pose proof (Ha _ _ _ _ _ E). apply walk_fuel; [exact Ha|lia|lia].
Qed.
End Walk.

Lemma parse_range_length ts lo hi r : parse_range ts = Some (lo, hi, r) → (length r < length ts)%nat.
Proof. unfold parse_range. intros E. repeat case_match; simplify_eq; cbn; lia. Qed.

(** The fuel of [parse_ranges] is enough: more gives the same. *)
Lemma parse_ranges_fuel f g is_size ts c :
  (length ts < f)%nat → (length ts < g)%nat → parse_ranges f is_size ts c = parse_ranges g is_size ts c.
Proof.
  revert g ts c. induction f as [|f IH]; intros g ts c Hf Hg; [lia|]. destruct g as [|g]; [lia|]. cbn.
  destruct (parse_range ts) as [[[lo hi] r]|] eqn:E; [|reflexivity]. cbn. apply parse_range_length in E.
  destruct r as [|[] r]; try reflexivity. apply IH; cbn in *; lia.
Qed.

Lemma parse_ranges_length f is_size ts c c' r :
  parse_ranges f is_size ts c = Some (c', r) → (length r < length ts)%nat.
Proof.
  revert ts c. induction f as [|f IH]; intros ts c E; [discriminate|]. cbn in E.
  destruct (parse_range ts) as [[[lo hi] r0]|] eqn:Er; [|discriminate]. cbn in E. apply parse_range_length in Er.
  destruct r0 as [|[] r0]; try discriminate; [simplify_eq; cbn in *; lia|].
  apply IH in E. cbn in *. lia.
Qed.

Lemma parse_constraint_tokens_length ts c r :
  parse_constraint_tokens ts = Some (c, r) → (length r < length ts)%nat.
Proof.
  unfold parse_constraint_tokens. destruct ts as [|t ts]; [discriminate|].
  destruct t; try discriminate. destruct ts as [|t ts]; [discriminate|]. intros E.
  assert (H : ∀ b x, (length x <= length (t :: ts))%nat →
    (let! (c, r') := parse_ranges (S (length x)) b x no_constraint in
     if has_any c then Some (c, r') else None) = Some (c, r) → (length r < length (TLParen :: t :: ts))%nat).
  { intros b x Hx E'. destruct (parse_ranges _ b x _) as [[c' r']|] eqn:Er; cbn in E'; [|discriminate].
    apply parse_ranges_length in Er. destruct (has_any c'); simplify_eq. cbn in *. lia. }
  destruct (is_word "SIZE" t).
  - destruct ts as [|t2 ts]; [discriminate|]. destruct t2; try discriminate. cbn in E.
    eapply (H true ts); [cbn; lia|exact E].
  - cbn [mbind option_bind] in E. eapply (H false (t :: ts)); [lia|exact E].
Qed.

Lemma past_braces_length d ts : (length (past_braces d ts) <= length ts)%nat.
Proof.
  revert d. induction ts as [|t ts IH]; intros d; cbn [past_braces length]; [lia|].
  destruct (0 <? _); [etrans; [apply IH|]|]; lia.
Qed.

Lemma syntax_head_length t r mk r' : syntax_head t r = Some (mk, r') → (length r' <= length r)%nat.
Proof. unfold syntax_head. intros E. repeat case_match; simplify_eq; rewrite ?length_drop; lia. Qed.

Lemma syntax_enums_length ts : (length (syntax_enums ts).2 <= length ts)%nat.
Proof.
  destruct ts as [|[] r]; cbn; try lia. destruct (parse_enum_body r) as [[ps r']|] eqn:E; cbn; [|lia].
  apply parse_enum_body_length in E. lia.
Qed.

Lemma parse_syntax_length ts sy en r :
  parse_syntax ts = Some (sy, en, r) → (length r <= length ts)%nat.
Proof.
  unfold parse_syntax. destruct ts as [|t ts]; [discriminate|]. intros E.
  assert (H : (let! (mk, r1) := syntax_head t ts in
     let '(enums, r2) := syntax_enums r1 in
     match parse_constraint_tokens r2 with
     | Some (c, r3) => Some (mk (Some c), enums, r3)
     | None => Some (mk None, enums, r2)
     end) = Some (sy, en, r) → (length r <= length (t :: ts))%nat).
  { destruct (syntax_head t ts) as [[mk r1]|] eqn:Eh; cbn; [|discriminate]. apply syntax_head_length in Eh.
    pose proof (syntax_enums_length r1). destruct (syntax_enums r1) as [enums r2]. cbn in *.
    destruct (parse_constraint_tokens r2) as [[c r3]|] eqn:Ec; intros [= <- <- <-]; [|lia].
    apply parse_constraint_tokens_length in Ec. lia. }
  destruct (is_word "SEQUENCE" t).
  - cbn [andb] in E. destruct ts as [|t2 ts]; [exact (H E)|].
    destruct t2; try exact (H E).
    + destruct (is_word "OF" (TIdent s)); [|exact (H E)]. injection E as <- <- <-.
      rewrite length_drop. cbn. lia.
    + injection E as <- <- <-. pose proof (past_braces_length 1 ts). cbn. lia.
  - cbn [andb] in E. exact (H E).
Qed.

Lemma next_str_length r s r' : next_str r = Some (s, r') → (length r' <= length r)%nat.
Proof. destruct r as [|[] r]; cbn; intros; simplify_eq; lia. Qed.
Lemma next_ident_length r s r' : next_ident r = Some (s, r') → (length r' <= length r)%nat.
Proof. destruct r as [|[] r]; cbn; intros; simplify_eq; lia. Qed.

Create HintDb clauses.
#[export] Hint Resolve next_str_length next_ident_length parse_syntax_length : clauses.

Lemma object_clause_advances : walk_advancing object_clause.
Proof.
  intros d t r d' r'. unfold object_clause.
  destruct t as [k| | | | | | | | | | |]; try (intros; simplify_eq; lia).
  repeat (match goal with |- (if ?b then _ else _) = _ → _ => destruct b end);
    repeat case_match; intros; simplify_eq; eauto with clauses.
Qed.

Lemma tc_turn_advances : walk_advancing tc_turn.
Proof.
  intros [d b] t r st' r'. unfold tc_turn. cbn [fst snd].
  destruct (tc_clause d t r) as [[[d' sy] r1]|] eqn:E; [|destruct b; intros; simplify_eq; lia].
  intros [= <- <-]. unfold tc_clause in E. destruct t as [k| | | | | | | | | | |]; try discriminate.
  repeat (match type of E with (if ?b then _ else _) = _ => destruct b end); [..|discriminate].
  all: match type of E with mbind _ ?x = _ => destruct x as [[[? ?] ?]|] eqn:E' || destruct x as [[? ?]|] eqn:E' end;
    cbn in E; simplify_eq; eauto with clauses.
Qed.

Lemma find_oid_assignment_length d ts v r :
  find_oid_assignment d ts = Some (v, r) → (length r < length ts)%nat.
Proof.
  revert d. induction ts as [|t ts IH]; intros d E; [discriminate|]. cbn [find_oid_assignment] in E.
  assert (Hi : ∀ d, find_oid_assignment d ts = Some (v, r) → (length r < length (t :: ts))%nat)
    by (intros d' E'; specialize (IH d' E'); cbn; lia).
  destruct t; try exact (Hi _ E).
  destruct (if d =? 0 then _ else None) as [[v' n]|] eqn:Ea; [|exact (Hi _ E)]. injection E as -> ->.
  destruct (d =? 0); [|discriminate]. destruct ts as [|[] ts]; try discriminate.
  apply parse_oid_body_length in Ea. cbn. lia.
Qed.

Lemma name_advances : advancing name_step.
Proof.
  intros st t r. unfold name_step.
  destruct (match t with TIdent n => _ | _ => None end) as [[l' r']|] eqn:Em.
  { destruct t as [n| | | | | | | | | | |]; [|discriminate Em ..].
    destruct r as [|[k| | | | | | | | | | |] r]; [discriminate Em| |discriminate Em ..].
    pose proof (skip_macro_length r).
    destruct (bool_decide (k = str "MACRO")); [|destruct (is_macro_keyword k); [|discriminate Em]];
      injection Em as <- <-; cbn [length snd]; lia. }
  destruct (oid_assignment (t :: r)) as [[d r']|] eqn:Ea.
  { apply oid_assignment_length in Ea. cbn in *. lia. }
  destruct t; try (cbn; lia). destruct r as [|[] r]; try (cbn; lia).
  destruct st; cbn; [|lia].
  destruct (parse_oid_body r) as [[v r']|] eqn:E'; cbn; [|lia].
  apply parse_oid_body_length in E'. lia.
Qed.

Lemma object_advances : advancing object_step.
Proof.
  intros st t r. destruct t; try (cbn; lia). destruct r as [|[k| | | | | | | | | | |] r]; try (cbn; lia).
  cbn [object_step]. pose proof (skip_macro_length r).
  destruct (bool_decide (k = str "MACRO")); [cbn; lia|]. destruct (is_object_keyword k); [|cbn; lia].
  destruct (find_oid_assignment 0 r) as [[v next]|] eqn:E; [|cbn; lia].
  apply find_oid_assignment_length in E. cbn. lia.
Qed.

Lemma skip_to_syntax_end_length ts : (length (skip_to_syntax_end ts) <= length ts)%nat.
Proof.
  induction ts as [|t ts IH]; cbn [skip_to_syntax_end length]; [lia|].
  destruct (if is_word "SYNTAX" t then _ else None) as [[[sy en] next]|] eqn:E.
  - destruct (is_word "SYNTAX" t); [|discriminate]. apply parse_syntax_length in E. lia.
  - destruct t; lia.
Qed.

Lemma tc_body_length r body : tc_body r = Some body → (length body < length r)%nat.
Proof. unfold tc_body. intros E. repeat case_match; simplify_eq; cbn; lia. Qed.

Lemma tc_advances : advancing tc_step.
Proof.
  intros st t r. unfold tc_step. destruct t; try (cbn; lia).
  destruct (tc_body r) as [body|] eqn:E; [|cbn; lia]. apply tc_body_length in E.
  pose proof (skip_to_syntax_end_length body). cbn. lia.
Qed.

(** ** Printing constraints *)

Definition show_lo (lo : option Z) : Tok := match lo with Some n => TNum n | None => TIdent (str "MIN") end.
Definition show_hi (hi : option Z) : Tok := match hi with Some n => TNum n | None => TIdent (str "MAX") end.
Definition show_range (r : option Z * option Z) : list Tok := [show_lo r.1; TDotDot; show_hi r.2].

Definition size_range (s : Z * Z) : option Z * option Z := (Some s.1, Some s.2).

Definition show_ranges (rs : list (option Z * option Z)) : list Tok :=
  match rs with
  | [] => []
  | r :: rs' => show_range r ++ flat_map (fun r => TPipe :: show_range r) rs'
  end ++ [TRParen].

(** Either ranges or sizes, as a SYNTAX clause has it. *)
Definition show_constraint (c : Constraint) : list Tok :=
  match sizes c with
  | [] => TLParen :: show_ranges (ranges c)
  | ss => TLParen :: TIdent (str "SIZE") :: TLParen :: show_ranges (size_range <$> ss) ++ [TRParen]
  end.

(** What follows the tokens read: the code does not read the second closing
    parenthesis of a SIZE. *)
Definition constraint_rest (c : Constraint) (rest : list Tok) : list Tok :=
  match sizes c with [] => rest | _ => TRParen :: rest end.

Definition constraint_ok (c : Constraint) : bool :=
  match ranges c, sizes c with
  | _ :: _, [] => true
  | [], _ :: _ => forallb (fun s => (0 <=? s.1) && (s.1 <=? s.2)) (sizes c)
  | _, _ => false
  end.

Lemma parse_range_show r rest : parse_range (show_range r ++ rest) = Some (r, rest).
Proof. destruct r as [[lo|] [hi|]]; reflexivity. Qed.

Lemma parse_ranges_show is_size rs rest :
  rs ≠ [] → ∀ f c, (length (show_ranges rs) < f)%nat →
  parse_ranges f is_size (show_ranges rs ++ rest) c =
  Some (fold_left (fun c r => push_range is_size r.1 r.2 c) rs c, rest).
Proof.
  destruct rs as [|r rs]; [done|]. intros _. revert r.
  induction rs as [|q rs IH]; intros r f c Hf; (destruct f as [|f]; [lia|]).
  - cbn [show_ranges flat_map app]. rewrite <- !app_assoc. cbn [app parse_ranges].
    rewrite parse_range_show. destruct r. reflexivity.
  - unfold show_ranges in *. cbn [flat_map] in *. rewrite <- !app_assoc in *. cbn [app parse_ranges] in *.
    rewrite parse_range_show. destruct r as [lo hi]. cbn [mbind option_bind fst snd fold_left].
    specialize (IH q f (push_range is_size lo hi c)). rewrite <- !app_assoc in IH. cbn [app] in IH.
    rewrite IH; [reflexivity|]. cbn in Hf |- *. lia.
Qed.

Lemma fold_push_ranges rs c :
  fold_left (fun c r => push_range false r.1 r.2 c) rs c = mkConstraint (ranges c ++ rs) (sizes c).
Proof.
  revert c. induction rs as [|[lo hi] rs IH]; intros c; cbn.
  - rewrite app_nil_r. destruct c. reflexivity.
  - rewrite IH. cbn. rewrite <- app_assoc. reflexivity.
Qed.

Lemma fold_push_sizes ss c :
  forallb (fun s => (0 <=? s.1) && (s.1 <=? s.2)) ss = true →
  fold_left (fun c r => push_range true r.1 r.2 c) (size_range <$> ss) c = mkConstraint (ranges c) (sizes c ++ ss).
Proof.
  revert c. induction ss as [|[l h] ss IH]; intros c; cbn [forallb fmap list_fmap fold_left].
  - rewrite app_nil_r. destruct c. reflexivity.
  - cbn. intros [Hs Hss]%andb_true_iff. rewrite IH by assumption. unfold size_of. cbn.
    rewrite <- app_assoc. cbn. repeat f_equal; lia.
Qed.

Lemma parse_constraint_show c rest :
  constraint_ok c = true →
  parse_constraint_tokens (show_constraint c ++ rest) = Some (c, constraint_rest c rest).
Proof.
  destruct c as [[|r rs] [|s ss]]; cbn [constraint_ok ranges sizes]; try discriminate; intros Hok.
  - unfold show_constraint, constraint_rest. cbn [ranges sizes]. rewrite <- !app_comm_cons, <- app_assoc.
    unfold parse_constraint_tokens.
    assert (Es : is_word "SIZE" (TIdent (str "SIZE")) = true) by (vm_compute; reflexivity).
    rewrite Es. cbn [mbind option_bind].
    rewrite parse_ranges_show by first [discriminate | rewrite length_app; lia].
    cbn [mbind option_bind]. change (size_range s :: (size_range <$> ss)) with (size_range <$> (s :: ss)).
    rewrite fold_push_sizes by assumption. reflexivity.
  - unfold show_constraint, constraint_rest. cbn [ranges sizes]. rewrite <- app_comm_cons.
    unfold parse_constraint_tokens.
    assert (Hh : ∀ rest, ∃ t x, show_ranges (r :: rs) ++ rest = t :: x ∧ is_word "SIZE" t = false).
    { intros x. destruct r as [[lo|] hi]; eexists _, _; (split; [reflexivity|]); reflexivity || (vm_compute; reflexivity). }
    destruct (Hh rest) as (t & x & Hx & Hw).
    assert (E : parse_ranges (S (length (t :: x))) false (t :: x) no_constraint
                = Some (mkConstraint (r :: rs) [], rest)).
    { rewrite <- Hx. rewrite parse_ranges_show by first [discriminate | rewrite length_app; lia].
      rewrite fold_push_ranges. reflexivity. }
    rewrite Hx, Hw. cbn [mbind option_bind]. rewrite E. reflexivity.
Qed.

Lemma show_toks_app a b : show_toks (a ++ b) = show_toks a ++ show_toks b.
Proof. unfold show_toks. apply flat_map_app. Qed.

(** A constraint printed after its type, as in a SYNTAX clause, is read back:
    every range or size, in order, with MIN and MAX as open ends of ranges. *)
Theorem constraint_roundtrip base c :
  is_ident base = true → constraint_ok c = true → forallb tok_ok (show_constraint c) = true →
  parse_constraint (show_toks (TIdent base :: show_constraint c)) = Some c.
Proof.
  intros Hb Hc Ht. unfold parse_constraint. rewrite lex_show by (cbn; rewrite Hb; exact Ht).
  assert (E : from_lparen (TIdent base :: show_constraint c) = Some (show_constraint c)).
  { unfold show_constraint. destruct (sizes c); reflexivity. }
  rewrite E. cbn [mbind option_bind]. rewrite <- (app_nil_r (show_constraint c)).
  rewrite parse_constraint_show by assumption. reflexivity.
Qed.

Lemma constraint_roundtrip_witness :
  parse_constraint (show_toks (TIdent (str "INTEGER") ::
    show_constraint (mkConstraint [(Some 0, Some 255); (Some 1000, None)] []))) =
  Some (mkConstraint [(Some 0, Some 255); (Some 1000, None)] []).
Proof. apply constraint_roundtrip; vm_compute; reflexivity. Defined.

(** An open upper end of a SIZE is read as its lower end; a negative bound loses
    its sign; the documented open form [n..] is not read at all. *)
Example open_size_is_closed :
  parse_constraint (str "OCTET STRING (SIZE (1..MAX))") = Some (mkConstraint [] [(1, 1)]).
Proof. vm_compute. reflexivity. Qed.
Example negative_bound_is_positive :
  parse_constraint (str "INTEGER (-128..127)") = Some (mkConstraint [(Some 128, Some 127)] []).
Proof. vm_compute. reflexivity. Qed.
Example half_open_range_is_lost :
  parse_constraint (str "INTEGER (0..65535 | 1000000..)") = None.
Proof. vm_compute. reflexivity. Qed.

(** ** Printing object definitions *)

Definition show_base (b : BaseType) : list Tok :=
  TIdent <$> match b with
  | BInteger => [str "INTEGER"] | BOctetString => [str "OCTET"; str "STRING"]
  | BOid => [str "OBJECT"; str "IDENTIFIER"] | BIpAddress => [str "IpAddress"]
  | BCounter32 => [str "Counter32"] | BGauge32 => [str "Gauge32"] | BTimeTicks => [str "TimeTicks"]
  | BOpaque => [str "Opaque"] | BCounter64 => [str "Counter64"] | BNull => [str "NULL"]
  | BUnsigned32 => [str "Unsigned32"]
  end.

Definition syntax_constraint (sy : Syntax) : option Constraint :=
  match sy with SBase _ c | STc _ c => c | SSequence => None end.

Definition show_syn (sy : Syntax) (en : list (Z * text)) : list Tok :=
  match sy with SBase b _ => show_base b | STc n _ => [TIdent n] | SSequence => [TIdent (str "SEQUENCE"); TLBrace; TRBrace] end ++
  match en with [] => [] | _ => show_enums en end ++
  match syntax_constraint sy with Some c => show_constraint c | None => [] end.

Definition syn_rest (sy : Syntax) (rest : list Tok) : list Tok :=
  match syntax_constraint sy with Some c => constraint_rest c rest | None => rest end.

(** A name that is not the keyword of a type. *)
Definition type_name_ok (n : text) : bool :=
  negb (same_word n (str "SEQUENCE")) && bool_decide (match_base_type (to_ascii_lowercase n) = None).

Definition syntax_ok (sy : Syntax) (en : list (Z * text)) : bool :=
  match sy with
  | SBase _ _ => true
  | STc n _ => type_name_ok n
  | SSequence => bool_decide (en = [])
  end && match syntax_constraint sy with Some c => constraint_ok c | None => true end.

(** The next clause: not a brace or a parenthesis. *)
Definition clause_start (rest : list Tok) : bool :=
  match rest with TIdent _ :: _ | TAssign :: _ => true | _ => false end.

Lemma syntax_enums_show en c rest :
  match c with Some c => true | None => clause_start rest end = true →
  syntax_enums (match en with [] => [] | _ => show_enums en end ++
                match c with Some c => show_constraint c | None => [] end ++ rest)
  = (en, match c with Some c => show_constraint c | None => [] end ++ rest).
Proof.
  intros Hc. destruct en as [|p ps].
  - cbn [app]. destruct c as [c|].
    + unfold show_constraint. destruct (sizes c); reflexivity.
    + destruct rest as [|[] ?]; reflexivity || discriminate.
  - unfold show_enums. cbn [app]. rewrite <- !app_assoc. cbn [app syntax_enums].
    rewrite parse_enum_body_show. reflexivity.
Qed.

Lemma same_word_refl a : same_word a a = true.
Proof. unfold same_word. apply bool_decide_eq_true_2. reflexivity. Qed.

Lemma type_name_head n r : type_name_ok n = true → syntax_head (TIdent n) r = Some (STc n, r).
Proof.
  intros [_ Hn%bool_decide_eq_true]%andb_true_iff. unfold syntax_head. rewrite Hn.
  assert (Ho : ∀ w, match_base_type (to_ascii_lowercase (str w)) ≠ None → same_word n (str w) = false).
  { intros w Hw. unfold same_word. apply bool_decide_eq_false_2. intros E. rewrite <- E in Hw. contradiction. }
  rewrite !Ho by (vm_compute; discriminate). reflexivity.
Qed.

Lemma show_base_head b : ∃ w r, show_base b = TIdent w :: r ∧ is_word "SEQUENCE" (TIdent w) = false ∧
  (∀ rest, syntax_head (TIdent w) (r ++ rest) = Some (SBase b, rest)).
Proof. destruct b; eexists _, _; (split; [reflexivity|split; [vm_compute; reflexivity|intros rest; reflexivity]]). Qed.

Lemma parse_syntax_head t r rest mk sy en c :
  is_word "SEQUENCE" t = false →
  (∀ rest, syntax_head t (r ++ rest) = Some (mk, rest)) → mk c = sy →
  match c with Some c => constraint_ok c = true | None => clause_start rest = true end →
  parse_syntax (t :: r ++ (match en with [] => [] | _ => show_enums en end ++
                match c with Some c => show_constraint c | None => [] end ++ rest))
  = Some (sy, en, match c with Some c => constraint_rest c rest | None => rest end).
Proof.
  intros Hs Hh <- Hc. cbn [parse_syntax]. rewrite Hs. cbn [andb]. rewrite Hh. cbn [mbind option_bind].
  rewrite syntax_enums_show by (destruct c; [reflexivity|exact Hc]).
  destruct c as [c|].
  - rewrite parse_constraint_show by exact Hc. reflexivity.
  - cbn [app]. destruct rest as [|[] rest]; reflexivity || discriminate.
Qed.

Lemma parse_syntax_show sy en rest :
  syntax_ok sy en = true → clause_start rest = true →
  parse_syntax (show_syn sy en ++ rest) = Some (sy, en, syn_rest sy rest).
Proof.
  intros Hok Hr. unfold show_syn, syn_rest, syntax_ok in *. apply andb_true_iff in Hok as [Hn Hc].
  rewrite <- !app_assoc.
  assert (Hc' : match syntax_constraint sy with Some c => constraint_ok c = true | None => clause_start rest = true end)
    by (destruct (syntax_constraint sy); assumption).
  destruct sy as [b c|n c|]; cbn [syntax_constraint] in *.
  - destruct (show_base_head b) as (w & r & -> & Hw & Hh). rewrite <- app_comm_cons.
    eapply (parse_syntax_head _ _ _ (SBase b)); eauto.
  - cbn [app]. eapply (parse_syntax_head (TIdent n) [] rest (STc n)); [|intros; by apply type_name_head|reflexivity|exact Hc'].
    apply andb_true_iff in Hn as [Hn _]. apply negb_true_iff in Hn. exact Hn.
  - apply bool_decide_eq_true in Hn as ->. reflexivity.
Qed.

Definition clause_words : list text :=
  [str "SYNTAX"; str "UNITS"; str "MAX-ACCESS"; str "ACCESS"; str "MIN-ACCESS"; str "STATUS";
   str "DESCRIPTION"; str "REFERENCE"; str "INDEX"; str "AUGMENTS"; str "DEFVAL"].
Definition clause_word (k : text) : bool := existsb (same_word k) clause_words.

(** The clause loop over the tokens that are left. *)
Definition clauses (d : ObjectDef) (ts : list Tok) : ObjectDef := walk object_clause (length ts) d ts.

Lemma clauses_turn d t r d' r' :
  object_clause d t r = Some (d', r') → clauses d (t :: r) = clauses d' r'.
Proof. apply walk_turn, object_clause_advances. Qed.

Definition neutral (t : Tok) : bool :=
  match t with TAssign => false | TIdent k => negb (clause_word k) | _ => true end.

Lemma not_clause_word k w : clause_word k = false → In w clause_words → same_word k w = false.
Proof.
  unfold clause_word. intros H Hw. destruct (same_word k w) eqn:E; [|reflexivity].
  assert (existsb (same_word k) clause_words = true) by (apply existsb_exists; eauto). congruence.
Qed.

Lemma clauses_neutral d ts rest : forallb neutral ts = true → clauses d (ts ++ rest) = clauses d rest.
Proof.
  induction ts as [|t ts IH]; [reflexivity|]. cbn [forallb app]. intros [Ht Hts]%andb_true_iff.
  rewrite <- (IH Hts). apply clauses_turn. destruct t; try reflexivity; [|discriminate].
  cbn [neutral] in Ht. apply negb_true_iff in Ht. unfold object_clause.
  repeat match goal with
    | |- context [same_word s ?w] =>
        rewrite (not_clause_word s w Ht) by (unfold clause_words; repeat (first [left; reflexivity|right]))
    end.
  reflexivity.
Qed.

Definition show_access (a : Access) : text :=
  match a with
  | NotAccessible => str "not-accessible" | AccessibleForNotify => str "accessible-for-notify"
  | ReadOnly => str "read-only" | ReadWrite => str "read-write" | ReadCreate => str "read-create"
  | WriteOnly => str "write-only"
  end.
Definition show_status (s : Status) : text :=
  match s with Current => str "current" | Deprecated => str "deprecated" | Obsolete => str "obsolete" end.

Definition show_names (l : list text) : list Tok :=
  match l with
  | [] => []
  | n :: l' => TIdent n :: flat_map (fun n => [TComma; TIdent n]) l'
  end.

Definition show_index (i : Index) : list Tok :=
  match i with
  | Implied s => [TIdent (str "INDEX"); TLBrace; TIdent (str "IMPLIED"); TIdent s; TRBrace]
  | Plain l => TIdent (str "INDEX") :: TLBrace :: show_names l ++ [TRBrace]
  | Augments s => [TIdent (str "AUGMENTS"); TLBrace; TIdent s; TRBrace]
  end.

Definition show_opt (w : string) (o : option text) : list Tok :=
  match o with Some s => [TIdent (str w); TStr s] | None => [] end.

(** How far a run of tokens opens braces, when it has no [::=]. *)
Fixpoint depth (ts : list Tok) : option Z :=
  match ts with
  | [] => Some 0
  | TAssign :: _ => None
  | TLBrace :: r => let! n := depth r in Some (n + 1)
  | TRBrace :: r => let! n := depth r in Some (n - 1)
  | _ :: r => depth r
  end.

(** The words of a default value, with the braces inside it. *)
Definition default_word (t : Tok) : list text :=
  match t with
  | TLBrace => [str "{"] | TRBrace => [str "}"] | TComma => [str ","]
  | TStr s => [34 :: s ++ [34]] | TNum n => [show_i n] | TIdent s => [s]
  | _ => []
  end.

Definition default_text (ts : list Tok) : text := join [sp] (flat_map default_word ts).

(** Braces that match, from [d] open ones on. *)
Fixpoint nested (d : Z) (ts : list Tok) : bool :=
  match ts with
  | [] => d =? 0
  | TLBrace :: r => nested (d + 1) r
  | TRBrace :: r => (0 <? d) && nested (d - 1) r
  | _ :: r => nested d r
  end.

Definition default_ok (ts : list Tok) : bool := nested 0 ts && forallb neutral ts.

Definition show_defval (dv : option (list Tok)) : list Tok :=
  match dv with Some ts => TIdent (str "DEFVAL") :: TLBrace :: ts ++ [TRBrace] | None => [] end.

Lemma defval_parts_show ts rest : ∀ d, 0 <= d → nested d ts = true →
  defval_parts (d + 1) (ts ++ TRBrace :: rest) = Some (flat_map default_word ts).
Proof.
  induction ts as [|t ts IH]; intros d Hd Hn.
  - cbn in Hn. apply Z.eqb_eq in Hn as ->. reflexivity.
  - cbn [app defval_parts flat_map].
    destruct t; cbn [nested] in Hn;
      try (assert ((0 <? d + 1) = true) as -> by (apply Z.ltb_lt; lia); rewrite (IH d Hd Hn); reflexivity).
    + assert ((0 <? d + 1 + 1) = true) as -> by (apply Z.ltb_lt; lia).
      rewrite (IH (d + 1) ltac:(lia) Hn). reflexivity.
    + apply andb_true_iff in Hn as [Hp%Z.ltb_lt Hn]. replace (d + 1 - 1) with (d - 1 + 1) by lia.
      assert ((0 <? d - 1 + 1) = true) as -> by (apply Z.ltb_lt; lia).
      rewrite (IH (d - 1) ltac:(lia) Hn). reflexivity.
Qed.

Lemma nested_depth ts : ∀ d, forallb neutral ts = true → nested d ts = true → depth ts = Some (- d).
Proof.
  induction ts as [|t ts IH]; intros d Hf Hn; [cbn in Hn; apply Z.eqb_eq in Hn as ->; reflexivity|].
  cbn [forallb] in Hf. apply andb_true_iff in Hf as [Ht Hf].
  destruct t; cbn [nested depth] in *; try (by apply IH); try discriminate.
  - rewrite (IH (d + 1)) by assumption. cbn. f_equal. lia.
  - apply andb_true_iff in Hn as [_ Hn]. rewrite (IH (d - 1)) by assumption. cbn. f_equal. lia.
Qed.

(** The clauses of an object in the order of the OBJECT-TYPE macro, the default
    value as its tokens. *)
Definition show_clauses (d : ObjectDef) (dv : option (list Tok)) : list Tok :=
  TIdent (str "SYNTAX") :: show_syn (od_syntax d) (od_enums d) ++
  show_opt "UNITS" (od_units d) ++
  [TIdent (str "MAX-ACCESS"); TIdent (show_access (od_max_access d));
   TIdent (str "STATUS"); TIdent (show_status (od_status d))] ++
  show_opt "DESCRIPTION" (od_description d) ++ show_opt "REFERENCE" (od_reference d) ++
  match od_index d with Some i => show_index i | None => [] end ++ show_defval dv.

Definition index_ok (i : Index) : bool :=
  match i with
  | Implied s | Augments s => negb (clause_word s)
  | Plain l => negb (match l with n :: _ => same_word n (str "IMPLIED") | [] => false end) &&
               forallb (fun n => negb (clause_word n)) l
  end.

(** What can be printed: a syntax and an index as above, a default value whose
    braces match and none of whose words opens a clause, with the text it is
    recorded as, and no module, which is not part of the macro. *)
Definition object_ok (d : ObjectDef) (dv : option (list Tok)) : bool :=
  syntax_ok (od_syntax d) (od_enums d) &&
  match od_index d with Some i => index_ok i | None => true end &&
  match dv with Some ts => default_ok ts | None => true end &&
  bool_decide (od_defval d = default_text <$> dv) && bool_decide (od_module d = None).

Lemma clauses_syntax d sy en rest :
  syntax_ok sy en = true → clause_start rest = true →
  clauses d (TIdent (str "SYNTAX") :: show_syn sy en ++ rest) = clauses (set_syntax sy en d) rest.
Proof.
  intros Hok Hr. rewrite (clauses_turn _ _ _ (set_syntax sy en d) (syn_rest sy rest)).
  - unfold syn_rest, constraint_rest. destruct (syntax_constraint sy) as [c|]; [|reflexivity].
    destruct (sizes c); [reflexivity|]. exact (clauses_neutral _ [TRParen] rest eq_refl).
  - unfold object_clause. rewrite same_word_refl, parse_syntax_show by assumption. reflexivity.
Qed.

Lemma clauses_units d o rest :
  clauses d (show_opt "UNITS" o ++ rest) = clauses (match o with Some s => set_units s d | None => d end) rest.
Proof. destruct o as [s|]; [|reflexivity]. apply clauses_turn. reflexivity. Qed.
Lemma clauses_description d o rest :
  clauses d (show_opt "DESCRIPTION" o ++ rest) =
  clauses (match o with Some s => set_description s d | None => d end) rest.
Proof. destruct o as [s|]; [|reflexivity]. apply clauses_turn. reflexivity. Qed.
Lemma clauses_reference d o rest :
  clauses d (show_opt "REFERENCE" o ++ rest) =
  clauses (match o with Some s => set_reference s d | None => d end) rest.
Proof. destruct o as [s|]; [|reflexivity]. apply clauses_turn. reflexivity. Qed.

Lemma clauses_access_status d a s rest :
  clauses d ([TIdent (str "MAX-ACCESS"); TIdent (show_access a); TIdent (str "STATUS"); TIdent (show_status s)] ++ rest)
  = clauses (set_status s (set_access a d)) rest.
Proof.
  cbn [app]. rewrite (clauses_turn _ _ _ (set_access a d) (TIdent (str "STATUS") :: TIdent (show_status s) :: rest)).
  - apply clauses_turn. destruct s; reflexivity.
  - destruct a; reflexivity.
Qed.

Lemma parse_index_names l acc implied rest :
  match acc, l with [], n :: _ => implied = true ∨ same_word n (str "IMPLIED") = false | _, _ => True end →
  parse_index_body implied acc (show_names l ++ TRBrace :: rest) =
  Some (match implied, last (acc ++ l) with true, Some s => Implied s | _, _ => Plain (acc ++ l) end).
Proof.
  intros H.
  assert (Hflat : ∀ l acc, acc ≠ [] →
    parse_index_body implied acc (flat_map (fun n => [TComma; TIdent n]) l ++ TRBrace :: rest) =
    Some (match implied, last (acc ++ l) with true, Some s => Implied s | _, _ => Plain (acc ++ l) end)).
  { clear. induction l as [|n l IH]; intros acc Ha; cbn [flat_map app parse_index_body].
    - rewrite app_nil_r. destruct implied, (last acc); reflexivity.
    - rewrite (bool_decide_eq_false_2 (acc = [])) by assumption. rewrite andb_false_r. cbn [andb].
      rewrite IH by (destruct acc; discriminate). rewrite <- app_assoc. reflexivity. }
  destruct l as [|n l]; cbn [show_names app].
  - rewrite app_nil_r. cbn [parse_index_body]. destruct implied, (last acc); reflexivity.
  - cbn [parse_index_body].
    replace (same_word n (str "IMPLIED") && bool_decide (acc = []) && negb implied) with false.
    + rewrite Hflat by (destruct acc; discriminate). rewrite <- app_assoc. reflexivity.
    + destruct acc; [|rewrite bool_decide_eq_false_2 by discriminate; rewrite andb_false_r; reflexivity].
      destruct H as [->| ->]; [rewrite andb_false_r|]; reflexivity.
Qed.

Lemma neutral_names l : forallb (fun n => negb (clause_word n)) l = true → forallb neutral (show_names l) = true.
Proof.
  destruct l as [|n l]; [reflexivity|]. cbn [forallb show_names neutral]. intros [-> H]%andb_true_iff. cbn [andb].
  induction l as [|m l IH]; [reflexivity|]. cbn in *. apply andb_true_iff in H as [-> H]. exact (IH H).
Qed.

Lemma clauses_index d o rest :
  match o with Some i => index_ok i | None => true end = true →
  clauses d (match o with Some i => show_index i | None => [] end ++ rest) =
  clauses (match o with Some i => set_index i d | None => d end) rest.
Proof.
  destruct o as [i|]; [|reflexivity]. intros Hok. destruct i as [s|l|s]; cbn [index_ok] in Hok.
  - cbn [show_index app].
    rewrite (clauses_turn _ _ _ (set_index (Implied s) d) (TLBrace :: TIdent (str "IMPLIED") :: TIdent s :: TRBrace :: rest)).
    + apply (clauses_neutral _ [TLBrace; TIdent (str "IMPLIED"); TIdent s; TRBrace]).
      cbn [forallb neutral]. rewrite Hok. reflexivity.
    + assert (E : ∀ x, parse_index (TLBrace :: TIdent (str "IMPLIED") :: x) = parse_index_body true [] x)
        by reflexivity.
      change (Some (match parse_index (TLBrace :: TIdent (str "IMPLIED") :: show_names [s] ++ TRBrace :: rest) with
                    | Some i => set_index i d | None => d end,
                    TLBrace :: TIdent (str "IMPLIED") :: TIdent s :: TRBrace :: rest) = 
              Some (set_index (Implied s) d, TLBrace :: TIdent (str "IMPLIED") :: TIdent s :: TRBrace :: rest)).
      rewrite E, parse_index_names by (left; reflexivity). reflexivity.
  - apply andb_true_iff in Hok as [Hi Hn]. cbn [show_index]. rewrite <- !app_comm_cons, <- app_assoc. cbn [app].
    rewrite (clauses_turn _ _ _ (set_index (Plain l) d) (TLBrace :: show_names l ++ TRBrace :: rest)).
    + pose proof (clauses_neutral (set_index (Plain l) d) (TLBrace :: show_names l ++ [TRBrace]) rest) as E.
      rewrite <- app_comm_cons, <- app_assoc in E. apply E. cbn [forallb neutral andb].
      rewrite forallb_app. rewrite neutral_names by assumption. reflexivity.
    + unfold object_clause. cbn [parse_index]. rewrite parse_index_names; [reflexivity|].
      destruct l; [exact I|]. right. apply negb_true_iff in Hi. exact Hi.
  - cbn [show_index app].
    rewrite (clauses_turn _ _ _ (set_index (Augments s) d) (TLBrace :: TIdent s :: TRBrace :: rest)) by reflexivity.
    apply (clauses_neutral _ [TLBrace; TIdent s; TRBrace]). cbn [forallb neutral]. rewrite Hok. reflexivity.
Qed.

Lemma find_oid_skip n ts d rest :
  depth ts = Some n → find_oid_assignment d (ts ++ rest) = find_oid_assignment (d + n) rest.
Proof.
  revert n d. induction ts as [|t ts IH]; intros n d E.
  - injection E as <-. rewrite Z.add_0_r. reflexivity.
  - destruct t; cbn in E |- *; try discriminate; try (apply IH; exact E);
      (destruct (depth ts) as [m|]; cbn in E; [|discriminate]; injection E as <-;
       rewrite (IH m) by reflexivity; f_equal; lia).
Qed.

Lemma depth_app a b n m : depth a = Some n → depth b = Some m → depth (a ++ b) = Some (n + m).
Proof.
  revert n. induction a as [|t a IH]; intros n Ea Eb.
  - injection Ea as <-. exact Eb.
  - destruct t; cbn in Ea |- *; try discriminate; try (by apply IH);
      (destruct (depth a) as [k|]; cbn in Ea; [|discriminate]; injection Ea as <-;
       rewrite (IH k) by (reflexivity || exact Eb); cbn; f_equal; lia).
Qed.

Lemma depth_app_0 a b : depth a = Some 0 → depth b = Some 0 → depth (a ++ b) = Some 0.
Proof. intros Ha Hb. exact (depth_app a b 0 0 Ha Hb). Qed.

Lemma clauses_defval d dv rest :
  match dv with Some ts => default_ok ts | None => true end = true →
  clauses d (show_defval dv ++ rest) = clauses (match dv with Some ts => set_defval (default_text ts) d | None => d end) rest.
Proof.
  destruct dv as [ts|]; [|reflexivity]. unfold default_ok. intros [Hn Hw]%andb_true_iff.
  cbn [show_defval]. rewrite <- !app_comm_cons, <- app_assoc. cbn [app].
  rewrite (clauses_turn _ _ _ (set_defval (default_text ts) d) (TLBrace :: ts ++ TRBrace :: rest)).
  - pose proof (clauses_neutral (set_defval (default_text ts) d) (TLBrace :: ts ++ [TRBrace]) rest) as E.
    rewrite <- app_comm_cons, <- app_assoc in E. apply E. cbn [forallb neutral andb]. rewrite forallb_app, Hw. reflexivity.
  - unfold object_clause, parse_defval. pose proof (defval_parts_show ts rest 0 ltac:(lia) Hn) as E.
    change (0 + 1) with 1 in E. rewrite E. reflexivity.
Qed.

(** Tokens with no braces and no [::=]. *)
Definition flat (t : Tok) : bool := match t with TAssign | TLBrace | TRBrace => false | _ => true end.
Lemma depth_flat ts : forallb flat ts = true → depth ts = Some 0.
Proof. induction ts as [|[] ts IH]; cbn; intros H; try discriminate; auto. Qed.

Lemma depth_braces ts : depth ts = Some 0 → depth (TLBrace :: ts ++ [TRBrace]) = Some 0.
Proof.
  intros H. pose proof (depth_app ts [TRBrace] 0 (-1) H eq_refl) as E.
  change (depth (TLBrace :: ts ++ [TRBrace])) with (let! n := depth (ts ++ [TRBrace]) in Some (n + 1)).
  rewrite E. reflexivity.
Qed.

Lemma forallb_flat_map {A} (f : A → list Tok) l : (∀ x, forallb flat (f x) = true) → forallb flat (flat_map f l) = true.
Proof. intros H. induction l as [|x l IH]; [reflexivity|]. cbn. rewrite forallb_app, H, IH. reflexivity. Qed.

Create HintDb depth.
#[export] Hint Resolve depth_app_0 depth_flat depth_braces : depth.

Lemma depth_enums ps : depth (show_enums ps) = Some 0.
Proof.
  unfold show_enums. apply depth_braces, depth_flat. destruct ps as [|p ps]; [reflexivity|].
  cbn. apply (forallb_flat_map (fun q => TComma :: show_enum q)). reflexivity.
Qed.

Lemma flat_ranges rs : forallb flat (show_ranges rs) = true.
Proof.
  assert (Hr : ∀ r, forallb flat (show_range r) = true) by (intros [[?|] [?|]]; reflexivity).
  unfold show_ranges. rewrite forallb_app. destruct rs as [|r rs]; [reflexivity|].
  rewrite forallb_app, Hr. rewrite forallb_flat_map; [reflexivity|]. intros q. exact (Hr q).
Qed.

Lemma depth_syn sy en : depth (show_syn sy en) = Some 0.
Proof.
  unfold show_syn. apply depth_app_0; [destruct sy as [[]| |]; reflexivity|]. apply depth_app_0.
  - destruct en; [reflexivity|apply depth_enums].
  - destruct (syntax_constraint sy) as [c|]; [|reflexivity]. unfold show_constraint.
    destruct (sizes c) as [|s ss]; apply depth_flat; cbn [forallb flat andb]; [apply flat_ranges|].
    rewrite forallb_app, flat_ranges. reflexivity.
Qed.

Lemma depth_defval dv : match dv with Some ts => default_ok ts | None => true end = true → depth (show_defval dv) = Some 0.
Proof.
  destruct dv as [ts|]; [|reflexivity]. unfold default_ok. intros [Hn Hw]%andb_true_iff.
  change (depth (show_defval (Some ts))) with (depth (TLBrace :: ts ++ [TRBrace])).
  apply depth_braces. rewrite (nested_depth ts 0) by assumption. reflexivity.
Qed.

Lemma depth_clauses d dv : match dv with Some ts => default_ok ts | None => true end = true →
  depth (show_clauses d dv) = Some 0.
Proof.
  intros Hdv.
  unfold show_clauses. change (depth (TIdent ?s :: ?x)) with (depth x).
  assert (Ho : ∀ w o, depth (show_opt w o) = Some 0) by (intros w [?|]; reflexivity).
  apply depth_app_0; [apply depth_syn|]. apply depth_app_0; [apply Ho|]. apply depth_app_0; [reflexivity|].
  apply depth_app_0; [apply Ho|]. apply depth_app_0; [apply Ho|]. apply depth_app_0; [|by apply depth_defval].
  destruct (od_index d) as [i|]; [|reflexivity]. destruct i as [s|l|s]; try reflexivity.
  cbn [show_index]. change (depth (TIdent ?s :: ?x)) with (depth x). apply depth_braces, depth_flat.
  destruct l as [|n l]; [reflexivity|]. cbn. apply (forallb_flat_map (fun n => [TComma; TIdent n])). reflexivity.
Qed.

Lemma clause_start_opt w o rest : clause_start rest = true → clause_start (show_opt w o ++ rest) = true.
Proof. destruct o; [reflexivity|done]. Qed.

Lemma clauses_show d dv oid rest :
  object_ok d dv = true →
  clauses (empty_def (od_name d) oid) (show_clauses d dv ++ TAssign :: rest)
  = mkObjectDef (od_name d) oid (od_syntax d) (od_units d) (od_max_access d) (od_status d) (od_description d)
      (od_reference d) (od_index d) (default_text <$> dv) (od_enums d) None.
Proof.
  intros [[[[Hsy Hi]%andb_true_iff Hdv]%andb_true_iff _]%andb_true_iff _]%andb_true_iff. unfold show_clauses.
  rewrite <- app_comm_cons, <- !app_assoc.
  rewrite clauses_syntax by (exact Hsy || (apply clause_start_opt; reflexivity)).
  rewrite clauses_units, clauses_access_status, clauses_description, clauses_reference, clauses_index by exact Hi.
  rewrite clauses_defval by exact Hdv.
  destruct d as [n o sy u a s de re i dv0 en m]. cbn [od_name od_syntax od_units od_max_access od_status
    od_description od_reference od_index od_enums]. 
  destruct u, de, re, i, en, dv; reflexivity.
Qed.

Definition with_oid (o : Oid) (d : ObjectDef) : ObjectDef :=
  mkObjectDef (od_name d) o (od_syntax d) (od_units d) (od_max_access d) (od_status d) (od_description d)
    (od_reference d) (od_index d) (od_defval d) (od_enums d) (od_module d).

Definition show_object (d : ObjectDef) (dv : option (list Tok)) (v : list Comp) : list Tok :=
  TIdent (od_name d) :: TIdent (str "OBJECT-TYPE") :: show_clauses d dv ++ TAssign :: show_spec v.

(** C40. An OBJECT-TYPE printed clause by clause is read back clause by clause:
    syntax with its enumeration and constraint, units, access, status,
    description, reference, index and default value; its OID is what its value
    resolves to. What cannot be printed so is left out by [object_ok] and
    [tok_ok]: a constraint has closed, non-negative sizes and non-negative
    ranges, and no word of an index or default value is that of a clause.
    [open_size_is_closed], [Mib.negative_range_rejects_zero] and
    [clause_word_as_index] show what the parser makes of the others. *)
Theorem object_def_roundtrip fuel d dv v seeds :
  object_ok d dv = true → forallb comp_ok v = true → forallb tok_ok (show_object d dv v) = true →
  parse_object_defs_with_seeds fuel (show_toks (show_object d dv v)) seeds =
  (let! o := resolve_inline fuel (name_map (show_object d dv v)) seeds v in Some [with_oid (default [] o) d]).
Proof.
  intros Hd Hv Ht. pose proof Hd as [[[_ Hdv]%andb_true_iff _]%andb_true_iff _]%andb_true_iff. unfold parse_object_defs_with_seeds. rewrite lex_show by exact Ht.
  generalize (name_map (show_object d dv v)). intros names. unfold show_object.
  assert (Ef : find_oid_assignment 0 (show_clauses d dv ++ TAssign :: show_spec v) = Some (v, [])).
  { rewrite (find_oid_skip 0) by (apply depth_clauses; exact Hdv). unfold show_spec.
    cbn [find_oid_assignment Z.add Z.eqb]. rewrite parse_oid_body_show by exact Hv. reflexivity. }
  remember (show_clauses d dv ++ TAssign :: show_spec v) as body eqn:Eb.
  assert (Es : object_step tt (TIdent (od_name d)) (TIdent (str "OBJECT-TYPE") :: body)
               = (Some (od_name d, body), tt, [])).
  { change (object_step tt (TIdent (od_name d)) (TIdent (str "OBJECT-TYPE") :: body))
      with (match find_oid_assignment 0 body with
            | Some (_, next) => (Some (od_name d, body), tt, next)
            | None => (Some (od_name d, body), tt, body) end).
    rewrite Ef. reflexivity. }
  rewrite (run_cons _ _ _ _ _ _ _ object_advances Es).
  rewrite run_nil. change (option_list (Some (od_name d, body)) ++ []) with [(od_name d, body)].
  cbn [parse_all]. unfold parse_one_object_def. rewrite Ef.
  destruct (resolve_inline fuel names seeds v) as [o|]; [|reflexivity]. cbn [mbind option_bind].
  fold (clauses (empty_def (od_name d) (default [] o)) body). rewrite Eb.
  rewrite clauses_show by exact Hd. destruct d as [n oo sy u a s de re i dv0 en m].
  unfold object_ok in Hd. cbn in Hd. apply andb_true_iff in Hd as [[_ Hdef]%andb_true_iff Hm].
  apply bool_decide_eq_true in Hdef as ->. apply bool_decide_eq_true in Hm as ->. reflexivity.
Qed.

Definition demo_object : ObjectDef :=
  mkObjectDef (str "ifAdmin") [] (SBase BInteger (Some (mkConstraint [(Some 1, Some 3)] []))) (Some (str "seconds"))
    ReadWrite Deprecated (Some (str "the {status} ::= x")) None (Some (Plain [str "ifIndex"; str "ifType"]))
    (Some (str "{ up , 3 }")) [(1, str "up"); (2, str "down")] None.

(** [DEFVAL { { up, 3 } }] *)
Definition demo_default : list Tok := [TLBrace; TIdent (str "up"); TComma; TNum 3; TRBrace].

Lemma object_def_roundtrip_witness :
  parse_object_defs_with_seeds 3 (show_toks (show_object demo_object (Some demo_default) [CName (str "iso"); CNumber 2])) ∅
  = Some [with_oid [1; 2] demo_object].
Proof.
  rewrite object_def_roundtrip by (vm_compute; reflexivity). vm_compute. reflexivity.
Defined.

(** A column named like a clause is read as the beginning of that clause. *)
Example clause_word_as_index :
  od_status <$> default [] (parse_object_defs_with_seeds 3
    (str "x OBJECT-TYPE SYNTAX INTEGER STATUS current INDEX { status deprecated } ::= { iso 3 }") ∅) = [Deprecated].
Proof. vm_compute. reflexivity. Qed.

(** ** The two readings agree *)

Definition def_pair (d : RawDef) : text * list Comp := (def_name d, spec d).

Lemma name_skip l t r :
  name_step l t r = (None, l, r) → run name_step l (t :: r) = run name_step l r.
Proof. intros E. rewrite (run_cons _ _ _ _ _ _ _ name_advances E). reflexivity. Qed.

(** Inside an enumeration, which the other scan skips, there is nothing to find. *)
Lemma name_enum l ts ps r : parse_enum_body ts = Some (ps, r) → run name_step l ts = run name_step l r.
Proof.
  revert ps r. induction ts as [ts IH] using (induction_ltof1 _ (@length Tok)). unfold ltof in IH.
  intros ps r E. destruct ts as [|t ts]; [discriminate|].
  cbn in E. repeat case_match; simplify_eq; [rewrite !name_skip by reflexivity; reflexivity|].
  match goal with
  | E : mbind _ (parse_enum_body ?x) = Some _ |- _ =>
      destruct (parse_enum_body x) as [[ps' r']|] eqn:E'; cbn in E; [|discriminate];
      simplify_eq; apply IH in E'; [rewrite !name_skip by reflexivity; exact E' | cbn; lia]
  end.
Qed.

(** What the turns of the two scans have in common. *)
Lemma name_scan_step l e t r :
  (∃ d st' r', scan_step (mkScan l e) t r = (d, st', r') ∧
     name_step l t r = (def_pair <$> d, label st', r')) ∨
  (∃ ps r', scan_step (mkScan l e) t r = (None, mkScan l (Some ps), r') ∧
     parse_enum_body r = Some (ps, r') ∧ name_step l t r = (None, l, r)).
Proof.
  unfold scan_step, name_step. cbn [label enum].
  destruct (match t with TIdent n => _ | _ => None end) as [[st' r']|] eqn:Em.
  { left. exists None, st', r'. split; [reflexivity|].
    destruct t as [n| | | | | | | | | | |]; [|discriminate Em ..].
    destruct r as [|[k| | | | | | | | | | |] r]; [discriminate Em| |discriminate Em ..].
    destruct (bool_decide (k = str "MACRO")); [|destruct (is_macro_keyword k); [|discriminate Em]];
      injection Em as <- <-; reflexivity. }
  assert (En : match t, r with
    | TIdent n, TIdent k :: r' =>
        if bool_decide (k = str "MACRO") then Some (None, skip_macro r')
        else if is_macro_keyword k then Some (Some n, r') else None
    | _, _ => None end = None).
  { destruct t as [n| | | | | | | | | | |]; try reflexivity.
    destruct r as [|[k| | | | | | | | | | |] r]; try reflexivity.
    destruct (bool_decide (k = str "MACRO")); [discriminate Em|].
    destruct (is_macro_keyword k); [discriminate Em|reflexivity]. }
  rewrite En. clear En Em.
  destruct (oid_assignment (t :: r)) as [[d r']|] eqn:Ea.
  { left. exists (Some d), idle, r'. split; reflexivity. }
  destruct (match t with TLBrace => _ | _ => None end) as [[ps r']|] eqn:Ec.
  - right. exists ps, r'. destruct t; try discriminate. destruct l; [|discriminate]. destruct e; [discriminate|].
    split_and!; [reflexivity|exact Ec|reflexivity].
  - left. destruct t; try (exists None, (mkScan l e), r; split; reflexivity).
    destruct r as [|[] r]; try (exists None, (mkScan l e); eexists; split; reflexivity).
    destruct l as [l|]; cbn [mbind option_bind]; [|exists None, idle; eexists; split; reflexivity].
    destruct (parse_oid_body r) as [[v r']|]; cbn [mbind option_bind].
    + exists (Some (mkRawDef l v e)), idle, r'. split; reflexivity.
    + exists None, idle. eexists. split; reflexivity.
Qed.

Lemma name_scan l e ts : run name_step l ts = def_pair <$> run scan_step (mkScan l e) ts.
Proof.
  revert l e. induction ts as [ts IH] using (induction_ltof1 _ (@length Tok)). unfold ltof in IH.
  intros l e. destruct ts as [|t r]; [reflexivity|].
  destruct (name_scan_step l e t r) as [(d & [l' e'] & r' & Es & En)|(ps & r' & Es & Eb & En)].
  - pose proof (scan_advances (mkScan l e) t r) as Hl. rewrite Es in Hl. cbn in Hl.
    rewrite (run_cons _ _ _ _ _ _ _ name_advances En), (run_cons _ _ _ _ _ _ _ scan_advances Es).
    rewrite fmap_app. cbn [label]. rewrite (IH r' ltac:(cbn; lia) l' e'). destruct d; reflexivity.
  - rewrite (run_cons _ _ _ _ _ _ _ name_advances En), (run_cons _ _ _ _ _ _ _ scan_advances Es).
    cbn [option_list app]. rewrite (name_enum l r ps r' Eb).
    apply parse_enum_body_length in Eb. change (option_list None ++ ?x) with x.
    rewrite (IH r' ltac:(cbn; lia) l (Some ps)). reflexivity.
Qed.

(** The names of the semantic reading are the definitions of the other one. *)
Lemma name_map_module ts : name_map ts = first_specs (def_pair <$> parse_module ts).
Proof. unfold name_map, parse_module. rewrite (name_scan None None). reflexivity. Qed.

Lemma first_specs_from (l : list (text * list Comp)) (m : specs_map) n s :
  NoDup l.*1 → (∀ x, x ∈ l.*1 → m !! x = None) →
  (fold_left (fun m p => match m !! p.1 with Some _ => m | None => <[p.1 := p.2]> m end) l m !! n = Some s
   ↔ m !! n = Some s ∨ (n, s) ∈ l).
Proof.
  revert m. induction l as [|[k v] l IH]; intros m Hu Hm; cbn [fold_left fst snd fmap list_fmap] in *.
  - split; [auto|]. intros [?|H%not_elem_of_nil]; [done|contradiction].
  - apply NoDup_cons in Hu as [Hk Hu]. rewrite Hm by left. rewrite IH; [|exact Hu|].
    + rewrite lookup_insert_Some, elem_of_cons. split.
      * intros [[[<- <-]|[? ?]]|?]; auto.
      * intros [H|[[= -> ->]|?]]; [|auto|auto]. left. right. split; [|done]. intros <-.
        rewrite Hm in H by left. discriminate.
    + intros x Hx. rewrite lookup_insert_ne by (intros ->; contradiction). apply Hm. by right.
Qed.

Lemma lookup_first_specs defs n s :
  NoDup (def_name <$> defs) →
  (first_specs (def_pair <$> defs) !! n = Some s ↔ ∃ d, d ∈ defs ∧ def_name d = n ∧ spec d = s).
Proof.
  intros Hu. unfold first_specs. rewrite first_specs_from.
  - rewrite lookup_empty, list_elem_of_fmap. unfold def_pair. split.
    + intros [?|(d & [= -> ->] & Hd)]; [discriminate|eauto].
    + intros (d & Hd & <- & <-). eauto.
  - rewrite <- list_fmap_compose. exact Hu.
  - intros x _. apply lookup_empty.
Qed.

Lemma well_known_roots n : seed_roots !! n = match well_known n with Some [CNumber v] => Some [v] | _ => None end.
Proof.
  unfold seed_roots, well_known. rewrite !lookup_insert, lookup_empty.
  repeat match goal with
    | |- context [decide (?a = n)] => destruct (decide (a = n)) as [<-|?]; [reflexivity|]
    end.
  rewrite !bool_decide_eq_false_2 by congruence. reflexivity.
Qed.

Lemma resolve_value_mono (rec rec' : list Comp → option (option Oid)) names seeds sp r :
  (∀ s r, rec s = Some r → rec' s = Some r) →
  resolve_value rec names seeds sp = Some r → resolve_value rec' names seeds sp = Some r.
Proof.
  intros Hr. destruct sp as [|c cs]; [done|]. cbn [resolve_value].
  assert (Hh : ∀ n x, resolve_head rec names seeds n = Some x → resolve_head rec' names seeds n = Some x).
  { intros n x. unfold resolve_head.
    assert (Hm : ∀ o y, match o with Some s => rec s | None => Some None end = Some y →
      match o with Some s => rec' s | None => Some None end = Some y) by (intros [s|] y; auto).
    destruct (match names !! n with Some _ => _ | None => _ end) as [via|] eqn:E; [|discriminate]. rewrite (Hm _ _ E).
    cbn [mbind option_bind]. destruct via as [o|]; [done|].
    destruct (match well_known n with Some _ => _ | None => _ end) as [root|] eqn:E'; [|discriminate]. rewrite (Hm _ _ E'). done. }
  destruct c as [v|n|n v]; [done| |].
  - destruct (resolve_head rec names seeds n) as [x|] eqn:E; [|discriminate]. rewrite (Hh _ _ E). done.
  - destruct (resolve_head rec names seeds n) as [x|] eqn:E; [|discriminate]. rewrite (Hh _ _ E). done.
Qed.

Lemma resolve_inline_mono f g names seeds sp r :
  (f <= g)%nat → resolve_inline f names seeds sp = Some r → resolve_inline g names seeds sp = Some r.
Proof.
  revert g sp r. induction f as [|f IH]; intros g sp r Hg; [discriminate|].
  destruct g as [|g]; [lia|]. apply resolve_value_mono. intros s r'. apply IH. lia.
Qed.

Section Inline.
Context (defs : list RawDef) (seeds : names_map).
Hypothesis unique : NoDup (def_name <$> defs).
Let base : names_map := seed_roots ∪ seeds.
Hypothesis plain : Forall (head_fixed defs base) defs.
Hypothesis fresh : ∀ d, d ∈ defs → base !! def_name d = None.
Let names : specs_map := first_specs (def_pair <$> defs).

Lemma fresh_roots d : d ∈ defs → well_known (def_name d) = None ∧ seeds !! def_name d = None.
Proof using fresh.
  intros Hd. pose proof (fresh d Hd) as E. unfold base in E. apply lookup_union_None in E as [E ->].
  split; [|reflexivity]. rewrite well_known_roots in E. unfold well_known in *.
  repeat case_match; first [reflexivity|discriminate].
Qed.

(** The value of a name the module does not define. *)
Lemma resolve_head_base k n : names !! n = None →
  resolve_head (resolve_inline (S k) names seeds) names seeds n = Some (base !! n).
Proof using Type.
  intros En. unfold resolve_head. rewrite En. cbn [mbind option_bind]. unfold base.
  destruct (well_known n) as [s|] eqn:Ew.
  - assert (Hs : ∃ v, s = [CNumber v])
      by (unfold well_known in Ew; repeat case_match; simplify_eq; eauto).
    destruct Hs as [v ->]. cbn.
    rewrite (lookup_union_Some_l _ _ n [v]) by (rewrite well_known_roots, Ew; reflexivity). reflexivity.
  - cbn [mbind option_bind]. rewrite lookup_union_r by (rewrite well_known_roots, Ew; reflexivity). reflexivity.
Qed.

Lemma undefined_known n o : base !! n = Some o → names !! n = None.
Proof using unique fresh.
  intros Eb. destruct (names !! n) as [s|] eqn:E; [|reflexivity].
  apply lookup_first_specs in E as (d & Hd & <- & _); [|exact unique]. rewrite fresh in Eb by exact Hd. discriminate.
Qed.

Lemma undefined_new n : n ∉ def_name <$> defs → names !! n = None.
Proof using unique.
  intros Hn. destruct (names !! n) as [s|] eqn:E; [|reflexivity].
  apply lookup_first_specs in E as (d & Hd & <- & _); [|exact unique]. destruct Hn. by apply list_elem_of_fmap_2.
Qed.

(** With any fuel, a name the module does not define has its value or none yet. *)
Lemma resolve_head_undefined k n r : names !! n = None →
  resolve_head (resolve_inline k names seeds) names seeds n = Some r → r = base !! n.
Proof using Type.
  intros En E. destruct k as [|k]; [|rewrite resolve_head_base in E by exact En; by simplify_eq].
  unfold resolve_head in E. rewrite En in E. cbn [mbind option_bind] in E.
  destruct (well_known n) as [w|] eqn:Ew; cbn in E; [discriminate|]. simplify_eq. unfold base.
  rewrite lookup_union_r by (rewrite well_known_roots, Ew; reflexivity). reflexivity.
Qed.

Lemma inline_complete s o :
  denotes defs base s o → ∃ k, resolve_inline k names seeds s = Some (Some o).
Proof using unique fresh.
  assert (Hb : ∀ n, names !! n = None →
    resolve_head (resolve_inline 1 names seeds) names seeds n = Some (base !! n))
    by (intros n Hn; exact (resolve_head_base 0 n Hn)).
  induction 1 as [v cs tl Ht|n o cs tl Hn Ht Hne|d o cs tl Hn Hd Ho [k IH] Ht|n v o cs tl Hn Ht Hne|n v cs tl Hn Hnew Ht].
  - exists 1%nat. cbn. rewrite Ht. reflexivity.
  - exists 2%nat. change (resolve_inline 2) with (λ m s c, resolve_value (resolve_inline 1 m s) m s c).
    cbv beta. cbn [resolve_value]. rewrite (Hb n (undefined_known n o Hn)), Hn.
    cbn [mbind option_bind]. rewrite Ht. cbn. destruct (o ++ tl); [contradiction|reflexivity].
  - exists (S k). cbn [resolve_inline resolve_value]. unfold resolve_head.
    assert (En : names !! def_name d = Some (spec d)) by (apply lookup_first_specs; eauto).
    rewrite En, IH. cbn [mbind option_bind]. rewrite Ht. cbn.
    pose proof (denotes_nonempty _ _ _ _ Ho). destruct o; [contradiction|reflexivity].
  - exists 2%nat. change (resolve_inline 2) with (λ m s c, resolve_value (resolve_inline 1 m s) m s c).
    cbv beta. cbn [resolve_value]. rewrite (Hb n (undefined_known n o Hn)), Hn.
    cbn [mbind option_bind default]. rewrite Ht. cbn. destruct (o ++ tl); [contradiction|reflexivity].
  - exists 2%nat. change (resolve_inline 2) with (λ m s c, resolve_value (resolve_inline 1 m s) m s c).
    cbv beta. cbn [resolve_value]. rewrite (Hb n (undefined_new n Hnew)), Hn.
    cbn [mbind option_bind default]. rewrite Ht. reflexivity.
Qed.

Lemma inline_sound k s o :
  match s with CNamed n _ :: _ => is_Some (base !! n) ∨ n ∉ def_name <$> defs | _ => True end →
  resolve_inline k names seeds s = Some (Some o) → denotes defs base s o.
Proof using unique plain fresh.
  revert s o. induction k as [|k IH]; intros s o Hp E; [discriminate|]. cbn [resolve_inline] in E.
  destruct s as [|[v|n|n v] cs]; cbn [resolve_value mbind option_bind] in E; [discriminate| | |].
  - destruct (tail_arcs cs) as [tl|] eqn:Et; cbn in E; [|discriminate]. simplify_eq. by constructor.
  - destruct (names !! n) as [s|] eqn:En.
    + unfold resolve_head in E. rewrite En in E.
      apply lookup_first_specs in En as (d & Hd & <- & <-); [|exact unique].
      destruct (fresh_roots d Hd) as [Ew Es]. rewrite Ew, Es in E.
      destruct (resolve_inline k names seeds (spec d)) as [[p|]|] eqn:Er; cbn in E; try discriminate.
      destruct (tail_arcs cs) as [tl|] eqn:Et; cbn in E; [|discriminate].
      assert (o = p ++ tl) as -> by (destruct (p ++ tl); by simplify_eq).
      apply IH in Er; [|rewrite Forall_forall in plain; exact (plain d Hd)].
      eapply denotes_defined; eauto.
    + destruct (resolve_head _ names seeds n) as [r|] eqn:Eh; [|discriminate].
      apply resolve_head_undefined in Eh as ->; [|exact En]. cbn [mbind option_bind] in E.
      destruct (base !! n) as [p|] eqn:Eb; cbn [mbind option_bind] in E; [|discriminate].
      destruct (tail_arcs cs) as [tl|] eqn:Et; cbn [mbind option_bind] in E; [|discriminate].
      assert (Hne : p ++ tl ≠ [] ∧ o = p ++ tl) by (destruct (p ++ tl); by simplify_eq). destruct Hne as [Hne ->].
      by apply denotes_known.
  - assert (En : names !! n = None) by (destruct Hp as [[p Hp]|Hp]; [exact (undefined_known n p Hp)|exact (undefined_new n Hp)]).
    destruct (resolve_head _ names seeds n) as [r|] eqn:Eh; [|discriminate].
    apply resolve_head_undefined in Eh as ->; [|exact En]. cbn [mbind option_bind] in E.
    destruct (tail_arcs cs) as [tl|] eqn:Et; cbn [mbind option_bind] in E; [|discriminate].
    destruct (base !! n) as [p|] eqn:Eb; cbn in E.
    + assert (Hne : p ++ tl ≠ [] ∧ o = p ++ tl) by (destruct (p ++ tl); by simplify_eq). destruct Hne as [Hne ->].
      by apply denotes_named_known.
    + destruct Hp as [[? ?]|Hp]; [congruence|]. simplify_eq. by apply denotes_named_new.
Qed.
End Inline.

(** The two readings of a module agree: an object the OID path resolves, with
    distinct new names and its named-number heads known or defined nowhere, is
    given the same OID by the recursive resolution of the semantic path, which then returns; and what
    that resolution returns is what the OID path computes. *)
Theorem inline_agrees input seeds d o :
  let defs := parse_module (lex input) in
  NoDup (def_name <$> defs) → Forall (head_fixed defs (seed_roots ∪ seeds)) defs →
  (∀ d, d ∈ defs → (seed_roots ∪ seeds) !! def_name d = None) → d ∈ defs →
  (object_of d o ∈ parse_text_with_seeds input seeds ↔
   ∃ k, resolve_inline k (name_map (lex input)) seeds (spec d) = Some (Some o)).
Proof.
  intros defs Hu Hp Hf Hd. unfold parse_text_with_seeds. fold defs. rewrite name_map_module. fold defs.
  rewrite resolve_spec by assumption. split.
  - intros (d' & o' & Hd' & Heq & Hden). unfold object_of in Heq. simplify_eq.
    assert (d' = d) as -> by (eapply same_def; eauto). by apply inline_complete.
  - intros [k E]. exists d, o. split_and!; [exact Hd|reflexivity|].
    eapply inline_sound; eauto. rewrite Forall_forall in Hp. exact (Hp d Hd).
Qed.

Definition two_lines : text :=
  str "dod OBJECT IDENTIFIER ::= { org 6 } org OBJECT IDENTIFIER ::= { iso 3 }".

Lemma inline_agrees_witness :
  ∃ k, resolve_inline k (name_map (lex two_lines)) ∅ [CName (str "org"); CNumber 6] = Some (Some [1; 3; 6]).
Proof.
  pose proof (inline_agrees two_lines ∅ (mkRawDef (str "dod") [CName (str "org"); CNumber 6] None) [1; 3; 6]) as H.
  cbv zeta in H. apply H.
  - apply (bool_decide_eq_true_1 _). vm_compute. reflexivity.
  - assert (E : parse_module (lex two_lines) =
      [mkRawDef (str "dod") [CName (str "org"); CNumber 6] None; mkRawDef (str "org") [CName (str "iso"); CNumber 3] None])
      by (vm_compute; reflexivity).
    rewrite E. repeat (apply Forall_cons; split; [exact I|]). apply Forall_nil_2.
  - apply Forall_forall.
    apply (bool_decide_eq_true_1 (Forall (λ d, (seed_roots ∪ ∅) !! def_name d = None) (parse_module (lex two_lines)))).
    vm_compute. reflexivity.
  - apply (bool_decide_eq_true_1 (_ ∈ parse_module (lex two_lines))). vm_compute. reflexivity.
  - apply (bool_decide_eq_true_1 _). vm_compute. reflexivity.
Defined.

(** ** Names that lead back to themselves *)

Lemma resolve_head_loops names seeds n s k :
  names !! n = Some s → resolve_inline k names seeds s = None →
  resolve_head (resolve_inline k names seeds) names seeds n = None.
Proof. intros En Es. unfold resolve_head. rewrite En, Es. reflexivity. Qed.

(** Names each of which is defined under another of them. *)
Definition circular (names : specs_map) (P : gset (list Z)) : Prop :=
  ∀ n, n ∈ P → ∃ m cs, names !! n = Some (CName m :: cs) ∧ m ∈ P.

Lemma circular_loops names seeds P n cs k :
  circular names P → n ∈ P → resolve_inline k names seeds (CName n :: cs) = None.
Proof.
  intros Hc. revert n cs. induction k as [|k IH]; intros n cs Hn; [reflexivity|].
  destruct (Hc n Hn) as (m & cs' & En & Hm). cbn [resolve_inline resolve_value].
  rewrite (resolve_head_loops _ _ _ _ _ En (IH m cs' Hm)). reflexivity.
Qed.

(** An object whose chain of parents stays among names defined under one
    another is never given an OID and never given up: the recursion of the
    semantic reading has no depth at which it returns. *)
Theorem circular_module_diverges fuel names seeds body n m cs next P :
  find_oid_assignment 0 body = Some (CName m :: cs, next) → circular names P → m ∈ P →
  parse_one_object_def fuel body n names seeds = None.
Proof.
  intros E Hc Hm. unfold parse_one_object_def. rewrite E.
  rewrite (circular_loops _ _ _ _ _ _ Hc Hm). reflexivity.
Qed.

(** A module of one line, for which the documentation promises a result. *)
Lemma circular_module_diverges_witness :
  length (lex (str "a OBJECT-TYPE ::= { a 1 }")) = 7%nat ∧
  ∀ fuel, parse_object_defs fuel (str "a OBJECT-TYPE ::= { a 1 }") = None.
Proof.
  split; [vm_compute; reflexivity|].
  intros fuel. unfold parse_object_defs, parse_object_defs_with_seeds.
  set (ts := lex _).
  assert (En : name_map ts = {[str "a" := [CName (str "a"); CNumber 1]]}) by (vm_compute; reflexivity).
  assert (Eb : run object_step tt ts =
    [(str "a", [TAssign; TLBrace; TIdent (str "a"); TNum 1; TRBrace])]) by (vm_compute; reflexivity).
  rewrite En, Eb. cbn [parse_all].
  rewrite (circular_module_diverges fuel {[str "a" := [CName (str "a"); CNumber 1]]} ∅ 
    [TAssign; TLBrace; TIdent (str "a"); TNum 1; TRBrace] (str "a") (str "a") [CNumber 1] [] {[str "a"]});
    [reflexivity|vm_compute; reflexivity| |].
  - intros x Hx. apply elem_of_singleton in Hx as ->. exists (str "a"), [CNumber 1].
    split; [apply lookup_singleton_eq|by apply elem_of_singleton].
  - by apply elem_of_singleton.
Defined.

(** [SEQUENCE OF] takes four tokens where three are its own: a table's next
    keyword is lost, here its access. *)
Example sequence_of_skips_a_keyword :
  map od_max_access <$> parse_object_defs 3 (str "t OBJECT-TYPE SYNTAX SEQUENCE OF E MAX-ACCESS read-only ::= { iso 1 }")
  = Some [NotAccessible].
Proof. vm_compute. reflexivity. Qed.

(** [IMPLIED] is only known before the first column. *)
Example implied_after_a_column :
  parse_index (lex (str "{ a, IMPLIED b }")) = Some (Plain [str "a"; str "IMPLIED"; str "b"]).
Proof. vm_compute. reflexivity. Qed.
