(* ===== verification/Mib.v ===== *)
(** * The MIB registry ([crates/netsnmp/src/mib.rs])

    Names to OIDs and back, enumerations, structured definitions and textual
    conventions, filled from module text by the two readings of [Smi] and
    [SmiDefs]. The BTreeMaps are finite maps; where the code iterates over one,
    the order is shown not to matter or the keys are sorted.

    [load_str] and [validate_value] carry the fuel of the recursions they call
    ([resolve_inline], [effective_syntax]); [None] is a recursion that does not
    return. Reading files is not modelled: a directory is the list of its
    readable texts in path order. *)

From Stdlib Require Import ZArith Lia.
From S2P Require Import Prelude MachineInts Text Oid Value Smi SmiDefs.

Local Open Scope list_scope.

Record MibRegistry := mkMib {
  by_name : names_map;
  by_oid : gmap (list Z) (list Z);
  enums : gmap (list Z) (list (Z * text));
  object_defs : gmap (list Z) ObjectDef;
  tcs : gmap (list Z) TextualConvention;
  module_of : gmap (list Z) (list Z) }.

Definition new : MibRegistry := mkMib ∅ ∅ ∅ ∅ ∅ ∅.

Inductive ConstraintError :=
| Unknown (oid : Oid)
| WrongType (expected actual : text)
| OutOfRange (value : Z)
| WrongSize (len : Z).

(** [entry(k).or_insert(v)] *)
Definition keep_first {V} (k : list Z) (v : V) (m : gmap (list Z) V) : gmap (list Z) V :=
  match m !! k with Some _ => m | None => <[k := v]> m end.

Definition insert (name : text) (oid : Oid) (r : MibRegistry) : MibRegistry :=
  mkMib (<[name := oid]> (by_name r)) (<[oid := name]> (by_oid r)) (enums r) (object_defs r) (tcs r) (module_of r).

Definition BUILTINS : list (string * string) :=
  [("iso", "1"); ("org", "1.3"); ("dod", "1.3.6"); ("internet", "1.3.6.1"); ("directory", "1.3.6.1.1");
   ("mgmt", "1.3.6.1.2"); ("mib-2", "1.3.6.1.2.1"); ("system", "1.3.6.1.2.1.1");
   ("sysDescr", "1.3.6.1.2.1.1.1"); ("sysObjectID", "1.3.6.1.2.1.1.2"); ("sysUpTime", "1.3.6.1.2.1.1.3");
   ("sysContact", "1.3.6.1.2.1.1.4"); ("sysName", "1.3.6.1.2.1.1.5"); ("sysLocation", "1.3.6.1.2.1.1.6");
   ("sysServices", "1.3.6.1.2.1.1.7"); ("interfaces", "1.3.6.1.2.1.2"); ("ifNumber", "1.3.6.1.2.1.2.1");
   ("ifTable", "1.3.6.1.2.1.2.2"); ("ifEntry", "1.3.6.1.2.1.2.2.1"); ("ifIndex", "1.3.6.1.2.1.2.2.1.1");
   ("ifDescr", "1.3.6.1.2.1.2.2.1.2"); ("ifType", "1.3.6.1.2.1.2.2.1.3"); ("ifMtu", "1.3.6.1.2.1.2.2.1.4");
   ("ifSpeed", "1.3.6.1.2.1.2.2.1.5"); ("ifPhysAddress", "1.3.6.1.2.1.2.2.1.6");
   ("ifOperStatus", "1.3.6.1.2.1.2.2.1.8"); ("ifInOctets", "1.3.6.1.2.1.2.2.1.10");
   ("ifOutOctets", "1.3.6.1.2.1.2.2.1.16"); ("ip", "1.3.6.1.2.1.4"); ("icmp", "1.3.6.1.2.1.5");
   ("tcp", "1.3.6.1.2.1.6"); ("udp", "1.3.6.1.2.1.7"); ("snmp", "1.3.6.1.2.1.11"); ("host", "1.3.6.1.2.1.25");
   ("hrSystemUptime", "1.3.6.1.2.1.25.1.1"); ("hrStorageTable", "1.3.6.1.2.1.25.2.3");
   ("private", "1.3.6.1.4"); ("enterprises", "1.3.6.1.4.1"); ("netSnmp", "1.3.6.1.4.1.8072")]%string.

(** [None] is the panic of [expect("valid builtin OID")]. *)
Definition with_builtins : option MibRegistry :=
  fold_left (fun r p => let! r := r in
    match Oid.from_str (str p.2) with Ok o => Some (insert (str p.1) o r) | Err _ => None end)
    BUILTINS (Some new).

Definition insert_enum (oid : Oid) (pairs : list (Z * text)) (r : MibRegistry) : MibRegistry :=
  match pairs with
  | [] => r
  | _ => mkMib (by_name r) (by_oid r) (<[oid := pairs]> (enums r)) (object_defs r) (tcs r) (module_of r)
  end.

Definition add_object (r : MibRegistry) (o : MibObject) : MibRegistry :=
  let r1 := mkMib (keep_first (obj_name o) (obj_oid o) (by_name r)) (keep_first (obj_oid o) (obj_name o) (by_oid r))
              (enums r) (object_defs r) (tcs r) (module_of r) in
  match obj_enums o with Some pairs => insert_enum (obj_oid o) pairs r1 | None => r1 end.

Definition add_objects (objects : list MibObject) (r : MibRegistry) : MibRegistry * Z :=
  (fold_left add_object objects r, Z.of_nat (length objects)).

Fixpoint module_name (ts : list Tok) : option text :=
  match ts with
  | TIdent name :: ((TIdent kw :: _) as r) =>
      if same_word kw (str "DEFINITIONS") && negb (bool_decide (name = [])) then Some name else module_name r
  | _ :: r => module_name r
  | [] => None
  end.
Definition module_name_of (input : text) : option text := module_name (lex input).

Definition set_module (m : option text) (d : ObjectDef) : ObjectDef :=
  match m with
  | None => d
  | Some _ =>
      mkObjectDef (od_name d) (od_oid d) (od_syntax d) (od_units d) (od_max_access d) (od_status d)
        (od_description d) (od_reference d) (od_index d) (od_defval d) (od_enums d) m
  end.

Definition ingest_def (module : option text) (r : MibRegistry) (d : ObjectDef) : MibRegistry :=
  if Oid.is_empty (od_oid d) then r
  else mkMib (by_name r) (by_oid r) (enums r) (keep_first (od_oid d) (set_module module d) (object_defs r)) (tcs r)
         (match module with Some m => keep_first (od_oid d) m (module_of r) | None => module_of r end).

Definition ingest_tc (r : MibRegistry) (t : TextualConvention) : MibRegistry :=
  mkMib (by_name r) (by_oid r) (enums r) (object_defs r) (keep_first (tc_name t) t (tcs r)) (module_of r).

Definition ingest_semantic (fuel : nat) (input : text) (r : MibRegistry) : option MibRegistry :=
  let! defs := parse_object_defs_with_seeds fuel input (by_name r) in
  Some (fold_left ingest_tc (parse_textual_conventions input)
          (fold_left (ingest_def (module_name_of input)) defs r)).

Definition load_str (fuel : nat) (input : text) (r : MibRegistry) : option (MibRegistry * Z) :=
  let '(r1, added) := add_objects (parse_text_with_seeds input (by_name r)) r in
  let! r2 := ingest_semantic fuel input r1 in
  Some (r2, added).

(** The texts of a directory, pooled. *)
Definition combine (texts : list text) : text := flat_map (fun t => t ++ [10]) texts.
Definition load_dir (fuel : nat) (texts : list text) (r : MibRegistry) : option (MibRegistry * Z) :=
  load_str fuel (combine texts) r.
Definition from_dir (fuel : nat) (texts : list text) : option MibRegistry :=
  let! r := with_builtins in
  let! (r', _) := load_dir fuel texts r in Some r'.

(** ** Queries *)

Definition parent_oid (o : Oid) : option Oid :=
  if (length o <=? 1)%nat then None else Some (removelast o).

(** The instance OID, then its parent column's. *)
Definition candidates (o : Oid) : list Oid := o :: option_list (parent_oid o).

Definition enums_for (r : MibRegistry) (o : Oid) : option (list (Z * text)) := enums r !! o.

Definition enum_label (r : MibRegistry) (n : Z) (o : Oid) : option text :=
  let! pairs := enums r !! o in
  let! (_, l) := find (fun p => p.1 =? n) pairs in Some l.

Definition format_value (r : MibRegistry) (o : Oid) (v : Value) : text :=
  match v with
  | VInteger n =>
      match list_find_map (enum_label r n) (candidates o) with
      | Some l => str "INTEGER: " ++ l ++ str "(" ++ show_i n ++ str ")"
      | None => value_display v
      end
  | _ => value_display v
  end.

Definition name_to_oid (r : MibRegistry) (name : text) : option Oid := by_name r !! name.
Definition oid_to_name (r : MibRegistry) (o : Oid) : option text := by_oid r !! o.
Definition textual_convention (r : MibRegistry) (name : text) : option TextualConvention := tcs r !! name.

(** [iter_oids]: the pairs in the order of the BTreeMap. *)
Definition iter_oids (r : MibRegistry) : list (Oid * text) :=
  sort_by (fun a b => Oid.leb a.1 b.1) (map_to_list (by_oid r)).

Definition object_def (r : MibRegistry) (o : Oid) : option ObjectDef :=
  list_find_map (fun c => object_defs r !! c) (candidates o).

Definition is_writable (r : MibRegistry) (o : Oid) : bool :=
  match object_def r o with
  | Some d => bool_decide (od_max_access d = ReadWrite) || bool_decide (od_max_access d = ReadCreate)
  | None => false
  end.

Definition base_type_label (b : BaseType) : text :=
  match b with
  | BInteger => str "INTEGER" | BOctetString => str "OCTET STRING" | BOid => str "OBJECT IDENTIFIER"
  | BIpAddress => str "IpAddress" | BCounter32 => str "Counter32" | BGauge32 => str "Gauge32"
  | BTimeTicks => str "TimeTicks" | BOpaque => str "Opaque" | BCounter64 => str "Counter64"
  | BNull => str "NULL" | BUnsigned32 => str "Unsigned32"
  end.

Definition types_compatible (declared : BaseType) (v : Value) : bool :=
  match declared, v with
  | BInteger, VInteger _ | BOctetString, VOctetString _ | BOid, VOid _ | BIpAddress, VIpAddress _
  | BCounter32, VCounter32 _ | (BGauge32 | BUnsigned32), VGauge32 _ | BTimeTicks, VTimeTicks _
  | BOpaque, VOpaque _ | BCounter64, VCounter64 _ | BNull, VNull => true
  | BIpAddress, VOctetString b => Z.of_nat (length b) =? 4
  | _, _ => false
  end.

Definition merge_constraints (a b : option Constraint) : option Constraint :=
  match a, b with
  | None, None => None
  | Some c, None | None, Some c => Some c
  | Some a, Some b => Some (mkConstraint (ranges a ++ ranges b) (sizes a ++ sizes b))
  end.

(** [None]: the chain of conventions has not ended within the fuel. *)
Fixpoint effective_syntax (fuel : nat) (r : MibRegistry) (sy : Syntax) : option (BaseType * option Constraint) :=
  match fuel with
  | O => None
  | S f =>
      match sy with
      | SBase bt c => Some (bt, c)
      | STc name inline =>
          match tcs r !! name with
          | Some tc =>
              let! (bt, base_c) := effective_syntax f r (tc_base tc) in
              Some (bt, merge_constraints base_c inline)
          | None => Some (BInteger, inline)
          end
      | SSequence => Some (BNull, None)
      end
  end.

Definition validate_value (fuel : nat) (r : MibRegistry) (o : Oid) (v : Value)
  : option (result unit ConstraintError) :=
  match object_def r o with
  | None => Some (Err (Unknown o))
  | Some def =>
      let! (base, constraint) := effective_syntax fuel r (od_syntax def) in
      Some (if negb (types_compatible base v) then Err (WrongType (base_type_label base) (type_name v))
            else match constraint, v with
                 | Some c, VInteger n => if check_int c n then Ok tt else Err (OutOfRange n)
                 | Some c, VOctetString b =>
                     let len := Z.of_nat (length b) in
                     if check_size c len then Ok tt else Err (WrongSize len)
                 | _, _ => Ok tt
                 end)
  end.

(** ** Translation *)

Fixpoint split_once_dot (s : text) : option (text * text) :=
  match s with
  | [] => None
  | c :: s' =>
      if c =? 46 then Some ([], s')
      else let! (a, b) := split_once_dot s' in Some (c :: a, b)
  end.

Fixpoint parse_arcs (ts : list text) : option Oid :=
  match ts with
  | [] => Some []
  | t :: ts' => let! n := parse_unsigned u32_max t in let! l := parse_arcs ts' in Some (n :: l)
  end.

Definition translate (r : MibRegistry) (input : text) : option Oid :=
  let s := trim_start_matches (fun c => c =? 46) (trim input) in
  match s with
  | c :: _ =>
      if is_ascii_digit c then match Oid.from_str s with Ok o => Some o | Err _ => None end
      else
        let '(name, suffix) := match split_once_dot s with Some (n, x) => (n, Some x) | None => (s, None) end in
        let! base := name_to_oid r name in
        match suffix with
        | None => Some base
        | Some x => let! arcs := parse_arcs (split 46 x) in Some (base ++ arcs)
        end
  | [] => name_to_oid r []
  end.

(** The candidate replaces the best so far when it is longer. *)
Definition longer (o : Oid) (best : option (Oid * text)) (p : Oid * text) : option (Oid * text) :=
  if Oid.is_prefix_of p.1 o then
    match best with
    | Some b => if (length p.1 <=? length b.1)%nat then best else Some p
    | None => Some p
    end
  else best.

Definition longest_prefix (r : MibRegistry) (o : Oid) : option (Oid * text) :=
  fold_left (longer o) (iter_oids r) None.

Definition render_with_suffix (name : text) (o : Oid) (prefix_len : nat) : text :=
  if (length o <=? prefix_len)%nat then name
  else name ++ 46 :: join [46] (show_u <$> drop prefix_len o).

Definition render_named (f : text → text) (r : MibRegistry) (o : Oid) : text :=
  match longest_prefix r o with
  | Some (p, name) =>
      if (length p <=? length o)%nat then render_with_suffix (f name) o (length p) else Oid.display o
  | None => Oid.display o
  end.

Definition format_oid (r : MibRegistry) (o : Oid) : text := render_named id r o.
Definition short_name (r : MibRegistry) (o : Oid) : text := render_named id r o.
(** [name.rsplit('.').next()] *)
Definition suffix_name (r : MibRegistry) (o : Oid) : text :=
  render_named (fun n => default n (last (split 46 n))) r o.

Definition qualified_name (r : MibRegistry) (o : Oid) : text :=
  match module_of r !! o, by_oid r !! o with
  | Some m, Some n => m ++ str "::" ++ n
  | _, _ => format_oid r o
  end.

Definition len (r : MibRegistry) : nat := size (by_name r).
Definition is_empty (r : MibRegistry) : bool := bool_decide (by_name r = ∅).

(** ** The longest known prefix *)

Lemma fold_longer o l best :
  match fold_left (longer o) l best with
  | None => best = None ∧ ∀ p, p ∈ l → Oid.is_prefix_of p.1 o = false
  | Some q =>
      (q ∈ l ∧ Oid.is_prefix_of q.1 o = true ∨ best = Some q) ∧
      (∀ p, p ∈ l → Oid.is_prefix_of p.1 o = true → (length p.1 <= length q.1)%nat) ∧
      (∀ b, best = Some b → (length b.1 <= length q.1)%nat)
  end.
Proof.
  revert best. induction l as [|p l IH]; intros best; cbn [fold_left].
  - destruct best as [q|]; [|split; [done|]; intros p ?%not_elem_of_nil; contradiction].
    split_and!; [by right| |by intros ? [= <-]]. intros p ?%not_elem_of_nil. contradiction.
  - specialize (IH (longer o best p)). destruct (fold_left (longer o) l (longer o best p)) as [q|].
    + destruct IH as (Hin & Hmax & Hb).
      assert (Hp : (Oid.is_prefix_of p.1 o = true → (length p.1 <= length q.1)%nat) ∧
                   (∀ b, best = Some b → (length b.1 <= length q.1)%nat)).
      { unfold longer in Hb. destruct (Oid.is_prefix_of p.1 o) eqn:E; [|split; [done|exact Hb]].
        destruct best as [b|]; [|split; [intros _; by apply Hb|done]].
        destruct (length p.1 <=? length b.1)%nat eqn:El.
        - apply Nat.leb_le in El. split; [intros _; specialize (Hb b eq_refl); lia|exact Hb].
        - apply Nat.leb_gt in El. specialize (Hb p eq_refl). split; [done|]. intros b' [= <-]. lia. }
      split_and!; [| |apply Hp].
      * destruct Hin as [[? ?]|E]; [left; split; [by right|done]|]. unfold longer in E.
        destruct (Oid.is_prefix_of p.1 o) eqn:Ep; [|by right].
        destruct best as [b|]; [destruct (_ <=? _)%nat; [by right|]|];
          injection E as <-; left; (split; [left|exact Ep]).
      * intros p' [->|Hp']%elem_of_cons; [apply Hp|by apply Hmax].
    + destruct IH as [Hn Hl]. unfold longer in Hn. destruct (Oid.is_prefix_of p.1 o) eqn:Ep.
      * destruct best as [b|]; [destruct (_ <=? _)%nat|]; discriminate.
      * split; [exact Hn|]. intros p' [->|Hp']%elem_of_cons; [exact Ep|by apply Hl].
Qed.

Lemma elem_of_iter_oids r o n : (o, n) ∈ iter_oids r ↔ by_oid r !! o = Some n.
Proof. unfold iter_oids. rewrite sort_by_perm. apply elem_of_map_to_list. Qed.

(** The name with the longest OID among those the OID starts with. *)
Lemma longest_prefix_spec r o :
  match longest_prefix r o with
  | Some (p, n) =>
      by_oid r !! p = Some n ∧ Oid.is_prefix_of p o = true ∧
      ∀ p' n', by_oid r !! p' = Some n' → Oid.is_prefix_of p' o = true → (length p' <= length p)%nat
  | None => ∀ p n, by_oid r !! p = Some n → Oid.is_prefix_of p o = false
  end.
Proof.
  pose proof (fold_longer o (iter_oids r) None) as H. unfold longest_prefix.
  destruct (fold_left _ _ None) as [[p n]|].
  - destruct H as ([[Hin Hp]|?] & Hmax & _); [|discriminate]. apply elem_of_iter_oids in Hin.
    split_and!; [done|done|]. intros p' n' Hn Hp'. by apply (Hmax (p', n')), elem_of_iter_oids in Hn || apply (Hmax (p', n')); [apply elem_of_iter_oids|].
  - destruct H as [_ H]. intros p n Hn. apply (H (p, n)), elem_of_iter_oids, Hn.
Qed.

(** ** Names and OIDs *)

(** A name the translation reads as a name: no dot or blank, not starting with a
    digit. *)
Definition plain_name (n : text) : bool :=
  match n with c :: _ => negb (is_ascii_digit c) | [] => false end &&
  forallb (fun c => negb (c =? 46) && negb (is_whitespace c)) n.

(** Every OID's name is bound to that OID. *)
Definition faithful (r : MibRegistry) : Prop :=
  ∀ p n, by_oid r !! p = Some n → by_name r !! n = Some p ∧ plain_name n = true.

Lemma split_once_plain n : forallb (fun c => negb (c =? 46)) n = true → split_once_dot n = None.
Proof.
  induction n as [|c n IH]; [done|]. cbn. intros [Hc Hn]%andb_true_iff. apply negb_true_iff in Hc.
  rewrite Hc, IH by exact Hn. reflexivity.
Qed.

Lemma split_once_name n x :
  forallb (fun c => negb (c =? 46)) n = true → split_once_dot (n ++ 46 :: x) = Some (n, x).
Proof.
  induction n as [|c n IH]; [done|]. cbn. intros [Hc Hn]%andb_true_iff. apply negb_true_iff in Hc.
  rewrite Hc, IH by exact Hn. reflexivity.
Qed.

Lemma plain_name_parts n :
  plain_name n = true →
  ∃ c n', n = c :: n' ∧ is_ascii_digit c = false ∧ c ≠ 46 ∧
    forallb (fun c => negb (c =? 46)) n = true ∧ Forall (λ c, is_whitespace c = false) n.
Proof.
  unfold plain_name. destruct n as [|c n]; [done|]. intros [Hc Hn]%andb_true_iff.
  exists c, n. apply negb_true_iff in Hc. rewrite forallb_forall in Hn. split_and!; [done|done| | |].
  - specialize (Hn c (or_introl eq_refl)). destruct (Z.eqb_spec c 46); [done|done].
  - apply forallb_forall. intros x Hx. specialize (Hn x Hx). by apply andb_true_iff in Hn as [? _].
  - apply List.Forall_forall. intros x Hx. specialize (Hn x Hx). apply andb_true_iff in Hn as [_ Hn].
    by apply negb_true_iff in Hn.
Qed.

Lemma show_u_no_blank n : 0 <= n → Forall (λ c, is_whitespace c = false) (show_u n).
Proof.
  intros H. destruct (show_u_correct n H) as (_ & Hd & _).
  eapply Forall_impl; [exact Hd|]. intros c. apply digit_not_whitespace.
Qed.

Lemma join_no_blank l : Oid.wf l → Forall (λ c, is_whitespace c = false) (join [46] (show_u <$> l)).
Proof.
  induction 1 as [|x l [Hx _] Hl IH]; [constructor|]. destruct l as [|y l]; [by apply show_u_no_blank|].
  cbn [fmap list_fmap join] in *. apply Forall_app. split; [by apply show_u_no_blank|]. by constructor.
Qed.

Lemma parse_arcs_join l : Oid.wf l → l ≠ [] → parse_arcs (split 46 (join [46] (show_u <$> l))) = Some l.
Proof.
  induction 1 as [|x l Hx Hl IH]; [done|]. intros _. pose proof Hx as [Hx0 _].
  assert (Hu : parse_unsigned u32_max (show_u x) = Some x)
    by (apply parse_unsigned_show; unfold is_u32, u32_max in *; lia).
  destruct l as [|y l].
  - cbn [fmap list_fmap join]. rewrite split_no_sep by (by apply show_not_dot). cbn [parse_arcs]. rewrite Hu. reflexivity.
  - change (join [46] (show_u <$> x :: y :: l)) with (show_u x ++ 46 :: join [46] (show_u <$> y :: l)).
    rewrite split_app by (by apply show_not_dot). cbn [parse_arcs]. rewrite Hu, IH by done. reflexivity.
Qed.

Lemma translate_name r n :
  plain_name n = true → translate r n = by_name r !! n.
Proof.
  intros (c & n' & -> & Hd & H46 & Hdot & Hws)%plain_name_parts. unfold translate.
  rewrite trim_id by exact Hws. cbn [trim_start_matches]. rewrite (proj2 (Z.eqb_neq c 46)) by exact H46.
  rewrite Hd, split_once_plain by exact Hdot. unfold name_to_oid. by destruct (by_name r !! _).
Qed.

Lemma translate_suffix r n l :
  plain_name n = true → Oid.wf l → l ≠ [] →
  translate r (n ++ 46 :: join [46] (show_u <$> l)) = (let! base := by_name r !! n in Some (base ++ l)).
Proof.
  intros (c & n' & -> & Hd & H46 & Hdot & Hws)%plain_name_parts Hl Hne. unfold translate.
  rewrite trim_id by (apply Forall_app; split; [exact Hws|constructor; [done|by apply join_no_blank]]).
  cbn [app trim_start_matches].
  rewrite (proj2 (Z.eqb_neq c 46)) by exact H46. rewrite Hd.
  change (c :: n' ++ 46 :: ?x) with ((c :: n') ++ 46 :: x). rewrite split_once_name by exact Hdot.
  rewrite parse_arcs_join by done. unfold name_to_oid. by destruct (by_name r !! _).
Qed.

Lemma translate_numeric r o : Oid.wf o → o ≠ [] → translate r (Oid.display o) = Some o.
Proof.
  intros Hw Hne. unfold translate. pose proof (display_no_whitespace o Hw) as Hws.
  rewrite trim_id by exact Hws. destruct o as [|x o]; [done|]. inversion Hw as [|? ? [Hx _] Hw']; subst.
  destruct (show_u_correct x Hx) as (_ & Hd & Hn). cbn [Oid.display flat_map app] in *.
  apply Forall_cons in Hws as [_ Hws]. cbn [trim_start_matches Z.eqb Pos.eqb].
  pose proof (parse_tokens_show (x :: o) Hw) as Hp. cbn [map] in Hp.
  pose proof (split_display x o Hw) as Hsp. pose proof (show_not_dot x Hx) as Hdot.
  destruct (show_u x) as [|c u]; [done|]. apply Forall_cons in Hd as [Hc _]. apply Forall_cons in Hdot as [H46 _].
  cbn [app] in *. rewrite trim_start_matches_head by (apply Z.eqb_neq; exact H46). rewrite Hc.
  unfold Oid.from_str. rewrite trim_id by exact Hws.
  rewrite trim_start_matches_head by (apply Z.eqb_neq; exact H46). rewrite Hsp.
  rewrite Hp. reflexivity.
Qed.

(** Translating what [format_oid] prints gives the OID back. *)
Lemma translate_format r o :
  faithful r → Oid.wf o → o ≠ [] → translate r (format_oid r o) = Some o.
Proof.
  intros Hf Hw Hne. unfold format_oid, render_named. pose proof (longest_prefix_spec r o) as Hl.
  destruct (longest_prefix r o) as [[p n]|]; [|by apply translate_numeric].
  destruct Hl as (Hn & Hp & _). destruct (Hf p n Hn) as [Hb Hpl].
  destruct (length p <=? length o)%nat eqn:El; [|by apply translate_numeric].
  apply Oid.is_prefix_of_spec in Hp as [s ->]. unfold render_with_suffix, id.
  rewrite length_app, drop_app_length in *. destruct s as [|x s].
  - rewrite app_nil_r in *. cbn [length]. rewrite Nat.add_0_r, Nat.leb_refl. rewrite translate_name by exact Hpl. exact Hb.
  - rewrite (proj2 (Nat.leb_gt _ _)) by (cbn; lia). apply Forall_app in Hw as [_ Hw].
    rewrite translate_suffix by done. rewrite Hb. reflexivity.
Qed.

(** ** Loading *)

Lemma keep_first_lookup {V} k (v : V) m k' :
  keep_first k v m !! k' = match m !! k' with Some w => Some w | None => if decide (k = k') then Some v else None end.
Proof.
  unfold keep_first. destruct (m !! k) as [w|] eqn:E.
  - destruct (m !! k') eqn:E'; [done|]. destruct (decide (k = k')) as [->|]; [congruence|done].
  - rewrite lookup_insert. destruct (decide (k = k')) as [->|]; [by rewrite E|]. by destruct (m !! k').
Qed.

Lemma insert_enum_names o ps r :
  by_name (insert_enum o ps r) = by_name r ∧ by_oid (insert_enum o ps r) = by_oid r.
Proof. by destruct ps. Qed.

Lemma add_object_maps r x :
  by_name (add_object r x) = keep_first (obj_name x) (obj_oid x) (by_name r) ∧
  by_oid (add_object r x) = keep_first (obj_oid x) (obj_name x) (by_oid r).
Proof.
  unfold add_object. destruct (obj_enums x) as [ps|]; [|done].
  destruct (insert_enum_names (obj_oid x) ps (mkMib (keep_first (obj_name x) (obj_oid x) (by_name r))
    (keep_first (obj_oid x) (obj_name x) (by_oid r)) (enums r) (object_defs r) (tcs r) (module_of r))) as [-> ->].
  done.
Qed.

Lemma fold_add_names l r n :
  by_name (fold_left add_object l r) !! n =
  match by_name r !! n with
  | Some o => Some o
  | None => let! x := find (fun x => bool_decide (obj_name x = n)) l in Some (obj_oid x)
  end.
Proof.
  revert r. induction l as [|x l IH]; intros r; cbn [fold_left].
  - by destruct (by_name r !! n).
  - rewrite IH. destruct (add_object_maps r x) as [-> _]. rewrite keep_first_lookup.
    destruct (by_name r !! n); [done|]. unfold find. cbn [List.find].
    destruct (decide (obj_name x = n)) as [E|E].
    + rewrite bool_decide_eq_true_2 by done. done.
    + rewrite bool_decide_eq_false_2 by done. done.
Qed.

Lemma fold_add_oids l r o n :
  by_oid (fold_left add_object l r) !! o = Some n →
  by_oid r !! o = Some n ∨ ∃ x, x ∈ l ∧ obj_name x = n ∧ obj_oid x = o.
Proof.
  revert r. induction l as [|x l IH]; intros r; cbn [fold_left]; [auto|].
  intros [H|(y & Hy & ? & ?)]%IH; [|right; exists y; split_and!; [by right|done|done]].
  destruct (add_object_maps r x) as [_ E]. rewrite E, keep_first_lookup in H.
  destruct (by_oid r !! o); [by left|]. destruct (decide (obj_oid x = o)); [|done].
  right. exists x. split_and!; [left|congruence|done].
Qed.

Lemma ingest_keeps fuel input r r' :
  ingest_semantic fuel input r = Some r' → by_name r' = by_name r ∧ by_oid r' = by_oid r.
Proof.
  unfold ingest_semantic. destruct (parse_object_defs_with_seeds _ _ _) as [defs|]; cbn; [|done]. intros [= <-].
  assert (Hd : ∀ m l r, by_name (fold_left (ingest_def m) l r) = by_name r ∧ by_oid (fold_left (ingest_def m) l r) = by_oid r).
  { intros m l. induction l as [|d l IH]; intros x; [done|]. cbn. destruct (IH (ingest_def m x d)) as [-> ->].
    unfold ingest_def. by destruct (Oid.is_empty (od_oid d)). }
  assert (Ht : ∀ l r, by_name (fold_left ingest_tc l r) = by_name r ∧ by_oid (fold_left ingest_tc l r) = by_oid r).
  { intros l. induction l as [|d l IH]; intros x; [done|]. cbn. by destruct (IH (ingest_tc x d)) as [-> ->]. }
  destruct (Ht (parse_textual_conventions input) (fold_left (ingest_def (module_name_of input)) defs r)) as [-> ->].
  apply Hd.
Qed.

Lemma load_str_maps fuel input r r' k :
  load_str fuel input r = Some (r', k) →
  let objs := parse_text_with_seeds input (by_name r) in
  k = Z.of_nat (length objs) ∧ by_name r' = by_name (fold_left add_object objs r) ∧
  by_oid r' = by_oid (fold_left add_object objs r).
Proof.
  unfold load_str, add_objects. destruct (ingest_semantic _ _ _) as [r2|] eqn:E; cbn; [|done].
  intros [= <- <-]. apply ingest_keeps in E as [-> ->]. done.
Qed.

Lemma find_unique (l : list MibObject) x :
  NoDup (obj_name <$> l) → x ∈ l → find (fun y => bool_decide (obj_name y = obj_name x)) l = Some x.
Proof.
  unfold find. induction l as [|y l IH]; intros Hu Hx; [by apply not_elem_of_nil in Hx|].
  cbn in Hu |- *. apply NoDup_cons in Hu as [Hn Hu]. apply elem_of_cons in Hx as [->|Hx].
  - by rewrite bool_decide_eq_true_2.
  - rewrite bool_decide_eq_false_2; [by apply IH|]. intros E. apply Hn. rewrite E. by apply list_elem_of_fmap_2.
Qed.

Definition new_names (r : MibRegistry) (objs : list MibObject) : Prop :=
  NoDup (obj_name <$> objs) ∧ Forall (λ x, by_name r !! obj_name x = None) objs.

(** Loading a module binds each of its new names to its OID and leaves every
    earlier name as it was, a name the module defines again included. *)
Theorem load_str_binds fuel input r r' k :
  load_str fuel input r = Some (r', k) →
  (∀ n o, name_to_oid r n = Some o → name_to_oid r' n = Some o) ∧
  (new_names r (parse_text_with_seeds input (by_name r)) →
   ∀ x, x ∈ parse_text_with_seeds input (by_name r) → name_to_oid r' (obj_name x) = Some (obj_oid x)).
Proof.
  intros E. apply load_str_maps in E as (_ & Hn & _). unfold name_to_oid. rewrite Hn. split.
  - intros n o Ho. rewrite fold_add_names, Ho. reflexivity.
  - intros [Hu Hf] x Hx. rewrite fold_add_names. rewrite Forall_forall in Hf. rewrite Hf by exact Hx.
    rewrite find_unique by done. reflexivity.
Qed.

Lemma ident_plain n : is_ident n = true → plain_name n = true.
Proof.
  assert (Hpart : ∀ c, is_ident_part c = true ∨ c = 45 → negb (c =? 46) && negb (is_whitespace c) = true).
  { intros c Hc.
    assert (Hr : c = 45 ∨ 48 <= c <= 57 ∨ 65 <= c <= 90 ∨ c = 95 ∨ 97 <= c <= 122).
    { destruct Hc as [Hc|Hc]; [|by left]. unfold is_ident_part, is_ascii_alphabetic, is_ascii_digit in Hc. lia. }
    unfold is_whitespace.
    repeat match goal with |- context [?a =? ?b] => rewrite (proj2 (Z.eqb_neq a b)) by lia end. lia. }
  destruct n as [|c n]; [done|]. cbn [is_ident plain_name]. intros [Hs Hr]%andb_true_iff.
  apply andb_true_iff. split.
  { unfold is_ident_start, is_ascii_alphabetic in Hs. unfold is_ascii_digit. lia. }
  cbn [forallb]. apply andb_true_iff. split.
  { apply Hpart. left. unfold is_ident_start in Hs. unfold is_ident_part. destruct (is_ascii_alphabetic c); [reflexivity|].
    cbn [orb] in Hs. rewrite Hs. apply orb_true_r. }
  clear Hs. induction n as [n IH] using (induction_ltof1 _ (@length Z)). unfold ltof in IH.
  destruct n as [|d n]; [done|]. cbn [ident_rest] in Hr. destruct (is_ident_part d) eqn:E.
  - cbn [forallb]. rewrite Hpart by auto. apply IH; [cbn; lia|exact Hr].
  - destruct n as [|e n]; [done|]. apply andb_true_iff in Hr as [[Hd He]%andb_true_iff Hr].
    apply Z.eqb_eq in Hd as ->. cbn [forallb]. rewrite !Hpart by auto. apply IH; [cbn; lia|exact Hr].
Qed.

Lemma load_faithful fuel input r r' k :
  faithful r → load_str fuel input r = Some (r', k) →
  new_names r (parse_text_with_seeds input (by_name r)) → faithful r'.
Proof.
  intros Hf E [Hu Hn]. apply load_str_maps in E as (_ & En & Eo). intros o n Ho.
  rewrite En, Eo in *. rewrite fold_add_names.
  destruct (fold_add_oids _ _ _ _ Ho) as [H|(x & Hx & <- & <-)].
  - destruct (Hf o n H) as [-> Hp]. by split.
  - rewrite Forall_forall in Hn. rewrite Hn by exact Hx. rewrite find_unique by done.
    split; [reflexivity|]. apply ident_plain. eapply object_names. exact Hx.
Qed.

(** The built-in names, as computed by [with_builtins]. *)
Definition builtins : MibRegistry := default new with_builtins.

Lemma builtins_ok : with_builtins = Some builtins.
Proof. vm_compute. reflexivity. Qed.

Lemma builtins_faithful : faithful builtins.
Proof.
  intros p n Hn. apply elem_of_map_to_list in Hn.
  assert (H : Forall (λ pn : list Z * list Z, by_name builtins !! pn.2 = Some pn.1 ∧ plain_name pn.2 = true)
                (map_to_list (by_oid builtins))).
  { apply (bool_decide_eq_true_1 _). vm_compute. reflexivity. }
  rewrite Forall_forall in H. exact (H (p, n) Hn).
Qed.

(** C28. Names and OIDs translate into each other in every registry made from the
    built-in names by loading modules, whatever their text, as long as each
    introduces names of its own: what is printed for an OID reads back as that
    OID, known or not. *)
Theorem loaded_names_translate fuel input r r' k o :
  faithful r → load_str fuel input r = Some (r', k) →
  new_names r (parse_text_with_seeds input (by_name r)) →
  Oid.wf o → o ≠ [] →
  faithful r' ∧ translate r' (format_oid r' o) = Some o.
Proof.
  intros Hf E Hn Hw Hne. pose proof (load_faithful _ _ _ _ _ Hf E Hn) as Hf'.
  split; [exact Hf'|by apply translate_format].
Qed.

Definition demo_text : text :=
  str "D DEFINITIONS ::= BEGIN demo OBJECT IDENTIFIER ::= { enterprises 4242 } demoRW OBJECT-TYPE SYNTAX INTEGER { on(1), off(2) } (1..2) MAX-ACCESS read-write STATUS current ::= { demo 1 } END".

Definition demo_loaded : MibRegistry := default new (fst <$> load_str 9 demo_text builtins).

Lemma demo_new_names : new_names builtins (parse_text_with_seeds demo_text (by_name builtins)).
Proof. split; apply (bool_decide_eq_true_1 _); vm_compute; reflexivity. Qed.

Lemma demo_load : load_str 9 demo_text builtins = Some (demo_loaded, 2).
Proof.
  unfold demo_loaded. destruct (load_str 9 demo_text builtins) as [[r k]|] eqn:E.
  - cbn. apply load_str_maps in E as (-> & _ & _). reflexivity.
  - exfalso. revert E. vm_compute. discriminate.
Qed.

Lemma load_str_binds_witness :
  name_to_oid demo_loaded (str "demoRW") = Some [1; 3; 6; 1; 4; 1; 4242; 1].
Proof.
  destruct (load_str_binds _ _ _ _ _ demo_load) as [_ H].
  exact (H demo_new_names (mkMibObject (str "demoRW") [1; 3; 6; 1; 4; 1; 4242; 1] (Some [(1, str "on"); (2, str "off")]))
    ltac:(apply (bool_decide_eq_true_1 _); vm_compute; reflexivity)).
Defined.

Lemma loaded_names_translate_witness :
  format_oid demo_loaded [1; 3; 6; 1; 4; 1; 4242; 1; 0] = str "demoRW.0" ∧
  translate demo_loaded (format_oid demo_loaded [1; 3; 6; 1; 4; 1; 4242; 1; 0]) = Some [1; 3; 6; 1; 4; 1; 4242; 1; 0].
Proof.
  split; [vm_compute; reflexivity|].
  apply (proj2 (loaded_names_translate 9 demo_text builtins demo_loaded 2 [1; 3; 6; 1; 4; 1; 4242; 1; 0]
    builtins_faithful demo_load demo_new_names
    ltac:(repeat constructor; vm_compute; congruence) ltac:(discriminate))).
Defined.

(** A module that uses a known name for another OID: the name keeps its first
    OID, the new OID is printed with the name, and reads back as the first. *)
Example name_clash_misleads :
  let r := default new (fst <$> load_str 9 (str "sysDescr OBJECT IDENTIFIER ::= { enterprises 7 }") builtins) in
  format_oid r [1; 3; 6; 1; 4; 1; 7; 5] = str "sysDescr.5" ∧
  translate r (str "sysDescr.5") = Some [1; 3; 6; 1; 2; 1; 1; 1; 5].
Proof. split; vm_compute; reflexivity. Qed.

(** ** Validation *)

(** The base type of a syntax and the constraints met on the way to it, the
    innermost first. *)
Inductive chain (r : MibRegistry) : Syntax → BaseType → list Constraint → Prop :=
| chain_base bt c : chain r (SBase bt c) bt (option_list c)
| chain_tc name c tc bt cs :
    tcs r !! name = Some tc → chain r (tc_base tc) bt cs → chain r (STc name c) bt (cs ++ option_list c)
| chain_unknown name c : tcs r !! name = None → chain r (STc name c) BInteger (option_list c)
| chain_sequence : chain r SSequence BNull [].

Definition merged (cs : list Constraint) : option Constraint :=
  match cs with
  | [] => None
  | _ => Some (mkConstraint (cs ≫= ranges) (cs ≫= sizes))
  end.

Lemma merged_option c : merged (option_list c) = c.
Proof. destruct c as [[rs ss]|]; [|reflexivity]. cbn. rewrite !app_nil_r. reflexivity. Qed.

Lemma merged_app a b : merge_constraints (merged a) (merged b) = merged (a ++ b).
Proof.
  destruct a as [|x a]; [by destruct b|]. destruct b as [|y b]; [by rewrite app_nil_r|].
  cbn [app merged merge_constraints ranges sizes]. change (x :: a ++ y :: b) with ((x :: a) ++ (y :: b)).
  rewrite !bind_app. reflexivity.
Qed.

Lemma effective_chain r sy bt cs :
  chain r sy bt cs → ∃ d, ∀ k, (d <= k)%nat → effective_syntax k r sy = Some (bt, merged cs).
Proof.
  induction 1 as [bt c|name c tc bt cs Ht _ [d IH]|name c Hn|].
  - exists 1%nat. intros [|k] Hk; [lia|]. cbn. rewrite merged_option. reflexivity.
  - exists (S d). intros [|k] Hk; [lia|]. cbn [effective_syntax]. rewrite Ht, IH by lia. cbn.
    rewrite <- merged_app, merged_option. reflexivity.
  - exists 1%nat. intros [|k] Hk; [lia|]. cbn [effective_syntax]. rewrite Hn, merged_option. reflexivity.
  - exists 1%nat. intros [|k] Hk; [lia|]. reflexivity.
Qed.

Definition int_allowed (cs : list Constraint) (n : Z) : Prop :=
  (∀ c, c ∈ cs → ranges c = []) ∨ ∃ c rg, c ∈ cs ∧ rg ∈ ranges c ∧ in_range n rg = true.
Definition size_allowed (cs : list Constraint) (n : Z) : Prop :=
  (∀ c, c ∈ cs → sizes c = []) ∨ ∃ c s, c ∈ cs ∧ s ∈ sizes c ∧ s.1 <= n <= s.2.

Lemma bind_nil {A} (f : Constraint → list A) cs : cs ≫= f = [] ↔ ∀ c, c ∈ cs → f c = [].
Proof.
  induction cs as [|c cs IH]; cbn.
  - split; [intros _ ? ?%not_elem_of_nil; contradiction|done].
  - rewrite app_nil, IH. split.
    + intros [H1 H2] x [->|Hx]%elem_of_cons; auto.
    + intros H. split; [apply H; left|]. intros x Hx. apply H. by right.
Qed.

Lemma check_int_merged cs n :
  match merged cs with Some c => check_int c n | None => true end = true ↔ int_allowed cs n.
Proof.
  unfold int_allowed. destruct cs as [|c0 cs0]; [cbn; split; [|done]; left; intros ? ?%not_elem_of_nil; contradiction|].
  cbn [merged]. set (cs := c0 :: cs0). unfold check_int. cbn [ranges]. rewrite <- (bind_nil ranges).
  destruct (cs ≫= ranges) as [|r0 rs] eqn:E; [split; auto|]. rewrite existsb_exists. split.
  - intros (rg & Hin & Hr). right. apply list_elem_of_In in Hin. rewrite <- E in Hin.
    apply list_elem_of_bind in Hin as (c & Hrg & Hc). eauto.
  - intros [?|(c & rg & Hc & Hrg & Hr)]; [discriminate|]. exists rg. split; [|exact Hr].
    apply list_elem_of_In. rewrite <- E. apply list_elem_of_bind. eauto.
Qed.

Lemma check_size_merged cs n :
  match merged cs with Some c => check_size c n | None => true end = true ↔ size_allowed cs n.
Proof.
  unfold size_allowed. destruct cs as [|c0 cs0]; [cbn; split; [|done]; left; intros ? ?%not_elem_of_nil; contradiction|].
  cbn [merged]. set (cs := c0 :: cs0). unfold check_size. cbn [sizes]. rewrite <- (bind_nil sizes).
  destruct (cs ≫= sizes) as [|s0 ss] eqn:E; [split; auto|]. rewrite existsb_exists. split.
  - intros (s & Hin & Hr). right. apply list_elem_of_In in Hin. rewrite <- E in Hin.
    apply list_elem_of_bind in Hin as (c & Hrg & Hc). exists c, s. split_and!; [done|done|lia|lia].
  - intros [?|(c & s & Hc & Hrg & Hr)]; [discriminate|]. exists s. split; [|lia].
    apply list_elem_of_In. rewrite <- E. apply list_elem_of_bind. eauto.
Qed.

Definition value_allowed (bt : BaseType) (cs : list Constraint) (v : Value) : Prop :=
  types_compatible bt v = true ∧
  match v with
  | VInteger n => int_allowed cs n
  | VOctetString b => size_allowed cs (Z.of_nat (length b))
  | _ => True
  end.

(** C29. When the conventions of an object's syntax lead to a base type, validation
    returns, and accepts exactly the values of that type allowed by the union
    of the constraints on the way: a constraint that refines its convention
    widens it. *)
Theorem validate_value_iff r o d bt cs v :
  object_def r o = Some d → chain r (od_syntax d) bt cs →
  ∃ depth, ∀ k, (depth <= k)%nat →
    is_Some (validate_value k r o v) ∧ (validate_value k r o v = Some (Ok tt) ↔ value_allowed bt cs v).
Proof.
  intros Hd Hc. destruct (effective_chain r _ _ _ Hc) as [depth Hk]. exists depth. intros k Hle.
  unfold validate_value, value_allowed. rewrite Hd, (Hk k Hle). cbn [mbind option_bind]. split; [eauto|].
  destruct (types_compatible bt v); cbn [negb]; [|split; [discriminate|intros [? _]; discriminate]].
  pose proof (check_int_merged cs) as Hi. pose proof (check_size_merged cs) as Hs.
  destruct v; try (destruct (merged cs); split; done).
  - rewrite <- Hi. destruct (merged cs) as [c|]; [|done]. destruct (check_int c v); split; try done.
    intros [_ ?]. discriminate.
  - rewrite <- Hs. destruct (merged cs) as [c|]; [|done]. destruct (check_size c _); split; try done.
    intros [_ ?]. discriminate.
Qed.

(** [Percent] is 0..100; an object that narrows it to 0..10 accepts 50. *)
Definition percent_registry : MibRegistry :=
  default new (fst <$> load_str 9 (str "Percent ::= TEXTUAL-CONVENTION STATUS current SYNTAX INTEGER (0..100) narrow OBJECT-TYPE SYNTAX Percent (0..10) MAX-ACCESS read-write ::= { iso 9 }") builtins).

Definition narrow_def : ObjectDef := default (empty_def [] []) (object_def percent_registry [1; 9; 0]).

Lemma validate_value_iff_witness :
  ∃ depth, ∀ k, (depth <= k)%nat → validate_value k percent_registry [1; 9; 0] (VInteger 50) = Some (Ok tt).
Proof.
  destruct (validate_value_iff percent_registry [1; 9; 0] narrow_def BInteger
    [mkConstraint [(Some 0, Some 100)] []; mkConstraint [(Some 0, Some 10)] []] (VInteger 50)) as [depth H].
  - vm_compute. reflexivity.
  - assert (Es : od_syntax narrow_def = STc (str "Percent") (Some (mkConstraint [(Some 0, Some 10)] [])))
      by (vm_compute; reflexivity).
    rewrite Es.
    apply (chain_tc percent_registry (str "Percent") (Some (mkConstraint [(Some 0, Some 10)] []))
      (default (mkTc [] SSequence None Current None None) (tcs percent_registry !! str "Percent")) BInteger
      [mkConstraint [(Some 0, Some 100)] []]); [vm_compute; reflexivity|].
    apply (chain_base percent_registry BInteger (Some (mkConstraint [(Some 0, Some 100)] []))).
  - exists depth. intros k Hk. apply (H k Hk). split; [reflexivity|]. right.
    exists (mkConstraint [(Some 0, Some 100)] []), (Some 0, Some 100). split_and!; [left|left|reflexivity].
Defined.

Definition circular_tcs (r : MibRegistry) (P : gset (list Z)) : Prop :=
  ∀ n, n ∈ P → ∃ tc m c, tcs r !! n = Some tc ∧ tc_base tc = STc m c ∧ m ∈ P.

(** A value is never validated against a convention defined through itself. *)
Theorem circular_convention_diverges r o d n c v P k :
  object_def r o = Some d → od_syntax d = STc n c → n ∈ P → circular_tcs r P →
  validate_value k r o v = None.
Proof.
  intros Hd Hs Hn Hc.
  assert (H : ∀ k n c, n ∈ P → effective_syntax k r (STc n c) = None).
  { clear - Hc. induction k as [|k IH]; intros n c Hn; [reflexivity|]. cbn [effective_syntax].
    destruct (Hc n Hn) as (tc & m & c' & -> & -> & Hm). rewrite IH by exact Hm. reflexivity. }
  unfold validate_value. rewrite Hd, Hs, H by exact Hn. reflexivity.
Qed.

Definition loop_registry : MibRegistry :=
  default new (fst <$> load_str 9 (str "A ::= TEXTUAL-CONVENTION SYNTAX A x OBJECT-TYPE SYNTAX A ::= { iso 9 }") builtins).

Lemma circular_convention_diverges_witness :
  is_Some (object_def loop_registry [1; 9]) ∧
  ∀ k, validate_value k loop_registry [1; 9] (VInteger 0) = None.
Proof.
  split; [apply (bool_decide_eq_true_1 _); vm_compute; reflexivity|].
  intros k. apply (circular_convention_diverges loop_registry [1; 9]
    (default (empty_def [] []) (object_def loop_registry [1; 9])) (str "A") None (VInteger 0) {[str "A"]} k).
  - vm_compute. reflexivity.
  - vm_compute. reflexivity.
  - by apply elem_of_singleton.
  - intros n Hn. apply elem_of_singleton in Hn as ->.
    exists (default (mkTc [] SSequence None Current None None) (tcs loop_registry !! str "A")), (str "A"), None.
    split_and!; [vm_compute; reflexivity|vm_compute; reflexivity|by apply elem_of_singleton].
Defined.

(** The sign of a lower bound is lost before it is read, and a convention that is
    not loaded counts as an integer. *)
Example negative_range_rejects_zero :
  let r := default new (fst <$> load_str 9 (str "t OBJECT-TYPE SYNTAX INTEGER (-5..5) ::= { iso 9 }") builtins) in
  validate_value 9 r [1; 9] (VInteger 6) = Some (Err (OutOfRange 6)) ∧
  validate_value 9 r [1; 9] (VInteger 0) = Some (Err (OutOfRange 0)) ∧
  validate_value 9 r [1; 9] (VInteger 5) = Some (Ok tt).
Proof. split_and!; vm_compute; reflexivity. Qed.
Example unknown_convention_is_integer :
  let r := default new (fst <$> load_str 9 (str "s OBJECT-TYPE SYNTAX DisplayString ::= { iso 9 }") builtins) in
  validate_value 9 r [1; 9] (VOctetString [104; 105]) = Some (Err (WrongType (str "INTEGER") (str "STRING"))).
Proof. vm_compute. reflexivity. Qed.
