(* ===== verification/Vacm.v ===== *)
(** * View-based access control ([crates/netsnmp-agent/src/vacm/mod.rs])

    The four tables, their row operations, the RFC 3415 access check and the
    [snmpd.conf] directives that fill the tables. The locks are transparent:
    every operation is atomic on the state [Vacm]. *)

From Stdlib Require Import ZArith Lia.
From S2P Require Import Prelude MachineInts Text Oid Config.

(** View, group, context and security names are byte strings. *)
Abbreviation name := (list Z) (only parsing).

Inductive AccessView := Read | Write | Notify.

Inductive ViewTreeFamilyType := Included | Excluded.

#[export] Instance family_type_eq_dec : EqDecision ViewTreeFamilyType.
Proof. solve_decision. Defined.

Definition family_code (t : ViewTreeFamilyType) : Z :=
  match t with Included => 1 | Excluded => 2 end.

Definition family_from_code (c : Z) : option ViewTreeFamilyType :=
  if c =? 1 then Some Included else if c =? 2 then Some Excluded else None.

Record VacmView := mkView { subtree : Oid; mask : bytes; typ : ViewTreeFamilyType }.

Record VacmGroup := mkGroup { g_model : Z; g_name : name; g_group : name }.

Inductive ContextMatch := Exact | Prefix.

Record VacmAccess := mkAccess {
  a_group : name;
  a_context_prefix : name;
  a_model : Z;
  a_level : Z;
  a_match : ContextMatch;
  a_read : option name;
  a_write : option name;
  a_notify : option name
}.

Record Vacm := mkVacm {
  groups : list VacmGroup;
  access : list VacmAccess;
  views : gmap (list Z) (list VacmView);
  contexts : list name
}.

Definition new : Vacm := mkVacm [] [] ∅ [].

(** ** Family rows *)

(** Bit [i] of the mask, MSB first; bits past the end are clear
    ([self.mask.get(i / 8).copied().unwrap_or(0)]). *)
Definition mask_bit (m : bytes) (i : nat) : bool :=
  Z.testbit (default 0 (m !! (i / 8)%nat)) (Z.of_nat (7 - i mod 8)).

(** The loop over the sub-identifiers of the subtree, from index [i]. *)
Fixpoint matches_from (m : bytes) (sub oid : Oid) (i : nat) (rest : Oid) : bool :=
  match rest with
  | [] => bool_decide (length sub <= length oid)%nat
  | want :: rest' =>
      if mask_bit m i then
        match oid !! i with
        | Some got => if got =? want then matches_from m sub oid (S i) rest' else false
        | None => false
        end
      else bool_decide (i <= length oid)%nat && Oid.eqb (take i oid) (take i sub)
  end.

(** [VacmView::matches]. *)
Definition matches (v : VacmView) (oid : Oid) : bool :=
  match mask v with
  | [] => Oid.is_prefix_of (subtree v) oid
  | _ => matches_from (mask v) (subtree v) oid 0 (subtree v)
  end.

(** ** Table operations *)

Definition is_empty (v : Vacm) : bool :=
  bool_decide (groups v = []) && bool_decide (access v = []) && bool_decide (views v = ∅).

Definition same_group_key (g e : VacmGroup) : bool :=
  (g_model e =? g_model g) && Oid.eqb (g_name e) (g_name g).

Definition add_group (g : VacmGroup) (v : Vacm) : Vacm :=
  mkVacm (replace_or_push (same_group_key g) g (groups v)) (access v) (views v) (contexts v).

Definition remove_group (model : Z) (n : name) (v : Vacm) : bool * Vacm :=
  let gs := retain (fun e => negb ((g_model e =? model) && Oid.eqb (g_name e) n)) (groups v) in
  (negb (length gs =? length (groups v))%nat, mkVacm gs (access v) (views v) (contexts v)).

Definition same_access_key (a e : VacmAccess) : bool :=
  Oid.eqb (a_group e) (a_group a) && Oid.eqb (a_context_prefix e) (a_context_prefix a)
  && (a_model e =? a_model a) && (a_level e =? a_level a).

Definition add_access (a : VacmAccess) (v : Vacm) : Vacm :=
  mkVacm (groups v) (replace_or_push (same_access_key a) a (access v)) (views v) (contexts v).

Definition remove_access (g ctx : name) (model level : Z) (v : Vacm) : bool * Vacm :=
  let rows := retain (fun e => negb (Oid.eqb (a_group e) g && Oid.eqb (a_context_prefix e) ctx
                                     && (a_model e =? model) && (a_level e =? level)))
                (access v) in
  (negb (length rows =? length (access v))%nat,
   mkVacm (groups v) rows (views v) (contexts v)).

Definition add_view (n : name) (w : VacmView) (v : Vacm) : Vacm :=
  let rows := default [] (views v !! n) in
  let rows' := replace_or_push (fun r => Oid.eqb (subtree r) (subtree w)) w rows in
  mkVacm (groups v) (access v) (<[n := rows']> (views v)) (contexts v).

Definition remove_view (n : name) (sub : Oid) (v : Vacm) : bool * Vacm :=
  match views v !! n with
  | None => (false, v)
  | Some rows =>
      let rows' := retain (fun r => negb (Oid.eqb (subtree r) sub)) rows in
      let removed := negb (length rows' =? length rows)%nat in
      let views' :=
        match rows' with
        | [] => if removed then delete n (views v) else <[n := rows']> (views v)
        | _ => <[n := rows']> (views v)
        end in
      (removed, mkVacm (groups v) (access v) views' (contexts v))
  end.

Definition add_context (c : name) (v : Vacm) : Vacm :=
  if existsb (fun x => Oid.eqb x c) (contexts v) then v
  else mkVacm (groups v) (access v) (views v) (contexts v ++ [c]).

Definition remove_context (c : name) (v : Vacm) : bool * Vacm :=
  let cs := retain (fun x => negb (Oid.eqb x c)) (contexts v) in
  (negb (length cs =? length (contexts v))%nat, mkVacm (groups v) (access v) (views v) cs).

Definition clear (_ : Vacm) : Vacm := new.

(** [Vacm::contexts]: sorted. *)
Definition sorted_contexts (v : Vacm) : list name := sort_by Oid.leb (contexts v).

Definition views_for (n : name) (v : Vacm) : list VacmView := default [] (views v !! n).

(** ** The access check *)

Definition group_for (model : Z) (n : name) (v : Vacm) : option name :=
  match find (fun e => (g_model e =? model) && Oid.eqb (g_name e) n) (groups v) with
  | Some e => Some (g_group e)
  | None =>
      g_group <$> find (fun e => (g_model e =? 0) && Oid.eqb (g_name e) n) (groups v)
  end.

Definition context_matches (m : ContextMatch) (prefix ctx : name) : bool :=
  match m with
  | Exact => Oid.eqb prefix ctx
  | Prefix => Oid.is_prefix_of prefix ctx
  end.

(** The rows of step 2. *)
Definition access_applies (g ctx : name) (model level : Z) (a : VacmAccess) : bool :=
  Oid.eqb (a_group a) g && ((a_model a =? model) || (a_model a =? 0))
  && (a_level a <=? level) && context_matches (a_match a) (a_context_prefix a) ctx.

(** [a.cmp(b) == Greater] for the key of [max_by]. *)
Definition exactness (a : VacmAccess) : Z := if a_model a =? 0 then 0 else 1.

Definition access_gt (a b : VacmAccess) : bool :=
  let la := Z.of_nat (length (a_context_prefix a)) in
  let lb := Z.of_nat (length (a_context_prefix b)) in
  (lb <? la) || ((la =? lb) && (exactness b <? exactness a)).

Definition select_access (g ctx : name) (model level : Z) (v : Vacm) : option VacmAccess :=
  max_by access_gt (List.filter (access_applies g ctx model level) (access v)).

Definition view_name (t : AccessView) (a : VacmAccess) : option name :=
  match t with Read => a_read a | Write => a_write a | Notify => a_notify a end.

(** Step 4: the walk over the family rows. *)
Fixpoint family_walk (oid : Oid) (included : bool) (rows : list VacmView) : bool :=
  match rows with
  | [] => included
  | r :: rows' =>
      if matches r oid then
        match typ r with
        | Excluded => false
        | Included => family_walk oid true rows'
        end
      else family_walk oid included rows'
  end.

Definition is_view_accessible (t : AccessView) (model : Z) (sec_name : name) (level : Z)
    (ctx : name) (oid : Oid) (v : Vacm) : bool :=
  if is_empty v then true
  else
    match group_for model sec_name v with
    | None => false
    | Some g =>
        match select_access g ctx model level v with
        | None => false
        | Some a =>
            match view_name t a with
            | None => false
            | Some [] => false
            | Some n =>
                match views v !! n with
                | None => false
                | Some rows => family_walk oid false rows
                end
            end
        end
    end.

(** ** [snmpd.conf] directives *)

Definition parse_model (word : text) : option Z :=
  let w := to_ascii_lowercase word in
  if bool_decide (w = str "v1") || bool_decide (w = str "snmpv1") then Some 1
  else if bool_decide (w = str "v2c") || bool_decide (w = str "snmpv2c") then Some 2
  else if bool_decide (w = str "usm") then Some 3
  else if bool_decide (w = str "any") || bool_decide (w = []) then Some 0
  else parse_signed i32_min i32_max w.

Definition parse_level (word : text) : option Z :=
  let w := to_ascii_lowercase word in
  if bool_decide (w = str "noauth") || bool_decide (w = str "noauthnopriv")
     || bool_decide (w = str "noauthnoprivacy") then Some 0
  else if bool_decide (w = str "auth") || bool_decide (w = str "authnopriv")
     || bool_decide (w = str "authnoprivacy") then Some 1
  else if bool_decide (w = str "priv") || bool_decide (w = str "authpriv")
     || bool_decide (w = str "authprivacy") then Some 3
  else parse_signed i32_min i32_max w.

Definition hex_digit (c : Z) : Z :=
  if is_ascii_digit c then c - 48 else if c <=? 70 then c - 55 else c - 87.

Fixpoint hex_pairs (s : text) : bytes :=
  match s with
  | a :: b :: s' => (16 * hex_digit a + hex_digit b) :: hex_pairs s'
  | _ => []
  end.

(** [parse_mask]: [stripped.len()] counts bytes, which for a text of hex digits
    is its number of characters. *)
Definition parse_mask (word : text) : bytes :=
  let stripped :=
    match word with
    | a :: b :: w' => if (a =? 48) && ((b =? 120) || (b =? 88)) then w' else word
    | _ => word
    end in
  if negb (bool_decide (stripped = [])) && (length stripped mod 2 =? 0)%nat
     && forallb is_ascii_hexdigit stripped
  then hex_pairs stripped
  else as_bytes word.

Fixpoint skip_flags (ws : list text) : list text :=
  match ws with
  | w :: ws' => if starts_with 45 w then skip_flags ws' else ws
  | [] => []
  end.

Definition apply_com2sec (d : Directive) (v : Vacm) : Vacm :=
  match skip_flags (args d) with
  | n :: _source :: community :: _ =>
      add_group (mkGroup 2 (as_bytes community) (as_bytes n))
        (add_group (mkGroup 1 (as_bytes community) (as_bytes n)) v)
  | _ => v
  end.

Definition apply_group (d : Directive) (v : Vacm) : Vacm :=
  match args d with
  | n :: model_word :: sec_name :: _ =>
      match parse_model model_word with
      | None => v
      | Some model => add_group (mkGroup model (as_bytes sec_name) (as_bytes n)) v
      end
  | _ => v
  end.

Definition apply_view (d : Directive) (v : Vacm) : Vacm :=
  match args d with
  | n :: typ_word :: subtree_word :: tl =>
      let w := to_ascii_lowercase typ_word in
      let t :=
        if bool_decide (w = str "included") || bool_decide (w = str "include") then Some Included
        else if bool_decide (w = str "excluded") || bool_decide (w = str "exclude")
             then Some Excluded
        else None in
      match t with
      | None => v
      | Some t =>
          match Oid.from_str subtree_word with
          | Err _ => v
          | Ok sub =>
              let m := match tl with m :: _ => parse_mask m | [] => [] end in
              add_view (as_bytes n) (mkView sub m t) v
          end
      end
  | _ => v
  end.

Definition view_or_none (s : text) : option name :=
  if bool_decide (s = []) || bool_decide (s = str "NULL") || bool_decide (s = str "null")
  then None else Some (as_bytes s).

Definition apply_access (d : Directive) (v : Vacm) : Vacm :=
  match args d with
  | g :: ctx :: m :: l :: a4 :: a5 :: a6 :: tl =>
      match parse_model m with
      | None => v
      | Some model =>
          match parse_level l with
          | None => v
          | Some level =>
              let w := to_ascii_lowercase a4 in
              let has_match :=
                match tl with
                | _ :: _ => bool_decide (w = str "exact") || bool_decide (w = str "prefix")
                | [] => false
                end in
              let '(cm, r, wr, nt) :=
                match tl with
                | a7 :: _ =>
                    if has_match
                    then ((if eq_ignore_case a4 (str "prefix") then Prefix else Exact), a5, a6, a7)
                    else (Exact, a4, a5, a6)
                | [] => (Exact, a4, a5, a6)
                end in
              add_access
                (mkAccess (as_bytes g) (as_bytes ctx) model level cm
                   (view_or_none r) (view_or_none wr) (view_or_none nt)) v
          end
      end
  | _ => v
  end.

(** The two community shortcuts differ in the view name and the write view. *)
Definition community_oid (ars : list text) : Oid :=
  match Oid.from_str (default (str ".1") (ars !! 2%nat)) with
  | Ok o => o
  | Err _ => [1; 3; 6; 1; 2; 1]
  end.

Definition apply_rocommunity (d : Directive) (v : Vacm) : Vacm :=
  match args d with
  | [] => v
  | community :: _ =>
      let sub := community_oid (args d) in
      let g := as_bytes (str "community_" ++ community) in
      let vw := as_bytes (str "ro_" ++ community) in
      let c := as_bytes community in
      add_access (mkAccess g [] 0 0 Prefix (Some vw) None None)
        (add_view vw (mkView sub [] Included)
           (add_group (mkGroup 2 c g) (add_group (mkGroup 1 c g) v)))
  end.

Definition apply_rwcommunity (d : Directive) (v : Vacm) : Vacm :=
  match args d with
  | [] => v
  | community :: _ =>
      let sub := community_oid (args d) in
      let g := as_bytes (str "community_" ++ community) in
      let vw := as_bytes (str "rw_" ++ community) in
      let c := as_bytes community in
      add_access (mkAccess g [] 0 0 Prefix (Some vw) (Some vw) None)
        (add_view vw (mkView sub [] Included)
           (add_group (mkGroup 2 c g) (add_group (mkGroup 1 c g) v)))
  end.

Definition apply_directive (v : Vacm) (d : Directive) : Vacm :=
  if is_token d (str "com2sec") || is_token d (str "com2sec6") then apply_com2sec d v
  else if is_token d (str "group") then apply_group d v
  else if is_token d (str "view") then apply_view d v
  else if is_token d (str "access") || is_token d (str "access2") then apply_access d v
  else if is_token d (str "rocommunity") || is_token d (str "rocommunity6")
       then apply_rocommunity d v
  else if is_token d (str "rwcommunity") || is_token d (str "rwcommunity6")
       then apply_rwcommunity d v
  else v.

Definition from_config_directives (ds : list Directive) : Vacm :=
  fold_left apply_directive ds new.

(** ** What a family row matches *)

(** The number of leading set mask bits over [n] sub-identifiers. *)
Fixpoint required_from (m : bytes) (i n : nat) : nat :=
  match n with
  | O => O
  | S n' => if mask_bit m i then S (required_from m (S i) n') else O
  end.

Definition required (v : VacmView) : nat :=
  match mask v with
  | [] => length (subtree v)
  | _ => required_from (mask v) 0 (length (subtree v))
  end.

(** RFC 3415: every sub-identifier of the subtree must be present, and must be
    equal where the mask, padded with ones, has its bit set. *)
Definition rfc_bit (m : bytes) (i : nat) : bool :=
  match m !! (i / 8)%nat with
  | Some b => Z.testbit b (Z.of_nat (7 - i mod 8))
  | None => true
  end.

Definition rfc_matches (v : VacmView) (oid : Oid) : bool :=
  bool_decide (length (subtree v) <= length oid)%nat &&
  forallb (fun i => negb (rfc_bit (mask v) i) || bool_decide (oid !! i = subtree v !! i))
    (seq 0 (length (subtree v))).

Lemma matches_from_prefix m sub oid i rest :
  sub = take i sub ++ rest → length (take i sub) = i →
  Oid.is_prefix_of (take i sub) oid = true →
  matches_from m sub oid i rest =
  Oid.is_prefix_of (take (i + required_from m i (length rest)) sub) oid.
Proof.
  revert i. induction rest as [|want rest IH]; intros i E L HP; cbn.
  - rewrite Nat.add_0_r. rewrite app_nil_r in E. rewrite <- E in *. rewrite HP.
    apply bool_decide_eq_true. apply Oid.is_prefix_of_spec in HP as [s ->].
    rewrite length_app. lia.
  - destruct (mask_bit m i) eqn:M.
    2: { rewrite Nat.add_0_r, HP. apply Oid.is_prefix_of_spec in HP as [s ->].
         apply andb_true_iff. rewrite bool_decide_eq_true, Oid.eqb_eq, length_app.
         split; [lia|]. by rewrite take_app_le, take_ge by lia. }
    assert (Hs : sub !! i = Some want).
    { rewrite E, lookup_app_r by lia. by rewrite L, Nat.sub_diag. }
    rewrite Nat.add_succ_r, <- Nat.add_succ_l.
    destruct (proj1 (Oid.is_prefix_of_spec _ _) HP) as [s Ho].
    assert (Hoi : oid !! i = head s).
    { rewrite Ho, lookup_app_r by lia. rewrite L, Nat.sub_diag. by destruct s. }
    rewrite Hoi.
    assert (Hbad : head s ≠ Some want →
      Oid.is_prefix_of (take (S i + required_from m (S i) (length rest)) sub) oid = false).
    { intros Hne. apply not_true_iff_false. intros [t Ht]%Oid.is_prefix_of_spec.
      apply Hne. rewrite <- Hoi, Ht, lookup_app_l, lookup_take_lt; [done|lia|].
      rewrite length_take. apply lookup_lt_Some in Hs. lia. }
    destruct s as [|got s]; cbn [head]; [by rewrite Hbad|].
    destruct (Z.eqb_spec got want) as [->|Hne]; [|rewrite Hbad; [done|cbn; congruence]].
    assert (take (S i) sub = take i sub ++ [want]) as T by (by apply take_S_r).
    apply IH.
    + rewrite T, <- app_assoc. done.
    + rewrite T, length_app, L. cbn. lia.
    + apply Oid.is_prefix_of_spec. exists s. by rewrite T, <- app_assoc.
Qed.

(** A family row matches exactly the OIDs that extend the part of its
    subtree covered by the leading set bits of its mask: an empty mask asks
    for the whole subtree, the first clear bit (bits past the mask's end are
    clear) makes the rest a wildcard. *)
Theorem matches_required v oid :
  matches v oid = Oid.is_prefix_of (take (required v) (subtree v)) oid.
Proof.
  unfold matches, required. destruct (mask v) as [|b m] eqn:M.
  - by rewrite take_ge by lia.
  - rewrite <- M. apply (matches_from_prefix (mask v) (subtree v) oid 0 (subtree v));
      [done|done|]. apply Oid.is_prefix_of_spec. by exists oid.
Qed.

Lemma required_from_le m i n : (required_from m i n <= n)%nat.
Proof. revert i. induction n as [|n IH]; intros i; cbn; [lia|]. case_match; [specialize (IH (S i))|]; lia. Qed.

Lemma required_from_bits m i n j :
  (j < required_from m i n)%nat → mask_bit m (i + j) = true.
Proof.
  revert i j. induction n as [|n IH]; intros i j; cbn; [lia|].
  destruct (mask_bit m i) eqn:M; [|lia]. destruct j as [|j]; [by rewrite Nat.add_0_r|].
  intros H. rewrite Nat.add_succ_r. apply (IH (S i)). lia.
Qed.

Lemma required_le v : (required v <= length (subtree v))%nat.
Proof. unfold required. destruct (mask v); [done|apply required_from_le]. Qed.

Lemma required_rfc_bit v i : (i < required v)%nat → rfc_bit (mask v) i = true.
Proof.
  unfold required, rfc_bit. destruct (mask v) as [|b m] eqn:M; [by rewrite lookup_nil|].
  intros H. apply required_from_bits in H. revert H. unfold mask_bit. cbn [Nat.add].
  destruct ((b :: m) !! (i / 8)%nat); cbn [default]; [done|by rewrite Z.bits_0].
Qed.

Lemma prefix_take_lookup (k : nat) (s o : Oid) :
  (k <= length s)%nat →
  Oid.is_prefix_of (take k s) o = true ↔ ∀ i, (i < k)%nat → o !! i = s !! i.
Proof.
  intros Hk. rewrite Oid.is_prefix_of_spec. split.
  - intros [t ->] i Hi. rewrite lookup_app_l; [by apply lookup_take_lt|].
    rewrite length_take. lia.
  - intros H. exists (drop k o). rewrite <- (take_drop k o) at 1. f_equal.
    apply list_eq. intros i. destruct (decide (i < k)%nat) as [Hi|Hi].
    + rewrite !lookup_take_lt by done. by apply H.
    + rewrite !lookup_take_ge by lia. done.
Qed.

Lemma rfc_matches_spec v o :
  rfc_matches v o = true ↔
  (length (subtree v) <= length o)%nat ∧
  ∀ i, (i < length (subtree v))%nat → rfc_bit (mask v) i = true → o !! i = subtree v !! i.
Proof.
  unfold rfc_matches. rewrite andb_true_iff, bool_decide_eq_true, forallb_forall.
  split; intros [HL H]; (split; [done|]).
  - intros i Hi Hb. specialize (H i). rewrite List.in_seq in H.
    specialize (H ltac:(lia)). rewrite Hb in H. by apply bool_decide_eq_true in H.
  - intros i [_ Hi]%List.in_seq. destruct (rfc_bit (mask v) i) eqn:B; [|done].
    apply bool_decide_eq_true. by apply H.
Qed.

(** The code's row test never denies what RFC 3415 matches, and agrees with
    it when every sub-identifier of the subtree is required. *)
Theorem matches_rfc v o :
  (rfc_matches v o = true → matches v o = true) ∧
  (required v = length (subtree v) → matches v o = rfc_matches v o).
Proof.
  assert (HI : rfc_matches v o = true → matches v o = true).
  { rewrite rfc_matches_spec, matches_required. intros [HL H].
    pose proof (required_le v). apply prefix_take_lookup; [done|]. intros i Hi.
    apply H; [lia|]. by apply required_rfc_bit. }
  split; [done|]. intros Hr. apply eq_true_iff_eq. split; [|done].
  rewrite matches_required, rfc_matches_spec, Hr, take_ge by lia.
  intros [s ->]%Oid.is_prefix_of_spec. split; [rewrite length_app; lia|].
  intros i Hi _. by apply lookup_app_l.
Qed.

(** A mask shorter than the subtree widens the row, where RFC 3415 pads
    the mask with ones: with mask [ff] the ninth sub-identifier is ignored. *)
Theorem short_mask_widens :
  let v := mkView [1; 3; 6; 1; 2; 1; 2; 2; 1] [255] Included in
  matches v [1; 3; 6; 1; 2; 1; 2; 2; 7] = true ∧
  rfc_matches v [1; 3; 6; 1; 2; 1; 2; 2; 7] = false ∧
  matches v [1; 3; 6; 1; 2; 1; 2; 2] = true.
Proof. by vm_compute. Qed.

(** ** The access decision *)

Definition access_rank (a : VacmAccess) : Z :=
  2 * Z.of_nat (length (a_context_prefix a)) + exactness a.

Lemma access_gt_rank a b : access_gt a b = (access_rank b <? access_rank a).
Proof.
  unfold access_gt, access_rank, exactness.
  apply eq_true_iff_eq. rewrite orb_true_iff, andb_true_iff, Z.eqb_eq, !Z.ltb_lt.
  destruct (a_model a =? 0), (a_model b =? 0); lia.
Qed.

(** The decision as the module documents it, in four stages, over the tables
    alone. The group is that of the first row for the security name under the
    message's model, or, when there is none, of the first row under [any]. *)
Definition first_row (rows : list VacmGroup) (model : Z) (sec g : name) : Prop :=
  ∃ i e, rows !! i = Some e ∧ g_model e = model ∧ g_name e = sec ∧ g_group e = g ∧
    ∀ j e', (j < i)%nat → rows !! j = Some e' → ¬ (g_model e' = model ∧ g_name e' = sec).

Definition in_group (v : Vacm) (model : Z) (sec g : name) : Prop :=
  first_row (groups v) model sec g ∨
  (∀ e, e ∈ groups v → ¬ (g_model e = model ∧ g_name e = sec)) ∧ first_row (groups v) 0 sec g.

(** An access row of the group applies to the model or to [any], up to its
    level, in the context it names or in those that extend it. *)
Record applies (g ctx : name) (model level : Z) (a : VacmAccess) : Prop := {
  ap_group : a_group a = g;
  ap_model : a_model a = model ∨ a_model a = 0;
  ap_level : a_level a <= level;
  ap_context : match a_match a with
    | Exact => ctx = a_context_prefix a
    | Prefix => ∃ rest, ctx = a_context_prefix a ++ rest
    end
}.

(** [a] has a longer context prefix than [b], or one as long and a model where
    [b] has [any]. *)
Definition preferred (a b : VacmAccess) : Prop :=
  (length (a_context_prefix b) < length (a_context_prefix a))%nat ∨
  length (a_context_prefix a) = length (a_context_prefix b) ∧ a_model a ≠ 0 ∧ a_model b = 0.

(** Of the rows that apply, the last that none is preferred to. *)
Definition chosen (v : Vacm) (g ctx : name) (model level : Z) (a : VacmAccess) : Prop :=
  ∃ i, access v !! i = Some a ∧ applies g ctx model level a ∧
    ∀ j b, access v !! j = Some b → applies g ctx model level b →
      ¬ preferred b a ∧ ((i < j)%nat → preferred a b).

(** A family row covers the OIDs that agree with its subtree in front of the
    first clear bit of its mask; an empty mask has no clear bit, and another
    has none set past its end. *)
Definition mask_set (m : bytes) (i : nat) : Prop :=
  m = [] ∨ ∃ b, m !! (i / 8)%nat = Some b ∧ Z.testbit b (7 - Z.of_nat (i mod 8)) = true.

Definition covers (r : VacmView) (oid : Oid) : Prop :=
  ∀ i x, subtree r !! i = Some x → (∀ j, (j <= i)%nat → mask_set (mask r) j) → oid !! i = Some x.

Record granted (t : AccessView) (model : Z) (sec : name) (level : Z) (ctx : name)
    (oid : Oid) (v : Vacm) : Prop := {
  granted_row : ∃ g a n rows,
    in_group v model sec g ∧ chosen v g ctx model level a ∧
    match t with Read => a_read a | Write => a_write a | Notify => a_notify a end = Some n ∧ n ≠ [] ∧
    views v !! n = Some rows ∧
    (∃ r, r ∈ rows ∧ typ r = Included ∧ covers r oid) ∧
    (∀ r, r ∈ rows → covers r oid → typ r = Included)
}.

Lemma find_first_row rows model sec g :
  g_group <$> find (fun e => (g_model e =? model) && Oid.eqb (g_name e) sec) rows = Some g ↔ first_row rows model sec g.
Proof.
  induction rows as [|e rows IH]; cbn.
  { split; [done|]. by intros (i & e & H & _). }
  destruct ((g_model e =? model) && Oid.eqb (g_name e) sec) eqn:E.
  - apply andb_true_iff in E as [Em%Z.eqb_eq En%Oid.eqb_eq]. cbn. split.
    + intros [= <-]. exists 0%nat, e. split_and!; [done..|]. intros j. lia.
    + intros ([|i] & e' & H & _ & _ & <- & Hm); cbn in H; [by injection H as ->|].
      exfalso. eapply (Hm 0%nat e); [lia|done..].
  - assert (Hne : ¬ (g_model e = model ∧ g_name e = sec)).
    { intros [H1%Z.eqb_eq H2%Oid.eqb_eq]. by rewrite H1, H2 in E. }
    rewrite IH. split.
    + intros (i & e' & H & H1 & H2 & H3 & Hm). exists (S i), e'. split_and!; [done..|].
      intros [|j] x Hj; cbn; [by intros [= <-]|]. apply Hm. lia.
    + intros ([|i] & e' & H & H1 & H2 & H3 & Hm); cbn in H; [injection H as ->; by destruct Hne|].
      exists i, e'. split_and!; [done..|]. intros j x Hj. apply (Hm (S j)). lia.
Qed.

Lemma group_for_spec model sec v g : group_for model sec v = Some g ↔ in_group v model sec g.
Proof.
  unfold group_for, in_group. rewrite <- !find_first_row.
  destruct (find (fun e => (g_model e =? model) && Oid.eqb (g_name e) sec) (groups v)) as [e|] eqn:E; cbn.
  - split; [by left|]. intros [H|[H _]]; [done|]. apply find_some in E as [Hin [H1%Z.eqb_eq H2%Oid.eqb_eq]%andb_true_iff].
    destruct (H e); [by apply list_elem_of_In|done].
  - split; [|by intros [|[_ ?]]]. intros H. right. split; [|done]. intros e Hin [H1%Z.eqb_eq H2%Oid.eqb_eq].
    apply list_elem_of_In, (find_none _ _ E) in Hin. by rewrite H1, H2 in Hin.
Qed.

Lemma access_applies_spec g ctx model level a : access_applies g ctx model level a = true ↔ applies g ctx model level a.
Proof.
  unfold access_applies, context_matches. rewrite !andb_true_iff, orb_true_iff, !Z.eqb_eq, Z.leb_le, Oid.eqb_eq.
  assert (C : match a_match a with Exact => Oid.eqb (a_context_prefix a) ctx
      | Prefix => Oid.is_prefix_of (a_context_prefix a) ctx end = true ↔
    match a_match a with Exact => ctx = a_context_prefix a | Prefix => ∃ rest, ctx = a_context_prefix a ++ rest end).
  { destruct (a_match a); [rewrite Oid.eqb_eq; split; congruence|apply Oid.is_prefix_of_spec]. }
  rewrite C. split; [by intros [[[? ?] ?] ?]|by intros [? ? ? ?]].
Qed.

Lemma preferred_rank a b : preferred a b ↔ access_rank b < access_rank a.
Proof.
  unfold preferred, access_rank, exactness.
  destruct (Z.eqb_spec (a_model a) 0), (Z.eqb_spec (a_model b) 0); lia.
Qed.

(** The last greatest element of a filtered list, by its place in the list. *)
Lemma last_max_filter {A} (m : A → Z) (p : A → bool) l x :
  last_max m (List.filter p l) x ↔
  ∃ i, l !! i = Some x ∧ p x = true ∧
    ∀ j y, l !! j = Some y → p y = true → m y <= m x ∧ ((i < j)%nat → m y < m x).
Proof.
  split.
  - revert x. induction l as [|z l IH] using rev_ind; intros x (l1 & l2 & E & H1 & H2); [by destruct l1|].
    rewrite List.filter_app in E. cbn in E. destruct (p z) eqn:Pz.
    + destruct l2 as [|z' l2 _] using rev_ind.
      * apply app_inj_tail in E as [E ->]. exists (length l). rewrite lookup_app_r, Nat.sub_diag by done.
        split_and!; [done|done|]. intros j y Hj Py. assert (j < length (l ++ [x]))%nat by (by eapply lookup_lt_Some).
        rewrite length_app in *. cbn in *. split; [|lia]. destruct (decide (j = length l)) as [->|Hne].
        -- rewrite lookup_app_r, Nat.sub_diag in Hj by done. by injection Hj as ->.
        -- rewrite lookup_app_l in Hj by lia. apply H1. rewrite <- E. apply list_elem_of_In, filter_In.
           split; [|done]. apply list_elem_of_In. by eapply list_elem_of_lookup_2.
      * rewrite app_comm_cons, app_assoc in E. apply app_inj_tail in E as [E <-].
        destruct (IH x) as (i & Hi & Px & Hm).
        { exists l1, l2. split_and!; [done|done|]. intros y Hy. apply H2, elem_of_app. by left. }
        exists i. assert (i < length l)%nat by (by eapply lookup_lt_Some). rewrite lookup_app_l by done.
        split_and!; [done|done|]. intros j y Hj Py. destruct (decide (j < length l)%nat) as [Hlt|Hge].
        -- rewrite lookup_app_l in Hj by done. by apply (Hm j).
        -- rewrite lookup_app_r in Hj by lia. assert (j - length l = 0)%nat as Z0 by (apply lookup_lt_Some in Hj; cbn in Hj; lia).
           rewrite Z0 in Hj. injection Hj as <-. assert (m z < m x) by (apply H2, elem_of_app; right; by left). lia.
    + rewrite app_nil_r in E. destruct (IH x) as (i & Hi & Px & Hm); [by exists l1, l2|].
      exists i. assert (i < length l)%nat by (by eapply lookup_lt_Some). rewrite lookup_app_l by done.
      split_and!; [done|done|]. intros j y Hj Py. destruct (decide (j < length l)%nat) as [Hlt|Hge].
      * rewrite lookup_app_l in Hj by done. by apply (Hm j).
      * rewrite lookup_app_r in Hj by lia. assert (j - length l = 0)%nat as Z0 by (apply lookup_lt_Some in Hj; cbn in Hj; lia).
        rewrite Z0 in Hj. injection Hj as <-. congruence.
  - intros (i & Hi & Px & Hm). exists (List.filter p (take i l)), (List.filter p (drop (S i) l)). split_and!.
    + rewrite <- (take_drop_middle l i x Hi) at 1. rewrite List.filter_app. cbn. by rewrite Px.
    + intros y [Hy Py]%list_elem_of_In%filter_In. apply list_elem_of_In, list_elem_of_lookup in Hy as [j Hj].
      apply lookup_take_Some in Hj as [Hj _]. by apply (Hm j y).
    + intros y [Hy Py]%list_elem_of_In%filter_In. apply list_elem_of_In, list_elem_of_lookup in Hy as [j Hj].
      rewrite lookup_drop in Hj. apply (Hm (S i + j)%nat y); [done|done|lia].
Qed.

Lemma select_access_spec g ctx model level v a :
  select_access g ctx model level v = Some a ↔ chosen v g ctx model level a.
Proof.
  unfold select_access, chosen. rewrite (max_by_last access_rank access_gt) by apply access_gt_rank.
  rewrite last_max_filter. setoid_rewrite access_applies_spec. setoid_rewrite preferred_rank.
  split; intros (i & Hi & Ha & H); exists i; (split_and!; [done..|]); intros j b Hj Hb; destruct (H j b Hj Hb); split; auto; lia.
Qed.

Lemma mask_bit_set m i : m ≠ [] → mask_bit m i = true ↔ mask_set m i.
Proof.
  intros Hm. unfold mask_bit, mask_set. assert (i mod 8 < 8)%nat by (apply Nat.mod_upper_bound; lia).
  replace (Z.of_nat (7 - i mod 8)) with (7 - Z.of_nat (i mod 8)) by lia.
  destruct (m !! (i / 8)%nat) as [b|]; cbn.
  - split; [intros Hb; right; by exists b|]. by intros [|(b' & [= <-] & ?)].
  - rewrite Z.bits_0. split; [done|]. by intros [|(b' & ? & _)].
Qed.

Lemma required_from_spec m i n j : (j < n)%nat →
  (j < required_from m i n)%nat ↔ ∀ k, (k <= j)%nat → mask_bit m (i + k) = true.
Proof.
  revert i j. induction n as [|n IH]; intros i j Hj; [lia|]. cbn. destruct (mask_bit m i) eqn:E.
  - destruct j as [|j].
    + split; [|lia]. intros _ k Hk. replace k with 0%nat by lia. by rewrite Nat.add_0_r.
    + rewrite <- Nat.succ_lt_mono, IH by lia. split; intros H k Hk.
      * destruct k as [|k]; [by rewrite Nat.add_0_r|]. rewrite <- Nat.add_succ_comm. apply (H k). lia.
      * rewrite Nat.add_succ_comm. apply H. lia.
  - split; [lia|]. intros H. specialize (H 0%nat ltac:(lia)). by rewrite Nat.add_0_r, E in H.
Qed.

Lemma matches_covers r oid : matches r oid = true ↔ covers r oid.
Proof.
  rewrite matches_required, prefix_take_lookup by apply required_le. unfold covers.
  assert (K : ∀ i x, subtree r !! i = Some x → (i < required r)%nat ↔ ∀ j, (j <= i)%nat → mask_set (mask r) j).
  { intros i x Hi. apply lookup_lt_Some in Hi. unfold required. destruct (mask r) as [|b m] eqn:M.
    - split; [|done]. intros _ j _. by left.
    - rewrite required_from_spec by done. cbn [Nat.add]. split; intros H j Hj; by apply mask_bit_set, H. }
  split.
  - intros H i x Hi Hm. rewrite H; [done|]. by eapply K.
  - intros H i Hi. pose proof (required_le r). destruct (lookup_lt_is_Some_2 (subtree r) i) as [x Hx]; [lia|].
    rewrite Hx. apply H; [done|]. by eapply K.
Qed.

Lemma family_walk_spec oid b rows :
  family_walk oid b rows = true ↔
  (b = true ∨ ∃ r, r ∈ rows ∧ typ r = Included ∧ matches r oid = true) ∧
  (∀ r, r ∈ rows → matches r oid = true → typ r = Included).
Proof.
  revert b. induction rows as [|r rows IH]; intros b; cbn.
  - split.
    + intros ->. split; [by left|]. by intros r ?%elem_of_nil.
    + intros [[H|(r & H%elem_of_nil & _)] _]; done.
  - destruct (matches r oid) eqn:M; [destruct (typ r) eqn:T|].
    + rewrite IH. split; intros [H1 H2].
      * split; [|intros x [->|Hx]%elem_of_cons; [done|eauto]].
        right. exists r. split_and!; [left|done..].
      * split; [by left|intros x Hx; apply H2; by right].
    + split; [done|]. intros [_ H]. specialize (H r). rewrite T in H.
      discriminate H; [left|done].
    + rewrite IH. split; intros [H1 H2].
      * split; [|intros x [->|Hx]%elem_of_cons; [congruence|eauto]].
        destruct H1 as [?|(x & ? & ?)]; [by left|]. right. exists x. split; [by right|done].
      * split; [|intros x Hx; apply H2; by right].
        destruct H1 as [?|(x & [->|?]%elem_of_cons & ? & ?)]; [by left|congruence|].
        right. eauto.
Qed.

(** C16. Access is granted exactly when no VACM row exists at all, or the four stages
    of the module's documentation grant it: the group of the security name, an
    exact model before [any]; of the group's access rows that apply, one whose
    context prefix is longest and then whose model is exact; its view for the
    kind of access; and in that view some included family row that covers the
    OID and no excluded one, however long their subtrees. *)
Theorem is_view_accessible_iff t model sec level ctx oid v :
  is_view_accessible t model sec level ctx oid v = true ↔
  is_empty v = true ∨ granted t model sec level ctx oid v.
Proof.
  unfold is_view_accessible. destruct (is_empty v); [tauto|].
  transitivity (granted t model sec level ctx oid v); [|split; [by right|by intros [|]]].
  assert (Rows : ∀ rows, family_walk oid false rows = true ↔
    (∃ r, r ∈ rows ∧ typ r = Included ∧ covers r oid) ∧ (∀ r, r ∈ rows → covers r oid → typ r = Included)).
  { intros rows. rewrite family_walk_spec. setoid_rewrite matches_covers. split; [by intros [[?|?] ?]|].
    intros [? ?]. split; [by right|done]. }
  split.
  - destruct (group_for model sec v) as [g|] eqn:G; [|done]. apply group_for_spec in G.
    destruct (select_access g ctx model level v) as [a|] eqn:A; [|done]. apply select_access_spec in A.
    destruct (view_name t a) as [[|c n]|] eqn:V; [done| |done].
    destruct (views v !! (c :: n)) as [rows|] eqn:R; [|done]. rewrite Rows. intros [H1 H2].
    split. by exists g, a, (c :: n), rows.
  - intros [(g & a & n & rows & G%group_for_spec & A%select_access_spec & V & Hn & R & H1 & H2)].
    rewrite G, A. unfold view_name. rewrite V. destruct n as [|c n]; [done|]. rewrite R. by apply Rows.
Qed.

(** Where RFC 3415 lets the row of the longest subtree decide, an excluded row
    denies whatever a longer included one says. *)
Example exclusion_beats_specific :
  family_walk [1; 3; 6; 1; 5] false
    [mkView [1; 3] [] Included; mkView [1; 3; 6] [] Excluded; mkView [1; 3; 6; 1] [] Included] = false.
Proof. reflexivity. Qed.

(** ** The tables' invariant *)

Definition group_key (g : VacmGroup) : Z * name := (g_model g, g_name g).
Definition access_key (a : VacmAccess) : name * name * Z * Z :=
  (a_group a, a_context_prefix a, a_model a, a_level a).

(** Every table holds at most one row per key, and no view is kept without
    family rows. *)
Record ok (v : Vacm) : Prop := {
  ok_groups : NoDup (group_key <$> groups v);
  ok_access : NoDup (access_key <$> access v);
  ok_views : ∀ n rows, views v !! n = Some rows → rows ≠ [] ∧ NoDup (subtree <$> rows);
  ok_contexts : NoDup (contexts v)
}.

(** The administrative operations, as data. *)
Inductive Op :=
| AddGroup (g : VacmGroup) | RemoveGroup (model : Z) (n : name)
| AddAccess (a : VacmAccess) | RemoveAccess (g ctx : name) (model level : Z)
| AddView (n : name) (w : VacmView) | RemoveView (n : name) (sub : Oid)
| AddContext (c : name) | RemoveContext (c : name)
| Clear | Configure (d : Directive).

Definition run_op (v : Vacm) (o : Op) : Vacm :=
  match o with
  | AddGroup g => add_group g v
  | RemoveGroup m n => (remove_group m n v).2
  | AddAccess a => add_access a v
  | RemoveAccess g c m l => (remove_access g c m l v).2
  | AddView n w => add_view n w v
  | RemoveView n s => (remove_view n s v).2
  | AddContext c => add_context c v
  | RemoveContext c => (remove_context c v).2
  | Clear => clear v
  | Configure d => apply_directive v d
  end.

Lemma ok_new : ok new.
Proof. split; cbn; try apply NoDup_nil_2. intros n rows. by rewrite lookup_empty. Qed.

Lemma add_group_ok g v : ok v → ok (add_group g v).
Proof.
  intros [Hg Ha Hv Hc]. split; cbn; try done.
  apply replace_or_push_nodup; [|done]. intros y. unfold same_group_key, group_key.
  rewrite andb_true_iff, Z.eqb_eq, Oid.eqb_eq. split; [intros [-> ->]|intros [= -> ->]]; done.
Qed.

Lemma add_access_ok a v : ok v → ok (add_access a v).
Proof.
  intros [Hg Ha Hv Hc]. split; cbn; try done.
  apply replace_or_push_nodup; [|done]. intros y. unfold same_access_key, access_key.
  rewrite !andb_true_iff, !Z.eqb_eq, !Oid.eqb_eq.
  split; [intros [[[-> ->] ->] ->]|intros [= -> -> -> ->]]; done.
Qed.

Lemma add_view_ok n w v : ok v → ok (add_view n w v).
Proof.
  intros [Hg Ha Hv Hc]. split; cbn; try done.
  intros n' rows. destruct (decide (n = n')) as [<-|Hn].
  - rewrite lookup_insert_eq. intros [= <-]. split; [apply replace_or_push_ne_nil|].
    apply replace_or_push_nodup; [intros y; apply Oid.eqb_eq|].
    destruct (views v !! n) as [rows|] eqn:E; cbn; [by eapply Hv|apply NoDup_nil_2].
  - rewrite lookup_insert_ne by done. apply Hv.
Qed.

Lemma remove_view_ok n s v : ok v → ok (remove_view n s v).2.
Proof.
  intros [Hg Ha Hv Hc]. unfold remove_view.
  destruct (views v !! n) as [rows|] eqn:E; [|done].
  destruct (Hv _ _ E) as [Hne Hnd]. split; cbn; try done.
  intros n' rows'. set (kept := retain _ rows).
  assert (Hk : NoDup (subtree <$> kept)) by by apply retain_nodup.
  destruct kept as [|r kept'] eqn:K; subst kept.
  - destruct rows as [|r rows]; [done|]. cbn [length Nat.eqb negb].
    rewrite lookup_delete_Some. intros [_ ?]. by eapply Hv.
  - destruct (decide (n = n')) as [<-|Hn].
    + rewrite lookup_insert_eq. intros [= <-]. done.
    + rewrite lookup_insert_ne by done. apply Hv.
Qed.

Lemma add_context_ok c v : ok v → ok (add_context c v).
Proof.
  intros [Hg Ha Hv Hc]. unfold add_context. destruct (existsb _ _) eqn:E; split; cbn; try done.
  apply NoDup_app. split_and!; [done| |apply NoDup_singleton].
  intros x Hx ->%list_elem_of_singleton. apply not_true_iff_false in E. apply E.
  apply existsb_exists. exists c. split; [by apply list_elem_of_In|apply Oid.eqb_refl].
Qed.

Lemma apply_directive_ok v d : ok v → ok (apply_directive v d).
Proof.
  intros H. unfold apply_directive, apply_com2sec, apply_group, apply_view, apply_access,
    apply_rocommunity, apply_rwcommunity.
  repeat case_match; eauto using add_group_ok, add_access_ok, add_view_ok.
Qed.

Lemma run_op_ok v o : ok v → ok (run_op v o).
Proof.
  intros H. pose proof H as [Hg Ha Hv Hc].
  destruct o; cbn [run_op];
    eauto using add_group_ok, add_access_ok, add_view_ok, remove_view_ok, add_context_ok,
      apply_directive_ok, ok_new.
  - split; cbn; try done. by apply retain_nodup.
  - split; cbn; try done. by apply retain_nodup.
  - split; cbn; try done. rewrite <- (list_fmap_id (retain _ _)).
    apply (retain_nodup id). by rewrite list_fmap_id.
Qed.

Lemma run_ops_ok ops v : ok v → ok (fold_left run_op ops v).
Proof. revert v. induction ops as [|o ops IH]; intros v H; cbn; [done|]. apply IH. by apply run_op_ok. Qed.

(** Every table state reached by any sequence of row operations and
    configuration directives keeps one row per key and no empty view. *)
Theorem reachable_ok ops : ok (fold_left run_op ops new).
Proof. apply run_ops_ok, ok_new. Qed.

Lemma views_for_remove_view n sub v n' e :
  ok v →
  e ∈ views_for n' (remove_view n sub v).2 ↔
  e ∈ views_for n' v ∧ ¬ (n' = n ∧ subtree e = sub).
Proof.
  intros [_ _ Hv _]. unfold remove_view, views_for.
  destruct (views v !! n) as [rows|] eqn:E.
  2: { split; [|by intros [? _]]. intros He. split; [done|]. intros [-> _].
       cbn in He. rewrite E in He. by apply elem_of_nil in He. }
  destruct (Hv _ _ E) as [Hne _]. set (kept := retain _ rows).
  assert (K : ∀ e, e ∈ kept ↔ e ∈ rows ∧ subtree e ≠ sub).
  { intros x. unfold kept. by rewrite elem_of_retain, negb_true_iff, Oid.eqb_neq. }
  cbn [snd views].
  assert (G : default [] ((match kept with
      | [] => if negb (length kept =? length rows)%nat then delete n (views v)
              else <[n:=kept]> (views v)
      | _ :: _ => <[n:=kept]> (views v) end) !! n') =
    if decide (n' = n) then kept else default [] (views v !! n')).
  { destruct (decide (n' = n)) as [->|Hn].
    - repeat case_match; rewrite ?lookup_delete_eq, ?lookup_insert_eq; done.
    - repeat case_match; by rewrite ?lookup_delete_ne, ?lookup_insert_ne by done. }
  rewrite G. destruct (decide (n' = n)) as [->|Hn].
  - rewrite K, E. cbn. split; intros [? H]; (split; [done|]); [by intros [_ ?]|].
    intros ?. by apply H.
  - split; [|by intros [? _]]. intros He. split; [done|]. by intros [? _].
Qed.

(** ** Functional behaviour of the row operations *)

(** After [add_group], a security name is mapped as before, except for the
    added key: an exact-model row answers at once, an [any] row only when no
    exact-model row exists. *)
Theorem group_for_add_group model n g v :
  group_for model n (add_group g v) =
  if negb (Oid.eqb (g_name g) n) then group_for model n v
  else if g_model g =? model then Some (g_group g)
  else if g_model g =? 0 then
    match find (fun e => (g_model e =? model) && Oid.eqb (g_name e) n) (groups v) with
    | Some e => Some (g_group e)
    | None => Some (g_group g)
    end
  else group_for model n v.
Proof.
  assert (Hother : ∀ m, (g_model g =? m) && Oid.eqb (g_name g) n = false →
    find (fun e => (g_model e =? m) && Oid.eqb (g_name e) n) (groups (add_group g v)) =
    find (fun e => (g_model e =? m) && Oid.eqb (g_name e) n) (groups v)).
  { intros m Hm. cbn. apply find_replace_or_push; [|done].
    intros y Hy. apply not_true_iff_false. unfold same_group_key.
    intros [E1%Z.eqb_eq E2%Oid.eqb_eq]%andb_true_iff. congruence. }
  assert (Hsame : ∀ m, g_model g = m → g_name g = n →
    find (fun e => (g_model e =? m) && Oid.eqb (g_name e) n) (groups (add_group g v)) = Some g).
  { intros m <- <-. cbn. apply (find_replace_or_push_same (same_group_key g)).
    unfold same_group_key. by rewrite Z.eqb_refl, Oid.eqb_refl. }
  unfold group_for. destruct (Oid.eqb (g_name g) n) eqn:N; cbn [negb].
  - apply Oid.eqb_eq in N. destruct (Z.eqb_spec (g_model g) model) as [M|M].
    { by rewrite Hsame. }
    rewrite Hother by (by rewrite (proj2 (Z.eqb_neq _ _) M)).
    destruct (find _ (groups v)); [by case_match|].
    destruct (Z.eqb_spec (g_model g) 0) as [M'|M'].
    + by rewrite Hsame.
    + rewrite Hother; [done|]. by rewrite (proj2 (Z.eqb_neq _ _) M').
  - by rewrite !Hother by (by rewrite andb_false_r).
Qed.

(** A removal deletes exactly the rows of its key and reports whether
    there was one; the other tables are untouched. *)
Theorem removals_exact v model n level g ctx sub c :
  ok v →
  (∀ e, e ∈ groups (remove_group model n v).2 ↔ e ∈ groups v ∧ group_key e ≠ (model, n)) ∧
  ((remove_group model n v).1 = true ↔ ∃ e, e ∈ groups v ∧ group_key e = (model, n)) ∧
  (∀ e, e ∈ access (remove_access g ctx model level v).2 ↔
        e ∈ access v ∧ access_key e ≠ (g, ctx, model, level)) ∧
  ((remove_access g ctx model level v).1 = true ↔
     ∃ e, e ∈ access v ∧ access_key e = (g, ctx, model, level)) ∧
  (∀ n' e, e ∈ views_for n' (remove_view n sub v).2 ↔
        e ∈ views_for n' v ∧ ¬ (n' = n ∧ subtree e = sub)) ∧
  ((remove_view n sub v).1 = true ↔ ∃ e, e ∈ views_for n v ∧ subtree e = sub) ∧
  (∀ x, x ∈ contexts (remove_context c v).2 ↔ x ∈ contexts v ∧ x ≠ c) ∧
  ((remove_context c v).1 = true ↔ c ∈ contexts v).
Proof.
  intros Hok.
  assert (Hg : ∀ e, (g_model e =? model) && Oid.eqb (g_name e) n = true
                    ↔ group_key e = (model, n)).
  { intros e. unfold group_key. rewrite andb_true_iff, Z.eqb_eq, Oid.eqb_eq.
    split; [by intros [-> ->]|by intros [= -> ->]]. }
  assert (Ha : ∀ e, Oid.eqb (a_group e) g && Oid.eqb (a_context_prefix e) ctx
                    && (a_model e =? model) && (a_level e =? level) = true
                    ↔ access_key e = (g, ctx, model, level)).
  { intros e. unfold access_key. rewrite !andb_true_iff, !Z.eqb_eq, !Oid.eqb_eq.
    split; [by intros [[[-> ->] ->] ->]|by intros [= -> -> -> ->]]. }
  split_and!.
  - intros e. cbn. by rewrite elem_of_retain, negb_true_iff, <- not_true_iff_false, Hg.
  - cbn. rewrite retain_length_neq. setoid_rewrite negb_false_iff. by setoid_rewrite Hg.
  - intros e. cbn. by rewrite elem_of_retain, negb_true_iff, <- not_true_iff_false, Ha.
  - cbn. rewrite retain_length_neq. setoid_rewrite negb_false_iff. by setoid_rewrite Ha.
  - intros n' e. by apply views_for_remove_view.
  - unfold remove_view, views_for. destruct (views v !! n) as [rows|]; cbn.
    + rewrite retain_length_neq. setoid_rewrite negb_false_iff. by setoid_rewrite Oid.eqb_eq.
    + split; [done|]. by intros (e & ?%elem_of_nil & _).
  - intros x. cbn. by rewrite elem_of_retain, negb_true_iff, Oid.eqb_neq.
  - cbn. rewrite retain_length_neq. setoid_rewrite negb_false_iff. setoid_rewrite Oid.eqb_eq.
    split; [by intros (x & ? & <-)|eauto].
Qed.

Lemma removals_exact_witness :
  let v := add_group (mkGroup 1 [112] [103]) new in
  ok v ∧ (remove_group 1 [112] v).1 = true.
Proof.
  cbn zeta. pose proof (add_group_ok (mkGroup 1 [112] [103]) new ok_new) as H.
  split; [exact H|].
  destruct (removals_exact _ 1 [112] 0 [] [] [] [] H) as (_ & F & _).
  apply F. exists (mkGroup 1 [112] [103]). split; [left|reflexivity].
Defined.

(** ** The community shortcuts *)

(** The tables both shortcuts build. *)
Lemma community_tables (c g : name) (h : Z) (vw : name) (w : bool) sub t model level ctx oid :
  (model = 1 ∨ model = 2) → 0 <= level →
  is_view_accessible t model c level ctx oid
    (mkVacm [mkGroup 1 c g; mkGroup 2 c g]
       [mkAccess g [] 0 0 Prefix (Some (h :: vw)) (if w then Some (h :: vw) else None) None]
       {[h :: vw := [mkView sub [] Included]]} []) =
  match t with
  | Read => Oid.is_prefix_of sub oid
  | Write => w && Oid.is_prefix_of sub oid
  | Notify => false
  end.
Proof.
  intros Hm Hl. unfold is_view_accessible, is_empty, group_for, select_access. cbn [groups access views].
  rewrite (bool_decide_eq_false_2 (_ :: _ = [])) by done. cbn [andb].
  assert (G : (if find (λ e, (g_model e =? model) && Oid.eqb (g_name e) c)
      [mkGroup 1 c g; mkGroup 2 c g] is Some e then Some (g_group e)
    else g_group <$> find (λ e, (g_model e =? 0) && Oid.eqb (g_name e) c)
      [mkGroup 1 c g; mkGroup 2 c g]) = Some g).
  { destruct Hm as [-> | ->]; cbn; by rewrite Oid.eqb_refl. }
  rewrite G. cbn [List.filter]. unfold access_applies.
  cbn [a_group a_model a_level a_context_prefix a_match context_matches].
  rewrite Oid.eqb_refl, (proj2 (Z.leb_le 0 level) Hl), orb_true_r.
  assert (P : Oid.is_prefix_of [] ctx = true) by (apply Oid.is_prefix_of_spec; by exists ctx).
  rewrite P. cbn [andb max_by max_by_from].
  destruct t, w; cbn [view_name a_read a_write a_notify andb]; try done;
    rewrite lookup_singleton_eq; cbn; unfold matches; cbn; by destruct (Oid.is_prefix_of sub oid).
Qed.

(** A configuration whose only VACM line is [rocommunity] grants its
    community read access to its subtree under SNMPv1 and v2c, at every level
    and in every context, and grants it nothing else; [rwcommunity] grants
    write access to the same subtree as well. *)
Theorem community_access (ro : bool) community tl rst sec ln t model level ctx oid :
  (model = 1 ∨ model = 2) → 0 <= level →
  let d := mkDirective (if ro then str "rocommunity" else str "rwcommunity")
             (community :: tl) rst sec ln in
  is_view_accessible t model (as_bytes community) level ctx oid (from_config_directives [d]) =
  match t with
  | Read => Oid.is_prefix_of (community_oid (community :: tl)) oid
  | Write => negb ro && Oid.is_prefix_of (community_oid (community :: tl)) oid
  | Notify => false
  end.
Proof.
  intros Hm Hl d.
  assert (E : from_config_directives [d] =
    if ro then apply_rocommunity d new else apply_rwcommunity d new) by by destruct ro.
  rewrite E. destruct ro; cbn [negb andb].
  - etransitivity; [|by apply (community_tables (as_bytes community)
      (as_bytes (str "community_" ++ community)) 114 (as_bytes (str "o_" ++ community)) false
      (community_oid (community :: tl)) t model level ctx oid)]. done.
  - etransitivity; [|by apply (community_tables (as_bytes community)
      (as_bytes (str "community_" ++ community)) 114 (as_bytes (str "w_" ++ community)) true
      (community_oid (community :: tl)) t model level ctx oid)]. done.
Qed.

Lemma community_access_witness :
  is_view_accessible Write 2 (as_bytes (str "public")) 0 [] [1; 3; 6]
    (from_config_directives
       [mkDirective (str "rocommunity") [str "public"] [] None 1]) = false.
Proof.
  rewrite (community_access true (str "public") [] [] None 1 Write 2 0 [] [1; 3; 6]);
    [reflexivity|by right|lia].
Defined.
