(* ===== verification/Registry.v ===== *)
(** * The registry ([crates/netsnmp-agent/src/registry.rs])

    Registration, dispatch by longest root, GET, GETNEXT with and without
    access control, GETBULK and the four-phase SET, over a world [W] that holds
    the state of every handler. Each operation is the code's loop; the second
    half states what it serves: the ordered union of the handlers' cells,
    restricted to the caller's view. *)

From Stdlib Require Import ZArith Lia.
From S2P Require Import Prelude MachineInts Oid Value Pdu Cells Handler Vacm.

(** ** Security context *)

Record SecurityContext := mkSec {
  security_model : Z;
  security_name : name;
  security_level : Z;
  sec_context : name;
  vacm : option Vacm
}.

Definition permissive : SecurityContext := mkSec 0 [] 0 [] None.

Definition allows (sec : SecurityContext) (t : AccessView) (oid : Oid) : bool :=
  match vacm sec with
  | None => true
  | Some v =>
      is_view_accessible t (security_model sec) (security_name sec) (security_level sec)
        (sec_context sec) oid v
  end.

(** ** Loops over the world *)

Section Loops.
Context {W A B : Type}.

(** [for x in l { if let Some(b) = f(x) { return b } }] *)
Fixpoint first_some (f : A → St W (option B)) (l : list A) : St W (option B) :=
  match l with
  | [] => sret None
  | x :: l' =>
      let* r := f x in
      match r with Some b => sret (Some b) | None => first_some f l' end
  end.

(** A loop that pushes one result per element; [None] is a body that ran out
    of fuel. *)
Fixpoint push_all (f : A → St W (option B)) (l : list A) : St W (option (list B)) :=
  match l with
  | [] => sret (Some [])
  | x :: l' =>
      let* r := f x in
      match r with
      | None => sret None
      | Some b => let* rs := push_all f l' in sret ((b ::.) <$> rs)
      end
  end.
End Loops.

Section Registry.
Context {W : Type}.
Implicit Types (hs : list (MibHandler W)).

(** [Registry::register]: push, then a stable sort by root. *)
Definition register hs (h : MibHandler W) : list (MibHandler W) :=
  sort_by (fun a b => Oid.leb (root a) (root b)) (hs ++ [h]).

Definition root_len (h : MibHandler W) : Z := Z.of_nat (length (root h)).

(** [filter(..).max_by_key(|h| h.root().len())] *)
Definition handler_for hs (oid : Oid) : option (MibHandler W) :=
  max_by (fun a b => root_len b <? root_len a)
    (List.filter (fun h => Oid.is_prefix_of (root h) oid) hs).

Definition do_get hs (oid : Oid) : St W Value :=
  match handler_for hs oid with
  | Some h => let* v := get h oid in sret (default VNoSuchInstance v)
  | None => sret VNoSuchObject
  end.

Definition do_get_next hs (oid : Oid) : St W VarBind :=
  let* r := first_some (fun h => get_next h oid) hs in
  sret (match r with
        | Some reading => mkVarBind (reading_oid reading) (reading_value reading)
        | None => mkVarBind oid VEndOfMibView
        end).

(** The loop of [do_get_next_accessible]; [oid] is [last_accessible], which
    the code never reassigns. *)
Fixpoint get_next_loop (fuel : nat) hs (sec : SecurityContext) (oid cursor : Oid) :
    St W (option VarBind) :=
  match fuel with
  | O => sret None
  | S fuel' =>
      let* next := do_get_next hs cursor in
      if bool_decide (vb_value next = VEndOfMibView)
      then sret (Some (mkVarBind oid VEndOfMibView))
      else if allows sec Read (vb_oid next) then sret (Some next)
      else if Oid.leb (vb_oid next) cursor
      then sret (Some (mkVarBind oid VEndOfMibView))
      else get_next_loop fuel' hs sec oid (vb_oid next)
  end.

Definition do_get_next_accessible (fuel : nat) hs (oid : Oid) (sec : SecurityContext) :
    St W (option VarBind) :=
  get_next_loop fuel hs sec oid oid.

(** The repetitions of GETBULK: one row of successors per iteration, until
    [max_reps] rows or a row of [EndOfMibView]. *)
Fixpoint bulk_rows (next : Oid → St W (option VarBind)) (max_reps : nat)
    (cursors : list Oid) (pushed : list VarBind) : St W (option (list VarBind)) :=
  match max_reps with
  | O => sret (Some pushed)
  | S n =>
      let* row := push_all next cursors in
      match row with
      | None => sret None
      | Some row =>
          if forallb (fun vb => bool_decide (vb_value vb = VEndOfMibView)) row
          then sret (Some (pushed ++ row))
          else bulk_rows next n (vb_oid <$> row) (pushed ++ row)
      end
  end.

Definition bulk_with (next : Oid → St W (option VarBind)) (request response : Pdu) :
    St W (option Pdu) :=
  let non_reps := Z.to_nat (Z.max (non_repeaters request) 0) in
  let max_reps := Z.to_nat (Z.max (max_repetitions request) 0) in
  let vars := variables request in
  let* fixed := push_all next (vb_oid <$> take non_reps vars) in
  match fixed with
  | None => sret None
  | Some fixed =>
      let* vs := bulk_rows next max_reps (vb_oid <$> drop non_reps vars)
                   (variables response ++ fixed) in
      sret ((fun vs => set_variables vs response) <$> vs)
  end.

Definition process_bulk hs (request response : Pdu) : St W (option Pdu) :=
  bulk_with (fun o => let* vb := do_get_next hs o in sret (Some vb)) request response.

Definition process_bulk_accessible (fuel : nat) hs (request response : Pdu)
    (sec : SecurityContext) : St W (option Pdu) :=
  bulk_with (fun o => do_get_next_accessible fuel hs o sec) request response.

(** ** SET *)

Abbreviation plan := (option (MibHandler W) * VarBind)%type.

Definition plans_of hs (request : Pdu) : list plan :=
  (fun vb => (handler_for hs (vb_oid vb), vb)) <$> variables request.

(** The status of one reservation. *)
Definition reserve (p : plan) : St W ErrorStatus :=
  match p.1 with
  | Some h =>
      let* r := prepare_set h (vb_oid p.2) (vb_value p.2) in
      sret (match r with Ok _ => NoError | Err s => s end)
  | None => sret NotWritable
  end.

(** One reserve pass: the first failure, with its 0-based index. *)
Fixpoint reserve_pass (idx : nat) (plans : list plan) : St W (option (nat * ErrorStatus)) :=
  match plans with
  | [] => sret None
  | p :: plans' =>
      let* st := reserve p in
      if is_ok_status st then reserve_pass (S idx) plans' else sret (Some (idx, st))
  end.

(** The commit pass: the first failure, and the bindings committed. *)
Fixpoint commit_pass (idx : nat) (plans : list plan)
    (failed : option (nat * ErrorStatus)) (committed : list nat) :
    St W (option (nat * ErrorStatus) * list nat) :=
  match plans with
  | [] => sret (failed, committed)
  | p :: plans' =>
      let first := fun e => match failed with None => Some e | Some f => Some f end in
      match p.1 with
      | None => commit_pass (S idx) plans' (first (idx, NotWritable)) committed
      | Some h =>
          let* r := commit_set h (vb_oid p.2) (vb_value p.2) in
          match r with
          | Ok _ => commit_pass (S idx) plans' failed (committed ++ [idx])
          | Err s => commit_pass (S idx) plans' (first (idx, s)) committed
          end
      end
  end.

(** The undo pass over the committed indices: did an undo fail? *)
Fixpoint undo_pass hs (plans : list plan) (committed : list nat) (undo_failed : bool) :
    St W bool :=
  match committed with
  | [] => sret undo_failed
  | cidx :: committed' =>
      match plans !! cidx with
      | None => undo_pass hs plans committed' undo_failed
      | Some (_, vb) =>
          match handler_for hs (vb_oid vb) with
          | None => undo_pass hs plans committed' undo_failed
          | Some h =>
              let* r := undo_set h (vb_oid vb) (vb_value vb) in
              undo_pass hs plans committed' (undo_failed || negb (is_ok r))
          end
      end
  end.

Definition process_set hs (request response : Pdu) : St W Pdu :=
  let plans := plans_of hs request in
  let fail := fun idx st =>
    set_error st (Z.of_nat idx + 1) (variables request) response in
  let* r1 := reserve_pass 0 plans in
  match r1 with
  | Some (idx, st) => sret (fail idx st)
  | None =>
      let* r2 := reserve_pass 0 plans in
      match r2 with
      | Some (idx, st) => sret (fail idx st)
      | None =>
          let* (commit_failed, committed) := commit_pass 0 plans None [] in
          match commit_failed with
          | Some (idx, status) =>
              let* undo_failed := undo_pass hs plans committed false in
              sret (fail idx (if undo_failed then UndoFailed else status))
          | None => sret (set_variables (variables request) response)
          end
      end
  end.

(** ** Dispatch *)

(** The GET loop: stops at the first binding outside the read view. *)
Fixpoint get_loop hs (sec : SecurityContext) (request : Pdu) (idx : nat)
    (vbs : list VarBind) (response : Pdu) : St W Pdu :=
  match vbs with
  | [] => sret response
  | vb :: vbs' =>
      if negb (allows sec Read (vb_oid vb))
      then sret (set_error NoAccess (Z.of_nat idx + 1) (variables request) response)
      else
        let* v := do_get hs (vb_oid vb) in
        get_loop hs sec request (S idx) vbs' (push_variable (mkVarBind (vb_oid vb) v) response)
  end.

(** The up-front check of SET: the first binding outside the write view. *)
Fixpoint first_denied (sec : SecurityContext) (t : AccessView) (idx : nat)
    (vbs : list VarBind) : option nat :=
  match vbs with
  | [] => None
  | vb :: vbs' =>
      if negb (allows sec t (vb_oid vb)) then Some idx
      else first_denied sec t (S idx) vbs'
  end.

Definition process_with_access (fuel : nat) hs (request : Pdu) (sec : SecurityContext) :
    St W (option Pdu) :=
  let response := new_pdu Response (request_id request) in
  match pdu_type request with
  | Get => let* r := get_loop hs sec request 0 (variables request) response in sret (Some r)
  | GetNext =>
      let* vs := push_all (fun vb => do_get_next_accessible fuel hs (vb_oid vb) sec)
                   (variables request) in
      sret ((fun vs => set_variables vs response) <$> vs)
  | GetBulk =>
      match vacm sec with
      | None => process_bulk hs request response
      | Some _ => process_bulk_accessible fuel hs request response sec
      end
  | Set_ =>
      match first_denied sec Write 0 (variables request) with
      | Some idx =>
          sret (Some (set_error NoAccess (Z.of_nat idx + 1) (variables request) response))
      | None => let* r := process_set hs request response in sret (Some r)
      end
  | _ =>
      sret (Some (mkPdu (pdu_type response) (request_id response) (code GenErr)
                    (error_index response) (variables response) (v1_trap response)))
  end.

Definition process (fuel : nat) hs (request : Pdu) : St W (option Pdu) :=
  process_with_access fuel hs request permissive.
End Registry.

(** * What the registry serves *)

Definition is_end_vb (vb : VarBind) : bool := bool_decide (vb_value vb = VEndOfMibView).

(** The successor of [o] among the cells the caller may read. *)
Definition visible_next (allowed : Oid → bool) (cs : cells) (o : Oid) : VarBind :=
  match find (fun c => Oid.ltb o c.1 && allowed c.1) cs with
  | Some c => mkVarBind c.1 c.2
  | None => mkVarBind o VEndOfMibView
  end.

Definition answer_get (roots : list Oid) (cs : cells) (o : Oid) : Value :=
  match lookup_cell o cs with
  | Some v => v
  | None => if existsb (fun r => Oid.is_prefix_of r o) roots then VNoSuchInstance
            else VNoSuchObject
  end.

Fixpoint rows_of (next : Oid → VarBind) (n : nat) (cursors : list Oid) : list VarBind :=
  match n with
  | O => []
  | S n' =>
      let row := next <$> cursors in
      row ++ (if forallb is_end_vb row then [] else rows_of next n' (vb_oid <$> row))
  end.

(** The response to a read request over the ordered cells [cs]. *)
Definition serve (roots : list Oid) (cs : cells) (sec : SecurityContext) (request : Pdu) : Pdu :=
  let response := new_pdu Response (request_id request) in
  let vars := variables request in
  let next := visible_next (allows sec Read) cs in
  match pdu_type request with
  | Get =>
      match first_denied sec Read 0 vars with
      | Some idx => set_error NoAccess (Z.of_nat idx + 1) vars response
      | None =>
          set_variables
            ((fun vb => mkVarBind (vb_oid vb) (answer_get roots cs (vb_oid vb))) <$> vars) response
      end
  | GetNext => set_variables ((fun vb => next (vb_oid vb)) <$> vars) response
  | GetBulk =>
      let n := Z.to_nat (Z.max (non_repeaters request) 0) in
      let reps := Z.to_nat (Z.max (max_repetitions request) 0) in
      set_variables
        ((next <$> (vb_oid <$> take n vars)) ++ rows_of next reps (vb_oid <$> drop n vars))
        response
  | _ => response
  end.

Definition is_read (t : PduType) : bool :=
  match t with Get | GetNext | GetBulk => true | _ => false end.

(** No root lies in the subtree of another. *)
Definition prefix_free (roots : list Oid) : Prop :=
  NoDup roots ∧ ∀ a b, a ∈ roots → b ∈ roots → Oid.is_prefix_of a b = true → a = b.

Definition root_le {W} (a b : MibHandler W) : Prop := Oid.le (root a) (root b).

#[export] Instance root_le_trans {W} : Transitive (@root_le W).
Proof. intros a b c. unfold root_le. apply PreOrder_Transitive. Qed.

(** ** Registration and dispatch *)

Lemma register_perm {W} (hs : list (MibHandler W)) h : register hs h ≡ₚ h :: hs.
Proof. unfold register. rewrite sort_by_perm. by rewrite Permutation_app_comm. Qed.

Lemma register_sorted {W} (hs : list (MibHandler W)) h : StronglySorted root_le (register hs h).
Proof.
  apply sort_by_sorted; [| |apply _].
  - intros a b. apply Oid.leb_le.
  - intros a b H. apply Oid.lt_le. by apply Oid.leb_gt.
Qed.

(** The registry after a sequence of registrations holds exactly those handlers,
    in root order. *)
Theorem registrations_sorted {W} (l : list (MibHandler W)) :
  StronglySorted root_le (fold_left register l []) ∧ fold_left register l [] ≡ₚ l.
Proof.
  assert (H : ∀ hs, StronglySorted root_le hs →
    StronglySorted root_le (fold_left register l hs) ∧ fold_left register l hs ≡ₚ l ++ hs).
  { induction l as [|h l IH]; intros hs Hs; cbn; [done|].
    destruct (IH (register hs h)) as [H1 H2]; [apply register_sorted|].
    split; [done|]. rewrite H2, register_perm. symmetry. apply Permutation_middle. }
  destruct (H []) as [H1 H2]; [constructor|]. by rewrite app_nil_r in H2.
Qed.

Lemma handler_for_last {W} (hs : list (MibHandler W)) o h :
  handler_for hs o = Some h ↔
  last_max root_len (List.filter (fun h => Oid.is_prefix_of (root h) o) hs) h.
Proof. by apply max_by_last. Qed.

Lemma handler_for_Some {W} (hs : list (MibHandler W)) o h :
  handler_for hs o = Some h → h ∈ hs ∧ Oid.is_prefix_of (root h) o = true.
Proof.
  unfold handler_for. intros E%max_by_elem. by apply (elem_of_retain _ h hs) in E.
Qed.

Lemma handler_for_None {W} (hs : list (MibHandler W)) o :
  handler_for hs o = None ↔ ∀ h, h ∈ hs → Oid.is_prefix_of (root h) o = false.
Proof.
  unfold handler_for. rewrite max_by_None. split.
  - intros E h Hh. apply not_true_iff_false. intros P.
    assert (h ∈ []) as X%elem_of_nil; [|done].
    rewrite <- E. by apply (elem_of_retain _ h hs).
  - intros H. destruct (List.filter _ hs) as [|h l] eqn:E; [done|].
    assert (h ∈ List.filter (fun h => Oid.is_prefix_of (root h) o) hs) as Hh by (rewrite E; left).
    apply (elem_of_retain _ h hs) in Hh as [Hh P]. by rewrite H in P.
Qed.

(** The handler of an OID is the registered handler with the longest root that
    is a prefix of it, the last registered one among equal roots; there is one
    as soon as some root is a prefix. *)
Theorem handler_for_longest {W} (hs : list (MibHandler W)) o :
  (∀ h, handler_for hs o = Some h ↔
     last_max root_len (List.filter (fun h => Oid.is_prefix_of (root h) o) hs) h) ∧
  (handler_for hs o = None ↔ ∀ h, h ∈ hs → Oid.is_prefix_of (root h) o = false) ∧
  (∀ h h', handler_for hs o = Some h → h' ∈ hs → Oid.is_prefix_of (root h') o = true →
     Oid.is_prefix_of (root h') (root h) = true).
Proof.
  split; [intros h; apply handler_for_last|]. split; [apply handler_for_None|].
  intros h h' E Hh' P'. pose proof (handler_for_Some _ _ _ E) as [_ P].
  destruct (Oid.prefixes_comparable (root h') (root h) o P' P) as [?|Q]; [done|].
  apply handler_for_last in E as (l1 & l2 & E & M1 & M2).
  assert (Hf : h' ∈ List.filter (fun h => Oid.is_prefix_of (root h) o) hs)
    by (by apply (elem_of_retain _ h' hs)).
  assert (L : root_len h' <= root_len h).
  { rewrite E in Hf. apply elem_of_app in Hf as [Hf|[->|Hf]%elem_of_cons]; [by apply M1|lia|].
    apply M2 in Hf. lia. }
  apply Oid.is_prefix_of_spec in Q as [s Q]. unfold root_len in L. rewrite Q, length_app in L.
  destruct s as [|x s]; [|cbn in L; lia]. rewrite Q, app_nil_r. apply Oid.is_prefix_of_refl.
Qed.

(** * Reading computations *)

(** The invariant of the world, and the worlds no read can tell apart. *)
Class ReadWorld {W} (inv : W → Prop) (eqv : relation W) : Prop := {
  eqv_equiv :: Equivalence eqv;
  inv_eqv w w' : eqv w' w → inv w → inv w'
}.

(** [m] computes [f] of the world it starts in and changes it only up to [eqv]. *)
Record reads {W} (inv : W → Prop) (eqv : relation W) {A} (m : St W A) (f : W → A) : Prop := {
  reads_proper w w' : eqv w w' → f w = f w';
  reads_val w : inv w → (m w).1 = f w;
  reads_frame w : inv w → eqv (m w).2 w
}.

Section Reads.
Context {W : Type} {inv : W → Prop} {eqv : relation W} `{!ReadWorld inv eqv}.

Lemma reads_ret {A} (a : A) : reads inv eqv (sret a) (λ _, a).
Proof using All. split; [done|done|]. intros w _. reflexivity. Qed.

Lemma reads_bind {A B} (m : St W A) (f : W → A) (k : A → St W B) (g : A → W → B) :
  reads inv eqv m f → (∀ a, reads inv eqv (k a) (g a)) →
  reads inv eqv (sbind m k) (λ w, g (f w) w).
Proof using All.
  intros Hm Hk. split.
  - intros w w' E. rewrite (reads_proper _ _ _ _ Hm w w' E).
    by apply (reads_proper _ _ _ _ (Hk _)).
  - intros w Hw. pose proof (reads_val _ _ _ _ Hm w Hw) as V.
    pose proof (reads_frame _ _ _ _ Hm w Hw) as F. unfold sbind.
    destruct (m w) as [a w1]. cbn in *. rewrite <- V.
    rewrite (reads_val _ _ _ _ (Hk a)) by (by eapply inv_eqv).
    by apply (reads_proper _ _ _ _ (Hk a)).
  - intros w Hw. pose proof (reads_frame _ _ _ _ Hm w Hw) as F. unfold sbind.
    destruct (m w) as [a w1]. cbn in *. etransitivity; [|exact F].
    apply (reads_frame _ _ _ _ (Hk a)). by eapply inv_eqv.
Qed.

Lemma reads_ext {A} (m : St W A) (f g : W → A) :
  (∀ w, f w = g w) → reads inv eqv m f → reads inv eqv m g.
Proof using All.
  intros E [H1 H2 H3]. split.
  - intros w w' H. rewrite <- !E. by apply H1.
  - intros w H. rewrite <- E. by apply H2.
  - done.
Qed.

Lemma reads_refine {A} (m : St W A) (f g : W → A) :
  (∀ w w', eqv w w' → g w = g w') → (∀ w, inv w → f w = g w) →
  reads inv eqv m f → reads inv eqv m g.
Proof using All.
  intros P E [H1 H2 H3]. split; [done| |done].
  intros w Hw. rewrite <- E by done. by apply H2.
Qed.

Lemma reads_push_all {A B} (f : A → St W (option B)) (g : A → W → option B) l :
  (∀ x, reads inv eqv (f x) (g x)) →
  reads inv eqv (push_all f l) (λ w, mapM (λ x, g x w) l).
Proof using All.
  intros Hf. induction l as [|x l IH].
  { by apply (reads_ext _ (λ _, Some [])); [|apply reads_ret]. }
  cbn [push_all]. eapply reads_ext.
  2: { apply (reads_bind (f x) (g x) _
        (λ r w, match r with None => None | Some b => (b ::.) <$> mapM (λ x, g x w) l end));
       [done|].
       intros [b|]; [|apply reads_ret].
       apply (reads_bind (push_all f l) _ _ (λ rs _, (b ::.) <$> rs)); [done|].
       intros rs. apply reads_ret. }
  intros w. cbn. destruct (g x w); [|done]. cbn. by destruct (mapM _ l).
Qed.
End Reads.

Lemma reads_first_some {W inv eqv} `{!@ReadWorld W inv eqv} {A B}
    (f : A → St W (option B)) (g : A → W → option B) l :
  (∀ x, x ∈ l → reads inv eqv (f x) (g x)) →
  reads inv eqv (first_some f l) (λ w, list_find_map (λ x, g x w) l).
Proof.
  induction l as [|x l IH]; intros Hf.
  { by apply (reads_ext _ (λ _, None)); [|apply reads_ret]. }
  cbn [first_some].
  eapply reads_ext.
  2: { apply (reads_bind (f x) (g x) _
        (λ r w, match r with Some b => Some b | None => list_find_map (λ x, g x w) l end));
       [apply Hf; left|].
       intros [b|]; [apply reads_ret|]. apply IH. intros y Hy. apply Hf. by right. }
  intros w. done.
Qed.

(** * Refinement: reads serve the ordered union of the cells *)

Definition next_answer (cs : cells) (o : Oid) : VarBind :=
  match successor o cs with
  | Some c => mkVarBind c.1 c.2
  | None => mkVarBind o VEndOfMibView
  end.

(** The access-checked walk over cells. *)
Fixpoint next_loop (fuel : nat) (allowed : Oid → bool) (cs : cells) (oid cursor : Oid) :
    option VarBind :=
  match fuel with
  | O => None
  | S fuel' =>
      let next := next_answer cs cursor in
      if is_end_vb next then Some (mkVarBind oid VEndOfMibView)
      else if allowed (vb_oid next) then Some next
      else if Oid.leb (vb_oid next) cursor then Some (mkVarBind oid VEndOfMibView)
      else next_loop fuel' allowed cs oid (vb_oid next)
  end.

(** No cell holds the end-of-view marker. *)
Definition no_end (cs : cells) : Prop := ∀ c, c ∈ cs → c.2 ≠ VEndOfMibView.

Lemma next_answer_split l1 c l2 o :
  (∀ x, x ∈ l1 → ¬ Oid.lt o x.1) → Oid.lt o c.1 →
  next_answer (l1 ++ c :: l2) o = mkVarBind c.1 c.2.
Proof.
  intros H1 Hc. unfold next_answer, successor.
  rewrite find_app_false.
  - unfold find. cbn. by rewrite (proj2 (Oid.ltb_lt _ _) Hc).
  - intros x Hx. rewrite <- not_true_iff_false, Oid.ltb_lt. by apply H1.
Qed.

Lemma next_loop_split fuel allowed l1 l2 oid cursor :
  strictly_sorted (l1 ++ l2) → no_end (l1 ++ l2) →
  (∀ x, x ∈ l1 → ¬ Oid.lt cursor x.1) → (∀ x, x ∈ l2 → Oid.lt cursor x.1) →
  (length l2 < fuel)%nat →
  next_loop fuel allowed (l1 ++ l2) oid cursor =
  Some (match find (fun c => allowed c.1) l2 with
        | Some c => mkVarBind c.1 c.2
        | None => mkVarBind oid VEndOfMibView
        end).
Proof.
  revert l1 cursor fuel. induction l2 as [|c l2 IH]; intros l1 cursor [|fuel] HS HN H1 H2 Hf;
    try (cbn in Hf; lia); cbn [next_loop].
  - assert (E : next_answer (l1 ++ []) cursor = mkVarBind cursor VEndOfMibView).
    { unfold next_answer. rewrite app_nil_r. by rewrite (proj2 (successor_None _ _) H1). }
    rewrite E. done.
  - rewrite next_answer_split by (try done; apply H2; left).
    unfold is_end_vb. cbn [vb_value vb_oid].
    rewrite bool_decide_eq_false_2 by (apply HN, elem_of_app; right; left).
    unfold find. cbn [List.find]. destruct (allowed c.1); [done|].
    rewrite (proj2 (Oid.leb_gt _ _)) by (apply H2; left).
    assert (E : l1 ++ c :: l2 = (l1 ++ [c]) ++ l2) by (by rewrite <- app_assoc).
    rewrite E in HS, HN |- *. apply IH; [done|done| | |cbn in Hf; lia].
    + intros x [Hx| ->%list_elem_of_singleton]%elem_of_app; [|apply Oid.lt_irrefl].
      intros L. apply (H1 x Hx). transitivity (c.1); [apply H2; left|done].
    + intros x Hx. rewrite StronglySorted_app in HS.
      destruct HS as [HS _]. apply (HS c x); [apply elem_of_app; right; left|done].
Qed.

Lemma sorted_split o (l : cells) :
  sorted l → ∃ l1 l2, l = l1 ++ l2 ∧
    (∀ x, x ∈ l1 → ¬ Oid.lt o x.1) ∧ (∀ x, x ∈ l2 → Oid.lt o x.1).
Proof.
  induction 1 as [|c l HS IH HF].
  { exists [], []. split_and!; [done|by intros x ?%elem_of_nil..]. }
  destruct (decide (Oid.lt o c.1)) as [L|L].
  - exists [], (c :: l). split_and!; [done|by intros x ?%elem_of_nil|].
    rewrite Forall_forall in HF.
    intros x [->|Hx]%elem_of_cons; [done|]. eapply Oid.lt_le_trans; [done|by apply HF].
  - destruct IH as (l1 & l2 & -> & H1 & H2). exists (c :: l1), l2. split_and!; [done| |done].
    intros x [->|Hx]%elem_of_cons; [done|by apply H1].
Qed.

Lemma next_loop_visible fuel allowed cs o :
  strictly_sorted cs → no_end cs → (length cs < fuel)%nat →
  next_loop fuel allowed cs o o = Some (visible_next allowed cs o).
Proof.
  intros HS HN Hf. destruct (sorted_split o cs) as (l1 & l2 & -> & H1 & H2);
    [by apply strictly_sorted_sorted|].
  rewrite length_app in Hf. rewrite next_loop_split by (try done; lia).
  unfold visible_next. rewrite find_app_false.
  - f_equal. unfold find. clear - H2. induction l2 as [|c l2 IH]; [done|]. cbn.
    rewrite (proj2 (Oid.ltb_lt _ _)) by (apply H2; left). cbn.
    destruct (allowed c.1); [done|]. apply IH. intros x Hx. apply H2. by right.
  - intros x Hx. rewrite (proj2 (Oid.ltb_ge o x.1)); [done|]. apply Oid.not_lt. by apply H1.
Qed.

Lemma visible_next_all cs o : visible_next (λ _, true) cs o = next_answer cs o.
Proof.
  unfold visible_next, next_answer, successor. erewrite find_ext; [done|].
  intros x. apply andb_true_r.
Qed.

(** What a registry needs of its handlers: they answer from ordered cells under
    their roots, no root lies in another's subtree, and the registry is in root
    order (which [register] maintains). *)
Class RegistryOk {W} (inv : W → Prop) (eqv : relation W)
    (view : MibHandler W → W → cells) (hs : list (MibHandler W)) : Prop := {
  registry_world :: ReadWorld inv eqv;
  registry_readable h : h ∈ hs → ReadableHandler inv eqv h (view h);
  registry_no_end h w : h ∈ hs → inv w → no_end (view h w);
  registry_sorted : StronglySorted root_le hs;
  registry_prefix_free : prefix_free (root <$> hs)
}.

(** The cells of the whole MIB. *)
Definition mib {W} (view : MibHandler W → W → cells) (hs : list (MibHandler W)) (w : W) : cells :=
  concat ((λ h, view h w) <$> hs).

Lemma elem_of_mib {W} (view : MibHandler W → W → cells) hs w c :
  c ∈ mib view hs w ↔ ∃ h, h ∈ hs ∧ c ∈ view h w.
Proof.
  unfold mib. rewrite list_elem_of_In, in_concat. setoid_rewrite <- list_elem_of_In.
  split.
  - intros (l & (h & -> & Hh)%list_elem_of_fmap & Hc). eauto.
  - intros (h & Hh & Hc). exists (view h w). split; [|done]. by apply (list_elem_of_fmap_2 (λ h, view h w)).
Qed.

Section Refinement.
Context {W : Type} {inv : W → Prop} {eqv : relation W}.
Context {view : MibHandler W → W → cells} {hs : list (MibHandler W)}.
Context {OK : RegistryOk inv eqv view hs}.

Lemma roots_before h h' l1 l2 :
  hs = l1 ++ l2 → h ∈ l1 → h' ∈ l2 → Oid.lt (root h) (root h') ∧
  Oid.is_prefix_of (root h) (root h') = false.
Proof using All.
  intros E H1 H2. destruct (registry_prefix_free (hs:=hs)) as [ND PF].
  pose proof (registry_sorted (hs:=hs)) as S. rewrite E in ND, PF, S.
  rewrite fmap_app in ND, PF. apply NoDup_app in ND as (_ & ND & _).
  assert (Hne : root h ≠ root h').
  { intros R. apply (ND (root h)); [by apply list_elem_of_fmap_2|].
    rewrite R. by apply list_elem_of_fmap_2. }
  split.
  - assert (L : root_le h h') by (by eapply StronglySorted_app_1_elem_of).
    apply Oid.le_lt_or_eq in L as [?|?]; done.
  - apply not_true_iff_false. intros P. apply Hne. apply PF; [| |done];
      rewrite elem_of_app; [left|right]; by apply list_elem_of_fmap_2.
Qed.

Lemma mib_sorted w : inv w → strictly_sorted (mib view hs w).
Proof using All.
  intros Hw. assert (H : ∀ l2 l1, hs = l1 ++ l2 → strictly_sorted (mib view l2 w)); [|by apply (H hs [])].
  induction l2 as [|h l2 IH]; intros l1 E; [constructor|].
  assert (Hh : h ∈ hs) by (rewrite E, elem_of_app; right; left).
  cbn. apply StronglySorted_app_2.
  - intros x y Hx [h' [Hh' Hy]]%elem_of_mib.
    destruct (roots_before h h' (l1 ++ [h]) l2) as [L P].
    { by rewrite <- app_assoc. } { apply elem_of_app; right; left. } { done. }
    assert (h' ∈ hs) by (rewrite E, elem_of_app; right; by right).
    eapply Oid.subtree_before; [exact L|exact P| |].
    + by apply (view_under_root (ReadableHandler:=registry_readable h Hh) w).
    + by apply (view_under_root (ReadableHandler:=registry_readable h' ltac:(done)) w).
  - by apply (view_sorted (ReadableHandler:=registry_readable h Hh) w).
  - apply (IH (l1 ++ [h])). by rewrite <- app_assoc.
Qed.

Lemma mib_no_end w : inv w → no_end (mib view hs w).
Proof using All.
  intros Hw c (h & Hh & Hc)%elem_of_mib. by eapply registry_no_end.
Qed.

Lemma mib_proper w w' : eqv w w' → mib view hs w = mib view hs w'.
Proof using All.
  intros E. unfold mib. f_equal. apply list_fmap_ext. intros i h Hh.
  by apply (view_proper (ReadableHandler:=registry_readable h (list_elem_of_lookup_2 _ _ _ Hh))).
Qed.

Lemma get_next_reads h o :
  h ∈ hs → reads inv eqv (get_next h o) (λ w, to_reading <$> successor o (view h w)).
Proof using All.
  intros Hh. pose proof (registry_readable h Hh) as R. split.
  - intros w w' E. by rewrite (view_proper w w' E).
  - apply get_next_view.
  - apply get_next_frame.
Qed.

Lemma do_get_next_reads o : reads inv eqv (do_get_next hs o) (λ w, next_answer (mib view hs w) o).
Proof using All.
  eapply reads_ext.
  2: { apply (reads_bind (first_some (λ h, get_next h o) hs)
         (λ w, list_find_map (λ h, to_reading <$> successor o (view h w)) hs) _
         (λ r _, match r with
                 | Some reading => mkVarBind (reading_oid reading) (reading_value reading)
                 | None => mkVarBind o VEndOfMibView
                 end));
       [apply reads_first_some; intros h Hh; by apply get_next_reads|].
       intros r. apply reads_ret. }
  intros w. cbn. unfold next_answer, successor, mib. rewrite find_concat.
  generalize hs. intros l. induction l as [|h l IH]; [done|]. cbn. unfold successor.
  by destruct (find _ (view h w)).
Qed.

Lemma next_accessible_reads fuel o cursor sec :
  reads inv eqv (get_next_loop fuel hs sec o cursor)
    (λ w, next_loop fuel (allows sec Read) (mib view hs w) o cursor).
Proof using All.
  revert cursor. induction fuel as [|fuel IH]; intros cursor.
  { by eapply reads_ext; [|apply reads_ret]. }
  cbn [get_next_loop next_loop].
  eapply reads_ext.
  2: { apply (reads_bind (do_get_next hs cursor) (λ w, next_answer (mib view hs w) cursor) _
        (λ next w, if is_end_vb next then Some (mkVarBind o VEndOfMibView)
           else if allows sec Read (vb_oid next) then Some next
           else if Oid.leb (vb_oid next) cursor then Some (mkVarBind o VEndOfMibView)
           else next_loop fuel (allows sec Read) (mib view hs w) o (vb_oid next)));
       [apply do_get_next_reads|].
       intros next. unfold is_end_vb. repeat case_match; try apply reads_ret. apply IH. }
  done.
Qed.

Lemma get_reads h o : h ∈ hs → reads inv eqv (get h o) (λ w, lookup_cell o (view h w)).
Proof using All.
  intros Hh. pose proof (registry_readable h Hh) as R. split.
  - intros w w' E. by rewrite (view_proper w w' E).
  - intros w. apply get_view.
  - intros w. apply get_frame.
Qed.

Lemma lookup_mib w h o :
  inv w → h ∈ hs → Oid.is_prefix_of (root h) o = true →
  lookup_cell o (mib view hs w) = lookup_cell o (view h w).
Proof using All.
  intros Hw Hh P. apply option_eq. intros v.
  rewrite !lookup_cell_Some, elem_of_mib
    by first [by apply mib_sorted|by apply (view_sorted (ReadableHandler:=registry_readable h Hh))].
  split; [|eauto]. intros (h' & Hh' & Hv).
  assert (P' : Oid.is_prefix_of (root h') o = true)
    by (by apply (view_under_root (ReadableHandler:=registry_readable h' Hh') w (o, v))).
  destruct (registry_prefix_free (hs:=hs)) as [ND PF].
  assert (R : root h' = root h).
  { destruct (Oid.prefixes_comparable _ _ _ P' P) as [Q|Q];
      [|symmetry]; (apply PF; [by apply list_elem_of_fmap_2..|done]). }
  by rewrite (nodup_fmap_inj root hs h h').
Qed.

Lemma lookup_mib_None w o :
  inv w → (∀ h, h ∈ hs → Oid.is_prefix_of (root h) o = false) →
  lookup_cell o (mib view hs w) = None.
Proof using All.
  intros Hw H. apply eq_None_not_Some. intros [v Hv].
  rewrite lookup_cell_Some, elem_of_mib in Hv by (by apply mib_sorted).
  destruct Hv as (h & Hh & Hv).
  assert (P : Oid.is_prefix_of (root h) o = true)
    by (by apply (view_under_root (ReadableHandler:=registry_readable h Hh) w (o, v))).
  by rewrite H in P.
Qed.

Lemma do_get_reads o :
  reads inv eqv (do_get hs o) (λ w, answer_get (root <$> hs) (mib view hs w) o).
Proof using All.
  unfold do_get. destruct (handler_for hs o) as [h|] eqn:E.
  - apply handler_for_Some in E as [Hh P].
    apply (reads_refine _ (λ w, default VNoSuchInstance (lookup_cell o (view h w)))).
    + intros w w' Eq. unfold answer_get. by rewrite (mib_proper w w' Eq).
    + intros w Hw. unfold answer_get. rewrite (lookup_mib w h) by done.
      destruct (lookup_cell o (view h w)); [done|]. cbn.
      assert (X : existsb (λ r, Oid.is_prefix_of r o) (root <$> hs) = true); [|by rewrite X].
      apply existsb_exists. exists (root h). rewrite <- list_elem_of_In.
      split; [by apply list_elem_of_fmap_2|done].
    + apply (reads_bind (get h o) (λ w, lookup_cell o (view h w)) _
        (λ v _, default VNoSuchInstance v)); [by apply get_reads|].
      intros v. apply reads_ret.
  - rewrite handler_for_None in E.
    apply (reads_refine _ (λ _, VNoSuchObject)); [| |apply reads_ret].
    + intros w w' Eq. unfold answer_get. by rewrite (mib_proper w w' Eq).
    + intros w Hw. unfold answer_get. rewrite lookup_mib_None by done.
      destruct (existsb _ _) eqn:X; [|done].
      apply existsb_exists in X as (r & Hr & P). rewrite <- list_elem_of_In in Hr.
      apply list_elem_of_fmap in Hr as (h & -> & Hh). by rewrite E in P.
Qed.

Lemma get_loop_reads sec request idx vbs response :
  reads inv eqv (get_loop hs sec request idx vbs response)
    (λ w, match first_denied sec Read idx vbs with
          | Some i => set_error NoAccess (Z.of_nat i + 1) (variables request) response
          | None => set_variables (variables response ++
              ((fun vb => mkVarBind (vb_oid vb)
                 (answer_get (root <$> hs) (mib view hs w) (vb_oid vb))) <$> vbs)) response
          end).
Proof using All.
  revert idx response. induction vbs as [|vb vbs IH]; intros idx response; cbn [get_loop first_denied].
  - eapply reads_ext; [|apply reads_ret]. intros w. cbn. rewrite app_nil_r. by destruct response.
  - destruct (negb _) eqn:D; [apply reads_ret|].
    eapply reads_ext.
    2: { apply (reads_bind (do_get hs (vb_oid vb))
          (λ w, answer_get (root <$> hs) (mib view hs w) (vb_oid vb)) _
          (λ v w, match first_denied sec Read (S idx) vbs with
            | Some i => set_error NoAccess (Z.of_nat i + 1) (variables request)
                (push_variable (mkVarBind (vb_oid vb) v) response)
            | None => set_variables (variables (push_variable (mkVarBind (vb_oid vb) v) response) ++
              ((fun vb => mkVarBind (vb_oid vb)
                 (answer_get (root <$> hs) (mib view hs w) (vb_oid vb))) <$> vbs))
                (push_variable (mkVarBind (vb_oid vb) v) response) end));
         [apply do_get_reads|]. intros v. apply IH. }
    intros w. cbn. destruct (first_denied sec Read (S idx) vbs); [done|].
    unfold set_variables. cbn. by rewrite <- app_assoc.
Qed.
End Refinement.

(** The bulk loops over a pure successor function. *)
Fixpoint rows_opt (next : Oid → option VarBind) (max_reps : nat) (cursors : list Oid)
    (pushed : list VarBind) : option (list VarBind) :=
  match max_reps with
  | O => Some pushed
  | S n =>
      match mapM next cursors with
      | None => None
      | Some row =>
          if forallb is_end_vb row then Some (pushed ++ row)
          else rows_opt next n (vb_oid <$> row) (pushed ++ row)
      end
  end.

Lemma mapM_Some_fmap {A B} (f : A → option B) (g : A → B) l :
  (∀ x, f x = Some (g x)) → mapM f l = Some (g <$> l).
Proof. intros H. induction l as [|x l IH]; [done|]. cbn. rewrite H. cbn. by rewrite IH. Qed.

Lemma rows_opt_total next f n cursors pushed :
  (∀ o, next o = Some (f o)) →
  rows_opt next n cursors pushed = Some (pushed ++ rows_of f n cursors).
Proof.
  intros H. revert cursors pushed. induction n as [|n IH]; intros cursors pushed; cbn [rows_opt rows_of].
  { by rewrite app_nil_r. }
  rewrite (mapM_Some_fmap next f) by done. destruct (forallb _ _).
  - by rewrite app_nil_r.
  - rewrite IH. by rewrite <- app_assoc.
Qed.

Section Serving.
Context {W : Type} {inv : W → Prop} {eqv : relation W}.
Context {view : MibHandler W → W → cells} {hs : list (MibHandler W)}.
Context {OK : RegistryOk inv eqv view hs}.

Lemma bulk_rows_reads (next : Oid → St W (option VarBind)) (g : Oid → W → option VarBind)
    n cursors pushed :
  (∀ o, reads inv eqv (next o) (g o)) →
  reads inv eqv (bulk_rows next n cursors pushed) (λ w, rows_opt (λ o, g o w) n cursors pushed).
Proof using All.
  intros Hn. revert cursors pushed. induction n as [|n IH]; intros cursors pushed;
    cbn [bulk_rows rows_opt]; [apply reads_ret|].
  eapply reads_ext.
  2: { apply (reads_bind (push_all next cursors) (λ w, mapM (λ o, g o w) cursors) _
        (λ row w, match row with
          | None => None
          | Some row => if forallb is_end_vb row then Some (pushed ++ row)
              else rows_opt (λ o, g o w) n (vb_oid <$> row) (pushed ++ row) end));
       [by apply reads_push_all|].
       intros [row|]; [|apply reads_ret]. unfold is_end_vb.
       destruct (forallb _ _); [apply reads_ret|apply IH]. }
  done.
Qed.

Lemma bulk_with_reads (next : Oid → St W (option VarBind)) (g : Oid → W → option VarBind)
    request response :
  (∀ o, reads inv eqv (next o) (g o)) →
  reads inv eqv (bulk_with next request response)
    (λ w, match mapM (λ o, g o w) (vb_oid <$>
              take (Z.to_nat (Z.max (non_repeaters request) 0)) (variables request)) with
          | None => None
          | Some fixed =>
              (λ vs, set_variables vs response) <$>
              rows_opt (λ o, g o w) (Z.to_nat (Z.max (max_repetitions request) 0))
                (vb_oid <$> drop (Z.to_nat (Z.max (non_repeaters request) 0)) (variables request))
                (variables response ++ fixed)
          end).
Proof using All.
  intros Hn. unfold bulk_with.
  apply (reads_bind (push_all next _) (λ w, mapM (λ o, g o w) _) _
    (λ fixed w, match fixed with
      | None => None
      | Some fixed => (λ vs, set_variables vs response) <$>
              rows_opt (λ o, g o w) (Z.to_nat (Z.max (max_repetitions request) 0))
                (vb_oid <$> drop (Z.to_nat (Z.max (non_repeaters request) 0)) (variables request))
                (variables response ++ fixed) end)); [by apply reads_push_all|].
  intros [fixed|]; [|apply reads_ret].
  apply (reads_bind (bulk_rows next _ _ _) (λ w, rows_opt (λ o, g o w) _ _ _) _
    (λ vs _, (λ vs, set_variables vs response) <$> vs)); [by apply bulk_rows_reads|].
  intros vs. apply reads_ret.
Qed.

Lemma process_reads fuel request sec w :
  inv w → is_read (pdu_type request) = true → (length (mib view hs w) < fuel)%nat →
  (process_with_access fuel hs request sec w).1 =
    Some (serve (root <$> hs) (mib view hs w) sec request) ∧
  eqv (process_with_access fuel hs request sec w).2 w.
Proof using All.
  intros Hw Hr Hf.
  assert (N : ∀ o, next_loop fuel (allows sec Read) (mib view hs w) o o =
    Some (visible_next (allows sec Read) (mib view hs w) o)).
  { intros o. apply next_loop_visible; [by apply mib_sorted|by apply mib_no_end|done]. }
  assert (H : ∀ m f, reads inv eqv m f →
    process_with_access fuel hs request sec = m →
    f w = Some (serve (root <$> hs) (mib view hs w) sec request) →
    (process_with_access fuel hs request sec w).1 =
      Some (serve (root <$> hs) (mib view hs w) sec request) ∧
    eqv (process_with_access fuel hs request sec w).2 w).
  { intros m f R -> E. split; [by rewrite (reads_val _ _ _ _ R w Hw)|by eapply reads_frame]. }
  unfold process_with_access, serve in *. destruct (pdu_type request); try done.
  - eapply H; [|done|].
    + eapply (reads_bind _ _ _ (λ r _, Some r)); [apply get_loop_reads|].
      intros r. apply reads_ret.
    + cbn. by destruct (first_denied _ _ _ _).
  - eapply H; [|done|].
    + eapply (reads_bind _ _ _ (λ vs _,
        (λ vs, set_variables vs (new_pdu Response (request_id request))) <$> vs));
        [|intros r; apply reads_ret].
      apply (reads_push_all _ (λ vb w, next_loop fuel (allows sec Read) (mib view hs w)
        (vb_oid vb) (vb_oid vb))). intros vb. apply next_accessible_reads.
    + cbn. by rewrite (mapM_Some_fmap _
        (λ vb, visible_next (allows sec Read) (mib view hs w) (vb_oid vb))) by (intros; apply N).
  - destruct (vacm sec) eqn:V; (eapply H; [|done|]).
    + apply bulk_with_reads. intros o. apply next_accessible_reads.
    + cbv beta. rewrite (mapM_Some_fmap _ _ _ N). by rewrite (rows_opt_total _ _ _ _ _ N).
    + apply bulk_with_reads. intros o.
      apply (reads_bind (do_get_next hs o) (λ w, next_answer (mib view hs w) o) _
        (λ vb _, Some vb)); [apply do_get_next_reads|]. intros vb. apply reads_ret.
    + cbv beta.
      assert (N' : ∀ o, Some (next_answer (mib view hs w) o) =
        Some (visible_next (allows sec Read) (mib view hs w) o)).
      { intros o. f_equal. rewrite <- visible_next_all. unfold visible_next.
        erewrite find_ext; [done|]. intros x. unfold allows. by rewrite V. }
      rewrite (mapM_Some_fmap _ _ _ N'). by rewrite (rows_opt_total _ _ _ _ _ N').
Qed.
End Serving.

(** * SET *)

Definition reserve_status (r : status_result) : ErrorStatus :=
  match r with Ok _ => NoError | Err s => s end.

(** What a writable handler promises the SET transaction: reserving has no
    effect, a commit keeps the invariant and what other reservations rely on
    ([stable]), and a binding that was reserved commits. *)
Class CommittingHandler {W} (inv : W → Prop) (eqv stable : relation W) (h : MibHandler W) : Prop := {
  committing_reserve :: ReservingHandler inv eqv h;
  commit_keeps o v w : inv w → inv (commit_set h o v w).2;
  commit_stable o v w : inv w → stable w (commit_set h o v w).2;
  prepare_sound o v w w' :
    inv w → inv w' → stable w w' →
    is_ok_status (reserve_status (prepare_set h o v w).1) = true →
    (commit_set h o v w').1 = Ok tt
}.

(** The effect of attempting every commit in order. *)
Fixpoint commit_world {W} (plans : list (option (MibHandler W) * VarBind)) (w : W) : W :=
  match plans with
  | [] => w
  | (Some h, vb) :: plans' =>
      commit_world plans' (commit_set h (vb_oid vb) (vb_value vb) w).2
  | (None, _) :: plans' => commit_world plans' w
  end.

(** The bindings whose commit fails, with their status, in order. *)
Fixpoint commit_failures {W} (idx : nat) (plans : list (option (MibHandler W) * VarBind)) (w : W) :
    list (nat * ErrorStatus) :=
  match plans with
  | [] => []
  | (Some h, vb) :: plans' =>
      let '(r, w') := commit_set h (vb_oid vb) (vb_value vb) w in
      match r with
      | Ok _ => commit_failures (S idx) plans' w'
      | Err s => (idx, s) :: commit_failures (S idx) plans' w'
      end
  | (None, _) :: plans' => (idx, NotWritable) :: commit_failures (S idx) plans' w
  end.

(** What the reservations answer, made one after another, and the world after
    them all. *)
Fixpoint reservations {W} (plans : list (option (MibHandler W) * VarBind)) (w : W) : list ErrorStatus :=
  match plans with
  | [] => []
  | p :: plans' => let '(st, w') := reserve p w in st :: reservations plans' w'
  end.

Fixpoint reserve_world {W} (plans : list (option (MibHandler W) * VarBind)) (w : W) : W :=
  match plans with
  | [] => w
  | p :: plans' => reserve_world plans' (reserve p w).2
  end.

Definition all_accepted (sts : list ErrorStatus) : Prop := Forall (λ st, is_ok_status st = true) sts.

(** The first refusal among the answers, by its place. *)
Definition first_refusal (sts : list ErrorStatus) (i : nat) (st : ErrorStatus) : Prop :=
  sts !! i = Some st ∧ is_ok_status st = false ∧ all_accepted (take i sts).

Lemma reserve_pass_answers {W} idx (plans : list (option (MibHandler W) * VarBind)) w :
  match reserve_pass idx plans w with
  | (Some (i, st), _) => (idx <= i)%nat ∧ first_refusal (reservations plans w) (i - idx) st
  | (None, w') => all_accepted (reservations plans w) ∧ w' = reserve_world plans w
  end.
Proof.
  revert idx w. induction plans as [|p plans IH]; intros idx w; cbn; [by split; [constructor|]|].
  unfold sbind. destruct (reserve p w) as [st w'] eqn:E. destruct (is_ok_status st) eqn:K.
  - specialize (IH (S idx) w'). cbn. destruct (reserve_pass (S idx) plans w') as [[[i st']|] w''].
    + destruct IH as (Hi & H1 & H2 & H3). split; [lia|]. replace (i - idx)%nat with (S (i - S idx)) by lia.
      split_and!; [done..|]. by constructor.
    + destruct IH as [H ->]. split; [by constructor|done].
  - cbn. split; [lia|]. rewrite Nat.sub_diag. split_and!; [done..|constructor].
Qed.

(** The bindings whose commit succeeds, with their handlers, in order. *)
Fixpoint committed_bindings {W} (plans : list (option (MibHandler W) * VarBind)) (w : W) :
    list (MibHandler W * VarBind) :=
  match plans with
  | [] => []
  | (Some h, vb) :: plans' =>
      let '(r, w') := commit_set h (vb_oid vb) (vb_value vb) w in
      if is_ok r then (h, vb) :: committed_bindings plans' w' else committed_bindings plans' w'
  | (None, _) :: plans' => committed_bindings plans' w
  end.

(** Their undoing, in order: what each answers, and the world after it. *)
Fixpoint undo_answers {W} (ps : list (MibHandler W * VarBind)) (w : W) : list status_result :=
  match ps with
  | [] => []
  | (h, vb) :: ps' => let '(r, w') := undo_set h (vb_oid vb) (vb_value vb) w in r :: undo_answers ps' w'
  end.

Fixpoint undo_world {W} (ps : list (MibHandler W * VarBind)) (w : W) : W :=
  match ps with
  | [] => w
  | (h, vb) :: ps' => undo_world ps' (undo_set h (vb_oid vb) (vb_value vb) w).2
  end.

(** The positions that the commit pass keeps are those of the bindings committed. *)
Lemma commit_pass_positions {W} (all : list (option (MibHandler W) * VarBind)) plans idx failed committed w :
  drop idx all = plans →
  ∃ ns, (commit_pass idx plans failed committed w).1.2 = committed ++ ns ∧
    (λ n, all !! n) <$> ns = (λ p, Some (Some p.1, p.2)) <$> committed_bindings plans w.
Proof.
  revert idx failed committed w.
  induction plans as [|p plans IH]; intros idx failed committed w Hd; [exists []; by rewrite app_nil_r|].
  assert (Hp : all !! idx = Some p) by (by rewrite <- (Nat.add_0_r idx), <- lookup_drop, Hd).
  assert (Hd' : drop (S idx) all = plans) by (by rewrite <- Nat.add_1_r, <- drop_drop, Hd).
  destruct p as [[h|] vb]; cbn; [|by apply IH].
  unfold sbind. destruct (commit_set h (vb_oid vb) (vb_value vb) w) as [[u|s] w']; cbn; [|by apply IH].
  destruct (IH (S idx) failed (committed ++ [idx]) w' Hd') as (ns & -> & E).
  exists (idx :: ns). rewrite <- app_assoc. split; [done|]. by rewrite !fmap_cons, E, Hp.
Qed.

Lemma undo_pass_answers {W} (hs : list (MibHandler W)) plans ns ps failed w :
  (λ n, plans !! n) <$> ns = (λ p, Some (Some p.1, p.2)) <$> ps →
  Forall (λ p, handler_for hs (vb_oid p.2) = Some p.1) ps →
  undo_pass hs plans ns failed w = (failed || negb (forallb is_ok (undo_answers ps w)), undo_world ps w).
Proof.
  revert ps failed w. induction ns as [|n ns IH]; intros [|[h vb] ps] failed w; try done; cbn.
  { by rewrite orb_false_r. }
  intros [= Hn E] [Hh HF]%Forall_cons. cbn in Hh. rewrite Hn, Hh. unfold sbind.
  destruct (undo_set h (vb_oid vb) (vb_value vb) w) as [r w']. rewrite (IH ps) by done.
  f_equal. cbn. destruct (is_ok r), failed; done.
Qed.

Lemma committed_handlers {W} (hs : list (MibHandler W)) vbs w :
  Forall (λ p, handler_for hs (vb_oid p.2) = Some p.1)
    (committed_bindings ((λ vb, (handler_for hs (vb_oid vb), vb)) <$> vbs) w).
Proof.
  revert w. induction vbs as [|vb vbs IH]; intros w; [constructor|]. rewrite fmap_cons. cbn.
  destruct (handler_for hs (vb_oid vb)) as [h|] eqn:E; [|apply IH].
  destruct (commit_set h (vb_oid vb) (vb_value vb) w) as [r w']. destruct (is_ok r); [|apply IH].
  constructor; [done|apply IH].
Qed.

Lemma commit_pass_spec {W} (plans : list (option (MibHandler W) * VarBind)) idx failed committed w :
  (commit_pass idx plans failed committed w).1.1 =
    match failed with Some f => Some f | None => head (commit_failures idx plans w) end ∧
  (commit_pass idx plans failed committed w).2 = commit_world plans w.
Proof.
  revert idx failed committed w.
  induction plans as [|[[h|] vb] plans IH]; intros idx failed committed w; cbn.
  - by destruct failed.
  - unfold sbind. destruct (commit_set h (vb_oid vb) (vb_value vb) w) as [[u|s] w'];
      destruct (IH (S idx) failed (committed ++ [idx]) w') as [H1 H2].
    + by rewrite H1, H2.
    + destruct failed as [f|]; cbn;
        [destruct (IH (S idx) (Some f) committed w') as [-> ->]
        |destruct (IH (S idx) (Some (idx, s)) committed w') as [-> ->]]; done.
  - destruct failed as [f|]; cbn;
      [destruct (IH (S idx) (Some f) committed w) as [-> ->]
      |destruct (IH (S idx) (Some (idx, NotWritable)) committed w) as [-> ->]]; done.
Qed.

(** C22. When both reserve passes accept every binding, each is committed whatever
    becomes of the others. If no commit fails the response echoes the request
    with no error. Otherwise exactly the bindings whose commit succeeded are
    undone, each once and in order; the first failing commit gives the error
    index, and its status is reported unless an undo fails, which is reported
    as [undoFailed]. *)
Theorem set_commit_phase {W} (hs : list (MibHandler W)) request w :
  let plans := plans_of hs request in
  let w1 := reserve_world plans w in
  let w2 := reserve_world plans w1 in
  all_accepted (reservations plans w) → all_accepted (reservations plans w1) →
  let r := process_set hs request (new_pdu Response (request_id request)) w in
  variables r.1 = variables request ∧
  match commit_failures 0 plans w2 with
  | [] => error_status r.1 = 0 ∧ error_index r.1 = 0 ∧ r.2 = commit_world plans w2
  | (idx, st) :: _ =>
      let undone := committed_bindings plans w2 in
      let failed := negb (forallb is_ok (undo_answers undone (commit_world plans w2))) in
      error_index r.1 = Z.of_nat idx + 1 ∧
      error_status r.1 = code (if failed then UndoFailed else st) ∧
      r.2 = undo_world undone (commit_world plans w2)
  end.
Proof.
  intros plans w1 w2 H1 H2. cbn zeta. unfold process_set, sbind. fold plans.
  pose proof (reserve_pass_answers 0 plans w) as R1.
  destruct (reserve_pass 0 plans w) as [[[i st]|] w1'].
  { destruct R1 as (_ & Hi & Hst & _). eapply Forall_lookup_1 in H1; [|done]. by rewrite H1 in Hst. }
  destruct R1 as [_ ->]. fold w1. pose proof (reserve_pass_answers 0 plans w1) as R2.
  destruct (reserve_pass 0 plans w1) as [[[i st]|] w2'].
  { destruct R2 as (_ & Hi & Hst & _). eapply Forall_lookup_1 in H2; [|done]. by rewrite H2 in Hst. }
  destruct R2 as [_ ->]. fold w2.
  destruct (commit_pass_spec plans 0 None [] w2) as [C1 C2].
  destruct (commit_pass_positions plans plans 0 None [] w2 eq_refl) as (ns & C3 & C4).
  destruct (commit_pass 0 plans None [] w2) as [[failed committed] w3].
  cbn in C1, C2, C3. subst w3 committed. destruct (commit_failures 0 plans w2) as [|[idx st] fs];
    cbn in C1; subst failed; [done|].
  rewrite (undo_pass_answers hs plans ns _ false _ C4); [done|apply committed_handlers].
Qed.

Section Transaction.
Context {W : Type} {inv : W → Prop} {eqv stable : relation W}.
Context `{!ReadWorld inv eqv} `{!PreOrder stable}.
Context (eqv_stable : ∀ w w', eqv w w' → stable w w').
Context (hs : list (MibHandler W)).
Context (Hh : ∀ h, h ∈ hs → CommittingHandler inv eqv stable h).

Lemma reserve_frame p w :
  (∀ h, p.1 = Some h → h ∈ hs) → inv w → eqv (reserve p w).2 w.
Proof using All.
  intros Hp Hw. unfold reserve. destruct p as [[h|] vb]; cbn; [|reflexivity].
  unfold sbind. pose proof (Hh h (Hp h eq_refl)) as C.
  pose proof (prepare_frame (h:=h) (vb_oid vb) (vb_value vb) w Hw) as F.
  by destruct (prepare_set h (vb_oid vb) (vb_value vb) w).
Qed.

(** A reservation that holds in some earlier world. *)
Definition reserved (p : option (MibHandler W) * VarBind) (w : W) : Prop :=
  match p.1 with
  | Some h => h ∈ hs ∧ ∃ w0, inv w0 ∧ stable w0 w ∧
      is_ok_status (reserve_status (prepare_set h (vb_oid p.2) (vb_value p.2) w0).1) = true
  | None => False
  end.

Lemma reserved_mono p w w' : stable w w' → reserved p w → reserved p w'.
Proof using All.
  unfold reserved. destruct p.1; [|done]. intros S (? & w0 & ? & ? & ?).
  split; [done|]. exists w0. split_and!; try done. by transitivity w.
Qed.

Lemma reserve_pass_spec idx plans w :
  (∀ p h, p ∈ plans → p.1 = Some h → h ∈ hs) → inv w →
  eqv (reserve_pass idx plans w).2 w ∧
  match (reserve_pass idx plans w).1 with
  | None => ∀ p, p ∈ plans → reserved p w
  | Some (i, st) => (idx <= i < idx + length plans)%nat ∧ is_ok_status st = false
  end.
Proof using All.
  revert idx w. induction plans as [|p plans IH]; intros idx w Hp Hw; cbn.
  { split; [reflexivity|]. by intros p ?%elem_of_nil. }
  unfold sbind. pose proof (reserve_frame p w (λ h, Hp p h (list_elem_of_here _ _)) Hw) as F.
  destruct (reserve p w) as [st w1] eqn:R. cbn in F.
  assert (Hw1 : inv w1) by (by eapply inv_eqv).
  destruct (is_ok_status st) eqn:Sk.
  2: { cbn. split; [done|]. split; [lia|done]. }
  destruct (IH (S idx) w1) as [F' H]; [intros q h Hq; apply Hp; by right|done|].
  split; [by etransitivity|].
  destruct (reserve_pass (Datatypes.S idx) plans w1).1 as [[i st']|].
  - destruct H. split; [lia|done].
  - intros q [->|Hq]%elem_of_cons.
    + unfold reserve, reserved, sbind, sret in *. specialize (Hp p).
      destruct p as [[h|] vb]; cbn in *; [|by injection R as <- <-].
      split; [apply Hp; [left|done]|]. exists w. split_and!; [done|reflexivity|].
      destruct (prepare_set h _ _ w) as [r w2]. injection R as <- <-. by destruct r.
    + apply (reserved_mono q w1); [by apply eqv_stable|by apply H].
Qed.

Lemma commit_failures_reserved idx plans w :
  inv w → (∀ p, p ∈ plans → reserved p w) → commit_failures idx plans w = [].
Proof using All.
  revert idx w. induction plans as [|[[h|] vb] plans IH]; intros idx w Hw Hr; cbn; [done| |].
  - destruct (Hr (Some h, vb) (list_elem_of_here _ _)) as (Hin & w0 & Hi & Hs & Hk).
    pose proof (Hh h Hin) as C.
    pose proof (prepare_sound (CommittingHandler:=C) _ _ w0 w Hi Hw Hs Hk) as E.
    pose proof (commit_keeps (CommittingHandler:=C) (vb_oid vb) (vb_value vb) w Hw) as K.
    pose proof (commit_stable (CommittingHandler:=C) (vb_oid vb) (vb_value vb) w Hw) as St.
    cbn in E. destruct (commit_set h (vb_oid vb) (vb_value vb) w) as [r w']. cbn in *. subst r.
    apply IH; [done|]. intros p Hp. eapply reserved_mono; [done|]. apply Hr. by right.
  - destruct (Hr (None, vb) (list_elem_of_here _ _)).
Qed.

Lemma set_transaction request w :
  inv w →
  let plans := plans_of hs request in
  let w1 := reserve_world plans w in
  let w2 := reserve_world plans w1 in
  let r := process_set hs request (new_pdu Response (request_id request)) w in
  variables r.1 = variables request ∧
  ((∃ i st, error_index r.1 = Z.of_nat i + 1 ∧ error_status r.1 = code st ∧ eqv r.2 w ∧
      (first_refusal (reservations plans w) i st ∨
       all_accepted (reservations plans w) ∧ first_refusal (reservations plans w1) i st)) ∨
   (all_accepted (reservations plans w) ∧ all_accepted (reservations plans w1) ∧
    error_status r.1 = 0 ∧ error_index r.1 = 0 ∧ eqv w2 w ∧ r.2 = commit_world plans w2)).
Proof using All.
  intros Hw plans w1 w2. cbn zeta.
  assert (Hp : ∀ p h, p ∈ plans → p.1 = Some h → h ∈ hs).
  { intros p h (vb & -> & _)%list_elem_of_fmap E. cbn in E. by apply handler_for_Some in E as [? _]. }
  unfold process_set, sbind. fold plans.
  destruct (reserve_pass_spec 0 _ w Hp Hw) as [F1 R1]. pose proof (reserve_pass_answers 0 plans w) as A1.
  destruct (reserve_pass 0 plans w) as [[[i st]|] w1']; cbn in F1, R1.
  { destruct A1 as [_ A1]. rewrite Nat.sub_0_r in A1. split; [done|]. left. exists i, st. split_and!; try done. by left. }
  destruct A1 as [A1 ->]. fold w1 in F1 |- *. assert (Hw1 : inv w1) by (by eapply inv_eqv).
  destruct (reserve_pass_spec 0 _ w1 Hp Hw1) as [F2 R2]. pose proof (reserve_pass_answers 0 plans w1) as A2.
  destruct (reserve_pass 0 plans w1) as [[[i st]|] w2']; cbn in F2, R2.
  { destruct A2 as [_ A2]. rewrite Nat.sub_0_r in A2. split; [done|]. left. exists i, st.
    split_and!; [done..|by transitivity w1|by right]. }
  destruct A2 as [A2 ->]. fold w2 in F2 |- *. assert (Hw2 : inv w2) by (by eapply inv_eqv).
  destruct (commit_pass_spec plans 0 None [] w2) as [C1 C2].
  rewrite commit_failures_reserved in C1; [|done|].
  2: { intros p Hq. eapply reserved_mono; [apply eqv_stable; symmetry; exact F2|by apply R2]. }
  destruct (commit_pass 0 plans None [] w2) as [[failed committed] w3].
  cbn in C1, C2. subst. cbn. split; [done|]. right. split_and!; try done. by transitivity w1.
Qed.
End Transaction.
