(* ===== verification/Serving.v ===== *)
(** * The registry's guarantees, and a registry that has them

    The properties of [process_with_access] for every registry of handlers that
    keep their promises ([RegistryOk], [CommittingHandler]), the instances of
    those promises for the in-memory handlers of [scalar.rs], and a concrete
    two-handler registry. *)

From Stdlib Require Import ZArith Lia.
From S2P Require Import Prelude MachineInts Oid Value Pdu Cells Handler Scalar Vacm Registry.

(** ** The in-memory handlers keep the SET promises *)

#[export] Instance scalar_committing c :
  CommittingHandler (λ _, True) eq (λ _ _, True) (ScalarHandler.handler c).
Proof.
  split; [apply ScalarHandler.reserving|done|done|]. intros o v w w' _ _ _. cbn.
  unfold ScalarHandler.prepare_set, ScalarHandler.commit_set, ScalarHandler.set.
  by repeat (destruct (negb _); [done|]).
Qed.

Definition same_keys (m m' : cells) : Prop :=
  ∀ o, is_Some (lookup_cell o m) → is_Some (lookup_cell o m').

#[export] Instance same_keys_preorder : PreOrder same_keys.
Proof. split; [by intros m o|]. intros m1 m2 m3 H1 H2 o H. by apply H2, H1. Qed.

#[export] Instance map_committing c :
  CommittingHandler (MapHandler.inv c) eq same_keys (MapHandler.handler c).
Proof.
  split; [apply MapHandler.reserving|intros o v w; apply MapHandler.commit_inv| |].
  - intros o v w [HS _] o' Ho'. cbn. unfold default_commit_set, MapHandler.set.
    destruct (negb _); [done|]. destruct (lookup_cell o w); [|done]. cbn [snd].
    rewrite lookup_btree_insert by done. by destruct (Oid.eqb o o').
  - intros o v w w' _ _ Hk. cbn.
    unfold MapHandler.prepare_set, default_commit_set, MapHandler.set.
    destruct (negb _); [done|]. specialize (Hk o).
    destruct (lookup_cell o w) as [x|]; [|done]. destruct Hk as [y ->]; [by eexists|done].
Qed.

(** Placing a handler in a larger world keeps the promises. *)
Lemma place_committing {W S} (l : Lens W S) (inv : S → Prop) (stable : relation S)
    (INV : W → Prop) (STABLE : relation W) (h : MibHandler S) :
  LensLaws l → CommittingHandler inv eq stable h →
  (∀ w, INV w → inv (proj l w)) →
  (∀ s w, INV w → inv s → INV (upd l s w)) →
  (∀ w w', STABLE w w' → stable (proj l w) (proj l w')) →
  (∀ s w, INV w → stable (proj l w) s → STABLE w (upd l s w)) →
  CommittingHandler INV eq STABLE (place l h).
Proof.
  intros Hl Hc Hi Hu Hs Ht. split.
  - split. intros o v w Hw. cbn. unfold zoom.
    pose proof (prepare_frame (h:=h) o v (proj l w) (Hi w Hw)) as F.
    destruct (prepare_set h o v (proj l w)) as [a s]. cbn in *. subst s. apply upd_proj.
  - intros o v w Hw. cbn. unfold zoom. pose proof (commit_keeps (h:=h) o v (proj l w) (Hi w Hw)).
    destruct (commit_set h o v (proj l w)) as [a s]. by apply Hu.
  - intros o v w Hw. cbn. unfold zoom. pose proof (commit_stable (h:=h) o v (proj l w) (Hi w Hw)).
    destruct (commit_set h o v (proj l w)) as [a s]. by apply Ht.
  - intros o v w w' Hw Hw' Hst. cbn. unfold zoom.
    pose proof (prepare_sound (h:=h) o v (proj l w) (proj l w') (Hi _ Hw) (Hi _ Hw') (Hs _ _ Hst)) as P.
    destruct (prepare_set h o v (proj l w)) as [a s].
    by destruct (commit_set h o v (proj l w')) as [a' s'].
Qed.

(** ** A concrete registry: a scalar and a map side by side *)

Module Example.

Definition world : Type := Value * cells.

Definition fst_lens : Lens world Value := mkLens fst (λ s w, (s, w.2)).
Definition snd_lens : Lens world cells := mkLens snd (λ s w, (w.1, s)).

#[export] Instance fst_laws : LensLaws fst_lens.
Proof. split; [done|by intros []|done]. Qed.
#[export] Instance snd_laws : LensLaws snd_lens.
Proof. split; [done|by intros []|done]. Qed.

Definition scalar_root : Oid := [1; 3; 6; 1; 2; 1; 1; 5].
Definition map_root : Oid := [1; 3; 6; 1; 4; 1].

Definition scalar_config := ScalarHandler.writable (ScalarHandler.new scalar_root).
Definition map_config := MapHandler.writable (MapHandler.new map_root).

Definition scalar : MibHandler world := place fst_lens (ScalarHandler.handler scalar_config).
Definition map_ : MibHandler world := place snd_lens (MapHandler.handler map_config).

Definition hs : list (MibHandler world) := register (register [] map_) scalar.

Definition view (h : MibHandler world) (w : world) : cells :=
  if Oid.eqb (root h) scalar_root then ScalarHandler.view scalar_config w.1 else w.2.

Definition inv (w : world) : Prop :=
  MapHandler.inv map_config w.2 ∧ w.1 ≠ VEndOfMibView ∧ no_end w.2.

Definition set_inv (w : world) : Prop := MapHandler.inv map_config w.2.
Definition stable (w w' : world) : Prop := same_keys w.2 w'.2.

#[export] Instance stable_preorder : PreOrder stable.
Proof. split; [by intros m o|]. intros m1 m2 m3 H1 H2 o H. by apply H2, H1. Qed.

#[export] Instance read_world (P : world → Prop) : ReadWorld P eq.
Proof. split; [apply _|by intros w w' ->]. Qed.

Lemma hs_list : hs = [scalar; map_].
Proof. reflexivity. Qed.

#[export] Instance registry_ok : RegistryOk inv eq view hs.
Proof.
  rewrite hs_list. split; [apply _| | | |].
  - intros h [->|[->|Hn%elem_of_nil]%elem_of_cons]%elem_of_cons; [| |done].
    + apply (place_readable fst_lens (λ _, True) eq inv eq _
        (ScalarHandler.view scalar_config)); [by apply ScalarHandler.readable|done| |].
      * by intros w w' ->.
      * by intros s [v m] _ ->.
    + apply (place_readable snd_lens (MapHandler.inv map_config) eq inv eq _ id);
        [apply MapHandler.readable|by intros w [? _]| |].
      * by intros w w' ->.
      * by intros s [v m] _ ->.
  - intros h w Hin (_ & Hv & Hm). apply elem_of_cons in Hin as [->| ->%list_elem_of_singleton].
    + by intros c ->%list_elem_of_singleton.
    + done.
  - repeat constructor. by unfold root_le.
  - split; [apply (bool_decide_eq_true _); reflexivity|].
    intros a b Ha Hb. cbn in Ha, Hb.
    apply elem_of_cons in Ha as [->| ->%list_elem_of_singleton];
      apply elem_of_cons in Hb as [->| ->%list_elem_of_singleton]; done.
Qed.

Lemma committing h : h ∈ hs → CommittingHandler set_inv eq stable h.
Proof.
  rewrite hs_list.
  intros [->|[->|Hn%elem_of_nil]%elem_of_cons]%elem_of_cons; [| |done].
  - apply (place_committing fst_lens (λ _, True) (λ _ _, True)); try apply _; try done.
    by intros s w _ _ o.
  - apply (place_committing snd_lens (MapHandler.inv map_config) same_keys); try apply _;
      try done.
Qed.

Definition w0 : world :=
  (VOctetString [97], [(map_root ++ [1; 0], VInteger 7); (map_root ++ [2; 0], VInteger 8)]).

Lemma w0_inv : inv w0.
Proof.
  assert (H : ∀ c, c ∈ w0.2 → c = (map_root ++ [1; 0], VInteger 7)
    ∨ c = (map_root ++ [2; 0], VInteger 8)) by 
    (by intros c [->| ->%list_elem_of_singleton]%elem_of_cons; [left|right]).
  split; [split|split; [done|]].
  - repeat constructor.
  - by intros c [-> | ->]%H.
  - by intros c [-> | ->]%H.
Qed.

End Example.

(** ** What a read discloses *)

Lemma visible_next_cases allowed cs o :
  strictly_sorted cs →
  (∃ c, c ∈ cs ∧ Oid.lt o c.1 ∧ allowed c.1 = true ∧ visible_next allowed cs o = mkVarBind c.1 c.2 ∧
     ∀ d, d ∈ cs → Oid.lt o d.1 → allowed d.1 = true → Oid.le c.1 d.1) ∨
  (visible_next allowed cs o = mkVarBind o VEndOfMibView ∧
     ∀ d, d ∈ cs → Oid.lt o d.1 → allowed d.1 = false).
Proof.
  intros HS. unfold visible_next.
  induction HS as [|c cs HS IH HF]; [right; split; [done|by intros d ?%elem_of_nil]|].
  unfold find. cbn. destruct (Oid.ltb o c.1 && allowed c.1) eqn:E.
  - left. apply andb_true_iff in E as [L%Oid.ltb_lt A].
    exists c. split_and!; [left|done|done|done|].
    intros d [->|Hd]%elem_of_cons _ _; [reflexivity|]. rewrite Forall_forall in HF.
    apply Oid.lt_le. by apply HF.
  - assert (Hc : Oid.lt o c.1 → allowed c.1 = false).
    { intros L. by rewrite (proj2 (Oid.ltb_lt _ _) L) in E. }
    destruct IH as [(d & Hd & L & A & Eq & Min)|[Eq None]].
    + left. exists d. split_and!; [by right|done|done|exact Eq|].
      intros e [->|He]%elem_of_cons Le Ae; [|by apply Min]. apply Hc in Le. congruence.
    + right. split; [exact Eq|]. intros d [->|Hd]%elem_of_cons; [done|by apply None].
Qed.

(** [vb] shows only a readable cell, or the end of the view at an OID the
    caller named or could read. *)
Definition discloses (allowed : Oid → bool) (cs : cells) (asked : list Oid) (vb : VarBind) : Prop :=
  (allowed (vb_oid vb) = true ∧ (vb_oid vb, vb_value vb) ∈ cs) ∨
  (vb_value vb = VEndOfMibView ∧ (vb_oid vb ∈ asked ∨ allowed (vb_oid vb) = true)).

Lemma visible_next_discloses allowed cs asked o :
  strictly_sorted cs → (o ∈ asked ∨ allowed o = true) →
  discloses allowed cs asked (visible_next allowed cs o).
Proof.
  intros HS Ho. destruct (visible_next_cases allowed cs o HS) as [(c & Hc & _ & A & -> & _)|[-> _]].
  - left. cbn. by destruct c.
  - by right.
Qed.

Lemma discloses_cursor allowed cs asked vb :
  discloses allowed cs asked vb → vb_oid vb ∈ asked ∨ allowed (vb_oid vb) = true.
Proof. intros [[? _]|[_ ?]]; auto. Qed.

Lemma rows_disclose allowed cs asked n cursors :
  strictly_sorted cs → (∀ o, o ∈ cursors → o ∈ asked ∨ allowed o = true) →
  ∀ vb, vb ∈ rows_of (visible_next allowed cs) n cursors → discloses allowed cs asked vb.
Proof.
  intros HS. revert cursors. induction n as [|n IH]; intros cursors Hc vb; cbn [rows_of];
    [by intros ?%elem_of_nil|].
  assert (Hrow : ∀ vb, vb ∈ visible_next allowed cs <$> cursors → discloses allowed cs asked vb).
  { intros x (o & -> & Ho)%list_elem_of_fmap. apply visible_next_discloses; [done|by apply Hc]. }
  intros [H|H]%elem_of_app; [by apply Hrow|].
  destruct (forallb _ _); [by apply elem_of_nil in H|]. revert H. apply IH.
  intros o (x & -> & Hx)%list_elem_of_fmap. by apply (discloses_cursor _ cs), Hrow.
Qed.

Lemma length_rows_of next n cursors :
  (length (rows_of next n cursors) <= n * length cursors)%nat.
Proof.
  revert cursors. induction n as [|n IH]; intros cursors; cbn [rows_of]; [done|].
  rewrite length_app, length_fmap. destruct (forallb _ _); cbn; [lia|].
  specialize (IH (vb_oid <$> (next <$> cursors))). rewrite !length_fmap in IH. lia.
Qed.

(** The chain of successors of one repeated variable. *)
Fixpoint chain (next : Oid → VarBind) (n : nat) (o : Oid) : list VarBind :=
  match n with
  | O => []
  | S n' => let vb := next o in vb :: chain next n' (vb_oid vb)
  end.

(** The repetitions are some number of complete rows, at most [n], where each
    column is the chain of successors of its variable; if fewer than [n], the
    last row is at the end of the view in every column. *)
Lemma rows_of_chain next n cursors :
  ∃ k, (k <= n)%nat ∧ length (rows_of next n cursors) = (k * length cursors)%nat ∧
  (∀ i j o, (i < k)%nat → cursors !! j = Some o →
     rows_of next n cursors !! (i * length cursors + j)%nat = chain next n o !! i) ∧
  ((k < n)%nat → (0 < k)%nat ∧ ∀ j o vb, cursors !! j = Some o →
     chain next n o !! (k - 1)%nat = Some vb → is_end_vb vb = true).
Proof.
  revert cursors. induction n as [|n IH]; intros cursors; cbn [rows_of].
  { exists O. split_and!; [done|done|lia|lia]. }
  assert (Hrow : ∀ j o, cursors !! j = Some o → (next <$> cursors) !! j = Some (next o)).
  { intros j o Hj. by rewrite list_lookup_fmap, Hj. }
  destruct (forallb is_end_vb (next <$> cursors)) eqn:E.
  - exists 1%nat. rewrite app_nil_r, length_fmap. split_and!; [lia|lia| |].
    + intros i j o Hi Hj. replace i with O by lia. cbn. by apply Hrow.
    + intros _. split; [lia|]. intros j o vb Hj [= <-].
      rewrite forallb_forall in E. apply E. apply list_elem_of_In.
      by eapply list_elem_of_lookup_2, Hrow.
  - destruct (IH (vb_oid <$> (next <$> cursors))) as (k & Hk & HL & HC & HE).
    rewrite !length_fmap in *. exists (S k).
    assert (Hcur : ∀ j o, cursors !! j = Some o →
      (vb_oid <$> (next <$> cursors)) !! j = Some (vb_oid (next o))).
    { intros j o Hj. by rewrite list_lookup_fmap, (Hrow _ _ Hj). }
    split_and!; [lia|rewrite length_app, length_fmap; lia| |].
    + intros [|i] j o Hi Hj; cbn [chain Nat.mul Nat.add].
      * rewrite lookup_app_l by (rewrite length_fmap; by apply lookup_lt_Some in Hj). by apply Hrow.
      * rewrite lookup_app_r by (rewrite length_fmap; lia). rewrite length_fmap.
        replace (length cursors + i * length cursors + j - length cursors)%nat
          with (i * length cursors + j)%nat by lia.
        apply HC; [lia|]. by apply Hcur.
    + intros Hlt. destruct HE as [Hpos HE]; [lia|]. split; [lia|]. intros j o vb Hj.
      destruct k as [|k]; [lia|]. cbn [chain]. replace (S (S k) - 1)%nat with (S k) by lia. cbn.
      intros Hc. apply (HE j (vb_oid (next o))); [by apply Hcur|].
      by replace (S k - 1)%nat with k by lia.
Qed.

(** ** The properties *)

Section Properties.
Context {W : Type} {inv : W → Prop} {eqv : relation W}.
Context {view : MibHandler W → W → cells} {hs : list (MibHandler W)}.

(** C1. Over handlers that answer from ordered cells under their roots, registered
    in root order with no root inside another's subtree ([RegistryOk]), GET,
    GETNEXT and GETBULK under access control refine [serve] over the ordered
    union of the handlers' cells: enough fuel for one step per cell gives the
    response, and the world changes only by what no read can see.
    [nested_roots_skip] shows that the condition on roots is needed. *)
Theorem process_serves (OK : RegistryOk inv eqv view hs) fuel request sec w :
  inv w → is_read (pdu_type request) = true → (length (mib view hs w) < fuel)%nat →
  (process_with_access fuel hs request sec w).1 =
    Some (serve (root <$> hs) (mib view hs w) sec request) ∧
  eqv (process_with_access fuel hs request sec w).2 w.
Proof using Type. apply process_reads. Qed.

(** GETNEXT answers every variable with the least readable cell after its OID
    over all handlers, or with [EndOfMibView] at that OID when every later
    cell is unreadable. *)
Theorem getnext_least (OK : RegistryOk inv eqv view hs) fuel request sec w :
  inv w → pdu_type request = GetNext → (length (mib view hs w) < fuel)%nat →
  ∃ resp, (process_with_access fuel hs request sec w).1 = Some resp ∧
    error_status resp = 0 ∧ request_id resp = request_id request ∧
    Forall2 (λ vb vb',
      (∃ c, c ∈ mib view hs w ∧ Oid.lt (vb_oid vb) c.1 ∧ allows sec Read c.1 = true ∧
         vb' = mkVarBind c.1 c.2 ∧
         ∀ d, d ∈ mib view hs w → Oid.lt (vb_oid vb) d.1 → allows sec Read d.1 = true →
           Oid.le c.1 d.1) ∨
      (vb' = mkVarBind (vb_oid vb) VEndOfMibView ∧
         ∀ d, d ∈ mib view hs w → Oid.lt (vb_oid vb) d.1 → allows sec Read d.1 = false))
      (variables request) (variables resp).
Proof using Type.
  intros Hw Ht Hf. destruct (process_reads fuel request sec w Hw) as [-> _];
    [by rewrite Ht|done|].
  eexists. split; [done|]. unfold serve. rewrite Ht. cbn. split; [done|]. split; [done|].
  apply Forall2_fmap_r. apply Forall_Forall2_diag, Forall_forall. intros vb _.
  by apply visible_next_cases, mib_sorted.
Qed.

(** C3. GETNEXT and GETBULK never disclose a cell outside the caller's read view:
    every binding of the response is a readable cell, or [EndOfMibView] at an
    OID the caller asked for or may read. *)
Theorem reads_never_leak (OK : RegistryOk inv eqv view hs) fuel request sec w resp :
  inv w → pdu_type request = GetNext ∨ pdu_type request = GetBulk →
  (length (mib view hs w) < fuel)%nat →
  (process_with_access fuel hs request sec w).1 = Some resp →
  ∀ vb, vb ∈ variables resp →
    discloses (allows sec Read) (mib view hs w) (vb_oid <$> variables request) vb.
Proof using Type.
  intros Hw Ht Hf. pose proof (mib_sorted (hs:=hs) w Hw) as HS.
  assert (Hsub : ∀ (o : Oid) (l : list VarBind), o ∈ vb_oid <$> l → (∀ x, x ∈ l → x ∈ variables request) →
    o ∈ vb_oid <$> variables request).
  { intros o l (x & -> & Hx)%list_elem_of_fmap Hl. by apply list_elem_of_fmap_2, Hl. }
  destruct (process_reads fuel request sec w Hw) as [-> _];
    [by destruct Ht as [-> | ->]|done|].
  intros [= <-] vb. unfold serve. destruct Ht as [-> | ->]; cbn.
  - intros (x & -> & Hx)%list_elem_of_fmap. apply visible_next_discloses; [done|].
    left. by apply list_elem_of_fmap_2.
  - intros [(o & -> & Ho)%list_elem_of_fmap|H]%elem_of_app.
    + apply visible_next_discloses; [done|]. left. eapply Hsub; [exact Ho|].
      intros x Hx. rewrite <- (take_drop (Z.to_nat (Z.max (non_repeaters request) 0))
        (variables request)). apply elem_of_app. by left.
    + revert H. apply rows_disclose; [done|]. intros o Ho. left. eapply Hsub; [exact Ho|].
      intros x Hx. rewrite <- (take_drop (Z.to_nat (Z.max (non_repeaters request) 0))
        (variables request)). apply elem_of_app. by right.
Qed.

(** C4. Over handlers as in [RegistryOk], with no root inside another's subtree,
    GETBULK returns one successor for each of the first [non-repeaters]
    variables, then at most [max-repetitions] complete rows whose columns are
    the successor chains of the other variables; it stops before
    [max-repetitions] only after a row at the end of the view. *)
Theorem bulk_shape (OK : RegistryOk inv eqv view hs) fuel request sec w :
  inv w → pdu_type request = GetBulk → (length (mib view hs w) < fuel)%nat →
  let next := visible_next (allows sec Read) (mib view hs w) in
  let n := Z.to_nat (non_repeaters request) in
  let reps := Z.to_nat (max_repetitions request) in
  let rest := drop n (variables request) in
  ∃ resp rows k, (process_with_access fuel hs request sec w).1 = Some resp ∧
    variables resp = ((λ vb, next (vb_oid vb)) <$> take n (variables request)) ++ rows ∧
    (k <= reps)%nat ∧ length rows = (k * length rest)%nat ∧
    (∀ i j vb, (i < k)%nat → rest !! j = Some vb →
       rows !! (i * length rest + j)%nat = chain next reps (vb_oid vb) !! i) ∧
    ((k < reps)%nat → (0 < k)%nat ∧ ∀ j vb last, rest !! j = Some vb →
       chain next reps (vb_oid vb) !! (k - 1)%nat = Some last → is_end_vb last = true).
Proof using Type.
  intros Hw Ht Hf next n reps rest.
  destruct (process_reads fuel request sec w Hw) as [-> _]; [by rewrite Ht|done|].
  assert (En : Z.to_nat (Z.max (non_repeaters request) 0) = n) by lia.
  assert (Er : Z.to_nat (Z.max (max_repetitions request) 0) = reps) by lia.
  destruct (rows_of_chain next reps (vb_oid <$> rest)) as (k & Hk & HL & HC & HE).
  rewrite length_fmap in *.
  eexists _, (rows_of next reps (vb_oid <$> rest)), k. split; [done|].
  unfold serve. rewrite Ht, En, Er. cbn [variables set_variables].
  assert (Hcur : ∀ j vb, rest !! j = Some vb → (vb_oid <$> rest) !! j = Some (vb_oid vb)).
  { intros j vb Hj. by rewrite list_lookup_fmap, Hj. }
  split_and!; [|done|done| |].
  - f_equal. by rewrite <- list_fmap_compose.
  - intros i j vb Hi Hj. by apply HC, Hcur.
  - intros Hlt. destruct (HE Hlt) as [? HE']. split; [done|].
    intros j vb last Hj. by apply (HE' j), Hcur.
Qed.
End Properties.

Section SetProperties.
Context {W : Type} {inv : W → Prop} {eqv stable : relation W}.

(** C2. SET is all or nothing for handlers that commit what they reserve. Either
    the first binding that a reserve pass refuses gives the error index and its
    status the error status, and no read can see a change; or both passes
    accept every binding, no error is reported and every binding is committed,
    in order. *)
Theorem set_all_or_nothing (hs : list (MibHandler W)) request w
    (HW : ReadWorld inv eqv) (HS : PreOrder stable)
    (Hes : ∀ w w', eqv w w' → stable w w')
    (Hh : ∀ h, h ∈ hs → CommittingHandler inv eqv stable h) :
  inv w →
  let plans := plans_of hs request in
  let w1 := reserve_world plans w in
  let w2 := reserve_world plans w1 in
  let r := process_set hs request (new_pdu Response (request_id request)) w in
  variables r.1 = variables request ∧
  ((∃ i st, error_index r.1 = Z.of_nat i + 1 ∧ error_status r.1 = code st ∧ eqv r.2 w ∧
      (first_refusal (reservations plans w) i st ∨
       all_accepted (reservations plans w) ∧ first_refusal (reservations plans w1) i st)) ∨
   (all_accepted (reservations plans w) ∧ all_accepted (reservations plans w1) ∧
    error_status r.1 = 0 ∧ error_index r.1 = 0 ∧ eqv w2 w ∧ r.2 = commit_world plans w2)).
Proof using Type. by apply (set_transaction (stable:=stable)). Qed.
End SetProperties.

Lemma first_denied_spec sec t idx vbs :
  match first_denied sec t idx vbs with
  | Some i => ∃ vb, vbs !! (i - idx)%nat = Some vb ∧ (idx <= i)%nat ∧ allows sec t (vb_oid vb) = false
      ∧ ∀ j vb', (j < i - idx)%nat → vbs !! j = Some vb' → allows sec t (vb_oid vb') = true
  | None => ∀ vb, vb ∈ vbs → allows sec t (vb_oid vb) = true
  end.
Proof.
  revert idx. induction vbs as [|vb vbs IH]; intros idx; cbn; [by intros vb ?%elem_of_nil|].
  destruct (allows sec t (vb_oid vb)) eqn:A; cbn.
  - specialize (IH (S idx)). destruct (first_denied sec t (S idx) vbs) as [i|].
    + destruct IH as (vb' & Hi & Hle & Hd & Hb). exists vb'.
      replace (i - idx)%nat with (S (i - S idx)) by lia. split_and!; [done|lia|done|].
      intros [|j] x Hj; cbn; [by intros [= <-]|]. apply Hb. lia.
    + intros x [->|Hx]%elem_of_cons; [done|by apply IH].
  - exists vb. rewrite Nat.sub_diag. split_and!; [done|lia|done|lia].
Qed.

(** C19. A SET (or a GET) with a binding outside the caller's view is refused with
    [noAccess] at the first such binding, echoes the request, and a refused SET
    leaves the world exactly as it was. *)
Theorem denied_requests {W} fuel (hs : list (MibHandler W)) request sec w vb :
  let t := match pdu_type request with Set_ => Write | _ => Read end in
  (pdu_type request = Set_ ∨ pdu_type request = Get) →
  vb ∈ variables request → allows sec t (vb_oid vb) = false →
  ∃ i vb', let r := process_with_access fuel hs request sec w in
    r.1 = Some (set_error NoAccess (Z.of_nat i + 1) (variables request)
                  (new_pdu Response (request_id request))) ∧
    variables request !! i = Some vb' ∧ allows sec t (vb_oid vb') = false ∧
    (∀ j x, (j < i)%nat → variables request !! j = Some x → allows sec t (vb_oid x) = true) ∧
    (pdu_type request = Set_ → r.2 = w).
Proof.
  intros t Ht Hvb Hd. pose proof (first_denied_spec sec t 0 (variables request)) as F.
  destruct (first_denied sec t 0 (variables request)) as [i|] eqn:E.
  2: { by rewrite F in Hd. }
  destruct F as (vb' & Hi & _ & Hd' & Hb). rewrite Nat.sub_0_r in *.
  exists i, vb'. cbn zeta. unfold process_with_access.
  assert (G : pdu_type request = Get →
    ∀ vbs idx response w, first_denied sec Read idx vbs = Some i →
    pdu_type response = Response → request_id response = request_id request →
    v1_trap response = None →
    (get_loop hs sec request idx vbs response w).1 =
      set_error NoAccess (Z.of_nat i + 1) (variables request) (new_pdu Response (request_id request))).
  { intros _. clear. induction vbs as [|x vbs IH]; intros idx response w; cbn; [done|].
    destruct (negb _).
    - intros [= ->] H1 H2 H3. destruct response; cbn in *; by subst.
    - intros H H1 H2 H3. unfold sbind. destruct (do_get hs (vb_oid x) w) as [v w']. by apply (IH (S idx)). }
  destruct Ht as [Ht|Ht]; unfold t in *; rewrite Ht in *.
  - rewrite E. split_and!; done.
  - split_and!; try done. unfold sbind.
    pose proof (G eq_refl (variables request) 0%nat (new_pdu Response (request_id request)) w E
      eq_refl eq_refl eq_refl) as G'.
    destruct (get_loop _ _ _ _ _ _ w) as [r w']. cbn in *. by rewrite G'.
Qed.

(** ** Witnesses on the concrete registry *)

Definition walk_request (t : PduType) (a b : Z) : Pdu :=
  mkPdu t 42 a b [null_var [1; 3]; null_var (Example.map_root ++ [1; 0])] None.

Lemma process_serves_witness :
  (process_with_access 4 Example.hs (walk_request GetNext 0 0) permissive Example.w0).1 =
  Some (mkPdu Response 42 0 0
    [mkVarBind (Example.scalar_root ++ [0]) (VOctetString [97]);
     mkVarBind (Example.map_root ++ [2; 0]) (VInteger 8)] None).
Proof.
  destruct (process_serves Example.registry_ok 4 (walk_request GetNext 0 0) permissive Example.w0
    Example.w0_inv eq_refl) as [E _]; [cbn; lia|].
  rewrite E. reflexivity.
Defined.

Lemma getnext_least_witness :
  ∃ resp, (process_with_access 4 Example.hs (walk_request GetNext 0 0) permissive Example.w0).1
    = Some resp ∧ error_status resp = 0.
Proof.
  destruct (getnext_least Example.registry_ok 4 (walk_request GetNext 0 0) permissive Example.w0
    Example.w0_inv eq_refl) as (resp & E & S & _); [cbn; lia|].
  by exists resp.
Defined.

(** A caller that may read the map only. *)
Definition map_only : SecurityContext :=
  mkSec 2 [112] 0 [] (Some
    (add_access (mkAccess [103] [] 0 0 Prefix (Some [118]) None None)
      (add_view [118] (mkView Example.map_root [] Included)
        (add_group (mkGroup 2 [112] [103]) Vacm.new)))).

Lemma reads_never_leak_witness :
  (process_with_access 4 Example.hs (walk_request GetBulk 1 5) map_only Example.w0).1 =
    Some (mkPdu Response 42 0 0
      [mkVarBind (Example.map_root ++ [1; 0]) (VInteger 7);
       mkVarBind (Example.map_root ++ [2; 0]) (VInteger 8);
       mkVarBind (Example.map_root ++ [2; 0]) VEndOfMibView] None) ∧
  discloses (allows map_only Read) (mib Example.view Example.hs Example.w0)
    [[1; 3]; Example.map_root ++ [1; 0]]
    (mkVarBind (Example.map_root ++ [1; 0]) (VInteger 7)).
Proof.
  split; [reflexivity|].
  eapply (reads_never_leak Example.registry_ok 4 (walk_request GetBulk 1 5) map_only Example.w0);
    [apply Example.w0_inv|by right|cbn; lia|reflexivity|left].
Defined.

Lemma bulk_shape_witness :
  ∃ resp, (process_with_access 4 Example.hs (walk_request GetBulk 1 5) map_only Example.w0).1
    = Some resp.
Proof.
  destruct (bulk_shape Example.registry_ok 4 (walk_request GetBulk 1 5) map_only Example.w0
    Example.w0_inv eq_refl) as (resp & rows & k & E & _); [cbn; lia|].
  by exists resp.
Defined.

Definition set_request (v : Value) : Pdu :=
  mkPdu Set_ 42 0 0
    [mkVarBind (Example.scalar_root ++ [0]) (VOctetString [98]);
     mkVarBind (Example.map_root ++ [1; 0]) v] None.

(** The second binding has the wrong type: the first is not applied. *)
Lemma set_all_or_nothing_witness :
  let r := process_set Example.hs (set_request (VOctetString [])) (new_pdu Response 42) Example.w0 in
  error_index r.1 = 2 ∧ error_status r.1 = 7 ∧ r.2 = Example.w0 ∧
  variables r.1 = variables (set_request (VOctetString [])).
Proof.
  destruct (set_all_or_nothing (eqv:=eq) (stable:=Example.stable)
    Example.hs (set_request (VOctetString [])) Example.w0
    (Example.read_world Example.set_inv) Example.stable_preorder
    ltac:(by intros w w' -> o) Example.committing
    (proj1 Example.w0_inv)) as [V [(i & st & _ & _ & E & _)|(_ & _ & E & _)]]; [|by vm_compute in E].
  split_and!; [reflexivity..|exact E|exact V].
Defined.

(** Three objects that note what is done to them: the second refuses its commit,
    and undoing the third fails. *)
Definition noting (arc : Z) (commits undoes : bool) : MibHandler (list Z) :=
  mkHandler [1; 3; arc] (λ _, sret None) (λ _, sret None) default_prepare_set
    (λ _ _ w, if commits then (Ok tt, w ++ [arc]) else (Err ResourceUnavailable, w))
    (λ _ _ w, (if undoes then Ok tt else Err UndoFailed, w ++ [- arc])).

Definition noting_request (arcs : list Z) : Pdu :=
  mkPdu Set_ 42 0 0 ((λ a, mkVarBind [1; 3; a; 0] (VInteger a)) <$> arcs) None.

Lemma set_commit_phase_witness :
  let hs := [noting 1 true true; noting 2 false true; noting 3 true false] in
  let answer arcs := process_set hs (noting_request arcs) (new_pdu Response 42) [] in
  (error_index (answer [1; 2; 1]).1 = 2 ∧ error_status (answer [1; 2; 1]).1 = code ResourceUnavailable ∧
   (answer [1; 2; 1]).2 = [1; 1; -1; -1]) ∧
  (error_index (answer [3; 1; 2]).1 = 3 ∧ error_status (answer [3; 1; 2]).1 = code UndoFailed ∧
   (answer [3; 1; 2]).2 = [3; 1; -3; -1]).
Proof.
  set (hs := [noting 1 true true; noting 2 false true; noting 3 true false]). cbn zeta. split.
  - destruct (set_commit_phase hs (noting_request [1; 2; 1]) []) as [_ H];
      [repeat constructor..|]. exact H.
  - destruct (set_commit_phase hs (noting_request [3; 1; 2]) []) as [_ H];
      [repeat constructor..|]. exact H.
Defined.

Lemma denied_requests_witness :
  (process_with_access 4 Example.hs (set_request (VInteger 9)) map_only Example.w0).2 = Example.w0.
Proof.
  destruct (denied_requests 4 Example.hs (set_request (VInteger 9)) map_only Example.w0
    (mkVarBind (Example.scalar_root ++ [0]) (VOctetString [98]))
    (or_introl eq_refl) (list_elem_of_here _ _) eq_refl) as (i & vb & _ & _ & _ & _ & E).
  by apply E.
Defined.

(** ** Nested roots *)

(** With one root inside another, GETNEXT answers from the first handler in
    root order that has a successor: the outer table's next row hides the inner
    handler's earlier instance, which GET returns. *)
Theorem nested_roots_skip :
  let outer := read_only_handler (W:=unit) [1; 3] (λ o, sret (lookup_cell o [([1; 3; 9; 0], VInteger 9)]))
    (λ o, sret (to_reading <$> successor o [([1; 3; 9; 0], VInteger 9)])) in
  let inner := read_only_handler [1; 3; 5] (λ o, sret (lookup_cell o [([1; 3; 5; 0], VInteger 5)]))
    (λ o, sret (to_reading <$> successor o [([1; 3; 5; 0], VInteger 5)])) in
  let hs := fold_left register [inner; outer] [] in
  (do_get hs [1; 3; 5; 0] tt).1 = VInteger 5 ∧
  (do_get_next hs [1; 3] tt).1 = mkVarBind [1; 3; 9; 0] (VInteger 9) ∧
  (do_get_next hs [1; 3; 9; 0] tt).1 = mkVarBind [1; 3; 9; 0] VEndOfMibView.
Proof. by vm_compute. Qed.
