(* ===== verification/Agent.v ===== *)
(** * The agent's request path ([crates/netsnmp-agent/src/agent.rs])

    From a datagram to its answer: which path it takes, the community check,
    engine discovery, the user table, verification, the time window, dispatch
    through the registry, and the loop that serves one datagram after another.
    The world [W] of the handlers is threaded through; the clock, the random
    salt of a reply and the outcome of each send come from the environment.
    The access-control state is part of the world: [acl] reads it. *)

From Stdlib Require Import ZArith Lia.
From S2P Require Import Prelude MachineInts Text Oid Value Pdu Config Cells Handler Vacm.
From S2P Require Import Registry Serving Wire Usm V3.

Local Open Scope list_scope.

Definition TIME_WINDOW_SECS : Z := 150.

(** [AgentConfig], without what only the binary reads. *)
Record AgentConfig := mkAgentConfig {
  cfg_community : bytes;
  cfg_engine_id : bytes;
  cfg_engine_boots : Z;
  cfg_users : list UsmUser
}.

Definition default_engine_id : bytes := [128; 0; 31; 136; 4; 114; 115; 0; 1].

Definition default_config : AgentConfig := mkAgentConfig (str "public") default_engine_id 1 [].

Record Agent (W : Type) := mkAgent {
  registry : list (MibHandler W);
  config : AgentConfig;
  users : gmap bytes UsmUser;
  acl : W → Vacm
}.
Arguments registry {W}.
Arguments config {W}.
Arguments users {W}.
Arguments acl {W}.
Arguments mkAgent {W}.

(** [collect] into a map: of two users of one name the later stays. *)
Definition user_table (us : list UsmUser) : gmap bytes UsmUser :=
  fold_left (fun m u => <[as_bytes (user_name u) := u]> m) us ∅.

(** [Agent::new]. *)
Definition new_agent {W} (hs : list (MibHandler W)) (c : AgentConfig) (acl : W → Vacm) : Agent W :=
  mkAgent hs c (user_table (cfg_users c)) acl.

(** What a request changes: the handlers' world and the error counter. *)
Record State (W : Type) := mkState { world : W; usm_stats : Z }.
Arguments mkState {W}.
Arguments world {W}.
Arguments usm_stats {W}.

Section Requests.
Context {R : RasnV3} {C : Crypto} {W : Type} (a : Agent W) (fuel : nat).

(** The answer to one datagram; [None] is a walk that ran out of fuel. *)
Abbreviation answer := (option (result (option bytes) Error)).

(** After [now] seconds. *)
Definition engine (now : Z) : EngineParams :=
  mkEngine (cfg_engine_id (config a)) (cfg_engine_boots (config a)) (as_u32 now).

Definition next_stat : St (State W) Z := fun s =>
  (as_u32 (usm_stats s + 1), mkState (world s) (as_u32 (usm_stats s + 1))).

(** [process_with_access] on the world. *)
Definition dispatch (p : Pdu) (sec : W → SecurityContext) : St (State W) (option Pdu) := fun s =>
  let '(r, w) := process_with_access fuel (registry a) p (sec (world s)) (world s) in
  (r, mkState w (usm_stats s)).

(** [Ok(Some(f(response)?))]. *)
Definition encoded (r : option Pdu) (f : Pdu → result bytes Error) : answer :=
  match r with
  | None => None
  | Some p => Some (let? bs := f p in Ok (Some bs))
  end.

Definition community_context (v : Version) (comm : bytes) (w : W) : SecurityContext :=
  mkSec (match v with V1 => 1 | _ => 2 end) comm 0 [] (Some (acl a w)).

Definition handle_community (data : bytes) : St (State W) answer :=
  match message_decode data with
  | Err _ => sret (Some (Ok None))
  | Ok m =>
      if negb (bool_decide (community m = cfg_community (config a))) then sret (Some (Ok None))
      else
        let* r := dispatch (msg_pdu m) (community_context (msg_version m) (community m)) in
        sret (encoded r (fun p => message_encode (mkMessage (msg_version m) (community m) p)))
  end.

(** A report carries the next value of the counter. *)
Definition reply_report (id : Z) (user : option UsmUser) (now : Z) (stat : UsmStat) (request_id : Z)
    : St (State W) answer :=
  let* count := next_stat in
  sret (Some (let? bs := build_report id user (engine now) stat count request_id in Ok (Some bs))).

Definition in_window (now : Z) (u : UsmSecurityParameters) : bool :=
  let drift := as_u32 now - u_engine_time u in
  (u_engine_boots u =? cfg_engine_boots (config a)) && (Z.abs drift <=? TIME_WINDOW_SECS).

Definition level_number (l : SecurityLevel) : Z :=
  match l with NoAuthNoPriv => 0 | AuthNoPriv => 1 | AuthPriv => 3 end.

Definition usm_context (user : UsmUser) (context : bytes) (w : W) : SecurityContext :=
  mkSec 3 (as_bytes (user_name user)) (level_number (security_level_of user)) context (Some (acl a w)).

Definition handle_v3 (now : Z) (salt data : bytes) (h : HeaderData) (u : UsmSecurityParameters)
    : St (State W) answer :=
  let e := engine now in
  if bool_decide (u_engine_id u = []) || negb (bool_decide (u_engine_id u = engine_id e))
  then reply_report (msg_id h) None now UnknownEngineIDs 0
  else
    match users a !! u_user_name u with
    | None => reply_report (msg_id h) None now UnknownUserNames 0
    | Some user =>
        match parse data (Some user) with
        | Err EAuthFailure => sret (Some (Ok None))
        | Err EPrivFailure => reply_report (msg_id h) (Some user) now DecryptionErrors 0
        | Err _ => sret (Some (Ok None))
        | Ok m =>
            if has_auth (security_level_of user) && negb (in_window now u)
            then reply_report (msg_id h) (Some user) now NotInTimeWindows (request_id (scoped_pdu (scoped m)))
            else
              let* r := dispatch (scoped_pdu (scoped m)) (usm_context user (context_name (scoped m))) in
              sret (encoded r (fun p => build_response (msg_id h) user salt e (engine_id e) p))
        end
    end.

Definition handle_datagram (now : Z) (salt data : bytes) : St (State W) answer :=
  match peek_security data with
  | Ok (h, u) => handle_v3 now salt data h u
  | Err (EUnsupportedVersion _) => handle_community data
  | Err _ => sret (Some (Ok None))
  end.

(** ** The serve loop *)

(** A datagram of the peer, the clock and the salt drawn for its reply, and
    whether the socket accepts a reply of the given length. *)
Record Datagram := mkDatagram { d_data : bytes; d_now : Z; d_salt : bytes; d_send_ok : nat → bool }.

(** [serve_on] over the datagrams that arrive: the replies that were sent, the
    datagrams that were never handled, and the state. Both [?] end the loop. *)
Fixpoint serve_on (ds : list Datagram) : St (State W) (option (list bytes * list Datagram)) :=
  match ds with
  | [] => sret (Some ([], []))
  | d :: ds' =>
      let* r := handle_datagram (d_now d) (d_salt d) (d_data d) in
      match r with
      | None => sret None
      | Some (Err _) => sret (Some ([], ds'))
      | Some (Ok None) => serve_on ds'
      | Some (Ok (Some reply)) =>
          if d_send_ok d (length reply) then
            let* rest := serve_on ds' in
            sret (match rest with
                  | None => None
                  | Some (replies, unread) => Some (reply :: replies, unread)
                  end)
          else sret (Some ([], ds'))
      end
  end.
End Requests.

(** * What the registry answers can be sent *)

(** [m] keeps the invariant and yields a result that satisfies [P]. *)
Definition yields {W A} (inv : W → Prop) (m : St W A) (P : A → Prop) : Prop :=
  ∀ w, inv w → P (m w).1 ∧ inv (m w).2.

Section Yields.
Context {W : Type} {inv : W → Prop}.

Lemma yields_ret {A} (x : A) (P : A → Prop) : P x → yields inv (sret x) P.
Proof. intros H w Hw. done. Qed.

Lemma yields_bind {A B} (m : St W A) (f : A → St W B) (P : A → Prop) (Q : B → Prop) :
  yields inv m P → (∀ x, P x → yields inv (f x) Q) → yields inv (sbind m f) Q.
Proof.
  intros Hm Hf w Hw. unfold sbind. destruct (Hm w Hw) as [HP Hw']. destruct (m w) as [x w'].
  by apply Hf.
Qed.

Lemma yields_weaken {A} (m : St W A) (P Q : A → Prop) :
  yields inv m P → (∀ x, P x → Q x) → yields inv m Q.
Proof. intros Hm H w Hw. destruct (Hm w Hw). auto. Qed.
End Yields.

Section Good.
Context {R : Rasn}.

Definition good_vb (vb : VarBind) : Prop := wf_vb vb ∧ sendable_vb vb = true.

(** A PDU of the Rust types that the encoder accepts. *)
Definition good_pdu (p : Pdu) : Prop := wf_pdu p ∧ sendable_pdu p = true.

(** What a request may hold for its answer to be good. *)
Definition good_request (p : Pdu) : Prop :=
  is_i32 (request_id p) ∧ Forall good_vb (variables p) ∧ Z.of_nat (length (variables p)) < u32_max.

(** A response of the registry: what varies are the error fields and the
    bindings. *)
Lemma response_good id status index vs :
  is_i32 id → is_u32 status → is_u32 index → Forall good_vb vs →
  good_pdu (mkPdu Response id status index vs None).
Proof.
  intros Hi Hs Hx Hv. split.
  - split; cbn; unfold is_i64, is_u32 in *; try done; try lia. eapply Forall_impl; [exact Hv|by intros vb []].
  - unfold sendable_pdu. cbn. rewrite (proj2 (in_u32_iff _) Hs), (proj2 (in_u32_iff _) Hx), !andb_true_r.
    apply forallb_forall. rewrite <- List.Forall_forall. eapply Forall_impl; [exact Hv|by intros vb []].
Qed.

Lemma good_exception o v : Oid.wf o → sendable_oid o = true →
  v = VEndOfMibView ∨ v = VNoSuchObject ∨ v = VNoSuchInstance → good_vb (mkVarBind o v).
Proof.
  intros Ho Hs Hv. unfold good_vb, wf_vb, sendable_vb. cbn. rewrite Hs.
  by destruct Hv as [-> |[-> | ->]].
Qed.

Lemma good_oid vb : good_vb vb → Oid.wf (vb_oid vb) ∧ sendable_oid (vb_oid vb) = true.
Proof. intros [[Ho _] Hs]. unfold sendable_vb in Hs. apply andb_true_iff in Hs as [Hs _]. done. Qed.

Definition good_cell (c : Oid * Value) : Prop := good_vb (mkVarBind c.1 c.2).

Lemma visible_next_good allowed cs o : Forall good_cell cs → Oid.wf o → sendable_oid o = true →
  good_vb (visible_next allowed cs o).
Proof.
  intros Hc Ho Hs. unfold visible_next. destruct (find _ cs) as [c|] eqn:E; [|apply good_exception; auto].
  apply find_some in E as [Hin _]. rewrite List.Forall_forall in Hc. by apply Hc.
Qed.

Lemma rows_good next n cursors : (∀ o, Oid.wf o → sendable_oid o = true → good_vb (next o)) →
  Forall (λ o, Oid.wf o ∧ sendable_oid o = true) cursors → Forall good_vb (rows_of next n cursors).
Proof.
  intros Hn. revert cursors. induction n as [|n IH]; intros cursors Hc; cbn [rows_of]; [constructor|].
  assert (Hrow : Forall good_vb (next <$> cursors)).
  { apply Forall_fmap. eapply Forall_impl; [exact Hc|]. intros o []. by apply Hn. }
  apply Forall_app. split; [done|]. destruct (forallb _ _); [constructor|]. apply IH.
  apply Forall_fmap. eapply Forall_impl; [exact Hrow|]. intros vb Hvb. by apply good_oid.
Qed.

Lemma index_u32 {A} (l : list A) i : (i < length l)%nat → Z.of_nat (length l) < u32_max → is_u32 (Z.of_nat i + 1).
Proof. unfold is_u32, u32_max. lia. Qed.

Lemma first_denied_bound sec t idx vbs i :
  first_denied sec t idx vbs = Some i → (idx <= i < idx + length vbs)%nat.
Proof.
  revert idx. induction vbs as [|vb vbs IH]; intros idx; cbn; [done|].
  destruct (allows sec t (vb_oid vb)); cbn; [|intros [= <-]; lia].
  intros E%IH. lia.
Qed.

(** Reads over sendable cells answer sendable responses. *)
Lemma serve_good roots cs sec request : Forall good_cell cs → good_request request →
  is_read (pdu_type request) = true → good_pdu (serve roots cs sec request).
Proof.
  intros Hc (Hi & Hv & Hl) Hr.
  assert (Ho : Forall (λ o, Oid.wf o ∧ sendable_oid o = true) (vb_oid <$> variables request)).
  { apply Forall_fmap. eapply Forall_impl; [exact Hv|apply good_oid]. }
  assert (Z0 : is_u32 0) by (unfold is_u32; lia).
  assert (Hn : ∀ o, Oid.wf o → sendable_oid o = true → good_vb (visible_next (allows sec Read) cs o)).
  { intros o. by apply visible_next_good. }
  unfold serve. destruct (pdu_type request); try done.
  - destruct (first_denied sec Read 0 (variables request)) as [i|] eqn:E.
    + apply first_denied_bound in E. apply response_good; [done|unfold is_u32; cbn; lia| |done].
      by apply (index_u32 (variables request)); [lia|].
    + apply response_good; [done..|]. apply Forall_fmap. eapply Forall_impl; [exact Hv|].
      intros vb Hvb%good_oid. destruct Hvb as [W S]. cbn. unfold answer_get, lookup_cell.
      destruct (find _ cs) as [c|] eqn:Ef; cbn.
      * apply find_some in Ef as [Hin He]. rewrite List.Forall_forall in Hc. specialize (Hc c Hin).
        apply Oid.eqb_eq in He. unfold good_cell in Hc. by rewrite He in Hc.
      * destruct (existsb _ _); apply good_exception; auto.
  - apply response_good; [done..|]. apply Forall_fmap. eapply Forall_impl; [exact Hv|].
    intros vb [Wo So]%good_oid. by apply Hn.
  - apply response_good; [done..|]. apply Forall_app. split.
    + apply Forall_fmap. rewrite fmap_take. apply Forall_take. eapply Forall_impl; [exact Ho|].
      intros o []. by apply Hn.
    + apply rows_good; [done|]. rewrite fmap_drop. by apply Forall_drop.
Qed.
End Good.

(** [h] has accepted to set [o] to [v], in some world of the invariant. *)
Definition prepared {W} (inv : W → Prop) (h : MibHandler W) (o : Oid) (v : Value) : Prop :=
  ∃ w, inv w ∧ reserve_status (prepare_set h o v w).1 = NoError.

Definition status_fits (r : status_result) : Prop := match r with Err e => is_u32 (code e) | Ok _ => True end.

(** What the agent relies on: its registry serves ordered, sendable cells that
    a walk of [fuel] steps can pass, and its handlers keep that so, when they
    commit what they have accepted, and report failures by status codes that
    fit their field. *)
Class AgentOk `{!Rasn} {W} (inv : W → Prop) (eqv : relation W)
    (view : MibHandler W → W → cells) (hs : list (MibHandler W)) (fuel : nat) : Prop := {
  ok_registry :: RegistryOk inv eqv view hs;
  ok_cells w : inv w → Forall good_cell (mib view hs w);
  ok_fuel w : inv w → (length (mib view hs w) < fuel)%nat;
  ok_prepare h o v : h ∈ hs → good_vb (mkVarBind o v) → yields inv (prepare_set h o v) status_fits;
  ok_commit h o v : h ∈ hs → good_vb (mkVarBind o v) → prepared inv h o v →
    yields inv (commit_set h o v) status_fits;
  ok_undo h o v : h ∈ hs → good_vb (mkVarBind o v) → yields inv (undo_set h o v) (λ _, True);
}.

Section Dispatch.
Context {R : Rasn} {W : Type} {inv : W → Prop} {eqv : relation W} {view : MibHandler W → W → cells}.
Context {hs : list (MibHandler W)} {fuel : nat} {OK : AgentOk inv eqv view hs fuel}.

Abbreviation plan := (option (MibHandler W) * VarBind)%type.

Definition good_plan (p : plan) : Prop := good_vb p.2 ∧ ∀ h, p.1 = Some h → h ∈ hs.

Definition good_failure (idx n : nat) (f : option (nat * ErrorStatus)) : Prop :=
  ∀ i e, f = Some (i, e) → (i < idx + n)%nat ∧ is_u32 (code e).

Lemma code_u32 e : (∀ v, e ≠ Other v) → is_u32 (code e).
Proof. unfold is_u32. destruct e; cbn; try lia. intros H. by destruct (H v). Qed.

Definition plan_prepared (p : plan) : Prop :=
  ∀ h, p.1 = Some h → prepared inv h (vb_oid p.2) (vb_value p.2).

Lemma reserve_yields p : good_plan p →
  yields inv (reserve p) (λ e, is_u32 (code e) ∧ (e = NoError → plan_prepared p)).
Proof using OK.
  intros [Hg Hh]. unfold reserve. destruct p as [[h|] [o v]]; cbn in *.
  2:{ apply yields_ret. split; [by apply code_u32|done]. }
  intros w Hw. destruct (ok_prepare h o v (Hh h eq_refl) Hg w Hw) as [Hf Hw']. unfold sbind, sret.
  destruct (prepare_set h o v w) as [r w'] eqn:Er. cbn in *. split; [|done]. split.
  - destruct r; [by apply code_u32|done].
  - intros E h' [= <-]. exists w. split; [done|]. cbn. rewrite Er. by destruct r.
Qed.

Lemma reserve_pass_yields idx plans : Forall good_plan plans →
  yields inv (reserve_pass idx plans) (λ f, good_failure idx (length plans) f ∧ (f = None → Forall plan_prepared plans)).
Proof using OK.
  intros H. revert idx. induction H as [|p plans Hp _ IH]; intros idx; cbn [reserve_pass].
  { by apply yields_ret. }
  eapply yields_bind; [by apply reserve_yields|]. intros e [He Hpp]. destruct (is_ok_status e) eqn:Es.
  - eapply yields_weaken; [apply IH|]. intros f [Hf Hn]. split.
    + intros i e' E. destruct (Hf i e' E). cbn. split; [lia|done].
    + intros E. constructor; [apply Hpp; by destruct e|by apply Hn].
  - apply yields_ret. split; [|done]. intros i e' [= <- <-]. cbn. split; [lia|done].
Qed.

Lemma commit_pass_yields idx plans failed committed :
  Forall good_plan plans → Forall plan_prepared plans → good_failure idx 0 failed →
  yields inv (commit_pass idx plans failed committed) (λ r, good_failure idx (length plans) r.1).
Proof using OK.
  intros H. revert idx failed committed. induction H as [|[oh [o v]] plans [Hg Hh] _ IH];
    intros idx failed committed Hpp Hf; cbn [commit_pass].
  { apply yields_ret. exact Hf. }
  apply Forall_cons in Hpp as [Hp Hpp].
  assert (Next : ∀ failed' committed', good_failure idx 1 failed' →
    yields inv (commit_pass (S idx) plans failed' committed') (λ r, good_failure idx (S (length plans)) r.1)).
  { intros failed' committed' Hf'. eapply yields_weaken; [apply IH; [done|]|].
    - intros i e E. destruct (Hf' i e E). split; [lia|done].
    - intros r Hr i e E. destruct (Hr i e E). split; [lia|done]. }
  assert (First : ∀ e, is_u32 (code e) →
    good_failure idx 1 match failed with None => Some (idx, e) | Some f => Some f end).
  { intros e He i e' E. destruct failed as [f|].
    - destruct (Hf i e' E). split; [lia|done].
    - injection E as <- <-. split; [lia|done]. }
  cbn [fst] in *. destruct oh as [h|]; [|by apply Next, First, code_u32].
  eapply yields_bind; [by apply ok_commit; [by apply Hh|done|by apply Hp]|].
  intros [u|e] He; apply Next; [|by apply First].
  intros i e E. destruct (Hf i e E). split; [lia|done].
Qed.

Lemma handler_for_in o h : handler_for hs o = Some h → h ∈ hs.
Proof. by intros [? _]%handler_for_Some. Qed.

Lemma plans_good request : Forall good_vb (variables request) → Forall good_plan (plans_of hs request).
Proof.
  intros H. unfold plans_of. apply Forall_fmap. eapply Forall_impl; [exact H|].
  intros vb Hvb. split; [done|]. intros h. apply handler_for_in.
Qed.

Lemma undo_pass_yields plans committed failed : Forall good_plan plans →
  yields inv (undo_pass hs plans committed failed) (λ _, True).
Proof using OK.
  intros H. revert failed. induction committed as [|c committed IH]; intros failed; cbn [undo_pass].
  { by apply yields_ret. }
  destruct (plans !! c) as [[oh [o v]]|] eqn:E; [|apply IH]. cbn [vb_oid vb_value].
  destruct (handler_for hs o) as [h|] eqn:Eh; [|apply IH].
  pose proof (Forall_lookup_1 _ _ _ _ H E) as [Hg _].
  eapply yields_bind; [by apply ok_undo; [by eapply handler_for_in|]|]. intros r _. apply IH.
Qed.

Lemma set_good request : good_request request →
  yields inv (process_set hs request (new_pdu Response (request_id request))) good_pdu.
Proof using OK.
  intros (Hi & Hv & Hl). pose proof (plans_good request Hv) as Hp.
  assert (Z0 : is_u32 0) by (unfold is_u32; lia).
  assert (Hn : length (plans_of hs request) = length (variables request)) by apply length_fmap.
  assert (Fail : ∀ i e, (i < length (variables request))%nat → is_u32 (code e) →
    good_pdu (set_error e (Z.of_nat i + 1) (variables request) (new_pdu Response (request_id request)))).
  { intros i e H He. apply response_good; [done|done|by apply (index_u32 (variables request))|done]. }
  unfold process_set.
  eapply yields_bind; [by apply reserve_pass_yields|]. intros [[i e]|] [H1 _].
  { apply yields_ret. destruct (H1 i e eq_refl). apply Fail; [lia|done]. }
  eapply yields_bind; [by apply reserve_pass_yields|]. intros [[i e]|] [H2 Hpp].
  { apply yields_ret. destruct (H2 i e eq_refl). apply Fail; [lia|done]. }
  eapply yields_bind; [by apply commit_pass_yields; [|apply Hpp|]|]. intros [[[i e]|] committed] H3; cbn in H3.
  - eapply yields_bind; [by apply undo_pass_yields|]. intros u _. apply yields_ret.
    destruct (H3 i e eq_refl). apply Fail; [lia|]. destruct u; [by apply code_u32|done].
  - apply yields_ret. by apply response_good.
Qed.

(** Every request of the Rust types is answered by a sendable response. *)
Lemma process_good request sec : good_request request →
  yields inv (process_with_access fuel hs request sec) (λ r, ∃ p, r = Some p ∧ good_pdu p).
Proof using OK.
  intros Hg. destruct (is_read (pdu_type request)) eqn:Hr.
  - intros w Hw. destruct (process_reads fuel request sec w Hw Hr (ok_fuel w Hw)) as [-> E].
    split; [|by eapply inv_eqv]. eexists. split; [done|]. by apply serve_good; [apply ok_cells| |].
  - unfold process_with_access. destruct Hg as (Hi & Hv & Hl).
    assert (Z0 : is_u32 0) by (unfold is_u32; lia).
    destruct (pdu_type request) eqn:Et; try done;
      try (apply yields_ret; eexists; split; [done|]; by apply response_good; [done|apply code_u32|..]).
    destruct (first_denied sec Write 0 (variables request)) as [i|] eqn:Ef.
    + apply yields_ret. eexists. split; [done|]. apply first_denied_bound in Ef.
      apply response_good; [done|by apply code_u32|by apply (index_u32 (variables request)); [lia|]|done].
    + eapply yields_bind; [by apply set_good|]. intros p Hp. apply yields_ret. eauto.
Qed.
End Dispatch.

(** * What arrives is of the Rust types *)

(** A decoder yields a value of its type, with no more bindings or octets than
    it was given octets. *)
Class DecodersTyped (R : RasnV3) (C : Crypto) : Prop := {
  community_typed bs m : is_bytes bs → decode ber_community bs = Some m →
    is_bytes (e_community m) ∧ wire_pdus (e_data m) ∧ (length (bindings_of (e_data m)) <= length bs)%nat;
  v1_typed bs m : is_bytes bs → decode ber_v1 bs = Some m →
    is_bytes (e_community m) ∧ wire_trap1 (e_data m) ∧
    (length (t1_variable_bindings (e_data m)) <= length bs)%nat;
  scoped_typed bs s : is_bytes bs → decode ber_scoped bs = Some s →
    wire_pdus (rs_data s) ∧ (length (bindings_of (rs_data s)) <= length bs)%nat;
  raw_typed bs m : is_bytes bs → decode ber_raw bs = Some m →
    is_bytes (scoped_data m) ∧ (length (scoped_data m) <= length bs)%nat;
  octets_typed bs b : is_bytes bs → decode_octets bs = Some b → is_bytes b ∧ (length b <= length bs)%nat;
  decrypt_typed key iv ct pt : is_bytes ct → cfb_decrypt key iv ct = Some pt →
    is_bytes pt ∧ length pt = length ct;
}.

Section Arriving.
Context {R : RasnV3} {L : RasnV3Laws R} {C : Crypto} {D : DecodersTyped R C}.

Lemma wire_oid_good o : wire_oid o → Oid.wf o ∧ sendable_oid o = true.
Proof using L.
  intros [W E]. split; [done|]. unfold sendable_oid.
  by rewrite pad_oid_long by (by apply oid_encodable_long).
Qed.

Lemma vb_from_good r vb : wire_vb r → vb_from_rasn r = Ok vb → good_vb vb.
Proof using L.
  destruct r as [n v]. intros [[Wn Sn]%wire_oid_good Wv]. unfold vb_from_rasn. cbn [r_name r_value] in *.
  intros (v' & Hv & [= <-])%rbind_Ok. unfold good_vb, wf_vb, sendable_vb. cbn [vb_oid vb_value]. unfold oid_from_rasn.
  rewrite Sn. cbn [andb].
  destruct v as [[[i|s|o]|[ip|c|u|t|op|bc]]| | | |]; cbn in *; try (by injection Hv as <-).
  - unfold int_to_i64 in Hv. by destruct (_ && _); [injection Hv as <-|].
  - injection Hv as <-. cbn. apply wire_oid_good in Wv as [? ?]. done.
Qed.

Lemma from_rasn_good ps p : wire_pdus ps → Z.of_nat (length (bindings_of ps)) < u32_max →
  from_rasn ps = Ok p → good_request p.
Proof using L.
  intros W Hl E.
  assert (H : ∀ bs vs, Forall wire_vb bs → collect vb_from_rasn bs = Ok vs →
    Forall good_vb vs ∧ length vs = length bs).
  { intros bs vs HW HC. split; [by eapply collect_Forall; [apply vb_from_good|done|done]|].
    apply collect_Forall2 in HC. symmetry. by eapply Forall2_length. }
  unfold from_rasn, from_std in E.
  destruct ps; cbn [wire_pdus bindings_of] in *; unfold wire_rpdu in *;
    destruct W as (Wi & _ & _ & Wb); apply rbind_Ok in E as (vs & Hvs & [= <-]);
    destruct (H _ _ Wb Hvs) as [Hg Hn]; (split; [done|split; [done|cbn; lia]]).
Qed.

Lemma value1_good v : wire_value1 v → wf_value (value_from_v1_object_syntax v) ∧
  sendable_value (value_from_v1_object_syntax v) = true.
Proof using L.
  destruct v as [[i|s|o|]|[ip|c|g|t|op]]; cbn; try done.
  - intros H. by rewrite int_to_i64_ok.
  - intros H. by apply wire_oid_good.
Qed.

Lemma from_v1_good t p : wire_trap1 t → Z.of_nat (length (t1_variable_bindings t)) < u32_max →
  from_v1_rasn t = Ok p → good_request p.
Proof using L.
  intros (_ & _ & _ & _ & _ & Wb) Hl ([v1 vbs] & E & [= <-])%rbind_Ok.
  assert (vbs = t1_variable_bindings t) as ->.
  { unfold trap_from_rasn in E. apply rbind_Ok in E as (g & _ & (s & _ & E)%rbind_Ok).
    destruct (negb _); [done|]. destruct (negb _); [done|]. by injection E as <- <-. }
  split; [cbn; unfold is_i32; lia|]. split; cbn; unfold varbinds_from_v1; [|by rewrite length_map].
  apply Forall_map. eapply Forall_impl; [exact Wb|]. intros vb [[Wn Sn]%wire_oid_good [Wv Sv]%value1_good].
  unfold good_vb, wf_vb, sendable_vb. cbn. unfold oid_from_rasn. by rewrite Sn, Sv.
Qed.

Lemma message_decode_good bs m : is_bytes bs → Z.of_nat (length bs) < u32_max → message_decode bs = Ok m →
  is_bytes (community m) ∧ good_request (msg_pdu m).
Proof using L D.
  intros Hb Hl. unfold message_decode, open_envelope. destruct (decode ber_community bs) as [e|] eqn:E.
  - destruct (community_typed bs e Hb E) as (Wc & Wp & Hn).
    intros (c & _ & (v & _ & (p & Hp & [= <-])%rbind_Ok)%rbind_Ok)%rbind_Ok.
    split; [done|]. eapply from_rasn_good; [exact Wp|lia|done].
  - destruct (decode ber_v1 bs) as [e|] eqn:E1; [|done]. cbn [ber ok_or rbind].
    destruct (v1_typed bs e Hb E1) as (Wc & Wp & Hn).
    intros (c & _ & (v & _ & (p & Hp & [= <-])%rbind_Ok)%rbind_Ok)%rbind_Ok.
    split; [done|]. eapply from_v1_good; [exact Wp|lia|done].
Qed.

Lemma scoped_decode_good bs s : is_bytes bs → Z.of_nat (length bs) < u32_max → scoped_decode_ber bs = Ok s →
  good_request (scoped_pdu s).
Proof using L D.
  intros Hb Hl (r & E & (p & Hp & [= <-])%rbind_Ok)%rbind_Ok.
  destruct (decode ber_scoped bs) as [r'|] eqn:Ed; [|done]. injection E as ->.
  destruct (scoped_typed bs r Hb Ed) as [W Hn]. eapply from_rasn_good; [exact W|lia|done].
Qed.

Lemma parse_good bs user m : is_bytes bs → Z.of_nat (length bs) < u32_max → parse bs user = Ok m →
  good_request (scoped_pdu (scoped m)).
Proof using L D.
  intros Hb Hl. unfold parse. destruct (decode ber_raw bs) as [raw|] eqn:Er; [|done]. cbn [ber ok_or rbind].
  destruct (raw_typed bs raw Hb Er) as [Hs Hn].
  intros (v & _ & H)%rbind_Ok. destruct (negb _); [done|].
  apply rbind_Ok in H as (h & _ & (up & _ & (t & _ & (s & Hsc & [= <-])%rbind_Ok)%rbind_Ok)%rbind_Ok).
  cbn. unfold open_scoped in Hsc. destruct (has_flag _ _).
  - destruct (decode_octets (scoped_data raw)) as [ct|] eqn:Ec; [|done]. cbn [ber ok_or rbind] in Hsc.
    destruct (octets_typed _ _ Hs Ec) as [Hct Hcl].
    apply rbind_Ok in Hsc as (u & _ & ([q pw] & _ & (k & _ & (pt & Hpt & Hsc)%rbind_Ok)%rbind_Ok)%rbind_Ok).
    unfold decrypt in Hpt. destruct (_ <? _)%nat; [done|]. destruct (negb _); [done|].
    destruct (cfb_decrypt _ _ _) as [pt'|] eqn:Ep; [|done]. injection Hpt as ->.
    destruct (decrypt_typed _ _ _ _ Hct Ep) as [Hpb Hpl].
    eapply scoped_decode_good; [exact Hpb|lia|done].
  - eapply scoped_decode_good; [exact Hs|lia|done].
Qed.

Lemma header_id h r : header_from_rasn h = Ok r → is_i32 (msg_id r).
Proof.
  intros (i & _ & (s & _ & (m & _ & [= <-])%rbind_Ok)%rbind_Ok)%rbind_Ok. cbn.
  unfold is_i32, wrap_i. pose proof (Z.mod_pos_bound (i + 2 ^ (32 - 1)) (2 ^ 32)). lia.
Qed.
End Arriving.

(** * The agent answers *)

Record wf_agent {W} (a : Agent W) : Prop := {
  wa_engine : is_bytes (cfg_engine_id (config a));
  wa_boots : is_u32 (cfg_engine_boots (config a));
  wa_users : ∀ n u, users a !! n = Some u → is_text (user_name u);
}.

(** Salts are drawn as eight octets; a datagram fits in the receive buffer. *)
Definition is_salt (salt : bytes) : Prop := length salt = 8%nat ∧ is_bytes salt.
Definition is_datagram (data : bytes) : Prop := is_bytes data ∧ (length data <= Z.to_nat 65535)%nat.

Lemma datagram_bound data : is_datagram data → Z.of_nat (length data) < u32_max.
Proof. unfold is_datagram, u32_max. lia. Qed.

Lemma as_u32_range n : is_u32 (as_u32 n).
Proof. apply (wrap_u_range 32). lia. Qed.

Section Answers.
Context {R : RasnV3} {L : RasnV3Laws R} {C : Crypto} {CL : CryptoLaws C}.
Context {W : Type} (a : Agent W) (fuel : nat).
Context {inv : W → Prop} {eqv : relation W} {view : MibHandler W → W → cells}.
Context {OK : AgentOk inv eqv view (registry a) fuel} (WA : wf_agent a).

Lemma engine_wf now : wf_engine (engine a now).
Proof using WA. split; [apply WA|apply WA|apply as_u32_range]. Qed.

Lemma reply_report_ok id user now stat request_id s : is_i32 id → is_i32 request_id →
  (∀ u, user = Some u → is_text (user_name u)) →
  ∃ bs m, reply_report a id user now stat request_id s =
      (Some (Ok (Some bs)), mkState (world s) (as_u32 (usm_stats s + 1))) ∧
    parse bs user = Ok m ∧ msg_id (header m) = id ∧
    scoped_pdu (scoped m) = report_pdu request_id stat (as_u32 (usm_stats s + 1)) ∧
    u_engine_id (usm m) = cfg_engine_id (config a) ∧ u_engine_boots (usm m) = cfg_engine_boots (config a) ∧
    u_engine_time (usm m) = as_u32 now ∧
    (match user with Some u => has_auth (security_level_of u) | None => false end = false →
      ∀ user', parse bs user' = Ok m).
Proof using L CL WA.
  intros Hi Hr Hu.
  destruct (report_back id user (engine a now) stat (as_u32 (usm_stats s + 1)) request_id)
    as (bs & m & E & _ & Eh & Ee & Eb & Et & Ep & Em & Ea);
    [done|apply engine_wf|done|apply as_u32_range|done|].
  exists bs, m. unfold reply_report, sbind, next_stat, sret. rewrite E. cbn.
  split_and!; try done. by rewrite Eh.
Qed.

Lemma dispatch_good p sec s : good_request p → inv (world s) →
  ∃ r s', dispatch a fuel p sec s = (Some r, s') ∧ good_pdu r ∧ inv (world s').
Proof using OK.
  intros Hg Hw. unfold dispatch.
  destruct (process_good p (sec (world s)) Hg (world s) Hw) as [(r & Er & Gr) Hw'].
  destruct (process_with_access _ _ _ _ _) as [x w]. cbn in *. subst x. by exists r, (mkState w (usm_stats s)).
Qed.

(** A datagram is answered or dropped, never an error, whatever its octets. *)
Lemma handle_datagram_total {D : DecodersTyped R C} now salt data s :
  is_salt salt → is_datagram data → inv (world s) →
  ∃ r s', handle_datagram a fuel now salt data s = (Some (Ok r), s') ∧ inv (world s').
Proof using All.
  intros [Hsl Hsb] Hd Hw. pose proof (datagram_bound data Hd) as Hlen. destruct Hd as [Hb _].
  unfold handle_datagram. destruct (peek_security data) as [[h u]|e] eqn:Ep.
  - assert (Hid : is_i32 (msg_id h)).
    { unfold peek_security in Ep. apply rbind_Ok in Ep as (v & _ & Ep). destruct (negb _); [done|].
      apply rbind_Ok in Ep as (raw & _ & (h' & Hh & (u' & _ & [= <- <-])%rbind_Ok)%rbind_Ok). by eapply header_id. }
    assert (Rep : ∀ user stat rid, is_i32 rid → (∀ u, user = Some u → is_text (user_name u)) →
      ∃ r s', reply_report a (msg_id h) user now stat rid s = (Some (Ok r), s') ∧ inv (world s')).
    { intros user stat rid Hr Hu. destruct (reply_report_ok (msg_id h) user now stat rid s Hid Hr Hu) as (bs & m & E & _).
      eexists _, _. by split. }
    unfold handle_v3. destruct (_ || _); [by apply Rep|].
    destruct (users a !! u_user_name u) as [user|] eqn:Eu; [|by apply Rep].
    pose proof (wa_users a WA _ _ Eu) as Ht.
    destruct (parse data (Some user)) as [m|e] eqn:Em.
    2:{ destruct e; try (by eexists _, s); by (apply Rep; [|intros ? [= <-]]). }
    pose proof (parse_good data (Some user) m Hb Hlen Em) as Hg.
    destruct (_ && _); [apply Rep; [apply Hg|by intros ? [= <-]]|].
    destruct (dispatch_good _ (usm_context a user (context_name (scoped m))) s Hg Hw) as (r & s' & Er & [Wr Sr] & Hw').
    unfold sbind. rewrite Er. unfold encoded, sret.
    destruct (user_message_back (msg_id h) false user salt (engine a now) (engine_id (engine a now)) r)
      as (bs & tag & privp & Eb & _); [done..|apply engine_wf|apply engine_wf|done|done|].
    unfold build_response. rewrite Eb. by eexists _, s'.
  - destruct e; try (by eexists _, s). unfold handle_community.
    destruct (message_decode data) as [m|e] eqn:Em; [|by eexists _, s].
    destruct (message_decode_good data m Hb Hlen Em) as [Hc Hg].
    destruct (negb _); [by eexists _, s|].
    destruct (dispatch_good _ (community_context a (msg_version m) (community m)) s Hg Hw) as (r & s' & Er & Gr & Hw').
    unfold sbind. rewrite Er. unfold encoded, sret.
    destruct (message_encode_back (mkMessage (msg_version m) (community m) r)) as (bs & Eb & _);
      [split; [done|apply Gr]| |rewrite Eb; by eexists _, s'].
    unfold sendable. cbn. destruct Gr as [_ Sr]. unfold sendable_pdu in Sr.
    destruct (bool_decide (pdu_type r = TrapV1)) eqn:Et; [by rewrite andb_false_r in Sr|].
    rewrite andb_false_r. unfold sendable_pdu. by rewrite Et.
Qed.

(** The whole loop: as long as the socket takes the replies, every datagram is
    handled. *)
Lemma serve_on_total {D : DecodersTyped R C} ds s :
  Forall (λ d, is_salt (d_salt d) ∧ is_datagram (d_data d)) ds → inv (world s) →
  ∃ replies unread s', serve_on a fuel ds s = (Some (replies, unread), s') ∧ inv (world s') ∧
    (Forall (λ d, ∀ n, d_send_ok d n = true) ds → unread = []).
Proof using All.
  intros H. revert s. induction H as [|d ds [Hs Hd] _ IH]; intros s Hw; cbn [serve_on].
  { by exists [], [], s. }
  destruct (handle_datagram_total (d_now d) (d_salt d) (d_data d) s Hs Hd Hw) as (r & s1 & E & Hw1).
  unfold sbind. rewrite E. destruct r as [reply|].
  - destruct (d_send_ok d (length reply)) eqn:Eo.
    + destruct (IH s1 Hw1) as (replies & unread & s2 & E2 & Hw2 & Hu). rewrite E2.
      exists (reply :: replies), unread, s2. split_and!; [done|done|]. intros HF. apply Forall_cons in HF as [_ ?]. auto.
    + exists [], ds, s1. split_and!; [done|done|]. intros HF. apply Forall_cons in HF as [Hok _].
      by rewrite Hok in Eo.
  - destruct (IH s1 Hw1) as (replies & unread & s2 & E2 & Hw2 & Hu). rewrite E2.
    exists replies, unread, s2. split_and!; [done|done|]. intros HF. apply Forall_cons in HF as [_ ?]. auto.
Qed.
End Answers.

(** ** What a manager sees *)

Section Manager.
Context {R : RasnV3} {L : RasnV3Laws R} {C : Crypto} {CL : CryptoLaws C}.
Context {W : Type} (a : Agent W) (fuel : nat).
Context {inv : W → Prop} {eqv : relation W} {view : MibHandler W → W → cells}.

Lemma community_peek m bs : wf_message m → message_encode m = Ok bs →
  peek_security bs = Err (EUnsupportedVersion (version_code (msg_version m))).
Proof using L.
  intros Wm E. unfold message_encode in E. unfold peek_security.
  assert (leads_with bs (version_code (msg_version m))) as Hl.
  { destruct (_ && _); apply rbind_Ok in E as (d & _ & E).
    - destruct (encode ber_v1 _) as [bs'|] eqn:Ee; [|done]. injection E as ->. by apply v1_leads in Ee.
    - destruct (encode ber_community _) as [bs'|] eqn:Ee; [|done]. injection E as ->. by apply community_leads in Ee. }
  rewrite (message_version_leads _ _ Hl) by (by destruct (msg_version m)). by destruct (msg_version m).
Qed.

Lemma pad_vbs_good vbs : Forall wf_vb vbs → forallb sendable_vb vbs = true → Forall good_vb (map pad_vb vbs).
Proof.
  intros Wvs Hs. apply Forall_map. rewrite forallb_forall in Hs. apply List.Forall_forall. intros vb Hin.
  pose proof (Hs vb Hin) as Sv. pose proof (proj1 (List.Forall_forall _ _) Wvs vb Hin) as [Wo Wv].
  unfold sendable_vb in Sv. apply andb_true_iff in Sv as [So Sv].
  destruct vb as [o v]. unfold good_vb, wf_vb, sendable_vb, sendable_oid, pad_vb in *. cbn in *.
  rewrite pad_oid_idem, So. cbn [andb]. split; [split; [by apply pad_oid_wf|]|].
  - destruct v; cbn in *; try done. by apply pad_oid_wf.
  - destruct v; cbn in *; try done. unfold sendable_oid in *. by rewrite pad_oid_idem.
Qed.

Lemma pad_pdu_good p : wf_pdu p → sendable_pdu p = true → Z.of_nat (length (variables p)) < u32_max →
  good_request (pad_pdu p).
Proof using L.
  intros Wp Sp Hl. unfold sendable_pdu in Sp. apply andb_true_iff in Sp as [[[Hs _]%andb_true_iff _]%andb_true_iff _].
  split; [apply Wp|]. split; cbn; [|by rewrite length_map]. apply pad_vbs_good; [apply Wp|done].
Qed.

Lemma good_sendable v c p : good_pdu p → sendable (mkMessage v c p) = true.
Proof.
  intros [_ Sp]. unfold sendable. cbn. destruct (bool_decide (pdu_type p = TrapV1)) eqn:Et.
  - unfold sendable_pdu in Sp. by rewrite Et, andb_false_r in Sp.
  - by rewrite andb_false_r.
Qed.

Lemma on_the_wire_read m : is_read (pdu_type (msg_pdu m)) = true →
  on_the_wire m = mkMessage (msg_version m) (community m) (pad_pdu (msg_pdu m)).
Proof.
  intros Hr. unfold on_the_wire. destruct (msg_version m); [|by destruct (pdu_type _)]. by destruct (pdu_type (msg_pdu m)).
Qed.

(** What the response to a read looks like once it has been sent. *)
Definition served_to (sec : W → SecurityContext) (w : W) (p : Pdu) : Pdu :=
  pad_pdu (serve (root <$> registry a) (mib view (registry a) w) (sec w) p).

Lemma community_answer (OK : AgentOk inv eqv view (registry a) fuel) now salt m bs s :
  wf_message m → sendable_pdu (msg_pdu m) = true → is_read (pdu_type (msg_pdu m)) = true →
  Z.of_nat (length (variables (msg_pdu m))) < u32_max → message_encode m = Ok bs → inv (world s) →
  community m = cfg_community (config a) →
  ∃ reply s', handle_datagram a fuel now salt bs s = (Some (Ok (Some reply)), s') ∧
    eqv (world s') (world s) ∧ usm_stats s' = usm_stats s ∧
    message_decode reply = Ok (mkMessage (msg_version m) (community m)
      (served_to (community_context a (msg_version m) (community m)) (world s) (pad_pdu (msg_pdu m)))).
Proof using L.
  intros Wm Sp Hr Hl Ee Hw Hc.
  assert (Ht : pdu_type (msg_pdu m) ≠ TrapV1) by (by intros E; rewrite E in Hr).
  destruct (message_encode_back m Wm) as (bs' & Ee' & _ & Ed).
  { unfold sendable. by rewrite (bool_decide_eq_false_2 _ Ht), andb_false_r. }
  rewrite Ee in Ee'. injection Ee' as <-. rewrite (on_the_wire_read m Hr) in Ed.
  unfold handle_datagram. rewrite (community_peek m bs Wm Ee). unfold handle_community. rewrite Ed.
  cbn [community msg_version msg_pdu]. rewrite (bool_decide_eq_true_2 _ Hc). cbn [negb].
  pose proof (pad_pdu_good (msg_pdu m) ltac:(apply Wm) Sp Hl) as Hg.
  unfold sbind, dispatch.
  destruct (process_reads fuel (pad_pdu (msg_pdu m)) (community_context a (msg_version m) (community m) (world s))
    (world s) Hw Hr (ok_fuel _ Hw)) as [Ep Hq].
  destruct (process_with_access _ _ _ _ _) as [r w]. cbn in Ep, Hq. subst r. unfold encoded, sret, served_to.
  set (resp := serve _ _ _ _).
  assert (Gr : good_pdu resp) by (apply serve_good; [by apply ok_cells|done|done]).
  destruct (message_encode_back (mkMessage (msg_version m) (community m) resp)) as (reply & -> & _ & Er);
    [split; [apply Wm|apply Gr]|by apply good_sendable|].
  cbn [rbind]. eexists reply, _. split_and!; [done|done|done|]. rewrite Er. f_equal.
  assert (pdu_type resp = Response) as Et.
  { unfold resp, serve. destruct (pdu_type _); try done. by destruct (first_denied _ _ _ _). }
  unfold on_the_wire. cbn. rewrite Et. by destruct (msg_version m).
Qed.

(** C5. Over handlers that keep the contract [AgentOk], roots apart from each other
    included, a community read is answered, to whoever knows the community,
    with what the registry serves to that community's view, in a message that
    reads back; any other community is dropped without a trace. *)
Theorem community_read (OK : AgentOk inv eqv view (registry a) fuel) now salt m bs s :
  wf_message m → sendable_pdu (msg_pdu m) = true → is_read (pdu_type (msg_pdu m)) = true →
  Z.of_nat (length (variables (msg_pdu m))) < u32_max → message_encode m = Ok bs → inv (world s) →
  if bool_decide (community m = cfg_community (config a)) then
    ∃ reply s', handle_datagram a fuel now salt bs s = (Some (Ok (Some reply)), s') ∧
      eqv (world s') (world s) ∧ usm_stats s' = usm_stats s ∧
      let resp := serve (root <$> registry a) (mib view (registry a) (world s))
        (community_context a (msg_version m) (community m) (world s)) (pad_pdu (msg_pdu m)) in
      message_decode reply = Ok (mkMessage (msg_version m) (community m) (pad_pdu resp))
  else handle_datagram a fuel now salt bs s = (Some (Ok None), s).
Proof using L.
  intros Wm Sp Hr Hl Ee Hw. case_bool_decide as Hc; [by eapply community_answer|].
  destruct (message_encode_back m Wm) as (bs' & Ee' & _ & Ed).
  { unfold sendable. assert (Ht : pdu_type (msg_pdu m) ≠ TrapV1) by (by intros E; rewrite E in Hr).
    by rewrite (bool_decide_eq_false_2 _ Ht), andb_false_r. }
  rewrite Ee in Ee'. injection Ee' as <-. rewrite (on_the_wire_read m Hr) in Ed.
  unfold handle_datagram. rewrite (community_peek m bs Wm Ee). unfold handle_community. rewrite Ed.
  cbn [community]. by rewrite (bool_decide_eq_false_2 _ Hc).
Qed.

Lemma reads_respond roots cs sec p : is_read (pdu_type p) = true → pdu_type (serve roots cs sec p) = Response.
Proof. unfold serve. destruct (pdu_type p); try done. by destruct (first_denied _ _ _ _). Qed.

(** The part of [handle_v3] that every known user passes: a message that reads
    as [m] for the user, of this engine. *)
Lemma handle_known now salt bs h u user m s :
  peek_security bs = Ok (h, u) → u_engine_id u = cfg_engine_id (config a) → cfg_engine_id (config a) ≠ [] →
  users a !! u_user_name u = Some user → parse bs (Some user) = Ok m →
  handle_datagram a fuel now salt bs s =
    (if has_auth (security_level_of user) && negb (in_window a now u)
     then reply_report a (msg_id h) (Some user) now NotInTimeWindows (request_id (scoped_pdu (scoped m))) s
     else
       (let* r := dispatch a fuel (scoped_pdu (scoped m)) (usm_context a user (context_name (scoped m))) in
        sret (encoded r (fun p => build_response (msg_id h) user salt (engine a now) (engine_id (engine a now)) p))) s).
Proof.
  intros Ep Ee Hn Eu Em. unfold handle_datagram. rewrite Ep. unfold handle_v3. cbn [engine engine_id].
  rewrite Ee, (bool_decide_eq_false_2 _ Hn), (bool_decide_eq_true_2 _ (eq_refl _)). cbn [orb negb].
  rewrite Eu, Em. by destruct (_ && _).
Qed.

(** Serving a read of a known user: the response is built for that user. *)
Lemma serve_known (OK : AgentOk inv eqv view (registry a) fuel) (WA : wf_agent a) now salt user p ctx id s :
  is_text (user_name user) → is_salt salt → is_i32 id → good_request p → is_read (pdu_type p) = true → inv (world s) →
  ∃ reply s' m, (let* r := dispatch a fuel p (usm_context a user ctx) in
      sret (encoded r (fun p => build_response id user salt (engine a now) (engine_id (engine a now)) p))) s
      = (Some (Ok (Some reply)), s') ∧
    eqv (world s') (world s) ∧ usm_stats s' = usm_stats s ∧ parse reply (Some user) = Ok m ∧ msg_id (header m) = id ∧
    has_flag (flags (header m)) FLAG_AUTH = has_auth (security_level_of user) ∧
    has_flag (flags (header m)) FLAG_PRIV = has_priv (security_level_of user) ∧
    scoped_pdu (scoped m) = pad_pdu (serve (root <$> registry a) (mib view (registry a) (world s))
      (usm_context a user ctx (world s)) p).
Proof using L CL.
  intros Ht [Hsl Hsb] Hi Hg Hr Hw. unfold sbind, dispatch.
  destruct (process_reads fuel p (usm_context a user ctx (world s)) (world s) Hw Hr (ok_fuel _ Hw)) as [Ep Hq].
  destruct (process_with_access _ _ _ _ _) as [r w]. cbn in Ep, Hq. subst r. unfold encoded, sret.
  set (resp := serve _ _ _ _).
  assert (Gr : good_pdu resp) by (apply serve_good; [by apply ok_cells|done|done]).
  destruct (user_message_back id false user salt (engine a now) (engine_id (engine a now)) resp)
    as (reply & tag & privp & Eb & _ & _ & Em & _);
    [done..|by apply engine_wf|apply (wfe_id _ (engine_wf a WA now))|apply Gr|apply Gr|].
  unfold build_response. rewrite Eb. cbn [rbind].
  eexists reply, _, _. split_and!; [done|done|done|exact Em|done|apply flag_auth|apply flag_priv|done].
Qed.

(** A request built for user [u] against the manager's idea [e] of the engine. *)
Section Keyed.
Context (OK : AgentOk inv eqv view (registry a) fuel) (WA : wf_agent a) (Hn : cfg_engine_id (config a) ≠ []).
Context (u : UsmUser) (Hu : users a !! as_bytes (user_name u) = Some u).
Context (id : Z) (Hi : is_i32 id) (salt : bytes) (Hs : is_salt salt).
Context (e : EngineParams) (We : wf_engine e) (Ee : engine_id e = cfg_engine_id (config a)).
Context (ctx : bytes) (Hc : is_bytes ctx) (p : Pdu) (Wp : wf_pdu p) (Sp : sendable_pdu p = true).
Context (bs : bytes) (Eb : build_request id u salt e ctx p = Ok bs).

Definition fresh (now : Z) : bool := bool_decide (engine_boots e = cfg_engine_boots (config a) ∧
  Z.abs (as_u32 now - engine_time e) <= TIME_WINDOW_SECS).

Lemma keyed_request now salt' s :
  handle_datagram a fuel now salt' bs s =
    (if has_auth (security_level_of u) && negb (fresh now)
     then reply_report a id (Some u) now NotInTimeWindows (request_id p) s
     else
       (let* r := dispatch a fuel (pad_pdu p) (usm_context a u []) in
        sret (encoded r (fun q => build_response id u salt' (engine a now) (engine_id (engine a now)) q))) s).
Proof using L CL Eb Ee Hc Hi Hn Hs Hu Sp WA We Wp.
  destruct Hs as [Hsl Hsb]. pose proof (wa_users a WA _ _ Hu) as Ht.
  destruct (user_message_back id true u salt e ctx p Hi Ht Hsl Hsb We Hc Wp Sp) as (bs' & tag & privp & Eb' & _ & Ek & Em & _).
  unfold build_request in Eb. rewrite Eb in Eb'. injection Eb' as <-. cbn zeta in Ek, Em.
  rewrite (handle_known now salt' bs _ _ u _ s Ek Ee Hn Hu Em).
  assert (in_window a now (usm (user_message id true u e ctx p tag privp)) = fresh now) as ->; [|done].
  unfold in_window, fresh. cbn. apply eq_true_iff_eq. by rewrite andb_true_iff, Z.eqb_eq, Z.leb_le, bool_decide_eq_true.
Qed.

Lemma stale_answer now salt' s : has_auth (security_level_of u) && negb (fresh now) = true →
  ∃ reply m s', handle_datagram a fuel now salt' bs s = (Some (Ok (Some reply)), s') ∧
    parse reply (Some u) = Ok m ∧ msg_id (header m) = id ∧ world s' = world s ∧
    scoped_pdu (scoped m) = report_pdu (request_id p) NotInTimeWindows (usm_stats s') ∧
    has_flag (flags (header m)) FLAG_AUTH = true ∧
    u_engine_boots (usm m) = cfg_engine_boots (config a) ∧ u_engine_time (usm m) = as_u32 now.
Proof using L CL Eb Ee Hc Hi Hn Hs Hu Sp WA We Wp.
  intros Ew. rewrite keyed_request, Ew. apply andb_true_iff in Ew as [Ha _].
  destruct (report_back id (Some u) (engine a now) NotInTimeWindows (as_u32 (usm_stats s + 1)) (request_id p))
    as (reply & m & E & _ & Eh & _ & Ebt & Etm & Epd & Epm & _);
    [done|by apply engine_wf|apply Wp|apply as_u32_range|by intros ? [= <-]; apply (wa_users a WA _ _ Hu)|].
  exists reply, m, (mkState (world s) (as_u32 (usm_stats s + 1))).
  unfold reply_report, sbind, next_stat, sret. rewrite E. cbn [rbind]. rewrite Eh, Ha. by split_and!.
Qed.

Lemma fresh_answer now salt' s : has_auth (security_level_of u) && negb (fresh now) = false →
  Z.of_nat (length (variables p)) < u32_max → is_read (pdu_type p) = true → inv (world s) → is_salt salt' →
  ∃ reply m s', handle_datagram a fuel now salt' bs s = (Some (Ok (Some reply)), s') ∧
    parse reply (Some u) = Ok m ∧ msg_id (header m) = id ∧ eqv (world s') (world s) ∧
    has_flag (flags (header m)) FLAG_AUTH = has_auth (security_level_of u) ∧
    has_flag (flags (header m)) FLAG_PRIV = has_priv (security_level_of u) ∧
    scoped_pdu (scoped m) = served_to (usm_context a u []) (world s) (pad_pdu p).
Proof using L CL Eb Ee Hc Hi Hn Hs Hu Sp WA We Wp OK.
  intros Ew Hl Hr Hw Hs'. rewrite keyed_request, Ew.
  destruct (serve_known OK WA now salt' u (pad_pdu p) [] id s (wa_users a WA _ _ Hu) Hs' Hi)
    as (reply & s' & m & E & Hq & _ & Em' & Eid & Fa & Fp & Epd); [by apply pad_pdu_good|done|done|].
  exists reply, m, s'. by split_and!.
Qed.
End Keyed.

(** C6. A manager that knows the engine's id and a user's passwords, and an agent
    whose handlers keep the contract [AgentOk]: within the time window its read is answered with what the registry serves to that
    user, in a message authenticated and encrypted as that user's level says,
    which reads back under the user's keys; outside the
    window an authenticated user gets a report, under its key, with the
    engine's present boots and time, and nothing else happens. *)
Theorem v3_read (OK : AgentOk inv eqv view (registry a) fuel) now id u salt salt' e ctx p bs s :
  wf_agent a → cfg_engine_id (config a) ≠ [] → users a !! as_bytes (user_name u) = Some u →
  is_i32 id → is_salt salt → is_salt salt' → wf_engine e → engine_id e = cfg_engine_id (config a) →
  is_bytes ctx → wf_pdu p → sendable_pdu p = true → Z.of_nat (length (variables p)) < u32_max →
  is_read (pdu_type p) = true → inv (world s) →
  build_request id u salt e ctx p = Ok bs →
  let fresh := bool_decide (engine_boots e = cfg_engine_boots (config a) ∧
    Z.abs (as_u32 now - engine_time e) <= TIME_WINDOW_SECS) in
  ∃ reply m s', handle_datagram a fuel now salt' bs s = (Some (Ok (Some reply)), s') ∧
    parse reply (Some u) = Ok m ∧ msg_id (header m) = id ∧
    if has_auth (security_level_of u) && negb fresh then
      world s' = world s ∧
      scoped_pdu (scoped m) = report_pdu (request_id p) NotInTimeWindows (usm_stats s') ∧
      has_flag (flags (header m)) FLAG_AUTH = true ∧
      u_engine_boots (usm m) = cfg_engine_boots (config a) ∧ u_engine_time (usm m) = as_u32 now
    else
      eqv (world s') (world s) ∧
      has_flag (flags (header m)) FLAG_AUTH = has_auth (security_level_of u) ∧
      has_flag (flags (header m)) FLAG_PRIV = has_priv (security_level_of u) ∧
      scoped_pdu (scoped m) = pad_pdu (serve (root <$> registry a) (mib view (registry a) (world s))
        (usm_context a u [] (world s)) (pad_pdu p)).
Proof using L CL.
  intros WA Hn Hu Hi Hs Hs' We Ee Hc Wp Sp Hl Hr Hw Eb fr. change fr with (fresh e now).
  destruct (has_auth (security_level_of u) && negb (fresh e now)) eqn:Ew.
  - destruct (stale_answer WA Hn u Hu id Hi salt Hs e We Ee ctx Hc p Wp Sp bs Eb now salt' s Ew)
      as (reply & m & s' & H1 & H2 & H3 & H4). by exists reply, m, s'.
  - destruct (fresh_answer OK WA Hn u Hu id Hi salt Hs e We Ee ctx Hc p Wp Sp bs Eb now salt' s Ew Hl Hr Hw Hs')
      as (reply & m & s' & H1 & H2 & H3 & H4 & H5 & H6 & H7). exists reply, m, s'. by split_and!.
Qed.

(** [bs] is answered, to anyone, with a report of [stat] by this engine. *)
Definition reported (now : Z) (salt : bytes) (id : Z) (s : State W) (bs : bytes) (stat : UsmStat) : Prop :=
  ∃ reply m, handle_datagram a fuel now salt bs s =
      (Some (Ok (Some reply)), mkState (world s) (as_u32 (usm_stats s + 1))) ∧
    (∀ user, parse reply user = Ok m) ∧ msg_id (header m) = id ∧
    scoped_pdu (scoped m) = report_pdu 0 stat (as_u32 (usm_stats s + 1)) ∧
    u_engine_id (usm m) = cfg_engine_id (config a) ∧
    u_engine_boots (usm m) = cfg_engine_boots (config a) ∧ u_engine_time (usm m) = as_u32 now.

Lemma reported_by now salt id s bs h u stat : wf_agent a → is_i32 id →
  peek_security bs = Ok (h, u) → msg_id h = id →
  (∀ now salt, handle_v3 a fuel now salt bs h u s = reply_report a id None now stat 0 s) →
  reported now salt id s bs stat.
Proof using L CL.
  intros WA Hi Ep Eid Hh. unfold reported, handle_datagram. rewrite Ep, Hh.
  destruct (reply_report_ok a WA id None now stat 0 s Hi) as (reply & m & E & _ & Em & Epd & E1 & E2 & E3 & Hall);
    [unfold is_i32; lia|done|].
  exists reply, m. split_and!; try done. by apply Hall.
Qed.

Lemma probe_answer now salt id rid s : wf_agent a → is_i32 id → is_i32 rid →
  ∃ probe, build_discovery id rid = Ok probe ∧ reported now salt id s probe UnknownEngineIDs.
Proof using L CL.
  intros WA Hi Hrid.
  destruct (scoped_ber_back (mkScoped [] [] (new_pdu Get rid))) as (sb & Esb & Hsb & _);
    [by constructor|by constructor|split; cbn; try done; unfold is_i64; lia|done|].
  assert (Wh : wf_header (usm_header id FLAG_REPORTABLE)) by (split; [done|vm_compute; split; congruence..]).
  destruct (encode_with_back (usm_header id FLAG_REPORTABLE) sb (mkUsm [] 0 0 [] [] []) Wh)
    as (probe & sec & Epr & _ & Hl & _ & Ds & Db); [split; cbn; try (by constructor); unfold is_u32; lia|done|].
  exists probe. unfold build_discovery. rewrite Esb. split; [exact Epr|].
  eapply reported_by; [done|done|by eapply peek_back|done|]. intros now0 salt0. unfold handle_v3. cbn [u_engine_id].
  by rewrite bool_decide_eq_true_2.
Qed.

(** Discovery: the probe of a manager that knows nothing is answered, to anyone,
    with the engine's identity, boots and time; so is a request for another
    engine, and one of an unknown user. None of them reaches a handler. *)
Theorem discovery_and_strangers now id rid salt s : wf_agent a → cfg_engine_id (config a) ≠ [] →
  is_i32 id → is_i32 rid →
  (∃ probe, build_discovery id rid = Ok probe ∧ reported now salt id s probe UnknownEngineIDs) ∧
  (∀ u salt' e ctx p bs, is_text (user_name u) → is_salt salt' → wf_engine e → is_bytes ctx → wf_pdu p →
    sendable_pdu p = true → build_request id u salt' e ctx p = Ok bs →
    (engine_id e ≠ cfg_engine_id (config a) → reported now salt id s bs UnknownEngineIDs) ∧
    (engine_id e = cfg_engine_id (config a) → users a !! as_bytes (user_name u) = None →
      reported now salt id s bs UnknownUserNames)).
Proof using L CL.
  intros WA Hn Hi Hrid. split; [by apply probe_answer|].
  intros u salt' e ctx p bs Ht [Hsl Hsb] We Hc Wp Sp Eb.
  destruct (user_message_back id true u salt' e ctx p Hi Ht Hsl Hsb We Hc Wp Sp) as (bs' & tag & privp & Eb' & _ & Ek & _).
  unfold build_request in Eb. rewrite Eb in Eb'. injection Eb' as <-. cbn zeta in Ek.
  split.
  - intros He. eapply reported_by; [done|done|exact Ek|done|]. intros now0 salt0. unfold handle_v3.
    cbn [usm user_message u_engine_id engine engine_id].
    by rewrite (bool_decide_eq_false_2 (engine_id e = cfg_engine_id (config a))), orb_true_r.
  - intros He Hu. eapply reported_by; [done|done|exact Ek|done|]. intros now0 salt0. unfold handle_v3.
    cbn [usm user_message u_engine_id engine engine_id u_user_name]. rewrite He, (bool_decide_eq_false_2 _ Hn).
    rewrite (bool_decide_eq_true_2 _ (eq_refl _)). cbn [orb negb]. by rewrite Hu.
Qed.

(** A request that names a user and claims no security is built without any
    key, and is served with that user's rights. *)
Theorem keyless_request_is_served (OK : AgentOk inv eqv view (registry a) fuel) now id name u salt salt' p s :
  wf_agent a → cfg_engine_id (config a) ≠ [] → users a !! as_bytes name = Some u → user_name u = name →
  is_i32 id → is_salt salt → is_salt salt' → wf_pdu p → sendable_pdu p = true →
  Z.of_nat (length (variables p)) < u32_max → is_read (pdu_type p) = true → inv (world s) →
  ∃ bs reply m s', build_request id (noauth_user name) salt (engine a now) [] p = Ok bs ∧
    handle_datagram a fuel now salt' bs s = (Some (Ok (Some reply)), s') ∧
    parse reply (Some u) = Ok m ∧
    scoped_pdu (scoped m) = pad_pdu (serve (root <$> registry a) (mib view (registry a) (world s))
      (usm_context a u [] (world s)) (pad_pdu p)).
Proof using L CL.
  intros WA Hn Hu <- Hi [Hsl Hsb] Hs' Wp Sp Hl Hr Hw. pose proof (wa_users a WA _ _ Hu) as Ht.
  destruct (build_message_back id true NoAuthNoPriv (as_bytes (user_name u)) salt (engine a now) [] None None p u)
    as (bs & tag & privp & Eb & _ & Ek & Em & _); [done|by apply is_bytes_as_bytes|done|done|by apply engine_wf|
    by constructor|done|done|done|done|].
  cbn zeta in Ek, Em. exists bs. rewrite (handle_known now salt' bs _ _ u _ s Ek eq_refl Hn Hu Em).
  assert (in_window a now (mkUsm (engine_id (engine a now)) (engine_boots (engine a now)) (engine_time (engine a now))
    (as_bytes (user_name u)) tag privp) = true) as ->.
  { unfold in_window. cbn. by rewrite Z.eqb_refl, Z.sub_diag. }
  rewrite andb_false_r. cbn [scoped scoped_pdu context_name header msg_id usm_header].
  destruct (serve_known OK WA now salt' u (pad_pdu p) [] id s Ht Hs' Hi) as (reply & s' & m & E & Hq & _ & Em' & Eid & _ & _ & Epd);
    [by apply pad_pdu_good|done|done|].
  exists reply, m, s'. by split_and!.
Qed.

(** ** The loop *)


(** One reply that the socket refuses ends it: what arrives later is never read. *)
Lemma refused_reply_ends_the_loop d ds reply s s' :
  handle_datagram a fuel (d_now d) (d_salt d) (d_data d) s = (Some (Ok (Some reply)), s') →
  d_send_ok d (length reply) = false → serve_on a fuel (d :: ds) s = (Some ([], ds), s').
Proof. intros E Ho. cbn [serve_on]. unfold sbind. rewrite E. by rewrite Ho. Qed.
End Manager.
