(* ===== verification/Exchange.v ===== *)
(** * A manager and an agent

    A concrete agent that serves one writable scalar to a community and to a
    user with authentication and privacy, over the codec and the cryptography
    of [Reference]. It shows that what the theorems on messages and on the
    agent assume can hold together, and applies each of them. *)

From Stdlib Require Import ZArith Lia.
From S2P Require Import Prelude MachineInts Text Oid Value Pdu Config Cells Handler Scalar Vacm.
From S2P Require Import Registry Serving Wire Usm V3 Reference Agent.

Local Open Scope list_scope.

#[local] Existing Instance reference_v3.
#[local] Existing Instance reference_v3_laws.
#[local] Existing Instance reference_crypto.
#[local] Existing Instance reference_crypto_laws.

#[local] Instance typed : DecodersTyped reference_v3 reference_crypto.
Proof.
  split.
  - by intros bs m _ [[H1 H2] H3]%tagged_typed.
  - by intros bs m _ [[H1 H2] H3]%tagged_typed.
  - by intros bs s _ [H1 H2]%tagged_typed.
  - by intros bs m _ [H1 H2]%tagged_typed.
  - intros [|t bs] b Hb; cbn; [done|]. apply Forall_cons in Hb as [_ Hb].
    destruct (t =? 4); [|done]. intros [= <-]. split; [done|lia].
  - intros key iv ct pt Hb. cbn. destruct (_ && _); [|done]. intros [= <-].
    split; [by apply Forall_rev|apply length_rev].
Qed.

(** ** The agent *)

Definition name_root : Oid := [1; 3; 6; 1; 2; 1; 1; 5].
Definition name_config := ScalarHandler.writable (ScalarHandler.new name_root).
Definition handlers : list (MibHandler Value) := [ScalarHandler.handler name_config].
Definition cells_of (_ : MibHandler Value) (v : Value) : cells := ScalarHandler.view name_config v.

(** The name is a string. *)
Definition served (v : Value) : Prop := ∃ b, v = VOctetString b ∧ is_bytes b.

Lemma accepted o v : prepared served (ScalarHandler.handler name_config) o v → ∃ b, v = VOctetString b.
Proof.
  intros (w & (b & -> & _) & E). cbn in E. unfold ScalarHandler.prepare_set in E. cbn in E.
  destruct (Oid.eqb _ _); cbn in E; [|done]. destruct v; cbn in E; try done. eauto.
Qed.

#[local] Instance agent_ok : AgentOk served eq cells_of handlers 2.
Proof.
  assert (Single : ∀ h, h ∈ handlers → h = ScalarHandler.handler name_config)
    by (by intros h ->%list_elem_of_singleton).
  assert (Name : Oid.wf (name_root ++ [0]) ∧ sendable_oid (name_root ++ [0]) = true).
  { split; [|done]. unfold Oid.wf, is_u32, name_root. cbn. repeat (constructor; [lia|]). constructor. }
  split.
  - split.
    + split; [apply _|by intros w w' ->].
    + intros h ->%Single. destruct (ScalarHandler.readable name_config eq_refl). split; eauto.
    + by intros h w _ (b & -> & _) c ->%list_elem_of_singleton.
    + repeat constructor.
    + split; [apply NoDup_singleton|]. by intros x y ->%list_elem_of_singleton ->%list_elem_of_singleton _.
  - intros w (b & -> & Wv). unfold mib, handlers. cbn. apply Forall_singleton.
    unfold good_cell, good_vb, wf_vb, sendable_vb. cbn [vb_oid vb_value fst snd].
    destruct Name as [Wn Sn]. split; [done|]. apply andb_true_iff. by split.
  - intros w _. cbn. lia.
  - intros h o v ->%Single _ w Hw. cbn. unfold ScalarHandler.prepare_set. cbn.
    destruct (Oid.eqb _ _); cbn; [destruct (types_compatible w v); cbn|]; by split; [unfold is_u32; cbn; lia|].
  - intros h o v ->%Single [[_ Wv] _] [b ->]%accepted w Hw. cbn. unfold ScalarHandler.commit_set, ScalarHandler.set. cbn.
    destruct (Oid.eqb _ _); cbn; [split; [done|by exists b]|]. by split; [unfold is_u32; cbn; lia|].
  - intros h o v ->%Single _. by apply yields_ret.
Qed.

Definition bob : UsmUser := auth_priv_user (str "bob") HmacMd5 (str "authpassword") AesCfb128 (str "privpassword").

Definition agent : Agent Value :=
  new_agent handlers (mkAgentConfig (str "public") default_engine_id 1 [bob]) (λ _, Vacm.new).

Definition now : Z := 1000.
Definition salt : bytes := [1; 2; 3; 4; 5; 6; 7; 8].
Definition engine_now : EngineParams := engine agent now.
Definition engine_stale : EngineParams := mkEngine default_engine_id 1 10.
Definition get_name : Pdu := with_null_var (new_pdu Get 4242) (name_root ++ [0]).
Definition state : State Value := mkState (VOctetString (str "host")) 0.

Lemma octets_bytes bs : Forall (λ b, 0 <= b < 256) bs → is_bytes bs.
Proof. done. Qed.

Ltac octets := apply octets_bytes; cbn; repeat (constructor; [lia|]); constructor.

Lemma default_engine_bytes : is_bytes default_engine_id.
Proof. octets. Qed.

Lemma salt_ok : is_salt salt.
Proof. split; [done|octets]. Qed.

Lemma bob_text : is_text (user_name bob).
Proof. unfold is_text, is_char. cbn. repeat (constructor; [lia|]). constructor. Qed.

Lemma agent_users : users agent !! as_bytes (user_name bob) = Some bob.
Proof. apply lookup_insert_eq. Qed.

Lemma agent_wf : wf_agent agent.
Proof.
  split; [apply default_engine_bytes|unfold is_u32; cbn; lia|].
  intros n u. cbn. intros [[_ <-]|[_ H]]%lookup_insert_Some; [apply bob_text|by rewrite lookup_empty in H].
Qed.

Lemma get_name_wf : wf_pdu get_name.
Proof.
  split; cbn; unfold is_i32, is_i64; try lia; [|done]. apply Forall_singleton. split; [|done].
  unfold Oid.wf, is_u32, name_root. cbn. repeat (constructor; [lia|]). constructor.
Qed.

Lemma get_name_sendable : sendable_pdu get_name = true.
Proof. reflexivity. Qed.

Lemma state_served : served (world state).
Proof. eexists. split; [reflexivity|octets]. Qed.

Lemma engine_now_wf : wf_engine engine_now.
Proof. apply engine_wf, agent_wf. Qed.

Lemma engine_stale_wf : wf_engine engine_stale.
Proof. split; [apply default_engine_bytes|unfold is_u32; cbn; lia..]. Qed.

(** ** The exchanges *)

Definition public_get : Message := mkMessage V2c (str "public") get_name.

Lemma public_get_wf : wf_message public_get.
Proof. split; [octets|apply get_name_wf]. Qed.

Lemma message_roundtrip_witness :
  match message_encode public_get with
  | Ok bs => sendable public_get = true ∧ message_decode bs = Ok (on_the_wire public_get) ∧
      (faithful public_get → on_the_wire public_get = public_get)
  | Err _ => sendable public_get = false
  end.
Proof.
  apply (message_roundtrip public_get). apply public_get_wf.
Defined.

Lemma key_change_recovers_witness : str "new" ≠ [] ∧
  match key_change HmacMd5 (str "old") (str "new") default_engine_id (replicate 16 9) with
  | None => (length (replicate 16 9) < 16)%nat
  | Some out =>
      length out = 32%nat ∧ take 16 out = take 16 (replicate 16 9) ∧
      xor_into (drop 16 out) (digest HmacMd5 (localized_key HmacMd5 (str "old") default_engine_id ++ take 16 out)) =
        localized_key HmacMd5 (str "new") default_engine_id
  end.
Proof.
  split; [done|].
  apply (key_change_recovers HmacMd5 (str "old") (str "new") default_engine_id (replicate 16 9)). done.
Defined.

Lemma user_message_roundtrip_witness : is_text (user_name bob) ∧
  ∃ bs m, build_user_message 7 true bob salt engine_stale [] get_name = Ok bs ∧
    peek_security bs = Ok (header m, usm m) ∧ parse bs (Some bob) = Ok m ∧
    scoped m = mkScoped (context_engine engine_stale []) [] (pad_pdu get_name) ∧
    msg_id (header m) = 7 ∧ reportable m = true ∧
    has_flag (flags (header m)) FLAG_AUTH = has_auth (security_level_of bob) ∧
    has_flag (flags (header m)) FLAG_PRIV = has_priv (security_level_of bob) ∧
    u_user_name (usm m) = as_bytes (user_name bob) ∧ u_engine_id (usm m) = engine_id engine_stale ∧
    u_engine_boots (usm m) = engine_boots engine_stale ∧ u_engine_time (usm m) = engine_time engine_stale.
Proof.
  split; [apply bob_text|].
  pose proof (user_message_roundtrip 7 true bob salt engine_stale [] get_name) as H.
  rewrite get_name_sendable in H. apply H; try apply salt_ok.
  - unfold is_i32. lia.
  - apply bob_text.
  - apply engine_stale_wf.
  - constructor.
  - apply get_name_wf.
Defined.

Lemma community_read_witness : ∃ bs, message_encode public_get = Ok bs ∧
  ∃ reply s', handle_datagram agent 2 now salt bs state = (Some (Ok (Some reply)), s') ∧
    world s' = world state ∧ usm_stats s' = usm_stats state ∧
    message_decode reply = Ok (mkMessage V2c (str "public")
      (pad_pdu (serve (root <$> registry agent) (mib cells_of (registry agent) (world state))
        (community_context agent V2c (str "public") (world state)) (pad_pdu get_name)))).
Proof.
  destruct (message_encode public_get) as [bs|] eqn:E.
  2:{ exfalso. pose proof (message_encode_back public_get public_get_wf) as H.
      destruct H as (bs & Eb & _); [done|]. rewrite E in Eb. done. }
  exists bs. split; [done|].
  apply (community_read agent 2 agent_ok now salt public_get bs state public_get_wf);
    [reflexivity|reflexivity|reflexivity|exact E|apply state_served].
Defined.

(** Bob's request, built when the manager's clock is fresh and when it is not. *)
Lemma bob_request e : wf_engine e → ∃ bs, build_request 7 bob salt e [] get_name = Ok bs.
Proof.
  intros We. destruct salt_ok as [Hl Hs].
  destruct (user_message_back 7 true bob salt e [] get_name) as (bs & tag & privp & E & _);
    [unfold is_i32; lia|apply bob_text|done|done|done|constructor|apply get_name_wf|done|eauto].
Qed.

Lemma v3_read_witness :
  (∃ bs, build_request 7 bob salt engine_now [] get_name = Ok bs ∧
   ∃ reply m s', handle_datagram agent 2 now salt bs state = (Some (Ok (Some reply)), s') ∧
     parse reply (Some bob) = Ok m ∧ msg_id (header m) = 7 ∧ world s' = world state ∧
     has_flag (flags (header m)) FLAG_AUTH = true ∧ has_flag (flags (header m)) FLAG_PRIV = true ∧
     scoped_pdu (scoped m) = pad_pdu (serve (root <$> registry agent) (mib cells_of (registry agent) (world state))
       (usm_context agent bob [] (world state)) (pad_pdu get_name))) ∧
  (∃ bs, build_request 7 bob salt engine_stale [] get_name = Ok bs ∧
   ∃ reply m s', handle_datagram agent 2 now salt bs state = (Some (Ok (Some reply)), s') ∧
     parse reply (Some bob) = Ok m ∧ msg_id (header m) = 7 ∧ world s' = world state ∧
     scoped_pdu (scoped m) = report_pdu 4242 NotInTimeWindows (usm_stats s') ∧
     has_flag (flags (header m)) FLAG_AUTH = true ∧
     u_engine_boots (usm m) = 1 ∧ u_engine_time (usm m) = as_u32 now).
Proof.
  assert (Hid : is_i32 7) by (unfold is_i32; lia).
  split.
  - destruct (bob_request engine_now engine_now_wf) as [bs E]. exists bs. split; [done|].
    apply (v3_read agent 2 agent_ok now 7 bob salt salt engine_now [] get_name bs state agent_wf ltac:(done)
      agent_users Hid salt_ok salt_ok engine_now_wf eq_refl (Forall_nil_2 _) get_name_wf get_name_sendable
      ltac:(reflexivity) eq_refl state_served E).
  - destruct (bob_request engine_stale engine_stale_wf) as [bs E]. exists bs. split; [done|].
    apply (v3_read agent 2 agent_ok now 7 bob salt salt engine_stale [] get_name bs state agent_wf ltac:(done)
      agent_users Hid salt_ok salt_ok engine_stale_wf eq_refl (Forall_nil_2 _) get_name_wf get_name_sendable
      ltac:(reflexivity) eq_refl state_served E).
Defined.

Lemma parse_authentic_witness : ∃ bs m, parse bs (Some bob) = Ok m ∧
  has_flag (flags (header m)) FLAG_AUTH = true ∧
  ∃ raw proto pw key security covered,
    decode ber_raw bs = Some raw ∧ user_auth bob = Some (proto, pw) ∧
    key = localized_key proto (as_bytes pw) (u_engine_id (usm m)) ∧
    usm_to_ber (with_auth_params (replicate (mac_len proto) 0) (usm m)) = Ok security ∧
    encode ber_raw (mkRaw (raw_version raw) (global_data raw) security (scoped_data raw)) = Some covered ∧
    auth_params (usm m) = mac proto key covered.
Proof.
  destruct salt_ok as [Hl Hs].
  destruct (user_message_back 7 true bob salt engine_now [] get_name) as (bs & tag & privp & _ & _ & _ & E & _);
    [unfold is_i32; lia|apply bob_text|done|done|apply engine_now_wf|constructor|apply get_name_wf|done|].
  exists bs, (user_message 7 true bob engine_now [] get_name tag privp). split; [exact E|]. split; [done|].
  apply (proj1 (parse_authentic bs bob _ E)). done.
Defined.

Lemma security_models_apart_witness :
  (∃ bs h, build_tsm_request 7 engine_now [] get_name = Ok bs ∧ msg_id h = 7 ∧
    has_flag (flags h) FLAG_AUTH = false ∧ has_flag (flags h) FLAG_PRIV = false ∧
    parse_tsm bs = Ok (h, mkScoped (context_engine engine_now []) [] (pad_pdu get_name)) ∧
    ∀ user, is_ok (parse bs user) = false) ∧
  (∀ bs, build_user_message 7 true bob salt engine_now [] get_name = Ok bs → parse_tsm bs = Err EProtocol).
Proof.
  apply (security_models_apart 7 engine_now [] get_name bob salt true).
  - unfold is_i32. lia.
  - apply engine_now_wf.
  - constructor.
  - apply get_name_wf.
  - apply get_name_sendable.
  - apply bob_text.
  - apply salt_ok.
  - apply salt_ok.
Defined.

Lemma discovery_and_strangers_witness : ∃ probe, build_discovery 7 1 = Ok probe ∧
  ∃ reply m, handle_datagram agent 2 now salt probe state = (Some (Ok (Some reply)), mkState (world state) 1) ∧
    (∀ user, parse reply user = Ok m) ∧ msg_id (header m) = 7 ∧
    scoped_pdu (scoped m) = report_pdu 0 UnknownEngineIDs 1 ∧
    u_engine_id (usm m) = default_engine_id ∧ u_engine_boots (usm m) = 1 ∧ u_engine_time (usm m) = as_u32 now.
Proof.
  apply (discovery_and_strangers agent 2 now 7 1 salt state agent_wf); [done|unfold is_i32; lia..].
Defined.

Lemma keyless_request_witness : ∃ bs reply m s',
  build_request 7 (noauth_user (str "bob")) salt engine_now [] get_name = Ok bs ∧
  handle_datagram agent 2 now salt bs state = (Some (Ok (Some reply)), s') ∧ parse reply (Some bob) = Ok m ∧
  scoped_pdu (scoped m) = pad_pdu (serve (root <$> registry agent) (mib cells_of (registry agent) (world state))
    (usm_context agent bob [] (world state)) (pad_pdu get_name)).
Proof.
  apply (keyless_request_is_served agent 2 agent_ok now 7 (str "bob") bob salt salt get_name state agent_wf
    ltac:(done) agent_users eq_refl ltac:(unfold is_i32; lia) salt_ok salt_ok get_name_wf get_name_sendable
    ltac:(reflexivity) eq_refl state_served).
Defined.

(** Noise, then a datagram of the community. *)
Definition noise : Datagram := mkDatagram [1; 2; 3] now salt (λ _, true).

