(* ===== verification/Row.v ===== *)
(** * The RowStatus state machine ([crates/netsnmp-agent/src/row.rs]) *)

From Stdlib Require Import ZArith Lia.
From S2P Require Import Prelude MachineInts Text Value Pdu.

Inductive RowStatus :=
| Active
| NotInService
| NotReady
| CreateAndGo
| CreateAndWait
| Destroy.

#[export] Instance row_status_eq_dec : EqDecision RowStatus.
Proof. solve_decision. Defined.

Definition from_i64 (v : Z) : option RowStatus :=
  match v with
  | 1 => Some Active
  | 2 => Some NotInService
  | 3 => Some NotReady
  | 4 => Some CreateAndGo
  | 5 => Some CreateAndWait
  | 6 => Some Destroy
  | _ => None
  end.

Definition from_value (value : Value) : option RowStatus :=
  match value with
  | VInteger v => from_i64 v
  | VGauge32 v => from_i64 (as_i64 v)
  | _ => None
  end.

(** [as_i64] of the code; the discriminants. *)
Definition status_i64 (s : RowStatus) : Z :=
  match s with
  | Active => 1
  | NotInService => 2
  | NotReady => 3
  | CreateAndGo => 4
  | CreateAndWait => 5
  | Destroy => 6
  end.

Definition is_create (s : RowStatus) : bool :=
  match s with CreateAndGo | CreateAndWait => true | _ => false end.

Definition status_name (s : RowStatus) : text :=
  match s with
  | Active => str "active"
  | NotInService => str "notInService"
  | NotReady => str "notReady"
  | CreateAndGo => str "createAndGo"
  | CreateAndWait => str "createAndWait"
  | Destroy => str "destroy"
  end.

(** [write!(f, "{s}({})", self.as_i64())]. *)
Definition display (s : RowStatus) : text :=
  status_name s ++ str "(" ++ show_u (status_i64 s) ++ str ")".

(** The new status of the row, [None] for a destroyed one. *)
Definition transition (current : option RowStatus) (requested : RowStatus)
    (required_columns_satisfied : bool) : result (option RowStatus) ErrorStatus :=
  match requested with
  | CreateAndGo =>
      if bool_decide (is_Some current) then Err InconsistentValue
      else if negb required_columns_satisfied then Err InconsistentName
      else Ok (Some Active)
  | CreateAndWait =>
      if bool_decide (is_Some current) then Err InconsistentValue
      else if required_columns_satisfied then Ok (Some NotInService)
      else Ok (Some NotReady)
  | Destroy => match current with Some _ => Ok None | None => Ok None end
  | Active =>
      match current with
      | Some NotInService | Some NotReady | Some Active =>
          if required_columns_satisfied then Ok (Some Active) else Err InconsistentValue
      | Some _ => Err InconsistentValue
      | None => Err InconsistentName
      end
  | NotInService =>
      match current with
      | Some Active | Some NotInService => Ok (Some NotInService)
      | Some _ => Err InconsistentValue
      | None => Err InconsistentName
      end
  | NotReady =>
      match current with
      | Some NotInService | Some NotReady => Ok (Some NotReady)
      | Some _ => Err InconsistentValue
      | None => Err InconsistentName
      end
  end.

(** ** The statuses a row can be left in *)

(** RFC 2579: a row that exists is active, not in service or not ready. *)
Definition stable_status (s : RowStatus) : Prop :=
  s = Active ∨ s = NotInService ∨ s = NotReady.

Definition stable_row (s : option RowStatus) : Prop :=
  match s with Some s => stable_status s | None => True end.

Lemma transition_stable current requested sat next :
  transition current requested sat = Ok next → stable_row next.
Proof.
  unfold transition, stable_row, stable_status.
  destruct requested, current as [[]|], sat; cbn; intros [= <-]; auto.
Qed.

Lemma transition_active current requested sat :
  transition current requested sat = Ok (Some Active) → sat = true.
Proof. destruct requested, current as [[]|], sat; cbn; congruence. Qed.

Lemma from_i64_status s : from_i64 (status_i64 s) = Some s.
Proof. by destruct s. Qed.

Lemma from_i64_Some v s : from_i64 v = Some s → v = status_i64 s.
Proof.
  unfold from_i64. intros H.
  repeat (match type of H with context [match ?x with _ => _ end] => destruct x end; try done);
    by injection H as <-.
Qed.

(** ** The table of RFC 2579 as the module documents it *)

(** One row of the documentation table per constructor: what the request does
    in each state and the error it is refused with. [absent] and [present]
    are the table's two columns. *)
Inductive rfc_step : option RowStatus → RowStatus → bool →
    result (option RowStatus) ErrorStatus → Prop :=
| rfc_absent_refused r sat :
    r = Active ∨ r = NotInService ∨ r = NotReady →
    rfc_step None r sat (Err InconsistentName)
| rfc_create_and_go : rfc_step None CreateAndGo true (Ok (Some Active))
| rfc_create_and_go_missing : rfc_step None CreateAndGo false (Err InconsistentName)
| rfc_create_and_wait : rfc_step None CreateAndWait true (Ok (Some NotInService))
| rfc_create_and_wait_missing : rfc_step None CreateAndWait false (Ok (Some NotReady))
| rfc_create_present s r sat : is_create r = true → rfc_step (Some s) r sat (Err InconsistentValue)
| rfc_destroy s sat : rfc_step s Destroy sat (Ok None)
| rfc_activate s :
    s = NotInService ∨ s = Active → rfc_step (Some s) Active true (Ok (Some Active))
| rfc_activate_missing s :
    s = NotInService ∨ s = Active → rfc_step (Some s) Active false (Err InconsistentValue)
| rfc_activate_not_ready sat :
    rfc_step (Some NotReady) Active sat (Err InconsistentValue)
| rfc_suspend s sat :
    s = Active ∨ s = NotInService → rfc_step (Some s) NotInService sat (Ok (Some NotInService))
| rfc_suspend_not_ready sat :
    rfc_step (Some NotReady) NotInService sat (Err InconsistentValue)
| rfc_unready s sat :
    s = NotInService ∨ s = NotReady → rfc_step (Some s) NotReady sat (Ok (Some NotReady))
| rfc_unready_active sat : rfc_step (Some Active) NotReady sat (Err InconsistentValue).

(** The case the code decides differently: a row that is not ready and has its
    required columns. *)
Definition activates_not_ready (current : option RowStatus) (requested : RowStatus)
    (sat : bool) : Prop :=
  current = Some NotReady ∧ requested = Active ∧ sat = true.

(** The transition function answers as the table says in every state a row can
    be in, for every request and column check, except that a row that is not
    ready and has its required columns is activated, where the table admits
    only rows that were not in service or active. *)
Theorem transition_rfc_table current requested sat :
  stable_row current →
  (rfc_step current requested sat (transition current requested sat) ↔
     ¬ activates_not_ready current requested sat) ∧
  (activates_not_ready current requested sat →
     transition current requested sat = Ok (Some Active)).
Proof.
  intros Hs. split; [|by intros (-> & -> & ->)].
  unfold activates_not_ready, stable_row, stable_status in *.
  destruct current as [s|]; [destruct Hs as [->|[->| ->]]|]; destruct requested, sat; cbn;
    (split; [intros H (E1 & E2 & E3); try discriminate; inversion H; intuition congruence|]);
    intros N; try (constructor; by auto).
  by destruct N.
Qed.

Lemma transition_rfc_table_witness :
  stable_row (Some NotInService) ∧
  rfc_step (Some NotInService) Active true (transition (Some NotInService) Active true).
Proof.
  assert (H : stable_row (Some NotInService)) by (right; left; reflexivity).
  split; [exact H|]. apply (transition_rfc_table (Some NotInService) Active true H).
  intros (E & _ & _). discriminate E.
Defined.
