(* ===== verification/Helpers.v ===== *)
(** * Handler helpers ([crates/netsnmp-agent/src/helpers/])

    [CacheHandler], [TableHandler], [ReadOnly] and [Watcher]; the writable
    table [TableDataSet] has its own file. *)

From Stdlib Require Import ZArith Lia.
From stdpp Require Import gmap.
From S2P Require Import Prelude MachineInts Text Oid Value Pdu Cells Handler Snapshots Scalar Registry.

(** ** [CacheHandler] ([cache_handler.rs]) *)

Module CacheHandler.

(** [ttl] in milliseconds. *)
Record config := mkConfig { croot : Oid; ttl : Z }.

Definition state : Type := Snapshot.state cells.

Definition snapshot (c : config) : St state cells := Snapshot.snapshot id (ttl c).

Definition get (c : config) (o : Oid) : St state (option Value) :=
  let* cs := snapshot c in sret (search_get o cs).

Definition get_next (c : config) (o : Oid) : St state (option Reading) :=
  let* cs := snapshot c in sret (to_reading <$> search_next o cs).

Definition set (o : Oid) (v : Value) : St state status_result := sret (Err NotWritable).

Definition handler (c : config) : MibHandler state :=
  mkHandler (croot c) (get c) (get_next c) default_prepare_set (default_commit_set set)
    default_undo_set.

#[export] Instance readable c :
  ReadableHandler (Snapshot.inv id (croot c)) (Snapshot.same id (ttl c)) (handler c)
    (Snapshot.view id (ttl c)).
Proof. destruct (Snapshot.readable id (ttl c) (croot c)). by constructor. Qed.

End CacheHandler.

(** ** Cells of a table's rows *)

Section Rows.
Context (r : Oid).

(** [root.child(col)], then a [child] per index sub-identifier. *)
Definition instance_oid (col : Z) (index : list Z) : Oid :=
  fold_left Oid.child index (Oid.child r col).

Abbreviation RowCells := (gmap Z Value).

(** The cells of one row, and of all rows. *)
Definition row_to_cells (row : list Z * RowCells) : cells :=
  (λ cv, (instance_oid cv.1 row.1, cv.2)) <$> map_to_list row.2.

Definition flatten (rows : list (list Z * RowCells)) : cells :=
  flat_map row_to_cells rows.

Lemma fold_child index o : fold_left Oid.child index o = o ++ index.
Proof.
  revert o. induction index as [|x index IH]; intros o; cbn; [by rewrite app_nil_r|].
  rewrite IH. unfold Oid.child. by rewrite <- app_assoc.
Qed.

Lemma instance_oid_app col index : instance_oid col index = r ++ col :: index.
Proof. unfold instance_oid, Oid.child. rewrite fold_child. by rewrite <- app_assoc. Qed.

Lemma instance_oid_inj col index col' index' :
  instance_oid col index = instance_oid col' index' → col = col' ∧ index = index'.
Proof. rewrite !instance_oid_app. intros H%app_inv_head. by injection H. Qed.

Lemma elem_of_flatten o v rows :
  (o, v) ∈ flatten rows ↔
  ∃ col index cs, (index, cs) ∈ rows ∧ cs !! col = Some v ∧ o = instance_oid col index.
Proof.
  unfold flatten. rewrite list_elem_of_In, in_flat_map. split.
  - intros ([index cs] & H1%list_elem_of_In & H2%list_elem_of_In).
    apply list_elem_of_fmap in H2 as ([col v'] & [= -> ->] & Hm).
    apply elem_of_map_to_list in Hm. by exists col, index, cs.
  - intros (col & index & cs & H1 & H2 & ->). exists (index, cs).
    split; apply list_elem_of_In; [done|]. apply list_elem_of_fmap. exists (col, v).
    split; [done|]. by apply elem_of_map_to_list.
Qed.

Lemma row_to_cells_nodup row : NoDup ((row_to_cells row).*1).
Proof.
  unfold row_to_cells. rewrite <- list_fmap_compose.
  rewrite (list_fmap_ext _ ((λ col, instance_oid col row.1) ∘ fst)) by done.
  rewrite list_fmap_compose. apply NoDup_fmap_2; [|apply NoDup_fst_map_to_list].
  intros a b H. by apply instance_oid_inj in H as [? _].
Qed.

Lemma flatten_nodup rows : NoDup (rows.*1) → NoDup ((flatten rows).*1).
Proof.
  induction rows as [|row rows IH]; cbn; [constructor|].
  intros [Hn Hd]%NoDup_cons. rewrite fmap_app. apply NoDup_app.
  split_and!; [apply row_to_cells_nodup| |by apply IH].
  intros o Ho1 Ho2.
  apply list_elem_of_fmap in Ho1 as ([o1 v1] & -> & H1).
  apply list_elem_of_fmap in Ho2 as ([o2 v2] & E & H2). cbn in E. subst o2.
  apply list_elem_of_fmap in H1 as ([c1 w1] & [= -> ->] & _).
  apply elem_of_flatten in H2 as (c2 & i2 & cs2 & Hin & _ & E).
  apply instance_oid_inj in E as [_ <-].
  apply Hn, list_elem_of_fmap. by exists (row.1, cs2).
Qed.

Lemma flatten_under_root rows c : c ∈ flatten rows → Oid.is_prefix_of r c.1 = true.
Proof.
  destruct c as [o v]. intros (col & index & cs & _ & _ & ->)%elem_of_flatten.
  cbn. apply Oid.is_prefix_of_spec. eexists. apply instance_oid_app.
Qed.

End Rows.

(** ** Handlers that compute their cells on every read *)

Section CellTable.
Context {S : Type} (r : Oid) (cells_of : S → cells).

(** A linear search, and the first cell after the partition point. *)
Definition table_get (o : Oid) : St S (option Value) := fun s => (lookup_cell o (cells_of s), s).

Definition table_get_next (o : Oid) : St S (option Reading) := fun s =>
  (to_reading <$> search_next o (cells_of s), s).

Definition table_handler : MibHandler S := read_only_handler r table_get table_get_next.

Lemma table_readable (inv : S → Prop) :
  (∀ s, inv s → strictly_sorted (cells_of s)) →
  (∀ s c, c ∈ cells_of s → Oid.is_prefix_of r c.1 = true) →
  ReadableHandler inv eq table_handler cells_of.
Proof.
  intros Hs Hu. split; try done.
  - intros w c _. apply Hu.
  - by intros w w' ->.
  - intros o w Hi. cbn. f_equal. by apply search_next_successor, strictly_sorted_sorted, Hs.
Qed.
End CellTable.

(** The cells of a table of rows filed under their names. *)
Definition named_cells {R} (r : Oid) (o n : R → text) (cols : R → gmap Z Value)
    (m : gmap text R) : cells :=
  sort_cells (flatten r ((λ x, (row_index o n x, cols x)) <$> (map_to_list m).*2)).

Lemma named_cells_strict {R} r (o n : R → text) cols m :
  filed o n m → strictly_sorted (named_cells r o n cols m).
Proof.
  intros Hf. apply sort_cells_strict, flatten_nodup.
  rewrite <- list_fmap_compose. by apply filed_indexes_nodup.
Qed.

Lemma named_cells_under_root {R} r (o n : R → text) cols m c :
  c ∈ named_cells r o n cols m → Oid.is_prefix_of r c.1 = true.
Proof. unfold named_cells. rewrite sort_cells_perm. apply flatten_under_root. Qed.

(** ** [TableHandler] ([table.rs]) *)

Module TableHandler.

Record Row := mkRow { index : list Z; row_cells : gmap Z Value }.

Definition new_row (i : list Z) : Row := mkRow i ∅.
Definition with_ (r : Row) (col : Z) (v : Value) : Row :=
  mkRow (index r) (<[col := v]> (row_cells r)).

Definition SNAPSHOT_TTL : Z := 900.

Record config := mkConfig { croot : Oid; columns : list Z }.

(** The provider returns the rows. *)
Definition state : Type := Snapshot.state (list Row).

Definition build (c : config) (rows : list Row) : cells :=
  flatten (croot c) ((λ row, (index row, row_cells row)) <$> rows).

Definition snapshot (c : config) : St state cells :=
  Snapshot.snapshot (build c) SNAPSHOT_TTL.

Definition get (c : config) (o : Oid) : St state (option Value) :=
  let* cs := snapshot c in sret (search_get o cs).

Definition get_next (c : config) (o : Oid) : St state (option Reading) :=
  let* cs := snapshot c in sret (to_reading <$> search_next o cs).

Definition set (o : Oid) (v : Value) : St state status_result := sret (Err NotWritable).

Definition handler (c : config) : MibHandler state :=
  mkHandler (croot c) (get c) (get_next c) default_prepare_set (default_commit_set set)
    default_undo_set.

(** The provider's contract is only that the row indexes are distinct. *)
Lemma build_provides c rows :
  NoDup (index <$> rows) → Snapshot.provides (croot c) (build c rows).
Proof.
  intros Hd. split; [|intros x; apply flatten_under_root].
  apply flatten_nodup. by rewrite <- list_fmap_compose.
Qed.

#[export] Instance readable c :
  ReadableHandler (Snapshot.inv (build c) (croot c)) (Snapshot.same (build c) SNAPSHOT_TTL)
    (handler c) (Snapshot.view (build c) SNAPSHOT_TTL).
Proof. destruct (Snapshot.readable (build c) SNAPSHOT_TTL (croot c)). by constructor. Qed.

End TableHandler.

(** ** [ReadOnly] ([read_only.rs]) *)

Module ReadOnly.

Definition read_only {W} (inner : MibHandler W) : MibHandler W :=
  mkHandler (root inner) (get inner) (get_next inner)
    (fun _ _ => sret (Err NotWritable))
    (fun _ _ => sret (Err NotWritable))
    default_undo_set.

#[export] Instance readable {W} inv eqv (h : MibHandler W) view :
  ReadableHandler inv eqv h view → ReadableHandler inv eqv (read_only h) view.
Proof. by intros []. Qed.

(** It keeps the SET promises whatever the wrapped handler does: nothing is
    ever reserved. *)
#[export] Instance committing {W} (inv : W → Prop) eqv stable (h : MibHandler W) :
  Reflexive eqv → Reflexive stable → CommittingHandler inv eqv stable (read_only h).
Proof. intros He Hs. split; [split|..]; cbn; try done. Qed.

End ReadOnly.

(** ** [Watcher] ([watcher.rs]) *)

Module Watcher.

Section Watcher.
(** The closures the owner of the state passes in. *)
Context {T : Type} (getter : T → Value) (setter : Value → result T ErrorStatus).

Record config := mkConfig { croot : Oid; instance : Oid }.

Definition new (r : Oid) : config := mkConfig r (Oid.child r 0).

(** The state is the value behind the shared lock. *)
Definition get (c : config) (o : Oid) : St T (option Value) := fun t =>
  if Oid.eqb o (instance c) then (Some (getter t), t) else (None, t).

Definition get_next (c : config) (o : Oid) : St T (option Reading) := fun t =>
  if Oid.ltb o (instance c) then (Some (mkReading (instance c) (getter t)), t) else (None, t).

Definition prepare_set (c : config) (o : Oid) (v : Value) : St T status_result := fun t =>
  if negb (Oid.eqb o (instance c)) then (Err NoCreation, t)
  else match setter v with Ok _ => (Ok tt, t) | Err e => (Err e, t) end.

Definition commit_set (c : config) (o : Oid) (v : Value) : St T status_result := fun t =>
  if negb (Oid.eqb o (instance c)) then (Err NoCreation, t)
  else match setter v with Ok t' => (Ok tt, t') | Err e => (Err e, t) end.

Definition handler (c : config) : MibHandler T :=
  mkHandler (croot c) (get c) (get_next c) (prepare_set c) (commit_set c) default_undo_set.

Definition wf (c : config) : Prop := instance c = Oid.child (croot c) 0.

Definition view (c : config) (t : T) : cells := [(instance c, getter t)].

#[export] Instance readable c : wf c → ReadableHandler (λ _, True) eq (handler c) (view c).
Proof.
  intros Hc. split; try done.
  - intros w _. repeat constructor.
  - intros w x _ ->%list_elem_of_singleton. cbn. rewrite Hc. apply Oid.is_prefix_of_child.
  - by intros w w' ->.
  - intros o w _. cbn. unfold get, lookup_cell, find. cbn.
    destruct (Oid.eqb o (instance c)) eqn:E.
    + apply Oid.eqb_eq in E as ->. by rewrite Oid.eqb_refl.
    + destruct (Oid.eqb (instance c) o) eqn:E2; [|done].
      apply Oid.eqb_eq in E2 as <-. by rewrite Oid.eqb_refl in E.
  - intros o w _. cbn. unfold get. by destruct (Oid.eqb _ _).
  - intros o w _. cbn. unfold get_next, successor, find. cbn. by destruct (Oid.ltb o (instance c)).
  - intros o w _. cbn. unfold get_next. by destruct (Oid.ltb _ _).
Qed.

(** The setter's errors are errors. *)
#[export] Instance committing c :
  (∀ v e, setter v = Err e → is_ok_status e = false) →
  CommittingHandler (λ _, True) eq (λ _ _, True) (handler c).
Proof.
  intros He.
  split; [split| | |]; try done.
  - intros o v w _. cbn. unfold prepare_set. destruct (negb _); [done|]. by destruct (setter v).
  - intros o v w w' _ _ _. cbn. unfold prepare_set, commit_set.
    destruct (negb _); [done|]. destruct (setter v) as [t|e] eqn:E; [done|].
    cbn. by rewrite (He _ _ E).
Qed.

End Watcher.
End Watcher.

(** ** How stale a cached read can be *)

(** Whatever reads are made and however the environment changes, a read of a
    [CacheHandler] answers from the cells that the provider returned at some
    instant of the run less than [ttl] ago (or now): GET returns exactly the
    bindings provided then, GETNEXT the least of them after the OID. *)
Theorem cached_reads_bounded c a0 t0 h s o :
  Snapshot.run id (CacheHandler.ttl c) a0 t0 h s →
  (∀ t cs, (t, cs) ∈ h → NoDup (cs.*1)) →
  ∃ b cs, (b, cs) ∈ h ∧ b <= Snapshot.now s ∧
    (Snapshot.now s - b < CacheHandler.ttl c ∨ b = Snapshot.now s) ∧
    (∀ v, (CacheHandler.get c o s).1 = Some v ↔ (o, v) ∈ cs) ∧
    (∀ rd, (CacheHandler.get_next c o s).1 = Some rd →
       (reading_oid rd, reading_value rd) ∈ cs ∧ Oid.lt o (reading_oid rd) ∧
       ∀ x, x ∈ cs → Oid.lt o x.1 → Oid.le (reading_oid rd) x.1).
Proof.
  intros R Hd. pose proof (Snapshot.run_traced id (CacheHandler.ttl c) a0 t0 h s R) as T.
  apply (Snapshot.snapshot_traced id (CacheHandler.ttl c)) in T as [_ (b & cs & Hin & Hb & Hf & E)].
  exists b, cs. split_and!; [done|done|done| |].
  - intros v. unfold CacheHandler.get, CacheHandler.snapshot, sbind, sret.
    unfold Snapshot.view in E. destruct (Snapshot.snapshot _ _ s) as [cs' s']. cbn in *. subst cs'.
    assert (S : strictly_sorted (sort_cells cs)) by (apply sort_cells_strict; by eapply Hd).
    by rewrite search_get_lookup, lookup_cell_Some, sort_cells_perm.
  - intros rd. unfold CacheHandler.get_next, CacheHandler.snapshot, sbind, sret.
    unfold Snapshot.view in E. destruct (Snapshot.snapshot _ _ s) as [cs' s']. cbn in *. subst cs'.
    rewrite search_next_successor by apply sort_cells_sorted.
    intros (x & Ex & ->)%fmap_Some.
    apply successor_spec in Ex as (H1 & H2 & H3); [|apply sort_cells_sorted].
    rewrite sort_cells_perm in H1. destruct x as [xo xv]. split_and!; [done|done|].
    intros d Hdin. apply H3. by rewrite sort_cells_perm.
Qed.

Lemma cached_reads_bounded_witness :
  ∃ b cs, (b, cs) ∈ [(500, [([1; 1], VInteger 2)]); (0, [([1; 1], VInteger 1)])] ∧
    ∀ v, (CacheHandler.get (CacheHandler.mkConfig [1] 900) [1; 1]
           (Snapshot.mkState 500 [([1; 1], VInteger 2)] (Some (0, [([1; 1], VInteger 1)])))).1
         = Some v ↔ ([1; 1], v) ∈ cs.
Proof.
  pose (c := CacheHandler.mkConfig [1] 900).
  pose (a0 := [([1; 1], VInteger 1)] : cells).
  pose (a1 := [([1; 1], VInteger 2)] : cells).
  assert (R : Snapshot.run id 900 a0 0 [(500, a1); (0, a0)]
                (Snapshot.mkState 500 a1 (Some (0, a0)))).
  { refine (Snapshot.run_env id 900 a0 0 [(0, a0)] (Snapshot.mkState 0 a0 (Some (0, a0))) 500 a1 _ _);
      [|cbn; lia].
    exact (Snapshot.run_get id 900 a0 0 [(0, a0)] (Snapshot.mkState 0 a0 None) [1; 1]
             (Snapshot.run_start id 900 a0 0)). }
  destruct (cached_reads_bounded c a0 0 _ _ [1; 1] R) as (b & cs & H1 & _ & _ & H2 & _).
  - intros t cs. rewrite elem_of_cons, list_elem_of_singleton.
    intros [[= _ ->]|[= _ ->]]; apply NoDup_singleton.
  - exists b, cs. split; [exact H1|exact H2].
Defined.

(** ** Read-only registries *)

(** A SET on handlers wrapped by [read_only] is refused with notWritable at its
    first binding, whatever the wrapped handlers would do, and changes nothing. *)
Theorem read_only_refuses {W} (inners : list (MibHandler W)) request response w :
  variables request ≠ [] →
  process_set (ReadOnly.read_only <$> inners) request response w =
    (set_error NotWritable 1 (variables request) response, w).
Proof.
  intros Hv. unfold process_set, plans_of. destruct (variables request) as [|vb vbs] eqn:E; [done|].
  cbn [fmap list_fmap]. unfold sbind. cbn [reserve_pass]. unfold reserve, sbind. cbn [fst snd].
  destruct (handler_for _ (vb_oid vb)) as [h|] eqn:Hf; [|done].
  unfold handler_for in Hf. apply max_by_elem in Hf.
  apply (elem_of_retain (λ h, Oid.is_prefix_of (root h) (vb_oid vb))) in Hf as [Hf _].
  apply list_elem_of_fmap in Hf as (inner & -> & _). done.
Qed.

Lemma read_only_refuses_witness :
  let h := ScalarHandler.handler (ScalarHandler.writable (ScalarHandler.new [1; 3])) in
  let request := set_variables [mkVarBind [1; 3; 0] (VInteger 5)] (new_pdu Set_ 7) in
  (process_set [h] request (new_pdu Response 7) (VInteger 1)).2 = VInteger 5 ∧
  process_set [ReadOnly.read_only h] request (new_pdu Response 7) (VInteger 1) =
    (set_error NotWritable 1 (variables request) (new_pdu Response 7), VInteger 1).
Proof.
  intros h request. split; [reflexivity|].
  apply (read_only_refuses [h] request (new_pdu Response 7) (VInteger 1)). discriminate.
Defined.
