(* ===== verification/TableDataSet.v ===== *)
(** * The writable table ([crates/netsnmp-agent/src/helpers/table_dataset.rs])

    Rows live in a map from index to cells; an optional RowStatus column drives
    creation and destruction through [Row.transition]. *)

From Stdlib Require Import ZArith Lia.
From stdpp Require Import gmap.
From S2P Require Import Prelude MachineInts Text Oid Value Pdu Cells Handler Scalar Registry.
From S2P Require Import Row.
From S2P Require Import Helpers.

Module TableDataSet.

(** ** Data *)

Record ColumnMeta := mkMeta {
  number : Z;
  syntax : text;
  access : text;
  defval : option text
}.

Definition new_meta (n : Z) (syn acc : text) : ColumnMeta := mkMeta n syn acc None.
Definition with_defval (m : ColumnMeta) (d : text) : ColumnMeta :=
  mkMeta (number m) (syntax m) (access m) (Some d).

Definition is_writable (m : ColumnMeta) : bool :=
  let a := to_ascii_lowercase (access m) in
  bool_decide (a = str "read-create") || bool_decide (a = str "read-write").

Abbreviation RowCells := (gmap Z Value).
Abbreviation Rows := (gmap (list Z) RowCells).

(** What construction fixes; the state is the map behind the lock. *)
Record config := mkConfig {
  croot : Oid;
  columns : list Z;
  meta : gmap Z ColumnMeta;
  row_status_column : option Z;
  required_columns : list Z
}.

(** ** Construction *)

Definition new (r : Oid) (cols : list Z) : config :=
  mkConfig r cols
    (list_to_map (rev ((λ c, (c, new_meta c (str "Integer32") (str "read-create"))) <$> cols)))
    None [].

(** [if !v.contains(&x) { v.push(x); v.sort_unstable(); }] *)
Definition push_sorted (x : Z) (v : list Z) : list Z :=
  if bool_decide (x ∈ v) then v else sort_by Z.leb (v ++ [x]).

Definition with_column_meta (c : config) (m : ColumnMeta) : config :=
  mkConfig (croot c) (push_sorted (number m) (columns c)) (<[number m := m]> (meta c))
    (row_status_column c) (required_columns c).

Definition with_row_status_column (c : config) (col : Z) : config :=
  mkConfig (croot c) (push_sorted col (columns c)) (meta c) (Some col)
    (push_sorted col (required_columns c)).

Definition with_required_columns (c : config) (cols : list Z) : config :=
  let pushed := fold_left (fun req x => if bool_decide (x ∈ req) then req else req ++ [x])
                  cols (required_columns c) in
  mkConfig (croot c) (columns c) (meta c) (row_status_column c) (sort_by Z.leb pushed).

(** ** Operations *)

Definition column_writable (c : config) (col : Z) : bool :=
  default true (is_writable <$> meta c !! col).

Definition split_instance (c : config) (o : Oid) : option (Z * list Z) :=
  let r := croot c in
  if bool_decide (length o < length r + 1)%nat || negb (Oid.eqb (take (length r) o) r) then None
  else match drop (length r) o with
       | col :: index => Some (col, index)
       | [] => None
       end.

Definition required_satisfied (rows : Rows) (index : list Z) (required : list Z)
    (rsc : option Z) : bool :=
  match rows !! index with
  | Some cells =>
      forallb (fun col => bool_decide (is_Some (cells !! col)))
        (List.filter (fun col => negb (bool_decide (Some col = rsc))) required)
  | None => false
  end.

(** [rows.entry(index).or_default().insert(col, value)] *)
Definition insert_cell (rows : Rows) (index : list Z) (col : Z) (value : Value) : Rows :=
  <[index := <[col := value]> (default ∅ (rows !! index))]> rows.

Definition put (col : Z) (index : list Z) (value : Value) : St Rows unit := fun rows =>
  (tt, insert_cell rows index col value).

Definition remove_row (index : list Z) : St Rows bool := fun rows =>
  (bool_decide (is_Some (rows !! index)), delete index rows).

(** The row's current status; [rsc] is the RowStatus column, which every
    caller has just matched. *)
Definition current_status (rows : Rows) (index : list Z) (rsc : Z) : option RowStatus :=
  (rows !! index ≫= (λ cells, cells !! rsc)) ≫= from_value.

Definition apply_row_status (c : config) (rsc : Z) (index : list Z) (requested : RowStatus) :
    St Rows (result (option Value) ErrorStatus) := fun rows =>
  let current := current_status rows index rsc in
  let satisfied := required_satisfied rows index (required_columns c) (row_status_column c) in
  match transition current requested satisfied with
  | Err e => (Err e, rows)
  | Ok None => (Ok None, delete index rows)
  | Ok (Some status) =>
      (Ok (Some (VInteger (status_i64 status))),
       insert_cell rows index rsc (VInteger (status_i64 status)))
  end.

(** ** The handler *)

Definition get (c : config) (o : Oid) : St Rows (option Value) := fun rows =>
  (match split_instance c o with
   | Some (col, index) => rows !! index ≫= (λ cells, cells !! col)
   | None => None
   end, rows).

Definition view (c : config) (rows : Rows) : cells :=
  sort_cells (flatten (croot c) (map_to_list rows)).

Definition get_next (c : config) (o : Oid) : St Rows (option Reading) := fun rows =>
  (to_reading <$> search_next o (view c rows), rows).

Definition prepare_set (c : config) (o : Oid) (value : Value) : St Rows status_result :=
  fun rows =>
  (match split_instance c o with
   | None => Err NoCreation
   | Some (col, index) =>
       if negb (column_writable c col) then Err NotWritable
       else if bool_decide (row_status_column c = Some col) then
         match from_value value with
         | None => Err WrongValue
         | Some requested =>
             match transition (current_status rows index col) requested
                     (required_satisfied rows index (required_columns c) (row_status_column c)) with
             | Err e => Err e
             | Ok _ => Ok tt
             end
         end
       else
         match rows !! index with
         | Some cells =>
             match cells !! col with
             | Some current => if types_compatible current value then Ok tt else Err WrongType
             | None => Ok tt
             end
         | None => if bool_decide (is_Some (row_status_column c)) then Ok tt else Err NoCreation
         end
   end, rows).

Definition commit_set (c : config) (o : Oid) (value : Value) : St Rows status_result :=
  fun rows =>
  match split_instance c o with
  | None => (Err NoCreation, rows)
  | Some (col, index) =>
      if bool_decide (row_status_column c = Some col) then
        match from_value value with
        | None => (Err WrongValue, rows)
        | Some requested =>
            match apply_row_status c col index requested rows with
            | (Ok _, rows') => (Ok tt, rows')
            | (Err e, rows') => (Err e, rows')
            end
        end
      else (Ok tt, insert_cell rows index col value)
  end.

Definition set (c : config) (o : Oid) (value : Value) : St Rows status_result :=
  let* r := prepare_set c o value in
  match r with
  | Ok _ => commit_set c o value
  | Err e => sret (Err e)
  end.

Definition handler (c : config) : MibHandler Rows :=
  mkHandler (croot c) (get c) (get_next c) (prepare_set c) (commit_set c) default_undo_set.

(** ** Instances of the table *)

Lemma split_instance_Some c o col index :
  split_instance c o = Some (col, index) ↔ o = instance_oid (croot c) col index.
Proof.
  unfold split_instance. rewrite instance_oid_app. split.
  - destruct (_ || _) eqn:E; [done|]. apply orb_false_iff in E as [_ E].
    apply negb_false_iff, Oid.eqb_eq in E.
    destruct (drop (length (croot c)) o) eqn:D; [done|]. intros [= -> ->].
    rewrite <- (take_drop (length (croot c)) o). by rewrite E, D.
  - intros ->. rewrite bool_decide_eq_false_2 by (rewrite length_app; cbn; lia). cbn.
    rewrite take_app_length, drop_app_length, Oid.eqb_refl. done.
Qed.

Lemma split_instance_oid c col index :
  split_instance c (instance_oid (croot c) col index) = Some (col, index).
Proof. by apply split_instance_Some. Qed.

Lemma get_instance c col index rows :
  (get c (instance_oid (croot c) col index) rows).1 = rows !! index ≫= (λ cells, cells !! col).
Proof. unfold get. by rewrite split_instance_oid. Qed.

Lemma get_Some c o v rows :
  (get c o rows).1 = Some v ↔
  ∃ col index cells, o = instance_oid (croot c) col index ∧
    rows !! index = Some cells ∧ cells !! col = Some v.
Proof.
  unfold get. cbn. destruct (split_instance c o) as [[col index]|] eqn:E.
  - apply split_instance_Some in E as ->. rewrite bind_Some. split.
    + intros (cells & H1 & H2). by exists col, index, cells.
    + intros (col' & index' & cells & H & H1 & H2). apply instance_oid_inj in H as [-> ->]. eauto.
  - split; [done|]. intros (col & index & cells & -> & _). by rewrite split_instance_oid in E.
Qed.

Lemma view_strict c rows : strictly_sorted (view c rows).
Proof. apply sort_cells_strict, flatten_nodup, NoDup_fst_map_to_list. Qed.

Lemma elem_of_view c o v rows : (o, v) ∈ view c rows ↔ (get c o rows).1 = Some v.
Proof.
  unfold view. rewrite sort_cells_perm, elem_of_flatten, get_Some.
  split; intros (col & index & cells & H); exists col, index, cells;
    rewrite elem_of_map_to_list in *; by destruct H as (?&?&?).
Qed.

#[export] Instance readable c : ReadableHandler (λ _, True) eq (handler c) (view c).
Proof.
  split; try done.
  - intros w _. apply view_strict.
  - intros w x _. unfold view. rewrite sort_cells_perm. apply flatten_under_root.
  - by intros w w' ->.
  - intros o w _. cbn. apply option_eq. intros v.
    rewrite lookup_cell_Some, elem_of_view by apply view_strict. done.
  - intros o w _. cbn. f_equal. apply search_next_successor, strictly_sorted_sorted, view_strict.
Qed.

#[export] Instance reserving c : ReservingHandler (λ _, True) eq (handler c).
Proof. by split. Qed.

(** ** SET on one instance *)

Lemma lookup_insert_cell rows index col v index' col' :
  insert_cell rows index col v !! index' ≫= (λ cells, cells !! col') =
    if bool_decide (index' = index ∧ col' = col) then Some v
    else rows !! index' ≫= (λ cells, cells !! col').
Proof.
  unfold insert_cell. destruct (decide (index' = index)) as [->|Hi].
  - rewrite lookup_insert_eq. cbn. destruct (decide (col' = col)) as [->|Hc].
    + rewrite lookup_insert_eq, bool_decide_eq_true_2 by done. done.
    + rewrite lookup_insert_ne by done. rewrite bool_decide_eq_false_2 by (by intros [_ ?]).
      by destruct (rows !! index).
  - rewrite lookup_insert_ne by done. by rewrite bool_decide_eq_false_2 by (by intros [? _]).
Qed.

Lemma get_insert_cell c rows index col v o :
  (get c o (insert_cell rows index col v)).1 =
    if Oid.eqb o (instance_oid (croot c) col index) then Some v else (get c o rows).1.
Proof.
  unfold get. cbn. destruct (split_instance c o) as [[col' index']|] eqn:E.
  - apply split_instance_Some in E as ->. rewrite lookup_insert_cell.
    destruct (Oid.eqb _ _) eqn:E2.
    + apply Oid.eqb_eq, instance_oid_inj in E2 as [-> ->]. by rewrite bool_decide_eq_true_2.
    + rewrite bool_decide_eq_false_2; [done|]. intros [-> ->]. by rewrite Oid.eqb_refl in E2.
  - destruct (Oid.eqb o _) eqn:E2; [|done].
    apply Oid.eqb_eq in E2 as ->. by rewrite split_instance_oid in E.
Qed.

Lemma get_delete c rows index o :
  (get c o (delete index rows)).1 =
    match split_instance c o with
    | Some (_, index') => if bool_decide (index' = index) then None else (get c o rows).1
    | None => None
    end.
Proof.
  unfold get. cbn. destruct (split_instance c o) as [[col' index']|]; [|done].
  destruct (decide (index' = index)) as [->|Hi].
  - by rewrite lookup_delete_eq, bool_decide_eq_true_2.
  - by rewrite lookup_delete_ne, bool_decide_eq_false_2 by done.
Qed.

(** What a SET that succeeds leaves at every instance [o']. *)
Definition after_set (c : config) (o : Oid) (v : Value) (rows : Rows) (o' : Oid) : option Value :=
  match split_instance c o with
  | Some (col, index) =>
      if bool_decide (row_status_column c = Some col) then
        match from_value v ≫= (λ requested, match transition (current_status rows index col) requested
                (required_satisfied rows index (required_columns c) (row_status_column c)) with
              | Ok next => Some next | Err _ => None end) with
        | Some (Some status) =>
            if Oid.eqb o' o then Some (VInteger (status_i64 status)) else (get c o' rows).1
        | Some None =>
            if bool_decide (snd <$> split_instance c o' = Some index) then None
            else (get c o' rows).1
        | None => (get c o' rows).1
        end
      else if Oid.eqb o' o then Some v else (get c o' rows).1
  | None => (get c o' rows).1
  end.

Lemma get_split_None c o rows : split_instance c o = None → (get c o rows).1 = None.
Proof. intros E. unfold get. by rewrite E. Qed.

Lemma commit_effect c o v rows :
  (commit_set c o v rows).1 = Ok tt →
  ∀ o', (get c o' (commit_set c o v rows).2).1 = after_set c o v rows o'.
Proof.
  unfold commit_set, after_set. destruct (split_instance c o) as [[col index]|] eqn:E; [|done].
  apply split_instance_Some in E as ->.
  destruct (bool_decide _); [|intros _ o'; apply get_insert_cell].
  destruct (from_value v) as [requested|]; [|done]. cbn. unfold apply_row_status.
  destruct (transition _ _ _) as [[status|]|e]; cbn; [| |done]; intros _ o'.
  - apply get_insert_cell.
  - change ((get c o' (delete index rows)).1 = if bool_decide (snd <$> split_instance c o' = Some index)
      then None else (get c o' rows).1).
    rewrite get_delete. destruct (split_instance c o') as [[col' index']|] eqn:E; cbn.
    + destruct (decide (index' = index)) as [->|Hi].
      * by rewrite !bool_decide_eq_true_2.
      * by rewrite !bool_decide_eq_false_2 by congruence.
    + by rewrite ?E.
Qed.

Lemma prepare_commit c o v rows :
  (prepare_set c o v rows).1 = Ok tt → (commit_set c o v rows).1 = Ok tt.
Proof.
  unfold prepare_set, commit_set. cbn. destruct (split_instance c o) as [[col index]|]; [|done].
  destruct (column_writable c col); [|done]. cbn. destruct (bool_decide _); [|done].
  destruct (from_value v) as [requested|]; [|done]. unfold apply_row_status.
  by destruct (transition _ _ _) as [[status|]|].
Qed.

(** A SET either succeeds, and then every instance reads as [after_set] says
    (the written cell, the new row status, or a whole row gone; all else as it
    was), or it fails with an error and leaves the table unchanged. *)
Theorem set_effect c o v rows :
  match (set c o v rows).1 with
  | Ok _ => ∀ o', (get c o' (set c o v rows).2).1 = after_set c o v rows o'
  | Err e => (set c o v rows).2 = rows
  end.
Proof.
  unfold set, sbind, sret. assert (E : (prepare_set c o v rows).2 = rows) by done.
  pose proof (prepare_commit c o v rows) as P.
  destruct (prepare_set c o v rows) as [[[]|e] rows0]; cbn in *; subst rows0; [|done].
  specialize (P eq_refl). rewrite P. by apply commit_effect.
Qed.

(** ** The rows of a table under any sequence of operations *)

(** A table that starts empty and is changed by the registry's SETs, the
    single-step SET and the runtime API, with the rows into whose RowStatus
    column the runtime API has written since they were last absent. *)
Inductive reachable (c : config) : Rows → gset (list Z) → Prop :=
| reach_new : reachable c ∅ ∅
| reach_commit rows forced o v : reachable c rows forced → reachable c (commit_set c o v rows).2 forced
| reach_set rows forced o v : reachable c rows forced → reachable c (set c o v rows).2 forced
| reach_put rows forced col index v : reachable c rows forced →
    reachable c (put col index v rows).2
      (if bool_decide (row_status_column c = Some col) then {[index]} ∪ forced else forced)
| reach_remove rows forced index : reachable c rows forced → reachable c (remove_row index rows).2 forced
| reach_absent rows forced index :
    reachable c rows forced → rows !! index = None → reachable c rows (forced ∖ {[index]}).

(** A status cell holds a stable status, and an active row has its required
    columns. *)
Definition row_ok (c : config) (rsc : Z) (cells : RowCells) : Prop :=
  ∀ v, cells !! rsc = Some v → ∃ status, v = VInteger (status_i64 status) ∧
    stable_status status ∧
    (status = Active → ∀ col, col ∈ required_columns c → is_Some (cells !! col)).

Definition table_ok (c : config) (forced : gset (list Z)) (rows : Rows) : Prop :=
  ∀ rsc index cells, row_status_column c = Some rsc → index ∉ forced → rows !! index = Some cells →
    row_ok c rsc cells.

Lemma required_satisfied_true c rsc rows index :
  row_status_column c = Some rsc →
  required_satisfied rows index (required_columns c) (row_status_column c) = true ↔
  ∃ cells, rows !! index = Some cells ∧
    ∀ col, col ∈ required_columns c → col ≠ rsc → is_Some (cells !! col).
Proof.
  intros Hr. unfold required_satisfied. rewrite Hr.
  destruct (rows !! index) as [cells|]; [|split; [done|by intros (? & ? & _)]].
  rewrite forallb_forall. split.
  - intros H. exists cells. split; [done|]. intros col Hc Hn.
    apply (bool_decide_eq_true (is_Some (cells !! col))), H, List.filter_In.
    split; [by apply list_elem_of_In|]. apply negb_true_iff, bool_decide_eq_false. congruence.
  - intros (cells' & [= <-] & H) col [Hin Hf]%List.filter_In. apply bool_decide_eq_true.
    apply H; [by apply list_elem_of_In|].
    apply negb_true_iff, bool_decide_eq_false in Hf. congruence.
Qed.

Lemma insert_cell_ok c forced rows index col v :
  table_ok c forced rows → row_status_column c ≠ Some col → table_ok c forced (insert_cell rows index col v).
Proof.
  intros Hok Hn rsc index' cells Hr Hf. unfold insert_cell.
  intros [[<- <-]|[_ H]]%lookup_insert_Some; [|by eapply Hok].
  intros w Hw. rewrite lookup_insert_ne in Hw by congruence.
  destruct (rows !! index) as [cells|] eqn:E; cbn in *; [|by rewrite lookup_empty in Hw].
  destruct (Hok rsc index cells Hr Hf E w Hw) as (status & -> & Hs & Ha).
  exists status. split_and!; [done|done|]. intros Hact col' Hin.
  destruct (decide (col = col')) as [<-|Hne].
  - by rewrite lookup_insert_eq.
  - rewrite lookup_insert_ne by done. by apply Ha.
Qed.

Lemma apply_row_status_ok c forced rsc index requested rows :
  row_status_column c = Some rsc → table_ok c forced rows →
  table_ok c forced (apply_row_status c rsc index requested rows).2.
Proof.
  intros Hr Hok. unfold apply_row_status.
  destruct (transition _ _ _) as [[status|]|e] eqn:T; cbn; [| |done].
  - intros rsc' index' cells Hr' Hf. assert (rsc' = rsc) as -> by congruence. unfold insert_cell.
    intros [[<- <-]|[_ H]]%lookup_insert_Some; [|by eapply Hok].
    intros w Hw. rewrite lookup_insert_eq in Hw. injection Hw as <-.
    exists status. split_and!; [done|by apply transition_stable in T|]. intros -> col Hin.
    apply transition_active, (required_satisfied_true c rsc) in T as (cells & E & Hall); [|done].
    destruct (decide (col = rsc)) as [->|Hne]; [by rewrite lookup_insert_eq|].
    rewrite lookup_insert_ne, E by done. by apply Hall.
  - intros rsc' index' cells Hr' Hf [_ H]%lookup_delete_Some. by eapply Hok.
Qed.

Lemma commit_ok c forced o v rows : table_ok c forced rows → table_ok c forced (commit_set c o v rows).2.
Proof.
  intros Hok. unfold commit_set. destruct (split_instance c o) as [[col index]|]; [|done].
  destruct (bool_decide _) eqn:B.
  - apply bool_decide_eq_true in B. destruct (from_value v) as [requested|]; [|done].
    pose proof (apply_row_status_ok c forced col index requested rows B Hok).
    by destruct (apply_row_status c col index requested rows) as [[]].
  - apply bool_decide_eq_false in B. by apply insert_cell_ok.
Qed.

Lemma reachable_table_ok c rows forced : reachable c rows forced → table_ok c forced rows.
Proof.
  induction 1 as [|rows forced o v _ IH|rows forced o v _ IH|rows forced col index v _ IH|rows forced index _ IH
    |rows forced index _ IH Hn].
  - intros rsc index cells _ _ H. by rewrite lookup_empty in H.
  - by apply commit_ok.
  - unfold set, sbind, sret. assert (E : (prepare_set c o v rows).2 = rows) by done.
    destruct (prepare_set c o v rows) as [[]]; cbn in *; subst; [by apply commit_ok|done].
  - case_bool_decide as E; [|by apply insert_cell_ok].
    intros rsc index' cells Hr Hf H. cbn in H. unfold insert_cell in H.
    apply lookup_insert_Some in H as [[<- _]|[_ H]]; [set_solver|]. apply (IH rsc index' cells Hr); [set_solver|done].
  - intros rsc index' cells Hr Hf H. cbn in H. apply lookup_delete_Some in H as [_ H]. by eapply IH.
  - intros rsc index' cells Hr Hf H. destruct (decide (index' = index)) as [->|]; [congruence|].
    apply (IH rsc index' cells Hr); [set_solver|done].
Qed.

(** C21. Whatever the managers and the application do, a row into whose RowStatus
    column the application has not written directly reads in that column as
    active, notInService or notReady, and when it reads as active(1) it has a
    value in every required column. *)
Theorem active_rows_complete c rows forced rsc index v :
  reachable c rows forced → index ∉ forced → row_status_column c = Some rsc →
  (get c (instance_oid (croot c) rsc index) rows).1 = Some v →
  (v = VInteger 1 ∨ v = VInteger 2 ∨ v = VInteger 3) ∧
  (v = VInteger 1 → ∀ col, col ∈ required_columns c →
     is_Some (get c (instance_oid (croot c) col index) rows).1).
Proof.
  intros Hreach Hf Hr. rewrite get_instance, bind_Some. intros (cells & Hi & Hv).
  destruct (reachable_table_ok c rows forced Hreach rsc index cells Hr Hf Hi v Hv) as (status & -> & Hs & Ha).
  split.
  - destruct Hs as [->|[->| ->]]; cbn; auto.
  - intros E col Hc. rewrite get_instance, Hi. cbn. apply Ha; [|done].
    apply (f_equal from_value) in E. cbn in E. rewrite from_i64_status in E. by injection E.
Qed.

(** ** Creating a row *)

(** createAndGo(4) succeeds exactly on a row that an earlier SET (or the
    runtime API) has already populated with every required column and that
    has no status yet: on an absent row it is refused whatever is required. *)
Theorem create_and_go_iff c rows rsc index :
  row_status_column c = Some rsc → column_writable c rsc = true →
  ((set c (instance_oid (croot c) rsc index) (VInteger 4) rows).1 = Ok tt ↔
     current_status rows index rsc = None ∧
     ∃ cells, rows !! index = Some cells ∧
       ∀ col, col ∈ required_columns c → col ≠ rsc → is_Some (cells !! col)) ∧
  (rows !! index = None →
     set c (instance_oid (croot c) rsc index) (VInteger 4) rows = (Err InconsistentName, rows)).
Proof.
  intros Hr Hw. rewrite <- (required_satisfied_true c rsc rows index Hr).
  unfold set, sbind, sret, prepare_set, commit_set, apply_row_status.
  rewrite split_instance_oid, Hw, bool_decide_eq_true_2 by done.
  cbn [negb from_value from_i64 transition]. split.
  - destruct (current_status rows index rsc) as [s|] eqn:Ec,
      (required_satisfied rows index _ _) eqn:Es; cbn; rewrite ?Ec, ?Es; cbn;
      by split; [intros ?; split|intros [? ?]].
  - intros Hn. unfold current_status, required_satisfied. rewrite Hn. done.
Qed.

(** ** Several bindings in one SET *)

Lemma handler_for_self c col index :
  handler_for [handler c] (instance_oid (croot c) col index) = Some (handler c).
Proof.
  unfold handler_for. cbn.
  assert (E : Oid.is_prefix_of (croot c) (instance_oid (croot c) col index) = true).
  { apply Oid.is_prefix_of_spec. eexists. apply instance_oid_app. }
  by rewrite E.
Qed.

Section CreateAndWait.
Context (c : config) (rows : Rows) (rsc : Z) (index : list Z).
Context (Hr : row_status_column c = Some rsc) (Hw : column_writable c rsc = true).

(** What createAndWait stores. *)
Definition wait_status : RowStatus :=
  if required_satisfied rows index (required_columns c) (row_status_column c)
  then NotInService else NotReady.

Lemma prepare_create_and_wait :
  prepare_set c (instance_oid (croot c) rsc index) (VInteger 5) rows =
    (if bool_decide (is_Some (current_status rows index rsc)) then Err InconsistentValue
     else Ok tt, rows).
Proof using Hr Hw.
  unfold prepare_set. rewrite split_instance_oid, Hw, bool_decide_eq_true_2 by done.
  cbn. destruct (bool_decide _); [done|]. by destruct (required_satisfied _ _ _ _).
Qed.

Lemma commit_create_and_wait :
  commit_set c (instance_oid (croot c) rsc index) (VInteger 5) rows =
    if bool_decide (is_Some (current_status rows index rsc)) then (Err InconsistentValue, rows)
    else (Ok tt, insert_cell rows index rsc (VInteger (status_i64 wait_status))).
Proof using Hr.
  unfold commit_set. rewrite split_instance_oid, bool_decide_eq_true_2 by done. cbn.
  unfold apply_row_status, wait_status. cbn. destruct (bool_decide (is_Some _)); [done|].
  by destruct (required_satisfied _ _ _ _).
Qed.

Lemma current_after_create_and_wait :
  is_Some (current_status
    (insert_cell rows index rsc (VInteger (status_i64 wait_status))) index rsc).
Proof using All.
  unfold current_status. rewrite lookup_insert_cell, bool_decide_eq_true_2 by done. cbn.
  rewrite from_i64_status. by eexists.
Qed.

End CreateAndWait.

(** Two createAndWait(5) of one row in one SET: both are reserved against the
    table without the row, the first commits, the second is refused, and since
    the table does not override the undo the SET reports inconsistentValue on
    the second binding and leaves the row behind. *)
Theorem duplicate_create_not_atomic c rows rsc index request response :
  row_status_column c = Some rsc → column_writable c rsc = true →
  current_status rows index rsc = None →
  let o := instance_oid (croot c) rsc index in
  variables request = [mkVarBind o (VInteger 5); mkVarBind o (VInteger 5)] →
  let r := process_set [handler c] request response rows in
  error_status r.1 = code InconsistentValue ∧ error_index r.1 = 2 ∧
  is_Some (get c o r.2).1.
Proof.
  intros Hr Hw Hc o Hv. cbn zeta.
  assert (Hp : prepare_set c o (VInteger 5) rows = (Ok tt, rows))
    by (subst o; by rewrite prepare_create_and_wait, Hc).
  assert (Hc1 := commit_create_and_wait c rows rsc index Hr). rewrite Hc in Hc1. cbn in Hc1.
  assert (Hc2 := commit_create_and_wait c
    (insert_cell rows index rsc (VInteger (status_i64 (wait_status c rows index)))) rsc index Hr).
  rewrite bool_decide_eq_true_2 in Hc2 by (by apply current_after_create_and_wait).
  unfold process_set, plans_of. rewrite Hv. cbn [fmap list_fmap vb_oid]. subst o.
  rewrite !handler_for_self. unfold sbind. cbn [reserve_pass]. unfold reserve, sbind, sret.
  cbn [commit_pass fst snd vb_oid vb_value handler Handler.prepare_set Handler.commit_set].
  unfold sbind, sret.
  repeat (rewrite ?Hp, ?Hc1, ?Hc2; cbn beta iota delta [is_ok_status app]).
  cbn [undo_pass lookup list_lookup vb_oid]. rewrite handler_for_self. cbn -[get code].
  rewrite get_insert_cell, Oid.eqb_refl. by split_and!.
Qed.

(** ** A concrete table: columns 1 (RowStatus), 2 (required) and 3 *)

Module Example.

Definition r : Oid := [1; 3; 6; 1; 2; 1; 999].
Definition c : config := with_required_columns (with_row_status_column (new r [1; 2; 3]) 1) [2].

(** The name of row 5 set, then createAndGo. *)
Definition staged : Rows := (set c (instance_oid r 2 [5]) (VOctetString [104; 105]) ∅).2.
Definition created : Rows := (set c (instance_oid r 1 [5]) (VInteger 4) staged).2.

(** The application writes active(1) into the status of row 6. *)
Definition written : Rows := (put 1 [6] (VInteger 1) created).2.

Lemma created_reachable : reachable c written {[ [6] ]}.
Proof.
  assert (H : reachable c created ∅) by repeat constructor. exact (reach_put c created ∅ 1 [6] (VInteger 1) H).
Qed.

(** That row is active without its required column. *)
Example put_bypasses_the_status :
  (get c (instance_oid r 1 [6]) written).1 = Some (VInteger 1) ∧ (get c (instance_oid r 2 [6]) written).1 = None.
Proof. by vm_compute. Qed.

End Example.

Lemma active_rows_complete_witness :
  (get Example.c (instance_oid Example.r 1 [5]) Example.written).1 = Some (VInteger 1) ∧
  is_Some (get Example.c (instance_oid Example.r 2 [5]) Example.written).1.
Proof.
  assert (E : (get Example.c (instance_oid (croot Example.c) 1 [5]) Example.written).1 =
    Some (VInteger 1)) by (vm_compute; reflexivity).
  split; [exact E|].
  refine (proj2 (active_rows_complete Example.c Example.written {[ [6] ]} 1 [5] (VInteger 1)
    Example.created_reachable _ eq_refl E) eq_refl 2 _).
  - apply (bool_decide_eq_true_1 ([5] ∉ ({[ [6] ]} : gset (list Z)))). vm_compute. reflexivity.
  - apply (bool_decide_eq_true _). vm_compute. reflexivity.
Defined.

Lemma create_and_go_iff_witness :
  (set Example.c (instance_oid Example.r 1 [5]) (VInteger 4) Example.staged).1 = Ok tt ∧
  set Example.c (instance_oid Example.r 1 [6]) (VInteger 4) Example.staged =
    (Err InconsistentName, Example.staged).
Proof.
  split; [vm_compute; reflexivity|].
  apply (create_and_go_iff Example.c Example.staged 1 [6]); vm_compute; reflexivity.
Defined.

Lemma duplicate_create_not_atomic_witness :
  let o := instance_oid Example.r 1 [5] in
  let request := set_variables [mkVarBind o (VInteger 5); mkVarBind o (VInteger 5)]
                   (new_pdu Set_ 7) in
  is_Some (get Example.c o (process_set [handler Example.c] request (new_pdu Response 7) ∅).2).1.
Proof.
  intros o request.
  apply (duplicate_create_not_atomic Example.c ∅ 1 [5] request (new_pdu Response 7));
    try reflexivity; vm_compute; reflexivity.
Defined.
End TableDataSet.
