(* ===== verification/Alarm.v ===== *)
(** * Periodic alarms ([crates/netsnmp/src/alarm.rs])

    The registry of alarms and the life of their worker tasks. Time is the
    environment: [wake] is a task's sleep that ends. An aborted task is one
    whose entry has left the table. *)

From Stdlib Require Import ZArith Lia.
From S2P Require Import Prelude MachineInts.

Module Alarm.

Section Alarms.
(** What identifies an alarm's callback. *)
Context {K : Type}.

Record Entry := mkEntry {
  id : Z;
  interval : Z;         (* in nanoseconds *)
  callback : K;
  repeat : bool;
  cancelled : bool;     (* the shared flag *)
  finished : bool       (* the task has returned *)
}.

Record Registry := mkRegistry { next_id : Z; entries : list Entry }.

Definition new : Registry := mkRegistry 0 [].

Definition add (every : Z) (k : K) (rep : bool) (r : Registry) : Z * Registry :=
  (next_id r,
   mkRegistry (next_id r + 1) (entries r ++ [mkEntry (next_id r) every k rep false false])).

Definition add_repeat (every : Z) (k : K) (r : Registry) : Z * Registry := add every k true r.
Definition add_once (every : Z) (k : K) (r : Registry) : Z * Registry := add every k false r.

Definition find_entry (i : Z) (r : Registry) : option Entry :=
  find (fun e => id e =? i) (entries r).

Definition cancel (i : Z) (r : Registry) : bool * Registry :=
  match find_entry i r with
  | Some e => (negb (cancelled e), mkRegistry (next_id r) (retain (fun e => negb (id e =? i)) (entries r)))
  | None => (false, r)
  end.

Definition len (r : Registry) : nat :=
  length (retain (fun e => negb (cancelled e)) (entries r)).

Definition is_empty (r : Registry) : bool := Nat.eqb (len r) 0.

Definition shutdown (r : Registry) : Registry := mkRegistry (next_id r) [].

(** [Alarm::cancel] on a handle sets the flag the entry shares. *)
Definition cancel_handle (i : Z) (r : Registry) : bool * Registry :=
  match find_entry i r with
  | Some e =>
      (negb (cancelled e),
       mkRegistry (next_id r)
         (map (fun e => if id e =? i then mkEntry (id e) (interval e) (callback e) (repeat e) true (finished e)
                        else e) (entries r)))
  | None => (false, r)
  end.

(** One turn of the worker loop of alarm [i]: the callback it runs, if any. *)
Definition wake (i : Z) (r : Registry) : option K * Registry :=
  match find_entry i r with
  | Some e =>
      if finished e then (None, r)
      else
        (if cancelled e then None else Some (callback e),
         mkRegistry (next_id r)
           (map (fun e =>
                   if id e =? i
                   then mkEntry (id e) (interval e) (callback e) (repeat e) (cancelled e)
                          (finished e || cancelled e || negb (repeat e))
                   else e) (entries r)))
  | None => (None, r)
  end.

(** ** Identifiers *)

(** Identifiers are distinct and below the next one. *)
Definition ok (r : Registry) : Prop :=
  NoDup (id <$> entries r) ∧ ∀ e, e ∈ entries r → id e < next_id r.

Lemma alarm_new_ok : ok new.
Proof. split; [constructor|by intros e ?%elem_of_nil]. Qed.

Lemma find_entry_Some i r e : find_entry i r = Some e → e ∈ entries r ∧ id e = i.
Proof.
  unfold find_entry. intros [H1 H2]%List.find_some.
  split; [by apply list_elem_of_In|by apply Z.eqb_eq].
Qed.

Lemma find_entry_elem r e : ok r → e ∈ entries r → find_entry (id e) r = Some e.
Proof.
  intros [Hd _] He. unfold find_entry, find.
  destruct (List.find (λ e', id e' =? id e) (entries r)) as [e'|] eqn:E.
  - apply List.find_some in E as [E1 E2%Z.eqb_eq]. apply list_elem_of_In in E1.
    f_equal. by apply (nodup_fmap_inj id (entries r)).
  - apply List.find_none with (x := e) in E; [|by apply list_elem_of_In]. by rewrite Z.eqb_refl in E.
Qed.

Lemma add_ok every k rep r : ok r → ok (add every k rep r).2.
Proof.
  intros [Hd Hl]. split; cbn.
  - rewrite fmap_app. apply NoDup_app. split_and!; [done| |apply NoDup_singleton].
    intros i (e & E & He)%list_elem_of_fmap Hi%list_elem_of_singleton.
    specialize (Hl e He). cbn in *. lia.
  - intros e [He| ->%list_elem_of_singleton]%elem_of_app; [specialize (Hl e He); lia|cbn; lia].
Qed.

Lemma retain_ok p r n : ok r → next_id r <= n → ok (mkRegistry n (retain p (entries r))).
Proof.
  intros [Hd Hl] Hn. split; cbn; [by apply retain_nodup|].
  intros e [He _]%elem_of_retain. specialize (Hl e He). lia.
Qed.

Lemma cancel_ok i r : ok r → ok (cancel i r).2.
Proof. intros H. unfold cancel. destruct (find_entry i r); [|done]. by apply retain_ok. Qed.

Lemma map_ok f r : (∀ e, id (f e) = id e) → ok r → ok (mkRegistry (next_id r) (map f (entries r))).
Proof.
  intros Hf [Hd Hl]. split; cbn.
  - rewrite <- list_fmap_compose. by rewrite (list_fmap_ext _ id) by (intros; apply Hf).
  - intros e (e' & -> & He)%list_elem_of_fmap. rewrite Hf. by apply Hl.
Qed.

Lemma alarm_wake_ok i r : ok r → ok (wake i r).2.
Proof.
  intros H. unfold wake. destruct (find_entry i r) as [e|]; [|done]. destruct (finished e); [done|].
  apply map_ok; [|done]. intros e'. by destruct (id e' =? i).
Qed.

Lemma cancel_handle_ok i r : ok r → ok (cancel_handle i r).2.
Proof.
  intros H. unfold cancel_handle. destruct (find_entry i r); [|done].
  apply map_ok; [|done]. intros e'. by destruct (id e' =? i).
Qed.

(** Any sequence of operations. *)
Inductive reachable : Registry → Prop :=
| reach_new : reachable new
| reach_add every k rep r : reachable r → reachable (add every k rep r).2
| reach_cancel i r : reachable r → reachable (cancel i r).2
| reach_cancel_handle i r : reachable r → reachable (cancel_handle i r).2
| reach_shutdown r : reachable r → reachable (shutdown r)
| reach_wake i r : reachable r → reachable (wake i r).2.

Lemma alarm_reachable_ok r : reachable r → ok r.
Proof.
  induction 1; [apply alarm_new_ok|by apply add_ok|by apply cancel_ok|by apply cancel_handle_ok| |by apply alarm_wake_ok].
  split; [constructor|by intros e ?%elem_of_nil].
Qed.

(** The operations that may follow. *)
Inductive later : Registry → Registry → Prop :=
| later_refl r : later r r
| later_add r r' every k rep : later r r' → later r (add every k rep r').2
| later_cancel r r' i : later r r' → later r (cancel i r').2
| later_cancel_handle r r' i : later r r' → later r (cancel_handle i r').2
| later_shutdown r r' : later r r' → later r (shutdown r')
| later_wake r r' i : later r r' → later r (wake i r').2.

(** An alarm that will not fire: gone, finished or cancelled. *)
Definition silent (i : Z) (r : Registry) : Prop :=
  i < next_id r ∧ ∀ e, e ∈ entries r → id e = i → finished e = true ∨ cancelled e = true.

Lemma silent_wake i r : silent i r → (wake i r).1 = None.
Proof.
  intros [_ H]. unfold wake. destruct (find_entry i r) as [e|] eqn:E; [|done].
  apply find_entry_Some in E as [He Hi]. destruct (H e He Hi) as [Hf|Hc].
  - by rewrite Hf.
  - rewrite Hc. by destruct (finished e).
Qed.

Lemma silent_map i r f :
  (∀ e, id (f e) = id e ∧ (finished e = true → finished (f e) = true) ∧
        (cancelled e = true → cancelled (f e) = true)) →
  silent i r → silent i (mkRegistry (next_id r) (map f (entries r))).
Proof.
  intros Hf [Hi H]. split; [done|]. cbn. intros e (e' & -> & He)%list_elem_of_fmap Hid.
  destruct (Hf e') as (E1 & E2 & E3). rewrite E1 in Hid. destruct (H e' He Hid); auto.
Qed.

Lemma silent_step i r r' : later r r' → silent i r → silent i r'.
Proof.
  induction 1 as [|r r' every k rep _ IH|r r' j _ IH|r r' j _ IH|r r' _ IH|r r' j _ IH]; intros Hs; [done|..];
    specialize (IH Hs).
  - destruct IH as [Hi H]. split; cbn; [lia|].
    intros e [He| ->%list_elem_of_singleton]%elem_of_app Hid; [by apply H|cbn in *; lia].
  - unfold cancel. destruct (find_entry j r') as [e0|]; [|done]. destruct IH as [Hi H]. split; [done|].
    cbn. intros e [He _]%elem_of_retain. by apply H.
  - unfold cancel_handle. destruct (find_entry j r') as [e0|]; [|done]. apply silent_map; [|done].
    intros e. by destruct (id e =? j).
  - destruct IH as [Hi H]. split; [done|]. by intros e ?%elem_of_nil.
  - unfold wake. destruct (find_entry j r') as [e0|]; [|done]. destruct (finished e0); [done|].
    apply silent_map; [|done]. intros e. destruct (id e =? j); [|done]. cbn.
    split_and!; [done|by intros ->|done].
Qed.

(** A cancelled alarm, an alarm whose handle was cancelled, every alarm after a
    shutdown and a one-shot alarm that has woken never fire again, whatever is
    done to the registry afterwards. *)
Theorem silent_for_ever r r1 i :
  reachable r → i < next_id r →
  (r1 = (cancel i r).2 ∨ r1 = (cancel_handle i r).2 ∨ r1 = shutdown r ∨
   (r1 = (wake i r).2 ∧ ∀ e, find_entry i r = Some e → repeat e = false)) →
  ∀ r', later r1 r' → (wake i r').1 = None.
Proof.
  intros Hr%alarm_reachable_ok Hi H1 r' L. apply silent_wake. apply (silent_step i r1 r' L).
  assert (N : find_entry i r = None → silent i r).
  { intros E. split; [done|]. intros e He Hid. subst i. by rewrite (find_entry_elem r e Hr He) in E. }
  destruct H1 as [->|[->|[->|[-> Hrep]]]].
  - unfold cancel. destruct (find_entry i r) as [e1|] eqn:E; [|by apply N]. split; [done|]. cbn.
    intros e [_ Hn]%elem_of_retain Hid. apply negb_true_iff, Z.eqb_neq in Hn. done.
  - unfold cancel_handle. destruct (find_entry i r) as [e1|] eqn:E; [|by apply N]. split; [done|]. cbn.
    intros e (e' & -> & He)%list_elem_of_fmap. destruct (id e' =? i) eqn:Ei; [by right|].
    intros Hid. by apply Z.eqb_neq in Ei.
  - split; [done|]. by intros e ?%elem_of_nil.
  - unfold wake. destruct (find_entry i r) as [e0|] eqn:E; [|by apply N].
    specialize (Hrep e0 eq_refl). apply find_entry_Some in E as [He0 Hid0].
    assert (U : ∀ e, e ∈ entries r → id e = i → e = e0).
    { intros e He Hid. apply (nodup_fmap_inj id (entries r)); [apply Hr|done|done|congruence]. }
    destruct (finished e0) eqn:F.
    + split; [done|]. intros e He Hid. left. by rewrite (U e He Hid).
    + split; [done|]. cbn. intros e (e' & -> & He)%list_elem_of_fmap.
      destruct (id e' =? i) eqn:Ei; cbn; intros Hid.
      * left. rewrite (U e' He Hid), Hrep. by rewrite orb_true_r.
      * by apply Z.eqb_neq in Ei.
Qed.

(** A repeating alarm that is not cancelled fires at every wake and stays as
    it was. *)
Lemma wake_repeat r e :
  ok r → e ∈ entries r → repeat e = true → cancelled e = false → finished e = false →
  wake (id e) r = (Some (callback e), r).
Proof.
  intros Hr He Hrep Hc Hf. unfold wake. rewrite (find_entry_elem r e Hr He), Hf, Hc. f_equal.
  destruct r as [n es]. cbn in *. f_equal. rewrite <- (list_fmap_id es) at 2. apply map_ext_in.
  intros e' He'%list_elem_of_In. destruct (id e' =? id e) eqn:E; [|done].
  apply Z.eqb_eq in E. assert (e' = e) as -> by (apply (nodup_fmap_inj id es); [apply Hr|..]; done).
  destruct e; cbn in *. by rewrite Hf, Hc, Hrep.
Qed.
End Alarms.
Arguments Entry : clear implicits.
Arguments Registry : clear implicits.

Lemma silent_for_ever_witness :
  let r := (add 1000 tt true (add 500 tt false (new (K:=unit))).2).2 in
  (wake 0 r).1 = Some tt ∧ (wake 0 (wake 1 (wake 0 r).2).2).1 = None.
Proof.
  intros r. split; [reflexivity|].
  apply (silent_for_ever r (wake 0 r).2 0).
  - repeat constructor.
  - reflexivity.
  - right. right. right. split; [reflexivity|]. intros e [= <-]. reflexivity.
  - repeat constructor.
Defined.

End Alarm.
