(* ===== verification/Schedule.v ===== *)
(** * Scheduled actions ([crates/netsnmp-agent/src/disman/schedule.rs])

    The table of entries, the alarm each entry runs on and what happens when
    the alarm wakes. The engine is the only user of its alarm registry here;
    the local time and the clock are arguments of a wake. *)

From Stdlib Require Import ZArith Lia.
From stdpp Require Import gmap.
From S2P Require Import Prelude MachineInts Text Oid Value Pdu Cells Handler.
From S2P Require Import Helpers Row Alarm.

Module Schedule.

(** ** Calendar *)

(** The local time as [chrono] reports it: Monday is 0. *)
Record moment := mkMoment { m_weekday : Z; m_month : Z; m_day : Z; m_hour : Z; m_minute : Z }.

(** Allowed values; an empty list allows all. *)
Record CalendarSpec := mkSpec {
  weekday : list Z;
  month : list Z;
  day : list Z;
  hour : list Z;
  minute : list Z
}.

Definition default_spec : CalendarSpec := mkSpec [] [] [] [] [].

(** [!field.is_empty() && !field.contains(&x)] *)
Definition excludes (field : list Z) (x : Z) : bool :=
  negb (bool_decide (field = [])) && negb (bool_decide (x ∈ field)).

Definition cron_match_at (spec : CalendarSpec) (now : moment) : bool :=
  if excludes (weekday spec) (m_weekday now) then false
  else if excludes (month spec) (as_u8 (m_month now)) then false
  else if excludes (day spec) (as_u8 (m_day now)) then false
  else if excludes (hour spec) (as_u8 (m_hour now)) then false
  else if excludes (minute spec) (as_u8 (m_minute now)) then false
  else true.

(** ** Entries *)

Inductive SchedAction :=
| Notification (oid : Oid)
| SetAction (oid : Oid) (value : Value).

(** Durations are in nanoseconds. *)
Record SchedEntry := mkEntry {
  owner : text;
  ename : text;
  interval : Z;
  interval_duration : Z;
  calendar : CalendarSpec;
  action : SchedAction;
  enabled : bool;
  fire_count : Z;
  last_fire : option Z
}.

Definition nanos : Z := 1000000000.

Definition periodic (o n : text) (every : Z) (a : SchedAction) : SchedEntry :=
  mkEntry o n (as_u32 (every / nanos)) every default_spec a true 0 None.

Definition calendar_entry (o n : text) (spec : CalendarSpec) (a : SchedAction) : SchedEntry :=
  mkEntry o n 0 0 spec a true 0 None.

Definition set_enabled (en : bool) (e : SchedEntry) : SchedEntry :=
  mkEntry (owner e) (ename e) (interval e) (interval_duration e) (calendar e) (action e) en
    (fire_count e) (last_fire e).

(** The runtime counters. *)
Definition set_counters (n : Z) (t : option Z) (e : SchedEntry) : SchedEntry :=
  mkEntry (owner e) (ename e) (interval e) (interval_duration e) (calendar e) (action e)
    (enabled e) n t.

Definition sched_key (o n : text) : text := name_key o n.

(** ** The engine *)

Record state := mkState {
  entries : gmap text SchedEntry;
  alarm_ids : gmap text Z;
  alarms : Alarm.Registry text;
  started : bool
}.

Definition new : state := mkState ∅ ∅ Alarm.new false.

(** The minute a calendar entry is polled at. *)
Definition alarm_interval (e : SchedEntry) : Z :=
  if 0 <? interval_duration e then interval_duration e else 60 * nanos.

Definition cancel_alarm (k : text) (s : state) : state :=
  match alarm_ids s !! k with
  | Some old =>
      mkState (entries s) (delete k (alarm_ids s)) (Alarm.cancel old (alarms s)).2 (started s)
  | None => s
  end.

Definition spawn_alarm (k : text) (s : state) : state :=
  match entries s !! k with
  | None => s
  | Some e =>
      if negb (enabled e) then s
      else
        let s := cancel_alarm k s in
        let '(i, r) := Alarm.add_repeat (alarm_interval e) k (alarms s) in
        mkState (entries s) (<[k := i]> (alarm_ids s)) r (started s)
  end.

Definition add_entry (e : SchedEntry) (s : state) : state :=
  let k := sched_key (owner e) (ename e) in
  spawn_alarm k (mkState (<[k := set_counters 0 None e]> (entries s)) (alarm_ids s) (alarms s)
                   (started s)).

Definition remove_entry (o n : text) (s : state) : option SchedEntry * state :=
  let k := sched_key o n in
  let s := cancel_alarm k s in
  (entries s !! k, mkState (delete k (entries s)) (alarm_ids s) (alarms s) (started s)).

(** [keys] is the iteration order of the entries. *)
Definition start (keys : list text) (s : state) : state :=
  if started s then s
  else fold_left (fun s k => spawn_alarm k s) keys
         (mkState (entries s) (alarm_ids s) (alarms s) true).

Section Firing.
Context {W : Type} (self_query : option (MibHandler W)) (originator : bool).

Record world := mkWorld { engine : state; mib : W; sent : list Oid }.

Definition execute_action (a : SchedAction) (w : world) : world :=
  match a with
  | Notification oid => if originator then mkWorld (engine w) (mib w) (sent w ++ [oid]) else w
  | SetAction oid v =>
      match self_query with
      | Some h => mkWorld (engine w) (commit_set h oid v (mib w)).2 (sent w)
      | None => w
      end
  end.

(** The alarm callback of entry [key], at local time [now] and clock [secs]. *)
Definition fire (key : text) (now : moment) (secs : Z) (w : world) : world :=
  match entries (engine w) !! key with
  | None => w
  | Some e =>
      if (interval e =? 0) && negb (cron_match_at (calendar e) now) then w
      else
        let s := engine w in
        let e' := set_counters (saturating_add_u u64_max (fire_count e) 1) (Some secs) e in
        execute_action (action e)
          (mkWorld (mkState (<[key := e']> (entries s)) (alarm_ids s) (alarms s) (started s))
             (mib w) (sent w))
  end.

(** The task of alarm [i] wakes. *)
Definition wake (i : Z) (now : moment) (secs : Z) (w : world) : world :=
  let s := engine w in
  let '(cb, r) := Alarm.wake i (alarms s) in
  let w := mkWorld (mkState (entries s) (alarm_ids s) r (started s)) (mib w) (sent w) in
  match cb with Some key => fire key now secs w | None => w end.
End Firing.

(** ** The alarms follow the entries *)

Record alarms_follow (s : state) : Prop := {
  alarms_ok : Alarm.ok (alarms s);
  ids_alarms k i : alarm_ids s !! k = Some i →
    ∃ a, a ∈ Alarm.entries (alarms s) ∧ Alarm.id a = i ∧ Alarm.callback a = k;
  alarms_ids a : a ∈ Alarm.entries (alarms s) →
    alarm_ids s !! Alarm.callback a = Some (Alarm.id a) ∧
    Alarm.repeat a = true ∧ Alarm.cancelled a = false ∧ Alarm.finished a = false;
  ids_entries k : is_Some (alarm_ids s !! k) → is_Some (entries s !! k)
}.

Definition has_alarm (s : state) (k : text) : Prop :=
  ∀ e, entries s !! k = Some e → enabled e = true → is_Some (alarm_ids s !! k).

Definition sched_ok (s : state) : Prop := alarms_follow s ∧ ∀ k, has_alarm s k.

Lemma cancel_alarm_ids k s :
  alarms_follow s → alarm_ids (cancel_alarm k s) = delete k (alarm_ids s) ∧
    entries (cancel_alarm k s) = entries s ∧
    Alarm.ok (alarms (cancel_alarm k s)) ∧
    ∀ a, a ∈ Alarm.entries (alarms (cancel_alarm k s)) ↔
         a ∈ Alarm.entries (alarms s) ∧ Alarm.callback a ≠ k.
Proof.
  intros Hs. unfold cancel_alarm. destruct (alarm_ids s !! k) as [old|] eqn:E.
  - cbn. split_and!; [done|done|apply Alarm.cancel_ok, Hs|].
    intros a. destruct (ids_alarms _ Hs _ _ E) as (a0 & Ha0 & Hid & Hcb).
    unfold Alarm.cancel. subst old.
    rewrite (Alarm.find_entry_elem _ _ (alarms_ok _ Hs) Ha0). cbn.
    rewrite elem_of_retain, negb_true_iff, Z.eqb_neq. split; intros [Ha Hn]; split; try done.
    + intros Hk. destruct (alarms_ids _ Hs a Ha) as [Hi _]. rewrite Hk in Hi. congruence.
    + intros Hi. apply Hn. assert (a = a0) as ->; [|done].
      apply (nodup_fmap_inj Alarm.id (Alarm.entries (alarms s))); [apply (alarms_ok _ Hs)|done..].
  - split_and!; [by rewrite delete_id|done|apply Hs|]. intros a. split; [|by intros [? _]].
    intros Ha. split; [done|]. intros <-. destruct (alarms_ids _ Hs a Ha) as [Hi _]. congruence.
Qed.

Lemma cancel_alarm_follow k s : alarms_follow s → alarms_follow (cancel_alarm k s).
Proof.
  intros Hs. destruct (cancel_alarm_ids k s Hs) as (C1 & C2 & C3 & C5). split; [done|..].
  - intros k' i. rewrite C1. intros [Hn H]%lookup_delete_Some.
    destruct (ids_alarms _ Hs _ _ H) as (a & Ha & Hi & Hc). exists a. split_and!; [|done|done].
    apply C5. split; [done|congruence].
  - intros a [Ha Hn]%C5. destruct (alarms_ids _ Hs a Ha) as [Hi Hrest]. split; [|done].
    by rewrite C1, lookup_delete_ne by done.
  - intros k'. rewrite C1, C2. intros [i [_ H]%lookup_delete_Some]. apply (ids_entries _ Hs). by eexists.
Qed.

Lemma sched_new_ok : sched_ok new.
Proof.
  split; [split; cbn|]; [apply Alarm.alarm_new_ok|..].
  - intros k i H. by rewrite lookup_empty in H.
  - by intros a ?%elem_of_nil.
  - intros k [i H]. by rewrite lookup_empty in H.
  - intros k e H. cbn in H. by rewrite lookup_empty in H.
Qed.

(** The alarm of [k] is registered once its old one is gone. *)
Lemma spawn_ok k s :
  alarms_follow s → (∀ k', k' ≠ k → has_alarm s k') → sched_ok (spawn_alarm k s).
Proof.
  intros Hs Ho. unfold spawn_alarm. destruct (entries s !! k) as [e|] eqn:He.
  2: { split; [done|]. intros k'. destruct (decide (k' = k)) as [->|Hn]; [|by apply Ho].
       intros e. congruence. }
  destruct (enabled e) eqn:En; cbn [negb].
  2: { split; [done|]. intros k'. destruct (decide (k' = k)) as [->|Hn]; [|by apply Ho].
       intros e'. congruence. }
  destruct (cancel_alarm_ids k s Hs) as (C1 & C2 & C3 & C5).
  pose proof (cancel_alarm_follow k s Hs) as [D1 D2 D3 D4].
  set (s1 := cancel_alarm k s) in *. cbn [Alarm.add_repeat Alarm.add]. split; [split|]; cbn.
  - by apply Alarm.add_ok.
  - intros k' i [[<- <-]|[Hn H]]%lookup_insert_Some.
    + exists (Alarm.mkEntry (Alarm.next_id (alarms s1)) (alarm_interval e) k true false false).
      split_and!; [apply elem_of_app; right; by apply list_elem_of_singleton|done|done].
    + destruct (D2 _ _ H) as (a & Ha & Hi & Hc). exists a. split_and!; [|done|done].
      apply elem_of_app. by left.
  - intros a [Ha| ->%list_elem_of_singleton]%elem_of_app; [|cbn; by rewrite lookup_insert_eq].
    destruct (D3 a Ha) as [Hi Hrest]. split; [|done].
    apply C5 in Ha as [_ Hn]. by rewrite lookup_insert_ne by done.
  - intros k'. destruct (decide (k' = k)) as [->|Hn]; [rewrite C2, He; by eexists|].
    rewrite lookup_insert_ne by done. apply D4.
  - intros k' e' H1 H2. cbn in *. rewrite C2 in H1.
    destruct (decide (k' = k)) as [->|Hn]; [rewrite lookup_insert_eq; by eexists|].
    rewrite lookup_insert_ne, C1, lookup_delete_ne by done. by apply (Ho k' Hn e').
Qed.

(** A new row for one entry. *)
Lemma set_row_follow k e s :
  alarms_follow s →
  alarms_follow (mkState (<[k := e]> (entries s)) (alarm_ids s) (alarms s) (started s)).
Proof.
  intros [H1 H2 H3 H4]. split; cbn; [done|done|done|].
  intros k' Hk'. destruct (decide (k' = k)) as [->|Hn]; [rewrite lookup_insert_eq; by eexists|].
  rewrite lookup_insert_ne by done. by apply H4.
Qed.

Lemma add_entry_ok e s : sched_ok s → sched_ok (add_entry e s).
Proof.
  intros [Hs Ha]. apply spawn_ok; [by apply set_row_follow|].
  intros k' Hn e'. cbn. rewrite lookup_insert_ne by done. by apply Ha.
Qed.

Lemma remove_entry_ok o n s : sched_ok s → sched_ok (remove_entry o n s).2.
Proof.
  intros [Hs Ha]. unfold remove_entry. cbn [snd].
  destruct (cancel_alarm_ids (sched_key o n) s Hs) as (C1 & C2 & C3 & C5).
  pose proof (cancel_alarm_follow (sched_key o n) s Hs) as [D1 D2 D3 D4].
  split; [split|]; cbn; [done|done|done|..].
  - intros k' Hk'. destruct (decide (k' = sched_key o n)) as [->|Hn].
    + rewrite C1, lookup_delete_eq in Hk'. by destruct Hk'.
    + rewrite lookup_delete_ne by done. by apply D4.
  - intros k' e. cbn. intros [Hn H]%lookup_delete_Some. rewrite C2 in H.
    rewrite C1, lookup_delete_ne by done. by apply Ha.
Qed.

Lemma start_ok keys s : sched_ok s → sched_ok (start keys s).
Proof.
  intros Hs. unfold start. destruct (started s); [done|].
  assert (H : sched_ok (mkState (entries s) (alarm_ids s) (alarms s) true)).
  { destruct Hs as [[] ?]. by split; [split|]. }
  revert H. generalize (mkState (entries s) (alarm_ids s) (alarms s) true).
  induction keys as [|k keys IH]; intros s' H'; cbn; [done|]. apply IH.
  destruct H' as [? ?]. by apply spawn_ok.
Qed.

(** ** What a wake does *)

Section Wakes.
Context {W : Type} (self_query : option (MibHandler W)) (originator : bool).

Abbreviation wake := (wake self_query originator).
Abbreviation execute_action := (execute_action self_query originator).

Definition set_engine (s : state) (w : world (W:=W)) : world := mkWorld s (mib w) (sent w).

(** The engine's API and the wakes of its alarms, in any order. *)
Inductive reachable (m0 : W) : world (W:=W) → Prop :=
| reach_new : reachable m0 (mkWorld new m0 [])
| reach_add w e : reachable m0 w → reachable m0 (set_engine (add_entry e (engine w)) w)
| reach_remove w o n : reachable m0 w → reachable m0 (set_engine (remove_entry o n (engine w)).2 w)
| reach_start w keys : reachable m0 w → reachable m0 (set_engine (start keys (engine w)) w)
| reach_wake w i now secs : reachable m0 w → reachable m0 (wake i now secs w).

(** The world after entry [k], in row [e], fires. *)
Definition fired (k : text) (e : SchedEntry) (secs : Z) (w : world) : world :=
  execute_action (action e)
    (set_engine (mkState (<[k := set_counters (saturating_add_u u64_max (fire_count e) 1)
                                   (Some secs) e]> (entries (engine w)))
                   (alarm_ids (engine w)) (alarms (engine w)) (started (engine w))) w).

Lemma engine_execute a w : engine (execute_action a w) = engine w.
Proof. destruct a; cbn; [by destruct originator|by destruct self_query]. Qed.

(** The alarm of a row wakes its row and no other. *)
Lemma wake_alarm w i now secs :
  alarms_follow (engine w) →
  (∀ k e, alarm_ids (engine w) !! k = Some i → entries (engine w) !! k = Some e →
     wake i now secs w =
       if (interval e =? 0) && negb (cron_match_at (calendar e) now) then w else fired k e secs w) ∧
  ((∀ k, alarm_ids (engine w) !! k ≠ Some i) → wake i now secs w = w).
Proof.
  intros Hf. destruct w as [s m ns]. unfold Schedule.wake. cbn [engine mib sent] in *.
  assert (Hs : ∀ r, r = alarms s → mkState (entries s) (alarm_ids s) r (started s) = s)
    by (intros r ->; by destruct s).
  split.
  - intros k e Hi He. destruct (ids_alarms _ Hf _ _ Hi) as (a & Ha & Hid & Hcb).
    destruct (alarms_ids _ Hf a Ha) as (_ & R & C & F).
    rewrite <- Hid, (Alarm.wake_repeat _ _ (alarms_ok _ Hf) Ha R C F), Hcb.
    rewrite Hs by done. unfold fire. cbn [engine mib sent]. by rewrite He.
  - intros Hn. unfold Alarm.wake. destruct (Alarm.find_entry i (alarms s)) as [a|] eqn:E.
    + apply Alarm.find_entry_Some in E as [Ha Hid]. destruct (alarms_ids _ Hf a Ha) as [Hi _].
      rewrite Hid in Hi. by destruct (Hn _ Hi).
    + by rewrite Hs.
Qed.

Lemma sched_wake_ok w i now secs : sched_ok (engine w) → sched_ok (engine (wake i now secs w)).
Proof.
  intros [Hf Ha]. destruct (wake_alarm w i now secs Hf) as [H1 H2].
  destruct (Alarm.find_entry i (alarms (engine w))) as [a|] eqn:E.
  - apply Alarm.find_entry_Some in E as [Hin Hid]. destruct (alarms_ids _ Hf a Hin) as [Hi _].
    rewrite Hid in Hi. destruct (ids_entries _ Hf _ ltac:(by eexists)) as [e He].
    rewrite (H1 _ _ Hi He). destruct (_ && _); [done|]. unfold fired. rewrite engine_execute.
    split; [by apply set_row_follow|]. intros k' e'. cbn.
    intros [[<- <-]|[_ H]]%lookup_insert_Some; [intros _; by eexists|by apply (Ha k')].
  - rewrite H2; [done|]. intros k Hk. destruct (ids_alarms _ Hf _ _ Hk) as (a & Hin & Hid & _).
    subst i. by rewrite (Alarm.find_entry_elem _ _ (alarms_ok _ Hf) Hin) in E.
Qed.

Lemma sched_reachable_ok m0 w : reachable m0 w → sched_ok (engine w).
Proof.
  induction 1; [apply sched_new_ok|by apply add_entry_ok|by apply remove_entry_ok|by apply start_ok|].
  by apply sched_wake_ok.
Qed.

(** C32. In every state the engine can reach: an enabled entry has an alarm, a
    removed entry has none, and no two entries share one; when an alarm wakes
    its own entry, and only it, fires (its counter grows, its action runs)
    unless it is a calendar entry whose calendar excludes the moment; the wake
    of an alarm that no entry has changes nothing. *)
Theorem wakes_follow_entries m0 w :
  reachable m0 w → let s := engine w in
  (∀ k e, entries s !! k = Some e → enabled e = true → is_Some (alarm_ids s !! k)) ∧
  (∀ k, entries s !! k = None → alarm_ids s !! k = None) ∧
  (∀ k k' i, alarm_ids s !! k = Some i → alarm_ids s !! k' = Some i → k = k') ∧
  (∀ k e i now secs, alarm_ids s !! k = Some i → entries s !! k = Some e →
     wake i now secs w =
       if (interval e =? 0) && negb (cron_match_at (calendar e) now) then w else fired k e secs w) ∧
  (∀ i now secs, (∀ k, alarm_ids s !! k ≠ Some i) → wake i now secs w = w).
Proof.
  intros [Hf Ha]%sched_reachable_ok s. split_and!.
  - intros k e. apply Ha.
  - intros k Hk. destruct (alarm_ids s !! k) eqn:E; [|done].
    destruct (ids_entries _ Hf k) as [e He]; [by eexists|]. unfold s in Hk. congruence.
  - intros k k' i (a & Hin & Hid & <-)%(ids_alarms _ Hf) (a' & Hin' & Hid' & <-)%(ids_alarms _ Hf).
    f_equal. apply (nodup_fmap_inj Alarm.id (Alarm.entries (alarms (engine w))));
      [apply (alarms_ok _ Hf)|done|done|congruence].
  - intros k e i now secs. by apply (wake_alarm w i now secs Hf).
  - intros i now secs. by apply (wake_alarm w i now secs Hf).
Qed.

(** Adding a disabled row over an enabled one leaves the old alarm running, and
    a wake does not look at the flag: the disabled row fires. *)
Theorem disabled_entry_fires m0 w e e' now secs :
  reachable m0 w → entries (engine w) !! sched_key (owner e') (ename e') = Some e →
  enabled e = true → enabled e' = false → interval e' ≠ 0 →
  let w' := set_engine (add_entry e' (engine w)) w in
  ∃ i, alarm_ids (engine w') !! sched_key (owner e') (ename e') = Some i ∧
    wake i now secs w' = fired (sched_key (owner e') (ename e')) (set_counters 0 None e') secs w'.
Proof.
  intros Hr He En En' Hi w'. set (k := sched_key (owner e') (ename e')) in *.
  destruct (sched_reachable_ok _ _ Hr) as [Hf Ha]. destruct (Ha k e He En) as [i Hk].
  assert (E : add_entry e' (engine w) =
    mkState (<[k := set_counters 0 None e']> (entries (engine w))) (alarm_ids (engine w))
      (alarms (engine w)) (started (engine w))).
  { unfold add_entry, spawn_alarm. fold k. cbn [entries]. rewrite lookup_insert_eq. cbn.
    by rewrite En'. }
  exists i. unfold w'. rewrite E. cbn [engine set_engine alarm_ids]. split; [done|].
  destruct (wake_alarm (set_engine (add_entry e' (engine w)) w) i now secs) as [H _].
  { cbn. apply (sched_reachable_ok m0 (set_engine (add_entry e' (engine w)) w)). by apply reach_add. }
  rewrite E in H. rewrite (H k (set_counters 0 None e')); [|done|cbn; by rewrite lookup_insert_eq].
  cbn [interval set_counters]. destruct (Z.eqb_spec (interval e') 0); [done|]. done.
Qed.
End Wakes.

(** ** A concrete engine *)

Module Example.

Definition notice : SchedEntry := periodic (str "o") (str "n") (5 * nanos) (Notification [1; 3; 9]).
Definition at_noon : moment := mkMoment 0 1 1 12 0.
Definition w1 : world := set_engine (add_entry notice new) (mkWorld new tt []).

Lemma w1_reachable : reachable None true tt w1.
Proof. apply (reach_add None true tt (mkWorld new tt []) notice). constructor. Qed.

End Example.

Lemma wakes_follow_entries_witness :
  sent (wake None true 0 Example.at_noon 77 Example.w1) = [[1; 3; 9]].
Proof.
  destruct (wakes_follow_entries None true tt Example.w1 Example.w1_reachable) as (_ & _ & _ & H & _).
  rewrite (H (sched_key (str "o") (str "n")) (set_counters 0 None Example.notice) 0 Example.at_noon 77
    eq_refl eq_refl).
  reflexivity.
Defined.

Lemma disabled_entry_fires_witness :
  ∃ i, sent (wake None true i Example.at_noon 77
         (set_engine (add_entry (set_enabled false Example.notice) (engine Example.w1)) Example.w1))
       = [[1; 3; 9]].
Proof.
  destruct (disabled_entry_fires None true tt Example.w1 (set_counters 0 None Example.notice)
    (set_enabled false Example.notice) Example.at_noon 77 Example.w1_reachable) as (i & _ & E);
    try reflexivity; [discriminate|].
  exists i. rewrite E. reflexivity.
Defined.

(** ** The table *)

Definition SCHED_ENTRY : Oid := [1; 3; 6; 1; 2; 1; 63; 1; 2; 1; 1].

Definition action_type (a : SchedAction) : Z :=
  match a with Notification _ => 1 | SetAction _ _ => 2 end.

(** The cells pushed for one row, by column. *)
Definition sched_columns (e : SchedEntry) : gmap Z Value := list_to_map
  [(2, VOctetString (as_bytes (owner e)));
   (3, VOctetString (as_bytes (ename e)));
   (4, VGauge32 (interval e));
   (16, VInteger (action_type (action e)));
   (19, VOid (match action e with Notification oid => oid | _ => Oid.null end));
   (20, VOid (match action e with SetAction oid _ => oid | _ => Oid.null end));
   (21, match action e with SetAction _ v => v | _ => VNull end);
   (13, VInteger (status_i64 Active))].

Definition sched_cells (s : state) : cells :=
  named_cells SCHED_ENTRY owner ename sched_columns (entries s).

Definition handler : MibHandler state := table_handler SCHED_ENTRY sched_cells.

#[export] Instance readable :
  ReadableHandler (λ s, filed owner ename (entries s)) eq handler sched_cells.
Proof. apply table_readable; [intros s; apply named_cells_strict|intros s; apply named_cells_under_root]. Qed.

End Schedule.
