(* ===== verification/Expr.v ===== *)
(** * Expressions over MIB values ([crates/netsnmp-agent/src/disman/expr.rs])

    Lexer, recursive-descent evaluator and the table that serves the results.
    An [f64] is the Standard Library's binary floating-point number of 53 bits
    of precision, with its round-to-nearest-even operations. The parser's
    position in the token slice is the list of the tokens left; its recursion
    runs on fuel, [None] being fuel that ran out. *)

From Stdlib Require Import ZArith Lia SpecFloat.
From S2P Require Import Prelude MachineInts Text Oid Value Pdu Cells Handler Helpers.

(** ** [f64] *)

Abbreviation f64 := spec_float (only parsing).

Definition f64_add : f64 → f64 → f64 := SFadd 53 1024.
Definition f64_sub : f64 → f64 → f64 := SFsub 53 1024.
Definition f64_mul : f64 → f64 → f64 := SFmul 53 1024.
Definition f64_div : f64 → f64 → f64 := SFdiv 53 1024.
Definition f64_neg : f64 → f64 := SFopp.

(** [x == 0.0]. *)
Definition is_zero (x : f64) : bool := SFeqb x (S754_zero false).

(** [n as f64]: the nearest one. *)
Definition f64_of_int (n : Z) : f64 := binary_normalize 53 1024 n 0 false.

(** The nearest one to [n / 10 ^ k]. *)
Definition f64_of_decimal (n : Z) (k : nat) : f64 :=
  if 0 <? n then
    let '(m, e, l) := SFdiv_core_binary 53 1024 n 0 (10 ^ Z.of_nat k) 0 in
    binary_round_aux 53 1024 false m e l
  else S754_zero false.

(** [x as i64]: towards zero, saturating, zero for NaN. *)
Definition f64_to_i64 (x : f64) : Z :=
  match x with
  | S754_zero _ | S754_nan => 0
  | S754_infinity s => if s then i64_min else i64_max
  | S754_finite s m e =>
      let a := Z.shiftl (Zpos m) e in
      Z.max i64_min (Z.min i64_max (if s then - a else a))
  end.

(** ** Errors and tokens *)

Inductive ExprError :=
| UnexpectedChar (c : Z)
| UnexpectedEnd
| BadReference
| UnresolvedReference (s : text)
| BadNumber (s : text)
| MissingOperand
| UnbalancedParens
| DivisionByZero.

Inductive Op := Plus | Minus | Times | Divide.

Inductive Token :=
| TNumber (n : f64)
| TReference (r : text)
| TOp (c : Op)
| TLParen
| TRParen.

(** ** Lexer *)

Definition op_of (c : Z) : option Op :=
  match c with
  | 43 => Some Plus
  | 45 => Some Minus
  | 42 => Some Times
  | 47 => Some Divide
  | _ => None
  end.

(** The whitespace the lexer skips, and the one that ends a reference. *)
Definition is_blank (c : Z) : bool := (c =? 32) || (c =? 9) || (c =? 10) || (c =? 13).
Definition is_ascii_whitespace (c : Z) : bool := is_blank c || (c =? 12).

Definition ends_reference (c : Z) : bool :=
  is_ascii_whitespace c || bool_decide (is_Some (op_of c)) || (c =? 40) || (c =? 41).

(** The longest prefix whose characters satisfy [p], and what follows. *)
Fixpoint span (p : Z → bool) (s : text) : text * text :=
  match s with
  | c :: s' => if p c then let '(r, rest) := span p s' in (c :: r, rest) else ([], s)
  | [] => ([], [])
  end.

Definition scan_reference : text → text * text := span (fun c => negb (ends_reference c)).

Fixpoint scan_number (seen_dot : bool) (s : text) : text * text :=
  match s with
  | c :: s' =>
      if is_ascii_digit c then let '(n, rest) := scan_number seen_dot s' in (c :: n, rest)
      else if (c =? 46) && negb seen_dot
      then let '(n, rest) := scan_number true s' in (c :: n, rest)
      else ([], s)
  | [] => ([], [])
  end.

(** [s.parse::<f64>()] of digits with at most one point: at least one digit. *)
Definition parse_f64 (s : text) : option f64 :=
  let '(whole, rest) := span is_ascii_digit s in
  let frac := drop 1 rest in
  match whole ++ frac with
  | [] => None
  | digits => Some (f64_of_decimal (dec_value digits) (length frac))
  end.

Abbreviation lexed := (option (result (list Token) ExprError)) (only parsing).

Definition push_token (t : Token) (r : lexed) : lexed :=
  match r with Some (Ok ts) => Some (Ok (t :: ts)) | _ => r end.

(** The loop body; [bytes[i] as char] is the first byte of the character. *)
Fixpoint lex_loop (fuel : nat) (s : text) : lexed :=
  match s with
  | [] => Some (Ok [])
  | c :: s' =>
      match fuel with
      | O => None
      | S f =>
          if is_blank c then lex_loop f s'
          else match op_of c with
          | Some o => push_token (TOp o) (lex_loop f s')
          | None =>
          if c =? 40 then push_token TLParen (lex_loop f s')
          else if c =? 41 then push_token TRParen (lex_loop f s')
          else if c =? 36 then
            match scan_reference s' with
            | ([], _) => Some (Err BadReference)
            | (r, rest) => push_token (TReference r) (lex_loop f rest)
            end
          else if is_ascii_digit c || (c =? 46) then
            let '(lit, rest) := scan_number false s in
            match parse_f64 lit with
            | Some n => push_token (TNumber n) (lex_loop f rest)
            | None => Some (Err (BadNumber lit))
            end
          else Some (Err (UnexpectedChar (nth 0 (encode_char c) 0)))
          end
      end
  end.

Definition lex (input : text) : lexed := lex_loop (length input) input.

(** ** Evaluator *)

Abbreviation parsed := (option (result (f64 * list Token) ExprError)) (only parsing).

(** [?] under fuel. *)
Definition pbind (m : parsed) (k : f64 → list Token → parsed) : parsed :=
  match m with
  | Some (Ok (v, rest)) => k v rest
  | Some (Err e) => Some (Err e)
  | None => None
  end.

Notation "'let>' ( x , y ) ':=' m 'in' k" := (pbind m (fun x y => k))
  (at level 10, x name, y name, m at level 100, k at level 200) : snmp_scope.

Section Evaluator.
Context (lookup : Oid → option f64).

Definition resolve (r : text) : result f64 ExprError :=
  match Oid.from_str r with
  | Err _ => Err (UnresolvedReference r)
  | Ok oid => ok_or (UnresolvedReference r) (lookup oid)
  end.

Fixpoint parse_expr (fuel : nat) (tokens : list Token) : parsed :=
  match fuel with
  | O => None
  | S f => let> (left, rest) := parse_term f tokens in expr_loop f left rest
  end
with expr_loop (fuel : nat) (left : f64) (tokens : list Token) : parsed :=
  match fuel with
  | O => None
  | S f =>
      match tokens with
      | TOp Plus :: ts =>
          let> (right, rest) := parse_term f ts in expr_loop f (f64_add left right) rest
      | TOp Minus :: ts =>
          let> (right, rest) := parse_term f ts in expr_loop f (f64_sub left right) rest
      | _ => Some (Ok (left, tokens))
      end
  end
with parse_term (fuel : nat) (tokens : list Token) : parsed :=
  match fuel with
  | O => None
  | S f => let> (left, rest) := parse_factor f tokens in term_loop f left rest
  end
with term_loop (fuel : nat) (left : f64) (tokens : list Token) : parsed :=
  match fuel with
  | O => None
  | S f =>
      match tokens with
      | TOp Times :: ts =>
          let> (right, rest) := parse_factor f ts in term_loop f (f64_mul left right) rest
      | TOp Divide :: ts =>
          let> (right, rest) := parse_factor f ts in
          if is_zero right then Some (Err DivisionByZero)
          else term_loop f (f64_div left right) rest
      | _ => Some (Ok (left, tokens))
      end
  end
with parse_factor (fuel : nat) (tokens : list Token) : parsed :=
  match fuel with
  | O => None
  | S f =>
      match tokens with
      | [] => Some (Err UnexpectedEnd)
      | TNumber n :: ts => Some (Ok (n, ts))
      | TReference r :: ts => Some (let? v := resolve r in Ok (v, ts))
      | TLParen :: ts =>
          let> (v, rest) := parse_expr f ts in
          match rest with
          | TRParen :: rest' => Some (Ok (v, rest'))
          | _ => Some (Err UnbalancedParens)
          end
      | TOp Minus :: ts => let> (v, rest) := parse_factor f ts in Some (Ok (f64_neg v, rest))
      | TOp Plus :: ts => parse_factor f ts
      | TRParen :: _ | TOp _ :: _ => Some (Err MissingOperand)
      end
  end.

(** Enough for any token list ([parse_total] below). *)
Definition parse_fuel (tokens : list Token) : nat := (4 * length tokens + 3)%nat.

Definition evaluate_tokens (tokens : list Token) : option (result f64 ExprError) :=
  match parse_expr (parse_fuel tokens) tokens with
  | Some (Ok (v, [])) => Some (Ok v)
  | Some (Ok (_, _ :: _)) => Some (Err UnbalancedParens)
  | Some (Err e) => Some (Err e)
  | None => None
  end.

Definition evaluate_expression (expression : text) : option (result f64 ExprError) :=
  match lex expression with
  | Some (Ok tokens) => evaluate_tokens tokens
  | Some (Err e) => Some (Err e)
  | None => None
  end.
End Evaluator.

(** ** The grammar of the parser

<<
    expr   := term (('+' | '-') term)*
    term   := factor (('*' | '/') factor)*
    factor := number | reference | '(' expr ')' | '-' factor | '+' factor
>>
    as left-leaning derivation trees, with the tokens they derive and the value
    they denote, operands from left to right. The last alternative is in
    [parse_factor] and not in the grammar that documents it: [documented_expr]
    are the derivations of that one. *)

Inductive factor :=
| Num (n : f64)
| Ref (r : text)
| Paren (e : expr)
| Neg (f : factor)
| Pos (f : factor)
with term :=
| Factor (f : factor)
| Mul (t : term) (f : factor)
| Div (t : term) (f : factor)
with expr :=
| Term (t : term)
| Add (e : expr) (t : term)
| Sub (e : expr) (t : term).

Scheme factor_mind := Induction for factor Sort Prop
  with term_mind := Induction for term Sort Prop
  with expr_mind := Induction for expr Sort Prop.
Combined Scheme syntax_mind from factor_mind, term_mind, expr_mind.

Fixpoint factor_tokens (x : factor) : list Token :=
  match x with
  | Num n => [TNumber n]
  | Ref r => [TReference r]
  | Paren e => TLParen :: expr_tokens e ++ [TRParen]
  | Neg f => TOp Minus :: factor_tokens f
  | Pos f => TOp Plus :: factor_tokens f
  end
with term_tokens (x : term) : list Token :=
  match x with
  | Factor f => factor_tokens f
  | Mul t f => term_tokens t ++ TOp Times :: factor_tokens f
  | Div t f => term_tokens t ++ TOp Divide :: factor_tokens f
  end
with expr_tokens (x : expr) : list Token :=
  match x with
  | Term t => term_tokens t
  | Add e t => expr_tokens e ++ TOp Plus :: term_tokens t
  | Sub e t => expr_tokens e ++ TOp Minus :: term_tokens t
  end.

Fixpoint documented_factor (x : factor) : bool :=
  match x with
  | Num _ | Ref _ => true
  | Paren e => documented_expr e
  | Neg f => documented_factor f
  | Pos _ => false
  end
with documented_term (x : term) : bool :=
  match x with
  | Factor f => documented_factor f
  | Mul t f | Div t f => documented_term t && documented_factor f
  end
with documented_expr (x : expr) : bool :=
  match x with
  | Term t => documented_term t
  | Add e t | Sub e t => documented_expr e && documented_term t
  end.

(** A derivation without the plus signs in front of factors. *)
Fixpoint unsigned_factor (x : factor) : factor :=
  match x with
  | Paren e => Paren (unsigned_expr e)
  | Neg f => Neg (unsigned_factor f)
  | Pos f => unsigned_factor f
  | x => x
  end
with unsigned_term (x : term) : term :=
  match x with
  | Factor f => Factor (unsigned_factor f)
  | Mul t f => Mul (unsigned_term t) (unsigned_factor f)
  | Div t f => Div (unsigned_term t) (unsigned_factor f)
  end
with unsigned_expr (x : expr) : expr :=
  match x with
  | Term t => Term (unsigned_term t)
  | Add e t => Add (unsigned_expr e) (unsigned_term t)
  | Sub e t => Sub (unsigned_expr e) (unsigned_term t)
  end.

Section Semantics.
Context (lookup : Oid → option f64).

Fixpoint factor_value (x : factor) : result f64 ExprError :=
  match x with
  | Num n => Ok n
  | Ref r => resolve lookup r
  | Paren e => expr_value e
  | Neg f => let? v := factor_value f in Ok (f64_neg v)
  | Pos f => factor_value f
  end
with term_value (x : term) : result f64 ExprError :=
  match x with
  | Factor f => factor_value f
  | Mul t f => let? a := term_value t in let? b := factor_value f in Ok (f64_mul a b)
  | Div t f =>
      let? a := term_value t in
      let? b := factor_value f in
      if is_zero b then Err DivisionByZero else Ok (f64_div a b)
  end
with expr_value (x : expr) : result f64 ExprError :=
  match x with
  | Term t => term_value t
  | Add e t => let? a := expr_value e in let? b := term_value t in Ok (f64_add a b)
  | Sub e t => let? a := expr_value e in let? b := term_value t in Ok (f64_sub a b)
  end.

(** ** The parser terminates *)

(** The call answers, and what it leaves is at most [n] tokens. *)
Definition answers (n : nat) (m : parsed) : Prop :=
  match m with
  | Some (Ok (_, rest)) => (length rest <= n)%nat
  | Some (Err _) => True
  | None => False
  end.

Lemma pbind_answers n m k p :
  answers n m → (∀ v rest, (length rest <= n)%nat → answers p (k v rest)) →
  answers p (pbind m k).
Proof. destruct m as [[[v rest]|e]|]; cbn; auto. Qed.

Lemma answers_mono n p m : answers n m → (n <= p)%nat → answers p m.
Proof. destruct m as [[[v rest]|e]|]; cbn; [lia|done|done]. Qed.

Lemma parse_answers fuel : ∀ tokens, let n := length tokens in
  (fuel >= 4 * n + 3 → answers (pred n) (parse_expr lookup fuel tokens))%nat ∧
  (fuel >= 4 * n + 1 → ∀ left, answers n (expr_loop lookup fuel left tokens))%nat ∧
  (fuel >= 4 * n + 2 → answers (pred n) (parse_term lookup fuel tokens))%nat ∧
  (fuel >= 4 * n + 1 → ∀ left, answers n (term_loop lookup fuel left tokens))%nat ∧
  (fuel >= 4 * n + 1 → answers (pred n) (parse_factor lookup fuel tokens))%nat.
Proof.
  induction fuel as [|f IH]; intros tokens n; [split_and!; lia|].
  assert (IHe : ∀ ts, (f >= 4 * length ts + 3)%nat → answers (pred (length ts)) (parse_expr lookup f ts))
    by (intros ts; apply (IH ts)).
  assert (IHel : ∀ ts left, (f >= 4 * length ts + 1)%nat → answers (length ts) (expr_loop lookup f left ts))
    by (intros ts left H; by apply (IH ts)).
  assert (IHt : ∀ ts, (f >= 4 * length ts + 2)%nat → answers (pred (length ts)) (parse_term lookup f ts))
    by (intros ts; apply (IH ts)).
  assert (IHtl : ∀ ts left, (f >= 4 * length ts + 1)%nat → answers (length ts) (term_loop lookup f left ts))
    by (intros ts left H; by apply (IH ts)).
  assert (IHf : ∀ ts, (f >= 4 * length ts + 1)%nat → answers (pred (length ts)) (parse_factor lookup f ts))
    by (intros ts; apply (IH ts)).
  clear IH. subst n. split_and!; intros Hf.
  - cbn. eapply pbind_answers; [apply IHt; lia|]. intros v rest Hr.
    eapply answers_mono; [apply IHel; lia|done].
  - intros left. cbn. destruct tokens as [|[| |[]| |] ts]; cbn in *; try lia;
      (eapply pbind_answers; [apply IHt; lia|]; intros v rest Hr;
       eapply answers_mono; [apply IHel; lia|lia]).
  - cbn. eapply pbind_answers; [apply IHf; lia|]. intros v rest Hr.
    eapply answers_mono; [apply IHtl; lia|done].
  - intros left. cbn. destruct tokens as [|[| |[]| |] ts]; cbn in *; try lia;
      (eapply pbind_answers; [apply IHf; lia|]; intros v rest Hr);
      try (destruct (is_zero v); [done|]); (eapply answers_mono; [apply IHtl; lia|lia]).
  - cbn. destruct tokens as [|[n|r|[]| |] ts]; cbn in *; try done; try lia.
    + destruct (resolve lookup r); cbn; [lia|done].
    + eapply answers_mono; [apply IHf; lia|lia].
    + eapply pbind_answers; [apply IHf; lia|]. intros v rest Hr. cbn. lia.
    + eapply pbind_answers; [apply IHe; lia|]. intros v rest Hr.
      destruct rest as [|[] rest]; cbn in *; try done. lia.
Qed.

Lemma evaluate_tokens_total tokens : evaluate_tokens lookup tokens ≠ None.
Proof.
  unfold evaluate_tokens, parse_fuel.
  pose proof (proj1 (parse_answers (4 * length tokens + 3) tokens) (le_n _)) as H.
  destruct (parse_expr _ _ _) as [[[v []]|]|]; done.
Qed.

(** ** More fuel changes nothing *)

Lemma pbind_mono (m m' : parsed) (k k' : f64 → list Token → parsed) r :
  (∀ r, m = Some r → m' = Some r) → (∀ v rest r, k v rest = Some r → k' v rest = Some r) →
  pbind m k = Some r → pbind m' k' = Some r.
Proof.
  intros H1 H2. destruct m as [[[v rest]|e]|]; cbn; [|intros [= <-]|done];
    rewrite (H1 _ eq_refl); cbn; auto.
Qed.

(** The defining equations. *)
Lemma parse_expr_S f ts :
  parse_expr lookup (S f) ts = pbind (parse_term lookup f ts) (expr_loop lookup f).
Proof. done. Qed.
Lemma parse_term_S f ts :
  parse_term lookup (S f) ts = pbind (parse_factor lookup f ts) (term_loop lookup f).
Proof. done. Qed.
Lemma expr_loop_S f v ts : expr_loop lookup (S f) v ts =
  match ts with
  | TOp Plus :: ts =>
      pbind (parse_term lookup f ts) (λ w rest, expr_loop lookup f (f64_add v w) rest)
  | TOp Minus :: ts =>
      pbind (parse_term lookup f ts) (λ w rest, expr_loop lookup f (f64_sub v w) rest)
  | _ => Some (Ok (v, ts))
  end.
Proof. done. Qed.
Lemma term_loop_S f v ts : term_loop lookup (S f) v ts =
  match ts with
  | TOp Times :: ts =>
      pbind (parse_factor lookup f ts) (λ w rest, term_loop lookup f (f64_mul v w) rest)
  | TOp Divide :: ts =>
      pbind (parse_factor lookup f ts) (λ w rest,
        if is_zero w then Some (Err DivisionByZero) else term_loop lookup f (f64_div v w) rest)
  | _ => Some (Ok (v, ts))
  end.
Proof. done. Qed.
Lemma parse_factor_S f ts : parse_factor lookup (S f) ts =
  match ts with
  | [] => Some (Err UnexpectedEnd)
  | TNumber n :: ts => Some (Ok (n, ts))
  | TReference r :: ts => Some (let? v := resolve lookup r in Ok (v, ts))
  | TLParen :: ts =>
      pbind (parse_expr lookup f ts) (λ v rest,
        match rest with TRParen :: rest' => Some (Ok (v, rest')) | _ => Some (Err UnbalancedParens) end)
  | TOp Minus :: ts => pbind (parse_factor lookup f ts) (λ v rest, Some (Ok (f64_neg v, rest)))
  | TOp Plus :: ts => parse_factor lookup f ts
  | TRParen :: _ | TOp _ :: _ => Some (Err MissingOperand)
  end.
Proof. done. Qed.

Lemma parse_mono fuel : ∀ r,
  (∀ ts, parse_expr lookup fuel ts = Some r → parse_expr lookup (S fuel) ts = Some r) ∧
  (∀ ts v, expr_loop lookup fuel v ts = Some r → expr_loop lookup (S fuel) v ts = Some r) ∧
  (∀ ts, parse_term lookup fuel ts = Some r → parse_term lookup (S fuel) ts = Some r) ∧
  (∀ ts v, term_loop lookup fuel v ts = Some r → term_loop lookup (S fuel) v ts = Some r) ∧
  (∀ ts, parse_factor lookup fuel ts = Some r → parse_factor lookup (S fuel) ts = Some r).
Proof.
  induction fuel as [|f IH]; intros r; [done|].
  pose proof (λ r, proj1 (IH r)) as IHe. pose proof (λ r, proj1 (proj2 (IH r))) as IHel.
  pose proof (λ r, proj1 (proj2 (proj2 (IH r)))) as IHt.
  pose proof (λ r, proj1 (proj2 (proj2 (proj2 (IH r))))) as IHtl.
  pose proof (λ r, proj2 (proj2 (proj2 (proj2 (IH r))))) as IHf. clear IH.
  split_and!; intros ts.
  - rewrite !parse_expr_S. by apply pbind_mono; auto.
  - intros v. rewrite (expr_loop_S f), (expr_loop_S (S f)).
    destruct ts as [|[| |[]| |] ts]; try done; by apply pbind_mono; auto.
  - rewrite !parse_term_S. by apply pbind_mono; auto.
  - intros v. rewrite (term_loop_S f), (term_loop_S (S f)).
    destruct ts as [|[| |[]| |] ts]; try done; apply pbind_mono; auto.
    intros w rest r'. destruct (is_zero w); [done|auto].
  - rewrite (parse_factor_S f), (parse_factor_S (S f)).
    destruct ts as [|[n|x|[]| |] ts]; try done; [by apply IHf|..]; apply pbind_mono; auto.
Qed.

Lemma parse_expr_mono f f' ts r :
  (f <= f')%nat → parse_expr lookup f ts = Some r → parse_expr lookup f' ts = Some r.
Proof. induction 1; [done|]. intros H0. apply parse_mono. auto. Qed.

Lemma expr_loop_mono f f' v ts r :
  (f <= f')%nat → expr_loop lookup f v ts = Some r → expr_loop lookup f' v ts = Some r.
Proof. induction 1; [done|]. intros H0. apply parse_mono. auto. Qed.

Lemma parse_term_mono f f' ts r :
  (f <= f')%nat → parse_term lookup f ts = Some r → parse_term lookup f' ts = Some r.
Proof. induction 1; [done|]. intros H0. apply parse_mono. auto. Qed.

Lemma term_loop_mono f f' v ts r :
  (f <= f')%nat → term_loop lookup f v ts = Some r → term_loop lookup f' v ts = Some r.
Proof. induction 1; [done|]. intros H0. apply parse_mono. auto. Qed.

Lemma parse_factor_mono f f' ts r :
  (f <= f')%nat → parse_factor lookup f ts = Some r → parse_factor lookup f' ts = Some r.
Proof. induction 1; [done|]. intros H0. apply parse_mono. auto. Qed.

(** ** Every derivation is evaluated *)

Definition expr_runs ts r : Prop := ∃ f, parse_expr lookup f ts = Some r.
Definition expr_loop_runs v ts r : Prop := ∃ f, expr_loop lookup f v ts = Some r.
Definition term_runs ts r : Prop := ∃ f, parse_term lookup f ts = Some r.
Definition term_loop_runs v ts r : Prop := ∃ f, term_loop lookup f v ts = Some r.
Definition factor_runs ts r : Prop := ∃ f, parse_factor lookup f ts = Some r.

(** A result as the parser returns it, with the tokens left. *)
Definition with_rest (rest : list Token) (v : result f64 ExprError) :
    result (f64 * list Token) ExprError :=
  match v with Ok v => Ok (v, rest) | Err e => Err e end.

(** [r] is the outcome of a subject worth [m] that is followed by [k]. *)
Definition continues (m : result f64 ExprError) (k : f64 → Prop)
    (r : result (f64 * list Token) ExprError) : Prop :=
  match m with Ok v => k v | Err e => r = Err e end.

Lemma run_expr ts m rest r :
  term_runs ts (with_rest rest m) → continues m (λ v, expr_loop_runs v rest r) r → expr_runs ts r.
Proof.
  intros [f1 H1] H2. destruct m as [v|e]; cbn in *.
  - destruct H2 as [f2 H2]. exists (S (f1 + f2)). cbn.
    rewrite (parse_term_mono f1 (f1 + f2) _ _ ltac:(lia) H1). cbn.
    apply (expr_loop_mono f2); [lia|done].
  - subst r. exists (S f1). cbn. by rewrite H1.
Qed.

Lemma run_expr_loop v o ts m rest r (op : f64 → f64 → f64) :
  (o = Plus ∧ op = f64_add ∨ o = Minus ∧ op = f64_sub) →
  term_runs ts (with_rest rest m) → continues m (λ w, expr_loop_runs (op v w) rest r) r →
  expr_loop_runs v (TOp o :: ts) r.
Proof.
  intros Ho [f1 H1] H2. destruct m as [w|e]; cbn in *.
  - destruct H2 as [f2 H2]. exists (S (f1 + f2)).
    destruct Ho as [[-> ->]|[-> ->]]; cbn;
      rewrite (parse_term_mono f1 (f1 + f2) _ _ ltac:(lia) H1); cbn;
      (apply (expr_loop_mono f2); [lia|done]).
  - subst r. exists (S f1). destruct Ho as [[-> ->]|[-> ->]]; cbn; by rewrite H1.
Qed.

Lemma run_term ts m rest r :
  factor_runs ts (with_rest rest m) → continues m (λ v, term_loop_runs v rest r) r →
  term_runs ts r.
Proof.
  intros [f1 H1] H2. destruct m as [v|e]; cbn in *.
  - destruct H2 as [f2 H2]. exists (S (f1 + f2)). cbn.
    rewrite (parse_factor_mono f1 (f1 + f2) _ _ ltac:(lia) H1). cbn.
    apply (term_loop_mono f2); [lia|done].
  - subst r. exists (S f1). cbn. by rewrite H1.
Qed.

Lemma run_times v ts m rest r :
  factor_runs ts (with_rest rest m) →
  continues m (λ w, term_loop_runs (f64_mul v w) rest r) r →
  term_loop_runs v (TOp Times :: ts) r.
Proof.
  intros [f1 H1] H2. destruct m as [w|e]; cbn in *.
  - destruct H2 as [f2 H2]. exists (S (f1 + f2)). cbn.
    rewrite (parse_factor_mono f1 (f1 + f2) _ _ ltac:(lia) H1). cbn.
    apply (term_loop_mono f2); [lia|done].
  - subst r. exists (S f1). cbn. by rewrite H1.
Qed.

Lemma run_divide v ts m rest r :
  factor_runs ts (with_rest rest m) →
  continues (let? w := m in if is_zero w then Err DivisionByZero else Ok (f64_div v w))
    (λ q, term_loop_runs q rest r) r →
  term_loop_runs v (TOp Divide :: ts) r.
Proof.
  intros [f1 H1] H2. destruct m as [w|e]; cbn in *.
  - destruct (is_zero w) eqn:Z; cbn in H2.
    + subst r. exists (S f1). cbn. rewrite H1. cbn. by rewrite Z.
    + destruct H2 as [f2 H2]. exists (S (f1 + f2)). cbn.
      rewrite (parse_factor_mono f1 (f1 + f2) _ _ ltac:(lia) H1). cbn. rewrite Z.
      apply (term_loop_mono f2); [lia|done].
  - subst r. exists (S f1). cbn. by rewrite H1.
Qed.

(** What stops the two loops. *)
Definition no_factor_op (ts : list Token) : Prop :=
  match ts with TOp Times :: _ | TOp Divide :: _ => False | _ => True end.
Definition no_op (ts : list Token) : Prop := match ts with TOp _ :: _ => False | _ => True end.

Lemma term_loop_stops v ts : no_factor_op ts → term_loop_runs v ts (Ok (v, ts)).
Proof. exists 1%nat. by destruct ts as [|[| |[]| |] ts]. Qed.

Lemma expr_loop_stops v ts : no_op ts → expr_loop_runs v ts (Ok (v, ts)).
Proof. exists 1%nat. by destruct ts as [|[| |[]| |] ts]. Qed.

Lemma derivations_run :
  (∀ x rest, factor_runs (factor_tokens x ++ rest) (with_rest rest (factor_value x))) ∧
  (∀ x rest r, continues (term_value x) (λ v, term_loop_runs v rest r) r →
     term_runs (term_tokens x ++ rest) r) ∧
  (∀ x rest r, no_factor_op rest → continues (expr_value x) (λ v, expr_loop_runs v rest r) r →
     expr_runs (expr_tokens x ++ rest) r).
Proof.
  apply syntax_mind; cbn [factor_tokens term_tokens expr_tokens factor_value term_value expr_value].
  - intros n rest. by exists 1%nat.
  - intros x rest. exists 1%nat. cbn. by destruct (resolve lookup x).
  - intros e IH rest. rewrite <- app_comm_cons, <- app_assoc. cbn.
    destruct (IH (TRParen :: rest) (with_rest (TRParen :: rest) (expr_value e))) as [f H]; [done| |].
    { destruct (expr_value e); cbn; [by apply expr_loop_stops|done]. }
    exists (S f). cbn. rewrite H. by destruct (expr_value e).
  - intros x IH rest. destruct (IH rest) as [f H]. exists (S f). cbn. rewrite H.
    by destruct (factor_value x).
  - intros x IH rest. destruct (IH rest) as [f H]. exists (S f). cbn. by rewrite H.
  - intros x IH rest r Hr. by eapply run_term.
  - intros t IHt x IHf rest r Hr. rewrite <- app_assoc. apply IHt.
    destruct (term_value t) as [a|e]; cbn in *; [|done]. eapply run_times; [apply IHf|].
    by destruct (factor_value x).
  - intros t IHt x IHf rest r Hr. rewrite <- app_assoc. apply IHt.
    destruct (term_value t) as [a|e]; cbn in *; [|done]. eapply run_divide; [apply IHf|].
    by destruct (factor_value x).
  - intros t IHt rest r Hn Hr. eapply (run_expr _ (term_value t) rest); [|done]. apply IHt.
    destruct (term_value t); cbn; [by apply term_loop_stops|done].
  - intros e IHe t IHt rest r Hn Hr. rewrite <- app_assoc. apply IHe; [done|].
    destruct (expr_value e) as [a|]; cbn in *; [|done].
    eapply (run_expr_loop _ _ _ (term_value t) rest _ f64_add); [by left| |by destruct (term_value t)].
    apply IHt. destruct (term_value t); cbn; [by apply term_loop_stops|done].
  - intros e IHe t IHt rest r Hn Hr. rewrite <- app_assoc. apply IHe; [done|].
    destruct (expr_value e) as [a|]; cbn in *; [|done].
    eapply (run_expr_loop _ _ _ (term_value t) rest _ f64_sub); [by right| |by destruct (term_value t)].
    apply IHt. destruct (term_value t); cbn; [by apply term_loop_stops|done].
Qed.

Lemma expr_runs_enough ts r : expr_runs ts r → parse_expr lookup (parse_fuel ts) ts = Some r.
Proof.
  intros [f H]. pose proof (proj1 (parse_answers (4 * length ts + 3) ts) (le_n _)) as A.
  unfold parse_fuel. destruct (parse_expr lookup (4 * length ts + 3) ts) as [r'|] eqn:E; [|done].
  destruct (Nat.le_ge_cases f (4 * length ts + 3)) as [L|L].
  - rewrite <- E. by apply (parse_expr_mono f).
  - rewrite <- H. symmetry. by apply (parse_expr_mono (4 * length ts + 3)).
Qed.

Lemma evaluate_derivation x : evaluate_tokens lookup (expr_tokens x) = Some (expr_value x).
Proof.
  unfold evaluate_tokens.
  rewrite (expr_runs_enough (expr_tokens x) (with_rest [] (expr_value x))).
  - by destruct (expr_value x).
  - rewrite <- (app_nil_r (expr_tokens x)) at 1. apply derivations_run; [done|].
    destruct (expr_value x); cbn; [by apply expr_loop_stops|done].
Qed.

(** ** Only derivations are evaluated *)

Lemma pbind_Ok m k v rest :
  pbind m k = Some (Ok (v, rest)) → ∃ w ts, m = Some (Ok (w, ts)) ∧ k w ts = Some (Ok (v, rest)).
Proof. destruct m as [[[w ts]|e]|]; cbn; [eauto|done|done]. Qed.

(** An operator that [expr_loop] consumes extends the derivation read so far. *)
Lemma expr_loop_op f a x v rest o op (mk : expr → term → expr) ts :
  (∀ ts v rest, parse_term lookup f ts = Some (Ok (v, rest)) →
     ∃ t, ts = term_tokens t ++ rest ∧ term_value t = Ok v) →
  (∀ ts v rest a x, expr_loop lookup f a ts = Some (Ok (v, rest)) → expr_value x = Ok a →
     ∃ y, expr_tokens x ++ ts = expr_tokens y ++ rest ∧ expr_value y = Ok v) →
  (∀ e t, expr_tokens (mk e t) = expr_tokens e ++ TOp o :: term_tokens t) →
  (∀ e t, expr_value (mk e t) =
     (let? p := expr_value e in let? q := term_value t in Ok (op p q))) →
  pbind (parse_term lookup f ts) (λ w r, expr_loop lookup f (op a w) r) = Some (Ok (v, rest)) →
  expr_value x = Ok a →
  ∃ y, expr_tokens x ++ TOp o :: ts = expr_tokens y ++ rest ∧ expr_value y = Ok v.
Proof.
  intros IHt IHel Hmk Hv (w & ts1 & (t & -> & Ht)%IHt & H2)%pbind_Ok Hx.
  apply (IHel _ _ _ (op a w) (mk x t)) in H2 as (y & E & Hy); [|by rewrite Hv, Hx; cbn; rewrite Ht].
  exists y. split; [|done]. rewrite <- E, Hmk. by rewrite <- app_assoc.
Qed.

Lemma parse_sound fuel : ∀ ts v rest,
  (parse_expr lookup fuel ts = Some (Ok (v, rest)) →
     ∃ x, ts = expr_tokens x ++ rest ∧ expr_value x = Ok v) ∧
  (∀ a x, expr_loop lookup fuel a ts = Some (Ok (v, rest)) → expr_value x = Ok a →
     ∃ y, expr_tokens x ++ ts = expr_tokens y ++ rest ∧ expr_value y = Ok v) ∧
  (parse_term lookup fuel ts = Some (Ok (v, rest)) →
     ∃ x, ts = term_tokens x ++ rest ∧ term_value x = Ok v) ∧
  (∀ a x, term_loop lookup fuel a ts = Some (Ok (v, rest)) → term_value x = Ok a →
     ∃ y, term_tokens x ++ ts = term_tokens y ++ rest ∧ term_value y = Ok v) ∧
  (parse_factor lookup fuel ts = Some (Ok (v, rest)) →
     ∃ x, ts = factor_tokens x ++ rest ∧ factor_value x = Ok v).
Proof.
  induction fuel as [|f IH]; intros ts v rest; [done|].
  pose proof (λ ts v rest, proj1 (IH ts v rest)) as IHe.
  pose proof (λ ts v rest, proj1 (proj2 (IH ts v rest))) as IHel.
  pose proof (λ ts v rest, proj1 (proj2 (proj2 (IH ts v rest)))) as IHt.
  pose proof (λ ts v rest, proj1 (proj2 (proj2 (proj2 (IH ts v rest))))) as IHtl.
  pose proof (λ ts v rest, proj2 (proj2 (proj2 (proj2 (IH ts v rest))))) as IHf. clear IH.
  split_and!.
  - rewrite parse_expr_S. intros (w & ts1 & (t & -> & Ht)%IHt & H2)%pbind_Ok.
    by apply (IHel _ _ _ w (Term t)) in H2.
  - intros a x. rewrite expr_loop_S.
    destruct ts as [|[| |[]| |] ts']; try (by intros [= -> <-] Hx; exists x);
      [by apply (expr_loop_op _ _ _ _ _ Plus f64_add Add)|by apply (expr_loop_op _ _ _ _ _ Minus f64_sub Sub)].
  - rewrite parse_term_S. intros (w & ts1 & (t & -> & Ht)%IHf & H2)%pbind_Ok.
    by apply (IHtl _ _ _ w (Factor t)) in H2.
  - intros a x. rewrite term_loop_S.
    destruct ts as [|[| |[]| |] ts']; try (by intros [= -> <-] Hx; exists x);
      intros (w & ts1 & (t & -> & Ht)%IHf & H2)%pbind_Ok Hx.
    + apply (IHtl _ _ _ _ (Mul x t)) in H2 as (y & E & Hy); [|by cbn; rewrite Hx; cbn; rewrite Ht].
      exists y. split; [|done]. rewrite <- E. cbn. by rewrite <- app_assoc.
    + destruct (is_zero w) eqn:Z; [done|].
      apply (IHtl _ _ _ _ (Div x t)) in H2 as (y & E & Hy);
        [|by cbn; rewrite Hx; cbn; rewrite Ht; cbn; rewrite Z].
      exists y. split; [|done]. rewrite <- E. cbn. by rewrite <- app_assoc.
  - rewrite parse_factor_S. destruct ts as [|[n|r|[]| |] ts']; try done.
    + intros [= -> <-]. by exists (Num v).
    + destruct (resolve lookup r) as [w|] eqn:E; [|done]. intros [= -> <-]. by exists (Ref r).
    + intros (x & -> & Hx)%IHf. by exists (Pos x).
    + intros (w & ts1 & (x & -> & Hx)%IHf & [= <- <-])%pbind_Ok. exists (Neg x).
      split; [done|]. cbn. by rewrite Hx.
    + intros (w & ts1 & (x & -> & Hx)%IHe & H)%pbind_Ok.
      destruct ts1 as [|[] ts1]; try done. injection H as -> <-. exists (Paren x).
      split; [|done]. cbn. by rewrite <- app_assoc.
Qed.

Lemma evaluate_tokens_sound ts v :
  evaluate_tokens lookup ts = Some (Ok v) → ∃ x, ts = expr_tokens x ∧ expr_value x = Ok v.
Proof.
  unfold evaluate_tokens. destruct (parse_expr _ _ _) as [[[w [|]]|]|] eqn:E; try done.
  intros [= ->]. apply parse_sound in E as (x & -> & Hx). exists x. by rewrite app_nil_r.
Qed.

(** ** The lexer terminates *)

Lemma span_length p s : (length (span p s).2 <= length s)%nat.
Proof.
  induction s as [|c s IH]; cbn; [done|]. destruct (p c); cbn; [|done].
  destruct (span p s). cbn in *. lia.
Qed.

Lemma scan_number_length d s : (length (scan_number d s).2 <= length s)%nat.
Proof.
  revert d. induction s as [|c s IH]; intros d; cbn; [done|].
  destruct (is_ascii_digit c); [|destruct ((c =? 46) && negb d)]; cbn; try done.
  - specialize (IH d). destruct (scan_number d s). cbn in *. lia.
  - specialize (IH true). destruct (scan_number true s). cbn in *. lia.
Qed.

Lemma scan_number_progress s c :
  is_ascii_digit c || (c =? 46) = true → (length (scan_number false (c :: s)).2 <= length s)%nat.
Proof.
  cbn. destruct (is_ascii_digit c); cbn; [|intros ->; cbn].
  - intros _. pose proof (scan_number_length false s). by destruct (scan_number false s).
  - pose proof (scan_number_length true s). by destruct (scan_number true s).
Qed.

Lemma push_token_total t r : r ≠ None → push_token t r ≠ None.
Proof. by destruct r as [[]|]. Qed.

Lemma lex_loop_total fuel : ∀ s, (length s <= fuel)%nat → lex_loop fuel s ≠ None.
Proof.
  induction fuel as [|f IH]; intros [|c s] Hl; cbn in Hl; try done; [lia|].
  cbn [lex_loop]. destruct (is_blank c); [apply IH; lia|].
  destruct (op_of c); [apply push_token_total, IH; lia|].
  destruct (c =? 40); [apply push_token_total, IH; lia|].
  destruct (c =? 41); [apply push_token_total, IH; lia|].
  destruct (c =? 36).
  { pose proof (span_length (λ c, negb (ends_reference c)) s) as Hs. unfold scan_reference.
    destruct (span _ s) as [[|r0 r] rest]; [done|]. apply push_token_total, IH. cbn in Hs. lia. }
  destruct (is_ascii_digit c || (c =? 46)) eqn:D; [|done].
  pose proof (scan_number_progress s c D) as Hs. destruct (scan_number false (c :: s)) as [lit rest].
  destruct (parse_f64 lit); [|done]. apply push_token_total, IH. cbn in Hs. lia.
Qed.

(** The plus signs count for nothing: without them a derivation is one of the
    documented grammar, with the same value. *)
Theorem plus_signs_are_idle x :
  documented_expr (unsigned_expr x) = true ∧ expr_value (unsigned_expr x) = expr_value x.
Proof using Type.
  cut ((∀ x, documented_factor (unsigned_factor x) = true ∧ factor_value (unsigned_factor x) = factor_value x) ∧
    (∀ x, documented_term (unsigned_term x) = true ∧ term_value (unsigned_term x) = term_value x) ∧
    (∀ x, documented_expr (unsigned_expr x) = true ∧ expr_value (unsigned_expr x) = expr_value x)); [by intros (_ & _ & H)|].
  apply syntax_mind; cbn; try done; intros; destruct_and?;
    repeat match goal with H : _ = true |- _ => rewrite H | H : _ = _ |- _ => rewrite H end; done.
Qed.

(** C30. The evaluator always answers, accepts exactly the texts whose tokens the
    parser's grammar derives, which is the documented one with a plus sign
    allowed in front of any factor, and gives such a text the value or the
    error of its derivation: products bind tighter than sums, both associate
    to the left, and operands are evaluated from left to right. *)
Theorem evaluate_expression_grammar s :
  evaluate_expression lookup s ≠ None ∧
  (∀ v, evaluate_expression lookup s = Some (Ok v) ↔
     ∃ x, lex s = Some (Ok (expr_tokens x)) ∧ expr_value x = Ok v) ∧
  (∀ x, lex s = Some (Ok (expr_tokens x)) → evaluate_expression lookup s = Some (expr_value x)).
Proof.
  assert (C : ∀ x, lex s = Some (Ok (expr_tokens x)) →
    evaluate_expression lookup s = Some (expr_value x)).
  { intros x H. unfold evaluate_expression. rewrite H. apply evaluate_derivation. }
  split_and!; [| |done].
  - unfold evaluate_expression, lex. pose proof (lex_loop_total (length s) s (le_n _)) as T.
    destruct (lex_loop (length s) s) as [[ts|]|]; [|done|done]. apply evaluate_tokens_total.
  - intros v. split.
    + unfold evaluate_expression. destruct (lex s) as [[ts|]|]; [|done|done].
      intros (x & -> & Hx)%evaluate_tokens_sound. by exists x.
    + intros (x & Hl & Hx). by rewrite (C x Hl), Hx.
Qed.
End Semantics.

(** The documented grammar has no text that begins with a plus sign; the
    evaluator accepts some. *)
Lemma documented_head x : documented_expr x = true → head (expr_tokens x) ≠ Some (TOp Plus).
Proof.
  assert (App : ∀ (a b : list Token) t, a ≠ [] → head a ≠ Some t → head (a ++ b) ≠ Some t) by (by intros [|]).
  assert (Ne : (∀ x, factor_tokens x ≠ []) ∧ (∀ x, term_tokens x ≠ []) ∧ (∀ x, expr_tokens x ≠ [])).
  { apply syntax_mind; cbn; try done; intros; intros [? ?]%app_eq_nil; done. }
  destruct Ne as (_ & Nt & Ne).
  cut ((∀ x, documented_factor x = true → head (factor_tokens x) ≠ Some (TOp Plus)) ∧
    (∀ x, documented_term x = true → head (term_tokens x) ≠ Some (TOp Plus)) ∧
    (∀ x, documented_expr x = true → head (expr_tokens x) ≠ Some (TOp Plus))); [intros (_ & _ & H); apply H|].
  apply syntax_mind; cbn; try done; intros; repeat match goal with H : _ && _ = true |- _ => apply andb_true_iff in H as [? ?] end;
    apply App; auto.
Qed.

Example unary_plus_is_accepted :
  (∃ v, evaluate_expression (λ _, None) (str "+5") = Some (Ok v)) ∧
  ∀ x, documented_expr x = true → lex (str "+5") ≠ Some (Ok (expr_tokens x)).
Proof.
  split; [eexists; vm_compute; reflexivity|]. intros x Hx E. apply (documented_head x Hx).
  assert (El : lex (str "+5") = Some (Ok [TOp Plus; TNumber (f64_of_int 5)])) by (vm_compute; reflexivity).
  rewrite El in E. by injection E as <-.
Qed.

(** ** Rendered token sequences *)

(** A token as text: a number or a reference is its characters. *)
Inductive Lexeme :=
| LNumber (lit : text)
| LReference (r : text)
| LOp (c : Op)
| LLParen
| LRParen.

Definition op_char (o : Op) : Z :=
  match o with Plus => 43 | Minus => 45 | Times => 42 | Divide => 47 end.

Definition lexeme_text (l : Lexeme) : text :=
  match l with
  | LNumber lit => lit
  | LReference r => 36 :: r
  | LOp o => [op_char o]
  | LLParen => [40]
  | LRParen => [41]
  end.

Definition lexeme_token (l : Lexeme) : Token :=
  match l with
  | LNumber lit => TNumber (default (S754_zero false) (parse_f64 lit))
  | LReference r => TReference r
  | LOp o => TOp o
  | LLParen => TLParen
  | LRParen => TRParen
  end.

(** A literal is digits with at most one point and at least one digit; a
    reference is not empty and holds no character that would end it. *)
Definition wf_lexeme (l : Lexeme) : Prop :=
  match l with
  | LNumber lit =>
      scan_number false lit = (lit, []) ∧ is_Some (parse_f64 lit) ∧ lit ≠ [] ∧
      Forall (λ c, is_ascii_digit c = true ∨ c = 46) lit
  | LReference r => r ≠ [] ∧ Forall (λ c, ends_reference c = false) r
  | _ => True
  end.

(** Each token followed by a space. *)
Definition render (ls : list Lexeme) : text := flat_map (λ l, lexeme_text l ++ [32]) ls.

Lemma scan_number_stop s : ∀ d rest,
  scan_number d s = (s, []) → scan_number d (s ++ 32 :: rest) = (s, 32 :: rest).
Proof.
  induction s as [|c s IH]; intros d rest; cbn; [done|].
  destruct (is_ascii_digit c); [|destruct ((c =? 46) && negb d)].
  - destruct (scan_number d s) as [n r] eqn:E. intros [= -> ->]. by rewrite (IH d rest E).
  - destruct (scan_number true s) as [n r] eqn:E. intros [= -> ->]. by rewrite (IH true rest E).
  - done.
Qed.

Lemma span_stop p s rest :
  Forall (λ c, p c = true) s → p 32 = false → span p (s ++ 32 :: rest) = (s, 32 :: rest).
Proof.
  intros H Hp. induction H as [|c s Hc _ IH]; cbn; [by rewrite Hp|]. by rewrite Hc, IH.
Qed.

Lemma number_first c : is_ascii_digit c = true ∨ c = 46 →
  is_blank c = false ∧ op_of c = None ∧ (c =? 40) = false ∧ (c =? 41) = false ∧
  (c =? 36) = false ∧ is_ascii_digit c || (c =? 46) = true.
Proof.
  intros [H| ->]; [|done]. rewrite H. unfold is_ascii_digit in H.
  apply andb_true_iff in H as [H1%Z.leb_le H2%Z.leb_le].
  assert (c = 48 ∨ c = 49 ∨ c = 50 ∨ c = 51 ∨ c = 52 ∨ c = 53 ∨ c = 54 ∨ c = 55 ∨ c = 56 ∨ c = 57)
    as D by lia.
  repeat (destruct D as [->|D]; [done|]). by subst.
Qed.

Lemma lex_loop_lexeme fuel l s :
  wf_lexeme l → (length (lexeme_text l ++ 32%Z :: s) <= fuel)%nat →
  ∃ fuel', (length s <= fuel')%nat ∧
    lex_loop fuel (lexeme_text l ++ 32 :: s) = push_token (lexeme_token l) (lex_loop fuel' s).
Proof.
  intros Hw Hl. rewrite length_app in Hl. cbn [length] in Hl.
  assert (B : ∀ f, lex_loop (S f) (32 :: s) = lex_loop f s) by done.
  destruct l as [lit|r|o| |]; cbn [lexeme_text lexeme_token length] in *.
  - destruct Hw as (Hs & [n Hn] & Hne & Hc). destruct lit as [|c lit]; [done|]. cbn in Hl.
    destruct fuel as [|[|f]]; [lia|lia|]. exists f. split; [lia|].
    apply Forall_cons in Hc as [Hc _]. apply number_first in Hc as (E1 & E2 & E3 & E4 & E5 & E6).
    cbn [app]. cbn [lex_loop]. rewrite E1, E2, E3, E4, E5, E6.
    pose proof (scan_number_stop _ _ s Hs) as E. cbn [app] in E. rewrite E, Hn. cbn. done.
  - destruct Hw as [Hne Hc]. destruct r as [|c r]; [done|]. cbn in Hl.
    destruct fuel as [|[|f]]; [lia|lia|]. exists f. split; [lia|].
    pose proof (span_stop (λ c, negb (ends_reference c)) (c :: r) s) as E.
    cbn [lex_loop app]. cbn [is_blank op_of Z.eqb Pos.eqb orb].
    unfold scan_reference. cbn [app] in E. rewrite E; [done| |done].
    eapply Forall_impl; [exact Hc|]. by intros x ->.
  - destruct fuel as [|[|f]]; [lia|lia|]. exists f. split; [lia|]. by destruct o.
  - destruct fuel as [|[|f]]; [lia|lia|]. exists f. split; [lia|]. done.
  - destruct fuel as [|[|f]]; [lia|lia|]. exists f. split; [lia|]. done.
Qed.

Lemma lex_loop_render ls : ∀ fuel, Forall wf_lexeme ls → (length (render ls) <= fuel)%nat →
  lex_loop fuel (render ls) = Some (Ok (lexeme_token <$> ls)).
Proof.
  induction ls as [|l ls IH]; intros fuel Hw Hl; [by destruct fuel|].
  apply Forall_cons in Hw as [Hw Hws].
  assert (R : render (l :: ls) = lexeme_text l ++ 32 :: render ls)
    by (unfold render; cbn; by rewrite <- app_assoc).
  rewrite R in *. destruct (lex_loop_lexeme fuel l (render ls) Hw Hl) as (f & Hf & ->).
  rewrite IH by done. done.
Qed.

(** Writing the tokens of a derivation with spaces between them and evaluating
    the text gives the value of the derivation. *)
Theorem render_evaluate lookup ls x :
  Forall wf_lexeme ls → lexeme_token <$> ls = expr_tokens x →
  evaluate_expression lookup (render ls) = Some (expr_value lookup x).
Proof.
  intros Hw E. unfold evaluate_expression, lex. rewrite lex_loop_render, E by done. apply evaluate_derivation.
Qed.

(** [2 + 3 * 4 - 8 / 2 ] *)
Definition sample_lexemes : list Lexeme :=
  [LNumber (str "2"); LOp Plus; LNumber (str "3"); LOp Times; LNumber (str "4");
   LOp Minus; LNumber (str "8.0"); LOp Divide; LNumber (str "2")].

Definition sample_num (s : string) : factor := Num (default (S754_zero false) (parse_f64 (str s))).

Definition sample_expr : expr :=
  Sub (Add (Term (Factor (sample_num "2"))) (Mul (Factor (sample_num "3")) (sample_num "4")))
      (Div (Factor (sample_num "8.0")) (sample_num "2")).

Lemma render_evaluate_witness :
  evaluate_expression (λ _, None) (str "2 + 3 * 4 - 8.0 / 2 ") = Some (Ok (f64_of_int 10)).
Proof.
  apply (render_evaluate (λ _, None) sample_lexemes sample_expr).
  - unfold sample_lexemes.
    repeat (apply Forall_cons; split;
      [first [exact I|split; [reflexivity|split; [eexists; vm_compute; reflexivity|split; [discriminate|]]];
              repeat (apply Forall_cons; split; [first [left; reflexivity|right; reflexivity]|]);
              apply Forall_nil; exact I]|]).
    apply Forall_nil. exact I.
  - vm_compute. reflexivity.
Defined.

(** ** The table of expressions *)

Module ExpressionEngine.

Record Expression := mkExpression {
  owner : text;
  ename : text;
  expression : text;
  enabled : bool
}.

Definition new_expression (o n e : text) : Expression := mkExpression o n e true.

Definition EXP_ENTRY : Oid := [1; 3; 6; 1; 2; 1; 90; 1; 2; 1; 1].
Definition COL_EXP_VALUE : Z := 2.

(** [self_query] is what the self-query handler, when there is one, answers to
    a GET now; it belongs to the environment. *)
Record state := mkState {
  expressions : gmap text Expression;
  self_query : option (Oid → option Value)
}.

Definition exp_key (o n : text) : text := name_key o n.

Definition new (q : option (Oid → option Value)) : state := mkState ∅ q.

Definition set_self_query (q : Oid → option Value) : St state unit := fun s =>
  (tt, mkState (expressions s) (Some q)).

Definition add_expression (e : Expression) : St state unit := fun s =>
  (tt, mkState (<[exp_key (owner e) (ename e) := e]> (expressions s)) (self_query s)).

Definition remove_expression (o n : text) : St state (option Expression) := fun s =>
  (expressions s !! exp_key o n,
   mkState (delete (exp_key o n) (expressions s)) (self_query s)).

(** The numeric values, [as f64]. *)
Definition numeric (v : Value) : option f64 :=
  match v with
  | VInteger x | VCounter32 x | VGauge32 x | VCounter64 x | VTimeTicks x => Some (f64_of_int x)
  | _ => None
  end.

Definition query (s : state) (o : Oid) : option f64 :=
  let! q := self_query s in let! v := q o in numeric v.

Definition evaluate (s : state) (o n : text) : option (result f64 ExprError) :=
  match expressions s !! exp_key o n with
  | None => Some (Err (UnresolvedReference (o ++ str "/" ++ n)))
  | Some e =>
      if negb (enabled e) then Some (Err (UnresolvedReference (o ++ str "/" ++ n ++ str " disabled")))
      else evaluate_expression (query s) (expression e)
  end.

Definition cell_oid (e : Expression) : Oid :=
  instance_oid EXP_ENTRY COL_EXP_VALUE (name_index (owner e) (ename e)).

(** One cell per expression that evaluates, sorted by OID. *)
Definition cell_of (s : state) (e : Expression) : option (Oid * Value) :=
  match evaluate s (owner e) (ename e) with
  | Some (Ok v) => Some (cell_oid e, VInteger (f64_to_i64 v))
  | _ => None
  end.

Definition cells_of (s : state) : cells :=
  sort_cells (omap (cell_of s) (map_to_list (expressions s)).*2).

Definition get : Oid → St state (option Value) := table_get cells_of.

Definition get_next : Oid → St state (option Reading) := table_get_next cells_of.

Definition handler : MibHandler state := table_handler EXP_ENTRY cells_of.

(** ** The handler keeps the registry's contract *)

(** Rows are filed under their own names. *)
Definition inv (s : state) : Prop := filed owner ename (expressions s).

Lemma cell_oid_app e : cell_oid e = EXP_ENTRY ++ COL_EXP_VALUE :: row_index owner ename e.
Proof. apply instance_oid_app. Qed.

Lemma cell_oid_inj s k k' e e' :
  inv s → expressions s !! k = Some e → expressions s !! k' = Some e' →
  cell_oid e = cell_oid e' → k = k'.
Proof.
  intros Hi He He'. rewrite !cell_oid_app. intros E%app_inv_head. injection E as E.
  by eapply filed_index_inj.
Qed.

Lemma elem_of_cells o v s :
  (o, v) ∈ cells_of s ↔ ∃ k e x, expressions s !! k = Some e ∧ o = cell_oid e ∧
    evaluate s (owner e) (ename e) = Some (Ok x) ∧ v = VInteger (f64_to_i64 x).
Proof.
  unfold cells_of. rewrite sort_cells_perm, list_elem_of_omap. split.
  - intros (e & ([k e'] & -> & Hk)%list_elem_of_fmap & Hc).
    apply elem_of_map_to_list in Hk. unfold cell_of in Hc. cbn in *.
    destruct (evaluate s _ _) as [[x|]|] eqn:E; try done. injection Hc as <- <-.
    by exists k, e', x.
  - intros (k & e & x & Hk & -> & Hx & ->). exists e. split.
    + apply list_elem_of_fmap. exists (k, e). split; [done|]. by apply elem_of_map_to_list.
    + unfold cell_of. by rewrite Hx.
Qed.

Lemma cells_strict s : inv s → strictly_sorted (cells_of s).
Proof.
  intros Hi. apply sort_cells_strict.
  assert (H : ∀ l : list (text * Expression), NoDup (l.*1) →
    (∀ k e, (k, e) ∈ l → expressions s !! k = Some e) →
    NoDup ((omap (cell_of s) (l.*2)).*1)).
  { intros l. induction l as [|[k e] l IH]; intros Hd Hl; [constructor|].
    apply NoDup_cons in Hd as [Hn Hd]. cbn.
    assert (Hl' : ∀ k e, (k, e) ∈ l → expressions s !! k = Some e) by (intros; apply Hl; by right).
    destruct (cell_of s e) as [c|] eqn:E; [|by apply IH]. cbn. apply NoDup_cons.
    split; [|by apply IH]. intros ([o v] & Ec & Hc)%list_elem_of_fmap. apply Hn.
    apply list_elem_of_omap in Hc as (e' & ([k' e''] & -> & Hk')%list_elem_of_fmap & E').
    cbn in *. assert (He : expressions s !! k = Some e) by (apply Hl; by left).
    apply Hl' in Hk' as He'. apply list_elem_of_fmap. exists (k', e''). split; [|done]. cbn.
    unfold cell_of in E, E'.
    destruct (evaluate s (owner e) _) as [[]|]; try done. injection E as <-. cbn in Ec.
    destruct (evaluate s (owner e'') _) as [[]|]; try done. injection E' as <- <-.
    by eapply (cell_oid_inj s k k'). }
  apply H; [apply NoDup_fst_map_to_list|]. intros k e. apply elem_of_map_to_list.
Qed.

#[export] Instance readable : ReadableHandler inv eq handler cells_of.
Proof.
  apply table_readable; [apply cells_strict|].
  intros s [o v] (k & e & x & _ & -> & _)%elem_of_cells. cbn [fst].
  apply Oid.is_prefix_of_spec. eexists. apply cell_oid_app.
Qed.

(** Under its invariant, the table answers a GET with the truncated value of
    the enabled expression the OID names, and nothing for a row that is
    disabled, missing or whose expression fails. *)
Theorem expression_get s e :
  inv s → expressions s !! exp_key (owner e) (ename e) = Some e →
  (get (cell_oid e) s).1 =
    if enabled e then
      match evaluate_expression (query s) (expression e) with
      | Some (Ok v) => Some (VInteger (f64_to_i64 v))
      | _ => None
      end
    else None.
Proof.
  intros Hi He. cbn.
  assert (Ev : evaluate s (owner e) (ename e) =
    if enabled e then evaluate_expression (query s) (expression e)
    else Some (Err (UnresolvedReference (owner e ++ str "/" ++ ename e ++ str " disabled")))).
  { unfold evaluate. rewrite He. by destruct (enabled e). }
  apply option_eq. intros v. rewrite lookup_cell_Some by by apply cells_strict.
  rewrite elem_of_cells. split.
  - intros (k & e' & x & He' & Ho & Hx & ->).
    assert (E : exp_key (owner e) (ename e) = k) by by eapply (cell_oid_inj s).
    rewrite <- E, He in He'. injection He' as <-.
    rewrite Ev in Hx. destruct (enabled e); [by rewrite Hx|done].
  - destruct (enabled e); [|done].
    destruct (evaluate_expression _ _) as [[x|]|] eqn:Ex; try done. intros [= <-].
    by exists (exp_key (owner e) (ename e)), e, x.
Qed.

(** Rows are added and removed under the invariant. *)
Lemma add_expression_inv e s :
  is_text (owner e) → is_text (ename e) → inv s → inv (add_expression e s).2.
Proof. intros Ho Hn Hi. by apply filed_insert. Qed.

Lemma remove_expression_inv o n s : inv s → inv (remove_expression o n s).2.
Proof. intros Hi. by apply filed_delete. Qed.

Definition sample : Expression := new_expression (str "o") (str "e") (str "$1.3.0 * 8").
Definition sample_state : state :=
  (add_expression sample (new (Some (λ o, if Oid.eqb o [1; 3; 0] then Some (VGauge32 5) else None)))).2.

Lemma expression_get_witness :
  (get (cell_oid sample) sample_state).1 = Some (VInteger 40).
Proof.
  rewrite (expression_get sample_state sample).
  - vm_compute. reflexivity.
  - apply add_expression_inv; [apply (bool_decide_eq_true _); vm_compute; reflexivity..|].
    intros k e H. cbn in H. rewrite lookup_empty in H. discriminate H.
  - reflexivity.
Defined.

End ExpressionEngine.
