(* ===== verification/DismanEvent.v ===== *)
(** * Event triggers ([crates/netsnmp-agent/src/disman/event.rs])

    Trigger evaluation with its per-trigger memory, the poll cycle that samples
    every trigger through the self-query handler and fires the linked events,
    and the read-only tables. The alarm that calls [poll_once] is the
    environment, and so is the order in which a [HashMap] is iterated: it is a
    parameter. *)

From Stdlib Require Import ZArith Lia.
From stdpp Require Import gmap.
From S2P Require Import Prelude MachineInts Text Oid Value Pdu Cells Handler.
From S2P Require Import Scalar Registry Helpers Row.

Module DismanEvent.

(** ** Data *)

Inductive BoolComparison := Equal | Unequal | Less | LessOrEqual | Greater | GreaterOrEqual.

Definition comparison_from_u8 (v : Z) : option BoolComparison :=
  match v with
  | 1 => Some Equal
  | 2 => Some Unequal
  | 3 => Some Less
  | 4 => Some LessOrEqual
  | 5 => Some Greater
  | 6 => Some GreaterOrEqual
  | _ => None
  end.

Definition comparison_code (c : BoolComparison) : Z :=
  match c with
  | Equal => 1 | Unequal => 2 | Less => 3 | LessOrEqual => 4 | Greater => 5 | GreaterOrEqual => 6
  end.

(** [BoolComparison::evaluate]. *)
Definition compare_sample (c : BoolComparison) (sample reference : Z) : bool :=
  match c with
  | Equal => sample =? reference
  | Unequal => negb (sample =? reference)
  | Less => sample <? reference
  | LessOrEqual => sample <=? reference
  | Greater => reference <? sample
  | GreaterOrEqual => reference <=? sample
  end.

Inductive TriggerType :=
| Existence
| Boolean (code : Z)
| Threshold
| DeltaThreshold.

Inductive EventAction :=
| Notification (oid : Oid)
| SetAction (oid : Oid) (value : Value)
| NoAction.

(** [frequency] in milliseconds. *)
Record Trigger := mkTrigger {
  t_owner : text;
  t_name : text;
  target : Oid;
  target_instance : list Z;
  frequency : Z;
  test : TriggerType;
  boolean_comparison : BoolComparison;
  boolean_value : Z;
  rising_threshold : Z;
  falling_threshold : Z;
  t_enabled : bool;
  event_links : list text;
  last_sample : option Z;
  existence_fired : bool
}.

Record Event := mkEvent {
  e_owner : text;
  e_name : text;
  action : EventAction;
  e_enabled : bool
}.

Record MteObject := mkObject {
  o_owner : text;
  o_name : text;
  o_id : Z;
  o_oid : Oid;
  wildcard : bool
}.

Definition sampled_oid (t : Trigger) : Oid := target t ++ target_instance t.

(** ** Constructors *)

Definition new_trigger (o n : text) (tgt : Oid) (ty : TriggerType) : Trigger :=
  mkTrigger o n tgt [] 60000 ty Greater 0 0 0 true [] None false.

Definition existence (o n : text) (tgt : Oid) : Trigger := new_trigger o n tgt Existence.

Definition boolean (o n : text) (tgt : Oid) (cmp : BoolComparison) (v : Z) : Trigger :=
  mkTrigger o n tgt [] 60000 (Boolean (comparison_code cmp)) cmp v 0 0 true [] None false.

Definition threshold (o n : text) (tgt : Oid) (rising falling : Z) : Trigger :=
  mkTrigger o n tgt [] 60000 Threshold Greater 0 rising falling true [] None false.

(** The two fields an evaluation writes. *)
Definition remember (t : Trigger) (s : option Z) (fired : bool) : Trigger :=
  mkTrigger (t_owner t) (t_name t) (target t) (target_instance t) (frequency t) (test t)
    (boolean_comparison t) (boolean_value t) (rising_threshold t) (falling_threshold t)
    (t_enabled t) (event_links t) s fired.

(** ** Evaluation *)

Inductive Reason := RExistence | RBoolean | RRising | RFalling | RDeltaRising | RDeltaFalling.

(** The new trigger and the reason it fires. The difference of two samples is
    an [i64] subtraction, which wraps. *)
Definition evaluate (t : Trigger) (sample : option Z) : Trigger * option Reason :=
  match test t with
  | Existence =>
      if bool_decide (is_Some sample) && negb (existence_fired t)
      then (remember t sample true, Some RExistence)
      else (t, None)
  | Boolean code =>
      match sample with
      | None => (t, None)
      | Some s =>
          let cmp := default (boolean_comparison t) (comparison_from_u8 code) in
          (remember t (Some s) (existence_fired t),
           if compare_sample cmp s (boolean_value t) then Some RBoolean else None)
      end
  | Threshold =>
      match sample with
      | None => (t, None)
      | Some s =>
          (remember t (Some s) (existence_fired t),
           match last_sample t with
           | None => None
           | Some p =>
               if (rising_threshold t <=? s) && (p <? rising_threshold t) then Some RRising
               else if (s <=? falling_threshold t) && (falling_threshold t <? p)
               then Some RFalling
               else None
           end)
      end
  | DeltaThreshold =>
      match sample with
      | None => (t, None)
      | Some s =>
          (remember t (Some s) (existence_fired t),
           match last_sample t with
           | None => None
           | Some p =>
               let delta := as_i64 (s - p) in
               if rising_threshold t <=? delta then Some RDeltaRising
               else if delta <=? falling_threshold t then Some RDeltaFalling
               else None
           end)
      end
  end.

Definition value_to_i64 (v : Value) : option Z :=
  match v with
  | VInteger x | VCounter32 x | VGauge32 x | VTimeTicks x => Some x
  | VCounter64 x => Some (as_i64 x)
  | _ => None
  end.

(** ** The engine *)

Record state := mkState {
  triggers : gmap text Trigger;
  events : gmap text Event;
  objects : gmap text (list MteObject)
}.

Definition new : state := mkState ∅ ∅ ∅.

Definition add_trigger (t : Trigger) (s : state) : state :=
  mkState (<[name_key (t_owner t) (t_name t) := t]> (triggers s)) (events s) (objects s).

Definition remove_trigger (o n : text) (s : state) : option Trigger * state :=
  (triggers s !! name_key o n,
   mkState (delete (name_key o n) (triggers s)) (events s) (objects s)).

Definition add_event (e : Event) (s : state) : state :=
  mkState (triggers s) (<[name_key (e_owner e) (e_name e) := e]> (events s)) (objects s).

Definition add_object (o : MteObject) (s : state) : state :=
  let k := name_key (o_owner o) (o_name o) in
  mkState (triggers s) (events s) (<[k := default [] (objects s !! k) ++ [o]]> (objects s)).

Section Polling.
Context {W : Type}.
(** The handler behind [self_query], if one was set; whether a notification
    originator is configured; and the order of [events.values()]. *)
Context (self_query : option (MibHandler W)) (originator : bool)
  (values : gmap text Event → list Event).

(** What a poll changes: the triggers, the handler's world and the
    notifications handed to the originator. *)
Record world := mkWorld {
  engine : state;
  mib : W;
  sent : list (Oid * list VarBind)
}.

Definition sample (o : Oid) : St world (option Z) := fun w =>
  match self_query with
  | None => (None, w)
  | Some h =>
      let '(v, m) := get h o (mib w) in
      (v ≫= value_to_i64, mkWorld (engine w) m (sent w))
  end.

Definition put_trigger (k : text) (t : Trigger) : St world unit := fun w =>
  (tt, mkWorld (mkState (<[k := t]> (triggers (engine w))) (events (engine w))
                  (objects (engine w))) (mib w) (sent w)).

Definition object_oid (t : Trigger) (o : MteObject) : Oid :=
  if wildcard o then o_oid o ++ target_instance t else o_oid o.

Fixpoint attach (t : Trigger) (rows : list MteObject) : St world (list VarBind) :=
  match rows with
  | [] => sret []
  | o :: rows' =>
      let* v := sample (object_oid t o) in
      let* rest := attach t rows' in
      sret (match v with
            | Some v => mkVarBind (object_oid t o) (VInteger v) :: rest
            | None => rest
            end)
  end.

(** [sort_by_key(|o| o.id)] is stable. *)
Definition collect_objects (o n : text) (t : Trigger) : St world (list VarBind) := fun w =>
  attach t (sort_by (fun a b => o_id a <=? o_id b)
              (default [] (objects (engine w) !! name_key o n))) w.

Definition execute_action (a : EventAction) (attached : list VarBind) : St world unit := fun w =>
  match a with
  | Notification oid =>
      (tt, if originator then mkWorld (engine w) (mib w) (sent w ++ [(oid, attached)]) else w)
  | SetAction oid v =>
      match self_query with
      | Some h => (tt, mkWorld (engine w) (commit_set h oid v (mib w)).2 (sent w))
      | None => (tt, w)
      end
  | NoAction => (tt, w)
  end.

Definition linked_event (t : Trigger) (link : text) (evs : gmap text Event) : option Event :=
  match evs !! name_key (t_owner t) link with
  | Some e => Some e
  | None =>
      match evs !! name_key [] link with
      | Some e => Some e
      | None => find (fun e => bool_decide (e_name e = link)) (values evs)
      end
  end.

Fixpoint fire_links (t : Trigger) (links : list text) : St world unit := fun w =>
  match links with
  | [] => (tt, w)
  | link :: links' =>
      match linked_event t link (events (engine w)) with
      | Some e =>
          if e_enabled e then
            (let* attached := collect_objects (e_owner e) (e_name e) t in
             let* _ := execute_action (action e) attached in
             fire_links t links') w
          else fire_links t links' w
      | None => fire_links t links' w
      end
  end.

Definition fire_events (t : Trigger) : St world unit := fire_links t (event_links t).

Fixpoint poll_loop (snapshot : list (text * Trigger)) : St world unit :=
  match snapshot with
  | [] => sret tt
  | (k, t) :: rest =>
      if negb (t_enabled t) then poll_loop rest
      else
        let* s := sample (sampled_oid t) in
        let '(t', fires) := evaluate t s in
        let* _ := put_trigger k t' in
        let* _ := match fires with Some _ => fire_events t' | None => sret tt end in
        poll_loop rest
  end.

(** One poll over the triggers in the iteration order [order]. *)
Definition poll_once (order : gmap text Trigger → list (text * Trigger)) : St world unit :=
  fun w => poll_loop (order (triggers (engine w))) w.
End Polling.

(** ** A trigger over a sequence of samples *)

Fixpoint observe (t : Trigger) (samples : list (option Z)) : list (option Reason) :=
  match samples with
  | [] => []
  | s :: samples' => let '(t', r) := evaluate t s in r :: observe t' samples'
  end.

(** The last sample that was read, or what the trigger remembered. *)
Fixpoint last_read (init : option Z) (samples : list (option Z)) : option Z :=
  match samples with
  | [] => init
  | Some s :: samples' => last_read (Some s) samples'
  | None :: samples' => last_read init samples'
  end.

(** The crossing from [p] to [s]. *)
Definition crossing (rising falling : Z) (p s : option Z) : option Reason :=
  match p, s with
  | Some p, Some s =>
      if (rising <=? s) && (p <? rising) then Some RRising
      else if (s <=? falling) && (falling <? p) then Some RFalling
      else None
  | _, _ => None
  end.

Lemma observe_length t samples : length (observe t samples) = length samples.
Proof.
  revert t. induction samples as [|s samples IH]; intros t; cbn; [done|].
  destruct (evaluate t s). cbn. by rewrite IH.
Qed.

Lemma observe_threshold t samples i s :
  test t = Threshold → samples !! i = Some s →
  observe t samples !! i =
    Some (crossing (rising_threshold t) (falling_threshold t)
            (last_read (last_sample t) (take i samples)) s).
Proof.
  intros Ht. revert t i Ht. induction samples as [|s0 samples IH]; intros t i Ht; [done|].
  cbn. unfold evaluate. rewrite Ht. destruct i as [|i]; cbn.
  - intros [= ->]. destruct s as [s|]; cbn; [by destruct (last_sample t)|by destruct (last_sample t)].
  - intros Hi. destruct s0 as [s0|]; cbn; by rewrite (IH _ i).
Qed.

Lemma last_read_app init l1 l2 : last_read init (l1 ++ l2) = last_read (last_read init l1) l2.
Proof. revert init. induction l1 as [|[s|] l1 IH]; intros init; cbn; [done|apply IH|apply IH]. Qed.

(** If the last value read after [l] is below [b] but it was not before, some
    sample of [l] is. *)
Lemma last_read_witness (b : Z) init l p :
  last_read init l = Some p → p < b → (∀ q, init = Some q → b <= q) →
  ∃ k x, l !! k = Some (Some x) ∧ x < b.
Proof.
  revert init. induction l as [|[s|] l IH]; intros init; cbn.
  - intros -> Hp H. specialize (H p eq_refl). lia.
  - intros Hl Hp _. destruct (Z.lt_ge_cases s b) as [L|G]; [by exists 0%nat, s|].
    destruct (IH _ Hl Hp) as (k & x & Hk & Hx); [by intros q [= <-]|]. by exists (S k), x.
  - intros Hl Hp Hi. destruct (IH _ Hl Hp Hi) as (k & x & Hk & Hx). by exists (S k), x.
Qed.

(** C33. A threshold trigger fires "rising" exactly at the samples at or above the
    rising threshold whose last value read was below it, and "falling" exactly
    at those at or below the falling threshold whose last value read was above
    it, unless they rise; failed reads change nothing. Between two rising
    firings some sample is below the threshold. *)
Theorem threshold_trace t samples :
  test t = Threshold →
  (∀ i s, samples !! i = Some s →
     observe t samples !! i =
       Some (crossing (rising_threshold t) (falling_threshold t)
               (last_read (last_sample t) (take i samples)) s)) ∧
  (∀ i j, (i < j)%nat → observe t samples !! i = Some (Some RRising) →
     observe t samples !! j = Some (Some RRising) →
     ∃ k x, (i < k < j)%nat ∧ samples !! k = Some (Some x) ∧ x < rising_threshold t).
Proof.
  intros Ht. split; [intros i s; by apply observe_threshold|].
  assert (R : ∀ i, observe t samples !! i = Some (Some RRising) →
    ∃ p s, last_read (last_sample t) (take i samples) = Some p ∧ samples !! i = Some (Some s) ∧
      p < rising_threshold t <= s).
  { intros i Hi. pose proof (lookup_lt_Some _ _ _ Hi) as Hl. rewrite observe_length in Hl.
    apply lookup_lt_is_Some in Hl as [s Hs]. rewrite (observe_threshold t samples i s Ht Hs) in Hi.
    injection Hi as Hc. unfold crossing in Hc.
    destruct (last_read _ _) as [p|], s as [s|]; try done.
    exists p, s. split_and!; try done; repeat case_match; try done; lia. }
  intros i j Hij Hi Hj. destruct (R i Hi) as (p0 & s & _ & Hs & Hsr).
  destruct (R j Hj) as (p & s1 & Hp & _ & Hpr).
  assert (E : take j samples = take (S i) samples ++ drop (S i) (take j samples)).
  { rewrite <- (take_drop (S i) (take j samples)) at 1. by rewrite take_take, Nat.min_l by lia. }
  rewrite E, last_read_app in Hp.
  rewrite (take_S_r _ _ _ Hs), last_read_app in Hp. cbn in Hp.
  destruct (last_read_witness (rising_threshold t) _ _ _ Hp) as (k & x & Hk & Hx);
    [lia|intros q Hq; injection Hq as Hq; lia|].
  rewrite lookup_drop in Hk. apply lookup_take_Some in Hk as [Hk Hlt].
  exists (S i + k)%nat, x. split_and!; [lia|lia|done|done].
Qed.

(** An existence trigger fires once: at the first sample that could be read. *)
Theorem existence_once t samples :
  test t = Existence → existence_fired t = false →
  ∀ i, observe t samples !! i = Some (Some RExistence) ↔
    ∃ x, samples !! i = Some (Some x) ∧ ∀ j, (j < i)%nat → samples !! j = Some None.
Proof.
  intros Ht.
  assert (F : ∀ samples t, test t = Existence → existence_fired t = true →
    ∀ i r, observe t samples !! i = Some r → r = None).
  { clear. intros samples. induction samples as [|s samples IH]; intros t Ht Hf i r; [done|].
    cbn. unfold evaluate. rewrite Ht, Hf. rewrite andb_false_r.
    destruct i as [|i]; cbn; [by intros [= <-]|by apply IH]. }
  revert t Ht. induction samples as [|s samples IH]; intros t Ht Hf i.
  { split; [done|by intros (? & ? & _)]. }
  cbn. unfold evaluate. rewrite Ht, Hf. destruct s as [s|]; cbn.
  - destruct i as [|i]; cbn.
    + split; [intros _; exists s; split; [done|lia]|done].
    + split.
      * by intros H%F.
      * intros (x & _ & H). by specialize (H 0%nat (Nat.lt_0_succ _)).
  - destruct i as [|i]; cbn.
    + split; [done|by intros (? & ? & _)].
    + rewrite (IH t Ht Hf). split; intros (x & Hx & H); exists x; split; try done.
      * intros [|j] Hj; [done|]. apply H. lia.
      * intros j Hj. apply (H (S j)). lia.
Qed.

(** ** One poll, whatever the iteration order *)

Section Poll.
Context {W : Type} {inv : W → Prop} {eqv : relation W} `{!ReadWorld inv eqv}.
Context (h : MibHandler W) (view : W → cells) `{!ReadableHandler inv eqv h view}.
Context (originator : bool) (values : gmap text Event → list Event).
Context (values_perm : ∀ evs, values evs ≡ₚ (map_to_list evs).*2).

(** The worlds differ only in what reads may change. *)
Definition quiet (w w' : world (W:=W)) : Prop :=
  engine w = engine w' ∧ eqv (mib w) (mib w') ∧ sent w = sent w'.

#[local] Instance quiet_world : ReadWorld (λ w, inv (mib w)) quiet.
Proof using All.
  split.
  - split.
    + intros w. by repeat split.
    + intros w w' (?&?&?). by repeat split.
    + intros w1 w2 w3 (?&?&?) (?&?&?). split_and!; [congruence|by transitivity (mib w2)|congruence].
  - intros w w' (_ & E & _). by apply inv_eqv.
Qed.

(** What a sample of [o] reads. *)
Definition reading (m : W) (o : Oid) : option Z := lookup_cell o (view m) ≫= value_to_i64.

Lemma reading_eqv m m' o : eqv m m' → reading m o = reading m' o.
Proof using All. intros E. unfold reading. by rewrite (view_proper m m' E). Qed.

Lemma sample_reads o :
  reads (λ w, inv (mib w)) quiet (sample (Some h) o) (λ w, reading (mib w) o).
Proof using All.
  split.
  - intros w w' (_ & E & _). by apply reading_eqv.
  - intros w Hi. unfold sample, reading. rewrite <- (get_view o (mib w) Hi).
    by destruct (get h o (mib w)).
  - intros w Hi. unfold sample. pose proof (get_frame o (mib w) Hi) as F.
    by destruct (get h o (mib w)).
Qed.

(** The varbinds attached for [t] in world [m]. *)
Definition attached_for (m : W) (t : Trigger) (rows : list MteObject) : list VarBind :=
  omap (λ o, (λ v, mkVarBind (object_oid t o) (VInteger v)) <$> reading m (object_oid t o)) rows.

Lemma attach_reads t rows :
  reads (λ w, inv (mib w)) quiet (attach (Some h) t rows) (λ w, attached_for (mib w) t rows).
Proof using All.
  induction rows as [|o rows IH].
  { by apply (reads_ext _ (λ _, [])); [|apply reads_ret]. }
  cbn [attach].
  set (add := λ (v : option Z) rest,
    match v with Some v => mkVarBind (object_oid t o) (VInteger v) :: rest | None => rest end).
  apply (reads_ext _ (λ w, add (reading (mib w) (object_oid t o)) (attached_for (mib w) t rows))).
  { intros w. cbn. by destruct (reading (mib w) (object_oid t o)). }
  apply (reads_bind _ _ _ (λ v w, add v (attached_for (mib w) t rows))); [apply sample_reads|].
  intros v. apply (reads_bind _ _ _ (λ rest _, add v rest)); [apply IH|].
  intros rest. apply reads_ret.
Qed.

(** The notifications a firing trigger sends in world [m]. *)
Definition link_note (m : W) (s : state) (t : Trigger) (link : text) : list (Oid * list VarBind) :=
  match linked_event values t link (events s) with
  | Some e =>
      match action e with
      | Notification oid =>
          if e_enabled e && originator
          then [(oid, attached_for m t (sort_by (fun a b => o_id a <=? o_id b)
                         (default [] (objects s !! name_key (e_owner e) (e_name e)))))]
          else []
      | _ => []
      end
  | None => []
  end.

Definition no_sets (s : state) : Prop :=
  ∀ k e o v, events s !! k = Some e → action e ≠ SetAction o v.

Lemma linked_event_in t link evs e :
  linked_event values t link evs = Some e → ∃ k, evs !! k = Some e.
Proof using All.
  unfold linked_event. destruct (evs !! name_key (t_owner t) link) eqn:E1; [intros [= <-]; eauto|].
  destruct (evs !! name_key [] link) eqn:E2; [intros [= <-]; eauto|].
  intros [H _]%List.find_some. apply list_elem_of_In in H. rewrite values_perm in H.
  apply list_elem_of_fmap in H as ([k e'] & -> & H%elem_of_map_to_list). eauto.
Qed.

(** The worlds of a poll: the notifications [ns] were sent since [w]. *)
Definition sends (ns : list (Oid * list VarBind)) (w w' : world (W:=W)) : Prop :=
  engine w' = engine w ∧ eqv (mib w') (mib w) ∧ sent w' = sent w ++ ns.

Lemma link_note_eqv m m' s t link : eqv m m' → link_note m s t link = link_note m' s t link.
Proof using All.
  intros E. unfold link_note. repeat case_match; try done. do 2 f_equal. unfold attached_for.
  apply list_omap_ext, Forall2_same_length_lookup_2; [done|]. intros i x y Hx Hy.
  assert (x = y) as -> by congruence. by rewrite (reading_eqv m m').
Qed.

Lemma fire_links_sends t links : ∀ w,
  inv (mib w) → no_sets (engine w) →
  sends (flat_map (link_note (mib w) (engine w) t) links) w
    (fire_links (Some h) originator values t links w).2.
Proof using All.
  induction links as [|link links IH]; intros w Hi Hs.
  { split_and!; cbn; [done|reflexivity|by rewrite app_nil_r]. }
  cbn [fire_links flat_map].
  assert (Done : ∀ w1, sends (link_note (mib w) (engine w) t link) w w1 →
    sends (link_note (mib w) (engine w) t link ++ flat_map (link_note (mib w) (engine w) t) links)
      w (fire_links (Some h) originator values t links w1).2).
  { intros w1 (E1 & E2 & E3). destruct (IH w1) as (F1 & F2 & F3);
      [by eapply inv_eqv|by rewrite E1|].
    split_and!; [congruence|by transitivity (mib w1)|]. rewrite F3, E3, E1, <- app_assoc.
    do 2 f_equal. apply flat_map_ext. intros l. by apply link_note_eqv. }
  assert (Quiet : link_note (mib w) (engine w) t link = [] →
    sends (link_note (mib w) (engine w) t link) w w).
  { intros ->. split_and!; [done|reflexivity|by rewrite app_nil_r]. }
  destruct (linked_event values t link (events (engine w))) as [e|] eqn:L.
  2: { apply Done, Quiet. unfold link_note. by rewrite L. }
  destruct (e_enabled e) eqn:En.
  2: { apply Done, Quiet. unfold link_note. rewrite L, En. by destruct (action e). }
  unfold sbind, collect_objects.
  pose proof (attach_reads t (sort_by (fun a b => o_id a <=? o_id b)
    (default [] (objects (engine w) !! name_key (e_owner e) (e_name e))))) as A.
  pose proof (reads_val _ _ _ _ A w Hi) as V. pose proof (reads_frame _ _ _ _ A w Hi) as (G1 & G2 & G3).
  destruct (attach _ t _ w) as [vbs w1]. cbn in V, G1, G2, G3. subst vbs.
  unfold execute_action, link_note in *. rewrite L in *. rewrite En in *. cbn [andb] in *.
  destruct (action e) as [oid|oid v|] eqn:Ac; cbn.
  - apply Done. destruct originator; split_and!; cbn; rewrite ?G1, ?G3, ?app_nil_r; done.
  - destruct (linked_event_in _ _ _ _ L) as [k Hk]. by destruct (Hs k e oid v Hk).
  - apply Done. split_and!; rewrite ?app_nil_r; done.
Qed.

(** What a poll makes of one trigger, and what it sends for it. *)
Definition polled (m : W) (t : Trigger) : Trigger :=
  if t_enabled t then (evaluate t (reading m (sampled_oid t))).1 else t.

Definition trigger_notes (m : W) (s : state) (t : Trigger) : list (Oid * list VarBind) :=
  if t_enabled t then
    match (evaluate t (reading m (sampled_oid t))).2 with
    | Some _ => flat_map (link_note m s (polled m t)) (event_links (polled m t))
    | None => []
    end
  else [].

Lemma link_note_engine m s s' t link :
  events s = events s' → objects s = objects s' → link_note m s t link = link_note m s' t link.
Proof using All. intros E1 E2. unfold link_note. by rewrite E1, E2. Qed.

Lemma trigger_notes_eqv m m' s s' t :
  eqv m m' → events s = events s' → objects s = objects s' →
  trigger_notes m s t = trigger_notes m' s' t.
Proof using All.
  intros E E1 E2. unfold trigger_notes, polled. rewrite (reading_eqv m m' _ E).
  repeat case_match; try done. apply flat_map_ext. intros l.
  rewrite (link_note_eqv m m') by done. by apply link_note_engine.
Qed.

(** The body of the poll loop for an enabled trigger. *)
Definition visit (k : text) (t : Trigger) : St world unit :=
  let* s := sample (Some h) (sampled_oid t) in
  let '(t', fires) := evaluate t s in
  let* _ := put_trigger k t' in
  match fires with Some _ => fire_events (Some h) originator values t' | None => sret tt end.

Lemma poll_loop_cons k t l w :
  poll_loop (Some h) originator values ((k, t) :: l) w =
    poll_loop (Some h) originator values l (if t_enabled t then (visit k t w).2 else w).
Proof using Type.
  cbn [poll_loop]. destruct (t_enabled t); [|done]. unfold visit, sbind. cbn [negb].
  destruct (sample _ _ w) as [v w1]. destruct (evaluate t v) as [t' fires]. cbn.
  by destruct fires; [destruct (fire_events _ _ _ _ _)|].
Qed.

Lemma visit_spec k t w :
  inv (mib w) → no_sets (engine w) → t_enabled t = true →
  let w' := (visit k t w).2 in
  engine w' = mkState (<[k := polled (mib w) t]> (triggers (engine w))) (events (engine w))
                (objects (engine w)) ∧
  eqv (mib w') (mib w) ∧ sent w' = sent w ++ trigger_notes (mib w) (engine w) t.
Proof using All.
  intros Hi Hs En w'. subst w'. unfold visit, sbind, polled, trigger_notes. rewrite En.
  pose proof (sample_reads (sampled_oid t)) as A.
  pose proof (reads_val _ _ _ _ A w Hi) as V.
  pose proof (reads_frame _ _ _ _ A w Hi) as (G1 & G2 & G3).
  destruct (sample _ _ w) as [v w1]. cbn in V, G1, G2, G3. subst v.
  destruct (evaluate t (reading (mib w) (sampled_oid t))) as [t' fires] eqn:Ev. unfold put_trigger. cbn [fst snd].
  destruct fires as [r|].
  - unfold polled. rewrite En, Ev. cbn [fst]. unfold fire_events.
    match goal with |- context [fire_links _ _ _ _ _ ?w0] => set (w2 := w0) end.
    destruct (fire_links_sends t' (event_links t') w2) as (F1 & F2 & F3);
      [by eapply inv_eqv|intros k0 e o v; cbn; rewrite G1; by apply Hs|].
    split_and!; [by rewrite F1; cbn; rewrite G1|by transitivity (mib w1)|].
    rewrite F3. cbn [sent w2]. rewrite G3. f_equal. apply flat_map_ext. intros lk.
    rewrite (link_note_eqv (mib w2) (mib w)) by done.
    apply link_note_engine; cbn; by rewrite G1.
  - cbn. split_and!; [by rewrite G1|done|by rewrite G3, app_nil_r].
Qed.

Lemma poll_loop_spec l : ∀ w,
  inv (mib w) → no_sets (engine w) → NoDup (l.*1) →
  let w' := (poll_loop (Some h) originator values l w).2 in
  events (engine w') = events (engine w) ∧ objects (engine w') = objects (engine w) ∧
  eqv (mib w') (mib w) ∧
  (∀ k, triggers (engine w') !! k =
     match list_to_map (M:=gmap text Trigger) l !! k with
     | Some t => if t_enabled t then Some (polled (mib w) t) else triggers (engine w) !! k
     | None => triggers (engine w) !! k
     end) ∧
  sent w' = sent w ++ flat_map (λ kt, trigger_notes (mib w) (engine w) kt.2) l.
Proof using All.
  induction l as [|[k t] l IH]; intros w Hi Hs Hd; cbn zeta.
  { cbn. split_and!; [done|done|reflexivity|done|by rewrite app_nil_r]. }
  apply NoDup_cons in Hd as [Hn Hd]. rewrite poll_loop_cons. cbn [flat_map snd].
  assert (Hk : list_to_map (M:=gmap text Trigger) l !! k = None) by by apply not_elem_of_list_to_map_1.
  destruct (t_enabled t) eqn:En.
  2: { destruct (IH w Hi Hs Hd) as (H1 & H2 & H3 & H4 & H5). split_and!; [done|done|done| |].
       - intros k'. rewrite H4, list_to_map_cons. cbn.
         destruct (decide (k' = k)) as [->|Hne]; [by rewrite lookup_insert_eq, Hk, En|].
         by rewrite lookup_insert_ne.
       - rewrite H5. unfold trigger_notes at 2. by rewrite En. }
  destruct (visit_spec k t w Hi Hs En) as (K1 & K2 & K3).
  set (w3 := (visit k t w).2) in *.
  destruct (IH w3) as (H1 & H2 & H3 & H4 & H5);
    [by eapply inv_eqv|intros k0 e o v0; rewrite K1; by apply Hs|done|].
  rewrite K1 in H1, H2. split_and!; [done|done|by transitivity (mib w3)| |].
  - intros k'. rewrite H4, list_to_map_cons, K1. cbn.
    destruct (decide (k' = k)) as [->|Hne]; [by rewrite Hk, !lookup_insert_eq, En|].
    rewrite !lookup_insert_ne by done. destruct (list_to_map l !! k') as [t0|]; [|done].
    destruct (t_enabled t0) eqn:E0; [|done]. unfold polled. rewrite E0.
    by rewrite (reading_eqv (mib w3) (mib w)).
  - rewrite H5, K3, <- app_assoc. do 2 f_equal.
    apply flat_map_ext. intros [k0 t0]. apply trigger_notes_eqv; by rewrite ?K1.
Qed.

(** C31. A poll over a self-query handler that keeps its promises, with no SET among
    the events: whatever order the triggers are visited in, every enabled
    trigger is evaluated once, on the value its OID had when the poll started,
    and remembers it; disabled triggers, events and objects are untouched, and
    exactly the notifications of the triggers that fire are sent. *)
Theorem poll_once_parallel order w :
  inv (mib w) → no_sets (engine w) → order (triggers (engine w)) ≡ₚ map_to_list (triggers (engine w)) →
  let w' := (poll_once (Some h) originator values order w).2 in
  triggers (engine w') = polled (mib w) <$> triggers (engine w) ∧
  events (engine w') = events (engine w) ∧ objects (engine w') = objects (engine w) ∧
  eqv (mib w') (mib w) ∧
  ∃ ns, sent w' = sent w ++ ns ∧
    ns ≡ₚ flat_map (λ kt, trigger_notes (mib w) (engine w) kt.2) (map_to_list (triggers (engine w))).
Proof using All.
  intros Hi Hs Ho w'. unfold w', poll_once.
  destruct (poll_loop_spec (order (triggers (engine w))) w Hi Hs) as (H1 & H2 & H3 & H4 & H5).
  { rewrite Ho. apply NoDup_fst_map_to_list. }
  split_and!; [|done|done|done|].
  - apply map_eq. intros k. rewrite H4, lookup_fmap.
    rewrite (list_to_map_proper _ (map_to_list (triggers (engine w)))); [|rewrite Ho; apply NoDup_fst_map_to_list|done].
    rewrite list_to_map_to_list. unfold polled.
    destruct (triggers (engine w) !! k) as [t|]; [|done]. cbn. by destruct (t_enabled t).
  - eexists. split; [exact H5|]. by apply Permutation_flat_map.
Qed.
End Poll.

(** ** The tables *)

Definition MTE_TRIGGER_ENTRY : Oid := [1; 3; 6; 1; 2; 1; 88; 1; 2; 2; 1].
Definition MTE_EVENT_ENTRY : Oid := [1; 3; 6; 1; 2; 1; 88; 1; 4; 2; 1].
Definition MTE_OBJECTS_ENTRY : Oid := [1; 3; 6; 1; 2; 1; 88; 1; 3; 2; 1].

Definition flag (b : bool) : Value := VInteger (if b then 1 else 0).
Definition active : Value := VInteger (status_i64 Active).

Definition test_bits (t : TriggerType) : bytes :=
  match t with Existence => [1] | Boolean _ => [2] | Threshold | DeltaThreshold => [4] end.

Definition action_bits (a : EventAction) : bytes :=
  match a with Notification _ => [1] | SetAction _ _ => [2] | NoAction => [] end.

(** The cells pushed for one row, by column. *)
Definition trigger_columns (t : Trigger) : gmap Z Value := list_to_map
  [(2, VOctetString (as_bytes (t_name t)));
   (5, VOid (target t));
   (8, VGauge32 (as_u32 (frequency t / 1000)));
   (9, VOctetString (test_bits (test t)));
   (4, flag (t_enabled t));
   (18, VInteger (comparison_code (boolean_comparison t)));
   (19, VInteger (boolean_value t));
   (23, VInteger (rising_threshold t));
   (24, VInteger (falling_threshold t));
   (14, active)].

Definition event_columns (e : Event) : gmap Z Value := list_to_map
  [(2, VOctetString (as_bytes (e_name e)));
   (4, flag (e_enabled e));
   (5, VOctetString (action_bits (action e)));
   (8, VOid (match action e with Notification oid => oid | _ => Oid.null end));
   (11, VOid (match action e with SetAction oid _ => oid | _ => Oid.null end));
   (12, match action e with SetAction _ v => v | _ => VNull end);
   (10, active)].

Definition trigger_cells (s : state) : cells :=
  named_cells MTE_TRIGGER_ENTRY t_owner t_name trigger_columns (triggers s).

Definition event_cells (s : state) : cells :=
  named_cells MTE_EVENT_ENTRY e_owner e_name event_columns (events s).

Definition trigger_table : MibHandler state := table_handler MTE_TRIGGER_ENTRY trigger_cells.
Definition event_table : MibHandler state := table_handler MTE_EVENT_ENTRY event_cells.

#[export] Instance trigger_table_readable :
  ReadableHandler (λ s, filed t_owner t_name (triggers s)) eq trigger_table trigger_cells.
Proof. apply table_readable; [intros s; apply named_cells_strict|intros s; apply named_cells_under_root]. Qed.

#[export] Instance event_table_readable :
  ReadableHandler (λ s, filed e_owner e_name (events s)) eq event_table event_cells.
Proof. apply table_readable; [intros s; apply named_cells_strict|intros s; apply named_cells_under_root]. Qed.

(** An objects row is indexed by the key's two halves and its id; rows of one
    event may share an id, and then share their cells' OIDs. *)
Fixpoint split_once (s : text) : option (text * text) :=
  match s with
  | [] => None
  | c :: s' => if c =? 0 then Some ([], s')
               else match split_once s' with Some (a, b) => Some (c :: a, b) | None => None end
  end.

Definition object_columns (o : MteObject) : gmap Z Value := list_to_map
  [(4, VOid (o_oid o)); (5, flag (wildcard o)); (6, active)].

Definition object_cells (s : state) : cells :=
  sort_cells (flat_map (λ kr,
    let '(o, n) := default (kr.1, []) (split_once kr.1) in
    flatten MTE_OBJECTS_ENTRY
      ((λ x, (name_index o n ++ [0; o_id x], object_columns x)) <$> kr.2))
    (map_to_list (objects s))).

Definition objects_table : MibHandler state := table_handler MTE_OBJECTS_ENTRY object_cells.

(** ** A concrete engine: one threshold trigger on a scalar *)

Module Example.

Definition gauge : ScalarHandler.config := ScalarHandler.new [1; 3; 6; 1; 4; 1].
Definition t0 : Trigger :=
  mkTrigger (str "o") (str "t") [1; 3; 6; 1; 4; 1] [0] 1000 Threshold Greater 0 10 2 true
    [str "e"] (Some 4) false.
Definition e0 : Event := mkEvent (str "o") (str "e") (Notification [1; 3; 9]) true.
Definition o0 : MteObject := mkObject (str "o") (str "e") 1 [1; 3; 6; 1; 4; 1] true.
Definition s0 : state := add_object o0 (add_event e0 (add_trigger t0 new)).
Definition w0 : world := mkWorld s0 (VGauge32 12) [].

Definition values (m : gmap text Event) : list Event := (map_to_list m).*2.

End Example.

Lemma threshold_trace_witness :
  observe Example.t0 [Some 12; Some 15; Some 1; None; Some 11] =
    [Some RRising; None; Some RFalling; None; Some RRising] ∧
  ∃ k x, (0 < k < 4)%nat ∧ [Some 12; Some 15; Some 1; None; Some 11] !! k = Some (Some x) ∧ x < 10.
Proof.
  split; [reflexivity|].
  apply (proj2 (threshold_trace Example.t0 [Some 12; Some 15; Some 1; None; Some 11] eq_refl) 0%nat 4%nat);
    [lia|reflexivity|reflexivity].
Defined.

Lemma existence_once_witness :
  observe (existence [] [] []) [None; Some 3; Some 4] !! 1%nat = Some (Some RExistence).
Proof.
  apply (existence_once (existence [] [] []) [None; Some 3; Some 4] eq_refl eq_refl 1%nat).
  exists 3. split; [reflexivity|]. intros [|j] Hj; [reflexivity|lia].
Defined.

Lemma poll_once_parallel_witness :
  let w' := (poll_once (Some (ScalarHandler.handler Example.gauge)) true Example.values
               map_to_list Example.w0).2 in
  sent w' = [([1; 3; 9], [mkVarBind [1; 3; 6; 1; 4; 1; 0] (VInteger 12)])] ∧
  triggers (engine w') !! name_key (str "o") (str "t") = Some (remember Example.t0 (Some 12) false).
Proof.
  intros w'. split; [vm_compute; reflexivity|].
  assert (R : ReadWorld (λ _ : Value, True) eq) by (split; [typeclasses eauto|intros ? ? ->; exact (λ H, H)]).
  assert (H : ReadableHandler (λ _, True) eq (ScalarHandler.handler Example.gauge)
    (ScalarHandler.view Example.gauge)) by (apply ScalarHandler.readable; reflexivity).
  destruct (poll_once_parallel (ScalarHandler.handler Example.gauge) (ScalarHandler.view Example.gauge)
    true Example.values (λ m, Permutation_refl _) map_to_list Example.w0 I) as [E _].
  - intros k e o v Hk. cbn in Hk. apply lookup_insert_Some in Hk as [[_ Hk]|[_ Hk]].
    + subst e. discriminate.
    + rewrite lookup_empty in Hk. discriminate Hk.
  - reflexivity.
  - unfold w'. rewrite E. reflexivity.
Defined.

End DismanEvent.
