(* ===== verification/AgentxTypes.v ===== *)
(** * AgentX PDUs ([crates/netsnmp-agent/src/agentx/protocol.rs], data)

    Header, bodies, typed values, codes and error codes of RFC 2741 as the code
    declares them. Integers are [Z] with their width stated by [wf_*]. *)

From Stdlib Require Import ZArith Lia.
From S2P Require Import Prelude MachineInts Text Oid Value.

Definition VERSION : Z := 1.
Definition FLAG_NETWORK_BYTE_ORDER : Z := 4.
Definition FLAG_NON_DEFAULT_CONTEXT : Z := 8.
Definition FLAG_INSTANCE_REGISTERED : Z := 1.
Definition FLAG_NEW_INDEX : Z := 2.
Definition FLAG_ANY_INDEX : Z := 4.

Record AgentxHeader := mkHeader {
  version : Z;
  h_pdu_type : Z;
  flags : Z;
  session_id : Z;
  transaction_id : Z;
  packet_id : Z;
  payload_length : Z;
  h_timeout : Z
}.

Inductive PduType :=
| TOpen | TClose | TRegister | TUnregister | TGet | TGetNext | TGetBulk | TSet | TUndo
| TCleanup | TNotify | TPing | TIndexAllocate | TIndexDeallocate | TAddAgentCaps
| TRemoveAgentCaps | TResponse.

Inductive AgentxError :=
| NoError | OpenFailed | NotOpen | IndexWrongType | IndexAlreadyAllocated
| IndexNoneAllocated | IndexNotAllocated | UnsupportedContext | DuplicateRegistration
| UnknownRegistration | UnknownAgentCaps | ParseError | RequestDenied | ProcessingError
| Truncated | UnknownPduType | UnsupportedType.

Definition as_u8_type (t : PduType) : Z :=
  match t with
  | TOpen => 1 | TClose => 2 | TRegister => 3 | TUnregister => 4 | TGet => 5
  | TGetNext => 6 | TGetBulk => 7 | TSet => 8 | TUndo => 9 | TCleanup => 10
  | TNotify => 11 | TPing => 12 | TIndexAllocate => 13 | TIndexDeallocate => 14
  | TAddAgentCaps => 15 | TRemoveAgentCaps => 16 | TResponse => 18
  end.

Definition type_from_u8 (b : Z) : result PduType AgentxError :=
  match b with
  | 1 => Ok TOpen | 2 => Ok TClose | 3 => Ok TRegister | 4 => Ok TUnregister | 5 => Ok TGet
  | 6 => Ok TGetNext | 7 => Ok TGetBulk | 8 => Ok TSet | 9 => Ok TUndo | 10 => Ok TCleanup
  | 11 => Ok TNotify | 12 => Ok TPing | 13 => Ok TIndexAllocate | 14 => Ok TIndexDeallocate
  | 15 => Ok TAddAgentCaps | 16 => Ok TRemoveAgentCaps | 18 => Ok TResponse
  | _ => Err UnknownPduType
  end.

(** [error as u16] and [AgentxError::from_wire]. *)
Definition error_code (e : AgentxError) : Z :=
  match e with
  | NoError => 0 | OpenFailed => 256 | NotOpen => 257 | IndexWrongType => 258
  | IndexAlreadyAllocated => 259 | IndexNoneAllocated => 260 | IndexNotAllocated => 261
  | UnsupportedContext => 262 | DuplicateRegistration => 263 | UnknownRegistration => 264
  | UnknownAgentCaps => 265 | ParseError => 266 | RequestDenied => 267
  | ProcessingError => 268 | Truncated => 269 | UnknownPduType => 270 | UnsupportedType => 271
  end.

Definition from_wire (c : Z) : AgentxError :=
  match c with
  | 0 => NoError | 256 => OpenFailed | 257 => NotOpen | 258 => IndexWrongType
  | 259 => IndexAlreadyAllocated | 260 => IndexNoneAllocated | 261 => IndexNotAllocated
  | 262 => UnsupportedContext | 263 => DuplicateRegistration | 264 => UnknownRegistration
  | 265 => UnknownAgentCaps | 266 => ParseError | 267 => RequestDenied
  | 268 => ProcessingError | _ => ProcessingError
  end.

Inductive CloseReason := ROther | RParseError | RProtocolError | RTimeout | RShutdown.

Definition reason_code (r : CloseReason) : Z :=
  match r with ROther => 1 | RParseError => 2 | RProtocolError => 3 | RTimeout => 4 | RShutdown => 5 end.

Definition reason_from_u8 (b : Z) : CloseReason :=
  match b with 2 => RParseError | 3 => RProtocolError | 4 => RTimeout | 5 => RShutdown | _ => ROther end.

Inductive AgentxData :=
| DInteger (v : Z)
| DOctetString (b : bytes)
| DNull
| DOid (o : Oid)
| DIpAddress (ip : Ipv4Addr)
| DCounter32 (v : Z)
| DGauge32 (v : Z)
| DTimeTicks (v : Z)
| DOpaque (b : bytes)
| DCounter64 (v : Z).

(** [mod type_tag]. *)
Definition type_tag (d : AgentxData) : Z :=
  match d with
  | DInteger _ => 2 | DOctetString _ => 4 | DNull => 5 | DOid _ => 6 | DIpAddress _ => 64
  | DCounter32 _ => 65 | DGauge32 _ => 66 | DTimeTicks _ => 67 | DOpaque _ => 68
  | DCounter64 _ => 70
  end.

Record AgentxVarBind := mkAxVarBind { name : Oid; data : AgentxData }.

Record OpenBody := mkOpen { o_timeout : Z; o_id : Oid; o_descr : text }.
Record CloseBody := mkClose { reason : CloseReason }.
Record RegisterBody := mkRegister {
  r_timeout : Z; r_priority : Z; range_subid : Z; r_subtree : Oid; range_bound : Oid;
  r_context : option text
}.
(** [UnregisterBody] has the same fields. *)
Abbreviation UnregisterBody := RegisterBody.
Record SearchBody := mkSearch { s_context : option text; search_range : list (Oid * Oid) }.
Record BulkBody := mkBulk {
  b_context : option text; b_non_repeaters : Z; b_search_range : list (Oid * Oid);
  b_max_repetitions : Z
}.
(** [SetBody], [NotifyBody] and [IndexBody]: a context and varbinds. *)
Record VarBindsBody := mkVarBinds { v_context : option text; varbinds : list AgentxVarBind }.
Record PingBody := mkPing { p_context : option text }.
Record CapsBody := mkCaps { c_context : option text; c_id : Oid; c_descr : text }.
Record ResponseBody := mkResponse {
  sys_up_time : Z; error : Z; index : Z; resp_varbinds : list AgentxVarBind
}.

Inductive PduBody :=
| BOpen (b : OpenBody)
| BClose (b : CloseBody)
| BRegister (b : RegisterBody)
| BUnregister (b : UnregisterBody)
| BGet (b : SearchBody)
| BGetNext (b : SearchBody)
| BGetBulk (b : BulkBody)
| BSet (b : VarBindsBody)
| BUndo (b : VarBindsBody)
| BCleanup
| BNotify (b : VarBindsBody)
| BPing (b : PingBody)
| BIndexAllocate (b : VarBindsBody)
| BIndexDeallocate (b : VarBindsBody)
| BAddAgentCaps (b : CapsBody)
| BRemoveAgentCaps (b : CapsBody)
| BResponse (b : ResponseBody).

(** [PduBody::pdu_type]. *)
Definition body_type (b : PduBody) : PduType :=
  match b with
  | BOpen _ => TOpen | BClose _ => TClose | BRegister _ => TRegister
  | BUnregister _ => TUnregister | BGet _ => TGet | BGetNext _ => TGetNext
  | BGetBulk _ => TGetBulk | BSet _ => TSet | BUndo _ => TUndo | BCleanup => TCleanup
  | BNotify _ => TNotify | BPing _ => TPing | BIndexAllocate _ => TIndexAllocate
  | BIndexDeallocate _ => TIndexDeallocate | BAddAgentCaps _ => TAddAgentCaps
  | BRemoveAgentCaps _ => TRemoveAgentCaps | BResponse _ => TResponse
  end.

Record AgentxPdu := mkAgentxPdu { header : AgentxHeader; body : PduBody }.

Definition response_ok : PduBody := BResponse (mkResponse 0 (error_code NoError) 0 []).

(** ** Widths *)

Definition wf_header (h : AgentxHeader) : Prop :=
  is_u8 (version h) ∧ is_u8 (h_pdu_type h) ∧ is_u8 (flags h) ∧ is_u32 (session_id h) ∧
  is_u32 (transaction_id h) ∧ is_u32 (packet_id h) ∧ is_u32 (payload_length h).

Definition wf_data (d : AgentxData) : Prop :=
  match d with
  | DInteger v => is_i32 v
  | DOctetString b | DOpaque b => is_bytes b
  | DNull => True
  | DOid o => Oid.wf o
  | DIpAddress ip => is_ipv4 ip
  | DCounter32 v | DGauge32 v | DTimeTicks v => is_u32 v
  | DCounter64 v => is_u64 v
  end.

Definition wf_varbind (vb : AgentxVarBind) : Prop := Oid.wf (name vb) ∧ wf_data (data vb).
Definition wf_range (r : Oid * Oid) : Prop := Oid.wf r.1 ∧ Oid.wf r.2.
Definition wf_context (c : option text) : Prop :=
  match c with Some s => is_text s | None => True end.

Definition wf_register (r : RegisterBody) : Prop :=
  is_u8 (r_timeout r) ∧ is_u8 (r_priority r) ∧ is_u8 (range_subid r) ∧ Oid.wf (r_subtree r) ∧
  Oid.wf (range_bound r) ∧ wf_context (r_context r).

Definition wf_varbinds (b : VarBindsBody) : Prop :=
  wf_context (v_context b) ∧ Forall wf_varbind (varbinds b).

Definition wf_caps (c : CapsBody) : Prop :=
  wf_context (c_context c) ∧ Oid.wf (c_id c) ∧ is_text (c_descr c).

Definition wf_search (s : SearchBody) : Prop :=
  wf_context (s_context s) ∧ Forall wf_range (search_range s).

Definition wf_body (b : PduBody) : Prop :=
  match b with
  | BOpen o => is_u8 (o_timeout o) ∧ Oid.wf (o_id o) ∧ is_text (o_descr o)
  | BClose _ | BCleanup => True
  | BRegister r | BUnregister r => wf_register r
  | BGet s | BGetNext s => wf_search s
  | BGetBulk b => wf_context (b_context b) ∧ is_u16 (b_non_repeaters b) ∧
      is_u16 (b_max_repetitions b) ∧ Forall wf_range (b_search_range b)
  | BSet b | BUndo b | BNotify b | BIndexAllocate b | BIndexDeallocate b => wf_varbinds b
  | BPing p => wf_context (p_context p)
  | BAddAgentCaps c | BRemoveAgentCaps c => wf_caps c
  | BResponse r => is_u32 (sys_up_time r) ∧ is_u16 (error r) ∧ is_u16 (index r) ∧
      Forall wf_varbind (resp_varbinds r)
  end.

Definition wf_pdu (p : AgentxPdu) : Prop := wf_header (header p) ∧ wf_body (body p).

(** ** Codes *)

Lemma type_from_as_u8 t : type_from_u8 (as_u8_type t) = Ok t.
Proof. by destruct t. Qed.

Lemma reason_from_code r : reason_from_u8 (reason_code r) = r.
Proof. by destruct r. Qed.
