(* ===== verification/AgentxCodec.v ===== *)
(** * The AgentX wire codec ([crates/netsnmp-agent/src/agentx/protocol.rs])

    Encoders append to the buffer [out], as the code's [&mut Vec<u8>] does, and
    return [None] where the code panics (an index out of bounds); decoders take
    a slice and return the value with the rest, or the error. The
    [while !rest.is_empty()] loops run on fuel, [None] being fuel that ran out. *)

From Stdlib Require Import ZArith Lia.
From S2P Require Import Prelude MachineInts Text Oid Value AgentxTypes.

(** ** Header *)

Definition is_big_endian (h : AgentxHeader) : bool :=
  negb (Z.land (flags h) FLAG_NETWORK_BYTE_ORDER =? 0).

Definition encode_header (h : AgentxHeader) : bytes :=
  let big := is_big_endian h in
  [version h; h_pdu_type h; flags h; 0] ++ to_bytes big 4 (session_id h)
  ++ to_bytes big 4 (transaction_id h) ++ to_bytes big 4 (packet_id h)
  ++ to_bytes big 4 (payload_length h).

Definition slice (a b : nat) (bs : bytes) : bytes := take (b - a) (drop a bs).

Definition decode_header (bs : bytes) : result (AgentxHeader * bytes) AgentxError :=
  match bs with
  | v :: t :: f :: _ =>
      if (length bs <? 20)%nat then Err Truncated
      else
        let big := negb (Z.land f FLAG_NETWORK_BYTE_ORDER =? 0) in
        Ok (mkHeader v t f (from_bytes big (slice 4 8 bs)) (from_bytes big (slice 8 12 bs))
              (from_bytes big (slice 12 16 bs)) (from_bytes big (slice 16 20 bs)) 0,
            drop 20 bs)
  | _ => Err Truncated
  end.

(** ** Readers and writers *)

Definition write_u32 (out : bytes) (v : Z) (big : bool) : bytes := out ++ to_bytes big 4 v.
Definition write_u16 (out : bytes) (v : Z) (big : bool) : bytes := out ++ to_bytes big 2 v.

(** [while out.len() % 4 != 0 { out.push(0) }] *)
Fixpoint pad_loop (fuel : nat) (out : bytes) : bytes :=
  match fuel with
  | O => out
  | S fuel' => if (length out mod 4 =? 0)%nat then out else pad_loop fuel' (out ++ [0])
  end.
Definition pad4 (out : bytes) : bytes := pad_loop 4 out.

Definition take4 (bs : bytes) : result (bytes * bytes) AgentxError :=
  if (length bs <? 4)%nat then Err Truncated else Ok (take 4 bs, drop 4 bs).

Definition read_u32 (bs : bytes) (big : bool) : result (Z * bytes) AgentxError :=
  let? (b, rest) := take4 bs in Ok (from_bytes big b, rest).

Definition read_u16 (bs : bytes) (big : bool) : result (Z * bytes) AgentxError :=
  if (length bs <? 2)%nat then Err Truncated else Ok (from_bytes big (take 2 bs), drop 2 bs).

Definition take_padded (bs : bytes) (len : nat) : result (bytes * bytes) AgentxError :=
  if (length bs <? len)%nat then Err Truncated
  else
    let pad := ((4 - len mod 4) mod 4)%nat in
    if (length (drop len bs) <? pad)%nat then Err Truncated
    else Ok (take len bs, drop pad (drop len bs)).

(** ** OIDs *)

Definition starts_internet (arcs : Oid) : bool :=
  match arcs with
  | a :: b :: c :: d :: _ => (a =? 1) && (b =? 3) && (c =? 6) && (d =? 1)
  | _ => false
  end.

(** [arcs[4]] is out of bounds for [1.3.6.1] itself. *)
Definition encode_oid_bytes_with (o : Oid) (incl : Z) (big : bool) : option bytes :=
  let! (prefix, sub_ids) :=
    if starts_internet o then
      match o !! 4%nat with
      | Some a => Some (Z.max (as_u8 a) 1, drop 5 o)
      | None => None
      end
    else Some (0, o) in
  Some ([as_u8 (Z.of_nat (length sub_ids)); prefix; incl; 0] ++ flat_map (to_bytes big 4) sub_ids).

Definition encode_oid_bytes (o : Oid) (big : bool) : option bytes :=
  encode_oid_bytes_with o 0 big.

(** The loop over the [n] 4-byte words of the body. *)
Fixpoint read_words (n : nat) (bs : bytes) (big : bool) : list Z :=
  match n with
  | O => []
  | S n' => from_bytes big (take 4 bs) :: read_words n' (drop 4 bs) big
  end.

Definition decode_oid_bytes (bs : bytes) (big : bool) : result (Oid * bytes) AgentxError :=
  match bs with
  | n :: prefix :: _ :: _ :: rest =>
      let n_subid := Z.to_nat n in
      if (length rest <? n_subid * 4)%nat then Err Truncated
      else
        let arcs := if negb (prefix =? 0) then [1; 3; 6; 1; prefix] else [] in
        Ok (arcs ++ read_words n_subid rest big, drop (n_subid * 4) rest)
  | _ => Err Truncated
  end.

(** ** Values *)

Definition data_payload (d : AgentxData) (big : bool) : option bytes :=
  match d with
  | DInteger v => Some (to_bytes big 4 (as_u32 v))
  | DOctetString b | DOpaque b => Some b
  | DNull => Some []
  | DOid o => encode_oid_bytes o big
  | DIpAddress ip => Some (octets ip)
  | DCounter32 v | DGauge32 v | DTimeTicks v => Some (to_bytes big 4 v)
  | DCounter64 v => Some (to_bytes big 8 v)
  end.

Definition encode_data (d : AgentxData) (out : bytes) (big : bool) : option bytes :=
  let! payload := data_payload d big in
  let out := write_u16 out (type_tag d) big ++ [0; 0] in
  match d with
  | DOctetString _ | DOpaque _ =>
      Some (pad4 (write_u32 out (as_u32 (Z.of_nat (length payload))) big ++ payload))
  | _ => Some (out ++ payload)
  end.

Definition decode_data (tag : Z) (bs : bytes) (big : bool) :
    result (AgentxData * bytes) AgentxError :=
  let word := fun (mk : Z → AgentxData) =>
    let? (v, rest) := take4 bs in Ok (mk (from_bytes big v), rest) in
  let octet_string := fun (mk : bytes → AgentxData) =>
    let? (len, rest) := read_u32 bs big in
    let? (d, rest) := take_padded rest (Z.to_nat len) in Ok (mk d, rest) in
  match tag with
  | 2 => word (fun v => DInteger (as_i32 v))
  | 4 => octet_string DOctetString
  | 5 => Ok (DNull, bs)
  | 6 => let? (o, rest) := decode_oid_bytes bs big in Ok (DOid o, rest)
  | 64 =>
      match bs with
      | a :: b :: c :: d :: rest => Ok (DIpAddress (mkIpv4 a b c d), rest)
      | _ => Err Truncated
      end
  | 65 => word DCounter32
  | 66 => word DGauge32
  | 67 => word DTimeTicks
  | 68 => octet_string DOpaque
  | 70 =>
      if (length bs <? 8)%nat then Err Truncated
      else Ok (DCounter64 (from_bytes big (take 8 bs)), drop 8 bs)
  | _ => Err UnsupportedType
  end.

Definition encode_varbind (vb : AgentxVarBind) (out : bytes) (big : bool) : option bytes :=
  let! out := encode_data (data vb) out big in
  let! nm := encode_oid_bytes_with (name vb) 0 big in
  Some (out ++ nm).

Definition decode_varbind (bs : bytes) (big : bool) : result (AgentxVarBind * bytes) AgentxError :=
  let? (tag, after_tag) := read_u16 bs big in
  if (length after_tag <? 2)%nat then Err Truncated
  else
    let? (d, after_data) := decode_data tag (drop 2 after_tag) big in
    let? (nm, rest) := decode_oid_bytes after_data big in
    Ok (mkAxVarBind nm d, rest).

(** ** Lists *)

Fixpoint encode_list {A} (enc : A → bytes → option bytes) (l : list A) (out : bytes) :
    option bytes :=
  match l with
  | [] => Some out
  | x :: l' => let! out := enc x out in encode_list enc l' out
  end.

(** [while !rest.is_empty() { let (x, after) = item(rest)?; xs.push(x); rest = after; }] *)
Fixpoint decode_list {A} (item : bytes → result (A * bytes) AgentxError) (fuel : nat)
    (rest : bytes) (xs : list A) : option (result (list A) AgentxError) :=
  match rest with
  | [] => Some (Ok xs)
  | _ =>
      match fuel with
      | O => None
      | S fuel' =>
          match item rest with
          | Err e => Some (Err e)
          | Ok (x, after) => decode_list item fuel' after (xs ++ [x])
          end
      end
  end.

Definition encode_varbinds (vbs : list AgentxVarBind) (out : bytes) (big : bool) : option bytes :=
  encode_list (fun vb out => encode_varbind vb out big) vbs out.

Definition encode_range (r : Oid * Oid) (out : bytes) (big : bool) : option bytes :=
  let! s := encode_oid_bytes_with r.1 1 big in
  let! e := encode_oid_bytes_with r.2 0 big in
  Some (out ++ s ++ e).

Definition encode_ranges (rs : list (Oid * Oid)) (out : bytes) (big : bool) : option bytes :=
  encode_list (fun r out => encode_range r out big) rs out.

Definition decode_range (rest : bytes) (big : bool) : result ((Oid * Oid) * bytes) AgentxError :=
  let? (start, after_start) := decode_oid_bytes rest big in
  match after_start with
  | [] => Err Truncated
  | _ => let? (end_, after_end) := decode_oid_bytes after_start big in Ok ((start, end_), after_end)
  end.

(** ** Contexts *)

Definition encode_context (ctx : option text) (out : bytes) (big : bool) : bytes :=
  match ctx with
  | Some c =>
      let bs := as_bytes c in
      pad4 (write_u32 out (as_u32 (Z.of_nat (length bs))) big ++ bs)
  | None => out
  end.

Definition decode_context (bs : bytes) (big : bool) : result (option text * bytes) AgentxError :=
  let? (len, rest) := read_u32 bs big in
  let? (d, rest) := take_padded rest (Z.to_nat len) in
  Ok (Some (from_utf8_lossy d), rest).

(** ** Bodies *)

(** A length-prefixed, padded description. *)
Definition encode_descr (descr : text) (out : bytes) (big : bool) : bytes :=
  let bs := as_bytes descr in
  pad4 (write_u32 out (as_u32 (Z.of_nat (length bs))) big ++ bs).

Definition decode_descr (bs : bytes) (big : bool) : result (text * bytes) AgentxError :=
  let? (len, rest) := read_u32 bs big in
  let? (d, rest) := take_padded rest (Z.to_nat len) in
  Ok (from_utf8_lossy d, rest).

(** The upper bound written for a range: the arc at [range_subid - 1]. *)
Definition upper_bound (r : RegisterBody) : Z :=
  default 0 (range_bound r !! Z.to_nat (saturating_sub_u (range_subid r) 1)).

Definition encode_register (r : RegisterBody) (out : bytes) (big : bool) : option bytes :=
  let out := out ++ [r_timeout r; r_priority r; range_subid r; 0] in
  let out := encode_context (r_context r) out big in
  let! sub := encode_oid_bytes (r_subtree r) big in
  let out := out ++ sub in
  Some (if negb (range_subid r =? 0) then write_u32 out (upper_bound r) big else out).

Definition decode_register (bs : bytes) (big : bool) : result (RegisterBody * bytes) AgentxError :=
  match bs with
  | timeout :: priority :: range_subid :: _ :: bs =>
      let? (subtree, bs) := decode_oid_bytes bs big in
      if negb (range_subid =? 0) then
        let? (upper, bs) := read_u32 bs big in
        Ok (mkRegister timeout priority range_subid subtree [upper] None, bs)
      else Ok (mkRegister timeout priority range_subid subtree Oid.null None, bs)
  | _ => Err Truncated
  end.

Definition encode_caps (c : CapsBody) (out : bytes) (big : bool) : option bytes :=
  let out := encode_context (c_context c) out big in
  let! id := encode_oid_bytes (c_id c) big in
  Some (encode_descr (c_descr c) (out ++ id) big).

Definition decode_caps (bs : bytes) (big : bool) : result (CapsBody * bytes) AgentxError :=
  let? (id, rest) := decode_oid_bytes bs big in
  let? (descr, rest) := decode_descr rest big in
  Ok (mkCaps None id descr, rest).

Definition encode_body (b : PduBody) (out : bytes) (big : bool) : option bytes :=
  match b with
  | BOpen o =>
      let out := out ++ [o_timeout o] ++ [0; 0; 0] in
      let! id := encode_oid_bytes (o_id o) big in
      Some (encode_descr (o_descr o) (out ++ id) big)
  | BClose c => Some (out ++ [reason_code (reason c)] ++ [0; 0; 0])
  | BRegister r | BUnregister r => encode_register r out big
  | BGet s | BGetNext s =>
      encode_ranges (search_range s) (encode_context (s_context s) out big) big
  | BGetBulk b =>
      let out := write_u16 out (b_non_repeaters b) big in
      let out := write_u16 out (b_max_repetitions b) big in
      encode_ranges (b_search_range b) (encode_context (b_context b) out big) big
  | BSet b | BUndo b | BNotify b | BIndexAllocate b | BIndexDeallocate b =>
      encode_varbinds (varbinds b) (encode_context (v_context b) out big) big
  | BCleanup => Some out
  | BPing p => Some (encode_context (p_context p) out big)
  | BAddAgentCaps c | BRemoveAgentCaps c => encode_caps c out big
  | BResponse r =>
      let out := write_u32 out (sys_up_time r) big in
      let out := write_u16 out (error r) big in
      let out := write_u16 out (index r) big in
      encode_varbinds (resp_varbinds r) out big
  end.

Abbreviation decoded A := (option (result A AgentxError)) (only parsing).

Definition map_decoded {A B} (f : A → B) (r : decoded A) : decoded B :=
  (fun r => match r with Ok a => Ok (f a) | Err e => Err e end) <$> r.

Definition decode_varbinds (bs : bytes) (big : bool) : decoded (list AgentxVarBind) :=
  decode_list (fun rest => decode_varbind rest big) (length bs) bs [].

Definition decode_ranges (bs : bytes) (big : bool) : decoded (list (Oid * Oid)) :=
  decode_list (fun rest => decode_range rest big) (length bs) bs [].

(** [decode_body]; the list bodies consume everything. *)
Definition decode_body (pdu_type : Z) (bs : bytes) (big : bool) : decoded (PduBody * bytes) :=
  match type_from_u8 pdu_type with
  | Err e => Some (Err e)
  | Ok t =>
      match t with
      | TOpen => Some
          match bs with
          | timeout :: _ :: _ :: _ :: bs =>
              let? (id, rest) := decode_oid_bytes bs big in
              let? (descr, rest) := decode_descr rest big in
              Ok (BOpen (mkOpen timeout id descr), rest)
          | _ => Err Truncated
          end
      | TClose => Some
          match bs with
          | r :: _ :: _ :: _ :: rest => Ok (BClose (mkClose (reason_from_u8 r)), rest)
          | _ => Err Truncated
          end
      | TRegister => Some (let? (r, rest) := decode_register bs big in Ok (BRegister r, rest))
      | TUnregister => Some (let? (r, rest) := decode_register bs big in Ok (BUnregister r, rest))
      | TGet | TGetNext =>
          map_decoded (fun rs => (BGet (mkSearch None rs), [])) (decode_ranges bs big)
      | TGetBulk =>
          match read_u16 bs big with
          | Err e => Some (Err e)
          | Ok (non_repeaters, rest) =>
              match read_u16 rest big with
              | Err e => Some (Err e)
              | Ok (max_repetitions, rest) =>
                  map_decoded
                    (fun rs => (BGetBulk (mkBulk None non_repeaters rs max_repetitions), []))
                    (decode_ranges rest big)
              end
          end
      | TSet => map_decoded (fun vbs => (BSet (mkVarBinds None vbs), [])) (decode_varbinds bs big)
      | TUndo => map_decoded (fun vbs => (BUndo (mkVarBinds None vbs), [])) (decode_varbinds bs big)
      | TCleanup => Some (Ok (BCleanup, bs))
      | TNotify =>
          map_decoded (fun vbs => (BNotify (mkVarBinds None vbs), [])) (decode_varbinds bs big)
      | TPing => Some (Ok (BPing (mkPing None), bs))
      | TIndexAllocate =>
          map_decoded (fun vbs => (BIndexAllocate (mkVarBinds None vbs), []))
            (decode_varbinds bs big)
      | TIndexDeallocate =>
          map_decoded (fun vbs => (BIndexDeallocate (mkVarBinds None vbs), []))
            (decode_varbinds bs big)
      | TAddAgentCaps => Some (let? (c, rest) := decode_caps bs big in Ok (BAddAgentCaps c, rest))
      | TRemoveAgentCaps =>
          Some (let? (c, rest) := decode_caps bs big in Ok (BRemoveAgentCaps c, rest))
      | TResponse =>
          match read_u32 bs big with
          | Err e => Some (Err e)
          | Ok (up, rest) =>
              match read_u16 rest big with
              | Err e => Some (Err e)
              | Ok (err, rest) =>
                  match read_u16 rest big with
                  | Err e => Some (Err e)
                  | Ok (idx, rest) =>
                      map_decoded (fun vbs => (BResponse (mkResponse up err idx vbs), []))
                        (decode_varbinds rest big)
                  end
              end
          end
      end
  end.

(** ** PDUs *)

Definition context_of (b : PduBody) : option text :=
  match b with
  | BRegister r | BUnregister r => r_context r
  | BGet s | BGetNext s => s_context s
  | BGetBulk b => b_context b
  | BSet b | BUndo b | BNotify b | BIndexAllocate b | BIndexDeallocate b => v_context b
  | BPing p => p_context p
  | BAddAgentCaps c | BRemoveAgentCaps c => c_context c
  | _ => None
  end.

Definition has_context (b : PduBody) : bool :=
  match context_of b with Some _ => true | None => false end.

(** [Pdu::encode]. *)
Definition encode (p : AgentxPdu) : option bytes :=
  let h := header p in
  let! b := encode_body (body p) [] (is_big_endian h) in
  Some (encode_header
          (mkHeader (version h) (as_u8_type (body_type (body p))) (flags h) (session_id h)
             (transaction_id h) (packet_id h) (as_u32 (Z.of_nat (length b))) (h_timeout h)) ++ b).

Definition decode (bs : bytes) : decoded AgentxPdu :=
  match decode_header bs with
  | Err e => Some (Err e)
  | Ok (h, payload) =>
      map_decoded (fun r => mkAgentxPdu h r.1) (decode_body (h_pdu_type h) payload (is_big_endian h))
  end.

(** [flags & !FLAG_NON_DEFAULT_CONTEXT] on a [u8], then the bit when a context
    is present. *)
Definition context_flags (f : Z) (b : PduBody) : Z :=
  let cleared := Z.land f (Z.lxor 255 FLAG_NON_DEFAULT_CONTEXT) in
  if has_context b then Z.lor cleared FLAG_NON_DEFAULT_CONTEXT else cleared.

Definition encode_pdu (p : AgentxPdu) : option bytes :=
  let h := header p in
  let! b := encode_body (body p) [] (is_big_endian h) in
  Some (encode_header
          (mkHeader (version h) (as_u8_type (body_type (body p))) (context_flags (flags h) (body p))
             (session_id h) (transaction_id h) (packet_id h) (as_u32 (Z.of_nat (length b)))
             (h_timeout h)) ++ b).

Definition set_context (c : option text) (b : PduBody) : PduBody :=
  let vb := fun b => mkVarBinds c (varbinds b) in
  let reg := fun r =>
    mkRegister (r_timeout r) (r_priority r) (range_subid r) (r_subtree r) (range_bound r) c in
  let caps := fun x => mkCaps c (c_id x) (c_descr x) in
  match b with
  | BRegister r => BRegister (reg r)
  | BUnregister r => BUnregister (reg r)
  | BGet s => BGet (mkSearch c (search_range s))
  | BGetNext s => BGetNext (mkSearch c (search_range s))
  | BGetBulk b => BGetBulk (mkBulk c (b_non_repeaters b) (b_search_range b) (b_max_repetitions b))
  | BSet b => BSet (vb b)
  | BUndo b => BUndo (vb b)
  | BNotify b => BNotify (vb b)
  | BPing _ => BPing (mkPing c)
  | BIndexAllocate b => BIndexAllocate (vb b)
  | BIndexDeallocate b => BIndexDeallocate (vb b)
  | BAddAgentCaps x => BAddAgentCaps (caps x)
  | BRemoveAgentCaps x => BRemoveAgentCaps (caps x)
  | b => b
  end.

Definition fill_context (b : PduBody) (ctx : text) : PduBody := set_context (Some ctx) b.

Definition decode_pdu (bs : bytes) : decoded AgentxPdu :=
  match decode_header bs with
  | Err e => Some (Err e)
  | Ok (h, payload) =>
      let has_context := negb (Z.land (flags h) FLAG_NON_DEFAULT_CONTEXT =? 0) in
      map_decoded
        (fun r => mkAgentxPdu h (if has_context then fill_context r.1 [] else r.1))
        (decode_body (h_pdu_type h) payload (is_big_endian h))
  end.
