(* ===== verification/AgentxRoundtrip.v ===== *)
(** * AgentX codec theorems

    Round trips of the header, OIDs, values, varbinds and whole PDUs, the
    termination of the decoder's loops, the encoder's panic, and the places
    where the code departs from RFC 2741. *)

From Stdlib Require Import ZArith Lia ZifyNat.
From S2P Require Import Prelude MachineInts Text Oid Value AgentxTypes AgentxCodec.

(** ** Readers invert writers *)

Definition aligned (bs : bytes) : Prop := (length bs mod 4 = 0)%nat.

Lemma aligned_app a b : aligned a → aligned b → aligned (a ++ b).
Proof.
  unfold aligned. rewrite length_app. intros Ha Hb.
  rewrite Nat.Div0.add_mod, Ha, Hb. done.
Qed.

Lemma aligned_nil : aligned [].
Proof. done. Qed.

Lemma aligned_len bs k : length bs = (4 * k)%nat → aligned bs.
Proof. unfold aligned. intros ->. rewrite Nat.mul_comm. apply Nat.Div0.mod_mul. Qed.

(** The zero bytes after [n] bytes. *)
Definition padding (n : nat) : nat := ((4 - n mod 4) mod 4)%nat.

#[local] Ltac Zify.zify_post_hook ::= Z.to_euclidean_division_equations.

Lemma pad_loop_spec k fuel out :
  (k <= fuel)%nat → ((length out + k) mod 4 = 0)%nat →
  (∀ j, (j < k)%nat → ((length out + j) mod 4 ≠ 0)%nat) →
  pad_loop fuel out = out ++ replicate k 0.
Proof.
  revert fuel out. induction k as [|k IH]; intros fuel out Hf H0 Hj.
  - rewrite Nat.add_0_r in H0. rewrite app_nil_r. destruct fuel; cbn [pad_loop]; [done|].
    by rewrite H0.
  - destruct fuel as [|fuel]; [lia|]. cbn [pad_loop].
    destruct (Nat.eqb_spec (length out mod 4) 0) as [E|_].
    { specialize (Hj O). rewrite Nat.add_0_r in Hj. destruct Hj; [lia|done]. }
    rewrite IH.
    + by rewrite <- app_assoc.
    + lia.
    + rewrite length_app. cbn [length].
      by replace (length out + 1 + k)%nat with (length out + S k)%nat by lia.
    + intros j Hlt. rewrite length_app. cbn [length].
      replace (length out + 1 + j)%nat with (length out + S j)%nat by lia. apply Hj. lia.
Qed.

Lemma pad4_spec out : pad4 out = out ++ replicate (padding (length out)) 0.
Proof.
  unfold pad4. apply pad_loop_spec; unfold padding; [|lia|].
  - pose proof (Nat.mod_upper_bound (4 - length out mod 4) 4). lia.
  - intros j. lia.
Qed.

Lemma padding_aligned n m : (n mod 4 = 0)%nat → padding (n + m) = padding m.
Proof. intros H. unfold padding. by rewrite Nat.Div0.add_mod, H, Nat.add_0_l, Nat.Div0.mod_mod. Qed.

Lemma aligned_padded (bs : bytes) : aligned (bs ++ replicate (padding (length bs)) 0).
Proof. unfold aligned, padding. rewrite length_app, length_replicate. lia. Qed.

Lemma take4_app b rest : length b = 4%nat → take4 (b ++ rest) = Ok (b, rest).
Proof.
  intros H. unfold take4. rewrite length_app.
  destruct (Nat.ltb_spec (length b + length rest) 4); [lia|].
  by rewrite take_app_length', drop_app_length' by done.
Qed.

Lemma read_u32_app v big rest :
  is_u32 v → read_u32 (to_bytes big 4 v ++ rest) big = Ok (v, rest).
Proof.
  intros H. unfold read_u32. rewrite take4_app by apply length_to_bytes. cbn.
  by rewrite from_to_bytes_id.
Qed.

Lemma read_u16_app v big rest :
  is_u16 v → read_u16 (to_bytes big 2 v ++ rest) big = Ok (v, rest).
Proof.
  intros H. unfold read_u16. rewrite length_app, length_to_bytes.
  destruct (Nat.ltb_spec (2 + length rest) 2); [lia|].
  rewrite take_app_length', drop_app_length' by (by rewrite length_to_bytes).
  by rewrite from_to_bytes_id.
Qed.

Lemma take_padded_app b rest :
  take_padded (b ++ replicate (padding (length b)) 0 ++ rest) (length b) = Ok (b, rest).
Proof.
  unfold take_padded. rewrite length_app. fold (padding (length b)).
  destruct (Nat.ltb_spec (length b + length (replicate (padding (length b)) 0 ++ rest)) (length b));
    [lia|].
  rewrite drop_app_length, take_app_length, length_app, length_replicate.
  destruct (Nat.ltb_spec (padding (length b) + length rest) (padding (length b))); [lia|].
  by rewrite drop_app_length' by (by rewrite length_replicate).
Qed.

Lemma read_words_app big ws rest :
  Forall is_u32 ws →
  read_words (length ws) (flat_map (to_bytes big 4) ws ++ rest) big = ws.
Proof.
  induction 1 as [|w ws Hw HF IH]; [done|]. cbn [length flat_map read_words].
  rewrite <- app_assoc, take_app_length', drop_app_length' by (by rewrite length_to_bytes).
  by rewrite from_to_bytes_id, IH.
Qed.

Lemma length_words big (ws : list Z) : length (flat_map (to_bytes big 4) ws) = (4 * length ws)%nat.
Proof.
  induction ws as [|w ws IH]; [done|]. cbn [flat_map length].
  rewrite length_app, length_to_bytes, IH. lia.
Qed.

(** ** OIDs *)

(** What the packed form can carry: at most 255 words, and after [1.3.6.1] a
    fifth sub-identifier that fits the non-zero prefix byte. *)
Definition encodable_oid (o : Oid) : Prop :=
  Oid.wf o ∧
  if starts_internet o
  then (length o <= 260)%nat ∧ ∃ a, o !! 4%nat = Some a ∧ 1 <= a <= 255
  else (length o <= 255)%nat.

Lemma starts_internet_spec o :
  starts_internet o = true ↔ ∃ s, o = [1; 3; 6; 1] ++ s.
Proof.
  split.
  - destruct o as [|a [|b [|c [|d o]]]]; try done. cbn. intros H. reflect_bools. subst. eauto.
  - by intros [s ->].
Qed.

Lemma oid_roundtrip o incl big :
  encodable_oid o →
  ∃ e, encode_oid_bytes_with o incl big = Some e ∧ aligned e ∧ e ≠ [] ∧
    ∀ rest, decode_oid_bytes (e ++ rest) big = Ok (o, rest).
Proof.
  intros [Hw He]. unfold encode_oid_bytes_with.
  assert (Hdec : ∀ prefix ws rest, (length ws <= 255)%nat → Forall is_u32 ws →
    decode_oid_bytes (([as_u8 (Z.of_nat (length ws)); prefix; incl; 0]
      ++ flat_map (to_bytes big 4) ws) ++ rest) big =
    Ok ((if negb (prefix =? 0) then [1; 3; 6; 1; prefix] else []) ++ ws, rest)).
  { intros prefix ws rest Hl HF. cbn [app decode_oid_bytes].
    rewrite wrap_u_id by lia. rewrite Nat2Z.id, length_app, length_words.
    destruct (Nat.ltb_spec (4 * length ws + length rest) (length ws * 4)); [lia|].
    rewrite read_words_app by done. rewrite drop_app_length'; [done|]. rewrite length_words. lia. }
  assert (Hal : ∀ prefix ws, aligned ([as_u8 (Z.of_nat (length ws)); prefix; incl; 0]
      ++ flat_map (to_bytes big 4) ws)).
  { intros prefix ws. apply (aligned_len _ (S (length ws))).
    rewrite length_app, length_words. cbn [length]. lia. }
  destruct (starts_internet o) eqn:S.
  - destruct He as (Hl & a & Ha & Hr). rewrite Ha. cbn.
    apply starts_internet_spec in S as [s ->]. destruct s as [|a' s]; [done|].
    cbn in Ha. injection Ha as ->. cbn [drop app].
    rewrite (wrap_u_id 8 a), Z.max_l by lia.
    eexists. split_and!; [done|apply Hal|done|]. intros rest.
    rewrite length_app in Hl. cbn [length] in Hl.
    assert (HF : Forall is_u32 s) by (by apply (Forall_drop _ 5) in Hw).
    etransitivity; [apply (Hdec a s rest); [lia|done]|].
    destruct (Z.eqb_spec a 0); [lia|done].
  - cbn. eexists. split_and!; [done|apply Hal|done|]. intros rest. by apply Hdec.
Qed.

Lemma encode_oid_None o incl big :
  encode_oid_bytes_with o incl big = None ↔ o = [1; 3; 6; 1].
Proof.
  unfold encode_oid_bytes_with. split; [|by intros ->].
  destruct (starts_internet o) eqn:S; [|done].
  apply starts_internet_spec in S as [s ->]. by destruct s.
Qed.

(** ** Length-prefixed strings *)

Definition octet_bytes (b : bytes) (big : bool) : bytes :=
  to_bytes big 4 (Z.of_nat (length b)) ++ b ++ replicate (padding (length b)) 0.

Lemma octets_written out b big :
  aligned out → Z.of_nat (length b) < 2 ^ 32 →
  pad4 (write_u32 out (as_u32 (Z.of_nat (length b))) big ++ b) = out ++ octet_bytes b big.
Proof.
  intros Ho Hb. rewrite pad4_spec. unfold write_u32, octet_bytes.
  rewrite wrap_u_id by lia. rewrite !length_app, length_to_bytes.
  rewrite padding_aligned; [by rewrite <- !app_assoc|]. unfold aligned in Ho. lia.
Qed.

Lemma octet_bytes_aligned b big : aligned (octet_bytes b big).
Proof.
  unfold octet_bytes. apply aligned_app; [|apply aligned_padded].
  apply (aligned_len _ 1). by rewrite length_to_bytes.
Qed.

Lemma octets_read {A} b big rest (k : bytes → bytes → result (A * bytes) AgentxError) :
  Z.of_nat (length b) < 2 ^ 32 →
  (let? (len, rest) := read_u32 (octet_bytes b big ++ rest) big in
   let? (d, rest) := take_padded rest (Z.to_nat len) in k d rest) = k b rest.
Proof.
  intros Hb. unfold octet_bytes. rewrite <- app_assoc, read_u32_app by (unfold is_u32; lia). cbn.
  by rewrite Nat2Z.id, <- app_assoc, take_padded_app.
Qed.

(** ** Items: an encoder that appends and the decoder that reads it back *)

Definition carries {A} (enc : A → bytes → option bytes)
    (dec : bytes → result (A * bytes) AgentxError) (x : A) : Prop :=
  ∀ out, aligned out → ∃ e, enc x out = Some (out ++ e) ∧ aligned e ∧ e ≠ [] ∧
    ∀ rest, dec (e ++ rest) = Ok (x, rest).

Definition encodable_data (d : AgentxData) : Prop :=
  wf_data d ∧
  match d with
  | DOctetString b | DOpaque b => Z.of_nat (length b) < 2 ^ 32
  | DOid o => encodable_oid o
  | _ => True
  end.

Lemma as_i32_as_u32 v big :
  is_i32 v → as_i32 (from_bytes big (to_bytes big 4 (as_u32 v))) = v.
Proof.
  intros H. rewrite from_to_bytes_id; [by apply wrap_i_wrap_u_32|].
  apply (wrap_u_range 32). lia.
Qed.

(** The payload of a value, after its tag and the two reserved bytes. *)
Definition payload_carries (d : AgentxData) (big : bool) (out : bytes) : Prop :=
  ∃ e, encode_data d out big = Some (out ++ to_bytes big 2 (type_tag d) ++ [0; 0] ++ e) ∧ aligned e ∧
    ∀ rest, decode_data (type_tag d) (e ++ rest) big = Ok (d, rest).

(** A value carried in one word. *)
Lemma word_carries d big out v (mk : Z → AgentxData) :
  d = mk (from_bytes big (to_bytes big 4 v)) →
  (∀ bs, decode_data (type_tag d) bs big =
     let? (v, rest) := take4 bs in Ok (mk (from_bytes big v), rest)) →
  encode_data d out big = Some ((write_u16 out (type_tag d) big ++ [0; 0]) ++ to_bytes big 4 v) →
  payload_carries d big out.
Proof.
  intros Ed Hdec Henc. unfold payload_carries. rewrite Henc. exists (to_bytes big 4 v). split_and!.
  - f_equal. unfold write_u16. by rewrite <- !app_assoc.
  - apply (aligned_len _ 1). by rewrite length_to_bytes.
  - intros rest. rewrite Hdec, take4_app by apply length_to_bytes. cbn. by rewrite <- Ed.
Qed.

(** A value carried as a counted, padded octet string. *)
Lemma octet_carries d big out b (mk : bytes → AgentxData) :
  aligned out → d = mk b → Z.of_nat (length b) < 2 ^ 32 →
  (∀ bs, decode_data (type_tag d) bs big =
     let? (len, rest) := read_u32 bs big in
     let? (x, rest) := take_padded rest (Z.to_nat len) in Ok (mk x, rest)) →
  encode_data d out big = Some (pad4 (write_u32 (write_u16 out (type_tag d) big ++ [0; 0])
     (as_u32 (Z.of_nat (length b))) big ++ b)) →
  payload_carries d big out.
Proof.
  intros Ho Ed Hb Hdec Henc. unfold payload_carries. rewrite Henc. exists (octet_bytes b big).
  assert (Ho' : aligned (write_u16 out (type_tag d) big ++ [0; 0])).
  { unfold write_u16, aligned in *. rewrite !length_app, length_to_bytes. cbn [length]. lia. }
  split_and!.
  - f_equal. rewrite octets_written by done. unfold write_u16. by rewrite <- !app_assoc.
  - apply octet_bytes_aligned.
  - intros rest. rewrite Hdec, Ed. by rewrite (octets_read b big rest (λ x r, Ok (mk x, r))).
Qed.

Lemma data_carries d big :
  encodable_data d → ∀ out, aligned out → payload_carries d big out.
Proof.
  intros [Hw He] out Ho. destruct d as [v|b| |o|ip|v|v|v|b|v]; cbn [wf_data] in Hw.
  - apply (word_carries _ _ _ (as_u32 v) (λ x, DInteger (as_i32 x))); [by rewrite as_i32_as_u32|done|done].
  - by apply (octet_carries _ _ _ b DOctetString).
  - exists []. split_and!; [|done|done].
    cbn. unfold write_u16. by rewrite <- !app_assoc.
  - destruct (oid_roundtrip o 0 big He) as (e & E & Ha & _ & Hd). exists e. split_and!; [|done|].
    + unfold encode_data, data_payload, encode_oid_bytes. rewrite E. cbn. unfold write_u16.
      by rewrite <- !app_assoc.
    + intros rest. cbn. by rewrite Hd.
  - exists (octets ip). split_and!; [|by destruct ip|by destruct ip].
    cbn. unfold write_u16. by rewrite <- !app_assoc.
  - apply (word_carries _ _ _ v DCounter32); [by rewrite from_to_bytes_id|done|done].
  - apply (word_carries _ _ _ v DGauge32); [by rewrite from_to_bytes_id|done|done].
  - apply (word_carries _ _ _ v DTimeTicks); [by rewrite from_to_bytes_id|done|done].
  - by apply (octet_carries _ _ _ b DOpaque).
  - exists (to_bytes big 8 v). split_and!.
    + cbn. unfold write_u16. by rewrite <- !app_assoc.
    + apply (aligned_len _ 2). by rewrite length_to_bytes.
    + intros rest. cbn [type_tag decode_data]. rewrite length_app, length_to_bytes.
      destruct (Nat.ltb_spec (8 + length rest) 8); [lia|].
      rewrite take_app_length', drop_app_length' by (by rewrite length_to_bytes).
      by rewrite from_to_bytes_id.
Qed.

Definition encodable_varbind (vb : AgentxVarBind) : Prop :=
  encodable_oid (name vb) ∧ encodable_data (data vb).

Lemma type_tag_u16 d : is_u16 (type_tag d).
Proof. unfold is_u16. destruct d; cbn; lia. Qed.

Lemma varbind_carries big vb :
  encodable_varbind vb →
  carries (λ vb out, encode_varbind vb out big) (λ bs, decode_varbind bs big) vb.
Proof.
  intros [Hn Hd] out Ho. unfold encode_varbind.
  destruct (data_carries (data vb) big Hd out Ho) as (ed & -> & Ad & Dd).
  destruct (oid_roundtrip (name vb) 0 big Hn) as (en & E & An & _ & Dn). rewrite E. cbn [mbind option_bind].
  exists (to_bytes big 2 (type_tag (data vb)) ++ [0; 0] ++ ed ++ en). split_and!.
  - by rewrite <- !app_assoc.
  - unfold aligned in *. rewrite !length_app, length_to_bytes. cbn [length]. lia.
  - intros C. apply (f_equal length) in C. rewrite length_app, length_to_bytes in C. done.
  - intros rest. unfold decode_varbind. rewrite <- app_assoc, read_u16_app by apply type_tag_u16.
    cbn [rbind app]. cbn [length Nat.ltb Nat.leb drop]. rewrite drop_0, <- app_assoc, Dd. cbn [rbind].
    rewrite Dn. cbn. by destruct vb.
Qed.

Definition encodable_range (r : Oid * Oid) : Prop := encodable_oid r.1 ∧ encodable_oid r.2.

Lemma range_carries big r :
  encodable_range r →
  carries (λ r out, encode_range r out big) (λ bs, decode_range bs big) r.
Proof.
  intros [H1 H2] out Ho. unfold encode_range.
  destruct (oid_roundtrip r.1 1 big H1) as (e1 & -> & A1 & N1 & D1).
  destruct (oid_roundtrip r.2 0 big H2) as (e2 & -> & A2 & N2 & D2). cbn.
  exists (e1 ++ e2). split_and!; [done|by apply aligned_app|by destruct e1|].
  intros rest. unfold decode_range. rewrite <- app_assoc, D1. cbn [rbind].
  destruct (e2 ++ rest) as [|x xs] eqn:E; [by destruct e2|]. rewrite <- E, D2. cbn. by destruct r.
Qed.

Lemma list_carries {A} (enc : A → bytes → option bytes) dec (l : list A) :
  Forall (carries enc dec) l →
  ∀ out, aligned out → ∃ e, encode_list enc l out = Some (out ++ e) ∧
    ∀ fuel xs, (length e <= fuel)%nat → decode_list dec fuel e xs = Some (Ok (xs ++ l)).
Proof.
  induction 1 as [|x l Hx HF IH]; intros out Ho; cbn [encode_list].
  { exists []. split; [by rewrite app_nil_r|]. intros fuel xs _. rewrite app_nil_r. by destruct fuel. }
  destruct (Hx out Ho) as (e1 & -> & A1 & N1 & D1). cbn [mbind option_bind].
  destruct (IH (out ++ e1)) as (e2 & -> & D2); [by apply aligned_app|].
  exists (e1 ++ e2). split; [by rewrite <- app_assoc|]. intros fuel xs Hf.
  rewrite length_app in Hf. destruct e1 as [|y e1]; [done|]. cbn [length] in Hf.
  destruct fuel as [|fuel]; [lia|]. cbn [decode_list app].
  specialize (D1 e2). cbn [app] in D1. rewrite D1. rewrite D2 by lia. by rewrite <- app_assoc.
Qed.

(** ** Header *)

Lemma to_bytes_4 big v : ∃ a b c d, to_bytes big 4 v = [a; b; c; d].
Proof. destruct big; cbn; eauto. Qed.

(** The header as the decoder returns it. *)
Definition canon_header (h : AgentxHeader) : AgentxHeader :=
  mkHeader (version h) (h_pdu_type h) (flags h) (session_id h) (transaction_id h) (packet_id h)
    (payload_length h) 0.

Lemma header_roundtrip h payload :
  is_u32 (session_id h) → is_u32 (transaction_id h) → is_u32 (packet_id h) →
  is_u32 (payload_length h) →
  decode_header (encode_header h ++ payload) = Ok (canon_header h, payload).
Proof.
  intros H1 H2 H3 H4. unfold encode_header. fold (is_big_endian h).
  pose proof (from_to_bytes_id (is_big_endian h) 4 _ H1) as R1.
  pose proof (from_to_bytes_id (is_big_endian h) 4 _ H2) as R2.
  pose proof (from_to_bytes_id (is_big_endian h) 4 _ H3) as R3.
  pose proof (from_to_bytes_id (is_big_endian h) 4 _ H4) as R4.
  destruct (to_bytes_4 (is_big_endian h) (session_id h)) as (? & ? & ? & ? & E1).
  destruct (to_bytes_4 (is_big_endian h) (transaction_id h)) as (? & ? & ? & ? & E2).
  destruct (to_bytes_4 (is_big_endian h) (packet_id h)) as (? & ? & ? & ? & E3).
  destruct (to_bytes_4 (is_big_endian h) (payload_length h)) as (? & ? & ? & ? & E4).
  rewrite E1 in *. rewrite E2 in *. rewrite E3 in *. rewrite E4 in *.
  cbn. fold (is_big_endian h). rewrite drop_0, take_0. unfold canon_header. by rewrite R1, R2, R3, R4.
Qed.

(** ** Bodies *)

Definition encodable_text (s : text) : Prop :=
  is_text s ∧ Z.of_nat (length (as_bytes s)) < 2 ^ 32.

Definition encodable_body (b : PduBody) : Prop :=
  wf_body b ∧ context_of b = None ∧
  match b with
  | BOpen o => encodable_oid (o_id o) ∧ encodable_text (o_descr o)
  | BClose _ | BCleanup | BPing _ => True
  | BRegister r | BUnregister r => encodable_oid (r_subtree r)
  | BGet s | BGetNext s => Forall encodable_range (search_range s)
  | BGetBulk b => Forall encodable_range (b_search_range b)
  | BSet b | BUndo b | BNotify b | BIndexAllocate b | BIndexDeallocate b =>
      Forall encodable_varbind (varbinds b)
  | BAddAgentCaps c | BRemoveAgentCaps c => encodable_oid (c_id c) ∧ encodable_text (c_descr c)
  | BResponse r => Forall encodable_varbind (resp_varbinds r)
  end.

(** The body as the decoder returns it: a range bound is its written arc, and a
    GetNext body comes back as a Get body. *)
Definition canon_register (r : RegisterBody) : RegisterBody :=
  mkRegister (r_timeout r) (r_priority r) (range_subid r) (r_subtree r)
    (if negb (range_subid r =? 0) then [upper_bound r] else Oid.null) None.

Definition canon_body (b : PduBody) : PduBody :=
  match b with
  | BRegister r => BRegister (canon_register r)
  | BUnregister r => BUnregister (canon_register r)
  | BGetNext s => BGet s
  | b => b
  end.

Lemma descr_roundtrip s out big rest :
  encodable_text s → aligned out →
  ∃ e, encode_descr s out big = out ++ e ∧ decode_descr (e ++ rest) big = Ok (s, rest).
Proof.
  intros [Ht Hl] Ho. exists (octet_bytes (as_bytes s) big). split.
  - by apply octets_written.
  - unfold decode_descr.
    rewrite (octets_read (as_bytes s) big rest (λ d r, Ok (from_utf8_lossy d, r))) by done.
    by rewrite from_utf8_lossy_as_bytes.
Qed.

Lemma upper_bound_u32 r : wf_register r → is_u32 (upper_bound r).
Proof.
  intros (_ & _ & _ & _ & Hb & _). unfold upper_bound.
  destruct (range_bound r !! _) as [a|] eqn:E; cbn; [|done].
  eapply Forall_lookup_1; [exact Hb|exact E].
Qed.

Lemma register_roundtrip r big :
  wf_register r → r_context r = None → encodable_oid (r_subtree r) →
  ∃ e, encode_register r [] big = Some e ∧ decode_register e big = Ok (canon_register r, []).
Proof.
  intros Hw Hc Ho. unfold encode_register, canon_register. rewrite Hc. cbn [encode_context].
  destruct (oid_roundtrip (r_subtree r) 0 big Ho) as (e & E & _ & _ & D).
  unfold encode_oid_bytes. rewrite E. cbn [mbind option_bind app].
  eexists. split; [done|]. destruct (Z.eqb_spec (range_subid r) 0) as [Z|NZ]; cbn [negb];
    unfold decode_register.
  - rewrite (proj2 (Z.eqb_eq _ _) Z). cbn [negb]. specialize (D []). rewrite app_nil_r in D.
    by rewrite D.
  - unfold write_u32. cbn [app]. rewrite D. cbn [rbind].
    rewrite (proj2 (Z.eqb_neq _ _) NZ). cbn [negb].
    pose proof (read_u32_app (upper_bound r) big [] (upper_bound_u32 r Hw)) as R.
    rewrite app_nil_r in R. by rewrite R.
Qed.

Lemma caps_roundtrip c big :
  c_context c = None → encodable_oid (c_id c) → encodable_text (c_descr c) →
  ∃ e, encode_caps c [] big = Some e ∧ decode_caps e big = Ok (c, []).
Proof.
  intros Hc Ho Ht. unfold encode_caps. rewrite Hc. cbn [encode_context].
  destruct (oid_roundtrip (c_id c) 0 big Ho) as (e & E & A & _ & D).
  unfold encode_oid_bytes. rewrite E. cbn [mbind option_bind app].
  destruct (descr_roundtrip (c_descr c) e big [] Ht A) as (e' & -> & D').
  eexists. split; [done|]. unfold decode_caps. rewrite D. cbn [rbind].
  rewrite app_nil_r in D'. rewrite D'. cbn. destruct c. cbn in *. by subst.
Qed.

Lemma ranges_roundtrip rs out big :
  Forall encodable_range rs → aligned out →
  ∃ e, encode_ranges rs out big = Some (out ++ e) ∧ decode_ranges e big = Some (Ok rs).
Proof.
  intros HF Ho. destruct (list_carries (λ r out, encode_range r out big)
    (λ bs, decode_range bs big) rs) with (out := out) as (e & E & D); [|done|].
  - eapply Forall_impl; [exact HF|]. intros r. apply range_carries.
  - exists e. split; [done|]. unfold decode_ranges. by rewrite D.
Qed.

Lemma varbinds_roundtrip vbs out big :
  Forall encodable_varbind vbs → aligned out →
  ∃ e, encode_varbinds vbs out big = Some (out ++ e) ∧ decode_varbinds e big = Some (Ok vbs).
Proof.
  intros HF Ho. destruct (list_carries (λ vb out, encode_varbind vb out big)
    (λ bs, decode_varbind bs big) vbs) with (out := out) as (e & E & D); [|done|].
  - eapply Forall_impl; [exact HF|]. intros vb. apply varbind_carries.
  - exists e. split; [done|]. unfold decode_varbinds. by rewrite D.
Qed.

Definition body_carries (b : PduBody) (big : bool) : Prop :=
  ∃ e, encode_body b [] big = Some e ∧
    decode_body (as_u8_type (body_type b)) e big = Some (Ok (canon_body b, [])).

(** The five bodies that are a context and a list of varbinds. *)
Lemma varbinds_body_carries b big (mk : VarBindsBody → PduBody) bd :
  context_of b = None → context_of b = v_context bd → Forall encodable_varbind (varbinds bd) →
  encode_body b [] big = encode_varbinds (varbinds bd) (encode_context (v_context bd) [] big) big →
  canon_body b = mk bd →
  (∀ e, decode_body (as_u8_type (body_type b)) e big =
    map_decoded (λ vbs, (mk (mkVarBinds None vbs), [])) (decode_varbinds e big)) →
  body_carries b big.
Proof.
  intros Hc Hcb HF He Hk Hd. unfold body_carries. rewrite He, Hk, <- Hcb, Hc. cbn [encode_context].
  destruct (varbinds_roundtrip (varbinds bd) [] big HF aligned_nil) as (e & -> & D).
  exists e. split; [done|]. rewrite Hd, D. cbn. do 3 f_equal.
  rewrite Hc in Hcb. destruct bd. cbn in *. by subst.
Qed.

Lemma open_carries o big :
  encodable_oid (o_id o) → encodable_text (o_descr o) → body_carries (BOpen o) big.
Proof.
  intros Ho Ht. unfold body_carries.
  cbn [encode_body body_type as_u8_type decode_body type_from_u8 canon_body].
  destruct (oid_roundtrip (o_id o) 0 big Ho) as (e & E & A & _ & D).
  unfold encode_oid_bytes. rewrite E. cbn [mbind option_bind app].
  assert (Al : aligned (o_timeout o :: 0 :: 0 :: 0 :: e)).
  { change (aligned ([o_timeout o; 0; 0; 0] ++ e)). by apply aligned_app. }
  destruct (descr_roundtrip (o_descr o) _ big [] Ht Al) as (e' & -> & D').
  eexists. split; [done|]. cbn [app]. rewrite D. cbn [rbind].
  rewrite app_nil_r in D'. rewrite D'. cbn. by destruct o.
Qed.

Lemma search_carries s big (mk : SearchBody → PduBody) :
  mk = BGet ∨ mk = BGetNext →
  s_context s = None → Forall encodable_range (search_range s) → body_carries (mk s) big.
Proof.
  intros [-> | ->] Hc He; unfold body_carries; cbn [encode_body]; rewrite Hc; cbn [encode_context];
    destruct (ranges_roundtrip _ [] big He aligned_nil) as (e & -> & D);
    (exists e; split; [done|]); cbn; rewrite D; cbn; destruct s; cbn in *; by subst.
Qed.

Lemma bulk_carries bb big :
  wf_body (BGetBulk bb) → context_of (BGetBulk bb) = None →
  Forall encodable_range (b_search_range bb) → body_carries (BGetBulk bb) big.
Proof.
  intros (_ & Hn & Hm & _) Hc He. unfold body_carries. cbn [context_of] in Hc. cbn [encode_body].
  rewrite Hc. cbn [encode_context].
  set (out := write_u16 _ _ _).
  assert (Al : aligned out).
  { unfold out, write_u16, aligned. rewrite !length_app, !length_to_bytes. done. }
  destruct (ranges_roundtrip _ out big He Al) as (e & -> & D).
  exists (out ++ e). split; [done|]. unfold out, write_u16. cbn [app].
  cbn [body_type as_u8_type decode_body type_from_u8].
  rewrite <- app_assoc, read_u16_app by done. rewrite read_u16_app by done. rewrite D. cbn.
  destruct bb. cbn in *. by subst.
Qed.

Lemma response_carries r big :
  wf_body (BResponse r) → Forall encodable_varbind (resp_varbinds r) →
  body_carries (BResponse r) big.
Proof.
  intros (Hu & Hr & Hi & _) He. unfold body_carries. cbn [encode_body].
  set (out := write_u16 _ (index r) _).
  assert (Al : aligned out).
  { unfold out, write_u16, write_u32, aligned. rewrite !length_app, !length_to_bytes. done. }
  destruct (varbinds_roundtrip _ out big He Al) as (e & -> & D).
  exists (out ++ e). split; [done|]. unfold out, write_u16, write_u32. cbn [app].
  cbn [body_type as_u8_type decode_body type_from_u8].
  rewrite <- !app_assoc, read_u32_app by done. rewrite read_u16_app by done.
  rewrite read_u16_app by done. rewrite D. cbn. by destruct r.
Qed.

Lemma body_roundtrip b big : encodable_body b → body_carries b big.
Proof.
  intros (Hw & Hc & He).
  destruct b as [o|c|r|r|s|s|bb|bd|bd| |bd|p|bd|bd|c|c|r].
  - apply open_carries; apply He.
  - eexists. split; [done|]. cbn. rewrite reason_from_code. by destruct c.
  - destruct (register_roundtrip r big Hw Hc He) as (e & E & D). exists e. split; [done|].
    cbn. by rewrite D.
  - destruct (register_roundtrip r big Hw Hc He) as (e & E & D). exists e. split; [done|].
    cbn. by rewrite D.
  - apply (search_carries s big BGet); auto.
  - apply (search_carries s big BGetNext); auto.
  - by apply bulk_carries.
  - by apply (varbinds_body_carries _ _ BSet bd).
  - by apply (varbinds_body_carries _ _ BUndo bd).
  - by exists [].
  - by apply (varbinds_body_carries _ _ BNotify bd).
  - cbn [context_of] in Hc. unfold body_carries. cbn [encode_body]. rewrite Hc. cbn. exists [].
    split; [done|]. destruct p. cbn in *. by subst.
  - by apply (varbinds_body_carries _ _ BIndexAllocate bd).
  - by apply (varbinds_body_carries _ _ BIndexDeallocate bd).
  - destruct He as [Ho Ht]. destruct (caps_roundtrip c big Hc Ho Ht) as (e & E & D).
    exists e. split; [done|]. cbn. by rewrite D.
  - destruct He as [Ho Ht]. destruct (caps_roundtrip c big Hc Ho Ht) as (e & E & D).
    exists e. split; [done|]. cbn. by rewrite D.
  - by apply response_carries.
Qed.

(** ** PDUs *)

Definition encodable_pdu (p : AgentxPdu) : Prop :=
  is_u32 (session_id (header p)) ∧ is_u32 (transaction_id (header p)) ∧
  is_u32 (packet_id (header p)) ∧ encodable_body (body p).

(** The PDU as the decoder returns it from [len] payload bytes. *)
Definition canon_pdu (p : AgentxPdu) (len : nat) : AgentxPdu :=
  mkAgentxPdu
    (mkHeader (version (header p)) (as_u8_type (body_type (body p)))
       (context_flags (flags (header p)) (body p)) (session_id (header p))
       (transaction_id (header p)) (packet_id (header p)) (as_u32 (Z.of_nat len)) 0)
    (canon_body (body p)).

Lemma context_flags_none f b :
  has_context b = false →
  Z.land (context_flags f b) FLAG_NON_DEFAULT_CONTEXT = 0 ∧
  Z.land (context_flags f b) FLAG_NETWORK_BYTE_ORDER = Z.land f FLAG_NETWORK_BYTE_ORDER.
Proof.
  intros H. unfold context_flags. rewrite H. rewrite <- !Z.land_assoc. split; [|done].
  change (Z.land (Z.lxor 255 FLAG_NON_DEFAULT_CONTEXT) FLAG_NON_DEFAULT_CONTEXT) with 0.
  apply Z.land_0_r.
Qed.

Lemma decode_encode_pdu p :
  encodable_pdu p →
  ∃ bs, encode_pdu p = Some bs ∧
    decode_pdu bs = Some (Ok (canon_pdu p (length bs - 20))).
Proof.
  intros (H1 & H2 & H3 & Hb). pose proof Hb as (_ & Hc & _).
  assert (Hn : has_context (body p) = false) by (unfold has_context; by rewrite Hc).
  destruct (context_flags_none (flags (header p)) (body p) Hn) as [F1 F2].
  destruct (body_roundtrip (body p) (is_big_endian (header p)) Hb) as (e & E & D).
  unfold encode_pdu. rewrite E. cbn [mbind option_bind].
  set (h := mkHeader _ _ _ _ _ _ _ _). exists (encode_header h ++ e). split; [done|].
  unfold decode_pdu.
  assert (L : length (encode_header h) = 20%nat).
  { unfold encode_header. by rewrite !length_app, !length_to_bytes. }
  rewrite header_roundtrip; [|done|done|done|apply (wrap_u_range 32); lia].
  assert (B : is_big_endian (canon_header h) = is_big_endian (header p)).
  { unfold is_big_endian. cbn [canon_header h flags]. by rewrite F2. }
  assert (Le : (length (encode_header h ++ e) - 20 = length e)%nat) by (rewrite length_app; lia).
  rewrite B, Le. cbn [canon_header h h_pdu_type flags]. by rewrite D, F1.
Qed.

(** The bodies that come back whole: all but GetNext, and registrations of a
    range, of which the wire carries one arc of the bound. *)
Definition comes_back (b : PduBody) : Prop :=
  match b with
  | BGetNext _ => False
  | BRegister r | BUnregister r => range_subid r = 0 ∧ range_bound r = Oid.null
  | _ => True
  end.

(** The PDU with its header completed: the type of its body, the flags of the
    default context and the number of octets of its payload. *)
Definition completed (p : AgentxPdu) (len : nat) : AgentxPdu :=
  mkAgentxPdu
    (mkHeader (version (header p)) (as_u8_type (body_type (body p)))
       (context_flags (flags (header p)) (body p)) (session_id (header p))
       (transaction_id (header p)) (packet_id (header p)) (as_u32 (Z.of_nat len)) 0)
    (body p).

(** C17. A PDU in the default context whose OIDs and strings fit the wire form, other
    than a GetNext or the registration of a range, is encoded without
    panicking, and decoding the bytes gives the PDU back, body and all, with
    its header completed (type, context flag, payload length). *)
Theorem pdu_roundtrip p :
  encodable_pdu p → comes_back (body p) →
  ∃ bs, encode_pdu p = Some bs ∧ decode_pdu bs = Some (Ok (completed p (length bs - 20))).
Proof.
  intros He Hb. destruct (decode_encode_pdu p He) as (bs & E & D). exists bs. split; [done|]. rewrite D.
  do 2 f_equal. unfold canon_pdu, completed. f_equal.
  destruct He as (_ & _ & _ & _ & Hc & _). destruct (body p) as [| |[] |[] | | | | | | | | | | | | |]; cbn in *; try done.
  all: destruct Hb as [-> ->]; by subst.
Qed.

(** The others: a GetNext is decoded as a Get, and of a range only the arc of
    its bound comes back. *)
Theorem pdu_changed p :
  encodable_pdu p →
  ∃ bs p', encode_pdu p = Some bs ∧ decode_pdu bs = Some (Ok p') ∧
    (∀ s, body p = BGetNext s → body p' = BGet s) ∧
    (∀ r, body p = BRegister r → range_subid r ≠ 0 → body p' =
       BRegister (mkRegister (r_timeout r) (r_priority r) (range_subid r) (r_subtree r) [upper_bound r] None)).
Proof.
  intros He. destruct (decode_encode_pdu p He) as (bs & E & D). exists bs. eexists. split_and!; [done|done| |].
  - by intros s Hs; unfold canon_pdu; cbn; rewrite Hs.
  - intros r Hr Hn. unfold canon_pdu. cbn. rewrite Hr. cbn. unfold canon_register. by rewrite (proj2 (Z.eqb_neq _ _) Hn).
Qed.

(** ** The decoder terminates *)

Lemma take4_progress bs b rest : take4 bs = Ok (b, rest) → (length rest + 4 <= length bs)%nat.
Proof.
  unfold take4. destruct (Nat.ltb_spec (length bs) 4); [done|]. intros [= <- <-].
  rewrite length_drop. lia.
Qed.

Lemma decode_oid_progress bs big o rest :
  decode_oid_bytes bs big = Ok (o, rest) → (length rest + 4 <= length bs)%nat.
Proof.
  unfold decode_oid_bytes. destruct bs as [|n [|p [|i [|r bs]]]]; try done.
  case_match; [done|]. intros [= <- <-]. rewrite length_drop. cbn. lia.
Qed.

Lemma take_padded_progress bs n b rest :
  take_padded bs n = Ok (b, rest) → (length rest <= length bs)%nat.
Proof.
  unfold take_padded. repeat case_match; try done. intros [= <- <-]. rewrite !length_drop. lia.
Qed.

Lemma decode_data_progress tag bs big d rest :
  decode_data tag bs big = Ok (d, rest) → (length rest <= length bs)%nat.
Proof.
  assert (W : ∀ mk : Z → AgentxData,
    (let? (v, rest) := take4 bs in Ok (mk (from_bytes big v), rest)) = Ok (d, rest) →
    (length rest <= length bs)%nat).
  { intros mk. destruct (take4 bs) as [[b r]|] eqn:E; [|done]. cbn. intros [= <- <-].
    apply take4_progress in E. lia. }
  assert (S : ∀ mk : bytes → AgentxData,
    (let? (len, rest) := read_u32 bs big in
     let? (x, rest) := take_padded rest (Z.to_nat len) in Ok (mk x, rest)) = Ok (d, rest) →
    (length rest <= length bs)%nat).
  { intros mk. unfold read_u32. destruct (take4 bs) as [[b r]|] eqn:E; [|done]. cbn.
    destruct (take_padded r _) as [[x r']|] eqn:E2; [|done]. cbn. intros [= <- <-].
    apply take4_progress in E. apply take_padded_progress in E2. lia. }
  unfold decode_data. repeat (case_match; try done; try by apply W; try by apply S).
  all: try (intros [= <- <-]; cbn; rewrite ?length_drop; lia).
  all: first [by apply (S DOctetString)|by apply (S DOpaque)
             |by apply (W (λ v, DInteger (as_i32 v)))|idtac].
  destruct (decode_oid_bytes bs big) as [[o r]|] eqn:E; [|done]. cbn. intros [= <- <-].
  apply decode_oid_progress in E. lia.
Qed.

Lemma decode_varbind_progress bs big vb rest :
  decode_varbind bs big = Ok (vb, rest) → (length rest < length bs)%nat.
Proof.
  unfold decode_varbind, read_u16. destruct (length bs <? 2)%nat; [done|]. cbn.
  case_match; [done|]. destruct (decode_data _ _ _) as [[d r]|] eqn:E; [|done]. cbn.
  destruct (decode_oid_bytes r big) as [[o r']|] eqn:E2; [|done]. cbn. intros [= <- <-].
  apply decode_data_progress in E. apply decode_oid_progress in E2.
  rewrite !length_drop in E. lia.
Qed.

Lemma decode_range_progress bs big r rest :
  decode_range bs big = Ok (r, rest) → (length rest < length bs)%nat.
Proof.
  unfold decode_range. destruct (decode_oid_bytes bs big) as [[o1 r1]|] eqn:E; [|done]. cbn.
  destruct r1 as [|x r1]; [done|].
  destruct (decode_oid_bytes (x :: r1) big) as [[o2 r2]|] eqn:E2; [|done]. cbn. intros [= <- <-].
  apply decode_oid_progress in E. apply decode_oid_progress in E2. lia.
Qed.

Lemma decode_list_total {A} (item : bytes → result (A * bytes) AgentxError) fuel rest xs :
  (∀ bs x after, item bs = Ok (x, after) → (length after < length bs)%nat) →
  (length rest <= fuel)%nat → decode_list item fuel rest xs ≠ None.
Proof.
  intros Hp. revert rest xs. induction fuel as [|fuel IH]; intros [|b rest] xs Hf; try done.
  { cbn in Hf. lia. }
  cbn [decode_list]. destruct (item (b :: rest)) as [[x after]|] eqn:E; [|done].
  apply IH. apply Hp in E. cbn [length] in *. lia.
Qed.

Lemma decode_varbinds_total bs big : decode_varbinds bs big ≠ None.
Proof. apply decode_list_total; [|done]. intros ???. apply decode_varbind_progress. Qed.

Lemma decode_ranges_total bs big : decode_ranges bs big ≠ None.
Proof. apply decode_list_total; [|done]. intros ???. apply decode_range_progress. Qed.

Lemma map_decoded_total {A B} (f : A → B) r : r ≠ None → map_decoded f r ≠ None.
Proof. by destruct r. Qed.

Create HintDb agentx discriminated.
#[local] Hint Resolve decode_varbinds_total decode_ranges_total map_decoded_total : agentx.

(** C18. The decoder always answers: every iteration of its list loops consumes
    input, so any byte string is decoded to a PDU or to an error. *)
Theorem decode_total bs : decode_pdu bs ≠ None ∧ decode bs ≠ None.
Proof.
  assert (T : ∀ t bs big, decode_body t bs big ≠ None).
  { intros t bs' big. unfold decode_body.
    repeat case_match; try done; auto with agentx. }
  unfold decode_pdu, decode. destruct (decode_header bs) as [[h payload]|]; [|done].
  split; apply map_decoded_total, T.
Qed.

(** ** Decoded PDUs respect the declared widths *)

Lemma is_bytes_take n bs : is_bytes bs → is_bytes (take n bs).
Proof. apply Forall_take. Qed.

Lemma is_bytes_drop n bs : is_bytes bs → is_bytes (drop n bs).
Proof. apply Forall_drop. Qed.

Lemma take4_wf bs b rest : is_bytes bs → take4 bs = Ok (b, rest) →
  is_bytes b ∧ is_bytes rest ∧ length b = 4%nat.
Proof.
  unfold take4. intros Hb. destruct (Nat.ltb_spec (length bs) 4); [done|]. intros [= <- <-].
  split_and!; [by apply is_bytes_take|by apply is_bytes_drop|rewrite length_take; lia].
Qed.

Lemma from_bytes_u32 b big : is_bytes b → length b = 4%nat → is_u32 (from_bytes big b).
Proof. intros Hb Hl. pose proof (from_bytes_range big b Hb) as R. by rewrite Hl in R. Qed.

Lemma read_u32_wf bs big v rest : is_bytes bs → read_u32 bs big = Ok (v, rest) →
  is_u32 v ∧ is_bytes rest.
Proof.
  intros Hb. unfold read_u32. destruct (take4 bs) as [[b r]|] eqn:E; [|done]. cbn.
  intros [= <- <-]. destruct (take4_wf _ _ _ Hb E) as (? & ? & ?).
  split; [by apply from_bytes_u32|done].
Qed.

Lemma read_u16_wf bs big v rest : is_bytes bs → read_u16 bs big = Ok (v, rest) →
  is_u16 v ∧ is_bytes rest.
Proof.
  intros Hb. unfold read_u16. destruct (Nat.ltb_spec (length bs) 2); [done|]. intros [= <- <-].
  split; [|by apply is_bytes_drop].
  pose proof (from_bytes_range big (take 2 bs) (is_bytes_take 2 bs Hb)) as R.
  rewrite length_take, Nat.min_l in R by lia. exact R.
Qed.

Lemma take_padded_wf bs n b rest : is_bytes bs → take_padded bs n = Ok (b, rest) →
  is_bytes b ∧ is_bytes rest.
Proof.
  intros Hb. unfold take_padded. repeat case_match; try done. intros [= <- <-].
  split; [by apply is_bytes_take|by do 2 apply is_bytes_drop].
Qed.

Lemma read_words_wf n bs big : is_bytes bs → (n * 4 <= length bs)%nat → Oid.wf (read_words n bs big).
Proof.
  revert bs. induction n as [|n IH]; intros bs Hb Hl; [constructor|]. cbn [read_words].
  constructor.
  - apply from_bytes_u32; [by apply is_bytes_take|rewrite length_take; lia].
  - apply IH; [by apply is_bytes_drop|rewrite length_drop; lia].
Qed.

Lemma decode_oid_wf bs big o rest : is_bytes bs → decode_oid_bytes bs big = Ok (o, rest) →
  Oid.wf o ∧ is_bytes rest.
Proof.
  intros Hb. unfold decode_oid_bytes. destruct bs as [|n [|p [|i [|r bs]]]]; try done.
  destruct (Nat.ltb_spec (length bs) (Z.to_nat n * 4)) as [|Hl]; [done|]. intros [= <- <-].
  apply (Forall_drop _ 1) in Hb as Hp. cbn in Hp. inversion Hp as [|? ? Hp1 _]; subst.
  apply (Forall_drop _ 4) in Hb. cbn in Hb. rewrite drop_0 in Hb. split; [|by apply is_bytes_drop].
  apply Forall_app. split; [|by apply read_words_wf].
  destruct (negb (p =? 0)); [|constructor]. unfold is_u8, is_u32 in *.
  repeat (constructor; [lia|]). constructor.
Qed.

Lemma decode_descr_wf bs big s rest : is_bytes bs → decode_descr bs big = Ok (s, rest) →
  is_text s ∧ is_bytes rest.
Proof.
  intros Hb. unfold decode_descr. destruct (read_u32 bs big) as [[v r]|] eqn:E; [|done]. cbn.
  destruct (read_u32_wf _ _ _ _ Hb E) as [_ Hr].
  destruct (take_padded r _) as [[b r']|] eqn:E2; [|done]. cbn. intros [= <- <-].
  destruct (take_padded_wf _ _ _ _ Hr E2). split; [by apply is_text_from_utf8_lossy|done].
Qed.

Lemma wrap_i32_range v : is_i32 (as_i32 v).
Proof. unfold is_i32, wrap_i. pose proof (Z.mod_pos_bound (v + 2 ^ (32 - 1)) (2 ^ 32)). lia. Qed.

Lemma decode_data_wf tag bs big d rest : is_bytes bs → decode_data tag bs big = Ok (d, rest) →
  wf_data d ∧ is_bytes rest.
Proof.
  intros Hb.
  assert (W : ∀ mk : Z → AgentxData, (∀ v, is_u32 v → wf_data (mk v)) →
    (let? (v, rest) := take4 bs in Ok (mk (from_bytes big v), rest)) = Ok (d, rest) →
    wf_data d ∧ is_bytes rest).
  { intros mk Hm. destruct (take4 bs) as [[b r]|] eqn:E; [|done]. cbn. intros [= <- <-].
    destruct (take4_wf _ _ _ Hb E) as (? & ? & ?). split; [by apply Hm, from_bytes_u32|done]. }
  assert (S : ∀ mk : bytes → AgentxData, (∀ b, is_bytes b → wf_data (mk b)) →
    (let? (len, rest) := read_u32 bs big in
     let? (x, rest) := take_padded rest (Z.to_nat len) in Ok (mk x, rest)) = Ok (d, rest) →
    wf_data d ∧ is_bytes rest).
  { intros mk Hm. destruct (read_u32 bs big) as [[v r]|] eqn:E; [|done]. cbn.
    destruct (read_u32_wf _ _ _ _ Hb E) as [_ Hr].
    destruct (take_padded r _) as [[x r']|] eqn:E2; [|done]. cbn. intros [= <- <-].
    destruct (take_padded_wf _ _ _ _ Hr E2). split; [by apply Hm|done]. }
  unfold decode_data. repeat (case_match; try done).
  all: try (by apply (W DTimeTicks)). all: try (by apply (W DCounter32)).
  all: try (by apply (W DGauge32)). all: try (by apply (S DOpaque)).
  all: try (by apply (S DOctetString)).
  all: try (apply (W (λ v, DInteger (as_i32 v))); intros v _; apply wrap_i32_range).
  all: lazymatch goal with
  | |- context [DCounter64] =>
      intros [= <- <-]; split; [|by apply is_bytes_drop];
      pose proof (from_bytes_range big (take 8 bs) (is_bytes_take 8 bs Hb)) as R;
      match goal with H : (length _ <? 8)%nat = false |- _ => apply Nat.ltb_ge in H end;
      by rewrite length_take, Nat.min_l in R by lia
  | |- context [decode_oid_bytes] =>
      destruct (decode_oid_bytes bs big) as [[o r]|] eqn:E; [|done]; cbn; intros [= <- <-];
      by apply decode_oid_wf in E
  | |- context [DIpAddress] =>
      intros [= <- <-]; subst; apply (Forall_app is_u8 [_; _; _; _]) in Hb; exact Hb
  | |- context [DNull] => intros [= <- <-]; by split
  end.
Qed.

Lemma decode_varbind_wf bs big vb rest : is_bytes bs → decode_varbind bs big = Ok (vb, rest) →
  wf_varbind vb ∧ is_bytes rest.
Proof.
  intros Hb. unfold decode_varbind. destruct (read_u16 bs big) as [[t r]|] eqn:E; [|done]. cbn.
  destruct (read_u16_wf _ _ _ _ Hb E) as [_ Hr]. case_match; [done|].
  destruct (decode_data t (drop 2 r) big) as [[d r']|] eqn:E2; [|done]. cbn.
  destruct (decode_data_wf _ _ _ _ _ (is_bytes_drop 2 r Hr) E2) as [Hd Hr'].
  destruct (decode_oid_bytes r' big) as [[o r'']|] eqn:E3; [|done]. cbn. intros [= <- <-].
  destruct (decode_oid_wf _ _ _ _ Hr' E3). by repeat split.
Qed.

Lemma decode_range_wf bs big r rest : is_bytes bs → decode_range bs big = Ok (r, rest) →
  wf_range r ∧ is_bytes rest.
Proof.
  intros Hb. unfold decode_range. destruct (decode_oid_bytes bs big) as [[o1 r1]|] eqn:E; [|done].
  cbn. destruct (decode_oid_wf _ _ _ _ Hb E) as [H1 Hr]. destruct r1 as [|x r1]; [done|].
  destruct (decode_oid_bytes (x :: r1) big) as [[o2 r2]|] eqn:E2; [|done]. cbn. intros [= <- <-].
  destruct (decode_oid_wf _ _ _ _ Hr E2). by repeat split.
Qed.

Lemma decode_list_wf {A} (item : bytes → result (A * bytes) AgentxError) (P : A → Prop)
    fuel rest xs ys :
  (∀ bs x after, is_bytes bs → item bs = Ok (x, after) → P x ∧ is_bytes after) →
  is_bytes rest → Forall P xs → decode_list item fuel rest xs = Some (Ok ys) → Forall P ys.
Proof.
  intros Hi. revert rest xs. induction fuel as [|fuel IH]; intros [|b rest] xs Hb Hx; cbn [decode_list];
    try (by intros [= <-]).
  destruct (item (b :: rest)) as [[x after]|] eqn:E; [|done].
  destruct (Hi _ _ _ Hb E) as [Hp Ha]. apply IH; [done|]. apply Forall_app. auto.
Qed.

Lemma map_decoded_Ok {A B} (f : A → B) r b :
  map_decoded f r = Some (Ok b) → ∃ a, r = Some (Ok a) ∧ b = f a.
Proof. destruct r as [[a|]|]; cbn; try done. intros [= <-]. eauto. Qed.

Lemma decode_varbinds_wf bs big vbs : is_bytes bs → decode_varbinds bs big = Some (Ok vbs) →
  Forall wf_varbind vbs.
Proof.
  intros Hb. apply decode_list_wf; [|done|constructor]. intros ???. apply decode_varbind_wf.
Qed.

Lemma decode_ranges_wf bs big rs : is_bytes bs → decode_ranges bs big = Some (Ok rs) →
  Forall wf_range rs.
Proof.
  intros Hb. apply decode_list_wf; [|done|constructor]. intros ???. apply decode_range_wf.
Qed.

Lemma decode_register_wf bs big r rest : is_bytes bs → decode_register bs big = Ok (r, rest) →
  wf_register r.
Proof.
  intros Hb. unfold decode_register. destruct bs as [|t [|p [|rs [|z bs]]]]; try done.
  apply (Forall_app is_u8 [_; _; _; _]) in Hb as [H4 Hb].
  inversion H4 as [|? ? Ht H3]; subst. inversion H3 as [|? ? Hp H2]; subst.
  inversion H2 as [|? ? Hrs _]; subst.
  destruct (decode_oid_bytes bs big) as [[o r1]|] eqn:E; [|done]. cbn.
  destruct (decode_oid_wf _ _ _ _ Hb E) as [Ho Hr]. destruct (negb (rs =? 0)).
  - destruct (read_u32 r1 big) as [[u r2]|] eqn:E2; [|done]. cbn. intros [= <- <-].
    destruct (read_u32_wf _ _ _ _ Hr E2) as [Hu _].
    unfold wf_register. cbn. split_and!; try done. by constructor; [|constructor].
  - intros [= <- <-]. unfold wf_register. cbn. split_and!; try done. constructor.
Qed.

Lemma decode_caps_wf bs big c rest : is_bytes bs → decode_caps bs big = Ok (c, rest) → wf_caps c.
Proof.
  intros Hb. unfold decode_caps. destruct (decode_oid_bytes bs big) as [[o r1]|] eqn:E; [|done]. cbn.
  destruct (decode_oid_wf _ _ _ _ Hb E) as [Ho Hr].
  destruct (decode_descr r1 big) as [[s r2]|] eqn:E2; [|done]. cbn. intros [= <- <-].
  destruct (decode_descr_wf _ _ _ _ Hr E2). by repeat split.
Qed.

(** Bodies built from a list of varbinds, or of ranges. *)
Lemma varbinds_body_wf bs big (mk : list AgentxVarBind → PduBody) b rest :
  (∀ vbs, Forall wf_varbind vbs → wf_body (mk vbs)) → is_bytes bs →
  map_decoded (λ vbs, (mk vbs, [] : bytes)) (decode_varbinds bs big) = Some (Ok (b, rest)) →
  wf_body b.
Proof. intros Hm Hb (vbs & E & [= -> _])%map_decoded_Ok. by apply Hm, (decode_varbinds_wf bs big). Qed.

Lemma ranges_body_wf bs big (mk : list (Oid * Oid) → PduBody) b rest :
  (∀ rs, Forall wf_range rs → wf_body (mk rs)) → is_bytes bs →
  map_decoded (λ rs, (mk rs, [] : bytes)) (decode_ranges bs big) = Some (Ok (b, rest)) →
  wf_body b.
Proof. intros Hm Hb (rs & E & [= -> _])%map_decoded_Ok. by apply Hm, (decode_ranges_wf bs big). Qed.

Lemma decode_body_wf t bs big b rest :
  is_bytes bs → decode_body t bs big = Some (Ok (b, rest)) → wf_body b.
Proof.
  intros Hb. unfold decode_body. destruct (type_from_u8 t) as [ty|]; [|done]. destruct ty.
  - destruct bs as [|x [|y [|z [|w bs]]]]; try done.
    apply (Forall_app is_u8 [_; _; _; _]) in Hb as [H4 Hb]. inversion H4 as [|? ? Hx _]; subst.
    destruct (decode_oid_bytes bs big) as [[o r1]|] eqn:E; [|done]. cbn.
    destruct (decode_oid_wf _ _ _ _ Hb E) as [Ho Hr].
    destruct (decode_descr r1 big) as [[s r2]|] eqn:E2; [|done]. cbn. intros [= <- <-].
    by destruct (decode_descr_wf _ _ _ _ Hr E2).
  - destruct bs as [|x [|y [|z [|w bs]]]]; try done. by intros [= <- <-].
  - destruct (decode_register bs big) as [[r r1]|] eqn:E; [|done]. cbn. intros [= <- <-].
    by eapply decode_register_wf.
  - destruct (decode_register bs big) as [[r r1]|] eqn:E; [|done]. cbn. intros [= <- <-].
    by eapply decode_register_wf.
  - by apply (ranges_body_wf _ _ (λ rs, BGet (mkSearch None rs))).
  - by apply (ranges_body_wf _ _ (λ rs, BGet (mkSearch None rs))).
  - destruct (read_u16 bs big) as [[n r1]|] eqn:E1; [|done].
    destruct (read_u16_wf _ _ _ _ Hb E1) as [Hn H1].
    destruct (read_u16 r1 big) as [[m r2]|] eqn:E2; [|done].
    destruct (read_u16_wf _ _ _ _ H1 E2) as [Hm H2].
    by apply (ranges_body_wf _ _ (λ rs, BGetBulk (mkBulk None n rs m))).
  - by apply (varbinds_body_wf _ _ (λ vbs, BSet (mkVarBinds None vbs))).
  - by apply (varbinds_body_wf _ _ (λ vbs, BUndo (mkVarBinds None vbs))).
  - by intros [= <- <-].
  - by apply (varbinds_body_wf _ _ (λ vbs, BNotify (mkVarBinds None vbs))).
  - by intros [= <- <-].
  - by apply (varbinds_body_wf _ _ (λ vbs, BIndexAllocate (mkVarBinds None vbs))).
  - by apply (varbinds_body_wf _ _ (λ vbs, BIndexDeallocate (mkVarBinds None vbs))).
  - destruct (decode_caps bs big) as [[c r1]|] eqn:E; [|done]. cbn. intros [= <- <-].
    by eapply decode_caps_wf.
  - destruct (decode_caps bs big) as [[c r1]|] eqn:E; [|done]. cbn. intros [= <- <-].
    by eapply decode_caps_wf.
  - destruct (read_u32 bs big) as [[u r0]|] eqn:E0; [|done].
    destruct (read_u32_wf _ _ _ _ Hb E0) as [Hu H0].
    destruct (read_u16 r0 big) as [[n r1]|] eqn:E1; [|done].
    destruct (read_u16_wf _ _ _ _ H0 E1) as [Hn H1].
    destruct (read_u16 r1 big) as [[m r2]|] eqn:E2; [|done].
    destruct (read_u16_wf _ _ _ _ H1 E2) as [Hm H2].
    by apply (varbinds_body_wf _ _ (λ vbs, BResponse (mkResponse u n m vbs))).
Qed.

Lemma decode_header_wf bs0 h rest :
  is_bytes bs0 → decode_header bs0 = Ok (h, rest) → wf_header h ∧ is_bytes rest.
Proof.
  intros Hb. unfold decode_header. destruct bs0 as [|v [|t [|f bs]]]; try done.
  set (bs0 := v :: t :: f :: bs) in *. destruct (Nat.ltb_spec (length bs0) 20) as [|Hl]; [done|].
  assert (W : ∀ a big, (a + 4 <= 20)%nat → is_u32 (from_bytes big (slice a (a + 4) bs0))).
  { intros a big Ha. unfold slice. apply from_bytes_u32.
    { exact (is_bytes_take _ _ (is_bytes_drop _ _ Hb)). }
    rewrite length_take, length_drop. lia. }
  intros [= <- <-]. split; [|exact (is_bytes_drop 20 _ Hb)].
  inversion Hb as [|? ? Hv Hb1]; subst. inversion Hb1 as [|? ? Ht Hb2]; subst.
  inversion Hb2 as [|? ? Hf _]; subst.
  unfold wf_header; cbn -[slice from_bytes].
  split_and!; [exact Hv|exact Ht|exact Hf|apply (W 4%nat)|apply (W 8%nat)|apply (W 12%nat)
    |apply (W 16%nat)]; lia.
Qed.

(** Whatever bytes arrive, a decoded PDU has every field within its declared
    width: integers in range, OID arcs 32-bit, strings valid text. *)
Theorem decode_pdu_wf bs p :
  is_bytes bs → decode_pdu bs = Some (Ok p) → wf_pdu p.
Proof.
  intros Hb. unfold decode_pdu. destruct (decode_header bs) as [[h payload]|] eqn:E; [|done].
  destruct (decode_header_wf _ _ _ Hb E) as [Hh Hp].
  intros ([b rest] & D & ->)%map_decoded_Ok. apply decode_body_wf in D; [|done].
  split; [done|]. cbn [body fst]. destruct (negb _); [|done].
  destruct b; cbn in *; unfold wf_register, wf_varbinds, wf_caps, wf_search in *; cbn;
    repeat split; try apply D; constructor.
Qed.

Lemma decode_pdu_wf_witness :
  wf_pdu (mkAgentxPdu (mkHeader 1 12 0 7 8 9 0 0) (BPing (mkPing None))).
Proof.
  apply (decode_pdu_wf [1; 12; 0; 0; 7; 0; 0; 0; 8; 0; 0; 0; 9; 0; 0; 0; 0; 0; 0; 0]).
  - apply (bool_decide_eq_true _). vm_compute. reflexivity.
  - reflexivity.
Defined.

(** ** The encoder's panic *)

Definition data_oids (d : AgentxData) : list Oid := match d with DOid o => [o] | _ => [] end.
Definition varbind_oids (vb : AgentxVarBind) : list Oid := data_oids (data vb) ++ [name vb].
Definition range_oids (r : Oid * Oid) : list Oid := [r.1; r.2].

Definition oids_of (b : PduBody) : list Oid :=
  match b with
  | BOpen o => [o_id o]
  | BRegister r | BUnregister r => [r_subtree r]
  | BGet s | BGetNext s => flat_map range_oids (search_range s)
  | BGetBulk b => flat_map range_oids (b_search_range b)
  | BSet b | BUndo b | BNotify b | BIndexAllocate b | BIndexDeallocate b =>
      flat_map varbind_oids (varbinds b)
  | BAddAgentCaps c | BRemoveAgentCaps c => [c_id c]
  | BResponse r => flat_map varbind_oids (resp_varbinds r)
  | BClose _ | BCleanup | BPing _ => []
  end.

Abbreviation internet := [1; 3; 6; 1].

Lemma bind_None {A B} (m : option A) (k : A → option B) (P Q : Prop) :
  (m = None ↔ P) → (∀ a, k a = None ↔ Q) → (let! x := m in k x) = None ↔ P ∨ Q.
Proof.
  intros Hm Hk. destruct m as [a|]; cbn.
  - rewrite Hk. split; [by right|]. intros [H|H]; [|done]. by apply Hm in H.
  - split; [|done]. intros _. left. by apply Hm.
Qed.

Lemma varbind_None vb out big : encode_varbind vb out big = None ↔ internet ∈ varbind_oids vb.
Proof.
  unfold encode_varbind, varbind_oids. rewrite elem_of_app, list_elem_of_singleton.
  apply bind_None.
  - unfold encode_data. destruct (data vb); cbn [data_payload data_oids mbind option_bind];
      try (split; [done|by intros ?%elem_of_nil]).
    rewrite list_elem_of_singleton. unfold encode_oid_bytes.
    pose proof (encode_oid_None o 0 big) as [H1 H2].
    destruct (encode_oid_bytes_with o 0 big); cbn; split; intros H; try done.
    + by rewrite <- H in H2; specialize (H2 eq_refl).
    + symmetry. by apply H1.
  - intros out'. pose proof (encode_oid_None (name vb) 0 big) as [H1 H2].
    destruct (encode_oid_bytes_with (name vb) 0 big); cbn; split; intros H; try done.
    + by rewrite <- H in H2; specialize (H2 eq_refl).
    + symmetry. by apply H1.
Qed.

Lemma oid_None o incl big : encode_oid_bytes_with o incl big = None ↔ internet = o.
Proof. rewrite encode_oid_None. by split. Qed.

Lemma range_None r out big : encode_range r out big = None ↔ internet ∈ range_oids r.
Proof.
  unfold encode_range, range_oids. rewrite elem_of_cons, list_elem_of_singleton.
  apply bind_None; [apply oid_None|]. intros s.
  rewrite <- (oid_None r.2 0 big). by destruct (encode_oid_bytes_with r.2 0 big).
Qed.

Lemma list_None {A} (enc : A → bytes → option bytes) (oids : A → list Oid) l out :
  (∀ x out, enc x out = None ↔ internet ∈ oids x) →
  encode_list enc l out = None ↔ internet ∈ flat_map oids l.
Proof.
  intros H. revert out. induction l as [|x l IH]; intros out; cbn.
  - split; [done|by intros ?%elem_of_nil].
  - rewrite elem_of_app. apply bind_None; [apply H|apply IH].
Qed.

(** Encoding panics exactly when the body carries the OID [1.3.6.1]: the packed
    form reads the fifth sub-identifier of an OID that has only four. *)
Theorem encode_panics_iff p :
  encode_pdu p = None ↔ internet ∈ oids_of (body p).
Proof.
  unfold encode_pdu.
  assert (B : encode_body (body p) [] (is_big_endian (header p)) = None ↔
    internet ∈ oids_of (body p)).
  { generalize (is_big_endian (header p)). intros big.
    assert (O : ∀ o (k : bytes → option bytes), (∀ e, k e ≠ None) →
      (let! id := encode_oid_bytes o big in k id) = None ↔ internet ∈ [o]).
    { intros o k Hk. rewrite list_elem_of_singleton, <- (oid_None o 0 big).
      unfold encode_oid_bytes. destruct (encode_oid_bytes_with o 0 big) as [e|]; cbn; [|done].
      split; [|done]. intros H. by apply Hk in H. }
    destruct (body p); cbn [encode_body oids_of]; try (by apply O);
      try (by apply list_None; intros; apply varbind_None);
      try (by apply list_None; intros; apply range_None);
      by split; [|intros ?%elem_of_nil]. }
  rewrite <- B. by destruct (encode_body _ _ _).
Qed.

(** ** Departures from RFC 2741 *)

Definition sample_header (f : Z) : AgentxHeader := mkHeader VERSION 0 f 1 2 3 0 0.
Definition sample_varbinds : list AgentxVarBind :=
  [mkAxVarBind [1; 3; 6; 1; 2; 1] (DInteger 7); mkAxVarBind [1; 3; 6; 1; 4; 1] DNull].

(** A non-default context does not survive: it is written at the front of the
    body and never read back, so a SET that carries one is decoded into an
    error, a SET with an empty one into a wrong error too, and only a body
    without other fields comes back, with the context emptied. *)
Theorem context_not_consumed :
  let round := λ b, match encode_pdu (mkAgentxPdu (sample_header 0) b) with
                    | Some bs => decode_pdu bs
                    | None => None
                    end in
  round (BSet (mkVarBinds (Some (str "ctx")) sample_varbinds)) = Some (Err UnsupportedType) ∧
  round (BGet (mkSearch (Some (str "ctx")) [])) = Some (Err Truncated) ∧
  option_map (λ r, match r with Ok p => Some (body p) | Err _ => None end)
    (round (BPing (mkPing (Some (str "ctx"))))) = Some (Some (BPing (mkPing (Some [])))).
Proof. by vm_compute. Qed.

(** The payload length of the header is not looked at: a response cut after its
    first varbind decodes without error to a response with one varbind. *)
Theorem payload_length_unchecked :
  let p := mkAgentxPdu (sample_header 0) (BResponse (mkResponse 0 0 0 sample_varbinds)) in
  ∃ bs q, encode_pdu p = Some bs ∧ decode_pdu (take (length bs - 12) bs) = Some (Ok q) ∧
    body q = BResponse (mkResponse 0 0 0 (take 1 sample_varbinds)) ∧
    payload_length (header q) = Z.of_nat (length bs) - 20 ∧
    Z.of_nat (length (take (length bs - 12) bs)) - 20 < payload_length (header q).
Proof. cbn zeta. eexists _, _. split; [vm_compute; reflexivity|]. by vm_compute. Qed.

(** The byte-order flag is the bit the code also names [ANY_INDEX]: an
    IndexAllocate for any index switches its whole packet to big-endian. *)
Theorem any_index_is_byte_order :
  FLAG_ANY_INDEX = FLAG_NETWORK_BYTE_ORDER ∧
  encode_header (mkHeader VERSION 13 FLAG_ANY_INDEX 1 2 3 4 0) =
    [1; 13; 4; 0; 0; 0; 0; 1; 0; 0; 0; 2; 0; 0; 0; 3; 0; 0; 0; 4] ∧
  encode_header (mkHeader VERSION 13 16 1 2 3 4 0) =
    [1; 13; 16; 0; 1; 0; 0; 0; 2; 0; 0; 0; 3; 0; 0; 0; 4; 0; 0; 0].
Proof. by vm_compute. Qed.

Lemma pdu_roundtrip_witness :
  let p := mkAgentxPdu (sample_header 4)
    (BRegister (mkRegister 5 127 0 [1; 3; 6; 1; 4; 1; 8072] Oid.null None)) in
  encodable_pdu p ∧ ∃ bs, encode_pdu p = Some bs ∧
    decode_pdu bs = Some (Ok (completed p (length bs - 20))).
Proof.
  cbn zeta.
  assert (H : encodable_pdu (mkAgentxPdu (sample_header 4)
    (BRegister (mkRegister 5 127 0 [1; 3; 6; 1; 4; 1; 8072] Oid.null None)))).
  { assert (W : Oid.wf [1; 3; 6; 1; 4; 1; 8072]) by (apply (bool_decide_eq_true _); reflexivity).
    unfold encodable_pdu, encodable_body, wf_body, wf_register, is_u32, is_u8. cbn.
    split_and!; try lia; try done; try constructor; try exact W.
    cbn. split; [lia|]. exists 4. split; [reflexivity|lia]. }
  split; [exact H|]. exact (pdu_roundtrip _ H (conj eq_refl eq_refl)).
Defined.
