(* ===== verification/AgentxMaster.v ===== *)
(** * AgentX master and subagent ([agentx/master.rs], [agentx/subagent.rs])

    The master's session and registration tables under the events of its
    connection tasks, owner selection, request forwarding, and the subagent's
    dispatch. Sockets, timeouts and locks are the environment: an event says
    what was read, whether a write succeeded, or that a task's stream ended. *)

From Stdlib Require Import ZArith Lia.
From S2P Require Import Prelude MachineInts Text Oid Value AgentxTypes AgentxCodec.
From S2P Require Import AgentxRoundtrip.

Definition FIRST_SESSION_ID : Z := 1.

(** ** Value conversions *)

Definition data_to_value (d : AgentxData) : Value :=
  match d with
  | DInteger v => VInteger v
  | DOctetString b => VOctetString b
  | DNull => VNull
  | DOid o => VOid o
  | DIpAddress ip => VIpAddress ip
  | DCounter32 v => VCounter32 v
  | DGauge32 v => VGauge32 v
  | DTimeTicks v => VTimeTicks v
  | DOpaque b => VOpaque b
  | DCounter64 v => VCounter64 v
  end.

Definition value_to_data (v : Value) : AgentxData :=
  match v with
  | VInteger v => DInteger (as_i32 v)
  | VOctetString b => DOctetString b
  | VNull => DNull
  | VOid o => DOid o
  | VIpAddress ip => DIpAddress ip
  | VCounter32 v => DCounter32 v
  | VGauge32 v => DGauge32 v
  | VTimeTicks v => DTimeTicks v
  | VOpaque b => DOpaque b
  | VCounter64 v => DCounter64 v
  | VNoSuchObject | VNoSuchInstance | VEndOfMibView => DNull
  end.

Definition value_to_varbind (n : Oid) (v : Value) : AgentxVarBind := mkAxVarBind n (value_to_data v).

(** ** State *)

Record Registration := mkRegistration {
  subtree : Oid;
  range_end : Oid;
  reg_session : Z;
  priority : Z
}.

(** A session's counter and the packet ids with a waiting forwarder. *)
Record Session := mkSession {
  next_packet_id : Z;
  pending : gset Z;
  subagent_id : Oid
}.

Record Master := mkMaster {
  sessions : gmap Z Session;
  subtrees : list Registration;
  next_session_id : Z
}.

Definition new_master : Master := mkMaster ∅ [] FIRST_SESSION_ID.

Definition set_sessions (ss : gmap Z Session) (m : Master) : Master :=
  mkMaster ss (subtrees m) (next_session_id m).
Definition set_subtrees (rs : list Registration) (m : Master) : Master :=
  mkMaster (sessions m) rs (next_session_id m).

Definition session_count (m : Master) : nat := size (sessions m).
Definition registration_count (m : Master) : nat := length (subtrees m).

(** ** Registrations *)

(** [a.subtree.cmp(&b.subtree).then(a.priority.cmp(&b.priority)) != Greater] *)
Definition registration_leb (a b : Registration) : bool :=
  match Oid.cmp (subtree a) (subtree b) with
  | Lt => true
  | Gt => false
  | Eq => priority a <=? priority b
  end.

Definition range_end_of (r : RegisterBody) : Oid :=
  if negb (range_subid r =? 0) then
    let idx := Z.to_nat (saturating_sub_u (range_subid r) 1) in
    let bound := default 0 (head (range_bound r)) in
    if (idx <? length (r_subtree r))%nat then <[idx := bound]> (r_subtree r) else r_subtree r
  else Oid.null.

Definition add_registration (sid : Z) (r : RegisterBody) (m : Master) : Master :=
  let reg := mkRegistration (r_subtree r) (range_end_of r) sid (r_priority r) in
  set_subtrees (sort_by registration_leb (subtrees m ++ [reg])) m.

Definition remove_registration (sid : Z) (sub : Oid) (m : Master) : Master :=
  set_subtrees (retain (fun r => negb ((reg_session r =? sid) && Oid.eqb (subtree r) sub))
                  (subtrees m)) m.

Definition reclaim_session (sid : Z) (m : Master) : Master :=
  mkMaster (delete sid (sessions m)) (retain (fun r => negb (reg_session r =? sid)) (subtrees m))
    (next_session_id m).

Definition covers (oid : Oid) (r : Registration) : bool :=
  Oid.is_prefix_of (subtree r) oid && (Oid.is_empty (range_end r) || Oid.leb oid (range_end r)).

(** [min_by_key(|r| (r.subtree.len(), r.priority))]: the later row replaces the
    best one only when its key is strictly smaller. *)
Definition key_gt (a b : Registration) : bool :=
  (length (subtree b) <? length (subtree a))%nat
  || ((length (subtree b) =? length (subtree a))%nat && (priority b <? priority a)).

Definition owner_for (oid : Oid) (m : Master) : option Z :=
  reg_session <$> min_by key_gt (List.filter (covers oid) (subtrees m)).

(** ** Sessions *)

Definition response_header (req : AgentxHeader) (sid : Z) : AgentxHeader :=
  mkHeader VERSION (as_u8_type TResponse) (flags req) sid (transaction_id req) (packet_id req) 0 0.

(** [assign_session]: the new id, the Open response, the master. *)
Definition assign_session (req : AgentxHeader) (id : Oid) (m : Master) : Z * AgentxPdu * Master :=
  let sid := next_session_id m in
  (sid,
   mkAgentxPdu (response_header req sid) (BResponse (mkResponse 0 (error_code NoError) 0 [])),
   mkMaster (<[sid := mkSession 0 ∅ id]> (sessions m)) (subtrees m) (as_u32 (sid + 1))).

Definition response_for (req : AgentxHeader) (sid : Z) (e : AgentxError)
    (vbs : list AgentxVarBind) : AgentxPdu :=
  mkAgentxPdu (response_header req sid) (BResponse (mkResponse 0 (error_code e) 0 vbs)).

(** [next_packet]: [fetch_add(1).wrapping_add(1)]. *)
Definition next_packet (s : Session) : Z * Session :=
  let id := as_u32 (next_packet_id s + 1) in
  (id, mkSession id (pending s) (subagent_id s)).

Definition add_pending (id : Z) (s : Session) : Session :=
  mkSession (next_packet_id s) ({[id]} ∪ pending s) (subagent_id s).
Definition remove_pending (id : Z) (s : Session) : Session :=
  mkSession (next_packet_id s) (pending s ∖ {[id]}) (subagent_id s).

(** ** The connection task, one PDU at a time *)

Inductive Outcome :=
| Continue      (* back to the read *)
| Break         (* leave the loop: the session is reclaimed *)
| Fail.         (* [?] on a failed write: the task returns at once *)

(** What the loop body does with one PDU: the master, the PDU it writes, the
    Response it hands to a waiting forwarder. *)
Definition handle_pdu (sid : Z) (p : AgentxPdu) (m : Master) :
    Master * option AgentxPdu * option Z * Outcome :=
  let ack := Some (response_for (header p) sid NoError []) in
  match body p with
  | BClose _ => (m, None, None, Break)
  | BRegister r => (add_registration sid r m, ack, None, Continue)
  | BUnregister u => (remove_registration sid (r_subtree u) m, ack, None, Continue)
  | BPing _ | BNotify _ | BAddAgentCaps _ | BRemoveAgentCaps _
  | BIndexAllocate _ | BIndexDeallocate _ => (m, ack, None, Continue)
  | BCleanup => (m, None, None, Continue)
  | BResponse _ =>
      match sessions m !! sid with
      | Some s =>
          if bool_decide (packet_id (header p) ∈ pending s)
          then (set_sessions (<[sid := remove_pending (packet_id (header p)) s]> (sessions m)) m,
                None, Some (packet_id (header p)), Continue)
          else (m, None, None, Continue)
      | None => (m, None, None, Continue)
      end
  | _ => (m, None, None, Continue)
  end.

(** The system: the master and the connection tasks that are still running. *)
Record System := mkSystem { master : Master; tasks : gset Z }.

Definition initial : System := mkSystem new_master ∅.

Inductive Event :=
| Opened (req : AgentxHeader) (id : Oid) (write_ok : bool)  (* a connection whose first PDU is Open *)
| Received (sid : Z) (p : AgentxPdu) (write_ok : bool)
| ReadEnded (sid : Z)                                       (* end of stream or a bad PDU *)
| Forwarded (sid : Z)                                       (* a forwarder sends a request *)
| TimedOut (sid : Z) (packet : Z).

Definition end_task (sid : Z) (m : Master) (s : System) : System :=
  mkSystem (reclaim_session sid m) (tasks s ∖ {[sid]}).

Definition step (s : System) (e : Event) : System * option AgentxPdu :=
  match e with
  | Opened req id write_ok =>
      let '(sid, resp, m) := assign_session req id (master s) in
      if write_ok then (mkSystem m ({[sid]} ∪ tasks s), Some resp)
      else (mkSystem m (tasks s), None)
  | Received sid p write_ok =>
      if bool_decide (sid ∈ tasks s) then
        let '(m, out, _, outcome) := handle_pdu sid p (master s) in
        match outcome with
        | Break => (end_task sid m s, None)
        | _ =>
            match out with
            | Some resp =>
                if write_ok then (mkSystem m (tasks s), Some resp)
                else (mkSystem m (tasks s ∖ {[sid]}), None)
            | None => (mkSystem m (tasks s), None)
            end
        end
      else (s, None)
  | ReadEnded sid =>
      if bool_decide (sid ∈ tasks s) then (end_task sid (master s) s, None) else (s, None)
  | Forwarded sid =>
      match sessions (master s) !! sid with
      | Some se =>
          let '(id, se') := next_packet se in
          (mkSystem (set_sessions (<[sid := add_pending id se']> (sessions (master s))) (master s))
             (tasks s), None)
      | None => (s, None)
      end
  | TimedOut sid packet =>
      match sessions (master s) !! sid with
      | Some se =>
          (mkSystem (set_sessions (<[sid := remove_pending packet se]> (sessions (master s)))
                       (master s)) (tasks s), None)
      | None => (s, None)
      end
  end.

Definition run (s : System) (es : list Event) : System := fold_left (fun s e => (step s e).1) es s.

(** ** Forwarding *)

Inductive ForwardError := NoOwner | AgentxErr (c : Z) | Disconnected | Timeout | NoData.

Definition request_header (t : PduType) (sid packet : Z) : AgentxHeader :=
  mkHeader VERSION (as_u8_type t) 0 sid 0 packet 0 0.

Definition get_request (sid packet : Z) (oid : Oid) : AgentxPdu :=
  mkAgentxPdu (request_header TGet sid packet) (BGet (mkSearch None [(oid, Oid.null)])).
Definition get_next_request (sid packet : Z) (oid : Oid) : AgentxPdu :=
  mkAgentxPdu (request_header TGetNext sid packet) (BGetNext (mkSearch None [(oid, Oid.null)])).
Definition set_request (sid packet : Z) (oid : Oid) (v : Value) : AgentxPdu :=
  mkAgentxPdu (request_header TSet sid packet) (BSet (mkVarBinds None [value_to_varbind oid v])).

(** The first varbind of a Response without error. *)
Definition first_varbind (resp : AgentxPdu) : result AgentxVarBind ForwardError :=
  match body resp with
  | BResponse r =>
      if negb (error r =? 0) then Err (AgentxErr (error r))
      else match resp_varbinds r with vb :: _ => Ok vb | [] => Err NoData end
  | _ => Err NoData
  end.

(** The forwarders; [exchange] sends the request on the owner's session and
    waits for the answer ([Err] when the write fails or nothing comes). *)
Section Forwarding.
Context (exchange : AgentxPdu → result AgentxPdu ForwardError).

Definition forward {A} (m : Master) (oid : Oid) (request : Z → Z → AgentxPdu)
    (answer : AgentxPdu → result A ForwardError) : result A ForwardError :=
  let? sid := ok_or NoOwner (owner_for oid m) in
  let? s := ok_or NoOwner (sessions m !! sid) in
  let? resp := exchange (request sid (next_packet s).1) in
  answer resp.

Definition forward_get (m : Master) (oid : Oid) : result Value ForwardError :=
  forward m oid (fun sid packet => get_request sid packet oid)
    (fun resp => let? vb := first_varbind resp in Ok (data_to_value (data vb))).

Definition forward_get_next (m : Master) (oid : Oid) : result (Oid * Value) ForwardError :=
  forward m oid (fun sid packet => get_next_request sid packet oid)
    (fun resp => let? vb := first_varbind resp in Ok (name vb, data_to_value (data vb))).

Definition forward_set (m : Master) (oid : Oid) (v : Value) : result unit ForwardError :=
  forward m oid (fun sid packet => set_request sid packet oid v)
    (fun resp =>
       match body resp with
       | BResponse r => if negb (error r =? 0) then Err (AgentxErr (error r)) else Ok tt
       | _ => Err NoData
       end).
End Forwarding.

(** ** The subagent *)

(** [trait SubagentHandler]; its state is threaded through [sub_set] only. *)
Record SubagentHandler (W : Type) := mkSubagent {
  sub_get : Oid → W → option Value;
  sub_get_next : Oid → W → option (Oid * Value);
  sub_set : Oid → Value → W → result unit Z * W
}.
Arguments sub_get {W} _ _ _.
Arguments sub_get_next {W} _ _ _.
Arguments sub_set {W} _ _ _ _.
Arguments mkSubagent {W} _ _ _.

Section Subagent.
Context {W : Type} (handler : SubagentHandler W).

Fixpoint handle_get_loop (w : W) (i : Z) (ranges : list (Oid * Oid)) (index : Z)
    (vbs : list AgentxVarBind) : Z * list AgentxVarBind :=
  match ranges with
  | [] => (index, vbs)
  | (start, _) :: ranges' =>
      match sub_get handler start w with
      | Some v => handle_get_loop w (i + 1) ranges' index (vbs ++ [value_to_varbind start v])
      | None =>
          handle_get_loop w (i + 1) ranges' (as_u16 (i + 1)) (vbs ++ [mkAxVarBind start DNull])
      end
  end.

Definition handle_get (s : SearchBody) (w : W) : PduBody :=
  let '(index, vbs) := handle_get_loop w 0 (search_range s) 0 [] in
  BResponse (mkResponse 0 (error_code NoError) index vbs).

Definition next_varbind (w : W) (start : Oid) : AgentxVarBind :=
  match sub_get_next handler start w with
  | Some (oid, v) => value_to_varbind oid v
  | None => mkAxVarBind start DNull
  end.

Definition handle_get_next (s : SearchBody) (w : W) : PduBody :=
  BResponse (mkResponse 0 (error_code NoError) 0
               ((fun r => next_varbind w r.1) <$> search_range s)).

(** The walk of one repeater. *)
Fixpoint repeat_next (w : W) (n : nat) (cursor : Oid) : list AgentxVarBind :=
  match n with
  | O => []
  | S n' =>
      match sub_get_next handler cursor w with
      | Some (oid, v) => value_to_varbind oid v :: repeat_next w n' oid
      | None => [mkAxVarBind cursor DNull]
      end
  end.

Fixpoint bulk_loop (w : W) (non_rep reps i : nat) (ranges : list (Oid * Oid)) : list AgentxVarBind :=
  match ranges with
  | [] => []
  | (start, _) :: ranges' =>
      (if (i <? non_rep)%nat then [next_varbind w start] else repeat_next w reps start)
      ++ bulk_loop w non_rep reps (S i) ranges'
  end.

Definition handle_get_bulk (b : BulkBody) (w : W) : PduBody :=
  BResponse (mkResponse 0 (error_code NoError) 0
    (bulk_loop w (Z.to_nat (b_non_repeaters b)) (Z.to_nat (b_max_repetitions b)) 0
       (b_search_range b))).

Fixpoint set_loop (i : Z) (vbs done_vbs : list AgentxVarBind) (w : W) : PduBody * W :=
  match vbs with
  | [] => (BResponse (mkResponse 0 (error_code NoError) 0 done_vbs), w)
  | vb :: vbs' =>
      match sub_set handler (name vb) (data_to_value (data vb)) w with
      | (Ok _, w') => set_loop (i + 1) vbs' (done_vbs ++ [vb]) w'
      | (Err code, w') => (BResponse (mkResponse 0 code (as_u16 (i + 1)) done_vbs), w')
      end
  end.

Definition handle_set (s : VarBindsBody) (w : W) : PduBody * W := set_loop 0 (varbinds s) [] w.

(** One iteration of [run]: the response, if any, and the state. *)
Definition serve_pdu (session : Z) (req : AgentxPdu) (w : W) : option AgentxPdu * W :=
  let resp := fun b =>
    Some (mkAgentxPdu
            (mkHeader VERSION (as_u8_type TResponse) (flags (header req)) session
               (transaction_id (header req)) (packet_id (header req)) 0 0) b) in
  match body req with
  | BGet s => (resp (handle_get s w), w)
  | BGetNext s => (resp (handle_get_next s w), w)
  | BGetBulk b => (resp (handle_get_bulk b w), w)
  | BSet s => let '(b, w') := handle_set s w in (resp b, w')
  | BPing _ => (resp (BResponse (mkResponse 0 (error_code NoError) 0 [])), w)
  | BCleanup => (None, w)
  | _ => (resp (BResponse (mkResponse 0 (error_code ProcessingError) 0 [])), w)
  end.

(** The wire between them: what the master's [exchange] gets back when the
    subagent serves the bytes it is sent. *)
Definition over_the_wire (session : Z) (w : W) (req : AgentxPdu) : result AgentxPdu ForwardError :=
  match encode_pdu req with
  | None => Err Disconnected
  | Some bs =>
      match decode_pdu bs with
      | Some (Ok req') =>
          match (serve_pdu session req' w).1 with
          | Some resp =>
              match encode_pdu resp with
              | None => Err Disconnected
              | Some bs' =>
                  match decode_pdu bs' with Some (Ok resp') => Ok resp' | _ => Err Timeout end
              end
          | None => Err Timeout
          end
      | _ => Err Timeout
      end
  end.
End Subagent.

(** ** Registrations *)

Definition registration_le (a b : Registration) : Prop :=
  Oid.lt (subtree a) (subtree b) ∨ (subtree a = subtree b ∧ priority a <= priority b).

#[export] Instance registration_le_trans : Transitive registration_le.
Proof.
  intros a b c [H1|[E1 H1]] [H2|[E2 H2]].
  - left. by transitivity (subtree b).
  - left. by rewrite <- E2.
  - left. by rewrite E1.
  - right. split; [congruence|lia].
Qed.

Lemma registration_leb_true a b : registration_leb a b = true → registration_le a b.
Proof.
  unfold registration_leb, registration_le. destruct (Oid.cmp _ _) eqn:C; [| |done].
  - apply Oid.cmp_eq in C. intros ?%Z.leb_le. by right.
  - intros _. by left.
Qed.

Lemma registration_leb_false a b : registration_leb a b = false → registration_le b a.
Proof.
  unfold registration_leb, registration_le. destruct (Oid.cmp _ _) eqn:C; [|done|].
  - apply Oid.cmp_eq in C. intros ?%Z.leb_gt. right. split; [done|lia].
  - intros _. left. unfold Oid.lt. by rewrite Oid.cmp_antisym, C.
Qed.

Abbreviation registrations_sorted := (StronglySorted registration_le).

Lemma retain_sorted {A} (R : relation A) p l : StronglySorted R l → StronglySorted R (retain p l).
Proof.
  unfold retain. induction 1 as [|x l HS IH HF]; cbn; [constructor|].
  destruct (p x); [|done]. constructor; [done|].
  apply Forall_forall. intros y Hy. rewrite Forall_forall in HF. apply HF.
  by apply (elem_of_retain p y l) in Hy as [? _].
Qed.

Lemma add_registration_elem sid r m x :
  x ∈ subtrees (add_registration sid r m) ↔
  x ∈ subtrees m ∨ x = mkRegistration (r_subtree r) (range_end_of r) sid (r_priority r).
Proof.
  unfold add_registration. cbn [subtrees set_subtrees].
  by rewrite sort_by_perm, elem_of_app, list_elem_of_singleton.
Qed.

(** ** The tables follow the connection tasks *)

Record consistent (s : System) : Prop := {
  consistent_sessions : dom (sessions (master s)) = tasks s;
  consistent_owners r : r ∈ subtrees (master s) → reg_session r ∈ tasks s;
  consistent_sorted : registrations_sorted (subtrees (master s))
}.

Definition write_ok (e : Event) : Prop :=
  match e with Opened _ _ ok | Received _ _ ok => ok = true | _ => True end.

Lemma end_task_consistent sid s :
  consistent s → consistent (end_task sid (master s) s).
Proof.
  intros [HS HO HT]. unfold end_task, reclaim_session. split; cbn.
  - rewrite dom_delete_L. by rewrite HS.
  - intros r [Hr Hn]%elem_of_retain. apply negb_true_iff, Z.eqb_neq in Hn.
    apply elem_of_difference. split; [by apply HO|]. by rewrite elem_of_singleton.
  - by apply retain_sorted.
Qed.

Lemma update_session_consistent s sid se f :
  consistent s → sessions (master s) !! sid = Some se →
  consistent (mkSystem (set_sessions (<[sid := f se]> (sessions (master s))) (master s)) (tasks s)).
Proof.
  intros [HS HO HT] Hs. split; cbn; [|done|done].
  rewrite dom_insert_L, HS. apply elem_of_dom_2 in Hs. rewrite HS in Hs.
  by apply subseteq_union_1_L, singleton_subseteq_l.
Qed.

Lemma handle_pdu_consistent sid p s m out fwd o :
  consistent s → sid ∈ tasks s → handle_pdu sid p (master s) = (m, out, fwd, o) →
  consistent (mkSystem m (tasks s)).
Proof.
  intros Hc Ht. pose proof Hc as [HS HO HT]. unfold handle_pdu.
  assert (H0 : consistent (mkSystem (master s) (tasks s))) by (by destruct s).
  destruct (body p); try (by intros [= <- <- <- <-]).
  - intros [= <- <- <- <-]. split; cbn [master tasks]; [done| |].
    + intros r' [Hr| ->]%add_registration_elem; [by apply HO|done].
    + cbn. apply sort_by_sorted; [apply registration_leb_true|apply registration_leb_false|apply _].
  - intros [= <- <- <- <-]. split; cbn [master tasks]; [done| |].
    + cbn. intros r' [Hr _]%elem_of_retain. by apply HO.
    + by apply retain_sorted.
  - destruct (sessions (master s) !! sid) as [se|] eqn:E; [|by intros [= <- <- <- <-]].
    case_match; [|by intros [= <- <- <- <-]]. intros [= <- <- <- <-].
    by apply (update_session_consistent s sid se (remove_pending (packet_id (header p)))).
Qed.

Lemma step_consistent s e : consistent s → write_ok e → consistent (step s e).1.
Proof.
  intros Hc Hw. pose proof Hc as [HS HO HT]. destruct e as [req id ok|sid p ok|sid|sid|sid packet]; cbn in *.
  - subst ok. cbn. split; cbn.
    + rewrite dom_insert_L. by rewrite HS.
    + intros r Hr. apply elem_of_union. right. by apply HO.
    + done.
  - subst ok. case_bool_decide as Ht; [|done].
    destruct (handle_pdu sid p (master s)) as [[[m out] fwd] o] eqn:E.
    pose proof (handle_pdu_consistent _ _ _ _ _ _ _ Hc Ht E) as Hm.
    destruct o; [by destruct out|by apply (end_task_consistent sid (mkSystem m (tasks s)))|by destruct out].
  - case_bool_decide; [by apply end_task_consistent|done].
  - destruct (sessions (master s) !! sid) as [se|] eqn:E; [|done].
    by apply (update_session_consistent s sid se (λ se, add_pending _ (next_packet se).2)).
  - destruct (sessions (master s) !! sid) as [se|] eqn:E; [|done].
    by apply (update_session_consistent s sid se (remove_pending packet)).
Qed.

(** C20. As long as the master's writes succeed, in every interleaving of
    connections its tables hold exactly the sessions of the running tasks, only
    their registrations, in subtree and priority order: whatever a task
    registered is reclaimed when it ends. *)
Theorem tables_follow_tasks es :
  Forall write_ok es → consistent (run initial es).
Proof.
  intros Hw. unfold run.
  assert (H0 : consistent initial).
  { split; cbn; [by rewrite dom_empty_L|by intros r ?%elem_of_nil|constructor]. }
  revert H0. generalize initial. induction Hw as [|e es He HF IH]; intros s Hs; [done|].
  apply IH. by apply step_consistent.
Qed.

Definition register_pdu (sub : Oid) (prio : Z) : AgentxPdu :=
  mkAgentxPdu (mkHeader VERSION 3 0 1 0 2 0 0) (BRegister (mkRegister 5 prio 0 sub Oid.null None)).
Definition ping_pdu : AgentxPdu := mkAgentxPdu (mkHeader VERSION 12 0 1 0 3 0 0) (BPing (mkPing None)).
Definition open_header : AgentxHeader := mkHeader VERSION 1 0 0 0 1 0 0.

Lemma tables_follow_tasks_witness :
  consistent (run initial [Opened open_header [1; 3] true;
                           Received 1 (register_pdu [1; 3; 6; 1; 4; 1] 127) true; ReadEnded 1]).
Proof.
  apply (tables_follow_tasks [Opened open_header [1; 3] true;
    Received 1 (register_pdu [1; 3; 6; 1; 4; 1] 127) true; ReadEnded 1]).
  constructor; [reflexivity|constructor; [reflexivity|constructor; [exact I|constructor]]].
Defined.

(** Session [sid] is orphaned: no task serves it, it stays in the table and so
    do the registrations [rs]. *)
Record orphaned (sid : Z) (rs : list Registration) (s : System) : Prop := {
  orphan_task : sid ∉ tasks s;
  orphan_session : is_Some (sessions (master s) !! sid);
  orphan_regs r : r ∈ rs → r ∈ subtrees (master s)
}.

(** The id counter does not come back to [sid] while the events happen. *)
Definition not_reassigned (sid : Z) (s : System) (es : list Event) : Prop :=
  ∀ n, next_session_id (master (run s (take n es))) ≠ sid.

Lemma update_session_orphaned sid rs s sid' se f :
  orphaned sid rs s → sessions (master s) !! sid' = Some se →
  orphaned sid rs
    (mkSystem (set_sessions (<[sid' := f se]> (sessions (master s))) (master s)) (tasks s)).
Proof.
  intros [H1 H2 H3] _. split; cbn; [done| |done]. by apply lookup_insert_is_Some'; right.
Qed.

Lemma handle_pdu_orphaned sid rs sid' p s m out fwd o :
  (∀ r, r ∈ rs → reg_session r = sid) → sid' ≠ sid → orphaned sid rs s →
  handle_pdu sid' p (master s) = (m, out, fwd, o) → orphaned sid rs (mkSystem m (tasks s)).
Proof.
  intros Hrs Hne Ho. pose proof Ho as [H1 H2 H3]. unfold handle_pdu.
  assert (H0 : orphaned sid rs (mkSystem (master s) (tasks s))) by (by destruct s).
  destruct (body p); try (by intros [= <- <- <- <-]).
  - intros [= <- <- <- <-]. split; [done|done|]. intros r' Hr'.
    apply add_registration_elem. left. by apply H3.
  - intros [= <- <- <- <-]. split; [done|done|]. intros r' Hr'. cbn. apply elem_of_retain.
    split; [by apply H3|]. rewrite (Hrs _ Hr'). by destruct (Z.eqb_spec sid sid').
  - destruct (sessions (master s) !! sid') as [se|] eqn:E; [|by intros [= <- <- <- <-]].
    case_match; [|by intros [= <- <- <- <-]]. intros [= <- <- <- <-].
    by apply (update_session_orphaned sid rs s sid' se (remove_pending (packet_id (header p)))).
Qed.

Lemma end_task_orphaned sid rs sid' m s :
  (∀ r, r ∈ rs → reg_session r = sid) → sid' ≠ sid → orphaned sid rs (mkSystem m (tasks s)) →
  orphaned sid rs (end_task sid' m s).
Proof.
  intros Hrs Hne [H1 H2 H3]. split; cbn in *.
  - rewrite elem_of_difference. tauto.
  - by rewrite lookup_delete_ne.
  - intros r Hr. apply elem_of_retain. split; [by apply H3|].
    rewrite (Hrs _ Hr). by destruct (Z.eqb_spec sid sid').
Qed.

Lemma step_orphaned sid rs s e :
  (∀ r, r ∈ rs → reg_session r = sid) → next_session_id (master s) ≠ sid →
  orphaned sid rs s → orphaned sid rs (step s e).1.
Proof.
  intros Hrs Hn Ho. pose proof Ho as [H1 H2 H3].
  destruct e as [req id ok|sid' p ok|sid'|sid'|sid' packet]; cbn.
  - assert (H : ∀ t, sid ∉ t → orphaned sid rs (mkSystem (assign_session req id (master s)).2 t)).
    { intros t Ht. split; cbn; [done| |done]. by rewrite lookup_insert_ne. }
    destruct ok; apply H; [|done]. by apply not_elem_of_union; rewrite elem_of_singleton.
  - case_bool_decide as Ht; [|done]. assert (Hne : sid' ≠ sid) by (by intros ->).
    destruct (handle_pdu sid' p (master s)) as [[[m out] fwd] o] eqn:E.
    pose proof (handle_pdu_orphaned _ _ _ _ _ _ _ _ _ Hrs Hne Ho E) as Hm.
    assert (Hd : orphaned sid rs (mkSystem m (tasks s ∖ {[sid']}))).
    { destruct Hm as [M1 M2 M3]. split; [|done..]. cbn. by rewrite elem_of_difference; intros [? _]. }
    destruct o; [|by apply end_task_orphaned|]; (destruct out; [by destruct ok|done]).
  - case_bool_decide as Ht; [|done]. apply end_task_orphaned; [done|by intros ->|by destruct s].
  - destruct (sessions (master s) !! sid') as [se|] eqn:E; [|done].
    by apply (update_session_orphaned sid rs s sid' se (λ se, add_pending _ (next_packet se).2)).
  - destruct (sessions (master s) !! sid') as [se|] eqn:E; [|done].
    by apply (update_session_orphaned sid rs s sid' se (remove_pending packet)).
Qed.

Lemma run_orphaned sid rs es : ∀ s,
  (∀ r, r ∈ rs → reg_session r = sid) → not_reassigned sid s es →
  orphaned sid rs s → orphaned sid rs (run s es).
Proof.
  induction es as [|e es IH]; intros s Hrs Hn Ho; [done|]. apply IH; [done| |].
  - intros n. apply (Hn (S n)).
  - apply step_orphaned; [done|apply (Hn 0%nat)|done].
Qed.

(** When the answer to a PDU cannot be written, the task returns before its
    reclaim: whatever happens afterwards, until the 32-bit id counter comes
    round to it, the session stays in the table with every registration it had,
    although no task serves it. *)
Theorem failed_write_leaks s sid p m resp fwd es :
  sid ∈ tasks s → is_Some (sessions (master s) !! sid) →
  handle_pdu sid p (master s) = (m, Some resp, fwd, Continue) →
  let s' := (step s (Received sid p false)).1 in
  not_reassigned sid s' es →
  (sid ∉ tasks (run s' es)) ∧ is_Some (sessions (master (run s' es)) !! sid) ∧
  ∀ r, r ∈ subtrees m → reg_session r = sid → r ∈ subtrees (master (run s' es)).
Proof.
  intros Ht Hs E s' Hn.
  set (rs := retain (λ r, Z.eqb (reg_session r) sid) (subtrees m)).
  assert (Hrs : ∀ r, r ∈ rs ↔ r ∈ subtrees m ∧ reg_session r = sid).
  { intros r. unfold rs. by rewrite elem_of_retain, Z.eqb_eq. }
  assert (Es : s' = mkSystem m (tasks s ∖ {[sid]})).
  { unfold s'. cbn. rewrite bool_decide_eq_true_2 by done. by rewrite E. }
  assert (Hm : is_Some (sessions m !! sid)).
  { unfold handle_pdu in E. destruct (body p); repeat case_match; simplify_eq; done. }
  assert (O : orphaned sid rs (run s' es)).
  { apply run_orphaned; [by intros r [_ ?]%Hrs|done|]. rewrite Es.
    split; cbn; [|done|by intros r [? _]%Hrs].
    rewrite elem_of_difference, elem_of_singleton. tauto. }
  destruct O as [O1 O2 O3]. split_and!; [done|done|]. intros r Hr Hsid. by apply O3, Hrs.
Qed.

(** A registered subagent whose ping is not answered; another one connects. *)
Lemma failed_write_leaks_witness :
  let s := run initial [Opened open_header [1; 3] true;
                        Received 1 (register_pdu [1; 3; 6; 1; 4; 1] 127) true] in
  let s' := (step s (Received 1 ping_pdu false)).1 in
  let es := [Opened open_header [1; 3] true; ReadEnded 1] in
  (1 ∉ tasks (run s' es)) ∧ owner_for [1; 3; 6; 1; 4; 1; 5] (master (run s' es)) = Some 1.
Proof.
  intros s s' es. split; [|reflexivity].
  apply (failed_write_leaks s 1 ping_pdu (master s)
    (response_for (header ping_pdu) 1 NoError []) None es).
  - apply (bool_decide_eq_true _). vm_compute. reflexivity.
  - apply (bool_decide_eq_true _). vm_compute. reflexivity.
  - reflexivity.
  - intros [|[|[|n]]]; vm_compute; discriminate.
Defined.

(** ** Owner selection *)

Definition key_le (a b : Registration) : Prop :=
  (length (subtree a) < length (subtree b))%nat ∨
  (length (subtree a) = length (subtree b) ∧ priority a <= priority b).

#[export] Instance key_le_trans : Transitive key_le.
Proof. intros a b c. unfold key_le. lia. Qed.
#[export] Instance key_le_refl : Reflexive key_le.
Proof. intros a. unfold key_le. lia. Qed.

Lemma key_gt_spec a b : key_gt a b = true ↔ key_le b a ∧ ¬ key_le a b.
Proof.
  unfold key_gt, key_le. rewrite orb_true_iff, andb_true_iff, Nat.ltb_lt, Nat.eqb_eq, Z.ltb_lt. lia.
Qed.

(** An OID has an owner exactly when some registration covers it, and the owner
    is the session of a covering registration of the SHORTEST subtree, the
    lowest priority breaking ties (the code's comment says the longest). *)
Theorem owner_for_shortest oid m :
  (owner_for oid m = None ↔ ∀ r, r ∈ subtrees m → covers oid r = false) ∧
  (∀ sid, owner_for oid m = Some sid → ∃ r, r ∈ subtrees m ∧ covers oid r = true ∧
     reg_session r = sid ∧ ∀ r', r' ∈ subtrees m → covers oid r' = true → key_le r r').
Proof.
  unfold owner_for. split.
  - rewrite fmap_None, min_by_None. split.
    + intros E r Hr. apply not_true_iff_false. intros Hc.
      assert (r ∈ []) as X%elem_of_nil; [|done]. rewrite <- E.
      by apply (elem_of_retain (covers oid) r (subtrees m)).
    + intros H. destruct (List.filter _ _) as [|r l] eqn:E; [done|].
      assert (Hr : r ∈ List.filter (covers oid) (subtrees m)) by (rewrite E; left).
      apply (elem_of_retain (covers oid)) in Hr as [Hr Hc]. by rewrite H in Hc.
  - intros sid (r & E & ->)%fmap_Some. exists r.
    pose proof (min_by_elem _ _ _ E) as Hr. apply (elem_of_retain (covers oid)) in Hr as [Hr Hc].
    split_and!; [done|done|done|]. intros r' Hr' Hc'.
    apply (min_by_lb key_gt key_le) with (l := List.filter (covers oid) (subtrees m)); [| |done|].
    + intros x y H%key_gt_spec. apply H.
    + intros x y H. apply not_true_iff_false in H. rewrite key_gt_spec in H. unfold key_le in *. lia.
    + by apply (elem_of_retain (covers oid)).
Qed.

(** Two nested registrations: the outer one owns the OIDs of the inner one. A
    range registration covers no instance but those of its literal subtree. *)
Theorem outer_registration_wins :
  let m := add_registration 2 (mkRegister 5 1 0 [1; 3; 6; 1; 4; 1; 8072] Oid.null None)
             (add_registration 1 (mkRegister 5 127 0 [1; 3; 6; 1] Oid.null None) new_master) in
  let m' := add_registration 1
    (mkRegister 5 127 11 [1; 3; 6; 1; 2; 1; 2; 2; 1; 1; 1] [10] None) new_master in
  owner_for [1; 3; 6; 1; 4; 1; 8072; 1] m = Some 1 ∧
  owner_for [1; 3; 6; 1; 2; 1; 2; 2; 1; 1; 1] m' = Some 1 ∧
  owner_for [1; 3; 6; 1; 2; 1; 2; 2; 1; 1; 5] m' = None.
Proof. by vm_compute. Qed.

(** ** Forwarding over the wire *)

Lemma null_encodable : encodable_oid Oid.null.
Proof. split; [constructor|cbn; lia]. Qed.

(** A response of one varbind survives the wire. *)
Lemma response_wire sid packet vb idx :
  is_u32 sid → is_u32 packet → is_u16 idx → encodable_varbind vb →
  let p := mkAgentxPdu (mkHeader VERSION (as_u8_type TResponse) 0 sid 0 packet 0 0)
             (BResponse (mkResponse 0 0 idx [vb])) in
  ∃ bs, encode_pdu p = Some bs ∧ ∃ q, decode_pdu bs = Some (Ok q) ∧
    body q = BResponse (mkResponse 0 0 idx [vb]).
Proof.
  intros Hs Hp Hi Hv p. destruct (decode_encode_pdu p) as (bs & E & D).
  - assert (HW : wf_varbind vb) by (destruct Hv as [[? _] [? _]]; done).
    unfold encodable_pdu, encodable_body. cbn. unfold is_u32, is_u16 in *.
    split_and!; try lia; try done; [by constructor|by constructor].
  - exists bs. split; [done|]. by eexists.
Qed.

(** The answer the subagent computes for one OID of a GET. *)
Definition get_varbind {W} (h : SubagentHandler W) (w : W) (oid : Oid) : AgentxVarBind :=
  match sub_get h oid w with
  | Some v => value_to_varbind oid v
  | None => mkAxVarBind oid DNull
  end.

Lemma search_over_the_wire {W} (h : SubagentHandler W) sid w p oid :
  encodable_oid oid → is_u32 sid → is_u32 (session_id (header p)) → is_u32 (packet_id (header p)) →
  flags (header p) = 0 → transaction_id (header p) = 0 →
  body p = BGet (mkSearch None [(oid, Oid.null)]) ∨
  body p = BGetNext (mkSearch None [(oid, Oid.null)]) →
  encodable_data (data (get_varbind h w oid)) →
  ∃ q idx, over_the_wire h sid w p = Ok q ∧
    body q = BResponse (mkResponse 0 0 idx [get_varbind h w oid]).
Proof.
  intros Ho Hsid Hs Hp Hfl Ht Hb Hd. unfold over_the_wire.
  assert (He : encodable_pdu p).
  { unfold encodable_pdu, encodable_body. rewrite Ht.
    assert (HR : Forall encodable_range [(oid, Oid.null)]).
    { constructor; [|constructor]. split; [done|apply null_encodable]. }
    assert (HW : wf_search (mkSearch None [(oid, Oid.null)])).
    { split; [done|]. constructor; [|constructor]. split; [apply Ho|constructor]. }
    destruct Hb as [-> | ->]; cbn; unfold is_u32 in *; split_and!; try lia; try done; apply Hs || apply HW. }
  destruct (decode_encode_pdu p He) as (bs & -> & ->).
  assert (Hcb : canon_body (body p) = BGet (mkSearch None [(oid, Oid.null)])) by (by destruct Hb as [-> | ->]).
  unfold serve_pdu, canon_pdu. cbn [body header]. rewrite Hcb. unfold handle_get.
  cbn [search_range handle_get_loop fst].
  set (idx := match sub_get h oid w with Some _ => 0 | None => 1 end).
  assert (EG : (match sub_get h oid w with
     | Some v => (0, [] ++ [value_to_varbind oid v])
     | None => (as_u16 (0 + 1), [] ++ [mkAxVarBind oid DNull]) end) = (idx, [get_varbind h w oid])).
  { unfold idx, get_varbind. by destruct (sub_get h oid w). }
  rewrite EG. cbn [flags transaction_id packet_id]. change (error_code NoError) with 0.
  assert (Hcf : context_flags (flags (header p)) (body p) = 0).
  { rewrite Hfl. destruct Hb as [-> | ->]; reflexivity. }
  rewrite Hcf, Ht.
  assert (Hname : encodable_varbind (get_varbind h w oid)).
  { split; [|done]. unfold get_varbind. by destruct (sub_get h oid w). }
  destruct (response_wire sid (packet_id (header p)) (get_varbind h w oid) idx)
    as (bs' & E' & q & D' & Bq); [done|done| |done|].
  { unfold idx, is_u16. destruct (sub_get h oid w); lia. }
  exists q, idx. rewrite E', D'. done.
Qed.

(** The values an AgentX response carries unchanged. *)
Definition carried (v : Value) : Prop :=
  encodable_data (value_to_data v) ∧ data_to_value (value_to_data v) = v.

Lemma carried_integer n : is_i32 n → carried (VInteger n).
Proof.
  intros H. unfold carried, encodable_data. cbn.
  assert (E : as_i32 n = n) by (apply wrap_i_id; unfold is_i32 in *; lia).
  by rewrite E.
Qed.

Section EndToEnd.
Context {W : Type} (h : SubagentHandler W) (w : W) (m : Master) (sid : Z) (s : Session) (oid : Oid).
Context (Ho : encodable_oid oid) (Hsid : is_u32 sid).
Context (Howner : owner_for oid m = Some sid) (Hs : sessions m !! sid = Some s).

Lemma next_packet_u32 : is_u32 (next_packet s).1.
Proof using Type. apply (wrap_u_range 32). lia. Qed.

Lemma forward_search {A} (request : Z → Z → AgentxPdu) (answer : AgentxVarBind → A) :
  (request = (λ sid packet, get_request sid packet oid) ∨
   request = (λ sid packet, get_next_request sid packet oid)) →
  encodable_data (data (get_varbind h w oid)) →
  forward (over_the_wire h sid w) m oid request
    (λ resp, let? vb := first_varbind resp in Ok (answer vb)) = Ok (answer (get_varbind h w oid)).
Proof using All.
  intros Hr Hd. unfold forward. rewrite Howner. cbn [ok_or rbind]. rewrite Hs. cbn [ok_or rbind].
  destruct (search_over_the_wire h sid w (request sid (next_packet s).1) oid) as (q & idx & -> & Bq);
    try done; try (destruct Hr as [-> | ->]; done || (cbn; auto; fail) || apply next_packet_u32).
  cbn. unfold first_varbind. rewrite Bq. done.
Qed.

(** A forwarded GET returns the subagent's value; an instance the subagent does
    not have comes back as the value Null instead of an exception. *)
Lemma forward_get_wire :
  (∀ v, sub_get h oid w = Some v → carried v →
     forward_get (over_the_wire h sid w) m oid = Ok v) ∧
  (sub_get h oid w = None → forward_get (over_the_wire h sid w) m oid = Ok VNull).
Proof using All.
  unfold forward_get. split.
  - intros v Hg [Hc Hv]. rewrite (forward_search _ (λ vb, data_to_value (data vb))); [|by left|];
      unfold get_varbind; rewrite Hg; cbn; [by rewrite Hv|done].
  - intros Hg. rewrite (forward_search _ (λ vb, data_to_value (data vb))); [|by left|];
      unfold get_varbind; by rewrite Hg.
Qed.

(** A forwarded GETNEXT is decoded by the subagent as a GET: the answer is the
    requested OID itself, with its value or Null, and never a successor. *)
Lemma forward_get_next_wire :
  (∀ v, sub_get h oid w = Some v → carried v →
     forward_get_next (over_the_wire h sid w) m oid = Ok (oid, v)) ∧
  (sub_get h oid w = None → forward_get_next (over_the_wire h sid w) m oid = Ok (oid, VNull)).
Proof using All.
  unfold forward_get_next. split.
  - intros v Hg [Hc Hv]. rewrite (forward_search _ (λ vb, (name vb, data_to_value (data vb)))); [|by right|];
      unfold get_varbind; rewrite Hg; cbn; [by rewrite Hv|done].
  - intros Hg. rewrite (forward_search _ (λ vb, (name vb, data_to_value (data vb)))); [|by right|];
      unfold get_varbind; by rewrite Hg.
Qed.
End EndToEnd.

(** A GET forwarded over the wire returns the subagent's value, and Null for an
    instance the subagent does not have. *)
Theorem forward_get_end_to_end {W} (h : SubagentHandler W) w m sid s oid :
  encodable_oid oid → is_u32 sid → owner_for oid m = Some sid → sessions m !! sid = Some s →
  (∀ v, sub_get h oid w = Some v → carried v →
     forward_get (over_the_wire h sid w) m oid = Ok v) ∧
  (sub_get h oid w = None → forward_get (over_the_wire h sid w) m oid = Ok VNull).
Proof. intros. by eapply forward_get_wire. Qed.

(** A GETNEXT forwarded over the wire never moves: the subagent decodes it as a
    GET, so the answer is the requested OID with its own value, or Null. *)
Theorem forward_get_next_never_moves {W} (h : SubagentHandler W) w m sid s oid :
  encodable_oid oid → is_u32 sid → owner_for oid m = Some sid → sessions m !! sid = Some s →
  (∀ v, sub_get h oid w = Some v → carried v →
     forward_get_next (over_the_wire h sid w) m oid = Ok (oid, v)) ∧
  (sub_get h oid w = None → forward_get_next (over_the_wire h sid w) m oid = Ok (oid, VNull)).
Proof. intros. by eapply forward_get_next_wire. Qed.

(** A subagent with one instance, and a master it registered with. *)
Definition sample_sub : SubagentHandler unit :=
  mkSubagent (λ o _, if Oid.eqb o [1; 3; 6; 1; 4; 1; 5; 0] then Some (VInteger 7) else None)
    (λ o _, if Oid.ltb o [1; 3; 6; 1; 4; 1; 5; 0]
            then Some ([1; 3; 6; 1; 4; 1; 5; 0], VInteger 7) else None)
    (λ _ _ w, (Ok tt, w)).

Definition sample_master : Master :=
  master (run initial [Opened open_header [1; 3] true;
                       Received 1 (register_pdu [1; 3; 6; 1; 4; 1] 127) true]).

Lemma sample_oid_encodable a : is_u32 a → encodable_oid [1; 3; 6; 1; 4; 1; 5; a].
Proof.
  intros Ha. split.
  - do 7 (constructor; [unfold is_u32; lia|]). constructor; [done|constructor].
  - cbn. split; [lia|]. exists 4. split; [reflexivity|lia].
Qed.

Lemma forward_get_end_to_end_witness :
  forward_get (over_the_wire sample_sub 1 tt) sample_master [1; 3; 6; 1; 4; 1; 5; 0] = Ok (VInteger 7).
Proof.
  apply (forward_get_end_to_end sample_sub tt sample_master 1 (mkSession 0 ∅ [1; 3])
    [1; 3; 6; 1; 4; 1; 5; 0]).
  - apply sample_oid_encodable. unfold is_u32. lia.
  - unfold is_u32. lia.
  - reflexivity.
  - reflexivity.
  - reflexivity.
  - apply carried_integer. unfold is_i32. lia.
Defined.

Lemma forward_get_next_never_moves_witness :
  forward_get_next (over_the_wire sample_sub 1 tt) sample_master [1; 3; 6; 1; 4; 1; 5; 9]
    = Ok ([1; 3; 6; 1; 4; 1; 5; 9], VNull).
Proof.
  apply (forward_get_next_never_moves sample_sub tt sample_master 1 (mkSession 0 ∅ [1; 3])
    [1; 3; 6; 1; 4; 1; 5; 9]).
  - apply sample_oid_encodable. unfold is_u32. lia.
  - unfold is_u32. lia.
  - reflexivity.
  - reflexivity.
  - reflexivity.
Defined.
