(* ===== verification/Session.v ===== *)
(** * Client sessions ([crates/netsnmp/src/session/])

    A session sends requests over a transport and waits for the answers. The
    transport is an interface: what its [send] and [receive] do to a world [W]
    that the session shares with its peer. The request ids of a process are one
    counter next to that world; the authoritative engine that a v3 session has
    learned is a state of its own. *)

From Stdlib Require Import ZArith Lia.
From S2P Require Import Prelude MachineInts Text Oid Value Pdu Cells Handler Registry Serving.
From S2P Require Import Wire Usm V3 Agent.
From S2P Require Notify.

Local Open Scope list_scope.

(** ** Transports *)

(** What [timeout(d, transport.receive())] yields. *)
Inductive Received :=
| Arrived (raw : bytes)
| Broken (e : Error)
| Elapsed.

(** [trait Transport], with what else a session reads from its surroundings: the
    clock of [Instant::now] in nanoseconds and the eight octets of [rand::random]. *)
Class Transport (W : Type) := {
  t_send : bytes → St W (result unit Error);
  t_receive : Z → St W Received;
  t_clock : W → Z;
  t_salt : W → bytes;
}.

(** [REQUEST_ID] belongs to the process. *)
Record Client (W : Type) := mkClient { net : W; request_counter : Z }.
Arguments mkClient {W}.
Arguments net {W}.
Arguments request_counter {W}.

(** [?] on a call that threads a state. *)
Definition ebind {S A B E} (m : St S (result A E)) (f : A → St S (result B E)) : St S (result B E) :=
  let* r := m in
  match r with
  | Ok x => f x
  | Err e => sret (Err e)
  end.

Notation "'let+' x ':=' m 'in' k" := (ebind m (fun x => k))
  (at level 10, x pattern, m at level 100, k at level 200) : snmp_scope.

(** ** [common.rs] *)

(** The clock reads [nanos] when the counter is seeded. *)
Definition seed (nanos : Z) : Z := Z.max (Z.land (as_i32 nanos) 16777215) 1.

Definition next_request_id {W} (nanos : Z) : St (Client W) Z := fun s =>
  let v := if request_counter s =? 0 then seed nanos else request_counter s in
  (v, mkClient (net s) (Z.max (as_i32 (v + 1)) 1)).

Definition stat_name (n : Z) : text :=
  match n with
  | 1 => str "usmStatsUnsupportedSecLevels"
  | 2 => str "usmStatsNotInTimeWindows"
  | 3 => str "usmStatsUnknownUserNames"
  | 4 => str "usmStatsUnknownEngineIDs"
  | 5 => str "usmStatsWrongDigests"
  | 6 => str "usmStatsDecryptionErrors"
  | _ => str "usmStatsUnknown"
  end.

Definition describe_report (p : Pdu) : text :=
  match variables p with
  | vb :: _ =>
      let s := vb_oid vb in
      match Oid.is_prefix_of USM_STATS_PREFIX s, drop (length USM_STATS_PREFIX) s with
      | true, n :: _ => stat_name n ++ str " (" ++ Oid.display s ++ str ")"
      | _, _ => str "report oid " ++ Oid.display s
      end
  | [] => str "empty report"
  end.

Definition ensure_ok (st : ErrorStatus) (index : Z) : result unit Error :=
  if is_ok_status st then Ok tt else Err (ESnmpError st (as_u64 index)).

(** ** The request PDUs *)

Definition with_request_id (id : Z) (p : Pdu) : Pdu :=
  mkPdu (pdu_type p) id (error_status p) (error_index p) (variables p) (v1_trap p).

(** The loop that pushes a null binding per OID. *)
Definition query (t : PduType) (status index : Z) (oids : list Oid) : Pdu :=
  mkPdu t 0 status index (null_var <$> oids) None.

(** The shared end of [get_one]. *)
Definition first_value (vars : list VarBind) : result Value Error :=
  match vars with
  | vb :: _ => Ok (vb_value vb)
  | [] => Err EProtocol
  end.

(** [resp.status()] checked by every [checked_request]. *)
Definition checked (resp : Pdu) : result Pdu Error :=
  if is_ok_status (status resp) then Ok resp
  else Err (ESnmpError (status resp) (as_u64 (error_index resp))).

(** What a walk does with the first binding of a GETNEXT from [current]. *)
Definition walk_stops (root current : Oid) (vb : VarBind) : bool :=
  match vb_value vb with
  | VEndOfMibView | VNoSuchObject | VNoSuchInstance => true
  | _ => negb (Oid.is_prefix_of root (vb_oid vb)) || Oid.leb (vb_oid vb) current
  end.

(** ** [config.rs] *)

(** The timeout in nanoseconds. *)
Record SessionConfig := mkSession {
  s_version : Version;
  s_community : bytes;
  s_timeout : Z;
  s_retries : Z
}.

Definition default_session : SessionConfig := mkSession V2c (str "public") 5000000000 2.

(** ** [community.rs] *)

Section Community.
Context {R : Rasn} {W : Type} {T : Transport W} (c : SessionConfig) (nanos : Z).

Definition on_net {A} (m : St W A) : St (Client W) A := fun s =>
  let '(x, w) := m (net s) in (x, mkClient w (request_counter s)).

(** The loop of [request], with [n] attempts left. *)
Fixpoint attempts (n : nat) (id : Z) (bs : bytes) (last_err : Error) : St (Client W) (result Pdu Error) :=
  match n with
  | O => sret (Err last_err)
  | S n' =>
      let+ _ := on_net (t_send bs) in
      let* r := on_net (t_receive (s_timeout c)) in
      match r with
      | Arrived raw =>
          match message_decode raw with
          | Err e => sret (Err e)
          | Ok response =>
              let p := msg_pdu response in
              if request_id p =? id then sret (Ok p)
              else attempts n' id bs (ERequestIdMismatch id (request_id p))
          end
      | Broken e => sret (Err e)
      | Elapsed => attempts n' id bs ETimeout
      end
  end.

Definition message_of (p : Pdu) : Message := mkMessage (s_version c) (s_community c) p.

Definition request (p : Pdu) : St (Client W) (result Pdu Error) :=
  let* id := next_request_id nanos in
  let p := with_request_id id p in
  match message_encode (message_of p) with
  | Err e => sret (Err e)
  | Ok bs => attempts (S (Z.to_nat (s_retries c))) id bs ETimeout
  end.

Definition checked_request (p : Pdu) : St (Client W) (result Pdu Error) :=
  let+ resp := request p in sret (checked resp).

Definition get (oids : list Oid) : St (Client W) (result (list VarBind) Error) :=
  let+ resp := checked_request (query Get 0 0 oids) in sret (Ok (variables resp)).

Definition get_one (o : Oid) : St (Client W) (result Value Error) :=
  let+ vars := get [o] in sret (first_value vars).

Definition get_next (oids : list Oid) : St (Client W) (result (list VarBind) Error) :=
  let+ resp := checked_request (query GetNext 0 0 oids) in sret (Ok (variables resp)).

Definition get_bulk (non_repeaters max_repetitions : Z) (oids : list Oid)
    : St (Client W) (result (list VarBind) Error) :=
  match s_version c with
  | V1 => sret (Err EProtocol)
  | V2c =>
      let+ resp := checked_request (query GetBulk non_repeaters max_repetitions oids) in
      sret (Ok (variables resp))
  end.

Definition set (bindings : list VarBind) : St (Client W) (result (list VarBind) Error) :=
  let+ resp := checked_request (mkPdu Set_ 0 0 0 bindings None) in sret (Ok (variables resp)).

Definition transmit (m : Message) : St (Client W) (result unit Error) :=
  match message_encode m with
  | Err e => sret (Err e)
  | Ok bs => on_net (t_send bs)
  end.

(** [build_notification]; its only error is [Protocol]. *)
Definition notification (t : PduType) (id uptime : Z) (oid : Oid) (vbs : list VarBind) : result Pdu Error :=
  match Notify.build_notification t id uptime oid vbs with
  | Ok p => Ok p
  | Err _ => Err EProtocol
  end.

Definition send_trap (uptime : Z) (oid : Oid) (vbs : list VarBind) : St (Client W) (result unit Error) :=
  match s_version c with
  | V1 => sret (Err EProtocol)
  | V2c =>
      let* id := next_request_id nanos in
      let+ p := sret (notification TrapV2 id uptime oid vbs) in
      transmit (message_of p)
  end.

Definition send_trap_v1 (ent : Oid) (addr : Ipv4Addr) (generic specific uptime : Z) (vbs : list VarBind)
    : St (Client W) (result unit Error) :=
  match s_version c with
  | V2c => sret (Err EProtocol)
  | V1 => transmit (mkMessage V1 (s_community c) (Notify.build_v1_trap ent addr generic specific uptime vbs))
  end.

Definition send_inform (uptime : Z) (oid : Oid) (vbs : list VarBind) : St (Client W) (result Pdu Error) :=
  let+ p := sret (notification Inform 0 uptime oid vbs) in
  checked_request p.

(** One poll of [walk_stream]: [None] at its end, else an item and the state
    after it. *)
Definition walk_poll (root : Oid) (state : option Oid)
    : St (Client W) (option (result VarBind Error * option Oid)) :=
  match state with
  | None => sret None
  | Some current =>
      let* r := get_next [current] in
      sret (match r with
            | Err e => Some (Err e, None)
            | Ok [] => None
            | Ok (vb :: _) => if walk_stops root current vb then None else Some (Ok vb, Some (vb_oid vb))
            end)
  end.

(** [try_collect] of the stream; [None] is a peer that has not let it end within
    [fuel] polls. *)
Fixpoint try_collect (fuel : nat) (root : Oid) (state : option Oid) (acc : list VarBind)
    : St (Client W) (option (result (list VarBind) Error)) :=
  match fuel with
  | O => sret None
  | S fuel' =>
      let* item := walk_poll root state in
      match item with
      | None => sret (Some (Ok acc))
      | Some (Err e, _) => sret (Some (Err e))
      | Some (Ok vb, state') => try_collect fuel' root state' (acc ++ [vb])
      end
  end.

Definition walk (fuel : nat) (root : Oid) : St (Client W) (option (result (list VarBind) Error)) :=
  try_collect fuel root (Some root) [].
End Community.

(** ** [secure.rs] *)

(** What an SNMPv3 session changes; the instant [time_base] is a reading of the
    transport's clock. *)
Record V3State (W : Type) := mkV3State {
  client : Client W;
  v_engine : EngineParams;
  time_base : Z;
  v_msg_id : Z
}.
Arguments mkV3State {W}.
Arguments client {W}.
Arguments v_engine {W}.
Arguments time_base {W}.
Arguments v_msg_id {W}.

Section Secure.
Context {R : RasnV3} {C : Crypto} {W : Type} {T : Transport W}.
Context (user : UsmUser) (timeout retries nanos : Z).

(** [with_transport], and [open_udp_notifier] once its socket is connected. *)
Definition v3_session (s : Client W) (e : EngineParams) : V3State W :=
  mkV3State s e (t_clock (net s)) 1.

Definition on_client {A} (m : St (Client W) A) : St (V3State W) A := fun s =>
  let '(x, cl) := m (client s) in (x, mkV3State cl (v_engine s) (time_base s) (v_msg_id s)).

Definition next_msg_id : St (V3State W) Z := fun s =>
  (Z.max (v_msg_id s) 1, mkV3State (client s) (v_engine s) (time_base s) (as_i32 (v_msg_id s + 1))).

Definition current_engine_time (s : V3State W) : Z :=
  as_u32 (engine_time (v_engine s) + as_u32 ((t_clock (net (client s)) - time_base s) / 1000000000)).

(** The engine as it is stamped into a message now. *)
Definition current_engine (s : V3State W) : EngineParams :=
  mkEngine (engine_id (v_engine s)) (engine_boots (v_engine s)) (current_engine_time s).

Definition learn (e : EngineParams) : St (V3State W) unit := fun s =>
  (tt, mkV3State (client s) e (t_clock (net (client s))) (v_msg_id s)).

Definition exchange (bs : bytes) : St (V3State W) (result bytes Error) :=
  let+ _ := on_client (on_net (t_send bs)) in
  let* r := on_client (on_net (t_receive timeout)) in
  sret (match r with
        | Arrived raw => Ok raw
        | Broken e => Err e
        | Elapsed => Err ETimeout
        end).

Definition discover : St (V3State W) (result unit Error) :=
  let* rid := on_client (next_request_id nanos) in
  let* id := next_msg_id in
  let+ bs := sret (build_discovery id rid) in
  let+ raw := exchange bs in
  let+ m := sret (parse raw None) in
  if bool_decide (u_engine_id (usm m) = []) then sret (Err (EReport (str "discovery response carried no engine id")))
  else
    let* _ := learn (mkEngine (u_engine_id (usm m)) (u_engine_boots (usm m)) (u_engine_time (usm m))) in
    sret (Ok tt).

(** [open_udp] once its socket is connected. *)
Definition v3_open (s : Client W) : result unit Error * V3State W :=
  discover (v3_session s (mkEngine [] 0 0)).

(** Boots and time of a message, for the engine already known. *)
Definition resync (m : V3Message) : St (V3State W) unit := fun s =>
  learn (mkEngine (engine_id (v_engine s)) (u_engine_boots (usm m)) (u_engine_time (usm m))) s.

(** How the loop of [request] goes on with a datagram: it takes the message as
    the answer, takes boots and time from it and tries again, or ends. *)
Inductive Verdict :=
| Accept (p : Pdu)
| Resync (m : V3Message)
| Retry (e : Error)
| Give (e : Error).

Definition judge (id : Z) (resynced : bool) (raw : bytes) : Verdict :=
  match parse raw (Some user) with
  | Err EAuthFailure =>
      if resynced then Give EAuthFailure
      else
        match parse raw None with
        | Ok report => if bool_decide (pdu_type (scoped_pdu (scoped report)) = Report) then Resync report
                       else Give EAuthFailure
        | Err _ => Give EAuthFailure
        end
  | Err e => Give e
  | Ok m =>
      let p := scoped_pdu (scoped m) in
      if bool_decide (pdu_type p = Report) then
        if resynced then Give (EReport (describe_report p)) else Resync m
      else if request_id p =? id then Accept p
      else Retry (ERequestIdMismatch id (request_id p))
  end.

(** A message for the engine as it is now. *)
Definition stamped (build : Z → bytes → EngineParams → bytes → Pdu → result bytes Error) (p : Pdu)
    : St (V3State W) (result bytes Error) := fun s =>
  let e := current_engine s in
  let '(id, s') := next_msg_id s in
  (build id (t_salt (net (client s'))) e (engine_id e) p, s').

(** The loop of [request], with [n] attempts left. *)
Fixpoint v3_attempts (n : nat) (p : Pdu) (resynced : bool) (last_err : Error)
    : St (V3State W) (result Pdu Error) :=
  match n with
  | O => sret (Err last_err)
  | S n' =>
      let+ bs := stamped (fun id => build_request id user) p in
      let* r := exchange bs in
      match r with
      | Err ETimeout => v3_attempts n' p resynced ETimeout
      | Err e => sret (Err e)
      | Ok raw =>
          match judge (request_id p) resynced raw with
          | Accept q => sret (Ok q)
          | Resync m => let* _ := resync m in v3_attempts n' p true last_err
          | Retry e => v3_attempts n' p resynced e
          | Give e => sret (Err e)
          end
      end
  end.

Definition v3_request (p : Pdu) : St (V3State W) (result Pdu Error) :=
  let* id := on_client (next_request_id nanos) in
  v3_attempts (S (Z.to_nat retries)) (with_request_id id p) false ETimeout.

Definition v3_checked_request (p : Pdu) : St (V3State W) (result Pdu Error) :=
  let+ resp := v3_request p in sret (checked resp).

Definition v3_get (oids : list Oid) : St (V3State W) (result (list VarBind) Error) :=
  let+ resp := v3_checked_request (query Get 0 0 oids) in sret (Ok (variables resp)).

Definition v3_get_one (o : Oid) : St (V3State W) (result Value Error) :=
  let+ vars := v3_get [o] in sret (first_value vars).

Definition v3_get_next (oids : list Oid) : St (V3State W) (result (list VarBind) Error) :=
  let+ resp := v3_checked_request (query GetNext 0 0 oids) in sret (Ok (variables resp)).

Definition v3_get_bulk (non_repeaters max_repetitions : Z) (oids : list Oid)
    : St (V3State W) (result (list VarBind) Error) :=
  let+ resp := v3_checked_request (query GetBulk non_repeaters max_repetitions oids) in
  sret (Ok (variables resp)).

Definition v3_set (bindings : list VarBind) : St (V3State W) (result (list VarBind) Error) :=
  let+ resp := v3_checked_request (mkPdu Set_ 0 0 0 bindings None) in sret (Ok (variables resp)).

Definition v3_send_trap (uptime : Z) (oid : Oid) (vbs : list VarBind) : St (V3State W) (result unit Error) :=
  let* id := on_client (next_request_id nanos) in
  let+ p := sret (notification TrapV2 id uptime oid vbs) in
  let+ bs := stamped (fun id => build_response id user) p in
  on_client (on_net (t_send bs)).

Definition v3_send_inform (uptime : Z) (oid : Oid) (vbs : list VarBind) : St (V3State W) (result Pdu Error) :=
  let+ p := sret (notification Inform 0 uptime oid vbs) in
  v3_checked_request p.

(** The loop of [walk]; [None] is a peer that has not let it end within [fuel]
    turns. *)
Fixpoint v3_walk_from (fuel : nat) (root current : Oid) (results : list VarBind)
    : St (V3State W) (option (result (list VarBind) Error)) :=
  match fuel with
  | O => sret None
  | S fuel' =>
      let* r := v3_get_next [current] in
      match r with
      | Err e => sret (Some (Err e))
      | Ok [] => sret (Some (Ok results))
      | Ok (vb :: _) =>
          if walk_stops root current vb then sret (Some (Ok results))
          else v3_walk_from fuel' root (vb_oid vb) (results ++ [vb])
      end
  end.

Definition v3_walk (fuel : nat) (root : Oid) : St (V3State W) (option (result (list VarBind) Error)) :=
  v3_walk_from fuel root root [].
End Secure.

(** * Request ids *)

Definition counter_ok {W} (s : Client W) : Prop := 0 <= request_counter s < 2147483648.

(** An id is a positive [i32], and so is what is left for the next. *)
Lemma next_request_id_ok {W} nanos (s : Client W) : counter_ok s →
  let '(id, s') := next_request_id nanos s in 1 <= id < 2147483648 ∧ net s' = net s ∧ counter_ok s'.
Proof.
  intros Hs. unfold counter_ok, next_request_id, seed in *. cbn.
  assert (0 <= Z.land (as_i32 nanos) 16777215 < 16777216).
  { change 16777215 with (Z.ones 24). rewrite Z.land_ones by lia. by apply Z.mod_pos_bound. }
  assert (∀ n, as_i32 n < 2147483648).
  { intros n. unfold wrap_i. change (2 ^ 32) with 4294967296. change (2 ^ (32 - 1)) with 2147483648.
    pose proof (Z.mod_pos_bound (n + 2147483648) 4294967296). lia. }
  destruct (Z.eqb_spec (request_counter s) 0); (split; [lia|split; [done|]]);
    match goal with |- context [as_i32 (?v + 1)] => pose proof (H0 (v + 1)) end; lia.
Qed.

(** * Retransmission *)

Definition shift {A} (f : nat → A) (n : nat) : A := f (S n).

(** The first [n] elements of a stream. *)
Fixpoint upcoming {A} (n : nat) (f : nat → A) : list A :=
  match n with O => [] | S n' => f 0%nat :: upcoming n' (shift f) end.

(** A transport that plays a script: what comes of each send and of the receive
    after it, next to what has been handed to it. *)
Abbreviation event := (result unit Error * Received)%type.

Record Script := mkScript { to_come : nat → event; handed : list bytes }.

Definition script_send (bs : bytes) : St Script (result unit Error) := fun s =>
  match (to_come s 0%nat).1 with
  | Ok _ => (Ok tt, mkScript (to_come s) (handed s ++ [bs]))
  | Err e => (Err e, mkScript (shift (to_come s)) (handed s ++ [bs]))
  end.

Definition script_receive (_ : Z) : St Script Received := fun s =>
  ((to_come s 0%nat).2, mkScript (shift (to_come s)) (handed s)).

#[export] Instance scripted : Transport Script := {|
  t_send := script_send; t_receive := script_receive; t_clock _ := 0; t_salt _ := []
|}.

Section Retransmission.
Context {R : Rasn}.

(** An event that ends the request with [id], and how. *)
Definition decision (id : Z) (ev : event) : option (result Pdu Error) :=
  match ev with
  | (Err e, _) | (_, Broken e) => Some (Err e)
  | (_, Elapsed) => None
  | (_, Arrived raw) =>
      match message_decode raw with
      | Err e => Some (Err e)
      | Ok m => if request_id (msg_pdu m) =? id then Some (Ok (msg_pdu m)) else None
      end
  end.

(** What is reported when an event that decided nothing was the last. *)
Definition regret (id : Z) (ev : event) : Error :=
  match ev.2 with
  | Arrived raw =>
      match message_decode raw with
      | Ok m => ERequestIdMismatch id (request_id (msg_pdu m))
      | Err e => e
      end
  | _ => ETimeout
  end.

(** The first event that decides, and its place. *)
Fixpoint first_decision (id : Z) (evs : list event) : option (nat * result Pdu Error) :=
  match evs with
  | [] => None
  | ev :: evs' =>
      match decision id ev with
      | Some r => Some (0%nat, r)
      | None => match first_decision id evs' with Some (i, r) => Some (S i, r) | None => None end
      end
  end.

Definition last_regret (id : Z) (last_err : Error) (evs : list event) : Error :=
  foldl (fun _ ev => regret id ev) last_err evs.

Lemma attempts_script c n id bs last_err s ctr :
  let '(r, s') := attempts c n id bs last_err (mkClient s ctr) in
  request_counter s' = ctr ∧
  match first_decision id (upcoming n (to_come s)) with
  | Some (i, r') => r = r' ∧ handed (net s') = handed s ++ replicate (S i) bs
  | None => r = Err (last_regret id last_err (upcoming n (to_come s))) ∧ handed (net s') = handed s ++ replicate n bs
  end.
Proof.
  revert last_err s. induction n as [|n IH]; intros last_err s; [cbn; by rewrite app_nil_r|].
  cbn [attempts upcoming first_decision]. unfold ebind, sbind, on_net. cbn. unfold script_send, last_regret.
  destruct (to_come s 0%nat) as [[[]|e] r] eqn:Ev; cbn; [|done]. rewrite Ev. cbn.
  destruct r as [raw|e|]; cbn; [|done|].
  - unfold regret. cbn. destruct (message_decode raw) as [m|e]; cbn; [|done].
    destruct (request_id (msg_pdu m) =? id); cbn; [done|].
    specialize (IH (ERequestIdMismatch id (request_id (msg_pdu m))) (mkScript (shift (to_come s)) (handed s ++ [bs]))).
    destruct (attempts _ _ _ _ _ _) as [r s']. destruct IH as [H1 IH]. cbn in IH. split; [done|].
    destruct (first_decision _ _) as [[i r']|]; by rewrite <- app_assoc in IH.
  - specialize (IH ETimeout (mkScript (shift (to_come s)) (handed s ++ [bs]))).
    destruct (attempts _ _ _ _ _ _) as [r s']. destruct IH as [H1 IH]. cbn in IH. split; [done|].
    destruct (first_decision _ _) as [[i r']|]; by rewrite <- app_assoc in IH.
Qed.

(** C10. A request against any behaviour of the network: the same message is handed to
    the transport once for each attempt up to the first one that decides, at
    most one more than there are retries; that attempt's outcome is the
    request's, only a message with the request's own id counts as its answer,
    and when none decides the last attempt says why. *)
Theorem request_retransmits c nanos p s ctr bs :
  let id := (next_request_id nanos (mkClient s ctr)).1 in
  message_encode (message_of c (with_request_id id p)) = Ok bs →
  let evs := upcoming (S (Z.to_nat (s_retries c))) (to_come s) in
  let '(r, s') := request c nanos p (mkClient s ctr) in
  match first_decision id evs with
  | Some (i, r') => r = r' ∧ handed (net s') = handed s ++ replicate (S i) bs ∧ (∀ q, r = Ok q → request_id q = id)
  | None => r = Err (last_regret id ETimeout evs) ∧
      handed (net s') = handed s ++ replicate (S (Z.to_nat (s_retries c))) bs
  end.
Proof.
  intros id Eb evs. unfold request, sbind. cbn -[attempts upcoming]. cbn in id. fold id. rewrite Eb.
  match goal with |- context [attempts c ?n id bs ETimeout (mkClient s ?k)] =>
    pose proof (attempts_script c n id bs ETimeout s k) as H; destruct (attempts c n id bs ETimeout (mkClient s k)) as [r s'] end.
  destruct H as [_ H]. fold evs in H. destruct (first_decision id evs) as [[i r']|] eqn:Ed; [|done].
  destruct H as [-> H]. split_and!; [done|done|]. intros q ->. clear -Ed.
  revert i Ed. induction evs as [|ev evs IH]; intros i; cbn; [done|].
  destruct (decision id ev) as [r|] eqn:D.
  - intros [= _ ->]. unfold decision in D. repeat case_match; try done. injection D as <-. by apply Z.eqb_eq.
  - destruct (first_decision id evs) as [[k r]|]; [|done]. intros [= _ ->]. eauto.
Qed.
End Retransmission.

(** * Walks *)

Definition is_exception (v : Value) : bool :=
  match v with VEndOfMibView | VNoSuchObject | VNoSuchInstance => true | _ => false end.

(** The cells under [root], after [current], that may be read. *)
Definition subtree_after (allowed : Oid → bool) (cs : cells) (root current : Oid) : list VarBind :=
  (λ c, mkVarBind c.1 c.2) <$>
  List.filter (fun c => Oid.ltb current c.1 && (Oid.is_prefix_of root c.1 && allowed c.1)) cs.

Definition subtree (allowed : Oid → bool) (cs : cells) (root : Oid) : list VarBind :=
  subtree_after allowed cs root root.

(** What a walk relies on: a GETNEXT of one OID is answered with its successor
    among ordered cells. *)
Class NextServer {S} (getnext : list Oid → St S (result (list VarBind) Error)) (ok : S → Prop)
    (askable : Oid → Prop) (allowed : Oid → bool) (cs : cells) : Prop := {
  ns_sorted : strictly_sorted cs;
  ns_cells c : c ∈ cs → allowed c.1 = true → askable c.1 ∧ is_exception c.2 = false;
  ns_next s o : ok s → askable o → ∃ s', getnext [o] s = (Ok [visible_next allowed cs o], s') ∧ ok s';
}.

Lemma walk_stops_data root current vb : is_exception (vb_value vb) = false →
  walk_stops root current vb = negb (Oid.is_prefix_of root (vb_oid vb)) || Oid.leb (vb_oid vb) current.
Proof. unfold walk_stops. by destruct (vb_value vb). Qed.

Lemma filter_none {A} (P : A → bool) l : (∀ x, x ∈ l → P x = false) → List.filter P l = [].
Proof.
  induction l as [|x l IH]; intros H; cbn; [done|].
  rewrite (H x) by (by left). apply IH. intros y Hy. apply H. by right.
Qed.

Lemma filter_least cs P (c : Oid * Value) : strictly_sorted cs → c ∈ cs → P c = true →
  (∀ d, d ∈ cs → P d = true → Oid.le c.1 d.1) →
  List.filter P cs = c :: List.filter (λ d, Oid.ltb c.1 d.1 && P d) cs.
Proof.
  intros HS. induction HS as [|d cs HS IH HF]; intros Hc Pc Hmin; [by apply elem_of_nil in Hc|].
  rewrite Forall_forall in HF. cbn. apply elem_of_cons in Hc as [->|Hc].
  - rewrite Pc. assert (Oid.ltb d.1 d.1 = false) as -> by (by apply Oid.ltb_ge). cbn. f_equal.
    apply filter_ext_in. intros e He%list_elem_of_In.
    by rewrite (proj2 (Oid.ltb_lt _ _) (HF _ He)).
  - assert (Oid.lt d.1 c.1) as L by (by apply HF). destruct (P d) eqn:Pd.
    { destruct (proj2 (Oid.not_lt d.1 c.1) (Hmin d (list_elem_of_here _ _) Pd) L). }
    rewrite andb_false_r. apply IH; [done..|]. intros e He. apply Hmin. by right.
Qed.

(** Where the successor of [current] leaves the walk. *)
Lemma subtree_step allowed cs root current :
  strictly_sorted cs → (∀ c, c ∈ cs → allowed c.1 = true → is_exception c.2 = false) →
  Oid.is_prefix_of root current = true →
  let vb := visible_next allowed cs current in
  let rest := subtree_after allowed cs root current in
  if walk_stops root current vb then rest = []
  else rest = vb :: subtree_after allowed cs root (vb_oid vb) ∧ Oid.is_prefix_of root (vb_oid vb) = true ∧
    (vb_oid vb, vb_value vb) ∈ cs ∧ allowed (vb_oid vb) = true.
Proof.
  intros HS Hd Hp. unfold subtree_after.
  destruct (visible_next_cases allowed cs current HS) as [(c & Hc & L & A & -> & Min)|[-> None]]; cbv zeta.
  2:{ cbn. rewrite filter_none; [done|]. intros d Hdc. destruct (Oid.ltb current d.1) eqn:L; [|done].
      rewrite (None d Hdc) by (by apply Oid.ltb_lt). by rewrite andb_false_r. }
  rewrite walk_stops_data by (by apply Hd). cbn [vb_oid vb_value].
  rewrite (proj2 (Oid.leb_gt _ _) L), orb_false_r. destruct (Oid.is_prefix_of root c.1) eqn:P; cbn [negb].
  - split_and!; [|done|by destruct c|done].
    rewrite (filter_least cs _ c HS Hc); [|by rewrite (proj2 (Oid.ltb_lt _ _) L), P, A|].
    + cbn. f_equal. f_equal. apply filter_ext. intros d. destruct (Oid.ltb c.1 d.1) eqn:L'; [|done].
      apply Oid.ltb_lt in L'. by rewrite (proj2 (Oid.ltb_lt current d.1)) by (by transitivity c.1).
    + intros d Hdc [Ld [_ Ad]%andb_true_iff]%andb_true_iff. apply Min; [done|by apply Oid.ltb_lt|done].
  - rewrite filter_none; [done|]. intros d Hdc.
    destruct (Oid.ltb current d.1) eqn:Ld; [|done]. destruct (Oid.is_prefix_of root d.1) eqn:Pd; [|done].
    destruct (allowed d.1) eqn:Ad; [|done]. exfalso. apply Oid.ltb_lt in Ld.
    by rewrite (Oid.prefix_convex root current c.1 d.1 Hp Pd (Oid.lt_le _ _ L) (Min d Hdc Ld Ad)) in P.
Qed.

(** A loop of GETNEXTs that stops where [walk_stops] says gathers the subtree. *)
Section Walk.
Context {S : Type} {getnext : list Oid → St S (result (list VarBind) Error)} {ok : S → Prop}.
Context {askable : Oid → Prop} {allowed : Oid → bool} {cs : cells}.
Context {N : NextServer getnext ok askable allowed cs}.

Lemma next_turn root current s : ok s → askable current → Oid.is_prefix_of root current = true →
  let rest := subtree_after allowed cs root current in
  ∃ vb s', getnext [current] s = (Ok [vb], s') ∧ ok s' ∧
    if walk_stops root current vb then rest = []
    else rest = vb :: subtree_after allowed cs root (vb_oid vb) ∧ askable (vb_oid vb) ∧
      Oid.is_prefix_of root (vb_oid vb) = true.
Proof using N.
  intros Hs Ha Hp. destruct (ns_next s current Hs Ha) as (s' & E & Hs').
  eexists _, s'. split_and!; [exact E|done|].
  pose proof (subtree_step allowed cs root current ns_sorted (λ c Hc Hv, proj2 (ns_cells c Hc Hv)) Hp) as H.
  cbv zeta in H. destruct (walk_stops _ _ _); [done|]. destruct H as (H1 & H2 & H3 & H4).
  split_and!; [done| |done]. exact (proj1 (ns_cells _ H3 H4)).
Qed.
End Walk.

(** The walks of both sessions against the interface. *)
Section Walks.
Context {W : Type} {T : Transport W} (nanos : Z) {askable : Oid → Prop} {allowed : Oid → bool} {cs : cells}.

Lemma try_collect_gathers `{R : Rasn} (c : SessionConfig) (ok : Client W → Prop)
    `{N : !NextServer (get_next c nanos) ok askable allowed cs} root fuel current acc s :
  ok s → askable current → Oid.is_prefix_of root current = true →
  (length (subtree_after allowed cs root current) < fuel)%nat →
  ∃ s', try_collect c nanos fuel root (Some current) acc s =
    (Some (Ok (acc ++ subtree_after allowed cs root current)), s') ∧ ok s'.
Proof.
  revert current acc s. induction fuel as [|fuel IH]; intros current acc s Hs Ha Hp Hl; [lia|].
  destruct (next_turn root current s Hs Ha Hp) as (vb & s1 & E & Hs1 & H).
  cbn -[get_next]. unfold sbind, walk_poll, sbind. rewrite E. cbn.
  destruct (walk_stops root current vb).
  - exists s1. rewrite H, app_nil_r. done.
  - destruct H as (H & Ha' & Hp'). rewrite H in Hl |- *. cbn in Hl.
    destruct (IH (vb_oid vb) (acc ++ [vb]) s1 Hs1 Ha' Hp') as (s2 & E2 & Hs2); [lia|].
    exists s2. rewrite E2, <- app_assoc. done.
Qed.

Lemma v3_walk_gathers `{R : RasnV3} `{C : Crypto} user timeout retries (ok : V3State W → Prop)
    `{N : !NextServer (v3_get_next user timeout retries nanos) ok askable allowed cs} root fuel current acc s :
  ok s → askable current → Oid.is_prefix_of root current = true →
  (length (subtree_after allowed cs root current) < fuel)%nat →
  ∃ s', v3_walk_from user timeout retries nanos fuel root current acc s =
    (Some (Ok (acc ++ subtree_after allowed cs root current)), s') ∧ ok s'.
Proof.
  revert current acc s. induction fuel as [|fuel IH]; intros current acc s Hs Ha Hp Hl; [lia|].
  destruct (next_turn root current s Hs Ha Hp) as (vb & s1 & E & Hs1 & H).
  cbn -[v3_get_next]. unfold sbind. rewrite E. cbn. destruct (walk_stops root current vb).
  - exists s1. rewrite H, app_nil_r. done.
  - destruct H as (H & Ha' & Hp'). rewrite H in Hl |- *. cbn in Hl.
    destruct (IH (vb_oid vb) (acc ++ [vb]) s1 Hs1 Ha' Hp') as (s2 & E2 & Hs2); [lia|].
    exists s2. rewrite E2, <- app_assoc. done.
Qed.
End Walks.

(** * What a session takes for an answer *)

Section Forged.
Context {R : RasnV3} {L : RasnV3Laws R} {C : Crypto} {CL : CryptoLaws C}.

(** A message built for a user without keys is read by a session of any user as
    it was built: as its answer when it has the request's id, and when it is a
    report, as the agent's boots and time. *)
Theorem unauthenticated_answer u name id salt e ctx p rid :
  is_i32 id → is_text name → is_salt salt → wf_engine e → is_bytes ctx → wf_pdu p → sendable_pdu p = true →
  ∃ bs m, build_response id (noauth_user name) salt e ctx p = Ok bs ∧
    u_engine_boots (usm m) = engine_boots e ∧ u_engine_time (usm m) = engine_time e ∧
    judge u rid false bs =
      if bool_decide (pdu_type p = Report) then Resync m
      else if request_id p =? rid then Accept (pad_pdu p) else Retry (ERequestIdMismatch rid (request_id p)).
Proof using L CL.
  intros Hi Ht [Hsl Hsb] We Hc Wp Sp.
  destruct (build_message_back id false NoAuthNoPriv (as_bytes name) salt e ctx None None p u)
    as (bs & tag & privp & Eb & _ & _ & Em & _); [done|by apply is_bytes_as_bytes|done..|].
  cbn zeta in Em. match type of Em with _ = Ok ?m => exists bs, m end.
  split; [exact Eb|]. unfold judge. rewrite Em. split; [done|]. split; [done|].
  cbn [scoped scoped_pdu pdu_type request_id pad_pdu]. done.
Qed.
End Forged.
