(* ===== verification/Manager.v ===== *)
(** * A manager's session with the agent

    The client sessions of [Session] over a link to the agent of [Agent]: what
    is sent is handled by the agent, its reply is what arrives, and time passes
    on the way. The walks and the clock keeping of the sessions are proved
    against the agent through the interface [NextServer]. *)

From Stdlib Require Import ZArith Lia.
From S2P Require Import Prelude MachineInts Text Oid Value Pdu Cells Handler Vacm Registry Serving.
From S2P Require Import Wire Usm V3 Agent Session.

Local Open Scope list_scope.

Definition SECOND : Z := 1000000000.

(** ** The link *)

(** The agent's state, the replies on their way back, the time in nanoseconds,
    how long each message will take and the salts still to be drawn: of each
    two, the manager takes the first and the agent the second. *)
Record Link (W : Type) := mkLink {
  l_agent : State W;
  l_inbox : list bytes;
  l_time : Z;
  l_delays : nat → Z;
  l_salts : nat → bytes
}.
Arguments mkLink {W}.
Arguments l_agent {W}.
Arguments l_inbox {W}.
Arguments l_time {W}.
Arguments l_delays {W}.
Arguments l_salts {W}.

(** The time that the next [n] messages take. *)
Fixpoint total (f : nat → Z) (n : nat) : Z :=
  match n with O => 0 | S n' => f 0%nat + total (shift f) n' end.

Section Link.
Context {R : RasnV3} {C : Crypto} {W : Type} (a : Agent W) (fuel : nat) (boot : Z).

(** The agent's clock: whole seconds since it started. *)
Definition uptime (t : Z) : Z := (t - boot) / SECOND.

Definition link_send (bs : bytes) : St (Link W) (result unit Error) := fun l =>
  let t := l_time l + l_delays l 0 in
  let '(r, s) := handle_datagram a fuel (uptime t) (l_salts l 1%nat) bs (l_agent l) in
  let replies := match r with Some (Ok (Some reply)) => [reply] | _ => [] end in
  (Ok tt, mkLink s (l_inbox l ++ replies) t (shift (l_delays l)) (shift (shift (l_salts l)))).

Definition link_receive (timeout : Z) : St (Link W) Received := fun l =>
  let d := l_delays l 0%nat in
  match l_inbox l with
  | raw :: rest =>
      if d <=? timeout
      then (Arrived raw, mkLink (l_agent l) rest (l_time l + d) (shift (l_delays l)) (l_salts l))
      else (Elapsed, mkLink (l_agent l) (l_inbox l) (l_time l + timeout) (l_delays l) (l_salts l))
  | [] => (Elapsed, mkLink (l_agent l) [] (l_time l + timeout) (l_delays l) (l_salts l))
  end.

#[export] Instance link : Transport (Link W) := {|
  t_send := link_send;
  t_receive := link_receive;
  t_clock := l_time;
  t_salt l := l_salts l 0%nat;
|}.
End Link.

(** ** What the theorems rely on *)

Section Assumptions.
Context {R : RasnV3} {W : Type} (a : Agent W) (fuel : nat).
Context (inv : W → Prop) (eqv : relation W) (view : MibHandler W → W → cells).

(** The handlers keep their promises, what they do on a read changes neither
    their cells nor the access tables, and every cell is data under an OID of
    two arcs or more. *)
Class Managed : Prop := {
  mg_ok :: AgentOk inv eqv view (registry a) fuel;
  mg_agent : wf_agent a;
  mg_acl w w' : eqv w w' → acl a w = acl a w';
  mg_cells w c : inv w → c ∈ mib view (registry a) w →
    long_oid c.1 ∧ is_exception c.2 = false ∧ (match c.2 with VOid o => long_oid o | _ => True end);
}.

(** A link whose agent is as it was in world [w0], with no reply pending, no
    message that takes longer than [limit], and whose clock stays below the
    end of [u32] seconds after the agent's start. *)
Record steady (boot limit : Z) (w0 : W) (l : Link W) : Prop := {
  st_inv : inv (world (l_agent l));
  st_eqv : eqv (world (l_agent l)) w0;
  st_inbox : l_inbox l = [];
  st_boot : boot <= l_time l;
  st_delays n : 0 <= l_delays l n <= limit;
  st_time n : l_time l + total (l_delays l) n < boot + (u32_max + 1) * SECOND;
  st_salts n : is_salt (l_salts l n);
}.
End Assumptions.

Lemma long_vb_cell c : long_oid c.1 → (match c.2 with VOid o => long_oid o | _ => True end) →
  pad_vb (mkVarBind c.1 c.2) = mkVarBind c.1 c.2.
Proof. intros. by apply pad_vb_long. Qed.

(** ** Reads over a steady link *)

Section Steady.
Context {R : RasnV3} {L : RasnV3Laws R} {C : Crypto} {CL : CryptoLaws C}.
Context {W : Type} (a : Agent W) (fuel : nat) (boot limit : Z).
Context {inv : W → Prop} {eqv : relation W} {view : MibHandler W → W → cells}.
Context {M : Managed a fuel inv eqv view} (w0 : W).

#[local] Existing Instance link.

Abbreviation served := (served_to a (view:=view)).

(** The cells under the agent. *)
Definition cells_now : cells := mib view (registry a) w0.

Definition steadily (l : Link W) : Prop := steady inv eqv boot limit w0 l.

Lemma steady_mib l : steadily l → mib view (registry a) (world (l_agent l)) = cells_now.
Proof using M. intros H. apply mib_proper, H. Qed.

(** The moments at which the next message is handled and its reply arrives. *)
Definition handled_at (l : Link W) : Z := l_time l + l_delays l 0%nat.
Definition answered_at (l : Link W) : Z := handled_at l + l_delays l 1%nat.

Lemma steady_times l : steadily l →
  boot <= l_time l <= handled_at l ∧ handled_at l <= answered_at l ∧
  handled_at l <= l_time l + limit ∧ answered_at l <= handled_at l + limit ∧
  answered_at l < boot + (u32_max + 1) * SECOND.
Proof.
  intros H. pose proof (st_delays _ _ _ _ _ _ H 0) as D0. pose proof (st_delays _ _ _ _ _ _ H 1) as D1.
  pose proof (st_time _ _ _ _ _ _ H 2) as Ht. pose proof (st_boot _ _ _ _ _ _ H). cbn in Ht.
  unfold answered_at, handled_at, shift in *. lia.
Qed.

(** A message that the agent answers is answered over the link. *)
Lemma link_exchange timeout bs reply s' l : steadily l → limit <= timeout →
  handle_datagram a fuel (uptime boot (handled_at l)) (l_salts l 1%nat) bs (l_agent l)
    = (Some (Ok (Some reply)), s') →
  eqv (world s') (world (l_agent l)) →
  ∃ l1 l2, link_send a fuel boot bs l = (Ok tt, l1) ∧ link_receive timeout l1 = (Arrived reply, l2) ∧
    steadily l2 ∧ l_time l2 = answered_at l.
Proof using M.
  intros H Ht Eh Hq. unfold link_send. fold (handled_at l). rewrite Eh, (st_inbox _ _ _ _ _ _ H).
  eexists _, _. split; [reflexivity|]. unfold link_receive. cbn [l_inbox app l_delays l_time l_agent l_salts].
  pose proof (st_delays _ _ _ _ _ _ H 1) as D1. unfold shift at 1. rewrite (proj2 (Z.leb_le _ _)) by lia.
  split; [reflexivity|]. split; [|reflexivity].
  pose proof (registry_world (hs:=registry a)) as RW.
  destruct H as [H1 H2 H3 H4 H5 H6 H7]. split; cbn.
  - by apply (inv_eqv (ReadWorld:=RW) _ _ Hq).
  - by etrans.
  - done.
  - pose proof (H5 0%nat). pose proof (H5 1%nat). unfold handled_at, shift. lia.
  - intros n. apply H5.
  - intros n. specialize (H6 (S (S n))). cbn in H6. unfold handled_at, shift in *. lia.
  - intros n. apply H7.
Qed.

Lemma served_steady l (sec : W → SecurityContext) p : steadily l →
  (∀ w w', acl a w = acl a w' → sec w = sec w') →
  served sec (world (l_agent l)) p = served sec w0 p.
Proof using M.
  intros H Hsec. unfold served_to. rewrite (steady_mib l H).
  destruct M as [_ _ Hacl _]. by rewrite (Hsec _ w0) by apply Hacl, H.
Qed.

(** ** Requests that can be asked *)

Record askable_pdu (p : Pdu) : Prop := {
  ap_wf : wf_pdu p;
  ap_sendable : sendable_pdu p = true;
  ap_read : is_read (pdu_type p) = true;
  ap_few : Z.of_nat (length (variables p)) < u32_max;
}.

Lemma with_request_id_askable id p : is_i32 id → askable_pdu p → askable_pdu (with_request_id id p).
Proof. intros Hi [[H1 H2 H3 H4 H5] S Rd F]. by split; [split| | |]. Qed.

Definition nameable (o : Oid) : Prop := Oid.wf o ∧ sendable_oid o = true ∧ long_oid o.

Lemma query_askable t o : is_read t = true → nameable o → askable_pdu (query t 0 0 [o]).
Proof.
  intros Ht (Wo & So & _). split; [split| |done|done]; cbn; try done; try (unfold is_i64, is_i32; lia).
  - by apply Forall_singleton.
  - unfold sendable_pdu, sendable_vb. cbn. rewrite So. by destruct t.
Qed.

(** The successor of a nameable OID fits in a message as it is. *)
Lemma next_nameable allowed o : inv w0 → nameable o →
  pad_vb (visible_next allowed cells_now o) = visible_next allowed cells_now o.
Proof using M.
  intros Hw Ho. apply pad_vb_long. pose proof (mib_sorted (hs:=registry a) w0 Hw) as HS.
  destruct (visible_next_cases allowed cells_now o HS) as [(c & Hc & _ & _ & -> & _)|[-> _]].
  - destruct (@mg_cells _ _ _ _ _ _ _ M w0 c Hw Hc) as (H1 & _ & H2). by split.
  - split; [apply Ho|done].
Qed.

(** What the answer to a GETNEXT holds. *)
Lemma served_next sec id o : inv w0 → nameable o →
  let resp := served sec w0 (pad_pdu (with_request_id id (query GetNext 0 0 [o]))) in
  checked resp = Ok resp ∧ variables resp = [visible_next (allows (sec w0) Read) cells_now o].
Proof using M.
  intros Hw Ho. cbn. split; [done|]. fold cells_now. rewrite pad_oid_long by apply Ho.
  by rewrite (next_nameable _ o Hw Ho).
Qed.

Lemma served_id sec w p : request_id (served sec w (pad_pdu p)) = request_id p.
Proof. unfold served_to, serve. cbn. destruct (pdu_type p); try done. by destruct (first_denied _ _ _ _). Qed.

(** A cell of the agent can be asked after. *)
Lemma cell_nameable c : inv w0 → c ∈ cells_now → nameable c.1 ∧ is_exception c.2 = false.
Proof using M.
  intros Hw Hc. destruct (@mg_cells _ _ _ _ _ _ _ M w0 c Hw Hc) as (H1 & H2 & _).
  pose proof (ok_cells w0 Hw) as G. rewrite Forall_forall in G.
  destruct (G c Hc) as [[Wo _] So]. unfold sendable_vb in So. apply andb_true_iff in So as [So _]. done.
Qed.
End Steady.

(** * The community session *)

Section Community.
Context {R : RasnV3} {L : RasnV3Laws R} {C : Crypto} {CL : CryptoLaws C}.
Context {W : Type} (a : Agent W) (fuel : nat) (boot limit : Z).
Context {inv : W → Prop} {eqv : relation W} {view : MibHandler W → W → cells}.
Context {M : Managed a fuel inv eqv view} (w0 : W) (Hw0 : inv w0).
Context (c : SessionConfig) (nanos : Z) (Hc : s_community c = cfg_community (config a)).
Context (Hb : is_bytes (s_community c)) (Ht : limit <= s_timeout c).

#[local] Instance agent_link : Transport (Link W) := link a fuel boot.

Abbreviation served := (served_to a (view:=view)).

Definition community_sec : W → SecurityContext := community_context a (s_version c) (s_community c).

Definition connected (s : Client (Link W)) : Prop :=
  steady inv eqv boot limit w0 (net s) ∧ counter_ok s.

Lemma community_request p s : connected s → askable_pdu p →
  ∃ id s', request c nanos p s =
    (Ok (served community_sec w0 (pad_pdu (with_request_id id p))), s') ∧ connected s'.
Proof using All.
  intros [Hs Hctr] Hp. unfold request, sbind. pose proof (next_request_id_ok nanos s Hctr) as Hid.
  destruct (next_request_id nanos s) as [id s1]. destruct Hid as (Hid & En & Hctr1). rewrite <- En in Hs.
  assert (Hi : is_i32 id) by (unfold is_i32; lia).
  destruct (with_request_id_askable id p Hi Hp) as [Wp Sp Rd Few].
  set (q := with_request_id id p) in *. set (m := message_of c q).
  assert (Wm : wf_message m) by (by split).
  destruct (message_encode_back m Wm) as (bs & Eb & _).
  { unfold sendable. cbn [msg_pdu message_of m]. rewrite (bool_decide_eq_false_2 (pdu_type q = TrapV1)), andb_false_r;
      [done|]. intros Et. by rewrite Et in Rd. }
  fold m. rewrite Eb.
  destruct (community_answer a fuel (@mg_ok _ _ _ _ _ _ _ M) (uptime boot (handled_at (net s1))) (l_salts (net s1) 1%nat) m bs
    (l_agent (net s1)) Wm Sp Rd Few Eb (st_inv _ _ _ _ _ _ Hs) Hc) as (reply & sa & Eh & Hq & _ & Ed).
  destruct (link_exchange a fuel boot limit w0 (s_timeout c) bs reply sa (net s1) Hs Ht Eh Hq)
    as (l1 & l2 & E1 & E2 & Hs2 & _).
  exists id, (mkClient l2 (request_counter s1)). split; [|by split].
  cbn [attempts]. unfold ebind, sbind, on_net. cbn [t_send t_receive agent_link link].
  rewrite E1. cbn [net request_counter]. rewrite E2, Ed. cbn [msg_pdu msg_version community message_of m].
  rewrite (served_steady a fuel boot limit w0 (net s1)) by (done || by intros w w' E; unfold community_context; rewrite E).
  rewrite served_id, Z.eqb_refl. done.
Qed.

#[export] Instance community_next : NextServer (get_next c nanos) connected nameable
  (allows (community_sec w0) Read) (mib view (registry a) w0).
Proof using All.
  split.
  - by apply mib_sorted.
  - intros x Hx _. by eapply cell_nameable.
  - intros s o Hs Ho. destruct (community_request (query GetNext 0 0 [o]) s Hs) as (id & s' & E & Hs');
      [by apply query_askable|].
    destruct (served_next a fuel w0 community_sec id o Hw0 Ho) as [H1 H2].
    exists s'. unfold get_next, checked_request, ebind, sbind. rewrite E. cbn -[served_to]. rewrite H1, H2. done.
Qed.

(** A walk of a session in the agent's community returns exactly the cells under
    the root that the community may read, in order, whatever time messages
    take within the timeout. *)
Theorem community_walk fuel' root s : connected s → nameable root →
  let cells := subtree (allows (community_sec w0) Read) (mib view (registry a) w0) root in
  (length cells < fuel')%nat →
  ∃ s', walk c nanos fuel' root s = (Some (Ok cells), s') ∧ connected s'.
Proof using All.
  intros Hs Hr cells Hl.
  exact (try_collect_gathers nanos c connected root fuel' root [] s Hs Hr (Oid.is_prefix_of_refl root) Hl).
Qed.
End Community.


(** * The v3 session *)

Section Secure.
Context {R : RasnV3} {L : RasnV3Laws R} {C : Crypto} {CL : CryptoLaws C}.
Context {W : Type} (a : Agent W) (fuel : nat) (boot limit : Z).
Context {inv : W → Prop} {eqv : relation W} {view : MibHandler W → W → cells}.
Context {M : Managed a fuel inv eqv view} (w0 : W) (Hw0 : inv w0).
Context (u : UsmUser) (Hu : users a !! as_bytes (user_name u) = Some u) (Hn : cfg_engine_id (config a) ≠ []).
Context (timeout retries nanos : Z) (Ht : limit <= timeout) (Hlim : limit <= 74 * SECOND).

#[local] Instance agent_link3 : Transport (Link W) := link a fuel boot.

Abbreviation served := (served_to a (view:=view)).

Definition user_sec : W → SecurityContext := usm_context a u [].

(** The session knows the agent's engine, whatever it thinks the time is. *)
Record acquainted (s : V3State (Link W)) : Prop := {
  aq_steady : steady inv eqv boot limit w0 (net (client s));
  aq_counter : counter_ok (client s);
  aq_engine : engine_id (v_engine s) = cfg_engine_id (config a);
  aq_wf : wf_engine (v_engine s);
  aq_msg_id : is_i32 (v_msg_id s);
}.

(** It also learned boots and time from a message that left the agent at [t]. *)
Definition in_sync (s : V3State (Link W)) : Prop :=
  engine_boots (v_engine s) = cfg_engine_boots (config a) ∧
  ∃ t, boot <= t <= time_base s ∧ time_base s <= t + limit ∧ engine_time (v_engine s) = uptime boot t ∧
    time_base s <= l_time (net (client s)).

Abbreviation now_of s := (uptime boot (handled_at (net (client s)))).

(** A session in sync is within the agent's window. *)
Lemma in_sync_fresh s : acquainted s → in_sync s → fresh a (current_engine s) (now_of s) = true.
Proof using Hlim M.
  intros [Hs _ _ _ _] (Hb & t & Ht1 & Ht2 & Et & Ht3).
  pose proof (steady_times boot limit w0 (net (client s)) Hs) as (T1 & T2 & T3 & T4 & T5).
  apply bool_decide_eq_true. split; [done|].
  cbn [engine_time current_engine]. unfold current_engine_time. rewrite Et. cbn [t_clock agent_link3 link].
  set (t3 := l_time (net (client s))) in *. set (t4 := handled_at (net (client s))) in *.
  unfold uptime, SECOND, TIME_WINDOW_SECS, wrap_u, u32_max in *.
  rewrite (Z.mod_small ((t3 - time_base s) / 1000000000)), !Z.mod_small; Z.div_mod_to_equations; lia.
Qed.

Lemma current_engine_wf s : acquainted s → wf_engine (current_engine s).
Proof. intros H. destruct (aq_wf _ H). split; cbn; try done. apply as_u32_range. Qed.

(** The state after a message has been answered over the link. *)
Definition after (s : V3State (Link W)) (l : Link W) : V3State (Link W) :=
  mkV3State (mkClient l (request_counter (client s))) (v_engine s) (time_base s) (as_i32 (v_msg_id s + 1)).

Lemma after_ok s l : acquainted s → steady inv eqv boot limit w0 l → acquainted (after s l).
Proof. intros [H1 H2 H3 H4 H5] Hl. split; cbn; try done. apply as_i32_range. Qed.

(** Whether the agent refuses a message of the session as too old. *)
Definition refused (s : V3State (Link W)) : bool :=
  has_auth (security_level_of u) && negb (fresh a (current_engine s) (now_of s)).

(** One attempt of a session that knows the engine: what arrives is the answer,
    or a report of the agent's boots and time. *)
Lemma attempt p s : acquainted s → askable_pdu p →
  ∃ bs s1 raw m l, stamped (fun id => build_request id u) p s = (Ok bs, s1) ∧
    exchange timeout bs s1 = (Ok raw, after s l) ∧ parse raw (Some u) = Ok m ∧
    steady inv eqv boot limit w0 l ∧ l_time l = answered_at (net (client s)) ∧
    if refused s then
      pdu_type (scoped_pdu (scoped m)) = Report ∧
      u_engine_boots (usm m) = cfg_engine_boots (config a) ∧ u_engine_time (usm m) = as_u32 (now_of s)
    else scoped_pdu (scoped m) = served user_sec w0 (pad_pdu p).
Proof using All.
  intros Hq [Wp Sp Rd Few]. pose proof (aq_steady _ Hq) as Hs. pose proof (@mg_agent _ _ _ _ _ _ _ M) as WA.
  assert (Hid : is_i32 (Z.max (v_msg_id s) 1)) by (pose proof (aq_msg_id _ Hq); unfold is_i32 in *; lia).
  pose proof (current_engine_wf s Hq) as We.
  destruct (st_salts _ _ _ _ _ _ Hs 0) as [Hsl Hsb].
  destruct (user_message_back (Z.max (v_msg_id s) 1) true u (l_salts (net (client s)) 0%nat) (current_engine s)
    (engine_id (current_engine s)) p) as (bs & _ & _ & Eb & _); try done; [by apply (wa_users a WA _ _ Hu)|apply We|].
  assert (Ee : engine_id (current_engine s) = cfg_engine_id (config a)) by apply (aq_engine _ Hq).
  set (s1 := mkV3State (client s) (v_engine s) (time_base s) (as_i32 (v_msg_id s + 1))).
  assert (Reply : ∃ reply m sa, handle_datagram a fuel (now_of s) (l_salts (net (client s)) 1%nat) bs
      (l_agent (net (client s))) = (Some (Ok (Some reply)), sa) ∧ parse reply (Some u) = Ok m ∧
    eqv (world sa) (world (l_agent (net (client s)))) ∧
    if refused s then
      pdu_type (scoped_pdu (scoped m)) = Report ∧
      u_engine_boots (usm m) = cfg_engine_boots (config a) ∧ u_engine_time (usm m) = as_u32 (now_of s)
    else scoped_pdu (scoped m) = served user_sec (world (l_agent (net (client s)))) (pad_pdu p)).
  { destruct (refused s) eqn:Er.
    - destruct (stale_answer a fuel WA Hn u Hu _ Hid _ (conj Hsl Hsb) _ We Ee _ (wfe_id _ We) p Wp Sp bs Eb
        (now_of s) (l_salts (net (client s)) 1%nat) (l_agent (net (client s))) Er)
        as (reply & m & sa & H1 & H2 & _ & H3 & H4 & _ & H5 & H6).
      exists reply, m, sa. rewrite H3, H4. split_and!; [done|done| |done|done|done].
      pose proof (registry_world (hs:=registry a)) as RW. reflexivity.
    - destruct (fresh_answer a fuel (@mg_ok _ _ _ _ _ _ _ M) WA Hn u Hu _ Hid _ (conj Hsl Hsb) _ We Ee _ (wfe_id _ We)
        p Wp Sp bs Eb (now_of s) (l_salts (net (client s)) 1%nat) (l_agent (net (client s))) Er Few Rd
        (st_inv _ _ _ _ _ _ Hs) (st_salts _ _ _ _ _ _ Hs 1)) as (reply & m & sa & H1 & H2 & _ & H3 & _ & _ & H4).
      exists reply, m, sa. by split_and!. }
  destruct Reply as (reply & m & sa & Eh & Em & Heq & Hcase).
  destruct (link_exchange a fuel boot limit w0 timeout bs reply sa (net (client s)) Hs Ht Eh Heq)
    as (l1 & l & E1 & E2 & Hl & Etime).
  exists bs, s1, reply, m, l. split_and!; [| |done|done|done|].
  - unfold stamped, next_msg_id, build_request. cbn [client net t_salt agent_link3 link]. by rewrite Eb.
  - unfold exchange, ebind, sbind, on_client, on_net. cbn [t_send t_receive agent_link3 link client s1 net].
    rewrite E1. cbn [client net request_counter]. rewrite E2. done.
  - destruct (refused s); [done|]. rewrite Hcase. apply (served_steady a fuel boot limit w0); [done|].
    intros w w' E. unfold user_sec, usm_context. by rewrite E.
Qed.

(** Nothing the session sends will be refused as too old. *)
Definition ready (s : V3State (Link W)) : Prop :=
  acquainted s ∧ (has_auth (security_level_of u) = true → in_sync s).

Lemma ready_fresh s : ready s → refused s = false.
Proof using Hlim M.
  intros [Hq Hs]. unfold refused. destruct (has_auth _); [|done]. by rewrite (in_sync_fresh s) by auto.
Qed.

Lemma after_in_sync s l : acquainted s → l_time l = answered_at (net (client s)) → in_sync s → in_sync (after s l).
Proof.
  intros Hq El (Hb & t & H1 & H2 & H3 & H4). split; [done|]. exists t. cbn. split; [lia|]. split; [lia|]. split; [done|]. rewrite El. pose proof (steady_times boot limit w0 (net (client s)) (aq_steady _ Hq)). lia.
Qed.

Lemma served_response p : is_read (pdu_type p) = true → pdu_type (served user_sec w0 (pad_pdu p)) = Response.
Proof. intros H. unfold served_to. cbn. by rewrite reads_respond. Qed.

(** An attempt that is not refused brings the answer. *)
Lemma attempts_fresh n p resynced last s : acquainted s → askable_pdu p → refused s = false →
  ∃ s', v3_attempts u timeout (S n) p resynced last s = (Ok (served user_sec w0 (pad_pdu p)), s') ∧
    acquainted s' ∧ (in_sync s → in_sync s').
Proof using All.
  intros Hq Hp Er. destruct (attempt p s Hq Hp) as (bs & s1 & raw & m & l & E1 & E2 & Em & Hl & Et & Hm).
  rewrite Er in Hm. exists (after s l). split; [|split; [by apply after_ok|by apply after_in_sync]].
  cbn [v3_attempts]. unfold ebind, sbind. rewrite E1. cbn -[exchange judge]. rewrite E2.
  unfold judge. rewrite Em, Hm. rewrite served_response by apply Hp. cbn -[served_to].
  by rewrite served_id, Z.eqb_refl.
Qed.

(** A refused attempt brings the session in sync. *)
Lemma attempts_stale n p last s : acquainted s → askable_pdu p → refused s = true →
  ∃ s', v3_attempts u timeout (S n) p false last s = v3_attempts u timeout n p true last s' ∧
    acquainted s' ∧ in_sync s'.
Proof using All.
  intros Hq Hp Er. destruct (attempt p s Hq Hp) as (bs & s1 & raw & m & l & E1 & E2 & Em & Hl & Et & Hm).
  rewrite Er in Hm. destruct Hm as (Hr & Eb & Etm).
  pose proof (after_ok s l Hq Hl) as [A1 A2 A3 A4 A5].
  pose proof (steady_times boot limit w0 (net (client s)) (aq_steady _ Hq)) as T.
  exists (resync m (after s l)).2. split_and!.
  - cbn [v3_attempts]. unfold ebind, sbind. rewrite E1. cbn -[exchange judge resync]. rewrite E2.
    unfold judge. rewrite Em, Hr. done.
  - split; cbn; try done. destruct (engine_wf a (@mg_agent _ _ _ _ _ _ _ M) 0) as [_ Wb _]. cbn in Wb.
    split; cbn; [apply A4|by rewrite Eb|rewrite Etm; apply as_u32_range].
  - split; [done|]. exists (handled_at (net (client s))). cbn. rewrite Et, Etm.
    split_and!; [lia|lia|lia| |lia].
    unfold wrap_u. apply Z.mod_small. unfold uptime, SECOND, u32_max in *. Z.div_mod_to_equations; lia.
Qed.

(** One request, from any idea of the agent's clock when there is a retry. *)
Lemma v3_request_answered p s : acquainted s → askable_pdu p → ready s ∨ 1 <= retries →
  ∃ id s', v3_request u timeout retries nanos p s =
    (Ok (served user_sec w0 (pad_pdu (with_request_id id p))), s') ∧ acquainted s' ∧ (ready s ∨ refused s = true → ready s').
Proof using All.
  intros Hq Hp Hor. pose proof (next_request_id_ok nanos (client s) (aq_counter _ Hq)) as Hid.
  unfold v3_request, sbind, on_client. destruct (next_request_id nanos (client s)) as [id cl].
  destruct Hid as (Hid & En & Hc). set (s0 := mkV3State cl (v_engine s) (time_base s) (v_msg_id s)).
  assert (Hq0 : acquainted s0) by (destruct Hq; split; cbn; rewrite ?En; done).
  assert (Sync : in_sync s → in_sync s0) by (unfold in_sync, s0; cbn; by rewrite En).
  assert (Er0 : refused s0 = refused s) by (unfold refused, current_engine, current_engine_time, s0; cbn; by rewrite En).
  assert (Hp' : askable_pdu (with_request_id id p)) by (apply with_request_id_askable; [unfold is_i32; lia|done]).
  exists id. rewrite <- Er0. destruct (refused s0) eqn:Er.
  - assert (∃ n, S (Z.to_nat retries) = S (S n)) as [n ->].
    { destruct Hor as [[_ Hr]|Hr]; [|exists (Z.to_nat (retries - 1)); lia].
      rewrite (ready_fresh s0) in Er; [done|]. split; auto. }
    destruct (attempts_stale (S n) _ ETimeout s0 Hq0 Hp' Er) as (s1 & -> & Hq1 & Hs1).
    destruct (attempts_fresh n _ true ETimeout s1 Hq1 Hp') as (s2 & -> & Hq2 & Hs2).
    { apply ready_fresh. by split. }
    exists s2. split; [done|]. split; [done|]. intros _. split; auto.
  - destruct (attempts_fresh (Z.to_nat retries) _ false ETimeout s0 Hq0 Hp' Er) as (s1 & -> & Hq1 & Hs1).
    exists s1. split; [done|]. split; [done|]. intros [[_ Hr]|]; [|done]. split; auto.
Qed.

#[export] Instance v3_next : NextServer (v3_get_next u timeout retries nanos) ready nameable
  (allows (user_sec w0) Read) (mib view (registry a) w0).
Proof using All.
  split.
  - by apply mib_sorted.
  - intros x Hx _. by eapply cell_nameable.
  - intros s o Hs Ho. destruct (v3_request_answered (query GetNext 0 0 [o]) s) as (id & s' & E & _ & Hs');
      [apply Hs|by apply query_askable|by left|].
    destruct (served_next a fuel w0 user_sec id o Hw0 Ho) as [H1 H2].
    exists s'. unfold v3_get_next, v3_checked_request, ebind, sbind. rewrite E. cbn -[served_to]. rewrite H1, H2.
    split; [done|auto].
Qed.

(** Discovery over a steady link. *)
Lemma discovered (s : Client (Link W)) : steady inv eqv boot limit w0 (net s) → counter_ok s →
  ∃ s', v3_open timeout nanos s = (Ok tt, s') ∧ ready s'.
Proof using All.
  intros Hs Hctr. pose proof (next_request_id_ok nanos s Hctr) as Hid. pose proof (@mg_agent _ _ _ _ _ _ _ M) as WA.
  unfold v3_open, discover, sbind, on_client. cbn [client v3_session].
  destruct (next_request_id nanos s) as [rid cl]. destruct Hid as (Hid & En & Hc). rewrite <- En in Hs.
  destruct (probe_answer a fuel (uptime boot (handled_at (net cl))) (l_salts (net cl) 1%nat) 1 rid (l_agent (net cl)) WA)
    as (probe & Ep & reply & m & Eh & Em & _ & _ & Ei & Eb & Et); [unfold is_i32; lia..|].
  assert (Heq : eqv (world (mkState (world (l_agent (net cl))) (as_u32 (usm_stats (l_agent (net cl)) + 1))))
      (world (l_agent (net cl)))) by (pose proof (registry_world (hs:=registry a)); reflexivity).
  destruct (link_exchange a fuel boot limit w0 timeout probe reply _ (net cl) Hs Ht Eh Heq) as (l1 & l & E1 & E2 & Hl & Etime).
  pose proof (steady_times boot limit w0 (net cl) Hs) as T.
  unfold ebind, sbind, sret. cbn -[exchange learn parse build_discovery]. change (1 `max` 1) with 1. rewrite Ep.
  unfold exchange, ebind, sbind, on_client, on_net. cbn [t_send t_receive agent_link3 link client net]. rewrite E1.
  cbn [client net request_counter]. rewrite E2. cbn -[parse]. rewrite (Em None), Ei, (bool_decide_eq_false_2 _ Hn).
  eexists. split; [reflexivity|]. split.
  - destruct (engine_wf a WA 0) as [Wi Wb _]. cbn in Wi, Wb. split; cbn; try done.
    split; cbn; [done|by rewrite Eb|rewrite Et; apply as_u32_range].
  - intros _. split; [done|]. exists (handled_at (net cl)). cbn. rewrite Etime, Et.
    split_and!; [lia|lia|lia| |lia].
    unfold wrap_u. apply Z.mod_small. unfold uptime, SECOND, u32_max in *. Z.div_mod_to_equations; lia.
Qed.

(** C7. Against an agent whose handlers keep the contract [Managed], roots apart from
    each other included, a session that knows nothing but a user's passwords
    discovers the agent, and
    its walks then return exactly the cells under the root that the user may
    read, in order, for as long as messages take less than 74 seconds. *)
Theorem v3_open_and_walk (s : Client (Link W)) : steady inv eqv boot limit w0 (net s) → counter_ok s →
  ∃ s1, v3_open timeout nanos s = (Ok tt, s1) ∧ ready s1 ∧
  ∀ fuel' root s2, ready s2 → nameable root →
    let cells := subtree (allows (user_sec w0) Read) (mib view (registry a) w0) root in
    (length cells < fuel')%nat →
    ∃ s3, v3_walk u timeout retries nanos fuel' root s2 = (Some (Ok cells), s3) ∧ ready s3.
Proof using All.
  intros Hs Hc. destruct (discovered s Hs Hc) as (s1 & E & H1). exists s1. split_and!; [done..|].
  intros fuel' root s2 H2 Hr cells Hl.
  exact (v3_walk_gathers nanos u timeout retries ready root fuel' root [] s2 H2 Hr (Oid.is_prefix_of_refl root) Hl).
Qed.

(** C8. A session whose idea of the agent's boots and time is wrong gets its answer
    all the same when it may retry once: the agent's report puts it right. *)
Theorem stale_session_recovers p s : acquainted s → askable_pdu p → 1 <= retries →
  ∃ id s', v3_request u timeout retries nanos p s =
    (Ok (pad_pdu (serve (root <$> registry a) (mib view (registry a) w0) (user_sec w0)
      (pad_pdu (with_request_id id p)))), s') ∧ acquainted s' ∧ (refused s = true → ready s').
Proof using All.
  intros Hq Hp Hr. destruct (v3_request_answered p s Hq Hp (or_intror Hr)) as (id & s' & E & Hq' & Hs').
  exists id, s'. split_and!; auto.
Qed.
End Secure.
