(* ===== verification/Transports.v ===== *)
(** * Transports ([transport.rs], [unix_transport.rs], [callback_transport.rs] and
    [udp_shared.rs] of [crates/netsnmp/src/])

    The framing of messages on a byte stream, the pair of linked in-process
    transports, and the UDP socket that several handles share. A socket is the
    environment: what has arrived on it and what a write to it yields. The
    tasks of the shared socket are events of a step function. *)

From Stdlib Require Import ZArith Lia.
From S2P Require Import Prelude MachineInts Text Oid Value Pdu Wire Usm V3 Handler Agent Session.

Local Open Scope list_scope.

(** ** Streams *)

Module Framed.

Definition MAX_STREAM_MESSAGE : Z := 16 * 1024 * 1024.

(** The read half: what has arrived and was not read, and whether the peer has
    closed its side. *)
Record Stream := mkStream { arrived : bytes; ended : bool }.

(** What a read yields; [None] when its deadline passes first. *)
Definition Read (A : Type) : Type := St Stream (option (result A Error)).

Definition rd_ret {A} (r : result A Error) : Read A := sret (Some r).

Definition rd_bind {A B} (m : Read A) (f : A → Read B) : Read B :=
  let* r := m in
  match r with
  | Some (Ok x) => f x
  | Some (Err e) => rd_ret (Err e)
  | None => sret None
  end.

Local Notation "'let#' x ':=' m 'in' k" := (rd_bind m (fun x => k))
  (at level 10, x pattern, m at level 100, k at level 200).

(** [read_exact]: a read that does not finish has still taken what was there. *)
Definition read_exact (n : Z) : Read bytes := fun s =>
  if Z.of_nat (length (arrived s)) <? n
  then (if ended s then Some (Err EIo) else None, mkStream [] (ended s))
  else (Some (Ok (take (Z.to_nat n) (arrived s))), mkStream (drop (Z.to_nat n) (arrived s)) (ended s)).

Definition shift_len (len b : Z) : Z := Z.lor (Z.shiftl len 8) b.

(** The further octets of the length, and the length. *)
Definition read_length (first : Z) : Read (bytes * Z) :=
  if Z.land first 128 =? 0 then rd_ret (Ok ([], first))
  else
    let n := Z.land first 127 in
    if (n =? 0) || (4 <? n) then rd_ret (Err EInvalidLength)
    else let# lenbuf := read_exact n in rd_ret (Ok (lenbuf, fold_left shift_len lenbuf 0)).

Definition read_ber_message : Read bytes :=
  let# tag := read_exact 1 in
  let# first := read_exact 1 in
  let# (lenbuf, content_len) := read_length (List.hd 0 first) in
  if MAX_STREAM_MESSAGE <? content_len then rd_ret (Err EInvalidLength)
  else
    let# content := read_exact content_len in
    rd_ret (Ok (tag ++ first ++ lenbuf ++ content)).

(** [receive] of a [StreamTransport] or a [UnixTransport] under a deadline. *)
Definition receive : St Stream Received := fun s =>
  match read_ber_message s with
  | (Some (Ok m), s') => (Arrived m, s')
  | (Some (Err e), s') => (Broken e, s')
  | (None, s') => (Elapsed, s')
  end.

Definition deliver (bs : bytes) (s : Stream) : Stream := mkStream (arrived s ++ bs) (ended s).

(** [send]: what [write_all] and [flush] yield. *)
Definition send {P} (write_all : bytes → St P (option unit)) (flush : St P (option unit)) (data : bytes)
    : St P (result unit Error) :=
  let* r := write_all data in
  match r with
  | None => sret (Err EIo)
  | Some _ => let* r := flush in sret (ok_or EIo r)
  end.

(** [UnixTransport::parse_unix_addr]. *)
Definition parse_unix_addr (s : text) : option text :=
  let stripped := default s (Notify.strip_prefix (str "unix:") s) in
  match stripped with 47 :: _ => Some stripped | _ => None end.

(** ** Frames *)

(** The octets before the content, and the length they announce. *)
Definition header (h : bytes) (len : Z) : Prop :=
  ∃ tag first lenbuf, h = tag :: first :: lenbuf ∧
    if Z.land first 128 =? 0 then lenbuf = [] ∧ len = first
    else 1 <= Z.land first 127 <= 4 ∧ Z.of_nat (length lenbuf) = Z.land first 127 ∧
         len = fold_left shift_len lenbuf 0.

(** A definite-length TLV within the bound. *)
Definition framed (m : bytes) : Prop :=
  ∃ h content, m = h ++ content ∧ header h (Z.of_nat (length content)) ∧
    Z.of_nat (length content) <= MAX_STREAM_MESSAGE.

Lemma read_exact_app n a rest e : Z.of_nat (length a) = n →
  read_exact n (mkStream (a ++ rest) e) = (Some (Ok a), mkStream rest e).
Proof.
  intros <-. unfold read_exact. cbn. rewrite length_app.
  destruct (Z.ltb_spec (Z.of_nat (length a + length rest)) (Z.of_nat (length a))); [lia|].
  by rewrite Nat2Z.id, take_app_length, drop_app_length.
Qed.

Lemma read_exact_Ok n s a s' : 0 <= n → read_exact n s = (Some (Ok a), s') →
  Z.of_nat (length a) = n ∧ arrived s = a ++ arrived s' ∧ ended s' = ended s.
Proof.
  unfold read_exact. intros Hn. destruct (Z.ltb_spec (Z.of_nat (length (arrived s))) n) as [|H].
  { by destruct (ended s). }
  intros [= <- <-]. cbn. rewrite take_drop, length_take. split_and!; [lia|done|done].
Qed.

Lemma rd_bind_Ok {A B} (m : Read A) (f : A → Read B) s y s' : rd_bind m f s = (Some (Ok y), s') →
  ∃ x s1, m s = (Some (Ok x), s1) ∧ f x s1 = (Some (Ok y), s').
Proof.
  unfold rd_bind, sbind, rd_ret, sret. destruct (m s) as [[[x|e]|] s1]; [|done|done]. intros H. by exists x, s1.
Qed.

Lemma shift_len_nonneg lenbuf a : is_bytes lenbuf → 0 <= a → 0 <= fold_left shift_len lenbuf a.
Proof.
  intros Hb. revert a. induction Hb as [|b l Hb _ IH]; intros a Ha; cbn; [done|]. apply IH.
  unfold shift_len. apply Z.lor_nonneg. unfold is_u8 in Hb. split; [by apply Z.shiftl_nonneg|lia].
Qed.

Lemma header_nonneg h len : is_bytes h → header h len → 0 <= len.
Proof.
  intros Hb (tag & first & lenbuf & -> & H). unfold is_bytes in Hb. apply Forall_cons in Hb as [_ [Hf Hl]%Forall_cons].
  destruct (_ =? 0); [destruct H as [_ ->]; apply Hf|]. destruct H as (_ & _ & ->). by apply shift_len_nonneg.
Qed.

Lemma receive_frame m rest e : framed m → receive (mkStream (m ++ rest) e) = (Arrived m, mkStream rest e).
Proof.
  intros (h & content & -> & (tag & first & lenbuf & -> & H) & Hm).
  unfold receive, read_ber_message, rd_bind, sbind. rewrite <- app_assoc.
  change ((tag :: first :: lenbuf) ++ content ++ rest) with ([tag] ++ ([first] ++ (lenbuf ++ content ++ rest))).
  rewrite read_exact_app by done. rewrite read_exact_app by done. cbn [List.hd]. unfold read_length.
  destruct (Z.land first 128 =? 0).
  - destruct H as [-> <-]. cbn [rd_ret sret app]. destruct (Z.ltb_spec MAX_STREAM_MESSAGE (Z.of_nat (length content))); [lia|].
    by rewrite read_exact_app.
  - destruct H as (Hn & Hl & Hc).
    destruct (Z.eqb_spec (Z.land first 127) 0); [lia|]. destruct (Z.ltb_spec 4 (Z.land first 127)); [lia|].
    cbn [orb]. unfold rd_bind, sbind. rewrite read_exact_app by done. cbn [rd_ret sret]. rewrite <- Hc.
    destruct (Z.ltb_spec MAX_STREAM_MESSAGE (Z.of_nat (length content))); [lia|].
    by rewrite read_exact_app.
Qed.

Lemma read_length_Ok first s lenbuf len s' : read_length first s = (Some (Ok (lenbuf, len)), s') →
  is_u8 first → arrived s = lenbuf ++ arrived s' ∧ ended s' = ended s ∧ ∀ tag, header (tag :: first :: lenbuf) len.
Proof.
  unfold read_length. intros H Hf. destruct (Z.land first 128 =? 0) eqn:E.
  - injection H as <- <- <-. split_and!; [done..|]. intros tag. exists tag, first, []. by rewrite E.
  - destruct (Z.eqb_spec (Z.land first 127) 0); [done|]. destruct (Z.ltb_spec 4 (Z.land first 127)); [done|].
    cbn [orb] in H. apply rd_bind_Ok in H as (x & s1 & Hx & H). injection H as <- <- <-.
    assert (0 <= Z.land first 127) by (apply Z.land_nonneg; lia).
    apply read_exact_Ok in Hx as (Hl & Ha & He); [|done]. split_and!; [done..|].
    intros tag. exists tag, first, x. rewrite E. split; [done|]. split_and!; [lia|lia|done|done].
Qed.

(** A receive on a stream hands over a message exactly when the octets that
    have arrived start with that definite-length TLV, at most 16 MiB of it, and
    leaves what follows it. *)
Theorem receive_iff s m s' : is_bytes (arrived s) →
  receive s = (Arrived m, s') ↔ framed m ∧ arrived s = m ++ arrived s' ∧ ended s' = ended s.
Proof.
  intros Hb. split.
  - unfold receive. destruct (read_ber_message s) as [[[m'|e]|] s1] eqn:E; [|done|done]. intros [= -> ->].
    unfold read_ber_message in E. apply rd_bind_Ok in E as (tag & s1 & E1 & E).
    apply rd_bind_Ok in E as (first & s2 & E2 & E). apply rd_bind_Ok in E as ([lenbuf len] & s3 & E3 & E).
    apply read_exact_Ok in E1 as (L1 & A1 & D1); [|done]. apply read_exact_Ok in E2 as (L2 & A2 & D2); [|done].
    destruct tag as [|tag []]; [done| |cbn in L1; lia]. destruct first as [|first []]; [done| |cbn in L2; lia].
    rewrite A1, A2 in Hb. cbn [app] in Hb. unfold is_bytes in Hb.
    apply Forall_cons in Hb as [Ht [Hf Hr]%Forall_cons].
    apply read_length_Ok in E3 as (A3 & D3 & Hh); [|done]. rewrite A3 in Hr. apply Forall_app in Hr as [Hl _].
    specialize (Hh tag). cbn [List.hd] in Hh.
    assert (0 <= len) as H0 by (eapply header_nonneg, Hh; by apply Forall_cons; split; [|apply Forall_cons]).
    destruct (Z.ltb_spec MAX_STREAM_MESSAGE len) as [|Hm]; [done|].
    apply rd_bind_Ok in E as (content & s4 & E4 & E). injection E as <- <-.
    apply read_exact_Ok in E4 as (L4 & A4 & D4); [|done].
    split_and!; [|rewrite A1, A2, A3, A4; cbn; by rewrite <- app_assoc|congruence].
    exists (tag :: first :: lenbuf), content. rewrite L4. done.
  - intros (Hf & Ha & He). destruct s as [a e], s' as [a' e']. cbn in *. subst a e'. by apply receive_frame.
Qed.

(** The first [n] messages. *)
Fixpoint receive_all (n : nat) : St Stream (list Received) :=
  match n with
  | O => sret []
  | S n' => let* r := receive in let* rs := receive_all n' in sret (r :: rs)
  end.

(** Messages written back to back are received one by one, however the stream
    was cut into segments. *)
Theorem messages_read_back ms rest e : Forall framed ms →
  receive_all (length ms) (mkStream (concat ms ++ rest) e) = (Arrived <$> ms, mkStream rest e).
Proof.
  intros Hf. induction Hf as [|m ms Hm _ IH]; [done|]. cbn [length receive_all concat]. unfold sbind.
  rewrite <- app_assoc, receive_frame by done. by rewrite IH.
Qed.

(** What a read of too few octets does. *)
Definition gives_up {A} (e : bool) : option (result A Error) := if e then Some (Err EIo) else None.

Lemma read_exact_cut n a e : Z.of_nat (length a) < n → read_exact n (mkStream a e) = (gives_up e, mkStream [] e).
Proof. intros H. unfold read_exact. cbn. by destruct (Z.ltb_spec (Z.of_nat (length a)) n); [|lia]. Qed.

Lemma rd_bind_cut {A B} (m : Read A) (f : A → Read B) s e s' : m s = (gives_up e, s') → rd_bind m f s = (gives_up e, s').
Proof. intros H. unfold rd_bind, sbind. rewrite H. by destruct e. Qed.

Lemma rd_bind_step {A B} (m : Read A) (f : A → Read B) s x s' : m s = (Some (Ok x), s') → rd_bind m f s = f x s'.
Proof. intros H. unfold rd_bind, sbind. by rewrite H. Qed.

Lemma read_cut p r e : framed (p ++ r) → r ≠ [] → read_ber_message (mkStream p e) = (gives_up e, mkStream [] e).
Proof.
  intros (h & content & E & (tag & first & lenbuf & -> & H) & Hm) Hr. unfold read_ber_message.
  destruct p as [|t p]; [apply rd_bind_cut, read_exact_cut; cbn; lia|]. injection E as -> E.
  erewrite rd_bind_step by (apply (read_exact_app 1 [tag] p); done).
  destruct p as [|f p]; [apply rd_bind_cut, read_exact_cut; cbn; lia|]. injection E as -> E.
  erewrite rd_bind_step by (apply (read_exact_app 1 [first] p); done). cbn [List.hd].
  unfold read_length. destruct (Z.land first 128 =? 0).
  - destruct H as [-> <-]. cbn [app] in E.
    erewrite rd_bind_step by done. cbn -[Z.ltb]. destruct (Z.ltb_spec MAX_STREAM_MESSAGE (Z.of_nat (length content))); [lia|].
    apply rd_bind_cut, read_exact_cut. rewrite <- E, length_app. destruct r; [done|cbn; lia].
  - destruct H as (Hn & Hl & Hc).
    destruct (Z.eqb_spec (Z.land first 127) 0); [lia|]. destruct (Z.ltb_spec 4 (Z.land first 127)); [lia|]. cbn [orb].
    assert (Whole : ∀ d content, content = d ++ r → Z.of_nat (length content) <= MAX_STREAM_MESSAGE →
      fold_left shift_len lenbuf 0 = Z.of_nat (length content) →
      rd_bind (rd_bind (read_exact (Z.land first 127)) (λ lenbuf, rd_ret (Ok (lenbuf, fold_left shift_len lenbuf 0))))
        (λ '(lenbuf, content_len), if MAX_STREAM_MESSAGE <? content_len then rd_ret (Err EInvalidLength)
           else let# content := read_exact content_len in rd_ret (Ok ([tag] ++ [first] ++ lenbuf ++ content)))
        (mkStream (lenbuf ++ d) e) = (gives_up e, mkStream [] e)).
    { intros d c -> Hc' Hf. erewrite rd_bind_step.
      2:{ erewrite rd_bind_step; [|apply read_exact_app; done]. done. }
      cbn -[Z.ltb]. rewrite Hf. destruct (Z.ltb_spec MAX_STREAM_MESSAGE (Z.of_nat (length (d ++ r)))); [lia|].
      apply rd_bind_cut, read_exact_cut. rewrite length_app. destruct r; [done|cbn; lia]. }
    destruct (app_eq_inv _ _ _ _ E) as [(d & -> & Ed)|(d & El & Er)].
    + by eapply Whole.
    + destruct d as [|x d].
      * rewrite app_nil_r in El. subst p. cbn in Er. specialize (Whole [] content). rewrite app_nil_r in Whole. by apply Whole.
      * apply rd_bind_cut, rd_bind_cut, read_exact_cut. rewrite El, length_app in Hl. cbn in Hl. lia.
Qed.

(** Of a message that is cut off, by the end of the stream or by the deadline
    of the receive, the octets that had arrived are gone. *)
Theorem cut_message_is_lost p r e : framed (p ++ r) → r ≠ [] →
  receive (mkStream p e) = (if e then Broken EIo else Elapsed, mkStream [] e).
Proof. intros Hf Hr. unfold receive. rewrite (read_cut p r) by done. by destruct e. Qed.

(** After a deadline in the middle of a message, the receive that follows takes
    the rest of that message for the beginning of another: it hands over
    octets that nobody sent as a message, and then reads on in the middle of the
    next one. *)
Example a_deadline_loses_the_framing :
  let m := [48; 4; 2; 2; 7; 9] in let next := [48; 3; 2; 1; 5] in
  framed m ∧ framed next ∧
  let '(r, s) := receive (mkStream (take 2 m) false) in
  r = Elapsed ∧
  receive (deliver (drop 2 m ++ next) s) = (Arrived [2; 2; 7; 9], mkStream next false) ∧
  let '(r, s) := receive (mkStream (take 3 m) false) in
  r = Elapsed ∧
  receive (deliver (drop 3 m ++ next) s) = (Elapsed, mkStream [] false).
Proof.
  intros m next. split; [|split; [|by vm_compute]].
  - exists [48; 4], [2; 2; 7; 9]. split_and!; [done| |done]. by exists 48, 4, [].
  - exists [48; 3], [2; 1; 5]. split_and!; [done| |done]. by exists 48, 3, [].
Qed.
End Framed.

(** ** In-process pairs *)

Module Callback.

(** One end: what was sent to it and not received, and whether it still exists. *)
Record Half := mkHalf { queue : list bytes; alive : bool }.

(** The two ends of [CallbackTransport::pair]. *)
Record Pair := mkPair { half_a : Half; half_b : Half }.

Inductive End := A | B.

Definition other (e : End) : End := match e with A => B | B => A end.
Definition half (e : End) (p : Pair) : Half := match e with A => half_a p | B => half_b p end.
Definition set_half (e : End) (h : Half) (p : Pair) : Pair :=
  match e with A => mkPair h (half_b p) | B => mkPair (half_a p) h end.

Definition pair : Pair := mkPair (mkHalf [] true) (mkHalf [] true).

Definition send (e : End) (data : bytes) : St Pair (result unit Error) := fun p =>
  let h := half (other e) p in
  if alive h then (Ok tt, set_half (other e) (mkHalf (queue h ++ [data]) true) p)
  else (Err EUnexpectedEof, p).

(** A receive under a deadline before which nothing more is sent. *)
Definition receive (e : End) : St Pair Received := fun p =>
  match queue (half e p) with
  | data :: rest => (Arrived data, set_half e (mkHalf rest (alive (half e p))) p)
  | [] => (if alive (half (other e) p) then Elapsed else Broken EUnexpectedEof, p)
  end.

(** Dropping an end drops what it had not received. *)
Definition drop_end (e : End) (p : Pair) : Pair := set_half e (mkHalf [] false) p.

Inductive Event := Send (e : End) (data : bytes) | Receive (e : End) | Drop (e : End).

Inductive Outcome := Sent (e : End) (data : bytes) (r : result unit Error) | Got (e : End) (r : Received).

(** Only an end that exists is used. *)
Definition step (p : Pair) (ev : Event) : Pair * list Outcome :=
  match ev with
  | Send e data => if alive (half e p) then let '(r, p') := send e data p in (p', [Sent e data r]) else (p, [])
  | Receive e => if alive (half e p) then let '(r, p') := receive e p in (p', [Got e r]) else (p, [])
  | Drop e => (drop_end e p, [])
  end.

Fixpoint run (p : Pair) (evs : list Event) : Pair * list Outcome :=
  match evs with
  | [] => (p, [])
  | ev :: evs' => let '(p, o) := step p ev in let '(p, os) := run p evs' in (p, o ++ os)
  end.

#[global] Instance end_eq_dec : EqDecision End.
Proof. solve_decision. Defined.

(** The messages accepted for an end, and those it received. *)
Definition accepted (e : End) (os : list Outcome) : list bytes :=
  omap (λ o, match o with Sent e' d (Ok _) => if decide (other e' = e) then Some d else None | _ => None end) os.
Definition received (e : End) (os : list Outcome) : list bytes :=
  omap (λ o, match o with Got e' (Arrived d) => if decide (e' = e) then Some d else None | _ => None end) os.

Lemma half_same e h p : half e (set_half e h p) = h.
Proof. by destruct e. Qed.
Lemma half_other e e' h p : e' ≠ e → half e' (set_half e h p) = half e' p.
Proof. by destruct e, e'. Qed.
Lemma other_ne e : other e ≠ e.
Proof. by destruct e. Qed.
Lemma other_other e : other (other e) = e.
Proof. by destruct e. Qed.

Lemma step_fifo e p ev : alive (half e (step p ev).1) = true →
  alive (half e p) = true ∧
  queue (half e p) ++ accepted e (step p ev).2 = received e (step p ev).2 ++ queue (half e (step p ev).1).
Proof.
  unfold accepted, received. destruct ev as [e' d|e'|e']; cbn.
  - destruct (alive (half e' p)) eqn:Hl; cbn; [|by rewrite app_nil_r].
    unfold send. destruct (alive (half (other e') p)) eqn:Ho; cbn; [|by rewrite app_nil_r].
    destruct (decide (other e' = e)) as [<-|Hn]; [by rewrite half_same|].
    rewrite half_other by done. by rewrite app_nil_r.
  - destruct (alive (half e' p)) eqn:Hl; cbn; [|by rewrite app_nil_r].
    unfold receive. destruct (queue (half e' p)) as [|d q] eqn:Hq; cbn.
    + destruct (alive (half (other e') p)); cbn; by rewrite app_nil_r.
    + destruct (decide (e' = e)) as [<-|Hn]; cbn; rewrite app_nil_r.
      * rewrite half_same. cbn. by rewrite Hq.
      * by rewrite half_other.
  - unfold drop_end. destruct (decide (e' = e)) as [<-|Hn]; [by rewrite half_same|].
    rewrite half_other by done. by rewrite app_nil_r.
Qed.

Lemma run_fifo e evs : ∀ p, alive (half e (run p evs).1) = true →
  alive (half e p) = true ∧
  queue (half e p) ++ accepted e (run p evs).2 = received e (run p evs).2 ++ queue (half e (run p evs).1).
Proof.
  induction evs as [|ev evs IH]; intros p; cbn; [by unfold accepted; cbn; rewrite app_nil_r|].
  pose proof (step_fifo e p ev) as S. destruct (step p ev) as [p1 o]. cbn in S.
  specialize (IH p1). destruct (run p1 evs) as [p2 os]. cbn in *. intros H2.
  destruct (IH H2) as [H1 E2]. destruct (S H1) as [H0 E1]. split; [done|].
  unfold accepted, received in *. rewrite !omap_app. by rewrite app_assoc, E1, <- app_assoc, E2, app_assoc.
Qed.

(** While an end of a pair exists it receives exactly the messages the other
    end's sends accepted for it, in order, whatever both ends do in between;
    what it has not received is waiting. *)
Theorem pair_delivers_in_order e evs : alive (half e (run pair evs).1) = true →
  accepted e (run pair evs).2 = received e (run pair evs).2 ++ queue (half e (run pair evs).1).
Proof. intros H. destruct (run_fifo e evs pair H) as [_ E]. by destruct e. Qed.

Lemma pair_delivers_in_order_witness :
  let evs := [Send A [1]; Send B [9]; Send A [2]; Receive B; Drop A; Send B [8]; Receive B; Receive B] in
  (run pair evs).2 = [Sent A [1] (Ok tt); Sent B [9] (Ok tt); Sent A [2] (Ok tt); Got B (Arrived [1]);
    Sent B [8] (Err EUnexpectedEof); Got B (Arrived [2]); Got B (Broken EUnexpectedEof)] ∧
  accepted B (run pair evs).2 = received B (run pair evs).2.
Proof. split; [done|]. by rewrite (pair_delivers_in_order B). Defined.
End Callback.

(** ** The shared UDP socket *)

Module UdpShared.

(** A one-shot channel as its receiver sees it. *)
Inductive Channel := Waiting | Holding (data : bytes) | Closed.

(** The routes of [UdpShared], with what the handles and their receives hold.
    Handles are numbered, and so are the receives of each handle. *)
Record State := mkState {
  routes : gmap Z nat;                 (* the channel whose sender is filed under an id *)
  channels : gmap nat Channel;
  next_channel : nat;
  pending : gmap nat (Z * nat);        (* what the last send of a handle left *)
  receivers : gmap (nat * nat) nat;    (* the channels being awaited *)
  receiving : bool                     (* the receive task runs *)
}.

Section Shared.
Context {R : RasnV3}.

Definition peek_request_id (data : bytes) : option Z :=
  match peek_security data with
  | Ok (h, _) => Some (msg_id h)
  | Err _ =>
      match message_decode data with
      | Ok m => Some (request_id (msg_pdu m))
      | Err _ => None
      end
  end.

Definition bind : State := mkState ∅ ∅ 0 ∅ ∅ true.

(** A sender is dropped without having sent. *)
Definition drop_sender (c : nat) (cs : gmap nat Channel) : gmap nat Channel := <[c := Closed]> cs.

Definition route (id : Z) : St State nat := fun s =>
  let c := next_channel s in
  let cs := match routes s !! id with Some old => drop_sender old (channels s) | None => channels s end in
  (c, mkState (<[id := c]> (routes s)) (<[c := Waiting]> cs) (S c) (pending s) (receivers s) (receiving s)).

Definition unroute (id : Z) (s : State) : State :=
  match routes s !! id with
  | Some c => mkState (delete id (routes s)) (drop_sender c (channels s)) (next_channel s) (pending s) (receivers s)
                (receiving s)
  | None => s
  end.

(** A datagram in the receive task. What is sent to a receiver that has been
    dropped stays in its channel. *)
Definition dispatch (data : bytes) (s : State) : State :=
  match peek_request_id data with
  | Some id =>
      match routes s !! id with
      | Some c => mkState (delete id (routes s)) (<[c := Holding data]> (channels s)) (next_channel s) (pending s)
                    (receivers s) (receiving s)
      | None => s
      end
  | None => s
  end.

(** [send] of the handle [h]; [written] is what becomes of [send_to]. *)
Definition send (h : nat) (data : bytes) (written : bool) : St State (result unit Error) := fun s =>
  match peek_request_id data with
  | None => (Err EProtocol, s)
  | Some id =>
      let '(c, s) := route id s in
      (if written then Ok tt else Err EProtocol,
       mkState (routes s) (channels s) (next_channel s) (<[h := (id, c)]> (pending s)) (receivers s) (receiving s))
  end.

(** [receive] up to its await. *)
Definition take_pending (h k : nat) : St State (option Error) := fun s =>
  match pending s !! h with
  | None => (Some EProtocol, s)
  | Some (_, c) =>
      (None, mkState (routes s) (channels s) (next_channel s) (delete h (pending s)) (<[(h, k) := c]> (receivers s))
               (receiving s))
  end.

Definition drop_receiver (t : nat * nat) (s : State) : State :=
  mkState (routes s) (channels s) (next_channel s) (pending s) (delete t (receivers s)) (receiving s).

(** A turn of the await. *)
Definition poll (t : nat * nat) : St State (option (result bytes Error)) := fun s =>
  match receivers s !! t with
  | None => (None, s)
  | Some c =>
      match channels s !! c with
      | Some (Holding data) => (Some (Ok data), drop_receiver t s)
      | Some Waiting => (None, s)
      | _ => (Some (Err EProtocol), drop_receiver t s)
      end
  end.

(** *** The tasks *)

Inductive Event :=
| Send (h : nat) (data : bytes) (written : bool)
| Receive (h k : nat)
| Poll (h k : nat)
| Cancel (h k : nat)             (* the deadline of the receive passes *)
| Datagram (data : bytes)
| RecvFailed                     (* [recv_from] fails: the receive task ends *)
| Unroute (id : Z).

Inductive Outcome :=
| Sent (r : result unit Error)
| Got (r : result bytes Error).

Definition step (s : State) (e : Event) : State * option Outcome :=
  match e with
  | Send h data written => let '(r, s) := send h data written s in (s, Some (Sent r))
  | Receive h k => let '(r, s) := take_pending h k s in (s, (λ e, Got (Err e)) <$> r)
  | Poll h k => let '(r, s) := poll (h, k) s in (s, Got <$> r)
  | Cancel h k => (drop_receiver (h, k) s, None)
  | Datagram data => (if receiving s then dispatch data s else s, None)
  | RecvFailed => (mkState (routes s) (channels s) (next_channel s) (pending s) (receivers s) false, None)
  | Unroute id => (unroute id s, None)
  end.

Definition run (s : State) (es : list Event) : State := fold_left (fun s e => (step s e).1) es s.

(** *** What becomes of a route *)

(** The event that decides about the route of [id]. *)
Definition decides (id : Z) (live : bool) (e : Event) : option Channel :=
  match e with
  | Datagram data => if live && bool_decide (peek_request_id data = Some id) then Some (Holding data) else None
  | Send _ data _ => if bool_decide (peek_request_id data = Some id) then Some Closed else None
  | Unroute i => if i =? id then Some Closed else None
  | _ => None
  end.

Definition lives (live : bool) (e : Event) : bool := match e with RecvFailed => false | _ => live end.

(** The first that does. *)
Fixpoint fate (id : Z) (live : bool) (es : list Event) : Channel :=
  match es with
  | [] => Waiting
  | e :: es' => match decides id live e with Some x => x | None => fate id (lives live e) es' end
  end.

(** Routed channels wait, each under one id; new channels are new. *)
Record wf (s : State) : Prop := {
  wf_waits : ∀ id c, routes s !! id = Some c → channels s !! c = Some Waiting;
  wf_inj : ∀ i j c, routes s !! i = Some c → routes s !! j = Some c → i = j;
  wf_fresh : ∀ c, is_Some (channels s !! c) → (c < next_channel s)%nat;
}.

Lemma wf_route s id c : wf s → routes s !! id = Some c → (c < next_channel s)%nat.
Proof. intros W H. apply (wf_fresh s W). rewrite (wf_waits s W id c H). by eexists. Qed.

Lemma wf_remove s id c x : wf s → routes s !! id = Some c →
  wf (mkState (delete id (routes s)) (<[c := x]> (channels s)) (next_channel s) (pending s) (receivers s) (receiving s)).
Proof.
  intros W H. split; cbn.
  - intros i c' [Hn Hi]%lookup_delete_Some. rewrite lookup_insert_ne; [by eapply W|].
    intros <-. apply Hn. by eapply (wf_inj s W).
  - intros i j c' [_ Hi]%lookup_delete_Some [_ Hj]%lookup_delete_Some. by eapply W.
  - intros c' [y Hy]. apply lookup_insert_Some in Hy as [[<- _]|[_ Hy]]; [by eapply wf_route|].
    apply W. by eexists.
Qed.

Lemma wf_sent s h data written : wf s → wf (send h data written s).2.
Proof.
  intros W. unfold send. destruct (peek_request_id data) as [id|]; [|done]. cbn. split; cbn.
  - intros i c [[<- <-]|[Hn Hi]]%lookup_insert_Some; [apply lookup_insert_eq|].
    pose proof (wf_route s i c W Hi). rewrite lookup_insert_ne by lia.
    destruct (routes s !! id) as [old|] eqn:Ho; [|by eapply W].
    unfold drop_sender. rewrite lookup_insert_ne; [by eapply W|]. intros ->. apply Hn. by eapply (wf_inj s W).
  - intros i j c [[<- <-]|[Hn Hi]]%lookup_insert_Some [[<- E]|[Hn' Hj]]%lookup_insert_Some; [done| | |by eapply W].
    + pose proof (wf_route s j _ W Hj). lia.
    + subst c. pose proof (wf_route s i _ W Hi). lia.
  - intros c [x Hx]. apply lookup_insert_Some in Hx as [[<- _]|[_ Hx]]; [lia|].
    assert (is_Some (channels s !! c)) as [y Hy]; [|pose proof (wf_fresh s W c ltac:(by eexists)); lia].
    destruct (routes s !! id) as [old|] eqn:Ho; [|by eexists].
    unfold drop_sender in Hx. apply lookup_insert_Some in Hx as [[<- _]|[_ Hx]]; [|by eexists]. rewrite (wf_waits s W id old Ho). by eexists.
Qed.

Lemma step_wf s e : wf s → wf (step s e).1.
Proof.
  intros W. destruct e as [h data written|h k|h k|h k|data| |id]; cbn.
  - pose proof (wf_sent s h data written W). by destruct (send h data written s).
  - unfold take_pending. destruct (pending s !! h) as [[i c]|]; [|done]. cbn. by destruct W; split.
  - unfold poll. destruct (receivers s !! (h, k)) as [c|]; [|done].
    destruct (channels s !! c) as [[| |]|]; try done; cbn; by destruct W; split.
  - by destruct W; split.
  - destruct (receiving s); [|done]. unfold dispatch. destruct (peek_request_id data) as [id|]; [|done].
    destruct (routes s !! id) as [c|] eqn:H; [|done]. by apply wf_remove.
  - by destruct W; split.
  - unfold unroute. destruct (routes s !! id) as [c|] eqn:H; [|done]. by apply wf_remove.
Qed.

Lemma run_wf es : ∀ s, wf s → wf (run s es).
Proof. induction es as [|e es IH]; intros s W; [done|]. cbn. by apply IH, step_wf. Qed.

Lemma bind_wf : wf bind.
Proof. split; cbn; [intros ??|intros ???|intros ? [? H]; revert H]; by rewrite lookup_empty. Qed.

Lemma run_app s es es' : run s (es ++ es') = run (run s es) es'.
Proof. apply fold_left_app. Qed.

(** A channel that is decided stays so. *)
Lemma step_settled s e c x : wf s → channels s !! c = Some x → x ≠ Waiting → channels (step s e).1 !! c = Some x.
Proof.
  intros W Hc Hx. assert (Hl : (c < next_channel s)%nat) by (apply W; by eexists).
  assert (Hr : ∀ id c', routes s !! id = Some c' → c' ≠ c).
  { intros id c' H ->. apply (wf_waits s W) in H. congruence. }
  destruct e as [h data written|h k|h k|h k|data| |id]; cbn.
  - unfold send. destruct (peek_request_id data) as [id|]; [|done]. cbn. rewrite lookup_insert_ne by lia.
    destruct (routes s !! id) as [old|] eqn:Ho; [|done]. unfold drop_sender. by rewrite lookup_insert_ne by eauto.
  - unfold take_pending. by destruct (pending s !! h) as [[i c']|].
  - unfold poll. destruct (receivers s !! (h, k)) as [c'|]; [|done]. by destruct (channels s !! c') as [[| |]|].
  - done.
  - destruct (receiving s); [|done]. unfold dispatch. destruct (peek_request_id data) as [id|]; [|done].
    destruct (routes s !! id) as [c'|] eqn:Ho; [|done]. cbn. by rewrite lookup_insert_ne by eauto.
  - done.
  - unfold unroute. destruct (routes s !! id) as [c'|] eqn:Ho; [|done]. cbn. unfold drop_sender.
    by rewrite lookup_insert_ne by eauto.
Qed.

Lemma run_settled es : ∀ s c x, wf s → channels s !! c = Some x → x ≠ Waiting → channels (run s es) !! c = Some x.
Proof.
  induction es as [|e es IH]; intros s c x W Hc Hx; [done|]. cbn. apply IH; [by apply step_wf| |done].
  by apply step_settled.
Qed.

Lemma step_lives s e : receiving (step s e).1 = lives (receiving s) e.
Proof.
  destruct e as [h data written|h k|h k|h k|data| |id]; cbn.
  - unfold send. by destruct (peek_request_id data).
  - unfold take_pending. by destruct (pending s !! h) as [[i c']|].
  - unfold poll. destruct (receivers s !! (h, k)) as [c'|]; [|done]. by destruct (channels s !! c') as [[| |]|].
  - done.
  - destruct (receiving s) eqn:E; [|done]. unfold dispatch. destruct (peek_request_id data) as [id|]; [|done].
    by destruct (routes s !! id).
  - done.
  - unfold unroute. by destruct (routes s !! id).
Qed.

Lemma step_decides s e id c : wf s → routes s !! id = Some c →
  match decides id (receiving s) e with
  | Some x => channels (step s e).1 !! c = Some x ∧ x ≠ Waiting
  | None => routes (step s e).1 !! id = Some c
  end.
Proof.
  intros W Hr. destruct e as [h data written|h k|h k|h k|data| |i]; cbn.
  - unfold send. destruct (peek_request_id data) as [i|]; [|by rewrite bool_decide_eq_false_2].
    pose proof (wf_route s id c W Hr). cbn. case_bool_decide as E.
    + injection E as ->. rewrite Hr. split; [|done]. unfold drop_sender. rewrite lookup_insert_ne by lia.
      apply lookup_insert_eq.
    + rewrite lookup_insert_ne; [done|]. by intros ->.
  - unfold take_pending. by destruct (pending s !! h) as [[j c']|].
  - unfold poll. destruct (receivers s !! (h, k)) as [c'|]; [|done]. by destruct (channels s !! c') as [[| |]|].
  - done.
  - destruct (receiving s); [|done]. cbn. unfold dispatch. case_bool_decide as E.
    + rewrite E, Hr. cbn. split; [apply lookup_insert_eq|done].
    + destruct (peek_request_id data) as [i|]; [|done]. destruct (routes s !! i) as [c'|] eqn:Ho; [|done].
      cbn. rewrite lookup_delete_ne; [done|]. by intros ->.
  - done.
  - unfold unroute. destruct (Z.eqb_spec i id) as [->|Hn].
    + rewrite Hr. cbn. split; [apply lookup_insert_eq|done].
    + destruct (routes s !! i) as [c'|] eqn:Ho; [|done]. cbn. by rewrite lookup_delete_ne.
Qed.

Lemma run_fate es : ∀ s id c, wf s → routes s !! id = Some c →
  channels (run s es) !! c = Some (fate id (receiving s) es).
Proof.
  induction es as [|e es IH]; intros s id c W Hr; [by eapply W|].
  change (run s (e :: es)) with (run (step s e).1 es). cbn [fate].
  pose proof (step_decides s e id c W Hr) as H. destruct (decides id (receiving s) e) as [x|].
  - destruct H as [H Hx]. apply run_settled; [by apply step_wf|done|done].
  - rewrite (IH _ id c) by (done || by apply step_wf). by rewrite step_lives.
Qed.

(** *** What a receive yields *)

(** Events of other handles, of the socket and of the API. *)
Definition foreign (h : nat) (e : Event) : Prop :=
  match e with Send h' _ _ | Receive h' _ | Poll h' _ | Cancel h' _ => h' ≠ h | _ => True end.

Lemma step_foreign h s e : foreign h e →
  pending (step s e).1 !! h = pending s !! h ∧ ∀ k, receivers (step s e).1 !! (h, k) = receivers s !! (h, k).
Proof.
  intros F. destruct e as [h' data written|h' k|h' k|h' k|data| |id]; cbn in *.
  - unfold send. destruct (peek_request_id data) as [id|]; [|done]. cbn. by rewrite lookup_insert_ne.
  - unfold take_pending. destruct (pending s !! h') as [[i c']|]; [|done]. cbn. rewrite lookup_delete_ne by done.
    split; [done|]. intros k'. rewrite lookup_insert_ne; [done|]. by intros [= ? _].
  - unfold poll. destruct (receivers s !! (h', k)) as [c'|]; [|done].
    destruct (channels s !! c') as [[| |]|]; cbn; try done; (split; [done|]; intros k'; rewrite lookup_delete_ne; [done|]; by intros [= ? _]).
  - split; [done|]. intros k'. rewrite lookup_delete_ne; [done|]. by intros [= ? _].
  - destruct (receiving s); [|done]. unfold dispatch. destruct (peek_request_id data) as [id|]; [|done].
    by destruct (routes s !! id).
  - done.
  - unfold unroute. by destruct (routes s !! id).
Qed.

Lemma run_foreign h es : ∀ s, Forall (foreign h) es →
  pending (run s es) !! h = pending s !! h ∧ ∀ k, receivers (run s es) !! (h, k) = receivers s !! (h, k).
Proof.
  induction es as [|e es IH]; intros s F; [done|]. apply Forall_cons in F as [Fe F].
  destruct (step_foreign h s e Fe) as [P1 R1]. destruct (IH (step s e).1 F) as [P2 R2]. cbn.
  split; [by etrans|]. intros k. by rewrite <- R1, <- R2.
Qed.

(** What the await returns when the channel is as [x]. *)
Definition answer (x : Channel) : option (result bytes Error) :=
  match x with Waiting => None | Holding data => Some (Ok data) | Closed => Some (Err EProtocol) end.

Lemma send_routes s h data written id : peek_request_id data = Some id →
  let s' := (step s (Send h data written)).1 in
  routes s' !! id = Some (next_channel s) ∧ pending s' !! h = Some (id, next_channel s) ∧
  receivers s' = receivers s ∧ receiving s' = receiving s.
Proof. intros E. cbn. unfold send. rewrite E. cbn. by rewrite !lookup_insert_eq. Qed.

Lemma receive_takes s h k id c : pending s !! h = Some (id, c) →
  let s' := (step s (Receive h k)).1 in
  (step s (Receive h k)).2 = None ∧ receivers s' !! (h, k) = Some c ∧
  routes s' = routes s ∧ channels s' = channels s ∧ receiving s' = receiving s ∧ next_channel s' = next_channel s.
Proof. intros E. cbn. unfold take_pending. rewrite E. cbn. by rewrite lookup_insert_eq. Qed.

Lemma fate_receive id h k es es' : ∀ live, fate id live (es ++ Receive h k :: es') = fate id live (es ++ es').
Proof. induction es as [|e es IH]; intros live; cbn; [done|]. destruct (decides id live e); [done|apply IH]. Qed.

(** The common part of the theorems below: a handle sends, and awaits the answer
    while other things happen. *)
Lemma exchange_fate s h data written id k es es' : wf s → peek_request_id data = Some id →
  Forall (foreign h) es → Forall (foreign h) es' →
  let s1 := run (step s (Send h data written)).1 es in
  let s2 := run (step s1 (Receive h k)).1 es' in
  (step s1 (Receive h k)).2 = None ∧
  ∃ c, receivers s2 !! (h, k) = Some c ∧ channels s2 !! c = Some (fate id (receiving s) (es ++ es')).
Proof.
  intros W E F F'. destruct (send_routes s h data written id E) as (R1 & P1 & Q1 & L1). cbv zeta.
  set (s0 := (step s (Send h data written)).1) in *. set (s1 := run s0 es).
  destruct (run_foreign h es s0 F) as [P2 Q2]. fold s1 in P2, Q2. rewrite P1 in P2.
  destruct (receive_takes s1 h k id _ P2) as (O3 & Q3 & R3 & C3 & L3 & N3). split; [done|].
  destruct (run_foreign h es' (step s1 (Receive h k)).1 F') as [_ Q4].
  exists (next_channel s). split; [by rewrite Q4|].
  pose proof (run_fate (es ++ Receive h k :: es') s0 id _ (step_wf s _ W) R1) as H.
  rewrite run_app, L1, fate_receive in H. exact H.
Qed.

(** In every interleaving of the handles, the receive task and the API: the
    receive that follows a send takes the first datagram, after the send, that
    carries the id of what was sent, wherever it came from; it fails if before
    that datagram another message with the same id was sent through the
    socket, or the route was removed; otherwise it goes on waiting. *)
Theorem receive_fate es0 h data written id k es es' : peek_request_id data = Some id →
  Forall (foreign h) es → Forall (foreign h) es' →
  let s := run bind es0 in
  let s1 := run (step s (Send h data written)).1 es in
  let s2 := run (step s1 (Receive h k)).1 es' in
  (step s1 (Receive h k)).2 = None ∧
  (step s2 (Poll h k)).2 = Got <$> answer (fate id (receiving s) (es ++ es')).
Proof.
  intros E F F' s s1 s2.
  destruct (exchange_fate s h data written id k es es' (run_wf es0 bind bind_wf) E F F') as [O (c & Hr & Hc)].
  split; [done|]. fold s1 in Hr, Hc. fold s2 in Hr, Hc. cbn. unfold poll. rewrite Hr, Hc.
  by destruct (fate id (receiving s) (es ++ es')).
Qed.

(** What is handed over is a datagram that arrived and carries the id. *)
Lemma fate_holding id es : ∀ live data, fate id live es = Holding data →
  Datagram data ∈ es ∧ peek_request_id data = Some id.
Proof.
  induction es as [|e es IH]; intros live data; cbn; [done|].
  destruct (decides id live e) as [x|] eqn:D.
  - intros ->. destruct e as [h d w|h k|h k|h k|d| |i]; cbn in D; try done.
    + by case_bool_decide.
    + destruct (live && bool_decide _) eqn:B; [|done]. injection D as ->.
      apply andb_true_iff in B as [_ B]. apply bool_decide_eq_true in B. split; [left|done].
    + by destruct (i =? id).
  - intros H. destruct (IH _ _ H) as [Hd Hp]. split; [by right|done].
Qed.

(** A route is freed by its answer or by the API, never by a deadline: a
    request that was given up keeps its entry. *)
Definition quiet (e : Event) : Prop := match e with Datagram _ | Unroute _ => False | _ => True end.

Lemma step_keeps s e id : quiet e → is_Some (routes s !! id) → is_Some (routes (step s e).1 !! id).
Proof.
  intros Q Hr. destruct e as [h data written|h k|h k|h k|data| |i]; cbn in *; try done.
  - unfold send. destruct (peek_request_id data) as [i|]; [|done]. cbn.
    destruct (decide (i = id)) as [->|]; [rewrite lookup_insert_eq; by eexists|by rewrite lookup_insert_ne].
  - unfold take_pending. by destruct (pending s !! h) as [[j c']|].
  - unfold poll. destruct (receivers s !! (h, k)) as [c'|]; [|done]. by destruct (channels s !! c') as [[| |]|].
Qed.

Theorem given_up_routes_stay es : ∀ s id, Forall quiet es →
  is_Some (routes s !! id) ∨ (∃ h data written, Send h data written ∈ es ∧ peek_request_id data = Some id) →
  is_Some (routes (run s es) !! id).
Proof.
  induction es as [|e es IH]; intros s id Q H.
  { destruct H as [H|(h & d & w & H%elem_of_nil & _)]; [done|done]. }
  apply Forall_cons in Q as [Qe Q]. cbn. apply IH; [done|].
  destruct H as [H|(h & d & w & H & Hp)]; [left; by apply step_keeps|].
  apply elem_of_cons in H as [<-|H]; [|right; by exists h, d, w].
  left. destruct (send_routes s h d w id Hp) as [-> _]. by eexists.
Qed.

(** *** A session on a handle *)

(** The handle [h] and what is still to come while each of its receives waits:
    whether the write before it succeeds, and the events meanwhile. *)
Record World := mkWorld {
  shared : State;
  turns : nat → bool * list Event;
  task : nat;
  clock : Z;
  salt : bytes
}.

Definition udp_send (h : nat) (data : bytes) : St World (result unit Error) := fun w =>
  let '(r, s) := send h data (turns w 0%nat).1 (shared w) in
  (r, mkWorld s (turns w) (task w) (clock w) (salt w)).

Definition udp_receive (h : nat) (_ : Z) : St World Received := fun w =>
  let after s := mkWorld s (shift (turns w)) (S (task w)) (clock w) (salt w) in
  match take_pending h (task w) (shared w) with
  | (Some e, s) => (Broken e, after s)
  | (None, s) =>
      match poll (h, task w) (run s (turns w 0%nat).2) with
      | (Some (Ok data), s) => (Arrived data, after s)
      | (Some (Err e), s) => (Broken e, after s)
      | (None, s) => (Elapsed, after (drop_receiver (h, task w) s))
      end
  end.

#[local] Instance transport (h : nat) : Transport World := {|
  t_send := udp_send h; t_receive := udp_receive h; t_clock := clock; t_salt := salt
|}.

(** What the session sees of a turn. *)
Definition turn_event (id : Z) (live : bool) (turn : bool * list Event) : event :=
  (if turn.1 then Ok tt else Err EProtocol,
   match fate id live turn.2 with
   | Holding data => Arrived data
   | Closed => Broken EProtocol
   | Waiting => Elapsed
   end).

Fixpoint seen (n : nat) (id : Z) (live : bool) (ts : nat → bool * list Event) : list event :=
  match n with
  | O => []
  | S n' => turn_event id live (ts 0%nat) :: seen n' id (foldl lives live (ts 0%nat).2) (shift ts)
  end.

Lemma run_lives es : ∀ s, receiving (run s es) = foldl lives (receiving s) es.
Proof. induction es as [|e es IH]; intros s; [done|]. cbn. by rewrite <- step_lives, <- IH. Qed.

Definition all_foreign (h : nat) (ts : nat → bool * list Event) : Prop := ∀ i, Forall (foreign h) (ts i).2.

Lemma turn_seen h bs id w d : wf (shared w) → peek_request_id bs = Some id → all_foreign h (turns w) →
  let '(r, w1) := udp_send h bs w in
  let '(x, w2) := udp_receive h d w1 in
  r = (turn_event id (receiving (shared w)) (turns w 0%nat)).1 ∧
  x = (turn_event id (receiving (shared w)) (turns w 0%nat)).2 ∧
  wf (shared w2) ∧ turns w2 = shift (turns w) ∧
  receiving (shared w2) = foldl lives (receiving (shared w)) (turns w 0%nat).2.
Proof.
  intros W E F. destruct w as [s ts k ck sa]. cbn [shared turns] in *.
  destruct (ts 0%nat) as [written es] eqn:Et. pose proof (F 0%nat) as F0. rewrite Et in F0. cbn [snd] in F0.
  destruct (exchange_fate s h bs written id k [] es W E ltac:(constructor) F0) as [_ (c & Hr & Hc)].
  pose proof (step_wf s (Send h bs written) W) as W1.
  pose proof (send_routes s h bs written id E) as (_ & P1 & _ & L1). cbn [run fold_left] in Hr, Hc.
  destruct (receive_takes (step s (Send h bs written)).1 h k id _ P1) as (_ & _ & _ & _ & L2 & _).
  pose proof (step_wf _ (Receive h k) W1) as W2. pose proof (run_wf es _ W2) as W3.
  pose proof (run_lives es (step (step s (Send h bs written)).1 (Receive h k)).1) as L3. rewrite L2, L1 in L3.
  unfold udp_send, udp_receive. cbn [shared turns task clock salt]. rewrite Et. cbn [fst snd].
  assert (Er : (send h bs written s).1 = if written then Ok tt else Err EProtocol).
  { unfold send. rewrite E. by destruct written. }
  cbn [step] in *. destruct (send h bs written s) as [r s1]. cbn [fst snd shared turns task clock salt] in *. subst r.
  destruct (take_pending h k s1) as [o s2] eqn:Etk. cbn [fst] in *. rewrite ?Etk in Hr, Hc, W3, L3. cbn [fst] in Hr, Hc, W3, L3.
  assert (o = None) as -> by (unfold take_pending in Etk; rewrite P1 in Etk; by injection Etk as <-).
  rewrite Et. cbn [fst snd]. unfold poll. rewrite Hr, Hc. unfold turn_event. cbn [fst snd app].
  assert (Dr : ∀ t, wf (drop_receiver t (run s2 es))) by (intros t; destruct W3; by split).
  by destruct (fate id (receiving s) es); cbn; split_and!.
Qed.

Lemma attempts_shared h c n id bs last_err : ∀ w ctr,
  wf (shared w) → peek_request_id bs = Some id → all_foreign h (turns w) →
  (attempts (T:=transport h) c n id bs last_err (mkClient w ctr)).1 =
  let evs := seen n id (receiving (shared w)) (turns w) in
  match first_decision id evs with Some (_, r) => r | None => Err (last_regret id last_err evs) end.
Proof.
  revert last_err. induction n as [|n IH]; intros last_err w ctr W E F; [done|].
  pose proof (turn_seen h bs id w (s_timeout c) W E F) as H.
  cbn [attempts seen first_decision]. unfold ebind, sbind, on_net. cbn [t_send t_receive transport net request_counter].
  destruct (udp_send h bs w) as [r w1]. cbn [net]. destruct (udp_receive h (s_timeout c) w1) as [x w2] eqn:Ex.
  destruct H as (Hr & Hx & W2 & T2 & L2). destruct (turn_event id (receiving (shared w)) (turns w 0%nat)) as [r' x'].
  cbn [fst snd] in Hr, Hx. subst r' x'. destruct r as [[]|e]; [|done]. cbn [net request_counter]. rewrite Ex.
  assert (F2 : all_foreign h (turns w2)) by (rewrite T2; intros i; apply F).
  unfold last_regret. cbn [decision foldl]. unfold regret at 2. cbn [snd].
  destruct x as [raw|e|]; [|done|].
  - destruct (message_decode raw) as [m|e]; [|done]. destruct (request_id (msg_pdu m) =? id); [done|].
    rewrite (IH _ w2 ctr W2 E F2), L2, T2. cbv zeta. by destruct (first_decision id _) as [[]|].
  - rewrite (IH _ w2 ctr W2 E F2), L2, T2. cbv zeta. by destruct (first_decision id _) as [[]|].
Qed.

Lemma request_peek `{!RasnV3Laws R} v comm q bs : wf_message (mkMessage v comm q) → pdu_type q ≠ TrapV1 →
  message_encode (mkMessage v comm q) = Ok bs → peek_request_id bs = Some (request_id q).
Proof.
  intros W Ht E. unfold peek_request_id. rewrite (community_peek _ _ W E).
  pose proof (message_roundtrip _ W) as H. rewrite E in H. destruct H as (_ & -> & _).
  unfold on_the_wire. cbn. by destruct v, (pdu_type q).
Qed.

(** No v3 datagram that arrives carries the id; others may. *)
Definition v3_elsewhere (id : Z) (ts : nat → bool * list Event) : Prop :=
  ∀ i data hd u, Datagram data ∈ (ts i).2 → peek_security data = Ok (hd, u) → msg_id hd ≠ id.

Lemma turn_no_mismatch id live ts a b : v3_elsewhere id ts →
  decision id (turn_event id live (ts 0%nat)) ≠ Some (Err (ERequestIdMismatch a b)) ∧
  (decision id (turn_event id live (ts 0%nat)) = None → regret id (turn_event id live (ts 0%nat)) = ETimeout).
Proof.
  intros Hc. unfold turn_event. destruct (ts 0%nat) as [[] es] eqn:Et; cbn; [|by split].
  destruct (fate id live es) as [|data|] eqn:Ef; cbn; [done| |by split].
  destruct (fate_holding id es live data Ef) as [Hd Hp]. unfold peek_request_id in Hp.
  destruct (peek_security data) as [[hd u]|e] eqn:Es.
  { injection Hp as Hp. destruct (Hc 0%nat data hd u); [by rewrite Et|done|done]. }
  unfold regret. cbn. destruct (message_decode data) as [m|]; [|done]. injection Hp as ->. by rewrite Z.eqb_refl.
Qed.

Lemma seen_no_mismatch id a b n : ∀ live ts last_err, v3_elsewhere id ts → last_err ≠ ERequestIdMismatch a b →
  match first_decision id (seen n id live ts) with
  | Some (_, r) => r
  | None => Err (last_regret id last_err (seen n id live ts))
  end ≠ Err (ERequestIdMismatch a b).
Proof.
  induction n as [|n IH]; intros live ts last_err Hc Hl; [by intros [= ?]|]. cbn [seen first_decision].
  destruct (turn_no_mismatch id live ts a b Hc) as [H1 H2].
  destruct (decision id (turn_event id live (ts 0%nat))) as [r|]; [by intros ->|].
  unfold last_regret. cbn [foldl]. rewrite H2 by done.
  assert (Hs : v3_elsewhere id (shift ts)) by (intros i; apply Hc).
  specialize (IH (foldl lives live (ts 0%nat).2) (shift ts) ETimeout Hs ltac:(done)). unfold last_regret in IH.
  by destruct (first_decision id _) as [[]|].
Qed.

(** C36. A session on a handle of the shared socket sees, of all that happens on the
    socket, one event for each attempt: the first datagram with its request's id,
    the closing of its route, or nothing before the deadline; its request ends
    as it would over a transport of its own that plays these events. Where
    none of the v3 datagrams of other sessions carries the id, it never gets
    another request's response. *)
Theorem session_on_shared_socket `{!RasnV3Laws R} h c nanos p es0 ts k ck sa ctr bs :
  let w := mkWorld (run bind es0) ts k ck sa in
  let id := (next_request_id nanos (mkClient w ctr)).1 in
  wf_message (message_of c (with_request_id id p)) → pdu_type p ≠ TrapV1 →
  message_encode (message_of c (with_request_id id p)) = Ok bs → all_foreign h ts →
  let evs := seen (S (Z.to_nat (s_retries c))) id (receiving (shared w)) ts in
  let r := (request (T:=transport h) c nanos p (mkClient w ctr)).1 in
  r = match first_decision id evs with Some (_, r) => r | None => Err (last_regret id ETimeout evs) end ∧
  (v3_elsewhere id ts → ∀ a b, r ≠ Err (ERequestIdMismatch a b)).
Proof.
  intros w id Wm Ht Eb F evs r.
  assert (Er : r = match first_decision id evs with Some (_, r) => r | None => Err (last_regret id ETimeout evs) end).
  { unfold r, request, sbind. cbn -[attempts seen first_decision]. cbn in id. fold id. rewrite Eb.
    rewrite (attempts_shared h c _ id bs ETimeout); [done|apply run_wf, bind_wf| |done].
    by rewrite (request_peek _ _ _ bs Wm Ht Eb). }
  split; [done|]. intros Hc a b. rewrite Er. by apply seen_no_mismatch.
Qed.
End Shared.
End UdpShared.
