(* ===== verification/Notiflog.v ===== *)
(** * The notification log ([crates/netsnmp-agent/src/trap/notiflog.rs])

    The ring of received notifications, its cells in nlmLogTable, and the
    conversion of the time of receipt to a DateAndTime. *)

From Stdlib Require Import ZArith Lia.
From S2P Require Import Prelude MachineInts Text Oid Value Pdu Cells Handler Snapshots Scalar Persist.

Local Open Scope list_scope.

Definition NLM_LOG_ENTRY : Oid := [1; 3; 6; 1; 2; 1; 92; 1; 3; 1; 1].
Definition NLM_LOG_TIME : Z := 2.
Definition NLM_LOG_DATE_AND_TIME : Z := 3.
Definition NLM_LOG_ENGINE_ID : Z := 4.
Definition NLM_LOG_ENGINE_TADDRESS : Z := 5.
Definition NLM_LOG_ENGINE_TDOMAIN : Z := 6.
Definition NLM_LOG_CONTEXT_ENGINE_ID : Z := 7.
Definition NLM_LOG_CONTEXT_NAME : Z := 8.
Definition NLM_LOG_NOTIFICATION_ID : Z := 9.
Definition SNMP_UDP_DOMAIN : Oid := [1; 3; 6; 1; 6; 1; 1].

(** [LoggedEntry]; the time of receipt in nanoseconds since the epoch. *)
Record LoggedEntry := mkEntry {
  index : Z;
  uptime_ticks : Z;
  received : Z;
  e_engine_id : bytes;
  peer : text;
  e_trap_oid : Oid
}.

(** [NotificationLog]: [start] in nanoseconds of the monotonic clock. *)
Record NotificationLog := mkLog { entries : list LoggedEntry; cap : nat; start : Z }.

Definition new (cap : nat) (now : Z) : NotificationLog := mkLog [] cap now.

(** [record], when the monotonic clock reads [now] and the wall clock [wall]. *)
Definition record (now wall : Z) (trap_oid : Oid) (engine_id : bytes) (from : text) (l : NotificationLog)
    : NotificationLog :=
  let idx := match last (entries l) with Some e => as_u32 (index e + 1) | None => 1 end in
  let kept := if (cap l <=? length (entries l))%nat then tail (entries l) else entries l in
  let ticks := as_u32 ((now - start l) / 1000000 / 10) in
  mkLog (kept ++ [mkEntry idx ticks wall engine_id from trap_oid]) (cap l) (start l).

(** ** Addresses and dates *)

(** [rsplit_once(':')]. *)
Definition rsplit_colon (s : text) : option (text * text) :=
  match split 58 (rev s) with
  | p :: rest =>
      match rest with
      | [] => None
      | _ => Some (rev (drop (S (length p)) (rev s)), rev p)
      end
  | [] => None
  end.

Definition udp_address (host_port : text) : bytes :=
  match rsplit_colon host_port with
  | None => []
  | Some (host, port) =>
      match parse_ipv4 host with
      | None => []
      | Some ip =>
          match parse_unsigned 65535 port with
          | None => []
          | Some port => octets ip ++ [port / 256; port mod 256]
          end
      end
  end.

(** Divisions of [i64] and [u64]; the casts to [u8] and [u64]. *)
Definition civil_from_days (z : Z) : Z * Z * Z :=
  let z := z + 719468 in
  let era := Z.quot (if 0 <=? z then z else z - 146096) 146097 in
  let doe := as_u64 (z - era * 146097) in
  let yoe := (doe - doe / 1460 + doe / 36524 - doe / 146096) / 365 in
  let y := yoe + era * 400 in
  let doy := doe - (365 * yoe + yoe / 4 - yoe / 100) in
  let mp := (5 * doy + 2) / 153 in
  let d := as_u8 (doy - (153 * mp + 2) / 5 + 1) in
  let m := as_u8 (if mp <? 10 then mp + 3 else mp - 9) in
  (if m <=? 2 then y + 1 else y, m, d).

Definition date_and_time (t : Z) : bytes :=
  if t <? 0 then []
  else
    let secs := t / 1000000000 in
    let days := secs / 86400 in
    let rem := secs mod 86400 in
    let hour := as_u8 (rem / 3600) in
    let minute := as_u8 (rem mod 3600 / 60) in
    let second := as_u8 (rem mod 60) in
    let '(year, month, day) := civil_from_days days in
    let year := as_u16 year in
    [year / 256; year mod 256; month; day; hour; minute; second; 0; 43; 0; 0].

(** ** The table *)

Definition cell (e : LoggedEntry) (col : Z) : Oid := NLM_LOG_ENTRY ++ [col; index e].

Definition entry_cells (e : LoggedEntry) : cells := [
  (cell e NLM_LOG_TIME, VTimeTicks (uptime_ticks e));
  (cell e NLM_LOG_DATE_AND_TIME, VOctetString (date_and_time (received e)));
  (cell e NLM_LOG_ENGINE_ID, VOctetString (e_engine_id e));
  (cell e NLM_LOG_ENGINE_TADDRESS, VOctetString (udp_address (peer e)));
  (cell e NLM_LOG_ENGINE_TDOMAIN, VOid SNMP_UDP_DOMAIN);
  (cell e NLM_LOG_CONTEXT_ENGINE_ID, VOctetString []);
  (cell e NLM_LOG_CONTEXT_NAME, VOctetString []);
  (cell e NLM_LOG_NOTIFICATION_ID, VOid (e_trap_oid e))].

Definition log_cells (l : NotificationLog) : cells := flat_map entry_cells (entries l).

(** [notiflog_handler]: a [FnHandler] over [log_cells]. *)
Definition notiflog_handler : MibHandler FnHandler.state := FnHandler.handler NLM_LOG_ENTRY.

(** * Dates are those of the Gregorian calendar *)

Definition leap (y : Z) : bool := (y mod 4 =? 0) && (negb (y mod 100 =? 0) || (y mod 400 =? 0)).

Definition month_length (y m : Z) : Z :=
  match m with
  | 2 => 28 + Z.b2z (leap y)
  | 4 | 6 | 9 | 11 => 30
  | _ => 31
  end.

(** The days of the year before month [m]. *)
Definition before_month (y m : Z) : Z :=
  let offsets := [0; 31; 59; 90; 120; 151; 181; 212; 243; 273; 304; 334] in
  nth (Z.to_nat (m - 1)) offsets 0 + (if 2 <? m then Z.b2z (leap y) else 0).

(** Days since 1970-01-01. *)
Definition days_from_civil (y m d : Z) : Z :=
  365 * (y - 1) + (y - 1) / 4 - (y - 1) / 100 + (y - 1) / 400 + before_month y m + (d - 1) - 719162.

Example epoch : days_from_civil 1970 1 1 = 0 ∧ days_from_civil 2000 3 1 = 11017 ∧ civil_from_days 11017 = (2000, 3, 1).
Proof. by vm_compute. Qed.

(** The first day of the March year [yoe] of an era. *)
Definition year_start (yoe : Z) : Z := 365 * yoe + yoe / 4 - yoe / 100.

Definition year_of (doe : Z) : Z := (doe - doe / 1460 + doe / 36524 - doe / 146096) / 365.

Lemma year_of_step n : 0 <= n → year_of n <= year_of (n + 1).
Proof.
  intros Hn. unfold year_of. apply Z.div_le_mono; [lia|]. Z.div_mod_to_equations. lia.
Qed.

Lemma year_of_mono a b : 0 <= a <= b → year_of a <= year_of b.
Proof.
  intros [Ha Hb]. replace b with (a + Z.of_nat (Z.to_nat (b - a))) by lia.
  induction (Z.to_nat (b - a)) as [|k IH]; [by rewrite Z.add_0_r|].
  etrans; [exact IH|]. rewrite Nat2Z.inj_succ. replace (a + Z.succ (Z.of_nat k)) with (a + Z.of_nat k + 1) by lia.
  apply year_of_step. lia.
Qed.

(** The day after the March year [yoe] of an era: the last one ends with its leap day. *)
Definition year_end (yoe : Z) : Z := year_start (yoe + 1) + Z.b2z (yoe =? 399).

(** The 400 years of an era, at their first and last days. *)
Lemma years_checked : forallb (fun y => (year_of (year_start y) =? y) && (year_of (year_end y - 1) =? y))
  (seqZ 0 400) = true.
Proof. vm_compute. reflexivity. Qed.

Lemma year_of_within y doe : 0 <= y < 400 → year_start y <= doe < year_end y → year_of doe = y.
Proof.
  intros Hy Hd. pose proof years_checked as H. rewrite forallb_forall in H.
  specialize (H y). rewrite <- list_elem_of_In, elem_of_seqZ in H. specialize (H ltac:(lia)).
  apply andb_true_iff in H as [H1%Z.eqb_eq H2%Z.eqb_eq].
  assert (0 <= year_start y) by (unfold year_start; Z.div_mod_to_equations; lia).
  pose proof (year_of_mono (year_start y) doe). pose proof (year_of_mono doe (year_end y - 1)). lia.
Qed.

Lemma some_year doe (n : nat) :
  0 <= doe < year_start (Z.of_nat n) → ∃ y, 0 <= y < Z.of_nat n ∧ year_start y <= doe < year_start (y + 1).
Proof.
  induction n as [|n IH]; intros Hd; [unfold year_start in Hd; Z.div_mod_to_equations; lia|].
  destruct (Z_lt_le_dec doe (year_start (Z.of_nat n))) as [Hlt|Hge].
  - destruct IH as (y & ? & ?); [lia|]. exists y. lia.
  - exists (Z.of_nat n). replace (Z.of_nat (S n)) with (Z.of_nat n + 1) in Hd by lia. lia.
Qed.

Lemma year_found doe :
  0 <= doe < 146097 → 0 <= year_of doe < 400 ∧ year_start (year_of doe) <= doe < year_end (year_of doe).
Proof.
  intros Hd.
  assert (∃ y, 0 <= y < 400 ∧ year_start y <= doe < year_end y) as (y & Hy & Hin).
  { destruct (Z.eq_dec doe 146096) as [->|Hne]; [exists 399; by vm_compute|].
    destruct (some_year doe 400) as (y & Hy & Hin); [vm_compute year_start; lia|].
    exists y. unfold year_end. destruct (y =? 399); cbn [Z.b2z]; lia. }
  rewrite (year_of_within y doe Hy Hin). done.
Qed.

(** The months of a March year, at its 366 days. *)
Definition march_month (doy : Z) : Z := (5 * doy + 2) / 153.
Definition march_day (doy : Z) : Z := doy - (153 * march_month doy + 2) / 5 + 1.
Definition civil_month (doy : Z) : Z := if march_month doy <? 10 then march_month doy + 3 else march_month doy - 9.

Lemma months_checked : forallb (fun doy =>
    let m := civil_month doy in
    let d := march_day doy in
    (1 <=? m) && (m <=? 12) && (1 <=? d)
    && (d <=? (if (m =? 2) && (doy <? 365) then 28 else month_length 2000 m))
    && (before_month 2001 m + (d - 1) + (if m <=? 2 then 306 else -59) =? doy))
  (seqZ 0 366) = true.
Proof. vm_compute. reflexivity. Qed.

Lemma month_found doy (m := civil_month doy) (d := march_day doy) : 0 <= doy < 366 →
  1 <= m <= 12 ∧ 1 <= d ∧ d <= (if (m =? 2) && (doy <? 365) then 28 else month_length 2000 m)
  ∧ before_month 2001 m + (d - 1) + (if m <=? 2 then 306 else -59) = doy.
Proof.
  intros Hd. pose proof months_checked as H. rewrite forallb_forall in H.
  specialize (H doy). rewrite <- list_elem_of_In, elem_of_seqZ in H. specialize (H ltac:(lia)).
  cbv zeta in H. fold m d in H. rewrite !andb_true_iff, !Z.leb_le, Z.eqb_eq in H. lia.
Qed.

Lemma month_length_le y m : month_length y m <= 31.
Proof. unfold month_length. destruct (leap y); repeat case_match; cbn; lia. Qed.

(** Leap days counted by the divisions of the year. *)
Lemma leap_count y : Z.b2z (leap y) = (y / 4 - (y - 1) / 4) - (y / 100 - (y - 1) / 100) + (y / 400 - (y - 1) / 400).
Proof.
  unfold leap. repeat case Z.eqb_spec; intros; cbn [andb orb negb Z.b2z]; Z.div_mod_to_equations; lia.
Qed.

Lemma year_length y : 0 <= y < 400 → year_end y - year_start y = 365 + Z.b2z (leap (y + 1)).
Proof.
  intros Hy. rewrite leap_count. replace (y + 1 - 1) with y by lia. unfold year_end, year_start.
  case Z.eqb_spec; cbn [Z.b2z]; intros; Z.div_mod_to_equations; lia.
Qed.

Lemma before_month_leap y m : before_month y m = before_month 2001 m + (if 2 <? m then Z.b2z (leap y) else 0).
Proof. unfold before_month. change (leap 2001) with false. case_match; cbn [Z.b2z]; lia. Qed.

Lemma civil_unfold z (doe := (z + 719468) mod 146097) (yoe := year_of doe) (doy := doe - year_start yoe) :
  civil_from_days z =
    (yoe + 400 * ((z + 719468) / 146097) + (if civil_month doy <=? 2 then 1 else 0), civil_month doy, march_day doy)
  ∧ 0 <= doy < 366.
Proof.
  assert (0 <= doe < 146097) as Hdoe by (apply Z.mod_pos_bound; lia).
  destruct (year_found doe Hdoe) as [Hy Hin]. fold yoe in Hy, Hin.
  assert (0 <= doy < 366) as Hdoy.
  { unfold doy. pose proof (year_length yoe Hy). destruct (leap _); cbn [Z.b2z] in *; lia. }
  destruct (month_found doy Hdoy) as (Hm & Hd & Hd' & _).
  split; [|exact Hdoy].
  assert (march_day doy <= 31) as Hd31.
  { pose proof (month_length_le 2000 (civil_month doy)). destruct (_ && _); lia. }
  unfold civil_from_days.
  assert (Z.quot (if 0 <=? z + 719468 then z + 719468 else z + 719468 - 146096) 146097 = (z + 719468) / 146097) as ->.
  { case Z.leb_spec; intros; [apply Z.quot_div_nonneg; lia|].
    replace (z + 719468 - 146096) with (- (146096 - (z + 719468))) by lia.
    rewrite Z.quot_opp_l, Z.quot_div_nonneg by lia. clear. Z.div_mod_to_equations. lia. }
  replace (z + 719468 - (z + 719468) / 146097 * 146097) with doe
    by (unfold doe; rewrite Z.mod_eq by lia; lia).
  rewrite (wrap_u_id 64 doe) by lia. fold (year_of doe) (year_start (year_of doe)). fold yoe doy.
  fold (march_month doy) (civil_month doy) (march_day doy).
  rewrite !wrap_u_id by lia. cbv zeta.
  destruct (_ <=? 2); apply pair_equal_spec; (split; [|reflexivity]); apply pair_equal_spec; split; lia.
Qed.

Lemma leap_era y era : leap (y + 400 * era) = leap y.
Proof. unfold leap. repeat case Z.eqb_spec; cbn; intros; try done; Z.div_mod_to_equations; lia. Qed.

(** A day and its date name each other, before and after the epoch. *)
Theorem civil_dates z :
  let '(y, m, d) := civil_from_days z in
  1 <= m <= 12 ∧ 1 <= d <= month_length y m ∧ days_from_civil y m d = z.
Proof.
  destruct (civil_unfold z) as [-> Hdoy].
  set (era := (z + 719468) / 146097). set (doe := (z + 719468) mod 146097) in *.
  set (yoe := year_of doe) in *. set (doy := doe - year_start yoe) in *.
  destruct (year_found doe (Z.mod_pos_bound _ 146097 eq_refl)) as [Hy Hin]. fold yoe in Hy, Hin.
  destruct (month_found doy Hdoy) as (Hm & Hd & Hd' & Hsum).
  set (m := civil_month doy) in *. set (d := march_day doy) in *.
  assert (z + 719468 = 146097 * era + doe) as Hz by (unfold era, doe; apply Z.div_mod; lia).
  pose proof (year_length yoe Hy) as Hlen.
  split; [exact Hm|split; [split; [exact Hd|]|]].
  - destruct (Z.eqb_spec m 2) as [E|E].
    + rewrite E in *. change (2 <=? 2) with true. cbv iota. unfold month_length.
      replace (yoe + 400 * era + 1) with (yoe + 1 + 400 * era) by lia. rewrite leap_era.
      cbn [andb] in Hd'. destruct (Z.ltb_spec doy 365); [destruct (leap _); cbn [Z.b2z]; lia|].
      change (month_length 2000 2) with 29 in Hd'. destruct (leap (yoe + 1)); cbn [Z.b2z] in *; unfold doy in *; lia.
    + cbn [andb] in Hd'. revert Hd'. clear -E Hm. unfold month_length. repeat case_match; try done; lia.
  - unfold days_from_civil. rewrite before_month_leap. revert Hsum. unfold doy. unfold year_start in *.
    case Z.leb_spec; case Z.ltb_spec; intros; try lia; [|rewrite leap_count]; Z.div_mod_to_equations; lia.
Qed.

(** ** The octets of a time of receipt *)

(** Reading a DateAndTime of Universal Time back to seconds since the epoch. *)
Definition seconds_of (b : bytes) : option Z :=
  match b with
  | [y1; y0; m; d; hour; minute; second; 0; 43; 0; 0] =>
      Some (days_from_civil (256 * y1 + y0) m d * 86400 + hour * 3600 + minute * 60 + second)
  | _ => None
  end.

Lemma civil_year z y m d : 0 <= z <= 23000000 → civil_from_days z = (y, m, d) → 0 <= y < 65536.
Proof.
  intros Hz E. pose proof (civil_dates z) as H. rewrite E in H. destruct H as (Hm & Hd & Hz').
  assert (0 <= before_month y m <= 335) as Hb.
  { rewrite before_month_leap. assert (0 <= before_month 2001 m <= 334).
    { unfold before_month. change (leap 2001) with false. generalize (Z.to_nat (m - 1)) as n. intros n.
      do 12 (destruct n as [|n]; [cbn; case_match; lia|]). destruct n; cbn; case_match; lia. }
    destruct (2 <? m), (leap y); cbn [Z.b2z]; lia. }
  assert (month_length y m <= 31) by apply month_length_le.
  unfold days_from_civil in Hz'. Z.div_mod_to_equations. lia.
Qed.

(** The octets of a time of receipt are a DateAndTime that names its second. *)
Theorem date_and_time_names_the_second t :
  0 <= t → t / 1000000000 / 86400 <= 23000000 →
  seconds_of (date_and_time t) = Some (t / 1000000000) ∧ is_bytes (date_and_time t).
Proof.
  intros Ht Hmax. unfold date_and_time.
  assert (0 <= t / 1000000000) by (apply Z.div_pos; lia).
  set (secs := t / 1000000000) in *. rewrite (proj2 (Z.ltb_ge t 0)) by lia.
  assert (0 <= secs / 86400) by (apply Z.div_pos; lia).
  pose proof (civil_dates (secs / 86400)) as Hdate.
  destruct (civil_from_days (secs / 86400)) as [[y m] d] eqn:E.
  destruct Hdate as (Hm & Hd & Hdate). pose proof (month_length_le y m).
  assert (0 <= y < 65536) by (eapply civil_year; [|exact E]; lia).
  pose proof (Z.mod_pos_bound secs 86400 eq_refl) as Hrem. set (rem := secs mod 86400) in *.
  assert (secs = 86400 * (secs / 86400) + rem) as Hsecs by (apply Z.div_mod; lia).
  rewrite !wrap_u_id by (Z.div_mod_to_equations; lia). split.
  - cbn [seconds_of]. rewrite <- (Z.div_mod y 256), Hdate by lia. f_equal. clear -Hsecs Hrem. clearbody rem. Z.div_mod_to_equations. lia.
  - unfold is_bytes. repeat constructor; unfold is_u8; Z.div_mod_to_equations; lia.
Qed.

(** * The ring *)

(** What the receiver records: the clocks, the trap OID, the engine id and the peer. *)
Definition Arrival : Type := Z * Z * Oid * bytes * text.

Definition record_all (h : list Arrival) (l : NotificationLog) : NotificationLog :=
  fold_left (fun l '(now, wall, o, e, from) => record now wall o e from l) h l.

(** The entry of the [i]-th arrival, from 0. *)
Definition entry_of (start : Z) (i : nat) (a : Arrival) : LoggedEntry :=
  let '(now, wall, o, e, from) := a in
  mkEntry (as_u32 (Z.of_nat i + 1)) (as_u32 ((now - start) / 1000000 / 10)) wall e from o.

Lemma record_all_snoc h a l :
  record_all (h ++ [a]) l = let '(now, wall, o, e, from) := a in record now wall o e from (record_all h l).
Proof. unfold record_all. rewrite fold_left_app. by destruct a as [[[[? ?] ?] ?] ?]. Qed.

Lemma wrap_succ bits n : 0 <= bits → wrap_u bits (wrap_u bits n + 1) = wrap_u bits (n + 1).
Proof. intros Hb. unfold wrap_u. rewrite Z.add_mod_idemp_l; [done|]. pose proof (Z.pow_pos_nonneg 2 bits). lia. Qed.

(** The log holds the newest notifications received, as many as its capacity (and
    one when that is none), oldest first, numbered in order of arrival from 1,
    modulo 2^32. *)
Lemma record_all_newest cap start h :
  record_all h (new cap start) =
    mkLog (drop (length h - max cap 1) (imap (entry_of start) h)) cap start.
Proof.
  induction h as [|a h IH] using rev_ind; [reflexivity|].
  rewrite record_all_snoc, IH. destruct a as [[[[now wall] o] e] from].
  unfold record. cbn [entries Notiflog.cap Notiflog.start]. f_equal.
  rewrite length_app. cbn [length]. rewrite imap_app. cbn [imap].
  set (all := imap (entry_of start) h). assert (length all = length h) as Hl by apply length_imap.
  assert (match last (drop (length h - max cap 1) all) with Some e => as_u32 (index e + 1) | None => 1 end
          = as_u32 (Z.of_nat (length h) + 1)) as ->.
  { destruct h as [|x h' _] using rev_ind; [reflexivity|].
    unfold all. rewrite imap_app, length_app. cbn [length imap].
    rewrite drop_app_le by (rewrite length_imap; lia). rewrite last_snoc.
    unfold entry_of at 1. destruct x as [[[[? ?] ?] ?] ?]. cbn [index]. unfold compose. cbn.
    rewrite wrap_succ by lia. f_equal. lia. }
  rewrite length_drop, Hl.
  rewrite (drop_app_le all) by lia.
  f_equal; [|unfold compose, entry_of; rewrite Nat.add_0_r; reflexivity].
  case Nat.leb_spec; intros Hc.
  - change tail with (@drop LoggedEntry 1). rewrite drop_drop.
    destruct h; [unfold all; cbn [imap]; by rewrite !drop_nil|]. f_equal. cbn [length] in *. lia.
  - f_equal. lia.
Qed.
