(* ===== verification/TrapReceiver.v ===== *)
(** * The notification receiver ([crates/netsnmp-agent/src/trap/])

    From a datagram to the notification it surfaces and the acknowledgement
    sent back: the community path, the v1 trap translated to the v2 form, the
    USM path, the loop that feeds the log, the sinks and the caller, and the
    [-F] format string. The clocks, the salt of a reply and the printed form of
    the peer's address come with each datagram; what a sink sets off outside
    the process is the value it returns. *)

From Stdlib Require Import ZArith Lia.
From S2P Require Import Prelude MachineInts Text Oid Value Pdu Config Cells Handler SmiDefs Mib.
From S2P Require Import Registry Serving Wire Usm V3 Agent Session Notiflog.
From S2P Require Notify.

Local Open Scope list_scope.

(** ** [types.rs] *)

Inductive NotifyVersion := Community | V3.

Record ReceivedNotification := mkReceived {
  version : NotifyVersion;
  security_name : option text;
  confirmed : bool;
  notification : Notify.Notification
}.

Record TrapDisposition := mkDisposition {
  surfaced : option ReceivedNotification;
  reply : option bytes
}.

(** [TrapDisposition::default]. *)
Definition nothing : TrapDisposition := mkDisposition None None.

(** A rule of a traphandle sink, and the sinks. *)
Record HandleRule := mkRule { oid_prefix : Oid; command : text }.

Inductive TrapSink :=
| StdoutSink
| FileSink (path : text)
| HandleSink (rules : list HandleRule)
| ForwardSink (community : bytes) (target : text).

(** [TrapReceiverConfig], without the address to bind. *)
Record TrapReceiverConfig := mkReceiver {
  r_community : option bytes;
  r_engine_id : bytes;
  r_engine_boots : Z;
  r_users : list UsmUser;
  r_format : option text;
  r_sinks : list TrapSink
}.

Definition default_receiver : TrapReceiverConfig :=
  mkReceiver (Some (str "public")) [128; 0; 31; 136; 4; 114; 115; 116; 1] 1 [] None [].

(** ** [mod.rs]: what is answered *)

Definition ack_pdu (inform : Pdu) : Pdu := set_variables (variables inform) (new_pdu Response (request_id inform)).

(** [NotifyError::Protocol] of [netsnmp::trap] seen as the [Error] of the crate. *)
Definition parsed (r : result Notify.Notification Pdu.Error) : result Notify.Notification Error :=
  match r with
  | Ok n => Ok n
  | Err _ => Err EProtocol
  end.

(** ** [community.rs] *)

Definition v1_generic_trap_oid (v : Notify.V1Notification) : Oid :=
  match Notify.v1_generic_trap_to_oid (Notify.v1_generic v) with
  | Some o => o
  | None => Notify.v1_enterprise v ++ [0; Notify.v1_specific v]
  end.

Definition handle_v1_trap (p : Pdu) : result TrapDisposition Error :=
  match Notify.parse_v1_trap p with
  | Err _ => Err EProtocol
  | Ok v =>
      Ok (mkDisposition (Some (mkReceived Community None false
        (Notify.mkNotification (Notify.v1_uptime v) (v1_generic_trap_oid v) (Notify.v1_varbinds v)))) None)
  end.

Section Receiver.
Context {R : RasnV3} {C : Crypto} (c : TrapReceiverConfig).

Definition accepts_community (comm : bytes) : bool :=
  match r_community c with
  | None => true
  | Some expected => bool_decide (comm = expected)
  end.

Definition handle_community (data : bytes) : result TrapDisposition Error :=
  match message_decode data with
  | Err _ => Ok nothing
  | Ok m =>
      let p := msg_pdu m in
      if negb (accepts_community (community m)) then Ok nothing
      else
        match pdu_type p with
        | TrapV2 =>
            let? n := parsed (Notify.parse_notification p) in
            Ok (mkDisposition (Some (mkReceived Community None false n)) None)
        | Inform =>
            let? n := parsed (Notify.parse_notification p) in
            let? bs := message_encode (mkMessage (msg_version m) (community m) (ack_pdu p)) in
            Ok (mkDisposition (Some (mkReceived Community None true n)) (Some bs))
        | TrapV1 => handle_v1_trap p
        | _ => Ok nothing
        end
  end.

(** ** [secure.rs] *)

(** The engine when the receiver has run for [now] seconds. *)
Definition engine (now : Z) : EngineParams := mkEngine (r_engine_id c) (r_engine_boots c) (as_u32 now).

(** The users of [TrapReceiver::new]. *)
Definition users : gmap bytes UsmUser := user_table (r_users c).

(** The counter of reports is the state. *)
Definition next_stat : St Z Z := fun n => (as_u32 (n + 1), as_u32 (n + 1)).

Definition report (id : Z) (user : option UsmUser) (now : Z) (stat : UsmStat) (request_id : Z)
    : St Z (result TrapDisposition Error) :=
  let* count := next_stat in
  sret (let? bs := build_report id user (engine now) stat count request_id in
        Ok (mkDisposition None (Some bs))).

Definition in_window (now : Z) (u : UsmSecurityParameters) : bool :=
  let drift := as_u32 now - u_engine_time u in
  (u_engine_boots u =? r_engine_boots c) && (Z.abs drift <=? TIME_WINDOW_SECS).

Definition handle_v3 (now : Z) (salt data : bytes) (h : HeaderData) (u : UsmSecurityParameters)
    : St Z (result TrapDisposition Error) :=
  let e := engine now in
  if bool_decide (u_engine_id u = []) then report (msg_id h) None now UnknownEngineIDs 0
  else
    match users !! u_user_name u with
    | None => report (msg_id h) None now UnknownUserNames 0
    | Some user =>
        match parse data (Some user) with
        | Err EAuthFailure => sret (Ok nothing)
        | Err EPrivFailure => report (msg_id h) (Some user) now DecryptionErrors 0
        | Err _ => sret (Ok nothing)
        | Ok m =>
            let p := scoped_pdu (scoped m) in
            let name := Some (user_name user) in
            match pdu_type p with
            | TrapV2 =>
                sret (let? n := parsed (Notify.parse_notification p) in
                      Ok (mkDisposition (Some (mkReceived V3 name false n)) None))
            | Inform =>
                if has_auth (security_level_of user) && negb (in_window now u)
                then report (msg_id h) (Some user) now NotInTimeWindows (request_id p)
                else
                  sret (let? n := parsed (Notify.parse_notification p) in
                        let? bs := build_response (msg_id h) user salt e (engine_id e) (ack_pdu p) in
                        Ok (mkDisposition (Some (mkReceived V3 name true n)) (Some bs)))
            | _ => sret (Ok nothing)
            end
        end
    end.

(** [TrapReceiver::handle_datagram]. *)
Definition handle_datagram (now : Z) (salt data : bytes) : St Z (result TrapDisposition Error) :=
  match peek_security data with
  | Ok (h, u) => handle_v3 now salt data h u
  | Err (EUnsupportedVersion _) => sret (handle_community data)
  | Err _ => sret (Ok nothing)
  end.
End Receiver.

(** ** [format.rs] *)

(** [Local::now()]: how chrono prints it for a specifier, and its timestamp. *)
Record LocalTime := mkLocal { strftime : Z → text; timestamp : Z }.

Definition format_uptime (n : Notify.Notification) : text :=
  str "Timeticks: (" ++ show_u (Notify.sys_uptime n) ++ str ")".

Definition format_varbinds (mib : MibRegistry) (n : Notify.Notification) : text :=
  join (str ", ") ((fun vb => format_oid mib (vb_oid vb) ++ str " = " ++ value_display (vb_value vb))
                   <$> Notify.note_varbinds n).

Section Format.
Context (mib : MibRegistry) (now : LocalTime) (peer : text).

(** What replaces [%] and the character after it. *)
Definition expand (spec : Z) (n : Notify.Notification) : text :=
  match spec with
  | 89 | 109 | 100 | 72 | 77 | 83 => strftime now spec
  | 116 => show_i (timestamp now)
  | 84 => format_uptime n
  | 87 => peer
  | 118 => format_varbinds mib n
  | 78 => format_oid mib (Notify.trap_oid n)
  | 113 => Oid.display (Notify.trap_oid n)
  | 37 => [37]
  | other => [37; other]
  end.

Fixpoint format_notification (fmt : text) (n : Notify.Notification) : text :=
  match fmt with
  | [] => []
  | c :: fmt' =>
      if c =? 37 then
        match fmt' with
        | [] => [37]
        | spec :: fmt'' => expand spec n ++ format_notification fmt'' n
        end
      else c :: format_notification fmt' n
  end.

(** ** [sink.rs] *)

Definition default_line (r : ReceivedNotification) : text :=
  let n := notification r in
  let kind := if confirmed r then str "INFORM" else str "TRAP" in
  let security := match security_name r with Some s => str "v3 user=" ++ s | None => str "v1/v2c" end in
  join (str " | ")
    ([kind ++ str " from " ++ peer ++ str " [" ++ security ++ str "]";
      str "sysUpTime.0 = Timeticks: (" ++ show_u (Notify.sys_uptime n) ++ str ")";
      str "snmpTrapOID.0 = " ++ format_oid mib (Notify.trap_oid n)]
     ++ ((fun vb => format_oid mib (vb_oid vb) ++ str " = " ++ value_display (vb_value vb))
         <$> Notify.note_varbinds n)).

Definition render_line (format : option text) (r : ReceivedNotification) : text :=
  match format with
  | Some fmt => format_notification fmt (notification r)
  | None => default_line r
  end.
End Format.

(** What the receiver sets off: a line of the log, octets appended to a file, a
    command with its input, a message for a host, the caller's callback, and a
    reply to the peer. *)
Inductive Effect :=
| Logged (line : text)
| Appended (path : text) (data : bytes)
| Spawned (command : text) (stdin : bytes)
| Forwarded (target : text) (m : result Notify.Outgoing Pdu.Error)
| Surfaced (r : ReceivedNotification) (peer : text)
| Replied (data : bytes) (peer : text).

Definition matches (rule : HandleRule) (trap_oid : Oid) : bool := Oid.is_prefix_of (oid_prefix rule) trap_oid.

Definition format_varbinds_plain (n : Notify.Notification) : text :=
  flat_map (fun vb => Oid.display (vb_oid vb) ++ str " = " ++ value_display (vb_value vb) ++ [10])
    (Notify.note_varbinds n).

(** [log] of each sink. *)
Definition file_log (path line : text) : list Effect := [Appended path (as_bytes line ++ [10])].

Definition handle_log (rules : list HandleRule) (n : Notify.Notification) : list Effect :=
  (fun rule => Spawned (command rule) (as_bytes (format_varbinds_plain n)))
    <$> List.filter (fun rule => matches rule (Notify.trap_oid n)) rules.

(** [id] is the request id of the forwarded trap. *)
Definition forward_log (id : Z) (community : bytes) (target : text) (n : Notify.Notification) : list Effect :=
  [Forwarded target (Notify.session_send_trap id V2c community (Notify.sys_uptime n) (Notify.trap_oid n)
     (Notify.note_varbinds n))].

(** [TrapSink::log]. *)
Definition log (id : Z) (line : text) (r : ReceivedNotification) (s : TrapSink) : list Effect :=
  match s with
  | StdoutSink => [Logged line]
  | FileSink path => file_log path line
  | HandleSink rules => handle_log rules (notification r)
  | ForwardSink comm target => forward_log id comm target (notification r)
  end.

(** ** The serve loop *)

(** A datagram, the address of its peer as it is printed, and what the receiver
    reads from its surroundings while it handles it. *)
Record Arrival := mkArrival {
  a_data : bytes;
  a_peer : text;
  a_uptime : Z;
  a_clock : Z;
  a_wall : Z;
  a_local : LocalTime;
  a_salt : bytes;
  a_id : Z
}.

Record ServeState := mkServing { usm_stats : Z; notiflog : option NotificationLog }.

Section Serve.
Context {R : RasnV3} {C : Crypto} (c : TrapReceiverConfig) (mib : option MibRegistry).

(** The entry's engine id is taken from the security name. *)
Definition recorded (a : Arrival) (r : ReceivedNotification) : option NotificationLog → option NotificationLog :=
  fmap (record (a_clock a) (a_wall a) (Notify.trap_oid (notification r))
          (match security_name r with Some s => as_bytes s | None => [] end) (a_peer a)).

Definition output (a : Arrival) (r : ReceivedNotification) : list Effect :=
  let line := render_line (default Mib.new mib) (a_local a) (a_peer a) (r_format c) r in
  flat_map (log (a_id a) line r) (r_sinks c) ++ [Surfaced r (a_peer a)].

(** One turn of [serve_on]: errors of the datagram, of a sink and of the reply
    are passed over. *)
Definition serve_one (a : Arrival) : St ServeState (list Effect) := fun s =>
  let '(d, stats) := handle_datagram c (a_uptime a) (a_salt a) (a_data a) (usm_stats s) in
  match d with
  | Err _ => ([], mkServing stats (notiflog s))
  | Ok d =>
      let replied := match reply d with Some bs => [Replied bs (a_peer a)] | None => [] end in
      match surfaced d with
      | None => (replied, mkServing stats (notiflog s))
      | Some r => (output a r ++ replied, mkServing stats (recorded a r (notiflog s)))
      end
  end.

Fixpoint serve_on (arrivals : list Arrival) : St ServeState (list Effect) :=
  match arrivals with
  | [] => sret []
  | a :: arrivals' =>
      let* e := serve_one a in
      let* es := serve_on arrivals' in
      sret (e ++ es)
  end.
End Serve.

(** * What is received *)

Section Receives.
Context {R : RasnV3} {L : RasnV3Laws R} {C : Crypto} {CL : CryptoLaws C} (c : TrapReceiverConfig).

(** A notification as the wire carries it. *)
Definition on_arrival (uptime : Z) (oid : Oid) (vbs : list VarBind) : Notify.Notification :=
  Notify.mkNotification uptime (pad_oid oid) (map pad_vb vbs).

Definition received (v : NotifyVersion) (name : option text) (t : PduType) (n : Notify.Notification) :=
  mkReceived v name (bool_decide (t = Inform)) n.

Section Built.
Context (t : PduType) (id uptime : Z) (oid : Oid) (vbs : list VarBind) (p : Pdu).
Context (B : Notify.build_notification t id uptime oid vbs = Ok p).

Lemma built_type : t = TrapV2 ∨ t = Inform.
Proof using B. destruct t; cbn in B; auto; done. Qed.

Lemma built_pdu : pdu_type p = t ∧ request_id p = id ∧ v1_trap p = None ∧ error_status p = 0 ∧ error_index p = 0 ∧
  variables p = mkVarBind Notify.SYSUPTIME_OID (VTimeTicks uptime) ::
    mkVarBind Notify.SNMP_TRAP_OID (VOid oid) :: vbs.
Proof using B. destruct t; cbn in B; try done; injection B as <-; done. Qed.

Lemma built_parses : parsed (Notify.parse_notification (pad_pdu p)) = Ok (on_arrival uptime oid vbs).
Proof using B. destruct t; cbn in B; try done; injection B as <-; done. Qed.

Lemma acked : wf_pdu p → sendable_pdu p = true →
  wf_pdu (ack_pdu (pad_pdu p)) ∧ sendable_pdu (ack_pdu (pad_pdu p)) = true ∧
  pad_pdu (ack_pdu (pad_pdu p)) = ack_pdu (pad_pdu p).
Proof using L.
  intros Wp Sp. unfold sendable_pdu in Sp. rewrite !andb_true_iff in Sp. destruct Sp as [[[Hs _] _] _].
  pose proof (pad_vbs_good (variables p) (wf_vars p Wp) Hs) as Hg. split_and!.
  - split; cbn; try done; try (unfold is_i64; lia); [apply Wp|]. by eapply Forall_impl; [exact Hg|intros vb []].
  - unfold sendable_pdu. cbn. rewrite !andb_true_r. apply forallb_forall. intros vb Hin.
    by apply (proj1 (List.Forall_forall _ _) Hg vb Hin).
  - unfold pad_pdu, ack_pdu, set_variables. cbn. f_equal. rewrite map_map. apply map_ext. intros [o v]. unfold pad_vb. cbn.
    rewrite pad_oid_idem. f_equal. destruct v; cbn; try done. by rewrite pad_oid_idem.
Qed.

(** A community notification is surfaced when the community is the configured
    one, or any when none is, and an inform is acknowledged with a response
    under its request id. *)
Theorem community_notification_received now salt v comm bs s :
  wf_message (mkMessage v comm p) → message_encode (mkMessage v comm p) = Ok bs →
  if accepts_community c comm then
    ∃ r, handle_datagram c now salt bs s =
        (Ok (mkDisposition (Some (received Community None t (on_arrival uptime oid vbs))) r), s) ∧
      match r with
      | None => t = TrapV2
      | Some bs' => t = Inform ∧ message_decode bs' = Ok (mkMessage v comm (ack_pdu (pad_pdu p)))
      end
  else handle_datagram c now salt bs s = (Ok nothing, s).
Proof using B L.
  intros Wm Ee. destruct built_pdu as (Et & Ei & Ev & _).
  pose proof (message_cases _ Wm) as Hc. rewrite Ee in Hc. destruct Hc as [Sm Ed].
  assert (Sp : sendable_pdu p = true).
  { unfold sendable in Sm. cbn in Sm. rewrite Et, (bool_decide_eq_false_2 (t = TrapV1)), andb_false_r in Sm; [done|].
    by destruct built_type as [-> | ->]. }
  assert (on_the_wire (mkMessage v comm p) = mkMessage v comm (pad_pdu p)) as Eo.
  { unfold on_the_wire. cbn. rewrite Ev. by destruct v, (pdu_type p). }
  rewrite Eo in Ed. unfold handle_datagram. rewrite (community_peek _ bs Wm Ee). unfold handle_community.
  rewrite Ed. cbn [community msg_pdu msg_version]. destruct (accepts_community c comm); [|done]. cbn [negb].
  change (pdu_type (pad_pdu p)) with (pdu_type p). rewrite Et, built_parses.
  destruct built_type as [-> | ->]; cbn [rbind sret].
  - by eexists.
  - destruct (acked (proj2 Wm) Sp) as (Wa & Sa & Ea).
    destruct (message_encode_back (mkMessage v comm (ack_pdu (pad_pdu p)))) as (bs' & -> & _ & Ed');
      [split; [apply Wm|done]|unfold sendable; cbn; by rewrite andb_false_r|].
    cbn [rbind]. eexists. split; [done|]. split; [done|]. rewrite Ed'. unfold on_the_wire. cbn [msg_version msg_pdu community].
    rewrite Ea. by destruct v.
Qed.

(** The time window of an inform. *)
Definition timely (e : EngineParams) (now : Z) : bool := bool_decide (engine_boots e = r_engine_boots c ∧
  Z.abs (as_u32 now - engine_time e) <= TIME_WINDOW_SECS).

Record wf_receiver : Prop := {
  wr_engine : is_bytes (r_engine_id c);
  wr_boots : is_u32 (r_engine_boots c);
  wr_users : ∀ n u, users c !! n = Some u → is_text (user_name u)
}.

Lemma receiver_engine now : wf_receiver → wf_engine (engine c now).
Proof. intros W. split; [apply W|apply W|apply as_u32_range]. Qed.

(** What every message of a known user leads to, once it has been read. *)
Lemma handle_read now salt bs h u user m s :
  peek_security bs = Ok (h, u) → u_engine_id u ≠ [] → users c !! u_user_name u = Some user →
  parse bs (Some user) = Ok m → scoped_pdu (scoped m) = pad_pdu p →
  handle_datagram c now salt bs s =
    if bool_decide (t = Inform) && has_auth (security_level_of user) && negb (in_window c now u)
    then report c (msg_id h) (Some user) now NotInTimeWindows id s
    else
      ((let? r := if bool_decide (t = Inform)
                  then (let? b := build_response (msg_id h) user salt (engine c now) (engine_id (engine c now))
                          (ack_pdu (pad_pdu p)) in Ok (Some b))
                  else Ok None in
        Ok (mkDisposition (Some (received V3 (Some (user_name user)) t (on_arrival uptime oid vbs))) r)), s).
Proof using B.
  intros Ep Hn Eu Em Epd. destruct built_pdu as (Et & Ei & _).
  unfold handle_datagram. rewrite Ep. unfold handle_v3. rewrite (bool_decide_eq_false_2 _ Hn), Eu, Em, Epd.
  change (pdu_type (pad_pdu p)) with (pdu_type p). rewrite Et, built_parses.
  destruct built_type as [-> | ->].
  - by rewrite (bool_decide_eq_false_2 (TrapV2 = Inform)).
  - rewrite (bool_decide_eq_true_2 (Inform = Inform)) by done. cbn [andb]. change (request_id (pad_pdu p)) with (request_id p).
    rewrite Ei. destruct (_ && _); [done|]. cbn [rbind sret]. unfold sret. by destruct (build_response _ _ _ _ _ _).
Qed.

(** C35. A v3 notification of a known user is surfaced with the user's name. A trap
    is taken whatever the engine it names and whenever it was sent; an inform
    of an authenticated user must name the receiver's boots and time, and is
    then acknowledged with a response that a session takes for the answer. *)
Theorem v3_notification_received now salt salt' rep mid u e ctx bs s :
  wf_receiver → users c !! as_bytes (user_name u) = Some u → is_i32 mid → is_salt salt → is_salt salt' →
  wf_engine e → engine_id e ≠ [] → is_bytes ctx → wf_pdu p →
  build_user_message mid rep u salt e ctx p = Ok bs →
  if bool_decide (t = Inform) && has_auth (security_level_of u) && negb (timely e now) then
    ∃ r m, handle_datagram c now salt' bs s = (Ok (mkDisposition None (Some r)), as_u32 (s + 1)) ∧
      parse r (Some u) = Ok m ∧ scoped_pdu (scoped m) = report_pdu id NotInTimeWindows (as_u32 (s + 1)) ∧
      has_flag (flags (header m)) FLAG_AUTH = true
  else
    ∃ r, handle_datagram c now salt' bs s =
        (Ok (mkDisposition (Some (received V3 (Some (user_name u)) t (on_arrival uptime oid vbs))) r), s) ∧
      match r with
      | None => t = TrapV2
      | Some bs' => t = Inform ∧ judge u id false bs' = Accept (ack_pdu (pad_pdu p))
      end.
Proof using B L CL.
  intros WR Hu Hm [Hsl Hsb] [Hsl' Hsb'] We Hn Hc Wp Eb. destruct built_pdu as (_ & Ei & _).
  pose proof (wr_users WR _ _ Hu) as Ht.
  assert (Sp : sendable_pdu p = true).
  { destruct (sendable_pdu p) eqn:E; [done|]. pose proof (user_message_refused mid rep u salt e ctx p Wp E) as H.
    by rewrite Eb in H. }
  destruct (user_message_back mid rep u salt e ctx p) as (bs' & tag & privp & Eb' & _ & Ek & Em & _); [done..|].
  rewrite Eb in Eb'. injection Eb' as <-. cbn zeta in Ek, Em.
  rewrite (handle_read now salt' bs _ _ u _ s Ek Hn Hu Em eq_refl).
  assert (in_window c now (usm (user_message mid rep u e ctx p tag privp)) = timely e now) as ->.
  { unfold in_window, timely. cbn. apply eq_true_iff_eq. by rewrite andb_true_iff, Z.eqb_eq, Z.leb_le, bool_decide_eq_true. }
  destruct (_ && negb _) eqn:Ew.
  - apply andb_true_iff in Ew as [[_ Ha]%andb_true_iff _].
    destruct (report_back mid (Some u) (engine c now) NotInTimeWindows (as_u32 (s + 1)) id)
      as (r & m & E & _ & Eh & _ & _ & _ & Epd & Epm & _);
      [done|by apply receiver_engine|rewrite <- Ei; apply Wp|apply as_u32_range|by intros ? [= <-]|].
    exists r, m. unfold report, sbind, next_stat, sret. cbn [header msg_id usm_header user_message]. rewrite E. cbn [rbind].
    rewrite Eh, Ha. by split_and!.
  - destruct built_type as [-> | ->].
    + rewrite (bool_decide_eq_false_2 (TrapV2 = Inform)) by done. by exists None.
    + rewrite (bool_decide_eq_true_2 (Inform = Inform)) by done.
      destruct (acked Wp Sp) as (Wa & Sa & Ea).
      destruct (user_message_back mid false u salt' (engine c now) (engine_id (engine c now)) (ack_pdu (pad_pdu p)))
        as (r & tag' & privp' & Er & _ & _ & Em' & _); [done..|by apply receiver_engine|apply WR|done|done|].
      unfold build_response. cbn [header msg_id usm_header user_message]. rewrite Er. cbn [rbind].
      exists (Some r). split; [done|]. split; [done|]. unfold judge. rewrite Em'. cbn [scoped user_message scoped_pdu].
      rewrite Ea. rewrite bool_decide_eq_false_2 by done. cbn [ack_pdu set_variables new_pdu request_id pad_pdu].
      by rewrite Ei, Z.eqb_refl.
Qed.
End Built.
End Receives.

(** ** Legacy traps and keyless notifications *)

Section Others.
Context {R : RasnV3} {L : RasnV3Laws R} {C : Crypto} {CL : CryptoLaws C} (c : TrapReceiverConfig).

(** A v1 trap is surfaced under snmpTraps for the six generic traps and under
    the enterprise, with a zero between them, for every other code. *)
Theorem v1_trap_received now salt comm ent addr generic specific uptime vbs bs s :
  let m := mkMessage V1 comm (Notify.build_v1_trap ent addr generic specific uptime vbs) in
  wf_message m → message_encode m = Ok bs → accepts_community c comm = true →
  let identity := if (0 <=? generic) && (generic <=? 5) then Notify.SNMP_TRAPS_OID ++ [generic]
                  else pad_oid ent ++ [0; specific] in
  handle_datagram c now salt bs s =
    (Ok (mkDisposition (Some (mkReceived Community None false
      (Notify.mkNotification uptime identity (map v1_vb vbs)))) None), s).
Proof using L.
  intros m Wm Ee Hc. pose proof (message_cases _ Wm) as Hm. rewrite Ee in Hm. destruct Hm as [_ Ed].
  unfold handle_datagram. rewrite (community_peek _ bs Wm Ee). unfold handle_community.
  rewrite Ed. cbn [m Notify.build_v1_trap on_the_wire msg_version msg_pdu pdu_type new_v1_trap v1_trap community variables].
  rewrite Hc. cbn.
  unfold v1_generic_trap_oid, Notify.v1_generic_trap_to_oid. cbn. by destruct (_ && _).
Qed.

(** The generic code is one less than the arc of the trap it stands for: a v1
    warmStart carries the identity of coldStart, and a v1 coldStart one that no
    trap has. *)
Lemma v1_warm_start_is_cold_start ent addr u vbs :
  let identity g := v1_generic_trap_oid (Notify.mkV1Notification ent addr g 0 u vbs) in
  let rule := mkRule Notify.COLD_START_OID (str "handler") in
  identity 1 = Notify.COLD_START_OID ∧ matches rule (identity 1) = true ∧ matches rule (identity 0) = false.
Proof. by split_and!. Qed.

(** A notification that names a user of the table and claims no security is
    built without any key, and is surfaced under that user's name. *)
Theorem keyless_notification_is_surfaced now salt salt' mid name u e uptime oid vbs id p s :
  wf_receiver c → users c !! as_bytes name = Some u → user_name u = name → is_i32 mid → is_salt salt →
  wf_engine e → engine_id e ≠ [] → Notify.build_notification TrapV2 id uptime oid vbs = Ok p → wf_pdu p →
  sendable_pdu p = true →
  ∃ bs, build_user_message mid false (noauth_user name) salt e [] p = Ok bs ∧
    handle_datagram c now salt' bs s =
      (Ok (mkDisposition (Some (mkReceived V3 (Some name) false (on_arrival uptime oid vbs))) None), s).
Proof using L CL.
  intros WR Hu <- Hm [Hsl Hsb] We Hn B Wp Sp. pose proof (wr_users c WR _ _ Hu) as Ht.
  destruct (build_message_back mid false NoAuthNoPriv (as_bytes (user_name u)) salt e [] None None p u)
    as (bs & tag & privp & Eb & _ & Ek & Em & _);
    [done|by apply is_bytes_as_bytes|done|done|done|by constructor|done|done|done|done|].
  cbn zeta in Ek, Em. exists bs. split; [exact Eb|].
  rewrite (handle_read c TrapV2 id uptime oid vbs p B now salt' bs _ _ u _ s Ek Hn Hu Em eq_refl). done.
Qed.
End Others.

(** * The loop *)

Definition surfaced_of (e : Effect) : option (ReceivedNotification * text) :=
  match e with Surfaced r peer => Some (r, peer) | _ => None end.

(** The row of the log that a surfaced notification leaves. *)
Definition logged (h : Notiflog.Arrival) (x : ReceivedNotification * text) : Prop :=
  let '(_, _, o, e, from) := h in
  o = Notify.trap_oid (notification x.1) ∧ from = x.2 ∧
  e = match security_name x.1 with Some n => as_bytes n | None => [] end.

Section Loop.
Context {R : RasnV3} {C : Crypto} (c : TrapReceiverConfig) (mib : option MibRegistry).

Lemma sinks_surface_nothing id line r ss : omap surfaced_of (flat_map (log id line r) ss) = [].
Proof.
  induction ss as [|s ss IH]; cbn [flat_map]; [done|]. rewrite omap_app, IH, app_nil_r.
  destruct s; try done. cbn. unfold handle_log. by induction (List.filter _ _).
Qed.

Lemma serve_one_logged a s l0 : notiflog s = Some l0 →
  ∃ hs e s', serve_one c mib a s = (e, s') ∧ notiflog s' = Some (record_all hs l0) ∧
    Forall2 logged hs (omap surfaced_of e).
Proof.
  intros Hl. unfold serve_one. destruct (handle_datagram _ _ _ _ _) as [[d|err] stats].
  2:{ exists [], [], (mkServing stats (notiflog s)). by split_and!. }
  assert (Replies : omap surfaced_of (match reply d with Some bs => [Replied bs (a_peer a)] | None => [] end) = [])
    by (by destruct (reply d)).
  destruct (surfaced d) as [r|].
  - eexists [(a_clock a, a_wall a, Notify.trap_oid (notification r),
      match security_name r with Some n => as_bytes n | None => [] end, a_peer a)], _, _.
    split; [done|]. split; [cbn; by rewrite Hl|].
    unfold output. rewrite !omap_app, Replies, sinks_surface_nothing. cbn. by repeat constructor.
  - eexists [], _, _. split; [done|]. split; [done|]. by rewrite Replies.
Qed.

Lemma serve_on_logged arrivals : ∀ s l0, notiflog s = Some l0 →
  ∃ hs e s', serve_on c mib arrivals s = (e, s') ∧ notiflog s' = Some (record_all hs l0) ∧
    Forall2 logged hs (omap surfaced_of e).
Proof.
  induction arrivals as [|a arrivals IH]; intros s l0 Hl; cbn [serve_on].
  { exists [], [], s. by split_and!. }
  destruct (serve_one_logged a s l0 Hl) as (h1 & e1 & s1 & E1 & L1 & F1).
  destruct (IH s1 _ L1) as (h2 & e2 & s2 & E2 & L2 & F2).
  unfold sbind. rewrite E1, E2. exists (h1 ++ h2), (e1 ++ e2), s2. split; [done|]. split.
  - rewrite L2. unfold record_all. by rewrite fold_left_app.
  - rewrite omap_app. by apply Forall2_app.
Qed.

(** Whatever arrives, the loop goes on to the last datagram, and the log then
    holds the newest of the notifications handed to the caller, in their order,
    as many as its capacity (one when that is none), numbered by arrival. *)
Theorem log_holds_the_newest arrivals stats cap start :
  ∃ hs effects s', serve_on c mib arrivals (mkServing stats (Some (Notiflog.new cap start))) = (effects, s') ∧
    notiflog s' = Some (mkLog (drop (length hs - max cap 1) (imap (entry_of start) hs)) cap start) ∧
    Forall2 logged hs (omap surfaced_of effects).
Proof.
  destruct (serve_on_logged arrivals (mkServing stats (Some (Notiflog.new cap start))) _ eq_refl)
    as (hs & e & s' & E & El & F).
  exists hs, e, s'. split; [done|]. split; [|done]. by rewrite El, record_all_newest.
Qed.
End Loop.

(** * The format string *)

(** A format as it is meant: a character, or one of the specifiers. *)
Inductive piece := Literal (c : Z) | Field (spec : Z).

Definition write_piece (x : piece) : text :=
  match x with
  | Literal c => if c =? 37 then [37; 37] else [c]
  | Field spec => [37; spec]
  end.

Definition read_piece (mib : MibRegistry) (now : LocalTime) (peer : text) (n : Notify.Notification) (x : piece) : text :=
  match x with
  | Literal c => [c]
  | Field spec => expand mib now peer spec n
  end.

(** A format that writes literal percent signs twice is expanded piece by piece;
    in particular every text can be had literally. *)
Theorem format_expands_pieces mib now peer pieces n :
  format_notification mib now peer (flat_map write_piece pieces) n = flat_map (read_piece mib now peer n) pieces.
Proof.
  induction pieces as [|x xs IH]; [done|]. cbn [flat_map]. rewrite <- IH.
  destruct x as [c|spec]; cbn [write_piece read_piece].
  - destruct (Z.eqb_spec c 37) as [->|Hc]; [done|]. cbn. by rewrite (proj2 (Z.eqb_neq _ _) Hc).
  - done.
Qed.
