(* ===== verification/Proxy.v ===== *)
(** * The proxy forwarder ([crates/netsnmp-agent/src/proxy.rs])

    A handler that serves a subtree by asking another agent: every call opens
    a session of its own to the target. The sessions are those of [Session],
    over whatever transport leads to the target; its world and the process's
    request counter are the handler's world. Registered names are the ones
    forwarded. *)

From Stdlib Require Import ZArith Lia.
From S2P Require Import Prelude MachineInts Text Oid Value Pdu Config Cells Handler Vacm Registry Serving.
From S2P Require Import Wire Usm V3 Agent Session Manager.

Local Open Scope list_scope.

(** [V3Config]; the timeout in nanoseconds. *)
Record V3Config := mkV3Config { v3_user : UsmUser; v3_timeout : Z; v3_retries : Z }.

(** [ProxyForwarder]. *)
Record ProxyForwarder := mkProxy {
  root : Oid;
  target_addr : text;
  community : bytes;
  version : Version;
  context : option text;
  snmpv3 : option V3Config
}.

Definition new (root : Oid) (target_addr : text) (community : bytes) : ProxyForwarder :=
  mkProxy root target_addr community V2c None None.

Definition with_version (v : Version) (p : ProxyForwarder) : ProxyForwarder :=
  mkProxy (root p) (target_addr p) (community p) v (context p) (snmpv3 p).

Definition with_v3 (v3 : V3Config) (p : ProxyForwarder) : ProxyForwarder :=
  mkProxy (root p) (target_addr p) (community p) (version p) (context p) (Some v3).

Definition with_context (c : text) (p : ProxyForwarder) : ProxyForwarder :=
  mkProxy (root p) (target_addr p) (community p) (version p) (Some c) (snmpv3 p).

(** ** Directives *)

(** The body of the loop of [from_directives]. *)
Definition from_directive (d : Directive) : option ProxyForwarder :=
  if negb (is_token d (str "proxy")) then None
  else
    let '(ctx, rest) :=
      match args d with
      | flag :: c :: rest => if bool_decide (flag = str "-Cn") then (Some c, rest) else (None, args d)
      | _ => (None, args d)
      end in
    match rest with
    | comm :: host :: rest =>
        let root :=
          match rest with
          | o :: _ => match Oid.from_str o with Ok r => r | Err _ => [1; 3; 6; 1] end
          | [] => [1; 3; 6; 1]
          end in
        let p := new root host (as_bytes comm) in
        Some (match ctx with Some c => with_context c p | None => p end)
    | _ => None
    end.

Definition from_directives (ds : list Directive) : list ProxyForwarder := omap from_directive ds.

(** The first existing root that the new one overlaps; the message that names
    the two is left out. *)
Definition check_conflicts (existing : list Oid) (new_root : Oid) : result unit Oid :=
  match find (fun e => Oid.is_prefix_of e new_root || Oid.is_prefix_of new_root e) existing with
  | Some e => Err e
  | None => Ok tt
  end.

(** ** Forwarding *)

Definition no_value (v : Value) : bool :=
  match v with VNoSuchObject | VNoSuchInstance | VEndOfMibView => true | _ => false end.

Section Forwarding.
Context {R : RasnV3} {C : Crypto} {W : Type} {T : Transport W}.
(** Opening a socket to the target, and the clock that may seed the counter. *)
Context (connect : text → St W (result unit Error)) (nanos : Z) (p : ProxyForwarder).

(** The configuration of [open_v2c]. *)
Definition session_config : SessionConfig := mkSession (version p) (community p) 2000000000 1.

Definition open_v2c : St (Client W) (result unit Error) := on_net (connect (target_addr p)).

(** [V3Session::open_udp] and one call on the session, which is dropped after it. *)
Definition with_session {A} (v : V3Config) (call : St (V3State W) (result A Error)) : St (Client W) (result A Error) :=
  let+ _ := on_net (connect (target_addr p)) in
  fun s =>
    let '(r, s1) := v3_open (v3_timeout v) nanos s in
    match r with
    | Err e => (Err e, client s1)
    | Ok _ => let '(x, s2) := call s1 in (x, client s2)
    end.

Definition forward_get (o : Oid) : St (Client W) (option Value) :=
  let* r :=
    match snmpv3 p with
    | Some v => with_session v (v3_get_one (v3_user v) (v3_timeout v) (v3_retries v) nanos o)
    | None => let+ _ := open_v2c in get_one session_config nanos o
    end in
  sret (match r with
        | Err _ => None
        | Ok value => if no_value value then None else Some value
        end).

Definition forward_get_next (o : Oid) : St (Client W) (option Reading) :=
  let* r :=
    match snmpv3 p with
    | Some v => with_session v (v3_get_next (v3_user v) (v3_timeout v) (v3_retries v) nanos [o])
    | None => let+ _ := open_v2c in Session.get_next session_config nanos [o]
    end in
  sret (match r with
        | Ok (vb :: _) => if no_value (vb_value vb) then None else Some (mkReading (vb_oid vb) (vb_value vb))
        | _ => None
        end).

Definition forward_set (o : Oid) (value : Value) : St (Client W) status_result :=
  let* r :=
    match snmpv3 p with
    | Some v => with_session v (v3_set (v3_user v) (v3_timeout v) (v3_retries v) nanos [mkVarBind o value])
    | None => let+ _ := open_v2c in Session.set session_config nanos [mkVarBind o value]
    end in
  sret (match r with Ok _ => Ok tt | Err _ => Err GenErr end).

Definition handler : MibHandler (Client W) :=
  mkHandler (root p) forward_get forward_get_next default_prepare_set (default_commit_set forward_set) default_undo_set.
End Forwarding.

(** [register_proxy_mibs]. *)
Definition register_proxy_mibs {R : RasnV3} {C : Crypto} {W} {T : Transport W} (connect : text → St W (result unit Error))
    (nanos : Z) (ps : list ProxyForwarder) (hs : list (MibHandler (Client W))) : list (MibHandler (Client W)) :=
  fold_left (fun hs p => register hs (handler connect nanos p)) ps hs.

(** * What a proxied agent looks like *)

(** The value a handler would return for a name of the cells a manager may read. *)
Definition visible_get (allowed : Oid → bool) (cs : cells) (o : Oid) : option Value :=
  if allowed o then lookup_cell o cs else None.

Definition visible_successor (allowed : Oid → bool) (cs : cells) (o : Oid) : option Reading :=
  to_reading <$> find (fun c => Oid.ltb o c.1 && allowed c.1) cs.

(** A handler that passes on what another agent answers: its cells that a
    manager may read, over the whole of that agent. *)
Class Forwards {S} (h : MibHandler S) (ok : S → Prop) (askable : Oid → Prop) (allowed : Oid → bool) (cs : cells)
    : Prop := {
  fw_get s o : ok s → askable o → ∃ s', Handler.get h o s = (visible_get allowed cs o, s') ∧ ok s';
  fw_next s o : ok s → askable o → ∃ s', Handler.get_next h o s = (visible_successor allowed cs o, s') ∧ ok s';
}.

(** The successor is within the subtree, or there is none at all. *)
Definition stays_within (root : Oid) (r : option Reading) : Prop :=
  match r with Some r => Oid.is_prefix_of root (reading_oid r) = true | None => True end.

(** The part of that which is a handler's: GET of any name, and GETNEXT where
    the other agent's next cell belongs to the handler's subtree. *)
Class Mirrors {S} (h : MibHandler S) (ok : S → Prop) (askable : Oid → Prop) (allowed : Oid → bool) (cs : cells)
    : Prop := {
  mr_get s o : ok s → askable o → ∃ s', Handler.get h o s = (visible_get allowed cs o, s') ∧ ok s';
  mr_next s o : ok s → askable o → stays_within (Handler.root h) (visible_successor allowed cs o) →
    ∃ s', Handler.get_next h o s = (visible_successor allowed cs o, s') ∧ ok s';
}.

Lemma forwards_mirrors {S} (h : MibHandler S) ok askable allowed cs :
  Forwards h ok askable allowed cs → Mirrors h ok askable allowed cs.
Proof. intros F. split; [apply F|]. intros s o Hs Ho _. by apply F. Qed.

Lemma no_value_data v : is_exception v = false → no_value v = false.
Proof. by destruct v. Qed.

Section Steady.
Context {R : RasnV3} {L : RasnV3Laws R} {C : Crypto} {CL : CryptoLaws C}.
Context {W : Type} (a : Agent W) (fuel : nat) (boot limit : Z).
Context {inv : W → Prop} {eqv : relation W} {view : MibHandler W → W → cells}.
Context {M : Managed a fuel inv eqv view} (w0 : W) (Hw0 : inv w0).
Context (nanos : Z) (p : ProxyForwarder).

#[local] Instance target_link : Transport (Link W) := link a fuel boot.

Abbreviation served := (served_to a (view:=view)).
Abbreviation remote := (mib view (registry a) w0).

(** The socket to the target opens. *)
Definition connected_to (_ : text) : St (Link W) (result unit Error) := sret (Ok tt).

Definition proxy_handler : MibHandler (Client (Link W)) := handler connected_to nanos p.

Lemma remote_data c : c ∈ remote → is_exception c.2 = false.
Proof using M Hw0. intros Hc. by destruct (@mg_cells _ _ _ _ _ _ _ M w0 c Hw0 Hc) as (_ & H & _). Qed.

(** What the answer to a GET of one name holds. *)
Lemma served_get sec id o : nameable o →
  let resp := served sec w0 (pad_pdu (with_request_id id (query Get 0 0 [o]))) in
  if allows (sec w0) Read o
  then checked resp = Ok resp ∧ variables resp = [mkVarBind o (answer_get (Handler.root <$> registry a) remote o)]
  else checked resp = Err (ESnmpError NoAccess 1).
Proof using M Hw0.
  intros Ho. unfold served_to, serve. cbn [pad_pdu with_request_id query pdu_type variables map]. cbn -[allows answer_get].
  rewrite !(pad_oid_long o) by apply Ho. destruct (allows (sec w0) Read o); cbn -[answer_get]; [|done]. split; [done|].
  f_equal. apply pad_vb_long. split; [apply Ho|]. cbn -[answer_get]. unfold answer_get.
  destruct (lookup_cell o remote) as [v|] eqn:E; [|by destruct (existsb _ _)].
  apply lookup_cell_Some in E; [|by apply mib_sorted].
  by destruct (@mg_cells _ _ _ _ _ _ _ M w0 _ Hw0 E) as (_ & _ & H).
Qed.

Lemma shown_get o : (if no_value (answer_get (Handler.root <$> registry a) remote o) then None
    else Some (answer_get (Handler.root <$> registry a) remote o)) = lookup_cell o remote.
Proof using M Hw0.
  unfold answer_get. destruct (lookup_cell o remote) as [v|] eqn:E; [|by destruct (existsb _ _)].
  apply lookup_cell_Some in E; [|by apply mib_sorted]. by rewrite no_value_data by exact (remote_data (o, v) E).
Qed.

Lemma shown_next allowed o :
  let vb := visible_next allowed remote o in
  (if no_value (vb_value vb) then None else Some (mkReading (vb_oid vb) (vb_value vb))) = visible_successor allowed remote o.
Proof using M Hw0.
  cbn zeta. unfold visible_next, visible_successor. destruct (find _ _) as [c|] eqn:E; [|done].
  apply find_some in E as [Hc%list_elem_of_In _]. cbn. by rewrite no_value_data by exact (remote_data c Hc).
Qed.

(** ** Over a community session *)

Section Community.
Context (Hc : community p = cfg_community (config a)) (Hb : is_bytes (community p)) (Ht : limit <= 2000000000).
Context (H3 : snmpv3 p = None).

Abbreviation ok := (connected (inv:=inv) (eqv:=eqv) boot limit w0).
Abbreviation sec := (community_sec a (session_config p)).

(** Every GET and GETNEXT of a proxy over a community session is answered from
    the cells that the community may read, wherever they lie. *)
Theorem community_proxy_forwards : Forwards proxy_handler ok nameable (allows (sec w0) Read) remote.
Proof using All.
  split; intros s o Hs Ho; unfold proxy_handler, handler; cbn [Handler.get Handler.get_next].
  - unfold forward_get, get_one, get, checked_request. rewrite H3.
    destruct (community_request a fuel boot limit w0 Hw0 (session_config p) nanos Hc Hb Ht (query Get 0 0 [o]) s Hs)
      as (id & s' & E & Hs'); [by apply query_askable|].
    pose proof (served_get sec id o Ho) as Hg. cbn zeta in Hg.
    unfold ebind, sbind, open_v2c, on_net, connected_to, sret. cbn -[request allows served_to]. destruct s as [l n].
    cbn [net request_counter] in *. unfold agent_link in E. unfold target_link. rewrite E.
    exists s'. split; [|done]. unfold visible_get.
    destruct (allows _ _ _).
    + destruct Hg as [-> ->]. cbn [first_value vb_value]. by rewrite shown_get.
    + by rewrite Hg.
  - unfold forward_get_next. rewrite H3.
    pose proof (community_next a fuel boot limit w0 Hw0 (session_config p) nanos Hc Hb Ht) as N.
    destruct s as [l n]. destruct (ns_next _ o Hs Ho) as (s' & E & Hs').
    unfold ebind, sbind, open_v2c, on_net, connected_to, sret. cbn -[Session.get_next allows visible_next].
    cbn [net request_counter] in *. unfold agent_link in E. unfold target_link. rewrite E.
    exists s'. split; [|done]. by rewrite shown_next.
Qed.
End Community.

(** ** Over a v3 session *)

Section Secure.
Context (v : V3Config) (H3 : snmpv3 p = Some v).
Context (Hu : users a !! as_bytes (user_name (v3_user v)) = Some (v3_user v)) (Hn : cfg_engine_id (config a) ≠ []).
Context (Ht : limit <= v3_timeout v) (Hlim : limit <= 74 * SECOND).

Abbreviation sec := (user_sec a (v3_user v)).
Abbreviation opened := (ready (inv:=inv) (eqv:=eqv) a boot limit w0 (v3_user v)).

(** What holds of the transport before and after every call. *)
Definition at_hand (s : Client (Link W)) : Prop := steady inv eqv boot limit w0 (net s) ∧ counter_ok s.

Lemma ready_at_hand s : opened s → at_hand (client s).
Proof. intros [Hq _]. split; apply Hq. Qed.

Lemma session_opened {A} (call : St (V3State (Link W)) (result A Error)) r s : at_hand s →
  (∀ s1, opened s1 → ∃ s2, call s1 = (r, s2) ∧ at_hand (client s2)) →
  ∃ s', with_session connected_to nanos p v call s = (r, s') ∧ at_hand s'.
Proof using All.
  intros [Hs Hctr] Hcall. destruct s as [l n].
  destruct (discovered a fuel boot limit w0 Hw0 (v3_user v) Hu Hn (v3_timeout v) (v3_retries v) nanos Ht Hlim _ Hs Hctr) as (s1 & E & H1).
  destruct (Hcall s1 H1) as (s2 & E2 & H2). exists (client s2). split; [|done].
  unfold with_session, ebind, sbind, on_net, connected_to, sret. cbn -[v3_open].
  unfold agent_link3 in E. unfold target_link. by rewrite E, E2.
Qed.

(** A proxy over a v3 session discovers the agent's engine anew for every call,
    and is answered from the cells that its user may read. *)
Lemma v3_proxy_forwards : Forwards proxy_handler at_hand nameable (allows (sec w0) Read) remote.
Proof using All.
  split; intros s o Hs Ho; unfold proxy_handler, handler; cbn [Handler.get Handler.get_next].
  - unfold forward_get. rewrite H3.
    destruct (session_opened (v3_get_one (v3_user v) (v3_timeout v) (v3_retries v) nanos o)
      (if allows (sec w0) Read o then Ok (answer_get (Handler.root <$> registry a) remote o)
       else Err (ESnmpError NoAccess 1)) s Hs) as (s' & E & Hs').
    { intros s1 H1. destruct (v3_request_answered a fuel boot limit w0 Hw0 (v3_user v) Hu Hn (v3_timeout v) (v3_retries v)
        nanos Ht Hlim (query Get 0 0 [o]) s1) as (id & s2 & E & _ & H2); [apply H1|by apply query_askable|by left|].
      exists s2. split; [|apply ready_at_hand; auto].
      pose proof (served_get sec id o Ho) as Hg. cbn zeta in Hg.
      unfold v3_get_one, v3_get, v3_checked_request, ebind, sbind. unfold agent_link3 in E. unfold target_link.
      rewrite E. unfold sret. destruct (allows _ _ _).
      + destruct Hg as [-> ->]. done.
      + by rewrite Hg. }
    unfold sbind. rewrite E. exists s'. split; [|done]. unfold visible_get, sret. destruct (allows _ _ _); [|done].
    by rewrite shown_get.
  - unfold forward_get_next. rewrite H3.
    destruct (session_opened (v3_get_next (v3_user v) (v3_timeout v) (v3_retries v) nanos [o])
      (Ok [visible_next (allows (sec w0) Read) remote o]) s Hs) as (s' & E & Hs').
    { intros s1 H1. pose proof (v3_next a fuel boot limit w0 Hw0 (v3_user v) Hu Hn (v3_timeout v) (v3_retries v) nanos Ht Hlim) as N.
      destruct (ns_next _ o H1 Ho) as (s2 & E & H2). exists s2. split; [exact E|by apply ready_at_hand]. }
    unfold sbind. rewrite E. exists s'. split; [|done]. unfold sret. by rewrite shown_next.
Qed.

(** C34. A proxy over a v3 session discovers the agent's engine anew for every call. A
    GET is answered from the cells of the agent that its user may read, a
    GETNEXT with the next of them when that lies in the proxied subtree, and
    with none when there is none. When the next one lies outside, the handler
    should have no successor and has one: [successor_leaves_the_root]. *)
Theorem v3_proxy_mirrors : Mirrors proxy_handler at_hand nameable (allows (sec w0) Read) remote.
Proof using All. apply forwards_mirrors, v3_proxy_forwards. Qed.
End Secure.
End Steady.

(** A GETNEXT is not kept within the registered root, as [MibHandler::get_next]
    asks of a handler: past the last cell below it, the target's next cell is
    returned from wherever it lies. *)
Lemma successor_leaves_the_root {S} (h : MibHandler S) ok askable allowed cs s o c :
  Forwards h ok askable allowed cs → ok s → askable o →
  find (fun c => Oid.ltb o c.1 && allowed c.1) cs = Some c → Oid.is_prefix_of (Handler.root h) c.1 = false →
  ∃ r, (Handler.get_next h o s).1 = Some r ∧ Oid.is_prefix_of (Handler.root h) (reading_oid r) = false.
Proof.
  intros Mr Hs Ho Ef Hp. destruct (fw_next s o Hs Ho) as (s' & -> & _). unfold visible_successor. rewrite Ef. by eexists.
Qed.
