(* ===== verification/MibTables.v ===== *)
(** * Configuration as read-only tables ([crates/netsnmp-agent/src/mibgroup/])

    The VACM tables of [vacm.rs], the target and notification tables of
    [notify.rs] and the [setSerialNo] scalar of [set_serial.rs]: the cells that
    the snapshots of [Vacm] and [NotifyConfig] are turned into, under
    length-prefixed indexes. *)

From Stdlib Require Import ZArith Lia.
From S2P Require Import Prelude MachineInts Text Oid Value Pdu Config Cells Handler Snapshots Scalar Vacm.
From S2P Require Notify Notiflog.

Local Open Scope list_scope.

(** ** Indexes *)

(** [string_index] and [oid_index]. *)
Definition string_index (b : bytes) : Oid := as_u32 (Z.of_nat (length b)) :: b.
Definition oid_index (o : Oid) : Oid := as_u32 (Z.of_nat (length o)) :: o.

Definition STORAGE_VOLATILE : Z := 2.
Definition STATUS_ACTIVE : Z := 1.
Definition storage : Value := VInteger STORAGE_VOLATILE.
Definition active : Value := VInteger STATUS_ACTIVE.

(** ** [vacm.rs] *)

Definition VACM_CONTEXT_ENTRY : Oid := [1; 3; 6; 1; 6; 3; 16; 1; 1].
Definition VACM_S2G_ENTRY : Oid := [1; 3; 6; 1; 6; 3; 16; 1; 2; 1].
Definition VACM_ACCESS_ENTRY : Oid := [1; 3; 6; 1; 6; 3; 16; 1; 4; 1].
Definition VACM_VIEW_ENTRY : Oid := [1; 3; 6; 1; 6; 3; 16; 1; 5; 2; 1].

(** One row: the values of its columns at its index. *)
Definition row_cells (entry idx : Oid) (cols : list (Z * Value)) : cells :=
  (fun c => (entry ++ c.1 :: idx, c.2)) <$> cols.

Definition context_cells (v : Vacm) : cells :=
  flat_map (fun ctx => row_cells VACM_CONTEXT_ENTRY (string_index ctx) [(1, VOctetString ctx)]) (sorted_contexts v).

Definition group_index (g : VacmGroup) : Oid := as_u32 (g_model g) :: string_index (g_name g).

Definition s2g_cells (v : Vacm) : cells :=
  flat_map (fun g => row_cells VACM_S2G_ENTRY (group_index g)
    [(3, VOctetString (g_group g)); (4, storage); (5, active)]) (groups v).

Definition access_index (a : VacmAccess) : Oid :=
  string_index (a_group a) ++ string_index (a_context_prefix a) ++ [as_u32 (a_model a); as_u32 (a_level a)].

Definition view_or_empty (n : option bytes) : Value := VOctetString (default [] n).

Definition access_cells (v : Vacm) : cells :=
  flat_map (fun a => row_cells VACM_ACCESS_ENTRY (access_index a)
    [(4, VInteger (match a_match a with Exact => 1 | Prefix => 2 end)); (5, view_or_empty (a_read a));
     (6, view_or_empty (a_write a)); (7, view_or_empty (a_notify a)); (8, storage); (9, active)]) (access v).

(** [Vacm::views]. *)
Definition sorted_views (v : Vacm) : list (bytes * list VacmView) :=
  sort_by (fun a b => Oid.leb a.1 b.1) (map_to_list (views v)).

Definition view_index (n : bytes) (w : VacmView) : Oid := string_index n ++ oid_index (subtree w).

Definition view_cells (v : Vacm) : cells :=
  flat_map (fun '(n, rows) => flat_map (fun w => row_cells VACM_VIEW_ENTRY (view_index n w)
    [(3, VOctetString (mask w)); (4, VInteger (family_code (typ w))); (5, storage); (6, active)]) rows) (sorted_views v).

(** [vacm_handlers]: the handlers and the providers of their cells. *)
Definition vacm_tables : list (MibHandler FnHandler.state * (Vacm → cells)) := [
  (FnHandler.handler VACM_CONTEXT_ENTRY, context_cells);
  (FnHandler.handler VACM_S2G_ENTRY, s2g_cells);
  (FnHandler.handler VACM_ACCESS_ENTRY, access_cells);
  (FnHandler.handler VACM_VIEW_ENTRY, view_cells)].

(** ** [notify.rs] *)

Definition TARGET_ADDR_ENTRY : Oid := [1; 3; 6; 1; 6; 3; 12; 1; 2; 1].
Definition TARGET_PARAMS_ENTRY : Oid := [1; 3; 6; 1; 6; 3; 12; 1; 3; 1].
Definition NOTIFY_ENTRY : Oid := [1; 3; 6; 1; 6; 3; 13; 1; 1; 1].
Definition SNMP_UDP_DOMAIN : Oid := [1; 3; 6; 1; 6; 1; 1].

(** The same text as in [notiflog.rs]. *)
Definition udp_address (host_port : text) : bytes := Notiflog.udp_address host_port.

(** The timeout in hundredths of a second. *)
Definition target_addr_cells (c : Notify.NotifyConfig) : cells :=
  flat_map (fun t =>
    let name := as_bytes (Notify.target_name t) in
    row_cells TARGET_ADDR_ENTRY (string_index name)
    [(2, VOid SNMP_UDP_DOMAIN); (3, VOctetString (udp_address (Notify.address t)));
     (4, VTimeTicks (as_u32 (Notify.timeout t * 1000 / 10))); (5, VInteger (Notify.retries t));
     (6, VOctetString name); (7, VOctetString (as_bytes (Notify.target_params t))); (8, storage); (9, active)])
    (Notify.targets c).

Definition target_params_cells (c : Notify.NotifyConfig) : cells :=
  flat_map (fun p => row_cells TARGET_PARAMS_ENTRY (string_index (as_bytes (Notify.params_name p)))
    [(2, VInteger (Notify.mp_model p)); (3, VInteger (Notify.security_model p));
     (4, VOctetString (Notify.security_name p)); (5, VInteger (Notify.security_level p)); (6, storage); (7, active)])
    (Notify.params c).

Definition notify_cells (c : Notify.NotifyConfig) : cells :=
  flat_map (fun n => row_cells NOTIFY_ENTRY (string_index (as_bytes (Notify.notify_name n)))
    [(2, VOctetString (as_bytes (Notify.notify_tag n))); (3, VInteger (Notify.notify_type_int (Notify.notify_typ n)));
     (4, storage); (5, active)]) (Notify.notifies c).

(** [notify_handlers]. *)
Definition notify_tables : list (MibHandler FnHandler.state * (Notify.NotifyConfig → cells)) := [
  (FnHandler.handler TARGET_ADDR_ENTRY, target_addr_cells);
  (FnHandler.handler TARGET_PARAMS_ENTRY, target_params_cells);
  (FnHandler.handler NOTIFY_ENTRY, notify_cells)].

(** ** [set_serial.rs] *)

Module SetSerial.

Definition SET_SERIAL_NO : Oid := [1; 3; 6; 1; 6; 3; 1; 1; 6; 1].
Definition instance : Oid := Oid.child SET_SERIAL_NO 0.

Definition integer_value (v : Value) : option Z :=
  match v with
  | VInteger n | VCounter32 n | VGauge32 n | VTimeTicks n => Some n
  | VCounter64 n => Some (as_i64 n)
  | _ => None
  end.

(** The state is the shared counter. *)
Definition get (o : Oid) : St Z (option Value) := fun n =>
  (if Oid.eqb o instance then Some (VInteger n) else None, n).

Definition get_next (o : Oid) : St Z (option Reading) := fun n =>
  (if Oid.ltb o instance then Some (mkReading instance (VInteger n)) else None, n).

Definition prepare_set (o : Oid) (v : Value) : St Z status_result :=
  sret (if negb (Oid.eqb o instance) then Err NoCreation
        else match integer_value v with
             | Some n => if negb ((0 <=? n) && (n <=? 2147483647)) then Err WrongValue else Ok tt
             | None => Err WrongType
             end).

Definition commit_set (o : Oid) (v : Value) : St Z status_result := fun s =>
  if negb (Oid.eqb o instance) then (Err NoCreation, s)
  else match integer_value v with
       | Some n => (Ok tt, Z.max 0 (Z.min n 2147483647))
       | None => (Err WrongType, s)
       end.

Definition handler : MibHandler Z := mkHandler SET_SERIAL_NO get get_next prepare_set commit_set default_undo_set.

Definition increment_set_serial (n : Z) : Z := if 2147483647 <=? n then 0 else n + 1.

Definition with_fresh_counter : MibHandler Z * Z := (handler, 0).
End SetSerial.

(** * Distinct rows have distinct instances *)

Lemma string_index_inj a b ra rb :
  (string_index a ++ ra) = (string_index b ++ rb) → is_u32 (Z.of_nat (length a)) → is_u32 (Z.of_nat (length b)) →
  a = b ∧ ra = rb.
Proof.
  unfold string_index. cbn [app]. intros [= Hl Ht] Ha Hb. unfold is_u32 in *.
  rewrite !wrap_u_id in Hl by lia. apply app_inj_1 in Ht; [done|lia].
Qed.

(** A table of rows with distinct indexes under one entry provides what
    [FnHandler] asks for. *)
Lemma table_provides {A} entry (idx : A → Oid) (cols : A → list (Z * Value)) (names : list Z) rows :
  (∀ r, (cols r).*1 = names) → NoDup names → NoDup (idx <$> rows) →
  Snapshot.provides entry (flat_map (fun r => row_cells entry (idx r) (cols r)) rows).
Proof.
  intros Hn Hnd Hi.
  assert (Shape : ∀ r x, x ∈ row_cells entry (idx r) (cols r) → ∃ c, c ∈ names ∧ x.1 = entry ++ c :: idx r).
  { intros r x (c & -> & Hc)%list_elem_of_fmap. exists c.1. split; [|done]. rewrite <- (Hn r).
    by apply list_elem_of_fmap_2. }
  split.
  - induction rows as [|r rows IH]; cbn [flat_map]; [constructor|]. cbn [fmap list_fmap] in Hi.
    apply NoDup_cons in Hi as [Hr Hi]. rewrite fmap_app. apply NoDup_app. split_and!; [| |by apply IH].
    + unfold row_cells. rewrite <- list_fmap_compose.
      rewrite (list_fmap_ext _ ((λ c, entry ++ c :: idx r) ∘ fst)) by done. rewrite list_fmap_compose, Hn.
      apply NoDup_fmap_2; [|done]. intros x y H. apply app_inj_1 in H as [_ [= ->]]; done.
    + intros o (x & -> & Hx)%list_elem_of_fmap (y & E & Hy)%list_elem_of_fmap.
      apply Shape in Hx as (c & _ & Ex). apply list_elem_of_In, in_flat_map in Hy as (r' & Hr' & Hy).
      apply list_elem_of_In, Shape in Hy as (c' & _ & Ey). rewrite Ex, Ey in E.
      apply app_inj_1 in E as [_ [= _ E]]; [|done]. apply Hr. rewrite E. apply list_elem_of_fmap_2.
      by apply list_elem_of_In.
  - intros x Hx. apply list_elem_of_In, in_flat_map in Hx as (r & _ & Hx). apply list_elem_of_In, Shape in Hx as (c & _ & ->).
    apply Oid.is_prefix_of_spec. by eexists.
Qed.

Lemma flat_map_pairs {A B C} (f : A → B → list C) (l : list (A * list B)) :
  flat_map (fun '(a, bs) => flat_map (f a) bs) l =
  flat_map (fun p => f p.1 p.2) (flat_map (fun '(a, bs) => pair a <$> bs) l).
Proof.
  induction l as [|[a bs] l IH]; cbn [flat_map]; [done|]. rewrite flat_map_app, IH. f_equal.
  induction bs as [|b bs IHb]; cbn; [done|]. by rewrite IHb.
Qed.

(** ** The VACM tables *)

Definition indexable (b : bytes) : Prop := is_u32 (Z.of_nat (length b)).

(** Models and levels are [i32]s, and no name is 2^32 octets long. *)
Record wf_vacm (v : Vacm) : Prop := {
  wv_groups g : g ∈ groups v → is_i32 (g_model g) ∧ indexable (g_name g);
  wv_access a : a ∈ access v → is_i32 (a_model a) ∧ is_i32 (a_level a) ∧ indexable (a_group a) ∧ indexable (a_context_prefix a);
  wv_views n rows : views v !! n = Some rows → indexable n ∧ ∀ w, w ∈ rows → indexable (subtree w);
  wv_contexts c : c ∈ contexts v → indexable c
}.

Lemma as_u32_inj a b : is_i32 a → is_i32 b → as_u32 a = as_u32 b → a = b.
Proof. intros Ha Hb H. rewrite <- (wrap_i_wrap_u_32 a Ha), <- (wrap_i_wrap_u_32 b Hb). by rewrite H. Qed.

Lemma NoDup_fmap_in {A B} (f : A → B) l : (∀ x y, x ∈ l → y ∈ l → f x = f y → x = y) → NoDup l → NoDup (f <$> l).
Proof.
  intros Hf. induction 1 as [|x l Hx _ IH]; cbn; constructor.
  - intros (y & E & Hy)%list_elem_of_fmap. apply Hx. rewrite (Hf x y); [done|by left|by right|done].
  - apply IH. intros y z Hy Hz. apply Hf; by right.
Qed.

(** From keys to indexes. *)
Lemma NoDup_by_key {A K I} (key : A → K) (idx : A → I) l :
  (∀ x y, x ∈ l → y ∈ l → idx x = idx y → key x = key y) → NoDup (key <$> l) → NoDup (idx <$> l).
Proof.
  intros H. induction l as [|x l IH]; cbn; [constructor|]. intros [Hx Hl]%NoDup_cons. apply NoDup_cons. split.
  - intros (y & E & Hy)%list_elem_of_fmap. apply Hx. rewrite (H x y); [by apply list_elem_of_fmap_2|by left|by right|done].
  - apply IH; [|done]. intros y z Hy Hz. apply H; by right.
Qed.

Ltac columns := apply (bool_decide_unpack _); vm_compute; exact I.

Lemma contexts_provided v : ok v → wf_vacm v → Snapshot.provides VACM_CONTEXT_ENTRY (context_cells v).
Proof.
  intros Ho Hw. apply (table_provides _ string_index (λ ctx, [(1, VOctetString ctx)]) [1]); [done|columns|].
  assert (P : sorted_contexts v ≡ₚ contexts v) by apply sort_by_perm.
  apply NoDup_fmap_in; [|rewrite P; apply Ho]. intros x y Hx Hy E.
  rewrite P in Hx, Hy. apply (string_index_inj x y [] []); [by rewrite !app_nil_r|by apply Hw..].
Qed.

Lemma groups_provided v : ok v → wf_vacm v → Snapshot.provides VACM_S2G_ENTRY (s2g_cells v).
Proof.
  intros Ho Hw. apply (table_provides _ group_index (λ g, [(3, VOctetString (g_group g)); (4, storage); (5, active)]) [3; 4; 5]);
    [done|columns|].
  eapply NoDup_by_key; [|apply Ho]. intros x y Hx Hy [= Em En].
  destruct (wv_groups v Hw x Hx), (wv_groups v Hw y Hy). unfold group_key. f_equal; [by apply as_u32_inj|].
  apply (string_index_inj _ _ [] []); [|done..]. unfold string_index. rewrite !app_nil_r. by f_equal.
Qed.

Lemma access_provided v : ok v → wf_vacm v → Snapshot.provides VACM_ACCESS_ENTRY (access_cells v).
Proof.
  intros Ho Hw. eapply (table_provides _ access_index _ [4; 5; 6; 7; 8; 9]); [done|columns|].
  eapply NoDup_by_key; [|apply Ho]. intros x y Hx Hy E.
  destruct (wv_access v Hw x Hx) as (? & ? & ? & ?), (wv_access v Hw y Hy) as (? & ? & ? & ?). unfold access_key.
  apply string_index_inj in E as [-> E]; [|done..]. apply string_index_inj in E as [-> [= E1 E2]]; [|done..].
  f_equal; [f_equal|]; by apply as_u32_inj.
Qed.

Lemma views_provided v : ok v → wf_vacm v → Snapshot.provides VACM_VIEW_ENTRY (view_cells v).
Proof.
  intros Ho Hw. unfold view_cells. rewrite flat_map_pairs.
  eapply (table_provides _ (λ p, view_index p.1 p.2) _ [3; 4; 5; 6]); [done|columns|].
  assert (P : sorted_views v ≡ₚ map_to_list (views v)) by apply sort_by_perm.
  assert (In : ∀ p, p ∈ flat_map (λ '(n, rows), pair n <$> rows) (sorted_views v) ↔
    ∃ rows, (p.1, rows) ∈ sorted_views v ∧ p.2 ∈ rows).
  { intros [n w]. rewrite list_elem_of_In, in_flat_map. split.
    - intros ([n' rows] & Hin & H%list_elem_of_In). apply list_elem_of_fmap in H as (w' & [= -> ->] & H').
      exists rows. by rewrite list_elem_of_In.
    - intros (rows & Hin & H). exists (n, rows). rewrite <- list_elem_of_In. split; [done|].
      apply list_elem_of_In, list_elem_of_fmap. by exists w. }
  assert (Known : ∀ n rows, (n, rows) ∈ sorted_views v → views v !! n = Some rows).
  { intros n rows H. rewrite P in H. by apply elem_of_map_to_list. }
  apply NoDup_by_key with (key := λ p : bytes * VacmView, (p.1, subtree p.2)).
  - intros [n x] [m y] (r1 & H1%Known & Hx)%In (r2 & H2%Known & Hy)%In E.
    destruct (wv_views v Hw _ _ H1) as [Hn Hs], (wv_views v Hw _ _ H2) as [Hm Ht]. cbn [fst snd] in *.
    apply string_index_inj in E as [-> E]; [|done..]. f_equal.
    apply (string_index_inj (subtree x) (subtree y) [] []); [by rewrite !app_nil_r|by apply Hs|by apply Ht].
  - assert (Hn : NoDup (sorted_views v).*1) by (rewrite P; apply NoDup_fst_map_to_list).
    revert Known Hn. generalize (sorted_views v). clear In. intros l Known Hn.
    induction l as [|[n rows] l IH]; cbn [flat_map]; [constructor|].
    cbn [fmap list_fmap fst] in Hn. apply NoDup_cons in Hn as [Hn Hl]. rewrite fmap_app. apply NoDup_app. split_and!.
    + assert (views v !! n = Some rows) as Hv by (apply Known; by left).
      destruct (ok_views v Ho _ _ Hv) as [_ Hnd]. rewrite <- list_fmap_compose.
      rewrite (list_fmap_ext _ (pair n ∘ subtree)) by done. rewrite list_fmap_compose.
      by apply NoDup_fmap_2; [intros ? ? [= ->]|].
    + intros k (p & -> & Hp)%list_elem_of_fmap (q & E & Hq)%list_elem_of_fmap.
      apply list_elem_of_fmap in Hp as (w & -> & _). apply list_elem_of_In, in_flat_map in Hq as ([m rs] & Hin & Hq).
      apply list_elem_of_In, list_elem_of_fmap in Hq as (w' & -> & _). cbn in E. injection E as -> _.
      apply Hn. apply list_elem_of_fmap. exists (m, rs). by rewrite list_elem_of_In.
    + apply IH; [|done]. intros m rs H. apply Known. by right.
Qed.

(** Handlers read from [Snapshot]s of 900 milliseconds. *)
Abbreviation seen := (Snapshot.view id FnHandler.SNAPSHOT_TTL).

Lemma answers_provided r cs (s : FnHandler.state) o x : Snapshot.provides r cs → seen s = sort_cells cs →
  (Handler.get (FnHandler.handler r) o s).1 = Some x ↔ (o, x) ∈ cs.
Proof.
  intros Hp Hs. cbn. unfold FnHandler.get, FnHandler.snapshot, Snapshot.view, sbind, sret in *.
  destruct (Snapshot.snapshot _ _ s) as [cs' s']. cbn in *. subst cs'.
  rewrite search_get_lookup, lookup_cell_Some by (apply sort_cells_strict, Hp). by rewrite sort_cells_perm.
Qed.

(** What a read serves that builds a snapshot of its own; the reads of the 900
    milliseconds after it are answered from the same cells. *)
Definition served (h : MibHandler FnHandler.state) (cs : cells) (o : Oid) : option Value :=
  (Handler.get h o (Snapshot.mkState 0 cs None)).1.

Lemma served_provided r cs o x : Snapshot.provides r cs → served (FnHandler.handler r) cs o = Some x ↔ (o, x) ∈ cs.
Proof. intros Hp. by apply answers_provided. Qed.

(** ** A table in use *)

(** The life of one of the VACM tables: row operations and directives change
    what its provider reads, time passes, and managers read. The list holds
    the access-control tables at every moment of change, the latest first. *)
Inductive table_run (build : Vacm → cells) : list (Z * Vacm) → FnHandler.state → Prop :=
| run_registered t : table_run build [(t, Vacm.new)] (Snapshot.mkState t (build Vacm.new) None)
| run_changed t v hist s t' ops :
    table_run build ((t, v) :: hist) s → t <= t' → let v' := fold_left run_op ops v in
    table_run build ((t', v') :: (t, v) :: hist) (Snapshot.mkState t' (build v') (Snapshot.cache s))
| run_read hist s o : table_run build hist s → table_run build hist (FnHandler.get o s).2
| run_next hist s o : table_run build hist s → table_run build hist (FnHandler.get_next o s).2.

(** The snapshot of an earlier read is still in use. *)
Definition in_use (s : FnHandler.state) : bool :=
  match Snapshot.cache s with
  | Some (built, _) => Snapshot.is_fresh FnHandler.SNAPSHOT_TTL (Snapshot.now s) built
  | None => false
  end.

(** [v] is what the access-control tables were at a moment less than 900
    milliseconds ago, and is what they are now when no snapshot is in use. *)
Definition as_of (hist : list (Z * Vacm)) (s : FnHandler.state) (v : Vacm) : Prop :=
  ∃ t, (t, v) ∈ hist ∧ t <= Snapshot.now s ∧
    (Snapshot.now s - t < FnHandler.SNAPSHOT_TTL ∨ t = Snapshot.now s) ∧
    (in_use s = false → head hist = Some (Snapshot.now s, v)).

Lemma table_run_snapshot build hist s : table_run build hist s →
  (∃ v rest, hist = (Snapshot.now s, v) :: rest ∧ Snapshot.provided s = build v) ∧
  (∃ t0, Snapshot.run id FnHandler.SNAPSHOT_TTL (build Vacm.new) t0 ((λ e, (e.1, build e.2)) <$> hist) s) ∧
  (∀ t v, (t, v) ∈ hist → ok v).
Proof.
  induction 1 as [t|t v hist s t' ops R ((v0 & rest & [= -> -> ->] & Hp) & (t0 & IR) & Ho) Ht v'
    |hist s o R ((v0 & rest & E & Hp) & (t0 & IR) & Ho)|hist s o R ((v0 & rest & E & Hp) & (t0 & IR) & Ho)].
  - split_and!; [by exists Vacm.new, []|exists t; apply Snapshot.run_start|].
    intros ? ? [= -> ->]%list_elem_of_singleton. apply ok_new.
  - split_and!; [by eexists _, _|exists t0; by apply (Snapshot.run_env id _ _ _ _ s)|].
    intros t1 v1 [[= -> ->]|H]%elem_of_cons; [|by eapply Ho]. apply run_ops_ok, (Ho (Snapshot.now s)). by left.
  - rewrite (Snapshot.get_state id FnHandler.SNAPSHOT_TTL o s : (FnHandler.get o s).2 = _).
    destruct (Snapshot.snapshot_same id FnHandler.SNAPSHOT_TTL s) as (En & Ep & _). rewrite En, Ep.
    split_and!; [by eexists _, _| |done]. exists t0.
    rewrite <- (Snapshot.get_state id FnHandler.SNAPSHOT_TTL o s). by apply Snapshot.run_get.
  - rewrite (Snapshot.get_next_state id FnHandler.SNAPSHOT_TTL o s : (FnHandler.get_next o s).2 = _).
    destruct (Snapshot.snapshot_same id FnHandler.SNAPSHOT_TTL s) as (En & Ep & _). rewrite En, Ep.
    split_and!; [by eexists _, _| |done]. exists t0.
    rewrite <- (Snapshot.get_next_state id FnHandler.SNAPSHOT_TTL o s). by apply Snapshot.run_get_next.
Qed.

Lemma run_seen (a0 : cells) t0 hist s : Snapshot.run id FnHandler.SNAPSHOT_TTL a0 t0 hist s →
  ∃ t cs, (t, cs) ∈ hist ∧ t <= Snapshot.now s ∧ (Snapshot.now s - t < FnHandler.SNAPSHOT_TTL ∨ t = Snapshot.now s) ∧
    seen s = sort_cells cs.
Proof. intros R. exact (proj2 (Snapshot.snapshot_traced _ _ _ _ (Snapshot.run_traced _ _ _ _ _ _ R))). Qed.

(** Every read of a table is answered as of some moment. *)
Lemma table_run_seen build hist s : table_run build hist s →
  ∃ v, as_of hist s v ∧ ok v ∧ seen s = sort_cells (build v).
Proof.
  intros R. destruct (table_run_snapshot build hist s R) as ((v & rest & E & Hp) & (t0 & IR) & Ho).
  destruct (in_use s) eqn:F.
  - destruct (run_seen _ _ _ _ IR) as (t & cs & Hin & Hle & Hb & Es).
    apply list_elem_of_fmap in Hin as ([t' v'] & [= -> ->] & Hin). exists v'.
    split_and!; [|by eapply Ho|exact Es]. exists t'. by rewrite F.
  - exists v. split_and!; [|eapply Ho; rewrite E; by left|].
    + exists (Snapshot.now s). rewrite E. split_and!; [by left|done|by right|done].
    + unfold Snapshot.view, Snapshot.snapshot, in_use in *. rewrite Hp.
      destruct (Snapshot.cache s) as [[b cs]|]; [by rewrite F|done].
Qed.

Lemma vacm_provided v h build : ok v → wf_vacm v → (h, build) ∈ vacm_tables → Snapshot.provides (root h) (build v).
Proof.
  intros Ho Hw. unfold vacm_tables. rewrite !elem_of_cons, elem_of_nil.
  intros [[= -> ->]|[[= -> ->]|[[= -> ->]|[[= -> ->]|[]]]]];
    [by apply contexts_provided|by apply groups_provided|by apply access_provided|by apply views_provided].
Qed.

Definition group_cell (m : Z) (n : bytes) : Oid := VACM_S2G_ENTRY ++ 3 :: as_u32 m :: string_index n.

Lemma group_cell_shown v m n g : wf_vacm v → is_i32 m → indexable n →
  (group_cell m n, VOctetString g) ∈ s2g_cells v ↔ mkGroup m n g ∈ groups v.
Proof.
  intros Hw Hm Hn. unfold s2g_cells.
  rewrite list_elem_of_In, in_flat_map. split.
  - intros ([m' n' g'] & Hin & H). apply list_elem_of_In in Hin, H. destruct (wv_groups v Hw _ Hin) as [Hm' Hn'].
    unfold row_cells in H. apply list_elem_of_fmap in H as ([c x] & E & Hc). cbn [fst snd] in E.
    injection E as E1 E2 E3 E4 <-. cbn in Hm', Hn'.
    apply as_u32_inj in E2 as <-; [|done..].
    assert (n = n') as <-.
    { apply (string_index_inj n n' [] []); [|done..]. rewrite !app_nil_r. unfold string_index. by f_equal. }
    rewrite !elem_of_cons, elem_of_nil in Hc. cbn in Hc. unfold storage, active in Hc.
    by destruct Hc as [[= _ ->]|[[=]|[[=]|[]]]].
  - intros Hin. exists (mkGroup m n g). rewrite <- !list_elem_of_In. split; [done|]. by left.
Qed.

(** The group of a security name as a manager reads it in the table. *)
Definition shown_group (s : FnHandler.state) (m : Z) (n : bytes) : option bytes :=
  match (Handler.get (FnHandler.handler VACM_S2G_ENTRY) (group_cell m n) s).1 with
  | Some (VOctetString g) => Some g
  | _ => None
  end.

Lemma shown_group_spec s v m n : ok v → wf_vacm v → is_i32 m → indexable n → seen s = sort_cells (s2g_cells v) →
  shown_group s m n = g_group <$> find (fun e => (g_model e =? m) && Oid.eqb (g_name e) n) (groups v).
Proof.
  intros Ho Hw Hm Hn Hs. unfold shown_group.
  assert (Shown : ∀ g, (Handler.get (FnHandler.handler VACM_S2G_ENTRY) (group_cell m n) s).1 = Some (VOctetString g) ↔
    mkGroup m n g ∈ groups v).
  { intros g. rewrite (answers_provided _ _ s _ _ (groups_provided v Ho Hw) Hs). by apply group_cell_shown. }
  assert (Found : ∀ g, mkGroup m n g ∈ groups v →
    find (fun e => (g_model e =? m) && Oid.eqb (g_name e) n) (groups v) = Some (mkGroup m n g)).
  { clear Shown. intros g. pose proof (ok_groups v Ho) as Hnd. revert Hnd. induction (groups v) as [|[m' n' g'] l IH]; cbn.
    - by intros _ ?%elem_of_nil.
    - intros [Hx Hl]%NoDup_cons [[= -> -> ->]|Hin]%elem_of_cons; [by rewrite Z.eqb_refl, Oid.eqb_refl|].
      destruct ((m' =? m) && Oid.eqb n' n) eqn:E; [|by apply IH].
      apply andb_true_iff in E as [->%Z.eqb_eq ->%Oid.eqb_eq]. exfalso. apply Hx.
      apply list_elem_of_fmap. by exists (mkGroup m n g). }
  destruct (find _ (groups v)) as [[m' n' g']|] eqn:F.
  - apply find_some in F as [Hin%list_elem_of_In E]. cbn in E. apply andb_true_iff in E as [->%Z.eqb_eq ->%Oid.eqb_eq].
    by rewrite (proj2 (Shown g') Hin).
  - destruct (Handler.get (FnHandler.handler VACM_S2G_ENTRY) (group_cell m n) s).1 as [[]|] eqn:S; try done.
    pose proof (Found _ (proj1 (Shown _) eq_refl)) as E. discriminate E.
Qed.

(** C39. Whatever row operations, directives and reads there have been, a GET of a VACM
    table is answered as of some moment less than 900 milliseconds ago, and as
    of now when no snapshot is in use: the table serves every one of the cells
    of that moment and no other, and the group that access control gave a
    security name at that moment is the one a manager reads in the table, the
    row of the model, else that of the wildcard. *)
Theorem vacm_tables_serve hist s :
  (∀ t v, (t, v) ∈ hist → wf_vacm v) →
  (∀ h build, (h, build) ∈ vacm_tables → table_run build hist s →
     ∃ v, as_of hist s v ∧ ∀ o x, (Handler.get h o s).1 = Some x ↔ (o, x) ∈ build v) ∧
  (table_run s2g_cells hist s →
     ∃ v, as_of hist s v ∧ ∀ m n, is_i32 m → indexable n →
       group_for m n v = match shown_group s m n with Some g => Some g | None => shown_group s 0 n end).
Proof.
  intros Hw. split.
  - intros h build Hin R. destruct (table_run_seen build hist s R) as (v & A & Ho & Es). exists v. split; [done|].
    intros o x. destruct A as (t & Ht & _). pose proof (vacm_provided v h build Ho (Hw t v Ht) Hin) as Hp. revert Hin Hp.
    unfold vacm_tables. rewrite !elem_of_cons, elem_of_nil.
    intros [[= -> ->]|[[= -> ->]|[[= -> ->]|[[= -> ->]|[]]]]] Hp; by apply answers_provided.
  - intros R. destruct (table_run_seen _ hist s R) as (v & A & Ho & Es). exists v. split; [done|].
    intros m n Hm Hn. destruct A as (t & Ht & _). assert (H0 : is_i32 0) by (unfold is_i32; lia).
    rewrite (shown_group_spec s v m n Ho (Hw t v Ht) Hm Hn Es), (shown_group_spec s v 0 n Ho (Hw t v Ht) H0 Hn Es).
    unfold group_for. by destruct (find _ _).
Qed.

(** The documentation of [vacm.rs] says that rows added or removed are
    immediately visible to walkers: for up to 900 milliseconds after a read
    they are not. *)
Example changes_are_not_immediate :
  let v := fold_left run_op [AddGroup (mkGroup 2 (str "public") (str "readers"))] Vacm.new in
  let read := (FnHandler.get (group_cell 2 (str "public")) (Snapshot.mkState 0 (s2g_cells Vacm.new) None)).2 in
  let s := Snapshot.mkState 500 (s2g_cells v) (Snapshot.cache read) in
  table_run s2g_cells [(500, v); (0, Vacm.new)] s ∧
  group_for 2 (str "public") v = Some (str "readers") ∧ shown_group s 2 (str "public") = None.
Proof.
  intros v read s. split; [|split; vm_compute; reflexivity].
  apply (run_changed s2g_cells 0 Vacm.new [] read 500 [AddGroup (mkGroup 2 (str "public") (str "readers"))]); [|lia].
  apply run_read, (run_registered _ 0).
Qed.

(** ** The notification tables *)

(** Every table made from configuration directives is served, as long as the
    configuration does not change: the rows are named apart. *)
Theorem notify_tables_serve ds (c := Notify.from_config_directives ds) :
  (∀ t, t ∈ Notify.targets c → indexable (as_bytes (Notify.target_name t))) →
  ∀ h build t0 hist st o x, (h, build) ∈ notify_tables →
  Snapshot.run id FnHandler.SNAPSHOT_TTL (build c) t0 hist st → (∀ t cs, (t, cs) ∈ hist → cs = build c) →
  (Handler.get h o st).1 = Some x ↔ (o, x) ∈ build c.
Proof.
  intros Hi h build t0 hist st o x Hin IR Same.
  destruct (run_seen _ _ _ _ IR) as (tb & cs & Hb & _ & _ & Es). rewrite (Same tb cs Hb) in Es. clear tb cs Hb Same IR. revert Es.
  destruct (Notify.from_directives_sinks ds) as (ss & E & W & _). subst c. rewrite E in *. intros Hseen.
  assert (Ascii : ∀ s, s ∈ ss → as_bytes (Notify.s_name s) = Notify.s_name s).
  { intros s [n Hs]%list_elem_of_lookup. destruct (W _ _ Hs) as [[(p & Hp & ->) _] _]. apply as_bytes_ascii.
    apply Forall_app. split.
    - set_unfold. by destruct Hp as [->|[->|[]]]; repeat (constructor; [lia|]).
    - destruct (show_u_correct (Z.of_nat n + 1)) as (_ & D & _); [lia|]. eapply Forall_impl; [exact D|].
      unfold is_ascii_digit. cbn. lia. }
  assert (Short : ∀ s, s ∈ ss → indexable (Notify.s_name s)).
  { intros s Hs. rewrite <- Ascii by done. apply (Hi (Notify.sink_target s)). cbn. by apply list_elem_of_fmap_2. }
  assert (Named : NoDup (string_index ∘ as_bytes ∘ Notify.s_name <$> ss)).
  { apply NoDup_by_key with (key := Notify.s_name).
    - intros a b Ha Hb H. unfold compose in H. rewrite !Ascii in H by done.
      apply (string_index_inj _ _ [] []); [by rewrite !app_nil_r|by apply Short..].
    - apply NoDup_alt. intros i j n Hx Hy. rewrite list_lookup_fmap in Hx, Hy.
      destruct (ss !! i) as [s|] eqn:Es; [|done]. destruct (ss !! j) as [t|] eqn:Et; [|done].
      injection Hx as <-. injection Hy as Hy.
      by apply (Notify.numbered_name_inj i j s t (proj1 (W _ _ Es)) (proj1 (W _ _ Et))). }
  assert (Params : Notify.params_name ∘ Notify.s_params <$> ss = Notify.s_name <$> ss).
  { apply list_fmap_ext. intros i s Hs. by destruct (W _ _ Hs) as [[_ Hp] _]. }
  revert Hin. unfold notify_tables. rewrite !elem_of_cons, elem_of_nil.
  intros [[= -> ->]|[[= -> ->]|[[= -> ->]|[]]]]; refine (answers_provided _ _ st o x _ Hseen).
  - eapply (table_provides _ (λ t, string_index (as_bytes (Notify.target_name t))) _ [2; 3; 4; 5; 6; 7; 8; 9]); [done|columns|].
    cbn. by rewrite <- list_fmap_compose.
  - eapply (table_provides _ (λ p, string_index (as_bytes (Notify.params_name p))) _ [2; 3; 4; 5; 6; 7]); [done|columns|].
    cbn. rewrite <- list_fmap_compose.
    rewrite (list_fmap_ext _ (string_index ∘ as_bytes ∘ (Notify.params_name ∘ Notify.s_params))) by done.
    rewrite list_fmap_compose, Params. by rewrite <- list_fmap_compose.
  - eapply (table_provides _ (λ n, string_index (as_bytes (Notify.notify_name n))) _ [2; 3; 4; 5]); [done|columns|].
    cbn. by rewrite <- list_fmap_compose.
Qed.

(** ** The serial number *)

Module SetSerialFacts.
Import SetSerial.

(** [AtomicI32] that only this module writes. *)
Definition serial (n : Z) : Prop := 0 <= n <= 2147483647.

#[export] Instance serial_readable : ReadableHandler serial eq handler (λ n, [(instance, VInteger n)]).
Proof.
  split.
  - intros w _. by repeat constructor.
  - by intros w c _ ->%list_elem_of_singleton.
  - by intros w w' ->.
  - intros o w _. cbn -[Oid.eqb]. unfold lookup_cell. cbn -[Oid.eqb]. destruct (decide (o = instance)) as [->|Ho].
    + by rewrite Oid.eqb_refl.
    + by rewrite (proj2 (Oid.eqb_neq o _)), (proj2 (Oid.eqb_neq _ o)).
  - done.
  - intros o w _. cbn. unfold successor. cbn. by destruct (Oid.ltb _ _).
  - done.
Qed.

(** What is reserved commits, to the value itself, and the counter never leaves
    its range. *)
Lemma serial_set o v n : serial n →
  serial (commit_set o v n).2 ∧ serial (increment_set_serial n) ∧
  ((prepare_set o v n).1 = Ok tt →
    o = instance ∧ ∃ k, integer_value v = Some k ∧ commit_set o v n = (Ok tt, k) ∧ serial k).
Proof.
  intros Hn. assert (I : serial (increment_set_serial n)).
  { unfold increment_set_serial, serial in *. destruct (Z.leb_spec 2147483647 n); lia. }
  unfold commit_set, prepare_set, sret. cbn -[increment_set_serial instance].
  destruct (Oid.eqb o instance) eqn:E; cbn -[increment_set_serial instance]; [|split; [exact Hn|split; [exact I|discriminate]]].
  apply Oid.eqb_eq in E. destruct (integer_value v) as [k|]; cbn -[increment_set_serial instance]; [|split; [exact Hn|split; [exact I|discriminate]]].
  split; [unfold serial; lia|]. split; [done|].
  destruct ((0 <=? k) && (k <=? 2147483647)) eqn:Hk; cbn; [|done]. intros _. split; [done|].
  apply andb_true_iff in Hk as [H1%Z.leb_le H2%Z.leb_le]. exists k. split; [done|]. split; [f_equal; lia|]. by split.
Qed.

(** A SET does not compare its value with the counter, nor count: of two
    managers that read the same serial number and set it, both succeed. *)
Lemma serial_is_no_lock n : serial n →
  let set v := let* _ := prepare_set instance v in commit_set instance v in
  set (VInteger n) n = (Ok tt, n) ∧ set (VInteger 5) n = (Ok tt, 5).
Proof.
  intros Hn. unfold sbind, prepare_set, commit_set, sret. rewrite Oid.eqb_refl. cbn. unfold serial in Hn.
  split; [|done]. f_equal. lia.
Qed.
End SetSerialFacts.

(** ** Witnesses *)

Definition demo_ops : list Vacm.Op :=
  [AddGroup (mkGroup 2 (str "public") (str "readers")); AddGroup (mkGroup 0 (str "admin") (str "admins"));
   AddContext (str "ctx")].

Lemma demo_wf : wf_vacm (fold_left run_op demo_ops Vacm.new).
Proof.
  split; cbn.
  - intros g. rewrite !elem_of_cons, elem_of_nil.
    by intros [->|[->|[]]]; (split; [unfold is_i32; cbn; lia|unfold indexable, is_u32; cbn; lia]).
  - by intros a ?%elem_of_nil.
  - intros n rows. by rewrite lookup_empty.
  - intros c ->%list_elem_of_singleton. unfold indexable, is_u32. cbn. lia.
Qed.

(** The rows are written 100 milliseconds after the agent's start, and first read
    after that. *)
Lemma demo_run : table_run s2g_cells [(100, fold_left run_op demo_ops Vacm.new); (0, Vacm.new)]
  (Snapshot.mkState 100 (s2g_cells (fold_left run_op demo_ops Vacm.new)) None).
Proof. apply (run_changed s2g_cells 0 Vacm.new [] _ 100 demo_ops (run_registered _ 0)). lia. Qed.

Lemma vacm_tables_serve_witness :
  let v := fold_left run_op demo_ops Vacm.new in
  let s := Snapshot.mkState 100 (s2g_cells v) None in
  (Handler.get (FnHandler.handler VACM_S2G_ENTRY) (group_cell 2 (str "public")) s).1 = Some (VOctetString (str "readers")) ∧
  group_for 3 (str "admin") v = shown_group s 0 (str "admin").
Proof.
  intros v s. destruct (vacm_tables_serve [(100, v); (0, Vacm.new)] s) as [Hc Hg].
  { intros t w. rewrite elem_of_cons, list_elem_of_singleton. intros [[= _ ->]|[= _ ->]]; [exact demo_wf|].
    split; cbn; try (by intros ? ?%elem_of_nil). intros n rows. by rewrite lookup_empty. }
  split.
  - destruct (Hc (FnHandler.handler VACM_S2G_ENTRY) s2g_cells ltac:(by right; left) demo_run) as (v' & (t & _ & _ & _ & Hn) & H).
    specialize (Hn eq_refl). injection Hn as <-. apply H. by left.
  - destruct (Hg demo_run) as (v' & (t & _ & _ & _ & Hn) & H). specialize (Hn eq_refl). injection Hn as <-.
    etrans; [apply H; unfold is_i32, indexable, is_u32; cbn; lia|]. by vm_compute.
Defined.

Definition demo_sinks : list Directive := [mkDirective (str "trap2sink") [str "10.0.0.9"] [] None 1].

Lemma demo_targets : Notify.targets (Notify.from_config_directives demo_sinks) =
  [Notify.mkTarget (str "sink1") (str "udp") (str "10.0.0.9:162") 5 2 (str "sink1")].
Proof. vm_compute. reflexivity. Qed.

Lemma demo_address : (TARGET_ADDR_ENTRY ++ 3 :: string_index (str "sink1"), VOctetString [10; 0; 0; 9; 0; 162])
  ∈ target_addr_cells (Notify.from_config_directives demo_sinks).
Proof. unfold target_addr_cells. rewrite demo_targets. vm_compute. right. left. Qed.

Lemma notify_tables_serve_witness :
  (Handler.get (FnHandler.handler TARGET_ADDR_ENTRY) (TARGET_ADDR_ENTRY ++ 3 :: string_index (str "sink1"))
    (Snapshot.mkState 0 (target_addr_cells (Notify.from_config_directives demo_sinks)) None)).1 =
  Some (VOctetString [10; 0; 0; 9; 0; 162]).
Proof.
  apply (notify_tables_serve demo_sinks) with (build := target_addr_cells) (t0 := 0)
    (hist := [(0, target_addr_cells (Notify.from_config_directives demo_sinks))]).
  - rewrite demo_targets. intros t ->%list_elem_of_singleton. unfold indexable, is_u32. vm_compute (Z.of_nat _). lia.
  - left.
  - apply Snapshot.run_start.
  - by intros t cs [= _ ->]%list_elem_of_singleton.
  - exact demo_address.
Defined.
