(* ===== verification/Pass.v ===== *)
(** * Subtrees served by a script ([crates/netsnmp-agent/src/mibgroup/pass.rs])

    The handler that asks a [pass] or [pass_persist] script: the splitting of
    its command, the three-line replies, the value texts, one process per
    request or one kept alive. Processes are an interface: what starting one,
    writing to it and reading from it do to a world [W]. *)

From Stdlib Require Import ZArith Lia.
From S2P Require Import Prelude MachineInts Text Oid Value Pdu Config Cells Handler Persist.

Local Open Scope list_scope.

(** [Command::output] (the standard output, [None] an error), [Command::spawn]
    with pipes, and the pipes of the child last spawned: a write, and a read,
    where [Some []] is the end and [None] an error. *)
Class Processes (W : Type) := {
  p_output : text → list text → St W (option bytes);
  p_spawn : text → list text → St W bool;
  p_write : bytes → St W bool;
  p_read : St W (option bytes);
}.

(** ** [split_command] *)

Inductive Quote := Plain | Single | Double.

(** The loop: the current word, the words before it, and whether anything but
    blanks has been seen. *)
Fixpoint split_loop (s : text) (q : Quote) (current : text) (words : list text) (any : bool)
    : option (list text * bool) :=
  match s with
  | [] =>
      match q with
      | Plain => Some (if bool_decide (current = []) then words else words ++ [current], any)
      | _ => None
      end
  | c :: s' =>
      match q with
      | Single => if c =? 39 then split_loop s' Plain current words any
                  else split_loop s' Single (current ++ [c]) words any
      | Double =>
          if c =? 92 then
            match s' with
            | next :: s'' => split_loop s'' Double (current ++ [next]) words any
            | [] => split_loop s' Double (current ++ [c]) words any
            end
          else if c =? 34 then split_loop s' Plain current words any
          else split_loop s' Double (current ++ [c]) words any
      | Plain =>
          if c =? 92 then
            match s' with
            | next :: s'' => split_loop s'' Plain (current ++ [next]) words true
            | [] => split_loop s' Plain current words any
            end
          else if c =? 39 then split_loop s' Single current words true
          else if c =? 34 then split_loop s' Double current words true
          else if is_whitespace c then
            if bool_decide (current = []) then split_loop s' Plain [] words any
            else split_loop s' Plain [] (words ++ [current]) any
          else split_loop s' Plain (current ++ [c]) words true
      end
  end.

Definition split_command (s : text) : option (text * list text) :=
  match split_loop s Plain [] [] false with
  | Some (program :: args, true) => Some (program, args)
  | _ => None
  end.

(** ** Replies and values *)

Record PassReply := mkReply { reply_oid : Oid; type_token : text; value : text }.

(** [Result::ok]. *)
Definition ok_of {A E} (r : result A E) : option A := match r with Ok x => Some x | Err _ => None end.

Definition parse_pass_reply (stdout : text) : option PassReply :=
  match lines stdout with
  | [] => None
  | first :: rest =>
      let oid_line := trim first in
      if bool_decide (oid_line = []) || eq_ignore_case oid_line (str "NONE") then None
      else
        let! o := ok_of (Oid.from_str oid_line) in
        Some (mkReply o (trim (default [] (rest !! 0%nat))) (trim_end (default [] (rest !! 1%nat))))
  end.

Definition one_of (t : text) (ws : list text) : bool := existsb (fun w => bool_decide (t = w)) ws.

Definition value_from_pass (token t : text) : Value :=
  let k := to_ascii_lowercase (trim token) in
  if one_of k [str "integer"; str "int"; str "integer32"] then
    VInteger (default 0 (parse_signed (-9223372036854775808) 9223372036854775807 (trim t)))
  else if one_of k [str "gauge"; str "gauge32"; str "unsigned"; str "uinteger"; str "uint32"] then
    VGauge32 (default 0 (parse_unsigned u32_max (trim t)))
  else if one_of k [str "counter"; str "counter32"] then VCounter32 (default 0 (parse_unsigned u32_max (trim t)))
  else if one_of k [str "counter64"] then VCounter64 (default 0 (parse_unsigned 18446744073709551615 (trim t)))
  else if one_of k [str "timeticks"; str "timetick"] then VTimeTicks (default 0 (parse_unsigned u32_max (trim t)))
  else if one_of k [str "ipaddress"; str "ip"] then VIpAddress (default (mkIpv4 0 0 0 0) (parse_ipv4 (trim t)))
  else if one_of k [str "objectid"; str "oid"] then
    VOid (match Oid.from_str (trim t) with Ok o => o | Err _ => Oid.null end)
  else if one_of k [str "opaque"] then VOpaque (as_bytes t)
  else VOctetString (as_bytes t).

(** [format!] with the Debug form of a byte list. *)
Fixpoint debug_items (b : bytes) : text :=
  match b with
  | [] => []
  | [x] => show_u x
  | x :: b' => show_u x ++ str ", " ++ debug_items b'
  end.

Definition value_to_pass (v : Value) : text * text :=
  match v with
  | VInteger n => (str "integer", show_i n)
  | VGauge32 n => (str "gauge", show_u n)
  | VCounter32 n => (str "counter", show_u n)
  | VCounter64 n => (str "counter64", show_u n)
  | VTimeTicks n => (str "timeticks", show_u n)
  | VIpAddress ip => (str "ipaddress", show_ipv4 ip)
  | VOid o => (str "objectid", Oid.display o)
  | VOctetString b => (str "string", from_utf8_lossy b)
  | VOpaque b => (str "opaque", 91 :: debug_items b ++ [93])
  | VNull | VNoSuchObject | VNoSuchInstance | VEndOfMibView => (str "string", [])
  end.

(** The first two words of the line. *)
Definition parse_pass_directive (line : text) : option (Oid * text) :=
  match split_whitespace line with
  | o :: command :: _ => let! o := ok_of (Oid.from_str o) in Some (o, command)
  | _ => None
  end.

(** ** The handler *)

(** [PassHandler]; its child is part of the state. *)
Record PassHandler := mkPass { root : Oid; command : text; persist : bool }.

Definition pass (root : Oid) (command : text) : PassHandler := mkPass root command false.
Definition pass_persist (root : Oid) (command : text) : PassHandler := mkPass root command true.

Record PassState (W : Type) := mkState { world : W; child : bool }.
Arguments mkState {W}.
Arguments world {W}.
Arguments child {W}.

Section Handler.
Context {W : Type} {P : Processes W} (fuel : nat) (h : PassHandler).

Definition in_world {A} (m : St W A) : St (PassState W) A := fun s =>
  let '(x, w) := m (world s) in (x, mkState w (child s)).

(** The arguments after the program's own. *)
Definition mode_args (mode : Z) (o : Oid) (set_args : option (text * text)) : option (list text) :=
  match mode with
  | 103 => Some [str "-g"; Oid.display o]
  | 110 => Some [str "-n"; Oid.display o]
  | 115 => let! (t, v) := set_args in Some [str "-s"; Oid.display o; t; v]
  | _ => None
  end.

Definition run_oneshot (mode : Z) (o : Oid) (set_args : option (text * text)) : St (PassState W) (option PassReply) :=
  match split_command (command h) with
  | None => sret None
  | Some (program, base) =>
      match mode_args mode o set_args with
      | None => sret None
      | Some more =>
          let* out := in_world (p_output program (base ++ more)) in
          sret (let! bs := out in parse_pass_reply (from_utf8_lossy bs))
      end
  end.

Definition set_child (b : bool) : St (PassState W) unit := fun s => (tt, mkState (world s) b).

Definition spawn_persist_child : St (PassState W) unit :=
  match split_command (command h) with
  | None => set_child false
  | Some (program, base) => let* b := in_world (p_spawn program base) in set_child b
  end.

Definition send_persist_request (request : text) : St (PassState W) bool := fun s =>
  if child s then in_world (p_write (as_bytes request ++ [10])) s else (false, s).

(** The octets up to and with the first newline, and those after it. *)
Fixpoint cut_line (b : bytes) : option (bytes * bytes) :=
  match b with
  | [] => None
  | c :: b' => if c =? 10 then Some ([c], b') else let! (l, r) := cut_line b' in Some (c :: l, r)
  end.

(** [read_line] on a buffer that a read refills; [None] is a failed read, or a
    line that has not ended within [n] reads. *)
Fixpoint read_line (n : nat) (buf acc : bytes) : St W (option (bytes * bytes)) :=
  match cut_line buf with
  | Some (l, r) => sret (Some (acc ++ l, r))
  | None =>
      match n with
      | O => sret None
      | S n' =>
          let* r := p_read in
          match r with
          | None => sret None
          | Some [] => sret (Some (acc ++ buf, []))
          | Some chunk => read_line n' chunk (acc ++ buf)
          end
      end
  end.

Definition is_line_end (c : Z) : bool := (c =? 10) || (c =? 13).
Definition trim_line (s : text) : text := rev (trim_start_matches is_line_end (rev s)).

(** The loop of [read_persist_reply], with [n] lines to go. *)
Fixpoint read_lines (n : nat) (buf : bytes) (ls : list text) : St W (option (list text)) :=
  match n with
  | O => sret (Some ls)
  | S n' =>
      let* r := read_line fuel buf [] in
      match r with
      | None => sret None
      | Some (raw, buf') =>
          match from_utf8 raw with
          | None => sret None
          | Some s =>
              let l := trim_line s in
              if bool_decide (l = []) then sret (Some ls) else read_lines n' buf' (ls ++ [l])
          end
      end
  end.

(** Each reply has a buffer of its own, dropped with what it has read ahead. *)
Definition read_persist_reply : St W (option PassReply) :=
  let* ls := read_lines 3 [] [] in
  sret (match ls with
        | Some (first :: rest) =>
            let! o := ok_of (Oid.from_str first) in
            Some (mkReply o (default [] (rest !! 0%nat)) (default [] (rest !! 1%nat)))
        | _ => None
        end).

Definition run_persist (request : text) : St (PassState W) (option PassReply) := fun s =>
  let '(_, s) := if child s then (tt, s) else spawn_persist_child s in
  let '(sent, s) := send_persist_request request s in
  let '(_, s) := if sent : bool then (true, s) else (let* _ := spawn_persist_child in send_persist_request request) s in
  if child s then in_world read_persist_reply s else (None, s).

Definition get_impl (o : Oid) : St (PassState W) (option Value) :=
  let* r := if persist h then run_persist (str "get" ++ 10 :: Oid.display o) else run_oneshot 103 o None in
  sret (let! r := r in Some (value_from_pass (type_token r) (value r))).

Definition get_next_impl (o : Oid) : St (PassState W) (option Reading) :=
  let* r := if persist h then run_persist (str "getnext" ++ 10 :: Oid.display o) else run_oneshot 110 o None in
  sret (let! r := r in
        if Oid.is_prefix_of (root h) (reply_oid r)
        then Some (mkReading (reply_oid r) (value_from_pass (type_token r) (value r))) else None).

Definition set (o : Oid) (v : Value) : St (PassState W) status_result :=
  let '(t, x) := value_to_pass v in
  let* _ := if persist h then run_persist (str "set" ++ 10 :: Oid.display o ++ 32 :: t ++ 32 :: x)
            else run_oneshot 115 o (Some (t, x)) in
  sret (Ok tt).

Definition handler : MibHandler (PassState W) :=
  mkHandler (root h) get_impl get_next_impl default_prepare_set (default_commit_set set) default_undo_set.
End Handler.

(** * What goes out comes back *)

Lemma visible_unblank s : ascii_visible s → Forall (λ c, is_whitespace c = false) s.
Proof. intros H. eapply Forall_impl; [exact H|]. intros c Hc. cbn in Hc. unfold is_whitespace. lia. Qed.

Lemma trim_visible s : ascii_visible s → trim s = s.
Proof. intros H. by apply trim_id, visible_unblank. Qed.

Lemma trim_end_visible s : ascii_visible s → trim_end s = s.
Proof.
  intros H%visible_unblank. unfold trim_end, trim_start. rewrite trim_start_matches_id by by apply Forall_rev.
  apply rev_involutive.
Qed.

(** The values whose text keeps them apart: numbers, addresses, names, and
    strings that are UTF-8. *)
Definition passable (v : Value) : Prop :=
  match v with
  | VInteger n => is_i64 n
  | VGauge32 n | VCounter32 n | VTimeTicks n => is_u32 n
  | VCounter64 n => 0 <= n <= 18446744073709551615
  | VIpAddress ip => is_ipv4 ip
  | VOid o => Oid.wf o
  | VOctetString b => ∃ s, is_text s ∧ b = as_bytes s
  | _ => False
  end.

Lemma shown_unsigned max n : 0 <= n <= max → default 0 (parse_unsigned max (trim (show_u n))) = n.
Proof. intros H. rewrite trim_visible by (apply show_u_visible; lia). by rewrite parse_unsigned_show. Qed.

(** Decides which of the type names a known one is. *)
Ltac name_type :=
  repeat match goal with
  | |- context [one_of ?k ?l] => let b := eval vm_compute in (one_of k l) in change (one_of k l) with b; cbv iota
  end.

Lemma value_passes v : passable v → value_from_pass (value_to_pass v).1 (value_to_pass v).2 = v.
Proof.
  destruct v; cbn [passable value_to_pass fst snd]; intros H; try done; unfold value_from_pass, is_u32 in *;
    name_type; rewrite ?shown_unsigned by (unfold u32_max; lia); try done.
  - rewrite trim_visible by apply show_i_visible. rewrite parse_signed_show; [done|]. unfold is_i64 in H. lia.
  - destruct H as (s & Hs & ->). by rewrite from_utf8_lossy_as_bytes.
  - rewrite trim_visible by by apply display_visible. by rewrite Oid.from_str_display_ok.
  - rewrite trim_visible by by apply show_ipv4_visible. by rewrite parse_show_ipv4.
Qed.

(** ** Replies *)

Definition print_reply (o : Oid) (v : Value) : text :=
  Oid.display o ++ 10 :: (value_to_pass v).1 ++ 10 :: (value_to_pass v).2 ++ [10].

(** A text that a reply can hold on its last line. *)
Definition on_one_line (x : text) : Prop := Forall (λ c, c ≠ 10) x ∧ trim_end x = x.

Lemma trim_end_no_cr x : trim_end x = x → strip_cr x = x.
Proof.
  intros H. unfold strip_cr. destruct (ends_with 13 x) eqn:E; [|done]. exfalso. revert E H.
  unfold ends_with. destruct x as [|c x _] using rev_ind; [done|]. rewrite last_snoc.
  intros ->%Z.eqb_eq. unfold trim_end, trim_start. rewrite rev_app_distr. cbn.
  intros H. apply (f_equal length) in H. rewrite length_app, length_rev in H. cbn in H.
  assert (length (trim_start_matches is_whitespace (rev x)) <= length x)%nat; [|lia].
  rewrite <- (length_rev x). generalize (rev x). intros l. induction l as [|d l IH]; cbn; [lia|].
  destruct (is_whitespace d); cbn; lia.
Qed.

Lemma visible_no_newline s : ascii_visible s → Forall (λ c, c ≠ 10) s.
Proof. intros H. eapply Forall_impl; [exact H|]. cbn. lia. Qed.

Lemma lines_of_reply a t x : ascii_visible a → ascii_visible t → on_one_line x →
  lines (a ++ 10 :: t ++ 10 :: x ++ [10]) = [a; t; x].
Proof.
  intros Ha Ht [Hx Hc]. unfold lines.
  rewrite !split_app by (done || by apply visible_no_newline).
  change (split 10 []) with [[] : text]. cbn [last removelast]. cbn -[strip_cr].
  by rewrite !trim_end_no_cr by (done || by apply trim_end_visible).
Qed.

Lemma type_visible v : ascii_visible (value_to_pass v).1.
Proof. destruct v; cbn; repeat (constructor; [lia|]); constructor. Qed.

Lemma reply_read o v : Oid.wf o → o ≠ [] → on_one_line (value_to_pass v).2 →
  parse_pass_reply (print_reply o v) = Some (mkReply o (value_to_pass v).1 (value_to_pass v).2).
Proof.
  intros Hw Hne Hx. pose proof (display_visible o Hw) as Hd. unfold parse_pass_reply, print_reply.
  rewrite lines_of_reply by (done || apply type_visible). rewrite trim_visible by done.
  rewrite bool_decide_eq_false_2 by (destruct o; [done|]; discriminate).
  assert (eq_ignore_case (Oid.display o) (str "NONE") = false) as ->.
  { destruct o; [done|]. unfold eq_ignore_case. cbn. by apply bool_decide_eq_false_2. }
  cbn [orb]. rewrite Oid.from_str_display_ok by done. cbn -[trim trim_end value_to_pass].
  rewrite trim_visible by apply type_visible. destruct Hx as [_ ->]. done.
Qed.

(** ** A script that keeps the protocol *)

Section Script.
Context {W : Type} {P : Processes W} (fuel : nat) (h : PassHandler).
Context (program : text) (base : list text) (Hc : split_command (command h) = Some (program, base)).
Context (Hp : persist h = false).
Context (inv : W → Prop) (held : W → cells).

(** What the script prints: three lines, or the word for nothing. *)
Definition printed (c : option (Oid * Value)) : bytes :=
  as_bytes (match c with Some (o, v) => print_reply o v | None => str "NONE" ++ [10] end).

(** The script keeps cells under the root, ordered, with values that pass, and
    answers each call from them. *)
Record keeps_protocol : Prop := {
  kp_sorted w : inv w → strictly_sorted (held w);
  kp_cells w c : inv w → c ∈ held w →
    Oid.is_prefix_of (root h) c.1 = true ∧ Oid.wf c.1 ∧ c.1 ≠ [] ∧ passable c.2 ∧ on_one_line (value_to_pass c.2).2;
  kp_get w o : inv w → Oid.wf o → ∃ w',
    p_output program (base ++ [str "-g"; Oid.display o]) w = (Some (printed (pair o <$> lookup_cell o (held w))), w') ∧
    inv w' ∧ held w' = held w;
  kp_next w o : inv w → Oid.wf o → ∃ w',
    p_output program (base ++ [str "-n"; Oid.display o]) w = (Some (printed (successor o (held w))), w') ∧
    inv w' ∧ held w' = held w
}.

Lemma passed_text v : passable v → is_text (value_to_pass v).2.
Proof.
  destruct v; cbn; intros H; try done.
  - apply visible_text, show_i_visible.
  - destruct H as (s & Hs & ->). by rewrite from_utf8_lossy_as_bytes.
  - by apply visible_text, display_visible.
  - by apply visible_text, show_ipv4_visible.
  - apply visible_text, show_u_visible, H.
  - apply visible_text, show_u_visible, H.
  - apply visible_text, show_u_visible, H.
  - apply visible_text, show_u_visible, H.
Qed.

Lemma printed_read c : (∀ o v, c = Some (o, v) → Oid.wf o ∧ o ≠ [] ∧ passable v ∧ on_one_line (value_to_pass v).2) →
  parse_pass_reply (from_utf8_lossy (printed c)) =
    (fun c => mkReply c.1 (value_to_pass c.2).1 (value_to_pass c.2).2) <$> c.
Proof.
  intros Hs. unfold printed. destruct c as [[o v]|]; [|by vm_compute].
  destruct (Hs o v eq_refl) as (Hw & Hne & Hv & Hx). rewrite from_utf8_lossy_as_bytes; [by apply reply_read|].
  unfold print_reply. apply Forall_app. split; [by apply visible_text, display_visible|].
  constructor; [unfold is_char; lia|]. apply Forall_app. split; [apply visible_text, type_visible|].
  constructor; [unfold is_char; lia|]. apply Forall_app. split; [by apply passed_text|].
  constructor; [unfold is_char; lia|constructor].
Qed.

(** The subtree of a script that keeps the protocol is served like that of a
    native handler: every GET from the cells the script keeps, every GETNEXT
    with the successor among them. *)
Theorem script_serves (K : keeps_protocol) s o : inv (world s) → Oid.wf o →
  (∃ s', get_impl fuel h o s = (lookup_cell o (held (world s)), s') ∧ inv (world s') ∧ held (world s') = held (world s)) ∧
  (∃ s', get_next_impl fuel h o s = (to_reading <$> successor o (held (world s)), s') ∧
    inv (world s') ∧ held (world s') = held (world s)).
Proof using Hc Hp.
  intros Hi Hw. unfold get_impl, get_next_impl, run_oneshot. rewrite Hp, Hc. cbn [mode_args]. split.
  - destruct (kp_get K (world s) o Hi Hw) as (w' & E & Hi' & Hh). exists (mkState w' (child s)).
    unfold sbind, in_world, sret. rewrite E. cbn -[parse_pass_reply]. split; [|done]. f_equal.
    rewrite printed_read.
    + destruct (lookup_cell o _) as [v|] eqn:El; [|done]. cbn. f_equal. apply value_passes.
      apply lookup_cell_Some in El; [|by apply (kp_sorted K)]. by apply (kp_cells K (world s) (o, v)).
    + intros o' v E'. destruct (lookup_cell o _) as [x|] eqn:El; [|done]. injection E' as <- <-.
      apply lookup_cell_Some in El; [|by apply (kp_sorted K)]. by destruct (kp_cells K (world s) (o, x) Hi El).
  - destruct (kp_next K (world s) o Hi Hw) as (w' & E & Hi' & Hh). exists (mkState w' (child s)).
    unfold sbind, in_world, sret. rewrite E. cbn -[parse_pass_reply]. split; [|done]. f_equal.
    rewrite printed_read.
    + destruct (successor o _) as [c|] eqn:Es; [|done]. apply successor_elem in Es as [Hin _].
      destruct (kp_cells K (world s) c Hi Hin) as (Hr & _ & _ & Hv & _). cbn. rewrite Hr. cbn.
      unfold to_reading. by rewrite value_passes.
    + intros o' v E'. apply successor_elem in E' as [Hin _]. by destruct (kp_cells K (world s) (o', v) Hi Hin).
Qed.
End Script.

(** ** Commands *)

Definition escape_word (w : text) : text := flat_map (fun c => [92; c]) w.

Lemma split_escaped w rest cur ws any : w ≠ [] →
  split_loop (escape_word w ++ rest) Plain cur ws any = split_loop rest Plain (cur ++ w) ws true.
Proof.
  intros Hw. revert cur any. induction w as [|c w IH]; intros cur any; [done|]. cbn [escape_word flat_map app split_loop].
  change (92 =? 92) with true. cbv iota. destruct w as [|d w]; [done|]. rewrite IH by done. by rewrite <- app_assoc.
Qed.

(** A command whose words are escaped is split into those words. *)
Theorem split_command_escaped program args : program ≠ [] → Forall (λ w, w ≠ []) args →
  split_command (escape_word program ++ flat_map (fun w => 32 :: escape_word w) args) = Some (program, args).
Proof.
  intros Hp Ha. unfold split_command. rewrite split_escaped by done. cbn [app].
  assert (L : ∀ ws cur, cur ≠ [] →
    split_loop (flat_map (λ w, 32 :: escape_word w) args) Plain cur ws true = Some (ws ++ cur :: args, true)).
  { induction Ha as [|w args Hw _ IH]; intros ws cur Hcur; cbn [flat_map].
    - cbn [split_loop]. by rewrite bool_decide_eq_false_2.
    - cbn [app split_loop]. change (is_whitespace 32) with true. cbn. rewrite bool_decide_eq_false_2 by done.
      rewrite split_escaped by done. cbn [app]. rewrite IH by done. by rewrite <- app_assoc. }
  by rewrite L.
Qed.

(** An empty argument is lost, and a directive keeps only the first word of its
    command. *)
Example empty_argument_is_lost : split_command (str "cmd '' x") = Some (str "cmd", [str "x"]).
Proof. vm_compute. reflexivity. Qed.

Example directive_keeps_one_word :
  parse_pass_directive (str "1.3.6.1.4.1.9 /bin/sh /opt/script") = Some ([1; 3; 6; 1; 4; 1; 9], str "/bin/sh").
Proof. vm_compute. reflexivity. Qed.

(** ** A script kept alive *)

(** A child whose output arrives in the given pieces. *)
#[local] Instance pieces : Processes (list bytes) := {|
  p_output _ _ := sret None;
  p_spawn _ _ := sret true;
  p_write _ := sret true;
  p_read w := match w with c :: w' => (Some c, w') | [] => (None, []) end;
|}.

(** The blank line that ends a reply is left to the next request when it does
    not arrive together with the value: that request is taken to have no
    answer, and the one after it gets an answer to another question. *)
Example late_blank_line :
  let h := pass_persist [1; 3] (str "script") in
  let s0 := mkState [str ".1.3.1
integer
1
"; [10]; str ".1.3.2
integer
2

"] false in
  let '(r1, s1) := get_impl 9 h [1; 3; 1] s0 in
  let '(r2, s2) := get_impl 9 h [1; 3; 2] s1 in
  let '(r3, _) := get_impl 9 h [1; 3; 3] s2 in
  (r1, r2, r3) = (Some (VInteger 1), None, Some (VInteger 2)).
Proof. vm_compute. reflexivity. Qed.

(** ** Witness *)

Definition demo_held (_ : unit) : cells :=
  [([1; 3; 6; 1; 4; 1; 9; 1; 0], VInteger 5); ([1; 3; 6; 1; 4; 1; 9; 2; 0], VOctetString (str "up and running"))].

Definition demo_script (args : list text) : option bytes :=
  match args with
  | [mode; t] =>
      let! o := ok_of (Oid.from_str t) in
      Some (printed (if bool_decide (mode = str "-g") then pair o <$> lookup_cell o (demo_held tt)
                     else successor o (demo_held tt)))
  | _ => None
  end.

#[local] Instance demo_processes : Processes unit := {|
  p_output _ args := sret (demo_script args);
  p_spawn _ _ := sret false;
  p_write _ := sret false;
  p_read := sret None;
|}.

Definition demo_pass : PassHandler := pass [1; 3; 6; 1; 4; 1; 9] (str "/opt/script").

Lemma demo_keeps : keeps_protocol demo_pass (str "/opt/script") [] (λ _, True) demo_held.
Proof.
  split.
  - intros w _. repeat (constructor; try done).
  - intros w c _. unfold demo_held. rewrite !elem_of_cons, elem_of_nil. intros [->|[->|[]]]; cbn [fst snd].
    + split_and!; [done|by apply Oid.wf_check|done|unfold passable, is_i64; lia|].
      split; [by apply visible_no_newline, show_i_visible|by vm_compute].
    + split_and!; [done|by apply Oid.wf_check|done| |split; [|by vm_compute]].
      * exists (str "up and running"). split; [|by vm_compute]. unfold is_text, is_char. cbn. repeat (constructor; [lia|]). constructor.
      * vm_compute. repeat (constructor; [discriminate|]). constructor.
  - intros [] o _ Ho. exists tt. split; [|done]. cbn -[printed Oid.display]. unfold demo_script, sret.
    rewrite Oid.from_str_display_ok by done. by rewrite bool_decide_eq_true_2.
  - intros [] o _ Ho. exists tt. split; [|done]. cbn -[printed Oid.display]. unfold demo_script, sret.
    rewrite Oid.from_str_display_ok by done. by rewrite bool_decide_eq_false_2.
Qed.

Lemma script_serves_witness : ∃ s',
  get_next_impl 9 demo_pass [1; 3; 6; 1; 4; 1; 9; 1; 0] (mkState tt false) =
    (Some (mkReading [1; 3; 6; 1; 4; 1; 9; 2; 0] (VOctetString (str "up and running"))), s').
Proof.
  destruct (script_serves 9 demo_pass (str "/opt/script") [] eq_refl eq_refl (λ _, True) demo_held demo_keeps
    (mkState tt false) [1; 3; 6; 1; 4; 1; 9; 1; 0] Logic.I) as [_ (s' & E & _)].
  - by apply Oid.wf_check.
  - exists s'. exact E.
Defined.

Lemma split_command_escaped_witness :
  split_command (escape_word (str "sh") ++ flat_map (fun w => 32 :: escape_word w) [str "-c"; str "a 'b c"]) =
    Some (str "sh", [str "-c"; str "a 'b c"]).
Proof. apply (split_command_escaped (str "sh") [str "-c"; str "a 'b c"]); [done|by repeat constructor]. Defined.
