(* ===== verification/ProcNet.v ===== *)
(** * The network groups ([tcp.rs], [udp.rs], [ip.rs], [icmp.rs], [route.rs] and
    [at.rs] of [crates/netsnmp-agent/src/mibgroup/])

    The parsers of [/proc/net] and the cells built from what they read. The
    file system is a function from paths to contents. *)

From Stdlib Require Import ZArith Lia.
From S2P Require Import Prelude MachineInts Text Oid Value Pdu Config Cells Handler Snapshots Scalar Persist MibTables.
From S2P Require Registry.

Local Open Scope list_scope.

(** [fs::read_to_string(path).unwrap_or_default()]. *)
Definition read_proc (fs : text → option bytes) (path : text) : text :=
  default [] (let! b := fs path in from_utf8 b).

(** ** Numbers in hexadecimal *)

Fixpoint hex_number (acc : Z) (s : text) : option Z :=
  match s with
  | [] => Some acc
  | c :: s' => let! d := hex_value c in hex_number (acc * 16 + d) s'
  end.

(** [from_str_radix(_, 16)] of an unsigned type. *)
Definition from_str_radix_16 (max : Z) (s : text) : option Z :=
  match (match s with 43 :: s' => s' | _ => s end) with
  | [] => None
  | ds => let! n := hex_number 0 ds in if n <=? max then Some n else None
  end.

Definition swap_bytes (w : Z) : Z := from_be_bytes (to_le_bytes 4 w).

(** [Ipv4Addr::from(u32)]. *)
Definition ipv4_from (w : Z) : Ipv4Addr :=
  match to_be_bytes 4 w with [a; b; c; d] => mkIpv4 a b c d | _ => mkIpv4 0 0 0 0 end.

Definition parse_hex_ipv4 (s : text) : option Ipv4Addr :=
  let s := trim s in
  if negb (length (as_bytes s) =? 8)%nat then None
  else let! word := from_str_radix_16 u32_max s in Some (ipv4_from (swap_bytes word)).

Definition parse_hex_port (s : text) : option Z := from_str_radix_16 65535 (trim s).

(** ** The columns of [/proc/net/snmp] *)

Definition has_prefix (p s : text) : bool := bool_decide (take (length p) s = p).

(** The names and values of the first two lines that start with the prefix. *)
Definition snmp_columns (prefix snmp : text) : list (text * text) :=
  match List.filter (has_prefix prefix) (lines snmp) with
  | header :: data :: _ =>
      zip (split_whitespace (drop (length prefix) header)) (split_whitespace (drop (length prefix) data))
  | _ => []
  end.

(** The loop that assigns the columns to the fields of a structure, seen by the
    field that the name [n] selects. *)
Definition column (parse : text → option Z) (cols : list (text * text)) (n : text) : Z :=
  fold_left (fun out '(name, val) => if bool_decide (name = n) then default 0 (parse val) else out) cols 0.

Definition counter (cols : list (text * text)) (n : string) : Z := column (parse_unsigned u32_max) cols (str n).
Definition integer (cols : list (text * text)) (n : string) : Z := column (parse_signed i64_min i64_max) cols (str n).

(** ** Cells *)

(** The scalars of a group. *)
Definition scalar_cells (root : Oid) (cols : list (Z * Value)) : cells :=
  btree_of ((fun c => (Oid.child (Oid.child root c.1) 0, c.2)) <$> cols).

(** A table: the columns of each row at its index. *)
Definition table_cells {A} (entry : Oid) (index : A → Oid) (cols : A → list (Z * Value)) (rows : list A) : cells :=
  btree_of (flat_map (fun r => row_cells entry (index r) (cols r)) rows).

Definition skip_line (s : text) : list text := drop 1 (lines s).

(** Rows of a file after its first line; those that do not parse are skipped. *)
Definition parse_rows {A} (row : list text → option A) (s : text) : list A :=
  omap (fun line => row (split_whitespace line)) (skip_line s).

(** ** [tcp.rs] *)

Module Tcp.

Definition TCP : Oid := [1; 3; 6; 1; 2; 1; 6].

Record TcpScalars := mkTcpScalars {
  active_opens : Z; passive_opens : Z; attempt_fails : Z; estab_resets : Z; curr_estab : Z;
  in_segs : Z; out_segs : Z; retrans_segs : Z; in_errs : Z; out_rsts : Z }.

Record TcpConn := mkTcpConn {
  state : Z; local_addr : Ipv4Addr; local_port : Z; rem_addr : Ipv4Addr; rem_port : Z }.

Definition map_tcp_state (hex : text) : Z :=
  let h := trim hex in
  if bool_decide (h = str "01") then 5
  else if bool_decide (h = str "02") then 2
  else if bool_decide (h = str "03") then 3
  else if bool_decide (h = str "04") then 4
  else if bool_decide (h = str "05") then 5
  else if bool_decide (h = str "06") then 11
  else if bool_decide (h = str "07") then 1
  else if bool_decide (h = str "08") then 8
  else if bool_decide (h = str "09") then 9
  else if bool_decide (h = str "0A") then 2
  else if bool_decide (h = str "0B") then 10
  else 1.

Definition parse_tcp_scalars (snmp : text) : TcpScalars :=
  let cols := snmp_columns (str "Tcp:") snmp in
  mkTcpScalars (counter cols "ActiveOpens") (counter cols "PassiveOpens") (counter cols "AttemptFails")
    (counter cols "EstabResets") (counter cols "CurrEstab") (counter cols "InSegs") (counter cols "OutSegs")
    (counter cols "RetransSegs") (counter cols "InErrs") (counter cols "OutRsts").

Definition parse_conn (fields : list text) : option TcpConn :=
  match fields with
  | _ :: l :: r :: st :: _ =>
      let! (laddr, lport) := split_once 58 l in
      let! (raddr, rport) := split_once 58 r in
      let! local_addr := parse_hex_ipv4 laddr in
      let! local_port := parse_hex_port lport in
      let! rem_addr := parse_hex_ipv4 raddr in
      let! rem_port := parse_hex_port rport in
      Some (mkTcpConn (map_tcp_state st) local_addr local_port rem_addr rem_port)
  | _ => None
  end.

Definition parse_tcp_conns (tcp : text) : list TcpConn := parse_rows parse_conn tcp.

Definition tcp_scalar_cells (s : TcpScalars) : cells :=
  scalar_cells TCP [
    (1, VInteger 1); (2, VInteger 200); (3, VInteger 120000); (4, VInteger (-1));
    (5, VCounter32 (active_opens s)); (6, VCounter32 (passive_opens s)); (7, VCounter32 (attempt_fails s));
    (8, VCounter32 (estab_resets s)); (9, VGauge32 (curr_estab s)); (10, VCounter32 (in_segs s));
    (11, VCounter32 (out_segs s)); (12, VCounter32 (retrans_segs s)); (13, VCounter32 (in_errs s));
    (14, VCounter32 (out_rsts s))].

Definition entry : Oid := Oid.child (Oid.child (Oid.child TCP 13) 1) 1.

Definition conn_index (c : TcpConn) : Oid :=
  octets (local_addr c) ++ [local_port c] ++ octets (rem_addr c) ++ [rem_port c].

Definition conn_columns (c : TcpConn) : list (Z * Value) := [
  (1, VInteger (state c)); (2, VIpAddress (local_addr c)); (3, VInteger (local_port c));
  (4, VIpAddress (rem_addr c)); (5, VInteger (rem_port c))].

Definition tcp_conn_cells (conns : list TcpConn) : cells := table_cells entry conn_index conn_columns conns.

Definition tcp_all_cells (fs : text → option bytes) : cells :=
  tcp_scalar_cells (parse_tcp_scalars (read_proc fs (str "/proc/net/snmp"))) ++
  tcp_conn_cells (parse_tcp_conns (read_proc fs (str "/proc/net/tcp"))).

End Tcp.

(** ** [udp.rs] *)

Module Udp.

Definition UDP : Oid := [1; 3; 6; 1; 2; 1; 7].

Record UdpScalars := mkUdpScalars { in_datagrams : Z; no_ports : Z; in_errors : Z; out_datagrams : Z }.
Record UdpEntry := mkUdpEntry { local_addr : Ipv4Addr; local_port : Z }.

Definition parse_udp_scalars (snmp : text) : UdpScalars :=
  let cols := snmp_columns (str "Udp:") snmp in
  mkUdpScalars (counter cols "InDatagrams") (counter cols "NoPorts") (counter cols "InErrors")
    (counter cols "OutDatagrams").

Definition parse_entry (fields : list text) : option UdpEntry :=
  match fields with
  | _ :: l :: _ =>
      let! (addr, port) := split_once 58 l in
      let! local_addr := parse_hex_ipv4 addr in
      let! local_port := parse_hex_port port in
      Some (mkUdpEntry local_addr local_port)
  | _ => None
  end.

Definition parse_udp_entries (udp : text) : list UdpEntry := parse_rows parse_entry udp.

Definition udp_scalar_cells (s : UdpScalars) : cells :=
  scalar_cells UDP [
    (1, VCounter32 (in_datagrams s)); (2, VCounter32 (no_ports s)); (3, VCounter32 (in_errors s));
    (4, VCounter32 (out_datagrams s))].

Definition entry : Oid := Oid.child (Oid.child (Oid.child UDP 5) 1) 1.
Definition entry_index (e : UdpEntry) : Oid := octets (local_addr e) ++ [local_port e].
Definition entry_columns (e : UdpEntry) : list (Z * Value) :=
  [(1, VIpAddress (local_addr e)); (2, VInteger (local_port e))].

Definition udp_entry_cells (entries : list UdpEntry) : cells := table_cells entry entry_index entry_columns entries.

Definition udp_all_cells (fs : text → option bytes) : cells :=
  udp_scalar_cells (parse_udp_scalars (read_proc fs (str "/proc/net/snmp"))) ++
  udp_entry_cells (parse_udp_entries (read_proc fs (str "/proc/net/udp"))).

End Udp.

(** ** [ip.rs] *)

Module Ip.

Definition IP : Oid := [1; 3; 6; 1; 2; 1; 4].

Record IpScalars := mkIpScalars {
  forwarding : Z; default_ttl : Z; in_receives : Z; in_hdr_errors : Z; in_addr_errors : Z; forw_datagrams : Z;
  in_unknown_protos : Z; in_discards : Z; in_delivers : Z; out_requests : Z; out_discards : Z; out_no_routes : Z;
  reasm_timeout : Z; reasm_reqds : Z; reasm_oks : Z; reasm_fails : Z; frag_oks : Z; frag_fails : Z; frag_creates : Z }.

Record ArpEntry := mkArp { if_index : Z; phys_address : bytes; net_address : Ipv4Addr; media_type : Z }.

Definition parse_ip_scalars (snmp : text) : IpScalars :=
  let cols := snmp_columns (str "Ip:") snmp in
  mkIpScalars (integer cols "Forwarding") (integer cols "DefaultTTL") (counter cols "InReceives")
    (counter cols "InHdrErrors") (counter cols "InAddrErrors") (counter cols "ForwDatagrams")
    (counter cols "InUnknownProtos") (counter cols "InDiscards") (counter cols "InDelivers")
    (counter cols "OutRequests") (counter cols "OutDiscards") (counter cols "OutNoRoutes")
    (integer cols "ReasmTimeout") (counter cols "ReasmReqds") (counter cols "ReasmOKs") (counter cols "ReasmFails")
    (counter cols "FragOKs") (counter cols "FragFails") (counter cols "FragCreates").

Definition parse_mac (s : text) : bytes := omap (from_str_radix_16 255) (split 58 (trim s)).

(** [trim_start_matches("0x")]: every leading one is removed. *)
Fixpoint strip_0x (s : text) : text :=
  match s with 48 :: 120 :: s' => strip_0x s' | _ => s end.

Definition flag_bits (s : text) : Z := default 0 (from_str_radix_16 u32_max (strip_0x s)).

(** The 1-based position of a device among those met so far, and those met. *)
Definition device_index (device : text) (devices : list text) : Z * list text :=
  let devices := if bool_decide (device ∈ devices) then devices else devices ++ [device] in
  (match list_find (device =.) devices with Some (i, _) => Z.of_nat i + 1 | None => 0 end, devices).

Definition parse_arp (devices : list text) (fields : list text) : option (ArpEntry * list text) :=
  match fields with
  | ip :: _ :: flags :: mac :: _ :: device :: _ =>
      let! net_address := parse_ipv4 ip in
      let phys_address := parse_mac mac in
      if negb (length phys_address =? 6)%nat || forallb (fun b => b =? 0) phys_address then None
      else
        let '(idx, devices) := device_index device devices in
        let media := if negb (Z.land (flag_bits flags) 2 =? 0) then 4 else 3 in
        Some (mkArp (as_u32 idx) phys_address net_address media, devices)
  | _ => None
  end.

Fixpoint arp_rows (devices : list text) (ls : list text) : list ArpEntry :=
  match ls with
  | [] => []
  | line :: ls' =>
      match parse_arp devices (split_whitespace line) with
      | Some (e, devices') => e :: arp_rows devices' ls'
      | None => arp_rows devices ls'
      end
  end.

Definition parse_arp_entries (arp : text) : list ArpEntry := arp_rows [] (skip_line arp).

Definition ip_scalar_cells (s : IpScalars) : cells :=
  scalar_cells IP [
    (1, VInteger (forwarding s)); (2, VInteger (default_ttl s)); (3, VCounter32 (in_receives s));
    (4, VCounter32 (in_hdr_errors s)); (5, VCounter32 (in_addr_errors s)); (6, VCounter32 (forw_datagrams s));
    (7, VCounter32 (in_unknown_protos s)); (8, VCounter32 (in_discards s)); (9, VCounter32 (in_delivers s));
    (10, VCounter32 (out_requests s)); (11, VCounter32 (out_discards s)); (12, VCounter32 (out_no_routes s));
    (13, VInteger (reasm_timeout s)); (14, VCounter32 (reasm_reqds s)); (15, VCounter32 (reasm_oks s));
    (16, VCounter32 (reasm_fails s)); (17, VCounter32 (frag_oks s)); (18, VCounter32 (frag_fails s));
    (19, VCounter32 (frag_creates s))].

Definition arp_index (e : ArpEntry) : Oid := if_index e :: octets (net_address e).

Definition media_entry : Oid := Oid.child (Oid.child (Oid.child IP 22) 1) 1.
Definition media_columns (e : ArpEntry) : list (Z * Value) := [
  (1, VInteger (if_index e)); (2, VOctetString (phys_address e)); (3, VIpAddress (net_address e));
  (4, VInteger (media_type e))].

Definition ip_net_to_media_cells (entries : list ArpEntry) : cells :=
  table_cells media_entry arp_index media_columns entries.

Definition ip_all_cells (fs : text → option bytes) : cells :=
  ip_scalar_cells (parse_ip_scalars (read_proc fs (str "/proc/net/snmp"))) ++
  ip_net_to_media_cells (parse_arp_entries (read_proc fs (str "/proc/net/arp"))).

End Ip.

(** ** [icmp.rs] *)

Module Icmp.

Definition ICMP : Oid := [1; 3; 6; 1; 2; 1; 5].

Record IcmpScalars := mkIcmpScalars {
  in_msgs : Z; in_errors : Z; in_dest_unreachs : Z; in_time_excds : Z; in_parm_probs : Z; in_src_quenchs : Z;
  in_redirects : Z; in_echos : Z; in_echo_reps : Z; in_timestamps : Z; in_timestamp_reps : Z;
  in_addr_masks : Z; in_addr_mask_reps : Z; out_msgs : Z; out_errors : Z; out_dest_unreachs : Z;
  out_time_excds : Z; out_parm_probs : Z; out_src_quenchs : Z; out_redirects : Z; out_echos : Z;
  out_echo_reps : Z; out_timestamps : Z; out_timestamp_reps : Z; out_addr_masks : Z; out_addr_mask_reps : Z }.

(** [COLUMN_MAP] and [set_field]: the name of each field in the file. *)
Definition parse_icmp_scalars (snmp : text) : IcmpScalars :=
  let cols := snmp_columns (str "Icmp:") snmp in
  mkIcmpScalars
    (counter cols "InMsgs") (counter cols "InErrors") (counter cols "InDestUnreachs")
    (counter cols "InTimeExcds") (counter cols "InParmProbs") (counter cols "InSrcQuenchs")
    (counter cols "InRedirects") (counter cols "InEchos") (counter cols "InEchoReps")
    (counter cols "InTimestamps") (counter cols "InTimestampReps") (counter cols "InAddrMasks")
    (counter cols "InAddrMaskReps") (counter cols "OutMsgs") (counter cols "OutErrors")
    (counter cols "OutDestUnreachs") (counter cols "OutTimeExcds") (counter cols "OutParmProbs")
    (counter cols "OutSrcQuenchs") (counter cols "OutRedirects") (counter cols "OutEchos")
    (counter cols "OutEchoReps") (counter cols "OutTimestamps") (counter cols "OutTimestampReps")
    (counter cols "OutAddrMasks") (counter cols "OutAddrMaskReps").

Definition icmp_values (s : IcmpScalars) : list (Z * Z) := [
    (1, in_msgs s); (2, in_errors s); (3, in_dest_unreachs s); (4, in_time_excds s); (5, in_parm_probs s);
    (6, in_src_quenchs s); (7, in_redirects s); (8, in_echos s); (9, in_echo_reps s); (10, in_timestamps s);
    (11, in_timestamp_reps s); (12, in_addr_masks s); (13, in_addr_mask_reps s); (14, out_msgs s);
    (15, out_errors s); (16, out_dest_unreachs s); (17, out_time_excds s); (18, out_parm_probs s);
    (19, out_src_quenchs s); (20, out_redirects s); (21, out_echos s); (22, out_echo_reps s);
    (23, out_timestamps s); (24, out_timestamp_reps s); (25, out_addr_masks s); (26, out_addr_mask_reps s)].

Definition icmp_scalar_cells (s : IcmpScalars) : cells :=
  scalar_cells ICMP ((fun '(col, v) => (col, VCounter32 v)) <$> icmp_values s).

Definition icmp_all_cells (fs : text → option bytes) : cells :=
  icmp_scalar_cells (parse_icmp_scalars (read_proc fs (str "/proc/net/snmp"))).

End Icmp.

(** ** [route.rs] *)

Module Route.

Record RouteEntry := mkRoute {
  dest : Ipv4Addr; if_index : Z; metric1 : Z; metric2 : Z; metric3 : Z; metric4 : Z; next_hop : Ipv4Addr;
  route_type : Z; route_proto : Z; mask : Ipv4Addr }.

Definition parse_route (devices : list text) (fields : list text) : option (RouteEntry * list text) :=
  match fields with
  | iface :: d :: g :: flags :: _ :: _ :: metric :: m :: _ =>
      let! dest := parse_hex_ipv4 d in
      let! gateway := parse_hex_ipv4 g in
      let! mask := parse_hex_ipv4 m in
      let '(idx, devices) := Ip.device_index iface devices in
      Some (mkRoute dest idx (default (-1) (parse_signed i64_min i64_max metric)) (-1) (-1) (-1) gateway
              (if negb (Z.land (Ip.flag_bits flags) 2 =? 0) then 4 else 3)
              (if bool_decide (iface = str "lo") then 2 else 1) mask, devices)
  | _ => None
  end.

Fixpoint route_rows (devices : list text) (ls : list text) : list RouteEntry :=
  match ls with
  | [] => []
  | line :: ls' =>
      match parse_route devices (split_whitespace line) with
      | Some (r, devices') => r :: route_rows devices' ls'
      | None => route_rows devices ls'
      end
  end.

Definition parse_route_entries (route : text) : list RouteEntry := route_rows [] (skip_line route).

Definition entry : Oid := Oid.child (Oid.child (Oid.child Ip.IP 21) 1) 1.
Definition route_index (r : RouteEntry) : Oid := octets (dest r).
Definition route_columns (r : RouteEntry) : list (Z * Value) := [
  (1, VIpAddress (dest r)); (2, VInteger (if_index r)); (3, VInteger (metric1 r)); (4, VInteger (metric2 r));
  (5, VInteger (metric3 r)); (6, VInteger (metric4 r)); (7, VIpAddress (next_hop r)); (8, VInteger (route_type r));
  (9, VInteger (route_proto r)); (11, VIpAddress (mask r))].

Definition route_cells (entries : list RouteEntry) : cells := table_cells entry route_index route_columns entries.

Definition route_all_cells (fs : text → option bytes) : cells :=
  route_cells (parse_route_entries (read_proc fs (str "/proc/net/route"))).

End Route.

(** ** [at.rs] *)

Module At.

Definition AT : Oid := [1; 3; 6; 1; 2; 1; 3].
Definition entry : Oid := Oid.child (Oid.child (Oid.child AT 1) 1) 1.
Definition at_columns (e : Ip.ArpEntry) : list (Z * Value) :=
  [(1, VInteger (Ip.if_index e)); (2, VOctetString (Ip.phys_address e)); (3, VIpAddress (Ip.net_address e))].
Definition at_cells (entries : list Ip.ArpEntry) : cells := table_cells entry Ip.arp_index at_columns entries.

Definition at_all_cells (fs : text → option bytes) : cells :=
  at_cells (Ip.parse_arp_entries (read_proc fs (str "/proc/net/arp"))).

End At.

(** ** The handlers *)

(** [tcp_handlers], [udp_handlers], [ip_handlers], [icmp_handlers],
    [route_handler] and [at_handler]: their roots and providers. *)
Definition proc_handlers : list (Oid * ((text → option bytes) → cells)) := [
  (Tcp.TCP, Tcp.tcp_all_cells); (Udp.UDP, Udp.udp_all_cells); (Ip.IP, Ip.ip_all_cells);
  (Icmp.ICMP, Icmp.icmp_all_cells); (Oid.child (Oid.child Ip.IP 21) 1, Route.route_all_cells);
  (Oid.child At.AT 1, At.at_all_cells)].

(** * Whatever the files hold, the tables can be served *)

Lemma provides_btree r l : (∀ x, x ∈ l → Oid.is_prefix_of r x.1 = true) → Snapshot.provides r (btree_of l).
Proof.
  intros H. split; [|intros x Hx%btree_of_incl; by apply H].
  pose proof (btree_of_sorted l) as S. induction S as [|c m S IH HF]; cbn; constructor; [|exact IH].
  intros (d & E & Hd)%list_elem_of_fmap. rewrite Forall_forall in HF. specialize (HF d Hd).
  unfold cells_lt in HF. rewrite E in HF. by apply Oid.lt_irrefl in HF.
Qed.

Lemma provides_app r a b : Snapshot.provides r a → Snapshot.provides r b → (∀ x y, x ∈ a → y ∈ b → x.1 ≠ y.1) →
  Snapshot.provides r (a ++ b).
Proof.
  intros [Na Ua] [Nb Ub] D. split; [|intros x [?|?]%elem_of_app; [by apply Ua|by apply Ub]].
  rewrite fmap_app. apply NoDup_app. split_and!; [done| |done].
  intros o (x & -> & Hx)%list_elem_of_fmap (y & E & Hy)%list_elem_of_fmap. by destruct (D x y).
Qed.

Lemma scalar_cell_shape root cols x : x ∈ scalar_cells root cols → ∃ c, (c, x.2) ∈ cols ∧ x.1 = root ++ [c; 0].
Proof.
  intros (c & -> & Hc)%btree_of_incl%list_elem_of_fmap. exists c.1. destruct c. split; [done|].
  cbn. unfold Oid.child. by rewrite <- app_assoc.
Qed.

Lemma table_cell_shape {A} entry (index : A → Oid) cols rows x :
  x ∈ table_cells entry index cols rows → ∃ r c, r ∈ rows ∧ (c, x.2) ∈ cols r ∧ x.1 = entry ++ c :: index r.
Proof.
  intros H%btree_of_incl%list_elem_of_In%in_flat_map. destruct H as (r & Hr%list_elem_of_In & H%list_elem_of_In).
  apply list_elem_of_fmap in H as (c & -> & Hc). exists r, c.1. by destruct c.
Qed.

Lemma scalars_provided root cols : Snapshot.provides root (scalar_cells root cols).
Proof.
  apply provides_btree. intros x (c & -> & _)%list_elem_of_fmap. apply Oid.is_prefix_of_spec.
  cbn. unfold Oid.child. rewrite <- app_assoc. by eexists.
Qed.

(** A table below a root. *)
Lemma table_provided {A} root s (index : A → Oid) cols rows :
  Snapshot.provides root (table_cells (root ++ s) index cols rows).
Proof.
  apply provides_btree. intros x H%list_elem_of_In%in_flat_map. destruct H as (r & _ & H%list_elem_of_In).
  apply list_elem_of_fmap in H as (c & -> & _). apply Oid.is_prefix_of_spec. cbn. rewrite <- app_assoc. by eexists.
Qed.

(** A group: its scalars and a table three arcs below the root. *)
Lemma group_provided {A} root a b c cols (index : A → Oid) tcols rows :
  Snapshot.provides root (scalar_cells root cols ++ table_cells (root ++ [a; b; c]) index tcols rows).
Proof.
  apply provides_app; [apply scalars_provided|apply table_provided|].
  intros x y (d & _ & ->)%scalar_cell_shape (r & e & _ & _ & ->)%table_cell_shape E%(f_equal length).
  rewrite !length_app in E. cbn in E. lia.
Qed.

Lemma proc_provided : Forall (λ '(r, build), ∀ fs, Snapshot.provides r (build fs)) proc_handlers.
Proof.
  unfold proc_handlers. rewrite !Forall_cons. split_and!; [intros fs..|apply Forall_nil_2];
    [exact (group_provided Tcp.TCP 13 1 1 _ _ _ _)|exact (group_provided Udp.UDP 5 1 1 _ _ _ _)
    |exact (group_provided Ip.IP 22 1 1 _ _ _ _)|exact (scalars_provided Icmp.ICMP _)
    |exact (table_provided (Ip.IP ++ [21; 1]) [1] _ _ _)|exact (table_provided (At.AT ++ [1]) [1; 1] _ _ _)].
Qed.

(** ** What a table holds *)

(** The column of a row. *)
Definition value_of (cols : list (Z * Value)) (c : Z) : option Value :=
  snd <$> find (fun x => x.1 =? c) cols.

(** The last of the rows with an index. *)
Definition last_row {A} (index : A → Oid) (i : Oid) (rows : list A) : option A :=
  find (fun r => bool_decide (index r = i)) (rev rows).

Lemma find_cons {A} (p : A → bool) x l : find p (x :: l) = if p x then Some x else find p l.
Proof. done. Qed.


Lemma last_row_some {A} (index : A → Oid) rows r : r ∈ rows → ∃ r', last_row index (index r) rows = Some r'.
Proof.
  intros H. unfold last_row. destruct (find _ (rev rows)) as [r'|] eqn:E; [by eexists|].
  rewrite list_elem_of_In, in_rev in H. pose proof (find_none _ _ E r H) as F. cbn in F.
  by rewrite bool_decide_eq_true_2 in F.
Qed.

Lemma last_row_fmap {A B} (index : B → Oid) (f : A → B) i rows :
  last_row index i (f <$> rows) = f <$> last_row (λ r, index (f r)) i rows.
Proof.
  unfold last_row. rewrite <- map_rev. induction (rev rows) as [|r l IH]; [done|].
  cbn [map]. rewrite !find_cons. by case_bool_decide.
Qed.

Lemma lookup_cell_app o l m :
  lookup_cell o (l ++ m) = match lookup_cell o l with Some v => Some v | None => lookup_cell o m end.
Proof.
  unfold lookup_cell. induction l as [|c l IH]; cbn; [done|]. by destruct (Oid.eqb c.1 o).
Qed.

Lemma lookup_cell_absent o l : (∀ x, x ∈ l → x.1 ≠ o) → lookup_cell o l = None.
Proof.
  intros H. destruct (lookup_cell o l) as [v|] eqn:E; [|done]. apply lookup_cell_elem in E. by destruct (H _ E).
Qed.

Lemma lookup_row entry i cols c : NoDup cols.*1 →
  lookup_cell (entry ++ c :: i) (rev (row_cells entry i cols)) = value_of cols c.
Proof.
  unfold row_cells, value_of. induction cols as [|[d v] cols IH]; cbn [fmap list_fmap rev]; [done|].
  intros [Hd Hn]%NoDup_cons. rewrite lookup_cell_app, IH by done. unfold lookup_cell at 1. rewrite !find_cons.
  cbn [fst snd]. destruct (Z.eqb_spec d c) as [->|Hdc].
  - rewrite Oid.eqb_refl. destruct (find _ cols) as [[e w]|] eqn:E; [|done]. exfalso. apply Hd.
    apply find_some in E as [E%list_elem_of_In%(list_elem_of_fmap_2 fst) H]. by apply Z.eqb_eq in H as <-.
  - rewrite (proj2 (Oid.eqb_neq _ _)) by (intros E%app_inv_head; congruence). by destruct (find _ cols).
Qed.

Lemma find_rev_names names cols c : (cols : list (Z * Value)).*1 = names → value_of cols c = None ↔ c ∉ names.
Proof.
  intros <-. unfold value_of. rewrite fmap_None. split.
  - intros H (x & -> & Hx%list_elem_of_In)%list_elem_of_fmap. pose proof (find_none _ _ H x Hx) as E.
    cbn in E. by rewrite Z.eqb_refl in E.
  - intros H. destruct (find _ cols) as [x|] eqn:E; [|done]. apply find_some in E as [Hx E%Z.eqb_eq].
    destruct H. rewrite <- E. by apply list_elem_of_fmap_2, list_elem_of_In.
Qed.

(** A table whose rows have the same columns: a cell belongs to the last row
    with its index. *)
Lemma table_lookup {A} entry (index : A → Oid) cols names rows c i :
  (∀ r, (cols r).*1 = names) → NoDup names →
  lookup_cell (entry ++ c :: i) (table_cells entry index cols rows) =
  let! r := last_row index i rows in value_of (cols r) c.
Proof.
  intros Hn Hd. unfold table_cells. rewrite lookup_btree_of. unfold last_row.
  induction rows as [|r rows IH] using rev_ind; [done|].
  rewrite flat_map_app, !rev_app_distr. cbn [flat_map rev app]. rewrite find_cons, app_nil_r, lookup_cell_app.
  case_bool_decide as E.
  - subst i. rewrite lookup_row by (by rewrite Hn). destruct (value_of (cols r) c) as [v|] eqn:V; [done|].
    rewrite IH. cbn. rewrite V. apply (find_rev_names names) in V; [|apply Hn].
    destruct (find _ (rev rows)) as [r'|]; cbn; [|done]. by apply (find_rev_names names).
  - rewrite lookup_cell_absent; [exact IH|]. intros x Hx%list_elem_of_In%in_rev%list_elem_of_In.
    apply list_elem_of_fmap in Hx as (d & -> & _). by intros [= _ H]%app_inv_head.
Qed.

(** What a group with scalars and a table serves in the table. *)
Lemma group_served {A} root a b e cols (index : A → Oid) tcols names rows c i :
  (∀ r, (tcols r).*1 = names) → NoDup names →
  served (FnHandler.handler root) (scalar_cells root cols ++ table_cells (root ++ [a; b; e]) index tcols rows)
    ((root ++ [a; b; e]) ++ c :: i) =
  let! r := last_row index i rows in value_of (tcols r) c.
Proof.
  intros Hn Hd. apply option_eq. intros x. rewrite served_provided by apply group_provided.
  rewrite <- (table_lookup (root ++ [a; b; e]) index tcols names rows c i Hn Hd), lookup_cell_Some by apply btree_of_sorted.
  rewrite elem_of_app. split; [|by right]. intros [(d & _ & E%(f_equal length))%scalar_cell_shape|H]; [|done].
  cbn in E. rewrite !length_app in E. cbn in E. lia.
Qed.

(** * What the kernel prints comes back *)

(** [%0kX]. *)
Fixpoint hex_digits (k : nat) (n : Z) : text :=
  match k with O => [] | S k' => hex_digits k' (n / 16) ++ [hex_upper (n mod 16)] end.

Lemma hex_value_upper d : 0 <= d < 16 → hex_value (hex_upper d) = Some d.
Proof.
  intros H. unfold hex_value, hex_upper. destruct (Z.ltb_spec d 10).
  - replace (_ && _) with true by lia. f_equal. lia.
  - replace ((48 <=? 55 + d) && (55 + d <=? 57)) with false by lia.
    replace ((97 <=? 55 + d) && (55 + d <=? 102)) with false by lia.
    replace (_ && _) with true by lia. f_equal. lia.
Qed.

Lemma hex_number_app acc s t : hex_number acc (s ++ t) = let! n := hex_number acc s in hex_number n t.
Proof. revert acc. induction s as [|c s IH]; intros acc; cbn; [done|]. destruct (hex_value c); cbn; [apply IH|done]. Qed.

Lemma hex_number_digits k n acc : 0 <= n < 16 ^ Z.of_nat k →
  hex_number acc (hex_digits k n) = Some (acc * 16 ^ Z.of_nat k + n).
Proof.
  revert n acc. induction k as [|k IH]; intros n acc H; cbn [hex_digits].
  { cbn. f_equal. cbn in H. lia. }
  rewrite Nat2Z.inj_succ, Z.pow_succ_r in H |- * by lia.
  rewrite hex_number_app, IH by (Z.div_mod_to_equations; lia). cbn [mbind option_bind hex_number].
  rewrite hex_value_upper by (apply Z.mod_pos_bound; lia). cbn. f_equal.
  Z.div_mod_to_equations. lia.
Qed.

Lemma length_hex_digits k n : length (hex_digits k n) = k.
Proof. revert n. induction k; intros n; cbn; [done|]. rewrite length_app, IHk. cbn. lia. Qed.

Definition hex_char (c : Z) : Prop := 48 <= c <= 57 ∨ 65 <= c <= 70.

Lemma hex_digits_chars k n : Forall hex_char (hex_digits k n).
Proof.
  revert n. induction k; intros n; cbn; [constructor|]. apply Forall_app. split; [done|].
  apply Forall_singleton. unfold hex_char, hex_upper. pose proof (Z.mod_pos_bound n 16). case_match; lia.
Qed.

Lemma hex_chars_unblank s : Forall hex_char s → Forall (λ c, is_whitespace c = false) s.
Proof. intros H. eapply Forall_impl; [exact H|]. unfold hex_char, is_whitespace. cbn. lia. Qed.

Lemma from_str_radix_digits max k n : (0 < k)%nat → 0 <= n < 16 ^ Z.of_nat k → n <= max →
  from_str_radix_16 max (hex_digits k n) = Some n.
Proof.
  intros Hk Hn Hm. unfold from_str_radix_16. pose proof (hex_digits_chars k n) as C.
  pose proof (length_hex_digits k n) as L. pose proof (hex_number_digits k n 0 Hn) as E.
  destruct (hex_digits k n) as [|c s]; [cbn in L; lia|]. apply Forall_cons in C as [C _].
  assert ((match c :: s with 43 :: s' => s' | _ => c :: s end) = c :: s) as ->.
  { destruct C as [C|C]; destruct c as [|p|p]; try lia; repeat (destruct p as [p|p|]; try lia; try reflexivity). }
  rewrite E. cbn [mbind option_bind]. rewrite Z.mul_0_l, Z.add_0_l. by rewrite (proj2 (Z.leb_le _ _) Hm).
Qed.

(** The address as the kernel prints it: the word a little-endian machine reads. *)
Definition show_hex_ipv4 (ip : Ipv4Addr) : text := hex_digits 8 (from_le_bytes (octets ip)).

Lemma parse_hex_ipv4_show ip : is_ipv4 ip → parse_hex_ipv4 (show_hex_ipv4 ip) = Some ip.
Proof.
  intros H. unfold parse_hex_ipv4, show_hex_ipv4.
  rewrite trim_id by apply hex_chars_unblank, hex_digits_chars.
  rewrite as_bytes_ascii by (eapply Forall_impl; [apply hex_digits_chars|]; unfold hex_char; cbn; lia).
  rewrite length_hex_digits. cbn [Nat.eqb negb].
  pose proof (from_le_bytes_range (octets ip) H) as R.
  assert (0 <= from_le_bytes (octets ip) < 4294967296) as R' by exact R.
  rewrite from_str_radix_digits; [|lia|exact R|unfold u32_max; lia].
  cbn [mbind option_bind]. f_equal. unfold swap_bytes, ipv4_from, from_be_bytes, to_be_bytes.
  pose proof (to_from_le_bytes (octets ip) H) as E. change (length (octets ip)) with 4%nat in E. rewrite E.
  pose proof (to_from_le_bytes (rev (octets ip))) as E'. change (length (rev (octets ip))) with 4%nat in E'.
  rewrite E' by (by apply Forall_rev). rewrite rev_involutive. by destruct ip.
Qed.

Lemma parse_hex_port_show p : is_u16 p → parse_hex_port (hex_digits 4 p) = Some p.
Proof.
  intros H. unfold parse_hex_port, is_u16 in *. rewrite trim_id by apply hex_chars_unblank, hex_digits_chars.
  apply from_str_radix_digits; [lia|exact H|lia].
Qed.

(** ** The connection table *)

(** A socket of the kernel, and the line of [/proc/net/tcp] that shows it: its
    number after some blanks, the two ends, the state and further columns. *)
Record Socket := mkSocket {
  pad : nat; slot : text; sk_local : Ipv4Addr; sk_local_port : Z; sk_rem : Ipv4Addr; sk_rem_port : Z; sk_state : Z;
  further : text }.

Definition show_end (ip : Ipv4Addr) (port : Z) : text := show_hex_ipv4 ip ++ 58 :: hex_digits 4 port.

Definition show_socket (k : Socket) : text :=
  replicate (pad k) 32 ++ slot k ++ 32 :: show_end (sk_local k) (sk_local_port k) ++ 32 ::
  show_end (sk_rem k) (sk_rem_port k) ++ 32 :: hex_digits 2 (sk_state k) ++ 32 :: further k.

Definition show_sockets (header : text) (ks : list Socket) : text :=
  flat_map (fun l => l ++ [NEWLINE]) (header :: (show_socket <$> ks)).

Record shown_socket (k : Socket) : Prop := {
  ss_slot : slot k ≠ [] ∧ Forall (λ c, is_whitespace c = false) (slot k);
  ss_text : is_text (slot k) ∧ is_text (further k);
  ss_further : Forall (λ c, c ≠ NEWLINE) (further k) ∧ last (further k) ≠ Some 13;
  ss_ends : is_ipv4 (sk_local k) ∧ is_u16 (sk_local_port k) ∧ is_ipv4 (sk_rem k) ∧ is_u16 (sk_rem_port k)
}.

Definition conn_of (k : Socket) : Tcp.TcpConn :=
  Tcp.mkTcpConn (Tcp.map_tcp_state (hex_digits 2 (sk_state k))) (sk_local k) (sk_local_port k) (sk_rem k) (sk_rem_port k).

Lemma split_blanks n s : split_whitespace (replicate n 32 ++ s) = split_whitespace s.
Proof. induction n as [|n IH]; [done|]. cbn. exact IH. Qed.

Lemma end_unblank ip port : Forall (λ c, is_whitespace c = false) (show_end ip port).
Proof.
  unfold show_end. apply Forall_app. split; [apply hex_chars_unblank, hex_digits_chars|].
  constructor; [done|apply hex_chars_unblank, hex_digits_chars].
Qed.

Lemma split_end ip port : split_once 58 (show_end ip port) = Some (show_hex_ipv4 ip, hex_digits 4 port).
Proof.
  apply split_once_app. eapply Forall_impl; [apply hex_digits_chars|]. unfold hex_char. cbn. lia.
Qed.

Lemma socket_read k : shown_socket k → Tcp.parse_conn (split_whitespace (show_socket k)) = Some (conn_of k).
Proof.
  intros [[S1 S2] _ _ (A1 & P1 & A2 & P2)]. unfold show_socket. rewrite split_blanks.
  assert (∀ ip port, show_end ip port ≠ []) as Hne by (intros ip port; unfold show_end; by destruct (show_hex_ipv4 ip)).
  rewrite !split_whitespace_cons by (done || apply end_unblank || apply hex_chars_unblank, hex_digits_chars).
  unfold Tcp.parse_conn. rewrite !split_end. cbn [mbind option_bind].
  by rewrite !parse_hex_ipv4_show, !parse_hex_port_show by done.
Qed.

Lemma unblank_one_line s : Forall (λ c, is_whitespace c = false) s → one_line s.
Proof. intros H. eapply Forall_impl; [exact H|]. intros c Hw. cbn in Hw. unfold is_whitespace, NEWLINE in *. lia. Qed.

Lemma socket_one_line k : shown_socket k → one_line (show_socket k) ∧ no_cr (show_socket k).
Proof.
  intros [[_ S] _ [F C] _]. unfold show_socket. split.
  - assert (∀ a b, one_line a → one_line b → one_line (a ++ 32 :: b)) as Join.
    { intros a b Ha Hb. apply Forall_app. split; [done|]. by constructor. }
    apply Forall_app. split; [by apply Forall_replicate|].
    repeat apply Join; try done;
      apply unblank_one_line; first [exact S|apply end_unblank|apply hex_chars_unblank, hex_digits_chars].
  - unfold no_cr. rewrite !app_comm_cons, !app_assoc, last_app, last_cons.
    by destruct (last (further k)).
Qed.

Lemma lines_shown header ks : one_line header → no_cr header → Forall shown_socket ks →
  lines (show_sockets header ks) = header :: (show_socket <$> ks).
Proof.
  intros Hh Hc HF. apply lines_of; (constructor; [done|]); apply Forall_fmap; eapply Forall_impl; try exact HF;
    intros k Hk; cbn; apply (socket_one_line k Hk).
Qed.

Lemma shown_text header ks : is_text header → Forall shown_socket ks → is_text (show_sockets header ks).
Proof.
  intros Hh HF. unfold show_sockets. cbn [flat_map].
  assert (∀ s, Forall hex_char s → is_text s) as Hex.
  { intros s H. eapply Forall_impl; [exact H|]. unfold hex_char, is_char. cbn. lia. }
  assert (∀ ip port, is_text (show_end ip port)) as He.
  { intros ip port. apply Forall_app. split; [apply Hex, hex_digits_chars|].
    constructor; [unfold is_char; lia|apply Hex, hex_digits_chars]. }
  assert (∀ a b, is_text a → is_text b → is_text (a ++ 32 :: b)) as Join.
  { intros a b Ha Hb. apply Forall_app. split; [done|]. constructor; [unfold is_char; lia|done]. }
  apply Forall_app. split; [apply Forall_app; split; [done|repeat constructor; unfold is_char, NEWLINE; lia]|].
  apply Forall_forall. intros x (l & Hl & Hx)%list_elem_of_In%in_flat_map. apply list_elem_of_In in Hl, Hx.
  apply list_elem_of_fmap in Hl as (k & -> & Hk). rewrite Forall_forall in HF. destruct (HF k Hk) as [_ [T1 T2] _ _].
  revert x Hx. apply Forall_forall. apply Forall_app. split; [|repeat constructor; unfold is_char, NEWLINE; lia].
  apply Forall_app. split; [apply Forall_replicate; unfold is_char; lia|].
  repeat apply Join; try done; apply Hex, hex_digits_chars.
Qed.

Lemma conns_read header ks : one_line header → no_cr header → Forall shown_socket ks →
  Tcp.parse_tcp_conns (show_sockets header ks) = conn_of <$> ks.
Proof.
  intros Hh Hc HF. unfold Tcp.parse_tcp_conns, parse_rows, skip_line. rewrite lines_shown by done. cbn [drop].
  induction HF as [|k ks Hk _ IH]; [done|].
  cbn -[split_whitespace show_socket Tcp.parse_conn conn_of]. rewrite socket_read by done. by rewrite <- IH.
Qed.
Lemma read_text fs path t : is_text t → fs path = Some (as_bytes t) → read_proc fs path = t.
Proof. intros Ht E. unfold read_proc. rewrite E. cbn. by rewrite from_utf8_text. Qed.

(** The two ends as an index. *)
Definition ends_index (la : Ipv4Addr) (lp : Z) (ra : Ipv4Addr) (rp : Z) : Oid :=
  octets la ++ [lp] ++ octets ra ++ [rp].

Definition socket_index (k : Socket) : Oid := ends_index (sk_local k) (sk_local_port k) (sk_rem k) (sk_rem_port k).

(** Every instance under the entry shows a column of the last socket the kernel
    lists with those ends, and there are no others. *)
Theorem tcp_table_shows_sockets fs header ks c i :
  is_text header → one_line header → no_cr header → Forall shown_socket ks →
  fs (str "/proc/net/tcp") = Some (as_bytes (show_sockets header ks)) →
  served (FnHandler.handler Tcp.TCP) (Tcp.tcp_all_cells fs) (Tcp.entry ++ c :: i) =
  let! k := last_row socket_index i ks in
  value_of [(1, VInteger (Tcp.map_tcp_state (hex_digits 2 (sk_state k)))); (2, VIpAddress (sk_local k));
            (3, VInteger (sk_local_port k)); (4, VIpAddress (sk_rem k)); (5, VInteger (sk_rem_port k))] c.
Proof.
  intros Ht Hh Hc HF Hf. unfold Tcp.tcp_all_cells.
  rewrite (read_text fs _ _ (shown_text header ks Ht HF) Hf), conns_read by done.
  etrans; [apply (group_served Tcp.TCP 13 1 1 _ Tcp.conn_index Tcp.conn_columns [1; 2; 3; 4; 5]); [done|columns]|].
  rewrite (last_row_fmap Tcp.conn_index conn_of). by destruct (last_row _ i ks).
Qed.

(** The states RFC 1213 names for the kernel's, and those the table shows. *)
Definition rfc_state (k : Z) : Z := nth (Z.to_nat k) [0; 5; 3; 4; 6; 7; 11; 1; 8; 9; 2; 10] 1.

Lemma tcp_states k : 1 <= k <= 11 → Tcp.map_tcp_state (hex_digits 2 k) = rfc_state k ↔ k ∉ [2; 3; 4; 5].
Proof.
  intros H. assert (k ∈ [1; 2; 3; 4; 5; 6; 7; 8; 9; 10; 11]) as Hk.
  { rewrite !elem_of_cons. lia. }
  clear H. revert k Hk. apply Forall_forall.
  repeat (apply Forall_cons; split; [apply (bool_decide_unpack _); vm_compute; exact I|]). apply Forall_nil_2.
Qed.

(** tcpConnEntry is [tcpConnTable.1]: the cells have one arc more, and no
    instance of the standard columns is there. *)
Lemma standard_instances_missing fs c la lp ra rp :
  served (FnHandler.handler Tcp.TCP) (Tcp.tcp_all_cells fs) (Tcp.TCP ++ [13; 1; c] ++ ends_index la lp ra rp) = None.
Proof.
  destruct (served _ _ _) as [v|] eqn:E; [|done]. apply served_provided in E; [|apply (group_provided Tcp.TCP 13 1 1)].
  apply elem_of_app in E as [(d & _ & E%(f_equal length))%scalar_cell_shape|(r & d & _ & _ & E%(f_equal length))%table_cell_shape];
    discriminate.
Qed.

(** ** A table below another handler's root *)

(** Two handlers in one registry. *)
Definition nested (r1 r2 : Oid) : list (MibHandler (FnHandler.state * FnHandler.state)) :=
  fold_left Registry.register [
    place (mkLens fst (λ s w, (s, w.2))) (FnHandler.handler r1);
    place (mkLens snd (λ s w, (w.1, s))) (FnHandler.handler r2)] [].

(** Their state before the first read. *)
Definition unread (cs1 cs2 : cells) : FnHandler.state * FnHandler.state :=
  (Snapshot.mkState 0 cs1 None, Snapshot.mkState 0 cs2 None).

Lemma unread_next r cs o : Snapshot.provides r cs →
  (get_next (FnHandler.handler r) o (Snapshot.mkState 0 cs None)).1 = to_reading <$> successor o (sort_cells cs).
Proof.
  intros Hp. exact (get_next_view (ReadableHandler:=FnHandler.readable r) o (Snapshot.mkState 0 cs None) (conj Hp I)).
Qed.

Lemma nested_next r1 r2 o w : Oid.leb r1 r2 = true → (Registry.do_get_next (nested r1 r2) o w).1 =
  match (get_next (FnHandler.handler r1) o w.1).1 with
  | Some r => mkVarBind (reading_oid r) (reading_value r)
  | None => match (get_next (FnHandler.handler r2) o w.2).1 with
            | Some r => mkVarBind (reading_oid r) (reading_value r)
            | None => mkVarBind o VEndOfMibView
            end
  end.
Proof.
  intros Hr. unfold Registry.do_get_next, nested, Registry.register.
  cbn -[FnHandler.handler place]. change (root (place _ (FnHandler.handler r1))) with r1.
  change (root (place _ (FnHandler.handler r2))) with r2. rewrite Hr.
  cbn -[FnHandler.handler]. unfold sbind, zoom. cbn -[FnHandler.handler].
  destruct (get_next _ o w.1) as [[r|] s1]; cbn -[FnHandler.handler]; [done|].
  by destruct (get_next _ o w.2) as [[r|] s2].
Qed.

(** When the outer handler has a cell after all those of the inner one, no walk
    finds the inner cells. *)
Lemma outer_hides r1 r2 cs1 cs2 o d :
  Snapshot.provides r1 cs1 → Snapshot.provides r2 cs2 → Oid.leb r1 r2 = true →
  (∀ c, c ∈ cs1 → Oid.is_prefix_of r2 c.1 = false) → d ∈ cs1 → (∀ c, c ∈ cs2 → Oid.lt c.1 d.1) →
  let next := (Registry.do_get_next (nested r1 r2) o (unread cs1 cs2)).1 in
  Oid.is_prefix_of r2 (vb_oid next) = true → vb_value next = VEndOfMibView.
Proof.
  intros P1 P2 Hr Hout Hd Hlt next. subst next. rewrite nested_next by done. cbn [unread fst snd].
  pose proof (unread_next r1 _ o P1) as E1. pose proof (unread_next r2 _ o P2) as E2. rewrite E1, E2. clear E1 E2.
  destruct (successor o (sort_cells cs1)) as [c|] eqn:S1; cbn.
  - apply successor_elem in S1 as [Hc _]. rewrite sort_cells_perm in Hc. by rewrite Hout.
  - destruct (successor o (sort_cells cs2)) as [c|] eqn:S2; cbn; [|done]. intros _. exfalso.
    apply successor_elem in S2 as [Hc Lt]. rewrite sort_cells_perm in Hc.
    rewrite successor_None in S1. apply (S1 d); [by rewrite sort_cells_perm|].
    etransitivity; [exact Lt|by apply Hlt].
Qed.

(** ** The route table behind the ARP cache *)

Definition route_root : Oid := Oid.child (Oid.child Ip.IP 21) 1.

Lemma arp_cell_held fs e : e ∈ Ip.parse_arp_entries (read_proc fs (str "/proc/net/arp")) →
  ∃ v, (Ip.media_entry ++ 1 :: Ip.arp_index e, v) ∈ Ip.ip_all_cells fs.
Proof.
  intros He. destruct (last_row_some Ip.arp_index _ e He) as [r Hr].
  exists (VInteger (Ip.if_index r)). apply elem_of_app. right.
  apply lookup_cell_Some; [apply btree_of_sorted|].
  unfold Ip.ip_net_to_media_cells. rewrite (table_lookup _ _ Ip.media_columns [1; 2; 3; 4]) by (done || columns). by rewrite Hr.
Qed.

Lemma group_cells_outside fs c : c ∈ Ip.ip_all_cells fs → Oid.is_prefix_of route_root c.1 = false.
Proof.
  intros Hc. apply not_true_iff_false. intros [t Ht]%Oid.is_prefix_of_spec.
  apply elem_of_app in Hc as [(d & Hd & E)%scalar_cell_shape|(r & d & _ & _ & E)%table_cell_shape];
    rewrite E in Ht; [|discriminate]. injection Ht as -> _.
  apply (list_elem_of_fmap_2 fst) in Hd. cbn in Hd. rewrite !elem_of_cons, elem_of_nil in Hd. lia.
Qed.

(** While the ARP cache has an entry no walk finds the routes: the handler of
    the group above answers first, and its last cells come after theirs. *)
Theorem routes_are_hidden fs o :
  let next := (Registry.do_get_next (nested Ip.IP route_root) o (unread (Ip.ip_all_cells fs) (Route.route_all_cells fs))).1 in
  Ip.parse_arp_entries (read_proc fs (str "/proc/net/arp")) ≠ [] →
  Oid.is_prefix_of route_root (vb_oid next) = true → vb_value next = VEndOfMibView.
Proof.
  intros next Ha. destruct (Ip.parse_arp_entries _) as [|e es] eqn:Ea; [done|]. clear Ha.
  destruct (arp_cell_held fs e) as [v Hv]; [rewrite Ea; by left|].
  apply (outer_hides _ _ _ _ o _ (group_provided Ip.IP 22 1 1 _ _ _ _) (table_provided (Ip.IP ++ [21; 1]) [1] _ _ _) eq_refl
    (group_cells_outside fs) Hv).
  by intros c (r & d & _ & _ & ->)%table_cell_shape.
Qed.

(** * The sample files of the code's tests *)

Definition demo_file (s : string) (path : text) : option bytes := Some (as_bytes (str s)).

Example tcp_sample : Tcp.parse_tcp_conns (str "sl local
   0: 0100007F:1F90 00000000:0000 0A 00000000:00000000
   1: 0100A8C0:831 0501A8C0:0050 01 00000000:00000000
   junk
") = [
  Tcp.mkTcpConn 2 (mkIpv4 127 0 0 1) 8080 (mkIpv4 0 0 0 0) 0;
  Tcp.mkTcpConn 5 (mkIpv4 192 168 0 1) 2097 (mkIpv4 192 168 1 5) 80].
Proof. vm_compute. reflexivity. Qed.

Example udp_scalars_sample : Udp.parse_udp_scalars (str "Tcp: RtoAlgorithm
Tcp: 1
Udp: InDatagrams NoPorts InErrors OutDatagrams
Udp: 300 4 0 295
") = Udp.mkUdpScalars 300 4 0 295.
Proof. vm_compute. reflexivity. Qed.

Example arp_sample : Ip.parse_arp_entries (str "IP address       HW type     Flags       HW address            Mask     Device
192.168.1.5      0x1         0x2         aa:bb:cc:dd:ee:ff     *        eth0
10.0.0.99        0x1         0x0         00:00:00:00:00:00     *        eth1
192.168.1.1      0x1         0x0         00:11:22:33:44:55     *        wlan0
") = [
  Ip.mkArp 1 [170; 187; 204; 221; 238; 255] (mkIpv4 192 168 1 5) 4;
  Ip.mkArp 2 [0; 17; 34; 51; 68; 85] (mkIpv4 192 168 1 1) 3].
Proof. vm_compute. reflexivity. Qed.

Example route_sample : (Route.next_hop <$> Route.parse_route_entries (str "Iface   Destination
eth0    00000000        0100A8C0        0003    0       0       100     00000000        0       0       0
eth0    0001A8C0        00000000        0001    0       0       0       00FFFFFF        0       0       0
")) = [mkIpv4 192 168 0 1; mkIpv4 0 0 0 0].
Proof. vm_compute. reflexivity. Qed.

(** ** Witnesses *)

Definition demo_sockets : list Socket := [
  mkSocket 3 (str "0:") (mkIpv4 127 0 0 1) 8080 (mkIpv4 0 0 0 0) 0 10 (str "00000000:00000000 0 0 12345");
  mkSocket 3 (str "1:") (mkIpv4 192 168 0 1) 2097 (mkIpv4 192 168 1 5) 80 1 (str "00000000:00000000 0 0 67890")].

Definition demo_header : text := str "  sl  local_address rem_address   st".

Definition demo_fs (path : text) : option bytes :=
  if bool_decide (path = str "/proc/net/tcp") then Some (as_bytes (show_sockets demo_header demo_sockets)) else None.

Lemma demo_shown : Forall shown_socket demo_sockets.
Proof.
  repeat (apply Forall_cons; split; [split; apply (bool_decide_unpack _); vm_compute; exact I|]). apply Forall_nil_2.
Qed.

(** The remote port of the connection to the web server. *)
Lemma tcp_table_shows_sockets_witness :
  served (FnHandler.handler Tcp.TCP) (Tcp.tcp_all_cells demo_fs)
    (Tcp.entry ++ 5 :: [192; 168; 0; 1; 2097; 192; 168; 1; 5; 80]) = Some (VInteger 80).
Proof.
  rewrite (tcp_table_shows_sockets demo_fs demo_header demo_sockets); [reflexivity|..|exact demo_shown|reflexivity];
    apply (bool_decide_unpack _); vm_compute; exact I.
Defined.

Definition demo_arp (path : text) : option bytes :=
  if bool_decide (path = str "/proc/net/arp") then Some (as_bytes (str "IP address
192.168.1.5      0x1         0x2         aa:bb:cc:dd:ee:ff     *        eth0
")) else if bool_decide (path = str "/proc/net/route") then Some (as_bytes (str "Iface
eth0    00000000        0100A8C0        0003    0       0       100     00000000
")) else None.

(** A walk to the end of the routes' own subtree finds none of the one there is. *)
Lemma routes_are_hidden_witness :
  Route.route_all_cells demo_arp ≠ [] ∧
  Oid.is_prefix_of route_root (vb_oid (Registry.do_get_next (nested Ip.IP route_root) route_root
      (unread (Ip.ip_all_cells demo_arp) (Route.route_all_cells demo_arp))).1) = false.
Proof.
  split; [vm_compute; discriminate|].
  destruct (Oid.is_prefix_of _ _) eqn:E; [|done].
  pose proof (routes_are_hidden demo_arp route_root) as H. cbv zeta in H.
  specialize (H ltac:(vm_compute; discriminate) E). exfalso. revert H. vm_compute. discriminate.
Defined.
