(* ===== verification/Host.v ===== *)
(** * The host's own data ([collector.rs], [interfaces.rs] and [host.rs] of
    [crates/netsnmp-agent/src/mibgroup/], [fsys.rs] of [hardware/])

    What the throttled collector makes of the values of [sysinfo], and the
    interface, storage, device and process tables built from its snapshots. The
    values [sysinfo] reports, the calendar of [chrono] and the file system are
    parameters. *)

From Stdlib Require Import ZArith Lia.
From S2P Require Import Prelude MachineInts Text Oid Value Pdu Config Cells Handler Snapshots Scalar MibTables ProcNet.

Local Open Scope list_scope.

(** ** [fsys.rs] *)

Inductive FsType :=
  Other | Unknown | BerkeleyFfs | Sys5Fs | Fat | Hpfs | Iso9660 | SoftwareRoute | LinuxExt2 | Xfs.

#[export] Instance fs_type_eq_dec : EqDecision FsType.
Proof. solve_decision. Defined.

Definition as_oid_suffix (t : FsType) : Z :=
  match t with
  | Other => 1 | Unknown => 2 | BerkeleyFfs => 3 | Sys5Fs => 4 | Fat => 6 | Hpfs => 7 | Iso9660 => 8
  | SoftwareRoute => 9 | LinuxExt2 => 10 | Xfs => 14
  end.

Definition is_one_of (s : text) (names : list string) : bool := existsb (fun n => bool_decide (s = str n)) names.

Definition from_fs_string (fs : text) : FsType :=
  let s := to_ascii_lowercase (trim fs) in
  if bool_decide (s = []) then Unknown
  else if is_one_of s ["ext2"; "ext3"; "ext4"]%string then LinuxExt2
  else if is_one_of s ["xfs"]%string then Xfs
  else if is_one_of s ["ntfs"; "ntfs-3g"]%string then Hpfs
  else if is_one_of s ["vfat"; "fat"; "fat32"; "msdos"; "fat16"]%string then Fat
  else if is_one_of s ["iso9660"]%string then Iso9660
  else if is_one_of s ["ufs"; "ffs"; "hfs"; "hfs+"; "apfs"; "zfs"]%string then BerkeleyFfs
  else if is_one_of s ["sysv"; "s5"]%string then Sys5Fs
  else Other.

(** ** The data of [collector.rs] and [interfaces.rs] *)

Record CpuSample := mkCpu { cpu_name : text; usage_pct : Z; freq_mhz : Z }.
Record DiskSample := mkDisk { mount : text; fs : text; total : Z; available : Z }.
Record ProcSample := mkProc { pid : Z; proc_name : text; path : text; mem_kb : Z; cpu_pct : Z; status : Z }.

Record IfStat := mkIfStat {
  if_name : text; rx_bytes : Z; rx_packets : Z; rx_errs : Z; rx_drop : Z;
  tx_bytes : Z; tx_packets : Z; tx_errs : Z; tx_drop : Z }.

Record Interface := mkInterface {
  if_idx : Z; if_type : Z; mtu : Z; speed_bps : Z; phys_address : bytes; admin_up : bool; oper_up : bool; stat : IfStat }.

(** The load averages are floating-point numbers, of a type [F]. *)
Record HostSnapshot (F : Type) := mkHost {
  uptime_secs : Z; num_processes : Z; num_users : Z;
  mem_total : Z; mem_used : Z; mem_free : Z; mem_available : Z; swap_total : Z; swap_used : Z; swap_free : Z;
  cpu_global_pct : Z; load_avg : F * F * F;
  cpus : list CpuSample; disks : list DiskSample; processes : list ProcSample; interfaces : list Interface }.
Arguments mkHost {F}.
Arguments uptime_secs {F}. Arguments num_processes {F}. Arguments num_users {F}.
Arguments mem_total {F}. Arguments mem_used {F}. Arguments mem_free {F}. Arguments mem_available {F}.
Arguments swap_total {F}. Arguments swap_used {F}. Arguments swap_free {F}.
Arguments cpu_global_pct {F}. Arguments load_avg {F}.
Arguments cpus {F}. Arguments disks {F}. Arguments processes {F}. Arguments interfaces {F}.

(** ** What [sysinfo] reports *)

Inductive ProcessStatus :=
  Run | Sleep | Idle | Parked | Waking | Stop | Tracing | UninterruptibleDiskSleep | LockBlocked | Zombie | Dead
| OtherStatus.

(** Names and paths are octets of the operating system; usages are given
    already rounded; a hash map is a list in the order it is iterated. *)
Record SysProcess := mkSysProcess {
  sp_pid : Z; sp_name : bytes; sp_exe : option bytes; sp_memory : Z; sp_usage : Z; sp_status : ProcessStatus }.
Record SysNetwork := mkSysNetwork {
  sn_name : text; sn_mac : text; sn_mtu : Z; sn_received : Z; sn_packets_received : Z; sn_errors_received : Z;
  sn_transmitted : Z; sn_packets_transmitted : Z; sn_errors_transmitted : Z }.
Record SysDisk := mkSysDisk { sd_mount : bytes; sd_fs : bytes; sd_total : Z; sd_available : Z }.

Record SysInfo (F : Type) := mkSysInfo {
  sys_uptime : Z; sys_users : nat;
  sys_total_memory : Z; sys_used_memory : Z; sys_free_memory : Z; sys_available_memory : Z;
  sys_total_swap : Z; sys_used_swap : Z; sys_free_swap : Z;
  sys_global_usage : Z; sys_load : F * F * F;
  sys_cpus : list (text * Z * Z); sys_processes : list SysProcess; sys_networks : list SysNetwork;
  sys_disks : list SysDisk }.
Arguments mkSysInfo {F}.
Arguments sys_uptime {F}. Arguments sys_users {F}.
Arguments sys_total_memory {F}. Arguments sys_used_memory {F}. Arguments sys_free_memory {F}.
Arguments sys_available_memory {F}. Arguments sys_total_swap {F}. Arguments sys_used_swap {F}.
Arguments sys_free_swap {F}. Arguments sys_global_usage {F}. Arguments sys_load {F}.
Arguments sys_cpus {F}. Arguments sys_processes {F}. Arguments sys_networks {F}. Arguments sys_disks {F}.

(** ** The collector *)

Definition REFRESH_INTERVAL : Z := 1500.

Definition map_status (s : ProcessStatus) : Z :=
  match s with
  | Run => 1
  | Sleep | Idle | Parked | Waking => 2
  | Stop | Tracing | UninterruptibleDiskSleep | LockBlocked => 3
  | Zombie | Dead => 4
  | OtherStatus => 2
  end.

(** The order of strings. *)
Definition name_le (a b : text) : bool := Oid.leb (as_bytes a) (as_bytes b).

(** [dedup_by]: of consecutive elements with the same key the first stays. *)
Fixpoint dedup_by {A} (same : A → A → bool) (l : list A) : list A :=
  match l with
  | [] => []
  | x :: l' =>
      match dedup_by same l' with
      | y :: l'' => if same x y then x :: l'' else x :: y :: l''
      | [] => [x]
      end
  end.

Definition process_of (p : SysProcess) : ProcSample :=
  mkProc (sp_pid p) (from_utf8_lossy (sp_name p)) (default [] (from_utf8_lossy <$> sp_exe p))
    (as_i64 (sp_memory p / 1024)) (sp_usage p) (map_status (sp_status p)).

Definition interface_of (i : nat) (n : SysNetwork) : Interface :=
  let is_loopback := has_prefix (str "lo") (sn_name n) in
  mkInterface (as_u32 (Z.of_nat i + 1)) (if is_loopback then 24 else 6) (as_i64 (sn_mtu n)) 0
    (Ip.parse_mac (sn_mac n)) true true
    (mkIfStat (sn_name n) (sn_received n) (sn_packets_received n) (sn_errors_received n) 0
       (sn_transmitted n) (sn_packets_transmitted n) (sn_errors_transmitted n) 0).

Definition disk_of (d : SysDisk) : DiskSample :=
  mkDisk (from_utf8_lossy (sd_mount d)) (from_utf8_lossy (sd_fs d)) (sd_total d) (sd_available d).

Section Collector.
Context {F : Type}.
Implicit Types (s : SysInfo F).

Definition gather_cpus s : list CpuSample := (fun '(n, u, f) => mkCpu n u (as_i64 f)) <$> sys_cpus s.
Definition gather_processes s : list ProcSample :=
  sort_by (fun a b => pid a <=? pid b) (process_of <$> sys_processes s).
Definition gather_interfaces s : list Interface :=
  imap interface_of (sort_by (fun a b => name_le (sn_name a) (sn_name b)) (sys_networks s)).
Definition gather_disks s : list DiskSample :=
  dedup_by (fun a b => bool_decide (mount a = mount b))
    (sort_by (fun a b => name_le (mount a) (mount b)) (disk_of <$> sys_disks s)).

(** What [rebuild] stores. *)
Definition snapshot_of s : HostSnapshot F :=
  mkHost (sys_uptime s) (Z.of_nat (length (sys_processes s))) (Z.of_nat (sys_users s))
    (sys_total_memory s) (sys_used_memory s) (sys_free_memory s) (sys_available_memory s)
    (sys_total_swap s) (sys_used_swap s) (sys_free_swap s) (sys_global_usage s) (sys_load s)
    (gather_cpus s) (gather_disks s) (gather_processes s) (gather_interfaces s).

(** The collector's own state, and the clock and host around it. *)
Record HostCollector := mkCollector { last_refresh : option Z; snap : HostSnapshot F }.
Record CollectorWorld := mkWorld { now : Z; host : SysInfo F; collector : HostCollector }.

Definition rebuild : St CollectorWorld unit := fun w =>
  (tt, mkWorld (now w) (host w) (mkCollector (Some (now w)) (snapshot_of (host w)))).

Definition snapshot : St CollectorWorld (HostSnapshot F) := fun w =>
  let stale := match last_refresh (collector w) with
               | Some t => REFRESH_INTERVAL <=? Z.max 0 (now w - t)
               | None => true
               end in
  let w := if stale then (rebuild w).2 else w in
  (snap (collector w), w).

(** [SysFsysAccess::fs_type]. *)
Definition fs_type (m : text) : St CollectorWorld FsType :=
  let* sn := snapshot in
  sret (match find (fun d => bool_decide (mount d = m)) (disks sn) with
        | Some d => from_fs_string (fs d)
        | None => Unknown
        end).
End Collector.
Arguments HostCollector F : clear implicits.
Arguments CollectorWorld F : clear implicits.

(** ** [interfaces.rs] *)

Definition INTERFACES : Oid := [1; 3; 6; 1; 2; 1; 2].
Definition IF_MIB : Oid := [1; 3; 6; 1; 2; 1; 31].

Definition name_octets (i : Interface) : Value := VOctetString (as_bytes (if_name (stat i))).

Definition if_columns (i : Interface) : list (Z * Value) := [
  (1, VInteger (if_idx i)); (2, name_octets i); (3, VInteger (if_type i)); (4, VInteger (mtu i));
  (5, VGauge32 (speed_bps i)); (6, VOctetString (phys_address i));
  (7, VInteger (if admin_up i then 1 else 2)); (8, VInteger (if oper_up i then 1 else 2)); (9, VTimeTicks 0);
  (10, VCounter32 (as_u32 (rx_bytes (stat i)))); (11, VCounter32 (as_u32 (rx_packets (stat i))));
  (13, VCounter32 (as_u32 (rx_drop (stat i)))); (14, VCounter32 (as_u32 (rx_errs (stat i))));
  (16, VCounter32 (as_u32 (tx_bytes (stat i)))); (17, VCounter32 (as_u32 (tx_packets (stat i))));
  (19, VCounter32 (as_u32 (tx_drop (stat i)))); (20, VCounter32 (as_u32 (tx_errs (stat i))))].

Definition interface_cells (is_ : list Interface) : cells :=
  table_cells (Oid.child (Oid.child INTERFACES 2) 1) (fun i => [if_idx i]) if_columns is_.

Definition ifx_columns (i : Interface) : list (Z * Value) := [
  (1, name_octets i); (2, VCounter32 0); (3, VCounter32 0); (4, VCounter32 0); (5, VCounter32 0);
  (6, VCounter64 (rx_bytes (stat i))); (7, VCounter64 (rx_packets (stat i)));
  (10, VCounter64 (tx_bytes (stat i))); (11, VCounter64 (tx_packets (stat i)));
  (15, VGauge32 (speed_bps i / 1000000)); (18, name_octets i)].

Definition if_xtable_cells (is_ : list Interface) : cells :=
  table_cells (Oid.child (Oid.child (Oid.child IF_MIB 1) 1) 1) (fun i => [if_idx i]) ifx_columns is_.

Definition if_number_cells (is_ : list Interface) : cells :=
  FnHandler.scalar_cells (Oid.child INTERFACES 1) (VInteger (Z.of_nat (length is_))).

(** ** [host.rs]: the tables of the collector *)

Definition HOST : Oid := [1; 3; 6; 1; 2; 1; 25].
Definition HR_STORAGE_TYPE : Oid := [1; 3; 6; 1; 2; 1; 25; 2; 1].
Definition HR_DEVICE_TYPE : Oid := [1; 3; 6; 1; 2; 1; 25; 3; 1].
Definition HR_FS_TYPE : Oid := [1; 3; 6; 1; 2; 1; 25; 3; 9].

(** A local date and time of [chrono], with its offset in seconds. *)
Record DateTime := mkDateTime {
  year : Z; month : Z; day : Z; hour : Z; minute : Z; second : Z; nanosecond : Z; local_minus_utc : Z }.

Definition date_and_time_now (d : DateTime) : bytes :=
  let off_min := Z.quot (local_minus_utc d) 60 in
  let '(sign, off_h, off_m) :=
    if 0 <=? off_min then (43, Z.quot off_min 60, Z.rem off_min 60)
    else (45, Z.quot (- off_min) 60, Z.rem (- off_min) 60) in
  [wrap_u 8 (Z.shiftr (year d) 8); wrap_u 8 (Z.land (year d) 255); wrap_u 8 (month d); wrap_u 8 (day d);
   wrap_u 8 (hour d); wrap_u 8 (minute d); wrap_u 8 (second d); wrap_u 8 (nanosecond d / 100000000);
   sign; wrap_u 8 off_h; wrap_u 8 off_m].

Definition clamp_i32 (v : Z) : Z := Z.max 0 (Z.min v i32_max).

(** The doubling loop; 64 rounds are enough. *)
Fixpoint double_units (fuel : nat) (total units : Z) : Z :=
  match fuel with
  | O => units
  | S fuel' => if i32_max <? total / units then double_units fuel' total (Z.min u64_max (units * 2)) else units
  end.
Definition alloc_units_for (total : Z) : Z := as_i64 (double_units 64 total 4096).

Definition fs_type_oid_for (fs : text) : Oid := Oid.child HR_FS_TYPE (as_oid_suffix (from_fs_string fs)).

Record StorageRow := mkStorage {
  st_index : Z; type_oid : Oid; descr : text; alloc_units : Z; size : Z; used : Z }.

Definition storage_columns (r : StorageRow) : list (Z * Value) := [
  (1, VInteger (st_index r)); (2, VOid (type_oid r)); (3, VOctetString (as_bytes (descr r)));
  (4, VInteger (alloc_units r)); (5, VInteger (size r)); (6, VInteger (used r))].

Definition storage_table_cells (rows : list StorageRow) : cells :=
  table_cells (Oid.child (Oid.child (Oid.child HOST 2) 3) 1) (fun r => [st_index r]) storage_columns rows.

Definition memory_row (index : Z) (kind : Z) (d : string) (tot use : Z) : list StorageRow :=
  if 0 <? tot then
    [mkStorage index (Oid.child HR_STORAGE_TYPE kind) (str d) 1024 (clamp_i32 (as_i64 (tot / 1024)))
       (clamp_i32 (as_i64 (use / 1024)))]
  else [].

Definition disk_row (i : nat) (d : DiskSample) : StorageRow :=
  let units := alloc_units_for (total d) in
  let used_bytes := saturating_sub_u (total d) (available d) in
  mkStorage (as_u32 (4 + Z.of_nat i)) (Oid.child HR_STORAGE_TYPE 4)
    (if bool_decide (fs d = []) then mount d else mount d ++ str " (" ++ fs d ++ str ")")
    units (clamp_i32 (as_i64 (total d / wrap_u 64 units))) (clamp_i32 (as_i64 (used_bytes / wrap_u 64 units))).

Section Tables.
Context {F : Type}.
Implicit Types (s : HostSnapshot F).

Definition storage_rows s : list StorageRow :=
  memory_row 1 2 "Physical memory" (mem_total s) (mem_used s) ++
  memory_row 3 3 "Swap space" (swap_total s) (swap_used s) ++
  imap disk_row (disks s).

Definition scalar_at (base : Oid) (c : Z) (v : Value) : Oid * Value := (Oid.child (Oid.child base c) 0, v).

Definition hr_system_cells (d : DateTime) s : cells :=
  let base := Oid.child HOST 1 in
  [scalar_at base 1 (VTimeTicks (Z.min (Z.min u64_max (uptime_secs s * 100)) u32_max));
   scalar_at base 2 (VOctetString (date_and_time_now d));
   scalar_at base 5 (VGauge32 (as_u32 (clamp_i32 (num_users s))));
   scalar_at base 6 (VGauge32 (as_u32 (clamp_i32 (num_processes s))));
   scalar_at base 7 (VInteger 0)].

Definition hr_storage_cells s : cells :=
  scalar_at (Oid.child HOST 2) 2 (VInteger (clamp_i32 (as_i64 (mem_total s / 1024)))) ::
  storage_table_cells (storage_rows s).

Definition dev_entry : Oid := Oid.child (Oid.child (Oid.child HOST 3) 2) 1.
Definition proc_entry : Oid := Oid.child (Oid.child (Oid.child HOST 3) 3) 1.
Definition fs_entry : Oid := Oid.child (Oid.child (Oid.child HOST 3) 8) 1.

Definition device_columns (idx : Z) (kind : Z) (d : text) : list (Z * Value) := [
  (1, VInteger idx); (2, VOid (Oid.child HR_DEVICE_TYPE kind)); (3, VOctetString (as_bytes d)); (5, VInteger 2)].

Definition cpu_device (i : nat) (c : CpuSample) : cells :=
  let idx := as_u32 (Z.of_nat i + 1) in
  let d := if 0 <? freq_mhz c then cpu_name c ++ str " @ " ++ show_i (freq_mhz c) ++ str " MHz" else cpu_name c in
  row_cells dev_entry [idx] (device_columns idx 3 d) ++
  row_cells proc_entry [idx] [(1, VOid [0; 0]); (2, VInteger (clamp_i32 (usage_pct c)))].

Definition disk_device (ncpus i : nat) (d : DiskSample) : cells :=
  let idx := as_u32 (Z.of_nat ncpus + Z.of_nat i + 1) in
  let fs_idx := as_u32 (Z.of_nat i + 1) in
  row_cells dev_entry [idx] (device_columns idx 5 (mount d)) ++
  row_cells fs_entry [fs_idx] [
    (1, VInteger fs_idx); (2, VOctetString (as_bytes (mount d))); (3, VOctetString []);
    (4, VOid (fs_type_oid_for (fs d))); (5, VInteger 1); (6, VInteger 2); (7, VInteger (4 + Z.of_nat i));
    (8, VOctetString [2]); (9, VOctetString [2])].

Definition hr_device_cells s : cells :=
  btree_of (concat (imap cpu_device (cpus s)) ++ concat (imap (disk_device (length (cpus s))) (disks s))).

Definition swrun_entry : Oid := Oid.child (Oid.child (Oid.child HOST 4) 2) 1.
Definition swrun_columns (p : ProcSample) : list (Z * Value) := [
  (1, VInteger (pid p)); (2, VOctetString (as_bytes (proc_name p))); (3, VOid [0; 0]);
  (4, VOctetString (as_bytes (path p))); (5, VOctetString []); (6, VInteger 4); (7, VInteger (status p))].

Definition hr_swrun_cells s : cells := table_cells swrun_entry (fun p => [pid p]) swrun_columns (processes s).

Definition hr_swrun_perf_cells s : cells :=
  table_cells (Oid.child (Oid.child (Oid.child HOST 5) 1) 1) (fun p => [pid p])
    (fun p => [(1, VInteger (clamp_i32 (cpu_pct p))); (2, VInteger (clamp_i32 (mem_kb p)))]) (processes s).

Definition hr_network_cells s : cells :=
  btree_of (concat (imap (fun i iface =>
    row_cells (Oid.child (Oid.child (Oid.child (Oid.child HOST 3) 4) 1) 1) [as_u32 (Z.of_nat i + 1)]
      [(1, VInteger (if_idx iface))]) (interfaces s))).
End Tables.

(** ** [host.rs]: the tables read from files *)

(** Reading a file, and the names in a directory. *)
Record FileSystem := mkFs { read_file : text → option bytes; read_dir : text → option (list bytes) }.

Definition read_to_string (f : FileSystem) (p : text) : option text := let! b := read_file f p in from_utf8 b.

Definition read_sys_u64 (f : FileSystem) (p : text) : Z :=
  default 0 (let! s := read_to_string f p in parse_unsigned u64_max (trim s)).
Definition read_sys_bool (f : FileSystem) (p : text) (dflt : Z) : Z :=
  default dflt (let! s := read_to_string f p in parse_signed i64_min i64_max (trim s)).

Definition any_prefix (ps : list string) (s : text) : bool := existsb (fun p => has_prefix (str p) s) ps.

Definition classify_disk_media (name : text) : Z :=
  if any_prefix ["sd"; "nvme"; "hd"; "vd"]%string name then 6
  else if any_prefix ["sr"; "scd"; "cd"]%string name then 11
  else if any_prefix ["fd"]%string name then 3
  else 1.

Definition disk_storage_names (f : FileSystem) : list text :=
  sort_by name_le
    (List.filter (fun n => negb (has_prefix (str "loop") n) && negb (has_prefix (str "ram") n))
       (from_utf8_lossy <$> default [] (read_dir f (str "/sys/block")))).

Record DiskStorageRow := mkDiskStorage { ds_index : Z; access : Z; media : Z; removable : Z; capacity : Z }.

Definition disk_storage_row (f : FileSystem) (i : nat) (name : text) : DiskStorageRow :=
  let file p := str "/sys/block/" ++ name ++ str p in
  mkDiskStorage (as_u32 (Z.of_nat i + 1))
    (if negb (read_sys_bool f (file "/ro"%string) 0 =? 0) then 2 else 1)
    (classify_disk_media name)
    (if negb (read_sys_bool f (file "/removable"%string) 0 =? 0) then 1 else 2)
    (clamp_i32 (as_i64 (Z.min u64_max (read_sys_u64 f (file "/size"%string) * 512)))).

Definition disk_storage_rows (f : FileSystem) : list DiskStorageRow :=
  imap (disk_storage_row f) (disk_storage_names f).

Definition HR_DISK_STORAGE_ENTRY : Oid := [1; 3; 6; 1; 2; 1; 25; 3; 6; 1].
Definition HR_PARTITION_ENTRY : Oid := [1; 3; 6; 1; 2; 1; 25; 3; 7; 1].

Definition hr_disk_storage_cells (f : FileSystem) : cells :=
  table_cells (Oid.child HR_DISK_STORAGE_ENTRY 1) (fun r => [ds_index r])
    (fun r => [(1, VInteger (ds_index r)); (2, VInteger (access r)); (3, VInteger (media r));
               (4, VInteger (removable r)); (5, VInteger (capacity r))]) (disk_storage_rows f).

Record PartitionRow := mkPartition {
  p_index : Z; parent : Z; label : text; p_id : bytes; p_size : Z; p_fs_type : text }.

(** The numbers of the partitions seen so far, per parent disk. *)
Fixpoint partition_loop (disk_names : list text) (part_index : gmap text Z) (ls : list text) : list PartitionRow :=
  match ls with
  | [] => []
  | line :: ls' =>
      let skip := partition_loop disk_names part_index ls' in
      match split_whitespace line with
      | _ :: _ :: blocks :: name :: _ =>
          match parse_signed i64_min i64_max blocks with
          | None => skip
          | Some blocks =>
              match list_find (fun d => has_prefix d name = true) disk_names with
              | None => skip
              | Some (pos, parent_name) =>
                  if bool_decide (name = parent_name) then skip
                  else
                    let idx := as_u32 (default 0 (part_index !! parent_name) + 1) in
                    mkPartition idx (as_u32 (Z.of_nat pos + 1)) name (as_bytes (parent_name ++ show_u idx)) blocks [] ::
                    partition_loop disk_names (<[parent_name := idx]> part_index) ls'
              end
          end
      | _ => skip
      end
  end.

Definition partition_rows (f : FileSystem) : list PartitionRow :=
  match read_to_string f (str "/proc/partitions") with
  | None => []
  | Some contents => partition_loop (disk_storage_names f) ∅ (skip_line contents)
  end.

Definition flat_index (r : PartitionRow) : Z := as_u32 (parent r * 256 + p_index r).

Definition hr_partition_cells (f : FileSystem) : cells :=
  table_cells (Oid.child HR_PARTITION_ENTRY 1) (fun r => [flat_index r])
    (fun r => [(1, VInteger (flat_index r)); (2, VOctetString (as_bytes (label r))); (3, VOctetString (p_id r));
               (4, VInteger (clamp_i32 (p_size r))); (5, VOctetString (as_bytes (p_fs_type r)))]) (partition_rows f).

(** [hr_printer_cells] and [hr_sw_installed_cells]. *)
Definition hr_printer_cells : cells := [].
Definition hr_sw_installed_cells : cells := [].

(** ** [HrSWRunHandler] *)

Module SWRun.

(** The cached cells, and the process identifiers handed to [kill]. *)
Record state := mkState { served : FnHandler.state; killed : list Z }.

Definition cached {A} (m : St FnHandler.state A) : St state A := fun s =>
  let '(x, c) := m (served s) in (x, mkState c (killed s)).

Definition get (o : Oid) : St state (option Value) := cached (FnHandler.get o).
Definition get_next (o : Oid) : St state (option Reading) := cached (FnHandler.get_next o).

Definition HRSWRUN_STATUS_COL : Z := 7.
Definition HRSWRUN_STATUS_INVALID : Z := 4.
Definition status_entry : Oid := Oid.child (Oid.child (Oid.child (Oid.child HOST 4) 2) 1) HRSWRUN_STATUS_COL.

Definition prepare_set (o : Oid) (v : Value) : St state status_result :=
  if negb (Oid.is_prefix_of status_entry o) || negb (length o =? length status_entry + 1)%nat
  then sret (Err NotWritable)
  else
    let* current := get o in
    sret (match current with
          | None => Err NoCreation
          | Some c =>
              if negb (types_compatible c v) then Err WrongType
              else match v with
                   | VInteger n => if (1 <=? n) && (n <=? 4) then Ok tt else Err WrongValue
                   | _ => Err WrongType
                   end
          end).

Definition commit_set (o : Oid) (v : Value) : St state status_result := fun s =>
  let p := default 0 (last o) in
  let act := match v with VInteger n => n =? HRSWRUN_STATUS_INVALID | _ => false end in
  (Ok tt, if act && (0 <? p) then mkState (served s) (killed s ++ [p]) else s).

Definition handler : MibHandler state :=
  mkHandler (Oid.child HOST 4) get get_next prepare_set commit_set default_undo_set.

End SWRun.

(** The host and interface handlers: roots and providers. *)
Definition collector_handlers {F} (d : DateTime) : list (Oid * (HostSnapshot F → cells)) := [
  (Oid.child INTERFACES 1, fun s => if_number_cells (interfaces s));
  (Oid.child INTERFACES 2, fun s => interface_cells (interfaces s));
  (IF_MIB, fun s => if_xtable_cells (interfaces s));
  (Oid.child HOST 1, hr_system_cells d); (Oid.child HOST 2, hr_storage_cells);
  (Oid.child HOST 3, hr_device_cells); (Oid.child (Oid.child HOST 3) 4, hr_network_cells);
  (Oid.child HOST 4, hr_swrun_cells); (Oid.child HOST 5, hr_swrun_perf_cells)].

Definition file_handlers : list (Oid * (FileSystem → cells)) := [
  (Oid.child (Oid.child HOST 3) 5, fun _ => hr_printer_cells);
  (Oid.child (Oid.child HOST 3) 6, hr_disk_storage_cells);
  (Oid.child (Oid.child HOST 3) 7, hr_partition_cells);
  (Oid.child (Oid.child HOST 6) 3, fun _ => hr_sw_installed_cells)].

(** ** Handlers that share the collector *)

Section Live.
Context {F : Type}.

(** The collector, and the cache of each [FnHandler], whose closure asks the
    collector for a snapshot. *)
Record LiveWorld := mkLive { collected : CollectorWorld F; caches : gmap nat (Z * cells) }.

Definition live_snapshot (k : nat) (build : HostSnapshot F → cells) : St LiveWorld cells := fun w =>
  let refresh :=
    let '(s, c) := snapshot (collected w) in
    let cs := sort_cells (build s) in
    (cs, mkLive c (<[k := (now c, cs)]> (caches w))) in
  match caches w !! k with
  | Some (built, cs) =>
      if Snapshot.is_fresh FnHandler.SNAPSHOT_TTL (now (collected w)) built then (cs, w) else refresh
  | None => refresh
  end.

(** [HostCollector::new]. *)
Definition new_collector (t : Z) (h : SysInfo F) : CollectorWorld F :=
  mkWorld t h (mkCollector (Some t) (snapshot_of h)).

(** A run: time passes and the host changes, and handler [k] reads. The first
    index lists the host at every moment it was looked at. *)
Inductive live_run (builds : nat → HostSnapshot F → cells) : list (Z * SysInfo F) → LiveWorld → Prop :=
| live_start t h : live_run builds [(t, h)] (mkLive (new_collector t h) ∅)
| live_env hist w t h : live_run builds hist w → now (collected w) <= t →
    live_run builds ((t, h) :: hist) (mkLive (mkWorld t h (collector (collected w))) (caches w))
| live_read hist w k : live_run builds hist w → live_run builds hist (live_snapshot k (builds k) w).2.
End Live.
Arguments LiveWorld F : clear implicits.

(** * Sizes *)

Lemma top_unit_fits tot : 0 <= tot <= u64_max → tot / 2 ^ 33 <= i32_max.
Proof. intros H. unfold u64_max, i32_max in *. change (2 ^ 33) with 8589934592. Z.div_mod_to_equations. lia. Qed.

Lemma double_units_spec fuel tot k :
  0 <= tot <= u64_max → 12 <= k <= 33 → 33 <= k + Z.of_nat fuel → k = 12 ∨ i32_max < tot / 2 ^ (k - 1) →
  ∃ j, double_units fuel tot (2 ^ k) = 2 ^ j ∧ 12 <= j <= 33 ∧ tot / 2 ^ j <= i32_max ∧
       (j = 12 ∨ i32_max < tot / 2 ^ (j - 1)).
Proof.
  intros Ht. revert k. induction fuel as [|fuel IH]; intros k Hk Hf Hp; cbn [double_units].
  - exists k. assert (k = 33) as -> by lia. split_and!; try done. by apply top_unit_fits.
  - destruct (Z.ltb_spec i32_max (tot / 2 ^ k)) as [L|L]; [|by exists k].
    assert (k <> 33) by (intros ->; pose proof (top_unit_fits tot Ht); lia).
    rewrite Z.mul_comm, <- Z.pow_succ_r by lia.
    assert (2 ^ Z.succ k <= 2 ^ 33) by (apply Z.pow_le_mono_r; lia).
    rewrite Z.min_r by (unfold u64_max; lia). apply IH; [lia|lia|]. right. by replace (Z.succ k - 1) with k by lia.
Qed.

(** The units of a filesystem: the least power of two from 4096 on for which
    its size fits. *)
Lemma alloc_units_least tot : 0 <= tot <= u64_max → ∃ j, alloc_units_for tot = 2 ^ j ∧ 12 <= j <= 33 ∧
  tot / 2 ^ j <= i32_max ∧ (j = 12 ∨ i32_max < tot / 2 ^ (j - 1)).
Proof.
  intros H. destruct (double_units_spec 64 tot 12 H) as (j & E & Hj & R); [lia|lia|by left|].
  exists j. split; [|done]. unfold alloc_units_for. change 4096 with (2 ^ 12). rewrite E.
  assert (0 < 2 ^ j <= 2 ^ 33) by (split; [apply Z.pow_pos_nonneg; lia|apply Z.pow_le_mono_r; lia]).
  apply wrap_i_id; [lia|]. change (2 ^ (64 - 1)) with 9223372036854775808. lia.
Qed.

(** Every filesystem row shows its capacity without clamping, in units that are
    as small as they can be, and never shows more used than there is. *)
Theorem storage_sizes_exact {F} (s : HostSnapshot F) i d :
  disks s !! i = Some d → 0 <= total d <= u64_max → 0 <= available d →
  ∃ j r, r ∈ storage_rows s ∧ st_index r = as_u32 (4 + Z.of_nat i) ∧ alloc_units r = 2 ^ j ∧ 12 <= j <= 33 ∧
    size r = total d / 2 ^ j ∧ 0 <= used r <= size r ∧ size r <= i32_max ∧
    (j = 12 ∨ i32_max < total d / 2 ^ (j - 1)).
Proof.
  intros Hd Ht Ha. destruct (alloc_units_least (total d) Ht) as (j & E & Hj & Hs & Hl).
  exists j, (disk_row i d). unfold disk_row at 2 3 4 5 6 7 8. cbn [st_index alloc_units size used]. rewrite E.
  assert (P : 0 < 2 ^ j) by (apply Z.pow_pos_nonneg; lia).
  assert (2 ^ j <= 2 ^ 33) by (apply Z.pow_le_mono_r; lia).
  rewrite (wrap_u_id 64) by lia.
  assert (U : 0 <= saturating_sub_u (total d) (available d) <= total d) by (unfold saturating_sub_u; lia).
  pose proof (Z.div_le_mono _ _ (2 ^ j) P (proj2 U)) as M. pose proof (Z.div_pos _ _ (proj1 U) P).
  assert (C : ∀ x, 0 <= x <= i32_max → clamp_i32 (as_i64 x) = x).
  { intros x Hx. unfold clamp_i32, i32_max in *. rewrite wrap_i_id; [lia|lia|].
    change (2 ^ (64 - 1)) with 9223372036854775808. lia. }
  rewrite !C by lia. split_and!; try done; try lia.
  unfold storage_rows. rewrite !elem_of_app. right. right.
  apply list_elem_of_lookup. exists i. by rewrite list_lookup_imap, Hd.
Qed.

(** * The order of the hash maps does not matter *)

Lemma name_le_total a b : name_le a b = false → name_le b a = true.
Proof. unfold name_le. rewrite Oid.leb_le. by intros ?%Oid.leb_gt%Oid.lt_le. Qed.

Lemma name_le_trans a b c : name_le a b = true → name_le b c = true → name_le a c = true.
Proof. unfold name_le. rewrite !Oid.leb_le. intros. by etransitivity. Qed.

Lemma name_le_antisym a b : is_text a → is_text b → name_le a b = true → name_le b a = true → a = b.
Proof.
  unfold name_le. rewrite !Oid.leb_le. intros Ha Hb H1 H2. apply as_bytes_inj; [done..|].
  rewrite Oid.le_lt_or_eq in H1. destruct H1 as [L|?]; [|done].
  destruct (Oid.lt_irrefl (as_bytes a)). by eapply Oid.lt_le_trans.
Qed.

Lemma NoDup_key {A K} (key : A → K) l x y : NoDup (key <$> l) → x ∈ l → y ∈ l → key x = key y → x = y.
Proof.
  intros Hn (i & Hi)%list_elem_of_lookup (j & Hj)%list_elem_of_lookup E.
  assert (i = j) as ->; [|congruence].
  eapply (NoDup_lookup _ _ _ (key x) Hn); rewrite list_lookup_fmap, ?Hi, ?Hj; cbn; congruence.
Qed.

(** Two reports that differ in the order in which networks and processes are
    iterated. *)
Record same_report {F} (s s' : SysInfo F) : Prop := {
  sr_networks : sys_networks s ≡ₚ sys_networks s';
  sr_processes : sys_processes s ≡ₚ sys_processes s';
  sr_rest : s' = mkSysInfo (sys_uptime s) (sys_users s) (sys_total_memory s) (sys_used_memory s) (sys_free_memory s)
    (sys_available_memory s) (sys_total_swap s) (sys_used_swap s) (sys_free_swap s) (sys_global_usage s) (sys_load s)
    (sys_cpus s) (sys_processes s') (sys_networks s') (sys_disks s)
}.

(** The snapshot, and with it every interface index, is the same for both. *)
Theorem snapshot_order_free {F} (s s' : SysInfo F) :
  same_report s s' → NoDup (sn_name <$> sys_networks s) → Forall (λ n, is_text (sn_name n)) (sys_networks s) →
  NoDup (sp_pid <$> sys_processes s) → snapshot_of s = snapshot_of s'.
Proof.
  intros [Pn Pp ->] Hn Ht Hp. unfold snapshot_of.
  cbn [sys_uptime sys_users sys_total_memory sys_used_memory sys_free_memory sys_available_memory sys_total_swap
    sys_used_swap sys_free_swap sys_global_usage sys_load sys_cpus sys_processes sys_networks sys_disks].
  f_equal.
  - by rewrite Pp.
  - unfold gather_processes. cbn [sys_processes]. apply (sort_by_key Z.leb pid); [| | |by rewrite Pp];
      [intros a b; rewrite Z.leb_gt, Z.leb_le; lia|intros a b c; rewrite !Z.leb_le; lia|].
    intros x y (p & -> & Hx)%list_elem_of_fmap (q & -> & Hy)%list_elem_of_fmap L1 L2. f_equal.
    apply (NoDup_key sp_pid (sys_processes s)); [done..|]. cbn in L1, L2. lia.
  - unfold gather_interfaces. cbn [sys_networks]. f_equal.
    apply (sort_by_key name_le sn_name); [apply name_le_total|apply name_le_trans| |done].
    rewrite Forall_forall in Ht. intros x y Hx Hy L1 L2. apply (NoDup_key sn_name (sys_networks s)); [done..|].
    by apply name_le_antisym; [apply Ht|apply Ht|..].
Qed.

(** * The tables show a recent state of the host *)

Section Recent.
Context {F : Type} (builds : nat → HostSnapshot F → cells).

(** The snapshot of a host of the run, looked at between [a] and [b]. *)
Definition seen (hist : list (Z * SysInfo F)) (a b : Z) (s : HostSnapshot F) : Prop :=
  ∃ t h, (t, h) ∈ hist ∧ a < t <= b ∧ s = snapshot_of h.

Record live_inv (hist : list (Z * SysInfo F)) (w : LiveWorld F) : Prop := {
  li_now : (now (collected w), host (collected w)) ∈ hist;
  li_snap : ∃ t h, (t, h) ∈ hist ∧ t <= now (collected w) ∧ collector (collected w) = mkCollector (Some t) (snapshot_of h);
  li_caches k b cs : caches w !! k = Some (b, cs) → b <= now (collected w) ∧
    ∃ s, seen hist (b - REFRESH_INTERVAL) b s ∧ cs = sort_cells (builds k s)
}.

Lemma seen_mono hist hist' a b a' b' s : hist ⊆ hist' → a' <= a → b <= b' → seen hist a b s → seen hist' a' b' s.
Proof. intros H Ha Hb (t & h & Hin & ? & ->). exists t, h. split_and!; [by apply H|lia|lia|done]. Qed.

Lemma snapshot_seen hist w : live_inv hist w →
  let '(s, c) := snapshot (collected w) in
  seen hist (now (collected w) - REFRESH_INTERVAL) (now (collected w)) s ∧
  now c = now (collected w) ∧ host c = host (collected w) ∧
  ∃ t h, (t, h) ∈ hist ∧ t <= now c ∧ collector c = mkCollector (Some t) (snapshot_of h).
Proof.
  intros [Hn (t & h & Hin & Ht & E) _]. unfold snapshot. rewrite E. cbn [last_refresh].
  destruct (Z.leb_spec REFRESH_INTERVAL (Z.max 0 (now (collected w) - t))) as [L|L]; cbn.
  - split_and!; [|done..|]; [exists (now (collected w)), (host (collected w))|].
    + unfold REFRESH_INTERVAL. split_and!; [done|lia|lia|done].
    + eexists _, _. by split_and!; [exact Hn|lia|].
  - rewrite E. cbn. split_and!; [|done..|by exists t, h]. exists t, h. unfold REFRESH_INTERVAL in *. split_and!; [done|lia|lia|done].
Qed.

Lemma live_snapshot_inv hist w k : live_inv hist w →
  live_inv hist (live_snapshot k (builds k) w).2 ∧ now (collected (live_snapshot k (builds k) w).2) = now (collected w) ∧
  ∃ s, seen hist (now (collected w) - FnHandler.SNAPSHOT_TTL - REFRESH_INTERVAL) (now (collected w)) s ∧
       (live_snapshot k (builds k) w).1 = sort_cells (builds k s).
Proof.
  intros I. pose proof (snapshot_seen hist w I) as S. unfold live_snapshot.
  destruct (snapshot (collected w)) as [s c]. destruct S as (S & Ec & Eh & R).
  assert (Fresh : live_inv hist (mkLive c (<[k := (now c, sort_cells (builds k s))]> (caches w))) ∧
    now c = now (collected w) ∧
    ∃ s', seen hist (now (collected w) - FnHandler.SNAPSHOT_TTL - REFRESH_INTERVAL) (now (collected w)) s' ∧
       sort_cells (builds k s) = sort_cells (builds k s')).
  { split_and!; [|done|exists s; split; [|done]; eapply seen_mono; [| | |exact S]; [done|unfold FnHandler.SNAPSHOT_TTL; lia|lia]].
    split; cbn.
    - rewrite Ec, Eh. apply I.
    - exact R.
    - intros k' b cs. destruct (decide (k' = k)) as [->|N].
      + rewrite lookup_insert_eq. intros [= <- <-]. split; [lia|]. exists s. rewrite Ec. done.
      + rewrite lookup_insert_ne by done. rewrite Ec. apply I. }
  destruct (caches w !! k) as [[b cs]|] eqn:C; [|exact Fresh].
  unfold Snapshot.is_fresh. destruct (Z.ltb_spec (Z.max 0 (now (collected w) - b)) FnHandler.SNAPSHOT_TTL) as [L|L]; [|exact Fresh].
  destruct (li_caches _ _ I k b cs C) as (Hb & s' & Hs & ->). split_and!; [done|done|]. exists s'. split; [|done].
  eapply seen_mono; [| | |exact Hs]; [done|lia|exact Hb].
Qed.

Lemma live_run_inv hist w : live_run builds hist w → live_inv hist w.
Proof.
  induction 1 as [t h|hist w t h _ IH Ht|hist w k _ IH].
  - split; cbn; [by left|exists t, h; by split_and!; [left|lia|]|done].
  - split; cbn; [by left| |].
    + destruct (li_snap _ _ IH) as (t0 & h0 & Hin & Hle & E). exists t0, h0. split_and!; [by right|lia|done].
    + intros k b cs C. destruct (li_caches _ _ IH k b cs C) as (Hb & s & Hs & E). split; [lia|]. exists s.
      split; [|done]. eapply seen_mono; [| | |exact Hs]; [intros x Hx; by right|lia|lia].
  - apply live_snapshot_inv, IH.
Qed.

(** Whatever the handlers of one collector read before, a table is built from
    the host as it was less than 2.4 seconds ago. *)
Theorem tables_are_recent hist w k :
  live_run builds hist w →
  ∃ t h, (t, h) ∈ hist ∧ t <= now (collected w) < t + 2400 ∧
    (live_snapshot k (builds k) w).1 = sort_cells (builds k (snapshot_of h)).
Proof.
  intros R%live_run_inv. destruct (live_snapshot_inv hist w k R) as (_ & _ & s & (t & h & Hin & Ht & ->) & E).
  exists t, h. unfold FnHandler.SNAPSHOT_TTL, REFRESH_INTERVAL in Ht. split_and!; [done|lia|lia|done].
Qed.
End Recent.

(** * Every table can be served *)

(** The cells of enumerated rows. *)
Lemma concat_imap_elem {A} (f : nat → A → cells) l x : x ∈ concat (imap f l) → ∃ i a, a ∈ l ∧ x ∈ f i a.
Proof.
  intros (ys & Hy & Hx)%list_elem_of_In%in_concat. apply list_elem_of_In, elem_of_lookup_imap in Hy as (i & a & -> & Ha).
  exists i, a. split; [by eapply list_elem_of_lookup_2|by apply list_elem_of_In].
Qed.

Lemma row_under root s i cols x : x ∈ row_cells (root ++ s) i cols → Oid.is_prefix_of root x.1 = true.
Proof.
  intros (c & -> & _)%list_elem_of_fmap. apply Oid.is_prefix_of_spec. cbn. rewrite <- app_assoc. by eexists.
Qed.

Lemma hr_device_provided {F} (s : HostSnapshot F) : Snapshot.provides (Oid.child HOST 3) (hr_device_cells s).
Proof.
  apply provides_btree. intros x [H|H]%elem_of_app.
  - apply concat_imap_elem in H as (i & c & _ & [H|H]%elem_of_app).
    + by apply (row_under (Oid.child HOST 3) [2; 1]) in H.
    + by apply (row_under (Oid.child HOST 3) [3; 1]) in H.
  - apply concat_imap_elem in H as (i & d & _ & [H|H]%elem_of_app).
    + by apply (row_under (Oid.child HOST 3) [2; 1]) in H.
    + by apply (row_under (Oid.child HOST 3) [8; 1]) in H.
Qed.

Lemma hr_network_provided {F} (s : HostSnapshot F) : Snapshot.provides (Oid.child (Oid.child HOST 3) 4) (hr_network_cells s).
Proof.
  apply provides_btree. intros x H. apply concat_imap_elem in H as (i & c & _ & H).
  by apply (row_under (HOST ++ [3; 4]) [1; 1]) in H.
Qed.

Lemma hr_storage_provided {F} (s : HostSnapshot F) : Snapshot.provides (Oid.child HOST 2) (hr_storage_cells s).
Proof.
  unfold hr_storage_cells. change (?a :: ?l) with ([a] ++ l).
  apply provides_app; [| exact (table_provided (HOST ++ [2]) [3; 1] _ _ _)|].
  - split; [by apply NoDup_singleton|]. by intros x ->%list_elem_of_singleton.
  - intros x y ->%list_elem_of_singleton (r & c & _ & _ & ->)%table_cell_shape. done.
Qed.

Lemma constants_provided r (l : cells) : NoDup l.*1 → Forall (λ x, Oid.is_prefix_of r x.1 = true) l → Snapshot.provides r l.
Proof. intros Hn Hf. split; [done|]. by rewrite Forall_forall in Hf. Qed.

Lemma collector_provided {F} d :
  Forall (λ '(r, build), ∀ s : HostSnapshot F, Snapshot.provides r (build s)) (collector_handlers d).
Proof.
  unfold collector_handlers. rewrite !Forall_cons. split_and!; [intros s..|apply Forall_nil_2].
  - apply constants_provided; [columns|by repeat constructor].
  - exact (table_provided (INTERFACES ++ [2]) [1] _ _ _).
  - exact (table_provided IF_MIB [1; 1; 1] _ _ _).
  - apply constants_provided; [columns|by repeat constructor].
  - apply hr_storage_provided.
  - apply hr_device_provided.
  - apply hr_network_provided.
  - exact (table_provided (HOST ++ [4]) [2; 1] _ _ _).
  - exact (table_provided (HOST ++ [5]) [1; 1] _ _ _).
Qed.

Lemma files_provided : Forall (λ '(r, build), ∀ f, Snapshot.provides r (build f)) file_handlers.
Proof.
  unfold file_handlers. rewrite !Forall_cons. split_and!; [intros f..|apply Forall_nil_2].
  - apply constants_provided; [apply NoDup_nil_2|apply Forall_nil_2].
  - exact (table_provided (HOST ++ [3; 6]) [1; 1] _ _ _).
  - exact (table_provided (HOST ++ [3; 7]) [1; 1] _ _ _).
  - apply constants_provided; [apply NoDup_nil_2|apply Forall_nil_2].
Qed.

(** * Stopping a process *)

Definition swrun_view (s : SWRun.state) : cells := Snapshot.view id FnHandler.SNAPSHOT_TTL (SWRun.served s).
Definition swrun_inv (s : SWRun.state) : Prop := Snapshot.inv id (Oid.child HOST 4) (SWRun.served s).

Lemma swrun_get s o : swrun_inv s → (SWRun.get o s).1 = lookup_cell o (swrun_view s) ∧
  SWRun.killed (SWRun.get o s).2 = SWRun.killed s ∧ swrun_view (SWRun.get o s).2 = swrun_view s.
Proof.
  intros I. pose proof (get_view (ReadableHandler:=FnHandler.readable (Oid.child HOST 4)) o (SWRun.served s) I) as G.
  pose proof (get_frame (ReadableHandler:=FnHandler.readable (Oid.child HOST 4)) o (SWRun.served s) I) as Fr.
  cbn [Handler.get FnHandler.handler read_only_handler] in G, Fr. unfold SWRun.get, SWRun.cached.
  destruct (FnHandler.get o (SWRun.served s)) as [x c]. cbn in *. split_and!; [exact G|done|]. apply Fr.
Qed.

Lemma status_instance o : Oid.is_prefix_of SWRun.status_entry o && (length o =? length SWRun.status_entry + 1)%nat = true ↔
  ∃ p, o = SWRun.status_entry ++ [p].
Proof.
  rewrite andb_true_iff, Oid.is_prefix_of_spec, Nat.eqb_eq. split.
  - intros [[t ->] L]. rewrite length_app in L. destruct t as [|p [|]]; cbn in L; try lia. by exists p.
  - intros [p ->]. split; [by eexists|]. by rewrite length_app.
Qed.

Lemma swrun_prepare s o v : swrun_inv s →
  ((SWRun.prepare_set o v s).1 = Ok tt ↔ ∃ p n c, o = SWRun.status_entry ++ [p] ∧ v = VInteger n ∧ 1 <= n <= 4 ∧
    lookup_cell o (swrun_view s) = Some c ∧ types_compatible c v = true) ∧
  swrun_view (SWRun.prepare_set o v s).2 = swrun_view s ∧ SWRun.killed (SWRun.prepare_set o v s).2 = SWRun.killed s.
Proof.
  intros I. destruct (swrun_get s o I) as (G & K & V). unfold SWRun.prepare_set.
  pose proof (status_instance o) as S. rewrite <- negb_andb.
  destruct (Oid.is_prefix_of _ o && _); cbn [negb].
  2: { split; [|done]. cbn. split; [done|]. intros (p & _ & _ & E & _). by destruct S as [_ S]; discriminate S; exists p. }
  unfold sbind. destruct (SWRun.get o s) as [cur s1]. cbn in G, K, V. subst cur. cbn. split; [|done].
  destruct S as [[p ->] _]; [done|]. destruct (lookup_cell _ _) as [c|]; cbn.
  2: { split; [done|]. by intros (? & ? & ? & ? & ? & ? & ? & ?). }
  destruct (types_compatible c v) eqn:T; cbn.
  2: { split; [done|]. intros (? & ? & c' & ? & ? & ? & [= <-] & E). congruence. }
  destruct v as [n| | | | | | | | | | | |]; cbn; try (split; [done|by intros (? & ? & ? & ? & ? & ?)]).
  destruct (Z.leb_spec 1 n), (Z.leb_spec n 4); cbn; (split; [|intros (? & n' & ? & ? & [= <-] & ? & ?); lia || done]);
    try done. intros _. exists p, n, c. by split_and!.
Qed.

(** A SET is accepted for the status of a listed process and a status from 1 to
    4; once committed it hands the process to [kill] exactly when the status is
    invalid(4), and the table stays as it is. *)
Theorem swrun_set s o v :
  swrun_inv s →
  let '(r, s1) := SWRun.prepare_set o v s in
  let '(r', s2) := SWRun.commit_set o v s1 in
  (r = Ok tt ↔ ∃ p n c, o = SWRun.status_entry ++ [p] ∧ v = VInteger n ∧ 1 <= n <= 4 ∧
    lookup_cell o (swrun_view s) = Some c ∧ types_compatible c v = true) ∧
  r' = Ok tt ∧ swrun_view s2 = swrun_view s ∧
  ∀ p, o = SWRun.status_entry ++ [p] → 0 < p →
    SWRun.killed s2 = SWRun.killed s ++ (if bool_decide (v = VInteger 4) then [p] else []).
Proof.
  intros I. destruct (swrun_prepare s o v I) as (R & V & K).
  destruct (SWRun.prepare_set o v s) as [r s1]. cbn in R, V, K.
  unfold SWRun.commit_set. cbn. split; [exact R|]. split; [done|]. split; [by case_match|].
  intros p -> Hp. cbn. rewrite (proj2 (Z.ltb_lt 0 p) Hp), andb_true_r.
  destruct v as [n| | | | | | | | | | | |]; cbn; rewrite ?bool_decide_eq_false_2, ?app_nil_r by done; try done.
  destruct (Z.eqb_spec n SWRun.HRSWRUN_STATUS_INVALID) as [->|N]; cbn.
  - by rewrite bool_decide_eq_true_2, K.
  - unfold SWRun.HRSWRUN_STATUS_INVALID in N. by rewrite bool_decide_eq_false_2, app_nil_r by congruence.
Qed.

(** * Where the tables depart from the MIB *)

(** The arcs of RFC 2790 for the filesystem types it names. *)
Definition rfc_fs_type (t : FsType) : option Z :=
  match t with
  | Other => Some 1 | Unknown => Some 2 | BerkeleyFfs => Some 3 | Sys5Fs => Some 4 | Fat => Some 5 | Hpfs => Some 6
  | Iso9660 => Some 12 | LinuxExt2 => Some 23 | SoftwareRoute | Xfs => None
  end.

Lemma fs_types_of_rfc t : rfc_fs_type t = Some (as_oid_suffix t) ↔ t ∈ [Other; Unknown; BerkeleyFfs; Sys5Fs].
Proof. destruct t; apply (bool_decide_unpack _); vm_compute; exact I. Qed.

(** A partition belongs to the first disk in order whose name its own starts
    with, and a whole disk can be listed as a partition of another. *)
Example partitions_of_the_shorter_name :
  (λ r, (label r, parent r)) <$> partition_loop [str "sda"; str "sdaa"] ∅
    [str "8 0 1000 sda"; str "8 1 900 sda1"; str "65 160 2000 sdaa"; str "65 161 1900 sdaa1"] =
  [(str "sda1", 1); (str "sdaa", 1); (str "sdaa1", 1)].
Proof. vm_compute. reflexivity. Qed.

Lemma device_cell_shape {F} (s : HostSnapshot F) x : x ∈ hr_device_cells s →
  ∃ b rest, (b = 2 ∨ b = 3 ∨ b = 8) ∧ x.1 = HOST ++ 3 :: b :: rest.
Proof.
  assert (R : ∀ b i cols, x ∈ row_cells (HOST ++ [3; b; 1]) i cols → ∃ rest, x.1 = HOST ++ 3 :: b :: rest).
  { intros b i cols (c & -> & _)%list_elem_of_fmap. by eexists. }
  intros [H|H]%btree_of_incl%elem_of_app.
  - apply concat_imap_elem in H as (i & c & _ & [H|H]%elem_of_app);
      [destruct (R 2 _ _ H) as [rest E]|destruct (R 3 _ _ H) as [rest E]]; eexists _, rest; (split; [|exact E]); auto.
  - apply concat_imap_elem in H as (i & c & _ & [H|H]%elem_of_app);
      [destruct (R 2 _ _ H) as [rest E]|destruct (R 8 _ _ H) as [rest E]]; eexists _, rest; (split; [|exact E]); auto.
Qed.

Lemma device_cell_of_disk {F} (s : HostSnapshot F) : disks s ≠ [] →
  ∃ v, (HOST ++ [3; 8; 1; 1; 1], v) ∈ hr_device_cells s.
Proof.
  intros Hd. destruct (disks s) as [|d ds] eqn:E; [done|].
  apply (btree_of_key _ (HOST ++ [3; 8; 1; 1; 1], VInteger 1)). apply elem_of_app. right. rewrite E.
  cbn [imap concat]. apply elem_of_app. left. unfold disk_device. apply elem_of_app. right. by left.
Qed.

(** The disk, partition and network tables are handlers below the root of the
    device group, whose filesystem table comes after them. *)
Theorem disk_tables_are_hidden {F} (s : HostSnapshot F) r cs o :
  (r ∈ (λ c, Oid.child (Oid.child HOST 3) c) <$> [4; 5; 6; 7]) → Snapshot.provides r cs → disks s ≠ [] →
  let next := (Registry.do_get_next (nested (Oid.child HOST 3) r) o (unread (hr_device_cells s) cs)).1 in
  Oid.is_prefix_of r (vb_oid next) = true → vb_value next = VEndOfMibView.
Proof.
  intros Hr Hp Hd. apply list_elem_of_fmap in Hr as (c & -> & Hc).
  destruct (device_cell_of_disk s Hd) as [v Hv]. rewrite !elem_of_cons, elem_of_nil in Hc.
  apply (outer_hides _ _ _ _ o (HOST ++ [3; 8; 1; 1; 1], v) (hr_device_provided s) Hp).
  - destruct Hc as [->|[->|[->|[->|[]]]]]; reflexivity.
  - intros x Hx. apply not_true_iff_false. intros [t Ht]%Oid.is_prefix_of_spec.
    destruct (device_cell_shape s x Hx) as (b & rest & Hb & E). rewrite E in Ht.
    destruct Hc as [->|[->|[->|[->|[]]]]]; destruct Hb as [->|[->| ->]]; discriminate.
  - exact Hv.
  - intros x Hx. apply Hp, Oid.is_prefix_of_spec in Hx as [t ->].
    destruct Hc as [->|[->|[->|[->|[]]]]]; reflexivity.
Qed.

(** ** Witnesses *)

Definition demo_networks : list SysNetwork := [
  mkSysNetwork (str "lo") (str "00:00:00:00:00:00") 65536 100 2 0 100 2 0;
  mkSysNetwork (str "eth0") (str "aa:bb:cc:dd:ee:ff") 1500 5000000000 10 0 50 5 0].

Definition demo_processes : list SysProcess := [
  mkSysProcess 42 (str "snmpd") (Some (str "/usr/sbin/snmpd")) 4096000 1 Sleep;
  mkSysProcess 1 (str "init") None 1024000 0 Sleep].

Definition demo_sys : SysInfo unit :=
  mkSysInfo 100 1 8589934592 4294967296 1073741824 4294967296 0 0 0 12 ((), (), ())
    [(str "cpu0", 12, 2400)] demo_processes demo_networks [mkSysDisk (str "/") (str "ext4") 17592186044416 4398046511104].

Definition demo_sys' : SysInfo unit :=
  mkSysInfo 100 1 8589934592 4294967296 1073741824 4294967296 0 0 0 12 ((), (), ())
    [(str "cpu0", 12, 2400)] (rev demo_processes) (rev demo_networks)
    [mkSysDisk (str "/") (str "ext4") 17592186044416 4398046511104].

(** A disk of 16 TiB is shown in units of 8 KiB. *)
Lemma storage_sizes_exact_witness : ∃ j r, r ∈ storage_rows (snapshot_of demo_sys) ∧ alloc_units r = 2 ^ j ∧
  size r = 17592186044416 / 2 ^ j ∧ size r <= i32_max.
Proof.
  destruct (storage_sizes_exact (snapshot_of demo_sys) 0 (mkDisk (str "/") (str "ext4") 17592186044416 4398046511104))
    as (j & r & H1 & _ & H2 & _ & H3 & _ & H4 & _); [reflexivity|cbn; unfold u64_max; lia|cbn; lia|].
  exists j, r. exact (conj H1 (conj H2 (conj H3 H4))).
Defined.

Lemma demo_distinct : NoDup (sn_name <$> sys_networks demo_sys) ∧ NoDup (sp_pid <$> sys_processes demo_sys) ∧
  Forall (λ n, is_text (sn_name n)) (sys_networks demo_sys).
Proof. split_and!; apply (bool_decide_unpack _); vm_compute; exact I. Qed.

Lemma snapshot_order_free_witness :
  snapshot_of demo_sys = snapshot_of demo_sys' ∧ (if_idx <$> interfaces (snapshot_of demo_sys')) = [1; 2].
Proof.
  split; [|vm_compute; reflexivity]. destruct demo_distinct as (H1 & H2 & H3).
  apply snapshot_order_free; [|exact H1|exact H3|exact H2].
  split; [apply Permutation_rev|apply Permutation_rev|reflexivity].
Defined.

(** The interface table read two seconds after the start, the second time from
    the cache. *)
Lemma tables_are_recent_witness : ∃ t h,
  (t, h) ∈ [(2500, demo_sys'); (2000, demo_sys'); (0, demo_sys)] ∧ t <= 2500 < t + 2400.
Proof.
  set (builds := λ _ : nat, λ s : HostSnapshot unit, interface_cells (interfaces s)).
  pose proof (live_start builds 0 demo_sys) as R.
  apply (live_env builds _ _ 2000 demo_sys') in R; [|vm_compute; discriminate].
  apply (live_read builds _ _ 0%nat) in R.
  apply (live_env builds _ _ 2500 demo_sys') in R; [|vm_compute; discriminate].
  destruct (tables_are_recent builds _ _ 0%nat R) as (t & h & H1 & H2 & _). exists t, h. exact (conj H1 H2).
Defined.

(** Setting the status of process 42 to invalid stops it. *)
Lemma swrun_set_witness :
  let s := SWRun.mkState (Snapshot.mkState 0 (hr_swrun_cells (snapshot_of demo_sys)) None) [] in
  let o := SWRun.status_entry ++ [42] in
  SWRun.killed (SWRun.commit_set o (VInteger 4) (SWRun.prepare_set o (VInteger 4) s).2).2 = [42].
Proof.
  intros s o. assert (I : swrun_inv s).
  { split; [exact (table_provided (HOST ++ [4]) [2; 1] _ _ _)|exact Logic.I]. }
  pose proof (swrun_set s o (VInteger 4) I) as H.
  destruct (SWRun.prepare_set o (VInteger 4) s) as [r s1] eqn:E. cbn [snd].
  destruct (SWRun.commit_set o (VInteger 4) s1) as [r' s2]. destruct H as (_ & _ & _ & H). cbn [snd].
  rewrite (H 42 eq_refl) by lia. reflexivity.
Defined.

Lemma disk_tables_are_hidden_witness :
  let next := (Registry.do_get_next (nested (Oid.child HOST 3) (Oid.child (Oid.child HOST 3) 4)) (Oid.child HOST 3)
    (unread (hr_device_cells (snapshot_of demo_sys)) (hr_network_cells (snapshot_of demo_sys)))).1 in
  hr_network_cells (snapshot_of demo_sys) ≠ [] ∧
  Oid.is_prefix_of (Oid.child (Oid.child HOST 3) 4) (vb_oid next) = false.
Proof.
  intros next. split; [vm_compute; discriminate|].
  destruct (Oid.is_prefix_of _ _) eqn:E; [|done]. exfalso.
  assert (vb_value next = VEndOfMibView) as V.
  { apply (disk_tables_are_hidden (snapshot_of demo_sys) (Oid.child (Oid.child HOST 3) 4));
      [by left|apply hr_network_provided|vm_compute; discriminate|exact E]. }
  revert V. vm_compute. discriminate.
Defined.
