(* ===== verification/Ucd.v ===== *)
(** * The UCD groups and command output ([ucd.rs] and [extend.rs] of
    [crates/netsnmp-agent/src/mibgroup/])

    Memory, load, disks, processor counters, the process, file and log checks,
    and the tables that run a command. What running a command does is an
    interface, the file system and the two views of a load average are
    parameters. *)

From Stdlib Require Import ZArith Lia.
From S2P Require Import Prelude MachineInts Text Oid Value Pdu Config Cells Handler Snapshots Scalar Persist MibTables ProcNet Host.

Local Open Scope list_scope.

(** [Command::output]: the exit code ([None] for a signal) and what was written,
    or an error. *)
Class Commands (W : Type) := {
  c_output : text → list text → St W (option (option Z * bytes));
}.

(** ** The configured checks *)

Record ExecEntry := mkExec { exec_name : text; exec_command : text; exec_args : list text }.
Record ProcCheckEntry := mkProcCheck { check_name : text; check_max : Z; check_min : Z }.
Record FileCheckEntry := mkFileCheck { file_name : text; file_path : text; max_size : Z }.
Record LogMatchEntry := mkLogMatch { log_name : text; log_path : text; offset : Z; pattern : text }.

(** [add] of a registry: the entry and its 1-based index. *)
Definition add_entry {A} (e : A) (entries : list A) : nat * list A :=
  let entries := entries ++ [e] in (length entries, entries).

(** [UcdMibConfig]; a registry that is absent has no entries. *)
Record UcdMibConfig := mkUcdConfig {
  exec : option (list ExecEntry); proc_check : option (list ProcCheckEntry);
  file_check : option (list FileCheckEntry); log_match : option (list LogMatchEntry) }.

(** [parse_exec_directives]. *)
Definition parse_exec_line (raw : text) : option ExecEntry :=
  let line := trim raw in
  if bool_decide (line = []) || has_prefix [35] line then None
  else match split_whitespace line with
       | name :: command :: args => Some (mkExec name command args)
       | _ => None
       end.

Definition parse_exec_directives (s : text) : list ExecEntry := omap parse_exec_line (lines s).

(** ** Groups read from the snapshot *)

Definition UCD : Oid := [1; 3; 6; 1; 4; 1; 2021].

Definition kib (b : Z) : Z := Z.min (b / 1024) i32_max.

Definition ucd_entry (g : Z) : Oid := Oid.child (Oid.child UCD g) 1.

(** Rows numbered from one. *)
Definition numbered {A} (entry : Oid) (cols : Z → A → list (Z * Value)) (rows : list A) : cells :=
  concat (imap (fun i a => let idx := as_u32 (Z.of_nat i + 1) in row_cells entry [idx] (cols idx a)) rows).

Section Groups.
Context {F : Type} (show_load : F → text) (load_int : F → Z).
Implicit Types (s : HostSnapshot F).

Definition memory_cells s : cells :=
  let m := Oid.child UCD 4 in
  [scalar_at m 3 (VInteger (kib (swap_total s))); scalar_at m 4 (VInteger (kib (swap_free s)));
   scalar_at m 5 (VInteger (kib (mem_total s))); scalar_at m 6 (VInteger (kib (mem_available s)));
   scalar_at m 11 (VInteger (kib (wrap_u 64 (mem_free s + swap_free s))))].

Definition la_columns (idx : Z) (r : string * F) : list (Z * Value) :=
  [(1, VInteger idx); (2, VOctetString (str r.1)); (3, VOctetString (as_bytes (show_load r.2))); (5, VInteger (load_int r.2))].

Definition la_cells s : cells :=
  let '(l1, l5, l15) := load_avg s in
  numbered (ucd_entry 10) la_columns [("Load-1"%string, l1); ("Load-5"%string, l5); ("Load-15"%string, l15)].

Definition dsk_columns (idx : Z) (d : DiskSample) : list (Z * Value) :=
  let used := saturating_sub_u (total d) (available d) in
  let percent := if 0 <? total d then used * 100 / total d else 0 in
  [(1, VInteger idx); (2, VOctetString (as_bytes (mount d))); (3, VOctetString (as_bytes (fs d)));
   (6, VInteger (kib (total d))); (7, VInteger (kib (available d))); (8, VInteger (kib used)); (9, VInteger percent)].

Definition dsk_cells s : cells := numbered (ucd_entry 9) dsk_columns (disks s).

Definition ss_cpu_cells s : cells :=
  let b := Oid.child UCD 11 in
  let busy := Z.max 0 (Z.min (cpu_global_pct s) 100) in
  [scalar_at b 9 (VInteger busy); scalar_at b 10 (VInteger 0); scalar_at b 11 (VInteger (100 - busy))].

(** ** [/proc/stat] *)

Record ProcStat := mkProcStat {
  cpu_jiffies : list Z; page : list Z; swap : list Z; intr_total : Z; ctxt_total : Z }.

Definition default_stat : ProcStat := mkProcStat (replicate 7 0) [0; 0] [0; 0] 0 0.

Definition parse_u64 (t : text) : Z := default 0 (parse_unsigned u64_max t).

(** The slots are overwritten by the tokens there are. *)
Fixpoint fill (slots : list Z) (toks : list text) : list Z :=
  match slots, toks with
  | _ :: slots', t :: toks' => parse_u64 t :: fill slots' toks'
  | _, _ => slots
  end.

Definition stat_line (out : ProcStat) (line : text) : ProcStat :=
  match split_whitespace line with
  | [] => out
  | w :: parts =>
      if bool_decide (w = str "cpu") then
        mkProcStat (fill (cpu_jiffies out) parts) (page out) (swap out) (intr_total out) (ctxt_total out)
      else if bool_decide (w = str "page") then
        mkProcStat (cpu_jiffies out) (fill (page out) parts) (swap out) (intr_total out) (ctxt_total out)
      else if bool_decide (w = str "swap") then
        mkProcStat (cpu_jiffies out) (page out) (fill (swap out) parts) (intr_total out) (ctxt_total out)
      else if bool_decide (w = str "intr") then
        mkProcStat (cpu_jiffies out) (page out) (swap out) (hd (intr_total out) (parse_u64 <$> parts)) (ctxt_total out)
      else if bool_decide (w = str "ctxt") then
        mkProcStat (cpu_jiffies out) (page out) (swap out) (intr_total out) (hd (ctxt_total out) (parse_u64 <$> parts))
      else out
  end.

Definition parse_proc_stat_text (t : text) : ProcStat := fold_left stat_line (lines t) default_stat.

Definition parse_proc_stat (f : FileSystem) : ProcStat :=
  match read_to_string f (str "/proc/stat") with Some t => parse_proc_stat_text t | None => default_stat end.

Definition ss_cpu_raw_cells (f : FileSystem) : cells :=
  let st := parse_proc_stat f in
  let jiffies n := nth n (cpu_jiffies st) 0 in
  let c col v := scalar_at (Oid.child UCD 11) col (VCounter32 (as_u32 v)) in
  [c 50 (jiffies 0%nat); c 51 (jiffies 1%nat); c 52 (jiffies 2%nat); c 53 (jiffies 3%nat); c 54 (jiffies 4%nat);
   c 55 (wrap_u 64 (jiffies 5%nat + jiffies 6%nat)); c 56 (jiffies 5%nat);
   c 57 (nth 0 (page st) 0); c 58 (nth 1 (page st) 0); c 59 (intr_total st); c 60 (intr_total st);
   c 61 (ctxt_total st); c 62 (nth 0 (swap st) 0); c 63 (nth 1 (swap st) 0)].

(** The version of the package is fixed by the build. *)
Definition version_cells (pkg_version : text) : cells :=
  let v := Oid.child UCD 1 in
  [scalar_at v 1 (VOctetString (as_bytes (str "net-snmp-rs " ++ pkg_version))); scalar_at v 2 (VOctetString []);
   scalar_at v 3 (VOctetString (str "cross-platform sysinfo build"))].

(** ** Process checks *)

Definition count_named s (p : text) : Z :=
  let p := to_ascii_lowercase p in
  Z.of_nat (length (List.filter (fun q => bool_decide (to_ascii_lowercase (proc_name q) = p)) (processes s))).

Definition check_message (how : string) (e : ProcCheckEntry) (count : Z) (op : string) (limit : Z) : text :=
  str how ++ check_name e ++ str " (= " ++ show_i count ++ str ") (" ++ str op ++ str " " ++ show_i limit ++ str ")".

Definition pr_columns s (idx : Z) (e : ProcCheckEntry) : list (Z * Value) :=
  let count := count_named s (check_name e) in
  let '(flag, msg) :=
    if check_max e <? count then (1, check_message "Too many " e count ">" (check_max e))
    else if count <? check_min e then (1, check_message "Too few " e count "<" (check_min e))
    else (0, []) in
  [(1, VInteger idx); (2, VOctetString (as_bytes (check_name e))); (3, VInteger (check_min e)); (4, VInteger (check_max e));
   (5, VInteger count); (6, VInteger flag); (7, VOctetString (as_bytes msg))].

Definition pr_table_cells s (es : list ProcCheckEntry) : cells := numbered (ucd_entry 2) (pr_columns s) es.

(** ** File checks *)

(** [fs::metadata]: the length, or the error as it is displayed. *)
Definition file_columns (metadata : text → result Z text) (idx : Z) (e : FileCheckEntry) : list (Z * Value) :=
  let '(size, flag, msg) :=
    match metadata (file_path e) with
    | Ok len =>
        if (0 <? max_size e) && (max_size e <? len)
        then (as_i64 len, 1, file_name e ++ str " size " ++ show_u len ++ str " > " ++ show_u (max_size e))
        else (as_i64 len, 0, [])
    | Err err => (0, 1, file_path e ++ str ": " ++ err)
    end in
  [(1, VInteger idx); (2, VOctetString (as_bytes (file_name e))); (3, VInteger size); (4, VInteger (as_i64 (max_size e)));
   (5, VInteger flag); (6, VOctetString (as_bytes msg))].

Definition file_cells (metadata : text → result Z text) (es : list FileCheckEntry) : cells :=
  numbered (ucd_entry 3) (file_columns metadata) es.

(** ** Log checks *)

(** [str::matches] of a text: the disjoint occurrences from the left; [skip]
    characters of one that has been counted are still to be passed over. *)
Fixpoint count_from (p : text) (skip : nat) (s : text) : nat :=
  match s with
  | [] => O
  | _ :: s' =>
      match skip with
      | S k => count_from p k s'
      | O => if has_prefix p s then S (count_from p (pred (length p)) s') else count_from p O s'
      end
  end.

Definition count_matches (p s : text) : nat := match p with [] => S (length s) | _ => count_from p O s end.

Definition log_columns (f : FileSystem) (idx : Z) (e : LogMatchEntry) : list (Z * Value) :=
  let body := default [] (read_file f (log_path e)) in
  let tail := if offset e <=? Z.of_nat (length body) then drop (Z.to_nat (offset e)) body else body in
  let count := match from_utf8 tail with Some s => Z.of_nat (count_matches (pattern e) s) | None => 0 end in
  [(1, VInteger idx); (2, VOctetString (as_bytes (log_name e))); (3, VOctetString (as_bytes (log_path e)));
   (4, VOctetString (as_bytes (pattern e))); (7, VCounter32 (as_u32 count))].

Definition log_match_cells (f : FileSystem) (es : list LogMatchEntry) : cells := numbered (ucd_entry 16) (log_columns f) es.

(** ** Commands *)

Section Run.
Context {W : Type} {C : Commands W}.

(** [ExecEntry::run]. *)
Definition run (e : ExecEntry) : St W (Z * text) :=
  let* out := c_output (exec_command e) (exec_args e) in
  sret (match out with
        | None => (127, [])
        | Some (code, stdout) => (default 127 code, hd [] (lines (from_utf8_lossy stdout)))
        end).

(** [run_full] of [extend.rs]. *)
Definition run_full (e : ExecEntry) : St W (Z * text) :=
  let* out := c_output (exec_command e) (exec_args e) in
  sret (match out with
        | None => (127, [])
        | Some (code, stdout) => (default 127 code, trim_end (from_utf8_lossy stdout))
        end).

(** Every entry is run once, in order. *)
Fixpoint run_all (r : ExecEntry → St W (Z * text)) (es : list ExecEntry) : St W (list (ExecEntry * (Z * text))) :=
  match es with
  | [] => sret []
  | e :: es' => let* o := r e in let* os := run_all r es' in sret ((e, o) :: os)
  end.

Fixpoint join_args (args : list text) : text :=
  match args with [] => [] | [a] => a | a :: args' => a ++ 32 :: join_args args' end.

Definition ext_columns (idx : Z) (r : ExecEntry * (Z * text)) : list (Z * Value) :=
  let '(e, (code, line)) := r in
  [(1, VInteger idx); (2, VOctetString (as_bytes (exec_name e)));
   (3, VOctetString (as_bytes (exec_command e ++ 32 :: join_args (exec_args e)))); (4, VInteger code);
   (5, VOctetString (as_bytes line))].

Definition ext_table_cells (es : list ExecEntry) : St W cells :=
  let* rs := run_all run es in sret (numbered (ucd_entry 8) ext_columns rs).

(** [extend.rs]: rows indexed by the octets of the name. *)
Definition NS_EXTEND_OUTPUT1 : Oid := [1; 3; 6; 1; 4; 1; 8072; 1; 3; 2; 3; 1].

Definition name_index (n : text) : Oid := as_bytes n.

Definition command_string (e : ExecEntry) : text :=
  match exec_args e with [] => exec_command e | args => exec_command e ++ 32 :: join_args args end.

Definition extend_row (r : ExecEntry * (Z * text)) : list (Z * Value) :=
  let '(e, (code, full)) := r in
  [(1, VOctetString (as_bytes (command_string e))); (2, VInteger code); (3, VOctetString (as_bytes (hd [] (lines full))));
   (4, VOctetString (as_bytes full)); (5, VInteger (Z.of_nat (length (lines full))))].

Definition extend_cells (es : list ExecEntry) : St W cells :=
  let* rs := run_all run_full es in
  sret (flat_map (fun r => row_cells NS_EXTEND_OUTPUT1 (name_index (exec_name r.1)) (extend_row r)) rs).

(** ** The group *)

Definition ucd_cells (pkg_version : text) (f : FileSystem) (metadata : text → result Z text) s (c : UcdMibConfig) : St W cells :=
  let* ext := match exec c with Some es => ext_table_cells es | None => sret [] end in
  sret (btree_of (memory_cells s ++ la_cells s ++ dsk_cells s ++ ss_cpu_cells s ++ ss_cpu_raw_cells f ++
    version_cells pkg_version ++ ext ++ pr_table_cells s (default [] (proc_check c)) ++
    file_cells metadata (default [] (file_check c)) ++ log_match_cells f (default [] (log_match c)))).
End Run.
End Groups.

(** * What a row shows *)

Lemma value_of_Some cols c v : NoDup (cols : list (Z * Value)).*1 → value_of cols c = Some v ↔ (c, v) ∈ cols.
Proof.
  unfold value_of. intros Hn. split.
  - intros ([d w] & [H%list_elem_of_In E%Z.eqb_eq]%find_some & ->)%fmap_Some. cbn in E. by subst d.
  - intros H. destruct (find _ cols) as [[d w]|] eqn:E.
    + apply find_some in E as [H'%list_elem_of_In E%Z.eqb_eq]. cbn in E. subst d. cbn. f_equal.
      by injection (NoDup_key fst cols (c, w) (c, v) Hn H' H eq_refl).
    + apply list_elem_of_In in H. pose proof (find_none _ _ E _ H) as E'. cbn in E'. by rewrite Z.eqb_refl in E'.
Qed.

Lemma lookup_unique o (l : cells) (V : option Value) : (∀ v, (o, v) ∈ l ↔ V = Some v) → lookup_cell o (rev l) = V.
Proof.
  intros H. assert (R : ∀ v, lookup_cell o (rev l) = Some v → V = Some v).
  { intros v E%lookup_cell_elem. apply H. by rewrite list_elem_of_In, <- in_rev, <- list_elem_of_In in E. }
  destruct (lookup_cell o (rev l)) as [v|] eqn:E; [symmetry; by apply R|].
  destruct V as [v|]; [|done]. exfalso. assert (Hv : (o, v) ∈ l) by by apply H.
  destruct (btree_of_key l _ Hv) as [w Hw]. apply btree_of_elem in Hw. cbn in Hw. congruence.
Qed.

Lemma numbered_elem {A} entry (cols : Z → A → list (Z * Value)) rows names c i v :
  (∀ idx a, (cols idx a).*1 = names) → NoDup names → Z.of_nat (length rows) < u32_max → Z.of_nat i < u32_max →
  (entry ++ [c; Z.of_nat i + 1], v) ∈ numbered entry cols rows ↔
  (let! a := rows !! i in value_of (cols (Z.of_nat i + 1) a) c) = Some v.
Proof.
  intros Hn Hd Hl Hi. unfold u32_max in *.
  assert (U : ∀ j, Z.of_nat j < 4294967295 → as_u32 (Z.of_nat j + 1) = Z.of_nat j + 1).
  { intros j Hj. apply wrap_u_id. change (2 ^ 32) with 4294967296. lia. }
  unfold numbered. split.
  - intros (ys & Hy & Hx)%list_elem_of_In%in_concat. apply list_elem_of_In, elem_of_lookup_imap in Hy as (j & a & -> & Ha).
    apply list_elem_of_In, list_elem_of_fmap in Hx as ([d w] & [= E -> ] & Hc). cbn in E, Hc.
    apply app_inv_head in E. rewrite U in E by (apply lookup_lt_Some in Ha; lia). injection E as -> E.
    assert (i = j) as -> by lia. rewrite Ha. cbn. apply value_of_Some; [by rewrite Hn|].
    by rewrite U in Hc by lia.
  - destruct (rows !! i) as [a|] eqn:Ha; [|done]. cbn. intros Hv%value_of_Some; [|by rewrite Hn].
    apply list_elem_of_In, in_concat. eexists. split.
    + apply list_elem_of_In, elem_of_lookup_imap. by exists i, a.
    + apply list_elem_of_In. rewrite U by lia. apply list_elem_of_fmap. by exists (c, v).
Qed.

(** The group of a cell is the arc after the root. *)
Definition in_group (gl : Z * cells) : Prop := ∀ x, x ∈ gl.2 → ∃ rest, x.1 = UCD ++ gl.1 :: rest.

Lemma pick_group gs g rest v : Forall in_group gs → (UCD ++ g :: rest, v) ∈ concat gs.*2 →
  ∃ l, (g, l) ∈ gs ∧ (UCD ++ g :: rest, v) ∈ l.
Proof.
  rewrite Forall_forall. intros Hg (l & Hl & Hx)%list_elem_of_In%in_concat.
  apply list_elem_of_In, list_elem_of_fmap in Hl as ([g' l'] & -> & Hl). apply list_elem_of_In in Hx. cbn in Hx.
  destruct (Hg _ Hl _ Hx) as [rest' E]. cbn in E. injection E as <- _. by exists l'.
Qed.

Lemma numbered_in_group {A} g (cols : Z → A → list (Z * Value)) rows : in_group (g, numbered (ucd_entry g) cols rows).
Proof.
  intros x (ys & Hy & Hx)%list_elem_of_In%in_concat. apply list_elem_of_In, elem_of_lookup_imap in Hy as (j & a & -> & _).
  apply list_elem_of_In, list_elem_of_fmap in Hx as (c & -> & _). by eexists.
Qed.

Lemma groups_provide gs : Forall in_group gs → Snapshot.provides UCD (btree_of (concat gs.*2)).
Proof.
  rewrite Forall_forall. intros Hg. apply provides_btree. intros x (l & Hl & Hx)%list_elem_of_In%in_concat.
  apply list_elem_of_In, list_elem_of_fmap in Hl as (gl & -> & Hl). apply list_elem_of_In in Hx.
  destruct (Hg _ Hl _ Hx) as [rest ->]. apply Oid.is_prefix_of_spec. by eexists.
Qed.

(** A numbered table that is the only one of its group. *)
Lemma group_row_served {A} gs g (cols : Z → A → list (Z * Value)) rows names c i :
  Forall in_group gs → (∀ l, (g, l) ∈ gs ↔ l = numbered (ucd_entry g) cols rows) →
  (∀ idx a, (cols idx a).*1 = names) → NoDup names → Z.of_nat (length rows) < u32_max → Z.of_nat i < u32_max →
  served (FnHandler.handler UCD) (btree_of (concat gs.*2)) (ucd_entry g ++ [c; Z.of_nat i + 1]) =
  let! a := rows !! i in value_of (cols (Z.of_nat i + 1) a) c.
Proof.
  intros Hg Hu Hn Hd Hl Hi. apply option_eq. intros v. rewrite served_provided by by apply groups_provide.
  rewrite btree_of_elem. cbn [fst snd].
  rewrite (lookup_unique _ _ (let! a := rows !! i in value_of (cols (Z.of_nat i + 1) a) c)); [done|].
  intros w. rewrite <- (numbered_elem (ucd_entry g) cols rows names c i w) by done. split.
  - intros H. destruct (pick_group gs g [1; c; Z.of_nat i + 1] w Hg H) as (l & H1%Hu & H2). by subst l.
  - intros H. apply list_elem_of_In, in_concat. eexists. split; [|by apply list_elem_of_In].
    apply list_elem_of_In, list_elem_of_fmap. exists (g, numbered (ucd_entry g) cols rows). split; [done|]. by apply Hu.
Qed.

Section Served.
Context {F W : Type} (show_load : F → text) (load_int : F → Z) {C : Commands W}.
Context (pkg_version : text) (f : FileSystem) (metadata : text → result Z text).
Implicit Types (s : HostSnapshot F) (c : UcdMibConfig).

Definition ucd_groups s c (ext : cells) : list (Z * cells) := [
  (4, memory_cells s); (10, la_cells show_load load_int s); (9, dsk_cells s); (11, ss_cpu_cells s);
  (11, ss_cpu_raw_cells f); (1, version_cells pkg_version); (8, ext);
  (2, pr_table_cells s (default [] (proc_check c))); (3, file_cells metadata (default [] (file_check c)));
  (16, log_match_cells f (default [] (log_match c)))].

Definition exec_rows c (w : W) : list (ExecEntry * (Z * text)) := (run_all run (default [] (exec c)) w).1.

Ltac scalars := intros x Hx; cbn [snd] in Hx;
  unfold memory_cells, ss_cpu_cells, ss_cpu_raw_cells, version_cells in Hx;
  rewrite !elem_of_cons, elem_of_nil in Hx; destruct_or! Hx; subst; try done; eexists; reflexivity.

Lemma ucd_groups_ok s c rows : Forall in_group (ucd_groups s c (numbered (ucd_entry 8) ext_columns rows)).
Proof.
  unfold ucd_groups. rewrite !Forall_cons. split_and!; try apply numbered_in_group; try apply Forall_nil_2.
  - scalars.
  - unfold la_cells. destruct (load_avg s) as [[l1 l5] l15]. apply numbered_in_group.
  - scalars.
  - scalars.
  - scalars.
Qed.

Lemma ucd_cells_groups s c w : (ucd_cells show_load load_int pkg_version f metadata s c w).1 =
  btree_of (concat (ucd_groups s c (numbered (ucd_entry 8) ext_columns (exec_rows c w))).*2).
Proof.
  unfold ucd_cells, ucd_groups, exec_rows. cbn [fmap list_fmap concat snd]. rewrite app_nil_r.
  unfold sbind, sret, ext_table_cells. destruct (exec c) as [es|]; cbn [default from_option id];
    [|reflexivity]. unfold sbind, sret. by destruct (run_all run es w) as [rs w'].
Qed.

Lemma run_all_entries (r : ExecEntry → St W (Z * text)) es w : (run_all r es w).1.*1 = es.
Proof.
  revert w. induction es as [|e es IH]; intros w; [done|]. cbn. unfold sbind, sret.
  destruct (r e w) as [o w']. specialize (IH w'). destruct (run_all r es w') as [os w'']. cbn in *. by f_equal.
Qed.

(** The row a check shows. *)
Definition shown s c w (g col : Z) (i : nat) : option Value :=
  served (FnHandler.handler UCD) (ucd_cells show_load load_int pkg_version f metadata s c w).1
    (ucd_entry g ++ [col; Z.of_nat i + 1]).

(** The number of entries of every kind fits the index. *)
Definition few_entries c : Prop :=
  Z.of_nat (length (default [] (exec c))) < u32_max ∧ Z.of_nat (length (default [] (proc_check c))) < u32_max ∧
  Z.of_nat (length (default [] (file_check c))) < u32_max ∧ Z.of_nat (length (default [] (log_match c))) < u32_max.

Ltac only_group := intros l; unfold ucd_groups; rewrite !elem_of_cons, elem_of_nil; split;
  [intros H; destruct_or! H; try done; by injection H as ->|intros ->; tauto].

(** Row [i + 1] of each table shows entry [i]: the exit code and first line of a
    command run for this reading, a process count and whether it is within its
    limits, whether a file is missing or too long, and the matches in a log. *)
Theorem checks_are_shown s c w i :
  few_entries c →
  (∀ e code line, exec_rows c w !! i = Some (e, (code, line)) →
     default [] (exec c) !! i = Some e ∧ shown s c w 8 2 i = Some (VOctetString (as_bytes (exec_name e))) ∧
     shown s c w 8 4 i = Some (VInteger code) ∧ shown s c w 8 5 i = Some (VOctetString (as_bytes line))) ∧
  (∀ e, default [] (proc_check c) !! i = Some e →
     let n := count_named s (check_name e) in
     shown s c w 2 5 i = Some (VInteger n) ∧
     shown s c w 2 6 i = Some (VInteger (if (check_min e <=? n) && (n <=? check_max e) then 0 else 1))) ∧
  (∀ e, default [] (file_check c) !! i = Some e →
     shown s c w 3 5 i = Some (VInteger (match metadata (file_path e) with
       | Ok len => if (max_size e <=? 0) || (len <=? max_size e) then 0 else 1
       | Err _ => 1
       end))) ∧
  (∀ e skipped rest, default [] (log_match c) !! i = Some e →
     read_file f (log_path e) = Some (skipped ++ as_bytes rest) → Z.of_nat (length skipped) = offset e → is_text rest →
     shown s c w 16 7 i = Some (VCounter32 (as_u32 (Z.of_nat (count_matches (pattern e) rest))))).
Proof.
  intros (L1 & L2 & L3 & L4). unfold shown. rewrite ucd_cells_groups.
  pose proof (ucd_groups_ok s c (exec_rows c w)) as G. unfold exec_rows in *.
  assert (E : (run_all run (default [] (exec c)) w).1.*1 = default [] (exec c)) by apply run_all_entries.
  split_and!.
  - intros e code line Hi. assert (Hl := lookup_lt_Some _ _ _ Hi).
    assert (length (run_all run (default [] (exec c)) w).1 = length (default [] (exec c))) as EL.
    { rewrite <- E at 2. by rewrite length_fmap. }
    split_and!; [rewrite <- E, list_lookup_fmap, Hi; done|..];
      (etrans; [apply (group_row_served _ 8 ext_columns (run_all run (default [] (exec c)) w).1 [1; 2; 3; 4; 5]);
        [exact G|only_group|by intros ? [? [? ?]]|columns|lia|lia]|]); by rewrite Hi.
  - intros e Hi. assert (Hl := lookup_lt_Some _ _ _ Hi). cbv zeta.
    split; (etrans; [apply (group_row_served _ 2 (pr_columns s) (default [] (proc_check c)) [1; 2; 3; 4; 5; 6; 7]);
        [exact G|only_group|intros ? e'; unfold pr_columns; by repeat case_match|columns|lia|lia]|]); rewrite Hi; cbn -[check_message count_named];
      unfold pr_columns; cbn -[check_message count_named].
    + by repeat case_match.
    + destruct (Z.ltb_spec (check_max e) (count_named s (check_name e))), (Z.ltb_spec (count_named s (check_name e)) (check_min e)),
        (Z.leb_spec (check_min e) (count_named s (check_name e))), (Z.leb_spec (count_named s (check_name e)) (check_max e)); try lia; done.
  - intros e Hi. assert (Hl := lookup_lt_Some _ _ _ Hi).
    (etrans; [apply (group_row_served _ 3 (file_columns metadata) (default [] (file_check c)) [1; 2; 3; 4; 5; 6]);
        [exact G|only_group|intros ? e'; unfold file_columns; by repeat case_match|columns|lia|lia]|]).
    rewrite Hi. cbn. unfold file_columns. destruct (metadata (file_path e)) as [len|err]; [|done].
    destruct (Z.ltb_spec 0 (max_size e)), (Z.ltb_spec (max_size e) len), (Z.leb_spec (max_size e) 0), (Z.leb_spec len (max_size e));
      try lia; done.
  - intros e skipped rest Hi Hf Ho Ht. assert (Hl := lookup_lt_Some _ _ _ Hi).
    (etrans; [apply (group_row_served _ 16 (log_columns f) (default [] (log_match c)) [1; 2; 3; 4; 7]);
        [exact G|only_group|done|columns|lia|lia]|]).
    rewrite Hi. cbn. unfold log_columns. rewrite Hf. cbn [default from_option id].
    rewrite <- Ho, length_app. rewrite (proj2 (Z.leb_le _ _)) by lia. rewrite Nat2Z.id, drop_app_length.
    rewrite from_utf8_text by done. done.
Qed.
(** The columns of prErrorFlag, prErrMessage, extResult and extOutput in the MIB
    hold nothing. *)
Lemma standard_columns_missing s c w i col : few_entries c → Z.of_nat i < u32_max → (col = 100 ∨ col = 101) →
  shown s c w 2 col i = None ∧ shown s c w 8 col i = None.
Proof.
  intros (L1 & L2 & L3 & L4) Hi Hc. unfold shown. rewrite ucd_cells_groups.
  pose proof (ucd_groups_ok s c (exec_rows c w)) as G.
  assert (length (exec_rows c w) = length (default [] (exec c))) as EL.
  { unfold exec_rows. rewrite <- (run_all_entries run (default [] (exec c)) w) at 2. by rewrite length_fmap. }
  split.
  - etrans; [apply (group_row_served _ 2 (pr_columns s) (default [] (proc_check c)) [1; 2; 3; 4; 5; 6; 7]);
      [exact G|only_group|intros ? e'; unfold pr_columns; by repeat case_match|columns|lia|lia]|].
    destruct (default [] (proc_check c) !! i) as [e|]; [|done]. cbn -[check_message]. unfold pr_columns.
    destruct Hc as [-> | ->]; by repeat case_match.
  - etrans; [apply (group_row_served _ 8 ext_columns (exec_rows c w) [1; 2; 3; 4; 5]);
      [exact G|only_group|by intros ? [? [? ?]]|columns|lia|lia]|].
    destruct (exec_rows c w !! i) as [[e [code line]]|]; [|done]. destruct Hc as [-> | ->]; done.
Qed.

(** The rows of [extend]: the handler's contract asks for distinct names. *)
Lemma extend_provided es w : NoDup ((λ e, as_bytes (exec_name e)) <$> es) →
  Snapshot.provides NS_EXTEND_OUTPUT1 (extend_cells es w).1.
Proof.
  intros Hn. unfold extend_cells, sbind, sret. pose proof (run_all_entries run_full es w) as E.
  destruct (run_all run_full es w) as [rs w']. cbn in E |- *. subst es.
  apply (table_provides _ (λ r, name_index (exec_name r.1)) extend_row [1; 2; 3; 4; 5]);
    [by intros [e [code full]]|columns|]. by rewrite <- list_fmap_compose in Hn.
Qed.
End Served.

(** * The code's examples *)

Example proc_stat_sample : parse_proc_stat_text (str "cpu  100 20 30 4000 5 6 7 0 0 0
cpu0 1 2 3
intr 987654 1 2 3
ctxt 4242
") = mkProcStat [100; 20; 30; 4000; 5; 6; 7] [0; 0] [0; 0] 987654 4242.
Proof. vm_compute. reflexivity. Qed.

Example exec_directives_sample : parse_exec_directives (str "# a comment
pingcheck /bin/ping -c 1

bad
") = [mkExec (str "pingcheck") (str "/bin/ping") [str "-c"; str "1"]].
Proof. vm_compute. reflexivity. Qed.

Example disjoint_matches : count_matches (str "aa") (str "aaaaa") = 2%nat.
Proof. reflexivity. Qed.

(** ** Witness *)

(** A command that succeeds with a line, in a world that counts the runs. *)
#[local] Instance echo : Commands nat := {|
  c_output cmd args := fun n => (Some (Some 0, flat_map id args ++ [10]), S n);
|}.

Definition demo_config : UcdMibConfig := mkUcdConfig
  (Some [mkExec (str "hello") (str "/bin/echo") [str "hi"]])
  (Some [mkProcCheck (str "snmpd") 1 1; mkProcCheck (str "sshd") 5 1])
  (Some [mkFileCheck (str "log") (str "/var/log/x") 10])
  (Some [mkLogMatch (str "errs") (str "/var/log/x") 2 (str "er")]).

Definition demo_files : FileSystem := mkFs (fun _ => Some (str "xxererror")) (fun _ => None).
Definition demo_len (_ : text) : result Z text := Ok 9.

(** The command was run once; no sshd is running; the log is short enough and
    has two matches after its first two octets. *)
Lemma checks_are_shown_witness :
  let at_ := shown (fun _ : unit => []) (fun _ => 0) (str "1.0") demo_files demo_len (snapshot_of demo_sys) demo_config 0%nat in
  at_ 8 5 0%nat = Some (VOctetString (str "hi")) ∧ at_ 2 6 0%nat = Some (VInteger 0) ∧ at_ 2 6 1%nat = Some (VInteger 1) ∧
  at_ 3 5 0%nat = Some (VInteger 0) ∧ at_ 16 7 0%nat = Some (VCounter32 2).
Proof.
  intros at_. assert (L : few_entries demo_config) by (repeat split; cbn; unfold u32_max; lia).
  pose proof (checks_are_shown (fun _ : unit => []) (fun _ => 0) (str "1.0") demo_files demo_len (snapshot_of demo_sys)
    demo_config 0%nat) as H.
  destruct (H 0%nat L) as (H8 & H2 & H3 & H16). destruct (H 1%nat L) as (_ & H2' & _ & _).
  destruct (H8 (mkExec (str "hello") (str "/bin/echo") [str "hi"]) 0 (str "hi") eq_refl) as (_ & _ & _ & E8).
  destruct (H2 _ eq_refl) as (_ & E2). destruct (H2' _ eq_refl) as (_ & E2').
  exact (conj E8 (conj E2 (conj E2' (conj (H3 _ eq_refl)
    (H16 _ (str "xx") (str "ererror") eq_refl eq_refl eq_refl ltac:(apply (bool_decide_unpack _); vm_compute; exact I)))))).
Defined.

