(* ===== verification/AgentMib.v ===== *)
(** * The agent about itself ([crates/netsnmp-agent/src/mibgroup/])

    The groups that describe the agent and its engine: [netsnmp_agent.rs] with
    its writable cache timeouts, the counters of [snmp_mib.rs], [usm_stats.rs]
    and [snmp_mpd.rs], [sysor.rs], [snmp_framework.rs], [system.rs],
    [smux_mib.rs], the sensors of [lm_sensors.rs] and [hardware/sensors.rs],
    and the groups that are constant or nearly so. *)

From Stdlib Require Import ZArith Lia.
From S2P Require Import Prelude MachineInts Text Oid Value Pdu Config Cells Handler Snapshots Scalar Persist MibTables ProcNet Host Ucd.
From stdpp Require base.
From S2P Require Registry SmuxServer V3.

Local Open Scope list_scope.

(** [root.child(n).child(0)]. *)
Definition scalar_oid (root : Oid) (n : Z) : Oid := Oid.child (Oid.child root n) 0.

(** ** Arrays of [AtomicU64] *)

Module Counters.

Definition fresh (n : nat) : list Z := replicate n 0.
Definition fetch_add (i : nat) (k : Z) (cs : list Z) : list Z := alter (fun c => as_u64 (c + k)) i cs.
Definition load (i : nat) (cs : list Z) : Z := nth i cs 0.

End Counters.

(** ** [snmp_mib.rs] *)

Module SnmpMib.

Definition SNMP : Oid := [1; 3; 6; 1; 2; 1; 11].

Inductive SnmpCounter :=
| InPkgs | InBadVersions | InBadCommunityNames | InBadCommunityUses | InASNParseErrs | InBadTypes
| InTooBigs | InNoSuchNames | InBadValues | InReadOnlys | InGenErrs | InTotalReqVars | InTotalSetVars
| InGetRequests | InGetNexts | InSetRequests | InGetResponses | InTraps | OutPkts | OutTooBigs
| OutNoSuchNames | OutBadValues | OutGenErrs | OutGetRequests | OutGetNexts | OutSetRequests
| OutGetResponses | OutTraps | EnableAuthenTraps | SilentDrops | ProxyDrops.

#[global] Instance SnmpCounter_eq_dec : EqDecision SnmpCounter.
Proof. solve_decision. Defined.

(** [self as usize]. *)
Definition slot (c : SnmpCounter) : nat :=
  match c with
  | InPkgs => 0 | InBadVersions => 1 | InBadCommunityNames => 2 | InBadCommunityUses => 3
  | InASNParseErrs => 4 | InBadTypes => 5 | InTooBigs => 6 | InNoSuchNames => 7 | InBadValues => 8
  | InReadOnlys => 9 | InGenErrs => 10 | InTotalReqVars => 11 | InTotalSetVars => 12
  | InGetRequests => 13 | InGetNexts => 14 | InSetRequests => 15 | InGetResponses => 16 | InTraps => 17
  | OutPkts => 18 | OutTooBigs => 19 | OutNoSuchNames => 20 | OutBadValues => 21 | OutGenErrs => 22
  | OutGetRequests => 23 | OutGetNexts => 24 | OutSetRequests => 25 | OutGetResponses => 26
  | OutTraps => 27 | EnableAuthenTraps => 28 | SilentDrops => 29 | ProxyDrops => 30
  end%nat.

Definition subid (c : SnmpCounter) : Z := Z.of_nat (slot c) + 1.

Definition NUM_COUNTERS : nat := 31.

Definition new : list Z := Counters.fresh NUM_COUNTERS.
Definition inc_by (c : SnmpCounter) (n : Z) (cs : list Z) : list Z := Counters.fetch_add (slot c) n cs.
Definition inc (c : SnmpCounter) (cs : list Z) : list Z := Counters.fetch_add (slot c) 1 cs.
Definition load (c : SnmpCounter) (cs : list Z) : Z := Counters.load (slot c) cs.

Definition snmp_value (i : nat) (cs : list Z) : Value :=
  if (i =? slot EnableAuthenTraps)%nat then VInteger 2 else VCounter32 (as_u32 (Counters.load i cs)).

Definition snmp_cells (cs : list Z) : cells :=
  (fun i => (scalar_oid SNMP (Z.of_nat i + 1), snmp_value i cs)) <$> seq 0 NUM_COUNTERS.

Definition snmp_mib_handlers : list (Oid * (list Z → cells)) := [(SNMP, snmp_cells)].

End SnmpMib.

(** ** [usm_stats.rs] *)

Module UsmStats.
Import V3.

Definition USM_STATS : Oid := [1; 3; 6; 1; 6; 3; 15; 1; 1].

Definition index_of (w : UsmStat) : nat :=
  match w with
  | UnsupportedSecLevels => 0 | NotInTimeWindows => 1 | UnknownUserNames => 2
  | UnknownEngineIDs => 3 | WrongDigests => 4 | DecryptionErrors => 5
  end.

Definition new : list Z := Counters.fresh 6.
Definition inc (w : UsmStat) (cs : list Z) : list Z := Counters.fetch_add (index_of w) 1 cs.

Definition variants : list UsmStat :=
  [UnsupportedSecLevels; NotInTimeWindows; UnknownUserNames; UnknownEngineIDs; WrongDigests; DecryptionErrors].

Definition usm_cells (cs : list Z) : cells :=
  (fun v => (scalar_oid USM_STATS (Z.of_nat (index_of v) + 1), VCounter32 (as_u32 (Counters.load (index_of v) cs)))) <$> variants.

Definition usm_stats_handler : Oid * (list Z → cells) := (USM_STATS, usm_cells).

End UsmStats.

(** ** [snmp_mpd.rs] *)

Module Mpd.

Definition SNMP_MPD : Oid := [1; 3; 6; 1; 6; 3; 11; 2; 1].
Definition IDX_UNKNOWN_SEC_MODEL : nat := 0.
Definition IDX_INVALID_MSG : nat := 1.

Definition new : list Z := Counters.fresh 2.
Definition inc_unknown_security_model (cs : list Z) : list Z := Counters.fetch_add IDX_UNKNOWN_SEC_MODEL 1 cs.
Definition inc_invalid_msg (cs : list Z) : list Z := Counters.fetch_add IDX_INVALID_MSG 1 cs.

Definition mpd_cells (cs : list Z) : cells := [
  (scalar_oid SNMP_MPD 1, VCounter32 (as_u32 (Counters.load IDX_UNKNOWN_SEC_MODEL cs)));
  (scalar_oid SNMP_MPD 2, VCounter32 (as_u32 (Counters.load IDX_INVALID_MSG cs)))].

Definition snmp_mpd_handler_with : Oid * (list Z → cells) := (SNMP_MPD, mpd_cells).

End Mpd.

(** ** [sysor.rs] *)

Module SysOr.

Definition SYS_OR_ENTRY : Oid := [1; 3; 6; 1; 2; 1; 1; 9; 1].

Record SysOrEntry := mkEntry { index : Z; id : Oid; descr : text; uptime_ticks : Z }.

(** [boot_time] and the clock are in milliseconds. *)
Record SysOrTable := mkTable { rows : list SysOrEntry; boot_time : Z }.

Definition new (boot : Z) : SysOrTable := mkTable [] boot.

Definition register (now : Z) (i : Oid) (d : text) (t : SysOrTable) : Z * SysOrTable :=
  let ticks := as_u32 (Z.max 0 (now - boot_time t) / 10) in
  let idx := as_u32 (as_u32 (Z.of_nat (length (rows t))) + 1) in
  (idx, mkTable (rows t ++ [mkEntry idx i d ticks]) (boot_time t)).

Definition columns (r : SysOrEntry) : list (Z * Value) :=
  [(2, VOid (id r)); (3, VOctetString (as_bytes (descr r))); (4, VTimeTicks (uptime_ticks r))].

Definition sysor_cells (t : SysOrTable) : cells :=
  flat_map (fun r => row_cells SYS_OR_ENTRY [index r] (columns r)) (rows t).

Definition sysor_handler : Oid * (SysOrTable → cells) := (SYS_OR_ENTRY, sysor_cells).

End SysOr.

(** ** [snmp_framework.rs] *)

Module Framework.

Definition SNMP_ENGINE : Oid := [1; 3; 6; 1; 6; 3; 10; 2; 1].
Definition MAX_MESSAGE_SIZE : Z := 65507.

Record EngineSnapshot := mkEngine { engine_id : bytes; engine_boots : Z; boot_time : option Z }.

Definition engine_time (now : Z) (e : EngineSnapshot) : Z :=
  default 0 ((fun t => as_u32 (Z.max 0 (now - t) / 1000)) <$> boot_time e).

(** The handlers, each over the clock and what the provider returns. *)
Definition snmp_framework_handlers : list (Oid * (Z * EngineSnapshot → cells)) :=
  let base n := Oid.child SNMP_ENGINE n in
  [(base 1, fun '(_, e) => FnHandler.scalar_cells (base 1) (VOctetString (engine_id e)));
   (base 2, fun '(_, e) => FnHandler.scalar_cells (base 2) (VInteger (engine_boots e)));
   (base 3, fun '(t, e) => FnHandler.scalar_cells (base 3) (VInteger (engine_time t e)));
   (base 4, fun '(_, e) => FnHandler.scalar_cells (base 4) (VInteger MAX_MESSAGE_SIZE))].

End Framework.

(** ** [system.rs] *)

Module SystemGroup.

Definition SYSTEM : Oid := [1; 3; 6; 1; 2; 1; 1].
Definition SYS_OBJECT_ID : Oid := [1; 3; 6; 1; 4; 1; 8072; 3; 2; 10].

(** What the functions of [sysinfo::System] report. *)
Record Names := mkNames {
  os_name : option text; os_version : option text; kernel_version : option text;
  long_os_version : option text; reported_host : option text; cpu_arch : text }.

Definition or_else {A} (a b : option A) : option A := match a with Some _ => a | None => b end.

Definition host_name (n : Names) : text := default (str "localhost") (reported_host n).

Definition format_sysdescr (ostype hostname osrelease version arch : text) : text :=
  ostype ++ [32] ++ hostname ++ [32] ++ osrelease ++ [32] ++ version ++ [32] ++ arch.

Definition system_description (n : Names) : text :=
  format_sysdescr (default (str "Unknown") (os_name n)) (host_name n)
    (default (str "unknown") (or_else (os_version n) (kernel_version n)))
    (default (str "unknown") (or_else (long_os_version n) (kernel_version n))) (cpu_arch n).

(** [sysUpTime], [elapsed] in milliseconds. *)
Definition uptime_centis (now start : Z) : Z := Z.min (Z.max 0 (now - start) / 10) u32_max.

(** An installed object: one read live, or a [ScalarHandler] and its value. *)
Inductive Installed :=
| Live (root : Oid) (value : Z * Names → Value)
| Stored (c : ScalarHandler.config) (v : Value).

Definition system_handlers_with_persistables (contact location : text) (start : Z) (n : Names) :
    list Installed * list (ScalarHandler.config * Value) :=
  let base i := Oid.child SYSTEM i in
  let sys_contact := (ScalarHandler.writable (ScalarHandler.new (base 4)), VOctetString (as_bytes contact)) in
  let sys_name := (ScalarHandler.writable (ScalarHandler.new (base 5)), VOctetString (as_bytes (host_name n))) in
  let sys_location := (ScalarHandler.writable (ScalarHandler.new (base 6)), VOctetString (as_bytes location)) in
  let stored s := Stored s.1 s.2 in
  ([Live (base 1) (fun '(_, m) => VOctetString (as_bytes (system_description m)));
    Stored (ScalarHandler.new (base 2)) (VOid SYS_OBJECT_ID);
    Live (base 3) (fun '(t, _) => VTimeTicks (uptime_centis t start));
    stored sys_contact; stored sys_name; stored sys_location;
    Stored (ScalarHandler.new (base 7)) (VInteger 72)],
   [sys_contact; sys_name; sys_location]).

Definition system_handlers (contact location : text) (start : Z) (n : Names) : list Installed :=
  (system_handlers_with_persistables contact location start n).1.

End SystemGroup.

(** ** [smux_mib.rs] *)

Module SmuxMib.

Definition SMUX_MIB : Oid := [1; 3; 6; 1; 2; 1; 20].
Definition row_entry : Oid := Oid.child (Oid.child (Oid.child SMUX_MIB 3) 1) 1.

(** The identity in the shared state of the peer a subtree belongs to. *)
Definition peer_identity_of (s : SmuxServer.System) (id : Z) : Oid :=
  match SmuxServer.peers (SmuxServer.server s) !! id with
  | Some a => match SmuxServer.conns s !! a with Some c => SmuxServer.peer_identity c | None => Oid.null end
  | None => Oid.null
  end.

Definition smux_columns (s : SmuxServer.System) (r : Oid * Z) : list (Z * Value) :=
  [(1, VOid r.1); (2, VOid (peer_identity_of s r.2)); (5, VInteger 1)].

Definition smux_mib_cells (s : SmuxServer.System) : cells :=
  (scalar_oid SMUX_MIB 1, VInteger (Z.of_nat (base.size (SmuxServer.peers (SmuxServer.server s))))) ::
  numbered row_entry (fun _ => smux_columns s) (SmuxServer.registered_subtrees (SmuxServer.server s)).

Definition smux_mib_handlers : list (Oid * (SmuxServer.System → cells)) := [(SMUX_MIB, smux_mib_cells)].

End SmuxMib.

(** ** [netsnmp_agent.rs] *)

Module NsAgent.

Definition NS_CACHE : Oid := [1; 3; 6; 1; 4; 1; 8072; 1; 6].
Definition NS_CACHE_ENABLED : Oid := [1; 3; 6; 1; 4; 1; 8072; 1; 6; 1].
Definition NS_CACHE_ENTRY : Oid := [1; 3; 6; 1; 4; 1; 8072; 1; 6; 2; 1].
Definition NS_CACHE_TIMEOUT : Z := 2.
Definition NS_CACHE_STATUS : Z := 3.
Definition NS_CONFIG_DEBUG : Oid := [1; 3; 6; 1; 4; 1; 8072; 1; 3; 1].
Definition NS_DEBUG_ENABLED : Oid := [1; 3; 6; 1; 4; 1; 8072; 1; 3; 2].
Definition NS_DEBUG_OUTPUT_ENTRY : Oid := [1; 3; 6; 1; 4; 1; 8072; 1; 3; 4; 1].
Definition NS_CONFIG_LOGGING : Oid := [1; 3; 6; 1; 4; 1; 8072; 1; 7; 1].
Definition NS_LOGGING_ENTRY : Oid := [1; 3; 6; 1; 4; 1; 8072; 1; 7; 2; 1].
Definition NS_MODULE_ENTRY : Oid := [1; 3; 6; 1; 4; 1; 8072; 1; 5; 1].
Definition NS_TRANSACTION_ENTRY : Oid := [1; 3; 6; 1; 4; 1; 8072; 1; 8; 1].
Definition NS_VACM_ACCESS_ENTRY : Oid := [1; 3; 6; 1; 4; 1; 8072; 1; 9; 1].
Definition TV_TRUE : Z := 1.
Definition TV_FALSE : Z := 2.

(** A [Duration], in nanoseconds. *)
Definition from_secs (s : Z) : Z := s * 1000000000.
Definition as_secs (d : Z) : Z := d / 1000000000.

Record NsCacheState := mkCache { enabled : bool; ttls : gmap text Z }.

Definition with_enabled (e : bool) : NsCacheState := mkCache e ∅.
Definition new : NsCacheState := with_enabled true.
Definition set_enabled (e : bool) (s : NsCacheState) : NsCacheState := mkCache e (ttls s).
Definition set_ttl (name : text) (d : Z) (s : NsCacheState) : NsCacheState := mkCache (enabled s) (<[name := d]> (ttls s)).
Definition remove_ttl (name : text) (s : NsCacheState) : option Z * NsCacheState :=
  (ttls s !! name, mkCache (enabled s) (delete name (ttls s))).
Definition ttl (name : text) (dflt : Z) (s : NsCacheState) : Z := default dflt (ttls s !! name).

Definition modules (s : NsCacheState) : list (text * Z) :=
  sort_by (fun a b => name_le a.1 b.1) (map_to_list (ttls s)).

Definition cache_columns (m : text * Z) : list (Z * Value) :=
  [(NS_CACHE_TIMEOUT, VInteger (as_i64 (as_secs m.2))); (NS_CACHE_STATUS, VInteger STATUS_ACTIVE)].

Definition module_index (m : text * Z) : Oid := string_index (as_bytes m.1).

Definition cache_cells (s : NsCacheState) : cells :=
  (Oid.child NS_CACHE_ENABLED 0, VInteger (if enabled s then TV_TRUE else TV_FALSE)) ::
  flat_map (fun m => row_cells NS_CACHE_ENTRY (module_index m) (cache_columns m)) (modules s).

(** [SNAPSHOT_TTL], in milliseconds. *)
Definition SNAPSHOT_TTL : Z := 900.

Definition decode_string_index (idx : Oid) : option text :=
  match idx with
  | [] => None
  | len :: rest =>
      if negb (Z.of_nat (length idx) =? len + 1) then None
      else from_utf8 (wrap_u 8 <$> rest)
  end.

Definition decode_module_from_timeout (tail : Oid) : option text :=
  let prefix := NS_CACHE_ENTRY in
  if (length tail <=? length prefix + 1)%nat || negb (Oid.eqb (take (length prefix) tail) prefix) then None
  else if negb (nth (length prefix) tail 0 =? NS_CACHE_TIMEOUT) then None
  else decode_string_index (drop (length prefix + 1) tail).

(** The handler's state: the shared [NsCacheState] is what its provider reads. *)
Abbreviation CacheWorld := (Snapshot.state NsCacheState) (only parsing).

Definition prepare_set (o : Oid) (v : Value) : St CacheWorld status_result := fun w =>
  (match decode_module_from_timeout o with
   | None => Err NotWritable
   | Some _ =>
       match v with
       | VInteger secs => if 0 <=? secs then Ok tt else Err WrongType
       | _ => Err WrongType
       end
   end, w).

Definition commit_set (o : Oid) (v : Value) : St CacheWorld status_result := fun w =>
  match decode_module_from_timeout o with
  | None => (Err NotWritable, w)
  | Some name =>
      match v with
      | VInteger secs =>
          (Ok tt, Snapshot.mkState (Snapshot.now w)
            (set_ttl name (from_secs (as_u64 (Z.max secs 0))) (Snapshot.provided w)) None)
      | _ => (Err WrongType, w)
      end
  end.

Definition handler : MibHandler CacheWorld :=
  mkHandler NS_CACHE (Snapshot.get cache_cells SNAPSHOT_TTL) (Snapshot.get_next cache_cells SNAPSHOT_TTL)
    prepare_set commit_set default_undo_set.

Definition ns_cache_handlers : list (MibHandler CacheWorld) := [handler].

(** The constant objects and the tables that are always empty. *)
Definition ns_debug_handlers : list (Oid * cells) := [
  (NS_CONFIG_DEBUG, FnHandler.scalar_cells NS_CONFIG_DEBUG (VOctetString (as_bytes (str "net-snmp-rs debug (level=0)"))));
  (NS_DEBUG_ENABLED, FnHandler.scalar_cells NS_DEBUG_ENABLED (VInteger TV_FALSE));
  (NS_DEBUG_OUTPUT_ENTRY, [])].

Definition ns_logging_handlers : list (Oid * cells) := [
  (NS_CONFIG_LOGGING, FnHandler.scalar_cells NS_CONFIG_LOGGING (VOctetString (as_bytes (str "net-snmp-rs logging"))));
  (NS_LOGGING_ENTRY, [])].

Definition ns_transaction_handlers : list (Oid * cells) := [(NS_TRANSACTION_ENTRY, [])].
Definition ns_vacm_access_handlers : list (Oid * cells) := [(NS_VACM_ACCESS_ENTRY, [])].

(** [NsModuleSnapshot]: of a captured handler only its root is used. *)
Definition module_columns (_ : Z) (root : Oid) : list (Z * Value) :=
  [(1, VOid root); (2, VOctetString (as_bytes (Oid.display root)))].

Definition module_order (roots : list Oid) : list Oid := sort_by Oid.leb roots.

Definition module_cells (roots : list Oid) : cells := numbered NS_MODULE_ENTRY module_columns (module_order roots).

Definition ns_module_handlers (roots : list Oid) : list (Oid * cells) := [(NS_MODULE_ENTRY, module_cells roots)].

(** All but the cache handler of [netsnmp_agent_handlers], which comes first. *)
Definition netsnmp_agent_handlers (roots : option (list Oid)) : list (Oid * cells) :=
  ns_debug_handlers ++ ns_logging_handlers ++ ns_module_handlers (default [] roots) ++
  ns_transaction_handlers ++ ns_vacm_access_handlers.

(** [netsnmp_system.rs]; the version comes from the build. *)
Definition version_string (pkg_version : text) : text := str "net-snmp-rs " ++ pkg_version.

Definition netsnmp_system_handlers (pkg_version : text) : list (Oid * cells) :=
  let root := [1; 3; 6; 1; 4; 1; 8072; 1; 0; 1] in
  [(root, FnHandler.scalar_cells root (VOctetString (as_bytes (version_string pkg_version))))].

End NsAgent.

(** ** The protocol groups without a source of data *)

Module Misc.

Definition ETHERLIKE : Oid := [1; 3; 6; 1; 2; 1; 10; 7].

Definition dot3_columns (idx : Z) : list (Z * Value) :=
  [(1, VInteger idx); (3, VCounter32 0); (7, VCounter32 0); (10, VCounter32 0); (11, VCounter32 0);
   (13, VCounter32 0); (16, VCounter32 0); (17, VOid [0; 0])].

Definition dot3_stats_cells (rows : list Z) : cells :=
  flat_map (fun idx => row_cells (Oid.child (Oid.child (Oid.child ETHERLIKE 2) 1) 1) [idx] (dot3_columns idx)) rows.

Definition line_interface (line : text) : text := trim (default [] (head (split 58 line))).

Definition is_ethernet (name : text) : bool := any_prefix ["eth"; "enp"; "enx"; "ens"]%string name.

(** The lines after the two headings are numbered from one. *)
Definition interface_rows (fs : text → option bytes) : list Z :=
  omap (fun '(i, line) => if is_ethernet (line_interface line) then Some (as_u32 (Z.of_nat i + 1)) else None)
    (imap pair (drop 2 (lines (read_proc fs (str "/proc/net/dev"))))).

Definition etherlike_handlers : list (Oid * ((text → option bytes) → cells)) :=
  [(Oid.child ETHERLIKE 2, fun fs => dot3_stats_cells (interface_rows fs))].

Definition SCTP : Oid := [1; 3; 6; 1; 2; 1; 105].

Definition sctp_scalar_cells : cells := [
  (scalar_oid SCTP 1, VInteger 1); (scalar_oid SCTP 2, VInteger 0); (scalar_oid SCTP 3, VInteger 0);
  (scalar_oid SCTP 4, VInteger 0); (scalar_oid SCTP 7, VGauge32 u32_max); (scalar_oid SCTP 9, VInteger 0);
  (scalar_oid SCTP 10, VInteger 0)].

Definition sctp_handlers : list (Oid * cells) := [(SCTP, sctp_scalar_cells); (Oid.child (Oid.child SCTP 3) 1, [])].

Definition TUNNEL : Oid := [1; 3; 6; 1; 2; 1; 10; 131].
Definition tunnel_cells : cells := [].
Definition tunnel_handlers : list (Oid * cells) := [(Oid.child (Oid.child TUNNEL 1) 1, tunnel_cells)].

Definition BRIDGE : Oid := [1; 3; 6; 1; 2; 1; 17].
Definition bridge_cells : cells := [].
Definition bridge_handlers : list (Oid * cells) :=
  [(Oid.child (Oid.child BRIDGE 1) 4, bridge_cells); (Oid.child (Oid.child BRIDGE 4) 3, bridge_cells)].

Definition RMON : Oid := [1; 3; 6; 1; 2; 1; 16].
Definition rmon_cells : cells := [].
Definition rmon_handlers : list (Oid * cells) :=
  [(Oid.child (Oid.child RMON 3) 1, rmon_cells); (Oid.child (Oid.child RMON 9) 1, rmon_cells)].

Definition MTA : Oid := [1; 3; 6; 1; 2; 1; 28].
Definition mta_cells : cells := [].
Definition mta_handlers : list (Oid * cells) := [(Oid.child (Oid.child MTA 1) 1, mta_cells)].

End Misc.

(** ** [hardware/sensors.rs] and [lm_sensors.rs] *)

Module Sensors.

(** Floating-point values and what is done with them. *)
Section Readings.
Context {F : Type} (parse_float : text → option F) (times : F → F → F) (milli one : F) (round_i64 : F → Z).

Record SensorReading := mkReading { sensor_name : text; sensor_value : F; unit : text }.

Definition strip_prefix (p s : text) : option text := if has_prefix p s then Some (drop (length p) s) else None.
Definition strip_suffix (p s : text) : option text :=
  let k := (length s - length p)%nat in
  if (length p <=? length s)%nat && bool_decide (drop k s = p) then Some (take k s) else None.

Definition is_ascii_digit (c : Z) : bool := (48 <=? c) && (c <=? 57).

(** The number of a channel file of this kind. *)
Definition channel_number (kind fname : text) : option text :=
  let! rest := strip_prefix kind fname in
  let! mid := strip_suffix (str "_input") rest in
  if forallb is_ascii_digit mid then Some mid else None.

Definition channel_name (kind number chip : text) (label : option text) : text :=
  match label with
  | Some l => if bool_decide (chip = []) then l else chip ++ [58] ++ l
  | None => if bool_decide (chip = []) then kind ++ number else chip ++ [58] ++ kind ++ number
  end.

Section Tree.
Context (f : FileSystem) (is_dir : text → bool).

Definition join (dir name : text) : text := dir ++ [47] ++ name.

Definition hwmon_dirs (root : text) : list text :=
  sort_by name_le (join root <$>
    List.filter (fun n => has_prefix (str "hwmon") n && is_dir (join root n))
      (omap from_utf8 (default [] (read_dir f root)))).

Definition read_channel (kind u : text) (scale : F) (hwmon chip fname : text) : option SensorReading :=
  let! number := channel_number kind fname in
  let! raw := read_to_string f (join hwmon fname) in
  let! raw_val := parse_float (trim raw) in
  let label := trim <$> read_to_string f (join hwmon (kind ++ number ++ str "_label")) in
  Some (mkReading (channel_name kind number chip label) (times raw_val scale) u).

Definition read_chip (kind u : text) (scale : F) (hwmon : text) : list SensorReading :=
  let chip := default [] (trim <$> read_to_string f (join hwmon (str "name"))) in
  omap (read_channel kind u scale hwmon chip)
    (sort_by name_le (from_utf8_lossy <$> default [] (read_dir f hwmon))).

Definition read_channels (root kind u : text) (scale : F) : list SensorReading :=
  flat_map (read_chip kind u scale) (hwmon_dirs root).

End Tree.

(** [trait SensorAccess]. *)
Record SensorAccess := mkAccess {
  temperatures : list SensorReading; fans : list SensorReading; voltages : list SensorReading }.

Definition hwmon_access (f : FileSystem) (is_dir : text → bool) (root : text) : SensorAccess :=
  mkAccess (read_channels f is_dir root (str "temp") (str "C") milli)
    (read_channels f is_dir root (str "fan") (str "RPM") one)
    (read_channels f is_dir root (str "in") (str "V") milli).

Definition LM_SENSORS : Oid := [1; 3; 6; 1; 4; 1; 2021; 13].
Definition LM_SENSORS_TABLES : Oid := [1; 3; 6; 1; 4; 1; 2021; 13; 16].
Definition TEMP_TABLE : Z := 2.
Definition FAN_TABLE : Z := 3.
Definition VOLT_TABLE : Z := 4.

Definition sensor_columns (idx : Z) (r : SensorReading) : list (Z * Value) :=
  [(1, VInteger idx); (2, VOctetString (as_bytes (sensor_name r))); (3, VInteger (round_i64 (sensor_value r))); (4, VInteger 0)].

Definition sensor_entry (table : Z) : Oid := Oid.child (Oid.child LM_SENSORS_TABLES table) 1.

Definition sensor_table_cells (table : Z) (readings : list SensorReading) : cells :=
  btree_of (numbered (sensor_entry table) sensor_columns readings).

Definition lm_sensors_cells (s : SensorAccess) : cells :=
  btree_of (flat_map (fun '(t, rs) => sensor_table_cells t rs)
    [(TEMP_TABLE, temperatures s); (FAN_TABLE, fans s); (VOLT_TABLE, voltages s)]).

Definition lm_sensors_handler : Oid * (SensorAccess → cells) := (LM_SENSORS, lm_sensors_cells).

Definition temp_sensor_cells (readings : list SensorReading) : cells := sensor_table_cells TEMP_TABLE readings.

End Readings.
End Sensors.

(** * Scalars at distinct instances *)

Lemma scalars_provide {K} root (n : K → Z) (val : K → Value) ks : NoDup (n <$> ks) →
  Snapshot.provides root ((λ k, (scalar_oid root (n k), val k)) <$> ks).
Proof.
  intros Hn. split.
  - rewrite <- list_fmap_compose. rewrite (list_fmap_ext _ (scalar_oid root ∘ n)) by done.
    rewrite list_fmap_compose. apply NoDup_fmap_2; [|done]. intros x y E. unfold scalar_oid, Oid.child in E.
    rewrite <- !app_assoc in E. apply app_inv_head in E. by injection E.
  - intros x (k & -> & _)%list_elem_of_fmap. apply Oid.is_prefix_of_spec. unfold scalar_oid, Oid.child.
    cbn. rewrite <- app_assoc. by eexists.
Qed.

Lemma scalars_served {K} root (n : K → Z) (val : K → Value) ks k : NoDup (n <$> ks) → k ∈ ks →
  served (FnHandler.handler root) ((λ k, (scalar_oid root (n k), val k)) <$> ks) (scalar_oid root (n k)) = Some (val k).
Proof.
  intros Hn Hk. apply served_provided; [by apply scalars_provide|]. apply list_elem_of_fmap. by exists k.
Qed.

(** * Counters *)

(** The sum of the increments of one slot. *)
Definition total_of {K} (slot : K → nat) (i : nat) (es : list (K * Z)) : Z :=
  foldr (λ e n, (if (slot e.1 =? i)%nat then e.2 else 0) + n) 0 es.

Definition count_all {K} (slot : K → nat) (es : list (K * Z)) (cs : list Z) : list Z :=
  fold_left (λ cs e, Counters.fetch_add (slot e.1) e.2 cs) es cs.

Lemma load_fetch_add i j k cs : (i < length cs)%nat →
  Counters.load i (Counters.fetch_add j k cs) = if (j =? i)%nat then as_u64 (Counters.load i cs + k) else Counters.load i cs.
Proof.
  intros Hi. unfold Counters.load, Counters.fetch_add. rewrite !nth_lookup.
  destruct (lookup_lt_is_Some_2 cs i Hi) as [c Hc].
  destruct (Nat.eqb_spec j i) as [->|N]; [by rewrite list_lookup_alter_eq, Hc|by rewrite list_lookup_alter_ne].
Qed.

Lemma wrap_add bits a b : 0 <= bits → wrap_u bits (wrap_u bits a + b) = wrap_u bits (a + b).
Proof. intros H. unfold wrap_u. by rewrite Zplus_mod_idemp_l. Qed.

(** What a slot holds: all its increments, at the width of the array. *)
Lemma load_count_all {K} (slot : K → nat) es cs i : (i < length cs)%nat → 0 <= Counters.load i cs < 2 ^ 64 →
  Counters.load i (count_all slot es cs) = as_u64 (Counters.load i cs + total_of slot i es).
Proof.
  revert cs. induction es as [|e es IH]; intros cs Hi Hb; cbn [count_all fold_left total_of foldr].
  - by rewrite Z.add_0_r, wrap_u_id.
  - fold (count_all slot es (Counters.fetch_add (slot e.1) e.2 cs)). fold (total_of slot i es).
    rewrite IH; rewrite ?load_fetch_add by done.
    + destruct (Nat.eqb_spec (slot e.1) i); [|done]. rewrite wrap_add by lia. f_equal. lia.
    + unfold Counters.fetch_add. by rewrite length_alter.
    + destruct (slot e.1 =? i)%nat; [by apply wrap_u_range|done].
Qed.

Lemma load_from_zero {K} (slot : K → nat) es n i : (i < n)%nat →
  as_u32 (Counters.load i (count_all slot es (Counters.fresh n))) = as_u32 (total_of slot i es).
Proof.
  intros Hi. assert (Counters.load i (Counters.fresh n) = 0) as E.
  { unfold Counters.load, Counters.fresh. rewrite nth_lookup, lookup_replicate_2; done. }
  rewrite load_count_all; rewrite ?E; [|by unfold Counters.fresh; rewrite length_replicate|lia].
  rewrite Z.add_0_l. unfold wrap_u. change (2 ^ 64) with (2 ^ 32 * 2 ^ 32).
  rewrite Z.rem_mul_r by lia. rewrite Z.mul_comm, Z_mod_plus_full. by rewrite Zmod_mod.
Qed.

Lemma slot_inj : Inj (=) (=) SnmpMib.slot.
Proof. intros [] [] E; try done; by cbn in E. Qed.

(** Whatever is counted, a counter of the group shows how often, modulo 2^32,
    under the number the MIB gives it; the enable flag is always disabled. *)
Theorem snmp_counters_count (es : list (SnmpMib.SnmpCounter * Z)) c :
  let cs := fold_left (λ cs e, SnmpMib.inc_by e.1 e.2 cs) es SnmpMib.new in
  served (FnHandler.handler SnmpMib.SNMP) (SnmpMib.snmp_cells cs) (scalar_oid SnmpMib.SNMP (SnmpMib.subid c)) =
  Some (if decide (c = SnmpMib.EnableAuthenTraps) then VInteger 2
        else VCounter32 ((foldr (λ e n, (if decide (e.1 = c) then e.2 else 0) + n) 0 es) mod 2 ^ 32)).
Proof.
  intros cs. assert (Hc : (SnmpMib.slot c < SnmpMib.NUM_COUNTERS)%nat).
  { apply Nat.ltb_lt. by destruct c. }
  unfold SnmpMib.snmp_cells, SnmpMib.subid.
  rewrite (scalars_served SnmpMib.SNMP (λ i, Z.of_nat i + 1) (λ i, SnmpMib.snmp_value i cs)); [|columns|by apply elem_of_seq; lia].
  f_equal. unfold SnmpMib.snmp_value. case_decide as E; [by subst c|].
  destruct (Nat.eqb_spec (SnmpMib.slot c) (SnmpMib.slot SnmpMib.EnableAuthenTraps)) as [X|_]; [by apply slot_inj in X|].
  f_equal. unfold cs. change (fold_left _ es SnmpMib.new) with (count_all SnmpMib.slot es (Counters.fresh SnmpMib.NUM_COUNTERS)).
  rewrite load_from_zero by done. unfold wrap_u. f_equal.
  unfold total_of. clear cs. induction es as [|e es IH]; cbn; [done|]. rewrite IH. f_equal.
  destruct (Nat.eqb_spec (SnmpMib.slot e.1) (SnmpMib.slot c)) as [X|X].
  - apply slot_inj in X. by destruct (decide (e.1 = c)).
  - destruct (decide (e.1 = c)) as [Y|_]; [|done]. by rewrite Y in X.
Qed.

Lemma usm_stats_count (ws : list V3.UsmStat) w :
  let cs := fold_left (λ cs w, UsmStats.inc w cs) ws UsmStats.new in
  served (FnHandler.handler UsmStats.USM_STATS) (UsmStats.usm_cells cs) (V3.stat_oid w) =
  Some (VCounter32 (as_u32 (total_of UsmStats.index_of (UsmStats.index_of w) ((λ w, (w, 1)) <$> ws)))).
Proof.
  intros cs. assert (V3.stat_oid w = scalar_oid UsmStats.USM_STATS (Z.of_nat (UsmStats.index_of w) + 1)) as -> by by destruct w.
  unfold UsmStats.usm_cells.
  rewrite (scalars_served UsmStats.USM_STATS (λ v, Z.of_nat (UsmStats.index_of v) + 1)); [|columns|by destruct w; repeat constructor].
  do 2 f_equal. rewrite <- (load_from_zero UsmStats.index_of _ 6) by (destruct w; cbn; lia).
  do 2 f_equal. unfold cs, count_all, UsmStats.new. generalize (Counters.fresh 6).
  induction ws as [|x ws IH]; intros z; cbn; [done|]. apply IH.
Qed.

Example mpd_counts : SnmpMib.snmp_cells SnmpMib.new !! 28%nat = Some ([1; 3; 6; 1; 2; 1; 11; 29; 0], VInteger 2) ∧
  Mpd.mpd_cells (Mpd.inc_invalid_msg (Mpd.inc_invalid_msg Mpd.new)) =
    [([1; 3; 6; 1; 6; 3; 11; 2; 1; 1; 0], VCounter32 0); ([1; 3; 6; 1; 6; 3; 11; 2; 1; 2; 0], VCounter32 2)].
Proof. done. Qed.

(** * Numbered rows *)

(** As rows under their numbers. *)
Lemma numbered_rows {A} entry (cols : Z → A → list (Z * Value)) rows :
  numbered entry cols rows =
  flat_map (λ p, row_cells entry [p.1] (cols p.1 p.2)) (imap (λ i a, (as_u32 (Z.of_nat i + 1), a)) rows).
Proof.
  unfold numbered. rewrite flat_map_concat_map. f_equal.
  change (List.map ?f ?l) with (f <$> l). by rewrite fmap_imap.
Qed.

Lemma numbered_provides {A} root s (cols : Z → A → list (Z * Value)) names rows :
  (∀ i a, (cols i a).*1 = names) → NoDup names → Z.of_nat (length rows) < u32_max →
  Snapshot.provides root (numbered (root ++ s) cols rows).
Proof.
  intros Hn Hd Hl. unfold u32_max in Hl. split.
  - rewrite numbered_rows.
    refine (proj1 (table_provides _ (λ p, [p.1]) (λ p, cols p.1 p.2) names _ _ Hd _)); [by intros r|].
    rewrite fmap_imap. apply NoDup_alt. intros i j x Hi Hj. rewrite list_lookup_imap in Hi, Hj.
    destruct (rows !! i) as [a|] eqn:Ei, (rows !! j) as [b|] eqn:Ej; try done.
    apply lookup_lt_Some in Ei, Ej. cbn in Hi, Hj. injection Hi as <-. injection Hj as E.
    rewrite !wrap_u_id in E by lia. lia.
  - intros x (i & a & _ & Hx)%concat_imap_elem. by eapply row_under.
Qed.

(** What a table of numbered rows serves. *)
Lemma numbered_served {A} root s (cols : Z → A → list (Z * Value)) names rows c i :
  (∀ i a, (cols i a).*1 = names) → NoDup names → Z.of_nat (length rows) < u32_max → Z.of_nat i < u32_max →
  served (FnHandler.handler root) (numbered (root ++ s) cols rows) ((root ++ s) ++ [c; Z.of_nat i + 1]) =
  let! a := rows !! i in value_of (cols (Z.of_nat i + 1) a) c.
Proof.
  intros Hn Hd Hl Hi. apply option_eq. intros v.
  rewrite served_provided by by eapply numbered_provides.
  by apply (numbered_elem (root ++ s) cols rows names).
Qed.

(** ** [sysORTable] *)

(** The registrations a table has seen, oldest first: when, and of what. *)
Definition register_all (boot : Z) (rs : list (Z * Oid * text)) : SysOr.SysOrTable :=
  fold_left (λ t r, (SysOr.register r.1.1 r.1.2 r.2 t).2) rs (SysOr.new boot).

Definition sysor_row (boot : Z) (i : nat) (r : Z * Oid * text) : SysOr.SysOrEntry :=
  SysOr.mkEntry (as_u32 (as_u32 (Z.of_nat i) + 1)) r.1.2 r.2 (as_u32 (Z.max 0 (r.1.1 - boot) / 10)).

Lemma register_all_rows boot rs :
  register_all boot rs = SysOr.mkTable (imap (sysor_row boot) rs) boot.
Proof.
  unfold register_all. induction rs as [|r rs IH] using rev_ind; [done|].
  rewrite fold_left_app. cbn [fold_left]. rewrite IH. unfold SysOr.register. cbn [SysOr.rows SysOr.boot_time snd].
  rewrite imap_app. cbn. by rewrite length_imap, Nat.add_0_r.
Qed.

Lemma sysor_cells_numbered boot rs : SysOr.sysor_cells (register_all boot rs) =
  numbered SysOr.SYS_OR_ENTRY (λ _ r, SysOr.columns (sysor_row boot 0 r)) rs.
Proof.
  rewrite register_all_rows, numbered_rows. unfold SysOr.sysor_cells. cbn [SysOr.rows].
  rewrite !flat_map_concat_map. f_equal. change (List.map ?f ?l) with (f <$> l). rewrite !fmap_imap.
  apply imap_ext. intros i r _. cbn. by rewrite wrap_add by lia.
Qed.

(** The i-th registration is row i: its index is what [register] returned, and
    later registrations change nothing of it. *)
Theorem sysor_rows_stay boot rs i c : Z.of_nat (length rs) < u32_max → Z.of_nat i < u32_max →
  served (FnHandler.handler SysOr.SYS_OR_ENTRY) (SysOr.sysor_cells (register_all boot rs))
    (SysOr.SYS_OR_ENTRY ++ [c; Z.of_nat i + 1]) =
  (let! (now, id, descr) := rs !! i in
   value_of [(2, VOid id); (3, VOctetString (as_bytes descr)); (4, VTimeTicks (as_u32 (Z.max 0 (now - boot) / 10)))] c) ∧
  (∀ now id descr, rs !! i = Some (now, id, descr) →
     (SysOr.register now id descr (register_all boot (take i rs))).1 = Z.of_nat i + 1).
Proof.
  intros Hl Hi. split.
  - rewrite sysor_cells_numbered.
    refine (eq_trans (numbered_served SysOr.SYS_OR_ENTRY [] _ [2; 3; 4] rs c i _ _ Hl Hi) _); [done|columns|].
    by destruct (rs !! i) as [[[t o] d]|].
  - intros t o d H%lookup_lt_Some. rewrite register_all_rows. cbn. rewrite length_imap, length_take, Nat.min_l by lia.
    unfold u32_max in Hi. rewrite wrap_add by lia. apply wrap_u_id. lia.
Qed.

Lemma sysor_rows_stay_witness :
  served (FnHandler.handler SysOr.SYS_OR_ENTRY)
    (SysOr.sysor_cells (register_all 0 [(120, [1; 3; 6], str "core"); (5000, [1; 3; 6; 1], str "views")]))
    (SysOr.SYS_OR_ENTRY ++ [4; 2]) = Some (VTimeTicks 500).
Proof.
  exact (proj1 (sysor_rows_stay 0 [(120, [1; 3; 6], str "core"); (5000, [1; 3; 6; 1], str "views")] 1 4 eq_refl eq_refl)).
Defined.

(** ** [nsModuleTable] *)

(** Every captured handler has one row, in the order of the roots, and the name
    of a row reads back as its OID. *)
Theorem module_table_lists roots i : Forall Oid.wf roots → Z.of_nat (length roots) < u32_max → Z.of_nat i < u32_max →
  NsAgent.module_order roots ≡ₚ roots ∧ StronglySorted Oid.le (NsAgent.module_order roots) ∧
  let get c := served (FnHandler.handler NsAgent.NS_MODULE_ENTRY) (NsAgent.module_cells roots)
    (NsAgent.NS_MODULE_ENTRY ++ [c; Z.of_nat i + 1]) in
  match NsAgent.module_order roots !! i with
  | Some o => get 1 = Some (VOid o) ∧ ∃ name, get 2 = Some (VOctetString (as_bytes name)) ∧ Oid.from_str name = Ok o
  | None => get 1 = None ∧ get 2 = None
  end.
Proof.
  intros Hw Hl Hi. assert (P : NsAgent.module_order roots ≡ₚ roots) by apply sort_by_perm.
  split; [done|]. split.
  { apply sort_by_sorted; [intros a b; apply Oid.leb_le| |apply _].
    intros a b H. apply Oid.lt_le. by apply Oid.leb_gt. }
  cbn zeta. unfold NsAgent.module_cells.
  assert (S : ∀ c, served (FnHandler.handler NsAgent.NS_MODULE_ENTRY)
    (numbered NsAgent.NS_MODULE_ENTRY NsAgent.module_columns (NsAgent.module_order roots))
    (NsAgent.NS_MODULE_ENTRY ++ [c; Z.of_nat i + 1]) =
    let! a := NsAgent.module_order roots !! i in value_of (NsAgent.module_columns (Z.of_nat i + 1) a) c).
  { intros c. refine (numbered_served NsAgent.NS_MODULE_ENTRY [] NsAgent.module_columns [1; 2] _ c i _ _ _ Hi);
      [done|columns|by rewrite P]. }
  rewrite !S. destruct (NsAgent.module_order roots !! i) as [o|] eqn:E; [|done].
  split; [done|]. exists (Oid.display o). split; [done|]. apply Oid.from_str_display_ok.
  rewrite Forall_forall in Hw. apply Hw. rewrite <- P. by eapply list_elem_of_lookup_2.
Qed.

Lemma module_table_lists_witness :
  served (FnHandler.handler NsAgent.NS_MODULE_ENTRY) (NsAgent.module_cells [[1; 3; 6; 2]; [1; 3; 6; 1]])
    (NsAgent.NS_MODULE_ENTRY ++ [1; 1]) = Some (VOid [1; 3; 6; 1]).
Proof.
  apply (module_table_lists [[1; 3; 6; 2]; [1; 3; 6; 1]] 0); [|done|done].
  rewrite !Forall_cons. by split_and!; [apply Oid.wf_check..|].
Defined.

(** ** [SMUX-MIB] *)

(** Numbered rows behind cells that are not under their entry. *)
Lemma numbered_behind {A} root s front (cols : Z → A → list (Z * Value)) names rows c i :
  Snapshot.provides root front → (∀ x, x ∈ front → Oid.is_prefix_of (root ++ s) x.1 = false) →
  (∀ i a, (cols i a).*1 = names) → NoDup names → Z.of_nat (length rows) < u32_max → Z.of_nat i < u32_max →
  served (FnHandler.handler root) (front ++ numbered (root ++ s) cols rows) ((root ++ s) ++ [c; Z.of_nat i + 1]) =
  let! a := rows !! i in value_of (cols (Z.of_nat i + 1) a) c.
Proof.
  intros Hp Ho Hn Hd Hl Hi. rewrite <- (numbered_served root s cols names rows c i Hn Hd Hl Hi).
  assert (N : Snapshot.provides root (numbered (root ++ s) cols rows)) by by eapply numbered_provides.
  assert (N' : Snapshot.provides (root ++ s) (numbered (root ++ s) cols rows)).
  { pose proof (numbered_provides (root ++ s) [] cols names rows Hn Hd Hl) as X. by rewrite app_nil_r in X. }
  apply option_eq. intros v. rewrite !served_provided; [|done|].
  - rewrite elem_of_app. split; [|by right]. intros [Hx|Hx]; [|done]. exfalso.
    apply Ho in Hx. apply not_true_iff_false in Hx. apply Hx, Oid.is_prefix_of_spec. by eexists.
  - apply provides_app; [done|done|]. intros x y Hx Hy E. apply Ho in Hx. apply N' in Hy. congruence.
Qed.

(** Every row of the tree table is a subtree and the identity of a connection
    being served that has registered it. *)
Theorem smux_tree_names_owners cfg es i sub id (s := SmuxServer.run (SmuxServer.initial cfg) es) :
  Forall SmuxServer.write_succeeds es → SmuxServer.few_connections s →
  SmuxServer.subtrees (SmuxServer.server s) !! i = Some (sub, id) →
  Z.of_nat (length (SmuxServer.subtrees (SmuxServer.server s))) < u32_max →
  ∃ a c, SmuxServer.conns s !! a = Some c ∧ SmuxServer.serving c = true ∧ sub ∈ SmuxServer.peer_subtrees c ∧
    ∀ col, served (FnHandler.handler SmuxMib.SMUX_MIB) (SmuxMib.smux_mib_cells s)
        (SmuxMib.row_entry ++ [col; Z.of_nat i + 1]) =
      value_of [(1, VOid sub); (2, VOid (SmuxServer.peer_identity c)); (5, VInteger 1)] col.
Proof.
  intros W F Hi Hl. pose proof (SmuxServer.run_ok true _ es (SmuxServer.initial_ok true cfg) F (or_intror W)) as T. fold s in T.
  assert (Ho : sub ∈ SmuxServer.owned id (SmuxServer.server s)).
  { apply SmuxServer.elem_of_owned. by eapply list_elem_of_lookup_2. }
  destruct (SmuxServer.ok_id _ _ T id) as (a & c & Hc & <-); [right; by intros E; rewrite E in Ho; apply elem_of_nil in Ho|].
  destruct (SmuxServer.ok_conn _ _ T _ _ Hc) as (_ & _ & _ & Fc). unfold SmuxServer.filed_conn in Fc. exists a, c.
  destruct (SmuxServer.serving c).
  2: { destruct Fc as [[_ E]|[? _]]; [|done]. rewrite E in Ho. by apply elem_of_nil in Ho. }
  destruct Fc as [Hp Es]. split_and!; [done|done|by rewrite <- Es|]. intros col.
  refine (eq_trans (numbered_behind SmuxMib.SMUX_MIB [3; 1; 1] [_] (λ _, SmuxMib.smux_columns s) [1; 2; 5] _ col i _ _ _ _ Hl _) _).
  - apply constants_provided; [columns|by repeat constructor].
  - by intros x ->%list_elem_of_singleton.
  - done.
  - columns.
  - apply lookup_lt_Some in Hi. unfold SmuxServer.registered_subtrees in *. lia.
  - unfold SmuxServer.registered_subtrees. rewrite Hi. cbn. unfold SmuxMib.smux_columns, SmuxMib.peer_identity_of.
    cbn [snd fst]. by rewrite Hp, Hc.
Qed.

Lemma smux_tree_names_owners_witness : ∃ c,
  served (FnHandler.handler SmuxMib.SMUX_MIB) (SmuxMib.smux_mib_cells SmuxServer.demo_system) (SmuxMib.row_entry ++ [2; 1]) =
  Some (VOid (SmuxServer.peer_identity c)).
Proof.
  destruct (smux_tree_names_owners SmuxServer.demo_config SmuxServer.demo_events 0 [1; 3; 6; 1; 4] 1 SmuxServer.demo_writes)
    as (a & c & _ & _ & _ & H); [vm_compute; discriminate|vm_compute; reflexivity|vm_compute; reflexivity|].
  exists c. exact (H 2).
Defined.

(** ** Sensors *)

(** Tables side by side, each under its own arc of the root. *)
Definition own_arc (root : Oid) (gl : Z * cells) : Prop := Snapshot.provides (root ++ [gl.1]) gl.2.

Lemma own_arc_of root gl x : own_arc root gl → x ∈ gl.2 → ∃ rest, x.1 = root ++ gl.1 :: rest.
Proof. intros [_ H] [w E]%H%Oid.is_prefix_of_spec. exists w. by rewrite E, <- app_assoc. Qed.

Lemma tables_provide root gs : Forall (own_arc root) gs → NoDup gs.*1 → Snapshot.provides root (concat gs.*2).
Proof.
  induction 1 as [|gl gs Hg HF IH]; cbn; [by intros _; split; [constructor|intros x Hx%elem_of_nil]|].
  intros [Hn Hd]%NoDup_cons. apply provides_app; [|by apply IH|].
  - split; [apply Hg|]. intros x [w ->]%(own_arc_of root); [|done]. apply Oid.is_prefix_of_spec. by eexists.
  - intros x y [w Ex]%(own_arc_of root) (l & Hl & Hy)%list_elem_of_In%in_concat E; [|done].
    apply list_elem_of_In, list_elem_of_fmap in Hl as (hl & -> & Hh). apply list_elem_of_In in Hy.
    rewrite Forall_forall in HF. apply (own_arc_of root) in Hy as [w' Ey]; [|by apply HF].
    rewrite Ex, Ey in E. apply app_inv_head in E. injection E as E _. apply Hn. rewrite E. by apply list_elem_of_fmap_2.
Qed.

Lemma tables_pick root gs g l rest v : Forall (own_arc root) gs → NoDup gs.*1 → (g, l) ∈ gs →
  (root ++ g :: rest, v) ∈ concat gs.*2 ↔ (root ++ g :: rest, v) ∈ l.
Proof.
  rewrite Forall_forall. intros HF Hn Hg. split.
  - intros (m & Hm & Hx)%list_elem_of_In%in_concat. apply list_elem_of_In, list_elem_of_fmap in Hm as ([h k] & -> & Hh).
    apply list_elem_of_In in Hx. destruct (own_arc_of _ _ _ (HF _ Hh) Hx) as [w E]. cbn in E, Hx.
    apply app_inv_head in E. injection E as <- _. enough (k = l) as -> by done.
    apply list_elem_of_lookup in Hg as [i Hi], Hh as [j Hj].
    assert (i = j) as ->; [|congruence]. eapply NoDup_lookup; [exact Hn|..]; rewrite list_lookup_fmap; by rewrite ?Hi, ?Hj.
  - intros Hx. apply list_elem_of_In, in_concat. exists l. rewrite <- !list_elem_of_In. split; [|done].
    by apply (list_elem_of_fmap_2 snd) in Hg.
Qed.

Section SensorTables.
Context {F : Type} (round_i64 : F → Z).

Definition sensor_tables (s : Sensors.SensorAccess (F:=F)) : list (Z * list (Sensors.SensorReading (F:=F))) :=
  [(Sensors.TEMP_TABLE, Sensors.temperatures s); (Sensors.FAN_TABLE, Sensors.fans s); (Sensors.VOLT_TABLE, Sensors.voltages s)].

Definition sensor_groups (s : Sensors.SensorAccess (F:=F)) : list (Z * cells) :=
  (λ p, (p.1, Sensors.sensor_table_cells round_i64 p.1 p.2)) <$> sensor_tables s.

Lemma sensor_groups_own s : Forall (own_arc Sensors.LM_SENSORS_TABLES) (sensor_groups s).
Proof.
  apply Forall_fmap, Forall_forall. intros [t rs] _. unfold own_arc. cbn [fst snd compose]. apply provides_btree.
  intros x (i & a & _ & Hx)%concat_imap_elem. exact (row_under (Sensors.LM_SENSORS_TABLES ++ [t]) [1] _ _ x Hx).
Qed.

(** Reading [i] of a kind is row [i + 1] of the table of that kind: the name it
    was given, its value rounded, and a critical value of zero. *)
Theorem sensors_are_shown s t rs c i :
  (t, rs) ∈ sensor_tables s → Z.of_nat (length rs) < u32_max → Z.of_nat i < u32_max →
  served (FnHandler.handler Sensors.LM_SENSORS) (Sensors.lm_sensors_cells round_i64 s)
    (Sensors.sensor_entry t ++ [c; Z.of_nat i + 1]) =
  let! r := rs !! i in
  value_of [(1, VInteger (Z.of_nat i + 1)); (2, VOctetString (as_bytes (Sensors.sensor_name r)));
    (3, VInteger (round_i64 (Sensors.sensor_value r))); (4, VInteger 0)] c.
Proof.
  intros Ht Hl Hi. pose proof (sensor_groups_own s) as Own.
  assert (Hd : NoDup (sensor_groups s).*1) by (cbn; columns).
  pose proof (tables_provide _ _ Own Hd) as P.
  assert (C : Sensors.lm_sensors_cells round_i64 s = btree_of (concat (sensor_groups s).*2)).
  { unfold Sensors.lm_sensors_cells. cbn [flat_map sensor_groups sensor_tables fmap list_fmap concat fst snd]. done. }
  assert (N : Snapshot.provides [] (numbered (Sensors.sensor_entry t) (Sensors.sensor_columns round_i64) rs)).
  { apply (numbered_provides [] (Sensors.sensor_entry t) _ [1; 2; 3; 4]); [done|columns|done]. }
  apply option_eq. intros v. rewrite C, served_provided.
  - rewrite btree_of_nodup by apply P.
    assert (E : Sensors.sensor_entry t ++ [c; Z.of_nat i + 1] = Sensors.LM_SENSORS_TABLES ++ t :: [1; c; Z.of_nat i + 1]) by done.
    rewrite E, (tables_pick _ _ t (Sensors.sensor_table_cells round_i64 t rs)) by
      (try done; by apply (list_elem_of_fmap_2 (λ p, (p.1, Sensors.sensor_table_cells round_i64 p.1 p.2)) _ (t, rs))).
    unfold Sensors.sensor_table_cells. rewrite btree_of_nodup by apply N. rewrite <- E.
    by rewrite (numbered_elem (Sensors.sensor_entry t) (Sensors.sensor_columns round_i64) rs [1; 2; 3; 4]); [|done|columns|..].
  - apply provides_btree. intros x Hx. apply P, Oid.is_prefix_of_spec in Hx as [w ->].
    apply Oid.is_prefix_of_spec. by exists (16 :: w).
Qed.
End SensorTables.

(** Two chips without names, and two channels of which one has a label. *)
Example channels_sample :
  Sensors.channel_number (str "temp") (str "temp12_input") = Some (str "12") ∧
  Sensors.channel_number (str "temp") (str "temp1_max") = None ∧
  Sensors.channel_number (str "in") (str "intrusion0_input") = None ∧
  Sensors.channel_number (str "fan") (str "fan_input") = Some [] ∧
  Sensors.channel_name (str "temp") (str "1") (str "coretemp") (Some (str "Core 0")) = str "coretemp:Core 0" ∧
  Sensors.channel_name (str "temp") (str "1") [] None = str "temp1".
Proof. by vm_compute. Qed.

Lemma sensors_are_shown_witness :
  served (FnHandler.handler Sensors.LM_SENSORS)
    (Sensors.lm_sensors_cells id (Sensors.mkAccess [] [Sensors.mkReading (str "fan1") 900 (str "RPM")] []))
    (Sensors.sensor_entry 3 ++ [3; 1]) = Some (VInteger 900).
Proof.
  apply (sensors_are_shown id (Sensors.mkAccess [] [Sensors.mkReading (str "fan1") 900 (str "RPM")] []) 3
    [Sensors.mkReading (str "fan1") 900 (str "RPM")] 3 0); [right; left|done|done].
Defined.

(** ** The groups without data *)

(** Rows under distinct indexes below a root. *)
Lemma indexed_provides {A} root s (index : A → Oid) (cols : A → list (Z * Value)) names rows :
  (∀ r, (cols r).*1 = names) → NoDup names → NoDup (index <$> rows) →
  Snapshot.provides root (flat_map (λ r, row_cells (root ++ s) (index r) (cols r)) rows).
Proof.
  intros Hn Hd Hi. split; [by eapply (table_provides (root ++ s))|].
  intros x Hx%list_elem_of_In%in_flat_map. destruct Hx as (r & _ & Hx%list_elem_of_In). by eapply row_under.
Qed.

(** The rows of the lines that are kept: their numbers are distinct. *)
Lemma line_numbers_distinct {A} (keep : A → bool) ls k : Z.of_nat (k + length ls) < u32_max →
  let rows := omap (λ '(i, a), if keep a then Some (as_u32 (Z.of_nat i + 1)) else None) (imap (λ i a, ((k + i)%nat, a)) ls) in
  NoDup rows ∧ ∀ z, z ∈ rows → Z.of_nat k < z.
Proof.
  unfold u32_max. revert k. induction ls as [|a ls IH]; intros k Hl; cbn in *; [split; [constructor|by intros z Hz%elem_of_nil]|].
  destruct (IH (S k) ltac:(lia)) as [Hn Hz].
  rewrite (imap_ext ((λ i a, ((k + i)%nat, a)) ∘ S) (λ i a, ((S k + i)%nat, a))) by (intros; cbn; do 2 f_equal; lia).
  rewrite Nat.add_0_r. destruct (keep a); [|split; [done|]; intros z H%Hz; lia].
  rewrite (wrap_u_id 32) by lia. split.
  - constructor; [|done]. intros H%Hz. lia.
  - intros z [->|H%Hz]%elem_of_cons; lia.
Qed.

Lemma etherlike_provided fs : Z.of_nat (length (lines (read_proc fs (str "/proc/net/dev")))) < u32_max →
  Snapshot.provides (Oid.child Misc.ETHERLIKE 2) (Misc.dot3_stats_cells (Misc.interface_rows fs)).
Proof.
  intros Hl. apply (indexed_provides (Misc.ETHERLIKE ++ [2]) [1; 1] (λ i, [i]) Misc.dot3_columns [1; 3; 7; 10; 11; 13; 16; 17]);
    [done|columns|].
  apply NoDup_fmap_2; [by intros x y [=]|].
  apply (line_numbers_distinct (λ line, Misc.is_ethernet (Misc.line_interface line)) (drop 2 _) 0). rewrite length_drop. lia.
Qed.

Lemma constants_are_provided roots version :
  Z.of_nat (length (default [] roots)) < u32_max →
  Forall (λ '(r, cs), Snapshot.provides r cs)
    (NsAgent.netsnmp_agent_handlers roots ++ NsAgent.netsnmp_system_handlers version ++ Misc.sctp_handlers ++
     Misc.tunnel_handlers ++ Misc.bridge_handlers ++ Misc.rmon_handlers ++ Misc.mta_handlers).
Proof.
  intros Hl.
  unfold NsAgent.netsnmp_agent_handlers, NsAgent.ns_debug_handlers, NsAgent.ns_logging_handlers, NsAgent.ns_module_handlers,
    NsAgent.ns_transaction_handlers, NsAgent.ns_vacm_access_handlers, NsAgent.netsnmp_system_handlers, Misc.sctp_handlers,
    Misc.tunnel_handlers, Misc.bridge_handlers, Misc.rmon_handlers, Misc.mta_handlers.
  cbn [app]. rewrite !Forall_cons.
  assert (Scalar : ∀ r v, Snapshot.provides r (FnHandler.scalar_cells r v)).
  { intros r v. apply constants_provided; [apply NoDup_singleton|]. repeat constructor. apply Oid.is_prefix_of_child. }
  assert (Empty : ∀ r, Snapshot.provides r []) by (intros r; apply constants_provided; constructor).
  split_and!; try apply Scalar; try apply Empty; [| |by constructor].
  - apply (numbered_provides NsAgent.NS_MODULE_ENTRY [] NsAgent.module_columns [1; 2]); [done|columns|].
    unfold NsAgent.module_order. by rewrite sort_by_perm.
  - apply constants_provided; [columns|by repeat constructor].
Qed.

(** * Cache timeouts *)

Section CacheTimeouts.
Import NsAgent.
Implicit Types (w : Snapshot.state NsCacheState) (name : text).

(** Module names are strings shorter than 2^32 octets. *)
Definition wf_cache (s : NsCacheState) : Prop :=
  ∀ name d, ttls s !! name = Some d → is_text name ∧ indexable (as_bytes name).

Definition column_oid (c : Z) name : Oid := NS_CACHE_ENTRY ++ c :: string_index (as_bytes name).
Abbreviation timeout_oid := (column_oid NS_CACHE_TIMEOUT).

Lemma modules_elem s name d : (name, d) ∈ modules s ↔ ttls s !! name = Some d.
Proof. unfold modules. rewrite (sort_by_perm _ (map_to_list (ttls s))). apply elem_of_map_to_list. Qed.

Lemma cache_provided s : wf_cache s → Snapshot.provides NS_CACHE (cache_cells s).
Proof.
  intros Hw. apply (provides_app _ [_]).
  - apply constants_provided; [apply NoDup_singleton|by repeat constructor].
  - apply (indexed_provides NS_CACHE [2; 1] module_index cache_columns [2; 3]); [done|columns|].
    apply (NoDup_by_key fst).
    + intros [a x] [b y] [Ta Ia]%modules_elem%Hw [Tb Ib]%modules_elem%Hw E.
      apply as_bytes_inj; [done..|]. by apply (string_index_inj (as_bytes a) (as_bytes b) [] []); rewrite ?app_nil_r.
    + unfold modules. rewrite (sort_by_perm _ (map_to_list (ttls s))). apply NoDup_fst_map_to_list.
  - intros x y ->%list_elem_of_singleton Hy%list_elem_of_In%in_flat_map. destruct Hy as (m & _ & Hy%list_elem_of_In).
    by apply list_elem_of_fmap in Hy as (c & -> & _).
Qed.

(** A cell of the table, and the module it belongs to. *)
Lemma cache_cell s c name v : wf_cache s → is_text name → indexable (as_bytes name) →
  (column_oid c name, v) ∈ cache_cells s ↔ ∃ d, ttls s !! name = Some d ∧ (c, v) ∈ cache_columns (name, d).
Proof.
  intros Hw Ht Hi. unfold cache_cells. rewrite elem_of_cons, list_elem_of_In, in_flat_map. split.
  - intros [E|([m d] & Hm & Hx)]; [by injection E|]. apply list_elem_of_In in Hm, Hx.
    apply modules_elem in Hm. destruct (Hw _ _ Hm) as [Tm Im].
    apply list_elem_of_fmap in Hx as ([c' v'] & E & Hc). pose proof (f_equal snd E) as Ev. apply (f_equal fst) in E.
    cbn [fst snd] in E, Ev. subst v'. apply app_inv_head in E. injection E as -> El Eb.
    apply as_bytes_inj in Eb as ->; [|done..]. by exists d.
  - intros (d & Hd & Hc). right. exists (name, d). rewrite <- !list_elem_of_In. split; [by apply modules_elem|].
    apply list_elem_of_fmap. by exists (c, v).
Qed.

#[export] Instance cache_readable :
  ReadableHandler (Snapshot.inv cache_cells NS_CACHE) (Snapshot.same cache_cells SNAPSHOT_TTL) handler
    (Snapshot.view cache_cells SNAPSHOT_TTL).
Proof. destruct (Snapshot.readable cache_cells SNAPSHOT_TTL NS_CACHE). by split. Qed.

#[export] Instance cache_reserving :
  ReservingHandler (Snapshot.inv cache_cells NS_CACHE) (Snapshot.same cache_cells SNAPSHOT_TTL) handler.
Proof. by split. Qed.

(** With nothing cached a read answers from the state as it is. *)
Lemma uncached_get w o v : wf_cache (Snapshot.provided w) → Snapshot.cache w = None →
  (get handler o w).1 = Some v ↔ (o, v) ∈ cache_cells (Snapshot.provided w).
Proof.
  intros Hw Hc. pose proof (cache_provided _ Hw) as P.
  assert (I : Snapshot.inv cache_cells NS_CACHE w) by (split; [done|by rewrite Hc]).
  rewrite (get_view (h:=handler) o w I). unfold Snapshot.view, Snapshot.snapshot. rewrite Hc. cbn [fst].
  rewrite lookup_cell_Some by apply sort_cells_strict, P. by rewrite sort_cells_perm.
Qed.

(** ** What a request names *)

Lemma decode_column len rest :
  decode_module_from_timeout (NS_CACHE_ENTRY ++ NS_CACHE_TIMEOUT :: len :: rest) = decode_string_index (len :: rest).
Proof. reflexivity. Qed.

Lemma decode_spec o name : Oid.wf o →
  decode_module_from_timeout o = Some name ↔
  ∃ arcs, o = NS_CACHE_ENTRY ++ NS_CACHE_TIMEOUT :: Z.of_nat (length arcs) :: arcs ∧ is_text name ∧
    as_bytes name = wrap_u 8 <$> arcs.
Proof.
  intros Hw. split.
  - unfold decode_module_from_timeout.
    destruct (Nat.leb_spec (length o) (length NS_CACHE_ENTRY + 1)) as [|Hl]; [done|].
    destruct (Oid.eqb _ _) eqn:E; [|done]. apply Oid.eqb_eq in E. cbn [orb negb].
    destruct (Z.eqb_spec (nth (length NS_CACHE_ENTRY) o 0) NS_CACHE_TIMEOUT) as [Ec|]; [|done]. cbn [negb].
    assert (Eo : o = NS_CACHE_ENTRY ++ drop (length NS_CACHE_ENTRY) o) by by rewrite <- E at 1; rewrite take_drop.
    revert Eo. generalize (drop (length NS_CACHE_ENTRY) o). intros [|c idx] ->; [by cbn in Hl; lia|]. cbn in Ec. subst c.
    change (drop _ (NS_CACHE_ENTRY ++ _)) with idx.
    unfold decode_string_index. destruct idx as [|len rest]; [done|].
    destruct (Z.eqb_spec (Z.of_nat (length (len :: rest))) (len + 1)) as [El|]; [|done]. cbn [negb].
    intros [Hb Ht]%from_utf8_some. exists rest. cbn [length] in El. split_and!; [do 3 f_equal; lia| |done].
    apply Ht. apply Forall_fmap, Forall_forall. intros x _. by apply wrap_u_range.
  - intros (arcs & -> & Ht & Eb). rewrite decode_column.
    unfold decode_string_index. cbn [length]. replace (Z.of_nat (S (length arcs))) with (Z.of_nat (length arcs) + 1) by lia.
    rewrite Z.eqb_refl. cbn [negb]. rewrite <- Eb. by apply from_utf8_text.
Qed.

(** Every cell of the table is named after its module. *)
Lemma table_cell_name s rest v : wf_cache s → (NS_CACHE_ENTRY ++ rest, v) ∈ cache_cells s →
  ∃ c m, rest = c :: string_index (as_bytes m) ∧ is_text m.
Proof.
  intros Hw [E|Hx]%elem_of_cons; [by injection E|].
  apply list_elem_of_In, in_flat_map in Hx as ([m d] & Hm%list_elem_of_In & Hx%list_elem_of_In).
  apply list_elem_of_fmap in Hx as (c & E & _). apply (f_equal fst) in E. cbn [fst] in E. apply app_inv_head in E as ->.
  exists c.1, m. split; [done|]. by apply modules_elem, Hw in Hm as [? _].
Qed.

Lemma decoded_name o name : Oid.wf o → decode_module_from_timeout o = Some name → is_text name ∧ indexable (as_bytes name).
Proof.
  intros Hw (arcs & -> & Ht & Eb)%decode_spec; [|done]. split; [done|]. unfold indexable. rewrite Eb, length_fmap.
  unfold Oid.wf in Hw. rewrite Forall_app, !Forall_cons in Hw. apply Hw.
Qed.

(** An instance that decodes to a module but is not the one the table shows. *)
Lemma alias_not_served o name w : wf_cache (Snapshot.provided w) → Snapshot.cache w = None → Oid.wf o →
  decode_module_from_timeout o = Some name → o ≠ timeout_oid name → (get handler o w).1 = None.
Proof.
  intros Hw Hc Ho Hd N. destruct (get handler o w).1 as [v|] eqn:E; [|done]. exfalso. apply uncached_get in E; [|done..].
  apply decode_spec in Hd as (arcs & -> & Ht & Eb); [|done]. apply table_cell_name in E as (c & m & [= _ _ ->] & Tm); [|done].
  apply N. unfold column_oid, string_index. do 2 f_equal. rewrite Eb.
  assert (wrap_u 8 <$> as_bytes m = as_bytes m) as ->.
  { rewrite <- (list_fmap_id (as_bytes m)) at 2. apply list_fmap_ext. intros i b Hb. apply wrap_u_id.
    pose proof (is_bytes_as_bytes m Tm) as B. unfold is_bytes in B. rewrite Forall_forall in B. apply B. by eapply list_elem_of_lookup_2. }
  unfold Oid.wf in Ho. rewrite Forall_app, !Forall_cons in Ho. by rewrite wrap_u_id by apply Ho.
Qed.

(** Setting the timeout of a module to [n] seconds changes the timeout of that
    module only and is read back at once, whatever was cached. Every instance
    whose arcs agree with the name modulo 256 is accepted for it, though none
    but the module's own can be read. *)
Theorem cache_timeout_set w o name n :
  wf_cache (Snapshot.provided w) → Oid.wf o → decode_module_from_timeout o = Some name → 0 <= n < 2 ^ 63 →
  let '(r1, w1) := Handler.prepare_set handler o (VInteger n) w in
  let '(r2, w2) := Handler.commit_set handler o (VInteger n) w1 in
  r1 = Ok tt ∧ w1 = w ∧ r2 = Ok tt ∧
  (∀ m d, ttl m d (Snapshot.provided w2) = if decide (m = name) then from_secs n else ttl m d (Snapshot.provided w)) ∧
  enabled (Snapshot.provided w2) = enabled (Snapshot.provided w) ∧ wf_cache (Snapshot.provided w2) ∧
  (get handler (timeout_oid name) w2).1 = Some (VInteger n) ∧
  (o ≠ timeout_oid name → (get handler o w2).1 = None).
Proof.
  intros Hw Ho Hd Hn. destruct (decoded_name o name Ho Hd) as [Ht Hi].
  cbn -[get Z.pow]. unfold NsAgent.prepare_set, NsAgent.commit_set. rewrite Hd.
  destruct (Z.leb_spec 0 n) as [_|]; [|lia]. rewrite Z.max_l, wrap_u_id by lia.
  set (w2 := Snapshot.mkState _ _ None).
  assert (W : wf_cache (Snapshot.provided w2)).
  { intros m d. cbn. destruct (decide (m = name)) as [->|N]; [done|]. rewrite lookup_insert_ne by done. apply Hw. }
  split_and!; try done.
  - intros m d. unfold ttl. cbn. case_decide as E; [by subst m; rewrite lookup_insert_eq|by rewrite lookup_insert_ne].
  - apply uncached_get; [done..|]. apply cache_cell; [done..|]. exists (from_secs n). split; [apply lookup_insert_eq|].
    unfold cache_columns, from_secs, as_secs. cbn [snd]. rewrite Z.div_mul, wrap_i_id by lia. left.
  - by intros N; eapply alias_not_served.
Qed.

(** Anything else is refused. *)
Lemma cache_set_refused w o v : (Handler.prepare_set handler o v w).2 = w ∧
  ((Handler.prepare_set handler o v w).1 = Ok tt ↔ (∃ name, decode_module_from_timeout o = Some name) ∧ ∃ n, v = VInteger n ∧ 0 <= n).
Proof.
  split; [done|]. cbn. unfold NsAgent.prepare_set. cbn [fst]. destruct (decode_module_from_timeout o) as [name|].
  - destruct v as [n| | | | | | | | | | | |]; try by (split; [done|intros [_ (? & ? & _)]]).
    destruct (Z.leb_spec 0 n) as [Hn|Hn]; split; try done.
    + intros _. split; by eexists.
    + intros [_ (m & [= ->] & Hm)]. lia.
  - split; [done|]. by intros [[? ?] _].
Qed.
End CacheTimeouts.

(** The module [mib] at ten seconds, set to thirty, then through an alias of its
    name to seven. *)
Definition demo_cache : Snapshot.state NsAgent.NsCacheState :=
  Snapshot.mkState 0 (NsAgent.set_ttl (str "mib") (NsAgent.from_secs 10) NsAgent.new) None.

Definition demo_alias : Oid := NsAgent.NS_CACHE_ENTRY ++ [2; 3; 109; 105 + 256; 98].

Lemma demo_cache_wf : wf_cache (Snapshot.provided demo_cache).
Proof.
  intros name d H. unfold demo_cache, NsAgent.set_ttl in H. cbn in H.
  apply lookup_insert_Some in H as [[<- _]|[_ H]]; [|by rewrite lookup_empty in H].
  split; [|done]. by repeat constructor.
Qed.

Lemma cache_timeout_set_witness :
  let w := (commit_set NsAgent.handler demo_alias (VInteger 7) demo_cache).2 in
  (get NsAgent.handler (column_oid 2 (str "mib")) w).1 = Some (VInteger 7) ∧ (get NsAgent.handler demo_alias w).1 = None.
Proof.
  destruct (cache_timeout_set demo_cache demo_alias (str "mib") 7 demo_cache_wf) as (_ & _ & _ & _ & _ & _ & H1 & H2);
    [by apply Oid.wf_check|vm_compute; reflexivity|done|].
  split; [exact H1|apply H2; vm_compute; discriminate].
Defined.

(** * Smaller facts *)

(** The scalars handed out for persistence are the writable ones. *)
Lemma system_persistables contact location start n :
  omap (λ i, match i with
             | SystemGroup.Stored c v => if ScalarHandler.is_writable c then Some (c, v) else None
             | SystemGroup.Live _ _ => None
             end) (SystemGroup.system_handlers contact location start n) =
  (SystemGroup.system_handlers_with_persistables contact location start n).2.
Proof. done. Qed.

(** After 2^32 hundredths the two clocks of the agent part: [sysUpTime] stays at
    its maximum, [sysORUpTime] starts again. *)
Lemma uptime_saturates now start : start <= now → u32_max <= (now - start) / 10 →
  SystemGroup.uptime_centis now start = u32_max ∧
  (SysOr.register now [] [] (SysOr.new start)).2 =
    SysOr.mkTable [SysOr.mkEntry 1 [] [] (((now - start) / 10) mod 2 ^ 32)] start.
Proof.
  intros Hs Hu. unfold SystemGroup.uptime_centis, SysOr.register. cbn [SysOr.rows SysOr.boot_time SysOr.new].
  rewrite Z.max_r by lia. split; [lia|done].
Qed.

(** The rows of [dot3StatsTable] are numbered in the order of the file, those of
    [ifTable] in the order of the names. *)
Lemma dot3_index_is_not_if_index (e w : SysNetwork) : sn_name e = str "eth0" → sn_name w = str "wlan0" →
  Misc.interface_rows (demo_file "Inter-| Receive
 face |bytes
 wlan0: 7
  eth0: 9
") = [2] ∧
  (λ i, (if_name (stat i), if_idx i)) <$> imap interface_of (sort_by (λ a b, name_le (sn_name a) (sn_name b)) [w; e]) =
    [(str "eth0", 1); (str "wlan0", 2)].
Proof.
  intros He Hw. split; [by vm_compute|].
  assert (L : name_le (sn_name w) (sn_name e) = false) by (by rewrite He, Hw).
  change (sort_by _ [w; e]) with (if name_le (sn_name w) (sn_name e) then [w; e] else [e; w]).
  rewrite L. cbn. by rewrite He, Hw.
Qed.
