(* ===== verification/Settings.v ===== *)
(** * Options and configuration of the tools ([crates/netsnmp-apps/src/])

    Addresses ([addr.rs]), typed values ([value.rs]), protocol tokens and users
    ([usm.rs]), the common options ([cli.rs]) and what is read from [snmp.conf]
    and [snmpd.conf] ([settings.rs]). The seconds of [--timeout] are a floating
    point number: their type and [Duration::from_secs_f64], which panics on what
    is no duration, are parameters. *)

From Stdlib Require Import ZArith Lia.
From S2P Require Import Prelude MachineInts Text Oid Value Config Wire Usm Session.
From S2P Require Notify Persist ProcNet Vacm.

Local Open Scope list_scope.

Record ArgError := mkArgError { message : text }.

Definition quoted (s : text) : text := 39 :: s ++ [39].

(** ** [addr.rs] *)

Definition strip_prefix : text → text → option text := Notify.strip_prefix.

Fixpoint contains (p s : text) : bool :=
  match strip_prefix p s, s with
  | Some _, _ => true
  | None, [] => false
  | None, _ :: s' => contains p s'
  end.

(** [matches(c).count()]. *)
Definition count_char (c : Z) (s : text) : nat := length (List.filter (Z.eqb c) s).

Definition DEFAULT_PORT : Z := 161.
Definition TRAP_PORT : Z := 162.

Definition with_port (host : text) (port : Z) : text := host ++ 58 :: show_u port.

Definition normalize_agent_port (agent : text) (default_port : Z) : text :=
  let agent := default agent (strip_prefix (str "udp:") agent) in
  if starts_with 91 agent then
    if contains (str "]:") agent then agent else with_port agent default_port
  else if (count_char 58 agent =? 1)%nat then agent
  else if contains [58] agent then with_port (91 :: agent ++ [93]) default_port
  else with_port agent default_port.

Definition normalize_agent (agent : text) : text := normalize_agent_port agent DEFAULT_PORT.

Definition strip_transport (spec : text) : text :=
  match strip_prefix (str "udp:") spec with
  | Some s => s
  | None => default spec (strip_prefix (str "tcp:") spec)
  end.

Definition normalize_bind_addr (spec : text) : text :=
  let spec := trim (default spec (head (split 44 spec))) in
  let spec := strip_transport spec in
  if negb (bool_decide (spec = [])) && forallb is_ascii_digit spec then str "0.0.0.0:" ++ spec
  else if starts_with 91 spec then
    if contains (str "]:") spec then spec else with_port spec DEFAULT_PORT
  else if (count_char 58 spec =? 1)%nat then spec
  else if contains [58] spec then with_port (91 :: spec ++ [93]) DEFAULT_PORT
  else with_port spec DEFAULT_PORT.

(** ** [value.rs] *)

Definition is_ascii_whitespace (b : Z) : bool := (9 <=? b) && (b <=? 13) && negb (b =? 11) || (b =? 32).

(** [chunks(2)] read as hexadecimal octets. An octet outside ASCII is no digit
    of [from_str_radix], whether the pair is UTF-8 or not. *)
Fixpoint hex_pairs (digits : bytes) : option bytes :=
  match digits with
  | a :: b :: rest =>
      let! x := ProcNet.from_str_radix_16 255 [a; b] in
      let! xs := hex_pairs rest in
      Some (x :: xs)
  | _ => Some []
  end.

Definition parse_hex_string (raw : text) : result bytes text :=
  let digits := List.filter (fun b => negb (is_ascii_whitespace b)) (as_bytes raw) in
  if Nat.odd (length digits) then Err (str "odd-length hex string " ++ quoted raw)
  else ok_or (str "bad hex byte in " ++ quoted raw) (hex_pairs digits).

Definition parse_typed_value (type_char raw : text) : result Value text :=
  let code c := bool_decide (type_char = str c) in
  let number (wrap : Z → Value) (what : string) (n : option Z) :=
    ok_or (str "bad " ++ str what ++ 32 :: quoted raw) (wrap <$> n) in
  if code "i"%string then number VInteger "integer" (parse_signed i64_min i64_max raw)
  else if code "u"%string then number VGauge32 "unsigned" (parse_unsigned u32_max raw)
  else if code "c"%string then number VCounter32 "counter" (parse_unsigned u32_max raw)
  else if code "t"%string then number VTimeTicks "timeticks" (parse_unsigned u32_max raw)
  else if code "a"%string then ok_or (str "bad IP " ++ quoted raw) (VIpAddress <$> Persist.parse_ipv4 raw)
  else if code "s"%string then Ok (VOctetString (as_bytes raw))
  else if code "x"%string then let? bs := parse_hex_string raw in Ok (VOctetString bs)
  else if code "o"%string then
    match Oid.from_str raw with
    | Ok o => Ok (VOid o)
    | Err _ => Err (str "bad OID value " ++ quoted raw)
    end
  else if code "n"%string then Ok VNull
  else Err (str "unknown type code " ++ quoted type_char).

(** ** [usm.rs] *)

Definition is_one_of (s : text) (l : list string) : bool := existsb (fun t => bool_decide (s = str t)) l.

(** [s.to_ascii_uppercase().replace(['-', '_'], [])]. *)
Definition bare_token (s : text) : text :=
  List.filter (fun c => negb ((c =? 45) || (c =? 95))) (Notify.to_ascii_uppercase s).

Definition parse_auth_proto (s : text) : result AuthProtocol ArgError :=
  let t := bare_token s in
  if is_one_of t ["MD5"; "USMHMACMD5AUTHPROTOCOL"]%string then Ok HmacMd5
  else if is_one_of t ["SHA"; "SHA1"; "USMHMACSHAAUTHPROTOCOL"]%string then Ok HmacSha1
  else if is_one_of t ["SHA256"; "SHA2256"; "USMHMAC192SHA256AUTHPROTOCOL"]%string then Ok HmacSha256
  else Err (mkArgError (str "unsupported auth protocol " ++ quoted t ++ str " (use MD5, SHA, or SHA-256)")).

Definition parse_priv_proto (s : text) : result PrivProtocol ArgError :=
  let t := bare_token s in
  if is_one_of t ["AES"; "AES128"; "USMAESCFB128PROTOCOL"]%string then Ok AesCfb128
  else Err (mkArgError (str "unsupported privacy protocol " ++ quoted t ++ str " (use AES)")).

(** Which of authentication and privacy [-l] asks for. *)
Definition wanted (level : option text) (auth_pass priv_pass : option text) : result (bool * bool) ArgError :=
  match to_ascii_lowercase <$> level with
  | Some l =>
      if bool_decide (l = str "noauthnopriv") then Ok (false, false)
      else if bool_decide (l = str "authnopriv") then Ok (true, false)
      else if bool_decide (l = str "authpriv") then Ok (true, true)
      else Err (mkArgError (str "invalid security level " ++ quoted l))
  | None => Ok (bool_decide (is_Some auth_pass), bool_decide (is_Some priv_pass))
  end.

Definition build_usm_user (sec_name : option text) (auth_proto : option AuthProtocol) (auth_pass : option text)
    (priv_proto : option PrivProtocol) (priv_pass : option text) (level : option text) : result UsmUser ArgError :=
  let? name := ok_or (mkArgError (str "SNMPv3 requires -u SECURITY-NAME")) sec_name in
  let? w := wanted level auth_pass priv_pass in
  let '(want_auth, want_priv) := w in
  if want_priv && negb want_auth then Err (mkArgError (str "authPriv requires authentication (-a/-A)"))
  else if negb want_auth then Ok (noauth_user name)
  else
    let proto := default HmacSha1 auth_proto in
    let? apass := ok_or (mkArgError (str "auth level requires -A AUTH-PASSPHRASE")) auth_pass in
    if negb want_priv then Ok (auth_user name proto apass)
    else
      let pproto := default AesCfb128 priv_proto in
      let? ppass := ok_or (mkArgError (str "authPriv requires -X PRIV-PASSPHRASE")) priv_pass in
      Ok (auth_priv_user name proto apass pproto ppass).

(** ** [mib.rs] *)

(** [split] at either separator is [split] at the first, each piece split at
    the second. *)
Definition split_dir_list (l : text) : list text :=
  List.filter (fun s => negb (bool_decide (s = []))) (trim <$> flat_map (split 44) (split 58 l)).

(** ** Client defaults *)

Record ClientDefaults := mkDefaults {
  d_version : option text;
  d_community : option text;
  d_sec_name : option text;
  d_auth_protocol : option text;
  d_auth_pass : option text;
  d_priv_protocol : option text;
  d_priv_pass : option text;
  d_level : option text;
  d_mib_dirs : list text
}.

Definition no_defaults : ClientDefaults := mkDefaults None None None None None None None None [].

(** The arm of the [match] for a token. *)
Inductive ClientKeyword :=
| DefVersion | DefCommunity | DefSecName | DefAuthType | DefAuthPass | DefPrivType | DefPrivPass | DefLevel
| MibDirs | OtherToken.

Definition assoc {K} (other : K) (table : list (string * K)) (s : text) : K :=
  match List.find (fun p => bool_decide (s = str p.1)) table with Some p => p.2 | None => other end.

Definition client_keyword (tok : text) : ClientKeyword :=
  assoc OtherToken
    [("defversion", DefVersion); ("defcommunity", DefCommunity); ("defsecurityname", DefSecName);
     ("defsecname", DefSecName); ("defauthtype", DefAuthType); ("defauthpassphrase", DefAuthPass);
     ("defprivtype", DefPrivType); ("defprivpassphrase", DefPrivPass); ("defseclevel", DefLevel);
     ("defsecuritylevel", DefLevel); ("mibdirs", MibDirs)]%string
    (to_ascii_lowercase tok).

(** [dir.section] is none or [name]. *)
Definition in_section (name : string) (d : Directive) : bool :=
  match section d with None => true | Some s => eq_ignore_case s (str name) end.

Definition cleaned_dirs (args : list text) : list text :=
  flat_map (fun e => split_dir_list (trim_start_matches (fun c => (c =? 43) || (c =? 45)) e)) args.

Definition default_step (c : ClientDefaults) (d : Directive) : ClientDefaults :=
  let '(mkDefaults v co sn ap aw pp pw l m) := c in
  if negb (in_section "snmp" d) then c
  else
    let value := Some (trim (rest d)) in
    match client_keyword (token d) with
    | DefVersion => mkDefaults (arg d 0) co sn ap aw pp pw l m
    | DefCommunity => mkDefaults v value sn ap aw pp pw l m
    | DefSecName => mkDefaults v co (arg d 0) ap aw pp pw l m
    | DefAuthType => mkDefaults v co sn (arg d 0) aw pp pw l m
    | DefAuthPass => mkDefaults v co sn ap value pp pw l m
    | DefPrivType => mkDefaults v co sn ap aw (arg d 0) pw l m
    | DefPrivPass => mkDefaults v co sn ap aw pp value l m
    | DefLevel => mkDefaults v co sn ap aw pp pw (arg d 0) m
    | MibDirs => mkDefaults v co sn ap aw pp pw l (m ++ cleaned_dirs (args d))
    | OtherToken => c
    end.

Definition client_defaults (ds : list Directive) : ClientDefaults := fold_left default_step ds no_defaults.

(** ** [cli.rs] *)

Section Options.
Context {F : Type} (from_secs_f64 : F → option Z).

Record CommonOpts := mkOpts {
  o_version : option text;
  o_community : option text;
  o_user : option text;
  o_auth_protocol : option text;
  o_auth_pass : option text;
  o_priv_protocol : option text;
  o_priv_pass : option text;
  o_level : option text;
  o_timeout : F;
  o_retries : Z;
  o_mib_dirs : list text;
  o_agent : text
}.

Record CommonArgs := mkArgs {
  agent : text;
  session_config : SessionConfig;
  mib_dirs : list text;
  v3_user : option UsmUser
}.

Definition or_else {A} (a b : option A) : option A := match a with Some _ => a | None => b end.

Definition parse_opt {A} (f : text → result A ArgError) (t : option text) : result (option A) ArgError :=
  match t with Some p => let? x := f p in Ok (Some x) | None => Ok None end.

Definition build_v3_user (o : CommonOpts) (d : ClientDefaults) : result UsmUser ArgError :=
  let? auth_proto := parse_opt parse_auth_proto (or_else (o_auth_protocol o) (d_auth_protocol d)) in
  let? priv_proto := parse_opt parse_priv_proto (or_else (o_priv_protocol o) (d_priv_protocol d)) in
  build_usm_user (or_else (o_user o) (d_sec_name d)) auth_proto (or_else (o_auth_pass o) (d_auth_pass d))
    priv_proto (or_else (o_priv_pass o) (d_priv_pass d)) (or_else (o_level o) (d_level d)).

(** The version of the session, and whether it is v3 instead. *)
Definition want_version (version : text) : result (Version * bool) ArgError :=
  if is_one_of version ["1"]%string then Ok (V1, false)
  else if is_one_of version ["2c"; "2"]%string then Ok (V2c, false)
  else if is_one_of version ["3"]%string then Ok (s_version default_session, true)
  else Err (mkArgError (str "unsupported version " ++ quoted version ++ str " (use 1, 2c or 3)")).

(** [None] is the panic of [from_secs_f64]. *)
Definition resolve_with_defaults (o : CommonOpts) (d : ClientDefaults) : option (result CommonArgs ArgError) :=
  let version := default (str "2c") (or_else (o_version o) (d_version d)) in
  match want_version version with
  | Err e => Some (Err e)
  | Ok (v, want_v3) =>
      let community := default (str "public") (or_else (o_community o) (d_community d)) in
      let! timeout := from_secs_f64 (o_timeout o) in
      let config := mkSession v (as_bytes community) timeout (o_retries o) in
      let mib_dirs := flat_map split_dir_list (o_mib_dirs o) ++ d_mib_dirs d in
      Some (let? user := (if want_v3 then let? u := build_v3_user o d in Ok (Some u) else Ok None) in
            Ok (mkArgs (normalize_agent (o_agent o)) config mib_dirs user))
  end.

Definition resolve (o : CommonOpts) : option (result CommonArgs ArgError) := resolve_with_defaults o no_defaults.
End Options.
Arguments mkOpts {F}.
Arguments CommonOpts F : clear implicits.

(** ** Agent settings *)

Record Com2Sec := mkCom2Sec { c2s_name : text; c2s_source : text; c2s_community : text }.
Record GroupEntry := mkGroup { g_name : text; g_model : text; g_security_name : text }.
Record ViewEntry := mkView { vw_name : text; vw_typ : text; vw_subtree : text; vw_mask : option text }.
Record AccessEntry := mkAccess {
  ac_name : text;
  ac_context_prefix : text;
  ac_model : text;
  ac_level : text;
  ac_context_match : option text;
  ac_read_view : text;
  ac_write_view : text;
  ac_notify_view : text
}.
Inductive TrapSinkKind := KindTrapSink | KindTrap2Sink | KindInformSink.
Record TrapSink := mkSink { sk_kind : TrapSinkKind; sk_host : text; sk_community : text; sk_port : option Z }.
Record TrapSession := mkTrapSession { ts_version : text; ts_host : text; ts_args : list text }.
Record ProxyEntry := mkProxy { px_context : option text; px_community : text; px_host : text; px_oid : text }.
Record ExecEntry := mkExec { ex_kind : text; ex_mib_oid : option text; ex_name : text; ex_program : text; ex_args : list text }.
Record PassEntry := mkPass { ps_persist : bool; ps_mib_oid : text; ps_program : text }.
Record DiskEntry := mkDisk { dk_path : text; dk_min : option text }.
Record ProcEntry := mkProc { pr_name : text; pr_max : option text; pr_min : option text }.
Record LoadEntry := mkLoad { ld_one : option text; ld_five : option text; ld_fifteen : option text }.
Record FileEntry := mkFile { fl_path : text; fl_max : option text }.
Record LogMatchEntry := mkLogMatch { lm_name : text; lm_file : text; lm_args : list text }.
Record MasterConfig := mkMaster { ms_typ : text; ms_socket : option text }.
Record SmuxPeerEntry := mkSmuxPeer { sp_oid : text; sp_password : text }.

Fixpoint skip_while {A} (P : A → bool) (l : list A) : list A :=
  match l with x :: l' => if P x then skip_while P l' else l | [] => [] end.

Definition parse_com2sec (d : Directive) : option Com2Sec :=
  match skip_while (starts_with 45) (args d) with
  | name :: source :: community :: _ => Some (mkCom2Sec name source community)
  | _ => None
  end.

Definition parse_group (d : Directive) : option GroupEntry :=
  match arg d 0, arg d 1, arg d 2 with
  | Some name, Some model, Some security_name => Some (mkGroup name model security_name)
  | _, _, _ => None
  end.

Definition parse_view (d : Directive) : option ViewEntry :=
  let! name := arg d 0 in
  let! typ := arg d 1 in
  let! subtree := arg d 2 in
  Some (mkView name typ subtree (arg d 3)).

(** An index out of range would panic; [args.len()] is checked before. *)
Definition parse_access (d : Directive) : option AccessEntry :=
  match args d with
  | name :: context :: model :: level :: more =>
      match more with
      | m :: r :: w :: n :: _ =>
          if is_one_of (to_ascii_lowercase m) ["exact"; "prefix"]%string
          then Some (mkAccess name context model level (Some m) r w n)
          else Some (mkAccess name context model level None m r w)
      | [r; w; n] => Some (mkAccess name context model level None r w n)
      | _ => None
      end
  | _ => None
  end.

Definition parse_trap_sink (d : Directive) (kind : TrapSinkKind) : TrapSink :=
  mkSink kind (default (str "localhost") (arg d 0)) (default (str "public") (arg d 1))
    (let! p := arg d 2 in parse_unsigned 65535 p).

Definition VALUE_FLAGS : list string :=
  ["-v"; "-c"; "-u"; "-a"; "-A"; "-x"; "-X"; "-l"; "-e"; "-E"; "-r"; "-t"]%string.

(** The loop of [parse_trapsess] over the arguments left. *)
Fixpoint scan_trapsess (l : list text) (version : text) (host : option text) : text * option text :=
  match l with
  | [] => (version, host)
  | a :: l' =>
      if bool_decide (a = str "-v") then
        match l' with
        | v :: l'' => scan_trapsess l'' v host
        | [] => (version, host)
        end
      else if is_one_of a VALUE_FLAGS then
        match l' with
        | _ :: l'' => scan_trapsess l'' version host
        | [] => (version, host)
        end
      else if starts_with 45 a && (length (as_bytes a) =? 2)%nat then scan_trapsess l' version host
      else scan_trapsess l' version (Some (default a host))
  end.

Definition parse_trapsess (d : Directive) : option TrapSession :=
  match args d with
  | [] => None
  | _ =>
      let '(version, host) := scan_trapsess (args d) (str "2c") None in
      let! host := host in
      Some (mkTrapSession version host (args d))
  end.

Definition parse_proxy (d : Directive) : option ProxyEntry :=
  let entry context l :=
    match l with
    | community :: host :: oid :: _ => Some (mkProxy context community host oid)
    | _ => None
    end in
  match args d with
  | a :: l => if bool_decide (a = str "-Cn") then entry (head l) (tail l) else entry None (args d)
  | [] => None
  end.

Definition parse_exec (d : Directive) : ExecEntry :=
  let kind := to_ascii_lowercase (token d) in
  let '(mib_oid, name, l) :=
    match args d with
    | f :: l => if is_ok (Oid.from_str f) then (Some f, head l, tail l) else (None, Some f, l)
    | [] => (None, None, [])
    end in
  mkExec kind mib_oid (default [] name) (default [] (head l)) (tail l).

Definition parse_pass (d : Directive) (persist : bool) : option PassEntry :=
  let! mib_oid := arg d 0 in
  let! program := arg d 1 in
  Some (mkPass persist mib_oid program).

Definition parse_disk (d : Directive) : option DiskEntry :=
  let! path := arg d 0 in Some (mkDisk path (arg d 1)).

Definition parse_proc (d : Directive) : option ProcEntry :=
  let! name := arg d 0 in Some (mkProc name (arg d 1) (arg d 2)).

Definition parse_load (d : Directive) : option LoadEntry :=
  match args d with
  | [] => Some (mkLoad None None None)
  | _ => Some (mkLoad (arg d 0) (arg d 1) (arg d 2))
  end.

Definition parse_file (d : Directive) : option FileEntry :=
  let! path := arg d 0 in Some (mkFile path (arg d 1)).

(** [dir.args.get(2..)], which is there once there are two arguments. *)
Definition parse_logmatch (d : Directive) : option LogMatchEntry :=
  let! name := arg d 0 in
  let! file := arg d 1 in
  Some (mkLogMatch name file (drop 2 (args d))).

Definition parse_master (d : Directive) : option MasterConfig :=
  let! typ := arg d 0 in Some (mkMaster typ None).

Definition parse_smuxpeer (d : Directive) : option SmuxPeerEntry :=
  let! oid := arg d 0 in Some (mkSmuxPeer oid (default [] (arg d 1))).

Definition freeform_value (d : Directive) : text :=
  match args d with [a] => a | _ => trim (rest d) end.

Definition expand_address_list (l : list text) : list text :=
  flat_map (fun a => List.filter (fun s => negb (bool_decide (s = []))) (trim <$> split 44 a)) l.

Definition build_create_user (l : list text) : result UsmUser ArgError :=
  let l := match l with e :: _ => if bool_decide (e = str "-e") then drop 2 l else l | [] => l end in
  match l with
  | [] => Err (mkArgError (str "createUser requires a username"))
  | [name] => Ok (noauth_user name)
  | [name; _] => Err (mkArgError (str "createUser " ++ quoted name ++ str ": auth type without a passphrase"))
  | [name; a; apass] => let? proto := parse_auth_proto a in Ok (auth_user name proto apass)
  | [name; _; _; _] => Err (mkArgError (str "createUser " ++ quoted name ++ str ": privacy type without a passphrase"))
  | name :: a :: apass :: p :: ppass :: _ =>
      let? auth := parse_auth_proto a in
      let? priv := parse_priv_proto p in
      Ok (auth_priv_user name auth apass priv ppass)
  end.

Record SnmpdSettings := mkSettings {
  community : option text;
  sys_location : option text;
  sys_contact : option text;
  agent_address : list text;
  created_users : list UsmUser;
  persistent_dir : option text;
  com2sec : list Com2Sec;
  groups : list GroupEntry;
  views : list ViewEntry;
  access : list AccessEntry;
  vacm : option Vacm.Vacm;
  trapsinks : list TrapSink;
  trapsesses : list TrapSession;
  proxies : list ProxyEntry;
  execs : list ExecEntry;
  passes : list PassEntry;
  disks : list DiskEntry;
  procs : list ProcEntry;
  load : option LoadEntry;
  files : list FileEntry;
  logmatches : list LogMatchEntry;
  master : option MasterConfig;
  smuxpeers : list SmuxPeerEntry;
  smuxsocket : option text;
  iquery : option text
}.

Definition no_settings : SnmpdSettings :=
  mkSettings None None None [] [] None [] [] [] [] None [] [] [] [] [] [] [] None [] [] None [] None None.

(** Assignments to single fields. *)
Definition set_community (x : option text) (s : SnmpdSettings) : SnmpdSettings :=
    mkSettings x (sys_location s) (sys_contact s) (agent_address s) (created_users s) (persistent_dir s)
    (com2sec s) (groups s) (views s) (access s) (vacm s) (trapsinks s) (trapsesses s) (proxies s) (execs s)
    (passes s) (disks s) (procs s) (load s) (files s) (logmatches s) (master s) (smuxpeers s) (smuxsocket s)
    (iquery s).
Definition set_sys_location (x : option text) (s : SnmpdSettings) : SnmpdSettings :=
    mkSettings (community s) x (sys_contact s) (agent_address s) (created_users s) (persistent_dir s)
    (com2sec s) (groups s) (views s) (access s) (vacm s) (trapsinks s) (trapsesses s) (proxies s) (execs s)
    (passes s) (disks s) (procs s) (load s) (files s) (logmatches s) (master s) (smuxpeers s) (smuxsocket s)
    (iquery s).
Definition set_sys_contact (x : option text) (s : SnmpdSettings) : SnmpdSettings :=
    mkSettings (community s) (sys_location s) x (agent_address s) (created_users s) (persistent_dir s)
    (com2sec s) (groups s) (views s) (access s) (vacm s) (trapsinks s) (trapsesses s) (proxies s) (execs s)
    (passes s) (disks s) (procs s) (load s) (files s) (logmatches s) (master s) (smuxpeers s) (smuxsocket s)
    (iquery s).
Definition set_agent_address (x : list text) (s : SnmpdSettings) : SnmpdSettings :=
    mkSettings (community s) (sys_location s) (sys_contact s) x (created_users s) (persistent_dir s) (com2sec
    s) (groups s) (views s) (access s) (vacm s) (trapsinks s) (trapsesses s) (proxies s) (execs s) (passes s)
    (disks s) (procs s) (load s) (files s) (logmatches s) (master s) (smuxpeers s) (smuxsocket s) (iquery s).
Definition set_created_users (x : list UsmUser) (s : SnmpdSettings) : SnmpdSettings :=
    mkSettings (community s) (sys_location s) (sys_contact s) (agent_address s) x (persistent_dir s) (com2sec
    s) (groups s) (views s) (access s) (vacm s) (trapsinks s) (trapsesses s) (proxies s) (execs s) (passes s)
    (disks s) (procs s) (load s) (files s) (logmatches s) (master s) (smuxpeers s) (smuxsocket s) (iquery s).
Definition set_persistent_dir (x : option text) (s : SnmpdSettings) : SnmpdSettings :=
    mkSettings (community s) (sys_location s) (sys_contact s) (agent_address s) (created_users s) x (com2sec
    s) (groups s) (views s) (access s) (vacm s) (trapsinks s) (trapsesses s) (proxies s) (execs s) (passes s)
    (disks s) (procs s) (load s) (files s) (logmatches s) (master s) (smuxpeers s) (smuxsocket s) (iquery s).
Definition set_com2sec (x : list Com2Sec) (s : SnmpdSettings) : SnmpdSettings :=
    mkSettings (community s) (sys_location s) (sys_contact s) (agent_address s) (created_users s)
    (persistent_dir s) x (groups s) (views s) (access s) (vacm s) (trapsinks s) (trapsesses s) (proxies s)
    (execs s) (passes s) (disks s) (procs s) (load s) (files s) (logmatches s) (master s) (smuxpeers s)
    (smuxsocket s) (iquery s).
Definition set_groups (x : list GroupEntry) (s : SnmpdSettings) : SnmpdSettings :=
    mkSettings (community s) (sys_location s) (sys_contact s) (agent_address s) (created_users s)
    (persistent_dir s) (com2sec s) x (views s) (access s) (vacm s) (trapsinks s) (trapsesses s) (proxies s)
    (execs s) (passes s) (disks s) (procs s) (load s) (files s) (logmatches s) (master s) (smuxpeers s)
    (smuxsocket s) (iquery s).
Definition set_views (x : list ViewEntry) (s : SnmpdSettings) : SnmpdSettings :=
    mkSettings (community s) (sys_location s) (sys_contact s) (agent_address s) (created_users s)
    (persistent_dir s) (com2sec s) (groups s) x (access s) (vacm s) (trapsinks s) (trapsesses s) (proxies s)
    (execs s) (passes s) (disks s) (procs s) (load s) (files s) (logmatches s) (master s) (smuxpeers s)
    (smuxsocket s) (iquery s).
Definition set_access (x : list AccessEntry) (s : SnmpdSettings) : SnmpdSettings :=
    mkSettings (community s) (sys_location s) (sys_contact s) (agent_address s) (created_users s)
    (persistent_dir s) (com2sec s) (groups s) (views s) x (vacm s) (trapsinks s) (trapsesses s) (proxies s)
    (execs s) (passes s) (disks s) (procs s) (load s) (files s) (logmatches s) (master s) (smuxpeers s)
    (smuxsocket s) (iquery s).
Definition set_vacm (x : option Vacm.Vacm) (s : SnmpdSettings) : SnmpdSettings :=
    mkSettings (community s) (sys_location s) (sys_contact s) (agent_address s) (created_users s)
    (persistent_dir s) (com2sec s) (groups s) (views s) (access s) x (trapsinks s) (trapsesses s) (proxies s)
    (execs s) (passes s) (disks s) (procs s) (load s) (files s) (logmatches s) (master s) (smuxpeers s)
    (smuxsocket s) (iquery s).
Definition set_trapsinks (x : list TrapSink) (s : SnmpdSettings) : SnmpdSettings :=
    mkSettings (community s) (sys_location s) (sys_contact s) (agent_address s) (created_users s)
    (persistent_dir s) (com2sec s) (groups s) (views s) (access s) (vacm s) x (trapsesses s) (proxies s)
    (execs s) (passes s) (disks s) (procs s) (load s) (files s) (logmatches s) (master s) (smuxpeers s)
    (smuxsocket s) (iquery s).
Definition set_trapsesses (x : list TrapSession) (s : SnmpdSettings) : SnmpdSettings :=
    mkSettings (community s) (sys_location s) (sys_contact s) (agent_address s) (created_users s)
    (persistent_dir s) (com2sec s) (groups s) (views s) (access s) (vacm s) (trapsinks s) x (proxies s)
    (execs s) (passes s) (disks s) (procs s) (load s) (files s) (logmatches s) (master s) (smuxpeers s)
    (smuxsocket s) (iquery s).
Definition set_proxies (x : list ProxyEntry) (s : SnmpdSettings) : SnmpdSettings :=
    mkSettings (community s) (sys_location s) (sys_contact s) (agent_address s) (created_users s)
    (persistent_dir s) (com2sec s) (groups s) (views s) (access s) (vacm s) (trapsinks s) (trapsesses s) x
    (execs s) (passes s) (disks s) (procs s) (load s) (files s) (logmatches s) (master s) (smuxpeers s)
    (smuxsocket s) (iquery s).
Definition set_execs (x : list ExecEntry) (s : SnmpdSettings) : SnmpdSettings :=
    mkSettings (community s) (sys_location s) (sys_contact s) (agent_address s) (created_users s)
    (persistent_dir s) (com2sec s) (groups s) (views s) (access s) (vacm s) (trapsinks s) (trapsesses s)
    (proxies s) x (passes s) (disks s) (procs s) (load s) (files s) (logmatches s) (master s) (smuxpeers s)
    (smuxsocket s) (iquery s).
Definition set_passes (x : list PassEntry) (s : SnmpdSettings) : SnmpdSettings :=
    mkSettings (community s) (sys_location s) (sys_contact s) (agent_address s) (created_users s)
    (persistent_dir s) (com2sec s) (groups s) (views s) (access s) (vacm s) (trapsinks s) (trapsesses s)
    (proxies s) (execs s) x (disks s) (procs s) (load s) (files s) (logmatches s) (master s) (smuxpeers s)
    (smuxsocket s) (iquery s).
Definition set_disks (x : list DiskEntry) (s : SnmpdSettings) : SnmpdSettings :=
    mkSettings (community s) (sys_location s) (sys_contact s) (agent_address s) (created_users s)
    (persistent_dir s) (com2sec s) (groups s) (views s) (access s) (vacm s) (trapsinks s) (trapsesses s)
    (proxies s) (execs s) (passes s) x (procs s) (load s) (files s) (logmatches s) (master s) (smuxpeers s)
    (smuxsocket s) (iquery s).
Definition set_procs (x : list ProcEntry) (s : SnmpdSettings) : SnmpdSettings :=
    mkSettings (community s) (sys_location s) (sys_contact s) (agent_address s) (created_users s)
    (persistent_dir s) (com2sec s) (groups s) (views s) (access s) (vacm s) (trapsinks s) (trapsesses s)
    (proxies s) (execs s) (passes s) (disks s) x (load s) (files s) (logmatches s) (master s) (smuxpeers s)
    (smuxsocket s) (iquery s).
Definition set_load (x : option LoadEntry) (s : SnmpdSettings) : SnmpdSettings :=
    mkSettings (community s) (sys_location s) (sys_contact s) (agent_address s) (created_users s)
    (persistent_dir s) (com2sec s) (groups s) (views s) (access s) (vacm s) (trapsinks s) (trapsesses s)
    (proxies s) (execs s) (passes s) (disks s) (procs s) x (files s) (logmatches s) (master s) (smuxpeers s)
    (smuxsocket s) (iquery s).
Definition set_files (x : list FileEntry) (s : SnmpdSettings) : SnmpdSettings :=
    mkSettings (community s) (sys_location s) (sys_contact s) (agent_address s) (created_users s)
    (persistent_dir s) (com2sec s) (groups s) (views s) (access s) (vacm s) (trapsinks s) (trapsesses s)
    (proxies s) (execs s) (passes s) (disks s) (procs s) (load s) x (logmatches s) (master s) (smuxpeers s)
    (smuxsocket s) (iquery s).
Definition set_logmatches (x : list LogMatchEntry) (s : SnmpdSettings) : SnmpdSettings :=
    mkSettings (community s) (sys_location s) (sys_contact s) (agent_address s) (created_users s)
    (persistent_dir s) (com2sec s) (groups s) (views s) (access s) (vacm s) (trapsinks s) (trapsesses s)
    (proxies s) (execs s) (passes s) (disks s) (procs s) (load s) (files s) x (master s) (smuxpeers s)
    (smuxsocket s) (iquery s).
Definition set_master (x : option MasterConfig) (s : SnmpdSettings) : SnmpdSettings :=
    mkSettings (community s) (sys_location s) (sys_contact s) (agent_address s) (created_users s)
    (persistent_dir s) (com2sec s) (groups s) (views s) (access s) (vacm s) (trapsinks s) (trapsesses s)
    (proxies s) (execs s) (passes s) (disks s) (procs s) (load s) (files s) (logmatches s) x (smuxpeers s)
    (smuxsocket s) (iquery s).
Definition set_smuxpeers (x : list SmuxPeerEntry) (s : SnmpdSettings) : SnmpdSettings :=
    mkSettings (community s) (sys_location s) (sys_contact s) (agent_address s) (created_users s)
    (persistent_dir s) (com2sec s) (groups s) (views s) (access s) (vacm s) (trapsinks s) (trapsesses s)
    (proxies s) (execs s) (passes s) (disks s) (procs s) (load s) (files s) (logmatches s) (master s) x
    (smuxsocket s) (iquery s).
Definition set_smuxsocket (x : option text) (s : SnmpdSettings) : SnmpdSettings :=
    mkSettings (community s) (sys_location s) (sys_contact s) (agent_address s) (created_users s)
    (persistent_dir s) (com2sec s) (groups s) (views s) (access s) (vacm s) (trapsinks s) (trapsesses s)
    (proxies s) (execs s) (passes s) (disks s) (procs s) (load s) (files s) (logmatches s) (master s)
    (smuxpeers s) x (iquery s).
Definition set_iquery (x : option text) (s : SnmpdSettings) : SnmpdSettings :=
    mkSettings (community s) (sys_location s) (sys_contact s) (agent_address s) (created_users s)
    (persistent_dir s) (com2sec s) (groups s) (views s) (access s) (vacm s) (trapsinks s) (trapsesses s)
    (proxies s) (execs s) (passes s) (disks s) (procs s) (load s) (files s) (logmatches s) (master s)
    (smuxpeers s) (smuxsocket s) x.

(** The arm of the [match] for a token. *)
Inductive Keyword :=
| KRoCommunity | KRwCommunity | KSysLocation | KSysContact | KAgentAddress | KCreateUser | KPersistentDir
| KCom2Sec | KGroup | KView | KAccess | KTrapSink | KTrap2Sink | KInformSink | KTrapSess | KProxy | KExec
| KPass | KPassPersist | KDisk | KProc | KLoad | KFile | KLogMatch | KMaster | KAgentxSocket | KSmuxPeer
| KSmuxSocket | KIquery | KOther.

#[export] Instance keyword_eq_dec : EqDecision Keyword.
Proof. solve_decision. Defined.

Definition KEYWORDS : list (string * Keyword) :=
  [("rocommunity", KRoCommunity); ("rocommunity6", KRoCommunity); ("rwcommunity", KRwCommunity);
   ("rwcommunity6", KRwCommunity); ("syslocation", KSysLocation); ("syscontact", KSysContact);
   ("agentaddress", KAgentAddress); ("createuser", KCreateUser); ("persistentdir", KPersistentDir);
   ("com2sec", KCom2Sec); ("com2sec6", KCom2Sec); ("group", KGroup); ("view", KView); ("access", KAccess);
   ("access2", KAccess); ("trapsink", KTrapSink); ("trap2sink", KTrap2Sink); ("informsink", KInformSink);
   ("trapsess", KTrapSess); ("proxy", KProxy); ("exec", KExec); ("extend", KExec); ("sh", KExec);
   ("pass", KPass); ("pass_persist", KPassPersist); ("passpersist", KPassPersist); ("disk", KDisk);
   ("proc", KProc); ("load", KLoad); ("file", KFile); ("logmatch", KLogMatch); ("master", KMaster);
   ("agentxsocket", KAgentxSocket); ("smuxpeer", KSmuxPeer); ("smuxsocket", KSmuxSocket);
   ("iquery", KIquery); ("agentsecname", KIquery)]%string.

Definition keyword (d : Directive) : Keyword := assoc KOther KEYWORDS (to_ascii_lowercase (token d)).

(** The locals of [from_directives]. *)
Record Reading := mkReading {
  settings : SnmpdSettings;
  ro : option text;
  rw : option text;
  agentx_socket : option text
}.

Definition on_settings (f : SnmpdSettings → SnmpdSettings) (r : Reading) : Reading :=
  mkReading (f (settings r)) (ro r) (rw r) (agentx_socket r).

(** [if let Some(e) = parse { list.push(e) }]. *)
Definition push_some {E} (get : SnmpdSettings → list E) (put : list E → SnmpdSettings → SnmpdSettings)
    (e : option E) : Reading → Reading :=
  on_settings (fun s => match e with Some e => put (get s ++ [e]) s | None => s end).

Definition with_socket (socket : option text) (m : MasterConfig) : MasterConfig := mkMaster (ms_typ m) socket.

(** One turn of the loop. *)
Definition settings_step (r : Reading) (d : Directive) : result Reading ArgError :=
  if negb (in_section "snmpd" d) then Ok r
  else
    match keyword d with
    | KRoCommunity => Ok (mkReading (settings r) (arg d 0) (rw r) (agentx_socket r))
    | KRwCommunity => Ok (mkReading (settings r) (ro r) (arg d 0) (agentx_socket r))
    | KSysLocation => Ok (on_settings (set_sys_location (Some (freeform_value d))) r)
    | KSysContact => Ok (on_settings (set_sys_contact (Some (freeform_value d))) r)
    | KAgentAddress =>
        Ok (on_settings (fun s => set_agent_address
          (agent_address s ++ (normalize_bind_addr <$> expand_address_list (args d))) s) r)
    | KCreateUser =>
        let? u := build_create_user (args d) in
        Ok (on_settings (fun s => set_created_users (created_users s ++ [u]) s) r)
    | KPersistentDir =>
        Ok (on_settings (fun s => match arg d 0 with Some p => set_persistent_dir (Some p) s | None => s end) r)
    | KCom2Sec => Ok (push_some com2sec set_com2sec (parse_com2sec d) r)
    | KGroup => Ok (push_some groups set_groups (parse_group d) r)
    | KView => Ok (push_some views set_views (parse_view d) r)
    | KAccess => Ok (push_some access set_access (parse_access d) r)
    | KTrapSink => Ok (push_some trapsinks set_trapsinks (Some (parse_trap_sink d KindTrapSink)) r)
    | KTrap2Sink => Ok (push_some trapsinks set_trapsinks (Some (parse_trap_sink d KindTrap2Sink)) r)
    | KInformSink => Ok (push_some trapsinks set_trapsinks (Some (parse_trap_sink d KindInformSink)) r)
    | KTrapSess => Ok (push_some trapsesses set_trapsesses (parse_trapsess d) r)
    | KProxy => Ok (push_some proxies set_proxies (parse_proxy d) r)
    | KExec => Ok (push_some execs set_execs (Some (parse_exec d)) r)
    | KPass => Ok (push_some passes set_passes (parse_pass d false) r)
    | KPassPersist => Ok (push_some passes set_passes (parse_pass d true) r)
    | KDisk => Ok (push_some disks set_disks (parse_disk d) r)
    | KProc => Ok (push_some procs set_procs (parse_proc d) r)
    | KLoad => Ok (on_settings (set_load (parse_load d)) r)
    | KFile => Ok (push_some files set_files (parse_file d) r)
    | KLogMatch => Ok (push_some logmatches set_logmatches (parse_logmatch d) r)
    | KMaster =>
        Ok (on_settings (fun s => match parse_master d with
          | Some m => set_master (Some (with_socket (or_else (agentx_socket r) (ms_socket m)) m)) s
          | None => s
          end) r)
    | KAgentxSocket =>
        let socket := arg d 0 in
        Ok (mkReading (set_master (with_socket socket <$> master (settings r)) (settings r)) (ro r) (rw r) socket)
    | KSmuxPeer => Ok (push_some smuxpeers set_smuxpeers (parse_smuxpeer d) r)
    | KSmuxSocket => Ok (on_settings (set_smuxsocket (arg d 0)) r)
    | KIquery => Ok (on_settings (set_iquery (arg d 0)) r)
    | KOther => Ok r
    end.

Fixpoint settings_loop (r : Reading) (ds : list Directive) : result Reading ArgError :=
  match ds with
  | [] => Ok r
  | d :: ds' => let? r := settings_step r d in settings_loop r ds'
  end.

(** Any of the VACM lists has an entry. *)
Definition mentions_vacm (s : SnmpdSettings) : bool :=
  negb (bool_decide (com2sec s = [])) || negb (bool_decide (groups s = [])) ||
  negb (bool_decide (views s = [])) || negb (bool_decide (access s = [])).

Definition from_directives (ds : list Directive) : result SnmpdSettings ArgError :=
  let? r := settings_loop (mkReading no_settings None None None) ds in
  let s := set_community (or_else (rw r) (ro r)) (settings r) in
  Ok (if mentions_vacm s then set_vacm (Some (Vacm.from_config_directives ds)) s else s).

Definition first_agent_address (s : SnmpdSettings) : option text := head (agent_address s).
Definition has_vacm (s : SnmpdSettings) : bool := bool_decide (is_Some (vacm s)).

(** * What the agent's settings hold *)

(** The directives that count, those of one keyword, and the first argument of
    the last of them. *)
Definition relevant (ds : list Directive) : list Directive := List.filter (in_section "snmpd") ds.
Definition directives_of (k : Keyword) (ds : list Directive) : list Directive :=
  List.filter (fun d => bool_decide (keyword d = k)) (relevant ds).
Definition last_arg (k : Keyword) (ds : list Directive) : option text :=
  let! d := last (directives_of k ds) in arg d 0.

Definition sink_of (d : Directive) : option TrapSink :=
  match keyword d with
  | KTrapSink => Some (parse_trap_sink d KindTrapSink)
  | KTrap2Sink => Some (parse_trap_sink d KindTrap2Sink)
  | KInformSink => Some (parse_trap_sink d KindInformSink)
  | _ => None
  end.

Definition pass_of (d : Directive) : option PassEntry :=
  match keyword d with
  | KPass => parse_pass d false
  | KPassPersist => parse_pass d true
  | _ => None
  end.

(** What a reading of [ds] has found, directive by directive. *)
Record found (ds : list Directive) (s : SnmpdSettings) : Prop := {
  fd_com2sec : com2sec s = omap parse_com2sec (directives_of KCom2Sec ds);
  fd_groups : groups s = omap parse_group (directives_of KGroup ds);
  fd_views : views s = omap parse_view (directives_of KView ds);
  fd_access : access s = omap parse_access (directives_of KAccess ds);
  fd_sinks : trapsinks s = omap sink_of (relevant ds);
  fd_sessions : trapsesses s = omap parse_trapsess (directives_of KTrapSess ds);
  fd_proxies : proxies s = omap parse_proxy (directives_of KProxy ds);
  fd_execs : execs s = parse_exec <$> directives_of KExec ds;
  fd_passes : passes s = omap pass_of (relevant ds);
  fd_disks : disks s = omap parse_disk (directives_of KDisk ds);
  fd_procs : procs s = omap parse_proc (directives_of KProc ds);
  fd_files : files s = omap parse_file (directives_of KFile ds);
  fd_logmatches : logmatches s = omap parse_logmatch (directives_of KLogMatch ds);
  fd_peers : smuxpeers s = omap parse_smuxpeer (directives_of KSmuxPeer ds);
  fd_load : load s = mbind parse_load (last (directives_of KLoad ds));
  fd_location : sys_location s = freeform_value <$> last (directives_of KSysLocation ds);
  fd_contact : sys_contact s = freeform_value <$> last (directives_of KSysContact ds);
  fd_persistent : persistent_dir s = last (omap (λ d, arg d 0) (directives_of KPersistentDir ds));
  fd_smuxsocket : smuxsocket s = last_arg KSmuxSocket ds;
  fd_iquery : iquery s = last_arg KIquery ds;
  fd_addresses : agent_address s =
    normalize_bind_addr <$> flat_map (λ d, expand_address_list (args d)) (directives_of KAgentAddress ds);
  fd_master : master s =
    with_socket (last_arg KAgentxSocket ds) <$> last (omap parse_master (directives_of KMaster ds));
}.

Record reads (ds : list Directive) (r : Reading) : Prop := {
  rd_found : found ds (settings r);
  rd_ro : ro r = last_arg KRoCommunity ds;
  rd_rw : rw r = last_arg KRwCommunity ds;
  rd_socket : agentx_socket r = last_arg KAgentxSocket ds;
  rd_community : community (settings r) = None;
  rd_vacm : vacm (settings r) = None;
}.

Lemma relevant_snoc ds d : relevant (ds ++ [d]) = relevant ds ++ (if in_section "snmpd" d then [d] else []).
Proof. unfold relevant. rewrite List.filter_app. cbn. by destruct (in_section _ _). Qed.

Lemma directives_of_same k ds d : in_section "snmpd" d = true → keyword d = k →
  directives_of k (ds ++ [d]) = directives_of k ds ++ [d].
Proof. intros H K. unfold directives_of. rewrite relevant_snoc, H, List.filter_app. cbn. by rewrite bool_decide_eq_true_2. Qed.

Lemma directives_of_other k ds d : keyword d ≠ k → directives_of k (ds ++ [d]) = directives_of k ds.
Proof.
  intros K. unfold directives_of. rewrite relevant_snoc, List.filter_app. destruct (in_section _ _); cbn;
    by rewrite ?bool_decide_eq_false_2, ?app_nil_r.
Qed.

Lemma directives_of_skip k ds d : in_section "snmpd" d = false → directives_of k (ds ++ [d]) = directives_of k ds.
Proof. intros H. unfold directives_of. by rewrite relevant_snoc, H, app_nil_r. Qed.

Lemma last_option_snoc {A} (l : list A) (o : option A) :
  last (l ++ option_list o) = match o with Some x => Some x | None => last l end.
Proof. destruct o; cbn; [by rewrite last_snoc|by rewrite app_nil_r]. Qed.

Lemma omap_single {A B} (f : A → option B) x : omap f [x] = option_list (f x).
Proof. cbn. by destruct (f x). Qed.

Lemma skipped_found ds d s : in_section "snmpd" d = false → found ds s → found (ds ++ [d]) s.
Proof.
  intros H [ ]. split; unfold last_arg in *; rewrite ?relevant_snoc, ?(directives_of_skip _ _ _ H), ?H, ?app_nil_r; done.
Qed.

Lemma relevant_same ds d : in_section "snmpd" d = true → relevant (ds ++ [d]) = relevant ds ++ [d].
Proof. intros H. by rewrite relevant_snoc, H. Qed.

(** One field after one turn. *)
Ltac one_field H K S P :=
  unfold last_arg, push_some, on_settings in *;
  repeat first [rewrite (directives_of_same _ _ _ H K)|rewrite directives_of_other by (rewrite K; discriminate)];
  rewrite ?(relevant_same _ _ H), ?omap_app, ?omap_single, ?S, ?P, ?fmap_app, ?flat_map_app, ?last_option_snoc, ?last_snoc;
  cbn; rewrite ?app_nil_r; first [assumption|congruence|repeat case_match; cbn; rewrite ?app_nil_r; congruence].

(** One turn reads one directive more. *)
Lemma step_reads ds d r r' : in_section "snmpd" d = true → settings_step r d = Ok r' →
  reads ds r → reads (ds ++ [d]) r'.
Proof.
  intros H E [[ ] ]. unfold settings_step in E. rewrite H in E. cbn [negb] in E.
  assert (S : sink_of d = match keyword d with
    | KTrapSink => Some (parse_trap_sink d KindTrapSink) | KTrap2Sink => Some (parse_trap_sink d KindTrap2Sink)
    | KInformSink => Some (parse_trap_sink d KindInformSink) | _ => None end) by done.
  assert (P : pass_of d = match keyword d with
    | KPass => parse_pass d false | KPassPersist => parse_pass d true | _ => None end) by done.
  destruct (keyword d) eqn:K; [..|injection E as <-]; try (injection E as <-);
    try (destruct (build_create_user (args d)) as [u|]; [injection E as <-|discriminate E]).
  all: split; [split|..].
  all: try (one_field H K S P); unfold last_arg in *;
    repeat first [rewrite (directives_of_same _ _ _ H K)|rewrite directives_of_other by (rewrite K; discriminate)];
    rewrite ?omap_app, ?omap_single, ?last_option_snoc, ?last_snoc, ?flat_map_app; cbn.
  - rewrite app_nil_r, fmap_app. congruence.
  - unfold parse_master. destruct (arg d 0); cbn; [|done]. destruct (agentx_socket r); cbn; congruence.
  - rewrite fd_master0. by destruct (last (omap parse_master _)).
Qed.

Lemma loop_reads ds pre r : reads pre r →
  match collect build_create_user (args <$> directives_of KCreateUser ds) with
  | Ok us => ∃ r', settings_loop r ds = Ok r' ∧ reads (pre ++ ds) r' ∧
      created_users (settings r') = created_users (settings r) ++ us
  | Err e => settings_loop r ds = Err e
  end.
Proof.
  revert pre r. induction ds as [|d ds IH]; intros pre r Hr.
  { exists r. by rewrite !app_nil_r. }
  cbn [settings_loop]. destruct (in_section "snmpd" d) eqn:H.
  - unfold directives_of, relevant in *. cbn [List.filter]. rewrite H. cbn [List.filter].
    destruct (decide (keyword d = KCreateUser)) as [K|K].
    + rewrite (bool_decide_eq_true_2 _ K). cbn [fmap list_fmap collect].
      destruct (build_create_user (args d)) as [u|e] eqn:B.
      2:{ unfold settings_step. by rewrite H, K, B. }
      assert (E : settings_step r d = Ok (on_settings (λ s, set_created_users (created_users s ++ [u]) s) r)).
      { unfold settings_step. by rewrite H, K, B. }
      specialize (IH (pre ++ [d]) _ (step_reads pre d r _ H E Hr)). rewrite E. cbn [rbind].
      destruct (collect _ _) as [us|e]; cbn [rbind]; [|exact IH].
      destruct IH as (r' & -> & R & U). exists r'. split; [done|]. rewrite <- app_assoc in R. split; [done|].
      rewrite U. cbn. by rewrite <- app_assoc.
    + rewrite (bool_decide_eq_false_2 _ K).
      assert (∃ r1, settings_step r d = Ok r1 ∧ created_users (settings r1) = created_users (settings r)) as (r1 & E & U1).
      { unfold settings_step. rewrite H. unfold push_some, on_settings.
        destruct (keyword d); try congruence; eexists; (split; [reflexivity|]); cbn; repeat case_match; done. }
      specialize (IH (pre ++ [d]) _ (step_reads pre d r _ H E Hr)). rewrite E. cbn [rbind]. rewrite <- U1.
      destruct (collect _ _) as [us|e]; [|exact IH].
      destruct IH as (r' & -> & R & U). exists r'. rewrite <- app_assoc in R. done.
  - assert (E : settings_step r d = Ok r) by (unfold settings_step; by rewrite H).
    rewrite E. cbn [rbind]. unfold directives_of, relevant in *. cbn [List.filter]. rewrite H.
    assert (Hr' : reads (pre ++ [d]) r).
    { destruct Hr as [F ]. split; [by apply skipped_found| | | |done|done]; unfold last_arg in *;
        by rewrite directives_of_skip. }
    specialize (IH _ _ Hr'). by rewrite <- app_assoc in IH.
Qed.

(** C38. The settings are read directive by directive: a malformed [createUser] is
    the only error, and the first of them the one reported; every list holds
    what the directives of its keyword say, in order; of what is said once, the
    last directive counts, [rwcommunity] before [rocommunity]; the socket of
    [agentXSocket] belongs to the master whichever of the two comes first. *)
Theorem settings_read ds :
  match collect build_create_user (args <$> directives_of KCreateUser ds) with
  | Err e => from_directives ds = Err e
  | Ok us => ∃ s, from_directives ds = Ok s ∧ created_users s = us ∧ found ds s ∧
      community s = or_else (last_arg KRwCommunity ds) (last_arg KRoCommunity ds) ∧
      vacm s = if mentions_vacm s then Some (Vacm.from_config_directives ds) else None
  end.
Proof.
  assert (R0 : reads [] (mkReading no_settings None None None)) by (by repeat split).
  pose proof (loop_reads ds [] _ R0) as H. unfold from_directives.
  destruct (collect _ _) as [us|e]; [|by rewrite H].
  destruct H as (r & -> & [F Ero Erw _ _ Ev] & U). cbn [rbind]. cbn [app] in *.
  eexists. split; [reflexivity|]. rewrite <- Ero, <- Erw. destruct F.
  destruct (mentions_vacm _) eqn:M; (split; [exact U|]); (split; [by split|]); (split; [reflexivity|]).
  - assert (mentions_vacm (set_vacm (Some (Vacm.from_config_directives ds))
      (set_community (or_else (rw r) (ro r)) (settings r))) = true) as -> by exact M. done.
  - rewrite M. exact Ev.
Qed.

(** A section of another program is skipped by the settings and read by the
    access-control tables all the same. *)
Definition two_programs : list Directive :=
  parse_str (str "com2sec local default public
[snmptrapd]
com2sec traps default secret
").

Lemma foreign_section_reaches_vacm : ∃ s v, from_directives two_programs = Ok s ∧ vacm s = Some v ∧
  com2sec s = [mkCom2Sec (str "local") (str "default") (str "public")] ∧
  v = Vacm.from_config_directives two_programs ∧
  Vacm.from_config_directives two_programs ≠ Vacm.from_config_directives (relevant two_programs).
Proof. eexists _, _. split_and!; [by vm_compute..|]. by vm_compute. Qed.

(** * Users *)

Definition level_text (l : SecurityLevel) : text :=
  match l with
  | NoAuthNoPriv => str "noauthnopriv"
  | AuthNoPriv => str "authnopriv"
  | AuthPriv => str "authpriv"
  end.

(** The level is the one of [-l], or else the one the passphrases allow; the
    keys are the passphrases given, with SHA-1 and AES where no protocol is. *)
Theorem usm_user_as_asked sec_name ap aw pp pw level u :
  build_usm_user sec_name ap aw pp pw level = Ok u →
  sec_name = Some (user_name u) ∧
  match level with
  | Some l => to_ascii_lowercase l = level_text (security_level_of u)
  | None => security_level_of u = match aw, pw with
      | Some _, Some _ => AuthPriv | Some _, None => AuthNoPriv | None, _ => NoAuthNoPriv end ∧ (is_Some pw → is_Some aw)
  end ∧
  (has_auth (security_level_of u) = true → ∃ w, aw = Some w ∧ user_auth u = Some (default HmacSha1 ap, w)) ∧
  (has_priv (security_level_of u) = true → ∃ w, pw = Some w ∧ user_priv u = Some (default AesCfb128 pp, w)).
Proof.
  unfold build_usm_user, wanted. destruct sec_name as [n|]; [|done]. cbn [ok_or rbind].
  destruct level as [l|]; cbn [fmap option_fmap option_map].
  - repeat case_bool_decide; cbn -[str]; try done; destruct aw as [w|]; cbn -[str]; try done;
      try destruct pw as [w'|]; cbn -[str]; try done; injection 1 as <-; split_and!; try done; intros _; eauto.
  - destruct aw as [w|], pw as [w'|]; cbn -[str]; try done; injection 1 as <-; split_and!; try done; eauto.
Qed.

Lemma usm_user_as_asked_witness :
  build_usm_user (Some (str "bob")) None (Some (str "secret99")) None None (Some (str "authNoPriv")) =
    Ok (auth_user (str "bob") HmacSha1 (str "secret99")) ∧
  to_ascii_lowercase (str "authNoPriv") = level_text AuthNoPriv.
Proof.
  split; [by vm_compute|].
  destruct (usm_user_as_asked (Some (str "bob")) None (Some (str "secret99")) None None (Some (str "authNoPriv"))
    (auth_user (str "bob") HmacSha1 (str "secret99")) ltac:(by vm_compute)) as (_ & H & _). exact H.
Defined.

(** * Typed values *)

(** Octets in hexadecimal, with blanks anywhere. *)
Definition spells (raw : text) (bs : bytes) : Prop :=
  List.filter (fun c => negb (is_ascii_whitespace c)) raw = flat_map (ProcNet.hex_digits 2) bs ∧
  Forall (λ c, 0 <= c < 128) raw.

Lemma hex_pairs_digits bs : is_bytes bs → hex_pairs (flat_map (ProcNet.hex_digits 2) bs) = Some bs.
Proof.
  induction 1 as [|b bs Hb HF IH]; [done|]. cbn [flat_map].
  pose proof (ProcNet.from_str_radix_digits 255 2 b ltac:(lia)) as E.
  pose proof (ProcNet.length_hex_digits 2 b) as L.
  destruct (ProcNet.hex_digits 2 b) as [|x [|y [|]]] eqn:D; cbn in L; try lia.
  cbn [app hex_pairs]. unfold is_u8 in Hb. rewrite E by (cbn; lia). cbn [mbind option_bind]. by rewrite IH.
Qed.

Lemma even_hex bs : Nat.odd (length (flat_map (ProcNet.hex_digits 2) bs)) = false.
Proof.
  induction bs as [|b bs IH]; [done|]. cbn [flat_map]. by rewrite length_app, ProcNet.length_hex_digits.
Qed.

Lemma parse_hex_spelled raw bs : is_bytes bs → spells raw bs → parse_hex_string raw = Ok bs.
Proof.
  intros Hb [E A]. unfold parse_hex_string. cbv zeta. by rewrite as_bytes_ascii, E, even_hex, hex_pairs_digits.
Qed.

(** The arguments that name a value. *)
Inductive written : Value → text → text → Prop :=
| w_integer n : written (VInteger n) (str "i") (show_i n)
| w_gauge n : written (VGauge32 n) (str "u") (show_u n)
| w_counter n : written (VCounter32 n) (str "c") (show_u n)
| w_ticks n : written (VTimeTicks n) (str "t") (show_u n)
| w_address ip : written (VIpAddress ip) (str "a") (show_ipv4 ip)
| w_text s : written (VOctetString (as_bytes s)) (str "s") s
| w_hex bs raw : spells raw bs → written (VOctetString bs) (str "x") raw
| w_oid o : written (VOid o) (str "o") (Oid.display o)
| w_null raw : written VNull (str "n") raw.

(** A value written out as type and text is read back. *)
Theorem typed_value_read v code raw : wf_value v → written v code raw → parse_typed_value code raw = Ok v.
Proof.
  intros W Hw. destruct Hw; cbn in W; unfold parse_typed_value; cbn -[show_i show_u parse_signed parse_unsigned i64_min i64_max u32_max].
  - rewrite parse_signed_show; [done|]. unfold is_i64, i64_min, i64_max in *. lia.
  - by rewrite parse_unsigned_show by (unfold is_u32, u32_max in *; lia).
  - by rewrite parse_unsigned_show by (unfold is_u32, u32_max in *; lia).
  - by rewrite parse_unsigned_show by (unfold is_u32, u32_max in *; lia).
  - by rewrite Persist.parse_show_ipv4.
  - done.
  - by rewrite (parse_hex_spelled raw bs).
  - by rewrite Oid.from_str_display_ok.
  - done.
Qed.

Lemma typed_value_read_witness :
  parse_typed_value (str "x") (str "0A FF") = Ok (VOctetString [10; 255]).
Proof.
  apply typed_value_read.
  - change (is_bytes [10; 255]). unfold is_bytes, is_u8. repeat (constructor; [lia|]). constructor.
  - apply w_hex. split; [reflexivity|]. cbn. repeat (constructor; [lia|]). constructor.
Defined.

(** A sign passes for a digit. *)
Lemma signed_hex_octet : parse_hex_string (str "+f00") = Ok [15; 0].
Proof. by vm_compute. Qed.

(** * Addresses *)

(** A host and a port, as the sockets take them. *)
Definition host_port (s : text) : bool :=
  if starts_with 91 s then contains (str "]:") s else (count_char 58 s =? 1)%nat.

(** An opening bracket is closed. *)
Definition closed (s : text) : Prop :=
  starts_with 91 s = true → contains (str "]:") s = true ∨ ∃ b, s = b ++ [93].

Lemma strip_prefix_app p s : strip_prefix p (p ++ s) = Some s.
Proof. induction p as [|c p IH]; cbn; [by destruct s|]. by rewrite Z.eqb_refl. Qed.

Lemma contains_app p a s : contains p (a ++ p ++ s) = true.
Proof.
  induction a as [|c a IH]; cbn [app].
  - pose proof (strip_prefix_app p s) as E. destruct (p ++ s) as [|d r]; cbn [contains]; by rewrite E.
  - cbn [contains]. destruct (strip_prefix p _); [done|]. exact IH.
Qed.

Lemma count_char_app c a b : count_char c (a ++ b) = (count_char c a + count_char c b)%nat.
Proof. unfold count_char. by rewrite List.filter_app, length_app. Qed.

Lemma count_char_none c s : Forall (λ x, x ≠ c) s → count_char c s = 0%nat.
Proof.
  unfold count_char. induction 1 as [|x s Hx HF IH]; cbn; [done|].
  by rewrite (proj2 (Z.eqb_neq c x)) by congruence.
Qed.

Lemma contains_char c s : contains [c] s = negb (count_char c s =? 0)%nat.
Proof.
  induction s as [|d s IH]; [done|]. unfold count_char in *. cbn [contains strip_prefix Notify.strip_prefix List.filter].
  change (strip_prefix [c] (d :: s)) with (if c =? d then strip_prefix [] s else None).
  destruct (c =? d); cbn; [by destruct s|]. exact IH.
Qed.

Lemma port_plain p : 0 <= p → count_char 58 (show_u p) = 0%nat.
Proof.
  intros H. apply count_char_none. destruct (show_u_correct p H) as (_ & HF & _).
  eapply Forall_impl; [exact HF|]. intros c Hc ->. done.
Qed.

(** Whatever is given as an address gains a port when it has none, a raw IPv6
    address brackets, and an address with a port is left alone. *)
Theorem normalized_address agent port (a := default agent (strip_prefix (str "udp:") agent)) : 0 <= port →
  (closed a → host_port (normalize_agent_port agent port) = true) ∧
  (host_port a = true → normalize_agent_port agent port = a).
Proof.
  intros Hp. unfold normalize_agent_port, host_port, closed. fold a. cbv zeta. clearbody a.
  destruct (starts_with 91 a) eqn:B.
  - destruct (contains (str "]:") a) eqn:C; [rewrite B, C; split; [done|done]|].
    split; [|done]. intros [?|[b ->]]; [done|congruence|]. unfold with_port.
    assert (starts_with 91 ((b ++ [93]) ++ 58 :: show_u port) = true) as ->.
    { destruct b as [|x b]; cbn in *; done. }
    replace ((b ++ [93]) ++ 58 :: show_u port) with (b ++ str "]:" ++ show_u port) by (by rewrite <- app_assoc).
    apply contains_app.
  - destruct (count_char 58 a =? 1)%nat eqn:N; [rewrite B, N; done|].
    split; [|done]. intros _. rewrite contains_char. destruct (count_char 58 a =? 0)%nat eqn:Z; cbn [negb]; unfold with_port.
    + assert (starts_with 91 (a ++ 58 :: show_u port) = false) as -> by (by destruct a).
      rewrite count_char_app. apply Nat.eqb_eq in Z. rewrite Z. change (58 :: show_u port) with ([58] ++ show_u port).
      by rewrite count_char_app, (port_plain port Hp).
    + cbn [starts_with app]. rewrite Z.eqb_refl.
      replace (91 :: (a ++ [93]) ++ 58 :: show_u port) with ((91 :: a) ++ str "]:" ++ show_u port)
        by (by rewrite <- app_assoc).
      apply contains_app.
Qed.

Lemma normalized_address_witness :
  normalize_agent (str "udp:10.0.0.1:1161") = str "10.0.0.1:1161" ∧ host_port (normalize_agent (str "::1")) = true.
Proof.
  split.
  - exact (proj2 (normalized_address (str "udp:10.0.0.1:1161") 161 ltac:(lia)) ltac:(reflexivity)).
  - refine (proj1 (normalized_address (str "::1") 161 ltac:(lia)) _). intros H. discriminate H.
Defined.

(** * Client defaults and options *)

#[export] Instance client_keyword_eq_dec : EqDecision ClientKeyword.
Proof. solve_decision. Defined.

Definition defaults_of (k : ClientKeyword) (ds : list Directive) : list Directive :=
  List.filter (fun d => in_section "snmp" d && bool_decide (client_keyword (token d) = k)) ds.

Definition first_word (k : ClientKeyword) (ds : list Directive) : option text :=
  let! d := last (defaults_of k ds) in arg d 0.
Definition rest_of_line (k : ClientKeyword) (ds : list Directive) : option text :=
  (λ d, trim (rest d)) <$> last (defaults_of k ds).

Lemma defaults_of_snoc k ds d : defaults_of k (ds ++ [d]) =
  defaults_of k ds ++ (if in_section "snmp" d && bool_decide (client_keyword (token d) = k) then [d] else []).
Proof. unfold defaults_of. rewrite List.filter_app. cbn. by destruct (_ && _). Qed.

(** Each default is what its last directive says; the MIB directories add up. *)
Lemma client_defaults_read ds :
  client_defaults ds = mkDefaults (first_word DefVersion ds) (rest_of_line DefCommunity ds) (first_word DefSecName ds)
    (first_word DefAuthType ds) (rest_of_line DefAuthPass ds) (first_word DefPrivType ds) (rest_of_line DefPrivPass ds)
    (first_word DefLevel ds) (flat_map (λ d, cleaned_dirs (args d)) (defaults_of MibDirs ds)).
Proof.
  induction ds as [|d ds IH] using rev_ind; [done|].
  unfold client_defaults in *. rewrite fold_left_app, IH. cbn [fold_left]. clear IH.
  unfold default_step, first_word, rest_of_line. rewrite !defaults_of_snoc.
  destruct (in_section "snmp" d); cbn [negb andb]; [|by rewrite !app_nil_r].
  destruct (client_keyword (token d)); repeat first [rewrite bool_decide_eq_true_2 by done|
    rewrite bool_decide_eq_false_2 by done]; rewrite ?app_nil_r, ?last_snoc, ?flat_map_app; cbn; by rewrite ?app_nil_r.
Qed.

(** The options with the defaults in the gaps. *)
Definition merge {F} (o : CommonOpts F) (d : ClientDefaults) : CommonOpts F :=
  mkOpts (or_else (o_version o) (d_version d)) (or_else (o_community o) (d_community d))
    (or_else (o_user o) (d_sec_name d)) (or_else (o_auth_protocol o) (d_auth_protocol d))
    (or_else (o_auth_pass o) (d_auth_pass d)) (or_else (o_priv_protocol o) (d_priv_protocol d))
    (or_else (o_priv_pass o) (d_priv_pass d)) (or_else (o_level o) (d_level d))
    (o_timeout o) (o_retries o) (o_mib_dirs o) (o_agent o).

(** The command line comes before [snmp.conf], and that before what is built
    in; the directories of both count. *)
Lemma options_come_first {F} (secs : F → option Z) o d :
  resolve_with_defaults secs o d =
    (let! r := resolve secs (merge o d) in
     Some (let? a := r in Ok (mkArgs (agent a) (session_config a) (mib_dirs a ++ d_mib_dirs d) (v3_user a)))).
Proof.
  assert (Id : ∀ A (x : option A), or_else x None = x) by (by intros A []).
  unfold resolve, resolve_with_defaults, merge, build_v3_user. cbn -[str]. rewrite !Id.
  destruct (want_version _) as [[v w]|e]; [|done]. destruct (secs _) as [t|]; cbn -[str]; [|done].
  rewrite app_nil_r. destruct w; [|done]. f_equal.
  match goal with |- context [rbind _ (rbind ?f ?x)] => destruct (rbind f x) end; done.
Qed.
