(* ===== verification/SnmpConf.v ===== *)
(** * Generating configuration files ([crates/netsnmp-apps/src/bin/snmpconf.rs])

    The questions of each kind of file, the interactive and the answers-file
    modes, and the lines they write. The console is the lines that standard
    input still yields, each read or failed to read, and the text shown so far;
    writing to it does not fail. *)

From Stdlib Require Import ZArith Lia.
From S2P Require Import Prelude MachineInts Text Config Settings.

Local Open Scope list_scope.

Inductive ConfType := Snmp | Snmpd | Snmptrapd.

#[export] Instance ConfType_eq_dec : EqDecision ConfType.
Proof. solve_decision. Defined.

Record Question := mkQuestion { q_token : text; q_label : text; q_default : option text }.

Definition question (token label : string) (d : option string) : Question :=
  mkQuestion (str token) (str label) (str <$> d).

Local Open Scope string_scope.

Definition questions (t : ConfType) : list Question :=
  match t with
  | Snmp =>
      [question "defVersion" "default SNMP version" (Some "2c");
       question "defCommunity" "default community string" (Some "public");
       question "defSecurityName" "default v3 security name" None;
       question "defAuthType" "default auth type" (Some "SHA");
       question "defAuthPassphrase" "default auth passphrase" None;
       question "defPrivType" "default privacy type" (Some "AES");
       question "defPrivPassphrase" "default privacy passphrase" None;
       question "defSecurityLevel" "default security level" (Some "noAuthNoPriv");
       question "mibdirs" "MIB directories (colon-separated)" None]
  | Snmpd =>
      [question "rocommunity" "read-only community" (Some "public");
       question "rwcommunity" "read-write community" None;
       question "sysLocation" "system location" (Some "Unknown");
       question "sysContact" "system contact" (Some "Me <me@example.org>");
       question "agentAddress" "agent listen address" (Some "udp:161");
       question "createUser" "createUser line (name [auth pass [priv pass]])" None;
       question "trapsink" "trap sink (host [community])" None]
  | Snmptrapd =>
      [question "authCommunity" "community to accept traps from" (Some "public");
       question "traphandle" "trap handler command" None;
       question "outputOption" "log output option" (Some "p")]
  end.

Local Close Scope string_scope.

(** ** The console *)

Record Console := mkConsole { stdin : list (result text text); shown : text }.

Definition show (s : text) (c : Console) : Console := mkConsole (stdin c) (shown c ++ s).

(** [io_err]. *)
Definition io_err (e : text) : text := str "I/O error: " ++ e.

Definition strip_terminator (buf : text) : text :=
  if ends_with 10 buf then strip_cr (removelast buf) else strip_cr buf.

Definition read_line (c : Console) : result text text * Console :=
  match stdin c with
  | [] => (Ok [], c)
  | Err e :: more => (Err (io_err e), mkConsole more (shown c))
  | Ok buf :: more => (Ok (strip_terminator buf), mkConsole more (shown c))
  end.

Definition prompt (label : text) (d : option text) : text :=
  match d with
  | Some d => label ++ str " (default: " ++ d ++ str "): "
  | None => label ++ str ": "
  end.

(** What [ask] makes of a line. *)
Definition answer (d : option text) (line : text) : option text :=
  let trimmed := trim line in
  if eq_ignore_case trimmed (str "skip") then None
  else if bool_decide (trimmed = []) then d
  else Some trimmed.

(** Every branch of the loop of [ask] returns. *)
Definition ask (label : text) (d : option text) (c : Console) : result (option text) text * Console :=
  let '(r, c) := read_line (show (prompt label d) c) in
  (let? line := r in Ok (answer d line), c).

Definition menu : text :=
  str "Select the type of configuration file to generate:" ++ 10 ::
  str "  1) snmp      (snmp.conf " ++ 8212 :: str " client defaults)" ++ 10 ::
  str "  2) snmpd     (snmpd.conf " ++ 8212 :: str " agent settings)" ++ 10 ::
  str "  3) snmptrapd (snmptrapd.conf " ++ 8212 :: str " trap daemon)" ++ 10 ::
  str "Enter choice [1-3]: ".

Definition choice (line : text) : option ConfType :=
  let t := trim line in
  if bool_decide (t = str "1") then Some Snmp
  else if bool_decide (t = str "2") then Some Snmpd
  else if bool_decide (t = str "3") then Some Snmptrapd
  else None.

(** The loop of the menu, which ends with a choice or an error; [None] is a
    console that has offered neither within [fuel] lines. *)
Fixpoint prompt_conf_type (fuel : nat) (c : Console) : option (result ConfType text * Console) :=
  match fuel with
  | O => None
  | S fuel' =>
      let '(r, c) := read_line (show menu c) in
      match r with
      | Err e => Some (Err e, c)
      | Ok line =>
          match choice line with
          | Some t => Some (Ok t, c)
          | None => prompt_conf_type fuel' c
          end
      end
  end.

(** ** Directive lines *)

Definition triggers (c : Z) : bool := is_whitespace c || (c =? 35) || (c =? QUOTE) || (c =? BACKSLASH).

Definition needs_quotes (s : text) : bool := bool_decide (s = []) || existsb triggers s.

Definition quote_arg (s : text) : text := if needs_quotes s then quote_word s else s.

Definition format_words (words : list text) : text := flat_map (fun w => 32 :: quote_arg w) words.

Definition format_directive (token value : text) : text := token ++ format_words (parse_words value).

Fixpoint ask_all (qs : list Question) (c : Console) : result (list text) text * Console :=
  match qs with
  | [] => (Ok [], c)
  | q :: qs' =>
      let '(r, c) := ask (q_label q) (q_default q) c in
      match r with
      | Err e => (Err e, c)
      | Ok value =>
          let '(r, c) := ask_all qs' c in
          (let? ls := r in
           Ok (match value with Some v => format_directive (q_token q) v :: ls | None => ls end), c)
      end
  end.

Definition interactive (t : ConfType) : Console → result (list text) text * Console := ask_all (questions t).

(** [split_kv]: the key and the value around the first [=] or [:]. *)
Fixpoint split_at_separator (s : text) : option (text * text) :=
  match s with
  | [] => None
  | c :: s' => if (c =? 61) || (c =? 58) then Some ([], s') else (λ p, (c :: p.1, p.2)) <$> split_at_separator s'
  end.

Definition split_kv (line : text) : option (text * text) :=
  (λ p, (trim p.1, trim p.2)) <$> split_at_separator line.

Definition answer_line (known : list text) (raw : text) : list text :=
  let trimmed := trim_start raw in
  if bool_decide (trimmed = []) || starts_with 35 trimmed then []
  else
    let '(key, value, has_value) :=
      match split_kv raw with Some (k, v) => (k, v, true) | None => (trim raw, [], false) end in
    if existsb (fun k => eq_ignore_case k key) known then
      if bool_decide (trim value = []) then [] else [format_directive key value]
    else if has_value then [format_directive key value]
    else [key].

(** From the content of the file on. *)
Definition from_answers_file (content : text) (t : ConfType) : list text :=
  flat_map (answer_line (q_token <$> questions t)) (lines content).

(** What [main] writes. *)
Fixpoint body_of (ls : list text) : text :=
  match ls with
  | [] => []
  | [l] => l
  | l :: ls' => l ++ 10 :: body_of ls'
  end.

Definition written_config (ls : list text) : text := body_of ls ++ [10].

(** [main], from the parsed command line on: [file] is the content of the
    answers file, if one was named and read. *)
Definition main (fuel : nat) (conf_type : option ConfType) (file : option (result text text)) (c : Console)
    : option (result text text * Console) :=
  let generate (t : ConfType) (c : Console) :=
    match file with
    | Some (Err e) => (Err (str "cannot read " ++ e), c)
    | Some (Ok content) => (Ok (written_config (from_answers_file content t)), c)
    | None => let '(r, c) := interactive t c in (let? ls := r in Ok (written_config ls), c)
    end in
  match conf_type with
  | Some t => Some (generate t c)
  | None =>
      match file with
      | Some _ => Some (Err (str "--type is required when using --file (no interactive menu)"), c)
      | None =>
          let! (r, c) := prompt_conf_type fuel c in
          Some (match r with Ok t => generate t c | Err e => (Err e, c) end)
      end
  end.

(** * What is written is read back *)

(** A word that [quote_arg] writes as it is and [read_word] takes for a quoted
    one begins with an apostrophe. *)
Definition survives (w : text) : Prop := needs_quotes w = true ∨ head w ≠ Some APOS.

#[export] Instance survives_dec w : Decision (survives w).
Proof. unfold survives. apply _. Defined.

Definition blank_or_end (s : text) : Prop := match s with [] => True | c :: _ => is_whitespace c = true end.

Lemma scan_bare_word w tl acc : existsb triggers w = false → blank_or_end tl →
  scan_bare false (w ++ tl) acc = (acc ++ w, tl).
Proof.
  revert acc. induction w as [|c w IH]; intros acc; cbn [existsb app].
  - intros _ H. rewrite app_nil_r. destruct tl as [|c tl]; [done|]. cbn in H |- *. rewrite H.
    by destruct (Z.eqb_spec c BACKSLASH) as [->|].
  - intros [Hc Hw]%orb_false_iff Ht. unfold triggers in Hc. cbn.
    apply orb_false_iff in Hc as [[[H1 H2]%orb_false_iff H3]%orb_false_iff H4]. rewrite H4, H1, IH by done.
    by rewrite <- app_assoc.
Qed.

Lemma read_quoted_arg w tl : survives w → blank_or_end tl → read_word (quote_arg w ++ tl) = Some (w, trim_start tl).
Proof.
  unfold survives, quote_arg. intros Hs Ht. destruct (needs_quotes w) eqn:E; [apply read_word_quoted|].
  destruct Hs as [?|Hs]; [done|]. unfold needs_quotes in E. apply orb_false_iff in E as [E1 E2].
  destruct w as [|c w]; [by apply bool_decide_eq_false in E1|]. pose proof E2 as F. cbn [existsb] in F.
  apply orb_false_iff in F as [[[[H1 H2]%orb_false_iff H3]%orb_false_iff H4]%orb_false_iff _].
  unfold read_word, trim_start. cbn [app trim_start_matches]. rewrite H1. cbv iota. rewrite H3.
  assert ((c =? APOS) = false) as -> by (apply Z.eqb_neq; intros ->; by apply Hs). cbn [orb].
  change (c :: w ++ tl) with ((c :: w) ++ tl). by rewrite (scan_bare_word (c :: w) tl [] E2 Ht).
Qed.

Lemma format_words_blank ws : blank_or_end (format_words ws).
Proof. by destruct ws. Qed.

(** The words of a line are the words that were written. *)
Lemma format_words_read ws : Forall survives ws → parse_words (format_words ws) = ws.
Proof.
  induction 1 as [|w ws Hw _ IH]; [done|]. cbn [format_words flat_map app]. rewrite parse_words_space, parse_words_unfold.
  change (flat_map _ ws) with (format_words ws).
  rewrite (read_quoted_arg w _ Hw (format_words_blank ws)). by rewrite parse_words_trim, IH.
Qed.

(** A token that a configuration file may begin a line with. *)
Record directive_token (t : text) : Prop := {
  dt_bare : existsb triggers t = false;
  dt_head : ∃ c, head t = Some c ∧ c ≠ APOS ∧ c ≠ 91;
  dt_other : to_ascii_lowercase t ∉ str <$> ["includefile"; "includedir"; "includesearch"; "include"]%string;
}.

Lemma token_survives t : directive_token t → survives t.
Proof. intros [_ (c & H & N & _) _]. right. rewrite H. by intros [= ->]. Qed.

Lemma bare_quote_arg t : directive_token t → quote_arg t = t.
Proof.
  intros [H (c & Hc & _) _]. unfold quote_arg, needs_quotes. rewrite H. destruct t; [done|].
  by rewrite bool_decide_eq_false_2.
Qed.

Lemma classify_written t ws : directive_token t → Forall survives ws →
  classify_line (t ++ format_words ws) = Some (CEntry None t ws (trim_start (format_words ws))).
Proof.
  intros Ht Hw. unfold classify_line.
  assert (R : read_word (t ++ format_words ws) = Some (t, trim_start (format_words ws))).
  { rewrite <- (bare_quote_arg t Ht) at 1. apply read_quoted_arg; [by apply token_survives|apply format_words_blank]. }
  rewrite R. destruct Ht as [B (c & Hc & _ & N) O]. destruct t as [|c' t]; [done|]. injection Hc as ->.
  pose proof B as F. cbn [existsb] in F. apply orb_false_iff in F as [[[[H1 H2]%orb_false_iff _]%orb_false_iff _]%orb_false_iff _].
  unfold trim_start at 1. cbn [app trim_start_matches]. rewrite H1, H2. cbn [mbind option_bind starts_with].
  assert ((c =? 91) = false) as -> by (by apply Z.eqb_neq). unfold classify_directive.
  rewrite !bool_decide_eq_false_2 by (intros E; apply O; rewrite E; cbn; set_solver).
  by rewrite parse_words_trim, format_words_read.
Qed.

(** ** Lines *)

Definition no_newline (s : text) : Prop := Forall (λ c, c ≠ 10) s.

Lemma quote_word_no_newline w : no_newline w → no_newline (quote_word w).
Proof.
  intros H. unfold quote_word, no_newline. constructor; [done|]. apply Forall_app. split; [|by repeat constructor].
  induction H as [|c w Hc _ IH]; [constructor|]. cbn [flat_map]. apply Forall_app. split; [|done].
  destruct (_ || _); repeat constructor; done.
Qed.

Lemma format_words_no_newline ws : Forall no_newline ws → no_newline (format_words ws).
Proof.
  induction 1 as [|w ws Hw _ IH]; [constructor|]. cbn [format_words flat_map app]. constructor; [done|].
  apply Forall_app. split; [|done]. unfold quote_arg. destruct (needs_quotes w); [by apply quote_word_no_newline|done].
Qed.

Lemma bare_no_newline t : existsb triggers t = false → no_newline t.
Proof.
  induction t as [|c t IH]; [constructor|]. cbn [existsb]. intros [H1 H2]%orb_false_iff. constructor; [|by apply IH].
  by intros ->.
Qed.

Lemma ends_with_snoc c s x : ends_with c (s ++ [x]) = (x =? c).
Proof. unfold ends_with. by rewrite last_snoc. Qed.

Lemma ends_with_app c s s' : s' ≠ [] → ends_with c (s ++ s') = ends_with c s'.
Proof.
  intros H. destruct s' as [|x s' _] using rev_ind; [done|]. by rewrite app_assoc, !ends_with_snoc.
Qed.

Lemma bare_no_cr t : existsb triggers t = false → ends_with 13 t = false.
Proof.
  destruct t as [|x t _] using rev_ind; [done|]. rewrite existsb_app, ends_with_snoc. cbn [existsb].
  intros [_ [H _]%orb_false_iff]%orb_false_iff. apply Z.eqb_neq. by intros ->.
Qed.

Lemma line_no_cr t ws : existsb triggers t = false → ends_with 13 (t ++ format_words ws) = false.
Proof.
  intros Ht. destruct ws as [|w ws _] using rev_ind; [rewrite app_nil_r; by apply bare_no_cr|].
  unfold format_words. rewrite flat_map_app. cbn [flat_map]. rewrite app_nil_r.
  assert (Q : quote_arg w ≠ [] ∧ ends_with 13 (quote_arg w) = false).
  { unfold quote_arg, needs_quotes. destruct (bool_decide (w = [])) eqn:E1; cbn [orb].
    - split; [done|]. unfold quote_word. by rewrite app_comm_cons, ends_with_snoc.
    - destruct (existsb triggers w) eqn:E2; [|by split; [apply bool_decide_eq_false in E1|apply bare_no_cr]].
      split; [done|]. unfold quote_word. by rewrite app_comm_cons, ends_with_snoc. }
  destruct Q as [Q1 Q2]. rewrite app_assoc. change (32 :: quote_arg w) with ([32] ++ quote_arg w).
  rewrite app_assoc, ends_with_app by done. exact Q2.
Qed.

Lemma split_body l ls : Forall no_newline (l :: ls) → split 10 (body_of (l :: ls) ++ [10]) = (l :: ls) ++ [[]].
Proof.
  revert l. induction ls as [|l' ls IH]; intros l [Hl Hs]%Forall_cons.
  - cbn [body_of app]. by rewrite split_app.
  - change (body_of (l :: l' :: ls)) with (l ++ 10 :: body_of (l' :: ls)). rewrite <- app_assoc. cbn [app].
    rewrite split_app by done. by rewrite IH.
Qed.

Lemma lines_written ls : Forall no_newline ls → Forall (λ l, ends_with 13 l = false) ls →
  lines (written_config ls) = if bool_decide (ls = []) then [[]] else ls.
Proof.
  intros Hn Hc. unfold written_config, lines. destruct ls as [|l ls]; [done|].
  rewrite split_body, last_snoc, removelast_last, bool_decide_eq_false_2 by done.
  clear Hn. induction Hc as [|x xs Hx _ IH]; [done|]. cbn [map]. rewrite IH. unfold strip_cr. by rewrite Hx.
Qed.

Lemma parse_lines_written entries : Forall (λ e, directive_token e.1 ∧ Forall survives e.2) entries →
  ∀ idx out, ∃ new,
    parse_lines idx ((λ e, e.1 ++ format_words e.2) <$> entries) (None, out) = (None, out ++ new) ∧
    (λ d, (token d, args d, section d)) <$> new = (λ e, (e.1, e.2, None)) <$> entries.
Proof.
  induction 1 as [|[t ws] entries [Ht Hw] _ IH]; intros idx out; [by exists []; rewrite app_nil_r|].
  cbn [fmap list_fmap parse_lines]. unfold parse_line. cbn [fst snd] in *. rewrite (classify_written t ws Ht Hw).
  destruct (IH (S idx) (out ++ [mkDirective t ws (trim_start (format_words ws)) None (S idx)])) as (new & E & F).
  eexists. rewrite E, <- app_assoc. split; [done|]. cbn. by rewrite F.
Qed.

(** A file of written directives reads as those directives, whatever their
    arguments contain: blanks, quotes, hashes and backslashes, and empty ones. *)
Theorem written_directives_read entries :
  Forall (λ e, directive_token e.1 ∧ Forall (λ w, survives w ∧ no_newline w) e.2) entries →
  (λ d, (token d, args d, section d)) <$> parse_str (written_config ((λ e, e.1 ++ format_words e.2) <$> entries)) =
  (λ e, (e.1, e.2, None)) <$> entries.
Proof.
  intros H.
  assert (G : Forall (λ e, directive_token e.1 ∧ Forall survives e.2) entries).
  { eapply Forall_impl; [exact H|]. intros x [Hx Hw]. split; [done|]. eapply Forall_impl; [exact Hw|]. by intros w [? _]. }
  unfold parse_str. rewrite lines_written.
  - destruct entries as [|e entries]; [done|]. rewrite bool_decide_eq_false_2 by done.
    destruct (parse_lines_written (e :: entries) G 0 []) as (new & -> & F). exact F.
  - apply Forall_fmap. eapply Forall_impl; [exact H|]. intros x [Ht Hw]. apply Forall_app. split.
    + apply bare_no_newline, (dt_bare _ Ht).
    + apply format_words_no_newline. eapply Forall_impl; [exact Hw|]. by intros w [_ ?].
  - apply Forall_fmap. eapply Forall_impl; [exact H|]. intros x [Ht _]. apply line_no_cr, (dt_bare _ Ht).
Qed.

(** ** Interactive mode *)

Lemma question_tokens t : Forall (λ q, directive_token (q_token q)) (questions t).
Proof.
  assert (G : ∀ q, existsb triggers (q_token q) = false →
    match head (q_token q) with Some c => negb (c =? APOS) && negb (c =? 91) | None => false end = true →
    forallb (λ s, negb (bool_decide (to_ascii_lowercase (q_token q) = str s)))
      ["includefile"; "includedir"; "includesearch"; "include"]%string = true → directive_token (q_token q)).
  { intros q B Hh HO. split; [done| |].
    - destruct (head (q_token q)) as [c|]; [|done]. exists c. apply andb_true_iff in Hh as [H1 H2].
      split_and!; [done|..]; intros ->; done.
    - intros (s & E & Hs)%list_elem_of_fmap. rewrite forallb_forall in HO. specialize (HO s).
      rewrite E, bool_decide_eq_true_2 in HO by done. by specialize (HO (proj1 (list_elem_of_In _ _) Hs)). }
  destruct t; cbn [questions]; repeat (apply Forall_cons_2; [apply G; vm_compute; reflexivity|]); apply Forall_nil_2.
Qed.

(** A line as it is read: nothing follows its newline. *)
Definition is_line (l : text) : Prop := no_newline (removelast l).

Lemma no_newline_drop p s : no_newline s → no_newline (trim_start_matches p s).
Proof. induction 1 as [|c s Hc Hs IH]; [constructor|]. cbn. destruct (p c); [done|by constructor]. Qed.

Lemma trim_no_newline s : no_newline s → no_newline (trim s).
Proof.
  intros H. unfold trim, trim_end. apply Forall_rev, no_newline_drop, Forall_rev. by apply no_newline_drop.
Qed.

Lemma removelast_incl {A} (P : A → Prop) (l : list A) : Forall P l → Forall P (removelast l).
Proof.
  destruct l as [|x l _] using rev_ind; [done|]. rewrite removelast_last. by intros [? _]%Forall_app.
Qed.

Lemma strip_cr_no_newline s : no_newline s → no_newline (strip_cr s).
Proof. intros H. unfold strip_cr. destruct (ends_with 13 s); [by apply removelast_incl|done]. Qed.

Lemma strip_no_newline l : is_line l → no_newline (strip_terminator l).
Proof.
  unfold is_line, strip_terminator. intros H. destruct l as [|x l _] using rev_ind; [constructor|].
  rewrite removelast_last in H |- *. rewrite ends_with_snoc. destruct (Z.eqb_spec x 10) as [->|N].
  - by apply strip_cr_no_newline.
  - apply strip_cr_no_newline, Forall_app. split; [done|by repeat constructor].
Qed.

(** Words split from a text without a newline have none. *)
Lemma scan_no_newline q e s acc : no_newline s → no_newline acc →
  no_newline (scan_quoted q e s acc).1 ∧ no_newline (scan_quoted q e s acc).2 ∧
  no_newline (scan_bare e s acc).1 ∧ no_newline (scan_bare e s acc).2.
Proof.
  intros Hs. revert e acc. induction Hs as [|c s Hc Hs IH]; intros e acc Ha; [cbn; split_and!; [done|constructor|done|constructor]|].
  assert (Hac : no_newline (acc ++ [c])) by (apply Forall_app; split; [done|by repeat constructor]).
  assert (Hcs : no_newline (c :: s)) by (by constructor).
  destruct (IH false (acc ++ [c]) Hac) as (A1 & A2 & A3 & A4). destruct (IH true acc Ha) as (B1 & B2 & B3 & B4).
  cbn. destruct e; [done|]. destruct (c =? BACKSLASH); [done|].
  destruct (c =? q), (is_whitespace c); done.
Qed.

Lemma parse_words_no_newline n s : (length s <= n)%nat → no_newline s → Forall no_newline (parse_words s).
Proof.
  revert s. induction n as [|n IH]; intros s Hn Hs; rewrite parse_words_unfold;
    (destruct (read_word s) as [[w next]|] eqn:E; [|constructor]); pose proof (read_word_progress _ _ _ E); [lia|].
  assert (no_newline w ∧ no_newline next) as [Hw Hx].
  { unfold read_word in E. pose proof (no_newline_drop is_whitespace s Hs) as Ht. fold (trim_start s) in Ht.
    destruct (trim_start s) as [|c tl]; [done|]. apply Forall_cons in Ht as [Hc Ht].
    destruct (scan_no_newline c false tl [] Ht) as (Q1 & Q2 & _); [constructor|].
    destruct (scan_no_newline 0 false (c :: tl) []) as (_ & _ & B1 & B2); [by constructor|constructor|].
    destruct ((c =? QUOTE) || (c =? APOS)).
    - destruct (scan_quoted c false tl []). injection E as <- <-. split; [done|by apply no_newline_drop].
    - destruct (scan_bare false (c :: tl) []). injection E as <- <-. split; [done|by apply no_newline_drop]. }
  constructor; [done|]. apply IH; [lia|done].
Qed.

(** What is answered to each question by the lines of standard input, which
    are empty once it is at its end. *)
Fixpoint given (qs : list Question) (input : list text) : list (text * text) :=
  match qs with
  | [] => []
  | q :: qs' =>
      match answer (q_default q) (strip_terminator (default [] (head input))) with
      | Some v => (q_token q, v) :: given qs' (tail input)
      | None => given qs' (tail input)
      end
  end.

Lemma given_tokens qs input : (given qs input).*1 `sublist_of` (q_token <$> qs).
Proof.
  revert input. induction qs as [|q qs IH]; intros input; [constructor|]. cbn.
  destruct (answer _ _); cbn; by constructor.
Qed.

Lemma given_no_newline qs input : Forall is_line input →
  Forall (λ q, ∀ d, q_default q = Some d → no_newline d) qs → Forall (λ a, no_newline a.2) (given qs input).
Proof.
  intros Hi Hq. revert input Hi. induction Hq as [|q qs Hd _ IH]; intros input Hi; [constructor|]. cbn [given].
  assert (Ht : Forall is_line (tail input)) by (destruct Hi; [constructor|done]).
  destruct (answer _ _) as [v|] eqn:E; [|by apply IH]. constructor; [|by apply IH]. cbn [snd].
  unfold answer in E. destruct (eq_ignore_case _ _); [done|]. destruct (bool_decide _); [by apply Hd|].
  injection E as <-. apply trim_no_newline, strip_no_newline. destruct Hi as [|l input Hl _]; [constructor|done].
Qed.

Lemma ask_all_given qs input sh : ∃ sh', ask_all qs (mkConsole (Ok <$> input) sh) =
  (Ok ((λ a, format_directive a.1 a.2) <$> given qs input), mkConsole (Ok <$> drop (length qs) input) sh').
Proof.
  revert input sh. induction qs as [|q qs IH]; intros input sh; [by exists sh|].
  cbn [ask_all given length]. unfold ask, read_line, show. cbn [stdin shown].
  destruct input as [|l input]; [rewrite fmap_nil|rewrite fmap_cons]; cbn [head default tail drop rbind stdin shown].
  - destruct (IH [] (sh ++ prompt (q_label q) (q_default q))) as (sh' & E). rewrite drop_nil, fmap_nil in E.
    exists sh'. rewrite E, fmap_nil. change (strip_terminator []) with (@nil Z). cbn [rbind]. by destruct (answer (q_default q) []).
  - destruct (IH input (sh ++ prompt (q_label q) (q_default q))) as (sh' & E). exists sh'. rewrite E.
    cbn [rbind id]. by destruct (answer (q_default q) (strip_terminator l)).
Qed.

Lemma default_no_newline t : Forall (λ q, ∀ d, q_default q = Some d → no_newline d) (questions t).
Proof.
  destruct t; cbn [questions]; repeat (apply Forall_cons_2; [intros d [= <-]; by repeat constructor|]); apply Forall_nil_2.
Qed.

(** C37. What the interactive mode writes reads as the questions that were answered,
    in order, each with the words of its answer, unless one of these words
    begins with an apostrophe and is written bare. *)
Theorem interactive_config_reads t input sh : Forall is_line input →
  Forall (λ a, Forall survives (parse_words a.2)) (given (questions t) input) →
  ∃ ls c', interactive t (mkConsole (Ok <$> input) sh) = (Ok ls, c') ∧ stdin c' = Ok <$> drop (length (questions t)) input ∧
    (λ d, (token d, args d, section d)) <$> parse_str (written_config ls) =
    (λ a, (a.1, parse_words a.2, None)) <$> given (questions t) input.
Proof.
  intros Hi Hw. destruct (ask_all_given (questions t) input sh) as (sh' & E).
  eexists _, _. split_and!; [exact E|done|].
  pose proof (given_no_newline (questions t) input Hi (default_no_newline t)) as F.
  pose proof (given_tokens (questions t) input) as S. revert Hw F S. generalize (given (questions t) input). intros answers Hw F S.
  replace ((λ a, format_directive a.1 a.2) <$> answers)
    with ((λ e, e.1 ++ format_words e.2) <$> ((λ a, (a.1, parse_words a.2)) <$> answers)) by (by rewrite <- list_fmap_compose).
  rewrite written_directives_read; [by rewrite <- list_fmap_compose|].
  apply Forall_fmap, Forall_forall. intros a Ha. cbn. split.
  - pose proof (question_tokens t) as Q. rewrite Forall_forall in Q.
    assert (a.1 ∈ q_token <$> questions t) as (q & -> & Hq)%list_elem_of_fmap; [|by apply Q].
    eapply (elem_of_submseteq _ _ _ (list_elem_of_fmap_2 fst _ _ Ha)), sublist_submseteq, S.
  - rewrite Forall_forall in Hw, F. specialize (Hw a Ha). pose proof (parse_words_no_newline _ _ (Nat.le_refl _) (F a Ha)) as G.
    rewrite Forall_forall in Hw, G |- *. intros w H. split; [by apply Hw|by apply G].
Qed.

Lemma scan_quoted_word_length q e s acc : (length (scan_quoted q e s acc).1 <= length acc + length s)%nat.
Proof.
  revert e acc. induction s as [|c s IH]; intros e acc; cbn; [lia|].
  pose proof (IH false (acc ++ [c])) as A. pose proof (IH true acc) as B. rewrite length_app in A. cbn in A.
  destruct e; [lia|]. destruct (c =? BACKSLASH); [lia|]. destruct (c =? q); cbn; lia.
Qed.

(** A written word is read back exactly when it does not begin with an
    apostrophe or has something else that makes [quote_arg] quote it: the
    apostrophe is no reason to quote, but [read_word] takes it for a quote. *)
Theorem written_word_read_iff w : read_word (quote_arg w) = Some (w, []) ↔ survives w.
Proof.
  split.
  - intros H. unfold survives, quote_arg in *. destruct (needs_quotes w) eqn:E; [by left|]. right. intros Hh.
    destruct w as [|c w]; [done|]. injection Hh as ->. unfold read_word in H.
    cbn [trim_start trim_start_matches] in H. change (is_whitespace APOS) with false in H. cbn in H.
    pose proof (scan_quoted_word_length APOS false w []) as L. destruct (scan_quoted APOS false w []) as [w' r].
    injection H as -> _. cbn in L. lia.
  - intros H. pose proof (read_quoted_arg w [] H I) as E. by rewrite app_nil_r in E.
Qed.

(** ** The menu *)

Definition settles (r : result text text) : bool :=
  match r with Err _ => true | Ok l => bool_decide (is_Some (choice (strip_terminator l))) end.

(** The menu is left exactly when standard input still has a choice or an error
    to offer; at its end, where every read is an empty line, it is shown for
    ever. *)
Theorem menu_left_iff c : (∃ fuel r, prompt_conf_type fuel c = Some r) ↔ existsb settles (stdin c) = true.
Proof.
  assert (Eof : ∀ fuel c, stdin c = [] → prompt_conf_type fuel c = None).
  { induction fuel as [|fuel IH]; intros d Hd; [done|]. cbn. unfold read_line. cbn [stdin show]. rewrite Hd.
    change (choice []) with (@None ConfType). cbv iota. by apply IH. }
  destruct c as [ls sh]. cbn [stdin]. revert sh. induction ls as [|[l|e] ls IH]; intros sh; cbn [existsb].
  - split; [|done]. intros (fuel & r & H). by rewrite Eof in H.
  - unfold settles at 1. destruct (choice (strip_terminator l)) as [t|] eqn:E.
    + rewrite bool_decide_eq_true_2 by done. split; [done|]. intros _. exists 1%nat. cbn. rewrite E. by eexists.
    + rewrite bool_decide_eq_false_2 by (by intros [??]). cbn [orb]. rewrite <- (IH (sh ++ menu)). split.
      * intros ([|fuel] & r & H); [done|]. cbn in H. rewrite E in H. by exists fuel, r.
      * intros (fuel & r & H). exists (S fuel), r. cbn. by rewrite E.
  - split; [done|]. intros _. exists 1%nat. cbn. by eexists.
Qed.

(** ** Concrete files *)

Definition closed_input : Console := mkConsole [] [].

(** With standard input at its end every question takes its default. *)
Definition default_lines (t : ConfType) : list text :=
  match (interactive t closed_input).1 with Ok ls => ls | Err _ => [] end.

Definition some_answers : list text :=
  [str "secret" ++ [13; 10]; str "skip" ++ [10]; QUOTE :: str "Server Room 1" ++ [QUOTE; 10]].

Lemma interactive_config_reads_witness : ∃ ls c',
  interactive Snmpd (mkConsole (Ok <$> some_answers) []) = (Ok ls, c') ∧ stdin c' = [] ∧
  (λ d, (token d, args d, section d)) <$> parse_str (written_config ls) =
    [(str "rocommunity", [str "secret"], None);
     (str "sysLocation", [str "Server Room 1"], None);
     (str "sysContact", [str "Me"; str "<me@example.org>"], None);
     (str "agentAddress", [str "udp:161"], None)].
Proof.
  destruct (interactive_config_reads Snmpd some_answers []) as (ls & c' & E & S & H).
  - repeat (apply Forall_cons_2; [by repeat constructor|]). apply Forall_nil_2.
  - apply (bool_decide_unpack _). vm_compute. exact I.
  - exists ls, c'. split; [exact E|]. split; [exact S|]. rewrite H. vm_compute. reflexivity.
Defined.

Example default_settings : client_defaults (parse_str (written_config (default_lines Snmp))) =
  mkDefaults (Some (str "2c")) (Some (str "public")) None (Some (str "SHA")) None (Some (str "AES")) None
    (Some (str "noAuthNoPriv")) [].
Proof. vm_compute. reflexivity. Qed.

Example answers_file :
  from_answers_file (str "defVersion=2c" ++ 10 :: str "defCommunity=" ++ 10 :: str "# a comment" ++ 10 ::
    str "frobnicate: a  b" ++ 10 :: str "bareToken" ++ [10]) Snmp =
  [str "defVersion 2c"; str "frobnicate a b"; str "bareToken"].
Proof. vm_compute. reflexivity. Qed.

(** A word that begins with an apostrophe loses it. *)
Example apostrophe_lost :
  parse_words (format_words (parse_words (BACKSLASH :: str "'tis"))) = [str "tis"].
Proof. vm_compute. reflexivity. Qed.

(** The community that was asked for is not the one the tools read: they take
    the rest of the line as it is written, quotes included. *)
Example quoted_community :
  d_community (client_defaults (parse_str (written_config
    (from_answers_file (str "defCommunity=a#b") Snmp)))) = Some (QUOTE :: str "a#b" ++ [QUOTE]).
Proof. vm_compute. reflexivity. Qed.
