(* ===== verification/Remote.v ===== *)
(** * Remote operations ([ping.rs], [traceroute.rs], [nslookup.rs] and [mod.rs] of
    [crates/netsnmp-agent/src/disman/])

    The three engines that run a command or ask the resolver, what they read in
    the output, and the tables of their results. Commands and the resolver are
    interfaces. An [f64] is that of [Expr]. *)

From Stdlib Require Import ZArith Lia SpecFloat.
From S2P Require Import Prelude MachineInts Text Oid Value Pdu Cells Handler Helpers Row Config Expr Ucd Settings.

Local Open Scope list_scope.

Abbreviation f64 := spec_float (only parsing).
Abbreviation name_index := Text.name_index (only parsing).

(** ** Numbers *)

(** The exponent of a number; [None] when its text is malformed. *)
Definition parse_exponent (s : text) : option Z :=
  match s with
  | [] => Some 0
  | c :: s' =>
      if (c =? 101) || (c =? 69) then
        match s' with
        | 45 :: ds => Z.opp <$> parse_digits ds
        | 43 :: ds => parse_digits ds
        | _ => parse_digits s'
        end
      else None
  end.

(** The nearest one to [n * 10 ^ k]. *)
Definition f64_scaled (n k : Z) : f64 :=
  if k <? 0 then f64_of_decimal n (Z.to_nat (- k)) else if n =? 0 then S754_zero false else f64_of_int (n * 10 ^ k).

Definition parse_number (s : text) : option f64 :=
  let '(whole, rest) := span is_ascii_digit s in
  let '(frac, rest) := match rest with 46 :: r => span is_ascii_digit r | _ => ([], rest) end in
  match whole ++ frac with
  | [] => None
  | digits =>
      let! e := parse_exponent rest in
      Some (f64_scaled (dec_value digits) (e - Z.of_nat (length frac)))
  end.

(** [str::parse::<f64>]. *)
Definition parse_unsigned_f64 (s : text) : option f64 :=
  let lower := to_ascii_lowercase s in
  if bool_decide (lower = str "inf") || bool_decide (lower = str "infinity") then Some (S754_infinity false)
  else if bool_decide (lower = str "nan") then Some S754_nan
  else parse_number s.

Definition parse_float (s : text) : option f64 :=
  match s with
  | 45 :: s' => f64_neg <$> parse_unsigned_f64 s'
  | 43 :: s' => parse_unsigned_f64 s'
  | _ => parse_unsigned_f64 s
  end.

(** The magnitude of [round]: half away from zero. *)
Definition round_half (m : positive) (e : Z) : Z :=
  if 0 <=? e then Z.shiftl (Zpos m) e else (Zpos m * 2 + 2 ^ (- e)) / 2 ^ (- e + 1).

(** [x.round() as u32], which saturates. *)
Definition round_u32 (x : f64) : Z :=
  match x with
  | S754_zero _ | S754_nan => 0
  | S754_infinity neg => if neg then 0 else u32_max
  | S754_finite neg m e =>
      if neg then 0 else Z.min (round_half m e) u32_max
  end.

Definition thousandfold (v : f64) : Z := round_u32 (f64_mul v (f64_of_int 1000)).

(** ** Ping *)

(** The maximal runs of digits, through [split] on all other characters. *)
Fixpoint split_digits (s : text) : list text :=
  match s with
  | [] => [[]]
  | c :: s' =>
      if is_ascii_digit c then
        match split_digits s' with
        | piece :: pieces => (c :: piece) :: pieces
        | [] => [[c]]
        end
      else [] :: split_digits s'
  end.

Definition numbers (s : text) : list Z := omap (parse_unsigned u32_max) (split_digits s).

Definition is_decimal (c : Z) : bool := is_ascii_digit c || (c =? 46).

Definition second {A} (l : list A) : option A := nth_error l 1.

(** One line: probes sent, responses received, and the time. *)
Definition ping_line (st : Z * Z * Z) (line : text) : Z * Z * Z :=
  let '(sent, received, rtt) := st in
  let l := trim line in
  let '(sent, received) :=
    if contains (str "packets transmitted") l
    then (default sent (head (numbers l)), default received (second (numbers l)))
    else (sent, received) in
  let rtt :=
    if contains (str "rtt") l || contains (str "round-trip") l then
      match split_once 61 l with
      | Some (_, tail) =>
          match parse_float (span is_decimal (trim tail)).1 with
          | Some v => thousandfold v
          | None => rtt
          end
      | None => rtt
      end
    else rtt in
  (sent, received, rtt).

Definition parse_ping_output (output : text) : Z * Z * Z := fold_left ping_line (lines output) (0, 0, 0).

Definition as_secs (nanos : Z) : Z := nanos / 1000000000.

Definition build_ping_command (host : text) (count timeout : Z) : text * list text :=
  (str "/bin/ping", [str "-c"; show_u count; str "-W"; show_u (as_secs timeout); host]).

(** ** Traceroute *)

(** [trim_end_matches] of a string: every copy at the end is taken off. *)
Fixpoint trim_end_text (fuel : nat) (suf s : text) : text :=
  match fuel with
  | O => s
  | S f =>
      let n := (length s - length suf)%nat in
      if bool_decide (drop n s = suf) && (length suf <=? length s)%nat then trim_end_text f suf (take n s) else s
  end.

Definition strip_ms (t : text) : text := trim_end_text (length t) (str "ms") t.

(** The tokens after the hop number. *)
Fixpoint hop_time (tokens : list text) : option f64 :=
  match tokens with
  | [] => None
  | t :: ts =>
      if bool_decide (t = str "ms") then None
      else match parse_float (strip_ms t) with Some v => Some v | None => hop_time ts end
  end.

Definition hop_line (st : Z * Z) (line : text) : Z * Z :=
  let '(hops, rtt) := st in
  match split_whitespace (trim line) with
  | first :: tokens =>
      match parse_unsigned u32_max first with
      | Some n => (n, default rtt (thousandfold <$> hop_time tokens))
      | None => (hops, rtt)
      end
  | [] => (hops, rtt)
  end.

Definition parse_traceroute_output (output : text) : Z * Z := fold_left hop_line (lines output) (0, 0).

Definition build_traceroute_command (host : text) (max_hops timeout : Z) : text * list text :=
  (str "/bin/traceroute", [str "-m"; show_u max_hops; str "-w"; show_u (as_secs timeout); host]).

(** ** Addresses *)

(** [std::net::IpAddr]; a v6 address is its eight segments. *)
Inductive IpAddr :=
| V4 (ip : Ipv4Addr)
| V6 (segments : list Z).

Fixpoint hex_from (fuel : nat) (n : Z) (acc : text) : text :=
  match fuel with
  | O => acc
  | S f =>
      let acc := Persist.hex_digit (n mod 16) :: acc in
      if n <? 16 then acc else hex_from f (n / 16) acc
  end.

(** [{:x}] of a [u16]. *)
Definition show_x (n : Z) : text := hex_from 4 n [].

(** The first longest run of zeros: where it starts and its length. *)
Fixpoint zero_runs (i : nat) (current longest : nat * nat) (segments : list Z) : nat * nat :=
  match segments with
  | [] => longest
  | s :: ss =>
      if s =? 0 then
        let current := if (current.2 =? 0)%nat then (i, 1%nat) else (current.1, S current.2) in
        zero_runs (S i) current (if (longest.2 <? current.2)%nat then current else longest) ss
      else zero_runs (S i) (0%nat, 0%nat) longest ss
  end.

Fixpoint join_with (sep : text) (parts : list text) : text :=
  match parts with [] => [] | [p] => p | p :: ps => p ++ sep ++ join_with sep ps end.

Definition fmt_subslice (segments : list Z) : text := join_with [58] (show_x <$> segments).

Definition show_ipv6 (segments : list Z) : text :=
  match segments with
  | [0; 0; 0; 0; 0; 65535; ab; cd] =>
      str "::ffff:" ++ show_ipv4 (mkIpv4 (ab / 256) (ab mod 256) (cd / 256) (cd mod 256))
  | _ =>
      let '(start, len) := zero_runs 0 (0%nat, 0%nat) (0%nat, 0%nat) segments in
      if (1 <? len)%nat
      then fmt_subslice (take start segments) ++ str "::" ++ fmt_subslice (drop (start + len) segments)
      else fmt_subslice segments
  end.

Definition show_ip (a : IpAddr) : text := match a with V4 ip => show_ipv4 ip | V6 s => show_ipv6 s end.

Definition build_lookup_target (host : text) : text :=
  if contains [58] host then host else host ++ str ":0".

(** ** The engines *)

Record PingResult := mkPingResult {
  p_owner : text; p_test : text; p_host : text; probes_sent : Z; responses_received : Z; p_rtt_ms : Z; p_status : RowStatus
}.

Record TracerouteResult := mkTracerouteResult {
  t_owner : text; t_test : text; t_host : text; hop_count : Z; t_rtt_ms : Z; t_status : RowStatus
}.

Record LookupResult := mkLookupResult {
  l_owner : text; l_test : text; l_host : text; addresses : list IpAddr; l_status : RowStatus
}.

Definition addresses_display (r : LookupResult) : text := join_with [32] (show_ip <$> addresses r).

(** [results] of an engine, filed under [owner NUL name]. *)
Abbreviation Results R := (gmap text R) (only parsing).

(** [tokio::net::lookup_host]: addresses with their ports. *)
Class Resolver (W : Type) := {
  lookup_host : text → St W (option (list (IpAddr * Z)));
}.

Module Ping.
Definition insert (r : PingResult) (s : Results PingResult) : Results PingResult := <[name_key (p_owner r) (p_test r) := r]> s.

Definition record_result (owner test host output : text) : Results PingResult → Results PingResult :=
  let '(sent, received, rtt) := parse_ping_output output in
  insert (mkPingResult owner test host sent received rtt Active).

Definition record_failure (owner test host : text) : Results PingResult → Results PingResult :=
  insert (mkPingResult owner test host 0 0 0 Active).

Definition run {W} {C : Commands W} (owner test host : text) (s : Results PingResult) : St W (Results PingResult) :=
  let '(program, args) := build_ping_command host 4 5000000000 in
  let* out := c_output program args in
  sret (match out with
        | Some (_, stdout) => record_result owner test host (from_utf8_lossy stdout) s
        | None => record_failure owner test host s
        end).

Definition result (owner test : text) (s : Results PingResult) : option PingResult := s !! name_key owner test.

Definition ENTRY : Oid := [1; 3; 6; 1; 2; 1; 80; 1; 2; 1; 1].

(** The cells pushed for one row, by column. *)
Definition columns (r : PingResult) : gmap Z Value := list_to_map
  [(2, VOctetString (as_bytes (p_host r))); (3, VGauge32 (probes_sent r)); (4, VGauge32 (responses_received r));
   (6, VGauge32 (p_rtt_ms r)); (10, VInteger (status_i64 (p_status r)))].

Definition cells_of : Results PingResult → cells := named_cells ENTRY p_owner p_test columns.
Definition handler : MibHandler (Results PingResult) := table_handler ENTRY cells_of.
End Ping.

Module Traceroute.
Definition insert (r : TracerouteResult) (s : Results TracerouteResult) : Results TracerouteResult :=
  <[name_key (t_owner r) (t_test r) := r]> s.

Definition record_result (owner test host output : text) : Results TracerouteResult → Results TracerouteResult :=
  let '(hops, rtt) := parse_traceroute_output output in
  insert (mkTracerouteResult owner test host hops rtt Active).

Definition record_failure (owner test host : text) : Results TracerouteResult → Results TracerouteResult :=
  insert (mkTracerouteResult owner test host 0 0 Active).

Definition run {W} {C : Commands W} (owner test host : text) (s : Results TracerouteResult) : St W (Results TracerouteResult) :=
  let '(program, args) := build_traceroute_command host 5 2000000000 in
  let* out := c_output program args in
  sret (match out with
        | Some (_, stdout) => record_result owner test host (from_utf8_lossy stdout) s
        | None => record_failure owner test host s
        end).

Definition result (owner test : text) (s : Results TracerouteResult) : option TracerouteResult := s !! name_key owner test.

Definition ENTRY : Oid := [1; 3; 6; 1; 2; 1; 81; 1; 2; 1; 1].

Definition columns (r : TracerouteResult) : gmap Z Value := list_to_map
  [(2, VOctetString (as_bytes (t_host r))); (3, VGauge32 (hop_count r)); (5, VGauge32 (t_rtt_ms r));
   (10, VInteger (status_i64 (t_status r)))].

Definition cells_of : Results TracerouteResult → cells := named_cells ENTRY t_owner t_test columns.
Definition handler : MibHandler (Results TracerouteResult) := table_handler ENTRY cells_of.
End Traceroute.

Module NsLookup.
Definition insert (r : LookupResult) (s : Results LookupResult) : Results LookupResult := <[name_key (l_owner r) (l_test r) := r]> s.

Definition record_result (owner test host : text) (addrs : list IpAddr) : Results LookupResult → Results LookupResult :=
  insert (mkLookupResult owner test host addrs Active).

Definition record_failure (owner test host : text) : Results LookupResult → Results LookupResult :=
  insert (mkLookupResult owner test host [] Active).

Definition run {W} {C : Resolver W} (owner test host : text) (s : Results LookupResult) : St W (Results LookupResult) :=
  let* out := lookup_host (build_lookup_target host) in
  sret (match out with
        | Some addrs => record_result owner test host (addrs.*1) s
        | None => record_failure owner test host s
        end).

Definition result (owner test : text) (s : Results LookupResult) : option LookupResult := s !! name_key owner test.

Definition ENTRY : Oid := [1; 3; 6; 1; 2; 1; 82; 1; 2; 1; 1].

Definition columns (r : LookupResult) : gmap Z Value := list_to_map
  [(2, VOctetString (as_bytes (l_host r))); (3, VOctetString (as_bytes (addresses_display r)));
   (4, VGauge32 (as_u32 (Z.of_nat (length (addresses r))))); (8, VInteger (status_i64 (l_status r)))].

Definition cells_of : Results LookupResult → cells := named_cells ENTRY l_owner l_test columns.
Definition handler : MibHandler (Results LookupResult) := table_handler ENTRY cells_of.
End NsLookup.

(** * What the tables serve *)

Section ResultTable.
Context {R : Type} (entry : Oid) (owner test : R → text) (cols : R → gmap Z Value).

Abbreviation cells_at := (named_cells entry owner test cols).
Abbreviation table := (table_handler entry cells_at).

Lemma row_served m r c : filed owner test m → m !! name_key (owner r) (test r) = Some r →
  (get table (entry ++ c :: name_index (owner r) (test r)) m).1 = cols r !! c.
Proof.
  intros Hf Hr. cbn. pose proof (named_cells_strict entry owner test cols m Hf) as HS.
  assert (In : ∀ v, (entry ++ c :: name_index (owner r) (test r), v) ∈ cells_at m ↔ cols r !! c = Some v).
  { intros v. unfold named_cells. rewrite sort_cells_perm, elem_of_flatten. split.
    - intros (c' & idx & cs & Hin & Hv & E). rewrite instance_oid_app in E. apply app_inv_head in E. injection E as -> <-.
      apply list_elem_of_fmap in Hin as (r' & [= E ->] & ([k r''] & -> & Hk)%list_elem_of_fmap).
      apply elem_of_map_to_list in Hk. cbn in *.
      assert (name_key (owner r) (test r) = k) as <- by (by eapply (filed_index_inj owner test m)).
      rewrite Hr in Hk. by injection Hk as ->.
    - intros Hv. exists c, (name_index (owner r) (test r)), (cols r). rewrite instance_oid_app. split_and!; [|done|done].
      apply list_elem_of_fmap. exists r. split; [done|]. apply list_elem_of_fmap.
      exists (name_key (owner r) (test r), r). split; [done|]. by apply elem_of_map_to_list. }
  destruct (cols r !! c) as [v|] eqn:Ec.
  - apply lookup_cell_Some; [done|]. by apply In.
  - destruct (lookup_cell _ _) as [v|] eqn:El; [|done]. apply lookup_cell_elem, In in El. done.
Qed.

(** A row filed under [o] and [n] is what is served under their index, and the
    other rows stay as they were. *)
Lemma filing_serves m r o n : filed owner test m → owner r = o → test r = n → is_text o → is_text n →
  let m' := <[name_key o n := r]> m in
  filed owner test m' ∧
  (∀ c, (get table (entry ++ c :: name_index o n) m').1 = cols r !! c) ∧
  ∀ r' c, m !! name_key (owner r') (test r') = Some r' → name_key (owner r') (test r') ≠ name_key o n →
    (get table (entry ++ c :: name_index (owner r') (test r')) m').1 =
    (get table (entry ++ c :: name_index (owner r') (test r')) m).1.
Proof.
  intros Hf <- <- Ho Hn m'. assert (Hf' : filed owner test m') by by apply filed_insert.
  split; [done|]. split; [intros c; apply row_served; [done|apply lookup_insert_eq]|].
  intros r' c Hr' Hk. rewrite !row_served; [done|done|done|done|]. unfold m'. by rewrite lookup_insert_ne.
Qed.
End ResultTable.

Lemma ping_readable : ReadableHandler (filed p_owner p_test) eq Ping.handler Ping.cells_of.
Proof. apply table_readable; [intros s; apply named_cells_strict|intros s; apply named_cells_under_root]. Qed.
Lemma traceroute_readable : ReadableHandler (filed t_owner t_test) eq Traceroute.handler Traceroute.cells_of.
Proof. apply table_readable; [intros s; apply named_cells_strict|intros s; apply named_cells_under_root]. Qed.
Lemma lookup_readable : ReadableHandler (filed l_owner l_test) eq NsLookup.handler NsLookup.cells_of.
Proof. apply table_readable; [intros s; apply named_cells_strict|intros s; apply named_cells_under_root]. Qed.

#[export] Existing Instances ping_readable traceroute_readable lookup_readable.

(** Whatever the command does, a ping of [host] is served under its owner and
    name with what was read in the output, or zeros when it could not be
    started, and no other row changes. *)
Theorem ping_is_served {W} {C : Commands W} o n host s w : filed p_owner p_test s → is_text o → is_text n →
  let '(s', _) := Ping.run o n host s w in
  let '(sent, received, rtt) :=
    match (c_output (str "/bin/ping") [str "-c"; str "4"; str "-W"; str "5"; host] w).1 with
    | Some (_, stdout) => parse_ping_output (from_utf8_lossy stdout)
    | None => (0, 0, 0)
    end in
  filed p_owner p_test s' ∧
  (∀ c, (get Ping.handler (Ping.ENTRY ++ c :: name_index o n) s').1 = Ping.columns (mkPingResult o n host sent received rtt Active) !! c) ∧
  ∀ r c, Ping.result (p_owner r) (p_test r) s = Some r → name_key (p_owner r) (p_test r) ≠ name_key o n →
    (get Ping.handler (Ping.ENTRY ++ c :: name_index (p_owner r) (p_test r)) s').1 =
    (get Ping.handler (Ping.ENTRY ++ c :: name_index (p_owner r) (p_test r)) s).1.
Proof.
  intros Hf Ho Hn. unfold Ping.run, build_ping_command, sbind.
  change (show_u 4) with (str "4"). change (show_u (as_secs 5000000000)) with (str "5").
  destruct (c_output _ _ w) as [[[code stdout]|] w']; cbn [sret fst].
  - unfold Ping.record_result. destruct (parse_ping_output _) as [[sent received] rtt].
    exact (filing_serves Ping.ENTRY p_owner p_test Ping.columns s
      (mkPingResult o n host sent received rtt Active) o n Hf eq_refl eq_refl Ho Hn).
  - exact (filing_serves Ping.ENTRY p_owner p_test Ping.columns s
      (mkPingResult o n host 0 0 0 Active) o n Hf eq_refl eq_refl Ho Hn).
Qed.

Theorem traceroute_is_served {W} {C : Commands W} o n host s w : filed t_owner t_test s → is_text o → is_text n →
  let '(s', _) := Traceroute.run o n host s w in
  let '(hops, rtt) :=
    match (c_output (str "/bin/traceroute") [str "-m"; str "5"; str "-w"; str "2"; host] w).1 with
    | Some (_, stdout) => parse_traceroute_output (from_utf8_lossy stdout)
    | None => (0, 0)
    end in
  filed t_owner t_test s' ∧
  (∀ c, (get Traceroute.handler (Traceroute.ENTRY ++ c :: name_index o n) s').1 =
    Traceroute.columns (mkTracerouteResult o n host hops rtt Active) !! c) ∧
  ∀ r c, Traceroute.result (t_owner r) (t_test r) s = Some r → name_key (t_owner r) (t_test r) ≠ name_key o n →
    (get Traceroute.handler (Traceroute.ENTRY ++ c :: name_index (t_owner r) (t_test r)) s').1 =
    (get Traceroute.handler (Traceroute.ENTRY ++ c :: name_index (t_owner r) (t_test r)) s).1.
Proof.
  intros Hf Ho Hn. unfold Traceroute.run, build_traceroute_command, sbind.
  change (show_u 5) with (str "5"). change (show_u (as_secs 2000000000)) with (str "2").
  destruct (c_output _ _ w) as [[[code stdout]|] w']; cbn [sret fst].
  - unfold Traceroute.record_result. destruct (parse_traceroute_output _) as [hops rtt].
    exact (filing_serves Traceroute.ENTRY t_owner t_test Traceroute.columns s
      (mkTracerouteResult o n host hops rtt Active) o n Hf eq_refl eq_refl Ho Hn).
  - exact (filing_serves Traceroute.ENTRY t_owner t_test Traceroute.columns s
      (mkTracerouteResult o n host 0 0 Active) o n Hf eq_refl eq_refl Ho Hn).
Qed.

Theorem lookup_is_served {W} {C : Resolver W} o n host s w : filed l_owner l_test s → is_text o → is_text n →
  let '(s', _) := NsLookup.run o n host s w in
  let addrs := match (lookup_host (build_lookup_target host) w).1 with Some found => found.*1 | None => [] end in
  filed l_owner l_test s' ∧
  (∀ c, (get NsLookup.handler (NsLookup.ENTRY ++ c :: name_index o n) s').1 =
    NsLookup.columns (mkLookupResult o n host addrs Active) !! c) ∧
  ∀ r c, NsLookup.result (l_owner r) (l_test r) s = Some r → name_key (l_owner r) (l_test r) ≠ name_key o n →
    (get NsLookup.handler (NsLookup.ENTRY ++ c :: name_index (l_owner r) (l_test r)) s').1 =
    (get NsLookup.handler (NsLookup.ENTRY ++ c :: name_index (l_owner r) (l_test r)) s).1.
Proof.
  intros Hf Ho Hn. unfold NsLookup.run, sbind.
  destruct (lookup_host (build_lookup_target host) w) as [[found|] w']; cbn [sret fst];
    by apply (filing_serves NsLookup.ENTRY l_owner l_test NsLookup.columns s _ o n).
Qed.

(** * What is read in the output *)

Lemma round_u32_range x : is_u32 (round_u32 x).
Proof.
  unfold is_u32, round_u32, u32_max. change (2 ^ 32) with 4294967296. destruct x as [s|s| |s m e]; [lia|destruct s; lia|lia|].
  destruct s; [lia|]. unfold round_half. destruct (Z.leb_spec 0 e) as [He|He].
  - assert (0 <= Z.shiftl (Zpos m) e) by (apply Z.shiftl_nonneg; lia). lia.
  - assert (0 <= (Zpos m * 2 + 2 ^ (- e)) / 2 ^ (- e + 1)); [|lia].
    apply Z.div_pos; [|apply Z.pow_pos_nonneg; lia]. pose proof (Z.pow_nonneg 2 (- e)). lia.
Qed.

Lemma numbers_range l : Forall is_u32 (numbers l).
Proof.
  apply Forall_forall. intros n (p & _ & H)%list_elem_of_omap.
  pose proof (parse_unsigned_range _ _ _ H). pose proof (parse_unsigned_nonneg _ _ _ H). unfold is_u32, u32_max in *. lia.
Qed.

Lemma numbers_default l n (k : list Z → option Z) : (∀ x, k (numbers l) = Some x → x ∈ numbers l) → is_u32 n →
  is_u32 (default n (k (numbers l))).
Proof.
  intros Hk Hn. destruct (k (numbers l)) as [x|]; [|done]. cbn. pose proof (numbers_range l) as F.
  rewrite Forall_forall in F. by apply F, Hk.
Qed.

(** Every output is read as three numbers of 32 bits. *)
Theorem ping_output_bounded output : let '(sent, received, rtt) := parse_ping_output output in
  is_u32 sent ∧ is_u32 received ∧ is_u32 rtt.
Proof.
  unfold parse_ping_output.
  assert (H : ∀ ls sent received rtt, is_u32 sent → is_u32 received → is_u32 rtt →
    let '(sent, received, rtt) := fold_left ping_line ls (sent, received, rtt) in is_u32 sent ∧ is_u32 received ∧ is_u32 rtt).
  { intros ls. induction ls as [|l ls IH]; intros sent received rtt Hs Hr Ht; cbn [fold_left]; [done|].
    unfold ping_line at 2.
    assert (Hrtt : is_u32 (if contains (str "rtt") (trim l) || contains (str "round-trip") (trim l) then
      match split_once 61 (trim l) with
      | Some (_, tail) => match parse_float (span is_decimal (trim tail)).1 with Some v => thousandfold v | None => rtt end
      | None => rtt end else rtt)).
    { destruct (_ || _); [|done]. destruct (split_once _ _) as [[? tail]|]; [|done].
      destruct (parse_float _); [apply round_u32_range|done]. }
    destruct (contains (str "packets transmitted") (trim l)); [|by apply IH].
    apply IH; [| |done].
    - apply numbers_default; [|done]. intros x. apply head_Some_elem_of.
    - apply numbers_default; [|done]. intros x Hx. apply list_elem_of_In. by apply nth_error_In in Hx. }
  apply H; unfold is_u32; lia.
Qed.

(** ** The summary of a ping *)

Lemma trim_start_matches_stop p x c y : p c = false → trim_start_matches p (x ++ c :: y) = trim_start_matches p x ++ c :: y.
Proof. intros Hc. induction x as [|d x IH]; cbn; [by rewrite Hc|]. by destruct (p d). Qed.

Lemma trim_end_solid x c y : is_whitespace c = false → trim_end (x ++ c :: y) = x ++ c :: trim_end y.
Proof.
  intros Hc. unfold trim_end, trim_start. rewrite rev_app_distr. cbn [rev]. rewrite <- app_assoc. cbn [app].
  rewrite trim_start_matches_stop by done. rewrite rev_app_distr. cbn [rev]. by rewrite rev_involutive, <- app_assoc.
Qed.

Lemma trim_keeps c x d y : is_whitespace c = false → is_whitespace d = false →
  trim (c :: x ++ d :: y) = c :: x ++ d :: trim_end y.
Proof.
  intros Hc Hd. unfold trim, trim_start. cbn [trim_start_matches]. rewrite Hc.
  change (c :: x ++ d :: y) with ((c :: x) ++ d :: y). by rewrite trim_end_solid.
Qed.

Lemma digit_solid c : is_ascii_digit c = true → is_whitespace c = false.
Proof.
  unfold is_ascii_digit, is_whitespace. intros H. apply andb_true_iff in H as [H1%Z.leb_le H2%Z.leb_le].
  repeat match goal with |- context [?a =? ?b] => destruct (Z.eqb_spec a b); [lia|] end.
  repeat match goal with |- context [?a <=? ?b] => destruct (Z.leb_spec a b) end; try lia; done.
Qed.

Lemma split_digits_run w x s : Forall (λ c, is_ascii_digit c = true) w → is_ascii_digit x = false →
  split_digits (w ++ x :: s) = w :: split_digits s.
Proof.
  intros Hw Hx. induction Hw as [|c w Hc _ IH]; cbn [app split_digits]; [by rewrite Hx|]. by rewrite Hc, IH.
Qed.

Lemma numbers_run n x s : is_u32 n → is_ascii_digit x = false → numbers (show_u n ++ x :: s) = n :: numbers s.
Proof.
  intros Hn Hx. unfold is_u32 in Hn. destruct (show_u_correct n) as (_ & Hd & _); [lia|].
  unfold numbers. rewrite split_digits_run by done. cbn [omap list_omap].
  rewrite parse_unsigned_show by (unfold u32_max; lia). done.
Qed.

Lemma numbers_skip w s : Forall (λ c, is_ascii_digit c = false) w → numbers (w ++ s) = numbers s.
Proof.
  intros Hw. unfold numbers. induction Hw as [|c w Hc _ IH]; [done|]. cbn [app split_digits]. rewrite Hc. exact IH.
Qed.

Definition no_summary (line : text) : Prop :=
  contains (str "packets transmitted") (trim line) = false ∧ contains (str "rtt") (trim line) = false ∧
  contains (str "round-trip") (trim line) = false.

Lemma quiet_lines ls st : Forall no_summary ls → fold_left ping_line ls st = st.
Proof.
  intros F. revert st. induction F as [|l ls (H1 & H2 & H3) _ IH]; intros st; [done|]. cbn [fold_left].
  destruct st as [[sent received] rtt]. unfold ping_line at 2. by rewrite H1, H2, H3, IH.
Qed.

(** What [iputils] prints: the counts, then the times. *)
Definition count_line (sent received : Z) (rest : text) : text :=
  show_u sent ++ str " packets transmitted, " ++ show_u received ++ str " received" ++ rest.
Definition time_line (whole frac rest : text) : text :=
  str "rtt min/avg/max/mdev = " ++ whole ++ 46 :: frac ++ 47 :: rest.

Definition digits (s : text) : Prop := Forall (λ c, is_ascii_digit c = true) s.

Lemma digit_cases d : is_ascii_digit d = true → d ∈ [48; 49; 50; 51; 52; 53; 54; 55; 56; 57].
Proof.
  unfold is_ascii_digit. intros H. apply andb_true_iff in H as [H1%Z.leb_le H2%Z.leb_le].
  rewrite !elem_of_cons. lia.
Qed.

Lemma parse_float_digit d s : is_ascii_digit d = true → parse_float (d :: s) = parse_number (d :: s).
Proof.
  intros Hd%digit_cases. rewrite !elem_of_cons in Hd.
  assert (E : ∀ c, c ∈ [48; 49; 50; 51; 52; 53; 54; 55; 56; 57] → parse_unsigned_f64 (c :: s) = parse_number (c :: s)).
  { intros c Hc. unfold parse_unsigned_f64, to_ascii_lowercase. cbn [map].
    rewrite !elem_of_cons in Hc. repeat destruct Hc as [->|Hc]; [repeat case_bool_decide; done..|by apply elem_of_nil in Hc]. }
  repeat destruct Hd as [->|Hd]; [apply E; rewrite !elem_of_cons; tauto..|by apply elem_of_nil in Hd].
Qed.

Lemma span_all p a : Forall (λ c, p c = true) a → span p a = (a, []).
Proof. intros H. induction H as [|c a Hc _ IH]; cbn; [done|]. by rewrite Hc, IH. Qed.

Lemma span_until p a c b : Forall (λ c, p c = true) a → p c = false → span p (a ++ c :: b) = (a, c :: b).
Proof. intros H Hn. induction H as [|d a Hd _ IH]; cbn; [by rewrite Hn|]. by rewrite Hd, IH. Qed.

Lemma parse_float_decimal whole frac : digits whole → digits frac → whole ≠ [] →
  parse_float (whole ++ 46 :: frac) = Some (f64_scaled (dec_value (whole ++ frac)) (- Z.of_nat (length frac))).
Proof.
  intros Hw Hf Hn. destruct whole as [|d whole]; [done|]. cbn [app].
  rewrite parse_float_digit by (by apply Forall_cons in Hw as [? _]).
  unfold parse_number. change (d :: whole ++ 46 :: frac) with ((d :: whole) ++ 46 :: frac).
  rewrite span_until by done. rewrite span_all by done. done.
Qed.

Lemma trim_count_line sent received rest : is_u32 sent → ∃ rest', trim (count_line sent received rest) =
  show_u sent ++ 32 :: str "packets transmitted" ++ str ", " ++ show_u received ++ 32 :: str "received" ++ rest'.
Proof.
  intros Hs. unfold is_u32 in Hs. destruct (show_u_correct sent) as (_ & Hd & Hne); [lia|].
  unfold count_line. destruct (show_u sent) as [|c s]; [done|]. apply Forall_cons in Hd as [Hc _]. exists (trim_end rest).
  assert (E : ∀ y, (c :: s) ++ str " packets transmitted, " ++ show_u received ++ str " received" ++ y =
    c :: (s ++ 32 :: str "packets transmitted" ++ str ", " ++ show_u received ++ 32 :: str "receive") ++ 100 :: y).
  { intros y. change (str " packets transmitted, ") with (32 :: str "packets transmitted" ++ str ", ").
    change (str " received" ++ y) with (32 :: str "receive" ++ 100 :: y).
    generalize (str "packets transmitted") (str ", ") (show_u received) (str "receive"). intros p q r u.
    cbn [app]. f_equal. rewrite <- !app_assoc. cbn [app]. by rewrite <- !app_assoc. }
  rewrite E, (trim_keeps c _ 100), <- E; [|apply digit_solid; done|reflexivity].
  change (str " packets transmitted, ") with (32 :: str "packets transmitted" ++ str ", "). cbn [app]. by rewrite <- !app_assoc.
Qed.

Lemma trim_time_line whole frac rest : ∃ rest', trim (time_line whole frac rest) =
  str "rtt min/avg/max/mdev " ++ 61 :: 32 :: whole ++ 46 :: frac ++ 47 :: rest'.
Proof.
  exists (trim_end rest). unfold time_line.
  change (str "rtt min/avg/max/mdev = " ++ ?x) with (114 :: str "tt min/avg/max/mdev " ++ 61 :: 32 :: x).
  change (str "rtt min/avg/max/mdev " ++ ?x) with (114 :: str "tt min/avg/max/mdev " ++ x).
  generalize (str "tt min/avg/max/mdev "). intros p.
  assert (E : ∀ y, 114 :: p ++ 61 :: 32 :: whole ++ 46 :: frac ++ 47 :: y =
    114 :: (p ++ 61 :: 32 :: whole ++ 46 :: frac) ++ 47 :: y).
  { intros y. f_equal. rewrite <- app_assoc. cbn [app]. by rewrite <- app_assoc. }
  rewrite E, trim_keeps by done. by rewrite <- E.
Qed.

(** The summary that [ping] prints is read as it was meant, up to the unit: the
    counts, and the first of the times, which is the smallest, in thousandths of
    what is printed. *)
Theorem ping_summary_read output before sent received rest whole frac rest' :
  lines output = before ++ [count_line sent received rest; time_line whole frac rest'] →
  Forall no_summary before → is_u32 sent → is_u32 received → digits whole → digits frac → whole ≠ [] →
  contains (str "rtt") (trim (count_line sent received rest)) = false →
  contains (str "round-trip") (trim (count_line sent received rest)) = false →
  contains (str "packets transmitted") (trim (time_line whole frac rest')) = false →
  parse_ping_output output =
    (sent, received, thousandfold (f64_scaled (dec_value (whole ++ frac)) (- Z.of_nat (length frac)))).
Proof.
  intros El Hb Hs Hr Hw Hf Hn H1 H2 H3. unfold parse_ping_output. rewrite El, fold_left_app, (quiet_lines before) by done.
  cbn [fold_left]. unfold ping_line at 2. rewrite H1, H2. cbn [orb].
  destruct (trim_count_line sent received rest Hs) as [rest1 ->]. destruct (trim_time_line whole frac rest') as [rest2 Et].
  assert (Ec : contains (str "packets transmitted")
    (show_u sent ++ 32 :: str "packets transmitted" ++ str ", " ++ show_u received ++ 32 :: str "received" ++ rest1) = true).
  { change (show_u sent ++ 32 :: ?x) with (show_u sent ++ [32] ++ x); rewrite (app_assoc (show_u sent) [32]). apply contains_app. }
  assert (En : numbers (show_u sent ++ 32 :: str "packets transmitted" ++ str ", " ++ show_u received ++ 32 :: str "received" ++ rest1) =
    sent :: received :: numbers (str "received" ++ rest1)).
  { rewrite numbers_run by done. f_equal. rewrite (app_assoc (str "packets transmitted")).
    rewrite numbers_skip by (repeat (constructor; [done|]); constructor). by rewrite numbers_run. }
  rewrite Ec, En. cbn [head default second nth_error]. unfold ping_line. rewrite H3, Et.
  assert (Er : contains (str "rtt") (str "rtt min/avg/max/mdev " ++ 61 :: 32 :: whole ++ 46 :: frac ++ 47 :: rest2) = true)
    by apply (contains_app (str "rtt") [] (str " min/avg/max/mdev " ++ 61 :: 32 :: whole ++ 46 :: frac ++ 47 :: rest2)).
  rewrite Er. cbn [orb]. rewrite split_once_app by (repeat (constructor; [done|]); constructor).
  assert (Ew : trim (32 :: whole ++ 46 :: frac ++ 47 :: rest2) = whole ++ 46 :: frac ++ 47 :: trim_end rest2).
  { destruct whole as [|d whole]; [done|]. apply Forall_cons in Hw as [Hd _].
    unfold trim, trim_start. cbn [trim_start_matches app]. change (is_whitespace 32) with true. cbn [trim_start_matches].
    rewrite (digit_solid d Hd).
    change (d :: whole ++ 46 :: frac ++ 47 :: rest2) with ((d :: whole) ++ 46 :: frac ++ 47 :: rest2).
    assert (E : ∀ y, (d :: whole) ++ 46 :: frac ++ 47 :: y = ((d :: whole) ++ 46 :: frac) ++ 47 :: y)
      by (intros y; by rewrite <- app_assoc).
    by rewrite E, trim_end_solid, <- E. }
  rewrite Ew.
  assert (Es : span is_decimal (whole ++ 46 :: frac ++ 47 :: trim_end rest2) = (whole ++ 46 :: frac, 47 :: trim_end rest2)).
  { change (46 :: frac ++ 47 :: trim_end rest2) with ((46 :: frac) ++ 47 :: trim_end rest2). rewrite app_assoc.
    apply span_until; [|done]. apply Forall_app. split; [|apply Forall_cons; split; [done|]];
      (eapply Forall_impl; [eassumption|]; intros c Hc; unfold is_decimal; by rewrite Hc). }
  rewrite Es. cbn [fst]. by rewrite parse_float_decimal.
Qed.

(** ** Examples *)

(** What the program's tests feed it. *)
Definition NEWLINE : text := [10].

Definition ping_body : text :=
  str "PING 127.0.0.1 (127.0.0.1) 56(84) bytes of data." ++ NEWLINE ++
  str "--- 127.0.0.1 ping statistics ---" ++ NEWLINE ++
  str "4 packets transmitted, 4 received, 0% packet loss, time 3001ms" ++ NEWLINE ++
  str "rtt min/avg/max/mdev = 0.023/0.030/0.040/0.005 ms" ++ NEWLINE.

Lemma ping_summary_read_witness : parse_ping_output ping_body = (4, 4, 23).
Proof.
  rewrite (ping_summary_read ping_body
    [str "PING 127.0.0.1 (127.0.0.1) 56(84) bytes of data."; str "--- 127.0.0.1 ping statistics ---"] 4 4
    (str ", 0% packet loss, time 3001ms") (str "0") (str "023") (str "0.030/0.040/0.005 ms")).
  - vm_compute. reflexivity.
  - vm_compute. reflexivity.
  - repeat (constructor; [by vm_compute|]). constructor.
  - unfold is_u32. lia.
  - unfold is_u32. lia.
  - repeat (constructor; [reflexivity|]). constructor.
  - repeat (constructor; [reflexivity|]). constructor.
  - discriminate.
  - vm_compute. reflexivity.
  - vm_compute. reflexivity.
  - vm_compute. reflexivity.
Defined.

(** The time, documented as milliseconds, is in microseconds; and it is the
    smallest of those seen, not the last. *)
Example rtt_is_in_microseconds :
  parse_ping_output (str "rtt min/avg/max/mdev = 12.5/20.0/31.0/4.2 ms") = (0, 0, 12500).
Proof. by vm_compute. Qed.

(** A hop that does not answer ends the route with the time of an earlier hop. *)
Example silent_hop_keeps_the_time :
  parse_traceroute_output (str " 1  192.168.1.1 (192.168.1.1)  0.423 ms" ++ NEWLINE ++ str " 2  * * *") = (2, 423).
Proof. by vm_compute. Qed.

(** The first token of a hop that reads as a number is taken for its time, and
    the name of a host may be one. *)
Example infinite_hop :
  parse_traceroute_output (str " 1  infinity (10.0.0.1)  0.423 ms") = (1, u32_max).
Proof. by vm_compute. Qed.

Example printed_addresses :
  show_ipv6 [8193; 3512; 0; 0; 1; 0; 0; 1] = str "2001:db8::1:0:0:1" ∧ show_ipv6 [0; 0; 0; 0; 0; 0; 0; 1] = str "::1" ∧
  show_ipv6 [0; 0; 0; 0; 0; 0; 0; 0] = str "::" ∧ show_ipv6 [0; 0; 0; 0; 0; 65535; 49320; 257] = str "::ffff:192.168.1.1" ∧
  show_ipv6 [65152; 0; 0; 0; 0; 1; 0; 2] = str "fe80::1:0:2" ∧ show_ipv6 [1; 0; 2; 3; 4; 5; 6; 7] = str "1:0:2:3:4:5:6:7".
Proof. by vm_compute. Qed.

Example lookup_targets :
  build_lookup_target (str "localhost") = str "localhost:0" ∧ build_lookup_target (str "localhost:80") = str "localhost:80" ∧
  build_lookup_target (str "::1") = str "::1".
Proof. by vm_compute. Qed.
