(* ===== verification/Walk.v ===== *)
(** * The tools' client and its tables ([client.rs] and [table.rs] of
    [crates/netsnmp-apps/src/])

    One client over both kinds of session, the walks by GETNEXT and by GETBULK,
    and the tables put together from what a walk brings. The walks are proved
    against any peer, and against the interfaces [NextServer] and [BulkServer],
    which the sessions with the agent of [Manager] implement. *)

From Stdlib Require Import ZArith Lia.
From S2P Require Import Prelude MachineInts Text Oid Value Pdu Cells Handler Vacm Registry Serving.
From S2P Require Import Wire Usm V3 Agent Session Manager Settings.
From S2P Require Mib SmiDefs.

Local Open Scope list_scope.

(** * [client.rs] *)

Module Client.

(** The session with its settings. *)
Inductive t (W : Type) :=
| Community (c : SessionConfig) (s : Session.Client W)
| V3 (user : UsmUser) (timeout retries : Z) (s : V3State W).
Arguments Community {W}.
Arguments V3 {W}.

Section Client.
Context {R : RasnV3} {C : Crypto} {W : Type} {T : Transport W} (nanos : Z).

(** The [match] of every method. *)
Definition dispatch {A} (f : SessionConfig → St (Session.Client W) A) (g : UsmUser → Z → Z → St (V3State W) A)
    : St (t W) A := fun cl =>
  match cl with
  | Community c s => let '(x, s) := f c s in (x, Community c s)
  | V3 u timeout retries s => let '(x, s) := g u timeout retries s in (x, V3 u timeout retries s)
  end.

Definition get (oids : list Oid) : St (t W) (result (list VarBind) Error) :=
  dispatch (fun c => Session.get c nanos oids) (fun u tm rt => v3_get u tm rt nanos oids).

Definition get_next (oids : list Oid) : St (t W) (result (list VarBind) Error) :=
  dispatch (fun c => Session.get_next c nanos oids) (fun u tm rt => v3_get_next u tm rt nanos oids).

Definition set (bindings : list VarBind) : St (t W) (result (list VarBind) Error) :=
  dispatch (fun c => Session.set c nanos bindings) (fun u tm rt => v3_set u tm rt nanos bindings).

Definition get_bulk (non_repeaters max_repetitions : Z) (oids : list Oid) : St (t W) (result (list VarBind) Error) :=
  dispatch (fun c => Session.get_bulk c nanos non_repeaters max_repetitions oids)
    (fun u tm rt => v3_get_bulk u tm rt nanos non_repeaters max_repetitions oids).

Definition engine_id (cl : t W) : option bytes :=
  match cl with
  | Community _ _ => None
  | V3 _ _ _ s => Some (V3.engine_id (v_engine s))
  end.

Definition supports_bulk (cl : t W) : bool :=
  match cl with
  | Community c _ => negb (bool_decide (s_version c = V1))
  | V3 _ _ _ _ => true
  end.

Definition send_trap (uptime : Z) (oid : Oid) (vbs : list VarBind) : St (t W) (result unit Error) :=
  dispatch (fun c => Session.send_trap c nanos uptime oid vbs) (fun u _ _ => v3_send_trap u nanos uptime oid vbs).

Definition send_trap_v1 (ent : Oid) (addr : Ipv4Addr) (generic specific uptime : Z) (vbs : list VarBind)
    : St (t W) (result unit Error) :=
  dispatch (fun c => Session.send_trap_v1 c ent addr generic specific uptime vbs) (fun _ _ _ => sret (Err EProtocol)).

Definition send_inform (uptime : Z) (oid : Oid) (vbs : list VarBind) : St (t W) (result Pdu Error) :=
  dispatch (fun c => Session.send_inform c nanos uptime oid vbs) (fun u tm rt => v3_send_inform u tm rt nanos uptime oid vbs).

(** The closure [on] takes the state [A] it captures from one binding to the
    next. *)
Section Each.
Context {A : Type} (on : VarBind → A → A).

(** The loop of [walk_each]; [None] is a peer that has not let it end within
    [fuel] turns. *)
Fixpoint walk_loop (fuel : nat) (root current : Oid) (count : Z) (a : A) : St (t W) (option (result Z Error * A)) :=
  match fuel with
  | O => sret None
  | S fuel' =>
      let* r := get_next [current] in
      match r with
      | Err e => sret (Some (Err e, a))
      | Ok [] => sret (Some (Ok count, a))
      | Ok (vb :: _) =>
          if walk_stops root current vb then sret (Some (Ok count, a))
          else walk_loop fuel' root (vb_oid vb) (count + 1) (on vb a)
      end
  end.

Definition walk_each (fuel : nat) (root : Oid) (a : A) : St (t W) (option (result Z Error * A)) :=
  walk_loop fuel root root 0 a.

(** What the [for] loop over one answer changes. *)
Record Batch := mkBatch { b_current : Oid; b_count : Z; b_progressed : bool; b_finished : bool; b_acc : A }.

Fixpoint take_batch (root : Oid) (vars : list VarBind) (current : Oid) (count : Z) (progressed : bool) (a : A) : Batch :=
  match vars with
  | [] => mkBatch current count progressed false a
  | vb :: vars' =>
      if walk_stops root current vb then mkBatch current count progressed true a
      else take_batch root vars' (vb_oid vb) (count + 1) true (on vb a)
  end.

Fixpoint bulk_loop (fuel : nat) (root : Oid) (max_reps : Z) (current : Oid) (count : Z) (a : A)
    : St (t W) (option (result Z Error * A)) :=
  match fuel with
  | O => sret None
  | S fuel' =>
      let* r := get_bulk 0 max_reps [current] in
      match r with
      | Err e => sret (Some (Err e, a))
      | Ok [] => sret (Some (Ok count, a))
      | Ok vars =>
          let b := take_batch root vars current count false a in
          if b_finished b || negb (b_progressed b) then sret (Some (Ok (b_count b), b_acc b))
          else bulk_loop fuel' root max_reps (b_current b) (b_count b) (b_acc b)
      end
  end.

Definition bulk_walk_each (fuel : nat) (root : Oid) (max_repetitions : Z) (a : A)
    : St (t W) (option (result Z Error * A)) := fun cl =>
  if negb (supports_bulk cl) then walk_each fuel root a cl
  else bulk_loop fuel root (Z.max max_repetitions 1) root 0 a cl.
End Each.

(** [on] pushes, and [?] drops what was pushed. *)
Definition collected (r : option (result Z Error * list VarBind)) : option (result (list VarBind) Error) :=
  (λ r, let? _ := r.1 in Ok r.2) <$> r.

Definition push (vb : VarBind) (out : list VarBind) : list VarBind := out ++ [vb].

Definition walk (fuel : nat) (root : Oid) : St (t W) (option (result (list VarBind) Error)) :=
  let* r := walk_each push fuel root [] in sret (collected r).

Definition bulk_walk (fuel : nat) (root : Oid) (max_repetitions : Z)
    : St (t W) (option (result (list VarBind) Error)) :=
  let* r := bulk_walk_each push fuel root max_repetitions [] in sret (collected r).
End Client.

Definition notifier_engine : EngineParams :=
  mkEngine [128; 0; 31; 136; 4; 114; 115; 110; 116] 1 0.

(** The sockets: what dialling an address yields is the environment's. *)
Section Connect.
Context {R : RasnV3} {C : Crypto} {W : Type} {T : Transport W} (nanos : Z).
Context (dial : text → result (Session.Client W) Error).

Definition open_v3 (u : UsmUser) (timeout retries : Z) (s : Session.Client W) : result (t W) Error :=
  let '(r, s) := v3_open timeout nanos s in
  let? _ := r in Ok (V3 u timeout retries s).

Definition connect (args : CommonArgs) : result (t W) Error :=
  let c := session_config args in
  let? s := dial (agent args) in
  match v3_user args with
  | Some u => open_v3 u (s_timeout c) (s_retries c) s
  | None => Ok (Community c s)
  end.

Definition connect_notifier (raw_agent : text) (args : CommonArgs) (confirmed : bool) : result (t W) Error :=
  let c := session_config args in
  let? s := dial (normalize_agent_port raw_agent TRAP_PORT) in
  match v3_user args with
  | Some u =>
      if confirmed then open_v3 u (s_timeout c) (s_retries c) s
      else Ok (V3 u (s_timeout c) (s_retries c) (v3_session s notifier_engine))
  | None => Ok (Community c s)
  end.
End Connect.
End Client.

(** * [table.rs] *)

Definition index_suffix (prefix oid : Oid) : option (list Z) :=
  if negb (Oid.is_prefix_of prefix oid) then None else Some (drop (length prefix) oid).

Definition cell_oid (entry : Oid) (column : Z) (index : list Z) : Oid := (entry ++ [column]) ++ index.

Definition value_as_i128 (v : Value) : option Z :=
  match v with
  | VInteger n | VCounter32 n | VGauge32 n | VTimeTicks n | VCounter64 n => Some n
  | _ => None
  end.

Module TableData.

(** A [BTreeMap] is a map, a [BTreeSet] here the set whose elements [columns]
    lists in order. *)
Record t := mk { entry : Oid; columns : list Z; rows : gmap (list Z) (gmap Z Value) }.

Definition is_empty (d : t) : bool := bool_decide (rows d = ∅).
End TableData.

(** One turn of the loop of [fetch_table]. *)
Definition add_cell (entry : Oid) (d : gset Z * gmap (list Z) (gmap Z Value)) (vb : VarBind)
    : gset Z * gmap (list Z) (gmap Z Value) :=
  match index_suffix entry (vb_oid vb) with
  | Some (column :: index) =>
      ({[column]} ∪ d.1, <[index := <[column := vb_value vb]> (default ∅ (d.2 !! index))]> d.2)
  | _ => d
  end.

Definition table_of (entry : Oid) (vars : list VarBind) : TableData.t :=
  let d := fold_left (add_cell entry) vars (∅, ∅) in
  TableData.mk entry (merge_sort Z.le (elements d.1)) d.2.

Definition fetch_table {R : RasnV3} {C : Crypto} {W : Type} {T : Transport W} (nanos : Z) (fuel : nat) (entry : Oid)
    (max_repetitions : Z) : St (Client.t W) (option (result TableData.t Error)) :=
  let* r := Client.bulk_walk nanos fuel entry max_repetitions in
  sret ((λ r, let? vars := r in Ok (table_of entry vars)) <$> r).

(** The text after the last [p], which [rsplit(p)] yields first. *)
Fixpoint after_last (p s : text) : option text :=
  match s with
  | [] => None
  | _ :: s' => match after_last p s' with Some r => Some r | None => strip_prefix p s end
  end.

Definition is_ascii_alphabetic (c : Z) : bool := ((65 <=? c) && (c <=? 90)) || ((97 <=? c) && (c <=? 122)).

Definition column_label (mib : Mib.MibRegistry) (entry : Oid) (column : Z) : text :=
  let formatted := Mib.format_oid mib (entry ++ [column]) in
  let leaf := trim_start_matches (fun c => c =? 46) (default formatted (after_last (str "::") formatted)) in
  match leaf with
  | c :: _ => if is_ascii_alphabetic c then default leaf (head (split 46 leaf)) else show_u column
  | [] => show_u column
  end.

Definition index_label (index : list Z) : text := SmiDefs.join (str ".") (show_u <$> index).

Definition cell_display (mib : Mib.MibRegistry) (entry : Oid) (column : Z) (index : list Z) (v : Value) : text :=
  Mib.format_value mib (cell_oid entry column index) v.

(** [render_grid]. [String::len] counts octets, the padding of [format!]
    characters. *)
Definition octets_of (s : text) : nat := length (as_bytes s).

Fixpoint widen (widths : list nat) (row : list text) : list nat :=
  match widths, row with
  | w :: ws, cell :: row' => (if (w <? octets_of cell)%nat then octets_of cell else w) :: widen ws row'
  | _, _ => widths
  end.

Definition grid_widths (header : list text) (rows : list (list text)) : list nat :=
  fold_left widen rows (octets_of <$> header).

Definition pad_right (w : nat) (s : text) : text := s ++ replicate (w - length s) 32.

Fixpoint format_cells (widths : list nat) (cells : list text) : text :=
  match widths with
  | [] => []
  | [_] => default [] (head cells)
  | w :: ws => pad_right w (default [] (head cells)) ++ [32; 32] ++ format_cells ws (tail cells)
  end.

Definition format_row (widths : list nat) (cells : list text) : text := trim_end (format_cells widths cells).

Definition render_grid (header : list text) (rows : list (list text)) : list text :=
  let widths := grid_widths header rows in
  format_row widths header :: (format_row widths <$> rows).

(** * What any peer can make of a walk *)

(** Bindings in the order of their OIDs, all of them data under the root. *)
Definition in_order (root : Oid) (vbs : list VarBind) : Prop :=
  StronglySorted Oid.lt (root :: (vb_oid <$> vbs)) ∧
  Forall (λ vb, Oid.is_prefix_of root (vb_oid vb) = true ∧ is_exception (vb_value vb) = false) vbs.

(** The bindings of an answer up to the first at which a walk stops. *)
Fixpoint accepted (root current : Oid) (vars : list VarBind) : list VarBind :=
  match vars with
  | [] => []
  | vb :: vars' => if walk_stops root current vb then [] else vb :: accepted root (vb_oid vb) vars'
  end.

Definition last_of (current : Oid) (vbs : list VarBind) : Oid := default current (vb_oid <$> last vbs).

(** No binding stops a walk that has come to [current]. *)
Definition ascends (root current : Oid) (vbs : list VarBind) : Prop := accepted root current vbs = vbs.

Lemma last_of_cons current vb vbs : last_of current (vb :: vbs) = last_of (vb_oid vb) vbs.
Proof. unfold last_of. rewrite last_cons. by destruct (last vbs). Qed.

Lemma accepted_ascends root current vars : ascends root current (accepted root current vars).
Proof.
  unfold ascends. revert current. induction vars as [|vb vars IH]; intros current; [done|]. cbn.
  destruct (walk_stops root current vb) eqn:E; [done|]. cbn. by rewrite E, IH.
Qed.

Lemma ascends_cons root current vb vbs : walk_stops root current vb = false → ascends root (vb_oid vb) vbs →
  ascends root current (vb :: vbs).
Proof. unfold ascends. intros E H. cbn. by rewrite E, H. Qed.

Lemma ascends_app root current xs ys : ascends root current xs → ascends root (last_of current xs) ys →
  ascends root current (xs ++ ys).
Proof.
  unfold ascends. revert current. induction xs as [|x xs IH]; intros current; [done|]. cbn.
  destruct (walk_stops root current x); [done|]. intros [= H]. rewrite last_of_cons. intros K. by rewrite IH.
Qed.

Lemma walk_goes_on root current vb : walk_stops root current vb = false →
  Oid.is_prefix_of root (vb_oid vb) = true ∧ is_exception (vb_value vb) = false ∧ Oid.lt current (vb_oid vb).
Proof.
  unfold walk_stops. intros H. destruct (is_exception (vb_value vb)) eqn:E; [by destruct (vb_value vb)|].
  assert (negb (Oid.is_prefix_of root (vb_oid vb)) || Oid.leb (vb_oid vb) current = false) as [P L]%orb_false_iff
    by (by destruct (vb_value vb)).
  split_and!; [by apply negb_false_iff|done|]. by apply Oid.leb_gt.
Qed.

Lemma ascends_in_order root vbs : ascends root root vbs → in_order root vbs.
Proof.
  assert (G : ∀ current, ascends root current vbs → Sorted Oid.lt (current :: (vb_oid <$> vbs)) ∧
    Forall (λ vb, Oid.is_prefix_of root (vb_oid vb) = true ∧ is_exception (vb_value vb) = false) vbs).
  { unfold ascends. induction vbs as [|vb vbs IH]; intros current; [repeat constructor|]. cbn.
    destruct (walk_stops root current vb) eqn:E; [done|]. intros [= H].
    destruct (walk_goes_on _ _ _ E) as (P & X & L). destruct (IH (vb_oid vb) H) as [S F].
    split; [|by constructor]. constructor; [done|by constructor]. }
  intros H. destruct (G root H) as [S F]. split; [|done]. apply Sorted_StronglySorted; [|done].
  intros x y z. by transitivity y.
Qed.

Section AnyPeer.
Context {R : RasnV3} {C : Crypto} {W : Type} {T : Transport W} (nanos : Z).
Context {A : Type} (on : VarBind → A → A).

(** The closure called on each of [vbs] in turn. *)
Definition told (vbs : list VarBind) (a : A) : A := fold_left (λ a vb, on vb a) vbs a.

Lemma take_batch_accepts root vars current count progressed a :
  let vbs := accepted root current vars in
  Client.take_batch on root vars current count progressed a =
  Client.mkBatch (last_of current vbs) (count + Z.of_nat (length vbs)) (progressed || negb (bool_decide (vbs = [])))
    (length vbs <? length vars)%nat (told vbs a).
Proof.
  revert current count progressed a. induction vars as [|vb vars IH]; intros current count progressed a; cbn.
  - by rewrite Z.add_0_r, orb_false_r.
  - destruct (walk_stops root current vb); cbn; [by rewrite Z.add_0_r, orb_false_r|].
    rewrite IH, last_of_cons. f_equal; [lia|]. by rewrite orb_true_r.
Qed.

Lemma walk_loop_any fuel root current count a cl r a' cl' :
  Client.walk_loop nanos on fuel root current count a cl = (Some (r, a'), cl') →
  ∃ vbs, ascends root current vbs ∧ a' = told vbs a ∧ ∀ k, r = Ok k → k = count + Z.of_nat (length vbs).
Proof.
  revert current count a cl. induction fuel as [|fuel IH]; intros current count a cl; cbn -[Client.get_next]; [done|].
  unfold sbind. destruct (Client.get_next nanos [current] cl) as [[[|vb vars]|e] cl1]; cbn.
  - intros [= <- <- _]. exists []. split_and!; [done..|]. intros k [= <-]. cbn. lia.
  - destruct (walk_stops root current vb) eqn:E.
    + intros [= <- <- _]. exists []. split_and!; [done..|]. intros k [= <-]. cbn. lia.
    + intros (vbs & H1 & -> & H3)%IH. exists (vb :: vbs). split_and!; [by apply ascends_cons|done|].
      intros k Hk. rewrite (H3 k Hk). cbn. lia.
  - intros [= <- <- _]. by exists [].
Qed.

Lemma bulk_loop_any fuel root n current count a cl r a' cl' :
  Client.bulk_loop nanos on fuel root n current count a cl = (Some (r, a'), cl') →
  ∃ vbs, ascends root current vbs ∧ a' = told vbs a ∧ ∀ k, r = Ok k → k = count + Z.of_nat (length vbs).
Proof.
  revert current count a cl. induction fuel as [|fuel IH]; intros current count a cl; [done|].
  cbn -[Client.get_bulk Client.take_batch].
  unfold sbind. destruct (Client.get_bulk nanos 0 n [current] cl) as [[[|vb vars]|e] cl1]; cbn -[Client.take_batch].
  - intros [= <- <- _]. exists []. split_and!; [done..|]. intros k [= <-]. cbn. lia.
  - rewrite take_batch_accepts. cbv zeta. cbn [Client.b_finished Client.b_progressed Client.b_count Client.b_acc Client.b_current].
    pose proof (accepted_ascends root current (vb :: vars)) as H.
    set (vbs := accepted root current (vb :: vars)) in *. destruct (_ || negb _).
    + intros [= <- <- _]. exists vbs. split_and!; [done..|]. by intros k [= <-].
    + intros (ws & H1 & -> & H3)%IH. exists (vbs ++ ws). split_and!; [by apply ascends_app| |].
      * unfold told. by rewrite fold_left_app.
      * intros k Hk. rewrite (H3 k Hk), length_app. lia.
  - intros [= <- <- _]. by exists [].
Qed.

(** Against any peer, over any transport, what either walk passes on is in
    strictly ascending order under the root and data, up to the error if there
    is one, and the count is that of the bindings passed on. *)
Theorem walks_stay_in_order fuel root n a cl r a' cl' :
  Client.walk_each nanos on fuel root a cl = (Some (r, a'), cl') ∨
  Client.bulk_walk_each nanos on fuel root n a cl = (Some (r, a'), cl') →
  ∃ vbs, in_order root vbs ∧ a' = told vbs a ∧ ∀ k, r = Ok k → k = Z.of_nat (length vbs).
Proof.
  assert (Walk : Client.walk_each nanos on fuel root a cl = (Some (r, a'), cl') →
    ∃ vbs, in_order root vbs ∧ a' = told vbs a ∧ ∀ k, r = Ok k → k = Z.of_nat (length vbs)).
  { intros (vbs & H1 & H2 & H3)%walk_loop_any. exists vbs. split_and!; [by apply ascends_in_order|done|done]. }
  intros [H|H]; [by apply Walk|]. unfold Client.bulk_walk_each in H.
  destruct (negb (Client.supports_bulk cl)); [by apply Walk|].
  apply bulk_loop_any in H as (vbs & H1 & H2 & H3). exists vbs. split_and!; [by apply ascends_in_order|done|done].
Qed.
End AnyPeer.

(** * Walks of a server *)

(** What a walk by GETBULK relies on: one OID is answered with up to as many
    successors as asked for. *)
Class BulkServer {S} (getbulk : Z → Z → list Oid → St S (result (list VarBind) Error)) (ok : S → Prop)
    (askable : Oid → Prop) (allowed : Oid → bool) (cs : cells) : Prop := {
  bs_bulk s n o : ok s → askable o → 1 <= n <= u32_max →
    ∃ s', getbulk 0 n [o] s = (Ok (rows_of (visible_next allowed cs) (Z.to_nat n) [o]), s') ∧ ok s';
}.

(** A client that can be walked: by GETNEXT, and by GETBULK where it says so. *)
Class Walkable {R : RasnV3} {C : Crypto} {W} {T : Transport W} (nanos : Z) (ok : Client.t W → Prop) (bulk : bool)
    (askable : Oid → Prop) (allowed : Oid → bool) (cs : cells) : Prop := {
  wk_next :: NextServer (Client.get_next nanos) ok askable allowed cs;
  wk_supports cl : ok cl → Client.supports_bulk cl = bulk;
  wk_bulk : bulk = true → BulkServer (Client.get_bulk nanos) ok askable allowed cs;
}.

(** One answer to a GETBULK of [current]: what is accepted of it is the
    beginning of what is left, and all of that when something is refused. *)
Lemma batch_step allowed cs askable root n current (next := visible_next allowed cs)
    (vars := rows_of next n [current]) (vbs := accepted root current vars) :
  strictly_sorted cs → (∀ c, c ∈ cs → allowed c.1 = true → askable c.1 ∧ is_exception c.2 = false) →
  askable current → Oid.is_prefix_of root current = true →
  subtree_after allowed cs root current =
    vbs ++ (if (length vbs <? length vars)%nat then [] else subtree_after allowed cs root (last_of current vbs)) ∧
  askable (last_of current vbs) ∧ Oid.is_prefix_of root (last_of current vbs) = true ∧
  (vbs = [] → (0 < n)%nat → (length vbs <? length vars)%nat = true).
Proof.
  intros HS Hc. subst vars vbs. revert current. induction n as [|n IH]; intros current Ha Hp.
  { cbn. split_and!; [done|done|done|lia]. }
  pose proof (subtree_step allowed cs root current HS (λ c Hin Hv, proj2 (Hc c Hin Hv)) Hp) as H. cbv zeta in H.
  fold next in H. cbn [rows_of fmap list_fmap forallb app accepted]. destruct (walk_stops root current (next current)) eqn:E.
  - rewrite H. cbn. split_and!; done.
  - destruct H as (H & Hp' & Hin & Hv). destruct (walk_goes_on _ _ _ E) as (_ & X & _).
    assert (is_end_vb (next current) = false) as ->.
    { apply bool_decide_eq_false_2. intros V. by rewrite V in X. }
    cbn [andb]. rewrite last_of_cons, H. destruct (IH (vb_oid (next current))) as (I1 & I2 & I3 & _);
      [exact (proj1 (Hc _ Hin Hv))|exact Hp'|]. cbn [length app Nat.ltb Nat.leb] in *.
    split_and!; [by rewrite I1 at 1|done|done|done].
Qed.

Section Gather.
Context {R : RasnV3} {C : Crypto} {W : Type} {T : Transport W} (nanos : Z).
Context {ok : Client.t W → Prop} {bulk : bool} {askable : Oid → Prop} {allowed : Oid → bool} {cs : cells}.
Context {K : Walkable nanos ok bulk askable allowed cs}.
Context {A : Type} (on : VarBind → A → A).

Abbreviation rest_of := (subtree_after allowed cs).

Lemma walk_loop_gathers root fuel current count a cl :
  ok cl → askable current → Oid.is_prefix_of root current = true → (length (rest_of root current) < fuel)%nat →
  ∃ cl', Client.walk_loop nanos on fuel root current count a cl =
    (Some (Ok (count + Z.of_nat (length (rest_of root current))), told on (rest_of root current) a), cl') ∧ ok cl'.
Proof using K.
  revert current count a cl. induction fuel as [|fuel IH]; intros current count a cl Hs Ha Hp Hl; [lia|].
  destruct (next_turn root current cl Hs Ha Hp) as (vb & s1 & E & Hs1 & H).
  cbn -[Client.get_next]. unfold sbind. rewrite E. cbn. destruct (walk_stops root current vb).
  - exists s1. by rewrite H, Z.add_0_r.
  - destruct H as (H & Ha' & Hp'). rewrite H in Hl |- *. cbn in Hl.
    destruct (IH (vb_oid vb) (count + 1) (on vb a) s1 Hs1 Ha' Hp') as (s2 & -> & Hs2); [lia|].
    exists s2. split; [|done]. cbn [length told fold_left]. do 4 f_equal. lia.
Qed.

Lemma bulk_loop_gathers root n fuel current count a cl : bulk = true → 1 <= n <= u32_max →
  ok cl → askable current → Oid.is_prefix_of root current = true → (length (rest_of root current) < fuel)%nat →
  ∃ cl', Client.bulk_loop nanos on fuel root n current count a cl =
    (Some (Ok (count + Z.of_nat (length (rest_of root current))), told on (rest_of root current) a), cl') ∧ ok cl'.
Proof using K.
  intros Hb Hn. revert current count a cl. induction fuel as [|fuel IH]; intros current count a cl Hs Ha Hp Hl; [lia|].
  destruct (bs_bulk (BulkServer:=wk_bulk Hb) cl n current Hs Ha Hn) as (s1 & E & Hs1).
  pose proof (wk_next (Walkable:=K)) as N.
  destruct (batch_step allowed cs askable root (Z.to_nat n) current ns_sorted ns_cells Ha Hp) as (B1 & B2 & B3 & B4).
  cbn -[Client.get_bulk Client.take_batch rows_of]. unfold sbind. rewrite E.
  destruct (rows_of _ (Z.to_nat n) [current]) as [|vb vars] eqn:Er.
  { destruct (Z.to_nat n) eqn:En; [lia|]. cbn in Er. done. }
  rewrite take_batch_accepts. cbv zeta. cbn [Client.b_finished Client.b_progressed Client.b_count Client.b_acc Client.b_current].
  set (vbs := accepted root current (vb :: vars)) in *.
  destruct (length vbs <? length (vb :: vars))%nat eqn:F; cbn [orb].
  - exists s1. rewrite app_nil_r in B1. by rewrite B1.
  - assert (Hne : vbs ≠ []) by (intros V; specialize (B4 V ltac:(lia)); congruence).
    rewrite (bool_decide_eq_false_2 _ Hne). cbn [negb orb]. rewrite B1, length_app in Hl.
    assert (0 < length vbs)%nat by (destruct vbs; cbn; [done|lia]).
    destruct (IH (last_of current vbs) (count + Z.of_nat (length vbs)) (told on vbs a) s1 Hs1 B2 B3) as (s2 & -> & Hs2); [lia|].
    exists s2. split; [|done]. rewrite B1, length_app. do 3 f_equal; [f_equal; lia|]. unfold told. by rewrite fold_left_app.
Qed.

(** Both walks pass on the cells under the root that may be read, in order,
    whatever the number of repetitions. *)
Theorem walks_gather root n fuel a cl : ok cl → askable root → n <= u32_max →
  let vbs := subtree allowed cs root in
  (length vbs < fuel)%nat →
  (∃ cl', Client.walk_each nanos on fuel root a cl = (Some (Ok (Z.of_nat (length vbs)), told on vbs a), cl') ∧ ok cl') ∧
  (∃ cl', Client.bulk_walk_each nanos on fuel root n a cl = (Some (Ok (Z.of_nat (length vbs)), told on vbs a), cl') ∧ ok cl').
Proof using K.
  intros Hs Ha Hn vbs Hl.
  pose proof (walk_loop_gathers root fuel root 0 a cl Hs Ha (Oid.is_prefix_of_refl root) Hl) as Walk.
  split; [exact Walk|]. unfold Client.bulk_walk_each. rewrite (wk_supports cl Hs).
  destruct (decide (bulk = true)) as [B|B]; [|assert (negb bulk = true) as -> by (by destruct bulk); exact Walk].
  assert (negb bulk = false) as -> by (by rewrite B). apply bulk_loop_gathers; [done|unfold u32_max in *; lia|done|done|apply Oid.is_prefix_of_refl|done].
Qed.
End Gather.

(** * Tables *)

Definition cell (d : gmap (list Z) (gmap Z Value)) (index : list Z) (column : Z) : option Value :=
  let! row := d !! index in row !! column.

(** The binding of a cell. *)
Definition cell_vb (entry : Oid) (index : list Z) (column : Z) (v : Value) : VarBind :=
  mkVarBind (cell_oid entry column index) v.

Lemma index_suffix_app entry w : index_suffix entry (entry ++ w) = Some w.
Proof.
  unfold index_suffix. rewrite (proj2 (Oid.is_prefix_of_spec entry (entry ++ w)) (ex_intro _ w eq_refl)).
  cbn [negb]. by rewrite drop_app_length.
Qed.

Lemma index_suffix_Some entry o w : index_suffix entry o = Some w → o = entry ++ w.
Proof.
  unfold index_suffix. destruct (Oid.is_prefix_of entry o) eqn:P; [|done].
  apply Oid.is_prefix_of_spec in P as [r ->]. cbn. rewrite drop_app_length. by intros [= ->].
Qed.

Lemma cell_empty i c : cell ∅ i c = None.
Proof. done. Qed.

Lemma cell_insert d index column v i c :
  cell (<[index := <[column := v]> (default ∅ (d !! index))]> d) i c =
  if bool_decide (i = index ∧ c = column) then Some v else cell d i c.
Proof.
  unfold cell. destruct (decide (i = index)) as [->|N].
  - rewrite lookup_insert. destruct (decide (index = index)) as [_|?]; [|done]. cbn [mbind option_bind].
    destruct (decide (c = column)) as [->|N].
    + rewrite bool_decide_eq_true_2 by done. rewrite lookup_insert. by destruct (decide (column = column)).
    + rewrite bool_decide_eq_false_2 by (by intros [_ ?]). rewrite lookup_insert_ne by done.
      destruct (d !! index); [done|]. cbn. by rewrite lookup_empty.
  - rewrite bool_decide_eq_false_2 by (by intros [? _]). by rewrite lookup_insert_ne.
Qed.

Lemma add_cell_cell entry d vb i c :
  cell (add_cell entry d vb).2 i c =
  if bool_decide (vb_oid vb = cell_oid entry c i) then Some (vb_value vb) else cell d.2 i c.
Proof.
  unfold add_cell, cell_oid. destruct (index_suffix entry (vb_oid vb)) as [[|column index]|] eqn:E.
  1,3: rewrite bool_decide_eq_false_2; [done|]; intros H; rewrite H, <- app_assoc, index_suffix_app in E; done.
  apply index_suffix_Some in E. cbn [snd]. rewrite cell_insert, E, <- app_assoc. destruct (decide (i = index ∧ c = column)) as [[-> ->]|N].
  - by rewrite !bool_decide_eq_true_2.
  - rewrite (bool_decide_eq_false_2 (i = index ∧ c = column)) by done. rewrite bool_decide_eq_false_2; [done|].
    intros [= -> ->]%app_inv_head. by apply N.
Qed.

Lemma strictly_sorted_nodup l : strictly_sorted l → NoDup l.*1.
Proof.
  induction 1 as [|c l HS IH HF]; cbn; constructor; [|done].
  intros (d & E & Hd)%list_elem_of_fmap. rewrite Forall_forall in HF. specialize (HF d Hd).
  assert (HL : Oid.lt c.1 d.1) by exact HF. rewrite E in HL. by apply (proj2 (Oid.not_lt d.1 d.1) ltac:(reflexivity)).
Qed.

Lemma strictly_sorted_filter P l : strictly_sorted l → strictly_sorted (List.filter P l).
Proof.
  induction 1 as [|c l HS IH HF]; cbn; [constructor|]. destruct (P c); [|done]. constructor; [done|].
  rewrite Forall_forall in HF |- *. intros d Hd%list_elem_of_In%filter_In. apply HF, list_elem_of_In, Hd.
Qed.

Lemma subtree_nodup allowed cs root : strictly_sorted cs → NoDup (vb_oid <$> subtree allowed cs root).
Proof.
  intros HS. unfold subtree, subtree_after. rewrite <- list_fmap_compose.
  exact (strictly_sorted_nodup _ (strictly_sorted_filter _ _ HS)).
Qed.

Lemma subtree_cell allowed cs entry c i v :
  cell_vb entry i c v ∈ subtree allowed cs entry ↔ (cell_oid entry c i, v) ∈ cs ∧ allowed (cell_oid entry c i) = true.
Proof.
  assert (P : Oid.is_prefix_of entry (cell_oid entry c i) = true).
  { apply Oid.is_prefix_of_spec. exists (c :: i). unfold cell_oid. by rewrite <- app_assoc. }
  assert (L : Oid.lt entry (cell_oid entry c i)).
  { destruct (proj1 (Oid.le_lt_or_eq _ _) (Oid.prefix_le _ _ P)) as [?|E]; [done|].
    apply (f_equal length) in E. unfold cell_oid in E. rewrite !length_app in E. cbn in E. lia. }
  unfold subtree, subtree_after. rewrite list_elem_of_fmap. split.
  - intros ([o w] & [= -> ->] & [Hc [_ [_ A]%andb_true_iff]%andb_true_iff]%list_elem_of_In%filter_In).
    split; [by apply list_elem_of_In|done].
  - intros [Hc A]. exists (cell_oid entry c i, v). split; [done|]. apply list_elem_of_In, filter_In.
    split; [by apply list_elem_of_In|]. cbn. by rewrite (proj2 (Oid.ltb_lt _ _) L), P, A.
Qed.

Lemma fold_cells entry vbs d i c v : NoDup (vb_oid <$> vbs) →
  cell (fold_left (add_cell entry) vbs d).2 i c = Some v ↔
  cell_vb entry i c v ∈ vbs ∨ (cell_oid entry c i ∉ vb_oid <$> vbs) ∧ cell d.2 i c = Some v.
Proof.
  revert d. induction vbs as [|[o w] vbs IH]; intros d; cbn [fold_left fmap list_fmap].
  - intros _. split; [intros H; right; split; [apply not_elem_of_nil|done]|]. by intros [?%elem_of_nil|[_ ?]].
  - intros [Hn Hd]%NoDup_cons. rewrite (IH _ Hd), add_cell_cell. cbn [vb_oid vb_value].
    rewrite elem_of_cons, not_elem_of_cons. unfold cell_vb.
    destruct (decide (o = cell_oid entry c i)) as [->|N].
    + rewrite bool_decide_eq_true_2 by done. split.
      * intros [H|[_ [= ->]]]; [by left; right|by left; left].
      * intros [[[= ->]|H]|[[H _] _]]; [by right|by left|by destruct H].
    + rewrite bool_decide_eq_false_2 by done. split.
      * intros [H|[H1 H2]]; [by left; right|right; split_and!; [congruence|done|done]].
      * intros [[[= ? ?]|H]|[[_ H1] H2]]; [congruence|by left|by right].
Qed.

Lemma fold_columns entry vbs d c :
  c ∈ (fold_left (add_cell entry) vbs d).1 ↔ c ∈ d.1 ∨ ∃ i v, cell_vb entry i c v ∈ vbs.
Proof.
  revert d. induction vbs as [|[o w] vbs IH]; intros d; cbn [fold_left].
  - split; [by left|]. intros [?|(i & v & ?%elem_of_nil)]; done.
  - rewrite IH. unfold add_cell at 1. cbn [vb_oid vb_value]. unfold cell_vb, cell_oid.
    destruct (index_suffix entry o) as [[|column index]|] eqn:E.
    + split; [intros [?|(i & v & ?)]; [by left|right; exists i, v; by right]|].
      intros [?|(i & v & [[= H _]|?]%elem_of_cons)]; [by left| |right; eauto].
      exfalso. rewrite <- H, <- app_assoc, index_suffix_app in E. done.
    + apply index_suffix_Some in E. subst o. cbn [fst]. rewrite elem_of_union, elem_of_singleton. split.
      * intros [[->|?]|(i & v & ?)]; [right; exists index, w; rewrite <- app_assoc; left|by left|right; exists i, v; by right].
      * intros [?|(i & v & [[= H _]|?]%elem_of_cons)]; [by left; right| |right; eauto].
        left; left. rewrite <- app_assoc in H. by injection (app_inv_head _ _ _ H).
    + split; [intros [?|(i & v & ?)]; [by left|right; exists i, v; by right]|].
      intros [?|(i & v & [[= H _]|?]%elem_of_cons)]; [by left| |right; eauto].
      exfalso. rewrite <- H, <- app_assoc, index_suffix_app in E. done.
Qed.

Lemma sorted_columns (X : gset Z) : StronglySorted Z.lt (merge_sort Z.le (elements X)).
Proof.
  pose proof (StronglySorted_merge_sort Z.le (elements X)) as HS.
  assert (HN : NoDup (merge_sort Z.le (elements X))) by (rewrite merge_sort_Permutation; apply NoDup_elements).
  induction HS as [|c l HS IH HF]; [constructor|]. apply NoDup_cons in HN as [Hn HN]. constructor; [by apply IH|].
  rewrite Forall_forall in HF |- *. intros d Hd. specialize (HF d Hd).
  assert (c ≠ d) by (intros ->; done). lia.
Qed.

Section Fetch.
Context {R : RasnV3} {C : Crypto} {W : Type} {T : Transport W} (nanos : Z).
Context {ok : Client.t W → Prop} {bulk : bool} {askable : Oid → Prop} {allowed : Oid → bool} {cs : cells}.
Context {K : Walkable nanos ok bulk askable allowed cs}.

(** A table fetched from a server holds exactly the cells of the table that may
    be read, under their row and column, and its columns are those of its cells
    in ascending order. *)
Theorem fetched_table entry n fuel cl :
  ok cl → askable entry → n <= u32_max → (length (subtree allowed cs entry) < fuel)%nat →
  ∃ d cl', fetch_table nanos fuel entry n cl = (Some (Ok d), cl') ∧ ok cl' ∧ TableData.entry d = entry ∧
    (∀ i c v, cell (TableData.rows d) i c = Some v ↔
      (cell_oid entry c i, v) ∈ cs ∧ allowed (cell_oid entry c i) = true) ∧
    StronglySorted Z.lt (TableData.columns d) ∧
    (∀ c, c ∈ TableData.columns d ↔ ∃ i v, cell (TableData.rows d) i c = Some v).
Proof using K.
  intros Hs Ha Hn Hl. destruct (walks_gather nanos Client.push entry n fuel [] cl Hs Ha Hn Hl) as [_ (cl' & E & Hs')].
  assert (Push : ∀ vbs acc, told Client.push vbs acc = acc ++ vbs).
  { induction vbs as [|vb vbs IH]; intros acc; [by rewrite app_nil_r|]. cbn. unfold told in IH. rewrite IH.
    unfold Client.push. by rewrite <- app_assoc. }
  pose proof (ns_sorted (NextServer:=wk_next (Walkable:=K))) as HS.
  exists (table_of entry (subtree allowed cs entry)), cl'. split_and!; [|done|done| |apply sorted_columns|].
  - unfold fetch_table, Client.bulk_walk, sbind. rewrite E. cbn. by rewrite Push.
  - intros i c v. unfold table_of. cbn [TableData.rows]. rewrite fold_cells by (by apply subtree_nodup).
    rewrite <- subtree_cell. split; [intros [?|[_ H]]; [done|]|by left]. by rewrite cell_empty in H.
  - intros c. unfold table_of. cbn [TableData.columns TableData.rows].
    rewrite merge_sort_Permutation, elem_of_elements, fold_columns. split.
    + intros [?%elem_of_empty|(i & v & H)]; [done|]. exists i, v. apply fold_cells; [by apply subtree_nodup|by left].
    + intros (i & v & H). right. exists i, v. apply fold_cells in H as [H|[_ H]]; [done| |by apply subtree_nodup].
      by rewrite cell_empty in H.
Qed.
End Fetch.

(** * Grids *)

(** Where a column begins: every column before it and two blanks. *)
Definition offset (widths : list nat) (j : nat) : nat := sum_list ((λ w, w + 2)%nat <$> take j widths).

Definition is_ascii_text (s : text) : Prop := Forall (λ c, 0 <= c < 128) s.

Lemma widen_lookup widths row j w : widen widths row !! j = Some w → ∃ w0, widths !! j = Some w0 ∧ (w0 <= w)%nat ∧
  ∀ s, row !! j = Some s → (octets_of s <= w)%nat.
Proof.
  revert row j. induction widths as [|w1 ws IH]; intros row j; [by destruct row|].
  destruct row as [|c row]; cbn [widen]; [by exists w|]. destruct j as [|j].
  - intros [= <-]. exists w1. split; [done|]. destruct (Nat.ltb_spec w1 (octets_of c)) as [l|l]; (split; [lia|]); intros s [= <-]; lia.
  - exact (IH row j).
Qed.

Lemma widen_length widths row : length (widen widths row) = length widths.
Proof. revert row. induction widths as [|w ws IH]; intros [|c row]; cbn; [done..|]. by rewrite IH. Qed.

Lemma widest rows widths j w : fold_left widen rows widths !! j = Some w → ∃ w0, widths !! j = Some w0 ∧ (w0 <= w)%nat ∧
  ∀ row s, row ∈ rows → row !! j = Some s → (octets_of s <= w)%nat.
Proof.
  revert widths. induction rows as [|r rows IH]; intros widths; cbn [fold_left].
  - intros H. exists w. split_and!; [done..|]. by intros row s ?%elem_of_nil.
  - intros (w1 & H1 & L1 & F)%IH. apply widen_lookup in H1 as (w0 & H0 & L0 & G).
    exists w0. split_and!; [done|lia|]. intros row s [->|Hr]%elem_of_cons Hs; [|by eapply F].
    specialize (G s Hs). lia.
Qed.

Lemma grid_widths_length header rows : length (grid_widths header rows) = length header.
Proof.
  unfold grid_widths. rewrite <- (length_fmap octets_of header). generalize (octets_of <$> header). clear header.
  induction rows as [|r rows IH]; intros ws; cbn; [done|]. by rewrite IH, widen_length.
Qed.

Lemma grid_wide_enough header rows row j s w : row ∈ header :: rows → row !! j = Some s →
  grid_widths header rows !! j = Some w → (octets_of s <= w)%nat.
Proof.
  intros Hr Hs (w0 & H0 & L & F)%widest. apply elem_of_cons in Hr as [->|Hr]; [|by eapply F].
  rewrite list_lookup_fmap, Hs in H0. by injection H0 as <-.
Qed.

Lemma format_cells_at widths cs j s : cs !! j = Some s → (j < length widths)%nat →
  (∀ i w t, (i < j)%nat → widths !! i = Some w → cs !! i = Some t → (length t <= w)%nat) →
  ∃ pre post, format_cells widths cs = pre ++ s ++ post ∧ length pre = offset widths j.
Proof.
  revert cs j. induction widths as [|w ws IH]; intros cs j Hs Hj Hw; [cbn in Hj; lia|].
  destruct cs as [|c cs]; [done|]. destruct j as [|j].
  - injection Hs as ->. exists []. destruct ws as [|w2 ws]; [by exists []; rewrite app_nil_r|].
    cbn [format_cells head default tail]. unfold pad_right. eexists. split; [cbn [app]; by rewrite <- app_assoc|done].
  - destruct ws as [|w2 ws]; [cbn in Hj; lia|]. destruct (IH cs j Hs) as (pre & post & E & El); [cbn in *; lia| |].
    + intros i w' t Hi. exact (Hw (S i) w' t ltac:(lia)).
    + exists (pad_right w c ++ [32; 32] ++ pre), post. change (format_cells (w :: w2 :: ws) (c :: cs)) with
        (pad_right w c ++ [32; 32] ++ format_cells (w2 :: ws) cs). rewrite E, <- !app_assoc. split; [done|].
      pose proof (Hw 0%nat w c ltac:(lia) eq_refl eq_refl). unfold pad_right.
      rewrite !length_app, length_replicate, El. unfold offset. cbn. lia.
Qed.

Lemma trim_start_stops p x z y : p z = false → trim_start_matches p (x ++ z :: y) = trim_start_matches p x ++ z :: y.
Proof. intros Hz. induction x as [|c x IH]; cbn; [by rewrite Hz|]. by destruct (p c). Qed.

Lemma trim_end_keeps a z post : is_whitespace z = false → trim_end (a ++ z :: post) = a ++ z :: trim_end post.
Proof.
  intros Hz. unfold trim_end, trim_start. rewrite rev_app_distr. cbn [rev].
  rewrite <- app_assoc. cbn [app]. rewrite (trim_start_stops _ _ _ _ Hz), rev_app_distr. cbn [rev].
  by rewrite rev_involutive, <- !app_assoc.
Qed.

(** Every column of a grid of ASCII cells begins at the same place in every
    line, header included: the cell is found there. *)
Theorem grid_aligned header rows row j s : Forall (Forall is_ascii_text) (header :: rows) →
  row ∈ header :: rows → row !! j = Some s → (j < length header)%nat →
  (∀ z, last s = Some z → is_whitespace z = false) →
  let line := format_row (grid_widths header rows) row in
  line ∈ render_grid header rows ∧
  take (length s) (drop (offset (grid_widths header rows) j) line) = s.
Proof.
  intros HA Hr Hs Hj Hz line. split.
  { unfold line, render_grid. apply elem_of_cons in Hr as [->|Hr]; [left|right; by apply list_elem_of_fmap_2]. }
  assert (Row : Forall is_ascii_text row) by (rewrite Forall_forall in HA; by apply HA).
  destruct (format_cells_at (grid_widths header rows) row j s Hs) as (pre & post & E & El).
  { by rewrite grid_widths_length. }
  { intros i w t _ Hw Ht. pose proof (grid_wide_enough header rows row i t w Hr Ht Hw) as H.
    unfold octets_of in H. rewrite as_bytes_ascii in H; [done|]. rewrite Forall_forall in Row.
    by apply Row, list_elem_of_lookup_2 with i. }
  subst line. unfold format_row. rewrite E. destruct s as [|z s _] using rev_ind; [by rewrite take_0|].
  rewrite <- app_assoc. cbn [app]. rewrite app_assoc, trim_end_keeps by (apply Hz; by rewrite last_snoc).
  rewrite <- app_assoc, <- El, drop_app_length. replace (s ++ z :: trim_end post) with ((s ++ [z]) ++ trim_end post)
    by (by rewrite <- app_assoc). by rewrite take_app_length.
Qed.

Lemma grid_aligned_witness :
  let rows := [[str "1"; str "lo"]; [str "22"; str "eth0"]] in
  take 4 (drop (offset (grid_widths [str "index"; str "ifDescr"] rows) 1)
    (format_row (grid_widths [str "index"; str "ifDescr"] rows) [str "22"; str "eth0"])) = str "eth0".
Proof.
  intros rows. apply (grid_aligned [str "index"; str "ifDescr"] rows [str "22"; str "eth0"] 1 (str "eth0")).
  - unfold is_ascii_text. repeat constructor; cbn; lia.
  - right; right; left.
  - reflexivity.
  - cbn. lia.
  - intros z [= <-]. reflexivity.
Defined.

(** * Clients of the agent *)

(** An answer to a GETBULK fits in a message as it is. *)
Section Bulk.
Context {R : RasnV3} {L : RasnV3Laws R} {C : Crypto} {CL : CryptoLaws C}.
Context {W : Type} (a : Agent W) (fuel : nat).
Context {inv : W → Prop} {eqv : relation W} {view : MibHandler W → W → cells}.
Context {M : Managed a fuel inv eqv view} (w0 : W) (Hw0 : inv w0).

Abbreviation here := (mib view (registry a) w0).

Lemma bulk_askable n o : 0 <= n <= u32_max → nameable o → askable_pdu (query GetBulk 0 n [o]).
Proof.
  intros Hn (Wo & So & _). split; [split| |done|done]; cbn; try done; try (unfold is_i64, is_i32, u32_max in *; lia).
  - by apply Forall_singleton.
  - unfold sendable_pdu, sendable_vb. cbn -[in_u32]. rewrite So, (proj2 (in_u32_iff n)) by (unfold is_u32, u32_max in *; lia). done.
Qed.

Lemma next_askable allowed o : nameable o →
  pad_vb (visible_next allowed here o) = visible_next allowed here o ∧ nameable (vb_oid (visible_next allowed here o)).
Proof using M Hw0.
  intros Ho. split; [by eapply (next_nameable a fuel w0)|].
  pose proof (mib_sorted (hs:=registry a) w0 Hw0) as HS.
  destruct (visible_next_cases allowed here o HS) as [(c & Hc & _ & _ & -> & _)|[-> _]]; [|done].
  exact (proj1 (cell_nameable a fuel w0 c Hw0 Hc)).
Qed.

Lemma rows_askable allowed n cursors : Forall nameable cursors →
  pad_vb <$> rows_of (visible_next allowed here) n cursors = rows_of (visible_next allowed here) n cursors.
Proof using M Hw0.
  revert cursors. induction n as [|n IH]; intros cursors Hc; cbn [rows_of]; [done|]. rewrite fmap_app.
  assert (Row : pad_vb <$> (visible_next allowed here <$> cursors) = visible_next allowed here <$> cursors).
  { rewrite <- list_fmap_compose. apply list_fmap_ext. intros i o Ho. cbn.
    apply next_askable. rewrite Forall_forall in Hc. by apply Hc, list_elem_of_lookup_2 with i. }
  rewrite Row. f_equal. destruct (forallb _ _); [done|]. apply IH.
  rewrite !Forall_fmap. eapply Forall_impl; [exact Hc|]. intros o Ho. by apply next_askable.
Qed.

Lemma served_bulk sec id n o : nameable o →
  let resp := served_to a (view:=view) sec w0 (pad_pdu (with_request_id id (query GetBulk 0 n [o]))) in
  checked resp = Ok resp ∧
  variables resp = rows_of (visible_next (allows (sec w0) Read) here) (Z.to_nat n) [o].
Proof using M Hw0.
  intros Ho. split; [done|]. unfold served_to, serve, pad_pdu, query, with_request_id.
  cbn [pdu_type request_id variables fmap list_fmap set_variables new_pdu].
  change (non_repeaters _) with 0. change (max_repetitions _) with n.
  change (Z.to_nat (Z.max 0 0)) with 0%nat. cbn [take drop fmap list_fmap app].
  replace (Z.to_nat (Z.max n 0)) with (Z.to_nat n) by lia.
  cbn [map take drop fmap list_fmap app pad_vb null_var vb_oid vb_value]. rewrite pad_oid_long by apply Ho.
  by apply rows_askable, Forall_singleton.
Qed.
End Bulk.

Section CommunityClient.
Context {R : RasnV3} {L : RasnV3Laws R} {C : Crypto} {CL : CryptoLaws C}.
Context {W : Type} (a : Agent W) (fuel : nat) (boot limit : Z).
Context {inv : W → Prop} {eqv : relation W} {view : MibHandler W → W → cells}.
Context {M : Managed a fuel inv eqv view} (w0 : W) (Hw0 : inv w0).
Context (c : SessionConfig) (nanos : Z) (Hc : s_community c = cfg_community (config a)).
Context (Hb : is_bytes (s_community c)) (Ht : limit <= s_timeout c).

#[local] Instance to_agent : Transport (Link W) := link a fuel boot.

(** A community client of the agent. *)
Definition community_client (cl : Client.t (Link W)) : Prop :=
  ∃ s, cl = Client.Community c s ∧ connected boot limit w0 (inv:=inv) (eqv:=eqv) s.

Abbreviation readable := (allows (community_sec a c w0) Read).

Instance community_walkable : Walkable nanos community_client (negb (bool_decide (s_version c = V1))) nameable readable
  (mib view (registry a) w0).
Proof using All.
  pose proof (community_next a fuel boot limit w0 Hw0 c nanos Hc Hb Ht) as N. split.
  - split; [apply ns_sorted|apply ns_cells|]. intros cl o (s & -> & Hs) Ho.
    destruct (ns_next (NextServer:=N) s o Hs Ho) as (s' & E & Hs').
    exists (Client.Community c s'). split; [|by exists s'].
    unfold Client.get_next, Client.dispatch. change to_agent with (agent_link a fuel boot). by rewrite E.
  - by intros cl (s & -> & _).
  - intros HV. split. intros cl n o (s & -> & Hs) Ho Hn.
    destruct (community_request a fuel boot limit w0 Hw0 c nanos Hc Hb Ht (query GetBulk 0 n [o]) s Hs) as (id & s' & E & Hs').
    { apply bulk_askable; [lia|done]. }
    destruct (served_bulk a fuel w0 Hw0 (community_sec a c) id n o Ho) as [H1 H2].
    exists (Client.Community c s'). split; [|by exists s'].
    unfold Client.get_bulk, Client.dispatch, Session.get_bulk. destruct (s_version c); [done|].
    unfold checked_request, ebind, sbind. change to_agent with (agent_link a fuel boot). rewrite E.
    cbn -[served_to rows_of]. by rewrite H1, H2.
Qed.

(** A client in the agent's community, v1 or v2c, whether it walks by GETNEXT
    or by GETBULK and however many repetitions it asks for, is told exactly the
    cells under the root that the community may read, in order. *)
Theorem community_client_walks {A} (on : VarBind → A → A) root n turns x cl : community_client cl → nameable root →
  n <= u32_max → let vbs := subtree readable (mib view (registry a) w0) root in
  (length vbs < turns)%nat →
  (∃ cl', Client.walk_each nanos on turns root x cl = (Some (Ok (Z.of_nat (length vbs)), told on vbs x), cl') ∧
    community_client cl') ∧
  (∃ cl', Client.bulk_walk_each nanos on turns root n x cl = (Some (Ok (Z.of_nat (length vbs)), told on vbs x), cl') ∧
    community_client cl').
Proof using All. intros H1 H2 H3. exact (walks_gather nanos on (K:=community_walkable) root n turns x cl H1 H2 H3). Qed.
End CommunityClient.

Section SecureClient.
Context {R : RasnV3} {L : RasnV3Laws R} {C : Crypto} {CL : CryptoLaws C}.
Context {W : Type} (a : Agent W) (fuel : nat) (boot limit : Z).
Context {inv : W → Prop} {eqv : relation W} {view : MibHandler W → W → cells}.
Context {M : Managed a fuel inv eqv view} (w0 : W) (Hw0 : inv w0).
Context (u : UsmUser) (Hu : users a !! as_bytes (user_name u) = Some u) (Hn : cfg_engine_id (config a) ≠ []).
Context (timeout retries nanos : Z) (Ht : limit <= timeout) (Hlim : limit <= 74 * SECOND).

#[local] Instance to_agent3 : Transport (Link W) := link a fuel boot.

(** A v3 client of the agent that keeps its clock. *)
Definition secure_client (cl : Client.t (Link W)) : Prop :=
  ∃ s, cl = Client.V3 u timeout retries s ∧ ready a boot limit w0 u (inv:=inv) (eqv:=eqv) s.

Instance secure_walkable : Walkable nanos secure_client true nameable (allows (user_sec a u w0) Read)
  (mib view (registry a) w0).
Proof using All.
  pose proof (v3_next a fuel boot limit w0 Hw0 u Hu Hn timeout retries nanos Ht Hlim) as N. split.
  - split; [apply ns_sorted|apply ns_cells|]. intros cl o (s & -> & Hs) Ho.
    destruct (ns_next (NextServer:=N) s o Hs Ho) as (s' & E & Hs').
    exists (Client.V3 u timeout retries s'). split; [|by exists s'].
    unfold Client.get_next, Client.dispatch. change to_agent3 with (agent_link3 a fuel boot). by rewrite E.
  - by intros cl (s & -> & _).
  - intros _. split. intros cl n o (s & -> & Hs) Ho Hr.
    destruct (v3_request_answered a fuel boot limit w0 Hw0 u Hu Hn timeout retries nanos Ht Hlim (query GetBulk 0 n [o]) s)
      as (id & s' & E & _ & Hs'); [apply Hs|apply bulk_askable; [lia|done]|by left|].
    destruct (served_bulk a fuel w0 Hw0 (user_sec a u) id n o Ho) as [H1 H2].
    exists (Client.V3 u timeout retries s'). split; [|exists s'; auto].
    unfold Client.get_bulk, Client.dispatch, v3_get_bulk, v3_checked_request, ebind, sbind.
    change to_agent3 with (agent_link3 a fuel boot). rewrite E. cbn -[served_to rows_of]. by rewrite H1, H2.
Qed.

(** C14. From an agent whose handlers keep the contract [Managed], roots apart from
    each other included, a v3 client fetches exactly the cells of a table that
    its user may read. *)
Theorem secure_client_fetches entry n turns cl : secure_client cl → nameable entry → n <= u32_max →
  let readable := allows (user_sec a u w0) Read in
  (length (subtree readable (mib view (registry a) w0) entry) < turns)%nat →
  ∃ d cl', fetch_table nanos turns entry n cl = (Some (Ok d), cl') ∧ secure_client cl' ∧ TableData.entry d = entry ∧
    (∀ i c v, cell (TableData.rows d) i c = Some v ↔
      (cell_oid entry c i, v) ∈ mib view (registry a) w0 ∧ readable (cell_oid entry c i) = true) ∧
    StronglySorted Z.lt (TableData.columns d) ∧
    (∀ c, c ∈ TableData.columns d ↔ ∃ i v, cell (TableData.rows d) i c = Some v).
Proof using All. intros H1 H2 H3. exact (fetched_table nanos (K:=secure_walkable) entry n turns cl H1 H2 H3). Qed.
End SecureClient.
