(* ===== verification/Mgmt.v ===== *)
(** * Managing users and views ([crates/netsnmp-apps/src/mgmt.rs])

    The bindings by which [snmpusm] and [snmpvacm] create, change and destroy
    rows of the user table and the VACM tables, the indexes that name those
    rows, and the reading of a user's name from an index. *)

From Stdlib Require Import ZArith Lia.
From S2P Require Import Prelude MachineInts Text Oid Value Pdu Cells Handler Snapshots Vacm MibTables Walk.

Local Open Scope list_scope.

Definition CREATE_AND_GO : Z := 4.
Definition DESTROY : Z := 6.

(** [entry] of the constants. *)
Definition USM_USER_ENTRY : Oid := [1; 3; 6; 1; 6; 3; 15; 1; 2; 2; 1].
Definition VACM_SEC2GROUP_ENTRY : Oid := [1; 3; 6; 1; 6; 3; 16; 1; 2; 1].
Definition VACM_ACCESS_ENTRY : Oid := [1; 3; 6; 1; 6; 3; 16; 1; 4; 1].
Definition VACM_VIEW_ENTRY : Oid := [1; 3; 6; 1; 6; 3; 16; 1; 5; 2; 1].

Definition string_index (b : bytes) : list Z := as_u32 (Z.of_nat (length b)) :: b.
Definition oid_index (o : Oid) : list Z := as_u32 (Z.of_nat (length o)) :: o.

(** ** Users *)

Definition USM_SECURITY_NAME : Z := 3.
Definition USM_CLONE_FROM : Z := 4.
Definition USM_STORAGE_TYPE : Z := 6.
Definition USM_STATUS : Z := 13.

Definition usm_user_index (engine_id : bytes) (user : text) : list Z :=
  string_index engine_id ++ string_index (as_bytes user).

Definition parse_usm_user_name (index : list Z) : option text :=
  match index with
  | [] => None
  | engine_len :: _ =>
      let need := engine_len + 1 in
      if Z.of_nat (length index) <? need then None
      else
        match drop (Z.to_nat need) index with
        | [] => None
        | name_len :: name =>
            if Z.of_nat (length (name_len :: name)) <? 1 + name_len then None
            else Some (from_utf8_lossy (as_u8 <$> take (Z.to_nat name_len) name))
        end
  end.

Definition usm_security_name_oid (engine_id : bytes) (template_user : text) : Oid :=
  cell_oid USM_USER_ENTRY 3 (usm_user_index engine_id template_user).

Definition usm_create (engine_id : bytes) (user clone_from : text) : list VarBind :=
  let index := usm_user_index engine_id user in
  [mkVarBind (cell_oid USM_USER_ENTRY USM_CLONE_FROM index) (VOid (usm_security_name_oid engine_id clone_from));
   mkVarBind (cell_oid USM_USER_ENTRY USM_STATUS index) (VInteger CREATE_AND_GO)].

Definition usm_clone_from (engine_id : bytes) (user : text) (template_sec_name_oid : Oid) : VarBind :=
  mkVarBind (cell_oid USM_USER_ENTRY USM_CLONE_FROM (usm_user_index engine_id user)) (VOid template_sec_name_oid).

Definition usm_storage_type (engine_id : bytes) (user : text) (value : Z) : VarBind :=
  mkVarBind (cell_oid USM_USER_ENTRY USM_STORAGE_TYPE (usm_user_index engine_id user)) (VInteger value).

Definition usm_key_change (engine_id : bytes) (user : text) (column : Z) (key_change_value : bytes) : VarBind :=
  mkVarBind (cell_oid USM_USER_ENTRY column (usm_user_index engine_id user)) (VOctetString key_change_value).

Definition usm_set_status (engine_id : bytes) (user : text) (status : Z) : VarBind :=
  mkVarBind (cell_oid USM_USER_ENTRY USM_STATUS (usm_user_index engine_id user)) (VInteger status).

(** ** Groups, access and views *)

Definition text_value (s : text) : Value := VOctetString (as_bytes s).

Definition sec2group_index (model : Z) (sec_name : text) : list Z := as_u32 model :: string_index (as_bytes sec_name).

Definition vacm_create_sec2group (model : Z) (sec_name group : text) : list VarBind :=
  let index := sec2group_index model sec_name in
  [mkVarBind (cell_oid VACM_SEC2GROUP_ENTRY 3 index) (text_value group);
   mkVarBind (cell_oid VACM_SEC2GROUP_ENTRY 5 index) (VInteger CREATE_AND_GO)].

Definition vacm_delete_sec2group (model : Z) (sec_name : text) : VarBind :=
  mkVarBind (cell_oid VACM_SEC2GROUP_ENTRY 5 (sec2group_index model sec_name)) (VInteger DESTROY).

Definition vacm_access_index (group context : text) (model level : Z) : list Z :=
  string_index (as_bytes group) ++ string_index (as_bytes context) ++ [as_u32 model; as_u32 level].

Definition vacm_create_access (group context : text) (model level : Z) (read write notify : text) : list VarBind :=
  let index := vacm_access_index group context model level in
  [mkVarBind (cell_oid VACM_ACCESS_ENTRY 5 index) (text_value read);
   mkVarBind (cell_oid VACM_ACCESS_ENTRY 6 index) (text_value write);
   mkVarBind (cell_oid VACM_ACCESS_ENTRY 7 index) (text_value notify);
   mkVarBind (cell_oid VACM_ACCESS_ENTRY 9 index) (VInteger CREATE_AND_GO)].

Definition vacm_delete_access (group context : text) (model level : Z) : VarBind :=
  mkVarBind (cell_oid VACM_ACCESS_ENTRY 9 (vacm_access_index group context model level)) (VInteger DESTROY).

Definition vacm_view_index (view : text) (subtree : Oid) : list Z :=
  string_index (as_bytes view) ++ oid_index subtree.

(** The discriminants of [ViewType]. *)
Inductive ViewType := Included | Excluded.
Definition view_code (t : ViewType) : Z := match t with Included => 1 | Excluded => 2 end.

Definition vacm_create_view (view : text) (subtree : Oid) (mask : bytes) (view_type : ViewType) : list VarBind :=
  let index := vacm_view_index view subtree in
  [mkVarBind (cell_oid VACM_VIEW_ENTRY 3 index) (VOctetString mask);
   mkVarBind (cell_oid VACM_VIEW_ENTRY 4 index) (VInteger (view_code view_type));
   mkVarBind (cell_oid VACM_VIEW_ENTRY 6 index) (VInteger CREATE_AND_GO)].

Definition vacm_delete_view (view : text) (subtree : Oid) : VarBind :=
  mkVarBind (cell_oid VACM_VIEW_ENTRY 6 (vacm_view_index view subtree)) (VInteger DESTROY).

(** * Names and rows *)

Lemma as_u8_bytes b : is_bytes b → as_u8 <$> b = b.
Proof.
  induction 1 as [|x b Hx HF IH]; [done|]. cbn [fmap list_fmap].
  rewrite wrap_u_id by (unfold is_u8 in *; lia). f_equal. exact IH.
Qed.

(** The name is read back from a row's index, whatever the engine. *)
Theorem user_name_read engine_id user : is_u32 (Z.of_nat (length engine_id)) → is_text user →
  is_u32 (Z.of_nat (length (as_bytes user))) →
  parse_usm_user_name (usm_user_index engine_id user) = Some user.
Proof.
  intros He Ht Hu. unfold usm_user_index, string_index, parse_usm_user_name. cbn [app].
  unfold is_u32 in He, Hu. rewrite !wrap_u_id by lia.
  assert (length (Z.of_nat (length engine_id) :: engine_id ++ Z.of_nat (length (as_bytes user)) :: as_bytes user) =
    (2 + length engine_id + length (as_bytes user))%nat) as -> by (cbn; rewrite length_app; cbn; lia).
  rewrite (proj2 (Z.ltb_ge _ _)) by lia. replace (Z.to_nat _) with (S (length engine_id)) by lia.
  cbn [drop]. rewrite drop_app_length. rewrite (proj2 (Z.ltb_ge _ _)) by (cbn [length]; lia).
  rewrite Nat2Z.id, firstn_all, as_u8_bytes by by apply is_bytes_as_bytes. by rewrite from_utf8_lossy_as_bytes.
Qed.

Lemma user_name_read_witness : parse_usm_user_name (usm_user_index [69; 69] (str "u")) = Some (str "u").
Proof.
  apply user_name_read; [by vm_compute| |by vm_compute].
  unfold is_text. cbn. repeat constructor; unfold is_char; lia.
Defined.

(** A listed element. *)
Ltac listed := cbn; first [left|right; listed].

(** [cell_oid] names a cell of [row_cells]. *)
Lemma row_cell entry idx cols c v : (c, v) ∈ cols → (cell_oid entry c idx, v) ∈ row_cells entry idx cols.
Proof.
  intros H. unfold row_cells. apply list_elem_of_fmap. exists (c, v). split; [|done].
  unfold cell_oid. by rewrite <- app_assoc.
Qed.

Lemma in_flat_map {A B} (f : A → list B) l x y : x ∈ l → y ∈ f x → y ∈ flat_map f l.
Proof. rewrite !list_elem_of_In, in_flat_map. eauto. Qed.

Definition tool_view (t : ViewTreeFamilyType) : ViewType := match t with Vacm.Included => Included | Vacm.Excluded => Excluded end.

(** What creates a row but for its status, which the agent shows as active. *)
Definition shown_as (cs : cells) (vb : VarBind) : Prop :=
  (vb_oid vb, vb_value vb) ∈ cs ∨ vb_value vb = VInteger CREATE_AND_GO ∧ (vb_oid vb, active) ∈ cs.

(** The tools and the agent name cells alike: every binding by which a tool
    would create a row that the agent has is a cell of the agent's table with
    that very value, the status apart, and what would destroy the row names its
    status. *)
Theorem tools_name_agent_cells v :
  (∀ g sec group, g ∈ groups v → g_name g = as_bytes sec → g_group g = as_bytes group →
     Forall (shown_as (s2g_cells v)) (vacm_create_sec2group (g_model g) sec group) ∧
     (vb_oid (vacm_delete_sec2group (g_model g) sec), active) ∈ s2g_cells v) ∧
  (∀ a group context read write notify, a ∈ access v → a_group a = as_bytes group →
     a_context_prefix a = as_bytes context → default [] (a_read a) = as_bytes read →
     default [] (a_write a) = as_bytes write → default [] (a_notify a) = as_bytes notify →
     Forall (shown_as (access_cells v)) (vacm_create_access group context (a_model a) (a_level a) read write notify) ∧
     (vb_oid (vacm_delete_access group context (a_model a) (a_level a)), active) ∈ access_cells v) ∧
  (∀ n rows w view, views v !! n = Some rows → w ∈ rows → n = as_bytes view →
     Forall (shown_as (view_cells v)) (vacm_create_view view (subtree w) (mask w) (tool_view (typ w))) ∧
     (vb_oid (vacm_delete_view view (subtree w)), active) ∈ view_cells v).
Proof.
  split_and!.
  - intros g sec group Hg En Eg.
    assert (Cell : ∀ c x, (c, x) ∈ [(3, VOctetString (g_group g)); (4, storage); (5, active)] →
      (cell_oid VACM_SEC2GROUP_ENTRY c (sec2group_index (g_model g) sec), x) ∈ s2g_cells v).
    { intros c x H. eapply in_flat_map; [exact Hg|]. unfold sec2group_index. rewrite <- En. by apply row_cell. }
    split; [|apply Cell; listed]. unfold vacm_create_sec2group, shown_as, text_value. rewrite <- Eg.
    rewrite !Forall_cons, Forall_nil. cbn [vb_oid vb_value].
    split_and!; [left|right; split; [done|]|done]; apply Cell; listed.
  - intros a group context read write notify Ha Eg Ec Er Ew En.
    assert (Cell : ∀ c x, (c, x) ∈ [(4, VInteger (match a_match a with Exact => 1 | Prefix => 2 end));
        (5, view_or_empty (a_read a)); (6, view_or_empty (a_write a)); (7, view_or_empty (a_notify a)); (8, storage); (9, active)] →
      (cell_oid VACM_ACCESS_ENTRY c (vacm_access_index group context (a_model a) (a_level a)), x) ∈ access_cells v).
    { intros c x H. eapply in_flat_map; [exact Ha|]. unfold vacm_access_index. rewrite <- Eg, <- Ec. by apply row_cell. }
    split; [|apply Cell; listed]. unfold vacm_create_access, shown_as, text_value. rewrite <- Er, <- Ew, <- En.
    rewrite !Forall_cons, Forall_nil. cbn [vb_oid vb_value].
    split_and!; [left..|right; split; [done|]|done]; apply Cell; unfold view_or_empty; listed.
  - intros n rows w view Hr Hw ->.
    assert (Cell : ∀ c x, (c, x) ∈ [(3, VOctetString (mask w)); (4, VInteger (family_code (typ w))); (5, storage); (6, active)] →
      (cell_oid VACM_VIEW_ENTRY c (vacm_view_index view (subtree w)), x) ∈ view_cells v).
    { intros c x H. eapply (in_flat_map _ _ (as_bytes view, rows)).
      - unfold sorted_views. rewrite sort_by_perm. by apply elem_of_map_to_list.
      - eapply in_flat_map; [exact Hw|]. by apply row_cell. }
    split; [|apply Cell; listed]. unfold vacm_create_view, shown_as.
    rewrite !Forall_cons, Forall_nil. cbn [vb_oid vb_value].
    split_and!; [left|left|right; split; [done|]|done]; apply Cell; [listed|destruct (typ w); listed|listed].
Qed.

Lemma tools_name_agent_cells_witness :
  let v := mkVacm [mkGroup 2 (str "bob") (str "staff")] [] ∅ [] in
  Forall (shown_as (s2g_cells v)) (vacm_create_sec2group 2 (str "bob") (str "staff")).
Proof.
  intros v. destruct (tools_name_agent_cells v) as [H _].
  destruct (H (mkGroup 2 (str "bob") (str "staff")) (str "bob") (str "staff")) as [F _]; [left|reflexivity|reflexivity|].
  exact F.
Defined.

(** The column written as the storage type is that of a key change. *)
Lemma storage_type_is_key_change engine_id user n key :
  vb_oid (usm_storage_type engine_id user n) = vb_oid (usm_key_change engine_id user 6 key).
Proof. done. Qed.
