(* ===== verification/TranslateFmt.v ===== *)
(** * Translating names for [snmptranslate] ([crates/netsnmp-apps/src/translate_fmt.rs])

    The resolution of a token, the forms in which an OID is printed, the tree
    and the table of what is registered, over the registry of [Mib]. *)

From Stdlib Require Import ZArith Lia.
From S2P Require Import Prelude MachineInts Text Oid SmiDefs Mib.

Local Open Scope list_scope.

(** [name.rsplit('.').next()]. *)
Definition leaf_name (name : text) : text := default name (last (split 46 name)).

Definition arcs_text (arcs : list Z) : list text := show_u <$> arcs.

(** ** [resolve_token] *)

(** A registered direct child of [parent] whose leaf is [seg]. *)
Definition child_named (mib : MibRegistry) (parent : Oid) (seg : text) : option Oid :=
  fst <$> find (fun p => (length p.1 =? length parent + 1)%nat && bool_decide (take (length parent) p.1 = parent) &&
                         bool_decide (leaf_name p.2 = seg)) (iter_oids mib).

Fixpoint resolve_segments (mib : MibRegistry) (cur : Oid) (segs : list text) : option Oid :=
  match segs with
  | [] => Some cur
  | seg :: segs' =>
      match parse_unsigned u32_max seg with
      | Some n => resolve_segments mib (cur ++ [n]) segs'
      | None => let! o := child_named mib cur seg in resolve_segments mib o segs'
      end
  end.

Definition resolve_token (mib : MibRegistry) (token : text) : option Oid :=
  let trimmed := trim_start_matches (fun c => c =? 46) (trim token) in
  match translate mib token with
  | Some o => Some o
  | None =>
      match trimmed with
      | c :: _ =>
          if is_ascii_digit c then None
          else
            match split 46 trimmed with
            | first :: segs => let! cur := name_to_oid mib first in resolve_segments mib cur segs
            | [] => None
            end
      | [] => name_to_oid mib []
      end
  end.

(** ** Forms of an OID *)

Definition parent_of (o : Oid) : option Oid := if (length o <=? 1)%nat then None else Some (removelast o).

(** [cur], [parent_of(cur)] and so on: the walk upwards. *)
Fixpoint ancestry (n : nat) (o : Oid) : list Oid :=
  match n with
  | O => []
  | S n' => o :: match parent_of o with Some p => ancestry n' p | None => [] end
  end.

Definition upwards (o : Oid) : list Oid := ancestry (S (length o)) o.

Definition longest_named_ancestor (mib : MibRegistry) (o : Oid) : option (Oid * text) :=
  let! a := find (fun c => bool_decide (is_Some (oid_to_name mib c))) (upwards o) in
  find (fun p => bool_decide (p.1 = a)) (iter_oids mib).

(** The loop of [format_full] over the prefixes of [s], from length [len] on. *)
Fixpoint full_loop (mib : MibRegistry) (s : Oid) (len n : nat) (segs : list text) (last_named_end : nat)
    : list text * nat :=
  match n with
  | O => (segs, last_named_end)
  | S n' =>
      match oid_to_name mib (take len s) with
      | Some name => full_loop mib s (S len) n' [name] len
      | None =>
          if negb (last_named_end =? 0)%nat && (len =? last_named_end + 1)%nat
          then full_loop mib s (S len) n' (segs ++ arcs_text (option_list (s !! (len - 1)%nat))) len
          else full_loop mib s (S len) n' segs last_named_end
      end
  end.

Definition format_full (mib : MibRegistry) (o : Oid) : text :=
  let '(segs, last_named_end) := full_loop mib o 1 (length o) [] 0 in
  match segs with
  | [] => Oid.display o
  | _ => join (str ".") (segs ++ arcs_text (drop last_named_end o))
  end.

Definition format_short (mib : MibRegistry) (o : Oid) : text :=
  match oid_to_name mib o with
  | Some name => leaf_name name
  | None =>
      let plain := match last o with Some n => show_u n | None => Oid.display o end in
      match longest_named_ancestor mib o with
      | Some (anc, _) => match drop (length anc) o with arc :: _ => show_u arc | [] => plain end
      | None => plain
      end
  end.

Definition ends_with_entry (name : text) : bool :=
  bool_decide (drop (length name - 5) name = str "Entry").

(** One segment of the path of [format_suffix]. *)
Definition suffix_segment (mib : MibRegistry) (o : Oid) (len : nat) : text :=
  match oid_to_name mib (take len o) with
  | Some name => leaf_name name
  | None => default [] (show_u <$> o !! (len - 1)%nat)
  end.

Definition format_suffix (mib : MibRegistry) (o : Oid) : text :=
  let is_entry c := match oid_to_name mib c with
    | Some name => ends_with_entry name || bool_decide (name = str "entry")
    | None => false
    end in
  match find is_entry (upwards o) with
  | Some e =>
      if (length e <=? length o)%nat && bool_decide (take (length e) o = e) then
        join (str ".") (leaf_name (default (str "entry") (oid_to_name mib e)) ::
          (suffix_segment mib o <$> seq (length e + 1) (length o - length e)))
      else format_short mib o
  | None => format_short mib o
  end.

Definition path_part (mib : MibRegistry) (o : Oid) (i : nat) (arc : Z) : text :=
  match oid_to_name mib (take (S i) o) with
  | Some name => leaf_name name ++ str "(" ++ show_u arc ++ str ")"
  | None => show_u arc
  end.

Definition render_oid_path (mib : MibRegistry) (o : Oid) : text := join (str " ") (imap (path_part mib o) o).

(** The double quote cannot be written in a string. *)
Definition format_detailed (mib : MibRegistry) (o : Oid) : text :=
  let name := default (str "oid") (oid_to_name mib o) in
  let last_arc := default [] (show_u <$> last o) in
  name ++ [32] ++ name ++ str "(" ++ last_arc ++ str ")" ++ [10] ++
  name ++ str " OBJECT-TYPE" ++ [10] ++
  str "-- FROM" ++ [9] ++ str "-" ++ [10] ++
  str "SYNTAX" ++ [9] ++ str "INTEGER" ++ [10] ++
  str "MAX-ACCESS" ++ [9] ++ str "read-only" ++ [10] ++
  str "STATUS" ++ [9] ++ str "current" ++ [10] ++
  str "DESCRIPTION" ++ [9; 34] ++ str "(unavailable)" ++ [34; 10] ++
  str "::= { " ++ render_oid_path mib o ++ str " }" ++ [10].

(** ** The tree and the table *)

Definition render_node_label (mib : MibRegistry) (o : Oid) : text :=
  let arc := show_u (default 0 (last o)) in
  match oid_to_name mib o with
  | Some name => leaf_name name ++ str "(" ++ arc ++ str ")"
  | None => arc
  end.

Definition children_of (parent : Oid) (nodes : list Oid) : list Oid :=
  sort_by Oid.leb (List.filter (fun o => (length o =? length parent + 1)%nat &&
    bool_decide (take (length parent) o = parent)) nodes).

(** [render_children]; [None] is fuel that ran out, and a node deeper than the
    last has no child. *)
Fixpoint render_children (fuel : nat) (mib : MibRegistry) (parent : Oid) (nodes : list Oid) (prefix : text)
    : option text :=
  match fuel with
  | O => None
  | S fuel' =>
      (fix each (l : list Oid) : option text :=
         match l with
         | [] => Some []
         | child :: l' =>
             let is_last := match l' with [] => true | _ => false end in
             let! sub := render_children fuel' mib child nodes
               (prefix ++ (if is_last then str "   " else str "|  ")) in
             let! more := each l' in
             Some (prefix ++ (if is_last then str "\- " else str "+- ") ++ render_node_label mib child ++ [10] ++ sub ++ more)
         end) (children_of parent nodes)
  end.

Definition sanitize (s : text) (ascii_safe : bool) : text :=
  if negb ascii_safe then s else (fun c => if (0 <=? c) && (c <? 128) then c else 46) <$> s.

(** The nodes gathered: what lies on the way to the root or under it. *)
Definition tree_nodes (mib : MibRegistry) (root : Oid) : list Oid :=
  sort_by Oid.leb (List.filter (fun o => Oid.is_prefix_of o root || Oid.is_prefix_of root o) (iter_oids mib).*1).

Definition render_tree (fuel : nat) (mib : MibRegistry) (root : Oid) (ascii_safe : bool) : option text :=
  let! below := render_children fuel mib root (tree_nodes mib root) [] in
  Some (sanitize (render_node_label mib root ++ [10] ++ below) ascii_safe).

Definition table_line (p : Oid * text) : text :=
  Oid.display p.1 ++ [9] ++ p.2 ++ [9] ++ str "-" ++ [9] ++ str "-" ++ [9] ++ str "-" ++ [10].

Definition render_table (mib : MibRegistry) (root : option Oid) : text :=
  let rows := List.filter (fun p => match root with None => true | Some r => Oid.is_prefix_of r p.1 end) (iter_oids mib) in
  flat_map table_line (sort_by (fun a b => Oid.leb a.1 b.1) rows).

Definition enum_listing (mib : MibRegistry) (o : Oid) : option text :=
  let! pairs := enums_for mib o in
  match pairs with
  | [] => None
  | _ => Some (join (str " ") ((fun p => p.2 ++ str "(" ++ show_i p.1 ++ str ")") <$> pairs))
  end.

(** * The full form *)

(** Where the loop of [format_full] stands after the first [m] arcs: before any
    registered prefix, or at the name of the longest and the arcs after it. *)
Definition stands (mib : MibRegistry) (s : Oid) (m : nat) (st : list text * nat) : Prop :=
  (st = ([], 0%nat) ∧ ∀ j, (0 < j <= m)%nat → oid_to_name mib (take j s) = None) ∨
  ∃ k name, (0 < k <= m)%nat ∧ oid_to_name mib (take k s) = Some name ∧
    (∀ j, (k < j <= m)%nat → oid_to_name mib (take j s) = None) ∧
    st = (name :: arcs_text (take (m - k) (drop k s)), m).

Lemma full_loop_stands mib s n m st : (m + n = length s)%nat → stands mib s m st →
  stands mib s (length s) (full_loop mib s (S m) n st.1 st.2).
Proof.
  revert m st. induction n as [|n IH]; intros m st Hl Hst; cbn [full_loop].
  { by replace (length s) with m by lia; destruct st. }
  destruct (oid_to_name mib (take (S m) s)) as [name|] eqn:E.
  - apply (IH (S m) ([name], S m)); [lia|]. right. exists (S m), name. split_and!; [lia|lia|done|lia|].
    by rewrite Nat.sub_diag.
  - assert (Grow : ∀ P : nat → Prop, (∀ j, (P j ∧ j <= m)%nat → oid_to_name mib (take j s) = None) →
      ∀ j, (P j ∧ j <= S m)%nat → oid_to_name mib (take j s) = None).
    { intros P H j [Hp Hj]. destruct (decide (j = S m)) as [->|]; [done|]. apply H. split; [done|lia]. }
    destruct Hst as [[-> H]|(k & name & Hk & En & H & ->)]; cbn [fst snd].
    + apply (IH (S m) ([], 0%nat)); [lia|]. left. split; [done|]. apply (Grow (λ j, 0 < j)%nat), H.
    + rewrite (proj2 (Nat.eqb_neq m 0)) by lia. rewrite (proj2 (Nat.eqb_eq (S m) (m + 1))) by lia. cbn [negb andb].
      destruct (lookup_lt_is_Some_2 s m) as [x Hx]; [lia|]. replace (S m - 1)%nat with m by lia. rewrite Hx.
      apply (IH (S m) (name :: arcs_text (take (m - k) (drop k s)) ++ arcs_text [x], S m)); [lia|]. right. exists k, name. split_and!; [lia|lia|done|apply (Grow (λ j, k < j)%nat), H|].
      f_equal. f_equal. unfold arcs_text. rewrite <- fmap_app. f_equal.
      replace (S m - k)%nat with (S (m - k)) by lia. symmetry. apply take_S_r. rewrite lookup_drop. rewrite <- Hx. f_equal. lia.
Qed.

(** Where the empty OID has no name, the full form is what [format_oid] prints:
    the name of the longest registered ancestor alone, and the arcs after it. *)
Theorem format_full_is_format_oid mib o : oid_to_name mib [] = None → format_full mib o = format_oid mib o.
Proof.
  intros Hempty.
  assert (S0 : stands mib o 0 ([], 0%nat)) by (left; split; [done|lia]).
  pose proof (full_loop_stands mib o (length o) 0 _ eq_refl S0) as H. cbn [fst snd] in H.
  unfold format_full, format_oid, render_named. pose proof (longest_prefix_spec mib o) as L.
  destruct H as [[-> H]|(k & name & Hk & En & H & ->)].
  - destruct (longest_prefix mib o) as [[p n]|]; [|done]. destruct L as (Lp & Lo & _).
    apply Oid.is_prefix_of_spec in Lo as [w ->]. destruct p as [|x p]; [unfold oid_to_name in Hempty; congruence|].
    specialize (H (length (x :: p))). rewrite take_app_length, length_app in H. unfold oid_to_name in H.
    rewrite H in Lp; [done|cbn; lia].
  - assert (Pk : Oid.is_prefix_of (take k o) o = true).
    { apply Oid.is_prefix_of_spec. exists (drop k o). by rewrite take_drop. }
    destruct (longest_prefix mib o) as [[p n]|].
    2:{ unfold oid_to_name in En. rewrite (L _ _ En) in Pk. done. }
    destruct L as (Lp & Lo & Lmax). pose proof (Lmax _ _ En Pk) as Hlen. rewrite length_take in Hlen.
    apply Oid.is_prefix_of_spec in Lo as [w Eo].
    assert (Ep : take (length p) o = p) by (rewrite Eo; apply take_app_length).
    assert (length p <= length o)%nat by (rewrite Eo, length_app; lia).
    assert (length p = k) as Ek.
    { destruct (decide (k < length p)%nat) as [G|G]; [|lia]. specialize (H (length p)). rewrite Ep in H.
      unfold oid_to_name in H. rewrite H in Lp; [done|lia]. }
    rewrite Ek in Ep. unfold oid_to_name in En. rewrite Ep, Lp in En. injection En as ->.
    rewrite (proj2 (Nat.leb_le _ _)) by lia. unfold id, render_with_suffix. rewrite drop_all, app_nil_r, Ek.
    rewrite take_ge by (rewrite length_drop; lia). unfold arcs_text. destruct (Nat.leb_spec (length o) k).
    + rewrite drop_ge by lia. done.
    + destruct (drop k o) as [|x r] eqn:D; [|done].
      apply (f_equal length) in D. rewrite length_drop in D. cbn in D. lia.
Qed.

Lemma format_full_is_format_oid_witness :
  format_full demo_loaded [1; 3; 6; 1; 2; 1; 1; 77; 0] = format_oid demo_loaded [1; 3; 6; 1; 2; 1; 1; 77; 0].
Proof. apply format_full_is_format_oid. by vm_compute. Defined.

(** * The tree *)

(** The nodes under [parent] that the recursion reaches, in the order of its lines. *)
Fixpoint reached (fuel : nat) (parent : Oid) (nodes : list Oid) : list Oid :=
  match fuel with
  | O => []
  | S fuel' => flat_map (fun c => c :: reached fuel' c nodes) (children_of parent nodes)
  end.

(** [t] is a line for each of [os], after an indentation of its own. *)
Definition lines_for (mib : MibRegistry) (os : list Oid) (t : text) : Prop :=
  ∃ marks, length marks = length os ∧ t = concat (zip_with (λ m o, m ++ render_node_label mib o ++ [10]) marks os).

Lemma lines_nil mib : lines_for mib [] [].
Proof. by exists []. Qed.

Lemma lines_app mib os os' t t' : lines_for mib os t → lines_for mib os' t' → lines_for mib (os ++ os') (t ++ t').
Proof.
  intros (m & Hm & ->) (m' & Hm' & ->). exists (m ++ m'). split; [by rewrite !length_app, Hm, Hm'|].
  by rewrite zip_with_app, concat_app.
Qed.

Lemma lines_one mib o mark : lines_for mib [o] (mark ++ render_node_label mib o ++ [10]).
Proof. exists [mark]. split; [done|]. cbn. by rewrite app_nil_r. Qed.

Lemma elem_of_children o parent nodes : o ∈ children_of parent nodes ↔ o ∈ nodes ∧ ∃ arc, o = parent ++ [arc].
Proof.
  unfold children_of. rewrite sort_by_perm, !list_elem_of_In, filter_In, <- !list_elem_of_In. split.
  - intros [Ho [Hl Ht%bool_decide_eq_true]%andb_true_iff]. split; [done|]. apply Nat.eqb_eq in Hl.
    rewrite <- (take_drop (length parent) o), Ht. pose proof (length_drop o (length parent)) as D.
    destruct (drop (length parent) o) as [|x [|]]; cbn in D; try lia. by exists x.
  - intros [Ho [arc ->]]. split; [done|]. rewrite length_app, Nat.eqb_refl, take_app_length. cbn.
    by apply bool_decide_eq_true.
Qed.

Lemma elem_of_reached fuel parent nodes o : o ∈ reached fuel parent nodes ↔
  (∃ w, o = parent ++ w ∧ (0 < length w <= fuel)%nat) ∧ o ∈ nodes ∧
  ∀ k, (length parent < k < length o)%nat → take k o ∈ nodes.
Proof.
  revert parent. induction fuel as [|fuel IH]; intros parent; cbn [reached].
  { split; [by intros ?%elem_of_nil|]. intros [(w & _ & ?) _]. lia. }
  rewrite list_elem_of_In, in_flat_map. split.
  - intros (c & Hc%list_elem_of_In & Ho%list_elem_of_In). apply elem_of_children in Hc as [Hc [arc ->]].
    apply elem_of_cons in Ho as [->|Ho].
    + split_and!; [exists [arc]; cbn; split; [done|lia]|done|]. rewrite length_app. cbn. lia.
    + apply IH in Ho as ((w & -> & Hw) & Hn & Hk). split_and!; [exists (arc :: w); rewrite <- app_assoc; cbn; split; [done|lia]|done|].
      intros k Hlk. destruct (decide (k = length parent + 1)%nat) as [->|].
      * rewrite take_app_le by (rewrite length_app; cbn; lia). by rewrite take_ge by (rewrite length_app; cbn; lia).
      * apply Hk. rewrite (length_app parent). cbn. lia.
  - intros ((w & -> & Hw) & Hn & Hk). destruct w as [|arc w]; [cbn in Hw; lia|].
    assert (E : parent ++ arc :: w = (parent ++ [arc]) ++ w) by (by rewrite <- app_assoc).
    exists (parent ++ [arc]). rewrite <- !list_elem_of_In, elem_of_children, elem_of_cons, E in *.
    destruct w as [|x w]; [rewrite app_nil_r in *; split; [eauto|by left]|].
    split.
    + split; [|by exists arc]. specialize (Hk (length (parent ++ [arc]))). rewrite take_app_length in Hk. apply Hk.
      rewrite !length_app. cbn. lia.
    + right. apply IH. split_and!; [exists (x :: w); cbn in *; split; [done|lia]|done|].
      intros k Hlk. apply Hk. rewrite length_app in Hlk. cbn in Hlk. lia.
Qed.

Lemma children_rendered fuel mib parent nodes prefix :
  (∀ w, w ≠ [] → parent ++ w ∈ nodes → (length w < fuel)%nat) → (0 < fuel)%nat →
  ∃ t, render_children fuel mib parent nodes prefix = Some t ∧ lines_for mib (reached fuel parent nodes) t.
Proof.
  revert parent prefix. induction fuel as [|fuel IH]; intros parent prefix Hd Hf; [lia|]. cbn [render_children reached].
  assert (Sub : ∀ c, c ∈ children_of parent nodes → ∀ pre, ∃ t, render_children fuel mib c nodes pre = Some t ∧
    lines_for mib (reached fuel c nodes) t).
  { intros c [Hc [arc ->]]%elem_of_children pre. apply IH.
    - intros w Hw Hin. rewrite <- app_assoc in Hin. specialize (Hd ([arc] ++ w) ltac:(done) Hin). cbn in Hd. lia.
    - specialize (Hd [arc] ltac:(done) Hc). cbn in Hd. lia. }
  induction (children_of parent nodes) as [|c l IHl]; [eexists; split; [done|apply lines_nil]|].
  destruct (Sub c ltac:(left) (prefix ++ (if match l with [] => true | _ => false end then str "   " else str "|  ")))
    as (t & E & Ht). destruct IHl as (t' & E' & Ht'); [intros d Hdl; apply Sub; by right|].
  rewrite E. cbn [mbind option_bind]. rewrite E'. cbn [mbind option_bind]. eexists. split; [reflexivity|].
  cbn [flat_map].
  set (conn := if match l with [] => true | _ => false end then str "\- " else str "+- ").
  replace (prefix ++ conn ++ render_node_label mib c ++ [10] ++ t ++ t')
    with (((prefix ++ conn) ++ render_node_label mib c ++ [10]) ++ t ++ t') by (by rewrite <- !app_assoc).
  exact (lines_app _ [c] _ _ _ (lines_one mib c _) (lines_app _ _ _ _ _ Ht Ht')).
Qed.

(** The tree of a root is its label and a line for each registered OID under it
    all of whose ancestors below the root are registered too; a registered OID
    beyond an unregistered one does not appear. As much fuel as the deepest
    node has arcs is enough. *)
Theorem tree_lists mib root fuel : (∀ o n, oid_to_name mib o = Some n → (length o < fuel)%nat) → (0 < fuel)%nat →
  ∃ os t, render_tree fuel mib root false = Some (render_node_label mib root ++ [10] ++ t) ∧ lines_for mib os t ∧
    ∀ o, o ∈ os ↔ (∃ w, w ≠ [] ∧ o = root ++ w) ∧
      ∀ k, (length root < k <= length o)%nat → is_Some (oid_to_name mib (take k o)).
Proof.
  intros Hd Hf.
  assert (Nodes : ∀ w, root ++ w ∈ tree_nodes mib root ↔ is_Some (oid_to_name mib (root ++ w))).
  { intros w. unfold tree_nodes. rewrite sort_by_perm, list_elem_of_In, filter_In, <- list_elem_of_In.
    assert (Oid.is_prefix_of root (root ++ w) = true) as -> by (apply Oid.is_prefix_of_spec; eauto).
    rewrite orb_true_r, list_elem_of_fmap. split.
    - intros [([o n] & E & Hin%elem_of_iter_oids) _]. cbn in E. rewrite E. by exists n.
    - intros [n Hn]. split; [|done]. exists (root ++ w, n). split; [done|]. by apply elem_of_iter_oids. }
  destruct (children_rendered fuel mib root (tree_nodes mib root) []) as (t & E & Ht); [|done|].
  { intros w Hw [n Hn]%Nodes. specialize (Hd _ _ Hn). rewrite length_app in Hd. lia. }
  exists (reached fuel root (tree_nodes mib root)), t. split_and!; [unfold render_tree; by rewrite E|done|].
  intros o. rewrite elem_of_reached.
  assert (Take : ∀ w k, (length root <= k)%nat → take k (root ++ w) = root ++ take (k - length root) w).
  { intros w k Hk. by rewrite take_app, take_ge by lia. }
  split.
  - intros ((w & -> & Hw) & Hn & Hk). split; [exists w; split; [by intros ->; cbn in Hw; lia|done]|].
    intros k Hlk. rewrite Take by lia. apply Nodes. rewrite <- Take by lia.
    destruct (decide (k = length (root ++ w))) as [->|]; [by rewrite firstn_all|apply Hk; lia].
  - intros [(w & Hw & ->) H].
    assert (Full : is_Some (oid_to_name mib (root ++ w))).
    { specialize (H (length (root ++ w))). rewrite firstn_all in H. apply H. rewrite length_app. destruct w; [done|cbn; lia]. }
    split_and!.
    + exists w. split; [done|]. destruct Full as [n Hn]. specialize (Hd _ _ Hn). rewrite length_app in Hd.
      destruct w; [done|cbn in *; lia].
    + by apply Nodes.
    + intros k Hlk. rewrite Take by lia. apply Nodes. rewrite <- Take by lia. apply H. lia.
Qed.

(** Two names, one beyond an arc without a name. *)
Definition gap_registry : MibRegistry :=
  insert (str "far") [1; 2; 3; 4] (insert (str "near") [1; 2] (insert (str "top") [1] new)).

Lemma inserted_oid r name oid o n : oid_to_name (insert name oid r) o = Some n → o = oid ∨ oid_to_name r o = Some n.
Proof.
  unfold oid_to_name, insert. cbn [by_oid].
  intros [[-> _]|[_ ?]]%lookup_insert_Some; [by left|by right].
Qed.

Lemma tree_lists_witness : ∃ os t,
  render_tree 9 gap_registry [1] false = Some (render_node_label gap_registry [1] ++ [10] ++ t) ∧ lines_for gap_registry os t ∧
  [1; 2] ∈ os ∧ [1; 2; 3; 4] ∉ os.
Proof.
  destruct (tree_lists gap_registry [1] 9) as (os & t & E & L & H).
  - intros o n Hn. repeat (apply inserted_oid in Hn as [->|Hn]; [cbn; lia|]). vm_compute in Hn. discriminate Hn.
  - lia.
  - exists os, t. split; [exact E|]. split; [exact L|]. split.
    + apply H. split; [exists [2]; split; [discriminate|reflexivity]|]. intros k Hk. cbn in Hk. replace k with 2%nat by lia. exists (str "near"). vm_compute. reflexivity.
    + intros [_ Hk]%H. specialize (Hk 3%nat ltac:(cbn; lia)). destruct Hk as [n Hn]. vm_compute in Hn. discriminate Hn.
Defined.
