(* ===== verification/Tools.v ===== *)
(** * The request tools ([error.rs] and [bin/] of [crates/netsnmp-apps/src/])

    [snmpget], [snmpgetnext], [snmpset], [snmpbulkget], [snmpwalk],
    [snmpbulkwalk], [snmptrap], [snmptest], [snmpdelta] and [snmpstatus], from
    their parsed arguments on. A tool is what it prints, in order, and how it
    ends; [opened] is what connecting yields. *)

From Stdlib Require Import ZArith Lia SpecFloat.
From S2P Require Import Prelude MachineInts Text Oid Value Pdu Cells Handler Vacm Registry Serving.
From S2P Require Import Wire Usm V3 Agent Session Manager Settings Walk.
From S2P Require Mib Persist Expr.

Local Open Scope list_scope.

(** ** [error.rs] *)

(** [Caused] is a [Message] that ends with the printed form of an error. *)
Inductive AppError :=
| Args (e : ArgError)
| ParseOid (token : text)
| Message (t : text)
| Caused (what : text) (e : Error)
| Snmp (e : Error).

Definition msg (s : string) : AppError := Message (str s).

(** What is printed, and the result of [main]. *)
Definition Run : Type := list text * result unit AppError.

Definition prints (ls : list text) : Run := (ls, Ok tt).
Definition fails (e : AppError) : Run := ([], Err e).

(** [?] before anything is printed. *)
Definition attempt {A} (r : result A AppError) (k : A → Run) : Run :=
  match r with Ok a => k a | Err e => fails e end.

(** The same where a loop may not end. *)
Definition attempt_loop {A} (r : result A AppError) (k : A → option Run) : option Run :=
  match r with Ok a => k a | Err e => Some (fails e) end.

Definition map_err {A E F} (f : E → F) (r : result A E) : result A F :=
  match r with Ok a => Ok a | Err e => Err (f e) end.

(** ** OIDs, bindings and lines *)

Section Tools.
Context (mib : Mib.MibRegistry).

Definition resolve_oid (token : text) : result Oid AppError := ok_or (ParseOid token) (Mib.translate mib token).

Fixpoint resolve_oids (tokens : list text) : result (list Oid) AppError :=
  match tokens with
  | [] => Ok []
  | t :: ts => let? o := resolve_oid t in let? os := resolve_oids ts in Ok (o :: os)
  end.

(** [chunks(3)] of arguments whose number is a multiple of three. *)
Fixpoint parse_varbinds (triples : list text) : result (list VarBind) AppError :=
  match triples with
  | o :: t :: v :: rest =>
      let? oid := resolve_oid o in
      let? value := map_err Message (parse_typed_value t v) in
      let? vbs := parse_varbinds rest in
      Ok (mkVarBind oid value :: vbs)
  | _ => Ok []
  end.

Definition in_triples (args : list text) : bool := (length args mod 3 =? 0)%nat.

Definition binding_line (name value : text) : text := name ++ str " = " ++ value.

Definition print_varbind (vb : VarBind) : text :=
  binding_line (Mib.format_oid mib (vb_oid vb)) (Mib.format_value mib (vb_oid vb) (vb_value vb)).

Section Sessions.
Context {R : RasnV3} {C : Crypto} {W : Type} {T : Transport W} (nanos : Z).

(** [connect], whose error is put after a few words. *)
Context (opened : result (Client.t W) Error) (agent : text).

Definition open_short : result (Client.t W) AppError := map_err (Caused (str "cannot open session: ")) opened.
Definition open_to_agent : result (Client.t W) AppError :=
  map_err (Caused (str "cannot open session to " ++ agent ++ str ": ")) opened.

Definition snmp {A S} (m : St S (result A Error)) (s : S) : result A AppError := map_err Snmp (m s).1.

Definition printed (vars : list VarBind) : Run := prints (print_varbind <$> vars).

Definition snmpget (tokens : list text) : Run :=
  attempt (resolve_oids tokens) (fun oids =>
  attempt open_to_agent (fun cl =>
  attempt (snmp (Client.get nanos oids) cl) printed)).

Definition snmpgetnext (tokens : list text) : Run :=
  attempt (resolve_oids tokens) (fun oids =>
  attempt open_short (fun cl =>
  attempt (snmp (Client.get_next nanos oids) cl) printed)).

Definition snmpset (bindings : list text) : Run :=
  if bool_decide (bindings = []) || negb (in_triples bindings)
  then fails (msg "arguments must be OID TYPE VALUE triples")
  else
    attempt (parse_varbinds bindings) (fun vbs =>
    attempt open_short (fun cl =>
    attempt (snmp (Client.set nanos vbs) cl) (fun vars =>
    prints ((fun vb => binding_line (Mib.format_oid mib (vb_oid vb)) (value_display (vb_value vb))) <$> vars)))).

Definition snmpbulkget (non_repeaters max_repetitions : Z) (tokens : list text) : Run :=
  attempt (resolve_oids tokens) (fun oids =>
  attempt open_to_agent (fun cl =>
  if negb (Client.supports_bulk cl) then fails (msg "GETBULK requires SNMPv2c or SNMPv3 (use -v 2c)")
  else attempt (snmp (Client.get_bulk nanos non_repeaters max_repetitions oids) cl) printed)).

(** ** Walks *)

Definition MIB_2 : Oid := [1; 3; 6; 1; 2; 1].

Definition walk_root (token : option text) : result Oid AppError :=
  match token with Some t => resolve_oid t | None => Ok MIB_2 end.

Definition print_each (vb : VarBind) (out : list text) : list text := out ++ [print_varbind vb].

(** What follows the loop: nothing found is said in a line of its own. *)
Definition after_walk (root : Oid) (nothing : text) (r : result Z Error * list text) : Run :=
  match r with
  | (Err e, out) => (out, Err (Snmp e))
  | (Ok count, out) =>
      prints (if count =? 0 then out ++ [binding_line (Mib.format_oid mib root) nothing] else out)
  end.

Definition nothing_left : text := str "No more variables left in this MIB View".

Definition snmpwalk (fuel : nat) (token : option text) : option Run :=
  attempt_loop (walk_root token) (fun root =>
  attempt_loop open_short (fun cl =>
  after_walk root nothing_left <$> (Client.walk_each nanos print_each fuel root [] cl).1)).

Definition snmpbulkwalk (fuel : nat) (max_repetitions : Z) (token : option text) : option Run :=
  attempt_loop (walk_root token) (fun root =>
  attempt_loop open_to_agent (fun cl =>
  after_walk root (nothing_left ++ str " (It is past the end of the MIB tree)") <$>
    (Client.bulk_walk_each nanos print_each fuel root max_repetitions [] cl).1)).

(** ** [snmptrap] *)

Definition parse_uptime (s : text) : result Z AppError :=
  if bool_decide (trim s = []) then Ok 0
  else ok_or (Message (str "bad uptime " ++ quoted s)) (parse_unsigned u32_max (trim s)).

Definition trap_triples (args : list text) : result (list VarBind) AppError :=
  if negb (in_triples args) then Err (msg "trailing arguments must be OID TYPE VALUE triples") else parse_varbinds args.

Definition notifying {A} (r : result A Error) (k : A → text) : Run :=
  attempt (map_err Snmp r) (fun a => prints [k a]).

Definition open_notifier : result (Client.t W) AppError := map_err (Caused (str "cannot open notification session: ")) opened.

Definition send_v1_trap (args : list text) : Run :=
  match args with
  | enterprise :: addr :: generic :: specific :: uptime :: triples =>
      attempt (resolve_oid enterprise) (fun ent =>
      attempt (ok_or (Message (str "bad agent-addr " ++ quoted addr ++ str ", expect an IPv4")) (Persist.parse_ipv4 addr))
        (fun ip =>
      attempt (ok_or (Message (str "bad generic-trap " ++ quoted generic)) (parse_unsigned u8_max generic)) (fun g =>
      attempt (ok_or (Message (str "bad specific-trap " ++ quoted specific)) (parse_unsigned u32_max specific)) (fun s =>
      attempt (parse_uptime uptime) (fun up =>
      attempt (trap_triples triples) (fun vbs =>
      attempt open_notifier (fun cl =>
      notifying (Client.send_trap_v1 ent ip g s up vbs cl).1 (fun _ => str "v1 trap sent"))))))))
  | _ => fails (msg "v1 trap needs (after the AGENT): ENTERPRISE AGENT_ADDR GENERIC SPECIFIC UPTIME [OID TYPE VALUE]...")
  end.

Definition send_v2_trap (inform : bool) (args : list text) : Run :=
  match args with
  | uptime :: trap :: triples =>
      attempt (parse_uptime uptime) (fun up =>
      attempt (resolve_oid trap) (fun oid =>
      attempt (trap_triples triples) (fun vbs =>
      attempt open_notifier (fun cl =>
      if inform
      then notifying (Client.send_inform nanos up oid vbs cl).1
             (fun resp => str "inform acknowledged (request-id " ++ show_i (request_id resp) ++ str ")")
      else notifying (Client.send_trap nanos up oid vbs cl).1 (fun _ => str "trap sent")))))
  | _ => fails (msg "trap needs (after the AGENT): UPTIME TRAP-OID [OID TYPE VALUE]...")
  end.

Definition snmptrap (version : Version) (inform : bool) (args : list text) : Run :=
  if bool_decide (version = V1) then send_v1_trap args else send_v2_trap inform args.

(** ** [snmptest] *)

Inductive Mode := ModeGet | ModeGetNext.

(** [splitn(_, char::is_whitespace)]: what is before the first blank, and the
    rest if there is one. *)
Fixpoint split_blank (s : text) : text * option text :=
  match s with
  | [] => ([], None)
  | c :: s' => if is_whitespace c then ([], Some s') else let '(a, r) := split_blank s' in (c :: a, r)
  end.

Definition do_query (mode : Mode) (line : text) (cl : Client.t W) : Run * Client.t W :=
  match resolve_oids (split_whitespace line) with
  | Err e => (fails e, cl)
  | Ok oids =>
      let '(r, cl) := (match mode with ModeGet => Client.get nanos oids | ModeGetNext => Client.get_next nanos oids end) cl in
      (attempt (map_err Snmp r) printed, cl)
  end.

Definition do_set (line : text) (cl : Client.t W) : Run * Client.t W :=
  let '(oid_token, more) := split_blank line in
  match bool_decide (oid_token = []), more with
  | false, Some more =>
      let '(type_code, value) := split_blank more in
      let prepared :=
        let? oid := resolve_oid oid_token in
        let? v := map_err Message (parse_typed_value type_code (default [] value)) in
        Ok [mkVarBind oid v] in
      match prepared with
      | Err e => (fails e, cl)
      | Ok vbs => let '(r, cl) := Client.set nanos vbs cl in (attempt (map_err Snmp r) printed, cl)
      end
  | _, _ => (fails (msg "usage: $S OID TYPE VALUE"), cl)
  end.

(** What the console shows: lines, and the errors of single commands. *)
Definition shown_of (r : Run) : list (result text AppError) :=
  (Ok <$> r.1) ++ match r.2 with Ok _ => [] | Err e => [Err e] end.

(** The loop over the lines of standard input, each read or failed to read. *)
Fixpoint console (input : list (result text text)) (mode : Mode) (cl : Client.t W)
    : list (result text AppError) * result unit AppError :=
  match input with
  | [] => ([], Ok tt)
  | Err e :: _ => ([], Err (Message e))
  | Ok line :: more =>
      let trimmed := trim line in
      let continue (r : Run * Client.t W) :=
        let '(out, e) := console more mode r.2 in (shown_of r.1 ++ out, e) in
      if bool_decide (trimmed = []) then console more mode cl
      else if is_one_of trimmed ["$q"; "quit"; "exit"]%string then ([], Ok tt)
      else if is_one_of trimmed ["$G"]%string then console more ModeGet cl
      else if is_one_of trimmed ["$N"]%string then console more ModeGetNext cl
      else
        match strip_prefix (str "$S") trimmed with
        | Some rest => continue (do_set (trim rest) cl)
        | None => continue (do_query mode trimmed cl)
        end
  end.

Definition snmptest (input : list (result text text)) : list (result text AppError) * result unit AppError :=
  match open_to_agent with
  | Err e => ([], Err e)
  | Ok cl => console input ModeGet cl
  end.

(** ** [snmpstatus] *)

Definition SYS_DESCR : Oid := [1; 3; 6; 1; 2; 1; 1; 1; 0].
Definition SYS_UPTIME : Oid := [1; 3; 6; 1; 2; 1; 1; 3; 0].
Definition IF_NUMBER : Oid := [1; 3; 6; 1; 2; 1; 2; 1; 0].
Definition SNMP_IN_PKTS : Oid := [1; 3; 6; 1; 2; 1; 11; 1; 0].
Definition SNMP_OUT_PKTS : Oid := [1; 3; 6; 1; 2; 1; 11; 2; 0].
Definition IP_IN_RECEIVES : Oid := [1; 3; 6; 1; 2; 1; 4; 3; 0].
Definition IP_OUT_REQUESTS : Oid := [1; 3; 6; 1; 2; 1; 4; 10; 0].

Definition status_oids : list Oid :=
  [SYS_DESCR; SYS_UPTIME; IF_NUMBER; SNMP_IN_PKTS; SNMP_OUT_PKTS; IP_IN_RECEIVES; IP_OUT_REQUESTS].

Definition present (v : Value) : bool :=
  match v with VNull | VNoSuchObject | VNoSuchInstance | VEndOfMibView => false | _ => true end.

Definition unknown : text := str "?".

Definition scalar (v : option Value) : text := default unknown (show_i <$> (let! v := v in value_as_i128 v)).

(** The map from OIDs to values, later bindings over earlier ones. *)
Definition status_values (vars : list VarBind) : gmap (list Z) Value :=
  fold_left (fun m vb => <[vb_oid vb := vb_value vb]> m) vars ∅.

Definition status_lines (vars : list VarBind) : list text :=
  let values := status_values vars in
  let get (o : Oid) : option Value := let! v := values !! o in if present v then Some v else None in
  let described (o : Oid) : text := default unknown (Mib.format_value mib o <$> get o) in
  [str "[" ++ agent ++ str "]=>[" ++ described SYS_DESCR ++ str "] Up: " ++ described SYS_UPTIME;
   str "Interfaces: " ++ scalar (get IF_NUMBER) ++ str ", Recv/Trans packets: " ++ scalar (get SNMP_IN_PKTS) ++ 47 ::
   scalar (get SNMP_OUT_PKTS) ++ str " | IP: " ++ scalar (get IP_IN_RECEIVES) ++ 47 :: scalar (get IP_OUT_REQUESTS)].

Definition snmpstatus : Run :=
  attempt open_to_agent (fun cl =>
  attempt (snmp (Client.get nanos status_oids) cl) (fun vars => prints (status_lines vars))).

(** ** [snmpdelta] *)

Definition COUNTER32_MOD : Z := 2 ^ 32.

Definition is_counter32 (v : Value) : bool := match v with VCounter32 _ => true | _ => false end.

Definition delta_of (v : Value) (now prev : Z) : Z :=
  let delta := now - prev in
  if (delta <? 0) && is_counter32 v then delta + COUNTER32_MOD else delta.

(** [{:.2}] of a float: its hundredfold to the nearest integer, ties to even. *)
Definition round_even (m : Z) (e : Z) : Z :=
  if 0 <=? e then Z.shiftl m e
  else
    let q := m / 2 ^ (- e) in
    let twice := 2 * (m mod 2 ^ (- e)) in
    if (2 ^ (- e) <? twice) || ((twice =? 2 ^ (- e)) && Z.odd q) then q + 1 else q.

Definition show_fixed2 (x : spec_float) : text :=
  let sign (s : bool) := if s then [45] else [] in
  let hundredths (n : Z) := show_u (n / 100) ++ 46 :: show_02 (n mod 100) in
  match x with
  | S754_nan => str "NaN"
  | S754_infinity s => sign s ++ str "inf"
  | S754_zero s => sign s ++ hundredths 0
  | S754_finite s m e => sign s ++ hundredths (round_even (100 * Zpos m) e)
  end.

Definition delta_line (period : Z) (rate : bool) (o : Oid) (delta : Z) : text :=
  binding_line (Mib.format_oid mib o)
    (show_i delta ++
     (if rate
      then str " (" ++ show_fixed2 (Expr.f64_div (Expr.f64_of_int delta) (Expr.f64_of_int (Z.max period 1))) ++ str "/sec)"
      else [])).

(** The [for] loop over the bindings of one poll. *)
Fixpoint report (period : Z) (rate : bool) (vars : list VarBind) (previous : gmap (list Z) Z) : list text * gmap (list Z) Z :=
  match vars with
  | [] => ([], previous)
  | vb :: vars' =>
      match value_as_i128 (vb_value vb) with
      | None => report period rate vars' previous
      | Some now =>
          let '(ls, after) := report period rate vars' (<[vb_oid vb := now]> previous) in
          (match previous !! vb_oid vb with
           | Some prev => delta_line period rate (vb_oid vb) (delta_of (vb_value vb) now prev) :: ls
           | None => ls
           end, after)
      end
  end.

Definition record_baseline (vars : list VarBind) (previous : gmap (list Z) Z) : gmap (list Z) Z :=
  fold_left (fun m vb => match value_as_i128 (vb_value vb) with Some now => <[vb_oid vb := now]> m | None => m end)
    vars previous.

(** [sleep] is what happens to the session and its peer during a period;
    [None] is a run that was asked to go on and has done so for [fuel] polls. *)
Context (sleep : Client.t W → Client.t W).

Fixpoint delta_loop (fuel : nat) (period iterations : Z) (rate : bool) (oids : list Oid) (reports : Z)
    (previous : gmap (list Z) Z) (out : list text) (cl : Client.t W) : option Run :=
  match fuel with
  | O => None
  | S fuel' =>
      let '(r, cl) := Client.get nanos oids (sleep cl) in
      match r with
      | Err e => Some (out, Err (Snmp e))
      | Ok vars =>
          let '(ls, previous) := report period rate vars previous in
          if negb (iterations =? 0) && (iterations <=? reports + 1) then Some (prints (out ++ ls))
          else delta_loop fuel' period iterations rate oids (reports + 1) previous (out ++ ls) cl
      end
  end.

Definition snmpdelta (fuel : nat) (period iterations : Z) (rate : bool) (tokens : list text) : option Run :=
  attempt_loop (resolve_oids tokens) (fun oids =>
  attempt_loop open_to_agent (fun cl =>
  let '(r, cl) := Client.get nanos oids cl in
  attempt_loop (map_err Snmp r) (fun vars =>
  delta_loop fuel period iterations rate oids 0 (record_baseline vars ∅) [] cl))).
End Sessions.
End Tools.

(** * What the walking tools print *)

Lemma told_print mib vbs out : told (print_each mib) vbs out = out ++ (print_varbind mib <$> vbs).
Proof.
  revert out. induction vbs as [|vb vbs IH]; intros out; [by rewrite app_nil_r|].
  cbn [told fold_left fmap list_fmap]. unfold told in IH. rewrite IH. unfold print_each. by rewrite <- app_assoc.
Qed.

(** The lines of a walk that found [vbs]. *)
Definition walk_lines (mib : Mib.MibRegistry) (root : Oid) (nothing : text) (vbs : list VarBind) : list text :=
  match vbs with
  | [] => [binding_line (Mib.format_oid mib root) nothing]
  | _ => print_varbind mib <$> vbs
  end.

Lemma after_walk_lines mib root nothing vbs :
  after_walk mib root nothing (Ok (Z.of_nat (length vbs)), print_varbind mib <$> vbs) =
  prints (walk_lines mib root nothing vbs).
Proof. by destruct vbs. Qed.

Section Walking.
Context {R : RasnV3} {C : Crypto} {W : Type} {T : Transport W} (nanos : Z).
Context {ok : Client.t W → Prop} {bulk : bool} {askable : Oid → Prop} {allowed : Oid → bool} {cs : cells}.
Context {K : Walkable nanos ok bulk askable allowed cs}.

(** C9. Against a server both walking tools print one line for each cell under the
    root that may be read, in order, or that there is none, and end well; the
    bulk tool differs in the words of the latter line only. *)
Theorem walking_tools_print mib cl agent token root n fuel : ok cl → walk_root mib token = Ok root → askable root →
  n <= u32_max → let vbs := subtree allowed cs root in (length vbs < fuel)%nat →
  snmpwalk mib nanos (Ok cl) fuel token = Some (prints (walk_lines mib root nothing_left vbs)) ∧
  snmpbulkwalk mib nanos (Ok cl) agent fuel n token =
    Some (prints (walk_lines mib root (nothing_left ++ str " (It is past the end of the MIB tree)") vbs)).
Proof using K.
  intros Hs Hr Ha Hn vbs Hl.
  destruct (walks_gather nanos (print_each mib) root n fuel [] cl Hs Ha Hn Hl) as [(c1 & E1 & _) (c2 & E2 & _)].
  rewrite told_print in E1, E2. cbn [app] in E1, E2. unfold snmpwalk, snmpbulkwalk. rewrite Hr. cbn [attempt_loop map_err].
  unfold open_short, open_to_agent. cbn [map_err attempt_loop]. rewrite E1, E2.
  cbn [fst fmap option_fmap option_map]. by rewrite !after_walk_lines.
Qed.
End Walking.

Section AnyPeer.
Context {R : RasnV3} {C : Crypto} {W : Type} {T : Transport W} (nanos : Z).

(** Whatever the peer answers, the lines printed are those of bindings in
    strictly ascending order under the root; after an error they are what was
    received before it. *)
Theorem walk_prints_in_order mib cl root fuel token out r : walk_root mib token = Ok root →
  snmpwalk mib nanos (Ok cl) fuel token = Some (out, r) →
  ∃ vbs, in_order root vbs ∧
    (r = Ok tt ∧ out = walk_lines mib root nothing_left vbs ∨ (∃ e, r = Err (Snmp e)) ∧ out = print_varbind mib <$> vbs).
Proof.
  intros Hr. unfold snmpwalk. rewrite Hr. cbn [attempt_loop]. unfold open_short. cbn [map_err attempt_loop].
  destruct (Client.walk_each nanos (print_each mib) fuel root [] cl) as [[[k a]|] cl'] eqn:E; [|done].
  destruct (walks_stay_in_order nanos (print_each mib) fuel root 0 [] cl k a cl' (or_introl E)) as (vbs & HO & Ea & Hk).
  rewrite told_print in Ea. cbn [app] in Ea. subst a. cbn [fst fmap option_fmap option_map]. exists vbs. split; [done|].
  destruct k as [k|e].
  - rewrite (Hk k eq_refl), after_walk_lines in H. injection H as <- <-. by left.
  - cbn in H. injection H as <- <-. right. split; [by exists e|done].
Qed.
End AnyPeer.

(** * What [snmpdelta] reports *)

(** The lines of successive polls. *)
Fixpoint rounds (mib : Mib.MibRegistry) (period : Z) (rate : bool) (polls : list (list VarBind)) (previous : gmap (list Z) Z)
    : list text :=
  match polls with
  | [] => []
  | vars :: polls' =>
      let '(ls, previous) := report mib period rate vars previous in ls ++ rounds mib period rate polls' previous
  end.

Section Polls.
Context {R : RasnV3} {C : Crypto} {W : Type} {T : Transport W} (mib : Mib.MibRegistry) (nanos : Z).
Context (sleep : Client.t W → Client.t W).

(** The answers to [k] polls, each after a sleep. *)
Inductive polled (oids : list Oid) : Client.t W → list (list VarBind) → Prop :=
| polled_nil cl : polled oids cl []
| polled_cons cl vars cl' polls : Client.get nanos oids (sleep cl) = (Ok vars, cl') → polled oids cl' polls →
    polled oids cl (vars :: polls).

(** As many reports as were asked for, each of one poll. *)
Theorem delta_loop_reports fuel period iterations rate oids polls : ∀ reports previous out cl,
  polled oids cl polls → 0 <= reports → iterations = reports + Z.of_nat (length polls) → polls ≠ [] →
  (length polls <= fuel)%nat →
  delta_loop mib nanos sleep fuel period iterations rate oids reports previous out cl =
    Some (prints (out ++ rounds mib period rate polls previous)).
Proof.
  revert polls. induction fuel as [|fuel IH]; intros polls reports previous out cl HP Hr Hi Hne Hf.
  { destruct polls; [done|cbn in Hf; lia]. }
  destruct HP as [cl|cl vars cl' polls E HP]; [done|]. cbn [delta_loop length rounds] in *. rewrite E.
  destruct (report mib period rate vars previous) as [ls after].
  assert ((iterations =? 0) = false) as -> by (apply Z.eqb_neq; lia). cbn [negb andb].
  destruct polls as [|vars' polls]; cbn [length] in *.
  - assert ((iterations <=? reports + 1) = true) as -> by (apply Z.leb_le; lia). cbn. by rewrite app_nil_r.
  - assert ((iterations <=? reports + 1) = false) as -> by (apply Z.leb_gt; lia).
    rewrite (IH (vars' :: polls)) by (done || cbn [length]; lia). by rewrite <- app_assoc.
Qed.
End Polls.

(** What a counter of 32 bits that has counted up to [n] shows. *)
Definition shows (o : Oid) (n : Z) : list VarBind := [mkVarBind o (VCounter32 (n mod COUNTER32_MOD))].

(** How much a quantity grew from one poll to the next. *)
Fixpoint growth (first : Z) (counts : list Z) : list Z :=
  match counts with
  | [] => []
  | n :: counts' => n - first :: growth n counts'
  end.

Lemma delta_exact first n : first <= n < first + COUNTER32_MOD →
  delta_of (VCounter32 (n mod COUNTER32_MOD)) (n mod COUNTER32_MOD) (first mod COUNTER32_MOD) = n - first.
Proof.
  unfold delta_of, COUNTER32_MOD. cbn [is_counter32]. change (2 ^ 32) with 4294967296. intros H.
  rewrite andb_true_r. destruct (Z.ltb_spec (n mod 4294967296 - first mod 4294967296) 0); Z.div_mod_to_equations; lia.
Qed.

(** The deltas of a counter that grows by less than 2^32 between two polls are
    what it has counted, however often it has wrapped. *)
Theorem deltas_are_exact mib period rate o first counts :
  Forall (λ d, 0 <= d < COUNTER32_MOD) (growth first counts) →
  rounds mib period rate (shows o <$> counts) (record_baseline (shows o first) ∅) =
    delta_line mib period rate o <$> growth first counts.
Proof.
  intros H. change (record_baseline (shows o first) ∅) with (<[o := first mod COUNTER32_MOD]> (∅ : gmap (list Z) Z)).
  generalize (∅ : gmap (list Z) Z). revert first H. induction counts as [|n counts IH]; intros first H m; [done|].
  cbn [growth] in H. apply Forall_cons in H as [Hd H].
  cbn [growth fmap list_fmap rounds]. cbn -[delta_of rounds delta_line]. rewrite lookup_insert.
  destruct (decide (o = o)) as [_|?]; [|done]. rewrite delta_exact by lia.
  cbn [app]. f_equal. by apply IH.
Qed.

Lemma deltas_are_exact_witness :
  rounds Mib.new 5 true (shows [1; 3] <$> [4294967000; 4294967300; 4294967300]) (record_baseline (shows [1; 3] 4294960000) ∅) =
  [str ".1.3 = 7000 (1400.00/sec)"; str ".1.3 = 300 (60.00/sec)"; str ".1.3 = 0 (0.00/sec)"].
Proof.
  rewrite (deltas_are_exact Mib.new 5 true [1; 3] 4294960000 [4294967000; 4294967300; 4294967300]).
  - vm_compute. reflexivity.
  - unfold COUNTER32_MOD. cbn [growth]. repeat (constructor; [lia|]). constructor.
Defined.

(** Growth of 2^32 or more between two polls, and the wrap of a 64-bit counter,
    are reported as something else. *)
Example deltas_lost :
  delta_of (VCounter32 5) 5 5 = 0 ∧ delta_of (VCounter64 3) 3 (2 ^ 64 - 1) = 4 - 2 ^ 64.
Proof. vm_compute. split; reflexivity. Qed.

Example rates_shown :
  show_fixed2 (Expr.f64_div (Expr.f64_of_int 1240) (Expr.f64_of_int 5)) = str "248.00" ∧
  show_fixed2 (Expr.f64_div (Expr.f64_of_int (-1)) (Expr.f64_of_int 8)) = str "-0.12" ∧
  show_fixed2 (Expr.f64_div (Expr.f64_of_int 2) (Expr.f64_of_int 3)) = str "0.67".
Proof. vm_compute. split_and!; reflexivity. Qed.

(** An object that is not there is a question mark in the summary. *)
Example status_of_a_bare_agent :
  status_lines Mib.new (str "h:161")
    [mkVarBind SYS_DESCR (VOctetString (str "box")); mkVarBind SYS_UPTIME (VTimeTicks 100);
     mkVarBind IF_NUMBER VNoSuchObject; mkVarBind SNMP_IN_PKTS (VCounter32 7); mkVarBind SNMP_OUT_PKTS VNoSuchObject] =
  [str "[h:161]=>[STRING: box] Up: Timeticks: (100) 0d 0h 0m 1.00s";
   str "Interfaces: ?, Recv/Trans packets: 7/? | IP: ?/?"].
Proof. vm_compute. reflexivity. Qed.
