(* ===== verification/TableTools.v ===== *)
(** * The tools that show tables ([bin/] of [crates/netsnmp-apps/src/])

    [snmptable], [snmpdf], [snmpps] and [snmpnetstat], from their parsed
    arguments on: the tables they fetch and the grids they make of them. A
    [BTreeMap] is iterated in the order of its keys. *)

From Stdlib Require Import ZArith Lia SpecFloat.
From S2P Require Import Prelude MachineInts Text Oid Value Pdu Cells Handler Vacm Registry Serving.
From S2P Require Import Wire Usm V3 Agent Session Manager Settings Walk Tools.
From S2P Require Mib SmiDefs Expr Remote Config.

Local Open Scope list_scope.

(** The rows of a table with their indexes, in order. *)
Definition in_index_order {A} (rows : gmap (list Z) A) : list (list Z * A) :=
  sort_by (fun a b => Oid.leb a.1 b.1) (map_to_list rows).

Abbreviation row := (gmap Z Value) (only parsing).

Definition number (cells : row) (column : Z) : option Z := let! v := cells !! column in value_as_i128 v.

Definition number_or (d : text) (cells : row) (column : Z) : text := default d (show_i <$> number cells column).

Definition lossy_or (d : text) (cells : row) (column : Z) : text :=
  match cells !! column with Some (VOctetString b) => from_utf8_lossy b | _ => d end.

(** ** [snmptable] *)

Section Render.
Context (mib : Mib.MibRegistry).

Definition shown_cell (d : text) (entry : Oid) (index : list Z) (cells : row) (column : Z) : text :=
  default d (cell_display mib entry column index <$> cells !! column).

Definition table_header (data : TableData.t) : list text :=
  str "index" :: (column_label mib (TableData.entry data) <$> TableData.columns data).

Definition table_rows (data : TableData.t) : list (list text) :=
  (fun '(index, cells) =>
     index_label index :: (shown_cell unknown (TableData.entry data) index cells <$> TableData.columns data))
  <$> in_index_order (TableData.rows data).

Definition render_table (data : TableData.t) : list text := render_grid (table_header data) (table_rows data).

(** A name that ends in [table] is descended into. *)
Definition entry_of (oid : Oid) : Oid :=
  let name := to_ascii_lowercase (Mib.format_oid mib oid) in
  if bool_decide (drop (length name - 5) name = str "table") then oid ++ [1] else oid.

Definition table_output (oid : Oid) (data : TableData.t) : list text :=
  (str "SNMP table: " ++ Mib.format_oid mib oid) ::
  (if TableData.is_empty data then [str "(table is empty)"] else render_table data).

(** ** [snmpdf] *)

Definition HR_STORAGE_ENTRY : Oid := [1; 3; 6; 1; 2; 1; 25; 2; 3; 1].

Definition i128_max : Z := 2 ^ 127 - 1.
Definition saturating_mul (a b : Z) : Z := Z.max (- 2 ^ 127) (Z.min i128_max (a * b)).

Definition round_i128 (x : spec_float) : Z :=
  match x with
  | S754_finite neg m e => (if neg then Z.opp else id) (Z.min (Remote.round_half m e) i128_max)
  | S754_infinity neg => if neg then - 2 ^ 127 else i128_max
  | _ => 0
  end.

Record Usage := mkUsage { size_kb : Z; used_kb : Z; avail_kb : Z; pct : Z }.

Definition usage (cells : row) : Usage :=
  let units := Z.max (default 1 (number cells 4)) 1 in
  let size := Z.max (default 0 (number cells 5)) 0 in
  let used := Z.max (default 0 (number cells 6)) 0 in
  let size_kb := saturating_mul size units / 1024 in
  let used_kb := saturating_mul (Z.min used size) units / 1024 in
  mkUsage size_kb used_kb (size_kb - used_kb)
    (if 0 <? size
     then round_i128 (Expr.f64_mul (Expr.f64_div (Expr.f64_of_int (Z.min used size)) (Expr.f64_of_int size)) (Expr.f64_of_int 100))
     else 0).

Definition df_row (entry : Oid) (index : list Z) (cells : row) : list text :=
  let u := usage cells in
  [shown_cell (index_label index) entry index cells 3; show_i (size_kb u); show_i (used_kb u); show_i (avail_kb u);
   show_i (pct u) ++ [37]].

Definition df_header : list text :=
  [str "Description"; str "Size (kB)"; str "Used"; str "Available"; str "Used%"].

Definition render_df (entry : Oid) (data : TableData.t) : list text :=
  render_grid df_header ((fun p => df_row entry p.1 p.2) <$> in_index_order (TableData.rows data)).

(** ** [snmpps] *)

Definition HR_SW_RUN_ENTRY : Oid := [1; 3; 6; 1; 2; 1; 25; 4; 2; 1].
Definition HR_SW_RUN_PERF_ENTRY : Oid := [1; 3; 6; 1; 2; 1; 25; 5; 1; 1].
Definition COL_NAME : Z := 2.
Definition COL_PATH : Z := 4.
Definition COL_PARAMS : Z := 5.
Definition COL_TYPE : Z := 6.
Definition COL_STATUS : Z := 7.
Definition ps_columns : list Z := [COL_NAME; COL_PATH; COL_PARAMS; COL_TYPE; COL_STATUS].

Definition perf_cell (perf : TableData.t) (index : list Z) (column : Z) : text :=
  match TableData.rows perf !! index with Some cells => number_or unknown cells column | None => unknown end.

Definition command_line (cells : row) : text :=
  let path := lossy_or [] cells COL_PATH in
  let params := lossy_or [] cells COL_PARAMS in
  if bool_decide (params = []) then path else path ++ 32 :: params.

Definition ps_header (wide cmdline : bool) : list text :=
  [str "PID"; str "Name"; str "Status"] ++ (if wide then [str "CPU%"; str "MEM"] else []) ++
  [str "Type"; if cmdline then str "Command" else str "Path"].

Definition ps_row (entry : Oid) (perf : option TableData.t) (cmdline : bool) (index : list Z) (cells : row) : list text :=
  [index_label index; shown_cell [] entry index cells COL_NAME; shown_cell [] entry index cells COL_STATUS] ++
  match perf with Some p => [perf_cell p index 1; perf_cell p index 2] | None => [] end ++
  [shown_cell [] entry index cells COL_TYPE;
   if cmdline then command_line cells else shown_cell [] entry index cells COL_PATH].

Definition render_ps (entry : Oid) (data : TableData.t) (perf : option TableData.t) (cmdline : bool) : list text :=
  render_grid (ps_header (bool_decide (is_Some perf)) cmdline)
    ((fun p => ps_row entry perf cmdline p.1 p.2) <$> in_index_order (TableData.rows data)).

(** The row that the answer to a GET of one instance per column makes. *)
Definition single_row (entry : Oid) (index columns : list Z) (vars : list VarBind) : TableData.t :=
  let cells := fold_left (fun (m : row) '(vb, column) => if present (vb_value vb) then <[column := vb_value vb]> m else m)
    (combine vars columns) ∅ in
  TableData.mk entry columns (if bool_decide (cells = ∅) then ∅ else {[index := cells]}).

(** ** [snmpnetstat] *)

Definition TCP_CONN_ENTRY : Oid := [1; 3; 6; 1; 2; 1; 6; 13; 1].
Definition UDP_ENTRY : Oid := [1; 3; 6; 1; 2; 1; 7; 5; 1].
Definition IF_ENTRY : Oid := [1; 3; 6; 1; 2; 1; 2; 2; 1].
Definition IP_ROUTE_ENTRY : Oid := [1; 3; 6; 1; 2; 1; 4; 21; 1].

Definition dotted (b : bytes) : option text :=
  match b with
  | [b0; b1; b2; b3] => Some (show_u b0 ++ 46 :: show_u b1 ++ 46 :: show_u b2 ++ 46 :: show_u b3)
  | _ => None
  end.

Definition address_or (d : text) (cells : row) (column : Z) : text :=
  match cells !! column with
  | Some (VIpAddress ip) => show_ipv4 ip
  | Some (VOctetString b) => default d (dotted b)
  | _ => d
  end.

Definition endpoint (cells : row) (addr_col port_col : Z) : text :=
  address_or [42] cells addr_col ++ 58 :: number_or [42] cells port_col.

Definition tcp_row (entry : Oid) (numeric : bool) (index : list Z) (cells : row) : list text :=
  [str "tcp"; endpoint cells 2 3; endpoint cells 4 5;
   if numeric then number_or unknown cells 1 else shown_cell [] entry index cells 1].

Definition render_tcp (entry : Oid) (data : TableData.t) (numeric : bool) : list text :=
  str "Active Internet connections (tcp)" ::
  render_grid [str "Proto"; str "Local Address"; str "Remote Address"; str "State"]
    ((fun p => tcp_row entry numeric p.1 p.2) <$> in_index_order (TableData.rows data)).

Definition render_udp (data : TableData.t) : list text :=
  str "Active Internet connections (udp)" ::
  render_grid [str "Proto"; str "Local Address"]
    ((fun p => [str "udp"; endpoint p.2 1 2]) <$> in_index_order (TableData.rows data)).

Definition oper_status (entry : Oid) (v : option Value) : text :=
  match v with
  | Some (VInteger n) =>
      if n =? 1 then str "up" else if n =? 2 then str "down" else if n =? 3 then str "testing" else show_i n
  | Some v => cell_display mib entry 8 [] v
  | None => unknown
  end.

(** [cell_string]. *)
Definition name_cell (cells : row) (column : Z) : text :=
  match cells !! column with
  | Some (VOctetString b) => from_utf8_lossy b
  | Some (VInteger n) => show_i n
  | _ => unknown
  end.

Definition interface_row (entry : Oid) (cells : row) : list text :=
  [name_cell cells 2; number_or unknown cells 4; oper_status entry (cells !! 8); number_or unknown cells 5].

Definition render_interfaces (entry : Oid) (data : TableData.t) : list text :=
  str "Kernel Interface table" ::
  render_grid [str "Name"; str "MTU"; str "State"; str "Speed"]
    ((fun p => interface_row entry p.2) <$> in_index_order (TableData.rows data)).

Definition route_flags (entry : Oid) (v : option Value) : text :=
  match v with
  | Some (VInteger n) => if n =? 3 then str "UG" else if n =? 4 then str "UH" else str "U"
  | Some v => cell_display mib entry 8 [] v
  | None => unknown
  end.

Definition route_row (entry : Oid) (cells : row) : list text :=
  [address_or unknown cells 1; address_or unknown cells 7; route_flags entry (cells !! 8); number_or unknown cells 2].

Definition render_routes (entry : Oid) (data : TableData.t) : list text :=
  str "Kernel IP routing table" ::
  render_grid [str "Destination"; str "Gateway"; str "Flags"; str "Interface"]
    ((fun p => route_row entry p.2) <$> in_index_order (TableData.rows data)).

Record Group := mkGroup { g_title : text; g_name : text; g_root : Oid; g_counters : list (Z * text) }.

Local Open Scope string_scope.
Definition stat_groups : list Group :=
  [mkGroup (str "Ip") (str "ip") [1; 3; 6; 1; 2; 1; 4]
     [(3, str "total packets received"); (4, str "received header errors"); (5, str "delivered to upper layer");
      (10, str "requests sent out")];
   mkGroup (str "Icmp") (str "icmp") [1; 3; 6; 1; 2; 1; 5]
     [(1, str "input messages"); (14, str "output messages"); (2, str "input errors")];
   mkGroup (str "Tcp") (str "tcp") [1; 3; 6; 1; 2; 1; 6]
     [(5, str "active opens"); (6, str "passive opens"); (8, str "attempt fails"); (9, str "established resets");
      (10, str "current established conns"); (14, str "segments received"); (15, str "segments sent out")];
   mkGroup (str "Udp") (str "udp") [1; 3; 6; 1; 2; 1; 7]
     [(1, str "datagrams received"); (4, str "datagrams sent out"); (2, str "datagrams to unknown port");
      (3, str "datagram receive errors")];
   mkGroup (str "Snmp") (str "snmp") [1; 3; 6; 1; 2; 1; 11] [(1, str "SnmpInPkts"); (2, str "SnmpOutPkts")]].
Local Close Scope string_scope.

Definition pad_left (w : nat) (s : text) : text := replicate (w - length s) 32 ++ s.

(** The lines of one group, unless it has none but its title. *)
Definition section_lines (g : Group) (vars : list VarBind) : list text :=
  let counters := flat_map (fun '(vb, (_, label)) =>
    match value_as_i128 (vb_value vb) with
    | Some n => [str "    " ++ pad_left 12 (show_i n) ++ 32 :: label]
    | None => []
    end) (combine vars (g_counters g)) in
  match counters with [] => [] | _ => (g_title g ++ [58]) :: counters end.

(** [-P] names the one protocol to show. *)
Definition wanted_by (filter : option text) (name : text) : bool :=
  match filter with Some f => Config.eq_ignore_case f name | None => true end.

(** ** The tools *)

Section Sessions.
Context {R : RasnV3} {C : Crypto} {W : Type} {T : Transport W} (nanos : Z).
Context (opened : result (Client.t W) Error) (agent : text) (fuel : nat).

Abbreviation opening := (open_to_agent opened agent).

(** A table, or the error that ends the tool; [None] is a walk that has not
    ended. *)
Definition fetched (entry : Oid) (n : Z) (cl : Client.t W) : option (result TableData.t AppError * Client.t W) :=
  let '(r, cl) := fetch_table nanos fuel entry n cl in
  (λ r, (map_err Snmp r, cl)) <$> r.

Definition with_table (entry : Oid) (n : Z) (cl : Client.t W) (k : TableData.t → Client.t W → option Run) : option Run :=
  let! (r, cl) := fetched entry n cl in attempt_loop r (fun d => k d cl).

Definition snmptable (max_repetitions : Z) (table : text) : option Run :=
  attempt_loop (resolve_oid mib table) (fun oid =>
  attempt_loop opening (fun cl =>
  with_table (entry_of oid) max_repetitions cl (fun data _ => Some (prints (table_output oid data))))).

Definition snmpdf : option Run :=
  attempt_loop opening (fun cl =>
  with_table HR_STORAGE_ENTRY 10 cl (fun data _ =>
  Some (if TableData.is_empty data
        then fails (msg "no hrStorageTable data returned (is HOST-RESOURCES-MIB supported?)")
        else prints (render_df HR_STORAGE_ENTRY data)))).

Definition fetch_single_pid (entry : Oid) (pid : Z) (cl : Client.t W) : result TableData.t AppError :=
  let? vars := map_err (Caused (str "GET for pid " ++ show_u pid ++ str " failed: "))
    (Client.get nanos ((fun c => cell_oid entry c [pid]) <$> ps_columns) cl).1 in
  Ok (single_row entry [pid] ps_columns vars).

Definition ps_output (pid : option Z) (cmdline : bool) (perf : option TableData.t) (data : TableData.t) : Run :=
  if TableData.is_empty data then
    fails (match pid with
           | Some p => Message (str "no hrSWRunTable row for pid " ++ show_u p)
           | None => msg "no hrSWRunTable data returned (is HOST-RESOURCES-MIB supported?)"
           end)
  else prints (render_ps HR_SW_RUN_ENTRY data perf cmdline).

Definition snmpps (cmdline wide : bool) (pid : option Z) : option Run :=
  let list_processes (perf : option TableData.t) (cl : Client.t W) : option Run :=
    match pid with
    | Some p => attempt_loop (fetch_single_pid HR_SW_RUN_ENTRY p cl) (fun d => Some (ps_output pid cmdline perf d))
    | None => with_table HR_SW_RUN_ENTRY 10 cl (fun d _ => Some (ps_output pid cmdline perf d))
    end in
  attempt_loop opening (fun cl =>
  if wide then with_table HR_SW_RUN_PERF_ENTRY 10 cl (fun perf cl => list_processes (Some perf) cl)
  else list_processes None cl).

Definition stat_section (g : Group) (cl : Client.t W) : result (list text) AppError * Client.t W :=
  let '(r, cl) := Client.get nanos ((fun c => (g_root g ++ [c.1]) ++ [0]) <$> g_counters g) cl in
  (let? vars := map_err (Caused (str "statistics GET failed for " ++ g_title g ++ str ": ")) r in
   Ok (section_lines g vars), cl).

(** [render_statistics], over the groups in turn. *)
Fixpoint statistics (filter : option text) (groups : list Group) (cl : Client.t W) : result (list text) AppError :=
  match groups with
  | [] => Ok []
  | g :: gs =>
      if wanted_by filter (g_name g) then
        let '(r, cl) := stat_section g cl in
        let? ls := r in let? more := statistics filter gs cl in Ok (ls ++ more)
      else statistics filter gs cl
  end.

Inductive View := Interfaces | Route | Statistics | Connections (tcp udp : bool).

(** Which of the modes the flags ask for; [proto] is [None] for both. *)
Definition view_of (interfaces route statistics all : bool) (proto : option text) (filter : option text) : View :=
  if interfaces then Interfaces
  else if route then Route
  else if statistics then Statistics
  else
    let wants (p : text) := (all || match proto with Some q => bool_decide (q = p) | None => true end) && wanted_by filter p in
    Connections (wants (str "tcp")) (wants (str "udp")).

(** [opened2] is the second session of the view of both protocols, which are
    fetched side by side: the first error wins, and the errors of opening come
    before those of fetching. *)
Definition snmpnetstat (opened2 : result (Client.t W) Error) (numeric : bool) (filter : option text) (view : View) : option Run :=
  match view with
  | Interfaces => attempt_loop opening (fun cl =>
      with_table IF_ENTRY 10 cl (fun d _ => Some (prints (render_interfaces IF_ENTRY d))))
  | Route => attempt_loop opening (fun cl =>
      with_table IP_ROUTE_ENTRY 10 cl (fun d _ => Some (prints (render_routes IP_ROUTE_ENTRY d))))
  | Statistics => attempt_loop opening (fun cl => Some (attempt (statistics filter stat_groups cl) prints))
  | Connections true true =>
      attempt_loop opening (fun cl =>
      attempt_loop (open_to_agent opened2 agent) (fun cl2 =>
      with_table TCP_CONN_ENTRY 10 cl (fun tcp _ =>
      with_table UDP_ENTRY 10 cl2 (fun udp _ => Some (prints (render_tcp TCP_CONN_ENTRY tcp numeric ++ render_udp udp))))))
  | Connections true false => attempt_loop opening (fun cl =>
      with_table TCP_CONN_ENTRY 10 cl (fun d _ => Some (prints (render_tcp TCP_CONN_ENTRY d numeric))))
  | Connections false true => attempt_loop opening (fun cl =>
      with_table UDP_ENTRY 10 cl (fun d _ => Some (prints (render_udp d))))
  | Connections false false => Some (prints [])
  end.
End Sessions.
End Render.

(** * Rows and their order *)

Lemma in_index_order_rows {A} (m : gmap (list Z) A) i x : (i, x) ∈ in_index_order m ↔ m !! i = Some x.
Proof. unfold in_index_order. rewrite sort_by_perm. apply elem_of_map_to_list. Qed.

Lemma in_index_order_ascends {A} (m : gmap (list Z) A) : StronglySorted Oid.lt (in_index_order m).*1.
Proof.
  assert (HS : StronglySorted (λ a b : list Z * A, Oid.leb a.1 b.1 = true) (in_index_order m)).
  { apply sort_by_sorted; [done| |].
    - intros a b H%Oid.leb_gt. by apply Oid.leb_le, Oid.lt_le.
    - intros a b c H1%Oid.leb_le H2%Oid.leb_le. apply Oid.leb_le. by etrans. }
  assert (HN : NoDup (in_index_order m).*1) by (unfold in_index_order; rewrite sort_by_perm; apply NoDup_fst_map_to_list).
  induction HS as [|a l HS IH HF]; cbn; [constructor|]. apply NoDup_cons in HN as [Hn HN]. constructor; [by apply IH|].
  rewrite Forall_fmap. rewrite Forall_forall in HF |- *. intros b Hb. cbn.
  destruct (proj1 (Oid.le_lt_or_eq _ _) (proj1 (Oid.leb_le _ _) (HF b Hb))) as [?|E]; [done|].
  exfalso. apply Hn. rewrite E. by apply list_elem_of_fmap_2.
Qed.

(** Every row of a fetched table has a cell. *)
Lemma fold_rows_filled (entry : Oid) (vbs : list VarBind) (d : gset Z * gmap (list Z) (gmap Z Value)) : (∀ i r, d.2 !! i = Some r → r ≠ ∅) →
  ∀ i r, (fold_left (add_cell entry) vbs d).2 !! i = Some r → r ≠ ∅.
Proof.
  revert d. induction vbs as [|vb vbs IH]; intros d H; [done|]. apply IH. unfold add_cell.
  destruct (index_suffix entry (vb_oid vb)) as [[|c i]|]; [done| |done]. cbn [snd]. intros j r.
  destruct (decide (j = i)) as [->|N].
  - rewrite lookup_insert. destruct (decide (i = i)) as [_|?]; [|done]. intros [= <-]. apply insert_non_empty.
  - rewrite lookup_insert_ne by done. apply H.
Qed.

Lemma row_indexes (entry : Oid) (vbs : list VarBind) i : let m := TableData.rows (table_of entry vbs) in
  i ∈ (in_index_order m).*1 ↔ ∃ c v, cell m i c = Some v.
Proof.
  intros m. rewrite list_elem_of_fmap. split.
  - intros ([j r] & -> & H%in_index_order_rows). cbn [fst].
    destruct (map_choose r) as (c & v & Hv).
    { eapply (fold_rows_filled entry vbs (∅, ∅)); [|exact H]. intros ? ?. cbn. by rewrite lookup_empty. }
    exists c, v. unfold cell. by rewrite H.
  - intros (c & v & H). unfold cell in H. destruct (m !! i) as [r|] eqn:E; [|done].
    exists (i, r). split; [done|]. by apply in_index_order_rows.
Qed.

Lemma table_empty (entry : Oid) (vbs : list VarBind) : TableData.is_empty (table_of entry vbs) = true ↔
  ∀ i c, cell (TableData.rows (table_of entry vbs)) i c = None.
Proof.
  unfold TableData.is_empty. rewrite bool_decide_eq_true. split.
  - intros E i c. by rewrite E.
  - intros H. apply map_eq. intros i. rewrite lookup_empty. destruct (_ !! i) as [r|] eqn:E; [|done]. exfalso.
    destruct (proj1 (row_indexes entry vbs i)) as (c & v & Hv); [|by rewrite H in Hv].
    apply list_elem_of_fmap. exists (i, r). split; [done|]. by apply in_index_order_rows.
Qed.

Section Shown.
Context {R : RasnV3} {C : Crypto} {W : Type} {T : Transport W} (nanos : Z).
Context {ok : Client.t W → Prop} {bulk : bool} {askable : Oid → Prop} {allowed : Oid → bool} {cs : cells}.
Context {K : Walkable nanos ok bulk askable allowed cs}.

(** What a table tool knows of the table it fetched from a server. *)
Record whole_table (entry : Oid) (data : TableData.t) : Prop := {
  wt_cells i c v : cell (TableData.rows data) i c = Some v ↔
    (cell_oid entry c i, v) ∈ cs ∧ allowed (cell_oid entry c i) = true;
  wt_columns : StronglySorted Z.lt (TableData.columns data);
  wt_column c : c ∈ TableData.columns data ↔ ∃ i v, cell (TableData.rows data) i c = Some v;
  wt_order : StronglySorted Oid.lt (in_index_order (TableData.rows data)).*1;
  wt_row i : i ∈ (in_index_order (TableData.rows data)).*1 ↔ ∃ c v, cell (TableData.rows data) i c = Some v;
  wt_empty : TableData.is_empty data = true ↔ ∀ i c, cell (TableData.rows data) i c = None;
}.

Lemma fetch_whole entry n fuel cl :
  ok cl → askable entry → n <= u32_max → (length (subtree allowed cs entry) < fuel)%nat →
  ∃ data cl', fetch_table nanos fuel entry n cl = (Some (Ok data), cl') ∧ ok cl' ∧ TableData.entry data = entry ∧
    whole_table entry data.
Proof using K.
  intros Hs Ha Hn Hl. destruct (fetched_table nanos entry n fuel cl Hs Ha Hn Hl) as (d & cl' & E & Hs' & He & H1 & H2 & H3).
  exists d, cl'. split_and!; [done..|]. assert (∃ vbs, d = table_of entry vbs) as (vbs & ->).
  { unfold fetch_table, sbind, sret in E. destruct (Client.bulk_walk nanos fuel entry n cl) as [[[vbs|e]|] c]; cbn in E; [|done|done].
    injection E as <- _. by exists vbs. }
  split; [exact H1|exact H2|exact H3|apply in_index_order_ascends|apply row_indexes|apply table_empty].
Qed.

Lemma with_table_whole fuel entry n cl (k : TableData.t → Client.t W → option Run) :
  ok cl → askable entry → n <= u32_max → (length (subtree allowed cs entry) < fuel)%nat →
  ∃ data cl', with_table nanos fuel entry n cl k = k data cl' ∧ ok cl' ∧ TableData.entry data = entry ∧ whole_table entry data.
Proof using K.
  intros Hs Ha Hn Hl. destruct (fetch_whole entry n fuel cl Hs Ha Hn Hl) as (d & cl' & E & Hs' & He & H).
  exists d, cl'. split; [|done]. unfold with_table, fetched. by rewrite E.
Qed.

(** [snmptable] shows the whole table: a row for each index that has a cell that
    may be read, in order, and in it every column that has one, with a question
    mark where the row has no such cell. *)
Theorem snmptable_shows mib cl agent table oid n fuel : ok cl → resolve_oid mib table = Ok oid →
  let entry := entry_of mib oid in askable entry → n <= u32_max → (length (subtree allowed cs entry) < fuel)%nat →
  ∃ data, whole_table entry data ∧ TableData.entry data = entry ∧
    snmptable mib nanos (Ok cl) agent fuel n table = Some (prints (table_output mib oid data)) ∧
    ∀ j i r, in_index_order (TableData.rows data) !! j = Some (i, r) →
      table_rows mib data !! j = Some (index_label i ::
        ((λ c, default unknown (cell_display mib entry c i <$> cell (TableData.rows data) i c)) <$> TableData.columns data)).
Proof using K.
  intros Hs Hr entry Ha Hn Hl. unfold snmptable. rewrite Hr. cbn [attempt_loop]. unfold open_to_agent. cbn [map_err attempt_loop].
  destruct (with_table_whole fuel entry n cl (λ data _, Some (prints (table_output mib oid data))) Hs Ha Hn Hl)
    as (d & cl' & E & _ & He & H).
  exists d. split_and!; [done..|]. intros j i r Hj. unfold table_rows. rewrite list_lookup_fmap, Hj. cbn. rewrite He.
  do 2 f_equal. apply list_fmap_ext. intros k c _. unfold shown_cell, cell.
  assert (TableData.rows d !! i = Some r) as -> by (apply in_index_order_rows; by eapply list_elem_of_lookup_2). done.
Qed.

(** [snmpdf] has a line for each storage area that may be read, or says that
    there is none. *)
Theorem snmpdf_shows mib cl agent fuel : ok cl → askable HR_STORAGE_ENTRY →
  (length (subtree allowed cs HR_STORAGE_ENTRY) < fuel)%nat →
  ∃ data, whole_table HR_STORAGE_ENTRY data ∧
    snmpdf mib nanos (Ok cl) agent fuel =
      Some (if TableData.is_empty data
            then fails (msg "no hrStorageTable data returned (is HOST-RESOURCES-MIB supported?)")
            else prints (render_df mib HR_STORAGE_ENTRY data)).
Proof using K.
  intros Hs Ha Hl. unfold snmpdf, open_to_agent. cbn [map_err attempt_loop].
  edestruct (with_table_whole fuel HR_STORAGE_ENTRY 10 cl) as (d & cl' & E & _ & _ & H); [done|done|unfold u32_max; lia|done|].
  exists d. split; [done|]. exact E.
Qed.
End Shown.

(** * Figures *)

(** The figures of a storage area add up, none is negative, and the space in
    use is not more than there is, whatever the agent answers; short of 2^127
    octets the size is that of the allocation units. *)
Theorem usage_adds_up cells : let u := usage cells in
  0 <= used_kb u <= size_kb u ∧ used_kb u + avail_kb u = size_kb u ∧
  (∀ units size, number cells 4 = Some units → number cells 5 = Some size → 0 < units → 0 <= size → size * units <= i128_max →
    size_kb u = size * units / 1024).
Proof.
  unfold usage. cbn [size_kb used_kb avail_kb]. set (u := Z.max (default 1 (number cells 4)) 1).
  set (s := Z.max (default 0 (number cells 5)) 0). set (x := Z.max (default 0 (number cells 6)) 0).
  assert (S : ∀ a b, 0 <= a → 0 <= b → saturating_mul a b = Z.min i128_max (a * b)).
  { intros a b Ha Hb. unfold saturating_mul, i128_max. pose proof (Z.mul_nonneg_nonneg a b Ha Hb). lia. }
  assert (Hu : 1 <= u) by lia. assert (Hs : 0 <= s) by lia. assert (Hx : 0 <= x) by lia.
  rewrite !S by lia. split_and!.
  - apply Z.div_pos; [|lia]. unfold i128_max. assert (0 <= Z.min x s * u) by (apply Z.mul_nonneg_nonneg; lia). lia.
  - apply Z.div_le_mono; [lia|]. apply Z.min_le_compat_l, Z.mul_le_mono_nonneg_r; lia.
  - lia.
  - intros units size E4 E5 H1 H2 H3. subst u s. rewrite E4, E5. change (default ?d (Some ?a)) with a.
    rewrite (Z.max_l size 0), (Z.max_l units 1) by lia. by rewrite Z.min_r.
Qed.

Lemma usage_adds_up_witness :
  size_kb (usage (<[4 := VInteger 4096]> (<[5 := VInteger 1000000]> (<[6 := VInteger 250000]> ∅)))) = 4000000.
Proof.
  destruct (usage_adds_up (<[4 := VInteger 4096]> (<[5 := VInteger 1000000]> (<[6 := VInteger 250000]> ∅)))) as (_ & _ & H).
  rewrite (H 4096 1000000); [reflexivity|reflexivity|reflexivity|lia|lia|unfold i128_max; lia].
Defined.

(** ** A single process *)

(** A GET of the columns of one process shows the row that the whole table has
    for it. *)
Theorem single_process_row mib entry perf cmdline i cells : map_Forall (λ _ v, present v = true) cells →
  let data := single_row entry i ps_columns
    ((λ c, mkVarBind (cell_oid entry c i) (default VNoSuchInstance (cells !! c))) <$> ps_columns) in
  match TableData.rows data !! i with
  | Some cells' => ps_row mib entry perf cmdline i cells' = ps_row mib entry perf cmdline i cells
  | None => ∀ c, c ∈ ps_columns → cells !! c = None
  end.
Proof.
  intros HP data.
  assert (V : ∀ c (m : row), (if present (default VNoSuchInstance (cells !! c))
    then <[c := default VNoSuchInstance (cells !! c)]> m else m) = match cells !! c with Some v => <[c := v]> m | None => m end).
  { intros c m. destruct (cells !! c) as [v|] eqn:E; [|done]. cbn. by rewrite (HP c v E). }
  set (m := foldl (λ (m : row) c, match cells !! c with Some v => <[c := v]> m | None => m end) ∅ ps_columns).
  assert (data = TableData.mk entry ps_columns (if bool_decide (m = ∅) then ∅ else {[i := m]})) as ->.
  { unfold data, single_row, m. cbn [ps_columns fmap list_fmap combine fold_left foldl vb_value]. by rewrite !V. }
  assert (L : ∀ c, c ∈ ps_columns → m !! c = cells !! c).
  { intros c Hc. unfold m. clear -Hc.
    assert (G : ∀ l (a : row), foldl (λ (m : row) c, match cells !! c with Some v => <[c := v]> m | None => m end) a l !! c =
      if bool_decide (c ∈ l) then match cells !! c with Some v => Some v | None => a !! c end else a !! c).
    { induction l as [|x l IH]; intros a; [done|]. cbn [foldl]. rewrite IH. destruct (decide (x = c)) as [->|N].
      - rewrite (bool_decide_eq_true_2 (c ∈ c :: l)) by left. destruct (cells !! c) as [v|]; [|by destruct (bool_decide _)].
        rewrite lookup_insert. destruct (decide (c = c)) as [_|?]; [by destruct (bool_decide _)|done].
      - replace (bool_decide (c ∈ x :: l)) with (bool_decide (c ∈ l)) by (apply bool_decide_ext; rewrite elem_of_cons; split; [by right|intros [?|?]; [congruence|done]]).
        destruct (cells !! x); [by rewrite lookup_insert_ne|done]. }
    rewrite G, bool_decide_eq_true_2 by done. by destruct (cells !! c). }
  cbn [TableData.rows]. destruct (decide (m = ∅)) as [E|E].
  - rewrite bool_decide_eq_true_2, lookup_empty by done. intros c Hc. by rewrite <- L, E.
  - rewrite bool_decide_eq_false_2, lookup_singleton by done. destruct (decide (i = i)) as [_|?]; [|done].
    assert (P : ps_columns = [2; 4; 5; 6; 7]) by done.
    unfold ps_row, shown_cell, command_line, lossy_or.
    rewrite !L by (unfold COL_NAME, COL_PATH, COL_PARAMS, COL_TYPE, COL_STATUS; rewrite P; set_solver). done.
Qed.

Definition init_cells : row := <[2 := VOctetString (str "init")]> (<[7 := VInteger 1]> ∅).

Lemma single_process_row_witness :
  match TableData.rows (single_row [1; 3] [1] ps_columns
    ((λ c, mkVarBind (cell_oid [1; 3] c [1]) (default VNoSuchInstance (init_cells !! c))) <$> ps_columns)) !! [1] with
  | Some cells => ps_row Mib.new [1; 3] None false [1] cells = [str "1"; str "STRING: init"; str "INTEGER: 1"; []; []]
  | None => False
  end.
Proof.
  pose proof (single_process_row Mib.new [1; 3] None false [1] init_cells
    ltac:(apply (bool_decide_unpack _); vm_compute; exact I)) as H. cbv zeta in H.
  destruct (_ !! [1]); [rewrite H; vm_compute; reflexivity|].
  specialize (H 2 ltac:(left)). vm_compute in H. discriminate H.
Defined.

(** A connection whose port is not answered, and one of another address family. *)
Example netstat_lines :
  tcp_row Mib.new TCP_CONN_ENTRY true [1]
    (<[1 := VInteger 5]> (<[2 := VIpAddress (mkIpv4 127 0 0 1)]> (<[3 := VInteger 22]> (<[4 := VOctetString [1; 2]]> ∅)))) =
  [str "tcp"; str "127.0.0.1:22"; str "*:*"; str "5"].
Proof. vm_compute. reflexivity. Qed.

Example half_full : pct (usage (<[4 := VInteger 1024]> (<[5 := VInteger 8]> (<[6 := VInteger 3]> ∅)))) = 38.
Proof. vm_compute. reflexivity. Qed.
