(* ===== verification/AdminTools.v ===== *)
(** * The managing and the offline tools ([bin/] of [crates/netsnmp-apps/src/])

    [snmpusm], [snmpvacm], [encode_keychange], [agentxtrap] and
    [snmptranslate], from their parsed arguments on. The octets that the code
    draws at random are arguments. *)

From Stdlib Require Import ZArith Lia.
From S2P Require Import Prelude MachineInts Text Oid Value Pdu Cells Handler Vacm Registry Serving.
From S2P Require Import Wire Usm V3 Agent Session Manager Settings Walk Tools.
From S2P Require Mib Mgmt ProcNet AgentxTypes TranslateFmt SmiDefs.

Local Open Scope list_scope.

(** ** Arguments *)

Definition arg (rest : list text) (i : nat) (usage : string) : result text AppError :=
  ok_or (Message (str "usage: " ++ str usage)) (rest !! i).

Definition parse_hex (s : text) : result bytes AppError := map_err Message (parse_hex_string s).

Definition parse_i64 (s : text) : result Z AppError :=
  ok_or (Message (str "expected an integer, got " ++ quoted s)) (parse_signed i64_min i64_max s).

Definition unknown_operation {A} (op : text) (known : string) : result A AppError :=
  Err (Message (str "unknown operation " ++ quoted op ++ str " (" ++ str known ++ str ")")).

(** What is said of a SET that succeeded. *)
Definition set_ok (op : text) (vars : list VarBind) : Run :=
  prints [op ++ str " OK (" ++ show_u (Z.of_nat (length vars)) ++ str " object(s) set)"].

(** ** [snmpusm] *)

Section Usm.
Context {C : Crypto}.

(** [None] is the failed assertion of [key_change]. *)
Definition changekey (engine_id : bytes) (auth_protocol : option text) (random : bytes) (rest : list text)
    : option (result (list VarBind) AppError) :=
  let prepared :=
    let? user := arg rest 0 "changekey USER OLD NEW" in
    let? old := arg rest 1 "changekey USER OLD NEW" in
    let? new := arg rest 2 "changekey USER OLD NEW" in
    let? token := ok_or (msg "changekey requires -a <auth protocol>") auth_protocol in
    let? proto := map_err Args (parse_auth_proto token) in
    Ok (user, old, new, proto) in
  match prepared with
  | Err e => Some (Err e)
  | Ok (user, old, new, proto) =>
      let! value := key_change proto (as_bytes old) (as_bytes new) engine_id random in
      Some (Ok [Mgmt.usm_key_change engine_id user 6 value])
  end.

Definition create_user (engine_id : bytes) (session_user : text) (rest : list text) : result (list VarBind) AppError :=
  let? user := arg rest 0 "create USER [TEMPLATE]" in
  let template := default session_user (rest !! 1%nat) in
  if bool_decide (template = []) then Err (msg "create needs a TEMPLATE user (or set -u)")
  else Ok (Mgmt.usm_create engine_id user template).

Definition set_user_status (engine_id : bytes) (usage : string) (status : Z) (rest : list text) : result (list VarBind) AppError :=
  let? user := arg rest 0 usage in Ok [Mgmt.usm_set_status engine_id user status].

Definition usm_bindings (engine_id : bytes) (session_user : text) (auth_protocol : option text) (random : bytes)
    (op : text) (rest : list text) : option (result (list VarBind) AppError) :=
  let named (name : string) := bool_decide (op = str name) in
  if named "create"%string then Some (create_user engine_id session_user rest)
  else if named "delete"%string then Some (set_user_status engine_id "delete USER" Mgmt.DESTROY rest)
  else if named "activate"%string then Some (set_user_status engine_id "activate USER" 1 rest)
  else if named "deactivate"%string then Some (set_user_status engine_id "deactivate USER" 2 rest)
  else if named "changekey"%string then changekey engine_id auth_protocol random rest
  else Some (unknown_operation op "create|delete|activate|deactivate|changekey").

Context {R : RasnV3} {W : Type} {T : Transport W} (nanos : Z).

Definition snmpusm (opened : result (Client.t W) Error) (agent : text) (engine_hex user auth_protocol : option text)
    (random : bytes) (op : text) (rest : list text) : option Run :=
  attempt_loop (open_to_agent opened agent) (fun cl =>
  attempt_loop (match engine_hex with
                | Some hex => parse_hex hex
                | None => ok_or (msg "engine ID required: use -v 3 or --engine-id <hex>") (Client.engine_id cl)
                end) (fun engine_id =>
  let! r := usm_bindings engine_id (default [] user) auth_protocol random op rest in
  attempt_loop r (fun vbs => Some (attempt (snmp (Client.set nanos vbs) cl) (set_ok op))))).
End Usm.

(** ** [snmpvacm] *)

Section VacmTool.
Context (mib : Mib.MibRegistry).

Definition type_word (w : text) : option Mgmt.ViewType :=
  if bool_decide (w = str "excluded") then Some Mgmt.Excluded
  else if bool_decide (w = str "included") then Some Mgmt.Included
  else None.

Definition is_type_word (w : text) : bool := bool_decide (w = str "included") || bool_decide (w = str "excluded").

Definition createview (rest : list text) : result (list VarBind) AppError :=
  let? name := arg rest 0 "createview NAME SUBTREE [MASK] [included|excluded]" in
  let? token := arg rest 1 "createview NAME SUBTREE" in
  let? subtree := resolve_oid mib token in
  let? mask :=
    match rest !! 2%nat with
    | Some m => if is_type_word m then Ok [] else parse_hex m
    | None => Ok []
    end in
  let view_type := default Mgmt.Included (list_find_map type_word rest) in
  Ok (Mgmt.vacm_create_view name subtree mask view_type).

Definition deleteview (rest : list text) : result (list VarBind) AppError :=
  let? name := arg rest 0 "deleteview NAME SUBTREE" in
  let? token := arg rest 1 "deleteview NAME SUBTREE" in
  let? subtree := resolve_oid mib token in
  Ok [Mgmt.vacm_delete_view name subtree].

Definition integer_arg (rest : list text) (i : nat) (usage : string) : result Z AppError :=
  let? s := arg rest i usage in parse_i64 s.

Definition createsec2group (rest : list text) : result (list VarBind) AppError :=
  let usage := "createsec2group MODEL SECNAME GROUP"%string in
  let? model := integer_arg rest 0 usage in
  let? sec := arg rest 1 usage in
  let? group := arg rest 2 usage in
  Ok (Mgmt.vacm_create_sec2group model sec group).

Definition deletesec2group (rest : list text) : result (list VarBind) AppError :=
  let usage := "deletesec2group MODEL SECNAME"%string in
  let? model := integer_arg rest 0 usage in
  let? sec := arg rest 1 usage in
  Ok [Mgmt.vacm_delete_sec2group model sec].

Definition createaccess (rest : list text) : result (list VarBind) AppError :=
  let views := "createaccess ... READ WRITE NOTIFY"%string in
  let? group := arg rest 0 "createaccess GROUP CONTEXT MODEL LEVEL READ WRITE NOTIFY" in
  let? context := arg rest 1 "createaccess GROUP CONTEXT MODEL LEVEL ..." in
  let? model := integer_arg rest 2 "createaccess ... MODEL ..." in
  let? level := integer_arg rest 3 "createaccess ... LEVEL ..." in
  let? read := arg rest 4 views in
  let? write := arg rest 5 views in
  let? notify := arg rest 6 views in
  Ok (Mgmt.vacm_create_access group context model level read write notify).

Definition deleteaccess (rest : list text) : result (list VarBind) AppError :=
  let usage := "deleteaccess GROUP CONTEXT MODEL LEVEL"%string in
  let? group := arg rest 0 usage in
  let? context := arg rest 1 usage in
  let? model := integer_arg rest 2 usage in
  let? level := integer_arg rest 3 usage in
  Ok [Mgmt.vacm_delete_access group context model level].

Definition vacm_bindings (op : text) (rest : list text) : result (list VarBind) AppError :=
  let named (name : string) := bool_decide (op = str name) in
  if named "createview"%string then createview rest
  else if named "deleteview"%string then deleteview rest
  else if named "createsec2group"%string then createsec2group rest
  else if named "deletesec2group"%string then deletesec2group rest
  else if named "createaccess"%string then createaccess rest
  else if named "deleteaccess"%string then deleteaccess rest
  else unknown_operation op "createview|deleteview|createsec2group|deletesec2group|createaccess|deleteaccess".

Definition snmpvacm {R : RasnV3} {C : Crypto} {W : Type} {T : Transport W} (nanos : Z)
    (opened : result (Client.t W) Error) (agent op : text) (rest : list text) : Run :=
  attempt (open_to_agent opened agent) (fun cl =>
  attempt (vacm_bindings op rest) (fun vbs =>
  attempt (snmp (Client.set nanos vbs) cl) (set_ok op))).
End VacmTool.

(** ** [encode_keychange] *)

Definition hex_lower (d : Z) : Z := if d <? 10 then 48 + d else 87 + d.

Definition to_lower_hex (bs : bytes) : text := flat_map (fun b => [hex_lower (b / 16); hex_lower (b mod 16)]) bs.

Definition parse_engine_id (raw : text) : result bytes AppError :=
  let stripped := default raw (or_else (strip_prefix (str "0x") raw) (strip_prefix (str "0X") raw)) in
  let? bs := parse_hex stripped in
  if bool_decide (bs = []) then Err (msg "engine ID cannot be empty") else Ok bs.

(** [random k] is what is drawn for a key of [k] octets. [None] is the failed
    assertion of [key_change]. *)
Definition encode_keychange {C : Crypto} (engine_id auth_proto old_pass new_pass : text) (master : bool) (random : nat → bytes)
    : option Run :=
  attempt_loop (map_err Args (parse_auth_proto auth_proto)) (fun auth =>
  attempt_loop (parse_engine_id engine_id) (fun engine =>
  let key_len := length (localized_key auth (as_bytes old_pass) engine) in
  let! kc := key_change auth (as_bytes old_pass) (as_bytes new_pass) engine (random key_len) in
  Some (prints [to_lower_hex (if master then take key_len kc else kc)]))).

(** ** [agentxtrap] *)

Definition data_from_value (v : Value) : AgentxTypes.AgentxData :=
  match v with
  | VInteger n => AgentxTypes.DInteger (as_i32 n)
  | VOctetString b => AgentxTypes.DOctetString b
  | VOid o => AgentxTypes.DOid o
  | VIpAddress ip => AgentxTypes.DIpAddress ip
  | VCounter32 n => AgentxTypes.DCounter32 n
  | VGauge32 n => AgentxTypes.DGauge32 n
  | VTimeTicks n => AgentxTypes.DTimeTicks n
  | VOpaque b => AgentxTypes.DOpaque b
  | VCounter64 n => AgentxTypes.DCounter64 n
  | VNull | VNoSuchObject | VNoSuchInstance | VEndOfMibView => AgentxTypes.DNull
  end.

Definition parse_numeric (shown_as s : text) : result Oid AppError :=
  match Oid.from_str s with Ok o => Ok o | Err _ => Err (ParseOid shown_as) end.

Fixpoint agentx_triples (args : list text) : result (list AgentxTypes.AgentxVarBind) AppError :=
  match args with
  | [] => Ok []
  | [o] => Err (Message (str "missing TYPE for varbind " ++ quoted o))
  | [o; _] => Err (Message (str "missing VALUE for varbind " ++ quoted o))
  | o :: t :: v :: rest =>
      let? oid := parse_numeric o o in
      let? value := map_err Message (parse_typed_value t v) in
      let? vbs := agentx_triples rest in
      Ok (AgentxTypes.mkAxVarBind oid (data_from_value value) :: vbs)
  end.

Definition agentx_bindings (args : list text) : result (list AgentxTypes.AgentxVarBind) AppError :=
  match args with
  | [] => Err (msg "missing trap OID: usage: agentxtrap [-x SOCK] OID [OID TYPE VALUE]...")
  | trap :: triples =>
      let? oid := parse_numeric (str "trap OID") trap in
      let? vbs := agentx_triples triples in
      Ok (AgentxTypes.mkAxVarBind oid AgentxTypes.DNull :: vbs)
  end.

(** [notify] connects to the master, opens a session and sends the PDU. *)
Definition agentxtrap (notify : list AgentxTypes.AgentxVarBind → result unit AppError) (args : list text) : Run :=
  attempt (agentx_bindings args) (fun vbs => attempt (notify vbs) (fun _ => prints [str "notification sent"])).

(** ** [snmptranslate] *)

Inductive OutMode := Symbolic | Numeric | Full | Short | Suffix | Detailed.

#[export] Instance OutMode_eq_dec : EqDecision OutMode.
Proof. solve_decision. Defined.

Record OutOpts := mkOutOpts { mode : OutMode; enum_labels : bool }.

(** One letter of [-O], with whether [n] has been seen. *)
Definition out_letter (st : OutOpts * bool) (ch : Z) : OutOpts * bool :=
  let '(o, numeric_seen) := st in
  let to (m : OutMode) := (mkOutOpts m (enum_labels o), numeric_seen) in
  if ch =? 110 then (mkOutOpts Numeric (enum_labels o), true)
  else if ch =? 102 then to Full
  else if ch =? 115 then to Short
  else if ch =? 83 then to Suffix
  else if ch =? 100 then to Detailed
  else if ch =? 101 then (mkOutOpts (mode o) true, numeric_seen)
  else st.

Definition parse_out_opts (parts : list text) : OutOpts :=
  let '(o, numeric_seen) := fold_left out_letter (concat parts) (mkOutOpts Symbolic false, false) in
  if numeric_seen then mkOutOpts Numeric (enum_labels o) else o.

Record TreeOpts := mkTreeOpts { t_list : bool; t_print : bool; t_ascii : bool; t_table : bool; t_detailed : bool }.

Definition parse_tree_opts (parts : list text) : TreeOpts :=
  let has (c : Z) := existsb (Z.eqb c) (concat parts) in
  mkTreeOpts (has 108) (has 112) (has 97) (has 116) (has 100).

Definition any_tree (o : TreeOpts) : bool := t_list o || t_print o || t_ascii o || t_table o || t_detailed o.

Definition trim_newlines (s : text) : text := rev (trim_start_matches (fun c => c =? 10) (rev s)).

(** A block, line by line. *)
Definition block_lines (block : text) : list text := split 10 (trim_newlines block).

Section Translate.
Context (mib : Mib.MibRegistry).

Definition print_oid (opts : OutOpts) (o : Oid) : list text :=
  match mode opts with
  | Numeric => [Oid.display o]
  | Symbolic => [Mib.format_oid mib o]
  | Full => [TranslateFmt.format_full mib o]
  | Short => [TranslateFmt.format_short mib o]
  | Suffix => [TranslateFmt.format_suffix mib o]
  | Detailed => block_lines (TranslateFmt.format_detailed mib o)
  end ++
  (if enum_labels opts
   then match TranslateFmt.enum_listing mib o with Some l => [str "ENUMS: " ++ l] | None => [] end
   else []).

Definition unknown_objects (tokens : list text) : AppError :=
  Message (str "unknown object(s): " ++ SmiDefs.join (str ", ") tokens).

(** What [show] makes of each token in turn, and the tokens that name nothing. *)
Definition each_token (show : Oid → list text) (tokens : list text) : Run :=
  let out := flat_map (fun t => match TranslateFmt.resolve_token mib t with Some o => show o | None => [] end) tokens in
  match List.filter (fun t => negb (bool_decide (is_Some (TranslateFmt.resolve_token mib t)))) tokens with
  | [] => prints out
  | missing => (out, Err (unknown_objects missing))
  end.

(** [None] where the tree is deeper than [fuel]. *)
Fixpoint each_tree (fuel : nat) (ascii_safe : bool) (tokens : list text) : option (list text) :=
  match tokens with
  | [] => Some []
  | t :: ts =>
      let! here := match TranslateFmt.resolve_token mib t with
                   | Some o => block_lines <$> TranslateFmt.render_tree fuel mib o ascii_safe
                   | None => Some []
                   end in
      let! more := each_tree fuel ascii_safe ts in Some (here ++ more)
  end.

Definition single_root (tokens : list text) : result (option Oid) AppError :=
  match tokens with
  | [] => Ok None
  | t :: _ => let? o := ok_or (unknown_objects [t]) (TranslateFmt.resolve_token mib t) in Ok (Some o)
  end.

Definition run_tree_modes (fuel : nat) (tree : TreeOpts) (tokens : list text) (out : OutOpts) : option Run :=
  if t_list tree then
    let listed := (fun p : Oid * text =>
      if bool_decide (mode out = Numeric) then Oid.display p.1 else p.2 ++ str " = " ++ Oid.display p.1) <$> Mib.iter_oids mib in
    Some (if bool_decide (listed = [])
          then fails (msg "no MIB objects loaded (use -M DIR to point at a MIB folder)") else prints listed)
  else if t_table tree then
    Some (attempt (single_root tokens) (fun root =>
      prints (List.filter (fun l => negb (bool_decide (l = []))) (block_lines (TranslateFmt.render_table mib root)))))
  else if t_detailed tree then
    Some (if bool_decide (tokens = []) then fails (msg "-Td requires one or more NAME-OR-OID tokens")
          else each_token (fun o => block_lines (TranslateFmt.format_detailed mib o)) tokens)
  else if t_print tree || t_ascii tree then
    if bool_decide (tokens = []) then Some (fails (msg "-Tp/-Ta require a NAME-OR-OID root token"))
    else
      let! shown := each_tree fuel (t_ascii tree) tokens in
      Some (shown, (each_token (fun _ => []) tokens).2)
  else Some (fails (msg "no recognised -T option (use -Tl, -Tp, -Ta, -Tt, or -Td)")).

Definition snmptranslate (fuel : nat) (output tree : list text) (tokens : list text) : option Run :=
  let opts := parse_out_opts output in
  let trees := parse_tree_opts tree in
  if any_tree trees then run_tree_modes fuel trees tokens opts
  else if bool_decide (tokens = [])
  then Some (fails (msg "no objects to translate (pass a NAME-OR-OID, or use -Tl to list all)"))
  else Some (each_token (print_oid opts) tokens).
End Translate.

(** * Key changes *)

Lemma lxor_u8 a b : is_u8 a → is_u8 b → is_u8 (Z.lxor a b).
Proof.
  unfold is_u8. intros Ha Hb. destruct (Z.eq_dec (Z.lxor a b) 0) as [->|N]; [lia|].
  assert (0 <= Z.lxor a b) by (apply Z.lxor_nonneg; lia). split; [done|].
  apply Z.log2_lt_pow2; [lia|]. pose proof (Z.log2_lxor a b ltac:(lia) ltac:(lia)).
  assert (G : ∀ x, 0 <= x < 2 ^ 8 → Z.log2 x < 8).
  { intros x Hx. destruct (Z.eq_dec x 0) as [->|?]; [done|]. apply Z.log2_lt_pow2; lia. }
  pose proof (G a Ha). pose proof (G b Hb). lia.
Qed.

Lemma xor_into_bytes d h : is_bytes d → is_bytes h → is_bytes (xor_into d h).
Proof.
  intros Hd. revert h. induction Hd as [|x d Hx Hd IH]; intros h Hh; [destruct h; constructor|].
  destruct Hh as [|y h Hy Hh]; [by constructor|]. cbn. constructor; [by apply lxor_u8|by apply IH].
Qed.

Definition hex_pair_read (b : Z) : bool :=
  bool_decide (ProcNet.from_str_radix_16 255 [hex_lower (b / 16); hex_lower (b mod 16)] = Some b) &&
  forallb (fun c => (0 <=? c) && (c <? 128) && negb (is_ascii_whitespace c)) [hex_lower (b / 16); hex_lower (b mod 16)].

Lemma hex_pair_ok b : is_u8 b → hex_pair_read b = true.
Proof.
  intros H. assert (A : forallb hex_pair_read (seqZ 0 256) = true) by (vm_compute; reflexivity).
  rewrite forallb_forall in A. apply A, list_elem_of_In, elem_of_seqZ. unfold is_u8 in H. lia.
Qed.

(** What is printed in hexadecimal is read back. *)
Lemma lower_hex_read bs : is_bytes bs → parse_hex_string (to_lower_hex bs) = Ok bs.
Proof.
  intros H. unfold parse_hex_string.
  assert (A : Forall (λ c, 0 <= c < 128) (to_lower_hex bs) ∧
    List.filter (fun b => negb (is_ascii_whitespace b)) (to_lower_hex bs) = to_lower_hex bs ∧
    length (to_lower_hex bs) = (2 * length bs)%nat ∧ hex_pairs (to_lower_hex bs) = Some bs).
  { induction H as [|b bs Hb _ (I1 & I2 & I3 & I4)]; [done|].
    apply hex_pair_ok in Hb as [Hr [H1 [H2 _]%andb_true_iff]%andb_true_iff]%andb_true_iff.
    apply bool_decide_eq_true in Hr. apply andb_true_iff in H1 as [H1 W1], H2 as [H2 W2].
    cbn [to_lower_hex flat_map app List.filter hex_pairs length].
    change (flat_map _ bs) with (to_lower_hex bs). rewrite W1, W2, I2, Hr. cbn [mbind option_bind]. rewrite I4.
    split_and!; [|done|lia|done]. constructor; [lia|]. constructor; [lia|done]. }
  destruct A as (A1 & A2 & A3 & A4). rewrite as_bytes_ascii by done. cbv zeta. rewrite A2, A3, A4.
  replace (Nat.odd (2 * length bs)) with false; [done|]. by rewrite Nat.odd_mul.
Qed.

Section KeyChange.
Context {C : Crypto} {CL : CryptoLaws C}.

Lemma key_change_bytes p old new engine random kc : is_bytes random → key_change p old new engine random = Some kc → is_bytes kc.
Proof using CL.
  unfold key_change. destruct (length random <? _)%nat; [done|]. intros Hr [= <-]. apply Forall_app. split; [by apply Forall_take|].
  apply xor_into_bytes; [unfold localized_key, localize; apply digest_bytes|apply digest_bytes].
Qed.

(** The line that [encode_keychange] prints reads as the random octets followed
    by a key from which the holder of the old passphrase gets exactly the key of
    the new one; with [-m] it is the random octets alone. It never panics. *)
Theorem printed_key_change engine_hex proto old new random p engine :
  parse_auth_proto proto = Ok p → parse_engine_id engine_hex = Ok engine → new ≠ [] →
  let drawn := random (hash_len p) in is_bytes drawn → length drawn = hash_len p →
  ∃ line half kc,
    encode_keychange engine_hex proto old new false random = Some (prints [line]) ∧
    encode_keychange engine_hex proto old new true random = Some (prints [half]) ∧
    parse_hex_string line = Ok (drawn ++ kc) ∧ parse_hex_string half = Ok drawn ∧
    xor_into kc (digest p (localized_key p (as_bytes old) engine ++ drawn)) = localized_key p (as_bytes new) engine.
Proof using CL.
  intros Hp He Hn drawn Hb Hl. unfold encode_keychange. rewrite Hp, He. cbn [map_err attempt_loop].
  rewrite localized_key_len. fold drawn.
  assert (Hn' : as_bytes new ≠ []).
  { destruct new as [|c new]; [done|]. cbn. unfold encode_char. by repeat destruct (_ <? _). }
  destruct (key_change_recovers p (as_bytes old) (as_bytes new) engine drawn Hn') as [_ H].
  destruct (key_change p (as_bytes old) (as_bytes new) engine drawn) as [out|] eqn:E; rewrite ?E in H; [|lia].
  destruct H as (Lo & Ht & Hx). rewrite (take_ge drawn) in Ht by lia. rewrite Ht in Hx.
  pose proof (key_change_bytes _ _ _ _ _ _ Hb E) as Bo. cbn [mbind option_bind].
  exists (to_lower_hex out), (to_lower_hex (take (hash_len p) out)), (drop (hash_len p) out).
  split_and!; [done|done| | |done].
  - rewrite lower_hex_read by done. by rewrite <- Ht, take_drop.
  - by rewrite Ht, lower_hex_read.
Qed.

(** [snmpusm changekey] always has octets enough to draw on. *)
Lemma changekey_never_panics engine_id auth random rest : length random = 32%nat → is_Some (changekey engine_id auth random rest).
Proof using CL.
  intros H. unfold changekey. destruct (let? _ := _ in _) as [[[[u o] n] p]|e]; [|by eexists].
  unfold key_change. rewrite localized_key_len, H. destruct (Nat.ltb_spec 32 (hash_len p)) as [L|_]; [destruct p; cbn in L; lia|].
  by eexists.
Qed.
End KeyChange.

(** * Arguments that are misread *)

(** The word that makes a view excluded is looked for among all arguments, the
    name of the view included. *)
Example view_named_excluded :
  vacm_bindings Mib.new (str "createview") (str <$> ["excluded"; "1.3.6"; "included"]%string) =
  Ok (Mgmt.vacm_create_view (str "excluded") [1; 3; 6] [] Mgmt.Excluded).
Proof. vm_compute. reflexivity. Qed.

(** The trap's bindings are named by numbers only, and an integer keeps its low
    32 bits. *)
Example agentx_arguments :
  agentx_bindings (str <$> ["1.3.6.1.4.1.8072.2.3.0.1"; "sysLocation.0"; "s"; "server room B"]%string) =
    Err (ParseOid (str "sysLocation.0")) ∧
  agentx_bindings (str <$> ["1.3"; "1.3.1"; "i"; "4294967297"]%string) =
    Ok [AgentxTypes.mkAxVarBind [1; 3] AgentxTypes.DNull; AgentxTypes.mkAxVarBind [1; 3; 1] (AgentxTypes.DInteger 1)].
Proof. vm_compute. split; reflexivity. Qed.

(** * [snmptranslate] *)

(** The numeric form is printed exactly when there is an [n] among the letters
    of all [-O] options, whatever letters follow it. *)
Theorem numeric_wins parts : mode (parse_out_opts parts) = Numeric ↔ 110 ∈ concat parts.
Proof.
  unfold parse_out_opts. generalize (concat parts) as ls.
  assert (G : ∀ ls o seen, let r := fold_left out_letter ls (o, seen) in
    (r.2 = true ↔ seen = true ∨ 110 ∈ ls) ∧ (seen = false → mode o ≠ Numeric → r.2 = false → mode r.1 ≠ Numeric)).
  { induction ls as [|ch ls IH]; intros o seen; cbn -[out_letter].
    - split; [|done]. split; [by left|]. by intros [?|?%elem_of_nil].
    - assert (K : ∃ o' s', out_letter (o, seen) ch = (o', s') ∧ (s' = true ↔ seen = true ∨ ch = 110) ∧
        (seen = false → s' = false → mode o ≠ Numeric → mode o' ≠ Numeric)).
      { unfold out_letter. destruct (Z.eqb_spec ch 110) as [->|N].
        - eexists _, _. split_and!; [done| |done]. split; [by right|done].
        - assert (P : seen = true ↔ seen = true ∨ ch = 110) by (split; [by left|by intros [?|?]]).
          repeat (destruct (ch =? _); [eexists _, _; by split_and!|]). eexists _, _. by split_and!. }
      destruct K as (o' & s' & -> & K1 & K2). destruct (IH o' s') as [I1 I2]. split.
      + rewrite I1, K1, elem_of_cons. assert (S : ch = 110 ↔ 110 = ch) by (by split). clear -S. tauto.
      + intros Hs Hm Hr. destruct s'; [|by apply I2; [done|apply K2|done]].
        exfalso. assert (X : (fold_left out_letter ls (o', true)).2 = true) by (apply I1; by left). congruence. }
  intros ls. specialize (G ls (mkOutOpts Symbolic false) false). destruct (fold_left _ ls _) as [o seen]. cbn in G.
  destruct G as [G1 G2]. destruct seen; cbn.
  - split; [|done]. intros _. by destruct (proj1 G1 eq_refl).
  - split; [intros H; by destruct (G2 eq_refl ltac:(done) eq_refl)|]. intros H. by discriminate (proj2 G1 (or_intror H)).
Qed.

Lemma ended_with (out missing : list text) :
  let r : Run := match missing with [] => prints out | m :: ms => (out, Err (unknown_objects (m :: ms))) end in
  r.1 = out ∧ (r.2 = Ok tt ↔ missing = []) ∧ (∀ e, r.2 = Err e → e = unknown_objects missing).
Proof. destruct missing; cbn; split_and!; try done. by intros e [= <-]. Qed.

(** The tokens that name something are shown in order even where others do not,
    and these are all reported. *)
Theorem tokens_shown mib show tokens : let r := each_token mib show tokens in
  let known t := bool_decide (is_Some (TranslateFmt.resolve_token mib t)) in
  r.1 = flat_map (λ t, match TranslateFmt.resolve_token mib t with Some o => show o | None => [] end) (List.filter known tokens) ∧
  (r.2 = Ok tt ↔ Forall (λ t, known t = true) tokens) ∧
  (∀ e, r.2 = Err e → e = unknown_objects (List.filter (λ t, negb (known t)) tokens)).
Proof.
  intros r known. destruct (ended_with
    (flat_map (fun t => match TranslateFmt.resolve_token mib t with Some o => show o | None => [] end) tokens)
    (List.filter (fun t => negb (bool_decide (is_Some (TranslateFmt.resolve_token mib t)))) tokens)) as (H1 & H2 & H3).
  split; [etrans; [exact H1|]|split; [etrans; [exact H2|]|exact H3]]; clear H1 H2 H3; unfold known; clear.
  - induction tokens as [|t ts IH]; [done|]. cbn. rewrite IH.
    destruct (TranslateFmt.resolve_token mib t) eqn:E; [|done]. rewrite bool_decide_eq_true_2 by done. cbn. by rewrite E.
  - induction tokens as [|t ts IH]; [by split|]. cbn. rewrite Forall_cons, <- IH.
    destruct (bool_decide _); cbn; [tauto|]. split; [done|by intros [? _]].
Qed.
