(* ===== verification/Codegen.v ===== *)
(** * Generating handlers from a MIB ([crates/netsnmp-apps/src/codegen.rs] and [bin/mib2c.rs])

    How a node of the MIB registry is recognised as a scalar, a table or a
    notification, the columns found for a table, and the program text made of
    them. In the templates a tilde stands for a quotation mark, an at sign for
    the dash of the comments, and other signs that the text does not use for
    the fields that are filled in. *)

From Stdlib Require Import ZArith Lia.
From S2P Require Import Prelude MachineInts Text Oid SmiDefs Mib.
From S2P Require Notify Settings.

Local Open Scope list_scope.

Inductive GenKind := Scalar | Table | Notification.

#[export] Instance GenKind_eq_dec : EqDecision GenKind.
Proof. solve_decision. Defined.

Definition detect_kind (d : ObjectDef) : GenKind :=
  match od_syntax d with
  | SSequence => Table
  | s =>
      match od_index d with
      | Some _ => Table
      | None => match s with SBase BNull _ => Notification | _ => Scalar end
      end
  end.

Record ColumnDesc := mkColumn { number : Z; cname : text; csyntax : text; caccess : text }.

Record ResolvedNode := mkNode {
  node_name : text; node_oid : Oid; kind : GenKind; columns : list ColumnDesc; index : option text }.

(** ** Clauses as text *)

Definition base_type_text (b : BaseType) : text :=
  str match b with
      | BInteger => "Integer32" | BOctetString => "OCTET STRING" | BOid => "OBJECT IDENTIFIER" | BIpAddress => "IpAddress"
      | BCounter32 => "Counter32" | BGauge32 => "Gauge32" | BTimeTicks => "TimeTicks" | BOpaque => "Opaque"
      | BCounter64 => "Counter64" | BNull => "NULL" | BUnsigned32 => "Unsigned32"
      end.

Definition syntax_text (s : Syntax) : text :=
  match s with SBase b _ => base_type_text b | STc name _ => name | SSequence => str "SEQUENCE OF" end.

Definition access_text (a : Access) : text :=
  str match a with
      | NotAccessible => "not-accessible" | AccessibleForNotify => "accessible-for-notify" | ReadOnly => "read-only"
      | ReadWrite => "read-write" | ReadCreate => "read-create" | WriteOnly => "write-only"
      end.

Definition index_text (i : Index) : text :=
  match i with
  | Implied name => str "IMPLIED " ++ name
  | Plain names => join (str ", ") names
  | Augments entry => str "AUGMENTS { " ++ entry ++ str " }"
  end.

(** ** [resolve_node] *)

Section Resolve.
Context (registry : MibRegistry).

(** A proper descendant, and its arc after [prefix]. *)
Definition below (prefix o : Oid) : bool := Oid.is_prefix_of prefix o && negb (length o <=? length prefix)%nat.
Definition arc_after (prefix o : Oid) : Z := default 0 (o !! length prefix).

Definition describe (prefix : Oid) (p : Oid * text) : ColumnDesc :=
  let d := object_def registry p.1 in
  mkColumn (arc_after prefix p.1) p.2
    (default (str "Integer32") (syntax_text ∘ od_syntax <$> d))
    (default (str "read-only") (access_text ∘ od_max_access <$> d)).

Definition descendants (prefix : Oid) : list (Oid * text) := List.filter (fun p => below prefix p.1) (iter_oids registry).

Definition is_entry (d : ObjectDef) : bool :=
  match od_syntax d with SSequence => true | _ => bool_decide (is_Some (od_index d)) end.

(** The loop over the descendants, which ends at the first that looks like the
    entry of a table. *)
Fixpoint gather (prefix : Oid) (nodes : list (Oid * text)) (index : option text) : list ColumnDesc * option text :=
  match nodes with
  | [] => ([], index)
  | p :: nodes' =>
      let here :=
        let! d := object_def registry p.1 in
        if is_entry d
        then Some (describe p.1 <$> descendants p.1, Settings.or_else index (index_text <$> od_index d))
        else None in
      match here with
      | Some found => found
      | None => let '(cs, i) := gather prefix nodes' index in (describe prefix p :: cs, i)
      end
  end.

(** [dedup_by_key]: the first of neighbours with the same key. *)
Fixpoint dedup_from (last : option Z) (cs : list ColumnDesc) : list ColumnDesc :=
  match cs with
  | [] => []
  | c :: cs' =>
      if bool_decide (last = Some (number c)) then dedup_from last cs' else c :: dedup_from (Some (number c)) cs'
  end.

Definition by_number (cs : list ColumnDesc) : list ColumnDesc :=
  dedup_from None (sort_by (fun a b => number a <=? number b) cs).

Definition resolve_node (node : text) : option ResolvedNode :=
  let! oid := name_to_oid registry node in
  let d := object_def registry oid in
  let kind := match d with Some d => detect_kind d | None => Scalar end in
  if bool_decide (kind = Table) then
    let '(cs, i) := gather oid (descendants oid) (let! d := d in index_text <$> od_index d) in
    Some (mkNode node oid kind (by_number cs) i)
  else Some (mkNode node oid kind [] None).
End Resolve.

(** ** Templates *)

Definition fill (hole : Z → option text) (template : string) : text :=
  flat_map (fun c => default [c] (hole c)) (str template).

(** [ident], and the name in upper case. *)
Definition ident (name : text) : text := map (fun c => if c =? 45 then 95 else c) name.

(** The signs: [~] a quotation mark, [@] a dash, [%] the name, [^] the
    identifier, [$] it in upper case, [?] the OID. *)
Definition node_hole (n : ResolvedNode) (c : Z) : option text :=
  if c =? 126 then Some [34]
  else if c =? 64 then Some [8212]
  else if c =? 37 then Some (node_name n)
  else if c =? 94 then Some (ident (node_name n))
  else if c =? 36 then Some (Notify.to_ascii_uppercase (ident (node_name n)))
  else if c =? 63 then Some (Oid.display (node_oid n))
  else None.

Definition scalar_template : string :=
"//! Generated by mib2c @ scalar handler for `%`.
//!
//! `%` is rooted at `?`; the instance is served at `?.0`.
//! Replace the placeholder value and (optionally) mark it writable.

use std::sync::Arc;

use netsnmp::oid::Oid;
use netsnmp::value::Value;
use netsnmp_agent::{MibHandler, Registry, ScalarHandler};

/// The root OID of the `%` scalar.
pub const $_OID: &str = ~?~;

/// Register the `%` scalar handler with `registry`.
///
/// The placeholder value is an empty OCTET STRING; replace it with the real
/// initial value. Call `.writable()` on the `ScalarHandler` if SET is allowed.
pub fn ^_handlers() -> Vec<Arc<dyn MibHandler>> {
    vec![Arc::new(ScalarHandler::new(
        $_OID.parse::<Oid>().expect(~valid OID~),
        Value::OctetString(Vec::new()),
    ))]
}

/// Register the `%` scalar into `registry` (convenience wrapper).
pub fn register(registry: &mut Registry) {
    for h in ^_handlers() {
        registry.register(h);
    }
}

#[cfg(test)]
mod tests {
    use super::*;

    #[test]
    fn scalar_serves_instance_zero() {
        let h = ScalarHandler::new(
            $_OID.parse().unwrap(),
            Value::OctetString(b~placeholder~.to_vec()),
        );
        let inst: Oid = format!(~{}.0~, $_OID).parse().unwrap();
        assert_eq!(h.get(&inst), Some(Value::OctetString(b~placeholder~.to_vec())));
    }
}
".

Definition generate_scalar (n : ResolvedNode) : text := fill (node_hole n) scalar_template.

(** In the table's template a backslash stands for the INDEX comment and [+] for
    the column list; it is cut where the lines of column metadata go. *)
Definition table_template_head : string :=
"//! Generated by mib2c @ table handler for `%`.
//!
//! `%` is rooted at `?`; INDEX: \.
//! Columns: +.
//! Replace the `rows()` closure with the real data source.

use std::sync::Arc;

use netsnmp::oid::Oid;
use netsnmp::value::Value;
use netsnmp_agent::helpers::{Row, TableHandler};
use netsnmp_agent::{ColumnMeta, MibHandler, Registry};

/// The root OID of the `%` table.
pub const $_OID: &str = ~?~;

/// Build the `%` table handler. The provider closure returns the current
/// rows; replace the placeholder with real data collection.
pub fn ^_handlers() -> Vec<Arc<dyn MibHandler>> {
    let root: Oid = $_OID.parse().expect(~valid OID~);
    let columns = vec![+];
    let handler = TableHandler::new(root, columns, || {
        // Placeholder: one empty row. Replace with real rows.
        vec![Row::new(vec![1])]
    };
    // Attach column metadata (number, syntax, access) from the MIB.
    let _ = handler; // TableHandler does not expose with_column_meta; see TableDataSet.
    vec![Arc::new(handler)]
}

/// Register the `%` table into `registry` (convenience wrapper).
pub fn register(registry: &mut Registry) {
    for h in ^_handlers() {
        registry.register(h);
    }
}

/// Column metadata for `%`, mirroring the MIB SYNTAX/MAX-ACCESS.
/// Use this when building a `TableDataSet` for a writable table.
pub fn ^_column_meta() -> Vec<ColumnMeta> {
    vec![
".

Definition table_template_tail : string :=
"    ]
}

#[cfg(test)]
mod tests {
    use super::*;
    use netsnmp_agent::MibHandler;

    #[test]
    fn table_handler_serves_placeholder_row() {
        let h = ^_handlers().into_iter().next().unwrap();
        let root: Oid = $_OID.parse().unwrap();
        // GETNEXT from the table root should return the first cell.
        let _ = h.get_next(&root);
    }
}
".

Definition index_comment (n : ResolvedNode) : text := default (str "(none declared)") (index n).

Definition col_list (n : ResolvedNode) : text :=
  match columns n with [] => str "1" | cs => join (str ", ") (show_u ∘ number <$> cs) end.

Definition meta_line (c : ColumnDesc) : text :=
  fill (fun x => if x =? 35 then Some (show_u (number c)) else if x =? 37 then Some (csyntax c)
                 else if x =? 94 then Some (caccess c) else if x =? 126 then Some [34] else None)
    "        .with_column_meta(ColumnMeta::new(#, ~%~, ~^~))
".

Definition meta_lines (n : ResolvedNode) : text :=
  match columns n with
  | [] => str "        // TODO: add ColumnMeta for each column
"
  | cs => flat_map meta_line cs
  end.

Definition table_hole (n : ResolvedNode) (c : Z) : option text :=
  if c =? 92 then Some (index_comment n) else if c =? 43 then Some (col_list n) else node_hole n c.

Definition generate_table (n : ResolvedNode) : text :=
  fill (table_hole n) table_template_head ++ meta_lines n ++ fill (node_hole n) table_template_tail.

Definition notification_template : string :=
"//! Generated by mib2c @ notification definition for `%`.
//!
//! `%` is the notification identified by OID `?`.

use netsnmp::oid::Oid;

/// The OID of the `%` notification.
pub const $_OID: &str = ~?~;

/// The `%` notification OID, parsed.
pub fn ^_oid() -> Oid {
    $_OID.parse().expect(~valid OID~)
}

#[cfg(test)]
mod tests {
    use super::*;

    #[test]
    fn notification_oid_parses() {
        let oid = ^_oid();
        assert_eq!(oid.to_string(), ~?~);
    }
}
".

Definition generate_notification (n : ResolvedNode) : text := fill (node_hole n) notification_template.

Definition generate (n : ResolvedNode) : text :=
  match kind n with
  | Scalar => generate_scalar n
  | Table => generate_table n
  | Notification => generate_notification n
  end.

(** ** [mib2c] *)

Definition parse_config (name : text) : result GenKind Settings.ArgError :=
  let lower := to_ascii_lowercase name in
  if bool_decide (lower = str "scalar") then Ok Scalar
  else if bool_decide (lower = str "table") then Ok Table
  else if bool_decide (lower = str "notification") || bool_decide (lower = str "notify") then Ok Notification
  else Err (Settings.mkArgError (str "unknown config " ++ Settings.quoted lower)).

(** [None] is a node that cannot be resolved. *)
Definition resolve (registry : MibRegistry) (config : option text) (node : text) : option (result ResolvedNode Settings.ArgError) :=
  let! n := resolve_node registry node in
  Some (let? k := match config with Some c => parse_config c | None => Ok (kind n) end in
        Ok (mkNode (node_name n) (node_oid n) k (columns n) (index n))).

Definition mib2c (registry : MibRegistry) (config : option text) (node : text) : option (result text Settings.ArgError) :=
  let! r := resolve registry config node in Some (let? n := r in Ok (generate n)).

(** * The columns of a table *)

Lemma dedup_numbers last cs k : k ∈ number <$> dedup_from last cs → k ∈ number <$> cs.
Proof.
  revert last. induction cs as [|c cs IH]; intros last; [done|]. cbn.
  destruct (bool_decide _); [intros ?%IH; by right|]. cbn. intros [->|?%IH]%elem_of_cons; [left|by right].
Qed.

(** Of columns in ascending order one is left for each number, the first. *)
Lemma dedup_sorted last cs : StronglySorted (λ a b, number a <= number b) cs →
  (∀ k, last = Some k → Forall (λ c, k <= number c) cs) →
  StronglySorted Z.lt (number <$> dedup_from last cs) ∧ (∀ k, last = Some k → Forall (λ c, k < number c) (dedup_from last cs)) ∧
  (∀ k, k ∈ number <$> cs → last = Some k ∨ k ∈ number <$> dedup_from last cs) ∧
  ∀ c, c ∈ dedup_from last cs → ∃ pre post, cs = pre ++ c :: post ∧ Forall (λ d, number d ≠ number c) pre.
Proof.
  intros HS. revert last. induction HS as [|c cs HS IH HF]; intros last Hl.
  { cbn. split_and!; [constructor|by constructor| |]; intros ? ?%elem_of_nil; done. }
  cbn [dedup_from]. case_bool_decide as E.
  - destruct (IH last) as (I1 & I2 & I3 & I4).
    { intros k Hk. specialize (Hl k Hk). by apply Forall_cons in Hl as [_ ?]. }
    split_and!; [done|done| |].
    + intros k [->|?]%elem_of_cons; [by left|by apply I3].
    + intros d Hd. destruct (I4 d Hd) as (pre & post & -> & Hp). exists (c :: pre), post. split; [done|]. constructor; [|done].
      specialize (I2 _ E). rewrite Forall_forall in I2. specialize (I2 d Hd). lia.
  - destruct (IH (Some (number c))) as (I1 & I2 & I3 & I4); [by intros k [= <-]|]. cbn [fmap list_fmap].
    specialize (I2 _ eq_refl). split_and!.
    + constructor; [done|]. by apply Forall_fmap.
    + intros k Hk. specialize (Hl k Hk). apply Forall_cons in Hl as [Hc _]. assert (number c ≠ k) by congruence.
      constructor; [lia|]. eapply Forall_impl; [exact I2|]. cbn. intros; lia.
    + intros k [->|Hk]%elem_of_cons; [right; left|]. destruct (I3 k Hk) as [[= ->]|?]; [right; left|right; by right].
    + intros d [->|Hd]%elem_of_cons; [by exists [], cs|]. destruct (I4 d Hd) as (pre & post & -> & Hp).
      exists (c :: pre), post. split; [done|]. constructor; [|done]. rewrite Forall_forall in I2. specialize (I2 d Hd). lia.
Qed.

Lemma by_number_sorted cs : StronglySorted Z.lt (number <$> by_number cs) ∧ ∀ k, k ∈ number <$> by_number cs ↔ k ∈ number <$> cs.
Proof.
  unfold by_number. set (s := sort_by _ cs).
  assert (HS : StronglySorted (λ a b, number a <= number b) s).
  { apply sort_by_sorted; [intros x y; apply Z.leb_le|intros x y ?%Z.leb_gt; lia|intros x y z; lia]. }
  assert (HP : ∀ k, k ∈ number <$> s ↔ k ∈ number <$> cs) by (intros k; unfold s; by rewrite sort_by_perm).
  destruct (dedup_sorted None s HS) as (H1 & _ & H3 & _); [done|]. split; [done|].
  intros k. rewrite <- HP. split; [apply dedup_numbers|]. intros Hk. by destruct (H3 k Hk).
Qed.

Lemma strongly_sorted_weaken {A} (P Q : A → A → Prop) l : (∀ x y, P x y → Q x y) → StronglySorted P l → StronglySorted Q l.
Proof. intros H. induction 1 as [|x l _ IH HF]; constructor; [done|]. eapply Forall_impl; [exact HF|]. intros y. apply H. Qed.

(** Sorting changes nothing where the order is right already. *)
Lemma sort_by_sorted_id {A} (leb : A → A → bool) l : StronglySorted (λ a b, leb a b = true) l → sort_by leb l = l.
Proof.
  induction 1 as [|x l HS IH HF]; [done|]. cbn. change (foldr _ [] l) with (sort_by leb l). rewrite IH.
  destruct HF as [|y l Hy _]; [done|]. cbn. by rewrite Hy.
Qed.

Section Columns.
Context (registry : MibRegistry).

Lemma below_spec prefix o : below prefix o = true ↔ ∃ k rest, o = prefix ++ k :: rest.
Proof.
  unfold below. rewrite andb_true_iff, negb_true_iff, Nat.leb_gt, Oid.is_prefix_of_spec. split.
  - intros [[[|k rest] ->] H]; [rewrite app_nil_r in H; lia|eauto].
  - intros (k & rest & ->). split; [by exists (k :: rest)|]. rewrite length_app. cbn. lia.
Qed.

Lemma arc_after_app prefix k rest : arc_after prefix (prefix ++ k :: rest) = k.
Proof. unfold arc_after. by rewrite list_lookup_middle. Qed.

Lemma elem_of_descendants prefix o name : (o, name) ∈ descendants registry prefix ↔
  by_oid registry !! o = Some name ∧ ∃ k rest, o = prefix ++ k :: rest.
Proof.
  unfold descendants. rewrite <- elem_of_iter_oids, <- below_spec, !list_elem_of_In, filter_In. done.
Qed.

Lemma descendants_sorted prefix : StronglySorted (λ a b : Oid * text, Oid.le a.1 b.1) (descendants registry prefix).
Proof.
  unfold descendants. assert (HS : StronglySorted (λ a b : Oid * text, Oid.le a.1 b.1) (iter_oids registry)).
  { apply sort_by_sorted; [intros a b; apply Oid.leb_le|intros a b H; by apply Oid.lt_le, Oid.leb_gt|].
    intros a b c H1 H2. by etrans. }
  induction HS as [|a l HS IH HF]; cbn; [constructor|]. destruct (below prefix a.1); [|done]. constructor; [done|].
  rewrite Forall_forall in HF |- *. intros b Hb%list_elem_of_In%filter_In. apply HF, list_elem_of_In, Hb.
Qed.

Lemma arcs_ascend prefix a b : Oid.le (prefix ++ a) (prefix ++ b) → a ≠ [] → b ≠ [] → default 0 (head a) <= default 0 (head b).
Proof.
  intros H Ha Hb. apply Oid.leb_le in H. destruct a as [|x a], b as [|y b]; [done..|]. cbn.
  induction prefix as [|p prefix IH]; cbn in H.
  - unfold Oid.leb in H. cbn in H. destruct (Z.compare_spec x y); [lia|lia|done].
  - apply IH. revert H. unfold Oid.leb. cbn. by rewrite Z.compare_refl.
Qed.

Lemma described_sorted prefix : StronglySorted (λ a b, number a <= number b) (describe registry prefix <$> descendants registry prefix).
Proof.
  pose proof (descendants_sorted prefix) as HS.
  assert (HB : ∀ p, p ∈ descendants registry prefix → ∃ k rest, p.1 = prefix ++ k :: rest).
  { intros [o n] H%elem_of_descendants. apply H. }
  revert HB. induction HS as [|p l HS IH HF]; intros HB; [constructor|]. cbn [fmap list_fmap]. constructor.
  - apply IH. intros q Hq. apply HB. by right.
  - apply Forall_fmap. rewrite Forall_forall in HF |- *. intros q Hq. cbn.
    destruct (HB p ltac:(left)) as (k & r & E). destruct (HB q ltac:(by right)) as (k' & r' & E'). specialize (HF q Hq).
    rewrite E, E' in HF |- *. rewrite !arc_after_app. by apply (arcs_ascend prefix (k :: r) (k' :: r')).
Qed.

(** The columns found under an entry: one for each arc under which something is
    registered, in ascending order; where the column itself is registered it is
    the column that is described, with the name, syntax and access it has. *)
Theorem entry_columns entry : let cs := by_number (describe registry entry <$> descendants registry entry) in
  StronglySorted Z.lt (number <$> cs) ∧
  (∀ k, k ∈ number <$> cs ↔ ∃ rest, is_Some (by_oid registry !! (entry ++ k :: rest))) ∧
  (∀ k name, by_oid registry !! (entry ++ [k]) = Some name → describe registry entry (entry ++ [k], name) ∈ cs).
Proof.
  intros cs. destruct (by_number_sorted (describe registry entry <$> descendants registry entry)) as [H1 H2].
  assert (HM : ∀ k, k ∈ number <$> cs ↔ ∃ rest, is_Some (by_oid registry !! (entry ++ k :: rest))).
  { intros k. unfold cs. rewrite H2, <- list_fmap_compose, list_elem_of_fmap. split.
    - intros ([o n] & -> & (Hb & k' & rest & ->)%elem_of_descendants). cbn. rewrite arc_after_app. exists rest. by eexists.
    - intros (rest & n & Hn). exists (entry ++ k :: rest, n). cbn. rewrite arc_after_app. split; [done|].
      apply elem_of_descendants. eauto. }
  split_and!; [done|done|]. intros k name Hn.
  assert (Hk : k ∈ number <$> cs) by (apply HM; exists []; by eexists).
  apply list_elem_of_fmap in Hk as (c & -> & Hc). pose proof (described_sorted entry) as HS.
  pose proof Hc as Hc'. unfold cs, by_number in Hc'. rewrite sort_by_sorted_id in Hc'.
  2: { eapply strongly_sorted_weaken; [|exact HS]. intros x y. cbn. apply Z.leb_le. }
  destruct (dedup_sorted None _ HS) as (_ & _ & _ & H4); [done|].
  destruct (H4 c Hc') as (pre & post & E & Hp).
  apply fmap_app_inv in E as (l1 & l2 & E1 & E2 & E). destruct l2 as [|[o n] l2]; [done|]. injection E2 as E2 E3. subst pre post.
  assert (D : (o, n) ∈ descendants registry entry) by (rewrite E; apply elem_of_app; right; left).
  apply elem_of_descendants in D as (Ho & k & rest & ->).
  assert (number c = k) as Nk by (rewrite E2; cbn; apply arc_after_app). rewrite Nk in *.
  assert (I : (entry ++ [k], name) ∈ l1 ++ (entry ++ k :: rest, n) :: l2).
  { rewrite <- E. apply elem_of_descendants. eauto. }
  apply elem_of_app in I as [I|[[= Er ->]|I]%elem_of_cons].
  - exfalso. rewrite Forall_fmap, Forall_forall in Hp. apply (Hp _ I). cbn. apply arc_after_app.
  - assert ([k] = k :: rest) as [= <-] by (by apply (app_inv_head entry)). by rewrite <- E2.
  - pose proof (descendants_sorted entry) as S. rewrite E, StronglySorted_app in S. destruct S as (_ & _ & S).
    apply StronglySorted_inv in S as [_ S]. rewrite Forall_forall in S. specialize (S _ I). cbn in S.
    destruct rest as [|x rest].
    + assert (n = name) as -> by congruence. by rewrite <- E2.
    + exfalso. assert (L : Oid.le (entry ++ [k]) (entry ++ k :: x :: rest)).
      { apply Oid.prefix_le, Oid.is_prefix_of_spec. exists (x :: rest). by rewrite <- app_assoc. }
      pose proof (anti_symm Oid.le _ _ L S) as X. by apply (app_inv_head entry) in X.
Qed.
End Columns.

(** A table whose first registered descendant is its entry is resolved to the
    columns of that entry, as [entry_columns] describes them, and to the entry's
    INDEX clause where the table has none of its own. *)
Theorem table_resolved registry node t td e en ed :
  name_to_oid registry node = Some t → object_def registry t = Some td → od_syntax td = SSequence →
  head (descendants registry t) = Some (e, en) → object_def registry e = Some ed → is_entry ed = true →
  ∃ r, resolve_node registry node = Some r ∧ node_oid r = t ∧ kind r = Table ∧
    index r = Settings.or_else (index_text <$> od_index td) (index_text <$> od_index ed) ∧
    StronglySorted Z.lt (number <$> columns r) ∧
    (∀ k, k ∈ number <$> columns r ↔ ∃ rest, is_Some (by_oid registry !! (e ++ k :: rest))) ∧
    (∀ k name, by_oid registry !! (e ++ [k]) = Some name → describe registry e (e ++ [k], name) ∈ columns r).
Proof.
  intros Hn Ht Hs Hd He Hi. destruct (descendants registry t) as [|p ps] eqn:E; [done|]. injection Hd as ->.
  unfold resolve_node. rewrite Hn. cbn [mbind option_bind]. rewrite Ht. unfold detect_kind. rewrite Hs.
  rewrite bool_decide_eq_true_2 by done. rewrite E. cbn [gather fst]. rewrite He. cbn [mbind option_bind]. rewrite Hi.
  eexists. split; [done|]. cbn [node_oid kind index columns]. split_and!; [done|done|done|apply entry_columns..].
Qed.

(** * Parentheses *)

(** How many more are opened than closed. *)
Definition balance (s : text) : Z :=
  fold_right (fun c n => (if c =? 40 then 1 else if c =? 41 then -1 else 0) + n) 0 s.

Lemma balance_app a b : balance (a ++ b) = balance a + balance b.
Proof. induction a as [|c a IH]; [done|]. cbn. fold (balance (a ++ b)) (balance a). rewrite IH. lia. Qed.

(** A template filled with balanced texts has the balance of its own signs. *)
Lemma balance_fill hole template : (∀ c s, hole c = Some s → balance s = 0) →
  balance (fill hole template) = balance (List.filter (fun c => negb (bool_decide (is_Some (hole c)))) (str template)).
Proof.
  intros H. unfold fill. induction (str template) as [|c s IH]; [done|]. cbn [flat_map List.filter]. rewrite balance_app, IH.
  destruct (hole c) as [t|] eqn:E.
  - rewrite bool_decide_eq_true_2 by done. cbn [negb]. change (default [c] (Some t)) with t. by rewrite (H c t E).
  - rewrite bool_decide_eq_false_2 by (by intros [??]). cbn [negb]. change (default [c] None) with [c].
    symmetry. apply (balance_app [c]).
Qed.

Lemma balance_bare s : Forall (λ c, c ≠ 40 ∧ c ≠ 41) s → balance s = 0.
Proof.
  induction 1 as [|c s [H1 H2] _ IH]; [done|]. cbn. fold (balance s). rewrite IH.
  by rewrite (proj2 (Z.eqb_neq _ _) H1), (proj2 (Z.eqb_neq _ _) H2).
Qed.

Definition bare (s : text) : Prop := Forall (λ c, c ≠ 40 ∧ c ≠ 41) s.

Lemma bare_map f s : (∀ c, c ≠ 40 ∧ c ≠ 41 → f c ≠ 40 ∧ f c ≠ 41) → bare s → bare (map f s).
Proof. intros H. induction 1; cbn; constructor; [by apply H|done]. Qed.

Lemma bare_digits n : 0 <= n → bare (show_u n).
Proof.
  intros Hn. destruct (show_u_correct n Hn) as (_ & H & _). eapply Forall_impl; [exact H|]. intros c Hc.
  unfold is_ascii_digit in Hc. lia.
Qed.

Lemma bare_join sep l : bare sep → Forall bare l → bare (join sep l).
Proof.
  intros Hs. induction 1 as [|x l Hx Hl IH]; [constructor|]. destruct l as [|y l]; [by cbn|].
  change (bare (x ++ sep ++ join sep (y :: l))). unfold bare in *. rewrite !Forall_app. auto.
Qed.

(** A node as MIB modules give it: names, syntaxes and accesses without a
    parenthesis. *)
Record plain_node (n : ResolvedNode) : Prop := {
  pn_name : bare (node_name n);
  pn_oid : Oid.wf (node_oid n);
  pn_index : ∀ i, index n = Some i → bare i;
  pn_columns : Forall (λ c, 0 <= number c ∧ bare (csyntax c) ∧ bare (caccess c)) (columns n);
}.

Lemma bare_display o : Oid.wf o → bare (Oid.display o).
Proof.
  intros H. assert (G : bare (flat_map (fun part => 46 :: show_u part) o)).
  { induction H as [|x o Hx _ IH]; cbn; [constructor|]. constructor; [done|]. apply Forall_app. split; [|done].
    apply bare_digits, Hx. }
  destruct o; [by repeat constructor|exact G].
Qed.

Lemma node_hole_balanced n c s : plain_node n → node_hole n c = Some s → balance s = 0.
Proof.
  intros [H1 H2 _ _]. unfold node_hole. assert (I : bare (ident (node_name n))).
  { apply bare_map; [|done]. intros x Hx. by destruct (x =? 45). }
  intros H. apply balance_bare. revert H. repeat case_match; intros [= <-]; try done.
  - by repeat constructor.
  - by repeat constructor.
  - apply bare_map; [|done]. intros x Hx. destruct (_ && _) eqn:E; [lia|done].
  - by apply bare_display.
Qed.

Lemma meta_lines_balanced n : plain_node n → balance (meta_lines n) = 0.
Proof.
  intros [_ _ _ H]. unfold meta_lines. destruct (columns n) as [|c cs]; [by vm_compute|].
  induction H as [|d l (D1 & D2 & D3) _ IH]; [done|]. cbn [flat_map]. rewrite balance_app, IH, Z.add_0_r.
  unfold meta_line. rewrite balance_fill; [by vm_compute|]. intros x s. repeat case_match; intros [= <-]; apply balance_bare;
    [by apply bare_digits|done|done|by repeat constructor].
Qed.

(** The handler generated for any table opens one parenthesis that it does not
    close, so it is not a Rust program; those for scalars and notifications are
    balanced. *)
Theorem generated_parentheses n : plain_node n →
  balance (generate_table n) = 1 ∧ balance (generate_scalar n) = 0 ∧ balance (generate_notification n) = 0.
Proof.
  intros Hp. pose proof Hp as [_ _ Hi Hc]. unfold generate_table, generate_scalar, generate_notification.
  assert (NH : ∀ c s, node_hole n c = Some s → balance s = 0) by (intros c s; by apply node_hole_balanced).
  rewrite !balance_app, (meta_lines_balanced n Hp), !balance_fill; try exact NH; [split_and!; by vm_compute|].
  intros c s. unfold table_hole. destruct (c =? 92); [|destruct (c =? 43); [|apply NH]]; intros [= <-].
  - unfold index_comment. destruct (index n) as [i|]; [by apply balance_bare, Hi|by vm_compute].
  - apply balance_bare. unfold col_list. destruct (columns n) as [|x l]; [by repeat constructor|].
    apply bare_join; [by repeat constructor|]. apply Forall_fmap. eapply Forall_impl; [exact Hc|]. intros y (Hy & _). by apply bare_digits.
Qed.

(** ** A module *)

Definition demo_module : text :=
  str "D DEFINITIONS ::= BEGIN demo OBJECT IDENTIFIER ::= { enterprises 4242 } dTable OBJECT-TYPE SYNTAX SEQUENCE OF DEntry MAX-ACCESS not-accessible STATUS current ::= { demo 1 } dEntry OBJECT-TYPE SYNTAX DEntry MAX-ACCESS not-accessible STATUS current INDEX { dIndex } ::= { dTable 1 } dIndex OBJECT-TYPE SYNTAX Integer32 MAX-ACCESS read-only STATUS current ::= { dEntry 1 } dDescr OBJECT-TYPE SYNTAX OCTET STRING MAX-ACCESS read-create STATUS current ::= { dEntry 2 } dEvent NOTIFICATION-TYPE STATUS current ::= { demo 2 } END".

Definition demo_registry : MibRegistry := default new (fst <$> load_str 9 demo_module builtins).

Definition demo_columns : list ColumnDesc :=
  [mkColumn 1 (str "dIndex") (str "Integer32") (str "read-only");
   mkColumn 2 (str "dDescr") (str "OCTET STRING") (str "read-create")].

(** A table is resolved by its own name; by the name of its entry too. *)
Example demo_table :
  (λ r, (kind r, columns r, index r)) <$> resolve_node demo_registry (str "dTable") = Some (Table, demo_columns, Some (str "dIndex")) ∧
  (λ r, (kind r, columns r, index r)) <$> resolve_node demo_registry (str "dEntry") = Some (Table, demo_columns, Some (str "dIndex")).
Proof. vm_compute. split; reflexivity. Qed.

(** A NOTIFICATION-TYPE has no SYNTAX clause and is read with the syntax of an
    INTEGER, so it is taken for a scalar. *)
Example notification_is_a_scalar : kind <$> resolve_node demo_registry (str "dEvent") = Some Scalar.
Proof. vm_compute. reflexivity. Qed.

Lemma generated_parentheses_witness : balance (generate_table (mkNode (str "dTable") [1; 3; 6] Table demo_columns None)) = 1.
Proof.
  apply (generated_parentheses (mkNode (str "dTable") [1; 3; 6] Table demo_columns None)). split.
  - repeat (constructor; [done|]). constructor.
  - repeat (constructor; [unfold is_u32; lia|]). constructor.
  - done.
  - repeat (constructor; [split_and!; [cbn; lia| |]; repeat (constructor; [done|]); constructor|]). constructor.
Defined.
