(* ===== verification/Dialogue.v ===== *)
(** * A manager in conversation with an agent

    The agent of [Exchange] behind a link: what the theorems of [Session] and
    [Manager] assume holds of it, and each of them is applied to it. *)

From Stdlib Require Import ZArith Lia.
From S2P Require Import Prelude MachineInts Text Oid Value Pdu Config Cells Handler Scalar Vacm.
From S2P Require Import Registry Serving Wire Usm V3 Reference Agent Exchange Session Manager.
From S2P Require Notify Notiflog TrapReceiver Proxy Walk Transports Tools TableTools Mib.

Local Open Scope list_scope.

#[local] Existing Instance reference_v3.
#[local] Existing Instance reference_v3_laws.
#[local] Existing Instance reference_crypto.
#[local] Existing Instance reference_crypto_laws.
#[local] Existing Instance agent_ok.

#[local] Instance managed : Managed agent 2 served eq cells_of.
Proof.
  split.
  - apply _.
  - apply agent_wf.
  - by intros w w' ->.
  - intros w c (b & -> & _) ->%list_elem_of_singleton. split_and!; [unfold long_oid; cbn; lia|done|done].
Qed.

(** An hour after the agent's start; messages may take two seconds. *)
Definition HOUR : Z := 3600 * SECOND.
Definition the_link : Link Value := mkLink state [] HOUR (λ _, 0) (λ _, salt).

Lemma total_zero n : total (λ _, 0) n = 0.
Proof. induction n as [|n IH]; [done|]. cbn [total]. change (shift (λ _ : nat, 0)) with (λ _ : nat, 0). lia. Qed.

Lemma the_link_steady : steady served eq 0 (2 * SECOND) (world state) the_link.
Proof.
  split.
  - apply state_served.
  - done.
  - done.
  - done.
  - intros n. cbn. unfold SECOND. lia.
  - intros n. cbn [the_link l_time l_delays]. rewrite total_zero. reflexivity.
  - intros n. apply salt_ok.
Qed.

Definition client0 : Client (Link Value) := mkClient the_link 0.

Lemma client0_counter : counter_ok client0.
Proof. unfold counter_ok. cbn. lia. Qed.

Lemma system_nameable : nameable [1; 3; 6; 1; 2; 1; 1].
Proof.
  split_and!; [|done|unfold long_oid; cbn; lia].
  unfold Oid.wf, is_u32. repeat (constructor; [lia|]). constructor.
Qed.

Lemma subtree_here sec : allows sec Read (name_root ++ [0]) = true →
  subtree (allows sec Read) (mib cells_of (registry agent) (world state)) [1; 3; 6; 1; 2; 1; 1] =
    [mkVarBind (name_root ++ [0]) (VOctetString (str "host"))].
Proof. intros H. unfold subtree, subtree_after. cbn -[allows]. cbn in H. by rewrite H. Qed.

(** The community's walk of the system group finds the name. *)
Lemma community_walk_witness : ∃ s',
  walk (T:=agent_link agent 2 0) default_session 77 2 [1; 3; 6; 1; 2; 1; 1] client0 =
    (Some (Ok [mkVarBind (name_root ++ [0]) (VOctetString (str "host"))]), s').
Proof.
  destruct (community_walk agent 2 0 (2 * SECOND) (world state) state_served default_session 77 eq_refl
    ltac:(apply octets_bytes; cbn; repeat (constructor; [lia|]); constructor) ltac:(unfold SECOND; cbn; lia)
    2 [1; 3; 6; 1; 2; 1; 1] client0 (conj the_link_steady client0_counter) system_nameable) as (s' & E & _).
  - rewrite subtree_here by reflexivity. cbn. lia.
  - rewrite subtree_here in E by reflexivity. by exists s'.
Defined.

(** Bob's session. *)
Definition time_limit : Z := 2 * SECOND.

Lemma v3_open_and_walk_witness : ∃ s1 s3,
  v3_open (T:=agent_link3 agent 2 0) time_limit 77 client0 = (Ok tt, s1) ∧
  v3_walk (T:=agent_link3 agent 2 0) bob time_limit 0 77 2 [1; 3; 6; 1; 2; 1; 1] s1 =
    (Some (Ok [mkVarBind (name_root ++ [0]) (VOctetString (str "host"))]), s3).
Proof.
  destruct (v3_open_and_walk agent 2 0 time_limit (world state) state_served bob agent_users
    ltac:(done) time_limit 0 77 ltac:(done) ltac:(unfold time_limit, SECOND; lia) client0 the_link_steady client0_counter)
    as (s1 & E1 & H1 & Walk).
  destruct (Walk 2%nat [1; 3; 6; 1; 2; 1; 1] s1 H1 system_nameable) as (s3 & E3 & _).
  - rewrite subtree_here by reflexivity. cbn. lia.
  - rewrite subtree_here in E3 by reflexivity. exists s1, s3. exact (conj E1 E3).
Defined.

(** A session of Bob that takes the agent for one that started ten seconds ago. *)
Definition stale : V3State (Link Value) := mkV3State client0 engine_stale HOUR 1.

Lemma stale_acquainted : acquainted agent 0 time_limit (world state) stale (inv:=served) (eqv:=eq).
Proof.
  split; [apply the_link_steady|apply client0_counter|done|apply engine_stale_wf|unfold is_i32; cbn; lia].
Qed.

Lemma get_name_askable : askable_pdu get_name.
Proof. split; [apply get_name_wf|done|done|done]. Qed.

Lemma stale_session_recovers_witness : ∃ id s',
  v3_request (T:=agent_link3 agent 2 0) bob time_limit 1 77 get_name stale =
    (Ok (pad_pdu (serve (root <$> registry agent) (mib cells_of (registry agent) (world state))
      (usm_context agent bob [] (world state)) (pad_pdu (with_request_id id get_name)))), s') ∧
  ready agent 0 time_limit (world state) bob s' (inv:=served) (eqv:=eq).
Proof.
  destruct (stale_session_recovers agent 2 0 time_limit (world state) state_served bob agent_users
    ltac:(done) time_limit 1 77 ltac:(done) ltac:(unfold time_limit, SECOND; lia) get_name stale
    stale_acquainted get_name_askable ltac:(lia)) as (id & s' & E & _ & Hr).
  exists id, s'. split; [exact E|]. apply Hr. reflexivity.
Defined.

(** Somebody who knows no key answers Bob's request 5 with another name. *)
Definition forged : Pdu := with_var (new_pdu Response 5) (name_root ++ [0]) (VOctetString (str "evil")).

Lemma forged_wf : wf_pdu forged.
Proof.
  split; cbn; unfold is_i32, is_i64; try lia; [|done]. apply Forall_singleton. split; [|octets].
  unfold Oid.wf, is_u32, name_root. cbn. repeat (constructor; [lia|]). constructor.
Qed.

Lemma unauthenticated_answer_witness : ∃ bs m, build_response 9 (noauth_user []) salt engine_now [] forged = Ok bs ∧
  u_engine_boots (usm m) = 1 ∧ u_engine_time (usm m) = as_u32 now ∧ judge bob 5 false bs = Accept forged.
Proof.
  apply (unauthenticated_answer bob [] 9 salt engine_now [] forged 5); [unfold is_i32; lia|constructor|apply salt_ok|
    apply engine_now_wf|constructor|apply forged_wf|reflexivity].
Defined.

(** The first datagram that answers is a stale one, the second the answer. *)
Definition reply_bytes (id : Z) : bytes :=
  match message_encode (mkMessage V2c (str "public") (with_request_id id forged)) with Ok bs => bs | Err _ => [] end.

Definition lossy (n : nat) : event :=
  match n with
  | 0%nat => (Ok tt, Elapsed)
  | 1%nat => (Ok tt, Arrived (reply_bytes 4))
  | _ => (Ok tt, Arrived (reply_bytes 77))
  end.

Lemma request_retransmits_witness : ∃ bs,
  message_encode (message_of default_session (with_request_id 77 get_name)) = Ok bs ∧
  let '(r, s') := request (T:=scripted) default_session 77 get_name (mkClient (mkScript lossy []) 0) in
  r = Ok (with_request_id 77 forged) ∧ handed (net s') = [bs; bs; bs].
Proof.
  destruct (message_encode_back (message_of default_session (with_request_id 77 get_name))) as (bs & E & _).
  - split; [octets|]. destruct get_name_wf. by split; [unfold is_i32; cbn; lia| | | |].
  - reflexivity.
  - exists bs. split; [exact E|].
    pose proof (request_retransmits default_session 77 get_name (mkScript lossy []) 0 bs E) as H.
    assert (first_decision 77 (upcoming 3 lossy) = Some (2%nat, Ok (with_request_id 77 forged))) as D by (by vm_compute).
    cbv zeta in H. destruct (request _ _ _ _) as [r s'].
    change (first_decision _ _) with (first_decision 77 (upcoming 3 lossy)) in H. rewrite D in H.
    destruct H as (H1 & H2 & _). exact (conj H1 H2).
Defined.

(** Two handles of one socket: while the first waits for 77, the second sends 5
    and is answered, a v3 datagram comes for a third, and nothing else before
    the deadline; then a datagram nobody waits for, and the answer. *)
Definition probe : bytes := match V3.build_discovery 7 1 with Ok bs => bs | Err _ => [] end.

Definition busy_socket (n : nat) : bool * list Transports.UdpShared.Event :=
  (true, match n with
         | 0%nat => [Transports.UdpShared.Send 2 (reply_bytes 5) true; Transports.UdpShared.Datagram (reply_bytes 5);
                    Transports.UdpShared.Datagram probe]
         | _ => [Transports.UdpShared.Datagram (reply_bytes 4); Transports.UdpShared.Datagram (reply_bytes 77)]
         end).

Lemma busy_foreign : Transports.UdpShared.all_foreign 1 busy_socket.
Proof. intros [|i]; repeat (constructor; [done|]); constructor. Qed.

Lemma busy_v3 : Transports.UdpShared.v3_elsewhere 77 busy_socket.
Proof.
  assert (H : ∀ i, Forall (λ e, match e with
    | Transports.UdpShared.Datagram d => match V3.peek_security d with Ok (h, _) => (V3.msg_id h =? 77) = false | _ => True end
    | _ => True end) (busy_socket i).2).
  { intros [|i]; repeat (apply Forall_cons; split; [vm_compute; by try exact I|]); apply Forall_nil_2. }
  intros i data hd u Hd E. specialize (H i). rewrite Forall_forall in H. specialize (H _ Hd). cbn in H.
  rewrite E in H. by apply Z.eqb_neq.
Qed.

Lemma session_on_shared_socket_witness : ∃ bs,
  message_encode (message_of default_session (with_request_id 77 get_name)) = Ok bs ∧
  (request (T:=Transports.UdpShared.transport 1) default_session 77 get_name
    (mkClient (Transports.UdpShared.mkWorld (Transports.UdpShared.run Transports.UdpShared.bind []) busy_socket 0 0 []) 0)).1 =
  Ok (with_request_id 77 forged) ∧
  (request (T:=Transports.UdpShared.transport 1) default_session 77 get_name
    (mkClient (Transports.UdpShared.mkWorld (Transports.UdpShared.run Transports.UdpShared.bind []) busy_socket 0 0 []) 0)).1 ≠
  Err (ERequestIdMismatch 77 7).
Proof.
  assert (Wm : wf_message (message_of default_session (with_request_id 77 get_name))).
  { split; [octets|]. destruct get_name_wf. by split; [unfold is_i32; cbn; lia| | | |]. }
  destruct (message_encode_back _ Wm) as (bs & E & _); [reflexivity|].
  exists bs. split; [exact E|].
  destruct (Transports.UdpShared.session_on_shared_socket 1%nat default_session 77 get_name [] busy_socket 0 0 [] 0 bs Wm
    ltac:(discriminate) E busy_foreign) as [Er Hm].
  split; [rewrite Er; vm_compute; reflexivity|]. apply Hm. exact busy_v3.
Defined.

Lemma receive_fate_witness :
  let s := Transports.UdpShared.run Transports.UdpShared.bind [] in
  let s1 := (Transports.UdpShared.step s (Transports.UdpShared.Send 1 (reply_bytes 77) true)).1 in
  let s2 := Transports.UdpShared.run (Transports.UdpShared.step s1 (Transports.UdpShared.Receive 1 0)).1 (busy_socket 1).2 in
  (Transports.UdpShared.step s2 (Transports.UdpShared.Poll 1 0)).2 = Some (Transports.UdpShared.Got (Ok (reply_bytes 77))).
Proof.
  assert (E : Transports.UdpShared.peek_request_id (reply_bytes 77) = Some 77) by (by vm_compute).
  destruct (Transports.UdpShared.receive_fate [] 1%nat (reply_bytes 77) true 77 0%nat [] (busy_socket 1).2 E
    ltac:(constructor) (busy_foreign 1%nat)) as [_ H].
  refine (eq_trans H _). vm_compute. reflexivity.
Defined.

(** A proxy for the agent: in its community, and as Bob. *)
Definition community_proxy : Proxy.ProxyForwarder := Proxy.new name_root (str "10.0.0.1:161") (str "public").
Definition bob_proxy : Proxy.ProxyForwarder := Proxy.with_v3 (Proxy.mkV3Config bob time_limit 0) community_proxy.

Lemma name_nameable : nameable (name_root ++ [0]).
Proof.
  split_and!; [|done|unfold long_oid; cbn; lia].
  unfold Oid.wf, is_u32, name_root. repeat (constructor; [lia|]). constructor.
Qed.

Lemma root_nameable : nameable name_root.
Proof.
  split_and!; [|done|unfold long_oid; cbn; lia].
  unfold Oid.wf, is_u32, name_root. repeat (constructor; [lia|]). constructor.
Qed.

Lemma community_proxy_forwards_witness : ∃ s',
  Handler.get (Proxy.proxy_handler agent 2 0 77 community_proxy) (name_root ++ [0]) client0 =
    (Some (VOctetString (str "host")), s').
Proof.
  destruct (Proxy.fw_get (Forwards:=Proxy.community_proxy_forwards agent 2 0 (2 * SECOND) (world state) state_served 77 community_proxy
    eq_refl ltac:(apply octets_bytes; cbn; repeat (constructor; [lia|]); constructor) ltac:(unfold SECOND; cbn; lia) eq_refl)
    client0 (name_root ++ [0]) (conj the_link_steady client0_counter) name_nameable) as (s' & E & _).
  exists s'. exact E.
Defined.

Lemma v3_proxy_mirrors_witness : ∃ s' s'',
  Handler.get (Proxy.proxy_handler agent 2 0 77 bob_proxy) (name_root ++ [0]) client0 =
    (Some (VOctetString (str "host")), s') ∧
  Handler.get_next (Proxy.proxy_handler agent 2 0 77 bob_proxy) name_root client0 =
    (Some (mkReading (name_root ++ [0]) (VOctetString (str "host"))), s'').
Proof.
  pose proof (Proxy.v3_proxy_mirrors agent 2 0 time_limit (world state) state_served 77 bob_proxy
    (Proxy.mkV3Config bob time_limit 0) eq_refl agent_users (λ H, ltac:(discriminate H)) (Z.le_refl _)
    ltac:(unfold time_limit, SECOND; lia)) as M.
  destruct (Proxy.mr_get (Mirrors:=M) client0 (name_root ++ [0]) (conj the_link_steady client0_counter) name_nameable)
    as (s' & E & _).
  destruct (Proxy.mr_next (Mirrors:=M) client0 name_root (conj the_link_steady client0_counter) root_nameable)
    as (s2 & E2 & _); [reflexivity|].
  exists s', s2. split; [exact E|exact E2].
Defined.

(** ** The tools' client *)

Import Walk.

Lemma community_client_walks_witness : ∃ cl',
  Client.bulk_walk_each (T:=to_agent agent 2 0) 77 Client.push 2 [1; 3; 6; 1; 2; 1; 1] 10 []
    (Client.Community default_session client0) =
  (Some (Ok 1, [mkVarBind (name_root ++ [0]) (VOctetString (str "host"))]), cl').
Proof.
  destruct (community_client_walks agent 2 0 (2 * SECOND) (world state) state_served default_session 77 eq_refl
    ltac:(apply octets_bytes; cbn; repeat (constructor; [lia|]); constructor) ltac:(unfold SECOND; cbn; lia)
    Client.push [1; 3; 6; 1; 2; 1; 1] 10 2 [] (Client.Community default_session client0)) as [_ (cl' & E & _)].
  - exists client0. split; [reflexivity|]. exact (conj the_link_steady client0_counter).
  - apply system_nameable.
  - unfold u32_max. lia.
  - rewrite subtree_here by reflexivity. cbn. lia.
  - rewrite subtree_here in E by reflexivity. exists cl'. exact E.
Defined.

(** [snmpwalk] and [snmpbulkwalk] of a community. *)
Lemma walking_tools_print_witness :
  Tools.snmpwalk Mib.new (T:=to_agent agent 2 0) 77 (Ok (Client.Community default_session client0)) 2
    (Some (str "1.3.6.1.2.1.1")) = Some (Tools.prints [str ".1.3.6.1.2.1.1.5.0 = STRING: host"]) ∧
  Tools.snmpbulkwalk Mib.new (T:=to_agent agent 2 0) 77 (Ok (Client.Community default_session client0)) (str "h:161") 2 10
    (Some (str "1.3.6.1.2.1.1")) = Some (Tools.prints [str ".1.3.6.1.2.1.1.5.0 = STRING: host"]).
Proof.
  pose proof (community_walkable agent 2 0 (2 * SECOND) (world state) state_served default_session 77 eq_refl
    ltac:(apply octets_bytes; cbn; repeat (constructor; [lia|]); constructor) ltac:(unfold SECOND; cbn; lia)) as K.
  destruct (Tools.walking_tools_print (T:=to_agent agent 2 0) 77 (K:=K) Mib.new (Client.Community default_session client0)
    (str "h:161") (Some (str "1.3.6.1.2.1.1")) [1; 3; 6; 1; 2; 1; 1] 10 2) as [E1 E2].
  - exists client0. split; [reflexivity|]. exact (conj the_link_steady client0_counter).
  - vm_compute. reflexivity.
  - apply system_nameable.
  - unfold u32_max. lia.
  - rewrite subtree_here by reflexivity. cbn. lia.
  - rewrite subtree_here in E1, E2 by reflexivity. split; [exact E1|exact E2].
Defined.

Lemma secure_client_fetches_witness : ∃ s d cl', v3_open (T:=agent_link3 agent 2 0) time_limit 77 client0 = (Ok tt, s) ∧
  fetch_table (T:=to_agent3 agent 2 0) 77 2 [1; 3; 6; 1; 2; 1; 1] 10 (Client.V3 bob time_limit 0 s) = (Some (Ok d), cl') ∧
  cell (TableData.rows d) [0] 5 = Some (VOctetString (str "host")).
Proof.
  destruct (discovered agent 2 0 time_limit (world state) state_served bob agent_users ltac:(done) time_limit 0 77 ltac:(done)
    ltac:(unfold time_limit, SECOND; lia) client0 the_link_steady client0_counter) as (s & E & Hs).
  destruct (secure_client_fetches agent 2 0 time_limit (world state) state_served bob agent_users
    ltac:(done) time_limit 0 77 ltac:(done) ltac:(unfold time_limit, SECOND; lia) [1; 3; 6; 1; 2; 1; 1] 10 2
    (Client.V3 bob time_limit 0 s)) as (d & cl' & E' & _ & _ & H & _).
  - exists s. exact (conj eq_refl Hs).
  - apply system_nameable.
  - unfold u32_max. lia.
  - rewrite subtree_here by reflexivity. cbn. lia.
  - exists s, d, cl'. split; [exact E|]. split; [exact E'|]. apply H. split; [left|reflexivity].
Defined.

(** Nobody answers. *)
Lemma walks_stay_in_order_witness : ∃ vbs, in_order [1; 3; 6] vbs ∧
  (Client.walk_each (T:=scripted) 77 Client.push 9 [1; 3; 6] []
    (Client.Community default_session (mkClient (mkScript (λ _, (Ok tt, Elapsed)) []) 0))).1 =
  Some (Err ETimeout, told Client.push vbs []).
Proof.
  set (w := Client.walk_each (T:=scripted) 77 Client.push 9 [1; 3; 6] []
    (Client.Community default_session (mkClient (mkScript (λ _, (Ok tt, Elapsed)) []) 0))).
  assert (E : w.1 = Some (Err ETimeout, [])) by (by vm_compute).
  destruct (walks_stay_in_order (T:=scripted) 77 Client.push 9 [1; 3; 6] 10 []
    (Client.Community default_session (mkClient (mkScript (λ _, (Ok tt, Elapsed)) []) 0)) (Err ETimeout) [] w.2
    (or_introl (eq_trans (surjective_pairing w) (f_equal (λ x, (x, w.2)) E)))) as (vbs & H1 & H2 & _).
  exists vbs. split; [exact H1|]. by rewrite E, <- H2.
Defined.

(** ** A receiver of notifications *)

Import Notiflog TrapReceiver.

Definition trapd : TrapReceiverConfig :=
  mkReceiver (Some (str "public")) default_engine_id 1 [bob] (Some (str "%N %%")) [StdoutSink].

Definition link_down : Oid := [1; 3; 6; 1; 6; 3; 1; 1; 5; 3].
Definition inform_pdu : Pdu := mkPdu Inform 5 0 0
  [mkVarBind Notify.SYSUPTIME_OID (VTimeTicks 42); mkVarBind Notify.SNMP_TRAP_OID (VOid link_down)] None.

Lemma inform_built : Notify.build_notification Inform 5 42 link_down [] = Ok inform_pdu.
Proof. done. Qed.

Lemma inform_wf : wf_pdu inform_pdu.
Proof.
  split.
  - unfold is_i32. cbn. lia.
  - unfold is_i64. cbn. lia.
  - unfold is_i64. cbn. lia.
  - constructor; [|constructor; [|constructor]]; split; try (apply Oid.wf_check; reflexivity). unfold wf_vb. cbn. unfold is_u32. lia.
  - done.
Qed.

Lemma trapd_wf : wf_receiver trapd.
Proof.
  split; [apply default_engine_bytes|unfold is_u32; cbn; lia|].
  intros n u H. change (Agent.users agent !! n = Some u) in H. exact (wa_users agent agent_wf n u H).
Qed.

Lemma community_notification_received_witness :
  let m := mkMessage V2c (str "public") inform_pdu in
  ∃ bs r, message_encode m = Ok bs ∧
    TrapReceiver.handle_datagram trapd now salt bs 0 =
      (Ok (mkDisposition (Some (received Community None Inform (on_arrival 42 link_down []))) r), 0).
Proof.
  intros m. destruct (message_encode m) as [bs|e] eqn:E; [|by vm_compute in E].
  assert (W : wf_message m) by (split; [by octets|exact inform_wf]).
  pose proof (community_notification_received trapd Inform 5 42 link_down [] inform_pdu inform_built
    now salt V2c (str "public") bs 0 W E) as H. cbv iota in H.
  change (accepts_community trapd (str "public")) with true in H. cbv iota in H.
  destruct H as (r & H & _). exists bs, r. exact (conj eq_refl H).
Defined.

Lemma bob_inform : ∃ bs, build_user_message 7 true bob salt engine_now [] inform_pdu = Ok bs.
Proof.
  destruct salt_ok as [Hl Hs].
  destruct (user_message_back 7 true bob salt engine_now [] inform_pdu) as (bs & tag & privp & E & _);
    [unfold is_i32; lia|apply bob_text|exact Hl|exact Hs|apply engine_now_wf|constructor|apply inform_wf|reflexivity|eauto].
Qed.

Lemma v3_notification_received_witness :
  ∃ bs r, build_user_message 7 true bob salt engine_now [] inform_pdu = Ok bs ∧
    TrapReceiver.handle_datagram trapd now salt bs 0 =
      (Ok (mkDisposition (Some (received TrapReceiver.V3 (Some (str "bob")) Inform (on_arrival 42 link_down []))) r), 0).
Proof.
  destruct bob_inform as [bs E].
  pose proof (v3_notification_received trapd Inform 5 42 link_down [] inform_pdu inform_built
    now salt salt true 7 bob engine_now [] bs 0 trapd_wf agent_users ltac:(unfold is_i32; lia) salt_ok salt_ok
    engine_now_wf (λ H, ltac:(discriminate H)) (List.Forall_nil _) inform_wf E) as H.
  change (bool_decide (Inform = Inform) && has_auth (security_level_of bob) && negb (timely trapd engine_now now))
    with false in H. cbv iota in H.
  destruct H as (r & H & _). exists bs, r. exact (conj E H).
Defined.

Lemma v1_trap_received_witness :
  let m := mkMessage V1 (str "public") (Notify.build_v1_trap link_down (mkIpv4 127 0 0 1) 6 9 42 []) in
  ∃ bs, message_encode m = Ok bs ∧
    TrapReceiver.handle_datagram trapd now salt bs 0 =
      (Ok (mkDisposition (Some (mkReceived Community None false
        (Notify.mkNotification 42 (link_down ++ [0; 9]) []))) None), 0).
Proof.
  intros m. destruct (message_encode m) as [bs|e] eqn:E; [|by vm_compute in E]. exists bs. split; [done|].
  assert (W : wf_message m).
  { split; [by octets|]. split; [unfold is_i32; cbn; lia|unfold is_i64; cbn; lia..|constructor|intros t [= <-]].
    split_and!; [by apply Oid.wf_check|change (is_bytes [127; 0; 0; 1]); (octets)|unfold is_u8, is_u32; cbn; lia..]. }
  apply (v1_trap_received trapd now salt (str "public") link_down (mkIpv4 127 0 0 1) 6 9 42 [] bs 0 W E eq_refl).
Defined.

Lemma keyless_notification_is_surfaced_witness : ∃ bs,
  build_user_message 7 false (noauth_user (str "bob")) salt engine_now [] (mkPdu TrapV2 5 0 0 (variables inform_pdu) None)
    = Ok bs ∧
  TrapReceiver.handle_datagram trapd now salt bs 0 =
    (Ok (mkDisposition (Some (mkReceived TrapReceiver.V3 (Some (str "bob")) false (on_arrival 42 link_down []))) None), 0).
Proof.
  apply (keyless_notification_is_surfaced trapd now salt salt 7 (str "bob") bob engine_now 42 link_down [] 5
    (mkPdu TrapV2 5 0 0 (variables inform_pdu) None) 0 trapd_wf agent_users eq_refl).
  - unfold is_i32. lia.
  - apply salt_ok.
  - apply engine_now_wf.
  - discriminate.
  - reflexivity.
  - destruct inform_wf. by split.
  - reflexivity.
Defined.

Lemma date_and_time_names_the_second_witness :
  seconds_of (date_and_time 1000000000123456789) = Some 1000000000 ∧
  date_and_time 1000000000123456789 = [7; 209; 9; 9; 1; 46; 40; 0; 43; 0; 0].
Proof.
  split; [|by vm_compute].
  by destruct (date_and_time_names_the_second 1000000000123456789 ltac:(lia) ltac:(by vm_compute)) as [H _].
Defined.
